(* ===== verification/_CoqProject ===== *)
-Q . S2P
Prelude.v
Blocks.v
FreeQueue.v
Request.v
Hashing.v
BlockMap.v
Env.v
Metrics.v
BlockPool.v
BlockPoolInv.v
BlockPoolCache.v
BlockPoolAlloc.v
BlockPoolInit.v
BlockPoolFull.v
BlockPoolSpec.v
EncoderCache.v
EncoderCacheSpec.v
SchedUtils.v
Heapq.v
RequestQueue.v
Managers.v
ManagerInv.v
ManagerOps.v
ManagerSpec.v
ManagerTails.v
ManagerHits.v
ManagerWindow.v
Coordinator.v
CoordinatorHits.v
CoordinatorSpec.v
CoordinatorCaching.v
KVCacheManager.v
KVCacheManagerSpec.v
OrderedDict.v
Offload.v
OffloadPolicies.v
OffloadSpec.v
OffloadTracker.v
OffloadSteps.v
Tiering.v
TieringPrimary.v
TieringInv.v
TieringOps.v
TieringRequests.v
TieringCalls.v
TieringServe.v
TieringSteps.v
TieringExample.v
TieringPeer.v
SchedEncoder.v
SchedChunk.v
DeferredFree.v
SchedRequest.v
SchedIface.v
Scheduler.v
SchedulerInv.v
SchedulerOps.v
SchedulerPreempt.v
SchedulePass.v
ScheduleInv.v
ScheduleRun.v
ScheduleWait.v
ScheduleAdmit.v
ScheduleLoop.v
Schedule.v
ScheduleSpec.v
SchedUpdate.v
SchedBlind.v
SchedUpdateInv.v
SchedDeliver.v
SchedUpdateLoop.v
SchedUpdateSpec.v
SchedDrafts.v
SchedDraftsSpec.v
SchedulerSteps.v
SchedServices.v
EncoderLaws.v
SchedSystem.v
SchedFindings.v
SchedTheorems.v
