(* ===== verification/Prelude.v ===== *)
(** * vLLM v1 engine core: a verification library

    The part of vLLM that decides which tokens get which memory: requests wait
    in queues, the KV cache manager looks up cached prefixes and allocates
    blocks of a fixed pool to them, block hashes identify what a block holds,
    encoder outputs have a cache of their own, and blocks that leave the device
    can be kept in a CPU tier.  The sources are Python files under src/vllm/v1;
    every definition below names the method it translates.

    ** How the parts interact

    - A [Request] (request.py) carries its tokens and the chained hashes of its
      full blocks; appending tokens extends the hashes (kv_cache_utils.py).
    - Waiting requests sit in a [RequestQueue] (sched/request_queue.py), FCFS or
      by priority; sched/utils.py decides when a request stops.
    - [KVCacheManager] (kv_cache_manager.py) serves the scheduler.  It asks its
      coordinator (kv_cache_coordinator.py) for the longest cached prefix over
      all KV cache groups and for the blocks of new tokens.
    - The coordinator has one manager per group (single_type_kv_cache_manager.py),
      which keeps the block table of every request for its kind of attention.
    - All managers share one [BlockPool] (block_pool.py): block objects with
      reference counts, a free queue threaded through them, and the index from
      hashes to cached blocks; freed blocks stay cached until they are reused.
    - [EncoderCacheManager] (encoder_cache_manager.py) does the same accounting
      for encoder outputs.
    - [Scheduler] (sched/scheduler.py) keeps the request objects in a running list
      and two waiting queues, and in every step decides which requests run how
      many tokens, preempting others when blocks run out.
    - [CPUOffloadingManager] (kv_offload/cpu/manager.py) keeps offloaded chunks
      in a fixed number of slots, with the eviction order left to a policy.
    - [TieringOffloadingManager] (kv_offload/tiering/manager.py) puts secondary
      tiers behind that one: it cascades new chunks to them, promotes chunks found
      in them, and tracks every transfer until its tier reports it; a tier that
      serves peers calls back.

    ** Files

    - Prelude.v: the state-and-exception monad [M], its total-correctness logic
      [wp], Python slices and integers, shared lemmas and hints.
    - OrderedDict.v: Python dictionaries whose order is read.
    - Env.v: what the code takes from outside (below).
    - Blocks.v, FreeQueue.v: [KVCacheBlock] objects in a heap and
      [FreeKVCacheBlockQueue], the doubly linked list over them
      (kv_cache_utils.py), refined to a list.
    - Request.v, Hashing.v: request.py and the hashing half of kv_cache_utils.py.
    - BlockMap.v, Metrics.v, BlockPool.v: [BlockHashToBlockMap], the metrics
      collector (kv_cache_metrics.py) and [BlockPool].  BlockPoolInv.v has the
      invariant, BlockPoolAlloc.v, BlockPoolCache.v, BlockPoolInit.v and
      BlockPoolFull.v the specifications of the operations, BlockPoolSpec.v the
      theorems.
    - EncoderCache.v, EncoderCacheSpec.v: both encoder cache managers.
    - SchedUtils.v, Heapq.v, RequestQueue.v: stop checks, Python's heapq and the
      two queues behind one interface.
    - Managers.v: [SingleTypeKVCacheManager] and its subclasses; a method that a
      subclass overrides dispatches on the spec.  ManagerInv.v has the ownership
      invariant, ManagerOps.v the operations, ManagerSpec.v the theorems on
      allocation, ManagerTails.v the invariant of the blocks still being filled,
      ManagerHits.v and ManagerWindow.v the prefix searches.
    - Coordinator.v: the three coordinators.  CoordinatorHits.v states what every
      group owes to a lookup ([covers]) and proves the fixed point over groups;
      CoordinatorSpec.v proves allocation over several groups and
      CoordinatorCaching.v [cache_blocks], full and partial.
    - KVCacheManager.v, KVCacheManagerSpec.v: the scheduler's interface.
    - SchedEncoder.v, SchedChunk.v, DeferredFree.v: parts of the scheduler
      (sched/scheduler.py): [_try_schedule_encoder_inputs], the cutting of
      prefill chunks, and the release of blocks behind the fence of the steps in
      flight.
    - SchedRequest.v, SchedIface.v: request objects and streaming updates, the
      queues by policy, the state of the scheduler and the classes
      of the components it calls.  Scheduler.v: the methods of the request
      lifecycle.  SchedulerInv.v has the laws the components owe and the
      lifecycle invariant, SchedulerOps.v and SchedulerPreempt.v the
      specifications of the methods.
    - SchedulePass.v, ScheduleWait.v, Schedule.v: [schedule] as a whole: the loop
      over running requests, the loop over waiting requests, the output
      (sched/output.py) and the overrides of [AsyncScheduler]
      (sched/async_scheduler.py).  ScheduleInv.v, ScheduleRun.v, ScheduleAdmit.v
      and ScheduleLoop.v prove the loops, ScheduleSpec.v the method.
    - SchedUpdate.v: [update_from_output] as a whole, with failed loads and the
      override of [AsyncScheduler].  SchedBlind.v has the statements that do not
      see the queues and the sampled tokens, SchedUpdateInv.v the laws
      and the view of the queues without the stopped requests, SchedDeliver.v
      what an output does to its request, SchedUpdateLoop.v the loop,
      SchedUpdateSpec.v the method and the cutting of failed loads.
    - SchedDrafts.v: the draft tokens of speculative decoding,
      [update_draft_token_ids] and [update_draft_token_ids_in_output];
      SchedDraftsSpec.v proves them.
    - SchedulerSteps.v: the scheduler as a transition system.  SchedServices.v
      has the components of this library behind the scheduler's classes,
      EncoderLaws.v the encoder cache's laws, SchedSystem.v a small system on
      which everything is evaluated, SchedFindings.v runs that go wrong,
      SchedTheorems.v the theorems.
    - Offload.v: offload keys, LRU and ARC as instances of [CachePolicy], the CPU
      manager.  OffloadPolicies.v states the laws a policy owes
      ([CachePolicySpec]) and proves them for both; OffloadSpec.v proves the
      manager against the laws alone; OffloadTracker.v is the store filter;
      OffloadSteps.v has the step relation and the theorems.
    - Tiering.v: the tiering manager, the class [SecondaryTier] and the programs a
      serving tier runs against the manager.  TieringPrimary.v restates the CPU
      manager by its readers and writers; TieringInv.v has what a tier promises
      ([SecondaryTierLaws]) and the invariant; TieringOps.v (polling, lookup,
      transfers), TieringRequests.v (requests and parked keys), TieringCalls.v
      (loads and stores) and TieringServe.v (peers, steps, resets) prove the
      methods; TieringSteps.v has the step relation and the theorems.
      TieringExample.v is the tier of tiering/example/manager.py with its laws and
      a run; TieringPeer.v has the peer-to-peer tier's lookups
      (tiering/p2p/session/server.py) and runs that contradict comments.

    ** How the code is modelled

    Python objects that are shared are locations of a heap: blocks are [loc]s,
    and the free queue's links are fields of the block objects, so aliasing is
    the code's.  Methods are functions in [M S A] over the store they mutate;
    exceptions, failed assertions included, are values of [exn].  [wp m Q s]
    says that [m] raises nothing, so every theorem stated with it, or with
    [= Ok _ _], is a total statement.  Integers are unbounded as in Python,
    except [ctypes.c_int32] reference counts of chunks, which wrap ([wrap32]).
    A [ChunkStatus] is referenced only from the policy's dictionary while it is
    stored, so an assignment to it is an update of that entry ([pol_write]).
    Floats (durations, usage, ARC's target) are exact rationals.

    Loops whose end is not structural take fuel, and running out of it is the
    exception [OutOfFuel]; the theorems show it does not happen: the hasher loop
    takes one more than the tokens, the loops of [schedule] one per running and
    per waiting request, a preemption loop one per running request, a bisection the length of its list, the
    draining of parked blocks one per entry, the walk of the free queue one per
    location,
    the eviction loop of the encoder cache one more than the freeable entries,
    heapq's sifts one more than the position or the length, the rounds of the
    hybrid lookup one more than the largest length, which falls in each round.

    [Env] holds what is not in the sources: the SHA-256 digest, an environment
    flag, the clock, random draws and the iteration order of Python sets.  The
    block hash function and the seed of the hash chain are arguments of the
    hashing definitions; collision freedom is a named hypothesis of the one
    theorem that needs it.

    ** What the theorems show

    - Memory: the free queue refines a list; over every run of client calls the
      pool's free list is exactly its unreferenced blocks, the index and the
      blocks' hashes agree, and no block is handed out twice.
    - Ownership: a block's reference count is the number of times requests list
      it; the capacity check of a manager, of the coordinator and of
      [allocate_slots] is sound: when it passes, allocation and caching cannot
      fail and the reserve and the watermark stay free.  A block past the cached
      prefix of a request is hashed at most up to a boundary inside it and is
      listed by that request alone ([tails_ok]); the contract is that blocks
      taken whole from a hit are not such blocks ([apart]), which a lookup
      guarantees where only whole blocks are hashed.
    - Prefix caching: equal hashes mean equal prefixes and equal extra keys;
      each attention kind's search returns the longest aligned cached prefix it
      can use; the lookup over several groups returns the longest length every
      group covers, and its result is a valid input of the allocation.
    - Queues: both queues refine the policy's abstract order.
    - Encoder cache: accounting and references are exact, eviction is oldest
      first and terminates.
    - Scheduling: no token is scheduled whose encoder output will be missing;
      prefill chunks end only where state may be cached and make progress; a
      block a step in flight may write is not free until that step's output has
      been processed, over every run of the scheduler's calls.
    - Scheduler: over every run of its calls, a tracked unfinished request is in
      exactly one queue with a status that belongs there and the caches hold
      entries only for tracked requests; calls within their contract raise
      nothing but the forced reset's [RuntimeError]; [schedule] ends, stays within
      every budget, reports each scheduled request once and advances it by what
      it reports; [update_from_output] drains what was in flight, gives each
      request exactly the tokens its client is told, and leaves no request with a
      block that failed to load; drafts fill exactly the placeholders scheduled
      for them and late ones are cached within their bound; finishing, arrival and
      reset do exactly what they should.  The theorems are proved against the laws
      of the components' classes; the encoder cache's are proved of the real
      manager.
    - Offloading: for every policy that meets the laws, slots are never shared
      or lost, counters are exact, no call within its contract fails, a store is
      all or nothing and never evicts a chunk in use, a load reads the slots the
      store wrote; LRU and ARC evict the oldest idle chunks and ARC's ghost lists
      and target stay within capacity; the tracker stays within its bound.
    - Tiers: with any tiers that keep their promises, over every run of documented
      calls and of the tiers' own progress, no assertion fails, every transfer
      keeps the slots it was given and nothing else uses a slot being written;
      lookups tell what the primary tier has; a step's end submits every queued
      promotion; a reset leaves no transfer behind.  What the tiers' threads do
      is part of a step of the relation, [tier_moves].

    ** Not modelled

    - The Mamba manager and what only Mamba groups enable (fine-grained partial
      hits, boundary-state offloads, [get_computed_blocks_for_connector]).
    - Of the scheduler: the adaptive draft budget, routed experts, statistics,
      events and logging, and the metadata connectors build for workers.  The theorem on
      [schedule] is for configurations without LoRA limits, since the code can
      exceed them (SchedFindings.v), and for decoder models.
    - Of the offload tiers: the file, object and peer-to-peer tiers, but for the
      peer's lookups, and what [prepare_load] does for keys that are not hits in
      the primary tier is modelled but has no theorem: waiting for a promotion
      has a deadline, taken as a number of polls.
    - Workers, model runners, models, layers and kernels (tensor code), and
      entrypoints, engine processes and transport (I/O).

    ** Plan

    Next: the laws of the KV cache manager behind the scheduler's class, the
    Mamba manager, then the file tier of the offloading manager. *)
From Stdlib Require Import ZArith Lia.
From stdpp Require Import base tactics gmap strings numbers option list.

Local Open Scope Z_scope.

Create HintDb vllm discriminated.

(** ** Exceptions, outcomes and the state-and-exception monad

    Python statements read and write shared objects and may raise.  [M S A] is
    a computation over the store [S]: it returns a value and the new store, or
    raises, keeping the store as it was when the exception left the code
    (Python does not roll back). *)

Inductive exn :=
| ValueError
| RuntimeError
| AssertionError
| IndexError
| KeyError
| OverflowError
| AttributeError
| StopIteration
| TypeError
| NotImplementedError
| OutOfFuel.

#[global] Instance exn_eq_dec : EqDecision exn.
Proof. solve_decision. Defined.

Inductive outcome (S A : Type) :=
| Ok (a : A) (s : S)
| Raise (e : exn) (s : S).
Arguments Ok {S A} a s.
Arguments Raise {S A} e s.

Definition M (S A : Type) : Type := S -> outcome S A.

#[global] Instance M_ret {S} : MRet (M S) := fun A a s => Ok a s.

#[global] Instance M_bind {S} : MBind (M S) := fun A B f m s =>
  match m s with
  | Ok a s' => f a s'
  | Raise e s' => Raise e s'
  end.

Definition raise {S A} (e : exn) : M S A := fun s => Raise e s.
Definition get {S} : M S S := fun s => Ok s s.
Definition gets {S A} (f : S -> A) : M S A := fun s => Ok (f s) s.
Definition modify {S} (f : S -> S) : M S unit := fun s => Ok tt (f s).
Definition assert_ {S} (b : bool) : M S unit :=
  if b then mret tt else raise AssertionError.
Definition when {S} (b : bool) (m : M S unit) : M S unit :=
  if b then m else mret tt.

(** An operation on a part of the store, run on the whole store. *)
Definition zoom {S T A} (view : S -> T) (update : T -> S -> S) (m : M T A) : M S A :=
  fun s => match m (view s) with
           | Ok a t => Ok a (update t s)
           | Raise e t => Raise e (update t s)
           end.

(** A Python value that must not be [None] / must be present. *)
Definition of_option {S A} (e : exn) (o : option A) : M S A :=
  match o with Some a => mret a | None => raise e end.

(** [for x in l: f x] *)
Fixpoint for_each {S A} (l : list A) (f : A -> M S unit) : M S unit :=
  match l with
  | [] => mret tt
  | x :: l' => f x ;; for_each l' f
  end.

(** [for x in l: acc = f acc x] *)
Fixpoint fold_m {S A B} (f : B -> A -> M S B) (acc : B) (l : list A) : M S B :=
  match l with
  | [] => mret acc
  | x :: l' => acc' ← f acc x; fold_m f acc' l'
  end.

(** ** Total-correctness program logic

    [wp m Q s]: run from [s], [m] raises nothing and its value and final store
    satisfy [Q]. *)
Definition wp {S A} (m : M S A) (Q : A -> S -> Prop) (s : S) : Prop :=
  match m s with
  | Ok a s' => Q a s'
  | Raise _ _ => False
  end.

Section WpRules.
Context {S : Type}.
Implicit Types s : S.

Lemma wp_ret {A} (a : A) Q s : Q a s -> wp (mret a) Q s.
Proof. done. Qed.

Lemma wp_bind {A B} (m : M S A) (f : A -> M S B) Q s :
  wp m (fun a s' => wp (f a) Q s') s -> wp (m ≫= f) Q s.
Proof. unfold wp, mbind, M_bind. by destruct (m s). Qed.

Lemma wp_bind_inv {A B} (m : M S A) (f : A -> M S B) Q s :
  wp (m ≫= f) Q s -> wp m (fun a s' => wp (f a) Q s') s.
Proof. unfold wp, mbind, M_bind. by destruct (m s). Qed.

Lemma wp_bind_intro {A B} (m : M S A) (f : A -> M S B) Q s a s' :
  m s = Ok a s' -> wp (f a) Q s' -> wp (m ≫= f) Q s.
Proof. unfold wp, mbind, M_bind. by intros ->. Qed.

Lemma wp_mono {A} (m : M S A) (Q Q' : A -> S -> Prop) s :
  wp m Q s -> (forall a s', Q a s' -> Q' a s') -> wp m Q' s.
Proof. unfold wp. destruct (m s); naive_solver. Qed.

Lemma wp_get (Q : S -> S -> Prop) s : Q s s -> wp get Q s.
Proof. done. Qed.

Lemma wp_gets {A} (f : S -> A) Q s : Q (f s) s -> wp (gets f) Q s.
Proof. done. Qed.

Lemma wp_modify (f : S -> S) (Q : unit -> S -> Prop) s :
  Q tt (f s) -> wp (modify f) Q s.
Proof. done. Qed.

Lemma wp_assert (b : bool) (Q : unit -> S -> Prop) s :
  b = true -> Q tt s -> wp (assert_ b) Q s.
Proof. by intros ->. Qed.

Lemma wp_when (b : bool) (m : M S unit) (Q : unit -> S -> Prop) s :
  (b = true -> wp m Q s) -> (b = false -> Q tt s) -> wp (when b m) Q s.
Proof. destruct b; cbn; auto. Qed.

Lemma wp_zoom {T A} (view : S -> T) (update : T -> S -> S) (m : M T A) Q s :
  wp m (fun a t => Q a (update t s)) (view s) -> wp (zoom view update m) Q s.
Proof. unfold wp, zoom. by destruct (m (view s)). Qed.

Lemma wp_of_option {A} e (o : option A) Q s (a : A) :
  o = Some a -> Q a s -> wp (of_option e o) Q s.
Proof. by intros ->. Qed.

(** Loop rule: the invariant speaks of the processed prefix. *)
Lemma wp_for_each {A} (I : list A -> S -> Prop) (l : list A) (f : A -> M S unit) s :
  I [] s ->
  (forall pre x post s', l = pre ++ x :: post -> I pre s' ->
     wp (f x) (fun _ s'' => I (pre ++ [x]) s'') s') ->
  wp (for_each l f) (fun _ s' => I l s') s.
Proof.
  intros H0 Hstep.
  enough (forall post pre s', l = pre ++ post -> I pre s' ->
            wp (for_each post f) (fun _ s'' => I l s'') s') as Hgo
    by (by apply (Hgo l [])).
  intros post. induction post as [|x post IH]; intros pre s' Hl HI; cbn.
  - rewrite app_nil_r in Hl. by subst.
  - apply wp_bind. eapply wp_mono; [by eapply Hstep|].
    intros [] s'' HI''. apply (IH (pre ++ [x])); [|done].
    by rewrite <- app_assoc.
Qed.

Lemma wp_fold_m {A B} (I : list A -> B -> S -> Prop) (l : list A)
    (f : B -> A -> M S B) (b0 : B) s :
  I [] b0 s ->
  (forall pre x post b s', l = pre ++ x :: post -> I pre b s' ->
     wp (f b x) (fun b' s'' => I (pre ++ [x]) b' s'') s') ->
  wp (fold_m f b0 l) (fun b' s' => I l b' s') s.
Proof.
  intros H0 Hstep.
  enough (forall post pre b s', l = pre ++ post -> I pre b s' ->
            wp (fold_m f b post) (fun b' s'' => I l b' s'') s') as Hgo
    by (by apply (Hgo l [])).
  intros post. induction post as [|x post IH]; intros pre b s' Hl HI; cbn.
  - rewrite app_nil_r in Hl. by subst.
  - apply wp_bind. eapply wp_mono; [by eapply Hstep|].
    intros b' s'' HI''. apply (IH (pre ++ [x])); [|done].
    by rewrite <- app_assoc.
Qed.

Lemma wp_fold_m_fmap {A A' B} (g : A -> A') (f : B -> A' -> M S B) (l : list A) b0 Q s :
  wp (fold_m (fun b x => f b (g x)) b0 l) Q s -> wp (fold_m f b0 (g <$> l)) Q s.
Proof.
  revert b0 s. induction l as [|x l IH]; intros b0 s; [done|]. cbn.
  intros Hwp. apply wp_bind. unfold wp, mbind, M_bind in Hwp |- *.
  destruct (f b0 (g x) s) as [b s'|]; [|done]. by apply IH.
Qed.

(** What a verified run says about the evaluation of the definition. *)
Lemma wp_ok {A} (m : M S A) Q s :
  wp m Q s -> exists a s', m s = Ok a s' /\ Q a s'.
Proof. unfold wp. destruct (m s); naive_solver. Qed.

Lemma wp_intro {A} (m : M S A) (Q : A -> S -> Prop) s a s' :
  m s = Ok a s' -> Q a s' -> wp m Q s.
Proof. unfold wp. by intros ->. Qed.

Lemma wp_conj {A} (m : M S A) (Q Q' : A -> S -> Prop) s :
  wp m Q s -> wp m Q' s -> wp m (fun a s' => Q a s' /\ Q' a s') s.
Proof. unfold wp. by destruct (m s). Qed.

End WpRules.

(** Symbolic execution of straight-line code. *)
Ltac wp_step :=
  lazymatch goal with
  | |- wp (mbind _ _) _ _ => apply wp_bind
  | |- wp (mret _) _ _ => apply wp_ret
  | |- wp get _ _ => apply wp_get
  | |- wp (gets _) _ _ => apply wp_gets
  | |- wp (modify _) _ _ => apply wp_modify
  | |- wp (zoom _ _ _) _ _ => apply wp_zoom
  | |- wp (of_option _ (Some _)) _ _ => eapply wp_of_option; [reflexivity|]
  end.
Ltac wp_run := repeat (wp_step; cbn beta iota).

(** A decidable goal on concrete data, by evaluating its decision. *)
Ltac decide_goal := apply (bool_decide_unpack _); vm_compute; exact I.

(** ** Python integers, sequences and bytes *)

(** [cdiv], vllm/utils/math_utils.py *)
Definition cdiv (a b : Z) : Z := - (a / - b).
Definition round_up (x y : Z) : Z := ((x + y - 1) / y) * y.
Definition round_down (x y : Z) : Z := (x / y) * y.

Definition zlen {A} (l : list A) : Z := Z.of_nat (length l).

(** [range(a, b)] *)
Definition py_range (a b : Z) : list Z := seqZ a (b - a).
(** [range(a, b, -1)] *)
Definition py_range_down (a b : Z) : list Z := (fun k => a - k) <$> seqZ 0 (a - b).

(** [l[i]]: negative indices count from the end, out of range raises. *)
Definition py_index {A} (l : list A) (i : Z) : option A :=
  let j := if i <? 0 then i + zlen l else i in
  if (j <? 0) then None else l !! Z.to_nat j.

(** A slice bound, normalised as [slice.indices] does for step 1. *)
Definition py_bound (n i : Z) : Z :=
  if i <? 0 then Z.max 0 (i + n) else Z.min i n.

(** [l[a:b]] *)
Definition py_slice {A} (l : list A) (a b : Z) : list A :=
  let n := zlen l in
  let a' := Z.to_nat (py_bound n a) in
  let b' := Z.to_nat (py_bound n b) in
  take (b' - a') (drop a' l).

(** [l[a:]] and [l[:b]] *)
Definition py_from {A} (l : list A) (a : Z) : list A := py_slice l a (zlen l).
Definition py_upto {A} (l : list A) (b : Z) : list A := py_slice l 0 b.

(** [l.remove(x)]: drops the first occurrence; [None] is [ValueError]. *)
Fixpoint py_remove {A} `{EqDecision A} (x : A) (l : list A) : option (list A) :=
  match l with
  | [] => None
  | y :: l' => if bool_decide (x = y) then Some l' else cons y <$> py_remove x l'
  end.

(** Bytes: [bytes] objects are lists of 8-bit values. *)
Abbreviation byte := Byte.byte.
Abbreviation bytes := (list Byte.byte).

#[global] Instance byte_eq_dec : EqDecision byte := Byte.byte_eq_dec.
#[global] Program Instance byte_countable : Countable byte :=
  inj_countable Byte.to_N Byte.of_N _.
Next Obligation. intros b. apply Byte.of_to_N. Qed.

Definition byte_to_Z (b : byte) : Z := Z.of_N (Byte.to_N b).
Definition byte_of_Z (z : Z) : byte := default Byte.x00 (Byte.of_N (Z.to_N (z mod 256))).

(** [int.from_bytes(bs, "big", signed=False)] *)
Definition int_from_bytes (bs : bytes) : Z :=
  foldl (fun acc b => acc * 256 + byte_to_Z b) 0 bs.

(** The [n] big-endian bytes of [z], most significant first. *)
Fixpoint be_split (n : nat) (z : Z) : bytes :=
  match n with
  | O => []
  | S n' => be_split n' (z / 256) ++ [byte_of_Z z]
  end.

(** [z.to_bytes(n, "big", signed=False)]; [None] is [OverflowError]. *)
Definition int_to_bytes (n : nat) (z : Z) : option bytes :=
  if bool_decide (0 <= z < 256 ^ Z.of_nat n) then Some (be_split n z) else None.

Lemma byte_to_Z_bound b : 0 <= byte_to_Z b < 256.
Proof.
  unfold byte_to_Z. pose proof (Byte.to_N_bounded b) as H. lia.
Qed.

Lemma byte_of_to_Z b : byte_of_Z (byte_to_Z b) = b.
Proof.
  unfold byte_of_Z. rewrite Z.mod_small by apply byte_to_Z_bound.
  unfold byte_to_Z. rewrite N2Z.id. by rewrite Byte.of_to_N.
Qed.

Lemma byte_to_of_Z z : byte_to_Z (byte_of_Z z) = z mod 256.
Proof.
  unfold byte_of_Z, byte_to_Z.
  assert (0 <= z mod 256 < 256) as Hb by (apply Z.mod_pos_bound; lia).
  destruct (Byte.of_N (Z.to_N (z mod 256))) as [b|] eqn:E; cbn.
  - apply Byte.to_of_N in E. rewrite E. lia.
  - apply Byte.of_N_None_iff in E. lia.
Qed.

Lemma length_be_split n z : length (be_split n z) = n.
Proof.
  revert z. induction n as [|n IH]; intros z; [done|].
  cbn. rewrite length_app, IH. cbn. lia.
Qed.

Lemma int_from_bytes_snoc bs b :
  int_from_bytes (bs ++ [b]) = int_from_bytes bs * 256 + byte_to_Z b.
Proof. unfold int_from_bytes. by rewrite foldl_app. Qed.

Lemma int_from_be_split n z :
  0 <= z < 256 ^ Z.of_nat n -> int_from_bytes (be_split n z) = z.
Proof.
  revert z. induction n as [|n IH]; intros z Hz.
  - cbn in *. lia.
  - cbn [be_split]. rewrite int_from_bytes_snoc, byte_to_of_Z.
    rewrite Nat2Z.inj_succ, Z.pow_succ_r in Hz by lia.
    rewrite IH; [pose proof (Z.div_mod z 256); lia|].
    split; [apply Z.div_pos; lia|]. apply Z.div_lt_upper_bound; lia.
Qed.

Lemma int_to_from_bytes n z bs :
  int_to_bytes n z = Some bs -> int_from_bytes bs = z /\ length bs = n.
Proof.
  unfold int_to_bytes. case_bool_decide; intros [= <-].
  split; [by apply int_from_be_split|apply length_be_split].
Qed.

(** ** Arithmetic and list facts shared by the components *)

Lemma cdiv_spec a b : 0 < b -> b * (cdiv a b - 1) < a <= b * cdiv a b.
Proof.
  intros Hb. unfold cdiv.
  pose proof (Z.div_mod a (- b)). pose proof (Z.mod_neg_bound a (- b)). nia.
Qed.

Lemma cdiv_unique a b q : 0 < b -> b * (q - 1) < a <= b * q -> cdiv a b = q.
Proof. intros Hb Hq. pose proof (cdiv_spec a b Hb). nia. Qed.

Lemma cdiv_mul a b : 0 < b -> cdiv (a * b) b = a.
Proof. intros Hb. apply cdiv_unique; nia. Qed.

Lemma cdiv_nonneg a b : 0 < b -> 0 <= a -> 0 <= cdiv a b.
Proof. intros Hb Ha. pose proof (cdiv_spec a b Hb). nia. Qed.

Lemma cdiv_mono a a' b : 0 < b -> a <= a' -> cdiv a b <= cdiv a' b.
Proof.
  intros Hb Ha. pose proof (cdiv_spec a b Hb). pose proof (cdiv_spec a' b Hb). nia.
Qed.

Lemma zlen_nonneg {A} (l : list A) : 0 <= zlen l.
Proof. unfold zlen. lia. Qed.

Lemma zlen_app {A} (l k : list A) : zlen (l ++ k) = zlen l + zlen k.
Proof. unfold zlen. rewrite length_app. lia. Qed.

Lemma zlen_cons {A} (x : A) (l : list A) : zlen (x :: l) = zlen l + 1.
Proof. unfold zlen. cbn. lia. Qed.

Lemma py_slice_prefix {A} (l : list A) (a b : Z) :
  0 <= a <= b -> b <= zlen l ->
  py_slice l a b = take (Z.to_nat (b - a)) (drop (Z.to_nat a) l).
Proof.
  intros Ha Hb. unfold py_slice, py_bound.
  rewrite (proj2 (Z.ltb_ge a 0)), (proj2 (Z.ltb_ge b 0)) by lia.
  rewrite !Z.min_l by lia. f_equal. lia.
Qed.

Lemma py_from_drop {A} (l : list A) (a : Z) :
  0 <= a -> py_from l a = drop (Z.to_nat a) l.
Proof.
  intros Ha. unfold py_from, py_slice, py_bound.
  pose proof (zlen_nonneg l) as Hl.
  rewrite (proj2 (Z.ltb_ge a 0)), (proj2 (Z.ltb_ge (zlen l) 0)) by lia.
  rewrite Z.min_id. unfold zlen in *.
  destruct (Z.le_ge_cases a (Z.of_nat (length l))) as [Hle|Hge].
  - rewrite Z.min_l by lia. rewrite take_ge; [done|]. rewrite length_drop. lia.
  - rewrite Z.min_r by lia. rewrite !Nat2Z.id.
    rewrite (drop_ge l (length l)), (drop_ge l (Z.to_nat a)) by lia.
    by rewrite take_nil.
Qed.

Lemma py_upto_take {A} (l : list A) n : 0 <= n -> py_upto l n = take (Z.to_nat n) l.
Proof.
  intros Hn. unfold py_upto, py_slice, py_bound. rewrite (proj2 (Z.ltb_ge n 0)) by done.
  change (0 <? 0) with false. cbv iota. pose proof (zlen_nonneg l).
  rewrite (Z.min_l 0 (zlen l)) by done. change (Z.to_nat 0) with 0%nat. rewrite drop_0. rewrite Nat.sub_0_r. unfold zlen.
  destruct (Z.le_ge_cases n (Z.of_nat (length l))) as [Hle|Hge]; [by rewrite Z.min_l|].
  rewrite Z.min_r, Nat2Z.id by done. rewrite (take_ge l (length l)), (take_ge l (Z.to_nat n)) by lia. done.
Qed.

Lemma py_index_nonneg {A} (l : list A) (i : Z) :
  0 <= i -> py_index l i = l !! Z.to_nat i.
Proof.
  intros Hi. unfold py_index.
  rewrite (proj2 (Z.ltb_ge i 0)) by lia. cbn.
  by rewrite (proj2 (Z.ltb_ge i 0)) by lia.
Qed.

(** A valid index is below the length and gives an element. *)
Lemma py_index_Some {A} (l : list A) i x : py_index l i = Some x -> x ∈ l /\ i < zlen l.
Proof.
  unfold py_index. pose proof (zlen_nonneg l). intros Hx.
  set (j := if i <? 0 then i + zlen l else i) in *.
  destruct (Z.ltb_spec j 0); [done|]. split; [by eapply list_elem_of_lookup_2|].
  apply lookup_lt_Some in Hx. unfold zlen in *. subst j. destruct (Z.ltb_spec i 0); lia.
Qed.

(** [l[-1]] *)
Lemma py_index_last {A} (l : list A) : py_index l (-1) = last l.
Proof.
  unfold py_index. change (-1 <? 0) with true. cbv iota. rewrite last_lookup.
  destruct l as [|x l]; [done|].
  rewrite (proj2 (Z.ltb_ge _ 0)) by (unfold zlen; cbn [length]; lia).
  f_equal. unfold zlen. lia.
Qed.

(** [l[-k]] counts from the end. *)
Lemma py_index_neg {A} (l : list A) (k : Z) :
  1 <= k <= zlen l -> py_index l (- k) = reverse l !! Z.to_nat (k - 1).
Proof.
  intros Hk. unfold py_index. rewrite (proj2 (Z.ltb_lt (- k) 0)) by lia.
  rewrite (proj2 (Z.ltb_ge _ 0)) by lia. unfold zlen in *.
  rewrite reverse_lookup by lia. f_equal. lia.
Qed.

Lemma py_remove_None {A} `{EqDecision A} (x : A) l : py_remove x l = None <-> x ∉ l.
Proof.
  induction l as [|y l IH]; cbn; [split; [intros _; apply not_elem_of_nil|done]|].
  case_bool_decide as E.
  - subst. split; [done|]. intros []. left.
  - rewrite fmap_None, IH, not_elem_of_cons. tauto.
Qed.

Lemma py_remove_perm {A} `{EqDecision A} (x : A) l l' :
  py_remove x l = Some l' -> l ≡ₚ x :: l'.
Proof.
  revert l'. induction l as [|y l IH]; intros l'; cbn; [done|].
  case_bool_decide as E; [by intros [= <-]; subst|].
  intros (k & Hk & ->)%fmap_Some. rewrite (IH k Hk). apply Permutation_swap.
Qed.

(** On a list without duplicates [remove] drops every occurrence. *)
Lemma py_remove_filter {A} `{EqDecision A} (x : A) l :
  NoDup l -> default l (py_remove x l) = filter (fun y => y <> x) l.
Proof.
  induction 1 as [|y l Hy Hl IH]; [done|]. cbn [py_remove]. case_bool_decide as E.
  - subst. rewrite filter_cons_False by tauto. cbn [default]. clear IH Hl.
    induction l as [|z l IH]; [done|]. apply not_elem_of_cons in Hy as [Hz Hy].
    rewrite filter_cons_True by congruence. unfold id in *. f_equal. by apply IH.
  - rewrite filter_cons_True by congruence. rewrite <- IH. by destruct (py_remove x l).
Qed.

#[export] Hint Resolve zlen_nonneg byte_to_Z_bound : vllm.
Create Rewrite HintDb vllm.
#[export] Hint Rewrite @zlen_app @zlen_cons : vllm.
