(* ===== verification/Blocks.v ===== *)
(** * KV-cache block objects and the store that holds them

    [KVCacheBlock] of vllm/v1/core/kv_cache_utils.py, and the heap of block
    objects: a Python reference to a block is a [loc], so two references are
    the same object (the operator [is]) when they are the same [loc].  The two
    sentinels of the free list carry the same [block_id] and are different
    objects, which is why the identity of a block is not its id. *)
From Stdlib Require Import ZArith Lia.
From stdpp Require Import base tactics gmap strings numbers option list.
From S2P Require Import Prelude.

Local Open Scope Z_scope.

(** [BlockHash] and [BlockHashWithGroupId] are [bytes]. *)
Abbreviation BlockHash := (list Byte.byte).
Abbreviation BlockHashWithGroupId := (list Byte.byte).

Abbreviation loc := nat.

(** [KVCacheBlock], kv_cache_utils.py: the fields of the dataclass. *)
Record KVCacheBlock := mkBlock {
  block_id : Z;
  ref_cnt : Z;
  block_hash : option BlockHashWithGroupId;
  block_hash_num_tokens : option Z;
  prev_free_block : option loc;
  next_free_block : option loc;
  is_null : bool
}.

(** [KVCacheBlock(idx)]: the defaults of the dataclass. *)
Definition new_KVCacheBlock (i : Z) : KVCacheBlock :=
  mkBlock i 0 None None None None false.

Definition set_ref_cnt (n : Z) (b : KVCacheBlock) : KVCacheBlock :=
  mkBlock (block_id b) n (block_hash b) (block_hash_num_tokens b)
          (prev_free_block b) (next_free_block b) (is_null b).
Definition set_hash (h : option BlockHashWithGroupId) (n : option Z)
    (b : KVCacheBlock) : KVCacheBlock :=
  mkBlock (block_id b) (ref_cnt b) h n
          (prev_free_block b) (next_free_block b) (is_null b).
Definition set_prev (p : option loc) (b : KVCacheBlock) : KVCacheBlock :=
  mkBlock (block_id b) (ref_cnt b) (block_hash b) (block_hash_num_tokens b)
          p (next_free_block b) (is_null b).
Definition set_next (n : option loc) (b : KVCacheBlock) : KVCacheBlock :=
  mkBlock (block_id b) (ref_cnt b) (block_hash b) (block_hash_num_tokens b)
          (prev_free_block b) n (is_null b).
Definition set_null (b : KVCacheBlock) : KVCacheBlock :=
  mkBlock (block_id b) (ref_cnt b) (block_hash b) (block_hash_num_tokens b)
          (prev_free_block b) (next_free_block b) true.

(** [KVCacheBlock.reset_hash] *)
Definition reset_hash (b : KVCacheBlock) : KVCacheBlock := set_hash None None b.

(** ** The heap of block objects *)

Record Heap := mkHeap { cells : gmap loc KVCacheBlock; next_loc : loc }.

Definition empty_heap : Heap := mkHeap ∅ 0%nat.

(** Reading an attribute of the object at [l]. *)
Definition hget (h : Heap) (l : loc) : KVCacheBlock :=
  default (new_KVCacheBlock (-1)) (cells h !! l).

(** Writing attributes of the object at [l]. *)
Definition hupd (l : loc) (f : KVCacheBlock -> KVCacheBlock) (h : Heap) : Heap :=
  mkHeap (<[l := f (hget h l)]> (cells h)) (next_loc h).

(** Creating an object. *)
Definition halloc (b : KVCacheBlock) : M Heap loc := fun h =>
  Ok (next_loc h) (mkHeap (<[next_loc h := b]> (cells h)) (S (next_loc h))).

Lemma hget_hupd_eq h l f : hget (hupd l f h) l = f (hget h l).
Proof. unfold hget, hupd. cbn. by rewrite lookup_insert_eq. Qed.

Lemma hget_hupd_ne h l l' f : l <> l' -> hget (hupd l f h) l' = hget h l'.
Proof. intros H. unfold hget, hupd. cbn. by rewrite lookup_insert_ne. Qed.

Lemma hget_hupd h l l' f :
  hget (hupd l f h) l' = if decide (l = l') then f (hget h l) else hget h l'.
Proof.
  case_decide; [subst; apply hget_hupd_eq|by apply hget_hupd_ne].
Qed.

(** The free-list links of a block, and everything but the links. *)
Definition links (b : KVCacheBlock) : option loc * option loc :=
  (prev_free_block b, next_free_block b).
Definition erase_links (b : KVCacheBlock) : KVCacheBlock :=
  set_prev None (set_next None b).

(** Two heaps that differ at most in free-list links. *)
Definition links_only (h h' : Heap) : Prop :=
  forall l, erase_links (hget h' l) = erase_links (hget h l).

(** Two heaps with the same free-list links. *)
Definition links_kept (h h' : Heap) : Prop :=
  forall l, links (hget h' l) = links (hget h l).

#[export] Instance links_only_refl : Reflexive links_only.
Proof. by intros h l. Qed.

#[export] Instance links_only_trans : Transitive links_only.
Proof. intros h1 h2 h3 H1 H2 l. by rewrite H2. Qed.

#[export] Instance links_kept_refl : Reflexive links_kept.
Proof. by intros h l. Qed.

#[export] Instance links_kept_trans : Transitive links_kept.
Proof. intros h1 h2 h3 H1 H2 l. by rewrite H2. Qed.

Lemma links_only_hupd h l f :
  (forall b, erase_links (f b) = erase_links b) -> links_only h (hupd l f h).
Proof. intros Hf l'. rewrite hget_hupd. case_decide; subst; auto. Qed.

Lemma links_kept_hupd h l f :
  (forall b, links (f b) = links b) -> links_kept h (hupd l f h).
Proof. intros Hf l'. rewrite hget_hupd. case_decide; subst; auto. Qed.

Lemma links_only_fields h h' l : links_only h h' ->
  block_id (hget h' l) = block_id (hget h l) /\
  ref_cnt (hget h' l) = ref_cnt (hget h l) /\
  block_hash (hget h' l) = block_hash (hget h l) /\
  block_hash_num_tokens (hget h' l) = block_hash_num_tokens (hget h l) /\
  is_null (hget h' l) = is_null (hget h l).
Proof. intros H. specialize (H l). injection H. intros. repeat split; congruence. Qed.

#[export] Hint Resolve links_only_hupd links_kept_hupd links_only_refl links_kept_refl : vllm.
