(* ===== verification/FreeQueue.v ===== *)
(** * The free-block queue

    [FreeKVCacheBlockQueue] of vllm/v1/core/kv_cache_utils.py: a doubly linked
    list threaded through the [prev_free_block]/[next_free_block] attributes of
    the block objects, with a sentinel at each end.  The methods are translated
    statement by statement over the heap of block objects; [queue_wf] relates
    the pointers to the list of free blocks, front first, and each method is
    proved to refine the list operation it stands for. *)
From Stdlib Require Import ZArith Lia.
From stdpp Require Import base tactics gmap strings numbers option list.
From S2P Require Import Prelude Blocks.

Local Open Scope Z_scope.

Record FreeKVCacheBlockQueue := mkQueue {
  num_free_blocks : Z;
  fake_free_list_head : loc;
  fake_free_list_tail : loc
}.

(** The store the methods run on: the heap and the queue object. *)
Record QState := mkQState { qheap : Heap; qobj : FreeKVCacheBlockQueue }.

Definition q_head (s : QState) : loc := fake_free_list_head (qobj s).
Definition q_tail (s : QState) : loc := fake_free_list_tail (qobj s).

Definition blk (l : loc) : M QState KVCacheBlock := gets (fun s => hget (qheap s) l).
Definition upd (l : loc) (f : KVCacheBlock -> KVCacheBlock) : M QState unit :=
  modify (fun s => mkQState (hupd l f (qheap s)) (qobj s)).
Definition write_next (l : loc) (v : option loc) : M QState unit := upd l (set_next v).
Definition write_prev (l : loc) (v : option loc) : M QState unit := upd l (set_prev v).

(** Attribute assignment through a possibly-[None] reference. *)
Definition write_next_opt (o : option loc) (v : option loc) : M QState unit :=
  l ← of_option AttributeError o; write_next l v.
Definition write_prev_opt (o : option loc) (v : option loc) : M QState unit :=
  l ← of_option AttributeError o; write_prev l v.

Definition add_num_free (d : Z) : M QState unit :=
  modify (fun s => mkQState (qheap s)
    (mkQueue (num_free_blocks (qobj s) + d) (q_head s) (q_tail s))).

(** ** Methods *)

(** [FreeKVCacheBlockQueue.__init__]: links the given blocks in order between
    two fresh sentinels. *)
Definition queue_init (blocks : list loc) : M Heap FreeKVCacheBlockQueue :=
  let n := zlen blocks in
  for_each (py_range 0 n) (fun i =>
    b ← of_option IndexError (py_index blocks i);
    when (0 <? i) (
      p ← of_option IndexError (py_index blocks (i - 1));
      modify (hupd b (set_prev (Some p)))) ;;
    when (i <? n - 1) (
      x ← of_option IndexError (py_index blocks (i + 1));
      modify (hupd b (set_next (Some x))))) ;;
  head ← halloc (new_KVCacheBlock (-1));
  tail ← halloc (new_KVCacheBlock (-1));
  (if 0 <? n then
     first ← of_option IndexError (py_index blocks 0);
     last ← of_option IndexError (py_index blocks (-1));
     modify (hupd head (set_next (Some first))) ;;
     modify (hupd first (set_prev (Some head))) ;;
     modify (hupd tail (set_prev (Some last))) ;;
     modify (hupd last (set_next (Some tail)))
   else
     modify (hupd head (set_next (Some tail))) ;;
     modify (hupd tail (set_prev (Some head)))) ;;
  mret (mkQueue n head tail).

(** [popleft] *)
Definition popleft : M QState loc :=
  head ← gets q_head;
  tail ← gets q_tail;
  hd ← blk head;
  match next_free_block hd with
  | Some first_block =>
      if decide (first_block = tail) then
        n ← gets (fun s => num_free_blocks (qobj s));
        assert_ (n =? 0) ;; raise ValueError
      else
        fb ← blk first_block;
        match next_free_block fb with
        | None => raise RuntimeError
        | Some _ =>
            write_next head (next_free_block fb) ;;
            fb' ← blk first_block;
            write_prev_opt (next_free_block fb') (Some head) ;;
            write_prev first_block None ;;
            write_next first_block None ;;
            add_num_free (-1) ;;
            mret first_block
        end
  | None =>
      n ← gets (fun s => num_free_blocks (qobj s));
      assert_ (n =? 0) ;; raise ValueError
  end.

(** The loop of [popleft_n]: unlink [n] blocks starting at [curr_block]. *)
Fixpoint popleft_n_loop (n : nat) (curr_block : option loc) (ret : list loc)
    : M QState (option loc * list loc) :=
  match n with
  | O => mret (curr_block, ret)
  | S n' =>
      match curr_block with
      | None => raise AssertionError
      | Some last_block =>
          b ← blk last_block;
          write_prev last_block None ;;
          write_next last_block None ;;
          popleft_n_loop n' (next_free_block b) (ret ++ [last_block])
      end
  end.

(** [popleft_n] *)
Definition popleft_n (n : Z) : M QState (list loc) :=
  if n =? 0 then mret [] else
  nf ← gets (fun s => num_free_blocks (qobj s));
  assert_ (n <=? nf) ;;
  add_num_free (- n) ;;
  head ← gets q_head;
  hd ← blk head;
  '(curr_block, ret) ← popleft_n_loop (Z.to_nat n) (next_free_block hd) [];
  match curr_block with
  | Some c => write_next head (Some c) ;; write_prev c (Some head)
  | None => mret tt
  end ;;
  mret ret.

(** [remove] *)
Definition remove (block : loc) : M QState unit :=
  b ← blk block;
  match prev_free_block b, next_free_block b with
  | Some _, Some _ =>
      write_next_opt (prev_free_block b) (next_free_block b) ;;
      b' ← blk block;
      write_prev_opt (next_free_block b') (prev_free_block b') ;;
      write_prev block None ;;
      write_next block None ;;
      add_num_free (-1)
  | _, _ => raise RuntimeError
  end.

(** [append] *)
Definition append (block : loc) : M QState unit :=
  tail ← gets q_tail;
  tl ← blk tail;
  match prev_free_block tl with
  | None => raise RuntimeError
  | Some last_block =>
      write_next last_block (Some block) ;;
      write_prev block (Some last_block) ;;
      write_next block (Some tail) ;;
      write_prev tail (Some block) ;;
      add_num_free 1
  end.

(** The loop shared by [prepend_n] and [append_n]: chain [blocks] after
    [prev_block] and return the last object of the chain. *)
Definition chain_blocks (prev_block : loc) (blocks : list loc) : M QState loc :=
  fold_m (fun prev block =>
    write_prev block (Some prev) ;;
    write_next prev (Some block) ;;
    mret block) prev_block blocks.

(** [prepend_n] *)
Definition prepend_n (blocks : list loc) : M QState unit :=
  if zlen blocks =? 0 then mret tt else
  head ← gets q_head;
  hd ← blk head;
  match next_free_block hd with
  | None => raise AssertionError
  | Some first_block =>
      prev_block ← chain_blocks head blocks;
      write_next prev_block (Some first_block) ;;
      write_prev first_block (Some prev_block) ;;
      add_num_free (zlen blocks)
  end.

(** [append_n] *)
Definition append_n (blocks : list loc) : M QState unit :=
  if zlen blocks =? 0 then mret tt else
  tail ← gets q_tail;
  tl ← blk tail;
  match prev_free_block tl with
  | None => raise AssertionError
  | Some last =>
      last_block ← chain_blocks last blocks;
      write_next last_block (Some tail) ;;
      write_prev tail (Some last_block) ;;
      add_num_free (zlen blocks)
  end.

(** The loop of [get_all_free_blocks]: it stops at the object with no
    [next_free_block]. *)
Fixpoint get_all_loop (fuel : nat) (curr_block : loc) (ret : list loc)
    : M QState (list loc) :=
  match fuel with
  | O => raise OutOfFuel
  | S fuel' =>
      b ← blk curr_block;
      match next_free_block b with
      | None => mret ret
      | Some nxt => get_all_loop fuel' nxt (ret ++ [curr_block])
      end
  end.

(** [get_all_free_blocks]: a traversal that visits an object twice never ends,
    so the number of objects bounds the useful iterations. *)
Definition get_all_free_blocks : M QState (list loc) :=
  head ← gets q_head;
  hd ← blk head;
  match next_free_block hd with
  | None => raise RuntimeError
  | Some first =>
      fuel ← gets (fun s => next_loc (qheap s));
      get_all_loop fuel first []
  end.

(** ** The list the pointers stand for *)

(** [chain h F]: consecutive objects of [F] are linked both ways. *)
Fixpoint chain (h : Heap) (F : list loc) : Prop :=
  match F with
  | x :: ((y :: _) as F') =>
      next_free_block (hget h x) = Some y /\
      prev_free_block (hget h y) = Some x /\ chain h F'
  | _ => True
  end.

(** The queue's content [l] between its sentinels. *)
Definition full_list (s : QState) (l : list loc) : list loc :=
  q_head s :: l ++ [q_tail s].

(** The representation invariant: [l] is the queue's content, front first.
    Objects outside the list have both links cleared, which is what lets
    [remove] detect a block that is not in the queue. *)
Record queue_wf (s : QState) (l : list loc) : Prop := {
  qwf_nodup : NoDup (full_list s l);
  qwf_chain : chain (qheap s) (full_list s l);
  qwf_num : num_free_blocks (qobj s) = zlen l;
  qwf_head : prev_free_block (hget (qheap s) (q_head s)) = None;
  qwf_tail : next_free_block (hget (qheap s) (q_tail s)) = None;
  qwf_out : forall x, x ∉ full_list s l -> links (hget (qheap s) x) = (None, None);
  qwf_alloc : forall x, x ∈ full_list s l -> (x < next_loc (qheap s))%nat
}.

(** What every method leaves alone: all attributes but the links, the
    sentinels and the set of objects. *)
Record q_frame (s s' : QState) : Prop := {
  qf_links : links_only (qheap s) (qheap s');
  qf_head : q_head s' = q_head s;
  qf_tail : q_tail s' = q_tail s;
  qf_next : next_loc (qheap s') = next_loc (qheap s)
}.

Lemma chain_app h F x G :
  chain h (F ++ x :: G) <-> chain h (F ++ [x]) /\ chain h (x :: G).
Proof.
  induction F as [|y F IH]; [cbn; tauto|].
  destruct F as [|z F]; [cbn; tauto|].
  change (chain h (y :: z :: F ++ x :: G) <->
          chain h (y :: z :: F ++ [x]) /\ chain h (x :: G)).
  cbn [app] in IH. cbn [chain]. rewrite IH. tauto.
Qed.

Lemma chain_link h A p n B : chain h (A ++ p :: n :: B) ->
  next_free_block (hget h p) = Some n /\ prev_free_block (hget h n) = Some p.
Proof. intros [_ H]%chain_app. cbn in H. tauto. Qed.

(** The left part of a chain: the last object may get a new [next]. *)
Lemma chain_frame_l h h' A p :
  chain h (A ++ [p]) ->
  (forall x, x ∈ A -> links (hget h' x) = links (hget h x)) ->
  prev_free_block (hget h' p) = prev_free_block (hget h p) ->
  chain h' (A ++ [p]).
Proof.
  induction A as [|x A IH]; [done|].
  intros Hc Hl Hp. destruct A as [|y A]; cbn in *.
  - pose proof (Hl x ltac:(set_solver)) as [= Hxp Hxn].
    rewrite Hxn, Hp. tauto.
  - pose proof (Hl x ltac:(set_solver)) as [= Hxp Hxn].
    pose proof (Hl y ltac:(set_solver)) as [= Hyp Hyn].
    rewrite Hxn, Hyp. destruct Hc as (? & ? & Hc). repeat split; [done..|].
    apply IH; [done| |done]. intros z Hz. apply Hl. set_solver.
Qed.

(** The right part of a chain: the first object may get a new [prev]. *)
Lemma chain_frame_r h h' n B :
  chain h (n :: B) ->
  next_free_block (hget h' n) = next_free_block (hget h n) ->
  (forall x, x ∈ B -> links (hget h' x) = links (hget h x)) ->
  chain h' (n :: B).
Proof.
  revert n. induction B as [|y B IH]; intros n Hc Hn Hl; [done|].
  destruct Hc as (H1 & H2 & Hc).
  pose proof (Hl y ltac:(set_solver)) as [= Hyp Hyn].
  change (next_free_block (hget h' n) = Some y /\
          prev_free_block (hget h' y) = Some n /\ chain h' (y :: B)).
  rewrite Hn, Hyp. repeat split; [done..|].
  apply IH; [done|done|]. intros z Hz. apply Hl. set_solver.
Qed.

(** Every object of a chain but the last has a successor, every object but the
    first a predecessor. *)
Lemma chain_has_next h F z x :
  chain h (F ++ [z]) -> x ∈ F -> is_Some (next_free_block (hget h x)).
Proof.
  induction F as [|y F IH]; [set_solver|].
  intros Hc [->|Hx]%elem_of_cons.
  - destruct F; cbn in Hc; naive_solver.
  - apply IH; [|done]. destruct F; [done|]. cbn in Hc. tauto.
Qed.

Lemma chain_has_prev h a F x :
  chain h (a :: F) -> x ∈ F -> is_Some (prev_free_block (hget h x)).
Proof.
  revert a. induction F as [|y F IH]; intros a; [set_solver|].
  intros (H1 & H2 & H3) [->|Hx]%elem_of_cons; [by rewrite H2|]. by eapply IH.
Qed.

(** Replace the link [p -> n] by a chain through [bs]. *)
Lemma chain_splice h h' A p bs n B :
  chain h (A ++ p :: n :: B) ->
  chain h' (p :: bs ++ [n]) ->
  prev_free_block (hget h' p) = prev_free_block (hget h p) ->
  next_free_block (hget h' n) = next_free_block (hget h n) ->
  (forall x, x ∈ A \/ x ∈ B -> links (hget h' x) = links (hget h x)) ->
  chain h' (A ++ p :: bs ++ n :: B).
Proof.
  intros Hc Hbs Hp Hn Hl.
  apply chain_app in Hc as [HcA HcB]. destruct HcB as (_ & _ & HcB).
  apply chain_app. split.
  - eapply chain_frame_l; [done| |done]. auto.
  - change (chain h' ((p :: bs) ++ n :: B)). apply chain_app. split; [done|].
    eapply chain_frame_r; [done|done|]. auto.
Qed.

(** Simplify reads of an updated heap. *)
Ltac hsimpl :=
  repeat first
    [ rewrite hget_hupd_eq
    | rewrite hget_hupd_ne by (first [assumption | apply not_eq_sym; assumption | congruence]) ];
  cbn [prev_free_block next_free_block set_prev set_next set_ref_cnt set_hash
       set_null block_id ref_cnt block_hash block_hash_num_tokens is_null].

(** The four writes that unlink [x] from between [p] and [n]. *)
Definition unlink_heap (p x n : loc) (h : Heap) : Heap :=
  hupd x (set_next None) (hupd x (set_prev None)
    (hupd n (set_prev (Some p)) (hupd p (set_next (Some n)) h))).

Lemma links_only_set_next h l v : links_only h (hupd l (set_next v) h).
Proof. by apply links_only_hupd. Qed.

Lemma links_only_set_prev h l v : links_only h (hupd l (set_prev v) h).
Proof. by apply links_only_hupd. Qed.

#[export] Hint Resolve links_only_set_next links_only_set_prev : vllm.

Ltac solve_links_only :=
  repeat first [reflexivity | etransitivity; [|apply links_only_set_next]
               | etransitivity; [|apply links_only_set_prev]].

Lemma last_cons (d x : loc) l : List.last (x :: l) d = List.last l x.
Proof.
  revert d x. induction l as [|y l IH]; intros d x; [done|].
  change (List.last (y :: l) d = List.last (y :: l) x). by rewrite !IH.
Qed.

Lemma cons_last_split (p : loc) bs : exists A, p :: bs = A ++ [List.last bs p].
Proof.
  induction bs as [|x bs IH] using rev_ind; [by exists []|].
  exists (p :: bs). by rewrite List.last_last.
Qed.

Lemma full_list_split s l1 l2 : exists A p n B,
  full_list s (l1 ++ l2) = A ++ p :: n :: B /\
  q_head s :: l1 = A ++ [p] /\ l2 ++ [q_tail s] = n :: B /\
  p = List.last l1 (q_head s) /\ n = hd (q_tail s) l2.
Proof.
  unfold full_list. generalize (q_head s), (q_tail s). intros hd0 tl0.
  destruct (cons_last_split hd0 l1) as [A HA].
  assert (exists B, l2 ++ [tl0] = hd tl0 l2 :: B) as [B HB].
  { destruct l2; cbn; eauto. }
  exists A, (List.last l1 hd0), (hd tl0 l2), B.
  split_and!; [|done..].
  rewrite <- app_assoc, HB, app_comm_cons, HA, <- app_assoc. done.
Qed.

(** Unlinking between neighbours, in list form. *)
Lemma full_list_unlink s l1 x l2 : exists A B,
  let p := List.last l1 (q_head s) in
  let n := hd (q_tail s) l2 in
  full_list s (l1 ++ x :: l2) = A ++ p :: x :: n :: B /\
  full_list s (l1 ++ l2) = A ++ p :: n :: B /\
  q_head s :: l1 = A ++ [p] /\ l2 ++ [q_tail s] = n :: B.
Proof.
  destruct (full_list_split s l1 (x :: l2)) as (A & p & x' & B & H1 & H2 & H3 & -> & ->).
  destruct (full_list_split s l1 l2) as (A' & p & n & B' & H1' & H2' & H3' & -> & ->).
  assert (A' = A) as -> by (rewrite H2 in H2'; by apply app_inj_tail in H2' as [? _]).
  cbn in H3. injection H3 as <-.
  exists A, B'. cbn in *. rewrite H3' in H1. auto.
Qed.

Lemma nodup_unlink (A : list loc) p x n B : NoDup (A ++ p :: x :: n :: B) ->
  NoDup (A ++ p :: n :: B) /\ p <> x /\ x <> n /\ p <> n /\
  (forall y, y ∈ A \/ y ∈ B -> y <> p /\ y <> x /\ y <> n).
Proof.
  intros (HA & HAB & Hnd)%NoDup_app.
  apply NoDup_cons in Hnd as [Hp Hnd].
  apply NoDup_cons in Hnd as [Hx Hnd]. pose proof Hnd as Hnd'.
  apply NoDup_cons in Hnd' as [Hn HB].
  split_and!; [|set_solver..].
  apply NoDup_app. split_and!; [done|set_solver|].
  apply NoDup_cons. split; [set_solver|done].
Qed.

Lemma unlink_other p x n h y :
  y <> p -> y <> x -> y <> n -> hget (unlink_heap p x n h) y = hget h y.
Proof. intros. unfold unlink_heap. by hsimpl. Qed.

Lemma chain_unlink h A p x n B :
  NoDup (A ++ p :: x :: n :: B) -> chain h (A ++ p :: x :: n :: B) ->
  chain (unlink_heap p x n h) (A ++ p :: n :: B).
Proof.
  intros (_ & Hpx & Hxn & Hpn & Hy)%nodup_unlink Hch.
  apply chain_app in Hch as [HcA HcB]. destruct HcB as (_ & _ & _ & _ & HcB).
  apply chain_app. split.
  - eapply chain_frame_l; [exact HcA| |unfold unlink_heap; by hsimpl].
    intros y HyA. rewrite unlink_other; [done|apply Hy; auto..].
  - change (A ++ p :: n :: B) with (A ++ [p] ++ n :: B).
    change (chain (unlink_heap p x n h) ([p] ++ n :: B)). apply chain_app. split.
    + cbn. unfold unlink_heap. by hsimpl.
    + eapply chain_frame_r; [exact HcB|unfold unlink_heap; by hsimpl|].
      intros y HyB. rewrite unlink_other; [done|apply Hy; auto..].
Qed.

Lemma unlink_links s l1 x l2 : queue_wf s (l1 ++ x :: l2) ->
  prev_free_block (hget (qheap s) x) = Some (List.last l1 (q_head s)) /\
  next_free_block (hget (qheap s) x) = Some (hd (q_tail s) l2) /\
  List.last l1 (q_head s) <> x /\ x <> hd (q_tail s) l2 /\
  List.last l1 (q_head s) <> hd (q_tail s) l2.
Proof.
  intros [Hnd Hch _ _ _ _ _].
  destruct (full_list_unlink s l1 x l2) as (A & B & Hf & _ & _ & _).
  rewrite Hf in Hnd, Hch. apply nodup_unlink in Hnd as (_ & ? & ? & ? & _).
  pose proof (chain_link _ _ _ _ _ Hch) as [_ Hp].
  assert (chain (qheap s) ((A ++ [List.last l1 (q_head s)]) ++ x :: hd (q_tail s) l2 :: B))
    as Hch' by (by rewrite <- app_assoc).
  apply chain_link in Hch' as [Hn _]. auto.
Qed.

Lemma unlink_wf s l1 x l2 :
  queue_wf s (l1 ++ x :: l2) ->
  let p := List.last l1 (q_head s) in
  let n := hd (q_tail s) l2 in
  let s' := mkQState (unlink_heap p x n (qheap s))
              (mkQueue (num_free_blocks (qobj s) - 1) (q_head s) (q_tail s)) in
  queue_wf s' (l1 ++ l2) /\ q_frame s s'.
Proof.
  intros Hwf p n s'.
  destruct (full_list_unlink s l1 x l2) as (A & B & Hf & Hf' & HA & HB).
  fold p n in Hf, Hf', HA, HB.
  destruct Hwf as [Hnd Hch Hnum Hhd Htl Hout Hal]. rewrite Hf in Hnd, Hch, Hout, Hal.
  pose proof (nodup_unlink _ _ _ _ _ Hnd) as (Hnd' & Hpx & Hxn & Hpn & Hy).
  assert (full_list s' (l1 ++ l2) = A ++ p :: n :: B) as Hfs by done.
  split; split; try rewrite Hfs; try done.
  - by apply chain_unlink.
  - cbn. rewrite Hnum. unfold zlen. rewrite !length_app. cbn. lia.
  - change (prev_free_block (hget (unlink_heap p x n (qheap s)) (q_head s)) = None).
    destruct A as [|a A]; cbn in HA; injection HA as Hh _.
    + unfold unlink_heap. rewrite Hh. hsimpl. by rewrite <- Hh.
    + rewrite unlink_other; [done|rewrite Hh; apply Hy; left; set_solver..].
  - change (next_free_block (hget (unlink_heap p x n (qheap s)) (q_tail s)) = None).
    destruct l2 as [|y l2]; cbn in n, HB.
    + unfold unlink_heap. subst n. by hsimpl.
    + injection HB as HB. rewrite unlink_other; [done|apply Hy; right; set_solver..].
  - intros y Hyn. cbn. destruct (decide (y = x)) as [->|].
    + unfold unlink_heap. by hsimpl.
    + rewrite unlink_other by set_solver. apply Hout. set_solver.
  - cbn. intros y Hyin. apply Hal. set_solver.
  - cbn. unfold unlink_heap. solve_links_only.
Qed.

#[export] Instance q_frame_refl : Reflexive q_frame.
Proof. intros s. by split. Qed.

#[export] Instance q_frame_trans : Transitive q_frame.
Proof.
  intros s1 s2 s3 [L1 H1 T1 N1] [L2 H2 T2 N2].
  split; [by etransitivity|congruence..].
Qed.

Lemma queue_wf_head_next s l : queue_wf s l ->
  next_free_block (hget (qheap s) (q_head s)) = Some (hd (q_tail s) l).
Proof.
  intros [_ Hch _ _ _ _ _]. unfold full_list in Hch.
  destruct l; cbn in *; tauto.
Qed.

Lemma queue_wf_tail_prev s l : queue_wf s l ->
  prev_free_block (hget (qheap s) (q_tail s)) = Some (List.last l (q_head s)).
Proof.
  intros Hwf. destruct (full_list_split s l []) as (A & p & n & B & Hf & _ & HB & -> & ->).
  destruct Hwf as [_ Hch _ _ _ _ _]. rewrite app_nil_r in Hf. rewrite Hf in Hch.
  by apply chain_link in Hch as [_ H].
Qed.

Lemma queue_wf_distinct s l : queue_wf s l ->
  q_head s <> q_tail s /\ q_head s ∉ l /\ q_tail s ∉ l /\ NoDup l.
Proof.
  intros [Hnd _ _ _ _ _ _]. unfold full_list in Hnd.
  apply NoDup_cons in Hnd as [Hh Hnd]. apply NoDup_app in Hnd as (Hl & Hlt & _).
  set_solver.
Qed.

(** [popleft] removes the front of the list. *)
Lemma popleft_spec s x l :
  queue_wf s (x :: l) ->
  wp popleft (fun r s' => r = x /\ queue_wf s' l /\ q_frame s s') s.
Proof.
  intros Hwf.
  pose proof (queue_wf_head_next _ _ Hwf) as Hnx. cbn in Hnx.
  destruct (unlink_links s [] x l Hwf) as (_ & Hxn & Hhx & Hxn' & Hhn). cbn in *.
  destruct (queue_wf_distinct _ _ Hwf) as (_ & _ & Ht & _).
  unfold popleft, blk. wp_run. rewrite Hnx.
  rewrite decide_False by set_solver. wp_run. rewrite Hxn.
  unfold write_next, write_prev, write_prev_opt, upd, add_num_free. wp_run.
  cbn [qheap qobj]. rewrite hget_hupd_ne by done. rewrite Hxn. wp_run.
  cbn [qheap qobj]. split; [done|].
  destruct (unlink_wf s [] x l Hwf) as [Hw Hfr]. exact (conj Hw Hfr).
Qed.

(** On an empty queue [popleft] raises [ValueError] and changes nothing. *)
Lemma popleft_empty s : queue_wf s [] -> popleft s = Raise ValueError s.
Proof.
  intros Hwf. pose proof (queue_wf_head_next _ _ Hwf) as Hnx. cbn in Hnx.
  unfold popleft, blk, gets, mbind, M_bind. rewrite Hnx, decide_True by done.
  destruct Hwf as [_ _ Hnum _ _ _ _]. rewrite Hnum. done.
Qed.

(** [remove] takes a block out of the middle of the queue. *)
Lemma remove_spec s l1 x l2 :
  queue_wf s (l1 ++ x :: l2) ->
  wp (remove x) (fun _ s' => queue_wf s' (l1 ++ l2) /\ q_frame s s') s.
Proof.
  intros Hwf.
  destruct (unlink_links s l1 x l2 Hwf) as (Hxp & Hxn & Hpx & Hxn' & Hpn).
  unfold remove, blk. wp_run. rewrite Hxp, Hxn.
  unfold write_next_opt, write_prev_opt, write_next, write_prev, upd, add_num_free.
  wp_run. cbn [qheap qobj]. rewrite hget_hupd_ne by done. rewrite Hxp, Hxn. wp_run.
  cbn [qheap qobj]. exact (unlink_wf s l1 x l2 Hwf).
Qed.

(** On a block that is not in the queue [remove] raises and changes nothing. *)
Lemma remove_absent s l x :
  queue_wf s l -> x ∉ l -> remove x s = Raise RuntimeError s.
Proof.
  intros Hwf Hx. unfold remove, blk, gets, mbind, M_bind.
  destruct (decide (x = q_head s)) as [->|Hh].
  { by rewrite (qwf_head _ _ Hwf). }
  destruct (decide (x = q_tail s)) as [->|Ht].
  { rewrite (qwf_tail _ _ Hwf). by destruct (prev_free_block _). }
  assert (links (hget (qheap s) x) = (None, None)) as [= -> _]; [|done].
  apply (qwf_out _ _ Hwf). unfold full_list. set_solver.
Qed.

(** ** Splicing a list of blocks into the queue *)

(** A heap that links [bs] between [p] and [n] and agrees with [h] elsewhere. *)
Record spliced (h : Heap) (p : loc) (bs : list loc) (n : loc) (h' : Heap) : Prop := {
  sp_chain : chain h' (p :: bs ++ [n]);
  sp_p : prev_free_block (hget h' p) = prev_free_block (hget h p);
  sp_n : next_free_block (hget h' n) = next_free_block (hget h n);
  sp_other : forall y, y <> p -> y <> n -> y ∉ bs -> links (hget h' y) = links (hget h y);
  sp_links : links_only h h';
  sp_next : next_loc h' = next_loc h
}.

(** The loop of [prepend_n]/[append_n]. *)
Lemma chain_blocks_spec s p bs :
  NoDup (p :: bs) ->
  wp (chain_blocks p bs) (fun last s' =>
    last = List.last bs p /\ chain (qheap s') (p :: bs) /\
    prev_free_block (hget (qheap s') p) = prev_free_block (hget (qheap s) p) /\
    (forall y, y <> p -> y ∉ bs -> links (hget (qheap s') y) = links (hget (qheap s) y)) /\
    links_only (qheap s) (qheap s') /\ next_loc (qheap s') = next_loc (qheap s) /\
    qobj s' = qobj s) s.
Proof.
  revert s p. induction bs as [|b bs IH]; intros s p Hnd; cbn.
  { wp_run. split_and!; done. }
  apply NoDup_cons in Hnd as [Hp Hnd].
  assert (p <> b) as Hpb by set_solver.
  unfold chain_blocks in *. cbn [fold_m]. unfold write_prev, write_next, upd.
  wp_run. cbn [qheap qobj]. eapply wp_mono; [by apply IH|]. cbn [qheap qobj].
  intros last s' (-> & Hch & Hpr & Hoth & Hlo & Hnl & Hq).
  rewrite hget_hupd_ne, hget_hupd_eq in Hpr by done. cbn in Hpr.
  pose proof (Hoth p ltac:(done) ltac:(set_solver)) as [= Hp1 Hp2].
  rewrite hget_hupd_eq, hget_hupd_ne in Hp1, Hp2 by done. cbn in Hp1, Hp2.
  split_and!; try done.
  - symmetry. exact (last_cons p b bs).
  - intros y Hy [Hyb Hyb']%not_elem_of_cons. rewrite Hoth by done. by hsimpl.
  - etransitivity; [|exact Hlo]. solve_links_only.
Qed.

Lemma last_in_cons (p : loc) bs : List.last bs p ∈ p :: bs.
Proof.
  destruct bs as [|b bs]; [set_solver|]. right.
  revert b. induction bs as [|c bs IH]; intros b; [set_solver|].
  right. apply (IH c).
Qed.

Lemma chain_snoc h p bs n :
  chain h (p :: bs) -> next_free_block (hget h (List.last bs p)) = Some n ->
  prev_free_block (hget h n) = Some (List.last bs p) -> chain h (p :: bs ++ [n]).
Proof.
  revert p. induction bs as [|b bs IH]; intros p Hc Hn Hp; [done|].
  destruct Hc as (H1 & H2 & Hc).
  rewrite last_cons in Hn, Hp. repeat split; [done..|]. by apply IH.
Qed.

(** The loop followed by the two writes that close the chain. *)
Lemma splice_spec s p bs n :
  NoDup (p :: bs) -> n ∉ p :: bs ->
  wp (last ← chain_blocks p bs; write_next last (Some n) ;; write_prev n (Some last))
    (fun _ s' => spliced (qheap s) p bs n (qheap s') /\ qobj s' = qobj s) s.
Proof.
  intros Hnd Hn. wp_run. eapply wp_mono; [by apply chain_blocks_spec|].
  intros last s' (Hl & Hch & Hpr & Hoth & Hlo & Hnl & Hq).
  pose proof (last_in_cons p bs) as Hin. rewrite <- Hl in Hin.
  assert (last <> n) as Hln by (intros ->; done).
  unfold write_next, write_prev, upd. wp_run. cbn [qheap qobj].
  split; [|done].
  destruct (cons_last_split p bs) as [A HA]. rewrite <- Hl in HA.
  assert (forall y, y ∈ A -> y <> last /\ y <> n) as HAy.
  { intros y Hy. rewrite HA in Hnd, Hn. apply NoDup_app in Hnd as (_ & Hd & _). set_solver. }
  assert (p = last \/ p ∈ A) as Hpl by (destruct A; cbn in HA; injection HA; set_solver).
  split.
  - apply chain_snoc; rewrite <- ?Hl; [|by hsimpl..].
    rewrite HA in Hch |- *. eapply chain_frame_l; [exact Hch| |by hsimpl].
    intros y Hy. destruct (HAy y Hy). by hsimpl.
  - rewrite <- Hpr. destruct Hpl as [->|Hp]; [by hsimpl|].
    destruct (HAy p Hp). by hsimpl.
  - pose proof (Hoth n ltac:(set_solver) ltac:(set_solver)) as [= _ Hnn].
    rewrite <- Hnn. by hsimpl.
  - intros y Hy1 Hy2 Hy3. rewrite <- Hoth by done.
    assert (y <> last) by (intros ->; set_solver). by hsimpl.
  - etransitivity; [exact Hlo|]. solve_links_only.
  - done.
Qed.

(** Splicing fresh blocks at the seam between [l1] and [l2] keeps the invariant. *)
Lemma spliced_wf s l1 l2 bs h' :
  queue_wf s (l1 ++ l2) ->
  NoDup bs -> (forall x, x ∈ bs -> x ∉ full_list s (l1 ++ l2)) ->
  (forall x, x ∈ bs -> (x < next_loc (qheap s))%nat) ->
  spliced (qheap s) (List.last l1 (q_head s)) bs (hd (q_tail s) l2) h' ->
  let s' := mkQState h'
    (mkQueue (num_free_blocks (qobj s) + zlen bs) (q_head s) (q_tail s)) in
  queue_wf s' (l1 ++ bs ++ l2) /\ q_frame s s'.
Proof.
  intros Hwf Hbs Hfresh Halc [Hch Hp Hn Hoth Hlo Hnl] s'.
  destruct (full_list_split s l1 l2) as (A & p & n & B & Hf & HA & HB & -> & ->).
  set (p := List.last l1 (q_head s)) in *. set (n := hd (q_tail s) l2) in *.
  destruct Hwf as [Hnd Hc Hnum Hhd Htl Hout Hal]. rewrite Hf in Hnd, Hc, Hout, Hal, Hfresh.
  assert (full_list s' (l1 ++ bs ++ l2) = A ++ p :: bs ++ n :: B) as Hfs.
  { unfold full_list. change (q_head s') with (q_head s). change (q_tail s') with (q_tail s).
    rewrite <- !app_assoc, HB, app_comm_cons, HA, <- app_assoc. done. }
  assert (A ++ p :: bs ++ n :: B ≡ₚ bs ++ A ++ p :: n :: B) as Hperm by solve_Permutation.
  assert (NoDup (A ++ p :: bs ++ n :: B)) as Hnd'.
  { rewrite Hperm. apply NoDup_app. auto. }
  assert (forall x, x ∈ A \/ x ∈ B -> x <> p /\ x <> n /\ x ∉ bs) as HAB.
  { intros x Hx. apply NoDup_app in Hnd as (HndA & HndAB & Hnd).
    apply NoDup_cons in Hnd as [Hnp Hnd]. apply NoDup_cons in Hnd as [Hnn Hnd].
    set_solver. }
  assert (p <> n /\ p ∉ bs /\ n ∉ bs) as (Hpn & Hpb & Hnb).
  { apply NoDup_app in Hnd as (_ & _ & Hnd). apply NoDup_cons in Hnd as [Hnp _]. set_solver. }
  split; split; rewrite ?Hfs; try done.
  - eapply chain_splice; [exact Hc|exact Hch|done|done|].
    intros x Hx. destruct (HAB x Hx) as (? & ? & ?). auto.
  - cbn. rewrite Hnum. unfold zlen. rewrite !length_app. lia.
  - change (prev_free_block (hget h' (q_head s)) = None).
    destruct A as [|a A]; cbn in HA; injection HA as Hh _.
    + rewrite Hh. rewrite Hp. by rewrite <- Hh.
    + destruct (HAB (q_head s)) as (? & ? & ?); [left; set_solver|].
      assert (links (hget h' (q_head s)) = links (hget (qheap s) (q_head s))) as [= -> _]; auto.
  - change (next_free_block (hget h' (q_tail s)) = None).
    destruct l2 as [|y l2]; cbn in n, HB.
    + subst n. by rewrite Hn.
    + injection HB as HB. destruct (HAB (q_tail s)) as (? & ? & ?); [right; set_solver|].
      assert (links (hget h' (q_tail s)) = links (hget (qheap s) (q_tail s))) as [= _ ->]; auto.
  - intros x Hx. cbn. rewrite Hoth by set_solver. apply Hout. set_solver.
  - cbn. rewrite Hnl. intros x Hx. rewrite Hperm in Hx. apply elem_of_app in Hx as [?|?]; auto.
Qed.

Lemma full_list_seam s l1 l2 bs :
  NoDup bs -> (forall x, x ∈ bs -> x ∉ full_list s (l1 ++ l2)) ->
  queue_wf s (l1 ++ l2) ->
  NoDup (List.last l1 (q_head s) :: bs) /\ hd (q_tail s) l2 ∉ List.last l1 (q_head s) :: bs.
Proof.
  intros Hbs Hfr [Hnd _ _ _ _ _ _].
  destruct (full_list_split s l1 l2) as (A & p & n & B & Hf & HA & HB & -> & ->).
  rewrite Hf in Hfr, Hnd. apply NoDup_app in Hnd as (_ & _ & Hnd).
  apply NoDup_cons in Hnd as [Hnp _].
  split; [apply NoDup_cons; split; [|done]|]; set_solver.
Qed.

Lemma nonempty_zlen {A} (x : A) l : (zlen (x :: l) =? 0) = false.
Proof. apply Z.eqb_neq. unfold zlen. cbn. lia. Qed.

(** Code that splices [bs] and then bumps the counter. *)
Lemma splice_and_count s l1 l2 bs :
  queue_wf s (l1 ++ l2) -> NoDup bs ->
  (forall x, x ∈ bs -> x ∉ full_list s (l1 ++ l2)) ->
  (forall x, x ∈ bs -> (x < next_loc (qheap s))%nat) ->
  let p := List.last l1 (q_head s) in
  let n := hd (q_tail s) l2 in
  wp (last ← chain_blocks p bs; write_next last (Some n) ;; write_prev n (Some last) ;;
      add_num_free (zlen bs))
    (fun _ s' => queue_wf s' (l1 ++ bs ++ l2) /\ q_frame s s') s.
Proof.
  intros Hwf Hbs Hfr Hal p n.
  destruct (full_list_seam s l1 l2 bs Hbs Hfr Hwf) as [Hnd Hn].
  pose proof (splice_spec s p bs n Hnd Hn) as Hsp.
  unfold wp, mbind, M_bind in *.
  destruct (chain_blocks p bs s) as [last s1|]; [|done].
  destruct (write_next last (Some n) s1) as [[] s2|]; [|done].
  destruct (write_prev n (Some last) s2) as [[] s3|]; [|done].
  destruct Hsp as [Hsp Hq]. cbn. unfold q_head, q_tail. rewrite Hq.
  exact (spliced_wf s l1 l2 bs (qheap s3) Hwf Hbs Hfr Hal Hsp).
Qed.

(** [prepend_n] puts the blocks, in order, in front. *)
Lemma prepend_n_spec s l bs :
  queue_wf s l -> NoDup bs -> (forall x, x ∈ bs -> x ∉ full_list s l) ->
  (forall x, x ∈ bs -> (x < next_loc (qheap s))%nat) ->
  wp (prepend_n bs) (fun _ s' => queue_wf s' (bs ++ l) /\ q_frame s s') s.
Proof.
  intros Hwf Hnd Hfr Hal. unfold prepend_n. destruct bs as [|b bs].
  { cbn. apply wp_ret. split; [done|reflexivity]. }
  rewrite nonempty_zlen. unfold blk. wp_run.
  rewrite (queue_wf_head_next _ _ Hwf).
  exact (splice_and_count s [] l (b :: bs) Hwf Hnd Hfr Hal).
Qed.

(** [append_n] puts the blocks, in order, at the back. *)
Lemma append_n_spec s l bs :
  queue_wf s l -> NoDup bs -> (forall x, x ∈ bs -> x ∉ full_list s l) ->
  (forall x, x ∈ bs -> (x < next_loc (qheap s))%nat) ->
  wp (append_n bs) (fun _ s' => queue_wf s' (l ++ bs) /\ q_frame s s') s.
Proof.
  intros Hwf Hnd Hfr Hal. unfold append_n. destruct bs as [|b bs].
  { cbn. apply wp_ret. rewrite app_nil_r. split; [done|reflexivity]. }
  rewrite nonempty_zlen. unfold blk. wp_run.
  rewrite (queue_wf_tail_prev _ _ Hwf).
  rewrite <- (app_nil_r l) in Hwf, Hfr.
  eapply wp_mono; [exact (splice_and_count s l [] (b :: bs) Hwf Hnd Hfr Hal)|].
  intros ? s'. by rewrite app_nil_r.
Qed.

(** [append] is [append_n] of one block. *)
Lemma append_spec s l b :
  queue_wf s l -> b ∉ full_list s l -> (b < next_loc (qheap s))%nat ->
  wp (append b) (fun _ s' => queue_wf s' (l ++ [b]) /\ q_frame s s') s.
Proof.
  intros Hwf Hb Hal. unfold append, blk, write_next, write_prev, upd, add_num_free. wp_run.
  rewrite (queue_wf_tail_prev _ _ Hwf). wp_run. cbn [qheap qobj].
  set (p := List.last l (q_head s)).
  assert (p ∈ full_list s l) as Hp.
  { pose proof (last_in_cons (q_head s) l). unfold full_list, p. set_solver. }
  assert (q_tail s ∈ full_list s l) as Ht by (unfold full_list; set_solver).
  assert (p <> q_tail s) as Hpt.
  { destruct (queue_wf_distinct _ _ Hwf) as (H1 & _ & H3 & _).
    pose proof (last_in_cons (q_head s) l) as Hin. change (p ∈ q_head s :: l) in Hin.
    intros E. rewrite E in Hin. apply elem_of_cons in Hin as [?|?]; congruence. }
  assert (p <> b) by (intros ->; done). assert (q_tail s <> b) by (intros <-; done).
  destruct (spliced_wf s l [] [b]
    (hupd (q_tail s) (set_prev (Some b)) (hupd b (set_next (Some (q_tail s)))
      (hupd b (set_prev (Some p)) (hupd p (set_next (Some b)) (qheap s)))))) as [H1 H2].
  - by rewrite app_nil_r.
  - apply NoDup_singleton.
  - rewrite app_nil_r. set_solver.
  - set_solver.
  - fold p. cbn [hd]. split; cbn; hsimpl; try done.
    + intros y ?? [? _]%not_elem_of_cons. by hsimpl.
    + solve_links_only.
  - rewrite app_nil_r in H1. exact (conj H1 H2).
Qed.

(** The loop of [popleft_n] unlinks a prefix without closing the chain. *)
Lemma popleft_n_loop_spec s c l rest ret :
  NoDup (l ++ rest) ->
  chain (qheap s) (l ++ rest) -> rest <> [] -> hd c (l ++ rest) = c ->
  wp (popleft_n_loop (length l) (Some c) ret) (fun r s' =>
    r = (head rest, ret ++ l) /\
    (forall y, y ∈ l -> links (hget (qheap s') y) = (None, None)) /\
    (forall y, y ∉ l -> hget (qheap s') y = hget (qheap s) y) /\
    links_only (qheap s) (qheap s') /\
    next_loc (qheap s') = next_loc (qheap s) /\ qobj s' = qobj s) s.
Proof.
  revert s c ret. induction l as [|x l IH]; intros s c ret Hnd Hch Hr Hc.
  { destruct rest as [|y rest]; [done|]. cbn in *. subst y. apply wp_ret.
    rewrite app_nil_r. split_and!; try done. set_solver. }
  cbn in Hc. subst x. apply NoDup_cons in Hnd as [Hcl Hnd].
  assert (exists y G, l ++ rest = y :: G) as (y & G & HyG)
    by (destruct l, rest; cbn; eauto; done).
  cbn [app] in Hch. rewrite HyG in Hch. destruct Hch as (Hnx & _ & Hch).
  assert (forall w, w ∈ y :: G -> c <> w) as Hcw by (rewrite <- HyG; set_solver).
  cbn [length popleft_n_loop]. unfold blk, write_prev, write_next, upd. wp_run.
  rewrite Hnx. eapply wp_mono; [apply IH|].
  - done.
  - cbn [qheap]. rewrite HyG. eapply (chain_frame_r (qheap s)); [exact Hch| |].
    + by rewrite !hget_hupd_ne by (apply Hcw; set_solver).
    + intros w Hw. by rewrite !hget_hupd_ne by (apply Hcw; set_solver).
  - done.
  - by rewrite HyG.
  - cbn [qheap qobj]. intros r s' (-> & Hin & Hout & Hlo & Hnl & Hq). split_and!.
    + by rewrite <- app_assoc.
    + intros w [->|Hw]%elem_of_cons; [|auto]. rewrite Hout by set_solver. by hsimpl.
    + intros w [Hw ?]%not_elem_of_cons. rewrite Hout by done. by hsimpl.
    + etransitivity; [|exact Hlo]. solve_links_only.
    + done.
    + done.
Qed.

(** Dropping a prefix [l1]: the popped blocks are cleared, the head is linked to
    the new front [n], everything else keeps its links. *)
Lemma drop_prefix_wf s l1 l2 h1 :
  queue_wf s (l1 ++ l2) ->
  (forall y, y ∈ l1 -> links (hget h1 y) = (None, None)) ->
  (forall y, y ∉ l1 -> hget h1 y = hget (qheap s) y) ->
  links_only (qheap s) h1 -> next_loc h1 = next_loc (qheap s) ->
  let n := hd (q_tail s) l2 in
  let s' := mkQState
    (hupd n (set_prev (Some (q_head s))) (hupd (q_head s) (set_next (Some n)) h1))
    (mkQueue (num_free_blocks (qobj s) - zlen l1) (q_head s) (q_tail s)) in
  queue_wf s' l2 /\ q_frame s s'.
Proof.
  intros [Hnd Hch Hnum Hhd Htl Hout Hal] Hin Hother Hlo Hnl n s'.
  unfold full_list in Hnd, Hch, Hout, Hal. rewrite <- app_assoc in Hnd, Hch, Hout, Hal.
  destruct (full_list_split s l1 l2) as (_ & _ & n' & B & _ & _ & HB & _ & ->). fold n in HB.
  assert (full_list s' l2 = q_head s :: n :: B) as Hfs by (unfold full_list; cbn; by rewrite <- HB).
  rewrite HB in Hnd, Hch, Hout, Hal.
  apply NoDup_cons in Hnd as [Hh Hnd]. apply NoDup_app in Hnd as (_ & Hd & Hnd).
  pose proof Hnd as Hnd'. apply NoDup_cons in Hnd' as [HnB HB'].
  assert (q_head s <> n /\ q_head s ∉ l1 /\ q_head s ∉ B) as (Hhn & Hhl & HhB) by set_solver.
  assert (n ∉ l1) as Hnl1 by (intros Hn1; apply (Hd n Hn1); set_solver).
  assert (forall y, y ∈ B -> y <> n /\ y <> q_head s /\ y ∉ l1) as HBy.
  { intros y Hy. split_and!; [set_solver|set_solver|]. intros Hy'.
    apply (Hd y Hy'). set_solver. }
  split; split; rewrite ?Hfs; try done.
  - apply NoDup_cons. split; [set_solver|done].
  - change (q_head s :: l1 ++ n :: B) with ((q_head s :: l1) ++ n :: B) in Hch.
    apply chain_app in Hch as [_ Hch].
    change (q_head s :: n :: B) with ([q_head s] ++ n :: B). apply chain_app. cbn [qheap s'].
    split; [cbn; by hsimpl|].
    eapply chain_frame_r; [exact Hch|hsimpl; by rewrite Hother|].
    intros y Hy. destruct (HBy y Hy) as (?&?&?). hsimpl. by rewrite Hother.
  - cbn. rewrite Hnum. unfold zlen. rewrite length_app. lia.
  - change (q_head s') with (q_head s). cbn [qheap s']. hsimpl. by rewrite Hother.
  - change (q_tail s') with (q_tail s). cbn [qheap s'].
    destruct l2 as [|y l2]; cbn in n, HB.
    + subst n. hsimpl. by rewrite Hother.
    + injection HB as HB. destruct (HBy (q_tail s)) as (?&?&?); [set_solver|].
      hsimpl. by rewrite Hother.
  - intros y Hy. cbn [qheap s']. apply not_elem_of_cons in Hy as [Hy1 Hy2].
    apply not_elem_of_cons in Hy2 as [Hy2 Hy3]. hsimpl.
    destruct (decide (y ∈ l1)); [auto|]. rewrite Hother by done. apply Hout. set_solver.
  - cbn. rewrite Hnl. intros y Hy. apply Hal. set_solver.
  - cbn. etransitivity; [exact Hlo|]. solve_links_only.
Qed.

(** [popleft_n] pops the first [n] blocks, in order. *)
Lemma popleft_n_spec s l1 l2 :
  queue_wf s (l1 ++ l2) ->
  wp (popleft_n (zlen l1)) (fun r s' => r = l1 /\ queue_wf s' l2 /\ q_frame s s') s.
Proof.
  intros Hwf. unfold popleft_n. destruct (zlen l1 =? 0) eqn:E0.
  { apply Z.eqb_eq in E0. destruct l1; [|unfold zlen in E0; cbn in E0; lia].
    apply wp_ret. split_and!; [done..|reflexivity]. }
  pose proof Hwf as [Hnd Hch Hnum _ _ _ _].
  unfold full_list in Hnd, Hch. rewrite <- app_assoc in Hnd, Hch.
  wp_run. apply wp_assert.
  { rewrite Hnum. unfold zlen. rewrite length_app. apply Z.leb_le. lia. }
  unfold add_num_free, blk. wp_run. cbn [qheap qobj].
  change (hget (qheap s) (q_head _)) with (hget (qheap s) (q_head s)).
  rewrite (queue_wf_head_next _ _ Hwf). unfold zlen. rewrite Nat2Z.id.
  apply NoDup_cons in Hnd as [_ Hnd].
  assert (chain (qheap s) (l1 ++ l2 ++ [q_tail s])) as Hch'
    by (destruct l1, l2; cbn in Hch |- *; tauto).
  eapply wp_mono; [apply (popleft_n_loop_spec _ _ l1 (l2 ++ [q_tail s]) []); cbn [qheap]|].
  - done.
  - exact Hch'.
  - by destruct l2.
  - by destruct l1, l2.
  - intros r s' (-> & Hin & Hoth & Hlo & Hnl & Hq).
    assert (head (l2 ++ [q_tail s]) = Some (hd (q_tail s) l2)) as Hhd by (by destruct l2).
    cbn [fst snd]. rewrite Hhd. unfold write_next, write_prev, upd. wp_run. cbn [qheap qobj] in *.
    rewrite Hq. split; [done|].
    exact (drop_prefix_wf s l1 l2 (qheap s') Hwf Hin Hoth Hlo Hnl).
Qed.

(** [popleft_n] beyond the queue's length raises before touching the list. *)
Lemma popleft_n_too_many s l n :
  queue_wf s l -> zlen l < n -> popleft_n n s = Raise AssertionError s.
Proof.
  intros [_ _ Hnum _ _ _ _] Hn. unfold popleft_n, gets, mbind, M_bind, assert_.
  pose proof (zlen_nonneg l). rewrite (proj2 (Z.eqb_neq n 0)) by lia. cbn.
  by rewrite Hnum, (proj2 (Z.leb_gt n (zlen l))) by lia.
Qed.

Lemma get_all_loop_spec s fuel l t ret :
  chain (qheap s) (l ++ [t]) -> next_free_block (hget (qheap s) t) = None ->
  (length l < fuel)%nat ->
  get_all_loop fuel (hd t l) ret s = Ok (ret ++ l) s.
Proof.
  revert fuel ret. induction l as [|x l IH]; intros [|fuel] ret Hc Ht Hf; [cbn in Hf; lia| |cbn in Hf; lia|].
  - cbn. unfold blk, gets, mbind, M_bind. rewrite Ht. by rewrite app_nil_r.
  - assert (next_free_block (hget (qheap s) x) = Some (hd t l) /\ chain (qheap s) (l ++ [t]))
      as [Hx Hc'] by (destruct l; cbn in *; tauto).
    cbn. unfold blk, gets, mbind, M_bind. rewrite Hx.
    rewrite IH; [by rewrite <- app_assoc|done..|cbn in Hf; lia].
Qed.

Lemma nodup_bounded_length (F : list loc) n :
  NoDup F -> (forall x, x ∈ F -> (x < n)%nat) -> (length F <= n)%nat.
Proof.
  intros Hnd Hb. rewrite <- (length_seq n 0). apply submseteq_length, NoDup_submseteq; [done|].
  intros x Hx. apply elem_of_seq. specialize (Hb x Hx). lia.
Qed.

(** [get_all_free_blocks] terminates with the queue's content. *)
Lemma get_all_free_blocks_spec s l :
  queue_wf s l -> get_all_free_blocks s = Ok l s.
Proof.
  intros Hwf. unfold get_all_free_blocks, blk, gets, mbind, M_bind.
  rewrite (queue_wf_head_next _ _ Hwf). destruct Hwf as [Hnd Hch _ _ Htl _ Hal].
  apply (get_all_loop_spec s _ l (q_tail s) []); [|done|].
  - unfold full_list in Hch. destruct l; cbn in Hch |- *; tauto.
  - pose proof (nodup_bounded_length _ _ Hnd Hal) as Hlen. unfold full_list in Hlen.
    cbn in Hlen. rewrite length_app in Hlen. cbn in Hlen. lia.
Qed.

(** ** The constructor establishes the invariant *)

Lemma chain_lookup h F :
  (forall i x y, F !! i = Some x -> F !! S i = Some y ->
     next_free_block (hget h x) = Some y /\ prev_free_block (hget h y) = Some x) ->
  chain h F.
Proof.
  induction F as [|x [|y F] IH]; [done..|]. intros H.
  destruct (H 0%nat x y eq_refl eq_refl) as [H1 H2].
  change (next_free_block (hget h x) = Some y /\ prev_free_block (hget h y) = Some x /\
          chain h (y :: F)).
  split_and!; [done..|]. apply IH. intros i x' y' Hx Hy. exact (H (S i) x' y' Hx Hy).
Qed.

Lemma py_range_split a b pre x post :
  py_range a b = pre ++ x :: post -> x = a + zlen pre /\ a <= x < b.
Proof.
  intros H. assert (py_range a b !! length pre = Some x) as Hl by (rewrite H; by apply list_lookup_middle).
  unfold py_range in Hl. apply lookup_seqZ in Hl as [-> Hlt]. unfold zlen. lia.
Qed.

Definition no_links (h : Heap) : Prop := forall x, links (hget h x) = (None, None).

Definition alloc_bounded (h : Heap) : Prop :=
  forall x, (next_loc h <= x)%nat -> cells h !! x = None.

(** The state of the linking loop after the first [k] blocks. *)
Definition linked_upto (h0 : Heap) (blocks : list loc) (k : nat) (h : Heap) : Prop :=
  (forall j b, blocks !! j = Some b -> links (hget h b) =
     if bool_decide (j < k)%nat
     then (match j with O => None | S j' => blocks !! j' end, blocks !! S j)
     else (None, None)) /\
  (forall x, x ∉ blocks -> hget h x = hget h0 x) /\
  links_only h0 h /\ next_loc h = next_loc h0 /\
  (forall x, x ∉ blocks -> cells h !! x = cells h0 !! x).

Lemma linked_upto_step h0 blocks k h b :
  NoDup blocks -> blocks !! k = Some b -> linked_upto h0 blocks k h ->
  let h1 := match k with O => h | S k' =>
              match blocks !! k' with Some p => hupd b (set_prev (Some p)) h | None => h end end in
  let h2 := match blocks !! S k with Some x => hupd b (set_next (Some x)) h1 | None => h1 end in
  linked_upto h0 blocks (S k) h2.
Proof.
  intros Hnd Hb (Hin & Hout & Hlo & Hnl & Hcl) h1 h2.
  assert (b ∈ blocks) as Hbin by (by eapply list_elem_of_lookup_2).
  assert (forall j c, blocks !! j = Some c -> j <> k -> b <> c) as Hne.
  { intros j c Hj Hjk ->. apply Hjk. by eapply NoDup_lookup. }
  pose proof (Hin k b Hb) as Hk. rewrite bool_decide_eq_false_2 in Hk by lia.
  injection Hk as Hkp Hkn.
  assert (links (hget h2 b) = (match k with O => None | S k' => blocks !! k' end, blocks !! S k)
    /\ (forall x, x <> b -> hget h2 x = hget h x) /\ links_only h h2 /\ next_loc h2 = next_loc h
    /\ (forall x, x <> b -> cells h2 !! x = cells h !! x)) as (H1 & H2 & H3 & H4 & H5).
  { subst h1 h2. destruct k as [|k].
    - destruct (blocks !! 1%nat); cbn; unfold links; hsimpl; rewrite ?Hkp, ?Hkn;
        split_and!; try done; intros; try solve_links_only; by hsimpl || by rewrite lookup_insert_ne.
    - destruct (blocks !! k) as [p|] eqn:Ep, (blocks !! S (S k)) as [x|] eqn:Ex; cbn; unfold links;
        hsimpl; rewrite ?Hkp, ?Hkn;
        split_and!; try done; intros; try solve_links_only; by hsimpl || by rewrite !lookup_insert_ne. }
  split_and!.
  - intros j c Hj. destruct (decide (j = k)) as [->|Hjk].
    + rewrite Hb in Hj. injection Hj as <-. rewrite bool_decide_eq_true_2 by lia. done.
    + rewrite H2 by (apply not_eq_sym; eauto). rewrite (Hin j c Hj).
      destruct (decide (j < k)%nat).
      * by rewrite !bool_decide_eq_true_2 by lia.
      * by rewrite !bool_decide_eq_false_2 by lia.
  - intros x Hx. rewrite H2 by set_solver. auto.
  - by etransitivity.
  - congruence.
  - intros x Hx. rewrite H5 by set_solver. auto.
Qed.

Lemma queue_init_loop h blocks :
  NoDup blocks -> no_links h ->
  wp (for_each (py_range 0 (zlen blocks)) (fun i =>
    b ← of_option IndexError (py_index blocks i);
    when (0 <? i) (
      p ← of_option IndexError (py_index blocks (i - 1));
      modify (hupd b (set_prev (Some p)))) ;;
    when (i <? zlen blocks - 1) (
      x ← of_option IndexError (py_index blocks (i + 1));
      modify (hupd b (set_next (Some x))))))
    (fun _ h' => linked_upto h blocks (length blocks) h') h.
Proof.
  intros Hnd Hno.
  eapply wp_mono; [apply (wp_for_each (fun pre h' => linked_upto h blocks (length pre) h'))|].
  - by split_and!.
  - intros pre i post h' Hsplit HI.
    pose proof (py_range_split _ _ _ _ _ Hsplit) as [Hi Hr]. unfold zlen in Hi, Hr.
    destruct (lookup_lt_is_Some_2 blocks (length pre)) as [b Hb]; [lia|].
    pose proof (linked_upto_step h blocks (length pre) h' b Hnd Hb HI) as Hstep.
    rewrite length_app, Nat.add_1_r.
    wp_run. eapply wp_of_option; [rewrite py_index_nonneg by lia;
      replace (Z.to_nat i) with (length pre) by lia; exact Hb|]. wp_run.
    assert (forall h1 : Heap, linked_upto h blocks (S (length pre))
        match blocks !! S (length pre) with Some x => hupd b (set_next (Some x)) h1 | None => h1 end ->
      wp (when (i <? zlen blocks - 1) (x ← of_option IndexError (py_index blocks (i + 1));
           modify (hupd b (set_next (Some x)))))
         (fun _ h2 => linked_upto h blocks (S (length pre)) h2) h1) as Hnext.
    { intros h1 Hh1. rewrite py_index_nonneg by lia.
      replace (Z.to_nat (i + 1)) with (S (length pre)) by lia. unfold zlen.
      apply wp_when; intros Hc.
      - destruct (lookup_lt_is_Some_2 blocks (S (length pre))) as [x Hx]; [lia|].
        rewrite Hx in Hh1 |- *. by wp_run.
      - rewrite (lookup_ge_None_2 blocks (S (length pre))) in Hh1 by lia. done. }
    apply wp_when; intros Hc.
    + destruct (length pre) as [|k] eqn:Ek; [lia|].
      destruct (lookup_lt_is_Some_2 blocks k) as [p Hp]; [lia|].
      wp_run. eapply wp_of_option; [rewrite py_index_nonneg by lia;
        replace (Z.to_nat (i - 1)) with k by lia; exact Hp|]. wp_run.
      apply Hnext. cbn in Hstep. by rewrite Hp in Hstep.
    + destruct (length pre) as [|k] eqn:Ek; [|lia]. apply Hnext. exact Hstep.
  - intros ? h'. by rewrite length_seqZ || (unfold py_range; rewrite length_seqZ; unfold zlen;
      replace (Z.to_nat (Z.of_nat (length blocks) - 0)) with (length blocks) by lia).
Qed.

Lemma hget_unalloc h x : alloc_bounded h -> (next_loc h <= x)%nat ->
  hget h x = new_KVCacheBlock (-1).
Proof. intros Hb Hx. unfold hget. by rewrite Hb. Qed.

(** The links of the blocks once the loop is done, as a chain. *)
Lemma linked_upto_chain h0 blocks h :
  linked_upto h0 blocks (length blocks) h -> chain h blocks.
Proof.
  intros (Hin & _). apply chain_lookup. intros i x y Hx Hy.
  pose proof (Hin i x Hx) as Hlx. pose proof (Hin (S i) y Hy) as Hly.
  pose proof (lookup_lt_Some _ _ _ Hx). pose proof (lookup_lt_Some _ _ _ Hy).
  rewrite bool_decide_eq_true_2 in Hlx, Hly by lia.
  injection Hlx as _ Hn. injection Hly as Hp _. rewrite Hn, Hp. auto.
Qed.

(** Rewriting the outer links of a chain does not break it. *)
Lemma chain_frame_ends h h' f F :
  NoDup (f :: F) -> chain h (f :: F) ->
  (forall x, x ∈ f :: F -> x <> List.last F f ->
     next_free_block (hget h' x) = next_free_block (hget h x)) ->
  (forall y, y ∈ F -> prev_free_block (hget h' y) = prev_free_block (hget h y)) ->
  chain h' (f :: F).
Proof.
  revert f. induction F as [|y F IH]; intros f Hnd Hc Hn Hp; [done|].
  apply NoDup_cons in Hnd as [Hf Hnd]. destruct Hc as (H1 & H2 & Hc).
  rewrite last_cons in Hn.
  change (next_free_block (hget h' f) = Some y /\
          prev_free_block (hget h' y) = Some f /\ chain h' (y :: F)).
  rewrite Hn, Hp; [|set_solver|set_solver|].
  - split_and!; [done..|]. apply IH; [done|done| |set_solver].
    intros x Hx Hxl. apply Hn; [set_solver|done].
  - intros E. pose proof (last_in_cons y F). set_solver.
Qed.

(** The sentinels of an empty queue, created on top of [h]. *)
Definition empty_queue (h : Heap) : QState :=
  let head := next_loc h in
  let tail := S head in
  mkQState
    (hupd tail (set_prev (Some head)) (hupd head (set_next (Some tail))
      (mkHeap (<[tail := new_KVCacheBlock (-1)]> (<[head := new_KVCacheBlock (-1)]> (cells h)))
              (S tail))))
    (mkQueue 0 head tail).

Lemma empty_queue_other h x : x <> next_loc h -> x <> S (next_loc h) ->
  hget (qheap (empty_queue h)) x = hget h x.
Proof.
  intros. cbn. rewrite !hget_hupd_ne by done. unfold hget. cbn.
  by rewrite !lookup_insert_ne by done.
Qed.

Lemma empty_queue_sentinels h :
  hget (qheap (empty_queue h)) (next_loc h) =
    set_next (Some (S (next_loc h))) (new_KVCacheBlock (-1)) /\
  hget (qheap (empty_queue h)) (S (next_loc h)) =
    set_prev (Some (next_loc h)) (new_KVCacheBlock (-1)).
Proof.
  cbn. rewrite hget_hupd_ne, hget_hupd_eq, hget_hupd_eq, hget_hupd_ne by lia.
  unfold hget. cbn. by rewrite lookup_insert_ne, !lookup_insert_eq by lia.
Qed.

Lemma empty_queue_wf h : no_links h -> alloc_bounded h ->
  queue_wf (empty_queue h) [] /\ links_only h (qheap (empty_queue h)).
Proof.
  intros Hno Hab. destruct (empty_queue_sentinels h) as [Hh Ht].
  split; [split|].
  - unfold full_list. apply NoDup_cons. split; [|apply NoDup_singleton].
    intros E%list_elem_of_singleton. cbn in E. lia.
  - cbn -[hupd]. change (hupd _ _ _) with (qheap (empty_queue h)). by rewrite Hh, Ht.
  - done.
  - change (q_head (empty_queue h)) with (next_loc h). by rewrite Hh.
  - change (q_tail (empty_queue h)) with (S (next_loc h)). by rewrite Ht.
  - intros x Hx. rewrite empty_queue_other; [apply Hno|..];
      intros ->; apply Hx; unfold full_list; set_solver.
  - intros x [Hx|Hx%list_elem_of_singleton]%elem_of_cons; subst x; cbn; lia.
  - intros x. destruct (decide (x = next_loc h)) as [->|];
      [by rewrite Hh, hget_unalloc|].
    destruct (decide (x = S (next_loc h))) as [->|]; [rewrite Ht, hget_unalloc; [done..|lia]|].
    by rewrite empty_queue_other.
Qed.

(** The heap after the linking loop, with two sentinels created on top. *)
Definition with_sentinels (h : Heap) : Heap :=
  mkHeap (<[S (next_loc h) := new_KVCacheBlock (-1)]>
           (<[next_loc h := new_KVCacheBlock (-1)]> (cells h))) (S (S (next_loc h))).

Lemma with_sentinels_get h x : hget (with_sentinels h) x =
  if decide (x = next_loc h \/ x = S (next_loc h)) then new_KVCacheBlock (-1) else hget h x.
Proof.
  unfold hget, with_sentinels. cbn. rewrite !lookup_insert.
  repeat case_decide; naive_solver.
Qed.

(** The four writes that close the chain, on a non-empty list of blocks. *)
Lemma sentinels_spliced h f bl h1 :
  NoDup (f :: bl) -> no_links h -> alloc_bounded h ->
  (forall x, x ∈ f :: bl -> (x < next_loc h)%nat) ->
  linked_upto h (f :: bl) (length (f :: bl)) h1 ->
  let head := next_loc h in let tail := S head in let lst := List.last bl f in
  spliced (qheap (empty_queue h)) head (f :: bl) tail
    (hupd lst (set_next (Some tail)) (hupd tail (set_prev (Some lst))
      (hupd f (set_prev (Some head)) (hupd head (set_next (Some f)) (with_sentinels h1))))).
Proof.
  intros Hnd Hno Hab Hal Hup head tail lst.
  pose proof (linked_upto_chain _ _ _ Hup) as Hch. destruct Hup as (_ & Hout & Hlo & Hnl & _).
  destruct (empty_queue_sentinels h) as [Heh Het]. fold head tail in Heh, Het.
  assert (lst ∈ f :: bl) as Hlst by apply last_in_cons.
  pose proof (last_cons head f bl) as El. pose proof (eq_refl : lst = List.last bl f) as El'.
  clearbody lst.
  assert (forall x, x ∈ f :: bl -> head <> x /\ tail <> x) as Hb.
  { intros x Hx%Hal. unfold tail, head. lia. }
  destruct (Hb f) as [Hhf Htf]; [set_solver|]. destruct (Hb lst Hlst) as [Hhl Htl].
  assert (head <> tail) as Hht by (unfold tail; lia).
  assert (forall x, head <> x -> tail <> x -> hget (with_sentinels h1) x = hget h1 x) as Hws.
  { intros x ??. rewrite with_sentinels_get, Hnl, decide_False; [done|]. fold head tail. naive_solver. }
  assert (hget (with_sentinels h1) head = new_KVCacheBlock (-1) /\
          hget (with_sentinels h1) tail = new_KVCacheBlock (-1)) as [Hwh Hwt].
  { rewrite !with_sentinels_get, Hnl. fold head tail. by rewrite !decide_True by auto. }
  split.
  - cbn [app]. apply (chain_snoc _ head (f :: bl) tail).
    + split_and!; [by hsimpl|destruct (decide (f = lst)) as [->|]; by hsimpl|].
      eapply (chain_frame_ends h1); [done|exact Hch| |].
      * intros x Hx Hxl. rewrite <- El' in Hxl. destruct (Hb x Hx).
        destruct (decide (f = x)) as [->|]; hsimpl; by rewrite Hws.
      * intros x Hx. apply NoDup_cons in Hnd as [Hfx _]. destruct (Hb x); [set_solver|].
        assert (f <> x) by (intros ->; done).
        destruct (decide (lst = x)) as [->|]; hsimpl; by rewrite Hws.
    + rewrite El, <- El'. by hsimpl.
    + rewrite El, <- El'. by hsimpl.
  - rewrite Heh. hsimpl. by rewrite Hwh.
  - rewrite Het. hsimpl. by rewrite Hwt.
  - intros y Hy1 Hy2 Hy3. rewrite empty_queue_other by done.
    assert (f <> y) by (intros ->; apply Hy3; left). assert (lst <> y) by (intros ->; done). hsimpl. rewrite Hws, Hout by done. done.
  - transitivity (with_sentinels h1); [|solve_links_only].
    intros x. destruct (decide (x = head)) as [->|]; [by rewrite Hwh, Heh|].
    destruct (decide (x = tail)) as [->|]; [by rewrite Hwt, Het|].
    rewrite Hws, empty_queue_other by done. apply Hlo.
  - cbn. by rewrite Hnl.
Qed.

(** The constructor: all given blocks are free, in order. *)
Lemma queue_init_spec h blocks :
  NoDup blocks -> no_links h -> alloc_bounded h ->
  (forall x, x ∈ blocks -> (x < next_loc h)%nat) ->
  wp (queue_init blocks) (fun q h' =>
    queue_wf (mkQState h' q) blocks /\ links_only h h' /\
    next_loc h' = S (S (next_loc h)) /\
    fake_free_list_head q = next_loc h /\ fake_free_list_tail q = S (next_loc h)) h.
Proof.
  intros Hnd Hno Hab Hal. unfold queue_init. apply wp_bind.
  eapply wp_mono; [by apply queue_init_loop|]. intros [] h1 Hup.
  destruct (empty_queue_wf h Hno Hab) as [Hwf Hlo].
  pose proof Hup as (_ & _ & Hlo1 & Hnl & Hcl).
  do 2 (apply wp_bind; eapply wp_intro; [reflexivity|]). cbn [next_loc cells].
  destruct blocks as [|f bl].
  - cbn. wp_run. rewrite Hnl.
    assert (h1 = h) as ->; [|done].
    destruct h as [c n], h1 as [c1 n1]. cbn in *. subst n1. f_equal.
    apply map_eq. intros x. apply Hcl. set_solver.
  - assert (0 <? zlen (f :: bl) = true) as -> by (apply Z.ltb_lt; unfold zlen; cbn; lia).
    wp_run. eapply wp_of_option; [reflexivity|]. wp_run.
    destruct (cons_last_split f bl) as [A HA].
    eapply wp_of_option.
    { unfold py_index. cbn -[lookup zlen]. rewrite HA. unfold zlen. rewrite length_app. cbn -[lookup].
      rewrite (proj2 (Z.ltb_ge _ _)) by lia.
      rewrite lookup_app_r by lia. replace (_ - _)%nat with 0%nat by lia. done. }
    wp_run.
    destruct (spliced_wf (empty_queue h) [] [] (f :: bl)
      (hupd (List.last bl f) (set_next (Some (S (next_loc h))))
        (hupd (S (next_loc h)) (set_prev (Some (List.last bl f)))
          (hupd f (set_prev (Some (next_loc h)))
            (hupd (next_loc h) (set_next (Some f)) (with_sentinels h1)))))) as [H1 H2].
    + done.
    + done.
    + intros x Hx%Hal Hin. unfold full_list in Hin. cbn in Hin.
      rewrite elem_of_cons, list_elem_of_singleton in Hin. lia.
    + intros x Hx%Hal. cbn. lia.
    + by apply sentinels_spliced.
    + rewrite app_nil_r in H1. unfold with_sentinels in H1, H2. rewrite Hnl in *.
      split_and!; [exact H1| |done..].
      etransitivity; [exact Hlo|]. exact (qf_links _ _ H2).
Qed.

(** ** The queue as an abstract list: a refinement over operation sequences

    A client drives the queue by a sequence of calls and sees, for each, the
    blocks it returns or the exception it raises.  The specification is a list
    of free blocks; the linked structure shows the same observations. *)

Inductive qop :=
| QPopleft
| QPopleftN (n : Z)
| QRemove (b : loc)
| QAppend (b : loc)
| QPrependN (bs : list loc)
| QAppendN (bs : list loc)
| QGetAll.

Definition run_qop (o : qop) : M QState (list loc) :=
  match o with
  | QPopleft => b ← popleft; mret [b]
  | QPopleftN n => popleft_n n
  | QRemove b => remove b ;; mret []
  | QAppend b => append b ;; mret []
  | QPrependN bs => prepend_n bs ;; mret []
  | QAppendN bs => append_n bs ;; mret []
  | QGetAll => get_all_free_blocks
  end.

(** The specification: the observation and the next list. *)
Definition spec_qop (o : qop) (l : list loc) : (exn + list loc) * list loc :=
  match o with
  | QPopleft => match l with
                | [] => (inl ValueError, [])
                | x :: l' => (inr [x], l')
                end
  | QPopleftN n => if n <=? zlen l
                   then (inr (take (Z.to_nat n) l), drop (Z.to_nat n) l)
                   else (inl AssertionError, l)
  | QRemove b => if decide (b ∈ l) then (inr [], filter (fun x => x <> b) l)
                 else (inl RuntimeError, l)
  | QAppend b => (inr [], l ++ [b])
  | QPrependN bs => (inr [], bs ++ l)
  | QAppendN bs => (inr [], l ++ bs)
  | QGetAll => (inr l, l)
  end.

(** What a client owes: counts are not negative, and the blocks it gives back
    are distinct existing objects that are neither queued nor sentinels. *)
Definition qop_ok (s : QState) (l : list loc) (o : qop) : bool :=
  let fresh bs := bool_decide (NoDup bs) &&
    forallb (fun b => bool_decide (b ∉ full_list s l) &&
                      bool_decide (b < next_loc (qheap s))%nat) bs in
  match o with
  | QPopleftN n => 0 <=? n
  | QAppend b => fresh [b]
  | QPrependN bs | QAppendN bs => fresh bs
  | _ => true
  end.

(** A run that survives exceptions: the client records each observation. *)
Fixpoint run_qops (ops : list qop) (s : QState) : list (exn + list loc) * QState :=
  match ops with
  | [] => ([], s)
  | o :: ops' =>
      let '(obs, s1) := match run_qop o s with
                        | Ok r s1 => (inr r, s1)
                        | Raise e s1 => (inl e, s1)
                        end in
      let '(rest, s2) := run_qops ops' s1 in (obs :: rest, s2)
  end.

Fixpoint spec_qops (ops : list qop) (l : list loc) : list (exn + list loc) * list loc :=
  match ops with
  | [] => ([], l)
  | o :: ops' =>
      let '(obs, l1) := spec_qop o l in
      let '(rest, l2) := spec_qops ops' l1 in (obs :: rest, l2)
  end.

(** The obligations along the abstract run. *)
Fixpoint qops_ok (s : QState) (ops : list qop) (l : list loc) : bool :=
  match ops with
  | [] => true
  | o :: ops' => qop_ok s l o && qops_ok s ops' (spec_qop o l).2
  end.

Lemma qop_ok_fresh s l bs :
  bool_decide (NoDup bs) &&
    forallb (fun b => bool_decide (b ∉ full_list s l) &&
                      bool_decide (b < next_loc (qheap s))%nat) bs = true ->
  NoDup bs /\ (forall x, x ∈ bs -> x ∉ full_list s l) /\
  (forall x, x ∈ bs -> (x < next_loc (qheap s))%nat).
Proof.
  intros [Hnd Hall]%andb_true_iff. apply bool_decide_eq_true in Hnd.
  rewrite forallb_forall in Hall.
  split_and!; [done|intros x Hx..]; apply list_elem_of_In, Hall, andb_true_iff in Hx as [H1 H2];
    by apply bool_decide_eq_true in H1, H2.
Qed.

Lemma filter_ne_split (l1 : list loc) x l2 :
  NoDup (l1 ++ x :: l2) -> filter (fun y => y <> x) (l1 ++ x :: l2) = l1 ++ l2.
Proof.
  intros Hnd. apply NoDup_app in Hnd as (H1 & H2 & H3).
  apply NoDup_cons in H3 as [H3 _].
  assert (forall l : list loc, x ∉ l -> filter (fun y => y <> x) l = l) as Hid.
  { intros l. induction l as [|y l IH]; [done|]. intros [Hy Hl]%not_elem_of_cons.
    rewrite filter_cons_True by auto. by rewrite IH. }
  rewrite filter_app, filter_cons_False by auto.
  rewrite !Hid; [done..|]. intros Hx. apply (H2 x Hx). by left.
Qed.

(** The observation of one call, as a relation on outcomes. *)
Lemma wp_observe {A} (m : M QState A) (f : A -> list loc) (Q : list loc -> QState -> Prop) s :
  wp m (fun a s' => Q (f a) s') s ->
  exists r s', (a ← m; mret (f a)) s = Ok r s' /\ Q r s'.
Proof.
  intros (a & s' & E & HQ)%wp_ok. exists (f a), s'. split; [|done].
  unfold mbind, M_bind. by rewrite E.
Qed.

Lemma run_qop_refines s l o :
  queue_wf s l -> qop_ok s l o = true ->
  (exists r s', run_qop o s = Ok r s' /\ (spec_qop o l).1 = inr r /\
     queue_wf s' (spec_qop o l).2 /\ q_frame s s') \/
  (exists e, run_qop o s = Raise e s /\ spec_qop o l = (inl e, l)).
Proof.
  intros Hwf Hok. destruct o as [|n|b|b|bs|bs|]; cbn [run_qop spec_qop].
  - destruct l as [|x l].
    + right. exists ValueError. unfold mbind, M_bind. by rewrite popleft_empty.
    + left. apply (wp_observe popleft (fun b => [b]) (fun r s' =>
        _ /\ queue_wf s' l /\ q_frame s s')).
      eapply wp_mono; [by apply popleft_spec|]. intros r s' (-> & ? & ?). by split_and!.
  - apply Z.leb_le in Hok. destruct (n <=? zlen l) eqn:E.
    + apply Z.leb_le in E. left.
      rewrite <- (take_drop (Z.to_nat n) l) in Hwf.
      destruct (wp_ok _ _ _ (popleft_n_spec s _ _ Hwf)) as (r & s' & Er & -> & ? & ?).
      replace (zlen (take (Z.to_nat n) l)) with n in Er
        by (unfold zlen in *; rewrite length_take; lia).
      exists (take (Z.to_nat n) l), s'. by split_and!.
    + apply Z.leb_gt in E. right. exists AssertionError.
      by rewrite (popleft_n_too_many s l n).
  - case_decide as Hb.
    + left. apply list_elem_of_split in Hb as (l1 & l2 & ->).
      apply (wp_observe (remove b) (fun _ => []) (fun r s' =>
        inr [] = inr r /\ queue_wf s' _ /\ q_frame s s')).
      eapply wp_mono; [by apply remove_spec|]. intros ? s' [??]. split_and!; [done| |done].
      cbn. rewrite filter_ne_split; [done|].
      pose proof (qwf_nodup _ _ Hwf) as Hnd. unfold full_list in Hnd.
      apply NoDup_cons in Hnd as [_ Hnd]. by apply NoDup_app in Hnd as (? & _).
    + right. exists RuntimeError. unfold mbind, M_bind. by rewrite (remove_absent s l b).
  - left. apply qop_ok_fresh in Hok as (_ & H1 & H2).
    apply (wp_observe (append b) (fun _ => []) (fun r s' =>
        inr [] = inr r /\ queue_wf s' _ /\ q_frame s s')).
    eapply wp_mono; [apply append_spec; [done|apply H1|apply H2]; by left|].
    intros ? s' [??]. by split_and!.
  - left. apply qop_ok_fresh in Hok as (H0 & H1 & H2).
    apply (wp_observe (prepend_n bs) (fun _ => []) (fun r s' =>
        inr [] = inr r /\ queue_wf s' _ /\ q_frame s s')).
    eapply wp_mono; [by apply prepend_n_spec|]. intros ? s' [??]. by split_and!.
  - left. apply qop_ok_fresh in Hok as (H0 & H1 & H2).
    apply (wp_observe (append_n bs) (fun _ => []) (fun r s' =>
        inr [] = inr r /\ queue_wf s' _ /\ q_frame s s')).
    eapply wp_mono; [by apply append_n_spec|]. intros ? s' [??]. by split_and!.
  - left. exists l, s. rewrite (get_all_free_blocks_spec s l Hwf).
    split_and!; [done..|reflexivity].
Qed.

(** The obligations only read the sentinels and the number of objects. *)
Lemma qop_ok_frame s s' l o : q_frame s s' -> qop_ok s' l o = qop_ok s l o.
Proof.
  intros [_ H1 H2 H3]. unfold qop_ok, full_list. by rewrite H1, H2, H3.
Qed.

Lemma qops_ok_frame s s' ops l : q_frame s s' -> qops_ok s' ops l = qops_ok s ops l.
Proof.
  intros Hf. revert l. induction ops as [|o ops IH]; intros l; [done|].
  cbn. by rewrite IH, (qop_ok_frame s s').
Qed.


(** A heap of [n] fresh block objects with ids [0 .. n-1]. *)
Definition fresh_heap (n : nat) : Heap :=
  mkHeap (list_to_map ((fun i => (i, new_KVCacheBlock (Z.of_nat i))) <$> seq 0 n)) n.

Lemma fresh_heap_get n l : hget (fresh_heap n) l =
  if decide (l < n)%nat then new_KVCacheBlock (Z.of_nat l) else new_KVCacheBlock (-1).
Proof.
  unfold hget, fresh_heap. cbn [cells].
  case_decide as Hl.
  - rewrite (elem_of_list_to_map_1 _ l (new_KVCacheBlock (Z.of_nat l))); [done|..].
    + rewrite <- list_fmap_compose. cbn. rewrite list_fmap_id. apply NoDup_seq.
    + apply list_elem_of_fmap. exists l. split; [done|]. apply elem_of_seq. lia.
  - rewrite not_elem_of_list_to_map_1; [done|].
    rewrite <- list_fmap_compose. cbn. rewrite list_fmap_id, elem_of_seq. lia.
Qed.

Lemma fresh_heap_no_links n : no_links (fresh_heap n).
Proof. intros x. rewrite fresh_heap_get. by case_decide. Qed.

Lemma fresh_heap_bounded n : alloc_bounded (fresh_heap n).
Proof.
  intros x Hx. cbn in Hx. unfold fresh_heap. cbn [cells].
  apply not_elem_of_list_to_map_1.
  rewrite <- list_fmap_compose. cbn. rewrite list_fmap_id, elem_of_seq. lia.
Qed.

(** The constructor: on freshly created block objects, [__init__] links
    all of them in the order of the list, whatever their number; the queue's
    content is then exactly the given list and no other attribute of a block is
    touched. *)
Theorem queue_init_fresh n :
  exists q h', queue_init (seq 0 n) (fresh_heap n) = Ok q h' /\
    queue_wf (mkQState h' q) (seq 0 n) /\ links_only (fresh_heap n) h' /\
    num_free_blocks q = Z.of_nat n.
Proof.
  destruct (wp_ok _ _ _ (queue_init_spec (fresh_heap n) (seq 0 n) (NoDup_seq 0 n)
    (fresh_heap_no_links n) (fresh_heap_bounded n)
    (fun x Hx => proj2 (proj1 (elem_of_seq _ _ _) Hx)))) as (q & h' & E & Hwf & Hl & _).
  exists q, h'. split_and!; [done..|].
  rewrite (qwf_num _ _ Hwf : num_free_blocks q = _). unfold zlen. by rewrite length_seq.
Qed.

(** The state after [__init__] on four fresh blocks. *)
Definition demo_queue : QState :=
  match queue_init (seq 0 4) (fresh_heap 4) with
  | Ok q h => mkQState h q
  | Raise _ h => mkQState h (mkQueue 0 0 0)
  end.

Definition demo_ops : list qop :=
  [QPopleftN 3; QRemove 1; QRemove 3; QPopleft; QPrependN [2; 0]%nat; QAppend 1; QPopleftN 9; QGetAll].

Lemma demo_queue_wf : queue_wf demo_queue (seq 0 4).
Proof.
  unfold demo_queue.
  destruct (wp_ok _ _ _ (queue_init_spec (fresh_heap 4) (seq 0 4) (NoDup_seq 0 4)
    (fresh_heap_no_links 4) (fresh_heap_bounded 4)
    (fun x Hx => proj2 (proj1 (elem_of_seq _ _ _) Hx)))) as (q & h' & E & Hwf & _).
  by rewrite E.
Qed.

