(* ===== verification/Request.v ===== *)
(** * Requests

    [Request] and [RequestStatus] of vllm/v1/request.py, with the data they
    carry: multi-modal features, LoRA adapters, sampling parameters.  The block
    hasher stored on a request ([_block_hasher]) is a function on requests and
    is passed to the operations that use it. *)
From Stdlib Require Import ZArith Lia.
From stdpp Require Import base tactics gmap strings numbers option list.
From S2P Require Import Prelude Blocks.

Local Open Scope Z_scope.

(** [PlaceholderRange], vllm/multimodal/inputs.py *)
Record PlaceholderRange := mkPlaceholder {
  offset : Z;
  length_ : Z;
  is_embed : option (list bool)
}.

(** [MultiModalFeatureSpec]: the fields the engine core reads. *)
Record MultiModalFeatureSpec := mkMMFeature {
  identifier : string;
  mm_position : PlaceholderRange
}.

(** [LoRARequest], vllm/lora/request.py *)
Record LoRARequest := mkLoRA { lora_name : string; lora_int_id : Z }.

(** [embeds_cumsum]: running count of embedding positions. *)
Fixpoint cumsum (acc : Z) (l : list bool) : list Z :=
  match l with
  | [] => []
  | b :: l' => let acc' := acc + Z.b2z b in acc' :: cumsum acc' l'
  end.

Definition embeds_cumsum (p : PlaceholderRange) : option (list Z) :=
  cumsum 0 <$> is_embed p.

(** [PlaceholderRange.get_num_embeds] *)
Definition get_num_embeds (p : PlaceholderRange) : Z :=
  match embeds_cumsum p with
  | None => length_ p
  | Some c => default 0 (py_index c (-1))
  end.

(** [RepetitionDetectionParams], vllm/sampling_params.py *)
Record RepetitionDetectionParams := mkRepetition {
  max_pattern_size : Z;
  min_pattern_size : Z;
  min_count : Z
}.

(** The sampling parameters the scheduler's stop check reads. *)
Record SamplingParams := mkSampling {
  max_tokens_param : option Z;
  min_tokens : Z;
  eos_token_id : option Z;
  stop_token_ids : option (list Z);
  repetition_detection : option RepetitionDetectionParams;
  skip_reading_prefix_cache_param : option bool
}.

(** [PoolingParams], vllm/pooling_params.py: the field the engine core reads. *)
Record PoolingParams := mkPooling { pooling_skip_reading_prefix_cache : option bool }.

(** [RequestStatus]: an [IntEnum] numbered from 1 in declaration order. *)
Inductive RequestStatus :=
| WAITING
| WAITING_FOR_STRUCTURED_OUTPUT_GRAMMAR
| WAITING_FOR_REMOTE_KVS
| WAITING_FOR_STREAMING_REQ
| RUNNING
| PREEMPTED
| FINISHED_STOPPED
| FINISHED_LENGTH_CAPPED
| FINISHED_ABORTED
| FINISHED_IGNORED
| FINISHED_ERROR
| FINISHED_REPETITION.

#[global] Instance RequestStatus_eq_dec : EqDecision RequestStatus.
Proof. solve_decision. Defined.

Definition status_value (s : RequestStatus) : Z :=
  match s with
  | WAITING => 1
  | WAITING_FOR_STRUCTURED_OUTPUT_GRAMMAR => 2
  | WAITING_FOR_REMOTE_KVS => 3
  | WAITING_FOR_STREAMING_REQ => 4
  | RUNNING => 5
  | PREEMPTED => 6
  | FINISHED_STOPPED => 7
  | FINISHED_LENGTH_CAPPED => 8
  | FINISHED_ABORTED => 9
  | FINISHED_IGNORED => 10
  | FINISHED_ERROR => 11
  | FINISHED_REPETITION => 12
  end.

(** [RequestStatus.is_finished] *)
Definition is_finished (s : RequestStatus) : bool :=
  status_value PREEMPTED <? status_value s.

Inductive FinishReason := STOP | LENGTH | ABORT | ERROR | REPETITION.

(** [_FINISHED_REASON_MAP] *)
Definition get_finished_reason (s : RequestStatus) : option FinishReason :=
  match s with
  | FINISHED_STOPPED => Some STOP
  | FINISHED_LENGTH_CAPPED => Some LENGTH
  | FINISHED_ABORTED => Some ABORT
  | FINISHED_IGNORED => Some LENGTH
  | FINISHED_ERROR => Some ERROR
  | WAITING_FOR_STREAMING_REQ => Some STOP
  | FINISHED_REPETITION => Some REPETITION
  | _ => None
  end.

(** [stop_reason : int | str | None] *)
Inductive StopReason := StopToken (t : Z) | StopText (s : string).

(** The attributes of [Request] the engine core's memory management, hashing
    and stop checks read or write. *)
Record Request := mkRequest {
  request_id : string;
  priority : Z;
  arrival_time : Z;
  sampling_params : option SamplingParams;
  pooling_params : option PoolingParams;
  lora_request : option LoRARequest;
  cache_salt : option string;
  session_id : option string;
  mm_features : list MultiModalFeatureSpec;
  prompt_embeds : option (list bytes);
  prompt_embeds_per_block_hashes : gmap (Z * Z) bytes;
  num_prompt_tokens : Z;
  output_token_ids : list Z;
  all_token_ids : list Z;
  block_hashes : list BlockHash;
  status : RequestStatus;
  stop_reason : option StopReason;
  max_tokens : Z;
  num_computed_tokens : Z;
  num_in_flight_tokens : Z;
  shared_prefix_boundary : Z;
  num_preemptions : Z;
  skip_reading_prefix_cache : bool
}.

Definition set_embed_hashes (m : gmap (Z * Z) bytes) (r : Request) : Request :=
  mkRequest (request_id r) (priority r) (arrival_time r) (sampling_params r) (pooling_params r)
    (lora_request r) (cache_salt r) (session_id r) (mm_features r) (prompt_embeds r) m
    (num_prompt_tokens r) (output_token_ids r) (all_token_ids r) (block_hashes r)
    (status r) (stop_reason r) (max_tokens r) (num_computed_tokens r)
    (num_in_flight_tokens r) (shared_prefix_boundary r) (num_preemptions r)
    (skip_reading_prefix_cache r).

Definition set_block_hashes (bh : list BlockHash) (r : Request) : Request :=
  mkRequest (request_id r) (priority r) (arrival_time r) (sampling_params r) (pooling_params r)
    (lora_request r) (cache_salt r) (session_id r) (mm_features r) (prompt_embeds r)
    (prompt_embeds_per_block_hashes r) (num_prompt_tokens r) (output_token_ids r)
    (all_token_ids r) bh (status r) (stop_reason r) (max_tokens r) (num_computed_tokens r)
    (num_in_flight_tokens r) (shared_prefix_boundary r) (num_preemptions r)
    (skip_reading_prefix_cache r).

Definition set_tokens (out all : list Z) (r : Request) : Request :=
  mkRequest (request_id r) (priority r) (arrival_time r) (sampling_params r) (pooling_params r)
    (lora_request r) (cache_salt r) (session_id r) (mm_features r) (prompt_embeds r)
    (prompt_embeds_per_block_hashes r) (num_prompt_tokens r) out all (block_hashes r)
    (status r) (stop_reason r) (max_tokens r) (num_computed_tokens r)
    (num_in_flight_tokens r) (shared_prefix_boundary r) (num_preemptions r)
    (skip_reading_prefix_cache r).

Definition set_status (st : RequestStatus) (r : Request) : Request :=
  mkRequest (request_id r) (priority r) (arrival_time r) (sampling_params r) (pooling_params r)
    (lora_request r) (cache_salt r) (session_id r) (mm_features r) (prompt_embeds r)
    (prompt_embeds_per_block_hashes r) (num_prompt_tokens r) (output_token_ids r)
    (all_token_ids r) (block_hashes r) st (stop_reason r) (max_tokens r)
    (num_computed_tokens r) (num_in_flight_tokens r) (shared_prefix_boundary r)
    (num_preemptions r) (skip_reading_prefix_cache r).

Definition set_stop_reason (sr : option StopReason) (r : Request) : Request :=
  mkRequest (request_id r) (priority r) (arrival_time r) (sampling_params r) (pooling_params r)
    (lora_request r) (cache_salt r) (session_id r) (mm_features r) (prompt_embeds r)
    (prompt_embeds_per_block_hashes r) (num_prompt_tokens r) (output_token_ids r)
    (all_token_ids r) (block_hashes r) (status r) sr (max_tokens r)
    (num_computed_tokens r) (num_in_flight_tokens r) (shared_prefix_boundary r)
    (num_preemptions r) (skip_reading_prefix_cache r).

(** The properties [num_tokens] and [num_output_tokens]. *)
Definition num_tokens (r : Request) : Z := zlen (all_token_ids r).
Definition num_output_tokens (r : Request) : Z := zlen (output_token_ids r).

(** [Request.get_num_encoder_embeds]; the index is a non-negative input id. *)
Definition get_num_encoder_embeds (r : Request) (input_id : Z) : option Z :=
  if input_id <? zlen (mm_features r) then
    f ← py_index (mm_features r) input_id; Some (get_num_embeds (mm_position f))
  else None.

(** [Request.update_block_hashes], given the request's hasher. *)
Definition update_block_hashes (block_hasher : option (M Request (list BlockHash)))
    : M Request unit :=
  match block_hasher with
  | None => mret tt
  | Some hasher =>
      new ← hasher;
      modify (fun r => set_block_hashes (block_hashes r ++ new) r)
  end.

(** [Request.append_output_token_ids]: an [int] argument is a one-element list. *)
Definition append_output_token_ids (block_hasher : option (M Request (list BlockHash)))
    (token_ids : list Z) : M Request unit :=
  modify (fun r => set_tokens (output_token_ids r ++ token_ids)
                              (all_token_ids r ++ token_ids) r) ;;
  update_block_hashes block_hasher.

(** [Request.__lt__]: priority, then arrival time, then request id, then the
    identity of the objects ([id(self)] and [id(other)]).  Strings are compared as Python does, by
    code points. *)
Fixpoint string_ltb (a b : string) : bool :=
  match a, b with
  | _, EmptyString => false
  | EmptyString, String _ _ => true
  | String x a', String y b' =>
      let nx := Ascii.nat_of_ascii x in
      let ny := Ascii.nat_of_ascii y in
      if (nx <? ny)%nat then true else if (ny <? nx)%nat then false else string_ltb a' b'
  end.

Definition request_lt (id_a id_b : Z) (a b : Request) : bool :=
  if negb (priority a =? priority b) then priority a <? priority b
  else if negb (arrival_time a =? arrival_time b) then arrival_time a <? arrival_time b
  else if negb (bool_decide (request_id a = request_id b))
       then string_ltb (request_id a) (request_id b)
  else id_a <? id_b.

(** [length_from_prompt_token_ids_or_embeds], vllm/utils/__init__.py *)
Definition length_from_prompt_token_ids_or_embeds (prompt_token_ids : option (list Z))
    (embeds : option (list bytes)) : exn + Z :=
  match prompt_token_ids, embeds with
  | None, None => inl ValueError
  | None, Some e => inr (zlen e)
  | Some t, None => inr (zlen t)
  | Some t, Some e => if zlen e =? zlen t then inr (zlen t) else inl ValueError
  end.

(** [_all_token_ids] of a new request: positions given as embeddings hold 0. *)
Definition initial_token_ids (prompt_token_ids : option (list Z))
    (prompt_is_token_ids : option (list bool)) (num_prompt : Z) : list Z :=
  match prompt_token_ids, prompt_is_token_ids with
  | None, _ => replicate (Z.to_nat num_prompt) 0
  | Some t, None => t
  | Some t, Some m => zip_with (fun x (is_tok : bool) => if is_tok then x else 0) t m
  end.

(** [get_skip_reading_prefix_cache] *)
Definition get_skip_reading_prefix_cache (sp : option SamplingParams) (pp : option PoolingParams)
    : bool :=
  match sp ≫= skip_reading_prefix_cache_param with
  | Some b => b
  | None => match pp ≫= pooling_skip_reading_prefix_cache with
            | Some b => b
            | None => false
            end
  end.

(** [Request.__init__]: the modelled attributes.  [structured] tells whether
    [StructuredOutputRequest.from_sampling_params] built a grammar request, and
    [now] is the time used when no arrival time is given. *)
Definition new_request (block_hasher : option (M Request (list BlockHash)))
    (rid : string) (prompt_token_ids : option (list Z)) (sp : option SamplingParams)
    (pp : option PoolingParams) (structured : bool) (arrival : option Z) (now : Z)
    (embeds : option (list bytes)) (prompt_is_token_ids : option (list bool))
    (mm : option (list MultiModalFeatureSpec)) (lora : option LoRARequest)
    (salt : option string) (prio : Z) (session : option string) : exn + Request :=
  match (match pp, sp with
         | Some _, _ => inr (1, WAITING)
         | None, Some s =>
             match max_tokens_param s with
             | None => inl AssertionError
             | Some m => inr (m,
                 if structured then WAITING_FOR_STRUCTURED_OUTPUT_GRAMMAR else WAITING)
             end
         | None, None => inl ValueError
         end) with
  | inl e => inl e
  | inr (max_toks, st) =>
      match length_from_prompt_token_ids_or_embeds prompt_token_ids embeds with
      | inl e => inl e
      | inr num_prompt =>
          let r0 := mkRequest rid prio (default now arrival) sp pp lora salt session
            (default [] mm) embeds ∅ num_prompt []
            (initial_token_ids prompt_token_ids prompt_is_token_ids num_prompt) [] st None
            max_toks 0 0 0 0 (get_skip_reading_prefix_cache sp pp) in
          match update_block_hashes block_hasher r0 with
          | Ok _ r => inr r
          | Raise e _ => inl e
          end
      end
  end.
