(* ===== verification/Hashing.v ===== *)
(** * Block hashes for prefix caching

    vllm/v1/core/kv_cache_utils.py: packing a block hash with its KV-cache
    group id, the extra keys of a block (LoRA, multi-modal inputs, cache salt,
    prompt embeddings), the chained block hash, the hasher of a request, and
    the view of hashes at a coarser block size. *)
From Stdlib Require Import ZArith Lia.
From stdpp Require Import base tactics gmap strings numbers option list.
From S2P Require Import Prelude Blocks Request.

Local Open Scope Z_scope.

(** ** Packing the group id *)

(** [make_block_hash_with_group_id]; [None] is the [OverflowError] of
    [int.to_bytes]. *)
Definition make_block_hash_with_group_id (block_hash : BlockHash) (group_id : Z)
    : option BlockHashWithGroupId :=
  (fun g => block_hash ++ g) <$> int_to_bytes 4 group_id.

(** [get_block_hash]: [key[:-4]] *)
Definition get_block_hash (key : BlockHashWithGroupId) : BlockHash := py_upto key (-4).

(** [get_group_id]: [key[-4:]] as a big-endian integer *)
Definition get_group_id (key : BlockHashWithGroupId) : Z := int_from_bytes (py_from key (-4)).

(** [ExternalBlockHash = bytes | int] *)
Inductive ExternalBlockHash := HashBytes (b : bytes) | HashInt (n : Z).

(** [maybe_convert_block_hash]; the flag is the environment's
    [VLLM_KV_EVENTS_USE_INT_BLOCK_HASHES]. *)
Definition maybe_convert_block_hash (use_int : bool) (hash_bytes : BlockHash)
    : ExternalBlockHash :=
  if use_int then HashInt (Z.land (int_from_bytes hash_bytes) (Z.shiftl 1 64 - 1))
  else HashBytes hash_bytes.

(** ** Extra keys *)

(** The values an extra-key tuple holds: strings (LoRA name, cache salt),
    [(identifier, offset)] pairs, and digests. *)
Inductive ExtraKey :=
| KeyStr (s : string)
| KeyMM (ident : string) (rel_offset : Z)
| KeyBytes (b : bytes).

(** The [while] loop of [_gen_mm_extra_hash_keys] from the feature at
    [curr_mm_idx] on; [features] is the rest of the list. *)
Fixpoint mm_keys_loop (features : list MultiModalFeatureSpec)
    (start_token_idx end_token_idx curr_mm_idx : Z) : list ExtraKey * Z :=
  match features with
  | [] => ([], curr_mm_idx)
  | f :: rest =>
      let off := offset (mm_position f) in
      let len := length_ (mm_position f) in
      if off <? end_token_idx then
        if off + len <=? start_token_idx then
          mm_keys_loop rest start_token_idx end_token_idx (curr_mm_idx + 1)
        else
          let key := KeyMM (identifier f) (off - start_token_idx) in
          if off + len <=? end_token_idx then
            let '(keys, idx) := mm_keys_loop rest start_token_idx end_token_idx (curr_mm_idx + 1) in
            (key :: keys, idx)
          else ([key], curr_mm_idx)
      else ([], curr_mm_idx)
  end.

(** [_gen_mm_extra_hash_keys] *)
Definition gen_mm_extra_hash_keys (start_token_idx end_token_idx start_mm_idx : Z)
    : M Request (list ExtraKey * Z) :=
  features ← gets mm_features;
  match py_index features (-1) with
  | None => mret ([], start_mm_idx)
  | Some last_f =>
      let last_pos := mm_position last_f in
      if offset last_pos + length_ last_pos <=? start_token_idx then mret ([], start_mm_idx)
      else
        idx ← (if start_mm_idx <? 0 then
                 assert_ (- start_mm_idx <=? zlen features) ;;
                 mret (zlen features + start_mm_idx)
               else mret start_mm_idx);
        mret (mm_keys_loop (py_from features idx) start_token_idx end_token_idx idx)
  end.

(** [_gen_lora_extra_hash_keys] *)
Definition gen_lora_extra_hash_keys (r : Request) : list ExtraKey :=
  match lora_request r with
  | None => []
  | Some l => [KeyStr (lora_name l)]
  end.

Section Hashing.

(** [hashlib.sha256(...).digest()], and the environment's hash function. *)
Context (sha256 : bytes -> bytes).

(** [_gen_prompt_embeds_extra_hash_keys]: the digest of the block's embedding
    rows, memoised on the request. *)
Definition gen_prompt_embeds_extra_hash_keys (start_token_idx end_token_idx : Z)
    : M Request (list ExtraKey) :=
  pe ← gets prompt_embeds;
  match pe with
  | None => mret []
  | Some rows =>
      memo ← gets prompt_embeds_per_block_hashes;
      match memo !! (start_token_idx, end_token_idx) with
      | Some embeds_hash => mret [KeyBytes embeds_hash]
      | None =>
          let embeds_hash := sha256 (concat (py_slice rows start_token_idx end_token_idx)) in
          modify (fun r => set_embed_hashes
            (<[(start_token_idx, end_token_idx) := embeds_hash]>
               (prompt_embeds_per_block_hashes r)) r) ;;
          mret [KeyBytes embeds_hash]
      end
  end.

(** [request.cache_salt] is falsy when [None] or empty. *)
Definition cache_salt_keys (r : Request) (start_token_idx : Z) : list ExtraKey :=
  match cache_salt r with
  | Some s => if (start_token_idx =? 0) && negb (bool_decide (s = ""%string))
              then [KeyStr s] else []
  | None => []
  end.

(** [generate_block_hash_extra_keys] *)
Definition generate_block_hash_extra_keys (start_token_idx end_token_idx start_mm_idx : Z)
    : M Request (option (list ExtraKey) * Z) :=
  '(mm_extra_keys, new_start_mm_idx) ←
    gen_mm_extra_hash_keys start_token_idx end_token_idx start_mm_idx;
  lora_extra_keys ← gets gen_lora_extra_hash_keys;
  salt_keys ← gets (fun r => cache_salt_keys r start_token_idx);
  prompt_embeds_keys ← gen_prompt_embeds_extra_hash_keys start_token_idx end_token_idx;
  let extra_keys := lora_extra_keys ++ mm_extra_keys ++ salt_keys ++ prompt_embeds_keys in
  mret (match extra_keys with [] => None | _ => Some extra_keys end, new_start_mm_idx).

(** ** The chained hash *)

(** What is given to the hash function: the seed string of [NONE_HASH], or the
    triple of a block. *)
Inductive HashInput :=
| SeedInput (seed : string)
| BlockInput (parent : BlockHash) (tokens : list Z) (extra : option (list ExtraKey)).

Context (hash_function : HashInput -> BlockHash) (none_hash_seed : string).

(** [init_none_hash]: [NONE_HASH = hash_fn(seed)] *)
Definition NONE_HASH : BlockHash := hash_function (SeedInput none_hash_seed).

(** [hash_block_tokens]: a parent that is [None] or empty is replaced by
    [NONE_HASH]. *)
Definition hash_block_tokens (parent_block_hash : option BlockHash)
    (curr_block_token_ids : list Z) (extra_keys : option (list ExtraKey)) : BlockHash :=
  let parent := match parent_block_hash with
                | None | Some [] => NONE_HASH
                | Some p => p
                end in
  hash_function (BlockInput parent curr_block_token_ids extra_keys).

(** The [while True] loop of [request_block_hasher]. *)
Fixpoint hasher_loop (fuel : nat) (hash_block_size start_token_idx curr_mm_idx : Z)
    (prev : option BlockHash) (new_block_hashes : list BlockHash)
    : M Request (list BlockHash) :=
  match fuel with
  | O => raise OutOfFuel
  | S fuel' =>
      nt ← gets num_tokens;
      let end_token_idx := start_token_idx + hash_block_size in
      if nt <? end_token_idx then mret new_block_hashes else
      '(extra_keys, mm_idx) ←
        generate_block_hash_extra_keys start_token_idx end_token_idx curr_mm_idx;
      block_tokens ← gets (fun r => py_slice (all_token_ids r) start_token_idx end_token_idx);
      let block_hash := hash_block_tokens prev block_tokens extra_keys in
      hasher_loop fuel' hash_block_size (start_token_idx + hash_block_size) mm_idx
        (Some block_hash) (new_block_hashes ++ [block_hash])
  end.

(** [get_request_block_hasher(hash_block_size, hash_fn)]: the returned function.
    Each iteration consumes [hash_block_size >= 1] tokens, so the number of
    tokens bounds the iterations. *)
Definition request_block_hasher (hash_block_size : Z) : M Request (list BlockHash) :=
  r ← get;
  let start_token_idx := zlen (block_hashes r) * hash_block_size in
  if num_tokens r <? start_token_idx + hash_block_size then mret [] else
  let curr_mm_idx := if 0 <? start_token_idx then -1 else 0 in
  hasher_loop (S (length (all_token_ids r))) hash_block_size start_token_idx curr_mm_idx
    (py_index (block_hashes r) (-1)) [].

End Hashing.

(** ** Hashes viewed at a coarser block size *)

(** [BlockHashList]: a list of hashes, or the lazy [BlockHashListWithBlockSize]
    view with its scale factor. *)
Inductive BlockHashList :=
| RawHashes (hs : list BlockHash)
| ScaledHashes (hs : list BlockHash) (scale_factor : Z).

(** [BlockHashListWithBlockSize.__init__]; [None] is the failed assertion. *)
Definition new_scaled (hs : list BlockHash) (hash_block_size target_block_size : Z)
    : option BlockHashList :=
  if target_block_size mod hash_block_size =? 0
  then Some (ScaledHashes hs (target_block_size / hash_block_size)) else None.

(** [len] of a view *)
Definition bh_len (v : BlockHashList) : Z :=
  match v with
  | RawHashes hs => zlen hs
  | ScaledHashes hs sf => zlen hs / sf
  end.

(** [view[idx]]: [_get_value_at] on a scaled view *)
Definition bh_index (v : BlockHashList) (idx : Z) : option BlockHash :=
  match v with
  | RawHashes hs => py_index hs idx
  | ScaledHashes hs sf => py_index hs ((idx + 1) * sf - 1)
  end.

(** [view[start:]] as a list ([None]: an index error while materialising). *)
Definition bh_from (v : BlockHashList) (start : Z) : option (list BlockHash) :=
  match v with
  | RawHashes hs => Some (py_from hs start)
  | ScaledHashes hs sf =>
      let n := zlen hs / sf in
      mapM (fun i => py_index hs ((i + 1) * sf - 1)) (py_range (py_bound n start) n)
  end.

(** [resolve_block_hashes]; [None] is a failed assertion. *)
Definition resolve_block_hashes (block_hashes : BlockHashList)
    (hash_block_size block_size : Z)
    (supports_fine_grained_hash_lookup : bool) (alignment_tokens : option Z)
    : option BlockHashList :=
  if block_size =? hash_block_size then Some block_hashes else
  match block_hashes with
  | ScaledHashes hs sf =>
      if sf =? block_size / hash_block_size then Some block_hashes else None
  | RawHashes hs =>
      if supports_fine_grained_hash_lookup &&
         match alignment_tokens with
         | Some a => (a <? block_size) && (block_size mod a =? 0)
         | None => false
         end
      then Some block_hashes
      else if block_size mod hash_block_size =? 0
           then new_scaled hs hash_block_size block_size else None
  end.

(** ** Packing and unpacking *)

Lemma make_block_hash_app h g k :
  make_block_hash_with_group_id h g = Some k ->
  exists gb, k = h ++ gb /\ length gb = 4%nat /\ int_from_bytes gb = g.
Proof.
  unfold make_block_hash_with_group_id. intros (gb & Hgb & ->)%fmap_Some.
  apply int_to_from_bytes in Hgb as [Hg Hl]. by exists gb.
Qed.

Lemma get_parts_app (h gb : bytes) : length gb = 4%nat ->
  get_block_hash (h ++ gb) = h /\ get_group_id (h ++ gb) = int_from_bytes gb.
Proof.
  intros Hl. unfold get_block_hash, get_group_id, py_upto, py_from, py_slice.
  assert (py_bound (zlen (h ++ gb)) (-4) = zlen h) as ->.
  { unfold py_bound, zlen. rewrite length_app, Hl. change (-4 <? 0) with true. cbv iota. lia. }
  assert (py_bound (zlen (h ++ gb)) 0 = 0) as -> by (unfold py_bound; change (0 <? 0) with false; cbv iota; pose proof (zlen_nonneg (h ++ gb)); lia).
  assert (py_bound (zlen (h ++ gb)) (zlen (h ++ gb)) = zlen h + 4) as ->.
  { unfold py_bound, zlen. rewrite length_app, Hl. rewrite (proj2 (Z.ltb_ge _ 0)); lia. }
  unfold zlen. rewrite Nat2Z.id. cbn [drop Z.to_nat]. rewrite Nat.sub_0_r. split.
  - apply take_app_length.
  - rewrite drop_app_length. f_equal. apply take_ge. lia.
Qed.

(** A key determines its block hash and its group. *)
Lemma make_block_hash_inj h g h' g' k :
  make_block_hash_with_group_id h g = Some k ->
  make_block_hash_with_group_id h' g' = Some k -> h = h' /\ g = g'.
Proof.
  intros (gb & -> & Hl & <-)%make_block_hash_app (gb' & E & Hl' & <-)%make_block_hash_app.
  pose proof (get_parts_app h gb Hl) as [H1 H2].
  pose proof (get_parts_app h' gb' Hl') as [H1' H2'].
  rewrite E in H1, H2. split; congruence.
Qed.

Lemma make_block_hash_total h g :
  0 <= g < 2 ^ 32 -> is_Some (make_block_hash_with_group_id h g).
Proof.
  intros Hg. unfold make_block_hash_with_group_id, int_to_bytes.
  rewrite bool_decide_eq_true_2 by (cbn; lia). by eexists.
Qed.

(** Round trip of the packed key: for a 32-bit group id, [get_block_hash]
    and [get_group_id] recover what [make_block_hash_with_group_id] packed,
    whatever the length of the hash; any other group id is rejected (the
    [OverflowError] of [to_bytes]). *)
Theorem block_hash_key_roundtrip h g :
  match make_block_hash_with_group_id h g with
  | Some k => 0 <= g < 2 ^ 32 /\ get_block_hash k = h /\ get_group_id k = g
  | None => g < 0 \/ 2 ^ 32 <= g
  end.
Proof.
  destruct (make_block_hash_with_group_id h g) as [k|] eqn:E.
  - pose proof (make_block_hash_app h g k E) as (gb & -> & Hl & Hg).
    destruct (get_parts_app h gb Hl) as [-> ->]. split; [|done].
    unfold make_block_hash_with_group_id, int_to_bytes in E.
    case_bool_decide as Hb; [cbn in Hb; lia|done].
  - destruct (decide (0 <= g < 2 ^ 32)) as [Hg|]; [|lia].
    by destruct (make_block_hash_total h g Hg) as [k Hk]; rewrite Hk in E.
Qed.

(** ** Specification of the extra keys *)

Definition mm_start (f : MultiModalFeatureSpec) : Z := offset (mm_position f).
Definition mm_end (f : MultiModalFeatureSpec) : Z :=
  offset (mm_position f) + length_ (mm_position f).

(** Multi-modal inputs are listed in prompt order, are not empty and do not
    overlap. *)
Fixpoint mm_sorted (fs : list MultiModalFeatureSpec) : Prop :=
  match fs with
  | [] => True
  | f :: rest => mm_start f < mm_end f /\ Forall (fun g => mm_end f <= mm_start g) rest /\
                 mm_sorted rest
  end.

Definition mm_overlaps (s e : Z) (f : MultiModalFeatureSpec) : bool :=
  (mm_start f <? e) && (s <? mm_end f).

(** The keys of the features that overlap the tokens [s .. e). *)
Definition mm_keys_spec (fs : list MultiModalFeatureSpec) (s e : Z) : list ExtraKey :=
  (fun f => KeyMM (identifier f) (mm_start f - s)) <$>
  filter (fun f => mm_overlaps s e f = true) fs.

Definition embeds_hash_spec (sha256 : bytes -> bytes) (r : Request) (s e : Z) : option bytes :=
  (fun rows => sha256 (concat (py_slice rows s e))) <$> prompt_embeds r.

Definition embeds_keys_spec (sha256 : bytes -> bytes) (r : Request) (s e : Z) : list ExtraKey :=
  match embeds_hash_spec sha256 r s e with Some b => [KeyBytes b] | None => [] end.

(** The extra keys of the block [s .. e): every input that can change the
    KV values of its tokens. *)
Definition extra_keys_spec (sha256 : bytes -> bytes) (r : Request) (s e : Z)
    : option (list ExtraKey) :=
  match gen_lora_extra_hash_keys r ++ mm_keys_spec (mm_features r) s e ++
        cache_salt_keys r s ++ embeds_keys_spec sha256 r s e with
  | [] => None
  | keys => Some keys
  end.

(** Features before the cursor have ended. *)
Definition mm_cursor_ok (fs : list MultiModalFeatureSpec) (idx s : Z) : Prop :=
  0 <= idx <= zlen fs /\ Forall (fun f => mm_end f <= s) (take (Z.to_nat idx) fs).

Lemma mm_sorted_app l k : mm_sorted (l ++ k) -> mm_sorted k.
Proof. induction l as [|f l IH]; [done|]. intros (_ & _ & H). auto. Qed.

Lemma filter_none {A} (P : A -> bool) (l : list A) :
  Forall (fun x => P x = false) l -> filter (fun x => P x = true) l = [].
Proof.
  induction 1 as [|x l Hx _ IH]; [done|].
  rewrite filter_cons_False; [done|]. by rewrite Hx.
Qed.

Lemma mm_overlaps_later s e g : e <= mm_start g -> mm_overlaps s e g = false.
Proof. intros H. unfold mm_overlaps. by rewrite (proj2 (Z.ltb_ge _ _) H). Qed.

Lemma mm_overlaps_ended s e g : mm_end g <= s -> mm_overlaps s e g = false.
Proof.
  intros H. unfold mm_overlaps. rewrite (proj2 (Z.ltb_ge s (mm_end g)) H). apply andb_false_r.
Qed.

Lemma mm_keys_loop_spec fs s e idx : mm_sorted fs -> s < e ->
  exists n, mm_keys_loop fs s e idx = (mm_keys_spec fs s e, idx + Z.of_nat n) /\
    (n <= length fs)%nat /\ Forall (fun f => mm_end f <= e) (take n fs).
Proof.
  intros Hs Hse. revert idx. induction fs as [|f fs IH]; intros idx.
  { exists O. split_and!; [|done..]. cbn. f_equal. lia. }
  destruct Hs as (Hne & Hall & Hs). unfold mm_keys_spec. cbn [mm_keys_loop].
  assert (Forall (fun g => mm_end f <= mm_start g) fs) as Hall' by done.
  change (offset (mm_position f) + length_ (mm_position f)) with (mm_end f).
  change (offset (mm_position f)) with (mm_start f).
  destruct (mm_start f <? e) eqn:E1; [|exists O].
  2: { rewrite filter_none; [split_and!; [cbn; f_equal; first [done|lia]|lia|done]|].
       apply Z.ltb_ge in E1. apply Forall_cons. split; [by apply mm_overlaps_later|].
       eapply Forall_impl; [exact Hall'|]. intros g Hg. cbn beta in Hg. apply mm_overlaps_later. lia. }
  destruct (mm_end f <=? s) eqn:E2.
  { destruct (IH Hs (idx + 1)) as (n & -> & Hn & HF). exists (S n).
    apply Z.leb_le in E2.
    rewrite filter_cons_False by (rewrite mm_overlaps_ended; [done|lia]).
    split_and!; [f_equal; first [done|lia]|cbn; lia|]. cbn. apply Forall_cons. split; [lia|done]. }
  apply Z.leb_gt in E2.
  rewrite filter_cons_True
    by (unfold mm_overlaps; rewrite E1, (proj2 (Z.ltb_lt _ _) E2); done).
  destruct (mm_end f <=? e) eqn:E3.
  - apply Z.leb_le in E3. destruct (IH Hs (idx + 1)) as (n & -> & Hn & HF).
    exists (S n). split_and!; [cbn; f_equal; first [done|lia]|cbn; lia|]. cbn. by apply Forall_cons.
  - apply Z.leb_gt in E3. exists O. rewrite filter_none.
    + split_and!; [cbn; f_equal; first [done|lia]|lia|done].
    + eapply Forall_impl; [exact Hall'|]. intros g Hg. cbn beta in Hg. apply mm_overlaps_later. lia.
Qed.

(** The keys do not depend on the features that ended before the block. *)
Lemma mm_keys_spec_drop fs s e n :
  Forall (fun f => mm_end f <= s) (take n fs) ->
  mm_keys_spec (drop n fs) s e = mm_keys_spec fs s e.
Proof.
  intros H. unfold mm_keys_spec. rewrite <- (take_drop n fs) at 2.
  rewrite filter_app, (filter_none _ (take n fs)); [done|].
  eapply Forall_impl; [exact H|]. intros g Hg. by apply mm_overlaps_ended.
Qed.

(** A cursor from which the loop sees every feature that overlaps a block
    starting at [s]; a negative one counts from the end. *)
Definition cursor_ready (fs : list MultiModalFeatureSpec) (idx s : Z) : Prop :=
  fs = [] \/ mm_cursor_ok fs idx s \/ idx < 0 /\ mm_cursor_ok fs (zlen fs + idx) s.

Lemma mm_cursor_ok_mono fs idx s s' : s <= s' -> mm_cursor_ok fs idx s -> mm_cursor_ok fs idx s'.
Proof.
  intros Hs [H1 H2]. split; [done|]. eapply Forall_impl; [exact H2|].
  intros f Hf. cbn beta in *. lia.
Qed.

Lemma cursor_ready_mono fs idx s s' : s <= s' -> cursor_ready fs idx s -> cursor_ready fs idx s'.
Proof.
  intros Hs [?|[?|[? ?]]]; [by left|right; left|right; right; split; [done|]];
    by eapply mm_cursor_ok_mono.
Qed.

(** When the last feature has ended, all have. *)
Lemma mm_all_ended fs s lf : mm_sorted fs -> last fs = Some lf -> mm_end lf <= s ->
  Forall (fun f => mm_end f <= s) fs.
Proof.
  intros Hs [l' ->]%last_Some He. apply Forall_app. split; [|by apply Forall_cons].
  assert (mm_start lf < mm_end lf) as Hlf.
  { apply mm_sorted_app in Hs. by destruct Hs. }
  induction l' as [|g l' IH]; [done|]. destruct Hs as (_ & Hg & Hs).
  apply Forall_app in Hg as [_ Hg]. apply Forall_cons in Hg as [Hg _].
  apply Forall_cons. split; [cbn beta in *; lia|auto].
Qed.

(** ** The hasher computes the specified chain *)

Section HasherProofs.
Context (sha256 : bytes -> bytes) (hash_function : HashInput -> BlockHash)
  (none_hash_seed : string).

(** Every memoised embedding digest is the digest of its rows. *)
Definition memo_ok (r : Request) : Prop :=
  forall s e b, prompt_embeds_per_block_hashes r !! (s, e) = Some b ->
    embeds_hash_spec sha256 r s e = Some b.

(** Two states of a request that differ at most in the memo table. *)
Definition same_but_memo (r r' : Request) : Prop :=
  r' = set_embed_hashes (prompt_embeds_per_block_hashes r') r.

#[local] Instance same_but_memo_refl : Reflexive same_but_memo.
Proof. by intros []. Qed.

#[local] Instance same_but_memo_trans : Transitive same_but_memo.
Proof. intros r1 r2 r3 H1 H2. unfold same_but_memo in *. rewrite H2, H1. done. Qed.

Lemma same_but_memo_fields r r' : same_but_memo r r' ->
  mm_features r' = mm_features r /\ all_token_ids r' = all_token_ids r /\
  num_tokens r' = num_tokens r /\ block_hashes r' = block_hashes r.
Proof. by intros ->. Qed.

Lemma extra_keys_spec_memo r r' s e : same_but_memo r r' ->
  extra_keys_spec sha256 r' s e = extra_keys_spec sha256 r s e.
Proof. by intros ->. Qed.

Lemma gen_mm_spec s e idx r :
  mm_sorted (mm_features r) -> s < e ->
  cursor_ready (mm_features r) idx s ->
  exists idx', gen_mm_extra_hash_keys s e idx r = Ok (mm_keys_spec (mm_features r) s e, idx') r /\
    cursor_ready (mm_features r) idx' e.
Proof.
  intros Hs Hse Hidx. unfold gen_mm_extra_hash_keys, gets, mbind, M_bind.
  destruct (mm_features r) as [|f0 fs0] eqn:Ef.
  { exists idx. split; [done|by left]. }
  rewrite <- Ef in Hs, Hidx |- *. pose proof Hidx as Hidx0. set (fs := mm_features r) in *.
  assert (fs <> []) as Hne by (by rewrite Ef).
  rewrite py_index_last. destruct (last fs) as [lf|] eqn:El; [|by apply last_None in El].
  destruct (offset (mm_position lf) + length_ (mm_position lf) <=? s) eqn:E1.
  - apply Z.leb_le in E1. pose proof (mm_all_ended fs s lf Hs El E1) as Hall.
    exists idx. split; [|eapply cursor_ready_mono; [|exact Hidx0]; lia].
    unfold mm_keys_spec. rewrite filter_none; [done|].
    eapply Forall_impl; [exact Hall|]. intros g Hg. by apply mm_overlaps_ended.
  - assert (exists idx0, (if idx <? 0 then assert_ (- idx <=? zlen fs) ;; mret (zlen fs + idx)
              else mret idx) r = Ok idx0 r /\ mm_cursor_ok fs idx0 s) as (idx0 & E0 & Hc).
    { destruct Hidx as [?|[Hi|(Hi & Hc)]]; [done|..].
      - exists idx. rewrite (proj2 (Z.ltb_ge idx 0)) by (destruct Hi; lia). done.
      - exists (zlen fs + idx). rewrite (proj2 (Z.ltb_lt idx 0)) by lia. split; [|done].
        unfold assert_. rewrite (proj2 (Z.leb_le _ _)) by (destruct Hc; lia). done. }
    unfold mbind, M_bind in E0. rewrite E0. destruct Hc as [Hb Hf].
    rewrite py_from_drop by lia.
    destruct (mm_keys_loop_spec (drop (Z.to_nat idx0) fs) s e idx0) as (n & En & Hn & HF).
    { apply (mm_sorted_app (take (Z.to_nat idx0) fs)). by rewrite take_drop. }
    { done. }
    exists (idx0 + Z.of_nat n). rewrite En. split.
    + by rewrite mm_keys_spec_drop.
    + right; left. rewrite length_drop in Hn. unfold mm_cursor_ok, zlen in *. split; [lia|].
      replace (Z.to_nat (idx0 + Z.of_nat n)) with (Z.to_nat idx0 + n)%nat by lia.
      rewrite <- take_take_drop. apply Forall_app. split; [|done].
      eapply Forall_impl; [exact Hf|]. intros g Hg. cbn beta in *. lia.
Qed.

Lemma gen_embeds_spec s e r : memo_ok r ->
  exists r', gen_prompt_embeds_extra_hash_keys sha256 s e r = Ok (embeds_keys_spec sha256 r s e) r' /\
    same_but_memo r r' /\ memo_ok r'.
Proof.
  intros Hm. unfold gen_prompt_embeds_extra_hash_keys, gets, mbind, M_bind, embeds_keys_spec.
  unfold embeds_hash_spec. destruct (prompt_embeds r) as [rows|] eqn:Er; cbn.
  2: { exists r. split_and!; [done|reflexivity|done]. }
  destruct (prompt_embeds_per_block_hashes r !! (s, e)) as [b|] eqn:Eb; cbn.
  - exists r. split_and!; [|reflexivity|done]. apply Hm in Eb.
    unfold embeds_hash_spec in Eb. rewrite Er in Eb. by injection Eb as <-.
  - eexists. split_and!; [reflexivity..|]. intros s' e' b'. cbn.
    destruct (decide ((s, e) = (s', e'))) as [[= <- <-]|Hne].
    + rewrite lookup_insert_eq. intros [= <-]. unfold embeds_hash_spec. cbn. by rewrite Er.
    + rewrite lookup_insert_ne by done. apply Hm.
Qed.

Lemma generate_extra_keys_spec s e idx r :
  mm_sorted (mm_features r) -> memo_ok r -> s < e -> cursor_ready (mm_features r) idx s ->
  exists idx' r', generate_block_hash_extra_keys sha256 s e idx r =
      Ok (extra_keys_spec sha256 r s e, idx') r' /\
    same_but_memo r r' /\ memo_ok r' /\ cursor_ready (mm_features r) idx' e.
Proof.
  intros Hs Hm Hse Hc. destruct (gen_mm_spec s e idx r Hs Hse Hc) as (idx' & E & Hc').
  destruct (gen_embeds_spec s e r Hm) as (r' & E' & Hsame & Hm').
  exists idx', r'. split_and!; [|done..].
  unfold generate_block_hash_extra_keys, mbind, M_bind, gets. rewrite E. cbn. rewrite E'.
  cbn. unfold extra_keys_spec. by destruct (_ ++ _).
Qed.

(** The one-shot specification: the hashes of [n] consecutive blocks of [bs]
    tokens from [start] on, chained from [prev]. *)
Fixpoint hash_chain (bs : Z) (r : Request) (n : nat) (prev : option BlockHash) (start : Z)
    : list BlockHash :=
  match n with
  | O => []
  | S n' =>
      let h := hash_block_tokens hash_function none_hash_seed prev
                 (py_slice (all_token_ids r) start (start + bs))
                 (extra_keys_spec sha256 r start (start + bs)) in
      h :: hash_chain bs r n' (Some h) (start + bs)
  end.

Lemma hash_chain_memo bs r r' n prev start :
  same_but_memo r r' -> hash_chain bs r' n prev start = hash_chain bs r n prev start.
Proof.
  intros Hs. revert prev start. induction n as [|n IH]; intros prev start; [done|].
  cbn. rewrite (extra_keys_spec_memo r r') by done.
  destruct (same_but_memo_fields r r' Hs) as (_ & -> & _). by rewrite IH.
Qed.

Lemma hasher_loop_spec bs fuel start idx prev acc r :
  0 < bs -> mm_sorted (mm_features r) -> memo_ok r -> cursor_ready (mm_features r) idx start ->
  start <= num_tokens r -> num_tokens r - start < bs * Z.of_nat fuel ->
  exists r', hasher_loop sha256 hash_function none_hash_seed fuel bs start idx prev acc r =
      Ok (acc ++ hash_chain bs r (Z.to_nat ((num_tokens r - start) / bs)) prev start) r' /\
    same_but_memo r r' /\ memo_ok r'.
Proof.
  intros Hbs Hs. revert start idx prev acc r Hs.
  induction fuel as [|fuel IH]; intros start idx prev acc r Hs Hm Hc Hst Hf; [lia|].
  cbn [hasher_loop]. unfold mbind, M_bind, gets. cbn beta iota.
  destruct (num_tokens r <? start + bs) eqn:E.
  - apply Z.ltb_lt in E. exists r. rewrite Z.div_small by lia. cbn. rewrite app_nil_r.
    split_and!; [reflexivity|reflexivity|done].
  - apply Z.ltb_ge in E.
    destruct (generate_extra_keys_spec start (start + bs) idx r Hs Hm ltac:(lia) Hc)
      as (idx' & r1 & E1 & Hs1 & Hm1 & Hc1).
    rewrite E1. cbn beta iota.
    set (h := hash_block_tokens _ _ _ _ _).
    destruct (same_but_memo_fields r r1 Hs1) as (Hf1 & Ha1 & Hn1 & _).
    destruct (IH (start + bs) idx' (Some h) (acc ++ [h]) r1) as (r' & E2 & Hs2 & Hm2);
      rewrite ?Hf1, ?Hn1; [done..|lia|lia|].
    exists r'. unfold mbind, M_bind, gets in E2. rewrite E2.
    split_and!; [|by transitivity r1|done].
    rewrite Hn1, (hash_chain_memo bs r r1) by done.
    replace ((num_tokens r - start) / bs) with ((num_tokens r - (start + bs)) / bs + 1).
    2: { rewrite <- Z.div_add by lia. f_equal. lia. }
    rewrite Z2Nat.inj_add by (try apply Z.div_pos; lia). rewrite Nat.add_comm. cbn [Nat.add Z.to_nat].
    change (Z.to_nat 1) with 1%nat. cbn [Nat.add hash_chain].
    rewrite <- app_assoc. cbn. subst h. by rewrite Ha1.
Qed.

Lemma hash_chain_length bs r n prev start : length (hash_chain bs r n prev start) = n.
Proof. revert prev start. induction n as [|n IH]; intros; cbn; [done|by rewrite IH]. Qed.

(** A chain of [n + m] blocks is the chain of [n], continued from its last hash. *)
Lemma hash_chain_app bs r n m prev start :
  hash_chain bs r (n + m) prev start =
  hash_chain bs r n prev start ++
  hash_chain bs r m (match n with O => prev | _ => last (hash_chain bs r n prev start) end)
    (start + bs * Z.of_nat n).
Proof.
  revert prev start. induction n as [|n IH]; intros prev start.
  { cbn. f_equal. lia. }
  cbn [Nat.add hash_chain]. rewrite IH. cbn [app]. f_equal. f_equal.
  replace (start + bs + bs * Z.of_nat n) with (start + bs * Z.of_nat (S n)) by lia.
  f_equal. destruct n as [|n]; [done|]. cbn [hash_chain]. by rewrite last_cons_cons.
Qed.

(** Tokens appended after a full block do not change its hash. *)
Lemma hash_chain_extend bs r r' n prev start more :
  0 < bs -> 0 <= start -> start + bs * Z.of_nat n <= num_tokens r ->
  all_token_ids r' = all_token_ids r ++ more ->
  (forall s e, extra_keys_spec sha256 r' s e = extra_keys_spec sha256 r s e) ->
  hash_chain bs r' n prev start = hash_chain bs r n prev start.
Proof.
  intros Hbs H0 Hn Ha Hk. revert prev start H0 Hn.
  induction n as [|n IH]; intros prev start H0 Hn; [done|]. cbn [hash_chain].
  unfold num_tokens in Hn. pose proof (zlen_nonneg more).
  assert (py_slice (all_token_ids r') start (start + bs) =
          py_slice (all_token_ids r) start (start + bs)) as ->.
  { rewrite Ha, !py_slice_prefix by (rewrite ?zlen_app; lia).
    unfold zlen in *. rewrite drop_app_le, take_app_le; [done|..]; rewrite ?length_drop; lia. }
  rewrite Hk, IH by (unfold num_tokens; lia). done.
Qed.

(** The hashes a request carries are the chain over all its full blocks. *)
Definition fully_hashed (bs : Z) (r : Request) : Prop :=
  block_hashes r = hash_chain bs r (Z.to_nat (num_tokens r / bs)) None 0.

(** All multi-modal inputs but the last have ended at token [t]. *)
Definition only_last_open (r : Request) (t : Z) : Prop :=
  Forall (fun f => mm_end f <= t) (removelast (mm_features r)).

Lemma only_last_open_cursor r t : only_last_open r t -> cursor_ready (mm_features r) (-1) t.
Proof.
  unfold only_last_open, cursor_ready, mm_cursor_ok.
  destruct (mm_features r) as [|f fs] eqn:E; [by left|]. intros H. right; right.
  split; [lia|]. rewrite <- E in *. clear -H E.
  assert (0 < zlen (mm_features r)) by (rewrite E, zlen_cons; pose proof (zlen_nonneg fs); lia).
  split; [lia|]. rewrite removelast_firstn_len in H. unfold zlen in *.
  replace (Z.to_nat (Z.of_nat (length (mm_features r)) + -1)) with (Nat.pred (length (mm_features r)))
    by lia. done.
Qed.

(** The hasher on a request whose first [k] blocks are hashed. *)
Lemma request_block_hasher_spec bs r k :
  0 < bs -> mm_sorted (mm_features r) -> memo_ok r ->
  block_hashes r = hash_chain bs r k None 0 -> bs * Z.of_nat k <= num_tokens r ->
  (k = O \/ only_last_open r (bs * Z.of_nat k)) ->
  exists new r', request_block_hasher sha256 hash_function none_hash_seed bs r = Ok new r' /\
    same_but_memo r r' /\ memo_ok r' /\
    block_hashes r ++ new = hash_chain bs r (Z.to_nat (num_tokens r / bs)) None 0.
Proof.
  intros Hbs Hs Hm Hk Hnt Hopen.
  assert (zlen (block_hashes r) * bs = bs * Z.of_nat k) as Hlen
    by (unfold zlen; rewrite Hk, hash_chain_length; lia).
  assert (Z.to_nat (num_tokens r / bs) =
          (k + Z.to_nat ((num_tokens r - bs * Z.of_nat k) / bs))%nat) as Hsplit.
  { replace (num_tokens r) with (num_tokens r - bs * Z.of_nat k + Z.of_nat k * bs) at 1 by lia.
    rewrite Z.div_add by lia. pose proof (Z.div_pos (num_tokens r - bs * Z.of_nat k) bs). lia. }
  rewrite Hsplit, hash_chain_app, <- Hk.
  unfold request_block_hasher, get, mbind, M_bind. rewrite Hlen, py_index_last.
  destruct (num_tokens r <? bs * Z.of_nat k + bs) eqn:E.
  - apply Z.ltb_lt in E. exists [], r. rewrite Z.div_small by lia.
    split_and!; [reflexivity|reflexivity|done|done].
  - destruct (hasher_loop_spec bs (S (length (all_token_ids r))) (bs * Z.of_nat k)
      (if 0 <? bs * Z.of_nat k then -1 else 0) (last (block_hashes r)) [] r)
      as (r' & -> & Hsame & Hm'); [done..| |done| |].
    + destruct Hopen as [->|Hopen].
      * change (0 <? bs * Z.of_nat 0) with (0 <? bs * 0). rewrite Z.mul_0_r. change (0 <? 0) with false. right; left.
        split; [pose proof (zlen_nonneg (mm_features r)); lia|done].
      * destruct (0 <? bs * Z.of_nat k) eqn:E0; [by apply only_last_open_cursor|].
        apply Z.ltb_ge in E0. right; left. split; [pose proof (zlen_nonneg (mm_features r)); lia|done].
    + unfold num_tokens, zlen in *. nia.
    + eexists _, r'. split_and!; [reflexivity|done|done|].
      f_equal. cbn [app]. f_equal; first [lia|destruct k; [by rewrite Hk|done]].
Qed.

Lemma update_block_hashes_spec bs r k :
  0 < bs -> mm_sorted (mm_features r) -> memo_ok r ->
  block_hashes r = hash_chain bs r k None 0 -> bs * Z.of_nat k <= num_tokens r ->
  (k = O \/ only_last_open r (bs * Z.of_nat k)) ->
  exists r', update_block_hashes
      (Some (request_block_hasher sha256 hash_function none_hash_seed bs)) r = Ok tt r' /\
    fully_hashed bs r' /\ memo_ok r' /\
    r' = set_block_hashes (block_hashes r')
           (set_embed_hashes (prompt_embeds_per_block_hashes r') r).
Proof.
  intros Hbs Hs Hm Hk Hnt Hopen.
  destruct (request_block_hasher_spec bs r k) as (new & r1 & E & Hsame & Hm1 & Hch); [done..|].
  exists (set_block_hashes (block_hashes r1 ++ new) r1).
  unfold update_block_hashes, mbind, M_bind, modify. rewrite E.
  destruct (same_but_memo_fields r r1 Hsame) as (_ & Ha & Hn & Hb).
  split_and!; [done| |done|].
  - unfold fully_hashed. cbn [block_hashes set_block_hashes]. rewrite Hb, Hch.
    change (num_tokens (set_block_hashes _ r1)) with (num_tokens r1). rewrite Hn.
    rewrite <- (hash_chain_memo bs r r1) by done.
    symmetry. apply (hash_chain_extend bs r1 _ _ _ _ []); [done|lia| |by rewrite app_nil_r|done].
    rewrite Hn. pose proof (Z.mul_div_le (num_tokens r) bs).
    pose proof (Z.div_pos (num_tokens r) bs). unfold num_tokens in *.
    pose proof (zlen_nonneg (all_token_ids r)). lia.
  - cbn. by rewrite Hsame.
Qed.

(** C36.  Incremental hashing is one-shot hashing: when a request whose full
    blocks are all hashed receives output tokens, [append_output_token_ids]
    terminates without error and leaves it with exactly the chained hashes of
    all full blocks of the longer sequence, as if they were computed from
    scratch; only tokens, hashes and the digest memo change.  The code resumes
    with the last multi-modal input only, so the earlier ones must have ended
    before the first unhashed block. *)
Theorem append_tokens_keeps_hashes bs r toks :
  0 < bs -> mm_sorted (mm_features r) -> memo_ok r -> fully_hashed bs r ->
  (num_tokens r < bs \/ only_last_open r (bs * (num_tokens r / bs))) ->
  exists r', append_output_token_ids
      (Some (request_block_hasher sha256 hash_function none_hash_seed bs)) toks r = Ok tt r' /\
    fully_hashed bs r' /\ memo_ok r' /\ all_token_ids r' = all_token_ids r ++ toks /\
    output_token_ids r' = output_token_ids r ++ toks /\
    r' = set_block_hashes (block_hashes r') (set_embed_hashes (prompt_embeds_per_block_hashes r')
           (set_tokens (output_token_ids r') (all_token_ids r') r)).
Proof.
  intros Hbs Hs Hm Hh Hopen.
  set (r1 := set_tokens (output_token_ids r ++ toks) (all_token_ids r ++ toks) r).
  assert (0 <= num_tokens r) as H0 by apply zlen_nonneg.
  pose proof (Z.div_pos (num_tokens r) bs H0 Hbs) as Hdiv.
  pose proof (Z.mul_div_le (num_tokens r) bs Hbs) as Hle.
  destruct (update_block_hashes_spec bs r1 (Z.to_nat (num_tokens r / bs)))
    as (r' & E & Hf & Hm' & Heq); [done..| | | |].
  - change (block_hashes r1) with (block_hashes r). rewrite Hh. symmetry.
    apply (hash_chain_extend bs r r1 _ _ _ toks); [done|lia|lia|done|done].
  - change (num_tokens r1) with (zlen (all_token_ids r ++ toks)). rewrite zlen_app.
    fold (num_tokens r). pose proof (zlen_nonneg toks). lia.
  - destruct Hopen as [Hlt|Ho]; [left; by rewrite Z.div_small|right].
    by rewrite Z2Nat.id.
  - exists r'. split_and!; [exact E|done|done|by rewrite Heq..|].
    rewrite Heq. done.
Qed.

(** Construction: [Request.__init__] with a block hasher succeeds exactly
    when a sampling (with its token limit) or pooling parameter object is given
    and the prompt is given consistently; the new request then carries the chained hashes of all full
    blocks of its prompt, every multi-modal input included, and has one token
    per prompt position. *)
Theorem new_request_hashed bs rid toks sp pp structured arrival now embeds is_tok mm lora salt prio session :
  0 < bs -> mm_sorted (default [] mm) ->
  (forall t m, toks = Some t -> is_tok = Some m -> length m = length t) ->
  match new_request (Some (request_block_hasher sha256 hash_function none_hash_seed bs))
          rid toks sp pp structured arrival now embeds is_tok mm lora salt prio session with
  | inl AssertionError => pp = None /\ exists s, sp = Some s /\ max_tokens_param s = None
  | inl e => e = ValueError /\
      (sp = None /\ pp = None \/ toks = None /\ embeds = None \/
       exists t e, toks = Some t /\ embeds = Some e /\ length e <> length t)
  | inr r => fully_hashed bs r /\ memo_ok r /\ num_tokens r = num_prompt_tokens r /\
      mm_features r = default [] mm /\ lora_request r = lora /\ cache_salt r = salt /\
      prompt_embeds r = embeds /\ is_finished (status r) = false
  end.
Proof.
  intros Hbs Hmm Hmask. unfold new_request.
  set (q := match pp, sp with Some _, _ => _ | None, Some s => _ | None, None => _ end).
  assert (match q with
          | inl AssertionError => pp = None /\ exists s, sp = Some s /\ max_tokens_param s = None
          | inl e => e = ValueError /\ sp = None /\ pp = None
          | inr (_, st) => is_finished st = false end) as Hq.
  { subst q. destruct pp, sp as [s|]; try done.
    destruct (max_tokens_param s) eqn:E; [by destruct structured|eauto]. }
  destruct q as [[]|[mt st]]; [tauto..|].
  destruct (length_from_prompt_token_ids_or_embeds toks embeds) as [e|np] eqn:E2.
  { unfold length_from_prompt_token_ids_or_embeds in E2. destruct toks as [t|], embeds as [em|].
    - destruct (Z.eqb_spec (zlen em) (zlen t)); [done|]. injection E2 as <-. split; [done|].
      right; right. exists t, em. unfold zlen in *. split_and!; [done|done|lia].
    - done.
    - done.
    - injection E2 as <-. split; [done|]. right; left. done. }
  set (r0 := mkRequest _ _ _ _ _ _ _ _ _ _ _ _ _ _ _ _ _ _ _ _ _ _ _).
  assert (num_tokens r0 = np) as Hnp.
  { unfold num_tokens, r0, zlen. cbn. unfold initial_token_ids, length_from_prompt_token_ids_or_embeds in *.
    destruct toks as [t|], embeds as [em|]; [destruct (zlen em =? zlen t); [|done]|..|done];
      injection E2 as <-; destruct is_tok as [m|];
      rewrite ?length_zip_with, ?length_replicate, ?(Hmask t m) by done; unfold zlen; lia. }
  destruct (update_block_hashes_spec bs r0 O) as (r & -> & Hf & Hm & Heq); try done.
  - rewrite Z.mul_0_r. apply zlen_nonneg.
  - by left.
  - split_and!; [done|done|..]; rewrite Heq; done.
Qed.

(** ** Hashes identify prefixes *)

Lemma hash_chain_lookup bs r n prev start i h :
  hash_chain bs r n prev start !! i = Some h ->
  h = hash_block_tokens hash_function none_hash_seed
        (match i with O => prev | S i' => hash_chain bs r n prev start !! i' end)
        (py_slice (all_token_ids r) (start + bs * Z.of_nat i) (start + bs * Z.of_nat i + bs))
        (extra_keys_spec sha256 r (start + bs * Z.of_nat i) (start + bs * Z.of_nat i + bs)).
Proof.
  revert prev start i. induction n as [|n IH]; intros prev start [|i]; cbn [hash_chain]; try done.
  - cbn. intros [= <-]. rewrite !Z.mul_0_r, !Z.add_0_r. done.
  - cbn [lookup list_lookup]. intros H%IH. rewrite H.
    replace (start + bs * Z.of_nat (S i)) with (start + bs + bs * Z.of_nat i) by lia.
    by destruct i.
Qed.

(** The ideal hash function: no collisions, no empty digest. *)
Hypothesis hash_inj : Inj (=) (=) hash_function.
Hypothesis hash_nonempty : forall x, hash_function x <> [].

Lemma hash_chain_determines bs r1 n1 r2 n2 i j h :
  hash_chain bs r1 n1 None 0 !! i = Some h -> hash_chain bs r2 n2 None 0 !! j = Some h ->
  i = j /\ forall m, (m <= i)%nat ->
    py_slice (all_token_ids r1) (bs * Z.of_nat m) (bs * Z.of_nat m + bs) =
    py_slice (all_token_ids r2) (bs * Z.of_nat m) (bs * Z.of_nat m + bs) /\
    extra_keys_spec sha256 r1 (bs * Z.of_nat m) (bs * Z.of_nat m + bs) =
    extra_keys_spec sha256 r2 (bs * Z.of_nat m) (bs * Z.of_nat m + bs).
Proof.
  revert j h. induction i as [|i IH]; intros j h H1 H2;
    pose proof (hash_chain_lookup _ _ _ _ _ _ _ H1) as E1;
    pose proof (hash_chain_lookup _ _ _ _ _ _ _ H2) as E2;
    rewrite !Z.add_0_l in E1, E2; rewrite E1 in E2; apply hash_inj in E2.
  - destruct j as [|j].
    + injection E2 as Et Ek. split; [done|]. intros m Hm.
      by replace m with O by lia.
    + destruct (lookup_lt_is_Some_2 (hash_chain bs r2 n2 None 0) j) as [h' Hh'].
      { apply lookup_lt_Some in H2. lia. }
      rewrite Hh' in E2. pose proof (hash_chain_lookup _ _ _ _ _ _ _ Hh') as E'.
      injection E2 as Ep _ _. destruct h' as [|b h']; [by symmetry in E'; apply hash_nonempty in E'|].
      rewrite E' in Ep. by apply hash_inj in Ep.
  - destruct (lookup_lt_is_Some_2 (hash_chain bs r1 n1 None 0) i) as [h1 Hh1].
    { apply lookup_lt_Some in H1. lia. }
    rewrite Hh1 in E2. pose proof (hash_chain_lookup _ _ _ _ _ _ _ Hh1) as E1'.
    destruct h1 as [|b h1]; [by symmetry in E1'; apply hash_nonempty in E1'|].
    destruct j as [|j].
    + injection E2 as Ep _ _. rewrite E1' in Ep. by apply hash_inj in Ep.
    + destruct (lookup_lt_is_Some_2 (hash_chain bs r2 n2 None 0) j) as [h2 Hh2].
      { apply lookup_lt_Some in H2. lia. }
      rewrite Hh2 in E2. pose proof (hash_chain_lookup _ _ _ _ _ _ _ Hh2) as E2'.
      destruct h2 as [|b2 h2]; [by symmetry in E2'; apply hash_nonempty in E2'|].
      injection E2 as Eb Eh Et Ek.
      destruct (IH j (b :: h1) Hh1) as [-> Hall]; [by rewrite Hh2, Eb, Eh|].
      split; [done|]. intros m Hm. destruct (decide (m = S j)) as [->|]; [done|].
      apply Hall. lia.
Qed.

(** Equal blocks make equal prefixes. *)
Lemma slices_prefix {A} (l1 l2 : list A) (bs : nat) i :
  (forall m, (m <= i)%nat -> take bs (drop (bs * m) l1) = take bs (drop (bs * m) l2)) ->
  take (bs * S i) l1 = take (bs * S i) l2.
Proof.
  induction i as [|i IH]; intros H.
  - rewrite Nat.mul_1_r. specialize (H O (le_n _)). by rewrite Nat.mul_0_r in H.
  - replace (bs * S (S i))%nat with (bs * S i + bs)%nat by lia.
    rewrite <- !take_take_drop, IH by (intros; apply H; lia). f_equal. by apply H.
Qed.

Lemma fully_hashed_in_range bs r i h : 0 < bs -> fully_hashed bs r ->
  block_hashes r !! i = Some h -> bs * Z.of_nat (S i) <= num_tokens r.
Proof.
  intros Hbs Hf Hi. apply lookup_lt_Some in Hi. rewrite Hf, hash_chain_length in Hi.
  pose proof (Z.mul_div_le (num_tokens r) bs Hbs). unfold num_tokens in *.
  pose proof (Z.div_pos (zlen (all_token_ids r)) bs (zlen_nonneg _) Hbs). nia.
Qed.


End HasherProofs.

(** ** Hashes at a coarser granularity *)

Lemma hash_chain_prefix sha256 hash_function seed bs r n m prev start : (n <= m)%nat ->
  take n (hash_chain sha256 hash_function seed bs r m prev start) =
  hash_chain sha256 hash_function seed bs r n prev start.
Proof.
  intros Hn. replace m with (n + (m - n))%nat by lia.
  rewrite hash_chain_app. apply take_app_length'. by rewrite hash_chain_length.
Qed.

Lemma last_take_lookup {A} (l : list A) n : (0 < n <= length l)%nat ->
  last (take n l) = l !! (n - 1)%nat.
Proof.
  intros Hn. rewrite last_lookup, length_take, lookup_take_lt by lia.
  f_equal. lia.
Qed.

(** The lazy view at a block size that is a multiple of the hash
    granularity: it has one entry per full block of the coarse size, entry [i]
    is the chained hash of the first [(i + 1) * bs] tokens, and the next index
    is out of range. *)
Theorem scaled_view_is_prefix_hash sha256 hash_function seed hbs bs r :
  0 < hbs -> hbs < bs -> bs mod hbs = 0 ->
  fully_hashed sha256 hash_function seed hbs r ->
  exists v, resolve_block_hashes (RawHashes (block_hashes r)) hbs bs false None = Some v /\
    bh_len v = num_tokens r / bs /\ bh_index v (bh_len v) = None /\
    forall i, 0 <= i < bh_len v -> exists h, bh_index v i = Some h /\
      last (hash_chain sha256 hash_function seed hbs r
              (Z.to_nat ((i + 1) * (bs / hbs))) None 0) = Some h.
Proof.
  intros Hh Hlt Hmod Hf. unfold resolve_block_hashes, new_scaled.
  rewrite (proj2 (Z.eqb_neq bs hbs)) by lia. cbn [andb]. rewrite Hmod. cbn.
  eexists. split; [reflexivity|]. cbn [bh_len bh_index].
  assert (bs = hbs * (bs / hbs)) as Hbs by (apply Z_div_exact_2; lia).
  set (sf := bs / hbs) in *. assert (0 < sf) as Hsf by nia.
  assert (zlen (block_hashes r) = num_tokens r / hbs) as Hlen.
  { unfold zlen. rewrite Hf, hash_chain_length. apply Z2Nat.id, Z.div_pos; [apply zlen_nonneg|done]. }
  assert (zlen (block_hashes r) / sf = num_tokens r / bs) as Hn.
  { rewrite Hlen, Z.div_div by lia. f_equal. lia. }
  pose proof (Z.mul_div_le (zlen (block_hashes r)) sf Hsf) as Hle.
  pose proof (Z.mul_succ_div_gt (zlen (block_hashes r)) sf Hsf) as Hgt.
  pose proof (Z.div_pos (zlen (block_hashes r)) sf (zlen_nonneg _) Hsf) as Hp.
  split_and!; [done| |].
  - rewrite py_index_nonneg by nia. apply lookup_ge_None. unfold zlen in *. nia.
  - intros i Hi. rewrite py_index_nonneg by nia.
    destruct (lookup_lt_is_Some_2 (block_hashes r) (Z.to_nat ((i + 1) * sf - 1))) as [h Eh].
    { unfold zlen in *. nia. }
    exists h. split; [done|].
    rewrite <- (hash_chain_prefix _ _ _ _ _ _ (Z.to_nat (num_tokens r / hbs)))
      by (rewrite <- Hlen; nia).
    unfold fully_hashed in Hf. rewrite <- Hf, last_take_lookup by (unfold zlen in *; nia).
    rewrite <- Eh. f_equal. lia.
Qed.

(** ** A concrete collision-free hash, and the witnesses *)

Section IdealHash.

#[local] Instance ExtraKey_eq_dec : EqDecision ExtraKey.
Proof. solve_decision. Defined.

#[local] Instance HashInput_eq_dec : EqDecision HashInput.
Proof. solve_decision. Defined.

#[local] Program Instance ExtraKey_countable : Countable ExtraKey :=
  inj_countable'
    (fun k => match k with
              | KeyStr s => inl s | KeyMM i o => inr (inl (i, o)) | KeyBytes b => inr (inr b)
              end)
    (fun k => match k with
              | inl s => KeyStr s | inr (inl (i, o)) => KeyMM i o | inr (inr b) => KeyBytes b
              end) _.
Next Obligation. by intros []. Qed.

#[local] Program Instance HashInput_countable : Countable HashInput :=
  inj_countable'
    (fun k => match k with SeedInput s => inl s | BlockInput p t e => inr (p, t, e) end)
    (fun k => match k with inl s => SeedInput s | inr (p, t, e) => BlockInput p t e end) _.
Next Obligation. by intros []. Qed.

Fixpoint pos_bytes (p : positive) : bytes :=
  match p with
  | xH => [Byte.x01]
  | xO p' => Byte.x00 :: pos_bytes p'
  | xI p' => Byte.x02 :: pos_bytes p'
  end.

Lemma pos_bytes_inj p q : pos_bytes p = pos_bytes q -> p = q.
Proof.
  revert q. induction p as [p IH|p IH|]; intros [q|q|]; cbn; try done;
    intros [= H]; f_equal; auto.
Qed.

(** An injective function into digests: the input's own encoding. *)
Definition ideal_hash (x : HashInput) : BlockHash := pos_bytes (encode x).

#[export] Instance ideal_hash_inj : Inj (=) (=) ideal_hash.
Proof. intros x y H%pos_bytes_inj. by apply (inj encode). Qed.

Lemma ideal_hash_nonempty x : ideal_hash x <> [].
Proof. unfold ideal_hash. by destruct (encode x). Qed.

End IdealHash.

(** A request with the given inputs and no hashes yet. *)
Definition demo_request (lora : option LoRARequest) (salt : option string)
    (mm : list MultiModalFeatureSpec) (toks : list Z) : Request :=
  mkRequest "req" 0 0 None None lora salt None mm None ∅ (zlen toks) [] toks []
    WAITING None 16 0 0 0 0 false.

Definition demo_sha (b : bytes) : bytes := b.

(** ... with its blocks hashed. *)
Definition demo_hashed (bs : Z) (r : Request) : Request :=
  set_block_hashes
    (hash_chain demo_sha ideal_hash "seed" bs r (Z.to_nat (num_tokens r / bs)) None 0) r.

Definition demo_image (id : string) (off len : Z) : MultiModalFeatureSpec :=
  mkMMFeature id (mkPlaceholder off len None).

Definition demo_mm : list MultiModalFeatureSpec := [demo_image "cat" 1 2; demo_image "dog" 5 2].

Lemma demo_mm_sorted : mm_sorted demo_mm.
Proof.
  cbn. rewrite !Forall_cons, !Forall_nil. unfold mm_start, mm_end. cbn. lia.
Qed.

Lemma append_tokens_keeps_hashes_witness :
  let r := demo_hashed 4 (demo_request None (Some "s"%string) demo_mm [1; 2; 3; 4; 5; 6; 7]) in
  exists r', append_output_token_ids
      (Some (request_block_hasher demo_sha ideal_hash "seed" 4)) [8; 9] r = Ok tt r' /\
    length (block_hashes r') = 2%nat.
Proof.
  cbv zeta. set (r := demo_hashed _ _).
  destruct (append_tokens_keeps_hashes demo_sha ideal_hash "seed" 4 r [8; 9])
    as (r' & E & Hf & _ & Ha & _).
  - lia.
  - apply demo_mm_sorted.
  - intros s e b. cbn. by rewrite lookup_empty.
  - reflexivity.
  - right. apply Forall_cons. split; [by vm_compute|constructor].
  - exists r'. split; [exact E|]. rewrite Hf, hash_chain_length.
    unfold num_tokens. by rewrite Ha.
Defined.

Lemma new_request_hashed_witness :
  match new_request (Some (request_block_hasher demo_sha ideal_hash "seed" 4)) "r"
          (Some [1; 2; 3; 4; 5; 6; 7; 8]) None (Some (mkPooling None)) false None 0 None None
          (Some demo_mm) None (Some "s"%string) 0 None with
  | inl _ => False
  | inr r => length (block_hashes r) = 2%nat
  end.
Proof.
  pose proof (new_request_hashed demo_sha ideal_hash "seed" 4 "r"
    (Some [1; 2; 3; 4; 5; 6; 7; 8]) None (Some (mkPooling None)) false None 0 None None
    (Some demo_mm) None (Some "s"%string) 0 None ltac:(lia) demo_mm_sorted ltac:(done)) as H.
  destruct (new_request _ _ _ _ _ _ _ _ _ _ _ _ _ _ _) as [e|r] eqn:E.
  - vm_compute in E. discriminate E.
  - destruct H as (Hf & _ & Hn & _). rewrite Hf, hash_chain_length, Hn.
    apply (f_equal (fun x => match x with inr r => num_prompt_tokens r | inl _ => 0 end)) in E.
    vm_compute in E. change (8 = num_prompt_tokens r) in E. rewrite <- E. reflexivity.
Defined.


Lemma scaled_view_is_prefix_hash_witness :
  let r := demo_hashed 2 (demo_request None None [] [1; 2; 3; 4; 5; 6; 7; 8; 9]) in
  exists v, resolve_block_hashes (RawHashes (block_hashes r)) 2 4 false None = Some v /\
    bh_len v = 2.
Proof.
  cbv zeta.
  destruct (scaled_view_is_prefix_hash demo_sha ideal_hash "seed" 2 4
    (demo_hashed 2 (demo_request None None [] [1; 2; 3; 4; 5; 6; 7; 8; 9])))
    as (v & E & Hl & _); [lia|lia|reflexivity|reflexivity|].
  exists v. split; [exact E|]. rewrite Hl. reflexivity.
Defined.

(** ** Where the keys do not separate different inputs *)

(** A request goes through prompt hashing and then receives a token. *)
Definition hash_then_append (sha256 : bytes -> bytes) (hash_function : HashInput -> BlockHash)
    (seed : string) (bs : Z) (toks : list Z) (r : Request) : list BlockHash :=
  let hasher := Some (request_block_hasher sha256 hash_function seed bs) in
  match (update_block_hashes hasher ;; append_output_token_ids hasher toks) r with
  | Ok _ r' | Raise _ r' => block_hashes r'
  end.

Definition two_images (first : string) : Request :=
  demo_request None None [demo_image first 4 1; demo_image "dog" 5 1] [1; 2; 3; 4; 5; 6; 7].

(** When the prompt ends inside a block that holds two images, the block is
    hashed on resumption, with the last image only: two requests that differ
    in the other image get the same hashes whatever the hash function, although
    their blocks have different inputs. *)
Theorem resumed_hash_ignores_earlier_image sha256 hash_function seed :
  hash_then_append sha256 hash_function seed 4 [8] (two_images "cat") =
  hash_then_append sha256 hash_function seed 4 [8] (two_images "fox") /\
  length (hash_then_append sha256 hash_function seed 4 [8] (two_images "cat")) = 2%nat /\
  extra_keys_spec sha256 (two_images "cat") 4 8 <> extra_keys_spec sha256 (two_images "fox") 4 8.
Proof. split_and!; vm_compute; [reflexivity..|discriminate]. Qed.

(** Extra keys are not tagged with their kind: in the first block a LoRA named
    like a cache salt gives the same keys, hence the same hash, as the base
    model under that salt. *)
Theorem lora_name_collides_with_salt sha256 hash_function seed name id toks bs :
  name <> ""%string -> 0 < bs ->
  extra_keys_spec sha256 (demo_request (Some (mkLoRA name id)) None [] toks) 0 bs =
  extra_keys_spec sha256 (demo_request None (Some name) [] toks) 0 bs /\
  hash_chain sha256 hash_function seed bs (demo_request (Some (mkLoRA name id)) None [] toks) 1 None 0 =
  hash_chain sha256 hash_function seed bs (demo_request None (Some name) [] toks) 1 None 0.
Proof.
  intros Hn Hbs. unfold hash_chain, extra_keys_spec, cache_salt_keys, gen_lora_extra_hash_keys.
  cbn. by rewrite bool_decide_eq_false_2.
Qed.
