(* ===== verification/BlockMap.v ===== *)
(** * The prefix-cache index

    [BlockHashToBlockMap] of vllm/v1/core/block_pool.py: a dictionary from a
    packed hash key to one block, or to a dictionary [block_id -> block] when
    several blocks hold the same content.  The abstract view is the list of
    blocks of a key, in insertion order. *)
From Stdlib Require Import ZArith Lia.
From stdpp Require Import base tactics gmap strings numbers option list.
From S2P Require Import Prelude Blocks.

Local Open Scope Z_scope.

(** A value of [_cache]: a block, or a [dict] in insertion order. *)
Inductive CacheEntry :=
| Single (block : loc)
| Multi (dict : list (Z * loc)).

Abbreviation BlockHashToBlockMap := (gmap (list Byte.byte) CacheEntry).

(** [get_one_block]; [next(iter(...))] of an empty [dict] would raise, and the
    invariant rules it out. *)
Definition get_one_block (m : BlockHashToBlockMap) (key : BlockHashWithGroupId)
    : exn + option loc :=
  match m !! key with
  | None => inr None
  | Some (Single b) => inr (Some b)
  | Some (Multi d) => match d with
                      | [] => inl StopIteration
                      | (_, b) :: _ => inr (Some b)
                      end
  end.

(** [block_id in blocks] and the [dict] operations used below. *)
Definition dict_mem (id : Z) (d : list (Z * loc)) : bool :=
  existsb (fun p => p.1 =? id) d.

(** [d[id] = b]: an existing key keeps its place. *)
Fixpoint dict_set (id : Z) (b : loc) (d : list (Z * loc)) : list (Z * loc) :=
  match d with
  | [] => [(id, b)]
  | (i, x) :: d' => if i =? id then (i, b) :: d' else (i, x) :: dict_set id b d'
  end.

(** [d.pop(id, None)] *)
Fixpoint dict_pop (id : Z) (d : list (Z * loc)) : option loc * list (Z * loc) :=
  match d with
  | [] => (None, [])
  | (i, x) :: d' => if i =? id then (Some x, d')
                    else let '(r, d'') := dict_pop id d' in (r, (i, x) :: d'')
  end.

(** [contain] *)
Definition contain (h : Heap) (m : BlockHashToBlockMap) (key : BlockHashWithGroupId)
    (id : Z) : bool :=
  match m !! key with
  | None => false
  | Some (Single b) => block_id (hget h b) =? id
  | Some (Multi d) => dict_mem id d
  end.

(** [insert] *)
Definition map_insert (h : Heap) (key : BlockHashWithGroupId) (block : loc)
    (m : BlockHashToBlockMap) : BlockHashToBlockMap :=
  match m !! key with
  | None => <[key := Single block]> m
  | Some (Single b) =>
      <[key := Multi (dict_set (block_id (hget h block)) block [(block_id (hget h b), b)])]> m
  | Some (Multi d) => <[key := Multi (dict_set (block_id (hget h block)) block d)]> m
  end.

(** [pop] *)
Definition map_pop (h : Heap) (key : BlockHashWithGroupId) (id : Z)
    (m : BlockHashToBlockMap) : option loc * BlockHashToBlockMap :=
  match m !! key with
  | None => (None, m)
  | Some (Single b) =>
      if block_id (hget h b) =? id then (Some b, delete key m)
      else (None, <[key := Single b]> (delete key m))
  | Some (Multi d) =>
      let '(block, d') := dict_pop id d in
      (block, if 0 <? zlen d' then <[key := Multi d']> (delete key m) else delete key m)
  end.

(** [__len__] *)
Definition map_len (m : BlockHashToBlockMap) : Z := Z.of_nat (size m).

(** ** The abstract view *)

Definition entry_locs (e : option CacheEntry) : list loc :=
  match e with
  | None => []
  | Some (Single b) => [b]
  | Some (Multi d) => d.*2
  end.

(** The blocks cached under a key, oldest first. *)
Definition locs (m : BlockHashToBlockMap) (key : BlockHashWithGroupId) : list loc :=
  entry_locs (m !! key).

(** The representation invariant of the index: the [dict]s are not empty, their
    keys are the ids of their blocks, and no block is listed twice. *)
Definition entry_wf (h : Heap) (e : CacheEntry) : Prop :=
  match e with
  | Single _ => True
  | Multi d => d <> [] /\ Forall (fun p => p.1 = block_id (hget h p.2)) d /\ NoDup (d.*1)
  end.

Definition map_wf (h : Heap) (m : BlockHashToBlockMap) : Prop :=
  map_Forall (fun _ e => entry_wf h e) m.

Lemma map_wf_ids h h' m :
  (forall l, block_id (hget h' l) = block_id (hget h l)) -> map_wf h m -> map_wf h' m.
Proof.
  intros Hid Hm k e Hk. specialize (Hm k e Hk). destruct e as [b|d]; [done|].
  destruct Hm as (H1 & H2 & H3). split_and!; [done| |done].
  eapply Forall_impl; [exact H2|]. intros [i b]. cbn. by rewrite Hid.
Qed.

Lemma map_wf_empty h : map_wf h ∅.
Proof. apply map_Forall_empty. Qed.

Lemma locs_empty k : locs ∅ k = [].
Proof. unfold locs. by rewrite lookup_empty. Qed.

(** Looking a key up gives its oldest block, and never raises. *)
Lemma get_one_block_spec h m k : map_wf h m ->
  get_one_block m k = inr (head (locs m k)).
Proof.
  intros Hm. unfold get_one_block, locs.
  destruct (m !! k) as [[b|d]|] eqn:E; [done| |done].
  apply Hm in E as (Hne & _). by destruct d as [|[i b] d].
Qed.

Lemma dict_mem_spec h d id :
  Forall (fun p => p.1 = block_id (hget h p.2)) d ->
  dict_mem id d = true <-> exists l, l ∈ d.*2 /\ block_id (hget h l) = id.
Proof.
  intros Hd. unfold dict_mem. rewrite existsb_exists. split.
  - intros ([i b] & Hin & Hi). apply list_elem_of_In in Hin. cbn in Hi. apply Z.eqb_eq in Hi.
    rewrite Forall_forall in Hd. exists b. split; [|rewrite <- Hi; symmetry; apply (Hd _ Hin)].
    apply list_elem_of_fmap. by exists (i, b).
  - intros (l & Hin & Hid). apply list_elem_of_fmap in Hin as ([i b] & -> & Hin).
    exists (i, b). split; [by apply list_elem_of_In|]. rewrite Forall_forall in Hd.
    specialize (Hd _ Hin). cbn in *. apply Z.eqb_eq. congruence.
Qed.

Lemma contain_spec h m k id : map_wf h m ->
  contain h m k id = true <-> exists l, l ∈ locs m k /\ block_id (hget h l) = id.
Proof.
  intros Hm. unfold contain, locs. destruct (m !! k) as [[b|d]|] eqn:E; cbn.
  - rewrite Z.eqb_eq. split; [intros <-; exists b; split; [by apply list_elem_of_singleton|done]|].
    intros (l & ->%list_elem_of_singleton & ?). done.
  - apply Hm in E as (_ & Hd & _). by apply dict_mem_spec.
  - split; [done|]. intros (l & []%elem_of_nil & _).
Qed.

Lemma dict_set_new id b d : dict_mem id d = false -> dict_set id b d = d ++ [(id, b)].
Proof.
  induction d as [|[i x] d IH]; [done|]. cbn. intros [Hi Hd]%orb_false_iff.
  rewrite Hi. by rewrite IH.
Qed.

Lemma dict_mem_keys id d : dict_mem id d = false -> id ∉ d.*1.
Proof.
  induction d as [|[i x] d IH]; cbn; [by intros _ ?%elem_of_nil|].
  intros [Hi Hd]%orb_false_iff. apply Z.eqb_neq in Hi.
  apply not_elem_of_cons. split; [congruence|auto].
Qed.

(** Inserting a block that is not yet under the key puts it last, and leaves
    the other keys alone. *)
Lemma map_insert_spec h m k b : map_wf h m ->
  contain h m k (block_id (hget h b)) = false ->
  map_wf h (map_insert h k b m) /\
  locs (map_insert h k b m) k = locs m k ++ [b] /\
  forall k', k' <> k -> locs (map_insert h k b m) k' = locs m k'.
Proof.
  intros Hm Hc. unfold contain in Hc. unfold map_insert.
  destruct (m !! k) as [[x|d]|] eqn:E.
  - cbn. rewrite Hc. unfold locs. rewrite E, lookup_insert_eq. split_and!.
    + apply map_Forall_insert_2; [|done]. apply Z.eqb_neq in Hc. cbn.
      split_and!; [done|by repeat constructor|].
      apply NoDup_cons. split; [|apply NoDup_singleton]. by intros ?%list_elem_of_singleton.
    + done.
    + intros k' Hk. by rewrite lookup_insert_ne.
  - rewrite dict_set_new by done. unfold locs. rewrite E, lookup_insert_eq. split_and!.
    + apply map_Forall_insert_2; [|done]. pose proof (Hm k _ E) as (H1 & H2 & H3). cbn.
      rewrite fmap_app. split_and!.
      * by destruct d.
      * apply Forall_app. split; [done|]. by apply Forall_singleton.
      * apply NoDup_app. split_and!; [done| |apply NoDup_singleton].
        intros i Hi Hi'%list_elem_of_singleton. cbn in Hi'. subst i. by apply (dict_mem_keys _ _ Hc).
    + cbn. by rewrite fmap_app.
    + intros k' Hk. by rewrite lookup_insert_ne.
  - unfold locs. rewrite E, lookup_insert_eq. split_and!; [|done|].
    + by apply map_Forall_insert_2.
    + intros k' Hk. by rewrite lookup_insert_ne.
Qed.

(** The blocks of a dictionary without those of id [id]. *)
Definition without_id (h : Heap) (id : Z) (l : list loc) : list loc :=
  filter (fun b => block_id (hget h b) <> id) l.

Arguments without_id : simpl never.

Lemma without_id_cons_eq h id x l : block_id (hget h x) = id ->
  without_id h id (x :: l) = without_id h id l.
Proof. intros Hx. apply filter_cons_False. auto. Qed.

Lemma without_id_cons_ne h id x l : block_id (hget h x) <> id ->
  without_id h id (x :: l) = x :: without_id h id l.
Proof. intros Hx. by apply filter_cons_True. Qed.

Lemma without_id_absent h id l :
  (forall b, b ∈ l -> block_id (hget h b) <> id) -> without_id h id l = l.
Proof.
  unfold without_id. induction l as [|x l IH]; intros H; [done|].
  rewrite filter_cons_True by (apply H; by left). f_equal. apply IH.
  intros b Hb. apply H. by right.
Qed.

Lemma dict_pop_spec h d id :
  Forall (fun p => p.1 = block_id (hget h p.2)) d -> NoDup (d.*1) ->
  let '(r, d') := dict_pop id d in
  d'.*2 = without_id h id (d.*2) /\
  (r = None <-> forall l, l ∈ d.*2 -> block_id (hget h l) <> id) /\
  (forall l, r = Some l -> l ∈ d.*2 /\ block_id (hget h l) = id) /\
  d' `sublist_of` d.
Proof.
  induction d as [|[i x] d IH]; cbn; intros Hf Hnd.
  { split_and!; [done|split; [by intros _ ? ?%elem_of_nil|done]|done|constructor]. }
  apply Forall_cons in Hf as [Hx Hf]. cbn in Hx.
  apply NoDup_cons in Hnd as [Hi Hnd].
  assert (forall l, l ∈ d.*2 -> block_id (hget h l) <> i) as Hrest.
  { intros l (p & -> & Hp)%list_elem_of_fmap Hl. apply Hi.
    apply list_elem_of_fmap. exists p. split; [|done].
    rewrite Forall_forall in Hf. by rewrite (Hf _ Hp). }
  destruct (i =? id) eqn:E.
  - apply Z.eqb_eq in E. subst id. rewrite without_id_cons_eq, without_id_absent by done.
    split_and!; [done| | |by apply sublist_cons].
    + split; [done|]. intros H. exfalso. apply (H x); [by left|done].
    + intros l [= <-]. split; [by left|done].
  - apply Z.eqb_neq in E. specialize (IH Hf Hnd).
    destruct (dict_pop id d) as [r d']. destruct IH as (H1 & H2 & H3 & H4).
    rewrite without_id_cons_ne by congruence. cbn. split_and!.
    + by rewrite H1.
    + rewrite H2. split.
      * intros H l [->|Hl]%elem_of_cons; [congruence|auto].
      * intros H l Hl. apply H. by right.
    + intros l Hr. destruct (H3 l Hr). split; [by right|done].
    + by apply sublist_skip.
Qed.

(** Popping an id removes its block from the key, returns it when it was
    there, and leaves the other keys alone. *)
Lemma map_pop_spec h m k id : map_wf h m ->
  let '(r, m') := map_pop h k id m in
  map_wf h m' /\ locs m' k = without_id h id (locs m k) /\
  (forall k', k' <> k -> locs m' k' = locs m k') /\
  (r = None <-> contain h m k id = false) /\
  (forall l, r = Some l -> l ∈ locs m k /\ block_id (hget h l) = id).
Proof.
  intros Hm. unfold map_pop, contain, locs.
  destruct (m !! k) as [[x|d]|] eqn:E; cbn.
  - destruct (block_id (hget h x) =? id) eqn:Ei.
    + apply Z.eqb_eq in Ei. rewrite without_id_cons_eq, lookup_delete_eq by auto.
      split_and!; [by apply map_Forall_delete|done| |done|].
      * intros k' Hk. by rewrite lookup_delete_ne.
      * intros l [= <-]. split; [by apply list_elem_of_singleton|done].
    + apply Z.eqb_neq in Ei. rewrite without_id_cons_ne, lookup_insert_eq by done.
      split_and!; [|done| |done|done].
      * apply map_Forall_insert_2; [done|by apply map_Forall_delete].
      * intros k' Hk. by rewrite lookup_insert_ne, lookup_delete_ne.
  - pose proof (Hm k _ E) as (Hne & Hf & Hnd).
    pose proof (dict_pop_spec h d id Hf Hnd) as Hp.
    destruct (dict_pop id d) as [r d']. destruct Hp as (H1 & H2 & H3 & H4).
    assert (r = None <-> dict_mem id d = false) as Hr.
    { rewrite H2, <- not_true_iff_false, (dict_mem_spec h) by done. naive_solver. }
    destruct d' as [|p d'].
    + change (0 <? zlen []) with false. cbn iota. rewrite lookup_delete_eq. split_and!; [by apply map_Forall_delete| | |done|done].
      * done.
      * intros k' Hk. by rewrite lookup_delete_ne.
    + rewrite (proj2 (Z.ltb_lt 0 _)) by (unfold zlen; cbn; lia). rewrite lookup_insert_eq.
      split_and!; [| | |done|done].
      * apply map_Forall_insert_2; [|by apply map_Forall_delete].
        cbn [entry_wf]. split_and!; [done| |].
        -- apply Forall_forall. intros q Hq. rewrite Forall_forall in Hf. apply Hf.
           by eapply elem_of_submseteq, sublist_submseteq.
        -- eapply sublist_NoDup; [exact Hnd|]. by apply fmap_sublist.
      * done.
      * intros k' Hk. by rewrite lookup_insert_ne, lookup_delete_ne.
  - rewrite E. split_and!; [done|done|done|done|done].
Qed.
