(* ===== verification/Env.v ===== *)
(** * What the engine core takes from its environment

    Values the sources obtain from other libraries or from the machine: the
    digest functions, an environment flag, the clock, the random generator,
    and the iteration order of Python sets, which the language leaves open. *)
From Stdlib Require Import ZArith QArith Lia.
From stdpp Require Import base tactics gmap strings numbers option list.
From S2P Require Import Prelude Blocks.

Local Open Scope Z_scope.

Class Env := {
  (** [hashlib.sha256(...).digest()] *)
  env_sha256 : bytes -> bytes;
  (** [envs.VLLM_KV_EVENTS_USE_INT_BLOCK_HASHES] *)
  use_int_block_hashes : bool;
  (** the [n]-th reading of [time.monotonic_ns()], which never goes back *)
  monotonic_ns : nat -> Z;
  monotonic_ns_mono : forall n, monotonic_ns n <= monotonic_ns (S n);
  (** the [n]-th value of [random.random()] *)
  random_random : nat -> Q;
  (** the order in which a set of keys is iterated *)
  set_order : gset BlockHashWithGroupId -> list BlockHashWithGroupId;
  set_order_perm : forall X, set_order X ≡ₚ elements X;
  (** the order in which a set of integers is iterated *)
  int_set_order : gset Z -> list Z;
  int_set_order_perm : forall X, int_set_order X ≡ₚ elements X;
  (** the order in which a set of request ids is iterated *)
  str_set_order : gset string -> list string;
  str_set_order_perm : forall X, str_set_order X ≡ₚ elements X
}.

Section EnvFacts.
Context `{Env}.

Lemma elem_of_set_order (X : gset BlockHashWithGroupId) k : k ∈ set_order X <-> k ∈ X.
Proof. rewrite (set_order_perm X). apply elem_of_elements. Qed.

Lemma NoDup_set_order (X : gset BlockHashWithGroupId) : NoDup (set_order X).
Proof. rewrite (set_order_perm X). apply NoDup_elements. Qed.

Lemma set_order_nil (X : gset BlockHashWithGroupId) : set_order X = [] <-> X = ∅.
Proof.
  split; [|intros ->].
  - intros HX. apply set_eq. intros k. rewrite <- elem_of_set_order, HX. set_solver.
  - apply Permutation_nil_r. by rewrite (set_order_perm ∅), elements_empty.
Qed.

Lemma monotonic_ns_le n m : (n <= m)%nat -> monotonic_ns n <= monotonic_ns m.
Proof.
  induction 1 as [|m _ IH]; [done|]. pose proof (monotonic_ns_mono m). lia.
Qed.

End EnvFacts.

(** A concrete environment, for evaluating the definitions. *)
#[export] Program Instance demo_env : Env := {|
  env_sha256 := fun b => b;
  use_int_block_hashes := false;
  monotonic_ns := Z.of_nat;
  random_random := fun _ => 0%Q;
  set_order := elements;
  int_set_order := elements;
  str_set_order := elements
|}.
Next Obligation. lia. Qed.
Next Obligation. done. Qed.
Next Obligation. done. Qed.
Next Obligation. done. Qed.
