(* ===== verification/Metrics.v ===== *)
(** * Residency metrics of KV-cache blocks

    vllm/v1/core/kv_cache_metrics.py: sampled life times, idle times and reuse
    gaps of blocks.  Times are nanoseconds; the seconds of an event are the
    exact quotients by [1e9] of the float divisions. *)
From Stdlib Require Import ZArith QArith Lia.
From stdpp Require Import base tactics gmap strings numbers option list.
From S2P Require Import Prelude Blocks Env.

Local Open Scope Z_scope.

Record BlockMetricsState := mkMetricsState {
  birth_time_ns : Z;
  last_access_ns : Z;
  access_history : list Z
}.

(** [KVCacheEvictionEvent], vllm/v1/metrics/stats.py *)
Record KVCacheEvictionEvent := mkEviction {
  lifetime_seconds : Q;
  idle_seconds : Q;
  reuse_gaps_seconds : list Q
}.

(** The collector, with the number of clock readings and random draws made so
    far. *)
Record KVCacheMetricsCollector := mkCollector {
  sample_rate : Q;
  block_metrics : gmap Z BlockMetricsState;
  eviction_events : list KVCacheEvictionEvent;
  clock_reads : nat;
  random_draws : nat
}.

Definition set_block_metrics (m : gmap Z BlockMetricsState) (c : KVCacheMetricsCollector) :=
  mkCollector (sample_rate c) m (eviction_events c) (clock_reads c) (random_draws c).
Definition set_eviction_events (e : list KVCacheEvictionEvent) (c : KVCacheMetricsCollector) :=
  mkCollector (sample_rate c) (block_metrics c) e (clock_reads c) (random_draws c).

(** [deque(maxlen=n).append] *)
Definition deque_append {A} (maxlen : nat) (d : list A) (x : A) : list A :=
  let d' := d ++ [x] in drop (length d' - maxlen) d'.

Definition NANOS : positive := 1000000000%positive.

(** [get_reuse_gaps_seconds]: differences of consecutive accesses. *)
Fixpoint consecutive_gaps (history : list Z) : list Q :=
  match history with
  | a :: ((b :: _) as rest) => Qmake (b - a) NANOS :: consecutive_gaps rest
  | _ => []
  end.

Definition get_reuse_gaps_seconds (s : BlockMetricsState) : list Q :=
  if zlen (access_history s) <? 2 then [] else consecutive_gaps (access_history s).

Section Metrics.
Context `{Env}.

(** [time.monotonic_ns()] *)
Definition read_clock : M KVCacheMetricsCollector Z := fun c =>
  Ok (monotonic_ns (clock_reads c))
     (mkCollector (sample_rate c) (block_metrics c) (eviction_events c)
                  (S (clock_reads c)) (random_draws c)).

(** [KVCacheMetricsCollector.__init__] *)
Definition new_collector (rate : Q) : exn + KVCacheMetricsCollector :=
  if negb (Qle_bool rate 0) && Qle_bool rate 1
  then inr (mkCollector rate ∅ [] 0 0) else inl AssertionError.

(** [BlockMetricsState.__init__] *)
Definition new_metrics_state : M KVCacheMetricsCollector BlockMetricsState :=
  now ← read_clock; mret (mkMetricsState now now []).

(** [record_access] *)
Definition record_access (s : BlockMetricsState) : M KVCacheMetricsCollector BlockMetricsState :=
  now ← read_clock;
  mret (mkMetricsState (birth_time_ns s) now (deque_append 4 (access_history s) now)).

Definition get_lifetime_seconds (s : BlockMetricsState) : M KVCacheMetricsCollector Q :=
  now ← read_clock; mret (Qmake (now - birth_time_ns s) NANOS).
Definition get_idle_time_seconds (s : BlockMetricsState) : M KVCacheMetricsCollector Q :=
  now ← read_clock; mret (Qmake (now - last_access_ns s) NANOS).

(** [should_sample_block] *)
Definition should_sample_block : M KVCacheMetricsCollector bool := fun c =>
  Ok (negb (Qle_bool (sample_rate c) (random_random (random_draws c))))
     (mkCollector (sample_rate c) (block_metrics c) (eviction_events c)
                  (clock_reads c) (S (random_draws c))).

(** [on_block_allocated], by block id *)
Definition on_block_allocated (id : Z) : M KVCacheMetricsCollector unit :=
  b ← should_sample_block;
  when b (s ← new_metrics_state;
          modify (fun c => set_block_metrics (<[id := s]> (block_metrics c)) c)).

(** [on_block_accessed]: the state object is updated in place. *)
Definition on_block_accessed (id : Z) : M KVCacheMetricsCollector unit :=
  m ← gets (fun c => block_metrics c !! id);
  match m with
  | None => mret tt
  | Some s => s' ← record_access s;
              modify (fun c => set_block_metrics (<[id := s']> (block_metrics c)) c)
  end.

(** [on_block_evicted] *)
Definition on_block_evicted (id : Z) : M KVCacheMetricsCollector unit :=
  m ← gets (fun c => block_metrics c !! id);
  modify (fun c => set_block_metrics (delete id (block_metrics c)) c) ;;
  match m with
  | None => mret tt
  | Some s =>
      lifetime ← get_lifetime_seconds s;
      idle_time ← get_idle_time_seconds s;
      modify (fun c => set_eviction_events (eviction_events c ++
        [mkEviction lifetime idle_time (get_reuse_gaps_seconds s)]) c)
  end.

(** [reset] *)
Definition metrics_reset : M KVCacheMetricsCollector unit :=
  modify (fun c => set_eviction_events [] (set_block_metrics ∅ c)).

(** [drain_events] *)
Definition drain_events : M KVCacheMetricsCollector (list KVCacheEvictionEvent) :=
  events ← gets eviction_events;
  modify (set_eviction_events []) ;;
  mret events.

(** ** The collector's invariant *)

(** Ascending time stamps between [lo] and [hi]. *)
Fixpoint ascending (lo hi : Z) (l : list Z) : Prop :=
  match l with
  | [] => lo <= hi
  | t :: l' => lo <= t /\ ascending t hi l'
  end.

Definition state_ok (now : Z) (s : BlockMetricsState) : Prop :=
  birth_time_ns s <= last_access_ns s <= now /\
  ascending (birth_time_ns s) (last_access_ns s) (access_history s) /\
  (length (access_history s) <= 4)%nat.

Definition event_ok (e : KVCacheEvictionEvent) : Prop :=
  (0 <= lifetime_seconds e)%Q /\ (0 <= idle_seconds e)%Q /\
  Forall (fun g => (0 <= g)%Q) (reuse_gaps_seconds e) /\
  (length (reuse_gaps_seconds e) <= 3)%nat.

(** Recorded times are ordered and not after the next clock reading; events
    hold no negative duration and at most three gaps. *)
Definition collector_ok (c : KVCacheMetricsCollector) : Prop :=
  map_Forall (fun _ s => state_ok (monotonic_ns (clock_reads c)) s) (block_metrics c) /\
  Forall event_ok (eviction_events c).

Lemma ascending_snoc lo hi l t : ascending lo hi l -> hi <= t -> ascending lo t (l ++ [t]).
Proof.
  revert lo. induction l as [|x l IH]; intros lo; cbn; [lia|].
  intros [Hx Hl] Ht. split; [done|]. by apply IH.
Qed.

Lemma ascending_weaken lo lo' hi l : lo' <= lo -> ascending lo hi l -> ascending lo' hi l.
Proof. destruct l; cbn; [lia|]. intros ? [? ?]. split; [lia|done]. Qed.

Lemma ascending_drop lo hi l n : ascending lo hi l -> ascending lo hi (drop n l).
Proof.
  revert lo l. induction n as [|n IH]; intros lo [|x l]; cbn; try done.
  intros [Hx Hl]. apply (ascending_weaken x); [done|]. by apply IH.
Qed.

Lemma deque_append_length {A} n (d : list A) x : (length (deque_append n d x) <= n)%nat.
Proof. unfold deque_append. rewrite length_drop. lia. Qed.

Lemma consecutive_gaps_ok lo hi l : ascending lo hi l ->
  Forall (fun g => (0 <= g)%Q) (consecutive_gaps l) /\
  (length (consecutive_gaps l) <= length l - 1)%nat.
Proof.
  revert lo. induction l as [|a [|b l] IH]; intros lo Hl; [by cbn; split; [|lia]..|].
  destruct Hl as [_ Hl]. destruct (IH _ Hl) as [IH1 IH2]. cbn [consecutive_gaps].
  split; [|cbn in IH2 |- *; lia]. constructor; [|done].
  cbn in Hl. unfold Qle. cbn. lia.
Qed.

(** The clock may advance. *)
Lemma state_ok_mono n m s : (n <= m)%nat ->
  state_ok (monotonic_ns n) s -> state_ok (monotonic_ns m) s.
Proof.
  intros Hnm (H1 & H2 & H3). pose proof (monotonic_ns_le n m Hnm). split; [lia|done].
Qed.

Lemma states_ok_mono n m (ms : gmap Z BlockMetricsState) : (n <= m)%nat ->
  map_Forall (fun _ s => state_ok (monotonic_ns n) s) ms ->
  map_Forall (fun _ s => state_ok (monotonic_ns m) s) ms.
Proof. intros Hnm Hms i s Hi. apply (state_ok_mono n); [done|]. by apply (Hms i). Qed.

(** The collector's operations, by block id. *)
Inductive metrics_op :=
| MAllocated (id : Z) | MAccessed (id : Z) | MEvicted (id : Z) | MReset | MDrain.

Definition run_metrics_op (o : metrics_op) : M KVCacheMetricsCollector unit :=
  match o with
  | MAllocated id => on_block_allocated id
  | MAccessed id => on_block_accessed id
  | MEvicted id => on_block_evicted id
  | MReset => metrics_reset
  | MDrain => drain_events ;; mret tt
  end.

Lemma run_metrics_op_ok o c : collector_ok c ->
  wp (run_metrics_op o) (fun _ c' => collector_ok c' /\
    (match o with MEvicted id => block_metrics c' !! id = None | _ => True end)) c.
Proof.
  intros [Hm He].
  destruct o as [id|id|id| |]; cbn [run_metrics_op].
  - unfold on_block_allocated, should_sample_block, when. apply wp_bind. unfold wp at 1.
    case_match; [|by split].
    split; [|done]. cbn. split; [|done]. cbn.
    pose proof (monotonic_ns_mono (clock_reads c)).
    apply map_Forall_insert_2; [split; cbn; [lia|split; [lia|lia]]|].
    by eapply states_ok_mono; [|exact Hm]; lia.
  - unfold on_block_accessed. apply wp_bind, wp_gets.
    destruct (block_metrics c !! id) as [s|] eqn:Es; [|by apply wp_ret].
    pose proof (Hm _ _ Es) as (H1 & H2 & H3). cbn.
    pose proof (monotonic_ns_mono (clock_reads c)).
    split; [|done]. split; [|done]. cbn. apply map_Forall_insert_2.
    + split; cbn; [lia|]. split; [|apply deque_append_length].
      apply ascending_drop, (ascending_snoc _ (last_access_ns s)); [done|lia].
    + by eapply states_ok_mono; [|exact Hm]; lia.
  - unfold on_block_evicted. apply wp_bind, wp_gets. apply wp_bind, wp_modify. cbn.
    destruct (block_metrics c !! id) as [s|] eqn:Es; cbn.
    + pose proof (Hm _ _ Es) as (H1 & H2 & H3).
      pose proof (monotonic_ns_mono (clock_reads c)).
      pose proof (monotonic_ns_mono (S (clock_reads c))).
      split; [|apply lookup_delete_eq]. split; cbn.
      * apply map_Forall_delete. by eapply states_ok_mono; [|exact Hm]; lia.
      * apply Forall_app. split; [done|]. apply Forall_singleton. unfold event_ok. cbn.
        unfold get_reuse_gaps_seconds. destruct (consecutive_gaps_ok _ _ _ H2).
        split_and!; [unfold Qle; cbn; lia..| |]; case_match; try done; cbn; lia.
    + split; [|apply lookup_delete_eq]. split; cbn; [by apply map_Forall_delete|done].
  - apply wp_modify. split; [|done]. split; cbn; [apply map_Forall_empty|done].
  - cbn. split; [|done]. split; cbn; [done|constructor].
Qed.

(** The metrics collector's invariant: from construction, after any
    sequence of allocations, accesses, evictions, resets and drains, no
    operation raises, the recorded times are ordered and at most the present,
    a block keeps at most four accesses, and every emitted eviction event holds
    non-negative durations with at most three reuse gaps. *)
Theorem metrics_collector_invariant rate c0 ops :
  new_collector rate = inr c0 ->
  wp (for_each ops run_metrics_op) (fun _ c => collector_ok c) c0.
Proof.
  unfold new_collector. case_match; [|done]. intros [= <-].
  apply (wp_for_each (fun _ c => collector_ok c)).
  - split; cbn; [apply map_Forall_empty|constructor].
  - intros pre o post c _ Hc. eapply wp_mono; [by apply run_metrics_op_ok|].
    by intros ? ? [? _].
Qed.

End Metrics.

Lemma metrics_collector_invariant_witness :
  exists c0, new_collector 1 = inr c0 /\
    wp (for_each [MAllocated 3; MAccessed 3; MAccessed 3; MEvicted 3] run_metrics_op)
       (fun _ c => collector_ok c) c0.
Proof.
  eexists. split; [reflexivity|].
  apply (metrics_collector_invariant 1). reflexivity.
Defined.
