(* ===== verification/BlockPool.v ===== *)
(** * The block pool

    [BlockPool] of vllm/v1/core/block_pool.py: allocation, reference counts,
    release, the prefix-cache index and the events it emits.  Every method is
    translated over the pool's state; the blocks are objects of the heap, and
    the free queue shares that heap. *)
From Stdlib Require Import ZArith QArith Lia.
From stdpp Require Import base tactics gmap strings numbers option list.
From S2P Require Import Prelude Blocks FreeQueue Request Hashing BlockMap Env Metrics.

Local Open Scope Z_scope.

(** ** Events, vllm/distributed/kv_events.py *)

Definition MEDIUM_GPU : string := "GPU".

Record BlockStored := mkBlockStored {
  bs_block_hashes : option (list ExternalBlockHash);
  bs_parent_block_hash : option ExternalBlockHash;
  bs_token_ids : list Z;
  bs_block_size : Z;
  bs_lora_id : option Z;
  bs_medium : option string;
  bs_lora_name : option string;
  bs_extra_keys : option (list (option (list ExtraKey)));
  bs_group_idx : option Z;
  bs_session_id : option string
}.

Record BlockRemoved := mkBlockRemoved {
  br_block_hashes : list ExternalBlockHash;
  br_medium : option string;
  br_group_idx : option Z
}.

Inductive KVCacheEvent :=
| EvStored (e : BlockStored)
| EvRemoved (e : BlockRemoved)
| EvAllBlocksCleared.

(** ** State *)

Record BlockPool := mkPool {
  num_gpu_blocks : Z;
  enable_caching : bool;
  hash_block_size : Z;
  heap : Heap;
  blocks : list loc;
  free_block_queue : FreeKVCacheBlockQueue;
  cached_block_hash_to_block : BlockHashToBlockMap;
  cached_block_hashes_by_block : gmap Z (gset BlockHashWithGroupId);
  null_block : loc;
  enable_kv_cache_events : bool;
  kv_event_queue : list KVCacheEvent;
  metrics_collector : option KVCacheMetricsCollector
}.

Definition set_heap (h : Heap) (p : BlockPool) : BlockPool :=
  mkPool (num_gpu_blocks p) (enable_caching p) (hash_block_size p) h (blocks p)
    (free_block_queue p) (cached_block_hash_to_block p) (cached_block_hashes_by_block p)
    (null_block p) (enable_kv_cache_events p) (kv_event_queue p) (metrics_collector p).
Definition set_blocks (bs : list loc) (p : BlockPool) : BlockPool :=
  mkPool (num_gpu_blocks p) (enable_caching p) (hash_block_size p) (heap p) bs
    (free_block_queue p) (cached_block_hash_to_block p) (cached_block_hashes_by_block p)
    (null_block p) (enable_kv_cache_events p) (kv_event_queue p) (metrics_collector p).
Definition set_queue (q : FreeKVCacheBlockQueue) (p : BlockPool) : BlockPool :=
  mkPool (num_gpu_blocks p) (enable_caching p) (hash_block_size p) (heap p) (blocks p)
    q (cached_block_hash_to_block p) (cached_block_hashes_by_block p)
    (null_block p) (enable_kv_cache_events p) (kv_event_queue p) (metrics_collector p).
Definition set_cache (m : BlockHashToBlockMap) (p : BlockPool) : BlockPool :=
  mkPool (num_gpu_blocks p) (enable_caching p) (hash_block_size p) (heap p) (blocks p)
    (free_block_queue p) m (cached_block_hashes_by_block p)
    (null_block p) (enable_kv_cache_events p) (kv_event_queue p) (metrics_collector p).
Definition set_by_block (m : gmap Z (gset BlockHashWithGroupId)) (p : BlockPool) : BlockPool :=
  mkPool (num_gpu_blocks p) (enable_caching p) (hash_block_size p) (heap p) (blocks p)
    (free_block_queue p) (cached_block_hash_to_block p) m
    (null_block p) (enable_kv_cache_events p) (kv_event_queue p) (metrics_collector p).
Definition set_null_block (l : loc) (p : BlockPool) : BlockPool :=
  mkPool (num_gpu_blocks p) (enable_caching p) (hash_block_size p) (heap p) (blocks p)
    (free_block_queue p) (cached_block_hash_to_block p) (cached_block_hashes_by_block p)
    l (enable_kv_cache_events p) (kv_event_queue p) (metrics_collector p).
Definition set_events (e : list KVCacheEvent) (p : BlockPool) : BlockPool :=
  mkPool (num_gpu_blocks p) (enable_caching p) (hash_block_size p) (heap p) (blocks p)
    (free_block_queue p) (cached_block_hash_to_block p) (cached_block_hashes_by_block p)
    (null_block p) (enable_kv_cache_events p) e (metrics_collector p).
Definition set_metrics (m : option KVCacheMetricsCollector) (p : BlockPool) : BlockPool :=
  mkPool (num_gpu_blocks p) (enable_caching p) (hash_block_size p) (heap p) (blocks p)
    (free_block_queue p) (cached_block_hash_to_block p) (cached_block_hashes_by_block p)
    (null_block p) (enable_kv_cache_events p) (kv_event_queue p) m.

(** The free queue is a method owner of its own: its store is the heap and the
    queue object. *)
Definition pool_q (p : BlockPool) : QState := mkQState (heap p) (free_block_queue p).
Definition set_pool_q (s : QState) (p : BlockPool) : BlockPool :=
  set_queue (qobj s) (set_heap (qheap s) p).
Definition on_queue {A} (m : M QState A) : M BlockPool A := zoom pool_q set_pool_q m.

Definition pblk (l : loc) : M BlockPool KVCacheBlock := gets (fun p => hget (heap p) l).
Definition pupd (l : loc) (f : KVCacheBlock -> KVCacheBlock) : M BlockPool unit :=
  modify (fun p => set_heap (hupd l f (heap p)) p).

(** [if self.metrics_collector: self.metrics_collector.<op>(block)] *)
Definition on_metrics (m : M KVCacheMetricsCollector unit) : M BlockPool unit := fun p =>
  match metrics_collector p with
  | None => Ok tt p
  | Some c => match m c with
              | Ok a c' => Ok a (set_metrics (Some c') p)
              | Raise e c' => Raise e (set_metrics (Some c') p)
              end
  end.

Definition emit (e : KVCacheEvent) : M BlockPool unit :=
  modify (fun p => set_events (kv_event_queue p ++ [e]) p).

(** The object before [__init__]. *)
Definition blank_pool (h : Heap) : BlockPool :=
  mkPool 0 false 0 h [] (mkQueue 0 0 0) ∅ ∅ 0 false [] None.

(** [[KVCacheBlock(idx) for idx in range(n)]] *)
Definition alloc_blocks (n : Z) : M Heap (list loc) :=
  fold_m (fun acc idx => l ← halloc (new_KVCacheBlock idx); mret (acc ++ [l])) [] (py_range 0 n).

(** [BlockPool.__init__] *)
Definition block_pool_init (num_blocks : Z) (caching : bool) (hbs : Z) (events : bool)
    (collector : option KVCacheMetricsCollector) : M BlockPool unit :=
  assert_ (0 <? num_blocks) ;;
  modify (fun p => mkPool num_blocks caching hbs (heap p) (blocks p) (free_block_queue p)
    (cached_block_hash_to_block p) (cached_block_hashes_by_block p) (null_block p)
    (enable_kv_cache_events p) (kv_event_queue p) (metrics_collector p)) ;;
  bs ← zoom heap set_heap (alloc_blocks num_blocks);
  modify (set_blocks bs) ;;
  q ← zoom heap set_heap (queue_init bs);
  modify (set_queue q) ;;
  modify (fun p => set_by_block ∅ (set_cache ∅ p)) ;;
  nb ← on_queue popleft;
  modify (set_null_block nb) ;;
  pupd nb set_null ;;
  modify (fun p => mkPool (num_gpu_blocks p) (enable_caching p) (hash_block_size p) (heap p)
    (blocks p) (free_block_queue p) (cached_block_hash_to_block p)
    (cached_block_hashes_by_block p) (null_block p) events [] collector).

Section BlockPool.
Context `{Env}.

(** ** Prefix-cache index *)

(** [get_cached_block]: the first cached block of every group, or [None]. *)
Fixpoint get_cached_block (block_hash : BlockHash) (kv_cache_group_ids : list Z)
    : M BlockPool (option (list loc)) :=
  match kv_cache_group_ids with
  | [] => mret (Some [])
  | group_id :: rest =>
      key ← of_option OverflowError (make_block_hash_with_group_id block_hash group_id);
      m ← gets cached_block_hash_to_block;
      match get_one_block m key with
      | inl e => raise e
      | inr None => mret None
      | inr (Some b) =>
          r ← get_cached_block block_hash rest;
          mret (cons b <$> r)
      end
  end.

(** [cached_block_hash_to_block.pop(key, id)] on the pool *)
Definition pool_pop (key : BlockHashWithGroupId) (id : Z) : M BlockPool (option loc) := fun p =>
  let '(r, m) := map_pop (heap p) key id (cached_block_hash_to_block p) in
  Ok r (set_cache m p).

(** [_remove_cached_block_hashes] *)
Definition remove_cached_block_hashes (block : loc)
    : M BlockPool (list BlockHashWithGroupId) :=
  b ← pblk block;
  let primary := match Blocks.block_hash b with Some h => [h] | None => [] end in
  secondary ← gets (fun p => match cached_block_hashes_by_block p !! block_id b with
                             | Some X => set_order X
                             | None => []
                             end);
  modify (fun p => set_by_block (delete (block_id b) (cached_block_hashes_by_block p)) p) ;;
  match primary ++ secondary with
  | [] => mret []
  | block_hashes =>
      removed ← fold_m (fun acc block_hash =>
        r ← pool_pop block_hash (block_id b);
        mret (match r with Some _ => acc ++ [block_hash] | None => acc end)) [] block_hashes;
      pupd block reset_hash ;;
      mret removed
  end.

(** [_emit_block_removed_events] *)
Definition emit_block_removed_events (block_hashes : list BlockHashWithGroupId)
    : M BlockPool unit :=
  events ← gets enable_kv_cache_events;
  when events (for_each block_hashes (fun key =>
    emit (EvRemoved (mkBlockRemoved
      [maybe_convert_block_hash use_int_block_hashes (get_block_hash key)]
      (Some MEDIUM_GPU) (Some (get_group_id key)))))).

(** [KVCacheBlock.set_block_hash] *)
Definition set_block_hash (block : loc) (key : BlockHashWithGroupId) (num_tokens : option Z)
    : M BlockPool unit :=
  b ← pblk block;
  assert_ (match Blocks.block_hash b, block_hash_num_tokens b with
           | None, None => true | _, _ => false end) ;;
  pupd block (set_hash (Some key) num_tokens).

(** [_insert_block_hash] *)
Definition insert_block_hash (key : BlockHashWithGroupId) (block : loc) (num_tokens : option Z)
    : M BlockPool unit :=
  b ← pblk block;
  if bool_decide (Blocks.block_hash b = Some key) then mret tt else
  p ← get;
  if contain (heap p) (cached_block_hash_to_block p) key (block_id b) then mret tt else
  (match Blocks.block_hash b with
   | None => set_block_hash block key num_tokens
   | Some _ => modify (fun p => set_by_block
       (<[block_id b := {[key]} ∪ default ∅ (cached_block_hashes_by_block p !! block_id b)]>
          (cached_block_hashes_by_block p)) p)
   end) ;;
  modify (fun p => set_cache (map_insert (heap p) key block (cached_block_hash_to_block p)) p).

(** [move_block_hashes] *)
Definition move_block_hashes (src_block dst_block : loc) : M BlockPool unit :=
  d ← pblk dst_block;
  assert_ (match Blocks.block_hash d with None => true | Some _ => false end) ;;
  in_by_block ← gets (fun p => match cached_block_hashes_by_block p !! block_id d with
                               | Some _ => true | None => false end);
  assert_ (negb in_by_block) ;;
  s ← pblk src_block;
  let num_tokens := block_hash_num_tokens s in
  removed ← remove_cached_block_hashes src_block;
  for_each removed (fun key => insert_block_hash key dst_block num_tokens).

(** ** Allocation and release *)

Definition get_num_free_blocks (p : BlockPool) : Z := num_free_blocks (free_block_queue p).

(** [_maybe_evict_cached_block] *)
Definition maybe_evict_cached_block (block : loc) : M BlockPool bool :=
  b ← pblk block;
  on_metrics (on_block_evicted (block_id b)) ;;
  evicted_hashes ← remove_cached_block_hashes block;
  match evicted_hashes with
  | [] => mret false
  | _ => emit_block_removed_events evicted_hashes ;; mret true
  end.

(** The body shared by the two loops of [get_new_blocks]. *)
Definition claim_block (block : loc) : M BlockPool unit :=
  b ← pblk block;
  assert_ (ref_cnt b =? 0) ;;
  pupd block (fun b => set_ref_cnt (ref_cnt b + 1) b) ;;
  on_metrics (on_block_allocated (block_id b)).

(** [get_new_blocks] *)
Definition get_new_blocks (num_blocks : Z) : M BlockPool (list loc) :=
  free ← gets get_num_free_blocks;
  if free <? num_blocks then raise ValueError else
  ret ← on_queue (popleft_n num_blocks);
  caching ← gets enable_caching;
  (if (caching : bool)
   then for_each ret (fun block => maybe_evict_cached_block block ;; claim_block block)
   else for_each ret claim_block) ;;
  mret ret.

(** [touch] *)
Definition touch (bs : list loc) : M BlockPool unit :=
  for_each bs (fun block =>
    b ← pblk block;
    when ((ref_cnt b =? 0) && negb (is_null b)) (on_queue (remove block)) ;;
    pupd block (fun b => set_ref_cnt (ref_cnt b + 1) b) ;;
    on_metrics (on_block_accessed (block_id b))).

(** [is_block_writable] *)
Definition is_block_writable (block : loc) : M BlockPool bool :=
  b ← pblk block;
  mret (negb (is_null b) && (ref_cnt b =? 1) &&
        match Blocks.block_hash b with None => true | Some _ => false end).

(** [free_blocks] *)
Definition free_blocks (ordered_blocks : list loc) : M BlockPool unit :=
  '(blocks_to_evict_first, blocks_to_evict_last) ←
    fold_m (fun '(first, last) block =>
      pupd block (fun b => set_ref_cnt (ref_cnt b - 1) b) ;;
      b ← pblk block;
      caching ← gets enable_caching;
      mret (if (ref_cnt b =? 0) && negb (is_null b) then
              if match Blocks.block_hash b with None => true | Some _ => negb caching end
              then (first ++ [block], last)
              else (first, last ++ [block])
            else (first, last))) ([], []) ordered_blocks;
  on_queue (prepend_n blocks_to_evict_first) ;;
  on_queue (append_n blocks_to_evict_last).

(** [evict_blocks]: the ids in the iteration order of the set. *)
Definition evict_blocks (block_ids : list Z) : M BlockPool unit :=
  for_each block_ids (fun id =>
    bs ← gets blocks;
    assert_ (id <? zlen bs) ;;
    block ← of_option IndexError (py_index bs id);
    maybe_evict_cached_block block ;; mret tt).

(** [reset_prefix_cache] *)
Definition reset_prefix_cache : M BlockPool bool :=
  num_used_blocks ← gets (fun p => num_gpu_blocks p - get_num_free_blocks p);
  if negb (num_used_blocks =? 1) then mret false else
  modify (fun p => set_by_block ∅ (set_cache ∅ p)) ;;
  bs ← gets blocks;
  for_each bs (fun block => pupd block reset_hash) ;;
  on_metrics metrics_reset ;;
  events ← gets enable_kv_cache_events;
  when events (emit EvAllBlocksCleared) ;;
  mret true.

(** [get_usage], as an exact quotient *)
Definition get_usage (p : BlockPool) : Q :=
  let total_gpu_blocks := num_gpu_blocks p - 1 in
  if total_gpu_blocks =? 0 then 0%Q
  else (1 - inject_Z (get_num_free_blocks p) / inject_Z total_gpu_blocks)%Q.

(** [take_events] *)
Definition take_events : M BlockPool (list KVCacheEvent) :=
  events ← gets enable_kv_cache_events;
  if (events : bool)
  then q ← gets kv_event_queue; modify (set_events []) ;; mret q
  else mret [].

(** ** Caching the blocks of a request

    These methods also run the request's extra-key generation, which memoises
    on the request: their store is the pool and the request. *)

Definition on_pool {A} (m : M BlockPool A) : M (BlockPool * Request) A :=
  zoom fst (fun p s => (p, s.2)) m.
Definition on_request {A} (m : M Request A) : M (BlockPool * Request) A :=
  zoom snd (fun r s => (s.1, r)) m.

(** [_build_block_stored_event] *)
Definition build_block_stored_event (request : Request)
    (hashes : option (list ExternalBlockHash)) (parent_block_hash : option ExternalBlockHash)
    (start_token_idx end_token_idx block_size kv_cache_group_id : Z)
    (extra_keys_list : list (option (list ExtraKey))) : BlockStored :=
  mkBlockStored hashes parent_block_hash
    (py_slice (all_token_ids request) start_token_idx end_token_idx) block_size
    (lora_int_id <$> lora_request request) (Some MEDIUM_GPU)
    (lora_name <$> lora_request request)
    (match extra_keys_list with [] => None | l => Some l end)
    (Some kv_cache_group_id) (session_id request).

(** [block_mask is not None and not block_mask[i]] *)
Definition masked_out (block_mask : option (list bool)) (i : Z) : option bool :=
  match block_mask with
  | None => Some false
  | Some m => negb <$> py_index m i
  end.

(** The extra keys of consecutive blocks, threading the multi-modal cursor;
    [skip] drops a block. *)
Definition collect_extra_keys (block_size : Z) (idxs : list Z)
    (skip : Z -> M (BlockPool * Request) bool)
    : M (BlockPool * Request) (list (option (list ExtraKey))) :=
  '(keys, _) ← fold_m (fun '(keys, curr_mm_idx) i =>
    sk ← skip i;
    if (sk : bool) then mret (keys, curr_mm_idx) else
    let block_start := i * block_size in
    let block_end := block_start + block_size in
    '(extra_keys, idx) ← on_request
      (generate_block_hash_extra_keys env_sha256 block_start block_end curr_mm_idx);
    mret (keys ++ [extra_keys], idx)) ([], 0) idxs;
  mret keys.

(** [cache_full_blocks] *)
Definition cache_full_blocks (bs : list loc) (num_cached_blocks num_full_blocks block_size
    kv_cache_group_id : Z) (block_mask : option (list bool)) : M (BlockPool * Request) unit :=
  if num_full_blocks <=? num_cached_blocks then mret tt else
  let new_full_blocks := py_slice bs num_cached_blocks num_full_blocks in
  assert_ (match block_mask with None => true | Some m => zlen m =? zlen new_full_blocks end) ;;
  hbs ← on_pool (gets hash_block_size);
  request ← on_request get;
  block_hashes ← of_option AssertionError
    (resolve_block_hashes (RawHashes (block_hashes request)) hbs block_size false None);
  new_block_hashes ← of_option IndexError (bh_from block_hashes num_cached_blocks);
  events ← on_pool (gets enable_kv_cache_events);
  new_hashes ← fold_m (fun new_hashes '(i, blk) =>
    b ← on_pool (pblk blk);
    skip ← (if is_null b then mret true
            else of_option IndexError (masked_out block_mask i));
    if (skip : bool) then mret new_hashes else
    block_hash ← of_option IndexError (py_index new_block_hashes i);
    let num_hash_tokens := (num_cached_blocks + i + 1) * block_size in
    key ← of_option OverflowError (make_block_hash_with_group_id block_hash kv_cache_group_id);
    (match Blocks.block_hash b with
     | None => mret tt
     | Some _ =>
         assert_ (match block_hash_num_tokens b with
                  | Some n => n <? num_hash_tokens | None => false end) ;;
         removed ← on_pool (remove_cached_block_hashes blk);
         on_pool (emit_block_removed_events removed)
     end) ;;
    on_pool (insert_block_hash key blk (Some num_hash_tokens)) ;;
    mret (if (events : bool)
          then new_hashes ++ [maybe_convert_block_hash use_int_block_hashes block_hash]
          else new_hashes)) [] (zip (py_range 0 (zlen new_full_blocks)) new_full_blocks);
  when events (
    parent_block_hash ← (if num_cached_blocks =? 0 then mret None else
      h ← of_option IndexError (bh_index block_hashes (num_cached_blocks - 1));
      mret (Some (maybe_convert_block_hash use_int_block_hashes h)));
    extra_keys_list ← collect_extra_keys block_size (py_range num_cached_blocks num_full_blocks)
      (fun i =>
        blk ← of_option IndexError (py_index bs i);
        b ← on_pool (pblk blk);
        if is_null b then mret true
        else of_option IndexError (masked_out block_mask (i - num_cached_blocks)));
    request' ← on_request get;
    on_pool (emit (EvStored (build_block_stored_event request' (Some new_hashes)
      parent_block_hash (num_cached_blocks * block_size) (num_full_blocks * block_size)
      block_size kv_cache_group_id extra_keys_list)))).

(** [emit_cached_block_events] *)
Definition emit_cached_block_events (num_cached_blocks block_size kv_cache_group_id : Z)
    : M (BlockPool * Request) unit :=
  events ← on_pool (gets enable_kv_cache_events);
  if negb events || (num_cached_blocks =? 0) then mret tt else
  hbs ← on_pool (gets hash_block_size);
  request ← on_request get;
  block_hashes ← of_option AssertionError
    (resolve_block_hashes (RawHashes (block_hashes request)) hbs block_size false None);
  '(cached_hashes, extra_keys_list, _) ← fold_m (fun '(hs, keys, curr_mm_idx) i =>
    let block_start := i * block_size in
    let block_end := block_start + block_size in
    h ← of_option IndexError (bh_index block_hashes i);
    '(extra_keys, idx) ← on_request
      (generate_block_hash_extra_keys env_sha256 block_start block_end curr_mm_idx);
    mret (hs ++ [maybe_convert_block_hash use_int_block_hashes h], keys ++ [extra_keys], idx))
    ([], [], 0) (py_range 0 num_cached_blocks);
  match cached_hashes with
  | [] => mret tt
  | _ =>
      request' ← on_request get;
      on_pool (emit (EvStored (build_block_stored_event request' (Some cached_hashes) None 0
        (num_cached_blocks * block_size) block_size kv_cache_group_id extra_keys_list)))
  end.

(** [_get_partial_block_hash] *)
Definition get_partial_block_hash (num_tokens : Z) : M (BlockPool * Request) BlockHash :=
  hbs ← on_pool (gets hash_block_size);
  assert_ (num_tokens mod hbs =? 0) ;;
  let num_hash_blocks := num_tokens / hbs in
  request ← on_request get;
  assert_ ((0 <? num_hash_blocks) && (num_hash_blocks <=? zlen (block_hashes request))) ;;
  of_option IndexError (py_index (block_hashes request) (num_hash_blocks - 1)).

(** [_get_partial_block_parent_hash_and_start] *)
Definition get_partial_block_parent_hash_and_start (num_tokens : Z)
    : M (BlockPool * Request) (option BlockHash * Z) :=
  hbs ← on_pool (gets hash_block_size);
  let num_hash_blocks := num_tokens / hbs in
  request ← on_request get;
  parent_hash ← (if 1 <? num_hash_blocks
                 then h ← of_option IndexError (py_index (block_hashes request) (num_hash_blocks - 2));
                      mret (Some h)
                 else mret None);
  mret (parent_hash, (num_hash_blocks - 1) * hbs).

(** [cache_partial_block] *)
Definition cache_partial_block (block : loc) (num_tokens kv_cache_group_id block_size : Z)
    (replace_existing_hashes : bool) : M (BlockPool * Request) (option BlockHashWithGroupId) :=
  b ← on_pool (pblk block);
  if is_null b then mret None else
  hbs ← on_pool (gets hash_block_size);
  assert_ (block_size mod hbs =? 0) ;;
  assert_ (replace_existing_hashes ||
           ((hbs <? block_size) && negb (num_tokens mod block_size =? 0))) ;;
  block_hash ← get_partial_block_hash num_tokens;
  let num_hash_blocks := num_tokens / hbs in
  key ← of_option OverflowError (make_block_hash_with_group_id block_hash kv_cache_group_id);
  p ← on_pool get;
  let already_cached := bool_decide (Blocks.block_hash b = Some key) ||
    contain (heap p) (cached_block_hash_to_block p) key (block_id b) in
  let drop_hashes :=
    removed ← on_pool (remove_cached_block_hashes block);
    on_pool (emit_block_removed_events removed) in
  (if (replace_existing_hashes : bool) then drop_hashes
   else when (negb already_cached &&
              match Blocks.block_hash b, block_hash_num_tokens b with
              | Some _, Some n => n <? num_hash_blocks * hbs
              | _, _ => false
              end) drop_hashes) ;;
  let already_cached := if replace_existing_hashes then false else already_cached in
  on_pool (insert_block_hash key block (Some (num_hash_blocks * hbs))) ;;
  events ← on_pool (gets enable_kv_cache_events);
  when (events && negb already_cached) (
    '(parent_hash, block_start) ← get_partial_block_parent_hash_and_start num_tokens;
    let parent_block_hash := maybe_convert_block_hash use_int_block_hashes <$> parent_hash in
    let block_end := num_tokens in
    let curr_mm_idx := if 0 <? block_start then -1 else 0 in
    '(extra_keys, _) ← on_request
      (generate_block_hash_extra_keys env_sha256 block_start block_end curr_mm_idx);
    request ← on_request get;
    on_pool (emit (EvStored (mkBlockStored
      (Some [maybe_convert_block_hash use_int_block_hashes block_hash]) parent_block_hash
      (py_slice (all_token_ids request) block_start block_end) (block_end - block_start)
      (lora_int_id <$> lora_request request) (Some MEDIUM_GPU)
      (lora_name <$> lora_request request) (Some [extra_keys])
      (Some kv_cache_group_id) (session_id request))))) ;;
  mret (Some key).

End BlockPool.
