(* ===== verification/BlockPoolInv.v ===== *)
(** * The block pool's invariant

    What holds of a [BlockPool] between calls, in two halves: the allocation
    state (free queue, reference counts, the null block) and the cache state
    (the index and the hashes of the blocks agree), with the frame conditions
    under which each half is kept. *)
From Stdlib Require Import ZArith QArith Lia.
From stdpp Require Import base tactics gmap strings numbers option list.
From S2P Require Import Prelude Blocks FreeQueue Request Hashing BlockMap Env Metrics BlockPool.

Local Open Scope Z_scope.

(** The block object at [l]. *)
Definition at_ (p : BlockPool) (l : loc) : KVCacheBlock := hget (heap p) l.

(** The blocks of the pool are distinct objects numbered by their position. *)
Record pool_blocks (p : BlockPool) : Prop := {
  pb_nodup : NoDup (blocks p);
  pb_len : zlen (blocks p) = num_gpu_blocks p;
  pb_id : forall i l, blocks p !! i = Some l -> block_id (at_ p l) = Z.of_nat i;
  pb_alloc : forall l, l ∈ blocks p -> (l < next_loc (heap p))%nat;
  pb_null : null_block p ∈ blocks p;
  pb_isnull : forall l, l ∈ blocks p -> is_null (at_ p l) = bool_decide (l = null_block p)
}.

(** The free queue holds exactly the blocks nobody references. *)
Record pool_alloc (p : BlockPool) (free : list loc) : Prop := {
  pa_queue : queue_wf (pool_q p) free;
  pa_sent : q_head (pool_q p) ∉ blocks p /\ q_tail (pool_q p) ∉ blocks p;
  pa_free : forall l, l ∈ free <-> l ∈ blocks p /\ l <> null_block p /\ ref_cnt (at_ p l) = 0;
  pa_ref : forall l, l ∈ blocks p -> l <> null_block p -> 0 <= ref_cnt (at_ p l)
}.

(** The secondary hashes of a block, and all the keys it is cached under. *)
Definition secondary (p : BlockPool) (l : loc) : gset BlockHashWithGroupId :=
  default ∅ (cached_block_hashes_by_block p !! block_id (at_ p l)).
Definition owned (p : BlockPool) (l : loc) (k : BlockHashWithGroupId) : Prop :=
  Blocks.block_hash (at_ p l) = Some k \/ k ∈ secondary p l.

(** The index and the hashes of the blocks tell the same story. *)
Record pool_cache (p : BlockPool) : Prop := {
  pc_map : map_wf (heap p) (cached_block_hash_to_block p);
  pc_owned : forall k l, l ∈ locs (cached_block_hash_to_block p) k <->
                         l ∈ blocks p /\ owned p l k;
  pc_prim : forall l k, l ∈ blocks p -> Blocks.block_hash (at_ p l) = Some k ->
                        k ∉ secondary p l;
  pc_sec : forall l X, l ∈ blocks p ->
             cached_block_hashes_by_block p !! block_id (at_ p l) = Some X ->
             X <> ∅ /\ Blocks.block_hash (at_ p l) <> None;
  pc_num : forall l, l ∈ blocks p -> Blocks.block_hash (at_ p l) = None ->
                     block_hash_num_tokens (at_ p l) = None;
  pc_null : Blocks.block_hash (at_ p (null_block p)) = None
}.

Record pool_wf (p : BlockPool) (free : list loc) : Prop := {
  pw_blocks : pool_blocks p;
  pw_alloc : pool_alloc p free;
  pw_cache : pool_cache p
}.

(** ** Frames *)

(** The attributes no method changes. *)
Record same_config (p p' : BlockPool) : Prop := {
  sc_num : num_gpu_blocks p' = num_gpu_blocks p;
  sc_caching : enable_caching p' = enable_caching p;
  sc_hbs : hash_block_size p' = hash_block_size p;
  sc_blocks : blocks p' = blocks p;
  sc_null : null_block p' = null_block p;
  sc_events : enable_kv_cache_events p' = enable_kv_cache_events p;
  sc_next : next_loc (heap p') = next_loc (heap p);
  sc_head : fake_free_list_head (free_block_queue p') = fake_free_list_head (free_block_queue p);
  sc_tail : fake_free_list_tail (free_block_queue p') = fake_free_list_tail (free_block_queue p);
  sc_id : forall l, block_id (at_ p' l) = block_id (at_ p l);
  sc_isnull : forall l, is_null (at_ p' l) = is_null (at_ p l)
}.

(** A step on the cache state: queue, links and counts are untouched. *)
Record cache_step (p p' : BlockPool) : Prop := {
  cs_config : same_config p p';
  cs_queue : free_block_queue p' = free_block_queue p;
  cs_links : forall l, links (at_ p' l) = links (at_ p l);
  cs_ref : forall l, ref_cnt (at_ p' l) = ref_cnt (at_ p l)
}.

(** A step on the allocation state: the index and the hashes are untouched. *)
Record alloc_step (p p' : BlockPool) : Prop := {
  as_config : same_config p p';
  as_cache : cached_block_hash_to_block p' = cached_block_hash_to_block p;
  as_by_block : cached_block_hashes_by_block p' = cached_block_hashes_by_block p;
  as_hash : forall l, Blocks.block_hash (at_ p' l) = Blocks.block_hash (at_ p l);
  as_num : forall l, block_hash_num_tokens (at_ p' l) = block_hash_num_tokens (at_ p l)
}.

#[export] Instance same_config_refl : Reflexive same_config.
Proof. by intros p. Qed.
#[export] Instance same_config_trans : Transitive same_config.
Proof. intros p1 p2 p3 [] []. split; intros; congruence. Qed.
#[export] Instance cache_step_refl : Reflexive cache_step.
Proof. by intros p. Qed.
#[export] Instance cache_step_trans : Transitive cache_step.
Proof.
  intros p1 p2 p3 [] []. split; [by transitivity p2|intros; congruence..].
Qed.
#[export] Instance alloc_step_refl : Reflexive alloc_step.
Proof. by intros p. Qed.
#[export] Instance alloc_step_trans : Transitive alloc_step.
Proof.
  intros p1 p2 p3 [] []. split; [by transitivity p2|intros; congruence..].
Qed.

Lemma same_config_blocks p p' : same_config p p' -> pool_blocks p -> pool_blocks p'.
Proof.
  intros [] []. split; intros;
    repeat match goal with H : _ p' = _ |- _ => rewrite H in * end; auto.
  - rewrite sc_id0. auto.
  - rewrite sc_next0. auto.
  - rewrite sc_isnull0. auto.
Qed.

(** The cache half reads only what an allocation step keeps. *)
Lemma alloc_step_cache p p' : alloc_step p p' -> pool_cache p -> pool_cache p'.
Proof.
  intros [Hc Hca Hbb Hh Hn] [H1 H2 H3 H4 H5 H6]. pose proof Hc as [].
  assert (forall l, secondary p' l = secondary p l) as Hsec
    by (intros l; unfold secondary; by rewrite Hbb, sc_id0).
  split; rewrite ?Hca, ?Hbb, ?sc_blocks0, ?sc_null0.
  - by apply (map_wf_ids (heap p)).
  - intros k l. rewrite H2. unfold owned. by rewrite Hsec, Hh.
  - intros l k. rewrite Hsec, Hh. apply H3.
  - intros l X. rewrite sc_id0, Hh. apply H4.
  - intros l. rewrite Hh, Hn. apply H5.
  - by rewrite Hh.
Qed.

(** The allocation half reads only what a cache step keeps. *)
Lemma queue_wf_links s s' l :
  (forall x, links (hget (qheap s') x) = links (hget (qheap s) x)) ->
  qobj s' = qobj s -> next_loc (qheap s') = next_loc (qheap s) ->
  queue_wf s l -> queue_wf s' l.
Proof.
  intros Hl Hq Hn [H1 H2 H3 H4 H5 H6 H7].
  assert (forall x, prev_free_block (hget (qheap s') x) = prev_free_block (hget (qheap s) x) /\
                    next_free_block (hget (qheap s') x) = next_free_block (hget (qheap s) x)) as Hx.
  { intros x. specialize (Hl x). unfold links in Hl. by injection Hl. }
  assert (full_list s' l = full_list s l) as Hf by (unfold full_list, q_head, q_tail; by rewrite Hq).
  split; rewrite ?Hf, ?Hq; unfold q_head, q_tail; rewrite ?Hq.
  - done.
  - clear -H2 Hx. revert H2. generalize (full_list s l) as F.
    induction F as [|x [|y F] IH]; [done..|].
    intros (Ha & Hb & Hc). split; [by rewrite (proj2 (Hx x))|].
    split; [by rewrite (proj1 (Hx y))|]. by apply IH.
  - done.
  - by rewrite (proj1 (Hx _)).
  - by rewrite (proj2 (Hx _)).
  - intros x. rewrite Hl. apply H6.
  - intros x Hin. rewrite Hn. by apply H7.
Qed.

Lemma cache_step_alloc p p' free : cache_step p p' -> pool_alloc p free -> pool_alloc p' free.
Proof.
  intros [Hc Hq Hl Hr] [H1 H2 H3 H4]. pose proof Hc as [].
  split; rewrite ?sc_blocks0, ?sc_null0.
  - by apply (queue_wf_links (pool_q p) (pool_q p')); [exact Hl|exact Hq|exact sc_next0|].
  - unfold q_head, q_tail. cbn. by rewrite Hq.
  - intros l. by rewrite Hr.
  - intros l. rewrite Hr. apply H4.
Qed.

(** ** Consequences of the invariant *)

Lemma pool_ids_inj p l l' : pool_blocks p -> l ∈ blocks p -> l' ∈ blocks p ->
  block_id (at_ p l) = block_id (at_ p l') -> l = l'.
Proof.
  intros Hb [i Hi]%list_elem_of_lookup [j Hj]%list_elem_of_lookup E.
  rewrite (pb_id _ Hb i l Hi), (pb_id _ Hb j l' Hj) in E.
  assert (i = j) by lia. congruence.
Qed.

Lemma pool_contain p k l : pool_blocks p -> pool_cache p -> l ∈ blocks p ->
  contain (heap p) (cached_block_hash_to_block p) k (block_id (at_ p l)) = true <-> owned p l k.
Proof.
  intros Hb Hc Hl. rewrite contain_spec by apply Hc. split.
  - intros (l' & Hl' & E). apply (pc_owned _ Hc) in Hl' as [Hl' Ho].
    by replace l with l' by (by apply (pool_ids_inj p)).
  - intros Ho. exists l. split; [|done]. by apply (pc_owned _ Hc).
Qed.

Lemma pool_contain_false p k l : pool_blocks p -> pool_cache p -> l ∈ blocks p ->
  contain (heap p) (cached_block_hash_to_block p) k (block_id (at_ p l)) = false <-> ~ owned p l k.
Proof.
  intros Hb Hc Hl. rewrite <- (pool_contain p k l Hb Hc Hl).
  by destruct (contain _ _ _ _).
Qed.

(** Under the invariant, removing by id is removing the object. *)
Lemma pool_without_id p l (ls : list loc) : pool_blocks p -> l ∈ blocks p ->
  (forall x, x ∈ ls -> x ∈ blocks p) ->
  without_id (heap p) (block_id (at_ p l)) ls = filter (fun x => x <> l) ls.
Proof.
  intros Hb Hl Hls. unfold without_id. induction ls as [|x ls IH]; [done|].
  rewrite !filter_cons. rewrite IH by (intros y Hy; apply Hls; by right).
  assert (block_id (hget (heap p) x) = block_id (at_ p l) <-> x = l) as Hiff.
  { split; [|by intros ->]. intros E. apply (pool_ids_inj p); [done|apply Hls; by left|done|done]. }
  destruct (decide (block_id (hget (heap p) x) <> _)), (decide (x <> l)); naive_solver.
Qed.
