(* ===== verification/BlockPoolCache.v ===== *)
(** * Cache operations of the block pool

    Adding, removing and moving the hashes of blocks keeps the index and the
    blocks' hashes in agreement; each operation's effect on the blocks of every
    key is given exactly. *)
From Stdlib Require Import ZArith QArith Lia.
From stdpp Require Import base tactics gmap strings numbers option list.
From S2P Require Import Prelude Blocks FreeQueue Request Hashing BlockMap Env Metrics BlockPool BlockPoolInv.

Local Open Scope Z_scope.

Section CacheOps.
Context `{Env}.

Abbreviation cmap := cached_block_hash_to_block.

(** ** Removing the hashes of a block *)

(** The keys of a block in the order [_remove_cached_block_hashes] visits them. *)
Definition hash_list (p : BlockPool) (l : loc) : list BlockHashWithGroupId :=
  match Blocks.block_hash (at_ p l) with Some h => [h] | None => [] end ++
  match cached_block_hashes_by_block p !! block_id (at_ p l) with
  | Some X => set_order X
  | None => []
  end.

Lemma elem_of_hash_list p l k : k ∈ hash_list p l <-> owned p l k.
Proof.
  unfold hash_list, owned, secondary. rewrite elem_of_app.
  destruct (Blocks.block_hash (at_ p l)) as [h|].
  - rewrite list_elem_of_singleton.
    destruct (cached_block_hashes_by_block p !! _) as [X|]; cbn;
      rewrite ?elem_of_set_order, ?elem_of_nil; set_solver.
  - rewrite elem_of_nil.
    destruct (cached_block_hashes_by_block p !! _) as [X|]; cbn;
      rewrite ?elem_of_set_order, ?elem_of_nil; set_solver.
Qed.

Lemma NoDup_hash_list p l : pool_cache p -> l ∈ blocks p -> NoDup (hash_list p l).
Proof.
  intros Hc Hl. unfold hash_list. apply NoDup_app. split_and!.
  - case_match; [apply NoDup_singleton|constructor].
  - intros k Hk. case_match eqn:E; [|by apply elem_of_nil in Hk].
    apply list_elem_of_singleton in Hk as ->.
    pose proof (pc_prim _ Hc l _ Hl E) as Hn. unfold secondary in Hn.
    case_match eqn:E'; [|by intros ?%elem_of_nil]. by rewrite elem_of_set_order.
  - case_match; [apply NoDup_set_order|constructor].
Qed.

(** The index after the block has been taken out of the keys [ks]. *)
Definition popped (p : BlockPool) (l : loc) (ks : list BlockHashWithGroupId)
    (m : BlockHashToBlockMap) : Prop :=
  map_wf (heap p) m /\
  forall k, locs m k = if decide (k ∈ ks) then filter (fun x => x <> l) (locs (cmap p) k)
                       else locs (cmap p) k.

(** The loop pops every key of the block. *)
Lemma remove_loop_spec p l hs :
  pool_blocks p -> l ∈ blocks p -> map_wf (heap p) (cmap p) ->
  (forall k x, x ∈ locs (cmap p) k -> x ∈ blocks p) ->
  NoDup hs -> (forall k, k ∈ hs -> l ∈ locs (cmap p) k) ->
  wp (fold_m (fun acc block_hash =>
        r ← pool_pop block_hash (block_id (at_ p l));
        mret (match r with Some _ => acc ++ [block_hash] | None => acc end)) [] hs)
     (fun acc p' => acc = hs /\ exists m, p' = set_cache m p /\ popped p l hs m) p.
Proof.
  intros Hb Hl Hm Hin Hnd Hown.
  apply (wp_fold_m (fun pre acc p' => acc = pre /\ exists m, p' = set_cache m p /\ popped p l pre m)).
  { split; [done|]. exists (cmap p). split; [by destruct p|]. split; [done|]. intros k.
    rewrite decide_False; [done|]. apply not_elem_of_nil. }
  intros pre x post acc p' -> (-> & m & -> & Hwf & Hlocs).
  apply NoDup_app in Hnd as (_ & Hdis & _).
  assert (x ∉ pre) as Hx by (intros Hp; apply (Hdis x Hp); by left).
  pose proof (map_pop_spec (heap p) m x (block_id (at_ p l)) Hwf) as Hpop.
  apply wp_bind. unfold wp at 1, pool_pop. cbn [heap set_cache cmap cached_block_hash_to_block].
  destruct (map_pop (heap p) x (block_id (at_ p l)) m) as [r m'].
  destruct Hpop as (Hwf' & Hk & Hk' & Hnone & _).
  assert (l ∈ locs m x) as Hlx.
  { rewrite Hlocs, decide_False by done. apply Hown. apply elem_of_app. right. by left. }
  destruct r as [b|].
  2: { pose proof (proj1 Hnone eq_refl) as Hf.
       rewrite (proj2 (contain_spec (heap p) m x _ Hwf)) in Hf by (by exists l). done. }
  apply wp_ret. split; [done|]. exists m'. split; [done|]. split; [done|]. intros k.
  destruct (decide (k = x)) as [->|Hne].
  - rewrite decide_True by (apply elem_of_app; right; by left).
    rewrite Hk, Hlocs, decide_False by done. apply pool_without_id; [done|done|apply Hin].
  - rewrite Hk', Hlocs by done. destruct (decide (k ∈ pre)) as [Hp|Hp].
    + rewrite decide_True; [done|]. apply elem_of_app. by left.
    + rewrite decide_False; [done|]. rewrite elem_of_app, list_elem_of_singleton. tauto.
Qed.

(** What [_remove_cached_block_hashes] does to a block. *)
Record removed_hashes (p : BlockPool) (l : loc) (p' : BlockPool) : Prop := {
  rh_step : cache_step p p';
  rh_here : Blocks.block_hash (at_ p' l) = None /\ block_hash_num_tokens (at_ p' l) = None;
  rh_by_block : cached_block_hashes_by_block p' =
                delete (block_id (at_ p l)) (cached_block_hashes_by_block p);
  rh_other : forall x, x <> l -> at_ p' x = at_ p x;
  rh_map : map_wf (heap p') (cmap p');
  rh_locs : forall k, locs (cmap p') k = filter (fun x => x <> l) (locs (cmap p) k);
  rh_events : kv_event_queue p' = kv_event_queue p;
  rh_metrics : metrics_collector p' = metrics_collector p
}.

Lemma filter_ne_absent (l : loc) (ls : list loc) : l ∉ ls -> filter (fun x => x <> l) ls = ls.
Proof.
  induction ls as [|x ls IH]; [done|]. intros [Hx Hls]%not_elem_of_cons.
  rewrite filter_cons_True by congruence. by rewrite IH.
Qed.

Lemma remove_cached_block_hashes_effect p l :
  pool_blocks p -> pool_cache p -> l ∈ blocks p ->
  wp (remove_cached_block_hashes l)
     (fun removed p' => removed = hash_list p l /\ removed_hashes p l p') p.
Proof.
  intros Hb Hc Hl. unfold remove_cached_block_hashes. apply wp_bind, wp_gets.
  apply wp_bind, wp_gets. apply wp_bind, wp_modify. fold (at_ p l). fold (hash_list p l).
  pose proof (NoDup_hash_list p l Hc Hl) as Hnd.
  assert (forall k, k ∈ hash_list p l <-> l ∈ locs (cmap p) k) as Hown.
  { intros k. rewrite elem_of_hash_list, (pc_owned _ Hc). naive_solver. }
  set (p1 := set_by_block _ p).
  destruct (hash_list p l) as [|h hs] eqn:E.
  - apply wp_ret. split; [done|].
    assert (Blocks.block_hash (at_ p l) = None) as Hn.
    { unfold hash_list in E. by destruct (Blocks.block_hash (at_ p l)). }
    split; [done|split; [exact Hn|by apply (pc_num _ Hc)]|done|done|apply Hc| |done|done].
    intros k. symmetry. apply filter_ne_absent. intros Hk. apply Hown in Hk. by apply elem_of_nil in Hk.
  - rewrite <- E in *. clear h hs E. apply wp_bind.
    eapply wp_mono; [apply (remove_loop_spec p1 l (hash_list p l)); [| |apply Hc| |done|by intros k Hk; apply Hown]|].
    + by apply (same_config_blocks p).
    + done.
    + intros k x Hx. by apply (pc_owned _ Hc) in Hx as [? _].
    + intros removed p2 (-> & m & -> & Hwf & Hlocs).
      apply wp_bind, wp_modify, wp_ret. split; [done|].
      assert (forall x, x <> l -> hget (hupd l reset_hash (heap p)) x = at_ p x) as Hoth
        by (intros x Hx; by apply hget_hupd_ne).
      assert (hget (hupd l reset_hash (heap p)) l = reset_hash (at_ p l)) as Hhere
        by apply hget_hupd_eq.
      assert (forall x, block_id (hget (hupd l reset_hash (heap p)) x) = block_id (at_ p x)) as Hid.
      { intros x. destruct (decide (x = l)) as [->|Hx]; [by rewrite Hhere|by rewrite Hoth]. }
      split; unfold at_; cbn.
      * split; [split; try done|done|..]; intros x; unfold at_; cbn;
          (destruct (decide (x = l)) as [->|Hx]; [by rewrite Hhere|by rewrite Hoth]).
      * rewrite Hhere. done.
      * done.
      * done.
      * by apply (map_wf_ids (heap p)).
      * intros k. rewrite Hlocs. case_decide as Hk; [done|].
        symmetry. apply filter_ne_absent. intros Hin. by apply Hk, Hown.
      * done.
      * done.
Qed.

(** The invariant survives, and the block owns no key any more. *)
Lemma removed_hashes_cache p l p' :
  pool_blocks p -> pool_cache p -> l ∈ blocks p -> removed_hashes p l p' -> pool_cache p'.
Proof.
  intros Hb Hc Hl [Hs [Hh Hn] Hbb Hoth Hm Hlocs _ _]. pose proof Hs as [Hcfg _ _ _].
  pose proof Hcfg as [Cnum Ccach Chbs Cbl Cnull Cev Cnext Chd Ctl Cid Cisn].
  assert (forall x, x ∈ blocks p -> x <> l -> secondary p' x = secondary p x /\
    cached_block_hashes_by_block p' !! block_id (at_ p' x) =
    cached_block_hashes_by_block p !! block_id (at_ p x)) as Hsec.
  { intros x Hx Hne. unfold secondary. rewrite Cid, Hbb.
    assert (block_id (at_ p l) <> block_id (at_ p x)) as Hid.
    { intros E. apply Hne. symmetry. by apply (pool_ids_inj p). }
    by rewrite lookup_delete_ne. }
  assert (cached_block_hashes_by_block p' !! block_id (at_ p' l) = None) as Hsl
    by (rewrite Cid, Hbb; apply lookup_delete_eq).
  split; rewrite ?Cbl, ?Cnull.
  - done.
  - intros k x. rewrite Hlocs, list_elem_of_filter, (pc_owned _ Hc).
    destruct (decide (x = l)) as [->|Hne].
    + split; [naive_solver|]. intros [_ [Hk|Hk]]; [congruence|].
      unfold secondary in Hk. rewrite Hsl in Hk. by apply elem_of_empty in Hk.
    + unfold owned. split.
      * intros (_ & Hx & Ho). split; [done|]. by rewrite Hoth, (proj1 (Hsec x Hx Hne)).
      * intros (Hx & Ho). rewrite Hoth, (proj1 (Hsec x Hx Hne)) in Ho by done. done.
  - intros x k Hx. destruct (decide (x = l)) as [->|Hne]; [by rewrite Hh|].
    rewrite Hoth, (proj1 (Hsec x Hx Hne)) by done. by apply Hc.
  - intros x X Hx. destruct (decide (x = l)) as [->|Hne]; [by rewrite Hsl|].
    rewrite (proj2 (Hsec x Hx Hne)), Hoth by done. by apply Hc.
  - intros x Hx. destruct (decide (x = l)) as [->|Hne]; [done|].
    rewrite Hoth by done. by apply Hc.
  - destruct (decide (null_block p = l)) as [->|Hne]; [done|].
    rewrite Hoth by done. apply Hc.
Qed.

Lemma removed_hashes_none p l p' k : removed_hashes p l p' -> pool_cache p' -> l ∈ blocks p ->
  ~ owned p' l k.
Proof.
  intros [Hs [Hh _] Hbb _ _ _ _ _] Hc Hl [Hk|Hk]; [congruence|].
  unfold secondary in Hk. rewrite (sc_id _ _ (cs_config _ _ Hs)), Hbb, lookup_delete_eq in Hk.
  by apply elem_of_empty in Hk.
Qed.

(** ** Adding a hash to a block *)

(** What [_insert_block_hash] does when the block does not own the key yet. *)
Record inserted_hash (p : BlockPool) (k : BlockHashWithGroupId) (l : loc) (n : option Z)
    (p' : BlockPool) : Prop := {
  ih_step : cache_step p p';
  ih_other : forall x, x <> l -> at_ p' x = at_ p x;
  ih_here : match Blocks.block_hash (at_ p l) with
            | None => Blocks.block_hash (at_ p' l) = Some k /\ block_hash_num_tokens (at_ p' l) = n /\
                      cached_block_hashes_by_block p' = cached_block_hashes_by_block p
            | Some _ => at_ p' l = at_ p l /\
                cached_block_hashes_by_block p' =
                <[block_id (at_ p l) := {[k]} ∪ secondary p l]> (cached_block_hashes_by_block p)
            end;
  ih_map : map_wf (heap p') (cmap p');
  ih_locs : locs (cmap p') k = locs (cmap p) k ++ [l];
  ih_locs_other : forall k', k' <> k -> locs (cmap p') k' = locs (cmap p) k';
  ih_events : kv_event_queue p' = kv_event_queue p;
  ih_metrics : metrics_collector p' = metrics_collector p
}.

(** The key becomes the primary hash of a block without one. *)
Lemma inserted_primary p k l n :
  pool_blocks p -> pool_cache p -> l ∈ blocks p ->
  ~ owned p l k -> Blocks.block_hash (at_ p l) = None ->
  let p1 := set_heap (hupd l (set_hash (Some k) n) (heap p)) p in
  inserted_hash p k l n (set_cache (map_insert (heap p1) k l (cmap p1)) p1).
Proof.
  intros Hb Hc Hl Ho Eh p1.
  assert (forall x, x <> l -> hget (hupd l (set_hash (Some k) n) (heap p)) x = at_ p x) as Hoth
    by (intros x Hx; by apply hget_hupd_ne).
  assert (hget (hupd l (set_hash (Some k) n) (heap p)) l = set_hash (Some k) n (at_ p l)) as Hhere
    by apply hget_hupd_eq.
  assert (forall x, block_id (hget (heap p1) x) = block_id (at_ p x)) as Hid.
  { intros x. cbn. destruct (decide (x = l)) as [->|Hx]; [by rewrite Hhere|by rewrite Hoth]. }
  assert (map_wf (heap p1) (cmap p)) as Hwf by (apply (map_wf_ids (heap p)); [done|apply Hc]).
  destruct (map_insert_spec (heap p1) (cmap p) k l Hwf) as (H1 & H2 & H3).
  { rewrite <- not_true_iff_false, contain_spec by done. intros (x & Hx & E).
    apply (pc_owned _ Hc) in Hx as [Hx Hox]. rewrite !Hid in E.
    apply (pool_ids_inj p) in E; [by subst|done..]. }
  split; unfold at_; cbn; try done.
  - split; [split; try done|done|..]; intros x; unfold at_; cbn;
      (destruct (decide (x = l)) as [->|Hx]; [by rewrite Hhere|by rewrite Hoth]).
  - unfold at_ in Eh. by rewrite Eh, Hhere.
Qed.

(** The key is recorded beside the primary hash. *)
Lemma inserted_secondary p k l n :
  pool_blocks p -> pool_cache p -> l ∈ blocks p ->
  ~ owned p l k -> Blocks.block_hash (at_ p l) <> None ->
  let p1 := set_by_block (<[block_id (at_ p l) := {[k]} ∪ secondary p l]>
              (cached_block_hashes_by_block p)) p in
  inserted_hash p k l n (set_cache (map_insert (heap p1) k l (cmap p1)) p1).
Proof.
  intros Hb Hc Hl Ho Eh p1.
  destruct (map_insert_spec (heap p) (cmap p) k l (pc_map _ Hc)) as (H1 & H2 & H3).
  { by apply pool_contain_false. }
  split; unfold at_; cbn; try done.
  unfold at_ in Eh. by destruct (Blocks.block_hash (hget (heap p) l)).
Qed.

Lemma insert_block_hash_effect p k l n :
  pool_blocks p -> pool_cache p -> l ∈ blocks p ->
  wp (insert_block_hash k l n) (fun _ p' =>
    owned p l k /\ p' = p \/ ~ owned p l k /\ inserted_hash p k l n p') p.
Proof.
  intros Hb Hc Hl. unfold insert_block_hash. apply wp_bind, wp_gets. fold (at_ p l).
  case_bool_decide as Eh; [apply wp_ret; left; split; [by left|done]|].
  apply wp_bind, wp_get.
  destruct (contain (heap p) (cmap p) k (block_id (at_ p l))) eqn:Ec.
  { apply wp_ret. left. split; [by apply pool_contain|done]. }
  apply pool_contain_false in Ec; [|done..]. apply wp_bind.
  destruct (Blocks.block_hash (at_ p l)) as [h|] eqn:E.
  - apply wp_modify, wp_modify. right. split; [done|].
    apply inserted_secondary; [done..|by rewrite E].
  - unfold set_block_hash. apply wp_bind, wp_gets. fold (at_ p l).
    apply wp_bind, wp_assert; [by rewrite E, (pc_num _ Hc l Hl E)|].
    apply wp_modify, wp_modify. right. split; [done|]. by apply inserted_primary.
Qed.

Lemma inserted_hash_secondary p k l n p' : pool_cache p -> l ∈ blocks p ->
  inserted_hash p k l n p' ->
  forall k', owned p' l k' <-> owned p l k' \/ k' = k.
Proof.
  intros Hc Hl [Hs Hoth Hh Hm Hlocs Hlo _ _] k'.
  pose proof (sc_id _ _ (cs_config _ _ Hs) l) as Hid.
  unfold owned, secondary. rewrite Hid.
  destruct (Blocks.block_hash (at_ p l)) as [h|] eqn:E.
  - destruct Hh as [-> ->]. rewrite E, lookup_insert_eq. cbn. unfold secondary.
    rewrite elem_of_union, elem_of_singleton. naive_solver.
  - destruct Hh as (-> & _ & ->).
    destruct (cached_block_hashes_by_block p !! block_id (at_ p l)) as [X|] eqn:EX; cbn.
    + apply (pc_sec _ Hc l X Hl) in EX as [_ EX]. by rewrite E in EX.
    + rewrite elem_of_empty. naive_solver.
Qed.

Lemma inserted_hash_cache p k l n p' :
  pool_blocks p -> pool_cache p -> l ∈ blocks p -> l <> null_block p ->
  ~ owned p l k -> inserted_hash p k l n p' -> pool_cache p'.
Proof.
  intros Hb Hc Hl Hnull Ho Hi. pose proof (inserted_hash_secondary p k l n p' Hc Hl Hi) as Hown.
  destruct Hi as [Hs Hoth Hh Hm Hlocs Hlo _ _].
  pose proof Hs as [Hcfg _ _ _].
  pose proof Hcfg as [Cnum Ccach Chbs Cbl Cnull Cev Cnext Chd Ctl Cid Cisn].
  assert (forall x, x ∈ blocks p -> x <> l ->
    cached_block_hashes_by_block p' !! block_id (at_ p' x) =
    cached_block_hashes_by_block p !! block_id (at_ p x)) as Hbb.
  { intros x Hx Hne. rewrite Cid. destruct (Blocks.block_hash (at_ p l)).
    - destruct Hh as [_ ->]. rewrite lookup_insert_ne; [done|].
      intros E. apply Hne. symmetry. by apply (pool_ids_inj p).
    - by destruct Hh as (_ & _ & ->). }
  assert (forall x k', x ∈ blocks p -> x <> l -> owned p' x k' <-> owned p x k') as Hox.
  { intros x k' Hx Hne. unfold owned, secondary. by rewrite Hbb, Hoth. }
  split; rewrite ?Cbl, ?Cnull.
  - done.
  - intros k' x. destruct (decide (k' = k)) as [->|Hk].
    + rewrite Hlocs, elem_of_app, list_elem_of_singleton, (pc_owned _ Hc).
      destruct (decide (x = l)) as [->|Hne]; [rewrite Hown; naive_solver|].
      split; [intros [[Hx ?]|?]; [by rewrite Hox|done]|]. intros [Hx Hk]. left.
      by rewrite <- Hox.
    + rewrite Hlo, (pc_owned _ Hc) by done.
      destruct (decide (x = l)) as [->|Hne]; [rewrite Hown; naive_solver|].
      split; intros [Hx ?]; (split; [done|]); by apply Hox.
  - intros x k' Hx. destruct (decide (x = l)) as [->|Hne].
    + unfold secondary. rewrite Cid. destruct (Blocks.block_hash (at_ p l)) as [h|] eqn:E.
      * destruct Hh as [-> ->]. rewrite lookup_insert_eq, E. cbn. intros [= <-].
        rewrite elem_of_union, elem_of_singleton. intros [->|Hk]; [by apply Ho; left|].
        by apply (pc_prim _ Hc l h Hl).
      * destruct Hh as (_ & _ & ->).
        destruct (cached_block_hashes_by_block p !! block_id (at_ p l)) as [X|] eqn:EX; cbn.
        -- apply (pc_sec _ Hc l X Hl) in EX as [_ EX]. by rewrite E in EX.
        -- intros _. apply not_elem_of_empty.
    + unfold secondary. rewrite Hbb, Hoth by done. by apply Hc.
  - intros x X Hx. destruct (decide (x = l)) as [->|Hne].
    + rewrite Cid. destruct (Blocks.block_hash (at_ p l)) as [h|] eqn:E.
      * destruct Hh as [-> ->]. rewrite lookup_insert_eq, E. intros [= <-]. split; [|done].
        intros Hem. assert (k ∈ (∅ : gset BlockHashWithGroupId)) as Hk; [|by apply elem_of_empty in Hk].
        rewrite <- Hem. apply elem_of_union. left. by apply elem_of_singleton.
      * destruct Hh as (_ & _ & ->). intros EX.
        apply (pc_sec _ Hc l X Hl) in EX as [_ EX]. by rewrite E in EX.
    + rewrite Hbb, Hoth by done. by apply Hc.
  - intros x Hx. destruct (decide (x = l)) as [->|Hne].
    + destruct (Blocks.block_hash (at_ p l)) as [h|] eqn:E.
      * destruct Hh as [-> _]. by rewrite E.
      * destruct Hh as (-> & _ & _). done.
    + rewrite Hoth by done. by apply Hc.
  - rewrite Hoth by done. apply Hc.
Qed.

(** ** Events and metrics leave both halves of the invariant alone *)

Definition quiet (p p' : BlockPool) : Prop :=
  p' = set_metrics (metrics_collector p') (set_events (kv_event_queue p') p).

Lemma quiet_cache_step p p' : quiet p p' -> cache_step p p'.
Proof. intros ->. done. Qed.

Lemma quiet_alloc_step p p' : quiet p p' -> alloc_step p p'.
Proof. intros ->. done. Qed.

Lemma quiet_cache p p' : quiet p p' -> pool_cache p -> pool_cache p'.
Proof. intros Hq. by apply alloc_step_cache, quiet_alloc_step. Qed.

(** The event of a removed key. *)
Definition removed_event (k : BlockHashWithGroupId) : KVCacheEvent :=
  EvRemoved (mkBlockRemoved [maybe_convert_block_hash use_int_block_hashes (get_block_hash k)]
    (Some MEDIUM_GPU) (Some (get_group_id k))).

Lemma emit_block_removed_events_spec ks p :
  emit_block_removed_events ks p =
  Ok tt (if enable_kv_cache_events p
         then set_events (kv_event_queue p ++ (removed_event <$> ks)) p else p).
Proof.
  unfold emit_block_removed_events, gets, mbind, M_bind, when.
  destruct (enable_kv_cache_events p); [|done]. revert p. 
  induction ks as [|k ks IH]; intros p; cbn.
  - by destruct p; cbn; rewrite app_nil_r.
  - unfold mbind, M_bind, emit, modify. cbn. rewrite IH. cbn. by rewrite <- app_assoc.
Qed.

(** Metrics operations never raise. *)
Lemma on_metrics_spec (m : M KVCacheMetricsCollector unit) p :
  (forall c, exists c', m c = Ok tt c') ->
  exists mc, on_metrics m p = Ok tt (set_metrics mc p).
Proof.
  intros Hm. unfold on_metrics. destruct (metrics_collector p) as [c|] eqn:E.
  - destruct (Hm c) as [c' ->]. by exists (Some c').
  - exists None. by destruct p; cbn in *; subst.
Qed.

Lemma on_block_evicted_total id c : exists c', on_block_evicted id c = Ok tt c'.
Proof.
  unfold on_block_evicted, gets, mbind, M_bind, modify. destruct (block_metrics c !! id); by eexists.
Qed.

Lemma on_block_allocated_total id c : exists c', on_block_allocated id c = Ok tt c'.
Proof.
  unfold on_block_allocated, should_sample_block, mbind, M_bind, when.
  case_match; by eexists.
Qed.

Lemma on_block_accessed_total id c : exists c', on_block_accessed id c = Ok tt c'.
Proof.
  unfold on_block_accessed, gets, mbind, M_bind. destruct (block_metrics c !! id); by eexists.
Qed.

Lemma wp_on_metrics (m : M KVCacheMetricsCollector unit) (Q : unit -> BlockPool -> Prop) p :
  (forall c, exists c', m c = Ok tt c') ->
  (forall mc, Q tt (set_metrics mc p)) -> wp (on_metrics m) Q p.
Proof. intros Hm HQ. destruct (on_metrics_spec m p Hm) as [mc E]. by eapply wp_intro. Qed.

(** ** Eviction *)

(** A block evicted from the index: its keys are dropped everywhere, one
    removal event per key is queued. *)
Record evicted (p : BlockPool) (l : loc) (p' : BlockPool) : Prop := {
  ev_step : cache_step p p';
  ev_cache : pool_cache p';
  ev_here : Blocks.block_hash (at_ p' l) = None;
  ev_other : forall x, x <> l -> at_ p' x = at_ p x;
  ev_locs : forall k, locs (cmap p') k = filter (fun x => x <> l) (locs (cmap p) k);
  ev_events : kv_event_queue p' = kv_event_queue p ++
    if enable_kv_cache_events p then removed_event <$> hash_list p l else []
}.

Lemma removed_then_emit p l mc p1 : pool_blocks p -> pool_cache p -> l ∈ blocks p ->
  removed_hashes (set_metrics mc p) l p1 ->
  wp (emit_block_removed_events (hash_list p l)) (fun _ p' => evicted p l p') p1.
Proof.
  intros Hb Hc Hl Hr. eapply wp_intro; [apply emit_block_removed_events_spec|].
  assert (pool_cache p1) as Hc1.
  { apply (removed_hashes_cache (set_metrics mc p) l); [|by apply (quiet_cache p)|done|done].
    by apply (same_config_blocks p). }
  destruct Hr as [Hs [Hh _] _ Hoth _ Hlocs Hev _].
  assert (cache_step p p1) as Hs' by (by transitivity (set_metrics mc p)).
  rewrite (sc_events _ _ (cs_config _ _ Hs')).
  destruct (enable_kv_cache_events p) eqn:E.
  - split.
    + transitivity p1; [done|]. by apply quiet_cache_step.
    + by apply (quiet_cache p1).
    + done.
    + done.
    + done.
    + rewrite E. cbn. by rewrite Hev.
  - split; try done. by rewrite E, app_nil_r.
Qed.

Lemma maybe_evict_spec p l :
  pool_blocks p -> pool_cache p -> l ∈ blocks p ->
  wp (maybe_evict_cached_block l) (fun r p' => evicted p l p' /\
    r = match hash_list p l with [] => false | _ => true end) p.
Proof.
  intros Hb Hc Hl. unfold maybe_evict_cached_block. apply wp_bind, wp_gets, wp_bind.
  apply wp_on_metrics; [intros; apply on_block_evicted_total|]. intros mc. apply wp_bind.
  eapply wp_mono; [apply (remove_cached_block_hashes_effect (set_metrics mc p) l);
    [by apply (same_config_blocks p)|by apply (quiet_cache p)|done]|].
  intros removed p1 (-> & Hr).
  change (hash_list (set_metrics mc p) l) with (hash_list p l).
  pose proof (removed_then_emit p l mc p1 Hb Hc Hl Hr) as He.
  destruct (hash_list p l) as [|k ks] eqn:E.
  - apply wp_ret. split; [|done].
    apply wp_ok in He as (? & p' & E' & He).
    rewrite emit_block_removed_events_spec in E'. injection E' as _ <-.
    destruct (enable_kv_cache_events p1) eqn:Ee; [|done].
    cbn in He. rewrite app_nil_r in He. by destruct p1.
  - apply wp_bind. eapply wp_mono; [exact He|]. intros ? p' Hp'. by apply wp_ret.
Qed.

End CacheOps.
