(* ===== verification/BlockPoolAlloc.v ===== *)
(** * Allocation operations of the block pool

    [get_new_blocks], [touch] and [free_blocks] keep the free queue equal to
    the set of unreferenced blocks; each operation's new queue, reference
    counts and evictions are given exactly. *)
From Stdlib Require Import ZArith QArith Lia.
From stdpp Require Import base tactics gmap strings numbers option list.
From S2P Require Import Prelude Blocks FreeQueue Request Hashing BlockMap Env Metrics BlockPool.
From S2P Require Import BlockPoolInv BlockPoolCache.

Local Open Scope Z_scope.

Section AllocOps.
Context `{Env}.

Abbreviation cmap := cached_block_hash_to_block.
Abbreviation refs p l := (ref_cnt (at_ p l)).

(** ** Elementary steps *)

(** A step that only adds [d] to the count of [l] (and may record metrics). *)
Record ref_step (p : BlockPool) (l : loc) (d : Z) (p' : BlockPool) : Prop := {
  rs_alloc : alloc_step p p';
  rs_queue : free_block_queue p' = free_block_queue p;
  rs_links : forall x, links (at_ p' x) = links (at_ p x);
  rs_ref : forall x, refs p' x = if decide (x = l) then refs p x + d else refs p x;
  rs_events : kv_event_queue p' = kv_event_queue p
}.

Lemma pupd_ref_step p l d mc :
  ref_step p l d (set_metrics mc (set_heap (hupd l (fun b => set_ref_cnt (ref_cnt b + d) b) (heap p)) p)).
Proof.
  assert (forall x, hget (hupd l (fun b => set_ref_cnt (ref_cnt b + d) b) (heap p)) x =
    if decide (x = l) then set_ref_cnt (ref_cnt (at_ p x) + d) (at_ p x) else at_ p x) as Hx.
  { intros x. rewrite hget_hupd. destruct (decide (l = x)) as [->|];
      [by rewrite decide_True|by rewrite decide_False]. }
  split; [split; [split|..]|..]; try done; intros x; unfold at_ at 1; cbn; rewrite Hx; by case_decide.
Qed.

Lemma queue_step_alloc p s' : q_frame (pool_q p) s' -> alloc_step p (set_pool_q s' p).
Proof.
  intros [Hl Hh Ht Hn].
  split; [split|..]; try done; intros l; destruct (links_only_fields _ _ l Hl) as (?&?&?&?&?); done.
Qed.

Lemma queue_step_ref p s' l : q_frame (pool_q p) s' -> refs (set_pool_q s' p) l = refs p l.
Proof. intros [Hl _ _ _]. by destruct (links_only_fields _ _ l Hl) as (?&?&?&?&?). Qed.

Lemma ref_step_queue p l d p' free : ref_step p l d p' ->
  queue_wf (pool_q p) free -> queue_wf (pool_q p') free.
Proof.
  intros [Ha Hq Hl _ _]. apply queue_wf_links; [done|done|].
  by apply Ha.
Qed.

Lemma claim_block_spec p l : refs p l = 0 ->
  wp (claim_block l) (fun _ p' => ref_step p l 1 p') p.
Proof.
  intros Hr. unfold claim_block. apply wp_bind, wp_gets. fold (at_ p l).
  apply wp_bind, wp_assert; [by rewrite Hr|]. apply wp_bind, wp_modify.
  apply wp_on_metrics; [intros; apply on_block_allocated_total|].
  intros mc. apply pupd_ref_step.
Qed.

(** ** [get_new_blocks] *)

(** The state while the popped blocks are being claimed: [pre] are done. *)
Record claiming (p0 : BlockPool) (free pre : list loc) (p : BlockPool) : Prop := {
  cl_config : same_config p0 p;
  cl_cache : pool_cache p;
  cl_queue : queue_wf (pool_q p) free;
  cl_ref : forall x, refs p x = if decide (x ∈ pre) then 1 else refs p0 x;
  cl_hash : forall x, (x ∈ pre -> enable_caching p0 = true -> Blocks.block_hash (at_ p x) = None) /\
                      (x ∉ pre -> Blocks.block_hash (at_ p x) = Blocks.block_hash (at_ p0 x));
  cl_num : forall x, x ∉ pre -> block_hash_num_tokens (at_ p x) = block_hash_num_tokens (at_ p0 x);
  cl_locs : forall k, locs (cmap p) k =
    if enable_caching p0 then filter (fun x => x ∉ pre) (locs (cmap p0) k) else locs (cmap p0) k
}.

Lemma filter_not_nil (ls : list loc) : filter (fun x => x ∉ ([] : list loc)) ls = ls.
Proof.
  induction ls as [|x ls IH]; [done|]. rewrite filter_cons_True by apply not_elem_of_nil.
  by rewrite IH.
Qed.

Lemma filter_not_snoc (ls pre : list loc) x :
  filter (fun y => y ∉ pre ++ [x]) ls = filter (fun y => y <> x) (filter (fun y => y ∉ pre) ls).
Proof.
  induction ls as [|y ls IH]; [done|].
  rewrite (filter_cons (fun y => y ∉ pre ++ [x])), (filter_cons (fun y => y ∉ pre)), IH.
  destruct (decide (y ∉ pre ++ [x])) as [Hy|Hy], (decide (y ∉ pre)) as [Hp|Hp];
    rewrite elem_of_app, list_elem_of_singleton in Hy; try tauto.
  - rewrite filter_cons_True; [done|tauto].
  - rewrite filter_cons_False; [done|tauto].
Qed.

Lemma ref_decide_snoc (pre : list loc) x y (a b : Z) : y <> x ->
  (if decide (x ∈ pre) then a else b) = (if decide (x ∈ pre ++ [y]) then a else b).
Proof.
  intros Hne. destruct (decide (x ∈ pre)) as [Hp|Hp].
  - rewrite decide_True; [done|]. apply elem_of_app. by left.
  - rewrite decide_False; [done|]. rewrite elem_of_app, list_elem_of_singleton. naive_solver.
Qed.

(** One block claimed after an optional eviction. *)
Lemma claiming_claim p0 free pre x p1 p p' :
  x ∉ pre -> refs p0 x = 0 ->
  claiming p0 free pre p ->
  (enable_caching p0 = true /\ evicted p x p1 \/ enable_caching p0 = false /\ p1 = p) ->
  ref_step p1 x 1 p' ->
  claiming p0 free (pre ++ [x]) p'.
Proof.
  intros Hx Hr0 [Hcfg Hc Hq Hr Hh Hnum Hl] He Hs.
  assert (cache_step p p1 /\ pool_cache p1 /\
    (enable_caching p0 = true -> Blocks.block_hash (at_ p1 x) = None) /\
    (forall y, y <> x -> at_ p1 y = at_ p y) /\
    (forall k, locs (cmap p1) k = if enable_caching p0 then filter (fun y => y <> x) (locs (cmap p) k)
                                  else locs (cmap p) k)) as (Hst & Hc1 & Hn & Ho & Hl1).
  { destruct He as [[E []]|[E ->]]; rewrite E; split_and!; done. }
  pose proof (ref_step_queue _ _ _ _ free Hs) as Hq'.
  destruct Hs as [Ha Hqo _ Hrs _]. split.
  - transitivity p; [done|]. transitivity p1; [apply Hst|apply Ha].
  - by apply (alloc_step_cache p1).
  - apply Hq'. apply (queue_wf_links (pool_q p)); [apply Hst|apply Hst|apply Hst|done].
  - intros y. rewrite Hrs, (cs_ref _ _ Hst), Hr. destruct (decide (y = x)) as [->|Hne].
    + rewrite decide_False by done. rewrite decide_True; [lia|].
      apply elem_of_app. right. by left.
    + by apply ref_decide_snoc.
  - intros y. rewrite (as_hash _ _ Ha). rewrite elem_of_app, list_elem_of_singleton.
    destruct (decide (y = x)) as [->|Hne]; [split; [naive_solver|tauto]|].
    rewrite Ho by done. destruct (Hh y). split; [naive_solver|tauto].
  - intros y. rewrite elem_of_app, list_elem_of_singleton. intros Hy.
    rewrite (as_num _ _ Ha), Ho by tauto. apply Hnum. tauto.
  - intros k. rewrite (as_cache _ _ Ha), Hl1, Hl. destruct (enable_caching p0); [|done].
    by rewrite filter_not_snoc.
Qed.

Lemma claiming_start p s' free : pool_cache p -> q_frame (pool_q p) s' ->
  queue_wf s' free -> claiming p free [] (set_pool_q s' p).
Proof.
  intros Hc Hf Hq. pose proof (queue_step_alloc p s' Hf) as Ha. split.
  - apply Ha.
  - by apply (alloc_step_cache p).
  - by destruct s'.
  - intros x. rewrite decide_False by apply not_elem_of_nil. by apply queue_step_ref.
  - intros x. split; [by intros ?%elem_of_nil|]. intros _. apply Ha.
  - intros x _. apply Ha.
  - intros k. rewrite (as_cache _ _ Ha). destruct (enable_caching p); [|done].
    by rewrite filter_not_nil.
Qed.

(** What [get_new_blocks] does: [bs] are taken from the front of the queue. *)
Record got_blocks (p : BlockPool) (bs free : list loc) (p' : BlockPool) : Prop := {
  gb_wf : pool_wf p' free;
  gb_config : same_config p p';
  gb_ref : forall x, refs p' x = if decide (x ∈ bs) then 1 else refs p x;
  gb_hash : forall x, (x ∈ bs -> enable_caching p = true -> Blocks.block_hash (at_ p' x) = None) /\
                      (x ∉ bs -> Blocks.block_hash (at_ p' x) = Blocks.block_hash (at_ p x));
  gb_num : forall x, x ∉ bs -> block_hash_num_tokens (at_ p' x) = block_hash_num_tokens (at_ p x);
  gb_locs : forall k, locs (cmap p') k =
    if enable_caching p then filter (fun x => x ∉ bs) (locs (cmap p) k) else locs (cmap p) k
}.

Lemma claiming_done p bs free p' :
  pool_wf p (bs ++ free) -> claiming p free bs p' -> got_blocks p bs free p'.
Proof.
  intros [Hb [Hq Hse Hfr Href] Hc] [Hcfg Hc' Hq' Hr Hh Hnum Hl].
  assert (NoDup (bs ++ free)) as Hnd.
  { pose proof (qwf_nodup _ _ Hq) as Hnd. unfold full_list in Hnd.
    apply NoDup_cons in Hnd as [_ Hnd]. by apply NoDup_app in Hnd as (? & _). }
  pose proof Hcfg as [Cnum Ccach Chbs Cbl Cnull Cev Cnext Chd Ctl Cid Cisn].
  split; [|done|done|done|done|done]. split; [by apply (same_config_blocks p)| |done].
  split; rewrite ?Cbl, ?Cnull.
  - done.
  - unfold q_head, q_tail. cbn. by rewrite Chd, Ctl.
  - intros x. rewrite Hr. apply NoDup_app in Hnd as (_ & Hd & _). specialize (Hfr x).
    rewrite elem_of_app in Hfr. destruct (decide (x ∈ bs)) as [Hx|Hx].
    + split; [intros Hf; by apply Hd in Hx|lia].
    + tauto.
  - intros x Hx Hn. rewrite Hr. case_decide; [lia|]. by apply Href.
Qed.

Lemma get_new_blocks_spec p bs free :
  pool_wf p (bs ++ free) ->
  wp (get_new_blocks (zlen bs)) (fun r p' => r = bs /\ got_blocks p bs free p') p.
Proof.
  intros Hwf. pose proof Hwf as [Hb Ha Hc]. unfold get_new_blocks. apply wp_bind, wp_gets.
  unfold get_num_free_blocks. pose proof (qwf_num _ _ (pa_queue _ _ Ha)) as Hnum. cbn in Hnum.
  rewrite Hnum, zlen_app, (proj2 (Z.ltb_ge _ _)) by (pose proof (zlen_nonneg free); lia).
  apply wp_bind, wp_zoom.
  eapply wp_mono; [apply popleft_n_spec, (pa_queue _ _ Ha)|].
  intros r s' (-> & Hq & Hf). apply wp_bind, wp_gets.
  pose proof (claiming_start p s' free Hc Hf Hq) as Hstart.
  change (enable_caching (set_pool_q s' p)) with (enable_caching p). apply wp_bind.
  assert (forall pre x post, bs = pre ++ x :: post -> x ∉ pre /\ refs p x = 0 /\ x ∈ blocks p) as Hx.
  { intros pre x post ->. pose proof (qwf_nodup _ _ (pa_queue _ _ Ha)) as Hnd.
    unfold full_list in Hnd. apply NoDup_cons in Hnd as [_ Hnd].
    rewrite <- !app_assoc in Hnd. apply NoDup_app in Hnd as (_ & Hd & _).
    destruct (proj1 (pa_free _ _ Ha x)) as (? & _ & ?); [|split_and!; [|done|done]].
    - rewrite !elem_of_app. left; right. by left.
    - intros Hp. apply (Hd x Hp). by left. }
  eapply wp_mono with (Q := fun _ p' => claiming p free bs p');
    [|intros ? p' Hcl; apply wp_ret; split; [done|by apply claiming_done]].
  destruct (enable_caching p) eqn:Ec;
    apply (wp_for_each (fun pre p' => claiming p free pre p')); try done;
    intros pre x post p1 Hbs Hcl; destruct (Hx pre x post Hbs) as (Hxp & Hr & Hxb).
  - apply wp_bind. pose proof Hcl as [Hcfg Hc1 _ Hr1 _ _ _].
    eapply wp_mono; [apply maybe_evict_spec; [by apply (same_config_blocks p)|done|]|].
    { by rewrite (sc_blocks _ _ Hcfg). }
    intros ? p2 [He _]. eapply wp_mono; [apply claim_block_spec|].
    + rewrite (cs_ref _ _ (ev_step _ _ _ He)), Hr1, decide_False by done. done.
    + intros ? p3 Hs. apply (claiming_claim p free pre x p2 p1 p3 Hxp Hr Hcl); [|done]. by left.
  - eapply wp_mono; [apply claim_block_spec|].
    + rewrite (cl_ref _ _ _ _ Hcl), decide_False by done. done.
    + intros ? p3 Hs. apply (claiming_claim p free pre x p1 p1 p3 Hxp Hr Hcl); [|done]. by right.
Qed.

(** Asking for more than the free blocks raises before any change. *)
Lemma get_new_blocks_insufficient p free n :
  pool_wf p free -> zlen free < n -> get_new_blocks n p = Raise ValueError p.
Proof.
  intros [_ [Hq _ _ _] _] Hn. unfold get_new_blocks, gets, mbind, M_bind, get_num_free_blocks.
  pose proof (qwf_num _ _ Hq) as Hnum. cbn in Hnum.
  by rewrite Hnum, (proj2 (Z.ltb_lt _ _) Hn).
Qed.

(** ** [touch] *)

(** How often a block is listed. *)
Definition occ (x : loc) (l : list loc) : Z := zlen (filter (fun y => y = x) l).

Lemma occ_snoc x l y : occ x (l ++ [y]) = occ x l + (if decide (x = y) then 1 else 0).
Proof.
  unfold occ. rewrite filter_app, zlen_app. f_equal.
  destruct (decide (x = y)) as [->|Hne].
  - by rewrite filter_cons_True.
  - rewrite filter_cons_False; [done|congruence].
Qed.

Lemma occ_app x l k : occ x (l ++ k) = occ x l + occ x k.
Proof. unfold occ. by rewrite filter_app, zlen_app. Qed.

Lemma occ_nonneg x l : 0 <= occ x l.
Proof. apply zlen_nonneg. Qed.

Lemma occ_zero x l : occ x l = 0 <-> x ∉ l.
Proof.
  unfold occ, zlen. split.
  - intros Hz Hx. assert (filter (fun y => y = x) l = []) as Hn
      by (apply nil_length_inv; lia).
    assert (x ∈ filter (fun y => y = x) l) as Hin by (by apply list_elem_of_filter).
    rewrite Hn in Hin. by apply elem_of_nil in Hin.
  - intros Hx. destruct (filter (fun y => y = x) l) as [|y f] eqn:E; [done|].
    assert (y ∈ filter (fun y => y = x) l) as Hy by (rewrite E; by left).
    apply list_elem_of_filter in Hy as [-> Hy]. done.
Qed.

Lemma remove_split_spec p free x : pool_wf p free -> x ∈ free ->
  wp (on_queue (remove x)) (fun _ p' => exists s', p' = set_pool_q s' p /\
    queue_wf s' (filter (fun y => y <> x) free) /\ q_frame (pool_q p) s') p.
Proof.
  intros [_ [Hq _ _ _] _] (l1 & l2 & ->)%list_elem_of_split.
  apply wp_zoom. eapply wp_mono; [apply remove_spec, Hq|].
  intros ? s' [Hq' Hf]. exists s'. split_and!; [done| |done].
  rewrite filter_ne_split; [done|]. pose proof (qwf_nodup _ _ Hq) as Hnd. unfold full_list in Hnd.
  apply NoDup_cons in Hnd as [_ Hnd]. by apply NoDup_app in Hnd as (? & _).
Qed.

(** A changed count and a shorter queue that agree restore the invariant. *)
Lemma touched_wf p free x p1 p' :
  pool_wf p free -> x ∈ blocks p -> alloc_step p p1 ->
  (forall y, refs p1 y = refs p y) ->
  queue_wf (pool_q p1) (filter (fun y => y <> x) free) ->
  ref_step p1 x 1 p' ->
  pool_wf p' (filter (fun y => y <> x) free) /\ alloc_step p p' /\
  forall y, refs p' y = if decide (y = x) then refs p y + 1 else refs p y.
Proof.
  intros [Hb [Hq Hse Hfr Href] Hc] Hx Ha Hr1 Hq1 Hs.
  pose proof (ref_step_queue _ _ _ _ _ Hs Hq1) as Hq'.
  destruct Hs as [Ha' Hqo _ Hr _].
  assert (alloc_step p p') as Hpp by (by transitivity p1).
  assert (forall y, refs p' y = if decide (y = x) then refs p y + 1 else refs p y) as Hr'
    by (intros y; by rewrite Hr, Hr1).
  pose proof (as_config _ _ Hpp) as Hcfg.
  pose proof Hcfg as [Cnum Ccach Chbs Cbl Cnull Cev Cnext Chd Ctl Cid Cisn].
  split_and!; [|done|done].
  split; [by apply (same_config_blocks p)| |by apply (alloc_step_cache p)].
  split; rewrite ?Cbl, ?Cnull.
  - done.
  - unfold q_head, q_tail. cbn. by rewrite Chd, Ctl.
  - intros y. rewrite list_elem_of_filter, Hfr, Hr'.
    destruct (decide (y = x)) as [->|]; [|tauto]. split; [tauto|].
    intros (_ & Hn & Hz). specialize (Href x Hx Hn). lia.
  - intros y Hy Hn. rewrite Hr'. specialize (Href y Hy Hn). case_decide; lia.
Qed.

(** The body of [touch] on one block. *)
Definition touch_one (block : loc) : M BlockPool unit :=
  b ← pblk block;
  when ((ref_cnt b =? 0) && negb (is_null b)) (on_queue (remove block)) ;;
  pupd block (fun b => set_ref_cnt (ref_cnt b + 1) b) ;;
  on_metrics (on_block_accessed (block_id b)).

Lemma touch_one_spec p free x : pool_wf p free -> x ∈ blocks p ->
  wp (touch_one x) (fun _ p' => pool_wf p' (filter (fun y => y <> x) free) /\ alloc_step p p' /\
    forall y, refs p' y = if decide (y = x) then refs p y + 1 else refs p y) p.
Proof.
  intros Hwf Hx. pose proof Hwf as [Hb Ha Hc].
  unfold touch_one. apply wp_bind, wp_gets. fold (at_ p x). apply wp_bind.
  assert ((ref_cnt (at_ p x) =? 0) && negb (is_null (at_ p x)) = true <-> x ∈ free) as Hiff.
  { rewrite (pa_free _ _ Ha), (pb_isnull _ Hb x Hx), andb_true_iff, Z.eqb_eq, negb_true_iff,
      bool_decide_eq_false. tauto. }
  apply wp_when; intros E.
  - eapply wp_mono; [apply remove_split_spec; [done|by apply Hiff]|].
    intros ? p1 (s' & -> & Hq & Hf). apply wp_bind, wp_modify.
    apply wp_on_metrics; [intros; apply on_block_accessed_total|]. intros mc.
    apply (touched_wf p free x (set_pool_q s' p)); [done|done|by apply queue_step_alloc| | |apply pupd_ref_step].
    + intros y. by apply queue_step_ref.
    + by destruct s'.
  - apply wp_bind, wp_modify.
    apply wp_on_metrics; [intros; apply on_block_accessed_total|]. intros mc.
    assert (x ∉ free) as Hnf by (rewrite <- Hiff, E; done).
    apply (touched_wf p free x p); [done|done|reflexivity|done| |apply pupd_ref_step].
    rewrite filter_ne_absent by done. apply Ha.
Qed.

(** The blocks [bs] have been touched. *)
Definition touched (p : BlockPool) (free bs : list loc) (p' : BlockPool) : Prop :=
  pool_wf p' (filter (fun y => y ∉ bs) free) /\ alloc_step p p' /\
  forall y, refs p' y = refs p y + occ y bs.

Lemma touch_spec p free bs : pool_wf p free -> (forall x, x ∈ bs -> x ∈ blocks p) ->
  wp (touch bs) (fun _ p' => touched p free bs p') p.
Proof.
  intros Hwf Hbs. unfold touch.
  apply (wp_for_each (fun pre p' => touched p free pre p')); unfold touched.
  - rewrite filter_not_nil. split_and!; [done|reflexivity|]. intros y. rewrite (proj2 (occ_zero y [])) by apply not_elem_of_nil. lia.
  - intros pre x post p1 -> (Hwf1 & Ha1 & Hr1).
    eapply wp_mono; [apply (touch_one_spec p1 _ x Hwf1)|].
    + rewrite (sc_blocks _ _ (as_config _ _ Ha1)). apply Hbs. rewrite elem_of_app. right. by left.
    + intros ? p2 (Hwf2 & Ha2 & Hr2). rewrite filter_not_snoc.
      split_and!; [done|by transitivity p1|]. intros y. rewrite Hr2, Hr1, occ_snoc.
      case_decide; lia.
Qed.

(** ** [free_blocks] *)

Lemma remove_dups_snoc (l : list loc) x :
  remove_dups (l ++ [x]) = filter (fun y => y <> x) (remove_dups l) ++ [x].
Proof.
  induction l as [|y l IH]; [done|]. cbn [app remove_dups].
  destruct (decide_rel elem_of y (l ++ [x])) as [Hy|Hy]; rewrite IH.
  - rewrite elem_of_app, list_elem_of_singleton in Hy.
    destruct (decide_rel elem_of y l) as [Hl|Hl]; [done|].
    rewrite filter_cons_False by tauto. done.
  - rewrite elem_of_app, list_elem_of_singleton in Hy.
    destruct (decide_rel elem_of y l) as [Hl|Hl]; [tauto|].
    rewrite filter_cons_True by tauto. done.
Qed.

(** The blocks whose last reference is in [bs], in the order of the releases. *)
Definition released (p : BlockPool) (bs : list loc) : list loc :=
  filter (fun x => x <> null_block p /\ refs p x = occ x bs) (remove_dups bs).

(** Blocks that can never be hit again are reused first. *)
Definition evict_first (p : BlockPool) (x : loc) : bool :=
  match Blocks.block_hash (at_ p x) with None => true | Some _ => negb (enable_caching p) end.

Definition released_first (p : BlockPool) (bs : list loc) : list loc :=
  filter (fun x => evict_first p x = true) (released p bs).
Definition released_last (p : BlockPool) (bs : list loc) : list loc :=
  filter (fun x => evict_first p x = false) (released p bs).

Lemma released_snoc p pre x :
  (x <> null_block p -> occ x pre < refs p x) ->
  released p (pre ++ [x]) = released p pre ++
    if decide (x <> null_block p /\ refs p x = occ x pre + 1) then [x] else [].
Proof.
  intros Hx. unfold released. rewrite remove_dups_snoc, filter_app. f_equal.
  - induction (remove_dups pre) as [|y l IH]; [done|].
    rewrite (filter_cons (fun y => y <> x)). destruct (decide (y <> x)) as [Hne|Heq].
    + rewrite !(filter_cons (fun x0 => x0 <> null_block p /\ _)), IH, occ_snoc.
      rewrite (decide_False (P := y = x)) by done. rewrite Z.add_0_r. done.
    + assert (y = x) as -> by (destruct (decide (y = x)); tauto). rewrite IH.
      rewrite (filter_cons_False (fun x0 => x0 <> null_block p /\ refs p x0 = occ x0 pre)); [done|].
      intros [Hn Hr]. specialize (Hx Hn). lia.
  - rewrite filter_cons. assert (occ x (pre ++ [x]) = occ x pre + 1) as E
      by (by rewrite occ_snoc, decide_True).
    destruct (decide (x <> null_block p /\ refs p x = occ x (pre ++ [x]))) as [H1|H1],
      (decide (x <> null_block p /\ refs p x = occ x pre + 1)) as [H2|H2]; rewrite E in H1;
      done || tauto.
Qed.

(** The state of the release loop after [pre]. *)
Definition releasing (p : BlockPool) (free pre : list loc) (acc : list loc * list loc)
    (p' : BlockPool) : Prop :=
  alloc_step p p' /\ queue_wf (pool_q p') free /\
  (forall y, refs p' y = refs p y - occ y pre) /\
  acc = (released_first p pre, released_last p pre).

Lemma release_loop_spec p free bs :
  pool_wf p free -> (forall x, x ∈ bs -> x ∈ blocks p) ->
  (forall x, x ∈ bs -> x <> null_block p -> occ x bs <= refs p x) ->
  wp (fold_m (fun '(first, last) block =>
      pupd block (fun b => set_ref_cnt (ref_cnt b - 1) b) ;;
      b ← pblk block;
      caching ← gets enable_caching;
      mret (if (ref_cnt b =? 0) && negb (is_null b) then
              if match Blocks.block_hash b with None => true | Some _ => negb caching end
              then (first ++ [block], last)
              else (first, last ++ [block])
            else (first, last))) ([], []) bs)
    (fun acc p' => releasing p free bs acc p') p.
Proof.
  intros [Hb Ha Hc] Hbs Hocc.
  apply (wp_fold_m (fun pre acc p' => releasing p free pre acc p')).
  { split_and!; [reflexivity|apply Ha| |done]. intros y.
    rewrite (proj2 (occ_zero y [])) by apply not_elem_of_nil. lia. }
  intros pre x post [fs ls] p1 -> (Ha1 & Hq1 & Hr1 & [= -> ->]).
  apply wp_bind, wp_modify.
  pose proof (pupd_ref_step p1 x (-1) (metrics_collector p1)) as Hs.
  set (p2 := set_heap (hupd x (fun b => set_ref_cnt (ref_cnt b - 1) b) (heap p1)) p1).
  change (ref_step p1 x (-1) p2) in Hs. clearbody p2.
  pose proof (ref_step_queue _ _ _ _ _ Hs Hq1) as Hq2.
  destruct Hs as [Ha2 _ _ Hr2 _].
  assert (alloc_step p p2) as Hpp by (by transitivity p1).
  apply wp_bind, wp_gets, wp_bind, wp_gets, wp_ret. fold (at_ p2 x).
  assert (x ∈ blocks p) as Hx by (apply Hbs; rewrite elem_of_app; right; by left).
  pose proof (as_config _ _ Hpp) as Hcfg.
  rewrite (sc_isnull _ _ Hcfg), (pb_isnull _ Hb x Hx), (as_hash _ _ Hpp), (sc_caching _ _ Hcfg).
  fold (evict_first p x).
  assert (refs p2 x = refs p x - (occ x pre + 1)) as Hrx.
  { rewrite Hr2, decide_True by done. rewrite Hr1. lia. }
  split_and!; [done|done| |].
  - intros y. rewrite Hr2, Hr1, occ_snoc. case_decide; lia.
  - unfold released_first, released_last. rewrite released_snoc.
    2: { intros Hn. specialize (Hocc x ltac:(rewrite elem_of_app; right; by left) Hn).
         rewrite occ_app in Hocc. unfold occ in Hocc at 2. rewrite filter_cons_True, zlen_cons in Hocc by done.
         fold (occ x post) in Hocc. pose proof (occ_nonneg x post). lia. }
    rewrite Hrx.
    destruct (decide (x <> null_block p /\ refs p x = occ x pre + 1)) as [[Hn Hz]|Hno].
    + rewrite (proj2 (Z.eqb_eq _ 0)) by lia. rewrite bool_decide_eq_false_2 by done. cbn [andb negb].
      rewrite !filter_app, !filter_cons. cbn [filter].
      destruct (evict_first p x) eqn:Ee; cbn; by rewrite ?app_nil_r.
    + rewrite !app_nil_r.
      assert ((refs p x - (occ x pre + 1) =? 0) && negb (bool_decide (x = null_block p)) = false) as ->;
        [|done].
      apply not_true_iff_false. rewrite andb_true_iff, Z.eqb_eq, negb_true_iff, bool_decide_eq_false.
      intros [? ?]. apply Hno. split; [done|lia].
Qed.

Lemma released_facts p free bs : pool_wf p free -> (forall x, x ∈ bs -> x ∈ blocks p) ->
  NoDup (released p bs) /\
  forall x, x ∈ released p bs <-> x ∈ bs /\ x <> null_block p /\ refs p x = occ x bs.
Proof.
  intros Hwf Hbs. split.
  - apply NoDup_filter, NoDup_remove_dups.
  - intros x. unfold released. rewrite list_elem_of_filter, elem_of_remove_dups. tauto.
Qed.

(** Blocks with a reference are outside the queue. *)
Lemma referenced_not_queued p free x : pool_wf p free -> x ∈ blocks p -> 0 < refs p x ->
  x ∉ full_list (pool_q p) free.
Proof.
  intros [_ [Hq [Hh Ht] Hfr _] _] Hx Hr. unfold full_list.
  rewrite elem_of_cons, elem_of_app, list_elem_of_singleton.
  intros [->|[Hf| ->]]; [done| |done]. apply Hfr in Hf. lia.
Qed.

Lemma full_list_config p p' l : same_config p p' ->
  full_list (pool_q p') l = full_list (pool_q p) l.
Proof.
  intros []. unfold full_list, q_head, q_tail. cbn. congruence.
Qed.

(** What [free_blocks] does. *)
Record freed (p : BlockPool) (free bs : list loc) (p' : BlockPool) : Prop := {
  fr_wf : pool_wf p' (released_first p bs ++ free ++ released_last p bs);
  fr_step : alloc_step p p';
  fr_ref : forall y, refs p' y = refs p y - occ y bs
}.

Lemma elem_of_released_parts p bs x :
  x ∈ released_first p bs \/ x ∈ released_last p bs <-> x ∈ released p bs.
Proof.
  unfold released_first, released_last. rewrite !list_elem_of_filter.
  destruct (evict_first p x); naive_solver.
Qed.

Lemma freed_wf p free bs p' :
  pool_wf p free -> (forall x, x ∈ bs -> x ∈ blocks p) ->
  (forall x, x ∈ bs -> x <> null_block p -> occ x bs <= refs p x) ->
  alloc_step p p' -> (forall y, refs p' y = refs p y - occ y bs) ->
  queue_wf (pool_q p') (released_first p bs ++ free ++ released_last p bs) ->
  freed p free bs p'.
Proof.
  intros Hwf Hbs Hocc Ha Hr Hq. pose proof Hwf as [Hb [_ Hse Hfr Href] Hc].
  pose proof (as_config _ _ Ha) as Hcfg.
  pose proof Hcfg as [Cnum Ccach Chbs Cbl Cnull Cev Cnext Chd Ctl Cid Cisn].
  split; [|done|done]. split; [by apply (same_config_blocks p)| |by apply (alloc_step_cache p)].
  split; rewrite ?Cbl, ?Cnull.
  - done.
  - unfold q_head, q_tail. cbn. by rewrite Chd, Ctl.
  - intros x. rewrite !elem_of_app, Hr.
    pose proof (elem_of_released_parts p bs x) as Hp.
    rewrite (proj2 (released_facts p free bs Hwf Hbs) x) in Hp. specialize (Hfr x).
    pose proof (occ_zero x bs) as Hz. pose proof (occ_nonneg x bs).
    destruct (decide (x ∈ bs)) as [Hx|Hx].
    + specialize (Hocc x Hx). specialize (Hbs x Hx). split.
      * intros [Hf|[Hf|Hf]]; [..|]; [destruct (proj1 Hp (or_introl Hf)) as (?&?&?)| |
          destruct (proj1 Hp (or_intror Hf)) as (?&?&?)]; [split_and!; [done|done|lia]| |split_and!; [done|done|lia]].
        apply Hfr in Hf as (? & ? & ?). split_and!; [done|done|]. specialize (Hocc H2). lia.
      * intros (_ & Hn & He). destruct (proj2 Hp) as [?|?]; [split_and!; [done|done|lia]|tauto..].
    + assert (occ x bs = 0) as -> by tauto. rewrite Z.sub_0_r. tauto.
  - intros x Hx Hn. rewrite Hr. specialize (Href x Hx Hn). specialize (Hocc x).
    destruct (decide (x ∈ bs)) as [Hin|Hin]; [specialize (Hocc Hin Hn); lia|].
    rewrite (proj2 (occ_zero x bs) Hin). lia.
Qed.

Lemma free_blocks_spec p free bs :
  pool_wf p free -> (forall x, x ∈ bs -> x ∈ blocks p) ->
  (forall x, x ∈ bs -> x <> null_block p -> occ x bs <= refs p x) ->
  wp (free_blocks bs) (fun _ p' => freed p free bs p') p.
Proof.
  intros Hwf Hbs Hocc. destruct (released_facts p free bs Hwf Hbs) as [Hnd Hrel].
  assert (forall x, x ∈ released p bs -> x ∈ blocks p /\ x ∉ full_list (pool_q p) free) as Hout.
  { intros x (Hx & Hn & Hr)%Hrel. split; [by apply Hbs|].
    apply referenced_not_queued; [done|by apply Hbs|]. rewrite Hr.
    pose proof (occ_nonneg x bs). pose proof (occ_zero x bs) as Hz.
    destruct (decide (occ x bs = 0)); [tauto|lia]. }
  unfold free_blocks. apply wp_bind.
  eapply wp_mono; [by apply (release_loop_spec p free bs)|].
  intros acc p1 (Ha1 & Hq1 & Hr1 & ->). pose proof (as_config _ _ Ha1) as Hcfg1.
  apply wp_bind, wp_zoom. eapply wp_mono; [apply (prepend_n_spec _ free)|].
  - done.
  - by apply NoDup_filter.
  - intros x Hx. rewrite (full_list_config p p1) by done. apply Hout.
    apply elem_of_released_parts. by left.
  - intros x Hx. change (qheap (pool_q p1)) with (heap p1). rewrite (sc_next _ _ Hcfg1).
    apply (pb_alloc _ (pw_blocks _ _ Hwf)), Hout, elem_of_released_parts. by left.
  - intros ? s2 [Hq2 Hf2]. set (p2 := set_pool_q s2 p1).
    assert (alloc_step p p2) as Ha2 by (transitivity p1; [done|by apply queue_step_alloc]).
    pose proof (as_config _ _ Ha2) as Hcfg2.
    assert (pool_q p2 = s2) as Hps by (by destruct s2).
    apply wp_zoom. eapply wp_mono; [apply (append_n_spec _ (released_first p bs ++ free))|].
    + by rewrite Hps.
    + by apply NoDup_filter.
    + intros x Hx. rewrite (full_list_config p p2) by done.
      assert (x ∈ released p bs) as Hxr by (apply elem_of_released_parts; by right).
      destruct (Hout x Hxr) as [_ Hn]. intros Hin. apply Hn. unfold full_list in *.
      rewrite elem_of_cons, <- app_assoc, !elem_of_app in Hin. rewrite elem_of_cons, elem_of_app.
      destruct Hin as [?|[Hin|?]]; [tauto| |tauto]. exfalso.
      apply list_elem_of_filter in Hx as [Hx _]. apply list_elem_of_filter in Hin as [Hin _].
      congruence.
    + intros x Hx. change (qheap (pool_q p2)) with (heap p2). rewrite (sc_next _ _ Hcfg2).
      apply (pb_alloc _ (pw_blocks _ _ Hwf)), Hout, elem_of_released_parts. by right.
    + intros ? s3 [Hq3 Hf3]. apply freed_wf; [done..| | |].
      * transitivity p2; [done|by apply queue_step_alloc].
      * intros y. rewrite queue_step_ref by done. unfold p2. rewrite queue_step_ref by done.
        apply Hr1.
      * rewrite <- app_assoc in Hq3. by destruct s3.
Qed.

End AllocOps.
