(* ===== verification/BlockPoolInit.v ===== *)
(** * The block pool's constructor, eviction, reset and hash moves *)
From Stdlib Require Import ZArith QArith Lia.
From stdpp Require Import base tactics gmap strings numbers option list.
From S2P Require Import Prelude Blocks FreeQueue Request Hashing BlockMap Env Metrics BlockPool.
From S2P Require Import BlockPoolInv BlockPoolCache BlockPoolAlloc.

Local Open Scope Z_scope.

Section InitOps.
Context `{Env}.

Abbreviation cmap := cached_block_hash_to_block.
Abbreviation refs p l := (ref_cnt (at_ p l)).

(** ** The constructor *)

Definition fresh_upto (k : nat) (h : Heap) : Prop :=
  next_loc h = k /\
  forall l, cells h !! l = if decide (l < k)%nat then Some (new_KVCacheBlock (Z.of_nat l)) else None.

Lemma fresh_upto_get k h l : fresh_upto k h ->
  hget h l = if decide (l < k)%nat then new_KVCacheBlock (Z.of_nat l) else new_KVCacheBlock (-1).
Proof. intros [_ Hc]. unfold hget. rewrite Hc. by case_decide. Qed.

Lemma alloc_blocks_spec n : 0 <= n ->
  wp (alloc_blocks n) (fun bs h => bs = seq 0 (Z.to_nat n) /\ fresh_upto (Z.to_nat n) h) empty_heap.
Proof.
  intros Hn. unfold alloc_blocks.
  eapply wp_mono; [apply (wp_fold_m (fun pre acc h => acc = seq 0 (length pre) /\
    fresh_upto (length pre) h))|].
  - split; [done|]. split; [done|]. intros l. cbn. by rewrite lookup_empty.
  - intros pre x post acc h Hr [-> [Hnl Hc]].
    assert (x = Z.of_nat (length pre)) as ->.
    { pose proof (lookup_app_r pre (x :: post) (length pre) (Nat.le_refl _)) as Hx.
      rewrite <- Hr, Nat.sub_diag in Hx. cbn in Hx. unfold py_range in Hx.
      apply lookup_seqZ in Hx as [-> _]. lia. }
    apply wp_bind. eapply wp_intro; [reflexivity|]. apply wp_ret.
    rewrite length_app. cbn [length]. rewrite Nat.add_1_r, seq_S, Hnl. split; [done|].
    split; [done|]. intros l. cbn. destruct (decide (l = length pre)) as [->|Hne].
    + rewrite lookup_insert_eq, decide_True by lia. done.
    + rewrite lookup_insert_ne, Hc by done. repeat case_decide; try done; lia.
  - intros acc h [-> Hf]. unfold py_range in *. rewrite length_seqZ, Z.sub_0_r in *. done.
Qed.

(** The pool after [__init__]. *)
Record fresh_pool (n : Z) (caching : bool) (hbs : Z) (events : bool)
    (mc : option KVCacheMetricsCollector) (p : BlockPool) : Prop := {
  fp_wf : pool_wf p (seq 1 (Z.to_nat n - 1));
  fp_num : num_gpu_blocks p = n;
  fp_caching : enable_caching p = caching;
  fp_hbs : hash_block_size p = hbs;
  fp_events : enable_kv_cache_events p = events;
  fp_metrics : metrics_collector p = mc;
  fp_queue : kv_event_queue p = [];
  fp_null : null_block p = 0%nat;
  fp_blocks : blocks p = seq 0 (Z.to_nat n);
  fp_cache : cmap p = ∅
}.

Lemma seq_head n : 0 < n -> seq 0 (Z.to_nat n) = 0%nat :: seq 1 (Z.to_nat n - 1).
Proof. intros Hn. destruct (Z.to_nat n) as [|m] eqn:E; [lia|]. cbn. by rewrite Nat.sub_0_r. Qed.

(** The block objects after linking, unlinking the first and marking it. *)
Lemma init_objects n h1 h2 h3 l :
  fresh_upto (Z.to_nat n) h1 -> links_only h1 h2 -> links_only h2 h3 -> l ∈ seq 0 (Z.to_nat n) ->
  erase_links (hget (hupd 0%nat set_null h3) l) =
  (if decide (l = 0%nat) then set_null else fun b => b) (new_KVCacheBlock (Z.of_nat l)).
Proof.
  intros Hf H12 H23 [_ Hl]%elem_of_seq. rewrite hget_hupd.
  assert (erase_links (hget h3 l) = new_KVCacheBlock (Z.of_nat l)) as He.
  { rewrite (H23 l), (H12 l), (fresh_upto_get _ _ _ Hf), decide_True by lia. done. }
  destruct (decide (0%nat = l)) as [<-|]; [|by rewrite decide_False].
  rewrite decide_True by done. rewrite <- He. by destruct (hget h3 0%nat).
Qed.

Lemma erase_links_fields b c : erase_links b = c ->
  block_id b = block_id c /\ ref_cnt b = ref_cnt c /\ Blocks.block_hash b = Blocks.block_hash c /\
  block_hash_num_tokens b = block_hash_num_tokens c /\ is_null b = is_null c.
Proof. by intros <-. Qed.

Lemma init_wf n caching hbs events mc h1 h2 q s3 :
  0 < n -> fresh_upto (Z.to_nat n) h1 -> links_only h1 h2 ->
  fake_free_list_head q = Z.to_nat n -> fake_free_list_tail q = S (Z.to_nat n) ->
  next_loc h2 = S (S (Z.to_nat n)) ->
  queue_wf s3 (seq 1 (Z.to_nat n - 1)) -> q_frame (mkQState h2 q) s3 ->
  fresh_pool n caching hbs events mc
    (mkPool n caching hbs (hupd 0%nat set_null (qheap s3)) (seq 0 (Z.to_nat n)) (qobj s3) ∅ ∅
       0%nat events [] mc).
Proof.
  intros Hn Hf H12 Hqh Hqt Hnl Hq [Hl3 Hh3 Ht3 Hn3].
  set (p := mkPool _ _ _ _ _ _ _ _ _ _ _ _).
  assert (forall l, l ∈ blocks p -> block_id (at_ p l) = Z.of_nat l /\ ref_cnt (at_ p l) = 0 /\
    Blocks.block_hash (at_ p l) = None /\ block_hash_num_tokens (at_ p l) = None /\
    is_null (at_ p l) = bool_decide (l = 0%nat)) as Hat.
  { intros l Hl. pose proof (init_objects n h1 h2 (qheap s3) l Hf H12 Hl3 Hl) as He.
    change (hget (hupd 0%nat set_null (qheap s3)) l) with (at_ p l) in He.
    apply erase_links_fields in He as (-> & -> & -> & -> & ->).
    destruct (decide (l = 0%nat)); by split_and!; [..|case_bool_decide]. }
  assert (forall l, l ∈ blocks p <-> (l < Z.to_nat n)%nat) as Hbl
    by (intros l; cbn; rewrite elem_of_seq; lia).
  split; try done. split.
  - split.
    + apply NoDup_seq.
    + cbn. unfold zlen. rewrite length_seq. lia.
    + intros i l Hi. apply lookup_seq in Hi as [-> Hi]. cbn. apply Hat, Hbl. lia.
    + intros l Hl%Hbl. cbn. rewrite Hn3. cbn. rewrite Hnl. lia.
    + apply Hbl. cbn. lia.
    + intros l Hl. by apply Hat.
  - split.
    + apply (queue_wf_links s3); [|done|done|done]. intros x. cbn. rewrite hget_hupd.
      case_decide; [by subst|done].
    + unfold q_head, q_tail in *. cbn in *. rewrite Hh3, Ht3, Hqh, Hqt, !elem_of_seq. lia.
    + intros l. rewrite elem_of_seq. cbn [null_block p]. split.
      * intros Hl. assert (l ∈ blocks p) as Hb by (apply Hbl; lia).
        split_and!; [done|lia|]. by apply Hat.
      * intros (Hb%Hbl & Hne & _). lia.
    + intros l Hl _. destruct (Hat l Hl) as (_ & -> & _). done.
  - split.
    + apply map_wf_empty.
    + intros k l. cbn. rewrite locs_empty. split; [by intros ?%elem_of_nil|].
      intros (Hl & [Ho|Ho]).
      * destruct (Hat l Hl) as (_ & _ & E & _). congruence.
      * unfold secondary in Ho. cbn in Ho. rewrite lookup_empty in Ho. by apply elem_of_empty in Ho.
    + intros l k Hl Hk. destruct (Hat l Hl) as (_ & _ & E & _). congruence.
    + intros l X Hl. cbn. by rewrite lookup_empty.
    + intros l Hl _. by apply Hat.
    + apply Hat, Hbl. cbn. lia.
Qed.

Lemma block_pool_init_spec n caching hbs events mc : 0 < n ->
  wp (block_pool_init n caching hbs events mc)
     (fun _ p => fresh_pool n caching hbs events mc p) (blank_pool empty_heap).
Proof.
  intros Hn. unfold block_pool_init. apply wp_bind, wp_assert; [by apply Z.ltb_lt|].
  apply wp_bind, wp_modify. apply wp_bind, wp_zoom. cbn [heap blank_pool].
  eapply wp_mono; [apply alloc_blocks_spec; lia|]. intros bs h1 [-> Hf].
  apply wp_bind, wp_modify. apply wp_bind, wp_zoom. cbn [heap set_blocks set_heap].
  eapply wp_mono; [apply queue_init_spec|].
  - apply NoDup_seq.
  - intros x. rewrite (fresh_upto_get _ _ _ Hf). by case_decide.
  - intros x Hx. rewrite (proj1 Hf) in Hx. rewrite (proj2 Hf), decide_False by lia. done.
  - intros x [_ Hx]%elem_of_seq. rewrite (proj1 Hf). lia.
  - intros q h2 (Hq & Hl & Hnl & Hh & Ht). rewrite (proj1 Hf) in *.
    apply wp_bind, wp_modify. apply wp_bind, wp_modify. apply wp_bind, wp_zoom.
    rewrite seq_head in Hq by done.
    eapply wp_mono; [apply popleft_spec; exact Hq|]. intros nb s3 (-> & Hq3 & Hf3).
    apply wp_bind, wp_modify. apply wp_bind, wp_modify. apply wp_modify.
    by apply (init_wf n caching hbs events mc h1 h2 q s3).
Qed.

(** ** [evict_blocks] *)

(** The blocks [ls] have been evicted from the index. *)
Record all_evicted (p : BlockPool) (ls : list loc) (p' : BlockPool) : Prop := {
  ae_step : cache_step p p';
  ae_cache : pool_cache p';
  ae_here : forall l, l ∈ ls -> Blocks.block_hash (at_ p' l) = None;
  ae_other : forall l, l ∉ ls -> at_ p' l = at_ p l;
  ae_locs : forall k, locs (cmap p') k = filter (fun x => x ∉ ls) (locs (cmap p) k)
}.

Lemma all_evicted_snoc p ls p1 l p2 :
  all_evicted p ls p1 -> evicted p1 l p2 -> all_evicted p (ls ++ [l]) p2.
Proof.
  intros [H1 H2 H3 H4 H5] [E1 E2 E3 E4 E5 _]. split.
  - by transitivity p1.
  - done.
  - intros x [Hx|Hx%list_elem_of_singleton]%elem_of_app; [|by subst].
    destruct (decide (x = l)) as [->|]; [done|]. rewrite E4 by done. by apply H3.
  - intros x Hx. rewrite elem_of_app, list_elem_of_singleton in Hx.
    rewrite E4, H4 by tauto. done.
  - intros k. by rewrite E5, H5, filter_not_snoc.
Qed.

Lemma evict_blocks_spec p free ids :
  pool_wf p free -> Forall (fun id => 0 <= id < num_gpu_blocks p) ids ->
  wp (evict_blocks ids) (fun _ p' => exists ls,
    mapM (fun id => blocks p !! Z.to_nat id) ids = Some ls /\ all_evicted p ls p') p.
Proof.
  intros [Hb Ha Hc] Hids. unfold evict_blocks.
  apply (wp_for_each (fun pre p' => exists ls,
    mapM (fun id => blocks p !! Z.to_nat id) pre = Some ls /\ all_evicted p ls p')).
  - exists []. split; [done|]. split; try done.
    + by intros l ?%elem_of_nil.
    + intros k. by rewrite filter_not_nil.
  - intros pre id post p1 -> (ls & Hls & Hev). pose proof (ae_step _ _ _ Hev) as Hst.
    pose proof (cs_config _ _ Hst) as Hcfg.
    apply Forall_app in Hids as [_ Hids]. apply Forall_cons in Hids as [Hid _].
    assert (Z.of_nat (length (blocks p)) = num_gpu_blocks p) as Hlen by apply (pb_len _ Hb).
    destruct (lookup_lt_is_Some_2 (blocks p) (Z.to_nat id)) as [l Hl]; [lia|].
    apply wp_bind, wp_gets. rewrite (sc_blocks _ _ Hcfg).
    apply wp_bind, wp_assert; [apply Z.ltb_lt; unfold zlen; lia|].
    apply wp_bind. apply (wp_of_option _ _ _ _ l); [by rewrite py_index_nonneg by lia|].
    apply wp_bind. eapply wp_mono; [apply maybe_evict_spec|].
    + by apply (same_config_blocks p).
    + apply Hev.
    + rewrite (sc_blocks _ _ Hcfg). by eapply list_elem_of_lookup_2.
    + intros ? p2 [He _]. apply wp_ret. exists (ls ++ [l]). split.
      * apply mapM_Some. apply mapM_Some in Hls. apply Forall2_app; [done|by repeat constructor].
      * by apply (all_evicted_snoc p ls p1).
Qed.

(** ** [reset_prefix_cache] *)

(** The index is empty and no block has a hash. *)
Record cache_reset (p p' : BlockPool) : Prop := {
  cr_step : cache_step p p';
  cr_cache : pool_cache p';
  cr_empty : cmap p' = ∅ /\ cached_block_hashes_by_block p' = ∅;
  cr_none : forall l, l ∈ blocks p -> Blocks.block_hash (at_ p' l) = None;
  cr_events : kv_event_queue p' = kv_event_queue p ++
    if enable_kv_cache_events p then [EvAllBlocksCleared] else []
}.

(** The hashes of [bs] have been cleared. *)
Definition hashes_reset (p : BlockPool) (bs : list loc) (p' : BlockPool) : Prop :=
  p' = set_heap (heap p') p /\ next_loc (heap p') = next_loc (heap p) /\
  forall l, at_ p' l = if decide (l ∈ bs) then reset_hash (at_ p l) else at_ p l.

Lemma reset_loop_spec bs p :
  wp (for_each bs (fun block => pupd block reset_hash)) (fun _ p' => hashes_reset p bs p') p.
Proof.
  apply (wp_for_each (fun pre p' => hashes_reset p pre p')).
  - split_and!; [by destruct p|done|]. intros l.
    by rewrite decide_False by apply not_elem_of_nil.
  - intros pre x post p1 _ (Hp1 & Hn & Hat). apply wp_modify. split_and!.
    + cbn. by rewrite Hp1.
    + done.
    + intros l. unfold at_ at 1. cbn. rewrite hget_hupd. fold (at_ p1 x) (at_ p1 l). rewrite !Hat.
      destruct (decide (x = l)) as [->|Hne].
      * rewrite (decide_True (P := l ∈ pre ++ [l])) by (apply elem_of_app; right; by left).
        by case_decide.
      * destruct (decide (l ∈ pre)) as [Hl|Hl].
        -- rewrite decide_True; [done|]. apply elem_of_app. by left.
        -- rewrite decide_False; [done|]. rewrite elem_of_app, list_elem_of_singleton. naive_solver.
Qed.

Lemma metrics_reset_total c : exists c', metrics_reset c = Ok tt c'.
Proof. by eexists. Qed.

Lemma hashes_reset_cache p p' : pool_blocks p -> hashes_reset (set_by_block ∅ (set_cache ∅ p)) (blocks p) p' ->
  cache_step p p' /\ pool_cache p' /\ cmap p' = ∅ /\ cached_block_hashes_by_block p' = ∅ /\
  (forall l, l ∈ blocks p -> Blocks.block_hash (at_ p' l) = None) /\
  kv_event_queue p' = kv_event_queue p /\ enable_kv_cache_events p' = enable_kv_cache_events p.
Proof.
  intros Hb (Hp & Hn & Hat).
  set (p0 := set_by_block ∅ (set_cache ∅ p)) in *.
  assert (forall l, block_id (at_ p' l) = block_id (at_ p l) /\ is_null (at_ p' l) = is_null (at_ p l) /\
    links (at_ p' l) = links (at_ p l) /\ refs p' l = refs p l) as Hf.
  { intros l. rewrite Hat. change (at_ p0 l) with (at_ p l). by case_decide. }
  assert (forall l, l ∈ blocks p -> Blocks.block_hash (at_ p' l) = None /\
    block_hash_num_tokens (at_ p' l) = None) as Hnone.
  { intros l Hl. by rewrite Hat, decide_True. }
  assert (cmap p' = ∅ /\ cached_block_hashes_by_block p' = ∅ /\ blocks p' = blocks p /\
    null_block p' = null_block p) as (Hcm & Hbb & Hbl & Hnu) by (by rewrite Hp).
  split_and!; [|split| | | | | ].
  - split; [split|..]; try (by rewrite Hp); try apply Hn; apply Hf.
  - rewrite Hcm. apply map_wf_empty.
  - intros k l. rewrite Hcm, locs_empty, Hbl. split; [by intros ?%elem_of_nil|].
    intros (Hl & [Ho|Ho]); [destruct (Hnone l Hl); congruence|].
    unfold secondary in Ho. rewrite Hbb, lookup_empty in Ho. by apply elem_of_empty in Ho.
  - intros l k. rewrite Hbl. intros Hl. destruct (Hnone l Hl) as [-> _]. done.
  - intros l X. by rewrite Hbb, lookup_empty.
  - intros l. rewrite Hbl. intros Hl _. by apply Hnone.
  - rewrite Hnu. apply Hnone. apply Hb.
  - done.
  - done.
  - intros l Hl. by apply Hnone.
  - by rewrite Hp.
  - by rewrite Hp.
Qed.

Lemma reset_prefix_cache_spec p free : pool_wf p free ->
  wp reset_prefix_cache (fun r p' =>
    if num_gpu_blocks p =? zlen free + 1 then r = true /\ cache_reset p p'
    else r = false /\ p' = p) p.
Proof.
  intros [Hb Ha Hc]. unfold reset_prefix_cache. apply wp_bind, wp_gets.
  unfold get_num_free_blocks. pose proof (qwf_num _ _ (pa_queue _ _ Ha)) as Hnum. cbn in Hnum.
  rewrite Hnum.
  replace (num_gpu_blocks p - zlen free =? 1) with (num_gpu_blocks p =? zlen free + 1)
    by (destruct (Z.eqb_spec (num_gpu_blocks p) (zlen free + 1)),
          (Z.eqb_spec (num_gpu_blocks p - zlen free) 1); lia).
  destruct (num_gpu_blocks p =? zlen free + 1); cbn [negb]; [|by apply wp_ret].
  apply wp_bind, wp_modify, wp_bind, wp_gets, wp_bind.
  eapply wp_mono; [apply reset_loop_spec|]. intros ? p1 Hp1.
  destruct (hashes_reset_cache p p1 Hb Hp1) as (Hs & Hc1 & Hcm & Hbb & Hnone & Hev & Hen).
  apply wp_bind, wp_on_metrics; [apply metrics_reset_total|]. intros mc.
  apply wp_bind, wp_gets. change (enable_kv_cache_events (set_metrics mc p1)) with (enable_kv_cache_events p1).
  rewrite Hen. apply wp_bind. unfold when. destruct (enable_kv_cache_events p) eqn:E.
  - apply wp_modify, wp_ret. split; [done|]. split; [|by apply (quiet_cache p1)|done|done|].
    + transitivity p1; [done|by apply quiet_cache_step].
    + rewrite E. cbn. by rewrite Hev.
  - apply wp_ret, wp_ret. split; [done|]. split; [|by apply (quiet_cache p1)|done|done|].
    + transitivity p1; [done|by apply quiet_cache_step].
    + rewrite E, app_nil_r. done.
Qed.

(** ** [move_block_hashes] *)

(** The keys [ks] have been given to a block that had none. *)
Record given_hashes (p : BlockPool) (ks : list BlockHashWithGroupId) (l : loc) (n : option Z)
    (p' : BlockPool) : Prop := {
  gh_step : cache_step p p';
  gh_cache : pool_cache p';
  gh_other : forall x, x <> l -> at_ p' x = at_ p x;
  gh_owned : forall k, owned p' l k <-> k ∈ ks;
  gh_primary : Blocks.block_hash (at_ p' l) = head ks /\
               block_hash_num_tokens (at_ p' l) = match ks with [] => None | _ => n end;
  gh_locs : forall k, locs (cmap p') k = locs (cmap p) k ++ if decide (k ∈ ks) then [l] else [];
  gh_events : kv_event_queue p' = kv_event_queue p
}.

Lemma given_hashes_snoc p ks l n p1 k p2 :
  k ∉ ks -> l ∈ blocks p -> l <> null_block p -> pool_blocks p ->
  given_hashes p ks l n p1 -> inserted_hash p1 k l n p2 -> given_hashes p (ks ++ [k]) l n p2.
Proof.
  intros Hk Hl Hnull Hb [G1 G2 G3 G4 [G5 G6] G7 G8] Hi. pose proof (cs_config _ _ G1) as Hcfg.
  assert (l ∈ blocks p1) as Hl1 by (by rewrite (sc_blocks _ _ Hcfg)).
  pose proof (inserted_hash_secondary p1 k l n p2 G2 Hl1 Hi) as Hown.
  assert (~ owned p1 l k) as Hno by (by rewrite G4).
  assert (pool_cache p2) as Hc2.
  { apply (inserted_hash_cache p1 k l n); [by apply (same_config_blocks p)|done|done| |done|done].
    by rewrite (sc_null _ _ Hcfg). }
  destruct Hi as [I1 I2 I3 _ I5 I6 I7 _]. split.
  - by transitivity p1.
  - done.
  - intros x Hx. by rewrite I2, G3.
  - intros k'. rewrite Hown, G4, elem_of_app, list_elem_of_singleton. done.
  - destruct ks as [|k0 ks].
    + cbn in G5. rewrite G5 in I3. by destruct I3 as (-> & -> & _).
    + cbn in G5. rewrite G5 in I3. destruct I3 as [-> _]. by rewrite G5, G6.
  - intros k'. destruct (decide (k' = k)) as [->|Hne].
    + rewrite I5, G7, (decide_False (P := k ∈ ks)), (decide_True (P := k ∈ ks ++ [k]))
        by (done || (apply elem_of_app; right; by left)). by rewrite app_nil_r.
    + rewrite I6, G7 by done. f_equal. destruct (decide (k' ∈ ks)) as [Hin|Hin].
      * rewrite decide_True; [done|]. apply elem_of_app. by left.
      * rewrite decide_False; [done|]. rewrite elem_of_app, list_elem_of_singleton. tauto.
  - by rewrite I7.
Qed.

Lemma give_hashes_spec p ks l n :
  pool_blocks p -> pool_cache p -> l ∈ blocks p -> l <> null_block p -> NoDup ks ->
  Blocks.block_hash (at_ p l) = None ->
  wp (for_each ks (fun key => insert_block_hash key l n)) (fun _ p' => given_hashes p ks l n p') p.
Proof.
  intros Hb Hc Hl Hnull Hnd Hh.
  assert (forall k, ~ owned p l k) as Hno.
  { intros k [Ho|Ho]; [congruence|]. unfold secondary in Ho.
    destruct (cached_block_hashes_by_block p !! block_id (at_ p l)) as [X|] eqn:E.
    - by apply (pc_sec _ Hc l X Hl) in E as [_ ?].
    - by apply elem_of_empty in Ho. }
  apply (wp_for_each (fun pre p' => given_hashes p pre l n p')).
  - split; [done|done|done| |split; [done|by apply (pc_num _ Hc)]| |done].
    + intros k. rewrite elem_of_nil. split; [apply Hno|done].
    + intros k. rewrite decide_False by apply not_elem_of_nil. by rewrite app_nil_r.
  - intros pre k post p1 -> Hg. apply NoDup_app in Hnd as (_ & Hd & _).
    assert (k ∉ pre) as Hk by (intros Hp; apply (Hd k Hp); by left).
    pose proof (cs_config _ _ (gh_step _ _ _ _ _ Hg)) as Hcfg.
    eapply wp_mono; [apply (insert_block_hash_effect p1 k l n)|].
    + by apply (same_config_blocks p).
    + apply Hg.
    + by rewrite (sc_blocks _ _ Hcfg).
    + intros ? p2 [[Ho _]|[_ Hi]]; [by apply (gh_owned _ _ _ _ _ Hg) in Ho|].
      by apply (given_hashes_snoc p pre l n p1).
Qed.

(** Every entry of [src] now leads to [dst], under the same primary hash. *)
Record moved_hashes (p : BlockPool) (src dst : loc) (p' : BlockPool) : Prop := {
  mv_step : cache_step p p';
  mv_cache : pool_cache p';
  mv_owned : forall k, (owned p' dst k <-> owned p src k) /\ ~ owned p' src k;
  mv_primary : Blocks.block_hash (at_ p' dst) = Blocks.block_hash (at_ p src) /\
               block_hash_num_tokens (at_ p' dst) = block_hash_num_tokens (at_ p src);
  mv_other : forall x, x <> src -> x <> dst -> at_ p' x = at_ p x;
  mv_locs : forall k, locs (cmap p') k = filter (fun x => x <> src) (locs (cmap p) k) ++
                      if decide (src ∈ locs (cmap p) k) then [dst] else [];
  mv_events : kv_event_queue p' = kv_event_queue p
}.

Lemma hash_list_head p l : pool_cache p -> l ∈ blocks p ->
  head (hash_list p l) = Blocks.block_hash (at_ p l) /\
  (Blocks.block_hash (at_ p l) = None -> hash_list p l = []).
Proof.
  intros Hc Hl. unfold hash_list. destruct (Blocks.block_hash (at_ p l)) as [h|] eqn:E; [done|].
  destruct (cached_block_hashes_by_block p !! block_id (at_ p l)) as [X|] eqn:EX; [|done].
  by apply (pc_sec _ Hc l X Hl) in EX as [_ ?].
Qed.

Lemma move_block_hashes_spec p src dst :
  pool_blocks p -> pool_cache p -> src ∈ blocks p -> dst ∈ blocks p -> src <> dst ->
  dst <> null_block p -> Blocks.block_hash (at_ p dst) = None ->
  wp (move_block_hashes src dst) (fun _ p' => moved_hashes p src dst p') p.
Proof.
  intros Hb Hc Hs Hd Hne Hnull Hh. unfold move_block_hashes.
  apply wp_bind, wp_gets. fold (at_ p dst). apply wp_bind, wp_assert; [by rewrite Hh|].
  apply wp_bind, wp_gets.
  destruct (cached_block_hashes_by_block p !! block_id (at_ p dst)) as [X|] eqn:EX.
  { by apply (pc_sec _ Hc dst X Hd) in EX as [_ ?]. }
  apply wp_bind, wp_assert; [done|]. apply wp_bind, wp_gets. fold (at_ p src). apply wp_bind.
  eapply wp_mono; [by apply (remove_cached_block_hashes_effect p src)|].
  intros removed p1 [-> Hr]. pose proof (removed_hashes_cache p src p1 Hb Hc Hs Hr) as Hc1.
  pose proof (removed_hashes_none p src p1) as Hnone.
  pose proof Hr as [R1 _ _ R4 _ R6 R7 _].
  pose proof (cs_config _ _ R1) as Hcfg.
  eapply wp_mono; [apply (give_hashes_spec p1 (hash_list p src) dst (block_hash_num_tokens (at_ p src)))|].
  - by apply (same_config_blocks p).
  - done.
  - by rewrite (sc_blocks _ _ Hcfg).
  - by rewrite (sc_null _ _ Hcfg).
  - by apply NoDup_hash_list.
  - rewrite R4 by done. done.
  - intros ? p2 [G1 G2 G3 G4 [G5 G6] G7 G8]. destruct (hash_list_head p src Hc Hs) as [Hhd Hnil]. split.
    + by transitivity p1.
    + done.
    + intros k. rewrite G4, elem_of_hash_list. split; [done|]. intros Ho.
      apply (Hnone k Hr Hc1 Hs). unfold owned, secondary in *. rewrite G3 in Ho by done.
      destruct Ho as [Ho|Ho]; [by left|].
      exfalso. pose proof (proj1 (pc_owned _ G2 k src)) as Hin.
      assert (src ∈ locs (cmap p2) k) as Hl2.
      { apply (pc_owned _ G2). split; [by rewrite (sc_blocks _ _ (cs_config _ _ G1)), (sc_blocks _ _ Hcfg)|].
        right. unfold secondary. by rewrite G3. }
      rewrite G7, R6, elem_of_app, list_elem_of_filter in Hl2.
      destruct Hl2 as [[? _]|Hl2]; [done|]. case_decide; [|by apply elem_of_nil in Hl2].
      apply list_elem_of_singleton in Hl2. done.
    + rewrite G5, G6, Hhd. split; [done|]. destruct (hash_list p src) as [|k ks] eqn:E; [|done].
      cbn in Hhd. symmetry. by apply (pc_num _ Hc).
    + intros x Hx1 Hx2. by rewrite G3, R4.
    + intros k. rewrite G7, R6. f_equal.
      destruct (decide (k ∈ hash_list p src)) as [Hk|Hk].
      * rewrite decide_True; [done|]. apply (pc_owned _ Hc). split; [done|]. by apply elem_of_hash_list.
      * rewrite decide_False; [done|]. intros Hin. apply Hk, elem_of_hash_list.
        by apply (pc_owned _ Hc) in Hin as [_ ?].
    + by rewrite G8.
Qed.

End InitOps.
