(* ===== verification/BlockPoolFull.v ===== *)
(** * Caching the full blocks of a request

    [cache_full_blocks]: under the pool's invariant and with enough hashes it
    never raises, registers exactly the selected blocks under the keys of their
    prefix hashes, keeps the invariant, and emits one event whose hashes and
    extra keys describe the same blocks. *)
From Stdlib Require Import ZArith QArith Lia.
From stdpp Require Import base tactics gmap strings numbers option list.
From S2P Require Import Prelude Blocks FreeQueue Request Hashing BlockMap Env Metrics BlockPool.
From S2P Require Import BlockPoolInv BlockPoolCache BlockPoolAlloc.

Local Open Scope Z_scope.

Section CacheFull.
Context `{Env}.

Abbreviation cmap := cached_block_hash_to_block.

(** ** Registering one block *)

(** The block got [key] as its primary hash. *)
Record registered (p : BlockPool) (x : loc) (key : BlockHashWithGroupId) (t : Z)
    (p' : BlockPool) : Prop := {
  rg_step : cache_step p p';
  rg_cache : pool_cache p';
  rg_other : forall y, y <> x -> at_ p' y = at_ p y;
  rg_hash : Blocks.block_hash (at_ p' x) = Some key;
  rg_num : block_hash_num_tokens (at_ p' x) = Some t
}.

(** A block is ready for a hash of [t] tokens: it has none, or a shorter one
    (a partial block promoted to a full one). *)
Definition hash_ready (p : BlockPool) (x : loc) (t : Z) : Prop :=
  match Blocks.block_hash (at_ p x) with
  | None => True
  | Some _ => exists n, block_hash_num_tokens (at_ p x) = Some n /\ n < t
  end.

Lemma unhashed_owns_nothing p x k : pool_cache p -> x ∈ blocks p ->
  Blocks.block_hash (at_ p x) = None -> ~ owned p x k.
Proof.
  intros Hc Hx Hh [Ho|Ho]; [congruence|]. unfold secondary in Ho.
  destruct (cached_block_hashes_by_block p !! block_id (at_ p x)) as [X|] eqn:E.
  - by apply (pc_sec _ Hc x X Hx) in E as [_ ?].
  - by apply elem_of_empty in Ho.
Qed.

(** Inserting into a block without a hash. *)
Lemma insert_fresh_spec p x key t : pool_blocks p -> pool_cache p -> x ∈ blocks p ->
  x <> null_block p -> Blocks.block_hash (at_ p x) = None ->
  wp (insert_block_hash key x (Some t)) (fun _ p' => registered p x key t p' /\
    kv_event_queue p' = kv_event_queue p) p.
Proof.
  intros Hb Hc Hx Hn Hh. pose proof (unhashed_owns_nothing p x key Hc Hx Hh) as Ho.
  eapply wp_mono; [by apply insert_block_hash_effect|].
  intros ? p' [[? _]|[_ Hi]]; [done|]. split; [|apply Hi].
  pose proof (inserted_hash_cache p key x (Some t) p' Hb Hc Hx Hn Ho Hi) as Hc'.
  destruct Hi as [I1 I2 I3 _ _ _ _ _]. rewrite Hh in I3. destruct I3 as (E1 & E2 & _).
  by split.
Qed.

(** Dropping an old, shorter hash. *)
Lemma drop_hashes_spec p x : pool_blocks p -> pool_cache p -> x ∈ blocks p ->
  wp (removed ← remove_cached_block_hashes x; emit_block_removed_events removed)
     (fun _ p' => evicted p x p') p.
Proof.
  intros Hb Hc Hx. apply wp_bind.
  eapply wp_mono; [by apply remove_cached_block_hashes_effect|].
  intros removed p1 [-> Hr].
  apply (removed_then_emit p x (metrics_collector p) p1 Hb Hc Hx). by destruct p.
Qed.

(** The registration step of [cache_full_blocks]. *)
Lemma register_spec p (r : Request) x key t (nh : list ExternalBlockHash) (Q : list ExternalBlockHash ->
    BlockPool * Request -> Prop) :
  pool_blocks p -> pool_cache p -> x ∈ blocks p -> x <> null_block p -> hash_ready p x t ->
  (forall p', registered p x key t p' -> Q nh (p', r)) ->
  wp ((match Blocks.block_hash (at_ p x) with
       | None => mret tt
       | Some _ =>
           assert_ (match block_hash_num_tokens (at_ p x) with
                    | Some n => n <? t | None => false end) ;;
           removed ← on_pool (remove_cached_block_hashes x);
           on_pool (emit_block_removed_events removed)
       end) ;;
      on_pool (insert_block_hash key x (Some t)) ;; mret nh) Q (p, r).
Proof.
  intros Hb Hc Hx Hn Hr HQ. apply wp_bind. unfold hash_ready in Hr.
  destruct (Blocks.block_hash (at_ p x)) as [h|] eqn:E.
  - destruct Hr as (n & En & Hlt). apply wp_bind, wp_assert; [rewrite En; by apply Z.ltb_lt|].
    apply wp_bind, wp_zoom. cbn [fst].
    eapply wp_mono; [by apply remove_cached_block_hashes_effect|]. intros removed p1 [-> Hrm].
    apply wp_zoom. cbn [fst].
    eapply wp_mono; [apply (removed_then_emit p x (metrics_collector p) p1 Hb Hc Hx); by destruct p|].
    intros ? p2 [E1 E2 E3 E4 _ _]. apply wp_bind, wp_zoom. cbn [fst snd].
    pose proof (cs_config _ _ E1) as Hcfg. eapply wp_mono; [apply insert_fresh_spec|].
    + by apply (same_config_blocks p).
    + done.
    + by rewrite (sc_blocks _ _ Hcfg).
    + by rewrite (sc_null _ _ Hcfg).
    + done.
    + intros ? p3 [[R1 R2 R3 R4 R5] _]. apply wp_ret, HQ. split; try done; [by transitivity p2|].
      intros y Hy. by rewrite R3, E4.
  - apply wp_ret, wp_bind, wp_zoom. cbn [fst snd].
    eapply wp_mono; [by apply insert_fresh_spec|]. intros ? p' [? _]. by apply wp_ret, HQ.
Qed.

(** ** The loop *)

(** The blocks the call registers: not null and not masked out. *)
Definition selected (p : BlockPool) (mask : option (list bool)) (i : nat) (x : loc) : bool :=
  negb (bool_decide (x = null_block p)) &&
  match mask with None => true | Some m => default false (m !! i) end.

(** Positions and blocks of the call, from the first one on. *)
Definition enumerate (l : list loc) : list (nat * loc) := zip (seq 0 (length l)) l.

Definition sel_pairs (p : BlockPool) (mask : option (list bool)) (l : list (nat * loc))
    : list (nat * loc) :=
  filter (fun ix => selected p mask ix.1 ix.2 = true) l.

Lemma enumerate_lookup (l : list loc) pre i x post :
  enumerate l = pre ++ (i, x) :: post -> i = length pre /\ l !! i = Some x.
Proof.
  intros E. assert (enumerate l !! length pre = Some (i, x)) as Hl.
  { rewrite E, lookup_app_r, Nat.sub_diag by lia. done. }
  unfold enumerate in Hl. apply lookup_zip_with_Some in Hl as (a & b & [= <- <-] & Ha & Hb).
  apply lookup_seq in Ha as [-> _]. done.
Qed.

Lemma py_range_enumerate (l : list loc) :
  zip (py_range 0 (zlen l)) l = (fun ix => (Z.of_nat ix.1, ix.2)) <$> enumerate l.
Proof.
  unfold py_range, enumerate, zlen, seqZ. rewrite Z.sub_0_r, Nat2Z.id.
  generalize 0%nat as s. induction l as [|x l IH]; intros s; [done|].
  cbn. f_equal; [f_equal; lia|]. apply IH.
Qed.

(** What the caller owes. *)
Record cacheable (p : BlockPool) (r : Request) (bs : list loc) (hs : list BlockHash)
    (num_cached num_full block_size gid : Z) (mask : option (list bool)) : Prop := {
  ca_range : 0 <= num_cached /\ num_cached < num_full /\ num_full <= zlen bs;
  ca_size : 0 < block_size;
  ca_blocks : forall x, x ∈ py_slice bs num_cached num_full -> x ∈ blocks p;
  ca_nodup : NoDup ((sel_pairs p mask (enumerate (py_slice bs num_cached num_full))).*2);
  ca_mask : forall m, mask = Some m -> zlen m = num_full - num_cached;
  ca_group : 0 <= gid < 2 ^ 32;
  ca_hashes : exists v, resolve_block_hashes (RawHashes (block_hashes r)) (hash_block_size p)
                block_size false None = Some v /\ bh_from v num_cached = Some hs /\
                (0 < num_cached -> is_Some (bh_index v (num_cached - 1)));
  ca_enough : num_full - num_cached <= zlen hs;
  ca_ready : forall i x, (i, x) ∈ sel_pairs p mask (enumerate (py_slice bs num_cached num_full)) ->
               hash_ready p x ((num_cached + Z.of_nat i + 1) * block_size);
  ca_mm : mm_sorted (mm_features r);
  ca_memo : memo_ok env_sha256 r
}.

(** Pair [(i, x)] is registered in [p']. *)
Definition pair_registered (hs : list BlockHash) (num_cached block_size gid : Z)
    (p' : BlockPool) (i : nat) (x : loc) : Prop :=
  exists h key, hs !! i = Some h /\ make_block_hash_with_group_id h gid = Some key /\
    Blocks.block_hash (at_ p' x) = Some key /\
    block_hash_num_tokens (at_ p' x) = Some ((num_cached + Z.of_nat i + 1) * block_size).

Definition ext_hash (h : BlockHash) : ExternalBlockHash :=
  maybe_convert_block_hash use_int_block_hashes h.

(** The state after the pairs [pre]. *)
Record caching (p : BlockPool) (r : Request) (hs : list BlockHash)
    (num_cached block_size gid : Z) (mask : option (list bool)) (pre : list (nat * loc))
    (new_hashes : list ExternalBlockHash) (s : BlockPool * Request) : Prop := {
  cg_req : s.2 = r;
  cg_step : cache_step p s.1;
  cg_cache : pool_cache s.1;
  cg_done : forall i x, (i, x) ∈ sel_pairs p mask pre ->
              pair_registered hs num_cached block_size gid s.1 i x;
  cg_other : forall x, x ∉ (sel_pairs p mask pre).*2 -> at_ s.1 x = at_ p x;
  cg_new : new_hashes = if enable_kv_cache_events p
                        then omap (fun ix => ext_hash <$> hs !! ix.1) (sel_pairs p mask pre)
                        else []
}.

Lemma caching_skip p r hs nc bsz gid mask pre nh s i x :
  selected p mask i x = false -> caching p r hs nc bsz gid mask pre nh s ->
  caching p r hs nc bsz gid mask (pre ++ [(i, x)]) nh s.
Proof.
  intros Hs [C1 C2 C3 C4 C5 C6].
  assert (sel_pairs p mask (pre ++ [(i, x)]) = sel_pairs p mask pre) as E.
  { unfold sel_pairs. rewrite filter_app, (filter_cons_False _ _ []) by (cbn; by rewrite Hs).
    apply app_nil_r. }
  by split; rewrite ?E.
Qed.

Lemma caching_step p r hs nc bsz gid mask pre nh s i x h key p' :
  selected p mask i x = true -> hs !! i = Some h ->
  make_block_hash_with_group_id h gid = Some key ->
  x ∉ (sel_pairs p mask pre).*2 ->
  caching p r hs nc bsz gid mask pre nh s ->
  registered s.1 x key ((nc + Z.of_nat i + 1) * bsz) p' ->
  caching p r hs nc bsz gid mask (pre ++ [(i, x)])
    (if enable_kv_cache_events p then nh ++ [ext_hash h] else nh) (p', s.2).
Proof.
  intros Hs Hh Hk Hx [C1 C2 C3 C4 C5 C6] [R1 R2 R3 R4 R5].
  assert (sel_pairs p mask (pre ++ [(i, x)]) = sel_pairs p mask pre ++ [(i, x)]) as E.
  { unfold sel_pairs. by rewrite filter_app, (filter_cons_True _ _ []). }
  split; rewrite ?E; cbn.
  - done.
  - by transitivity s.1.
  - done.
  - intros j y [Hy|Hy]%elem_of_app.
    + assert (y <> x) as Hne.
      { intros ->. apply Hx. apply list_elem_of_fmap. by exists (j, x). }
      destruct (C4 j y Hy) as (h' & k' & ? & ? & ? & ?). exists h', k'. by rewrite !R3.
    + apply list_elem_of_singleton in Hy as [= -> ->]. by exists h, key.
  - intros y. rewrite fmap_app, elem_of_app. cbn. rewrite list_elem_of_singleton. intros Hy.
    rewrite R3, C5 by tauto. done.
  - rewrite C6. destruct (enable_kv_cache_events p); [|done].
    rewrite omap_app. cbn. by rewrite Hh.
Qed.

Lemma selected_not_null p mask i x : selected p mask i x = true -> x <> null_block p.
Proof. unfold selected. by case_bool_decide. Qed.

(** The guard of the loop computes [selected]. *)
Lemma skip_spec p p' (r : Request) mask i x :
  pool_blocks p -> cache_step p p' -> x ∈ blocks p ->
  (forall m, mask = Some m -> (i < length m)%nat) ->
  (if is_null (at_ p' x) then mret true
   else of_option IndexError (masked_out mask (Z.of_nat i))) (p', r) =
  Ok (negb (selected p mask i x)) (p', r).
Proof.
  intros Hb Hs Hx Hm. rewrite (sc_isnull _ _ (cs_config _ _ Hs)), (pb_isnull _ Hb x Hx).
  unfold selected. case_bool_decide; [done|]. cbn. unfold masked_out.
  destruct mask as [m|]; [|done]. rewrite py_index_nonneg, Nat2Z.id by lia.
  destruct (lookup_lt_is_Some_2 m i) as [b Hb']; [by apply Hm|]. by rewrite Hb'.
Qed.

(** A selected pair is a position of the slice. *)
Lemma sel_pairs_slice p mask (l : list loc) i x :
  (i, x) ∈ sel_pairs p mask (enumerate l) -> x ∈ l.
Proof.
  unfold sel_pairs. intros [_ (l1 & l2 & Hl)%list_elem_of_split]%list_elem_of_filter.
  apply enumerate_lookup in Hl as [_ Hl]. by eapply list_elem_of_lookup_2.
Qed.

Lemma sel_pairs_app p mask l k : sel_pairs p mask (l ++ k) = sel_pairs p mask l ++ sel_pairs p mask k.
Proof. apply filter_app. Qed.

Lemma cache_loop_spec p r free bs hs nc nf bsz gid mask :
  pool_wf p free -> cacheable p r bs hs nc nf bsz gid mask ->
  wp (fold_m (fun new_hashes '(i, blk) =>
    b ← on_pool (pblk blk);
    skip ← (if is_null b then mret true
            else of_option IndexError (masked_out mask i));
    if (skip : bool) then mret new_hashes else
    block_hash ← of_option IndexError (py_index hs i);
    let num_hash_tokens := (nc + i + 1) * bsz in
    key ← of_option OverflowError (make_block_hash_with_group_id block_hash gid);
    (match Blocks.block_hash b with
     | None => mret tt
     | Some _ =>
         assert_ (match block_hash_num_tokens b with
                  | Some n => n <? num_hash_tokens | None => false end) ;;
         removed ← on_pool (remove_cached_block_hashes blk);
         on_pool (emit_block_removed_events removed)
     end) ;;
    on_pool (insert_block_hash key blk (Some num_hash_tokens)) ;;
    mret (if enable_kv_cache_events p
          then new_hashes ++ [maybe_convert_block_hash use_int_block_hashes block_hash]
          else new_hashes)) []
    (zip (py_range 0 (zlen (py_slice bs nc nf))) (py_slice bs nc nf)))
  (fun nh s => caching p r hs nc bsz gid mask (enumerate (py_slice bs nc nf)) nh s) (p, r).
Proof.
  intros [Hb Ha Hc] [Hrng Hsz Hbl Hnd Hmask Hgid _ Hen Hready _ _].
  set (nfb := py_slice bs nc nf) in *.
  assert (zlen nfb = nf - nc) as Hlen.
  { unfold nfb. rewrite py_slice_prefix by lia. unfold zlen in *.
    rewrite length_take, length_drop. lia. }
  rewrite py_range_enumerate. apply wp_fold_m_fmap. cbn [fst snd].
  apply (wp_fold_m (fun pre nh s => caching p r hs nc bsz gid mask pre nh s)).
  { split; try done.
    - intros i x Hin. by apply elem_of_nil in Hin.
    - cbn. by destruct (enable_kv_cache_events p). }
  intros pre [i x] post nh [p1 r1] Hpre Hcg.
  destruct (enumerate_lookup nfb pre i x post Hpre) as [Hi Hx].
  pose proof (list_elem_of_lookup_2 _ _ _ Hx) as Hxn. apply Hbl in Hxn.
  apply lookup_lt_Some in Hx as Hil. unfold zlen in Hlen.
  pose proof (cg_step _ _ _ _ _ _ _ _ _ _ Hcg) as Hst. cbn in Hst.
  apply wp_bind, wp_zoom, wp_gets. cbn [fst snd]. fold (at_ p1 x). apply wp_bind.
  eapply wp_intro; [apply (skip_spec p p1 r1 mask i x Hb Hst Hxn)|].
  { intros m Hm. specialize (Hmask m Hm). unfold zlen in Hmask. lia. }
  destruct (selected p mask i x) eqn:Es; cbn [negb]; [|apply wp_ret; by apply caching_skip].
  unfold zlen in Hen. destruct (lookup_lt_is_Some_2 hs i) as [h Hh]; [lia|].
  apply wp_bind. apply (wp_of_option _ _ _ _ h); [by rewrite py_index_nonneg, Nat2Z.id by lia|].
  destruct (make_block_hash_total h gid Hgid) as [key Hk].
  apply wp_bind. apply (wp_of_option _ _ _ _ key); [done|].
  assert (x ∉ (sel_pairs p mask pre).*2) as Hxpre.
  { rewrite Hpre, sel_pairs_app, fmap_app in Hnd. apply NoDup_app in Hnd as (_ & Hd & _).
    intros Hin. apply (Hd x Hin). unfold sel_pairs at 1. rewrite filter_cons_True by done. by left. }
  pose proof (cs_config _ _ Hst) as Hcfg.
  apply register_spec.
  - by apply (same_config_blocks p).
  - apply Hcg.
  - by rewrite (sc_blocks _ _ Hcfg).
  - rewrite (sc_null _ _ Hcfg). by eapply selected_not_null.
  - pose proof (cg_other _ _ _ _ _ _ _ _ _ _ Hcg x Hxpre) as Hat. cbn in Hat.
    unfold hash_ready. rewrite Hat. apply Hready.
    rewrite Hpre, sel_pairs_app, elem_of_app. right. unfold sel_pairs.
    rewrite filter_cons_True by done. by left.
  - intros p' Hreg. by apply (caching_step p r hs nc bsz gid mask pre nh (p1, r1) i x h key p').
Qed.

(** ** The event *)

Definition block_keys (r : Request) (bsz nc : Z) (ix : nat * loc) : option (list ExtraKey) :=
  extra_keys_spec env_sha256 r ((nc + Z.of_nat ix.1) * bsz) ((nc + Z.of_nat ix.1) * bsz + bsz).

(** Extra keys are collected for the selected blocks, in order. *)
Definition collecting (r : Request) (p : BlockPool) (bsz nc : Z) (mask : option (list bool))
    (pre : list (nat * loc)) (acc : list (option (list ExtraKey)) * Z) (s : BlockPool * Request) : Prop :=
  s.1 = p /\ same_but_memo r s.2 /\ memo_ok env_sha256 s.2 /\
  acc.1 = block_keys r bsz nc <$> sel_pairs p mask pre /\
  cursor_ready (mm_features r) acc.2 ((nc + Z.of_nat (length pre)) * bsz).

Lemma py_range_offset (l : list loc) nc nf : zlen l = nf - nc ->
  py_range nc nf = (fun ix => nc + Z.of_nat ix.1) <$> enumerate l.
Proof.
  intros Hl. unfold py_range, enumerate, seqZ. rewrite <- Hl. unfold zlen. rewrite Nat2Z.id.
  change (fun ix : nat * loc => nc + Z.of_nat ix.1) with ((fun i => nc + Z.of_nat i) ∘ (fst : nat * loc -> nat)).
  rewrite list_fmap_compose, fst_zip by (rewrite length_seq; lia).
  apply list_fmap_ext. intros ? x _. lia.
Qed.

Lemma collect_step p r bs nc nf bsz mask pre i x post acc s :
  pool_blocks p -> 0 <= nc -> nf <= zlen bs -> nc < nf -> 0 < bsz ->
  (forall y, y ∈ py_slice bs nc nf -> y ∈ blocks p) ->
  (forall m, mask = Some m -> zlen m = nf - nc) ->
  mm_sorted (mm_features r) ->
  enumerate (py_slice bs nc nf) = pre ++ (i, x) :: post ->
  collecting r p bsz nc mask pre acc s ->
  wp (let '(keys, curr_mm_idx) := acc in
      sk ← (blk ← of_option IndexError (py_index bs (nc + Z.of_nat i));
            b ← on_pool (pblk blk);
            if is_null b then mret true
            else of_option IndexError (masked_out mask (nc + Z.of_nat i - nc)));
      if (sk : bool) then mret (keys, curr_mm_idx) else
      let block_start := (nc + Z.of_nat i) * bsz in
      let block_end := block_start + bsz in
      '(extra_keys, idx) ← on_request
        (generate_block_hash_extra_keys env_sha256 block_start block_end curr_mm_idx);
      mret (keys ++ [extra_keys], idx))
    (fun acc' s' => collecting r p bsz nc mask (pre ++ [(i, x)]) acc' s') s.
Proof.
  intros Hb Hnc Hnf Hlt Hsz Hbl Hmask Hmm Hpre (Hp & Hsame & Hmemo & Hkeys & Hcur).
  destruct acc as [keys cur], s as [p1 r1]. cbn in Hp, Hsame, Hmemo, Hkeys, Hcur. subst p1.
  destruct (enumerate_lookup _ pre i x post Hpre) as [Hi Hx].
  pose proof (list_elem_of_lookup_2 _ _ _ Hx) as Hxn. apply Hbl in Hxn.
  pose proof (lookup_lt_Some _ _ _ Hx) as Hil.
  rewrite py_slice_prefix in Hx, Hil by lia. rewrite length_take, length_drop in Hil.
  rewrite lookup_take_lt, lookup_drop in Hx by lia.
  apply (wp_bind_intro _ _ _ _ (negb (selected p mask i x)) (p, r1)).
  { rewrite py_index_nonneg by lia. unfold mbind, M_bind.
    replace (Z.to_nat (nc + Z.of_nat i)) with (Z.to_nat nc + i)%nat by lia. rewrite Hx.
    replace (nc + Z.of_nat i - nc) with (Z.of_nat i) by lia.
    apply (skip_spec p p r1 mask i x); [done|reflexivity|done|].
    intros m Hm. specialize (Hmask m Hm). unfold zlen in Hmask. lia. }
  destruct (same_but_memo_fields r r1 Hsame) as (Hf & _).
  replace (nc + Z.of_nat (length pre)) with (nc + Z.of_nat i) in Hcur by lia.
  unfold collecting. rewrite length_app, sel_pairs_app, fmap_app. cbn [length fst snd].
  destruct (selected p mask i x) eqn:Es; cbn [negb].
  - destruct (generate_extra_keys_spec env_sha256 ((nc + Z.of_nat i) * bsz)
      ((nc + Z.of_nat i) * bsz + bsz) cur r1) as (idx & r2 & E & Hs2 & Hm2 & Hc2);
      rewrite ?Hf; [done|done|lia|done|].
    apply (wp_bind_intro _ _ _ _ (extra_keys_spec env_sha256 r1 ((nc + Z.of_nat i) * bsz)
      ((nc + Z.of_nat i) * bsz + bsz), idx) (p, r2)).
    { unfold on_request, zoom. cbn [snd fst]. by rewrite E. }
    apply wp_ret. cbn [fst snd]. split_and!; [done| |done| |].
    + unfold same_but_memo in *. rewrite Hs2, Hsame. done.
    + rewrite Hkeys. f_equal. unfold sel_pairs. rewrite filter_cons_True by done. cbn.
      unfold block_keys. cbn. by rewrite (extra_keys_spec_memo env_sha256 r r1).
    + rewrite Hf in Hc2. replace ((nc + Z.of_nat (length pre + 1)) * bsz)
        with ((nc + Z.of_nat i) * bsz + bsz) by lia. done.
  - apply wp_ret. cbn [fst snd]. split_and!; [done|done|done| |].
    + unfold sel_pairs at 2. rewrite filter_cons_False by (cbn; by rewrite Es).
      cbn. by rewrite app_nil_r.
    + eapply cursor_ready_mono; [|exact Hcur]. nia.
Qed.

Lemma collect_extra_keys_spec p r bs nc nf bsz mask :
  pool_blocks p -> 0 <= nc -> nf <= zlen bs -> nc < nf -> 0 < bsz ->
  (forall y, y ∈ py_slice bs nc nf -> y ∈ blocks p) ->
  (forall m, mask = Some m -> zlen m = nf - nc) ->
  mm_sorted (mm_features r) -> memo_ok env_sha256 r ->
  wp (collect_extra_keys bsz (py_range nc nf) (fun i =>
        blk ← of_option IndexError (py_index bs i);
        b ← on_pool (pblk blk);
        if is_null b then mret true
        else of_option IndexError (masked_out mask (i - nc))))
     (fun keys s => s.1 = p /\ same_but_memo r s.2 /\ memo_ok env_sha256 s.2 /\
        keys = block_keys r bsz nc <$> sel_pairs p mask (enumerate (py_slice bs nc nf))) (p, r).
Proof.
  intros Hb Hnc Hnf Hlt Hsz Hbl Hmask Hmm Hmemo. unfold collect_extra_keys.
  rewrite (py_range_offset (py_slice bs nc nf)).
  2: { rewrite py_slice_prefix by lia. unfold zlen in *. rewrite length_take, length_drop. lia. }
  apply wp_bind, wp_fold_m_fmap.
  eapply wp_mono; [apply (wp_fold_m (fun pre acc s => collecting r p bsz nc mask pre acc s))|].
  - split_and!; [done|by destruct r|done|done|]. right; left.
    split; [pose proof (zlen_nonneg (mm_features r)); cbn; lia|constructor].
  - intros pre [i x] post acc s Hpre Hcol. cbn [fst].
    destruct acc as [keys cur].
    by apply (collect_step p r bs nc nf bsz mask pre i x post (keys, cur) s).
  - intros [keys idx] s (H1 & H2 & H3 & H4 & _). by apply wp_ret.
Qed.

(** What [cache_full_blocks] does. *)
Record cached_full (p : BlockPool) (r : Request) (free bs : list loc) (hs : list BlockHash)
    (nc nf bsz gid : Z) (mask : option (list bool)) (s : BlockPool * Request) : Prop := {
  cf_wf : pool_wf s.1 free;
  cf_step : cache_step p s.1;
  cf_done : forall i x, (i, x) ∈ sel_pairs p mask (enumerate (py_slice bs nc nf)) ->
              pair_registered hs nc bsz gid s.1 i x;
  cf_other : forall x, x ∉ (sel_pairs p mask (enumerate (py_slice bs nc nf))).*2 ->
              at_ s.1 x = at_ p x;
  cf_req : same_but_memo r s.2 /\ memo_ok env_sha256 s.2;
  cf_event : enable_kv_cache_events p = true -> exists before ev,
    kv_event_queue s.1 = before ++ [EvStored ev] /\
    bs_block_hashes ev = Some (omap (fun ix => ext_hash <$> hs !! ix.1)
      (sel_pairs p mask (enumerate (py_slice bs nc nf)))) /\
    default [] (bs_extra_keys ev) =
      block_keys r bsz nc <$> sel_pairs p mask (enumerate (py_slice bs nc nf)) /\
    bs_token_ids ev = py_slice (all_token_ids r) (nc * bsz) (nf * bsz)
}.

Lemma cache_full_blocks_spec p r free bs hs nc nf bsz gid mask :
  pool_wf p free -> cacheable p r bs hs nc nf bsz gid mask ->
  wp (cache_full_blocks bs nc nf bsz gid mask)
     (fun _ s => cached_full p r free bs hs nc nf bsz gid mask s) (p, r).
Proof.
  intros Hwf Hca. pose proof Hwf as [Hb Ha Hc].
  pose proof Hca as [Hrng Hsz Hbl Hnd Hmask Hgid (v & Hv & Hfrom & Hpar) Hen Hready Hmm Hmemo].
  unfold cache_full_blocks. rewrite (proj2 (Z.leb_gt nf nc)) by lia.
  apply wp_bind, wp_assert.
  { destruct mask as [m|]; [|done]. apply Z.eqb_eq. rewrite (Hmask m eq_refl).
    rewrite py_slice_prefix by lia. unfold zlen in *. rewrite length_take, length_drop. lia. }
  apply wp_bind, wp_zoom, wp_gets. cbn [fst snd]. apply wp_bind, wp_zoom, wp_get. cbn [fst snd].
  apply wp_bind. apply (wp_of_option _ _ _ _ v); [done|].
  apply wp_bind. apply (wp_of_option _ _ _ _ hs); [done|].
  apply wp_bind, wp_zoom, wp_gets. cbn [fst snd]. apply wp_bind.
  eapply wp_mono; [by apply (cache_loop_spec p r free bs hs nc nf bsz gid mask)|].
  intros nh [p1 r1] [C1 C2 C3 C4 C5 C6]. cbn in C1, C2, C3, C4, C5, C6. subst r1.
  assert (pool_wf p1 free) as Hwf1.
  { split; [by apply (same_config_blocks p), Hb; apply C2|by apply (cache_step_alloc p)|done]. }
  pose proof (cs_config _ _ C2) as Hcfg.
  apply wp_when; intros Ee.
  2: { split; try done; [by destruct r|]. intros Et. congruence. }
  assert (sel_pairs p1 mask = sel_pairs p mask) as Hsel.
  { unfold sel_pairs, selected. by rewrite (sc_null _ _ Hcfg). }
  apply wp_bind.
  eapply wp_mono with (Q := fun _ s => s = (p1, r)).
  { destruct (Z.eqb_spec nc 0) as [->|Hne]; [by apply wp_ret|].
    destruct Hpar as [h Hh]; [lia|]. apply wp_bind. by apply (wp_of_option _ _ _ _ h). }
  intros par s ->. apply wp_bind.
  eapply wp_mono; [apply (collect_extra_keys_spec p1 r bs nc nf bsz mask)|]; try lia; try done.
  { apply Hwf1. } { intros y Hy. rewrite (sc_blocks _ _ Hcfg). by apply Hbl. }
  intros keys [p2 r2] (Hp2 & Hs2 & Hm2 & Hk). cbn in Hp2, Hs2, Hm2. subst p2.
  apply wp_bind, wp_zoom, wp_get, wp_zoom, wp_modify. cbn [fst snd].
  rewrite Hsel in Hk. split; cbn [fst snd].
  - destruct Hwf1 as [W1 W2 W3]. split; [by apply (same_config_blocks p1)|by apply (cache_step_alloc p1)|].
    by apply (quiet_cache p1).
  - transitivity p1; [done|by apply quiet_cache_step].
  - done.
  - done.
  - done.
  - intros _. eexists _, _. split_and!; [reflexivity| | |]; cbn.
    + by rewrite C6, Ee.
    + rewrite <- Hk. by destruct keys.
    + by destruct (same_but_memo_fields r r2 Hs2) as (_ & -> & _).
Qed.

(** ** [cache_partial_block] *)

(** What the caller owes: the boundary is hashed, lies inside the block unless
    its contents were replaced, and the block belongs to the pool. *)
Record partial_ok (p : BlockPool) (r : Request) (x : loc) (nt gid bsz : Z) (replace : bool)
    (h : BlockHash) : Prop := {
  po_block : x ∈ blocks p;
  po_live : x <> null_block p;
  po_hbs : 0 < hash_block_size p;
  po_div : bsz mod hash_block_size p = 0;
  po_inside : replace = false -> hash_block_size p < bsz /\ nt mod bsz <> 0;
  po_aligned : nt mod hash_block_size p = 0;
  po_hash : 0 < nt / hash_block_size p /\
            block_hashes r !! Z.to_nat (nt / hash_block_size p - 1) = Some h;
  po_group : 0 <= gid < 2 ^ 32;
  po_mm : mm_sorted (mm_features r) /\ memo_ok env_sha256 r /\
          only_last_open r ((nt / hash_block_size p - 1) * hash_block_size p)
}.

(** The entry is present: the block owns the key; the other blocks are as
    before. *)
Record partial_cached (p : BlockPool) (x : loc) (key : BlockHashWithGroupId) (t : Z) (p' : BlockPool)
    : Prop := {
  pt_step : cache_step p p';
  pt_cache : pool_cache p';
  pt_owned : owned p' x key;
  pt_other : forall y, y <> x -> at_ p' y = at_ p y;
  pt_ready : forall t', t < t' -> hash_ready p x t' -> hash_ready p' x t'
}.

Lemma insert_partial p x key t : pool_blocks p -> pool_cache p -> x ∈ blocks p ->
  x <> null_block p ->
  wp (insert_block_hash key x (Some t)) (fun _ p' => partial_cached p x key t p') p.
Proof.
  intros Hb Hc Hx Hn. eapply wp_mono; [by apply insert_block_hash_effect|].
  intros ? p' [[Ho ->]|[Ho Hi]]; [by split|].
  pose proof (inserted_hash_cache p key x (Some t) p' Hb Hc Hx Hn Ho Hi) as Hc'.
  pose proof (inserted_hash_secondary p key x (Some t) p' Hc Hx Hi key) as Hown.
  destruct Hi as [I1 I2 I3 _ _ _ _ _]. split; [done|done| |done|]; [apply Hown; by right|].
  intros t' Ht. unfold hash_ready. destruct (Blocks.block_hash (at_ p x)) eqn:E.
  - destruct I3 as [-> _]. by rewrite E.
  - destruct I3 as (-> & -> & _). intros _. by exists t.
Qed.

Lemma partial_after_drop p x key t p1 :
  pool_blocks p -> x ∈ blocks p -> x <> null_block p -> evicted p x p1 ->
  wp (insert_block_hash key x (Some t)) (fun _ p' => partial_cached p x key t p') p1.
Proof.
  intros Hb Hx Hn [E1 E2 E3 E4 _ _]. pose proof (cs_config _ _ E1) as Hcfg.
  eapply wp_mono; [apply insert_partial|].
  - by apply (same_config_blocks p).
  - done.
  - by rewrite (sc_blocks _ _ Hcfg).
  - by rewrite (sc_null _ _ Hcfg).
  - intros ? p' [P1 P2 P3 P4 P5]. split; [by transitivity p1|done|done| |].
    + intros y Hy. by rewrite P4, E4.
    + intros t' Ht _. apply P5; [done|]. unfold hash_ready. by rewrite E3.
Qed.

Lemma partial_insert_spec (p : BlockPool) (r : Request) x key t (drop : bool) :
  pool_blocks p -> pool_cache p -> x ∈ blocks p -> x <> null_block p ->
  wp (when drop (removed ← on_pool (remove_cached_block_hashes x);
                 on_pool (emit_block_removed_events removed)) ;;
      on_pool (insert_block_hash key x (Some t)))
     (fun _ s => partial_cached p x key t s.1 /\ s.2 = r) (p, r).
Proof.
  intros Hb Hc Hx Hn. apply wp_bind, wp_when; intros _.
  - apply wp_bind, wp_zoom. cbn [fst].
    eapply wp_mono; [by apply remove_cached_block_hashes_effect|]. intros removed p1 [-> Hrm].
    apply wp_zoom. cbn [fst].
    eapply wp_mono; [apply (removed_then_emit p x (metrics_collector p) p1 Hb Hc Hx); by destruct p|].
    intros ? p2 He. apply wp_zoom. cbn [fst snd].
    eapply wp_mono; [by apply (partial_after_drop p x key t p2)|]. done.
  - apply wp_zoom. cbn [fst snd]. eapply wp_mono; [by apply insert_partial|]. done.
Qed.

(** What [cache_partial_block] does. *)
Lemma cache_partial_block_spec p r free x nt gid bsz replace h :
  pool_wf p free -> partial_ok p r x nt gid bsz replace h ->
  wp (cache_partial_block x nt gid bsz replace)
     (fun k s => exists key, make_block_hash_with_group_id h gid = Some key /\ k = Some key /\
        pool_wf s.1 free /\ partial_cached p x key nt s.1 /\ same_but_memo r s.2 /\ memo_ok env_sha256 s.2) (p, r).
Proof.
  intros Hwf [Hx Hn Hhbs Hdiv Hin Hal [Hpos Hh] Hgid (Hmm & Hmemo & Hopen)].
  pose proof Hwf as [Hb Ha Hc].
  unfold cache_partial_block. apply wp_bind, wp_zoom, wp_gets. cbn [fst snd]. fold (at_ p x).
  rewrite (pb_isnull _ Hb x Hx), bool_decide_eq_false_2 by done.
  apply wp_bind, wp_zoom, wp_gets. cbn [fst snd].
  apply wp_bind, wp_assert; [by rewrite Hdiv|].
  apply wp_bind, wp_assert.
  { destruct replace; [done|]. destruct (Hin eq_refl) as [H1 H2]. cbn.
    rewrite (proj2 (Z.ltb_lt _ _) H1), (proj2 (Z.eqb_neq _ _) H2). done. }
  pose proof (lookup_lt_Some _ _ _ Hh) as Hlt.
  apply (wp_bind_intro _ _ _ _ h (p, r)).
  { unfold get_partial_block_hash, on_pool, on_request, zoom, gets, get, mbind, M_bind. cbn.
    rewrite Hal. cbn. rewrite (proj2 (Z.ltb_lt _ _) Hpos). unfold assert_.
    rewrite (proj2 (Z.leb_le _ _)) by (unfold zlen; lia). cbn.
    rewrite py_index_nonneg by lia. by rewrite Hh. }
  destruct (make_block_hash_total h gid Hgid) as [key Hk].
  apply wp_bind. apply (wp_of_option _ _ _ _ key); [done|].
  apply wp_bind, wp_zoom, wp_get. cbn [fst snd].
  set (cached := bool_decide _ || contain _ _ _ _).
  set (shorter := negb cached && _).
  assert (nt / hash_block_size p * hash_block_size p = nt) as Et
    by (pose proof (Z.div_mod nt (hash_block_size p)); lia).
  set (t := nt / hash_block_size p * hash_block_size p) in *.
  apply wp_bind.
  assert (wp (if replace then
                removed ← on_pool (remove_cached_block_hashes x);
                on_pool (emit_block_removed_events removed)
              else when shorter (removed ← on_pool (remove_cached_block_hashes x);
                                 on_pool (emit_block_removed_events removed)))
             (fun _ s => wp (on_pool (insert_block_hash key x (Some t)))
                (fun _ s => partial_cached p x key t s.1 /\ s.2 = r) s) (p, r)) as Hins.
  { destruct replace.
    - apply wp_bind_inv, (partial_insert_spec p r x key t true Hb Hc Hx Hn).
    - apply wp_bind_inv, (partial_insert_spec p r x key t shorter Hb Hc Hx Hn). }
  eapply wp_mono; [exact Hins|]. clear Hins. intros ? s1 Hins. apply wp_bind.
  eapply wp_mono; [exact Hins|]. intros ? [p2 r2] [Hpc Hr2]. cbn in Hpc, Hr2. subst r2.
  rewrite Et in Hpc. pose proof (cs_config _ _ (pt_step _ _ _ _ _ Hpc)) as Hcfg.
  assert (pool_wf p2 free) as Hwf2.
  { split; [by apply (same_config_blocks p)|by apply (cache_step_alloc p), Ha; apply Hpc|apply Hpc]. }
  apply wp_bind, wp_zoom, wp_gets. cbn [fst snd]. apply wp_bind.
  eapply wp_mono with (Q := fun _ s => pool_wf s.1 free /\ partial_cached p x key nt s.1 /\ same_but_memo r s.2 /\ memo_ok env_sha256 s.2).
  2: { intros ? s (H1 & H2 & H3 & H4). apply wp_ret. by exists key. }
  apply wp_when; intros _; [|split_and!; [done|done|by destruct r|done]].
  destruct (generate_extra_keys_spec env_sha256 ((nt / hash_block_size p - 1) * hash_block_size p) nt
    (if 0 <? (nt / hash_block_size p - 1) * hash_block_size p then -1 else 0) r)
    as (idx & r3 & Eg & Hs3 & Hm3 & _); [done|done| | |].
  { pose proof (Z.div_mod nt (hash_block_size p)). lia. }
  { destruct (0 <? _) eqn:E0; [by apply only_last_open_cursor|].
    right; left. split; [pose proof (zlen_nonneg (mm_features r)); lia|constructor]. }
  assert (exists ph, get_partial_block_parent_hash_and_start nt (p2, r) =
    Ok (ph, (nt / hash_block_size p - 1) * hash_block_size p) (p2, r)) as [ph Eph].
  { unfold get_partial_block_parent_hash_and_start, on_pool, on_request, zoom, gets, get, mbind, M_bind.
    cbn. rewrite (sc_hbs _ _ Hcfg).
    destruct (Z.ltb_spec 1 (nt / hash_block_size p)) as [H1|H1]; [|by eexists].
    rewrite py_index_nonneg by lia.
    destruct (lookup_lt_is_Some_2 (block_hashes r) (Z.to_nat (nt / hash_block_size p - 2))) as [h2 ->]; [lia|].
    by eexists. }
  apply (wp_bind_intro _ _ _ _ _ _ Eph). cbv beta iota.
  eapply (wp_bind_intro _ _ _ _ (_, idx) (p2, r3)).
  { unfold on_request, zoom. cbn [fst snd]. rewrite Eg. reflexivity. }
  apply wp_bind, wp_zoom, wp_get, wp_zoom, wp_modify. cbn [fst snd].
  destruct Hwf2 as [W1 W2 W3], Hpc as [P1 P2 P3 P4 P5]. split_and!; [..|done|done].
  - split; [by apply (same_config_blocks p2)|by apply (cache_step_alloc p2)|by apply (quiet_cache p2)].
  - split; [transitivity p2; [done|by apply quiet_cache_step]|by apply (quiet_cache p2)|done|done|done].
Qed.

End CacheFull.
