(* ===== verification/BlockPoolSpec.v ===== *)
(** * What the block pool guarantees

    The theorems on [BlockPool]: its constructor, its invariant over every run
    of client calls, and the effect of each operation. *)
From Stdlib Require Import ZArith QArith Lia.
From stdpp Require Import base tactics gmap strings numbers option list relations.
From S2P Require Import Prelude Blocks FreeQueue Request Hashing BlockMap Env Metrics BlockPool.
From S2P Require Import BlockPoolInv BlockPoolCache BlockPoolAlloc BlockPoolInit BlockPoolFull.

Local Open Scope Z_scope.

Section PoolSpec.
Context `{Env}.

Abbreviation cmap := cached_block_hash_to_block.
Abbreviation refs p l := (ref_cnt (at_ p l)).

(** ** Runs of client calls *)

(** One call of a client that keeps its side of the contract: it touches and
    frees blocks of the pool, frees no more references than there are, moves
    hashes to an unhashed block, and caches blocks whose hashes exist. *)
Inductive pool_step (p : BlockPool) : BlockPool -> Prop :=
| step_get_new_blocks n r p' :
    0 <= n -> get_new_blocks n p = Ok r p' -> pool_step p p'
| step_get_new_blocks_fails n e p' :
    0 <= n -> get_new_blocks n p = Raise e p' -> pool_step p p'
| step_touch bs p' :
    (forall x, x ∈ bs -> x ∈ blocks p) -> touch bs p = Ok tt p' -> pool_step p p'
| step_free_blocks bs p' :
    (forall x, x ∈ bs -> x ∈ blocks p) ->
    (forall x, x ∈ bs -> x <> null_block p -> occ x bs <= refs p x) ->
    free_blocks bs p = Ok tt p' -> pool_step p p'
| step_evict_blocks ids p' :
    Forall (fun id => 0 <= id < num_gpu_blocks p) ids ->
    evict_blocks ids p = Ok tt p' -> pool_step p p'
| step_reset b p' :
    reset_prefix_cache p = Ok b p' -> pool_step p p'
| step_move src dst p' :
    src ∈ blocks p -> dst ∈ blocks p -> src <> dst -> dst <> null_block p ->
    Blocks.block_hash (at_ p dst) = None ->
    move_block_hashes src dst p = Ok tt p' -> pool_step p p'
| step_cache_full bs hs nc nf bsz gid mask r p' r' :
    cacheable p r bs hs nc nf bsz gid mask ->
    cache_full_blocks bs nc nf bsz gid mask (p, r) = Ok tt (p', r') -> pool_step p p'
| step_cache_partial x nt gid bsz replace h r k p' r' :
    partial_ok p r x nt gid bsz replace h ->
    cache_partial_block x nt gid bsz replace (p, r) = Ok k (p', r') -> pool_step p p'
| step_take_events es p' :
    take_events p = Ok es p' -> pool_step p p'.

Lemma cache_step_wf p p' free : pool_wf p free -> cache_step p p' -> pool_cache p' -> pool_wf p' free.
Proof.
  intros [Hb Ha _] Hs Hc. split; [|by apply (cache_step_alloc p)|done].
  apply (same_config_blocks p), Hb. apply Hs.
Qed.

(** A verified call's result is the one that was observed. *)
Lemma wp_result {S A} (m : M S A) Q s a s' : wp m Q s -> m s = Ok a s' -> Q a s'.
Proof. unfold wp. by intros Hw E; rewrite E in Hw. Qed.

Lemma pool_step_config p p' free : pool_wf p free -> pool_step p p' ->
  exists free', pool_wf p' free' /\ same_config p p'.
Proof.
  intros Hwf Hs. pose proof Hwf as [Hb Ha Hc].
  destruct Hs as [n r p' Hn E|n e p' Hn E|bs p' Hbs E|bs p' Hbs Hocc E|ids p' Hids E|b p' E
    |src dst p' H1 H2 H3 H4 H5 E|bs hs nc nf bsz gid mask r p' r' Hca E
    |x nt gid bsz rep h r k p' r' Hpo E|es p' E].
  - destruct (Z.le_gt_cases n (zlen free)) as [Hle|Hgt].
    + rewrite <- (take_drop (Z.to_nat n) free) in Hwf.
      pose proof (get_new_blocks_spec p _ _ Hwf) as Hw.
      replace (zlen (take (Z.to_nat n) free)) with n in Hw
        by (unfold zlen in *; rewrite length_take; lia).
      destruct (wp_result _ _ _ _ _ Hw E) as [_ [G1 G2 _ _ _ _]]. by exists (drop (Z.to_nat n) free).
    + by rewrite (get_new_blocks_insufficient p free n Hwf Hgt) in E.
  - exists free. destruct (Z.le_gt_cases n (zlen free)) as [Hle|Hgt].
    + rewrite <- (take_drop (Z.to_nat n) free) in Hwf.
      pose proof (get_new_blocks_spec p _ _ Hwf) as Hw.
      replace (zlen (take (Z.to_nat n) free)) with n in Hw
        by (unfold zlen in *; rewrite length_take; lia).
      unfold wp in Hw. by rewrite E in Hw.
    + rewrite (get_new_blocks_insufficient p free n Hwf Hgt) in E. by injection E as _ <-.
  - destruct (wp_result _ _ _ _ _ (touch_spec p free bs Hwf Hbs) E) as (H1 & H2 & _).
    eexists. split; [exact H1|apply H2].
  - destruct (wp_result _ _ _ _ _ (free_blocks_spec p free bs Hwf Hbs Hocc) E) as [H1 H2 _].
    eexists. split; [exact H1|apply H2].
  - destruct (wp_result _ _ _ _ _ (evict_blocks_spec p free ids Hwf Hids) E) as (ls & _ & [H1 H2 _ _ _]).
    exists free. split; [by apply (cache_step_wf p)|apply H1].
  - pose proof (wp_result _ _ _ _ _ (reset_prefix_cache_spec p free Hwf) E) as Hr. cbn beta in Hr.
    exists free. destruct (num_gpu_blocks p =? zlen free + 1).
    + destruct Hr as [_ [H1 H2 _ _ _]]. split; [by apply (cache_step_wf p)|apply H1].
    + by destruct Hr as [_ ->].
  - destruct (wp_result _ _ _ _ _ (move_block_hashes_spec p src dst Hb Hc H1 H2 H3 H4 H5) E)
      as [M1 M2 _ _ _ _ _].
    exists free. split; [by apply (cache_step_wf p)|apply M1].
  - destruct (wp_result _ _ _ _ _ (cache_full_blocks_spec p r free bs hs nc nf bsz gid mask Hwf Hca) E)
      as [F1 F2 _ _ _ _]. exists free. split; [done|apply F2].
  - destruct (wp_result _ _ _ _ _ (cache_partial_block_spec p r free x nt gid bsz rep h Hwf Hpo) E)
      as (key & _ & _ & F1 & [F2 _ _ _ _] & _). exists free. split; [done|apply F2].
  - exists free. unfold take_events, gets, mbind, M_bind, modify in E.
    destruct (enable_kv_cache_events p) eqn:Ee; injection E as _ <-; [|done].
    split; [|done]. apply (cache_step_wf p); [done|by apply quiet_cache_step|by apply (quiet_cache p)].
Qed.

(** ** Conservation *)

(** The blocks some request references. *)
Definition used_blocks (p : BlockPool) : list loc :=
  filter (fun x => x <> null_block p /\ refs p x <> 0) (blocks p).

Lemma queue_NoDup p free : pool_wf p free -> NoDup free.
Proof.
  intros [_ [Hq _ _ _] _]. pose proof (qwf_nodup _ _ Hq) as Hnd. unfold full_list in Hnd.
  apply NoDup_cons in Hnd as [_ Hnd]. by apply NoDup_app in Hnd as (? & _).
Qed.

Lemma pool_conservation p free : pool_wf p free ->
  blocks p ≡ₚ null_block p :: free ++ used_blocks p.
Proof.
  intros Hwf. pose proof (queue_NoDup _ _ Hwf) as Hnd. destruct Hwf as [Hb [_ _ Hfr _] _].
  apply NoDup_Permutation; [apply Hb| |].
  - apply NoDup_cons. unfold used_blocks. rewrite elem_of_app, list_elem_of_filter. split.
    + intros [Hf|[[? _] _]]; [|done]. by apply Hfr in Hf as (_ & ? & _).
    + apply NoDup_app. split_and!; [done| |apply NoDup_filter, Hb].
      intros x Hx. apply Hfr in Hx as (_ & _ & Hz). rewrite list_elem_of_filter. tauto.
  - intros x. unfold used_blocks. rewrite elem_of_cons, elem_of_app, list_elem_of_filter, Hfr.
    pose proof (pb_null _ Hb).
    destruct (decide (x = null_block p)) as [->|]; [tauto|].
    destruct (decide (refs p x = 0)); tauto.
Qed.

(** C6.  The block pool's invariant holds in every reachable state.  Starting
    from [__init__] with [n > 0] blocks, after any sequence of calls by a client
    that keeps its side of the contract: the free queue is a well-formed linked
    list of exactly the unreferenced blocks, no reference count is negative,
    the hash index and the hashes stored on blocks agree in both directions,
    the null block is never free nor cached, and every block is the null block,
    free or referenced: [n = 1 + free + used]. *)
Theorem pool_reachable_invariant n caching hbs events mc p0 p :
  0 < n ->
  block_pool_init n caching hbs events mc (blank_pool empty_heap) = Ok tt p0 ->
  rtc pool_step p0 p ->
  exists free, pool_wf p free /\ get_num_free_blocks p = zlen free /\
    n = 1 + zlen free + zlen (used_blocks p).
Proof.
  intros Hn Hi Hr.
  pose proof (wp_result _ _ _ _ _ (block_pool_init_spec n caching hbs events mc Hn) Hi) as Hf.
  assert (exists free, pool_wf p free /\ num_gpu_blocks p = n) as (free & Hwf & Hnum).
  { assert (exists free, pool_wf p0 free /\ num_gpu_blocks p0 = n) as H0
      by (eexists; split; apply Hf).
    clear Hi Hf. induction Hr as [p|p p1 p2 Hs _ IH]; [done|].
    destruct H0 as (free & Hwf & Hnum).
    destruct (pool_step_config _ _ _ Hwf Hs) as (free1 & Hwf1 & Hcfg).
    apply IH. exists free1. split; [done|]. by rewrite (sc_num _ _ Hcfg). }
  exists free. split_and!; [done|apply (qwf_num _ _ (pa_queue _ _ (pw_alloc _ _ Hwf)))|].
  pose proof (pool_conservation p free Hwf) as Hp. apply Permutation_length in Hp.
  cbn in Hp. rewrite length_app in Hp. pose proof (pb_len _ (pw_blocks _ _ Hwf)) as Hl.
  unfold zlen in *. lia.
Qed.

(** ** Lookup *)

Definition group_key (h : BlockHash) (g : Z) : option BlockHashWithGroupId :=
  make_block_hash_with_group_id h g.

Lemma get_cached_block_spec p h gids :
  pool_cache p -> Forall (fun g => 0 <= g < 2 ^ 32) gids ->
  get_cached_block h gids p =
    Ok (mapM (fun g => group_key h g ≫= fun k => head (locs (cmap p) k)) gids) p.
Proof.
  intros Hc Hg. induction Hg as [|g gids Hg _ IH]; [done|]. cbn.
  destruct (make_block_hash_total h g Hg) as [k Hk]. unfold group_key. rewrite Hk. cbn.
  unfold mbind, M_bind, gets. cbn. rewrite (get_one_block_spec (heap p)) by apply Hc.
  destruct (head (locs (cmap p) k)) as [b|]; [|reflexivity]. rewrite IH.
  unfold group_key. cbn. by destruct (mapM _ gids).
Qed.

(** Prefix-cache lookup is sound and complete: for 32-bit group ids
    [get_cached_block] changes nothing and never raises; when it returns blocks,
    there is one per group and each is a block of the pool that holds the
    requested hash for that group; when it returns [None], some group has no
    block with that hash. *)
Theorem get_cached_block_correct p free h gids :
  pool_wf p free -> Forall (fun g => 0 <= g < 2 ^ 32) gids ->
  exists r, get_cached_block h gids p = Ok r p /\
  match r with
  | Some bs => Forall2 (fun g b => exists k, group_key h g = Some k /\ b ∈ blocks p /\
                          b <> null_block p /\ owned p b k) gids bs
  | None => exists g k, g ∈ gids /\ group_key h g = Some k /\
              forall b, b ∈ blocks p -> ~ owned p b k
  end.
Proof.
  intros [Hb Ha Hc] Hg. eexists. split; [by apply get_cached_block_spec|].
  destruct (mapM _ gids) as [bs|] eqn:E.
  - apply mapM_Some in E. eapply Forall2_impl; [exact E|]. intros g b. cbn beta.
    destruct (group_key h g) as [k|]; [|done]. cbn. intros Hh. exists k. split; [done|].
    assert (b ∈ locs (cmap p) k) as Hin by (destruct (locs (cmap p) k); [done|by injection Hh as ->; left]).
    apply (pc_owned _ Hc) in Hin as [Hin Ho]. split_and!; [done| |done].
    intros ->. by apply (unhashed_owns_nothing p (null_block p) k Hc Hin (pc_null _ Hc)).
  - apply mapM_None_1, Exists_exists in E as (g & Hin & E).
    rewrite Forall_forall in Hg. destruct (make_block_hash_total h g (Hg g Hin)) as [k Hk].
    exists g, k. unfold group_key in *. rewrite Hk in *. cbn in E. split_and!; [done|done|].
    intros b Hbb Ho. assert (b ∈ locs (cmap p) k) as Hl by (by apply (pc_owned _ Hc)).
    destruct (locs (cmap p) k); [by apply elem_of_nil in Hl|done].
Qed.

(** ** Operations *)

(** Allocation: [get_new_blocks n] returns the [n] blocks at the front of
    the free queue (least recently used first) with one reference each; with
    caching on they carry no hash and no lookup can reach them any more; other
    blocks keep their references and their cached content.  When fewer than [n]
    blocks are free it raises [ValueError] and changes nothing. *)
Theorem get_new_blocks_correct p free n :
  pool_wf p free -> 0 <= n ->
  if n <=? zlen free then
    exists p', get_new_blocks n p = Ok (take (Z.to_nat n) free) p' /\
      pool_wf p' (drop (Z.to_nat n) free) /\
      (forall x, refs p' x = if decide (x ∈ take (Z.to_nat n) free) then 1 else refs p x) /\
      (enable_caching p = true -> forall x, x ∈ take (Z.to_nat n) free ->
         Blocks.block_hash (at_ p' x) = None /\ forall k, x ∉ locs (cmap p') k) /\
      (forall x k, x ∉ take (Z.to_nat n) free -> x ∈ locs (cmap p') k <-> x ∈ locs (cmap p) k)
  else get_new_blocks n p = Raise ValueError p.
Proof.
  intros Hwf Hn. destruct (Z.leb_spec n (zlen free)) as [Hle|Hgt].
  2: by apply (get_new_blocks_insufficient p free).
  pose proof Hwf as Hwf0. rewrite <- (take_drop (Z.to_nat n) free) in Hwf.
  pose proof (get_new_blocks_spec p _ _ Hwf) as Hw.
  replace (zlen (take (Z.to_nat n) free)) with n in Hw
    by (unfold zlen in *; rewrite length_take; lia).
  apply wp_ok in Hw as (r & p' & E & -> & [G1 G2 G3 G4 _ G5]).
  exists p'. split_and!; [done|done|done| |].
  - intros Ec x Hx. destruct (G4 x) as [Gn _]. specialize (Gn Hx Ec). split; [done|].
    intros k. rewrite G5, Ec, list_elem_of_filter. tauto.
  - intros x k Hx. rewrite G5. destruct (enable_caching p); [|done].
    rewrite list_elem_of_filter. tauto.
Qed.

(** Release: [free_blocks] drops one reference per listed occurrence; the
    blocks that lose their last one enter the free queue, those without a hash
    (or all of them when caching is off) at the front, to be reused first, the
    hashed ones at the back, to be evicted last, each group in the order given.
    The cached content is untouched, so freed blocks can still be hit. *)
Theorem free_blocks_correct p free bs :
  pool_wf p free -> (forall x, x ∈ bs -> x ∈ blocks p) ->
  (forall x, x ∈ bs -> x <> null_block p -> occ x bs <= refs p x) ->
  exists p', free_blocks bs p = Ok tt p' /\
    pool_wf p' (released_first p bs ++ free ++ released_last p bs) /\
    (forall x, refs p' x = refs p x - occ x bs) /\
    (forall k, locs (cmap p') k = locs (cmap p) k) /\
    (forall x, Blocks.block_hash (at_ p' x) = Blocks.block_hash (at_ p x)).
Proof.
  intros Hwf Hbs Hocc.
  destruct (wp_ok _ _ _ (free_blocks_spec p free bs Hwf Hbs Hocc)) as ([] & p' & E & [F1 F2 F3]).
  exists p'. split_and!; [done|done|done| |apply F2].
  intros k. by rewrite (as_cache _ _ F2).
Qed.

(** Touch and release are inverse: touching blocks (a prefix-cache hit
    takes a reference and rescues free blocks from the queue) and then freeing
    the same list restores every reference count and the set of free blocks,
    whatever repetitions the list has, and leaves the cached content alone. *)
Theorem touch_free_roundtrip p free bs :
  pool_wf p free -> (forall x, x ∈ bs -> x ∈ blocks p) ->
  exists p1 p2 free2, touch bs p = Ok tt p1 /\ free_blocks bs p1 = Ok tt p2 /\
    pool_wf p1 (filter (fun x => x ∉ bs) free) /\ pool_wf p2 free2 /\ free2 ≡ₚ free /\
    (forall x, refs p2 x = refs p x) /\ (forall k, locs (cmap p2) k = locs (cmap p) k).
Proof.
  intros Hwf Hbs.
  destruct (wp_ok _ _ _ (touch_spec p free bs Hwf Hbs)) as ([] & p1 & E1 & Hwf1 & Ha1 & Hr1).
  pose proof (as_config _ _ Ha1) as Hcfg1.
  destruct (wp_ok _ _ _ (free_blocks_spec p1 _ bs Hwf1
    ltac:(intros x Hx; rewrite (sc_blocks _ _ Hcfg1); by apply Hbs)
    ltac:(intros x Hx Hn; rewrite Hr1;
          pose proof (pa_ref _ _ (pw_alloc _ _ Hwf) x (Hbs x Hx)
            ltac:(by rewrite <- (sc_null _ _ Hcfg1))); lia)))
    as ([] & p2 & E2 & [F1 F2 F3]).
  eexists p1, p2, _. split_and!; [done|done|done|exact F1| | |].
  - apply NoDup_Permutation; [by apply (queue_NoDup p2)|by apply (queue_NoDup p)|].
    intros x. rewrite (pa_free _ _ (pw_alloc _ _ F1)), (pa_free _ _ (pw_alloc _ _ Hwf)).
    pose proof (as_config _ _ F2) as Hcfg2.
    rewrite (sc_blocks _ _ Hcfg2), (sc_blocks _ _ Hcfg1), (sc_null _ _ Hcfg2), (sc_null _ _ Hcfg1).
    rewrite F3, Hr1. replace (refs p x + occ x bs - occ x bs) with (refs p x) by lia. done.
  - intros x. rewrite F3, Hr1. lia.
  - intros k. by rewrite (as_cache _ _ F2), (as_cache _ _ Ha1).
Qed.

(** C34.  Caching full blocks: when the hashes exist and the blocks are ready,
    [cache_full_blocks] never raises, gives every selected block (not null, not
    masked out) the key of its prefix hash and its token count, leaves all other
    blocks, the reference counts and the free queue alone, keeps the invariant,
    and makes each of these hashes a hit of [get_cached_block].  With events on,
    the last event lists the hashes and the extra keys of exactly those blocks,
    one for one, and the tokens of the whole range. *)
Theorem cache_full_blocks_correct p r free bs hs nc nf bsz gid mask :
  pool_wf p free -> cacheable p r bs hs nc nf bsz gid mask ->
  exists p' r', cache_full_blocks bs nc nf bsz gid mask (p, r) = Ok tt (p', r') /\
    cached_full p r free bs hs nc nf bsz gid mask (p', r') /\
    (forall i x h, (i, x) ∈ sel_pairs p mask (enumerate (py_slice bs nc nf)) ->
       hs !! i = Some h -> exists b, get_cached_block h [gid] p' = Ok (Some [b]) p').
Proof.
  intros Hwf Hca.
  destruct (wp_ok _ _ _ (cache_full_blocks_spec p r free bs hs nc nf bsz gid mask Hwf Hca))
    as ([] & [p' r'] & E & Hcf).
  exists p', r'. split_and!; [done|done|]. intros i x h Hix Hh.
  pose proof (cf_wf _ _ _ _ _ _ _ _ _ _ _ Hcf) as [Hb' _ Hc']. cbn in Hb', Hc'.
  rewrite get_cached_block_spec; [|done|constructor; [apply Hca|constructor]].
  destruct (cf_done _ _ _ _ _ _ _ _ _ _ _ Hcf i x Hix) as (h' & key & Hh' & Hk & Hbh & _).
  rewrite Hh in Hh'. injection Hh' as <-. cbn in Hbh.
  assert (x ∈ locs (cmap p') key) as Hin.
  { apply (pc_owned _ Hc'). split; [|by left].
    pose proof (sc_blocks _ _ (cs_config _ _ (cf_step _ _ _ _ _ _ _ _ _ _ _ Hcf))) as Hbl.
    cbn in Hbl. rewrite Hbl. apply (ca_blocks _ _ _ _ _ _ _ _ _ Hca).
    exact (sel_pairs_slice _ _ _ _ _ Hix). }
  cbn. unfold group_key. rewrite Hk. cbn.
  destruct (locs (cmap p') key) as [|b ls]; [by apply elem_of_nil in Hin|]. by exists b.
Qed.

(** Reset: [reset_prefix_cache] succeeds exactly when no block is
    referenced (only the null block is in use); then no hash can be hit any
    more and no block carries one, while the free queue is unchanged.  Otherwise
    it returns [False] and changes nothing. *)
Theorem reset_prefix_cache_correct p free :
  pool_wf p free ->
  exists p', reset_prefix_cache p = Ok (bool_decide (used_blocks p = [])) p' /\
    pool_wf p' free /\
    (used_blocks p <> [] -> p' = p) /\
    (used_blocks p = [] -> (forall k, locs (cmap p') k = []) /\
       forall x, x ∈ blocks p -> Blocks.block_hash (at_ p' x) = None).
Proof.
  intros Hwf.
  destruct (wp_ok _ _ _ (reset_prefix_cache_spec p free Hwf)) as (b & p' & E & Hr).
  assert (num_gpu_blocks p = zlen free + 1 <-> used_blocks p = []) as Hiff.
  { pose proof (pool_conservation p free Hwf) as Hp. apply Permutation_length in Hp.
    cbn in Hp. rewrite length_app in Hp. pose proof (pb_len _ (pw_blocks _ _ Hwf)) as Hl.
    unfold zlen in *. destruct (used_blocks p); cbn in *; [split; [done|lia]|].
    split; [lia|done]. }
  exists p'. destruct (Z.eqb_spec (num_gpu_blocks p) (zlen free + 1)) as [He|He].
  - destruct Hr as [-> [R1 R2 [R3 _] R4 _]]. apply Hiff in He.
    rewrite bool_decide_eq_true_2 by done.
    split_and!; [done|by apply (cache_step_wf p)|done|]. intros _. split; [|done].
    intros k. by rewrite R3, locs_empty.
  - destruct Hr as [-> ->]. rewrite bool_decide_eq_false_2 by (by rewrite <- Hiff).
    split_and!; [done|done|done|]. intros Hu. by apply Hiff in Hu.
Qed.

(** Moving hashes: [move_block_hashes src dst] re-points every cache entry
    of [src] to [dst] and no other; [dst] gets the same primary hash and token
    count, [src] keeps none, no event is emitted, and the invariant holds. *)
Theorem move_block_hashes_correct p free src dst :
  pool_wf p free -> src ∈ blocks p -> dst ∈ blocks p -> src <> dst -> dst <> null_block p ->
  Blocks.block_hash (at_ p dst) = None ->
  exists p', move_block_hashes src dst p = Ok tt p' /\ pool_wf p' free /\
    moved_hashes p src dst p'.
Proof.
  intros Hwf Hs Hd Hne Hn Hh.
  destruct (wp_ok _ _ _ (move_block_hashes_spec p src dst (pw_blocks _ _ Hwf) (pw_cache _ _ Hwf)
    Hs Hd Hne Hn Hh)) as ([] & p' & E & Hm).
  exists p'. split_and!; [done| |done]. apply (cache_step_wf p); [done|apply Hm|apply Hm].
Qed.

(** Eviction by id: [evict_blocks] makes the given blocks unreachable from
    the index and leaves everything else alone: other cached blocks stay
    reachable, and reference counts and free queue do not change. *)
Theorem evict_blocks_correct p free ids :
  pool_wf p free -> Forall (fun id => 0 <= id < num_gpu_blocks p) ids ->
  exists p' ls, evict_blocks ids p = Ok tt p' /\
    mapM (fun id => blocks p !! Z.to_nat id) ids = Some ls /\ pool_wf p' free /\
    (forall x, refs p' x = refs p x) /\
    forall k x, x ∈ locs (cmap p') k <-> x ∈ locs (cmap p) k /\ x ∉ ls.
Proof.
  intros Hwf Hids.
  destruct (wp_ok _ _ _ (evict_blocks_spec p free ids Hwf Hids))
    as ([] & p' & E & ls & Hls & [A1 A2 _ _ A5]).
  exists p', ls. split_and!; [done|done|by apply (cache_step_wf p)|apply A1|].
  intros k x. rewrite A5, list_elem_of_filter. tauto.
Qed.

End PoolSpec.

(** ** Concrete runs *)

(** The store a call leaves behind. *)
Definition after {S A} (m : M S A) (s : S) : S :=
  match m s with Ok _ s' | Raise _ s' => s' end.

(** A pool of five blocks, hash granularity 2, with events. *)
Definition demo_pool : BlockPool :=
  after (block_pool_init 5 true 2 true None) (blank_pool empty_heap).

Lemma demo_pool_init :
  block_pool_init 5 true 2 true None (blank_pool empty_heap) = Ok tt demo_pool.
Proof. vm_compute. reflexivity. Qed.

Lemma demo_pool_wf : pool_wf demo_pool [1; 2; 3; 4]%nat.
Proof.
  exact (fp_wf _ _ _ _ _ _ (wp_result _ _ _ _ _ (block_pool_init_spec 5 true 2 true None eq_refl) demo_pool_init)).
Qed.

(** Two blocks allocated, then one of them cached under two prefix hashes. *)
Definition demo_tokens : Request := demo_hashed 2 (demo_request None None [] [7; 8; 9; 10; 11]).
Definition demo_used : BlockPool := after (get_new_blocks 2) demo_pool.
Definition demo_cached : BlockPool * Request :=
  after (cache_full_blocks [1; 2]%nat 0 2 2 0 None) (demo_used, demo_tokens).

Lemma pool_reachable_invariant_witness :
  exists free, pool_wf demo_used free /\ get_num_free_blocks demo_used = zlen free /\
    5 = 1 + zlen free + zlen (used_blocks demo_used).
Proof.
  apply (pool_reachable_invariant 5 true 2 true None demo_pool demo_used eq_refl demo_pool_init).
  apply rtc_once. apply (step_get_new_blocks demo_pool 2 [1; 2]%nat); [done|].
  vm_compute. reflexivity.
Defined.

Lemma get_new_blocks_correct_witness :
  exists p', get_new_blocks 2 demo_pool = Ok [1; 2]%nat p' /\ pool_wf p' [3; 4]%nat.
Proof.
  destruct (get_new_blocks_correct demo_pool [1; 2; 3; 4]%nat 2 demo_pool_wf ltac:(lia))
    as (p' & E & Hwf & _).
  exists p'. split; [exact E|exact Hwf].
Defined.

Lemma demo_used_wf : pool_wf demo_used [3; 4]%nat.
Proof.
  destruct (wp_ok _ _ _ (get_new_blocks_spec demo_pool [1; 2]%nat [3; 4]%nat demo_pool_wf))
    as (r & p' & E & -> & Hg).
  assert (p' = demo_used) as <-; [|apply Hg].
  unfold demo_used, after. change (zlen [1; 2]%nat) with 2 in E. by rewrite E.
Qed.

Lemma free_blocks_correct_witness :
  exists p', free_blocks [2; 0; 1]%nat demo_used = Ok tt p' /\ pool_wf p' [2; 1; 3; 4]%nat.
Proof.
  destruct (free_blocks_correct demo_used [3; 4]%nat [2; 0; 1]%nat demo_used_wf)
    as (p' & E & Hwf & _).
  - apply Forall_forall. decide_goal.
  - apply (Forall_forall (fun x => x <> null_block demo_used ->
      occ x [2; 0; 1]%nat <= ref_cnt (at_ demo_used x))). decide_goal.
  - exists p'. split; [exact E|].
    assert (released_first demo_used [2; 0; 1]%nat ++ [3; 4]%nat ++
            released_last demo_used [2; 0; 1]%nat = [2; 1; 3; 4]%nat) as <-
      by (vm_compute; reflexivity).
    exact Hwf.
Defined.

Lemma touch_free_roundtrip_witness :
  exists p1 p2 free2, touch [1; 3; 3]%nat demo_used = Ok tt p1 /\
    free_blocks [1; 3; 3]%nat p1 = Ok tt p2 /\ pool_wf p2 free2 /\ free2 ≡ₚ [3; 4]%nat.
Proof.
  destruct (touch_free_roundtrip demo_used [3; 4]%nat [1; 3; 3]%nat demo_used_wf)
    as (p1 & p2 & free2 & E1 & E2 & _ & Hwf & Hp & _).
  - apply Forall_forall. decide_goal.
  - exists p1, p2, free2. split; [exact E1|]. split; [exact E2|]. split; [exact Hwf|exact Hp].
Defined.

Lemma demo_unhashed x : x ∈ py_slice [1; 2]%nat 0 2 -> Blocks.block_hash (at_ demo_used x) = None.
Proof. revert x. apply Forall_forall. decide_goal. Qed.

Lemma demo_cacheable :
  cacheable demo_used demo_tokens [1; 2]%nat (block_hashes demo_tokens) 0 2 2 0 None.
Proof.
  split.
  - by vm_compute.
  - done.
  - apply Forall_forall. decide_goal.
  - decide_goal.
  - done.
  - done.
  - exists (RawHashes (block_hashes demo_tokens)). split_and!; [vm_compute; reflexivity| |lia].
    vm_compute. reflexivity.
  - vm_compute. discriminate.
  - intros i x Hix. unfold hash_ready. rewrite demo_unhashed; [exact I|].
    exact (sel_pairs_slice _ _ _ _ _ Hix).
  - vm_compute. exact I.
  - intros s e b. by vm_compute.
Qed.

Lemma cache_full_blocks_correct_witness :
  exists p' r', cache_full_blocks [1; 2]%nat 0 2 2 0 None (demo_used, demo_tokens) = Ok tt (p', r') /\
    pool_wf p' [3; 4]%nat.
Proof.
  destruct (cache_full_blocks_correct demo_used demo_tokens [3; 4]%nat [1; 2]%nat
    (block_hashes demo_tokens) 0 2 2 0 None demo_used_wf demo_cacheable) as (p' & r' & E & Hc & _).
  exists p', r'. split; [exact E|]. exact (cf_wf _ _ _ _ _ _ _ _ _ _ _ Hc).
Defined.

Lemma demo_cached_wf : pool_wf demo_cached.1 [3; 4]%nat.
Proof.
  destruct (wp_ok _ _ _ (cache_full_blocks_spec demo_used demo_tokens [3; 4]%nat [1; 2]%nat
    (block_hashes demo_tokens) 0 2 2 0 None demo_used_wf demo_cacheable)) as ([] & s' & E & Hc).
  assert (s' = demo_cached) as <-; [|apply Hc].
  unfold demo_cached, after. by rewrite E.
Qed.

Lemma get_cached_block_correct_witness :
  exists bs, get_cached_block (nth 1 (block_hashes demo_tokens) []) [0] demo_cached.1 =
    Ok (Some bs) demo_cached.1 /\ length bs = 1%nat.
Proof.
  destruct (get_cached_block_correct demo_cached.1 [3; 4]%nat
    (nth 1 (block_hashes demo_tokens) []) [0] demo_cached_wf) as (r & E & Hr).
  - repeat constructor; lia.
  - destruct r as [bs|].
    + exists bs. split; [exact E|]. apply Forall2_length in Hr. symmetry. exact Hr.
    + exfalso. apply (f_equal (fun o => match o with Ok (Some _) _ => true | _ => false end)) in E.
      vm_compute in E. discriminate E.
Defined.

Lemma reset_prefix_cache_correct_witness :
  exists p', reset_prefix_cache demo_cached.1 = Ok false p' /\ p' = demo_cached.1.
Proof.
  destruct (reset_prefix_cache_correct demo_cached.1 [3; 4]%nat demo_cached_wf)
    as (p' & E & _ & Hsame & _).
  assert (bool_decide (used_blocks demo_cached.1 = []) = false) as Hb by (vm_compute; reflexivity).
  rewrite Hb in E. exists p'. split; [exact E|]. apply Hsame. by apply bool_decide_eq_false in Hb.
Defined.

Lemma move_block_hashes_correct_witness :
  exists p', move_block_hashes 1%nat 3%nat demo_cached.1 = Ok tt p' /\ pool_wf p' [3; 4]%nat.
Proof.
  destruct (move_block_hashes_correct demo_cached.1 [3; 4]%nat 1%nat 3%nat demo_cached_wf)
    as (p' & E & Hwf & _).
  - decide_goal.
  - decide_goal.
  - done.
  - by vm_compute.
  - vm_compute. reflexivity.
  - exists p'. split; [exact E|exact Hwf].
Defined.

Lemma evict_blocks_correct_witness :
  exists p' ls, evict_blocks [1; 4] demo_cached.1 = Ok tt p' /\ pool_wf p' [3; 4]%nat /\
    mapM (fun id => blocks demo_cached.1 !! Z.to_nat id) [1; 4] = Some ls.
Proof.
  destruct (evict_blocks_correct demo_cached.1 [3; 4]%nat [1; 4] demo_cached_wf)
    as (p' & ls & E & Hl & Hwf & _).
  - repeat (apply Forall_cons; split; [by vm_compute|]). constructor.
  - exists p', ls. split; [exact E|]. split; [exact Hwf|exact Hl].
Defined.
