(* ===== verification/EncoderCache.v ===== *)
(** * The encoder-output cache

    vllm/v1/core/encoder_cache_manager.py: bookkeeping of the encoder outputs
    of multi-modal inputs, measured in embeddings.  An entry is referenced by
    requests; entries without a reference stay until space is needed and are
    then evicted oldest first. *)
From Stdlib Require Import ZArith Lia.
From stdpp Require Import base tactics gmap strings numbers option list.
From S2P Require Import Prelude Blocks Request Env.

Local Open Scope Z_scope.

Record EncoderCacheManager := mkEncoderCache {
  cache_size : Z;
  num_free_slots : Z;
  num_freeable_slots : Z;
  cached : gmap string (gset string);
  request_cached_ids : gmap string (gset Z);
  freeable : list (string * Z);
  freed : list string
}.

Definition set_slots (free freeable_ : Z) (m : EncoderCacheManager) : EncoderCacheManager :=
  mkEncoderCache (cache_size m) free freeable_ (cached m) (request_cached_ids m) (freeable m) (freed m).
Definition set_cached (c : gmap string (gset string)) (m : EncoderCacheManager) : EncoderCacheManager :=
  mkEncoderCache (cache_size m) (num_free_slots m) (num_freeable_slots m) c
    (request_cached_ids m) (freeable m) (freed m).
Definition set_request_ids (c : gmap string (gset Z)) (m : EncoderCacheManager) : EncoderCacheManager :=
  mkEncoderCache (cache_size m) (num_free_slots m) (num_freeable_slots m) (cached m)
    c (freeable m) (freed m).
Definition set_freeable (f : list (string * Z)) (m : EncoderCacheManager) : EncoderCacheManager :=
  mkEncoderCache (cache_size m) (num_free_slots m) (num_freeable_slots m) (cached m)
    (request_cached_ids m) f (freed m).
Definition set_freed (f : list string) (m : EncoderCacheManager) : EncoderCacheManager :=
  mkEncoderCache (cache_size m) (num_free_slots m) (num_freeable_slots m) (cached m)
    (request_cached_ids m) (freeable m) f.

(** An [OrderedDict]: lookup, [d[k] = v] and [del d[k]]. *)
Fixpoint odict_get (k : string) (d : list (string * Z)) : option Z :=
  match d with
  | [] => None
  | (k', v) :: d' => if decide (k' = k) then Some v else odict_get k d'
  end.
Fixpoint odict_del (k : string) (d : list (string * Z)) : list (string * Z) :=
  match d with
  | [] => []
  | (k', v) :: d' => if decide (k' = k) then d' else (k', v) :: odict_del k d'
  end.
Fixpoint odict_set (k : string) (v : Z) (d : list (string * Z)) : list (string * Z) :=
  match d with
  | [] => [(k, v)]
  | (k', v') :: d' => if decide (k' = k) then (k', v) :: d' else (k', v') :: odict_set k v d'
  end.

(** [EncoderCacheManager.__init__] (and [create_manager]) *)
Definition new_encoder_cache (size : Z) : EncoderCacheManager :=
  mkEncoderCache size size size ∅ ∅ [] [].

(** [reset] *)
Definition encoder_reset : M EncoderCacheManager unit :=
  modify (fun m => mkEncoderCache (cache_size m) (cache_size m) (cache_size m) ∅ ∅ [] []).

(** [request.mm_features[input_id].identifier] *)
Definition input_hash (r : Request) (input_id : Z) : option string :=
  identifier <$> py_index (mm_features r) input_id.

(** [self.request_cached_ids.setdefault(id, set()).add(input_id)] *)
Definition add_request_id (req_id : string) (input_id : Z) (m : EncoderCacheManager)
    : EncoderCacheManager :=
  set_request_ids (<[req_id := {[input_id]} ∪ default ∅ (request_cached_ids m !! req_id)]>
                     (request_cached_ids m)) m.

(** [check_and_update_cache] *)
Definition check_and_update_cache (r : Request) (input_id : Z) : M EncoderCacheManager bool :=
  mm_hash ← of_option IndexError (input_hash r input_id);
  refs ← gets (fun m => cached m !! mm_hash : option (gset string));
  match refs with
  | None => mret false
  | Some ids =>
      (if bool_decide (ids = (∅ : gset string)) then
         m ← get;
         num_encoder_embeds ← of_option KeyError (odict_get mm_hash (freeable m));
         modify (fun m => set_slots (num_free_slots m) (num_freeable_slots m - num_encoder_embeds)
                            (set_freeable (odict_del mm_hash (freeable m)) m))
       else mret tt) ;;
      modify (fun m => set_cached (<[mm_hash := {[request_id r]} ∪ default ∅ (cached m !! mm_hash)]>
                                     (cached m)) m) ;;
      modify (add_request_id (request_id r) input_id) ;;
      mret true
  end.

(** The eviction loop of [can_allocate]; every iteration pops an entry, so the
    number of freeable entries bounds them. *)
Fixpoint evict_loop (fuel : nat) (num_embeds : Z) : M EncoderCacheManager unit :=
  m ← get;
  if num_free_slots m <? num_embeds then
    match fuel with
    | O => raise OutOfFuel
    | S fuel' =>
        match freeable m with
        | [] => raise KeyError
        | (mm_hash, num_free_embeds) :: rest =>
            modify (set_freeable rest) ;;
            match cached m !! mm_hash with
            | None => raise KeyError
            | Some _ =>
                modify (fun m => set_cached (delete mm_hash (cached m)) m) ;;
                modify (fun m => set_freed (freed m ++ [mm_hash]) m) ;;
                modify (fun m => set_slots (num_free_slots m + num_free_embeds)
                                           (num_freeable_slots m) m) ;;
                evict_loop fuel' num_embeds
            end
        end
    end
  else mret tt.

(** [can_allocate] *)
Definition can_allocate (r : Request) (input_id encoder_compute_budget num_embeds_to_schedule : Z)
    : M EncoderCacheManager bool :=
  n ← of_option AssertionError (get_num_encoder_embeds r input_id);
  if encoder_compute_budget <? n then mret false else
  let num_embeds := n + num_embeds_to_schedule in
  m ← get;
  if num_embeds <=? num_free_slots m then mret true else
  if num_freeable_slots m <? num_embeds then mret false else
  evict_loop (S (length (freeable m))) num_embeds ;;
  mret true.

(** [allocate] *)
Definition allocate (r : Request) (input_id : Z) : M EncoderCacheManager unit :=
  mm_hash ← of_option IndexError (input_hash r input_id);
  modify (fun m => match cached m !! mm_hash with
                   | None => set_cached (<[mm_hash := ∅]> (cached m)) m
                   | Some _ => m
                   end) ;;
  n ← of_option AssertionError (get_num_encoder_embeds r input_id);
  m ← get;
  assert_ (n <=? num_free_slots m) ;;
  assert_ (n <=? num_freeable_slots m) ;;
  modify (fun m => set_cached (<[mm_hash := {[request_id r]} ∪ default ∅ (cached m !! mm_hash)]>
                                 (cached m)) m) ;;
  modify (add_request_id (request_id r) input_id) ;;
  modify (fun m => set_slots (num_free_slots m - n) (num_freeable_slots m - n) m).

(** [get_cached_input_ids] *)
Definition get_cached_input_ids (r : Request) (m : EncoderCacheManager) : gset Z :=
  default ∅ (request_cached_ids m !! request_id r).

Section EncoderFree.
Context `{Env}.

(** [free_encoder_input] *)
Definition free_encoder_input (r : Request) (input_id : Z) : M EncoderCacheManager unit :=
  let req_id := request_id r in
  mm_hash ← of_option IndexError (input_hash r input_id);
  modify (fun m => match request_cached_ids m !! req_id with
                   | None => m
                   | Some ids =>
                       let ids' := ids ∖ {[input_id]} in
                       set_request_ids (if bool_decide (ids' = (∅ : gset Z))
                                        then delete req_id (request_cached_ids m)
                                        else <[req_id := ids']> (request_cached_ids m)) m
                   end) ;;
  m ← get;
  match cached m !! mm_hash with
  | None => mret tt
  | Some refs =>
      if bool_decide (refs = (∅ : gset string)) then mret tt else
      others ← of_option IndexError
        (mapM (fun other_id => h ← input_hash r other_id; Some (bool_decide (h = mm_hash)))
              (int_set_order (get_cached_input_ids r m)));
      if existsb id others then mret tt else
      let refs' := refs ∖ {[req_id]} in
      modify (fun m => set_cached (<[mm_hash := refs']> (cached m)) m) ;;
      if bool_decide (refs' = (∅ : gset string)) then
        n ← of_option AssertionError (get_num_encoder_embeds r input_id);
        modify (fun m => set_slots (num_free_slots m) (num_freeable_slots m + n)
                           (set_freeable (odict_set mm_hash n (freeable m)) m))
      else mret tt
  end.

(** [free] *)
Definition encoder_free (r : Request) : M EncoderCacheManager unit :=
  ids ← gets (get_cached_input_ids r);
  for_each (int_set_order ids) (fun input_id => free_encoder_input r input_id).

End EncoderFree.

(** [get_freed_mm_hashes] *)
Definition get_freed_mm_hashes : M EncoderCacheManager (list string) :=
  freed_ ← gets (fun m => filter (fun h => cached m !! h = None) (freed m));
  modify (set_freed []) ;;
  mret freed_.

(** ** Encoder budgets *)

(** The scheduler configuration values [compute_mm_encoder_budget] reads. *)
Record EncoderSchedulerConfig := mkEncoderConfig {
  disable_chunked_mm_input : bool;
  max_num_batched_tokens_cfg : Z;
  max_num_encoder_input_tokens : Z;
  encoder_cache_size_cfg : Z
}.

(** [compute_mm_encoder_budget]; the mapping's values, in any order. *)
Definition compute_mm_encoder_budget (c : EncoderSchedulerConfig) (mm_max_toks_per_item : list Z)
    : exn + (Z * Z) :=
  match mm_max_toks_per_item with
  | [] => inr (0, 0)
  | t :: ts =>
      let max_tokens_per_mm_item := foldl Z.max t ts in
      if disable_chunked_mm_input c && (max_num_batched_tokens_cfg c <? max_tokens_per_mm_item)
      then inl ValueError
      else inr (Z.max (max_num_encoder_input_tokens c) max_tokens_per_mm_item,
                Z.max (encoder_cache_size_cfg c) max_tokens_per_mm_item)
  end.

(** ** The encoder-decoder variant *)

Record EncoderDecoderCacheManager := mkEncDecCache {
  ed_cache_size : Z;
  ed_num_free_slots : Z;
  allocated : list string;
  to_free : list string
}.

(** [EncoderDecoderCacheManager.__init__] *)
Definition new_encdec_cache (size : Z) : EncoderDecoderCacheManager := mkEncDecCache size size [] [].

(** [reset] *)
Definition ed_reset : M EncoderDecoderCacheManager unit :=
  modify (fun m => mkEncDecCache (ed_cache_size m) (ed_cache_size m) [] []).

(** [check_and_update_cache] *)
Definition ed_check_and_update_cache (r : Request) (input_id : Z) : bool := false.

(** [can_allocate] *)
Definition ed_can_allocate (r : Request) (input_id encoder_compute_budget num_embeds_to_schedule : Z)
    : M EncoderDecoderCacheManager bool :=
  n ← of_option AssertionError (get_num_encoder_embeds r input_id);
  if encoder_compute_budget <? n then mret false else
  m ← get;
  mret (n + num_embeds_to_schedule <=? ed_num_free_slots m).

(** [allocate] *)
Definition ed_allocate (r : Request) (input_id : Z) : M EncoderDecoderCacheManager unit :=
  n ← of_option AssertionError (get_num_encoder_embeds r input_id);
  modify (fun m => mkEncDecCache (ed_cache_size m) (ed_num_free_slots m - n) (allocated m) (to_free m)) ;;
  mm_hash ← of_option IndexError (input_hash r input_id);
  modify (fun m => mkEncDecCache (ed_cache_size m) (ed_num_free_slots m) (allocated m ++ [mm_hash]) (to_free m)).

(** [free_encoder_input] and [free] *)
Definition ed_free_encoder_input (r : Request) (input_id : Z) : M EncoderDecoderCacheManager unit :=
  n ← of_option AssertionError (get_num_encoder_embeds r input_id);
  modify (fun m => mkEncDecCache (ed_cache_size m) (ed_num_free_slots m + n) (allocated m) (to_free m)).
Definition ed_free (r : Request) : M EncoderDecoderCacheManager unit :=
  for_each (py_range 0 (zlen (mm_features r))) (ed_free_encoder_input r).

(** [get_cached_input_ids] *)
Definition ed_get_cached_input_ids (r : Request) : gset Z :=
  list_to_set (py_range 0 (zlen (mm_features r))).

(** [get_freed_mm_hashes] *)
Definition ed_get_freed_mm_hashes : M EncoderDecoderCacheManager (list string) :=
  tf ← gets to_free;
  modify (fun m => mkEncDecCache (ed_cache_size m) (ed_num_free_slots m) [] (allocated m)) ;;
  mret tf.
