(* ===== verification/EncoderCacheSpec.v ===== *)
(** * What the encoder cache guarantees

    Accounting: the free slots are what the cached entries leave, the
    reclaimable slots add the unreferenced entries; references: an entry is
    referenced by exactly the requests that hold one of its inputs, and only
    unreferenced entries are evicted. *)
From Stdlib Require Import ZArith Lia.
From stdpp Require Import base tactics gmap strings numbers option list.
From S2P Require Import Prelude Blocks Request Hashing Env EncoderCache.

Local Open Scope Z_scope.

(** ** Ordered dictionaries *)

Lemma odict_get_spec k d v : NoDup d.*1 -> odict_get k d = Some v <-> (k, v) ∈ d.
Proof.
  induction d as [|[k' v'] d IH]; cbn; intros Hnd.
  { split; [done|by intros ?%elem_of_nil]. }
  apply NoDup_cons in Hnd as [Hk Hnd]. rewrite elem_of_cons.
  destruct (decide (k' = k)) as [->|Hne].
  - split; [intros [= ->]; by left|]. intros [[= ->]|Hin]; [done|].
    exfalso. apply Hk, list_elem_of_fmap. by exists (k, v).
  - rewrite (IH Hnd). split; [by right|]. intros [[= -> ->]|]; done.
Qed.

Lemma odict_get_none k d : odict_get k d = None <-> k ∉ d.*1.
Proof.
  induction d as [|[k' v'] d IH]; cbn; [split; [by intros _ ?%elem_of_nil|done]|].
  rewrite not_elem_of_cons. destruct (decide (k' = k)) as [->|Hne]; [naive_solver|].
  rewrite IH. naive_solver.
Qed.

Lemma odict_del_spec k d : NoDup d.*1 ->
  NoDup (odict_del k d).*1 /\ (forall x v, (x, v) ∈ odict_del k d <-> (x, v) ∈ d /\ x <> k).
Proof.
  induction d as [|[k' v'] d IH]; cbn; intros Hnd.
  { split; [constructor|]. intros x v. rewrite elem_of_nil. naive_solver. }
  apply NoDup_cons in Hnd as [Hk Hnd]. destruct (IH Hnd) as [IH1 IH2].
  assert (forall x v, (x, v) ∈ d -> x ∈ d.*1) as Hfst
    by (intros x v Hin; apply list_elem_of_fmap; by exists (x, v)).
  destruct (decide (k' = k)) as [->|Hne].
  - split; [done|]. intros x v. rewrite elem_of_cons. split.
    + intros Hin. split; [by right|]. intros ->. by apply Hk, (Hfst _ v).
    + intros [[[= -> ->]|]]; done.
  - cbn. split.
    + apply NoDup_cons. split; [|done]. intros ([x v] & -> & Hin)%list_elem_of_fmap.
      apply IH2 in Hin as [Hin _]. by apply Hk, (Hfst _ v).
    + intros x v. rewrite !elem_of_cons, IH2. naive_solver.
Qed.

Definition dsum (d : list (string * Z)) : Z := foldr (fun p acc => p.2 + acc) 0 d.

Lemma odict_del_sum k d v : odict_get k d = Some v -> dsum (odict_del k d) = dsum d - v.
Proof.
  induction d as [|[k' v'] d IH]; cbn; [done|]. destruct (decide (k' = k)).
  - intros [= ->]. lia.
  - intros Hv%IH. cbn. unfold dsum in *. cbn. lia.
Qed.

Lemma odict_set_new k v d : k ∉ d.*1 -> odict_set k v d = d ++ [(k, v)].
Proof.
  induction d as [|[k' v'] d IH]; cbn; [done|]. intros [Hk Hd]%not_elem_of_cons.
  rewrite decide_False by done. by rewrite IH.
Qed.

Lemma dsum_app d e : dsum (d ++ e) = dsum d + dsum e.
Proof. induction d as [|p d IH]; cbn; unfold dsum in *; cbn in *; lia. Qed.

(** ** The invariant *)

Section EncoderSpec.
Context `{Env}.

(** The size of an item is determined by its hash, and is not negative. *)
Context (size_of : string -> Z) (size_nonneg : forall h, 0 <= size_of h).

(** The multi-modal inputs of the requests, by request id. *)
Context (features : string -> list MultiModalFeatureSpec).
Context (features_size : forall rid f, f ∈ features rid ->
  get_num_embeds (mm_position f) = size_of (identifier f)).

Definition known (r : Request) : Prop := mm_features r = features (request_id r).

(** The hash of input [i] of request [rid]. *)
Definition hash_of (rid : string) (i : Z) : option string :=
  identifier <$> py_index (features rid) i.

(** Embeddings held by the cached entries. *)
Definition total (c : gmap string (gset string)) : Z :=
  map_fold (fun h _ acc => size_of h + acc) 0 c.

Lemma total_insert_new c h ids : c !! h = None -> total (<[h := ids]> c) = size_of h + total c.
Proof.
  intros Hh. unfold total. rewrite map_fold_insert_L; [done| |done]. intros. lia.
Qed.

Lemma total_delete c h ids : c !! h = Some ids -> total c = size_of h + total (delete h c).
Proof.
  intros Hh. unfold total. rewrite (map_fold_delete_L _ _ h ids); [done| |done]. intros. lia.
Qed.

Lemma total_insert_old c h ids ids' : c !! h = Some ids -> total (<[h := ids']> c) = total c.
Proof.
  intros Hh. rewrite (total_delete c h ids Hh), <- insert_delete_eq.
  apply total_insert_new, lookup_delete_eq.
Qed.

Definition ids_of (m : EncoderCacheManager) (rid : string) : gset Z :=
  default ∅ (request_cached_ids m !! rid).

Record encoder_wf (m : EncoderCacheManager) : Prop := {
  ew_free : num_free_slots m = cache_size m - total (cached m);
  ew_freeable : num_freeable_slots m = num_free_slots m + dsum (freeable m);
  ew_room : 0 <= num_free_slots m;
  ew_nodup : NoDup (freeable m).*1;
  ew_unref : forall h v, (h, v) ∈ freeable m <-> cached m !! h = Some ∅ /\ v = size_of h;
  ew_refs : forall h ids rid, cached m !! h = Some ids -> rid ∈ ids ->
              exists i, i ∈ ids_of m rid /\ hash_of rid i = Some h;
  ew_ids : forall rid i, i ∈ ids_of m rid ->
              exists h ids, hash_of rid i = Some h /\ cached m !! h = Some ids /\ rid ∈ ids
}.

Lemma new_encoder_cache_wf n : 0 <= n -> encoder_wf (new_encoder_cache n).
Proof.
  intros Hn. split; cbn.
  - unfold total. rewrite map_fold_empty. lia.
  - lia.
  - done.
  - constructor.
  - intros h v. rewrite lookup_empty, elem_of_nil. naive_solver.
  - intros h ids rid. by rewrite lookup_empty.
  - intros rid i. unfold ids_of. cbn. rewrite lookup_empty. by intros ?%elem_of_empty.
Qed.

Lemma dsum_unref m : encoder_wf m -> 0 <= dsum (freeable m).
Proof.
  intros Hwf. assert (forall h v, (h, v) ∈ freeable m -> 0 <= v) as Hv.
  { intros h v Hin. apply (ew_unref _ Hwf) in Hin as [_ ->]. apply size_nonneg. }
  clear Hwf. induction (freeable m) as [|[h v] d IH]; cbn; [done|].
  assert (0 <= v) by (apply (Hv h); by left).
  assert (0 <= dsum d) by (apply IH; intros x y Hin; apply (Hv x); by right).
  unfold dsum in *. lia.
Qed.

Lemma input_hash_known r i : known r -> input_hash r i = hash_of (request_id r) i.
Proof. unfold known, input_hash, hash_of. by intros ->. Qed.

Lemma embeds_known r i h : known r -> hash_of (request_id r) i = Some h ->
  get_num_encoder_embeds r i = Some (size_of h).
Proof.
  unfold known, get_num_encoder_embeds, hash_of. intros -> (f & Hf & ->)%fmap_Some.
  destruct (py_index_Some _ _ _ Hf) as [Hin Hlt].
  rewrite (proj2 (Z.ltb_lt _ _) Hlt), Hf. cbn. by rewrite (features_size (request_id r)).
Qed.

(** A request is added to the references of an entry. *)
Definition referenced (rid : string) (h : string) (i : Z) (m : EncoderCacheManager)
    : EncoderCacheManager :=
  add_request_id rid i (set_cached (<[h := {[rid]} ∪ default ∅ (cached m !! h)]> (cached m)) m).

Lemma ids_of_add rid i m rid' :
  ids_of (add_request_id rid i m) rid' =
  if decide (rid' = rid) then {[i]} ∪ ids_of m rid else ids_of m rid'.
Proof.
  unfold ids_of, add_request_id. cbn. destruct (decide (rid' = rid)) as [->|Hne].
  - by rewrite lookup_insert_eq.
  - by rewrite lookup_insert_ne.
Qed.

Lemma referenced_refs rid h i m :
  hash_of rid i = Some h ->
  (forall h ids rid, cached m !! h = Some ids -> rid ∈ ids ->
     exists i, i ∈ ids_of m rid /\ hash_of rid i = Some h) ->
  (forall rid i, i ∈ ids_of m rid ->
     exists h ids, hash_of rid i = Some h /\ cached m !! h = Some ids /\ rid ∈ ids) ->
  (forall h' ids rid', cached (referenced rid h i m) !! h' = Some ids -> rid' ∈ ids ->
     exists j, j ∈ ids_of (referenced rid h i m) rid' /\ hash_of rid' j = Some h') /\
  (forall rid' j, j ∈ ids_of (referenced rid h i m) rid' ->
     exists h' ids, hash_of rid' j = Some h' /\ cached (referenced rid h i m) !! h' = Some ids /\ rid' ∈ ids).
Proof.
  intros Hh H1 H2. unfold referenced. split.
  - intros h' ids rid'. rewrite ids_of_add. cbn.
    destruct (decide (h = h')) as [<-|Hne].
    + rewrite lookup_insert_eq. intros [= <-] [Hr|Hr]%elem_of_union.
      * apply elem_of_singleton in Hr as ->. rewrite decide_True by done. exists i.
        split; [apply elem_of_union; left; by apply elem_of_singleton|done].
      * destruct (cached m !! h) as [ids|] eqn:E; [|by apply elem_of_empty in Hr].
        destruct (H1 h ids rid' E Hr) as (j & Hj & Hjh). exists j. split; [|done].
        case_decide; [subst; apply elem_of_union; by right|done].
    + rewrite lookup_insert_ne by done. intros E Hr.
      destruct (H1 h' ids rid' E Hr) as (j & Hj & Hjh). exists j. split; [|done].
      case_decide; [subst; apply elem_of_union; by right|done].
  - assert (forall rid' j, j ∈ ids_of m rid' -> exists h' ids, hash_of rid' j = Some h' /\
      <[h := {[rid]} ∪ default ∅ (cached m !! h)]> (cached m) !! h' = Some ids /\ rid' ∈ ids) as Hold.
    { intros rid' j Hj. destruct (H2 rid' j Hj) as (h' & ids & Hjh & E & Hr). exists h'.
      destruct (decide (h = h')) as [<-|Hne].
      - eexists. rewrite lookup_insert_eq. split_and!; [done|done|]. rewrite E. cbn.
        apply elem_of_union. by right.
      - exists ids. by rewrite lookup_insert_ne. }
    intros rid' j. rewrite ids_of_add. cbn.
    destruct (decide (rid' = rid)) as [->|Hne]; [|apply Hold].
    intros [->%elem_of_singleton|Hj]%elem_of_union; [|by apply Hold].
    exists h. eexists. rewrite lookup_insert_eq. split_and!; [done|done|].
    apply elem_of_union. left. by apply elem_of_singleton.
Qed.

(** ** Operations *)

Lemma union_nonempty (rid : string) (X : gset string) : {[rid]} ∪ X <> ∅.
Proof. set_solver. Qed.

(** A hit takes a reference; an unreferenced entry stops being reclaimable. *)
Lemma check_and_update_spec m r i h :
  encoder_wf m -> known r -> hash_of (request_id r) i = Some h ->
  wp (check_and_update_cache r i) (fun b m' => encoder_wf m' /\
    b = bool_decide (is_Some (cached m !! h)) /\ num_free_slots m' = num_free_slots m /\
    cache_size m' = cache_size m /\
    (b = false -> m' = m) /\ (b = true -> i ∈ ids_of m' (request_id r))) m.
Proof.
  intros Hwf Hk Hh. pose proof Hwf as [W1 W2 W3 W4 W5 W6 W7].
  unfold check_and_update_cache. rewrite input_hash_known, Hh by done.
  wp_run. destruct (cached m !! h) as [ids|] eqn:Eh.
  2: { wp_run. rewrite bool_decide_eq_false_2 by (by intros []). by split_and!. }
  rewrite (bool_decide_eq_true_2 (is_Some (Some ids))) by (by eexists). apply wp_bind.
  set (m1 := if bool_decide (ids = ∅)
    then set_slots (num_free_slots m) (num_freeable_slots m - size_of h)
           (set_freeable (odict_del h (freeable m)) m) else m).
  assert (cached m1 = cached m /\ request_cached_ids m1 = request_cached_ids m /\
    num_free_slots m1 = num_free_slots m /\ cache_size m1 = cache_size m) as (C1 & C2 & C3 & C4).
  { unfold m1. by case_bool_decide. }
  eapply wp_mono with (Q := fun _ m' => m' = m1).
  - unfold m1. case_bool_decide as Hid; [|by apply wp_ret]. subst ids.
    assert (odict_get h (freeable m) = Some (size_of h)) as Hg
      by (apply odict_get_spec; [done|]; by apply W5).
    apply wp_bind, wp_get. rewrite Hg. wp_run. done.
  - intros ? m' ->. wp_run.
    set (m2 := add_request_id _ _ _).
    assert (m2 = referenced (request_id r) h i m1) as Em2 by done. clearbody m2. subst m2.
    assert (forall h ids rid, cached m1 !! h = Some ids -> rid ∈ ids ->
      exists i, i ∈ ids_of m1 rid /\ hash_of rid i = Some h) as W6'
      by (rewrite C1; unfold ids_of; rewrite C2; exact W6).
    assert (forall rid i, i ∈ ids_of m1 rid -> exists h ids, hash_of rid i = Some h /\
      cached m1 !! h = Some ids /\ rid ∈ ids) as W7'
      by (rewrite C1; unfold ids_of; rewrite C2; exact W7).
    destruct (referenced_refs _ h i m1 Hh W6' W7') as [R1 R2].
    split_and!; [|done|done|done|done|].
    + split; [| | | | |exact R1|exact R2]; unfold referenced; cbn; rewrite ?C1, ?C3, ?C4.
      * by rewrite (total_insert_old _ _ ids).
      * unfold m1. case_bool_decide as Hid; [|done]. cbn. subst ids.
        rewrite (odict_del_sum h _ (size_of h)); [lia|].
        apply odict_get_spec; [done|]. by apply W5.
      * done.
      * unfold m1. case_bool_decide; [|done]. cbn. by apply odict_del_spec.
      * rewrite Eh. cbn. intros x v. unfold m1.
        assert ((x, v) ∈ freeable (if bool_decide (ids = ∅) then
          set_slots (num_free_slots m) (num_freeable_slots m - size_of h)
            (set_freeable (odict_del h (freeable m)) m) else m) <-> (x, v) ∈ freeable m /\ x <> h) as ->.
        { case_bool_decide as Hid; cbn; [by apply odict_del_spec|].
          split; [|tauto]. intros Hin. split; [done|]. intros ->.
          apply W5 in Hin as [Hin _]. congruence. }
        rewrite W5. destruct (decide (h = x)) as [<-|Hne].
        -- rewrite lookup_insert_eq. split; [tauto|]. intros [[= Hu] _].
           by apply union_nonempty in Hu.
        -- rewrite lookup_insert_ne by done. naive_solver.
    + intros _. unfold referenced. rewrite ids_of_add, decide_True by done.
      apply elem_of_union. left. by apply elem_of_singleton.
Qed.

(** Entries evicted so far: a prefix of the freeable list. *)
Record evicted_entries (m : EncoderCacheManager) (ev rest : list (string * Z))
    (m' : EncoderCacheManager) : Prop := {
  ee_wf : encoder_wf m';
  ee_split : freeable m = ev ++ rest;
  ee_rest : freeable m' = rest;
  ee_freed : freed m' = freed m ++ ev.*1;
  ee_slots : num_free_slots m' = num_free_slots m + dsum ev;
  ee_freeable : num_freeable_slots m' = num_freeable_slots m;
  ee_size : cache_size m' = cache_size m;
  ee_ids : request_cached_ids m' = request_cached_ids m;
  ee_cached : forall h, cached m' !! h = if decide (h ∈ ev.*1) then None else cached m !! h
}.

Lemma evict_one m h v rest : encoder_wf m -> freeable m = (h, v) :: rest ->
  evicted_entries m [(h, v)] rest
    (set_slots (num_free_slots m + v) (num_freeable_slots m)
       (set_freed (freed m ++ [h]) (set_cached (delete h (cached m)) (set_freeable rest m)))).
Proof.
  intros [W1 W2 W3 W4 W5 W6 W7] Ef.
  assert (cached m !! h = Some ∅ /\ v = size_of h) as [Eh ->] by (apply W5; rewrite Ef; by left).
  rewrite Ef in W4. cbn in W4. apply NoDup_cons in W4 as [Hh Hnd].
  pose proof (size_nonneg h).
  split; cbn; try done; [|lia|].
  - split; cbn; try done.
    + rewrite W1, (total_delete _ h ∅ Eh). lia.
    + rewrite W2, Ef. unfold dsum. cbn. lia.
    + lia.
    + intros x w. destruct (decide (h = x)) as [<-|Hne].
      * rewrite lookup_delete_eq. split; [|naive_solver]. intros Hin. exfalso.
        apply Hh, list_elem_of_fmap. by exists (h, w).
      * rewrite lookup_delete_ne by done. rewrite <- W5, Ef, elem_of_cons. naive_solver.
    + intros x ids rid. destruct (decide (h = x)) as [<-|Hne]; [by rewrite lookup_delete_eq|].
      rewrite lookup_delete_ne by done. apply W6.
    + intros rid j Hj. destruct (W7 rid j Hj) as (x & ids & ? & E & ?). exists x, ids.
      split_and!; [done| |done]. rewrite lookup_delete_ne; [done|].
      intros <-. rewrite Eh in E. injection E as <-. set_solver.
  - intros x. destruct (decide (h = x)) as [<-|Hne].
    + rewrite lookup_delete_eq, decide_True; [done|]. by left.
    + rewrite lookup_delete_ne, decide_False; [done| |done].
      by intros ?%list_elem_of_singleton.
Qed.

Lemma evicted_entries_trans m ev1 r1 m1 ev2 r2 m2 :
  evicted_entries m ev1 r1 m1 -> evicted_entries m1 ev2 r2 m2 ->
  evicted_entries m (ev1 ++ ev2) r2 m2.
Proof.
  intros [A1 A2 A3 A4 A5 A6 A7 A8 A9] [B1 B2 B3 B4 B5 B6 B7 B8 B9].
  split; rewrite ?fmap_app, ?dsum_app; try congruence.
  - by rewrite A2, <- A3, B2, app_assoc.
  - by rewrite B4, A4, app_assoc.
  - lia.
  - intros h. rewrite B9, A9.
    destruct (decide (h ∈ ev1.*1 ++ ev2.*1)) as [Ha|Ha]; rewrite elem_of_app in Ha;
      destruct (decide (h ∈ ev2.*1)), (decide (h ∈ ev1.*1)); done || tauto.
Qed.

Lemma evicted_none m : encoder_wf m -> evicted_entries m [] (freeable m) m.
Proof.
  intros Hwf. split; try done.
  - cbn. by rewrite app_nil_r.
  - unfold dsum. cbn. lia.
Qed.

(** The loop ends with enough room: it never runs out of entries. *)
Lemma evict_loop_spec fuel n m :
  encoder_wf m -> n <= num_freeable_slots m -> (length (freeable m) <= fuel)%nat ->
  wp (evict_loop fuel n) (fun _ m' => n <= num_free_slots m' /\
    exists ev rest, evicted_entries m ev rest m' /\
      (ev <> [] -> num_free_slots m < n)) m.
Proof.
  revert m. induction fuel as [|fuel IH]; intros m Hwf Hn Hf; cbn [evict_loop];
    apply wp_bind, wp_get; destruct (Z.ltb_spec (num_free_slots m) n) as [Hlt|Hge].
  - exfalso. destruct (freeable m) eqn:E; [|cbn in Hf; lia].
    pose proof (ew_freeable _ Hwf) as W2. rewrite E in W2. unfold dsum in W2. cbn in W2. lia.
  - apply wp_ret. split; [done|]. exists [], (freeable m).
    split; [by apply evicted_none|done].
  - destruct (freeable m) as [|[h v] rest] eqn:E.
    { exfalso. pose proof (ew_freeable _ Hwf) as W2. rewrite E in W2. unfold dsum in W2. cbn in W2. lia. }
    pose proof (evict_one m h v rest Hwf E) as He.
    assert (cached m !! h = Some ∅) as Eh
      by (apply (proj1 (ew_unref _ Hwf h v)); rewrite E; by left).
    wp_run. rewrite Eh. wp_run.
    eapply wp_mono; [apply IH|].
    + apply He.
    + cbn. done.
    + cbn in Hf |- *. lia.
    + intros ? m' (Hr & ev & rest' & He' & _). split; [done|].
      exists ((h, v) :: ev), rest'. split; [|done].
      exact (evicted_entries_trans m [(h, v)] rest _ ev rest' m' He He').
  - apply wp_ret. split; [done|]. exists [], (freeable m).
    split; [by apply evicted_none|done].
Qed.

(** [can_allocate] says yes exactly when the budget and the reclaimable space
    suffice, and then the space is free. *)
Lemma can_allocate_spec m r i h budget t :
  encoder_wf m -> known r -> hash_of (request_id r) i = Some h ->
  wp (can_allocate r i budget t) (fun b m' =>
    b = (size_of h <=? budget) && (size_of h + t <=? num_freeable_slots m) /\
    (b = false -> m' = m) /\ (b = true -> size_of h + t <= num_free_slots m') /\
    exists ev rest, evicted_entries m ev rest m' /\
      (ev <> [] -> num_free_slots m < size_of h + t)) m.
Proof.
  intros Hwf Hk Hh. unfold can_allocate. rewrite (embeds_known r i h) by done.
  wp_run. destruct (Z.ltb_spec budget (size_of h)) as [Hb|Hb].
  { apply wp_ret. rewrite (proj2 (Z.leb_gt _ _) Hb). split_and!; [done|done|done|].
    exists [], (freeable m). split; [by apply evicted_none|done]. }
  rewrite (proj2 (Z.leb_le _ _) Hb). cbn [andb]. apply wp_bind, wp_get.
  pose proof (ew_freeable _ Hwf) as W2. pose proof (dsum_unref m Hwf) as Hd.
  destruct (Z.leb_spec (size_of h + t) (num_free_slots m)) as [Hf|Hf].
  { apply wp_ret. rewrite (proj2 (Z.leb_le _ _)) by lia. split_and!; [done|done|done|].
    exists [], (freeable m). split; [by apply evicted_none|done]. }
  destruct (Z.ltb_spec (num_freeable_slots m) (size_of h + t)) as [Hn|Hn].
  { apply wp_ret. rewrite (proj2 (Z.leb_gt _ _)) by lia. split_and!; [done|done|done|].
    exists [], (freeable m). split; [by apply evicted_none|done]. }
  apply wp_bind. eapply wp_mono; [apply evict_loop_spec; [done|done|lia]|].
  intros ? m' (Hr & ev & rest & He & _). apply wp_ret.
  rewrite (proj2 (Z.leb_le _ _)) by lia. split_and!; [done|done|done|].
  exists ev, rest. done.
Qed.

(** Allocating a new entry. *)
Lemma allocate_spec m r i h :
  encoder_wf m -> known r -> hash_of (request_id r) i = Some h ->
  cached m !! h = None -> size_of h <= num_free_slots m ->
  wp (allocate r i) (fun _ m' => encoder_wf m' /\
    num_free_slots m' = num_free_slots m - size_of h /\ cache_size m' = cache_size m /\
    cached m' !! h = Some {[request_id r]} /\ i ∈ ids_of m' (request_id r) /\
    freed m' = freed m) m.
Proof.
  intros Hwf Hk Hh Hnew Hroom. pose proof Hwf as [W1 W2 W3 W4 W5 W6 W7].
  pose proof (dsum_unref m Hwf) as Hd.
  unfold allocate. rewrite input_hash_known, Hh, (embeds_known r i h) by done.
  wp_run. rewrite Hnew. wp_run.
  apply wp_assert; [apply Z.leb_le; cbn; lia|]. wp_run.
  apply wp_assert; [apply Z.leb_le; cbn; lia|]. wp_run. cbn [cached set_cached].
  rewrite lookup_insert_eq. cbn [from_option id].
  assert ({[request_id r]} ∪ ∅ = ({[request_id r]} : gset string)) as -> by set_solver.
  rewrite insert_insert_eq.
  set (m' := set_slots _ _ _).
  assert (forall h' ids rid', cached m' !! h' = Some ids -> rid' ∈ ids ->
     exists j, j ∈ ids_of m' rid' /\ hash_of rid' j = Some h') as R1.
  { intros h' ids rid'. cbn. change (ids_of m' rid') with (ids_of (add_request_id (request_id r) i m) rid').
    rewrite ids_of_add. destruct (decide (h = h')) as [<-|Hne].
    - rewrite lookup_insert_eq. intros [= <-] ->%elem_of_singleton. rewrite decide_True by done.
      exists i. split; [apply elem_of_union; left; by apply elem_of_singleton|done].
    - rewrite lookup_insert_ne by done. intros E Hr.
      destruct (W6 h' ids rid' E Hr) as (j & Hj & Hjh). exists j. split; [|done].
      case_decide; [subst; apply elem_of_union; by right|done]. }
  assert (forall rid' j, j ∈ ids_of m' rid' ->
     exists h' ids, hash_of rid' j = Some h' /\ cached m' !! h' = Some ids /\ rid' ∈ ids) as R2.
  { intros rid' j. change (ids_of m' rid') with (ids_of (add_request_id (request_id r) i m) rid').
    rewrite ids_of_add. cbn.
    assert (forall rid' j, j ∈ ids_of m rid' -> exists h' ids, hash_of rid' j = Some h' /\
      <[h := {[request_id r]}]> (cached m) !! h' = Some ids /\ rid' ∈ ids) as Hold.
    { intros rid0 j0 Hj. destruct (W7 rid0 j0 Hj) as (h' & ids & ? & E & ?). exists h', ids.
      split_and!; [done| |done]. rewrite lookup_insert_ne; [done|]. intros <-. congruence. }
    destruct (decide (rid' = request_id r)) as [->|Hne]; [|apply Hold].
    intros [->%elem_of_singleton|Hj]%elem_of_union; [|by apply Hold].
    exists h, {[request_id r]}. rewrite lookup_insert_eq.
    split_and!; [done|done|by apply elem_of_singleton]. }
  split_and!; [|done|done|by cbn; rewrite lookup_insert_eq| |done].
  - split; [..|exact R1|exact R2]; cbn.
    + rewrite total_insert_new by done. lia.
    + rewrite W2. fold (dsum (freeable m)). lia.
    + lia.
    + done.
    + intros x v. rewrite W5. destruct (decide (h = x)) as [<-|Hne].
      * rewrite lookup_insert_eq, Hnew. split; [naive_solver|]. by intros [[= E] _].
      * by rewrite lookup_insert_ne.
  - change (ids_of m' (request_id r)) with (ids_of (add_request_id (request_id r) i m) (request_id r)).
    rewrite ids_of_add, decide_True by done. apply elem_of_union. left. by apply elem_of_singleton.
Qed.

(** Dropping an input id from a request. *)
Definition drop_id (rid : string) (i : Z) (m : EncoderCacheManager) : EncoderCacheManager :=
  match request_cached_ids m !! rid with
  | None => m
  | Some ids =>
      let ids' := ids ∖ {[i]} in
      set_request_ids (if bool_decide (ids' = (∅ : gset Z))
                       then delete rid (request_cached_ids m)
                       else <[rid := ids']> (request_cached_ids m)) m
  end.

Lemma ids_of_drop rid i m rid' :
  ids_of (drop_id rid i m) rid' =
  if decide (rid' = rid) then ids_of m rid ∖ {[i]} else ids_of m rid'.
Proof.
  unfold ids_of, drop_id. destruct (request_cached_ids m !! rid) as [ids|] eqn:E.
  - cbn. case_bool_decide as Hid.
    + destruct (decide (rid' = rid)) as [->|Hne].
      * rewrite lookup_delete_eq. cbn. by rewrite Hid.
      * by rewrite lookup_delete_ne.
    + destruct (decide (rid' = rid)) as [->|Hne].
      * by rewrite lookup_insert_eq.
      * by rewrite lookup_insert_ne.
  - destruct (decide (rid' = rid)) as [->|Hne]; [|done]. rewrite E. cbn. set_solver.
Qed.

Lemma drop_id_fields rid i m :
  cached (drop_id rid i m) = cached m /\ freeable (drop_id rid i m) = freeable m /\
  num_free_slots (drop_id rid i m) = num_free_slots m /\
  num_freeable_slots (drop_id rid i m) = num_freeable_slots m /\
  cache_size (drop_id rid i m) = cache_size m /\ freed (drop_id rid i m) = freed m.
Proof. unfold drop_id. by destruct (request_cached_ids m !! rid). Qed.

(** Nothing else references the hash of [i] on behalf of the request. *)
Lemma drop_keeps m rid i h :
  encoder_wf m -> hash_of rid i = Some h ->
  (i ∉ ids_of m rid \/ exists j, j ∈ ids_of m rid /\ j <> i /\ hash_of rid j = Some h) ->
  encoder_wf (drop_id rid i m).
Proof.
  intros [W1 W2 W3 W4 W5 W6 W7] Hh Hoth.
  destruct (drop_id_fields rid i m) as (F1 & F2 & F3 & F4 & F5 & _).
  split; rewrite ?F1, ?F2, ?F3, ?F4, ?F5; try done.
  - intros h' ids rid' E Hr. destruct (W6 h' ids rid' E Hr) as (j & Hj & Hjh).
    rewrite ids_of_drop. destruct (decide (rid' = rid)) as [->|Hne]; [|by exists j].
    destruct (decide (j = i)) as [->|Hji].
    + destruct Hoth as [Hn|(j' & Hj' & Hne & Hh')]; [done|]. exists j'.
      rewrite Hh in Hjh. injection Hjh as <-. split; [set_solver|done].
    + exists j. split; [set_solver|done].
  - intros rid' j. rewrite ids_of_drop. intros Hj. apply W7.
    destruct (decide (rid' = rid)) as [->|]; [set_solver|done].
Qed.

(** The last occurrence of [h] for the request is dropped. *)
Lemma drop_reference m rid i h refs :
  encoder_wf m -> hash_of rid i = Some h -> cached m !! h = Some refs -> refs <> ∅ ->
  (forall j, j ∈ ids_of m rid -> j <> i -> hash_of rid j <> Some h) ->
  let m1 := set_cached (<[h := refs ∖ {[rid]}]> (cached m)) (drop_id rid i m) in
  encoder_wf (if bool_decide (refs ∖ {[rid]} = ∅)
              then set_slots (num_free_slots m1) (num_freeable_slots m1 + size_of h)
                     (set_freeable (odict_set h (size_of h) (freeable m1)) m1) else m1).
Proof.
  intros [W1 W2 W3 W4 W5 W6 W7] Hh Eh Hne Hlast m1.
  destruct (drop_id_fields rid i m) as (F1 & F2 & F3 & F4 & F5 & _).
  assert (h ∉ (freeable m).*1) as Hnf.
  { intros ([x v] & Ex & Hin)%list_elem_of_fmap. cbn in Ex. subst x.
    apply W5 in Hin as [Hin _]. rewrite Eh in Hin. by injection Hin. }
  assert (forall h' ids rid', <[h := refs ∖ {[rid]}]> (cached m) !! h' = Some ids -> rid' ∈ ids ->
    exists j, j ∈ ids_of (drop_id rid i m) rid' /\ hash_of rid' j = Some h') as R1.
  { intros h' ids rid'. rewrite ids_of_drop. destruct (decide (h = h')) as [<-|Hn].
    - rewrite lookup_insert_eq. intros [= <-] [Hr Hx]%elem_of_difference.
      rewrite not_elem_of_singleton in Hx. rewrite decide_False by done. by apply (W6 h refs).
    - rewrite lookup_insert_ne by done. intros E Hr. destruct (W6 h' ids rid' E Hr) as (j & Hj & Hjh).
      exists j. split; [|done]. case_decide; [|done]. subst rid'.
      apply elem_of_difference. split; [done|]. apply not_elem_of_singleton. intros ->. congruence. }
  assert (forall rid' j, j ∈ ids_of (drop_id rid i m) rid' -> exists h' ids, hash_of rid' j = Some h' /\
    <[h := refs ∖ {[rid]}]> (cached m) !! h' = Some ids /\ rid' ∈ ids) as R2.
  { intros rid' j. rewrite ids_of_drop. intros Hj.
    assert (j ∈ ids_of m rid' /\ (rid' = rid -> j <> i)) as [Hj' Hji]
      by (destruct (decide (rid' = rid)) as [->|]; [set_solver|done]).
    destruct (W7 rid' j Hj') as (h' & ids & Hjh & E & Hr). exists h'.
    destruct (decide (h = h')) as [<-|Hn].
    - exists (refs ∖ {[rid]}). rewrite lookup_insert_eq. split_and!; [done|done|].
      rewrite Eh in E. injection E as <-. apply elem_of_difference. split; [done|].
      apply not_elem_of_singleton. intros ->. exact (Hlast j Hj' (Hji eq_refl) Hjh).
    - exists ids. by rewrite lookup_insert_ne. }
  case_bool_decide as Hem; (split; [..|exact R1|exact R2]); unfold m1; cbn;
    rewrite ?F2, ?F3, ?F4, ?F5, ?(total_insert_old _ _ refs) by done; try done.
  - rewrite odict_set_new, dsum_app by done. unfold dsum at 2. cbn. lia.
  - rewrite odict_set_new, fmap_app by done. apply NoDup_app.
    split_and!; [done| |apply NoDup_singleton]. intros x Hx ->%list_elem_of_singleton. done.
  - intros x v. rewrite odict_set_new, elem_of_app, list_elem_of_singleton, W5 by done.
    destruct (decide (h = x)) as [<-|Hn].
    + rewrite lookup_insert_eq, Eh. split; [intros [[[= ?] _]|[= ->]]; [done|by rewrite Hem]|].
      intros [_ ->]. by right.
    + rewrite lookup_insert_ne by done. naive_solver.
  - intros x v. rewrite W5. destruct (decide (h = x)) as [<-|Hn].
    + rewrite lookup_insert_eq, Eh. split; [intros [[= ?] _]; done|].
      intros [[= Hx] _]. done.
    + by rewrite lookup_insert_ne.
Qed.

(** Whether another input of the request has the same hash. *)
Lemma others_spec rid h (l : list Z) :
  (forall j, j ∈ l -> is_Some (hash_of rid j)) ->
  exists bs, mapM (fun j => x ← hash_of rid j; Some (bool_decide (x = h))) l = Some bs /\
    (existsb id bs = true <-> exists j, j ∈ l /\ hash_of rid j = Some h).
Proof.
  induction l as [|j l IH]; intros Hl.
  { exists []. split; [done|]. split; [done|]. by intros (j & []%elem_of_nil & _). }
  destruct IH as (bs & E & Hbs); [intros k Hk; apply Hl; by right|].
  destruct (Hl j) as [x Hx]; [by left|]. exists (bool_decide (x = h) :: bs).
  split; [cbn; by rewrite Hx, E|]. cbn. unfold id at 1. rewrite orb_true_iff, bool_decide_eq_true, Hbs.
  split.
  - intros [->|(k & Hk & ?)]; [exists j; split; [by left|done]|exists k; split; [by right|done]].
  - intros (k & [->|Hk]%elem_of_cons & E'); [left; congruence|right; by exists k].
Qed.

(** What freeing one input does. *)
Record freed_input (m : EncoderCacheManager) (rid : string) (i : Z) (m' : EncoderCacheManager)
    : Prop := {
  fi_wf : encoder_wf m';
  fi_ids : forall rid', ids_of m' rid' =
             if decide (rid' = rid) then ids_of m rid ∖ {[i]} else ids_of m rid';
  fi_slots : num_free_slots m' = num_free_slots m;
  fi_size : cache_size m' = cache_size m;
  fi_cached : forall h, is_Some (cached m' !! h) <-> is_Some (cached m !! h)
}.

Lemma free_encoder_input_spec m r i h :
  encoder_wf m -> known r -> hash_of (request_id r) i = Some h ->
  wp (free_encoder_input r i) (fun _ m' => freed_input m (request_id r) i m') m.
Proof.
  intros Hwf Hk Hh. pose proof Hwf as [W1 W2 W3 W4 W5 W6 W7].
  unfold free_encoder_input. rewrite input_hash_known, Hh by done.
  apply wp_bind. eapply wp_of_option; [done|]. apply wp_bind, wp_modify.
  fold (drop_id (request_id r) i m). apply wp_bind, wp_get.
  destruct (drop_id_fields (request_id r) i m) as (F1 & F2 & F3 & F4 & F5 & _).
  assert (encoder_wf (drop_id (request_id r) i m) ->
    freed_input m (request_id r) i (drop_id (request_id r) i m)) as Hkeep.
  { intros Hwf'. split; [done|intros; apply ids_of_drop|done|done|]. intros h'. by rewrite F1. }
  rewrite F1. destruct (cached m !! h) as [refs|] eqn:Eh.
  2: { apply wp_ret, Hkeep. eapply drop_keeps; [done|done|]. left. intros Hin.
       destruct (W7 _ _ Hin) as (h' & ids & E' & Ec & _). congruence. }
  case_bool_decide as Href.
  { apply wp_ret, Hkeep. eapply drop_keeps; [done|done|]. left. intros Hin.
    destruct (W7 _ _ Hin) as (h' & ids & E' & Ec & Hr). rewrite Hh in E'. injection E' as <-.
    rewrite Eh in Ec. injection Ec as <-. rewrite Href in Hr. by apply elem_of_empty in Hr. }
  set (l := int_set_order _).
  assert (forall j, j ∈ l <-> j ∈ ids_of m (request_id r) /\ j <> i) as Hl.
  { intros j. unfold l. rewrite (int_set_order_perm _), elem_of_elements.
    change (get_cached_input_ids r (drop_id (request_id r) i m))
      with (ids_of (drop_id (request_id r) i m) (request_id r)).
    rewrite ids_of_drop, decide_True by done.
    rewrite elem_of_difference, elem_of_singleton. done. }
  destruct (others_spec (request_id r) h l) as (bs & Eb & Hb).
  { intros j [Hj _]%Hl. destruct (W7 _ _ Hj) as (h' & ? & -> & _). by eexists. }
  apply wp_bind. apply (wp_of_option _ _ _ _ bs).
  { unfold input_hash. rewrite Hk. exact Eb. }
  destruct (existsb id bs) eqn:Ex.
  { apply wp_ret, Hkeep. eapply drop_keeps; [done|done|]. right.
    destruct (proj1 Hb eq_refl) as (j & [Hj Hne]%Hl & Hjh). by exists j. }
  assert (forall j, j ∈ ids_of m (request_id r) -> j <> i -> hash_of (request_id r) j <> Some h) as Hlast.
  { intros j Hj Hne Hjh. assert (false = true); [|done]. apply Hb. exists j. split; [by apply Hl|done]. }
  pose proof (drop_reference m (request_id r) i h refs Hwf Hh Eh Href Hlast) as Hw. cbn zeta in Hw.
  apply wp_bind, wp_modify. rewrite F1.
  assert (forall x, is_Some (<[h := refs ∖ {[request_id r]}]> (cached m) !! x) <-> is_Some (cached m !! x)) as Hdom.
  { intros x. destruct (decide (h = x)) as [<-|Hn]; [|by rewrite lookup_insert_ne].
    rewrite lookup_insert_eq, Eh. split; intros _; by eexists. }
  case_bool_decide as Hem.
  - rewrite (embeds_known r i h) by done. apply wp_bind. eapply wp_of_option; [done|].
    apply wp_modify. split; [exact Hw|intros rid'; apply ids_of_drop|done|done|exact Hdom].
  - apply wp_ret. split; [exact Hw|intros rid'; apply ids_of_drop|done|done|exact Hdom].
Qed.

(** Freeing a request drops all its references. *)
Lemma encoder_free_spec m r :
  encoder_wf m -> known r ->
  wp (encoder_free r) (fun _ m' => encoder_wf m' /\ ids_of m' (request_id r) = ∅ /\
    num_free_slots m' = num_free_slots m /\ cache_size m' = cache_size m /\
    (forall h ids, cached m' !! h = Some ids -> request_id r ∉ ids) /\
    (forall h, is_Some (cached m' !! h) <-> is_Some (cached m !! h))) m.
Proof.
  intros Hwf Hk. unfold encoder_free. apply wp_bind, wp_gets.
  change (get_cached_input_ids r m) with (ids_of m (request_id r)).
  set (l := int_set_order (ids_of m (request_id r))).
  assert (forall j, j ∈ l <-> j ∈ ids_of m (request_id r)) as Hl.
  { intros j. unfold l. by rewrite (int_set_order_perm _), elem_of_elements. }
  eapply wp_mono; [apply (wp_for_each (fun pre m' => encoder_wf m' /\
    ids_of m' (request_id r) = ids_of m (request_id r) ∖ list_to_set pre /\
    num_free_slots m' = num_free_slots m /\ cache_size m' = cache_size m /\
    (forall h, is_Some (cached m' !! h) <-> is_Some (cached m !! h))))|].
  - split_and!; [done| |done|done|done]. cbn. set_solver.
  - intros pre i post m1 Hpre (Hw1 & Hi1 & Hs1 & Hc1 & Hd1).
    assert (i ∈ ids_of m (request_id r)) as Hin.
    { apply Hl. rewrite Hpre. apply elem_of_app. right. by left. }
    destruct (ew_ids _ Hwf _ _ Hin) as (h & ids & Hh & _).
    eapply wp_mono; [apply (free_encoder_input_spec m1 r i h); [done|done|done]|].
    intros ? m2 [G1 G2 G3 G4 G5]. split_and!; [done| |congruence|congruence|].
    + rewrite G2, decide_True, Hi1 by done. rewrite list_to_set_app_L. cbn. set_solver.
    + intros x. by rewrite G5.
  - intros ? m' (Hw & Hi & Hs & Hc & Hd).
    assert (ids_of m' (request_id r) = ∅) as He.
    { rewrite Hi. apply set_eq. intros j. rewrite elem_of_difference, elem_of_list_to_set, Hl. set_solver. }
    split_and!; [done|done|done|done| |done].
    intros h ids Hh Hr. destruct (ew_refs _ Hw h ids _ Hh Hr) as (j & Hj & _).
    rewrite He in Hj. by apply elem_of_empty in Hj.
Qed.

(** ** Theorems *)

(** Distinct cached items hold at most the total. *)
Lemma dsum_le_total d c : NoDup d.*1 ->
  (forall h v, (h, v) ∈ d -> is_Some (c !! h) /\ v = size_of h) -> dsum d <= total c.
Proof.
  revert c. induction d as [|[h v] d IH]; intros c Hnd Hd.
  - unfold dsum. cbn. clear Hd. induction c as [|h ids c Hh IH] using map_ind.
    + unfold total. by rewrite map_fold_empty.
    + rewrite total_insert_new by done. pose proof (size_nonneg h). lia.
  - cbn in Hnd. apply NoDup_cons in Hnd as [Hh Hnd].
    destruct (Hd h v) as [[ids Eh] ->]; [by left|].
    rewrite (total_delete c h ids Eh). unfold dsum in *. cbn.
    enough (foldr (fun (p : string * Z) acc => p.2 + acc) 0 d <= total (delete h c)) by lia.
    apply IH; [done|]. intros x w Hin. destruct (Hd x w) as [Hx ->]; [by right|].
    split; [|done]. rewrite lookup_delete_ne; [done|]. intros <-. apply Hh.
    apply list_elem_of_fmap. by exists (h, size_of h).
Qed.

(** One call of the scheduler: a new entry is allocated only when the item is
    not cached and the space is there, as [can_allocate] ensures. *)
Inductive encoder_step (m : EncoderCacheManager) : EncoderCacheManager -> Prop :=
| enc_check r i h b m' :
    known r -> hash_of (request_id r) i = Some h ->
    check_and_update_cache r i m = Ok b m' -> encoder_step m m'
| enc_can_allocate r i h budget t b m' :
    known r -> hash_of (request_id r) i = Some h ->
    can_allocate r i budget t m = Ok b m' -> encoder_step m m'
| enc_allocate r i h m' :
    known r -> hash_of (request_id r) i = Some h ->
    cached m !! h = None -> size_of h <= num_free_slots m ->
    allocate r i m = Ok tt m' -> encoder_step m m'
| enc_free_input r i h m' :
    known r -> hash_of (request_id r) i = Some h ->
    free_encoder_input r i m = Ok tt m' -> encoder_step m m'
| enc_free r m' :
    known r -> encoder_free r m = Ok tt m' -> encoder_step m m'
| enc_get_freed l m' :
    get_freed_mm_hashes m = Ok l m' -> encoder_step m m'
| enc_reset m' :
    encoder_reset m = Ok tt m' -> encoder_step m m'.

Lemma encoder_step_wf m m' : encoder_wf m -> 0 <= cache_size m -> encoder_step m m' ->
  encoder_wf m' /\ cache_size m' = cache_size m.
Proof.
  intros Hwf H0 Hs.
  destruct Hs as [r i h b m' Hk Hh E|r i h bu t b m' Hk Hh E|r i h m' Hk Hh Hn Hr E
    |r i h m' Hk Hh E|r m' Hk E|l m' E|m' E].
  - pose proof (check_and_update_spec m r i h Hwf Hk Hh) as Hw. unfold wp in Hw. rewrite E in Hw. tauto.
  - pose proof (can_allocate_spec m r i h bu t Hwf Hk Hh) as Hw. unfold wp in Hw. rewrite E in Hw.
    destruct Hw as (_ & _ & _ & ev & rest & He & _). split; apply He.
  - pose proof (allocate_spec m r i h Hwf Hk Hh Hn Hr) as Hw. unfold wp in Hw. rewrite E in Hw. tauto.
  - pose proof (free_encoder_input_spec m r i h Hwf Hk Hh) as Hw. unfold wp in Hw. rewrite E in Hw.
    split; apply Hw.
  - pose proof (encoder_free_spec m r Hwf Hk) as Hw. unfold wp in Hw. rewrite E in Hw. tauto.
  - unfold get_freed_mm_hashes, gets, modify, mbind, M_bind in E. injection E as _ <-.
    split; [|done]. by destruct Hwf; split.
  - unfold encoder_reset, modify in E. injection E as <-. split; [|done].
    exact (new_encoder_cache_wf (cache_size m) H0).
Qed.

(** C38.  The encoder cache's invariant in every reachable state: the free slots
    are the capacity less the embeddings of the cached items and never
    negative, the reclaimable slots add exactly the unreferenced items, and an
    item is referenced by a request exactly when the request holds one of its
    inputs; so an item in use is never counted as reclaimable. *)
Theorem encoder_cache_invariant n m :
  0 <= n -> rtc encoder_step (new_encoder_cache n) m ->
  encoder_wf m /\ 0 <= num_free_slots m <= num_freeable_slots m /\
  num_freeable_slots m <= cache_size m /\ cache_size m = n.
Proof.
  intros Hn Hr.
  assert (encoder_wf m /\ cache_size m = n) as [Hwf Hc].
  { assert (encoder_wf (new_encoder_cache n) /\ cache_size (new_encoder_cache n) = n) as H0
      by (split; [by apply new_encoder_cache_wf|done]).
    induction Hr as [m0|m0 m1 m2 Hs _ IH]; [done|]. destruct H0 as [Hw0 Hc0].
    destruct (encoder_step_wf m0 m1 Hw0) as [Hw1 Hc1]; [lia|done|].
    apply IH. split; [done|congruence]. }
  pose proof (dsum_unref m Hwf) as Hd. pose proof Hwf as [W1 W2 W3 _ W5 _ _].
  split_and!; [done|done|lia| |done].
  assert (dsum (freeable m) <= total (cached m)) as Hle; [|lia].
  apply dsum_le_total; [apply Hwf|]. intros h v Hin. apply W5 in Hin as [E ->].
  split; [by eexists|done].
Qed.

(** C39.  [can_allocate]: it terminates without error and says yes exactly when
    the item fits the compute budget and the reclaimable space (together with
    what is already scheduled).  A yes leaves enough free slots; it evicts only
    unreferenced items, oldest first, and only when the free slots do not
    suffice; a no changes nothing. *)
Theorem can_allocate_correct m r i h budget t :
  encoder_wf m -> known r -> hash_of (request_id r) i = Some h ->
  exists b m', can_allocate r i budget t m = Ok b m' /\
    b = (size_of h <=? budget) && (size_of h + t <=? num_freeable_slots m) /\
    (b = false -> m' = m) /\ (b = true -> size_of h + t <= num_free_slots m') /\
    encoder_wf m' /\
    exists ev rest, freeable m = ev ++ rest /\ freeable m' = rest /\
      freed m' = freed m ++ ev.*1 /\ (ev <> [] -> num_free_slots m < size_of h + t) /\
      forall x ids, cached m !! x = Some ids -> ids <> ∅ -> cached m' !! x = Some ids.
Proof.
  intros Hwf Hk Hh.
  destruct (wp_ok _ _ _ (can_allocate_spec m r i h budget t Hwf Hk Hh))
    as (b & m' & E & H1 & H2 & H3 & ev & rest & He & H4).
  exists b, m'. split_and!; [done|done|done|done|apply He|].
  exists ev, rest. split_and!; [apply He..|done|].
  intros x ids Hx Hne. rewrite (ee_cached _ _ _ _ He), decide_False; [done|].
  intros ([y v] & -> & Hin)%list_elem_of_fmap. cbn in Hx.
  assert ((y, v) ∈ freeable m) as Hf by (rewrite (ee_split _ _ _ _ He); apply elem_of_app; by left).
  apply (ew_unref _ Hwf) in Hf as [Hf _]. rewrite Hx in Hf. by injection Hf.
Qed.

(** Allocate after [can_allocate]: when the item is not cached and
    [can_allocate] has said yes, [allocate] passes its assertions, registers
    the item with the request as its only reference, and takes exactly its
    size. *)
Theorem can_allocate_then_allocate m r i h budget t m1 :
  encoder_wf m -> known r -> hash_of (request_id r) i = Some h -> cached m !! h = None -> 0 <= t ->
  can_allocate r i budget t m = Ok true m1 ->
  exists m2, allocate r i m1 = Ok tt m2 /\ encoder_wf m2 /\
    num_free_slots m2 = num_free_slots m1 - size_of h /\ t <= num_free_slots m2 /\
    cached m2 !! h = Some {[request_id r]}.
Proof.
  intros Hwf Hk Hh Hnew Ht E.
  pose proof (can_allocate_spec m r i h budget t Hwf Hk Hh) as Hw. unfold wp in Hw. rewrite E in Hw.
  destruct Hw as (_ & _ & Hroom & ev & rest & He & _). specialize (Hroom eq_refl).
  assert (cached m1 !! h = None) as Hnew1.
  { rewrite (ee_cached _ _ _ _ He). by case_decide. }
  destruct (wp_ok _ _ _ (allocate_spec m1 r i h (ee_wf _ _ _ _ He) Hk Hh Hnew1 ltac:(lia)))
    as ([] & m2 & E2 & A1 & A2 & _ & A4 & _).
  exists m2. split_and!; [done|done|done|lia|done].
Qed.

(** Releasing a request: [free] drops every reference the request holds,
    in whatever order its inputs are visited; nothing leaves the cache and the
    free slots do not change, so the outputs stay available until space is
    needed. *)
Theorem encoder_free_correct m r :
  encoder_wf m -> known r ->
  exists m', encoder_free r m = Ok tt m' /\ encoder_wf m' /\
    ids_of m' (request_id r) = ∅ /\ num_free_slots m' = num_free_slots m /\
    (forall h ids, cached m' !! h = Some ids -> request_id r ∉ ids) /\
    (forall h, is_Some (cached m' !! h) <-> is_Some (cached m !! h)).
Proof.
  intros Hwf Hk.
  destruct (wp_ok _ _ _ (encoder_free_spec m r Hwf Hk)) as ([] & m' & E & F1 & F2 & F3 & _ & F5 & F6).
  by exists m'.
Qed.

End EncoderSpec.

(** ** Concrete runs: three images of four embeddings, the first one repeated *)

Definition enc_features (rid : string) : list MultiModalFeatureSpec :=
  [demo_image "cat" 0 4; demo_image "dog" 5 4; demo_image "cat" 10 4].
Definition enc_size (h : string) : Z := 4.
Definition enc_request : Request := demo_request None None (enc_features "req") [].

Lemma enc_size_nonneg h : 0 <= enc_size h.
Proof. unfold enc_size. lia. Qed.

Lemma enc_features_size rid f : f ∈ enc_features rid ->
  get_num_embeds (mm_position f) = enc_size (identifier f).
Proof. revert f. apply Forall_forall. repeat constructor. Qed.

Lemma enc_known : known enc_features enc_request.
Proof. reflexivity. Qed.

Lemma enc_hash : hash_of enc_features (request_id enc_request) 0 = Some "cat"%string.
Proof. reflexivity. Qed.

Definition enc_after {A} (x : M EncoderCacheManager A) (m : EncoderCacheManager) : EncoderCacheManager :=
  match x m with Ok _ m' | Raise _ m' => m' end.
Definition enc0 : EncoderCacheManager := new_encoder_cache 6.
Definition enc1 : EncoderCacheManager := enc_after (allocate enc_request 0) enc0.

Lemma enc_reach : rtc (encoder_step enc_size enc_features) (new_encoder_cache 6) enc1.
Proof.
  apply rtc_once. apply (enc_allocate _ _ _ enc_request 0 "cat"%string); [done|done|done| |].
  - unfold enc_size. cbn. lia.
  - vm_compute. reflexivity.
Qed.

Lemma encoder_cache_invariant_witness :
  encoder_wf enc_size enc_features enc1 /\ num_free_slots enc1 = 2.
Proof.
  split; [|vm_compute; reflexivity].
  apply (encoder_cache_invariant enc_size enc_size_nonneg enc_features enc_features_size 6 enc1);
    [lia|exact enc_reach].
Defined.

Lemma enc0_wf : encoder_wf enc_size enc_features enc0.
Proof. apply new_encoder_cache_wf. lia. Qed.

Lemma enc1_wf : encoder_wf enc_size enc_features enc1.
Proof.
  apply (encoder_step_wf enc_size enc_size_nonneg enc_features enc_features_size enc0 enc1);
    [exact enc0_wf|by vm_compute|].
  apply (enc_allocate _ _ _ enc_request 0 "cat"%string); [done|done|done| |].
  - unfold enc_size. cbn. lia.
  - vm_compute. reflexivity.
Qed.

(** The cached image is referenced, so a second one of the same size has no
    room in six slots. *)
Lemma can_allocate_correct_witness :
  exists m', can_allocate enc_request 1 100 0 enc1 = Ok false m' /\ m' = enc1.
Proof.
  destruct (can_allocate_correct enc_size enc_size_nonneg enc_features enc_features_size
    enc1 enc_request 1 "dog"%string 100 0 enc1_wf enc_known eq_refl) as (b & m' & E & Hb & Hf & _).
  assert (b = false) as -> by (rewrite Hb; vm_compute; reflexivity).
  exists m'. split; [exact E|]. by apply Hf.
Defined.

Lemma can_allocate_then_allocate_witness :
  exists m2, allocate enc_request 0 enc0 = Ok tt m2 /\ num_free_slots m2 = 2.
Proof.
  destruct (can_allocate_then_allocate enc_size enc_size_nonneg enc_features enc_features_size
    enc0 enc_request 0 "cat"%string 100 1 enc0) as (m2 & E & _ & Hs & _).
  - exact enc0_wf.
  - exact enc_known.
  - exact enc_hash.
  - reflexivity.
  - lia.
  - vm_compute. reflexivity.
  - exists m2. split; [exact E|]. rewrite Hs. vm_compute. reflexivity.
Defined.

Lemma encoder_free_correct_witness :
  exists m', encoder_free enc_request enc1 = Ok tt m' /\ num_free_slots m' = 2.
Proof.
  destruct (encoder_free_correct enc_size enc_size_nonneg enc_features enc_features_size
    enc1 enc_request enc1_wf enc_known) as (m' & E & _ & _ & Hs & _).
  exists m'. split; [exact E|]. rewrite Hs. vm_compute. reflexivity.
Defined.
