(* ===== verification/SchedUtils.v ===== *)
(** * Stop checks and list helpers of the scheduler

    Models [vllm/v1/core/sched/utils.py]: the repetition detector
    ([_has_repeating_pattern], [check_sequence_repetition]), [remove_all] and
    [check_stop].  An index out of range is the [None] of the detector and the
    [IndexError] of the stop check; the theorems show that neither happens. *)
From Stdlib Require Import ZArith Lia.
From stdpp Require Import base tactics gmap strings numbers option list.
From S2P Require Import Prelude Request.

Local Open Scope Z_scope.

(** ** Operations *)

(** The inner loop of [_has_repeating_pattern]: [for m in ms]. *)
Fixpoint repeats_at (token_ids : list Z) (pattern_len n target_token : Z) (ms : list Z)
    : option bool :=
  match ms with
  | [] => Some true
  | m :: ms' =>
      t ← py_index token_ids (- (pattern_len * m + n));
      if t =? target_token then repeats_at token_ids pattern_len n target_token ms'
      else Some false
  end.

(** The outer loop: [for n in ns]. *)
Fixpoint pattern_loop (token_ids : list Z) (pattern_len repetition_min_count : Z) (ns : list Z)
    : option bool :=
  match ns with
  | [] => Some true
  | n :: ns' =>
      target_token ← py_index token_ids (- n);
      ok ← repeats_at token_ids pattern_len n target_token (py_range 1 repetition_min_count);
      if ok : bool then pattern_loop token_ids pattern_len repetition_min_count ns'
      else Some false
  end.

(** [_has_repeating_pattern] *)
Definition has_repeating_pattern (token_ids : list Z) (pattern_len repetition_min_count : Z)
    : option bool :=
  pattern_loop token_ids pattern_len repetition_min_count (py_range 1 (pattern_len + 1)).

(** [for pattern_len in lens] of [check_sequence_repetition]. *)
Fixpoint repetition_loop (token_ids : list Z) (count : Z) (lens : list Z) : option bool :=
  match lens with
  | [] => Some false
  | pattern_len :: lens' =>
      if zlen token_ids <? pattern_len * count then Some false
      else found ← has_repeating_pattern token_ids pattern_len count;
           if found : bool then Some true else repetition_loop token_ids count lens'
  end.

(** [check_sequence_repetition] *)
Definition check_sequence_repetition (token_ids : list Z) (p : RepetitionDetectionParams)
    : option bool :=
  let lo := if min_pattern_size p <=? 0 then 1 else min_pattern_size p in
  if (max_pattern_size p <=? 0) || (min_count p <? 2) || (max_pattern_size p <? lo)
  then Some false
  else repetition_loop token_ids (min_count p) (py_range lo (max_pattern_size p + 1)).

(** [remove_all]: the returned list, and the contents of the argument list
    after the call (the single-item path removes in place and returns the
    argument).  [items] lists the elements of the set. *)
Definition remove_all {A} `{EqDecision A} (lst items : list A) : list A * list A :=
  match items with
  | [] => (lst, lst)
  | [item] =>
      let lst' := default lst (py_remove item lst) in (lst', lst')
  | _ => (filter (fun x => x ∉ items) lst, lst)
  end.

(** [check_stop] *)
Definition check_stop (max_model_len : Z) : M Request bool :=
  r ← get;
  assert_ (negb (bool_decide (is_Some (pooling_params r)))) ;;
  sp ← of_option AssertionError (sampling_params r);
  last_token_id ← of_option IndexError (py_index (output_token_ids r) (-1));
  if bool_decide (eos_token_id sp = Some last_token_id) then
    modify (set_status FINISHED_STOPPED) ;; mret true
  else if bool_decide (last_token_id ∈ default [] (stop_token_ids sp)) then
    modify (set_status FINISHED_STOPPED) ;;
    modify (set_stop_reason (Some (StopToken last_token_id))) ;; mret true
  else if (max_model_len <=? num_tokens r) || (max_tokens r <=? num_output_tokens r) then
    modify (set_status FINISHED_LENGTH_CAPPED) ;; mret true
  else if num_output_tokens r <? min_tokens sp then mret false
  else
    match repetition_detection sp with
    | None => mret false
    | Some p =>
        found ← of_option IndexError (check_sequence_repetition (output_token_ids r) p);
        if found : bool then
          modify (set_status FINISHED_REPETITION) ;;
          modify (set_stop_reason (Some (StopText "repetition_detected"))) ;; mret true
        else mret false
    end.

(** ** Periodic lists *)

(** The first [c] chunks of a list repeat [pat] exactly when every position of
    the chunks holds the pattern's element. *)
Lemma lookup_concat_replicate {A} (pat rest : list A) c m n :
  (m < c)%nat -> (n < length pat)%nat ->
  (concat (replicate c pat) ++ rest) !! (length pat * m + n)%nat = pat !! n.
Proof.
  revert m. induction c as [|c IH]; intros m Hm Hn; [lia|].
  cbn [replicate concat]. rewrite <- app_assoc. destruct m as [|m].
  - rewrite Nat.mul_0_r. by rewrite lookup_app_l.
  - rewrite lookup_app_r by lia. rewrite <- (IH m) by lia. f_equal. lia.
Qed.

Lemma periodic_split {A} (pat ys : list A) c :
  (forall m n, (m < c)%nat -> (n < length pat)%nat -> ys !! (length pat * m + n)%nat = pat !! n) ->
  exists rest, ys = concat (replicate c pat) ++ rest.
Proof.
  revert ys. induction c as [|c IH]; intros ys H; [by exists ys|].
  destruct (IH (drop (length pat) ys)) as (rest & Hrest).
  { intros m n Hm Hn. rewrite lookup_drop. rewrite <- (H (S m) n) by lia. f_equal. lia. }
  exists rest. cbn [replicate concat]. rewrite <- app_assoc, <- Hrest.
  rewrite <- (take_drop (length pat) ys) at 1. f_equal.
  apply list_eq. intros n. destruct (Nat.lt_ge_cases n (length pat)) as [Hn|Hn].
  - rewrite lookup_take_lt by lia. rewrite <- (H 0%nat n) by lia. f_equal. lia.
  - rewrite lookup_ge_None_2 by (rewrite length_take; lia). by rewrite lookup_ge_None_2.
Qed.

Lemma reverse_concat_replicate {A} (pat : list A) c :
  reverse (concat (replicate c pat)) = concat (replicate c (reverse pat)).
Proof.
  induction c as [|c IH]; [done|].
  rewrite replicate_S_end at 1. rewrite concat_app, reverse_app. cbn.
  by rewrite app_nil_r, IH.
Qed.

(** ** The repetition detector *)

(** [token_ids] ends with [c] copies of a pattern of [pl] tokens. *)
Definition ends_repeating (token_ids : list Z) (pl c : Z) : Prop :=
  exists pre pat, zlen pat = pl /\ token_ids = pre ++ concat (replicate (Z.to_nat c) pat).

Section Detector.
Variable token_ids : list Z.
Variables pl c : Z.
Hypothesis Hpl : 1 <= pl.
Hypothesis Hc : 2 <= c.
Hypothesis Hfit : pl * c <= zlen token_ids.

(** Token at distance [k] from the end. *)
Abbreviation back k := (reverse token_ids !! Z.to_nat k).

Lemma repeats_at_spec n target m0 k :
  1 <= n <= pl -> 1 <= m0 -> m0 + Z.of_nat k <= c -> back (n - 1) = Some target ->
  exists b, repeats_at token_ids pl n target (seqZ m0 (Z.of_nat k)) = Some b /\
    (b = true <-> forall m, m0 <= m < m0 + Z.of_nat k -> back (pl * m + n - 1) = Some target).
Proof.
  intros Hn. revert m0. induction k as [|k IH]; intros m0 Hm0 Hk Ht.
  { exists true. split; [done|]. split; [|done]. intros _ m Hm. lia. }
  rewrite seqZ_cons by lia. cbn [repeats_at].
  replace (Z.pred (Z.of_nat (S k))) with (Z.of_nat k) by lia.
  assert (pl * m0 + n <= pl * c) as Hb by nia.
  rewrite py_index_neg by nia. cbn [mbind option_bind].
  assert (Z.to_nat (pl * m0 + n - 1) < length (reverse token_ids))%nat as Hlt
    by (rewrite length_reverse; unfold zlen in *; nia).
  apply lookup_lt_is_Some_2 in Hlt as [t Et]. rewrite Et. cbn.
  destruct (Z.eqb_spec t target) as [->|Hne].
  - destruct (IH (Z.succ m0)) as (b & -> & Hb'); [lia|lia|done|].
    exists b. split; [done|]. rewrite Hb'. split; intros H m Hm.
    + destruct (decide (m = m0)) as [->|]; [done|]. apply H. lia.
    + apply H. lia.
  - exists false. split; [done|]. split; [done|]. intros H.
    specialize (H m0 ltac:(lia)). congruence.
Qed.

Lemma pattern_loop_spec n0 k :
  1 <= n0 -> n0 + Z.of_nat k <= pl + 1 ->
  exists b, pattern_loop token_ids pl c (seqZ n0 (Z.of_nat k)) = Some b /\
    (b = true <-> forall n m, n0 <= n < n0 + Z.of_nat k -> 1 <= m < c ->
       back (pl * m + n - 1) = back (n - 1)).
Proof.
  revert n0. induction k as [|k IH]; intros n0 Hn0 Hk.
  { exists true. split; [done|]. split; [|done]. intros _ n m Hn. lia. }
  rewrite seqZ_cons by lia. cbn [pattern_loop].
  replace (Z.pred (Z.of_nat (S k))) with (Z.of_nat k) by lia.
  rewrite py_index_neg by nia.
  assert (Z.to_nat (n0 - 1) < length (reverse token_ids))%nat as Hlt
    by (rewrite length_reverse; unfold zlen in *; nia).
  apply lookup_lt_is_Some_2 in Hlt as [t Et]. rewrite Et. cbn [mbind option_bind].
  unfold py_range. destruct (repeats_at_spec n0 t 1 (Z.to_nat (c - 1))) as (b & E & Hb);
    [lia|lia|lia|done|].
  replace (c - 1) with (Z.of_nat (Z.to_nat (c - 1))) by lia.
  rewrite E. cbn. destruct b.
  - destruct (IH (Z.succ n0)) as (b' & -> & Hb'); [lia|lia|].
    exists b'. split; [done|]. rewrite Hb'. split; intros H n m Hn Hm.
    + destruct (decide (n = n0)) as [->|]; [|apply H; lia].
      rewrite Et. apply Hb; [done|]. lia.
    + apply H; lia.
  - exists false. split; [done|]. split; [done|]. intros H. apply Hb.
    intros m Hm. rewrite (H n0 m) by lia. done.
Qed.

Lemma has_repeating_pattern_spec :
  exists b, has_repeating_pattern token_ids pl c = Some b /\
    (b = true <-> ends_repeating token_ids pl c).
Proof.
  unfold has_repeating_pattern, py_range.
  destruct (pattern_loop_spec 1 (Z.to_nat pl)) as (b & E & Hb); [lia|lia|].
  replace (pl + 1 - 1) with (Z.of_nat (Z.to_nat pl)) by lia.
  exists b. split; [done|]. rewrite Hb. clear E Hb b. split.
  - intros H.
    assert (length (take (Z.to_nat pl) (reverse token_ids)) = Z.to_nat pl) as Hlen
      by (rewrite length_take, length_reverse; unfold zlen in *; nia).
    destruct (periodic_split (take (Z.to_nat pl) (reverse token_ids)) (reverse token_ids)
                (Z.to_nat c)) as (rest & Hr).
    { rewrite Hlen. intros m n Hm Hn. rewrite lookup_take_lt by done.
      destruct (decide (m = 0%nat)) as [->|]; [by rewrite Nat.mul_0_r|].
      specialize (H (Z.of_nat n + 1) (Z.of_nat m) ltac:(lia) ltac:(lia)).
      replace (Z.to_nat (pl * Z.of_nat m + (Z.of_nat n + 1) - 1))
        with (Z.to_nat pl * m + n)%nat in H by nia.
      by replace (Z.to_nat (Z.of_nat n + 1 - 1)) with n in H by lia. }
    exists (reverse rest), (reverse (take (Z.to_nat pl) (reverse token_ids))).
    split; [unfold zlen; rewrite length_reverse, Hlen; lia|].
    rewrite <- reverse_concat_replicate, <- reverse_app, <- Hr. by rewrite reverse_involutive.
  - intros (pre & pat & Hpat & ->) n m Hn Hm.
    rewrite reverse_app, reverse_concat_replicate.
    assert (length (reverse pat) = Z.to_nat pl) as Hlen
      by (rewrite length_reverse; unfold zlen in *; lia).
    replace (Z.to_nat (pl * m + n - 1))
      with (length (reverse pat) * Z.to_nat m + Z.to_nat (n - 1))%nat by nia.
    rewrite lookup_concat_replicate by lia.
    replace (Z.to_nat (n - 1)) with (length (reverse pat) * 0 + Z.to_nat (n - 1))%nat at 2 by lia.
    by rewrite lookup_concat_replicate by lia.
Qed.

End Detector.

Lemma repetition_loop_spec token_ids c lo k :
  1 <= lo -> 2 <= c ->
  exists b, repetition_loop token_ids c (seqZ lo (Z.of_nat k)) = Some b /\
    (b = true <-> exists pl, lo <= pl < lo + Z.of_nat k /\ ends_repeating token_ids pl c).
Proof.
  intros Hlo Hc. revert lo Hlo. induction k as [|k IH]; intros lo Hlo.
  { exists false. split; [done|]. split; [done|]. intros (pl & ? & _). lia. }
  rewrite seqZ_cons by lia. cbn [repetition_loop].
  replace (Z.pred (Z.of_nat (S k))) with (Z.of_nat k) by lia.
  destruct (Z.ltb_spec (zlen token_ids) (lo * c)) as [Hlt|Hge].
  - exists false. split; [done|]. split; [done|].
    intros (pl & Hpl & pre & pat & Hpat & ->).
    assert (zlen (concat (replicate (Z.to_nat c) pat)) = c * pl) as Hz.
    { rewrite <- (Z2Nat.id c) at 2 by lia. rewrite <- Hpat. unfold zlen.
      generalize (Z.to_nat c) as n. induction n as [|n IHn]; cbn; [done|].
      rewrite length_app, Nat2Z.inj_add, IHn. lia. }
    rewrite zlen_app, Hz in Hlt. pose proof (zlen_nonneg pre). nia.
  - destruct (has_repeating_pattern_spec token_ids lo c) as (b & -> & Hb); [lia..|].
    cbn. destruct b.
    + exists true. split; [done|]. split; [|done]. intros _. exists lo. split; [lia|]. by apply Hb.
    + destruct (IH (Z.succ lo)) as (b' & -> & Hb'); [lia|]. exists b'. split; [done|].
      rewrite Hb'. split; intros (pl & Hpl & H); exists pl; (split; [|done]); [lia|].
      destruct (decide (pl = lo)) as [->|]; [by apply Hb in H|lia].
Qed.

Lemma check_sequence_repetition_spec token_ids p :
  exists b, check_sequence_repetition token_ids p = Some b /\
    (b = true <-> 2 <= min_count p /\ exists pl, 1 <= pl /\
       min_pattern_size p <= pl <= max_pattern_size p /\
       ends_repeating token_ids pl (min_count p)).
Proof.
  unfold check_sequence_repetition.
  set (lo := if min_pattern_size p <=? 0 then 1 else min_pattern_size p).
  assert (lo = Z.max 1 (min_pattern_size p)) as Hlo
    by (subst lo; destruct (Z.leb_spec (min_pattern_size p) 0); lia).
  clearbody lo.
  destruct (Z.leb_spec (max_pattern_size p) 0), (Z.ltb_spec (min_count p) 2),
    (Z.ltb_spec (max_pattern_size p) lo); cbn [orb];
    try (exists false; split; [done|]; split; [done|]; intros (? & pl & ? & ? & _); lia).
  destruct (repetition_loop_spec token_ids (min_count p) lo
    (Z.to_nat (max_pattern_size p + 1 - lo))) as (b & E & Hb); [lia..|].
  rewrite Z2Nat.id in E, Hb by lia. exists b. split; [exact E|]. rewrite Hb.
  split.
  - intros (pl & Hpl & H'). split; [lia|]. exists pl. split_and!; [lia..|done].
  - intros (_ & pl & ? & ? & H'). exists pl. split; [lia|done].
Qed.

(** The repetition detector never indexes out of range, and reports a
    repetition exactly when some pattern length between the configured minimum
    and maximum makes the token sequence end with [min_count] copies of one
    pattern of that length. *)
Theorem check_sequence_repetition_correct token_ids p :
  exists b, check_sequence_repetition token_ids p = Some b /\
    (b = true <-> 2 <= min_count p /\ exists pl, 1 <= pl /\
       min_pattern_size p <= pl <= max_pattern_size p /\
       ends_repeating token_ids pl (min_count p)).
Proof. apply check_sequence_repetition_spec. Qed.

(** [remove_all] on a list without duplicates (the running queue) returns
    exactly the elements that are not to be removed, in order, on all three of
    its paths. *)
Theorem remove_all_correct {A} `{EqDecision A} (lst items : list A) :
  NoDup lst -> fst (remove_all lst items) = filter (fun x => x ∉ items) lst.
Proof.
  intros Hl. destruct items as [|x [|y items]]; cbn [remove_all fst]; [..|done].
  - clear Hl. induction lst as [|z l IH]; [done|].
    rewrite filter_cons_True by apply not_elem_of_nil. by rewrite <- IH.
  - rewrite py_remove_filter by done. apply list_filter_iff. intros z.
    by rewrite list_elem_of_singleton.
Qed.

Lemma remove_all_correct_witness :
  fst (remove_all [3; 1; 2] [1]) = [3; 2] /\ fst (remove_all [3; 1; 2] [2; 3]) = [1].
Proof.
  split; rewrite remove_all_correct by decide_goal; vm_compute; reflexivity.
Defined.

(** The single-item path drops only the first of several equal items. *)
Theorem remove_all_single_keeps_duplicates :
  fst (remove_all [1; 2; 1] [1]) = [2; 1] /\ fst (remove_all [1; 2; 1] [1; 3]) = [2].
Proof. split; vm_compute; reflexivity. Qed.

(** ** The stop check *)

Definition stops_on_token (sp : SamplingParams) (tok : Z) : Prop :=
  eos_token_id sp = Some tok \/ tok ∈ default [] (stop_token_ids sp).

Definition length_capped (max_model_len : Z) (r : Request) : Prop :=
  max_model_len <= num_tokens r \/ max_tokens r <= num_output_tokens r.

Definition repeats (sp : SamplingParams) (r : Request) : Prop :=
  min_tokens sp <= num_output_tokens r /\ exists p pl,
    repetition_detection sp = Some p /\ 2 <= min_count p /\ 1 <= pl /\
    min_pattern_size p <= pl <= max_pattern_size p /\
    ends_repeating (output_token_ids r) pl (min_count p).

(** What [check_stop] decides: the first criterion that holds, in the order
    stop token, length, repetition. *)
Inductive stop_verdict (max_model_len : Z) (sp : SamplingParams) (tok : Z) (r : Request)
    : bool -> RequestStatus -> option StopReason -> Prop :=
| verdict_eos : eos_token_id sp = Some tok ->
    stop_verdict max_model_len sp tok r true FINISHED_STOPPED (stop_reason r)
| verdict_stop_token : eos_token_id sp <> Some tok -> tok ∈ default [] (stop_token_ids sp) ->
    stop_verdict max_model_len sp tok r true FINISHED_STOPPED (Some (StopToken tok))
| verdict_length : ~ stops_on_token sp tok -> length_capped max_model_len r ->
    stop_verdict max_model_len sp tok r true FINISHED_LENGTH_CAPPED (stop_reason r)
| verdict_repetition : ~ stops_on_token sp tok -> ~ length_capped max_model_len r ->
    repeats sp r ->
    stop_verdict max_model_len sp tok r true FINISHED_REPETITION
      (Some (StopText "repetition_detected"))
| verdict_continue : ~ stops_on_token sp tok -> ~ length_capped max_model_len r ->
    ~ repeats sp r ->
    stop_verdict max_model_len sp tok r false (status r) (stop_reason r).

Lemma check_stop_spec max_model_len r sp tok :
  pooling_params r = None -> sampling_params r = Some sp -> last (output_token_ids r) = Some tok ->
  exists b st sr,
    check_stop max_model_len r = Ok b (set_stop_reason sr (set_status st r)) /\
    stop_verdict max_model_len sp tok r b st sr /\
    (b = true <-> stops_on_token sp tok \/ length_capped max_model_len r \/ repeats sp r) /\
    (b = true -> is_finished st = true).
Proof.
  intros Hp Hs Hl. unfold check_stop, mbind, M_bind, get, assert_. cbn beta iota.
  rewrite Hp, bool_decide_false by (intros []; done). cbn. rewrite Hs. cbn.
  rewrite py_index_last, Hl. cbn.
  case_bool_decide as Heos.
  { assert (stops_on_token sp tok) by by left.
    exists true, FINISHED_STOPPED, (stop_reason r). split_and!; [done|by constructor|tauto|done]. }
  case_bool_decide as Hst.
  { assert (stops_on_token sp tok) by by right.
    exists true, FINISHED_STOPPED, (Some (StopToken tok)).
    split_and!; [done|by constructor|tauto|done]. }
  assert (~ stops_on_token sp tok) as Hns by (intros []; done).
  destruct ((max_model_len <=? num_tokens r) || (max_tokens r <=? num_output_tokens r)) eqn:Hcap.
  { assert (length_capped max_model_len r) by (unfold length_capped; lia).
    exists true, FINISHED_LENGTH_CAPPED, (stop_reason r).
    split_and!; [done|by constructor|tauto|done]. }
  assert (~ length_capped max_model_len r) as Hncap by (unfold length_capped; lia).
  assert (set_stop_reason (stop_reason r) (set_status (status r) r) = r) as Hid by by destruct r.
  assert (~ repeats sp r ->
    (false = true <-> stops_on_token sp tok \/ length_capped max_model_len r \/ repeats sp r)) as Hf by (split; [done|tauto]).
  destruct (Z.ltb_spec (num_output_tokens r) (min_tokens sp)).
  { assert (~ repeats sp r) by (intros [? _]; lia).
    exists false, (status r), (stop_reason r). rewrite Hid.
    split_and!; [done|by constructor|tauto|done]. }
  destruct (repetition_detection sp) as [p|] eqn:Hrep; cbn.
  2: { assert (~ repeats sp r) by (intros (_ & p & pl & ? & _); congruence).
       exists false, (status r), (stop_reason r). rewrite Hid.
       split_and!; [done|by constructor|tauto|done]. }
  destruct (check_sequence_repetition_spec (output_token_ids r) p) as (b & -> & Hb).
  assert (b = true <-> repeats sp r) as Hb'.
  { rewrite Hb. unfold repeats. rewrite Hrep. split.
    - intros (? & pl & ?). split; [done|]. by exists p, pl.
    - intros (_ & p' & pl & [= <-] & ? & ?). eauto. }
  cbn. destruct b.
  - exists true, FINISHED_REPETITION, (Some (StopText "repetition_detected")).
    split_and!; [done|constructor; tauto|tauto|done].
  - exists false, (status r), (stop_reason r). rewrite Hid.
    assert (~ repeats sp r) by by intros ?%Hb'.
    split_and!; [done|by constructor|tauto|done].
Qed.

(** For a generation request with at least one output token, [check_stop]
    raises nothing, changes only the status and the stop reason, and returns
    the verdict of the first criterion that holds; it returns [True] exactly
    when one of the criteria does, and then the request is finished. *)
Theorem check_stop_correct max_model_len r sp tok :
  pooling_params r = None -> sampling_params r = Some sp -> last (output_token_ids r) = Some tok ->
  exists b st sr,
    check_stop max_model_len r = Ok b (set_stop_reason sr (set_status st r)) /\
    stop_verdict max_model_len sp tok r b st sr /\
    (b = true <-> stops_on_token sp tok \/ length_capped max_model_len r \/ repeats sp r) /\
    (b = true -> is_finished st = true).
Proof. apply check_stop_spec. Qed.

Definition demo_sampling : SamplingParams :=
  mkSampling (Some 16) 0 (Some 99) (Some [50]) (Some (mkRepetition 3 1 2)) None.

Definition demo_generation (out : list Z) : Request :=
  mkRequest "req" 0 0 (Some demo_sampling) None None None None [] None ∅ 2 out ([7; 8] ++ out) []
    RUNNING None 16 0 0 0 0 false.

Lemma check_stop_correct_witness :
  exists r', check_stop 100 (demo_generation [1; 5; 6; 5; 6]) = Ok true r' /\
    status r' = FINISHED_REPETITION.
Proof.
  destruct (check_stop_correct 100 (demo_generation [1; 5; 6; 5; 6]) demo_sampling 6)
    as (b & st & sr & E & V & _); [reflexivity..|].
  assert (b = true) as -> by (vm_compute in E; congruence).
  eexists. split; [exact E|]. inversion V; subst.
  - discriminate.
  - by vm_compute in H0; set_solver.
  - unfold length_capped in *. vm_compute in H0. destruct H0; congruence.
  - reflexivity.
Defined.
