(* ===== verification/Heapq.v ===== *)
(** * Python's [heapq] on lists

    The priority queue of the scheduler runs [heapq.heappush], [heapq.heappop]
    and [heapq.heapify] of the Python standard library on a list of requests.
    This file transcribes those routines (the reference implementation,
    Lib/heapq.py) over an arbitrary comparison and proves them correct for any
    comparison that is a strict weak order; whatever the comparison and the list,
    they keep the elements.  [None] is an index out of range or
    a loop cut short by its fuel; the theorems show that neither happens. *)
From Stdlib Require Import ZArith Lia.
From stdpp Require Import base tactics gmap strings numbers option list sorting.
From S2P Require Import Prelude.

Local Open Scope nat_scope.

Section Heapq.
Context {A : Type} (ltb : A -> A -> bool).

(** ** Routines *)

(** The [while] loop of [_siftdown]; it ends with [heap[pos] = newitem]. *)
Fixpoint siftdown_loop (fuel startpos pos : nat) (newitem : A) (heap : list A)
    : option (list A) :=
  match fuel with
  | O => None
  | S fuel' =>
      if startpos <? pos then
        let parentpos := (pos - 1) / 2 in
        parent ← heap !! parentpos;
        if ltb newitem parent
        then siftdown_loop fuel' startpos parentpos newitem (<[pos := parent]> heap)
        else Some (<[pos := newitem]> heap)
      else Some (<[pos := newitem]> heap)
  end.

(** [_siftdown] *)
Definition siftdown (startpos pos : nat) (heap : list A) : option (list A) :=
  newitem ← heap !! pos;
  siftdown_loop (S pos) startpos pos newitem heap.

(** The choice of the smaller child in [_siftup]. *)
Definition smaller_child (heap : list A) (childpos : nat) : option nat :=
  let rightpos := childpos + 1 in
  if rightpos <? length heap then
    l ← heap !! childpos;
    r ← heap !! rightpos;
    Some (if ltb l r then childpos else rightpos)
  else Some childpos.

(** The [while] loop of [_siftup], down to the final call of [_siftdown]. *)
Fixpoint siftup_loop (fuel startpos pos : nat) (newitem : A) (heap : list A)
    : option (list A) :=
  match fuel with
  | O => None
  | S fuel' =>
      let childpos := 2 * pos + 1 in
      if childpos <? length heap then
        childpos' ← smaller_child heap childpos;
        x ← heap !! childpos';
        siftup_loop fuel' startpos childpos' newitem (<[pos := x]> heap)
      else siftdown startpos pos (<[pos := newitem]> heap)
  end.

(** [_siftup] *)
Definition siftup (pos : nat) (heap : list A) : option (list A) :=
  newitem ← heap !! pos;
  siftup_loop (S (length heap)) pos pos newitem heap.

Definition heappush (heap : list A) (item : A) : option (list A) :=
  siftdown 0 (length heap) (heap ++ [item]).

(** [heappop]: the popped item and the remaining heap; [None] on the empty
    list, whose [pop] raises [IndexError]. *)
Definition heappop (heap : list A) : option (A * list A) :=
  lastelt ← last heap;
  match removelast heap with
  | [] => Some (lastelt, [])
  | returnitem :: heap' =>
      h ← siftup 0 (lastelt :: heap');
      Some (returnitem, h)
  end.

(** [for i in reversed(range(n)): _siftup(x, i)] *)
Fixpoint heapify_loop (n : nat) (heap : list A) : option (list A) :=
  match n with
  | O => Some heap
  | S n' => h ← siftup n' heap; heapify_loop n' h
  end.

Definition heapify (heap : list A) : option (list A) :=
  heapify_loop (length heap / 2) heap.

(** Pop until empty: the order in which a copy of the heap is consumed. *)
Fixpoint heap_drain (fuel : nat) (heap : list A) : option (list A) :=
  match heap with
  | [] => Some []
  | _ =>
      match fuel with
      | O => None
      | S fuel' => '(x, h) ← heappop heap; cons x <$> heap_drain fuel' h
      end
  end.

(** ** The heap invariant *)

Definition le (x y : A) : Prop := ltb y x = false.

Definition parent (i : nat) : nat := (i - 1) / 2.

(** Every node whose parent is at or after [k] is not below its parent. *)
Definition heap_from (k : nat) (h : list A) : Prop :=
  forall i x y, 1 <= i -> k <= parent i -> h !! parent i = Some x -> h !! i = Some y -> le x y.

Definition is_heap (h : list A) : Prop := heap_from 0 h.

(** The heap with [newitem] at the hole [pos]: all nodes below [k]'s level are
    ordered, except the hole against its parent; the hole's children are not
    below the hole's parent. *)
Definition hole_up (k pos : nat) (v : list A) : Prop :=
  (forall i x y, 1 <= i -> k <= parent i -> i <> pos ->
     v !! parent i = Some x -> v !! i = Some y -> le x y) /\
  (forall i x y, 1 <= i -> parent i = pos -> k < pos ->
     v !! parent pos = Some x -> v !! i = Some y -> le x y).

(** The same when the hole travels down: its children are not yet compared. *)
Definition hole_down (k pos : nat) (v : list A) : Prop :=
  (forall i x y, 1 <= i -> k <= parent i -> i <> pos -> parent i <> pos ->
     v !! parent i = Some x -> v !! i = Some y -> le x y) /\
  (forall i x y, 1 <= i -> parent i = pos -> k < pos ->
     v !! parent pos = Some x -> v !! i = Some y -> le x y).

(** [p] is reached from [k] by going to children. *)
Inductive below (k : nat) : nat -> Prop :=
| below_refl : below k k
| below_child p : 1 <= p -> below k (parent p) -> below k p.

(** ** Arithmetic of the tree layout *)

Lemma parent_spec i : 1 <= i -> i = 2 * parent i + 1 \/ i = 2 * parent i + 2.
Proof.
  intros Hi. unfold parent.
  pose proof (Nat.div_mod_eq (i - 1) 2). pose proof (Nat.mod_upper_bound (i - 1) 2). lia.
Qed.

Lemma parent_unique i p : i = 2 * p + 1 \/ i = 2 * p + 2 -> parent i = p.
Proof. intros Hi. pose proof (parent_spec i). lia. Qed.

Lemma parent_lt i : 1 <= i -> parent i < i.
Proof. intros Hi. pose proof (parent_spec i). lia. Qed.

Lemma below_le k p : below k p -> k <= p.
Proof. induction 1 as [|p Hp _ IH]; [done|]. pose proof (parent_lt p Hp). lia. Qed.

Lemma below_parent k p : below k p -> k < p -> 1 <= p /\ below k (parent p).
Proof. intros [|p' Hp Hb] Hlt; [lia|done]. Qed.

(** ** Moving the hole permutes the contents *)

Lemma insert_Permutation (l : list A) i a x :
  l !! i = Some a -> a :: <[i := x]> l ≡ₚ x :: l.
Proof.
  revert i. induction l as [|b l IH]; intros [|i] Hi; [done..| |].
  - injection Hi as ->. cbn. apply Permutation_swap.
  - cbn in *. rewrite (Permutation_swap b a), (IH i Hi). apply Permutation_swap.
Qed.

Lemma hole_move_Permutation (h : list A) i j x n :
  h !! j = Some x -> i <> j -> i < length h ->
  <[j := n]> (<[i := x]> h) ≡ₚ <[i := n]> h.
Proof.
  intros Hj Hij Hi. apply lookup_lt_is_Some_2 in Hi as [s Hs].
  assert (<[i := x]> h !! j = Some x) as Hj' by by rewrite list_lookup_insert_ne.
  pose proof (insert_Permutation h i s n Hs) as H1.
  pose proof (insert_Permutation h i s x Hs) as H2.
  pose proof (insert_Permutation _ j x n Hj') as H3.
  apply (Permutation_cons_inv (a := x)), (Permutation_cons_inv (a := s)).
  rewrite H3, (Permutation_swap n s), H2, (Permutation_swap x s), H1.
  apply Permutation_swap.
Qed.

(** ** The routines keep the elements, whatever the comparison *)

Lemma siftdown_loop_perm fuel k pos newitem h :
  pos < fuel -> pos < length h ->
  exists h', siftdown_loop fuel k pos newitem h = Some h' /\ h' ≡ₚ <[pos := newitem]> h.
Proof.
  revert pos h. induction fuel as [|fuel IH]; intros pos h Hf Hp; [lia|]. cbn [siftdown_loop].
  destruct (Nat.ltb_spec k pos) as [Hk|Hk]; [|by eexists]. fold (parent pos).
  pose proof (parent_lt pos ltac:(lia)) as Hpp.
  destruct (lookup_lt_is_Some_2 h (parent pos)) as [px Epx]; [lia|]. rewrite Epx. cbn [mbind option_bind].
  destruct (ltb newitem px); [|by eexists].
  destruct (IH (parent pos) (<[pos := px]> h)) as (h' & E & Hperm); [lia|rewrite length_insert; lia|].
  exists h'. split; [done|]. rewrite Hperm. apply hole_move_Permutation; [done|lia|done].
Qed.

Lemma siftdown_perm k pos h :
  pos < length h -> exists h', siftdown k pos h = Some h' /\ h' ≡ₚ h.
Proof.
  intros Hp. unfold siftdown. destruct (lookup_lt_is_Some_2 h pos Hp) as [n En]. rewrite En. cbn [mbind option_bind].
  destruct (siftdown_loop_perm (S pos) k pos n h) as (h' & E & Hperm); [lia|done|].
  exists h'. split; [done|]. by rewrite Hperm, list_insert_id.
Qed.

Lemma smaller_child_some h pos :
  2 * pos + 1 < length h ->
  exists c x, smaller_child h (2 * pos + 1) = Some c /\ pos < c < length h /\ h !! c = Some x.
Proof.
  intros Hl. unfold smaller_child. destruct (lookup_lt_is_Some_2 h _ Hl) as [x Ex].
  destruct (Nat.ltb_spec (2 * pos + 1 + 1) (length h)) as [Hr|Hr].
  - destruct (lookup_lt_is_Some_2 h _ Hr) as [r Er]. rewrite Ex, Er. cbn [mbind option_bind].
    destruct (ltb x r); eexists _, _; (split; [reflexivity|]); (split; [lia|eassumption]).
  - eexists _, _. split; [reflexivity|]. split; [lia|eassumption].
Qed.

Lemma siftup_loop_perm fuel k pos newitem h :
  length h - pos < fuel -> pos < length h ->
  exists h', siftup_loop fuel k pos newitem h = Some h' /\ h' ≡ₚ <[pos := newitem]> h.
Proof.
  revert pos h. induction fuel as [|fuel IH]; intros pos h Hf Hp; [lia|]. cbn [siftup_loop].
  destruct (Nat.ltb_spec (2 * pos + 1) (length h)) as [Hc|Hc].
  - destruct (smaller_child_some h pos Hc) as (c & x & -> & Hcl & Ex). cbn [mbind option_bind]. rewrite Ex. cbn [mbind option_bind].
    destruct (IH c (<[pos := x]> h)) as (h' & E & Hperm); [rewrite length_insert; lia|rewrite length_insert; lia|].
    exists h'. split; [done|]. rewrite Hperm. apply hole_move_Permutation; [done|lia|done].
  - apply siftdown_perm. by rewrite length_insert.
Qed.

Lemma siftup_perm k h : k < length h -> exists h', siftup k h = Some h' /\ h' ≡ₚ h.
Proof.
  intros Hk. unfold siftup. destruct (lookup_lt_is_Some_2 h k Hk) as [n En]. rewrite En. cbn [mbind option_bind].
  destruct (siftup_loop_perm (S (length h)) k k n h) as (h' & E & Hperm); [lia|done|].
  exists h'. split; [done|]. by rewrite Hperm, list_insert_id.
Qed.

Lemma heapify_perm h : exists h', heapify h = Some h' /\ h' ≡ₚ h.
Proof.
  unfold heapify. pose proof (Nat.div_mod_eq (length h) 2). assert (length h / 2 <= length h) as Hn by lia.
  revert Hn. generalize (length h / 2). clear. intros n. revert h. induction n as [|n IH]; intros h Hn; [by exists h|].
  cbn [heapify_loop]. destruct (siftup_perm n h) as (h1 & -> & Hp1); [lia|]. cbn [mbind option_bind].
  destruct (IH h1) as (h' & -> & Hp'); [rewrite Hp1; lia|]. exists h'. split; [done|]. by rewrite Hp'.
Qed.

Lemma heappush_perm h item : exists h', heappush h item = Some h' /\ h' ≡ₚ item :: h.
Proof.
  unfold heappush. destruct (siftdown_perm 0 (length h) (h ++ [item])) as (h' & E & Hp); [rewrite length_app; cbn; lia|].
  exists h'. split; [done|]. rewrite Hp. apply Permutation_app_comm.
Qed.

Lemma heappop_perm x h : exists h', heappop (x :: h) = Some (x, h') /\ h' ≡ₚ h.
Proof.
  unfold heappop. destruct h as [|e h _] using rev_ind; [by exists []|].
  rewrite app_comm_cons, last_snoc. cbn [mbind option_bind]. rewrite removelast_last.
  destruct (siftup_perm 0 (e :: h)) as (h' & -> & Hp); [cbn; lia|]. exists h'. split; [done|].
  rewrite Hp. apply Permutation_cons_append.
Qed.

Lemma heap_drain_perm n h : length h <= n -> exists l, heap_drain n h = Some l /\ l ≡ₚ h.
Proof.
  revert h. induction n as [|n IH]; intros [|x h] Hn; cbn in Hn; try lia; [by exists []..|].
  cbn [heap_drain]. destruct (heappop_perm x h) as (h' & -> & Hp). cbn [mbind option_bind].
  destruct (IH h') as (l & -> & Hl); [rewrite Hp; lia|]. exists (x :: l). split; [done|]. by rewrite Hl, Hp.
Qed.

(** ** Correctness for a strict weak order *)

Hypothesis ltb_asym : forall x y, ltb x y = true -> ltb y x = false.
Hypothesis le_trans : forall x y z, le x y -> le y z -> le x z.

Lemma le_refl x : le x x.
Proof. unfold le. destruct (ltb x x) eqn:E; [by rewrite (ltb_asym _ _ E) in E|done]. Qed.

Lemma lt_le x y : ltb x y = true -> le x y.
Proof. apply ltb_asym. Qed.

(** Moving the hole to the parent, when [newitem] is below the parent. *)
Lemma hole_up_rise k pos newitem px h :
  pos < length h -> below k pos -> k < pos ->
  hole_up k pos (<[pos := newitem]> h) ->
  h !! parent pos = Some px -> ltb newitem px = true ->
  hole_up k (parent pos) (<[parent pos := newitem]> (<[pos := px]> h)).
Proof.
  intros Hp Hb Hk [Hord Hgp] Epx Elt.
  destruct (below_parent _ _ Hb Hk) as [Hp1 Hbp].
  pose proof (parent_lt pos Hp1) as Hpp.
  assert (<[pos := newitem]> h !! parent pos = Some px) as Epx'
    by (rewrite list_lookup_insert_ne by lia; done).
  split.
  - intros i x y Hi Hki Hne. destruct (decide (i = pos)) as [->|Hip].
    { rewrite list_lookup_insert_eq by (rewrite length_insert; lia). intros [= <-].
      rewrite list_lookup_insert_ne by lia. rewrite list_lookup_insert_eq by done.
      intros [= <-]. by apply lt_le. }
    rewrite (list_lookup_insert_ne _ _ i) by done.
    rewrite (list_lookup_insert_ne _ _ i) by done.
    destruct (decide (parent i = parent pos)) as [Hsib|Hsib].
    { rewrite Hsib. rewrite list_lookup_insert_eq by (rewrite length_insert; lia).
      intros [= <-] Hy. apply (le_trans _ px); [by apply lt_le|].
      apply (Hord i px y); [done..|by rewrite Hsib|by rewrite list_lookup_insert_ne]. }
    rewrite list_lookup_insert_ne by done.
    destruct (decide (parent i = pos)) as [Hc|Hc].
    { rewrite Hc. rewrite list_lookup_insert_eq by done. intros [= <-] Hy.
      apply (Hgp i px y); [done..|by rewrite list_lookup_insert_ne]. }
    rewrite list_lookup_insert_ne by done. intros Hx Hy.
    apply (Hord i x y); [done..|by rewrite list_lookup_insert_ne|by rewrite list_lookup_insert_ne].
  - intros i x y Hi Hpi Hkp.
    destruct (below_parent _ _ Hbp Hkp) as [Hp1' Hbp'].
    pose proof (parent_lt (parent pos) Hp1').
    rewrite list_lookup_insert_ne by lia. rewrite list_lookup_insert_ne by lia. intros Hx.
    assert (le x px) as Hxp.
    { apply (Hord (parent pos) x px); [done|by apply below_le|lia| |done].
      rewrite list_lookup_insert_ne by lia. done. }
    pose proof (parent_lt i Hi). rewrite list_lookup_insert_ne by lia.
    destruct (decide (i = pos)) as [->|Hip].
    { rewrite list_lookup_insert_eq by done. by intros [= <-]. }
    rewrite list_lookup_insert_ne by done. intros Hy. apply (le_trans _ px); [done|].
    apply (Hord i px y); [done|lia|done|by rewrite Hpi|by rewrite list_lookup_insert_ne].
Qed.

(** The hole rises: the loop of [_siftdown]. *)
Lemma siftdown_loop_spec fuel k pos newitem h :
  pos < fuel -> pos < length h -> below k pos ->
  hole_up k pos (<[pos := newitem]> h) ->
  exists h', siftdown_loop fuel k pos newitem h = Some h' /\
    h' ≡ₚ <[pos := newitem]> h /\ heap_from k h'.
Proof.
  revert pos h. induction fuel as [|fuel IH]; intros pos h Hf Hp Hb [Hord Hgp]; [lia|].
  cbn [siftdown_loop]. destruct (Nat.ltb_spec k pos) as [Hk|Hk].
  2: { exists (<[pos := newitem]> h). split_and!; [done|done|].
       intros i x y Hi Hki Hx Hy. apply (Hord i x y); [done..| |done|done].
       pose proof (below_le _ _ Hb). pose proof (parent_lt i Hi). lia. }
  destruct (below_parent _ _ Hb Hk) as [Hp1 Hbp]. fold (parent pos).
  pose proof (parent_lt pos Hp1) as Hpp.
  destruct (lookup_lt_is_Some_2 h (parent pos)) as [px Epx]; [lia|].
  rewrite Epx. cbn [mbind option_bind].
  assert (<[pos := newitem]> h !! parent pos = Some px) as Epx'
    by (rewrite list_lookup_insert_ne by lia; done).
  destruct (ltb newitem px) eqn:Elt.
  - destruct (IH (parent pos) (<[pos := px]> h)) as (h' & E & Hperm & Hh);
      [lia|rewrite length_insert; lia|done| |].
    + by apply hole_up_rise.
    + exists h'. split_and!; [done| |done]. rewrite Hperm.
      apply hole_move_Permutation; [done|lia|done].
  - exists (<[pos := newitem]> h). split_and!; [done|done|].
    intros i x y Hi Hki Hx Hy. destruct (decide (i = pos)) as [->|Hip].
    + rewrite Epx' in Hx. injection Hx as <-.
      rewrite list_lookup_insert_eq in Hy by done. by injection Hy as <-.
    + by apply (Hord i x y).
Qed.

Lemma siftdown_spec k pos h :
  pos < length h -> below k pos -> hole_up k pos h ->
  exists h', siftdown k pos h = Some h' /\ h' ≡ₚ h /\ heap_from k h'.
Proof.
  intros Hp Hb Hh. unfold siftdown.
  destruct (lookup_lt_is_Some_2 h pos Hp) as [n En]. rewrite En. cbn [mbind option_bind].
  rewrite <- (list_insert_id h pos n En) in Hh.
  destruct (siftdown_loop_spec (S pos) k pos n h) as (h' & E & Hperm & Hf); [lia|done..|].
  exists h'. split_and!; [done| |done]. by rewrite Hperm, list_insert_id.
Qed.

(** The chosen child is in range and not above any child of [pos]. *)
Lemma smaller_child_spec h pos :
  2 * pos + 1 < length h ->
  exists c x, smaller_child h (2 * pos + 1) = Some c /\ 1 <= c /\ parent c = pos /\
    c < length h /\ h !! c = Some x /\
    (forall i y, 1 <= i -> parent i = pos -> h !! i = Some y -> le x y).
Proof.
  intros Hl. unfold smaller_child.
  destruct (lookup_lt_is_Some_2 h _ Hl) as [x Ex].
  destruct (Nat.ltb_spec (2 * pos + 1 + 1) (length h)) as [Hr|Hr].
  - destruct (lookup_lt_is_Some_2 h _ Hr) as [r Er]. rewrite Ex, Er. cbn [mbind option_bind].
    destruct (ltb x r) eqn:Elt; eexists _, _; (split; [reflexivity|]);
      (split_and!; [lia|apply parent_unique; lia|lia|eassumption|]);
      intros i y Hi Hpi Ey; destruct (parent_spec i Hi) as [Hi'|Hi']; rewrite Hpi in Hi';
      [| | |]; subst i.
    + rewrite Ex in Ey. injection Ey as <-. apply le_refl.
    + replace (2 * pos + 2) with (2 * pos + 1 + 1) in Ey by lia.
      rewrite Er in Ey. injection Ey as <-. by apply lt_le.
    + rewrite Ex in Ey. injection Ey as <-. done.
    + replace (2 * pos + 2) with (2 * pos + 1 + 1) in Ey by lia.
      rewrite Er in Ey. injection Ey as <-. apply le_refl.
  - exists (2 * pos + 1), x. split_and!; [done|lia|apply parent_unique; lia|done|done|].
    intros i y Hi Hpi Ey. pose proof (lookup_lt_Some _ _ _ Ey).
    destruct (parent_spec i Hi) as [Hi'|Hi']; rewrite Hpi in Hi'; subst i; [|lia].
    rewrite Ex in Ey. injection Ey as <-. apply le_refl.
Qed.

(** Moving the hole to the chosen child. *)
Lemma hole_down_sink k pos c x newitem h :
  pos < length h -> k <= pos -> 1 <= c -> parent c = pos -> h !! c = Some x ->
  (forall i y, 1 <= i -> parent i = pos -> h !! i = Some y -> le x y) ->
  hole_down k pos (<[pos := newitem]> h) ->
  hole_down k c (<[c := newitem]> (<[pos := x]> h)).
Proof.
  intros Hp Hk Hc Hpc Ec Hmin [Hord Hgp]. pose proof (parent_lt c Hc) as Hlt.
  split.
  - intros i a b Hi Hki Hic Hpic. pose proof (parent_lt i Hi).
    rewrite !(list_lookup_insert_ne _ c) by done.
    destruct (decide (i = pos)) as [->|Hip].
    { rewrite (list_lookup_insert_ne _ pos (parent pos)) by lia.
      rewrite list_lookup_insert_eq by done. intros Ha [= <-].
      apply (Hgp c a x); [done|done|lia| |]; by rewrite list_lookup_insert_ne by lia. }
    rewrite (list_lookup_insert_ne _ pos i) by done.
    destruct (decide (parent i = pos)) as [Hpi|Hpi].
    { rewrite Hpi, list_lookup_insert_eq by done. intros [= <-]. by apply Hmin. }
    rewrite list_lookup_insert_ne by done. intros Ha Hb.
    apply (Hord i a b); [done..| |]; by rewrite list_lookup_insert_ne.
  - intros i a b Hi Hpi Hkc. pose proof (parent_lt i Hi).
    rewrite Hpc. rewrite (list_lookup_insert_ne _ c pos) by lia.
    rewrite list_lookup_insert_eq by done. intros [= <-].
    rewrite !list_lookup_insert_ne by lia. intros Hb.
    apply (Hord i x b); [done|lia|lia|lia| |]; rewrite list_lookup_insert_ne by lia; [|done].
    by rewrite Hpi.
Qed.

Lemma siftup_loop_spec fuel k pos newitem h :
  length h - pos < fuel -> pos < length h -> below k pos ->
  hole_down k pos (<[pos := newitem]> h) ->
  exists h', siftup_loop fuel k pos newitem h = Some h' /\
    h' ≡ₚ <[pos := newitem]> h /\ heap_from k h'.
Proof.
  revert pos h. induction fuel as [|fuel IH]; intros pos h Hf Hp Hb Hh; [lia|].
  cbn [siftup_loop]. pose proof (below_le _ _ Hb).
  destruct (Nat.ltb_spec (2 * pos + 1) (length h)) as [Hc|Hc].
  - destruct (smaller_child_spec h pos Hc) as (c & x & -> & Hc1 & Hpc & Hcl & Ex & Hmin).
    cbn [mbind option_bind]. rewrite Ex. cbn [mbind option_bind].
    pose proof (parent_lt c Hc1).
    destruct (IH c (<[pos := x]> h)) as (h' & E & Hperm & Hf');
      [rewrite length_insert; lia|by rewrite length_insert|apply below_child; [done|by rewrite Hpc]
      |by apply hole_down_sink|].
    exists h'. split_and!; [done| |done]. rewrite Hperm.
    apply hole_move_Permutation; [done|lia|done].
  - apply siftdown_spec; [by rewrite length_insert|done|].
    destruct Hh as [Hord Hgp]. split; [|done].
    intros i a b Hi Hki Hip Ha Hb'. apply (Hord i a b); [done..| |done|done].
    intros Hpi. apply lookup_lt_Some in Hb'. rewrite length_insert in Hb'.
    destruct (parent_spec i Hi); lia.
Qed.

(** Sifting up at [k] extends the heap order from the levels after [k] to [k]. *)
Lemma siftup_spec k h :
  k < length h -> heap_from (S k) h ->
  exists h', siftup k h = Some h' /\ h' ≡ₚ h /\ heap_from k h'.
Proof.
  intros Hk Hh. unfold siftup. destruct (lookup_lt_is_Some_2 h k Hk) as [n En].
  rewrite En. cbn [mbind option_bind].
  destruct (siftup_loop_spec (S (length h)) k k n h) as (h' & E & Hperm & Hf);
    [lia|done|constructor| |].
  - rewrite list_insert_id by done. split; [|lia].
    intros i x y Hi Hki Hne Hpne. apply Hh; [done|lia].
  - exists h'. split_and!; [done| |done]. by rewrite Hperm, list_insert_id.
Qed.

Lemma heapify_loop_spec n h :
  n <= length h -> heap_from n h ->
  exists h', heapify_loop n h = Some h' /\ h' ≡ₚ h /\ is_heap h'.
Proof.
  revert h. induction n as [|n IH]; intros h Hn Hh; [by exists h|]. cbn [heapify_loop].
  destruct (siftup_spec n h) as (h1 & -> & Hp1 & Hh1); [lia|done|]. cbn [mbind option_bind].
  destruct (IH h1) as (h' & -> & Hp' & Hh'); [rewrite Hp1; lia|done|].
  exists h'. split_and!; [done| |done]. by rewrite Hp'.
Qed.

Lemma heapify_spec h : exists h', heapify h = Some h' /\ h' ≡ₚ h /\ is_heap h'.
Proof.
  pose proof (Nat.div_mod_eq (length h) 2). pose proof (Nat.mod_upper_bound (length h) 2).
  apply heapify_loop_spec; [lia|]. intros i x y Hi Hki _ Hy. apply lookup_lt_Some in Hy.
  destruct (parent_spec i Hi); lia.
Qed.

Lemma heappush_spec h item :
  is_heap h -> exists h', heappush h item = Some h' /\ h' ≡ₚ item :: h /\ is_heap h'.
Proof.
  intros Hh. unfold heappush.
  destruct (siftdown_spec 0 (length h) (h ++ [item])) as (h' & E & Hp & Hf).
  - rewrite length_app. cbn. lia.
  - induction (lt_wf (length h)) as [n _ IH]. destruct n as [|n]; [constructor|].
    constructor; [lia|]. apply IH, parent_lt. lia.
  - split.
    + intros i x y Hi _ Hne. pose proof (parent_lt i Hi). intros Hx Hy.
      pose proof (lookup_lt_Some _ _ _ Hy) as Hl. rewrite length_app in Hl. cbn in Hl.
      rewrite lookup_app_l in Hx, Hy by lia. by apply (Hh i x y); [|lia|..].
    + intros i x y Hi Hpi _ _ Hy. apply lookup_lt_Some in Hy.
      rewrite length_app in Hy. cbn in Hy. pose proof (parent_lt i Hi). lia.
  - exists h'. split_and!; [done| |done]. rewrite Hp. apply Permutation_app_comm.
Qed.

(** The root of a heap is not above any element. *)
Lemma heap_root_min h x y : is_heap h -> head h = Some x -> y ∈ h -> le x y.
Proof.
  intros Hh Hx (i & Hi)%list_elem_of_lookup. revert y Hi.
  induction (lt_wf i) as [i _ IH]. intros y Hy. destruct (decide (i = 0)) as [->|Hi].
  - destruct h; [done|]. cbn in *. simplify_eq. apply le_refl.
  - pose proof (parent_lt i ltac:(lia)) as Hp. pose proof (lookup_lt_Some _ _ _ Hy).
    destruct (lookup_lt_is_Some_2 h (parent i)) as [z Hz]; [lia|].
    apply (le_trans _ z); [by eapply IH|]. apply (Hh i z y); [lia|lia|done|done].
Qed.

Lemma heappop_spec h x :
  is_heap h -> head h = Some x ->
  exists h', heappop h = Some (x, h') /\ h ≡ₚ x :: h' /\ is_heap h'.
Proof.
  intros Hh Hx. unfold heappop. destruct h as [|e h0 _] using rev_ind; [done|].
  rewrite last_snoc. cbn [mbind option_bind]. rewrite removelast_last.
  destruct h0 as [|r h0].
  { injection Hx as <-. exists []. split_and!; [done..|]. intros i a b _ _ Ha. done. }
  injection Hx as <-.
  destruct (siftup_spec 0 (e :: h0)) as (h' & -> & Hp & Hf); [cbn; lia| |].
  - intros i a b Hi Hki Ha Hb.
    apply (Hh i a b); [done|lia|..].
    + destruct (parent i) as [|p]; [lia|]. change ((h0 ++ [e]) !! p = Some a). rewrite lookup_app_l; [done|].
      apply lookup_lt_Some in Ha. cbn in Ha. lia.
    + destruct i as [|i]; [lia|]. change ((h0 ++ [e]) !! i = Some b). rewrite lookup_app_l; [done|].
      apply lookup_lt_Some in Hb. cbn in Hb. lia.
  - exists h'. split_and!; [done| |done]. rewrite Hp. cbn. by rewrite Permutation_app_comm.
Qed.

(** Consuming a heap yields its elements in order. *)
Lemma heap_drain_spec n h :
  length h <= n -> is_heap h ->
  exists l, heap_drain n h = Some l /\ l ≡ₚ h /\ StronglySorted le l.
Proof.
  revert h. induction n as [|n IH]; intros [|x h] Hn Hh; cbn in Hn; try lia.
  1, 2: exists []; split_and!; [done|done|constructor].
  cbn [heap_drain]. destruct (heappop_spec (x :: h) x Hh eq_refl) as (h' & -> & Hp & Hh').
  cbn [mbind option_bind]. pose proof (Permutation_length Hp) as Hl. cbn in Hl.
  destruct (IH h') as (l & -> & Hl' & Hs); [lia|done|].
  exists (x :: l). split_and!; [done|by rewrite Hl', Hp|].
  constructor; [done|]. apply Forall_forall. intros y Hy. rewrite Hl' in Hy.
  apply (heap_root_min (x :: h)); [done|done|]. rewrite Hp. by right.
Qed.

End Heapq.
