(* ===== verification/RequestQueue.v ===== *)
(** * The scheduler's waiting queues

    Models [vllm/v1/core/sched/request_queue.py]: the abstract class
    [RequestQueue], its two implementations [FCFSRequestQueue] (a deque) and
    [PriorityRequestQueue] (a [heapq] heap ordered by [Request.__lt__]), and
    [create_request_queue].

    Queues hold references to request objects: a reference is an integer (the
    object's [id]), and [deref] gives the object.  Membership and [remove]
    compare by identity, as Python does for a class without [__eq__].  The order
    theorems hold while the keys [__lt__] reads (priority, arrival time, id) do
    not change, so [deref] is fixed in them; only streaming sessions get a new
    arrival time while queued, and SchedRequest.v says what remains true then. *)
From Stdlib Require Import ZArith Lia.
From stdpp Require Import base tactics gmap strings numbers option list sorting.
From S2P Require Import Prelude Request Heapq.

Local Open Scope Z_scope.

Inductive SchedulingPolicy := FCFS | PRIORITY.

(** ** The interface

    The methods of the abstract class over a queue type [Q]. *)
Class RequestQueue (Q : Type) := {
  rq_init : Q;
  add_request : Z -> M Q unit;
  pop_request : M Q Z;
  peek_request : M Q Z;
  prepend_request : Z -> M Q unit;
  (** the argument queue is consumed through its iterator *)
  prepend_requests : list Z -> M Q unit;
  remove_request : Z -> M Q unit;
  remove_requests : list Z -> M Q unit;
  rq_bool : M Q bool;
  rq_len : M Q Z;
  rq_iter : M Q (list Z)
}.

(** ** [FCFSRequestQueue]: a deque *)

Record FCFSRequestQueue := mkFCFS { deque : list Z }.

#[global] Instance fcfs_queue : RequestQueue FCFSRequestQueue := {
  rq_init := mkFCFS [];
  add_request r := modify (fun q => mkFCFS (deque q ++ [r]));
  pop_request :=
    q ← get;
    match deque q with
    | [] => raise IndexError
    | r :: rest => modify (fun _ => mkFCFS rest) ;; mret r
    end;
  peek_request := q ← get; of_option IndexError (head (deque q));
  prepend_request r := modify (fun q => mkFCFS (r :: deque q));
  prepend_requests rs := for_each rs (fun r => modify (fun q => mkFCFS (r :: deque q)));
  remove_request r :=
    q ← get;
    rest ← of_option ValueError (py_remove r (deque q));
    modify (fun _ => mkFCFS rest);
  remove_requests rs := modify (fun q => mkFCFS (filter (fun r => r ∉ rs) (deque q)));
  rq_bool := gets (fun q => 0 <? zlen (deque q));
  rq_len := gets (fun q => zlen (deque q));
  rq_iter := gets deque
}.

(** ** [PriorityRequestQueue]: a heap *)

Record PriorityRequestQueue := mkPriority { heap : list Z }.

Section Queues.
Context (deref : Z -> Request).

(** [Request.__lt__] on references. *)
Definition ref_lt (a b : Z) : bool := request_lt a b (deref a) (deref b).

Definition heap_add (r : Z) : M PriorityRequestQueue unit :=
  q ← get;
  h ← of_option IndexError (heappush ref_lt (heap q) r);
  modify (fun _ => mkPriority h).

#[global] Instance priority_queue : RequestQueue PriorityRequestQueue := {
  rq_init := mkPriority [];
  add_request := heap_add;
  pop_request :=
    q ← get;
    match heap q with
    | [] => raise IndexError
    | _ =>
        '(r, h) ← of_option IndexError (heappop ref_lt (heap q));
        modify (fun _ => mkPriority h) ;; mret r
    end;
  peek_request := q ← get; of_option IndexError (head (heap q));
  prepend_request := heap_add;
  prepend_requests rs := for_each rs heap_add;
  remove_request r :=
    q ← get;
    rest ← of_option ValueError (py_remove r (heap q));
    h ← of_option IndexError (heapify ref_lt rest);
    modify (fun _ => mkPriority h);
  remove_requests rs :=
    modify (fun q => mkPriority (filter (fun r => r ∉ rs) (heap q))) ;;
    q ← get;
    h ← of_option IndexError (heapify ref_lt (heap q));
    modify (fun _ => mkPriority h);
  rq_bool := gets (fun q => negb (bool_decide (heap q = [])));
  rq_len := gets (fun q => zlen (heap q));
  rq_iter := q ← get; of_option IndexError (heap_drain ref_lt (length (heap q)) (heap q))
}.

(** ** Client code: sequences of calls *)

Inductive queue_call :=
| Add (r : Z) | Pop | Peek | Prepend (r : Z) | PrependAll (rs : list Z)
| Remove (r : Z) | RemoveAll (rs : list Z) | IsNonEmpty | Len | Iter.

Definition do_call {Q} `{RequestQueue Q} (c : queue_call) : M Q (list Z) :=
  match c with
  | Add r => add_request r ;; mret []
  | Pop => r ← pop_request; mret [r]
  | Peek => r ← peek_request; mret [r]
  | Prepend r => prepend_request r ;; mret []
  | PrependAll rs => prepend_requests rs ;; mret []
  | Remove r => remove_request r ;; mret []
  | RemoveAll rs => remove_requests rs ;; mret []
  | IsNonEmpty => b ← rq_bool; mret [if b : bool then 1 else 0]
  | Len => n ← rq_len; mret [n]
  | Iter => rq_iter
  end.

(** The results of a sequence of calls; an exception is caught by the caller. *)
Fixpoint trace {Q} `{RequestQueue Q} (cs : list queue_call) (q : Q) : list (exn + list Z) :=
  match cs with
  | [] => []
  | c :: cs' =>
      match do_call c q with
      | Ok v q' => inr v :: trace cs' q'
      | Raise e q' => inl e :: trace cs' q'
      end
  end.

(** [create_request_queue] and the calls made on the new queue. *)
Definition create_and_run (policy : SchedulingPolicy) (cs : list queue_call)
    : list (exn + list Z) :=
  match policy with
  | PRIORITY => trace cs (rq_init (Q := PriorityRequestQueue))
  | FCFS => trace cs (rq_init (Q := FCFSRequestQueue))
  end.

End Queues.

(** ** Abstract specification

    A queue is the list of its requests in the order they will be popped; the
    policy says where an added and where a prepended request goes. *)
Section AbstractQueue.
Context (place front : Z -> list Z -> list Z).

Definition spec_call (c : queue_call) (l : list Z) : (exn + list Z) * list Z :=
  match c with
  | Add r => (inr [], place r l)
  | Pop => match l with [] => (inl IndexError, []) | r :: l' => (inr [r], l') end
  | Peek => match l with [] => (inl IndexError, []) | r :: _ => (inr [r], l) end
  | Prepend r => (inr [], front r l)
  | PrependAll rs => (inr [], foldl (fun acc r => front r acc) l rs)
  | Remove r => match py_remove r l with
                | None => (inl ValueError, l)
                | Some l' => (inr [], l')
                end
  | RemoveAll rs => (inr [], filter (fun r => r ∉ rs) l)
  | IsNonEmpty => (inr [match l with [] => 0 | _ => 1 end], l)
  | Len => (inr [zlen l], l)
  | Iter => (inr l, l)
  end.

Fixpoint spec_trace (cs : list queue_call) (l : list Z) : list (exn + list Z) :=
  match cs with
  | [] => []
  | c :: cs' => (spec_call c l).1 :: spec_trace cs' (spec_call c l).2
  end.

(** What an implementation promises: an invariant, an abstraction function,
    and that each call does to the contents what the specification says. *)
Class QueueLaws (Q : Type) `{RequestQueue Q} := {
  rq_wf : Q -> Prop;
  contents : Q -> list Z;
  law_init : rq_wf rq_init /\ contents rq_init = [];
  law_call c q : rq_wf q ->
    match do_call c q with
    | Ok v q' => rq_wf q' /\ spec_call c (contents q) = (inr v, contents q')
    | Raise e q' => rq_wf q' /\ spec_call c (contents q) = (inl e, contents q')
    end
}.

(** Proved against the interface: traces are those of the specification. *)
Lemma trace_refines {Q} `{QueueLaws Q} cs q :
  rq_wf q -> trace cs q = spec_trace cs (contents q).
Proof.
  revert q. induction cs as [|c cs IH]; intros q Hq; [done|]. cbn.
  pose proof (law_call c q Hq) as Hc.
  destruct (do_call c q) as [v q'|e q']; destruct Hc as [Hq' ->]; cbn; f_equal; by apply IH.
Qed.

End AbstractQueue.

(** FCFS: behind the last one; a prepended request goes first. *)
Definition fcfs_place (r : Z) (l : list Z) : list Z := l ++ [r].
Definition fcfs_front (r : Z) (l : list Z) : list Z := r :: l.

Lemma for_each_modify {S A} (f : A -> S -> S) (l : list A) s :
  for_each l (fun x => modify (f x)) s = Ok tt (foldl (fun acc x => f x acc) s l).
Proof. revert s. induction l as [|x l IH]; intros s; [done|]. apply IH. Qed.

#[global] Program Instance fcfs_laws : QueueLaws fcfs_place fcfs_front FCFSRequestQueue := {
  rq_wf q := True;
  contents := deque
}.
Next Obligation. done. Qed.
Next Obligation.
  intros c [l] _. destruct c; cbn; try done.
  - by destruct l.
  - by destruct l.
  - unfold mbind, M_bind. rewrite (for_each_modify (fun r q => mkFCFS (r :: deque q))). cbn.
    split; [done|]. do 2 f_equal. revert l. induction rs as [|r rs IH]; intros l; [done|].
    cbn. by rewrite IH.
  - unfold mbind, M_bind, get. cbn. by destruct (py_remove r l).
  - by destruct l.
Qed.

(** ** The order of the priority queue *)

Lemma string_ltb_irrefl a : string_ltb a a = false.
Proof. induction a as [|x a IH]; [done|]. cbn [string_ltb]. cbv zeta. by rewrite !Nat.ltb_irrefl. Qed.

Lemma string_ltb_trans a b c :
  string_ltb a b = true -> string_ltb b c = true -> string_ltb a c = true.
Proof.
  revert b c. induction a as [|x a IH]; intros [|y b] [|z c]; cbn [string_ltb]; cbv zeta; try done.
  destruct (Nat.ltb_spec (Ascii.nat_of_ascii x) (Ascii.nat_of_ascii y)),
    (Nat.ltb_spec (Ascii.nat_of_ascii y) (Ascii.nat_of_ascii x)),
    (Nat.ltb_spec (Ascii.nat_of_ascii y) (Ascii.nat_of_ascii z)),
    (Nat.ltb_spec (Ascii.nat_of_ascii z) (Ascii.nat_of_ascii y)),
    (Nat.ltb_spec (Ascii.nat_of_ascii x) (Ascii.nat_of_ascii z)),
    (Nat.ltb_spec (Ascii.nat_of_ascii z) (Ascii.nat_of_ascii x));
    try done; try lia; apply IH.
Qed.

Lemma string_ltb_total a b : a <> b -> string_ltb a b = true \/ string_ltb b a = true.
Proof.
  revert b. induction a as [|x a IH]; intros [|y b] Hne; cbn [string_ltb]; cbv zeta; auto; try done.
  destruct (Nat.ltb_spec (Ascii.nat_of_ascii x) (Ascii.nat_of_ascii y)),
    (Nat.ltb_spec (Ascii.nat_of_ascii y) (Ascii.nat_of_ascii x)); auto.
  assert (x = y) as ->.
  { rewrite <- (Ascii.ascii_nat_embedding x), <- (Ascii.ascii_nat_embedding y). f_equal. lia. }
  apply IH. congruence.
Qed.

Section PriorityOrder.
Context (deref : Z -> Request).
Abbreviation lt := (ref_lt deref).

Lemma ref_lt_true a b :
  lt a b = true <->
  priority (deref a) < priority (deref b) \/
  priority (deref a) = priority (deref b) /\
  (arrival_time (deref a) < arrival_time (deref b) \/
   arrival_time (deref a) = arrival_time (deref b) /\
   (string_ltb (request_id (deref a)) (request_id (deref b)) = true \/
    request_id (deref a) = request_id (deref b) /\ a < b)).
Proof.
  unfold ref_lt, request_lt.
  destruct (Z.eqb_spec (priority (deref a)) (priority (deref b))); cbn; [|lia].
  destruct (Z.eqb_spec (arrival_time (deref a)) (arrival_time (deref b))); cbn; [|lia].
  case_bool_decide as E; cbn.
  - rewrite E, string_ltb_irrefl, Z.ltb_lt. intuition (done || lia).
  - intuition lia.
Qed.

Lemma ref_lt_irrefl a : lt a a = false.
Proof.
  destruct (lt a a) eqn:E; [|done]. apply ref_lt_true in E.
  rewrite string_ltb_irrefl in E. lia.
Qed.

Lemma ref_lt_trans a b c : lt a b = true -> lt b c = true -> lt a c = true.
Proof.
  rewrite !ref_lt_true. intros [H1|(H1 & [H2|(H2 & H3)])] [H1'|(H1' & [H2'|(H2' & H3')])];
    try lia. right. split; [lia|]. right. split; [lia|].
  destruct H3 as [H3|(H3 & H4)], H3' as [H3'|(H3' & H4')].
  - left. by eapply string_ltb_trans.
  - left. by rewrite <- H3'.
  - left. by rewrite H3.
  - right. split; [congruence|lia].
Qed.

Lemma ref_lt_total a b : a <> b -> lt a b = true \/ lt b a = true.
Proof.
  intros Hne. rewrite !ref_lt_true.
  destruct (Z.lt_total (priority (deref a)) (priority (deref b))) as [|[Hp|]]; [by auto..| |by auto].
  destruct (Z.lt_total (arrival_time (deref a)) (arrival_time (deref b))) as [|[Ha|]];
    [by auto 6| |by auto 6].
  destruct (decide (request_id (deref a) = request_id (deref b))) as [Hr|Hr].
  - destruct (Z.lt_total a b) as [|[|]]; [left|done|right]; auto 10.
  - destruct (string_ltb_total _ _ Hr); [left|right]; auto 10.
Qed.

Lemma ref_lt_asym a b : lt a b = true -> lt b a = false.
Proof.
  intros H. destruct (lt b a) eqn:E; [|done].
  by rewrite <- (ref_lt_irrefl a), (ref_lt_trans a b a H E).
Qed.

Abbreviation ref_le := (le lt).

Lemma ref_le_cases a b : ref_le a b <-> a = b \/ lt a b = true.
Proof.
  unfold le. split.
  - intros H. destruct (decide (a = b)) as [->|Hne]; [by left|right].
    destruct (ref_lt_total a b Hne); congruence.
  - intros [->|H]; [apply ref_lt_irrefl|by apply ref_lt_asym].
Qed.

Lemma ref_le_trans a b c : ref_le a b -> ref_le b c -> ref_le a c.
Proof.
  rewrite !ref_le_cases. intros [->|H1] [->|H2]; auto.
  right. by eapply ref_lt_trans.
Qed.

Lemma ref_le_antisymm : AntiSymm (=) ref_le.
Proof.
  intros a b [->|H1]%ref_le_cases H2; [done|]. unfold le in H2. congruence.
Qed.

(** Priority: before the first request that is not smaller. *)
Fixpoint priority_place (r : Z) (l : list Z) : list Z :=
  match l with
  | [] => [r]
  | x :: l' => if lt x r then x :: priority_place r l' else r :: l
  end.

Lemma priority_place_Permutation r l : priority_place r l ≡ₚ r :: l.
Proof.
  induction l as [|x l IH]; cbn; [done|]. destruct (lt x r); [|done].
  rewrite IH. apply Permutation_swap.
Qed.

Lemma priority_place_sorted r l :
  StronglySorted ref_le l -> StronglySorted ref_le (priority_place r l).
Proof.
  induction 1 as [|x l Hl IH Hx]; cbn; [by repeat constructor|].
  destruct (lt x r) eqn:E.
  - constructor; [done|]. rewrite priority_place_Permutation. constructor; [|done].
    apply ref_le_cases. by right.
  - constructor; [by constructor|]. constructor; [done|].
    eapply Forall_impl; [done|]. intros y. by apply ref_le_trans.
Qed.

Lemma filter_sorted (P : Z -> Prop) `{forall x, Decision (P x)} l :
  StronglySorted ref_le l -> StronglySorted ref_le (filter P l).
Proof.
  induction 1 as [|x l Hl IH Hx]; [constructor|]. destruct (decide (P x)).
  - rewrite filter_cons_True by done. constructor; [done|].
    apply Forall_forall. intros y [_ Hy]%list_elem_of_filter. by eapply Forall_forall in Hx.
  - by rewrite filter_cons_False.
Qed.

Lemma py_remove_sorted x l l' :
  StronglySorted ref_le l -> py_remove x l = Some l' -> StronglySorted ref_le l'.
Proof.
  intros Hl. revert l'. induction Hl as [|y l Hl IH Hy]; intros l'; cbn; [done|].
  case_bool_decide; [by intros [= <-]|]. intros (k & Hk & ->)%fmap_Some.
  constructor; [by apply IH|]. apply py_remove_perm in Hk. rewrite Hk in Hy. by inversion Hy.
Qed.

Definition heap_contents (q : PriorityRequestQueue) : list Z :=
  default [] (heap_drain lt (length (heap q)) (heap q)).

Lemma heap_contents_spec h :
  is_heap lt h ->
  heap_drain lt (length h) h = Some (heap_contents (mkPriority h)) /\
  heap_contents (mkPriority h) ≡ₚ h /\ StronglySorted ref_le (heap_contents (mkPriority h)).
Proof.
  intros Hh. unfold heap_contents. cbn.
  destruct (heap_drain_spec lt ref_lt_asym ref_le_trans (length h) h) as (l & -> & Hl); done.
Qed.

(** Sorted contents are unique. *)
Lemma heap_contents_eq h l :
  is_heap lt h -> l ≡ₚ h -> StronglySorted ref_le l -> l = heap_contents (mkPriority h).
Proof.
  intros Hh Hl Hs. destruct (heap_contents_spec h Hh) as (_ & Hp & Hs').
  pose proof ref_le_antisymm.
  apply (StronglySorted_unique ref_le); [done..|]. by rewrite Hp.
Qed.

Lemma heap_add_ok r h :
  is_heap lt h -> exists h', heap_add deref r (mkPriority h) = Ok tt (mkPriority h') /\
    is_heap lt h' /\ heap_contents (mkPriority h') = priority_place r (heap_contents (mkPriority h)).
Proof.
  intros Hh. destruct (heappush_spec lt ref_lt_asym ref_le_trans h r Hh) as (h' & E & Hp & Hh').
  destruct (heap_contents_spec h Hh) as (_ & Hpc & Hs).
  exists h'. unfold heap_add, mbind, M_bind, get. cbn. rewrite E. cbn. split_and!; [done|done|].
  symmetry. apply heap_contents_eq; [done| |by apply priority_place_sorted].
  by rewrite priority_place_Permutation, Hp, Hpc.
Qed.

Lemma heap_add_all_ok rs h :
  is_heap lt h -> exists h', for_each rs (heap_add deref) (mkPriority h) = Ok tt (mkPriority h') /\
    is_heap lt h' /\ heap_contents (mkPriority h') =
      foldl (fun acc r => priority_place r acc) (heap_contents (mkPriority h)) rs.
Proof.
  revert h. induction rs as [|r rs IH]; intros h Hh; [by exists h|].
  destruct (heap_add_ok r h Hh) as (h1 & E1 & Hh1 & Hc1).
  destruct (IH h1 Hh1) as (h' & E & Hh' & Hc'). exists h'. cbn [for_each foldl].
  unfold mbind, M_bind. rewrite E1, E. split_and!; [done|done|]. by rewrite Hc', Hc1.
Qed.

(** Removing elements and restoring the heap gives the remaining contents. *)
Lemma heapify_contents h0 l :
  h0 ≡ₚ l -> StronglySorted ref_le l ->
  exists h', heapify lt h0 = Some h' /\ is_heap lt h' /\ heap_contents (mkPriority h') = l.
Proof.
  intros Hp Hs. destruct (heapify_spec lt ref_lt_asym ref_le_trans h0) as (h' & E & Hp' & Hh').
  exists h'. split_and!; [done|done|]. symmetry. apply heap_contents_eq; [done| |done].
  by rewrite Hp', Hp.
Qed.

(** The root of the heap is the first of the contents. *)
Lemma heappop_contents x t :
  is_heap lt (x :: t) ->
  exists h', heappop lt (x :: t) = Some (x, h') /\ is_heap lt h' /\
    heap_contents (mkPriority (x :: t)) = x :: heap_contents (mkPriority h').
Proof.
  intros Hh.
  destruct (heappop_spec lt ref_lt_asym ref_le_trans _ x Hh eq_refl) as (h' & E & Hp & Hh').
  destruct (heap_contents_spec h' Hh') as (_ & Hp' & Hs').
  exists h'. split_and!; [done|done|]. symmetry.
  apply heap_contents_eq; [done|by rewrite Hp', Hp|]. constructor; [done|].
  apply Forall_forall. intros y Hy. rewrite Hp' in Hy.
  apply (heap_root_min lt ref_lt_asym ref_le_trans (x :: t)); [done|done|].
  rewrite Hp. by right.
Qed.

End PriorityOrder.

#[local] Opaque heap_contents heapify heappop heappush heap_drain.

#[global] Program Instance priority_laws (deref : Z -> Request) :
    @QueueLaws (priority_place deref) (priority_place deref) PriorityRequestQueue
      (priority_queue deref) := {
  rq_wf q := is_heap (ref_lt deref) (heap q);
  contents := heap_contents deref
}.
Next Obligation.
  intros deref. split; [|done]. intros i x y _ _ Hx. done.
Qed.
Next Obligation.
  intros deref c [h] Hh. change (is_heap (ref_lt deref) h) in Hh.
  destruct (heap_contents_spec deref h Hh) as (Ed & Hp & Hs).
  destruct c; cbn [do_call spec_call]; unfold mbind, M_bind; cbn.
  - destruct (heap_add_ok deref r h Hh) as (h' & -> & Hh' & Hc). cbn. by rewrite Hc.
  - destruct h as [|x t]; [done|]. unfold mbind, M_bind, get. cbn.
    destruct (heappop_contents deref x t Hh) as (h' & -> & Hh' & Hc). cbn. by rewrite Hc.
  - unfold mbind, M_bind, get. cbn. destruct h as [|x t]; [done|].
    destruct (heappop_contents deref x t Hh) as (h' & _ & _ & Hc). cbn. by rewrite Hc.
  - destruct (heap_add_ok deref r h Hh) as (h' & -> & Hh' & Hc). cbn. by rewrite Hc.
  - destruct (heap_add_all_ok deref rs h Hh) as (h' & -> & Hh' & Hc). cbn. by rewrite Hc.
  - unfold mbind, M_bind, get. cbn. destruct (py_remove r h) as [h0|] eqn:E; cbn.
    + destruct (py_remove r (heap_contents deref (mkPriority h))) as [l|] eqn:El.
      2: { apply py_remove_None in El. rewrite Hp in El.
           apply py_remove_None in El. congruence. }
      destruct (heapify_contents deref h0 l) as (h' & -> & Hh' & Hc).
      { apply (Permutation_cons_inv (a := r)).
        by rewrite <- (py_remove_perm _ _ _ E), <- (py_remove_perm _ _ _ El). }
      { by eapply py_remove_sorted. }
      cbn. by rewrite Hc.
    + rewrite (proj2 (py_remove_None r _)); [done|]. rewrite Hp. by apply py_remove_None.
  - unfold mbind, M_bind, get. cbn.
    destruct (heapify_contents deref (filter (fun r => r ∉ rs) h)
      (filter (fun r => r ∉ rs) (heap_contents deref (mkPriority h)))) as (h' & -> & Hh' & Hc);
      [by rewrite Hp|by apply filter_sorted|]. cbn. by rewrite Hc.
  - split; [done|]. do 2 f_equal. destruct h as [|x t]; [done|].
    destruct (heappop_contents deref x t Hh) as (h' & _ & _ & ->). done.
  - split; [done|]. do 3 f_equal. unfold zlen. by rewrite Hp.
  - unfold mbind, M_bind, get. cbn. by rewrite Ed.
Qed.

(** ** The theorem *)

Definition policy_place (deref : Z -> Request) (policy : SchedulingPolicy) : Z -> list Z -> list Z :=
  match policy with FCFS => fcfs_place | PRIORITY => priority_place deref end.
Definition policy_front (deref : Z -> Request) (policy : SchedulingPolicy) : Z -> list Z -> list Z :=
  match policy with FCFS => fcfs_front | PRIORITY => priority_place deref end.

(** C35.  Whatever sequence of calls is made on a queue of
    [create_request_queue], each returns (or raises) exactly what a list kept in
    pop order would: under FCFS additions go last and prepended requests first;
    under PRIORITY every request is placed by (priority, arrival time, request
    id, identity), so the heap always pops, peeks and iterates in that order,
    through additions, removals of arbitrary requests and re-heapification, and
    no heap index is ever out of range. *)
Theorem request_queue_refines_policy deref policy cs :
  create_and_run deref policy cs =
  spec_trace (policy_place deref policy) (policy_front deref policy) cs [].
Proof.
  destruct policy; cbn [create_and_run policy_place policy_front].
  - rewrite (trace_refines fcfs_place fcfs_front); [done|]. apply law_init.
  - rewrite (trace_refines (priority_place deref) (priority_place deref)); [done|]. apply law_init.
Qed.

(** Iterating a priority queue that holds [q] yields every queued request
    once, sorted so that no request precedes a smaller one, and the first is the
    one [pop_request] returns. *)
Theorem priority_iteration_sorted deref h :
  is_heap (ref_lt deref) h ->
  exists l, rq_iter (RequestQueue := priority_queue deref) (mkPriority h) = Ok l (mkPriority h) /\
    l ≡ₚ h /\ StronglySorted (fun a b => ref_lt deref b a = false) l /\
    forall x l', l = x :: l' ->
      exists q', pop_request (RequestQueue := priority_queue deref) (mkPriority h) = Ok x q' /\
        rq_iter (RequestQueue := priority_queue deref) q' = Ok l' q'.
Proof.
  intros Hh. destruct (heap_contents_spec deref h Hh) as (Ed & Hp & Hs).
  exists (heap_contents deref (mkPriority h)). split_and!; [|done|done|].
  { cbn. unfold mbind, M_bind, get. cbn. by rewrite Ed. }
  intros x l' El. destruct h as [|y t]; [done|].
  destruct (heappop_contents deref y t Hh) as (h' & E & Hh' & Hc).
  rewrite Hc in El. injection El as -> <-.
  exists (mkPriority h'). cbn. unfold mbind, M_bind, get. cbn. rewrite E. cbn.
  destruct (heap_contents_spec deref h' Hh') as (Ed' & _). by rewrite Ed'.
Qed.

(** Three requests: 0 and 2 of priority 1 (2 arrived first), 1 of priority 0. *)
Definition demo_deref (a : Z) : Request :=
  mkRequest "r" (if a =? 1 then 0 else 1) (if a =? 2 then 5 else 9) None None None None None []
    None ∅ 0 [] [] [] WAITING None 16 0 0 0 0 false.

Lemma demo_is_heap : is_heap (ref_lt demo_deref) [1; 0; 2].
Proof.
  intros [|[|[|i]]] x y Hi _ Hx Hy; [lia|..|done];
    vm_compute in Hx, Hy; simplify_eq; vm_compute; reflexivity.
Qed.

Lemma priority_iteration_sorted_witness :
  exists l, rq_iter (RequestQueue := priority_queue demo_deref) (mkPriority [1; 0; 2]) =
      Ok l (mkPriority [1; 0; 2]) /\
    l ≡ₚ [1; 0; 2] /\ StronglySorted (fun a b => ref_lt demo_deref b a = false) l.
Proof.
  destruct (priority_iteration_sorted demo_deref [1; 0; 2] demo_is_heap) as (l & E & Hp & Hs & _).
  exists l. done.
Defined.

Example demo_priority_run :
  create_and_run demo_deref PRIORITY [Add 0; Add 1; Add 2; Iter; Remove 1; Pop; Pop; Pop] =
  [inr []; inr []; inr []; inr [1; 2; 0]; inr []; inr [2]; inr [0]; inl IndexError].
Proof. vm_compute. reflexivity. Qed.
