(* ===== verification/Managers.v ===== *)
(** * Managers of the blocks of one attention type

    Models [vllm/v1/core/single_type_kv_cache_manager.py]: the base class
    [SingleTypeKVCacheManager] and its subclasses for full attention (plain,
    R-SWA, with sink), sliding windows, chunked local attention, circular
    buffers and cross attention, with the parts of [vllm/v1/kv_cache_interface.py]
    they read.  A method that a subclass overrides dispatches on the kind of
    the manager's spec.  The managers of a model share one [BlockPool], so the
    store of a method is the manager and the pool.  The Mamba manager is not
    modelled here. *)
From Stdlib Require Import ZArith QArith Lia.
From stdpp Require Import base tactics gmap strings numbers option list.
From S2P Require Import Prelude Blocks FreeQueue Request Hashing BlockMap Env Metrics BlockPool.

Local Open Scope Z_scope.

(** ** Specs *)

(** The spec classes; [MLAAttentionSpec] and [HiddenStateCacheSpec] are served
    by [FullAttentionManager] as [FullAttentionSpec] is, [SlidingWindowMLASpec]
    by [SlidingWindowManager] as [SlidingWindowSpec] is. *)
Inductive SpecKind :=
| FullAttentionSpec
| RSWASpec (rswa_window : Z)
| SinkFullAttentionSpec (sink_len : option Z)
| SlidingWindowSpec (sliding_window extra_retained_tokens : Z)
| ChunkedLocalAttentionSpec (attention_chunk_size : Z)
| CircularBufferSpec
| KpoolTailSpec (sliding_window extra_retained_tokens : Z)
| CrossAttentionSpec.

Record KVCacheSpec := mkSpec { spec_block_size : Z; spec_kind : SpecKind }.

(** [max_admission_blocks_per_request] of the specs that define it. *)
Definition max_admission_blocks_per_request (spec : KVCacheSpec)
    (max_in_flight_tokens max_model_len : Z) : option Z :=
  match spec_kind spec with
  | SlidingWindowSpec w extra =>
      Some (cdiv (Z.min (w - 1 + extra + max_in_flight_tokens) max_model_len)
                 (spec_block_size spec) + 1)
  | ChunkedLocalAttentionSpec chunk =>
      Some (cdiv (Z.min (chunk + max_in_flight_tokens) max_model_len) (spec_block_size spec))
  | KpoolTailSpec _ _ => Some 1
  | _ => None
  end.

(** ** State *)

(** The attributes set at construction (or by the coordinator right after it). *)
Record ManagerConfig := mkManagerConfig {
  scheduler_block_size : Z;
  cache_hit_alignment_tokens : Z;
  block_size : Z;
  dcp_world_size : Z;
  pcp_world_size : Z;
  kv_cache_spec : KVCacheSpec;
  caching_enabled : bool;
  max_admission_blocks : option Z;
  record_new_block_ids : bool;
  kv_cache_group_id : Z;
  mgr_null_block : loc;
  use_eagle : bool
}.

Record Manager := mkManager {
  cfg : ManagerConfig;
  new_block_ids : list Z;
  req_to_blocks : gmap string (list loc);
  num_cached_block : gmap string Z;
  partial_hit_reqs : gmap string (Z * loc);
  pending_cow_copies : list (loc * loc)
}.

Definition set_new_block_ids (ids : list Z) (m : Manager) : Manager :=
  mkManager (cfg m) ids (req_to_blocks m) (num_cached_block m) (partial_hit_reqs m)
    (pending_cow_copies m).
Definition set_req_to_blocks (r : gmap string (list loc)) (m : Manager) : Manager :=
  mkManager (cfg m) (new_block_ids m) r (num_cached_block m) (partial_hit_reqs m)
    (pending_cow_copies m).
Definition set_num_cached (n : gmap string Z) (m : Manager) : Manager :=
  mkManager (cfg m) (new_block_ids m) (req_to_blocks m) n (partial_hit_reqs m)
    (pending_cow_copies m).
Definition set_partial_hits (h : gmap string (Z * loc)) (m : Manager) : Manager :=
  mkManager (cfg m) (new_block_ids m) (req_to_blocks m) (num_cached_block m) h
    (pending_cow_copies m).
Definition set_cow_copies (c : list (loc * loc)) (m : Manager) : Manager :=
  mkManager (cfg m) (new_block_ids m) (req_to_blocks m) (num_cached_block m)
    (partial_hit_reqs m) c.

(** The store of a method: the manager and the shared pool. *)
Abbreviation MState := (Manager * BlockPool)%type.

Definition on_mgr {A} (c : M Manager A) : M MState A := zoom fst (fun m s => (m, s.2)) c.
Definition with_pool {A} (c : M BlockPool A) : M MState A := zoom snd (fun p s => (s.1, p)) c.

Definition kind (m : Manager) : SpecKind := spec_kind (kv_cache_spec (cfg m)).
Definition bsz (m : Manager) : Z := block_size (cfg m).

(** [self.req_to_blocks[request_id]]: reading a missing key of the
    [defaultdict] inserts the empty list. *)
Definition read_req_blocks (rid : string) : M Manager (list loc) :=
  m ← get;
  match req_to_blocks m !! rid with
  | Some bs => mret bs
  | None => modify (set_req_to_blocks (<[rid := []]> (req_to_blocks m))) ;; mret []
  end.

(** In-place update of the list [self.req_to_blocks[request_id]]. *)
Definition write_req_blocks (rid : string) (bs : list loc) : M Manager unit :=
  modify (fun m => set_req_to_blocks (<[rid := bs]> (req_to_blocks m)) m).

(** [SingleTypeKVCacheManager.__init__], with the check of
    [SinkFullAttentionManager.__init__]. *)
Definition manager_init (spec : KVCacheSpec) (pool : BlockPool) (caching : bool) (gid sbs dcp pcp : Z)
    (needs_kv_cache_zeroing : bool) (max_admission : option Z) : exn + Manager :=
  let bs := if 1 <? dcp then spec_block_size spec * dcp else spec_block_size spec in
  let recorded := needs_kv_cache_zeroing &&
    match spec_kind spec with CircularBufferSpec => false | _ => true end in
  let m := mkManager (mkManagerConfig sbs sbs bs dcp pcp spec caching max_admission recorded gid
             (null_block pool) false) [] ∅ ∅ ∅ [] in
  match spec_kind spec with
  | SinkFullAttentionSpec sink_len =>
      match sink_len with
      | Some s => if (0 <? s) && (s mod bs =? 0) then inr m else inl AssertionError
      | None => inl AssertionError
      end
  | _ => inr m
  end.

(** [get_manager_for_kv_cache_spec], called with the coordinator's keyword
    arguments.  [SinkFullAttentionManager.__init__] declares neither
    [needs_kv_cache_zeroing] nor a catch-all for keywords. *)
Definition get_manager_for_kv_cache_spec (spec : KVCacheSpec)
    (max_in_flight_tokens max_model_len : Z) (pool : BlockPool) (caching : bool)
    (gid dcp pcp sbs : Z) (needs_kv_cache_zeroing : bool) : exn + Manager :=
  match spec_kind spec with
  | SinkFullAttentionSpec _ => inl TypeError
  | _ =>
      let cap := max_admission_blocks_per_request spec max_in_flight_tokens max_model_len in
      manager_init spec pool caching gid sbs dcp pcp needs_kv_cache_zeroing cap
  end.

(** ** Skipped tokens *)

(** [get_num_skipped_tokens] *)
Definition get_num_skipped_tokens (k : SpecKind) (num_computed_tokens : Z) : Z :=
  match k with
  | SlidingWindowSpec w extra => Z.max 0 (num_computed_tokens - w + 1 - extra)
  | ChunkedLocalAttentionSpec chunk => num_computed_tokens / chunk * chunk
  | _ => 0
  end.

(** [_get_num_evictable_blocks] *)
Definition get_num_evictable_blocks (p : BlockPool) (bs : list loc) : Z :=
  zlen (filter (fun b => ref_cnt (hget (heap p) b) = 0 /\ is_null (hget (heap p) b) = false) bs).

(** [_has_partial_local_hit] *)
Definition has_partial_local_hit (m : Manager) (new_computed_blocks : list loc)
    (num_local_computed_tokens : Z) : bool :=
  (0 <? zlen new_computed_blocks) && negb (num_local_computed_tokens mod bsz m =? 0).

Section Managers.
Context `{Env}.

(** ** Capacity *)

(** The base class's [get_num_blocks_to_allocate]; [None] is the failed
    assertion. *)
Definition base_num_blocks_to_allocate (m : Manager) (p : BlockPool) (rid : string)
    (num_tokens : Z) (new_computed_blocks : list loc)
    (total_computed_tokens num_local_computed_tokens : Z) (apply_admission_cap : bool)
    : option Z :=
  let num_required_blocks := cdiv num_tokens (bsz m) in
  let num_required_blocks :=
    match max_admission_blocks (cfg m) with
    | Some cap => if apply_admission_cap then Z.min num_required_blocks cap
                  else num_required_blocks
    | None => num_required_blocks
    end in
  let num_req_blocks := zlen (default [] (req_to_blocks m !! rid)) in
  match num_cached_block m !! rid with
  | Some _ =>
      if zlen new_computed_blocks =? 0
      then Some (Z.max (num_required_blocks - num_req_blocks) 0) else None
  | None =>
      let num_skipped_tokens := get_num_skipped_tokens (kind m) total_computed_tokens in
      let num_local_computed_blocks := zlen new_computed_blocks + num_req_blocks in
      let num_skipped_blocks := num_skipped_tokens / bsz m in
      let num_new_blocks :=
        Z.max (num_required_blocks - Z.max num_skipped_blocks num_local_computed_blocks) 0 in
      let num_skipped_new_computed_blocks := Z.max 0 (num_skipped_blocks - num_req_blocks) in
      let num_evictable_blocks := get_num_evictable_blocks p
        (py_from new_computed_blocks num_skipped_new_computed_blocks) in
      Some ((if has_partial_local_hit m new_computed_blocks num_local_computed_tokens
             then num_new_blocks + 1 else num_new_blocks) + num_evictable_blocks)
  end.

(** [get_num_blocks_to_allocate] *)
Definition get_num_blocks_to_allocate (m : Manager) (p : BlockPool) (rid : string)
    (num_tokens : Z) (new_computed_blocks : list loc)
    (total_computed_tokens num_local_computed_tokens : Z) (apply_admission_cap : bool)
    : option Z :=
  match kind m with
  | CircularBufferSpec | KpoolTailSpec _ _ =>
      Some (match req_to_blocks m !! rid with Some (_ :: _) => 0 | _ => 1 end)
  | _ => base_num_blocks_to_allocate m p rid num_tokens new_computed_blocks
           total_computed_tokens num_local_computed_tokens apply_admission_cap
  end.

(** ** Taking blocks *)

(** [add_local_computed_blocks] of the base class *)
Definition base_add_local_computed_blocks (rid : string) (new_computed_blocks : list loc)
    (num_local_computed_tokens num_external_computed_tokens : Z) : M MState unit :=
  req_blocks ← on_mgr (read_req_blocks rid);
  assert_ (zlen req_blocks =? 0) ;;
  m ← gets fst;
  let num_total_computed_tokens := num_local_computed_tokens + num_external_computed_tokens in
  let num_skipped_tokens := get_num_skipped_tokens (kind m) num_total_computed_tokens in
  let num_skipped_blocks := num_skipped_tokens / bsz m in
  let new_computed_blocks := if 0 <? num_skipped_blocks
                             then py_from new_computed_blocks num_skipped_blocks
                             else new_computed_blocks in
  (if caching_enabled (cfg m) then with_pool (touch new_computed_blocks)
   else assert_ (zlen new_computed_blocks =? 0)) ;;
  let req_blocks := req_blocks ++ replicate (Z.to_nat num_skipped_blocks) (mgr_null_block (cfg m))
                      ++ new_computed_blocks in
  on_mgr (write_req_blocks rid req_blocks) ;;
  on_mgr (modify (fun m => set_num_cached (<[rid := zlen req_blocks]> (num_cached_block m)) m)) ;;
  if has_partial_local_hit m new_computed_blocks num_local_computed_tokens then
    let block_idx := num_local_computed_tokens / bsz m in
    tail ← of_option IndexError (py_index new_computed_blocks (-1));
    on_mgr (modify (fun m => set_partial_hits (<[rid := (block_idx, tail)]> (partial_hit_reqs m)) m)) ;;
    on_mgr (modify (fun m => set_num_cached (<[rid := block_idx]> (num_cached_block m)) m))
  else mret tt.

Definition add_local_computed_blocks (rid : string) (new_computed_blocks : list loc)
    (num_local_computed_tokens num_external_computed_tokens : Z) : M MState unit :=
  m ← gets fst;
  match kind m with
  | CircularBufferSpec | KpoolTailSpec _ _ => mret tt
  | CrossAttentionSpec => assert_ (zlen new_computed_blocks =? 0)
  | _ => base_add_local_computed_blocks rid new_computed_blocks num_local_computed_tokens
           num_external_computed_tokens
  end.

(** [self.new_block_ids.extend(b.block_id for b in blocks)] when recording *)
Definition record_ids (bs : list loc) : M MState unit := fun s =>
  let '(m, p) := s in
  Ok tt (if record_new_block_ids (cfg m)
         then set_new_block_ids (new_block_ids m ++ ((fun b => block_id (hget (heap p) b)) <$> bs)) m
         else m, p).

(** [_claim_ring_block] *)
Definition claim_ring_block (rid : string) : M MState (list loc) :=
  req_blocks ← on_mgr (read_req_blocks rid);
  match req_blocks with
  | _ :: _ => mret []
  | [] =>
      new_blocks ← with_pool (get_new_blocks 1);
      on_mgr (write_req_blocks rid (req_blocks ++ new_blocks)) ;;
      record_ids new_blocks ;;
      mret new_blocks
  end.

(** [allocate_external_computed_blocks] of the base class *)
Definition base_allocate_external_computed_blocks (rid : string)
    (num_local_computed_tokens num_external_computed_tokens : Z) : M MState unit :=
  m ← gets fst;
  let num_total_computed_tokens := num_local_computed_tokens + num_external_computed_tokens in
  let num_skipped_tokens := get_num_skipped_tokens (kind m) num_total_computed_tokens in
  let num_external_computed_tokens :=
    if 0 <? num_skipped_tokens
    then Z.min (num_total_computed_tokens - num_skipped_tokens) num_external_computed_tokens
    else num_external_computed_tokens in
  if num_external_computed_tokens <=? 0 then mret tt else
  req_blocks ← on_mgr (read_req_blocks rid);
  let num_new_blocks := Z.max 0 (cdiv num_total_computed_tokens (bsz m) - zlen req_blocks) in
  allocated_blocks ← with_pool (get_new_blocks num_new_blocks);
  on_mgr (write_req_blocks rid (req_blocks ++ allocated_blocks)) ;;
  record_ids allocated_blocks.

Definition allocate_external_computed_blocks (rid : string)
    (num_local_computed_tokens num_external_computed_tokens : Z) : M MState unit :=
  m ← gets fst;
  match kind m with
  | CircularBufferSpec | KpoolTailSpec _ _ => _ ← claim_ring_block rid; mret tt
  | CrossAttentionSpec => mret tt
  | _ => base_allocate_external_computed_blocks rid num_local_computed_tokens
           num_external_computed_tokens
  end.

(** [_apply_cow]; [req_blocks[block_idx] = cow_block] is in range by the
    first assertion ([block_idx] is not negative). *)
Definition apply_cow (rid : string) (block_idx : Z) (source_block cow_block : loc) : M MState unit :=
  req_blocks ← on_mgr (read_req_blocks rid);
  assert_ (block_idx <? zlen req_blocks) ;;
  b ← of_option IndexError (py_index req_blocks block_idx);
  assert_ (bool_decide (b = source_block)) ;;
  src ← with_pool (pblk source_block);
  assert_ (negb (is_null src) && (0 <? ref_cnt src)) ;;
  on_mgr (write_req_blocks rid (<[Z.to_nat block_idx := cow_block]> req_blocks)) ;;
  on_mgr (modify (fun m => set_cow_copies (pending_cow_copies m ++ [(source_block, cow_block)]) m)) ;;
  with_pool (pupd cow_block (fun b => set_ref_cnt (ref_cnt b + 1) b)).

(** The partial-hit redirect at the head of [allocate_new_blocks]. *)
Definition redirect_partial_hit (rid : string) : M MState (list loc) :=
  m ← gets fst;
  match partial_hit_reqs m !! rid with
  | None => mret []
  | Some (block_idx, source_block) =>
      on_mgr (modify (fun m => set_partial_hits (delete rid (partial_hit_reqs m)) m)) ;;
      bs ← with_pool (get_new_blocks 1);
      cow_block ← of_option IndexError (py_index bs 0);
      apply_cow rid block_idx source_block cow_block ;;
      b ← with_pool (pblk cow_block);
      on_mgr (modify (fun m => set_new_block_ids (new_block_ids m ++ [block_id b]) m)) ;;
      mret [cow_block]
  end.

(** [allocate_new_blocks] of the base class *)
Definition base_allocate_new_blocks (rid : string) (num_tokens : Z) : M MState (list loc) :=
  cow_blocks ← redirect_partial_hit rid;
  req_blocks ← on_mgr (read_req_blocks rid);
  m ← gets fst;
  let num_required_blocks := cdiv num_tokens (bsz m) in
  let num_new_blocks := num_required_blocks - zlen req_blocks in
  if num_new_blocks <=? 0 then mret cow_blocks else
  new_blocks ← with_pool (get_new_blocks num_new_blocks);
  on_mgr (write_req_blocks rid (req_blocks ++ new_blocks)) ;;
  record_ids new_blocks ;;
  mret (cow_blocks ++ new_blocks).

Definition allocate_new_blocks (rid : string) (num_tokens : Z) : M MState (list loc) :=
  m ← gets fst;
  match kind m with
  | CircularBufferSpec | KpoolTailSpec _ _ => claim_ring_block rid
  | _ => base_allocate_new_blocks rid num_tokens
  end.

(** [take_new_block_ids], [take_pending_cow_copies] *)
Definition take_new_block_ids : M Manager (list Z) :=
  ids ← gets new_block_ids; modify (set_new_block_ids []) ;; mret ids.
Definition take_pending_cow_copies : M Manager (list (loc * loc)) :=
  c ← gets pending_cow_copies; modify (set_cow_copies []) ;; mret c.

(** ** Giving blocks back *)

(** [pop_blocks_for_free] *)
Definition pop_blocks_for_free (rid : string) : M Manager (list loc) :=
  req_blocks ← gets (fun m => default [] (req_to_blocks m !! rid));
  modify (fun m => set_req_to_blocks (delete rid (req_to_blocks m)) m) ;;
  modify (fun m => set_num_cached (delete rid (num_cached_block m)) m) ;;
  modify (fun m => set_partial_hits (delete rid (partial_hit_reqs m)) m) ;;
  mret req_blocks.

(** [free] *)
Definition mgr_free (rid : string) : M MState unit :=
  bs ← on_mgr (pop_blocks_for_free rid);
  with_pool (free_blocks (reverse bs)).

(** The backward loop of [_remove_blocks_in_range], at [n] blocks from
    [first_block]: the updated list and the freed blocks in order.  Blocks of
    one pool are equal when they are the same object. *)
Fixpoint null_backward (null : loc) (first_block : nat) (n : nat) (bs : list loc)
    : option (list loc * list loc) :=
  match n with
  | O => Some (bs, [])
  | S n' =>
      b ← bs !! (first_block + n')%nat;
      if bool_decide (b = null) then Some (bs, [])
      else '(bs', freed) ← null_backward null first_block n' (<[(first_block + n')%nat := null]> bs);
           Some (bs', b :: freed)
  end.

(** [_remove_blocks_in_range]; the callers give [0 <= first_block]. *)
Definition remove_blocks_in_range (rid : string) (first_block last_block : Z) : M MState unit :=
  m ← gets fst;
  match req_to_blocks m !! rid with
  | None => mret tt
  | Some blocks =>
      if last_block <=? first_block then mret tt else
      let last_block := Z.min last_block (zlen blocks) in
      '(blocks', freed) ← of_option IndexError
        (null_backward (mgr_null_block (cfg m)) (Z.to_nat first_block)
           (Z.to_nat (last_block - first_block)) blocks);
      on_mgr (write_req_blocks rid blocks') ;;
      match freed with
      | [] => mret tt
      | _ => with_pool (free_blocks freed)
      end
  end.

(** [remove_skipped_blocks] of the base class *)
Definition base_remove_skipped_blocks (rid : string) (processed_computed_tokens : Z)
    : M MState unit :=
  m ← gets fst;
  let num_skipped_tokens := get_num_skipped_tokens (kind m) processed_computed_tokens in
  if num_skipped_tokens <=? 0 then mret tt else
  blocks ← on_mgr (read_req_blocks rid);
  let num_skipped_blocks := Z.min (num_skipped_tokens / bsz m) (zlen blocks) in
  remove_blocks_in_range rid 0 num_skipped_blocks.

Definition remove_skipped_blocks (rid : string) (processed_computed_tokens : Z)
    (num_prompt_tokens : option Z) : M MState unit :=
  m ← gets fst;
  match kind m with
  | CircularBufferSpec | KpoolTailSpec _ _ => mret tt
  | RSWASpec rswa_window =>
      match num_prompt_tokens with
      | None => base_remove_skipped_blocks rid processed_computed_tokens
      | Some n =>
          let first_gap_block := cdiv n (bsz m) in
          let window_start := Z.max n (processed_computed_tokens - rswa_window) in
          let last_gap_block := window_start / bsz m in
          remove_blocks_in_range rid first_gap_block last_gap_block
      end
  | _ => base_remove_skipped_blocks rid processed_computed_tokens
  end.

(** ** Caching *)

(** [_contiguous_blocks_for_hit] *)
Definition contiguous_blocks_for_hit (window_size blk_size : Z) (eagle : bool) : Z :=
  let blocks := cdiv (window_size - 1) blk_size in
  if eagle then blocks + 1 else blocks.

(** [for i in range(lo, hi): mask[i - start_block] = True] *)
Definition mask_range (start_block lo hi : Z) (mask : list bool) : list bool :=
  foldl (fun m i => <[Z.to_nat (i - start_block) := true]> m) mask (py_range lo hi).

(** [SlidingWindowManager.reachable_block_mask]; [None]: cache every block. *)
Definition sw_reachable_block_mask (start_block end_block : Z) (alignment_tokens : option Z)
    (spec_bs sliding_window : Z) (eagle : bool) (retention_interval : option Z)
    (reachable_boundaries : list Z) (dcp : Z) (final_segment_end_block : option Z)
    : option (list bool) :=
  match alignment_tokens with
  | None => None
  | Some alignment_tokens =>
  let blk_size := spec_bs * dcp in
  if negb (alignment_tokens mod blk_size =? 0) then None else
  let need := contiguous_blocks_for_hit sliding_window blk_size eagle in
  let shift := if eagle then 1 else 0 in
  let mask := replicate (Z.to_nat (end_block - start_block)) false in
  let segment_tokens := match retention_interval with
                        | None => Some alignment_tokens
                        | Some r => if r =? 0 then None else Some r
                        end in
  let step1 :=
    match segment_tokens with
    | None => Some mask
    | Some st =>
        let per_segment := st / blk_size in
        if per_segment <=? need then None else
        let mask := foldl (fun m i =>
          if (shift <=? i) && (per_segment - need <=? (i - shift) mod per_segment)
          then <[Z.to_nat (i - start_block) := true]> m else m)
          mask (py_range start_block end_block) in
        match final_segment_end_block with
        | Some fe =>
            if negb eagle then
              let final_segment_size := fe mod per_segment in
              if negb (final_segment_size =? 0) then
                let final_segment_start := fe - final_segment_size in
                let final_tail_start := Z.max final_segment_start (fe - need) in
                let final_tail_end := Z.min end_block fe in
                Some (mask_range start_block (Z.max start_block final_tail_start)
                        final_tail_end mask)
              else Some mask
            else Some mask
        | None => Some mask
        end
    end in
  mask ← step1;
  match retention_interval with
  | None => Some mask
  | Some _ =>
      Some (foldl (fun m boundary_tokens =>
        let aligned := boundary_tokens / alignment_tokens * alignment_tokens in
        let end_ := aligned / blk_size + shift in
        mask_range start_block (Z.max start_block (end_ - need)) (Z.min end_block end_) m)
        mask reachable_boundaries)
  end
  end.

(** [reachable_block_mask], dispatched *)
Definition reachable_block_mask (k : SpecKind) (spec_bs : Z) (start_block end_block : Z)
    (alignment_tokens : option Z) (eagle : bool) (retention_interval : option Z)
    (reachable_boundaries : list Z) (dcp : Z) : option (list bool) :=
  match k with
  | SlidingWindowSpec w _ =>
      sw_reachable_block_mask start_block end_block alignment_tokens spec_bs w eagle
        retention_interval reachable_boundaries dcp None
  | _ => None
  end.

(** Caching also runs the request's hashing memo: the store has the request. *)
Abbreviation CState := (Manager * (BlockPool * Request))%type.
Definition on_mgr_c {A} (c : M Manager A) : M CState A := zoom fst (fun m s => (m, s.2)) c.
Definition on_rest {A} (c : M (BlockPool * Request) A) : M CState A :=
  zoom snd (fun x s => (s.1, x)) c.

(** [cache_blocks] of the base class *)
Definition base_cache_blocks (num_tokens : Z) (retention_interval : option Z)
    (replay_boundaries : list Z) : M CState unit :=
  '(m, (_, request)) ← get;
  let rid := request_id request in
  let num_cached_blocks := default 0 (num_cached_block m !! rid) in
  let num_full_blocks := num_tokens / bsz m in
  if num_full_blocks <=? num_cached_blocks then mret tt else
  let reachable_boundaries :=
    replay_boundaries ++ (if shared_prefix_boundary request =? 0 then []
                          else [shared_prefix_boundary request]) in
  let block_mask := reachable_block_mask (kind m) (spec_block_size (kv_cache_spec (cfg m)))
    num_cached_blocks num_full_blocks (Some (cache_hit_alignment_tokens (cfg m)))
    (use_eagle (cfg m)) retention_interval reachable_boundaries (dcp_world_size (cfg m)) in
  blocks ← on_mgr_c (read_req_blocks rid);
  on_rest (cache_full_blocks blocks num_cached_blocks num_full_blocks (bsz m)
             (kv_cache_group_id (cfg m)) block_mask) ;;
  on_mgr_c (modify (fun m => set_num_cached (<[rid := num_full_blocks]> (num_cached_block m)) m)).

(** [FullAttentionManager._cache_partial_tail_block] *)
Definition cache_partial_tail_block (num_tokens : Z) : M CState unit :=
  '(m, (p, request)) ← get;
  let boundary_tokens := num_prompt_tokens request / hash_block_size p * hash_block_size p in
  if (boundary_tokens =? 0) || (num_tokens <? boundary_tokens) then mret tt else
  if boundary_tokens mod bsz m =? 0 then mret tt else
  blocks ← on_mgr_c (read_req_blocks (request_id request));
  let block_idx := boundary_tokens / bsz m in
  if zlen blocks <=? block_idx then mret tt else
  block ← of_option IndexError (py_index blocks block_idx);
  _ ← on_rest (cache_partial_block block boundary_tokens (kv_cache_group_id (cfg m)) (bsz m) false);
  mret tt.

(** [FullAttentionManager.cache_blocks] *)
Definition full_cache_blocks (num_tokens : Z) (retention_interval : option Z)
    (replay_boundaries : list Z) : M CState unit :=
  base_cache_blocks num_tokens retention_interval replay_boundaries ;;
  '(m, (p, _)) ← get;
  if bsz m =? hash_block_size p then mret tt else cache_partial_tail_block num_tokens.

(** [cache_blocks], dispatched *)
Definition cache_blocks (num_tokens : Z) (retention_interval : option Z)
    (replay_boundaries : list Z) : M CState unit :=
  '(m, _) ← get;
  match kind m with
  | FullAttentionSpec | RSWASpec _ | SinkFullAttentionSpec _ =>
      full_cache_blocks num_tokens retention_interval replay_boundaries
  | SlidingWindowSpec _ _ | ChunkedLocalAttentionSpec _ =>
      base_cache_blocks num_tokens retention_interval replay_boundaries
  | CircularBufferSpec | KpoolTailSpec _ _ => mret tt
  | CrossAttentionSpec => raise ValueError
  end.

(** The counting loop of [FullAttentionManager.get_num_common_prefix_blocks]. *)
Fixpoint count_common (p : BlockPool) (n : Z) (bs : list loc) : Z :=
  match bs with
  | [] => 0
  | b :: bs' => if ref_cnt (hget (heap p) b) =? n then 1 + count_common p n bs' else 0
  end.

(** [get_num_common_prefix_blocks], dispatched; the [len] is taken after the
    [defaultdict] read. *)
Definition get_num_common_prefix_blocks (running_request_id : string) : M MState Z :=
  m ← gets fst;
  match kind m with
  | FullAttentionSpec | RSWASpec _ | SinkFullAttentionSpec _ =>
      blocks ← on_mgr (read_req_blocks running_request_id);
      '(m, p) ← get;
      mret (count_common p (Z.of_nat (size (req_to_blocks m))) blocks)
  | _ => mret 0
  end.

(** ** Prefix-cache hits *)

(** Append one cached block to the list of each group. *)
Definition append_each (computed : list (list loc)) (cached : list loc) : list (list loc) :=
  zip_with (fun l b => l ++ [b]) computed cached.

(** Phase 1 of the full-attention search: the run of cached blocks. *)
Fixpoint hit_run (hashes : list BlockHash) (gids : list Z) (computed : list (list loc))
    : M BlockPool (list (list loc)) :=
  match hashes with
  | [] => mret computed
  | h :: hashes' =>
      r ← get_cached_block h gids;
      match r with
      | None | Some [] => mret computed
      | Some cached => hit_run hashes' gids (append_each computed cached)
      end
  end.

(** Phase 2: probe interior boundaries, longest first. *)
Fixpoint probe_partial (hs : list BlockHash) (idxs : list Z) (gids : list Z)
    : M BlockPool (option (Z * list loc)) :=
  match idxs with
  | [] => mret None
  | i :: idxs' =>
      h ← of_option IndexError (py_index hs i);
      r ← get_cached_block h gids;
      match r with
      | None | Some [] => probe_partial hs idxs' gids
      | Some cached => mret (Some (i, cached))
      end
  end.

(** [itertools.islice(hashes, n)] *)
Definition islice {S} (v : BlockHashList) (n : Z) : M S (list BlockHash) :=
  if n <? 0 then raise ValueError else
  hs ← of_option IndexError (bh_from v 0);
  mret (take (Z.to_nat n) hs).

Definition first_len {S} (computed : list (list loc)) : M S Z :=
  l ← of_option IndexError (head computed); mret (zlen l).

(** [FullAttentionManager.find_longest_cache_hit] *)
Definition full_find_longest_cache_hit (block_hashes : BlockHashList) (max_length : Z)
    (gids : list Z) (spec : KVCacheSpec) (drop_eagle_block : bool) (alignment_tokens dcp : Z)
    : M BlockPool (list (list loc) * Z) :=
  assert_ (match spec_kind spec with
           | FullAttentionSpec | RSWASpec _ | SinkFullAttentionSpec _
           | ChunkedLocalAttentionSpec _ => true
           | _ => false
           end) ;;
  let blk_size := if 1 <? dcp then spec_block_size spec * dcp else spec_block_size spec in
  hbs ← gets hash_block_size;
  block_hashes ← of_option AssertionError
    (resolve_block_hashes block_hashes hbs blk_size true (Some alignment_tokens));
  let fine_grained := (alignment_tokens <? blk_size) && (blk_size mod alignment_tokens =? 0) in
  full_block_hashes ←
    (if fine_grained then
       match block_hashes with
       | RawHashes hs => of_option AssertionError (new_scaled hs alignment_tokens blk_size)
       | ScaledHashes _ _ => raise AssertionError
       end
     else mret block_hashes);
  hashes ← islice full_block_hashes (max_length / blk_size);
  computed_blocks ← hit_run hashes gids (replicate (length gids) []);
  n ← first_len computed_blocks;
  let hit_length := n * blk_size in
  '(computed_blocks, hit_length) ←
    (if fine_grained then
       match block_hashes with
       | RawHashes hs =>
           let scale_factor := blk_size / alignment_tokens in
           let first_partial_idx := n * scale_factor in
           let max_partial_idx := Z.min (Z.min (first_partial_idx + scale_factor - 1)
             (max_length / alignment_tokens)) (zlen hs) in
           r ← probe_partial hs (py_range_down (max_partial_idx - 1) (first_partial_idx - 1)) gids;
           match r with
           | None => mret (computed_blocks, hit_length)
           | Some (fine_idx, cached_tail) =>
               mret (append_each computed_blocks cached_tail, (fine_idx + 1) * alignment_tokens)
           end
       | ScaledHashes _ _ => raise AssertionError
       end
     else mret (computed_blocks, hit_length));
  let hit_length := if drop_eagle_block && (0 <? hit_length)
                    then hit_length - Z.min alignment_tokens blk_size else hit_length in
  let hit_length := hit_length - hit_length mod alignment_tokens in
  let num_blocks := cdiv hit_length blk_size in
  mret ((fun computed => py_upto computed num_blocks) <$> computed_blocks, hit_length).

(** The right-to-left search of the sliding-window manager: the blocks found so
    far, the length of the current run, and whether the run is long enough. *)
Fixpoint sw_search (block_hashes : BlockHashList) (gids : list Z) (blk_size alignment_tokens need : Z)
    (drop_eagle_block : bool) (idxs : list Z) (computed : list (list loc)) (num_contiguous : Z)
    : M BlockPool (list (list loc) * Z * bool) :=
  match idxs with
  | [] => mret (computed, num_contiguous, false)
  | i :: idxs' =>
      h ← of_option IndexError (bh_index block_hashes i);
      r ← get_cached_block h gids;
      match r with
      | None | Some [] =>
          sw_search block_hashes gids blk_size alignment_tokens need drop_eagle_block idxs'
            computed 0
      | Some cached =>
          let post_pop_blocks := if drop_eagle_block then i else i + 1 in
          if (num_contiguous =? 0) && negb (blk_size =? alignment_tokens) &&
             negb ((post_pop_blocks * blk_size) mod alignment_tokens =? 0)
          then sw_search block_hashes gids blk_size alignment_tokens need drop_eagle_block idxs'
                 computed num_contiguous
          else
            let computed := zip_with (fun l b => <[Z.to_nat i := b]> l) computed cached in
            let num_contiguous := num_contiguous + 1 in
            if need <=? num_contiguous
            then mret ((fun l => py_upto l (i + num_contiguous)) <$> computed, num_contiguous, true)
            else sw_search block_hashes gids blk_size alignment_tokens need drop_eagle_block idxs'
                   computed num_contiguous
      end
  end.

(** [while len(computed_blocks[0]) * block_size % alignment_tokens != 0: pop];
    the loop ends at the latest when the lists are empty. *)
Fixpoint pop_unaligned (n : nat) (blk_size alignment_tokens : Z) (computed : list (list loc))
    : list (list loc) :=
  match n with
  | O => computed
  | S n' =>
      if negb (blk_size =? alignment_tokens) &&
         negb ((Z.of_nat n * blk_size) mod alignment_tokens =? 0)
      then pop_unaligned n' blk_size alignment_tokens ((fun l => removelast l) <$> computed)
      else computed
  end.
Definition pop_until_aligned {S} (blk_size alignment_tokens : Z) (computed : list (list loc))
    : M S (list (list loc)) :=
  n ← first_len computed;
  mret (pop_unaligned (Z.to_nat n) blk_size alignment_tokens computed).

(** [SlidingWindowManager.find_longest_cache_hit] *)
Definition sw_find_longest_cache_hit (block_hashes : BlockHashList) (max_length : Z)
    (gids : list Z) (spec : KVCacheSpec) (drop_eagle_block : bool)
    (alignment_tokens dcp pcp : Z) : M BlockPool (list (list loc) * Z) :=
  sliding_window ← of_option AssertionError
    (match spec_kind spec with
     | SlidingWindowSpec w _ | KpoolTailSpec w _ => Some w
     | _ => None
     end);
  assert_ (dcp =? 1) ;;
  assert_ (pcp =? 1) ;;
  let blk_size := spec_block_size spec in
  hbs ← gets hash_block_size;
  block_hashes ← of_option AssertionError
    (resolve_block_hashes block_hashes hbs blk_size false (Some alignment_tokens));
  let need := contiguous_blocks_for_hit sliding_window blk_size drop_eagle_block in
  let max_num_blocks := max_length / blk_size in
  nb ← gets null_block;
  '(computed_blocks, num_contiguous, match_found) ←
    sw_search block_hashes gids blk_size alignment_tokens need drop_eagle_block
      (py_range_down (max_num_blocks - 1) (-1))
      (replicate (length gids) (replicate (Z.to_nat max_num_blocks) nb)) 0;
  computed_blocks ←
    (if (match_found : bool) then mret computed_blocks
     else pop_until_aligned blk_size alignment_tokens
            ((fun l => py_upto l num_contiguous) <$> computed_blocks));
  n ← first_len computed_blocks;
  computed_blocks ←
    (if drop_eagle_block && (0 <? n)
     then pop_until_aligned blk_size alignment_tokens ((fun l => removelast l) <$> computed_blocks)
     else mret computed_blocks);
  n ← first_len computed_blocks;
  mret (computed_blocks, n * blk_size).

(** The loop of the chunked-local search. *)
Fixpoint chunk_run (block_hashes : BlockHashList) (idxs : list Z) (gids : list Z)
    (computed : list (list loc)) : M BlockPool (list (list loc)) :=
  match idxs with
  | [] => mret computed
  | i :: idxs' =>
      h ← of_option IndexError (bh_index block_hashes i);
      r ← get_cached_block h gids;
      match r with
      | None | Some [] => mret computed
      | Some cached => chunk_run block_hashes idxs' gids (append_each computed cached)
      end
  end.

(** [ChunkedLocalAttentionManager.find_longest_cache_hit] *)
Definition chunked_find_longest_cache_hit (block_hashes : BlockHashList) (max_length : Z)
    (gids : list Z) (spec : KVCacheSpec) (drop_eagle_block : bool)
    (alignment_tokens dcp pcp : Z) : M BlockPool (list (list loc) * Z) :=
  chunk ← of_option AssertionError
    (match spec_kind spec with ChunkedLocalAttentionSpec c => Some c | _ => None end);
  assert_ (negb drop_eagle_block) ;;
  assert_ (dcp =? 1) ;;
  assert_ (pcp =? 1) ;;
  assert_ (spec_block_size spec =? alignment_tokens) ;;
  let blk_size := spec_block_size spec in
  hbs ← gets hash_block_size;
  block_hashes ← of_option AssertionError
    (resolve_block_hashes block_hashes hbs blk_size false (Some alignment_tokens));
  let max_num_blocks := max_length / blk_size in
  let local_attention_start_idx := if 0 <? max_length then max_length / chunk * chunk else 0 in
  let local_attention_start_block_idx := local_attention_start_idx / blk_size in
  nb ← gets null_block;
  computed_blocks ← chunk_run block_hashes
    (py_range local_attention_start_block_idx max_num_blocks) gids
    (replicate (length gids) (replicate (Z.to_nat local_attention_start_block_idx) nb));
  n ← first_len computed_blocks;
  mret (computed_blocks, n * blk_size).

(** [find_longest_cache_hit], dispatched *)
Definition find_longest_cache_hit (block_hashes : BlockHashList) (max_length : Z)
    (gids : list Z) (spec : KVCacheSpec) (drop_eagle_block : bool)
    (alignment_tokens dcp pcp : Z) : M BlockPool (list (list loc) * Z) :=
  match spec_kind spec with
  | FullAttentionSpec | RSWASpec _ | SinkFullAttentionSpec _ =>
      full_find_longest_cache_hit block_hashes max_length gids spec drop_eagle_block
        alignment_tokens dcp
  | SlidingWindowSpec _ _ =>
      sw_find_longest_cache_hit block_hashes max_length gids spec drop_eagle_block
        alignment_tokens dcp pcp
  | ChunkedLocalAttentionSpec _ =>
      chunked_find_longest_cache_hit block_hashes max_length gids spec drop_eagle_block
        alignment_tokens dcp pcp
  | CircularBufferSpec | KpoolTailSpec _ _ => mret ((fun _ => []) <$> gids, 0)
  | CrossAttentionSpec => raise NotImplementedError
  end.

End Managers.
