(* ===== verification/ManagerInv.v ===== *)
(** * The ownership invariant of a block manager

    What holds between calls of a manager's methods: the reference count of
    every block is exactly the number of times the manager's requests list it,
    plus the references its pending copy-on-write pairs keep, plus the
    references [ext] held by others (the other managers, connectors).  Each
    operation is verified against this invariant for an arbitrary [ext]. *)
From Stdlib Require Import ZArith QArith Lia.
From stdpp Require Import base tactics gmap strings numbers option list.
From S2P Require Import Prelude Blocks FreeQueue Request Hashing BlockMap Env Metrics.
From S2P Require Import BlockPool BlockPoolInv BlockPoolCache BlockPoolAlloc BlockPoolSpec Managers.

Local Open Scope Z_scope.

Abbreviation refs p l := (ref_cnt (at_ p l)).

(** ** Holdings *)

(** How often the lists of a block table mention [x]. *)
Definition held_in (t : gmap string (list loc)) (x : loc) : Z :=
  map_fold (fun _ bs acc => occ x bs + acc) 0 t.

(** The blocks kept by pending copies: both ends of each pair. *)
Definition cow_refs (m : Manager) : list loc :=
  (pending_cow_copies m).*1 ++ (pending_cow_copies m).*2.

Definition held (m : Manager) (x : loc) : Z := held_in (req_to_blocks m) x + occ x (cow_refs m).

(** The blocks of a request; no entry is the empty list. *)
Definition table (m : Manager) (rid : string) : list loc := default [] (req_to_blocks m !! rid).

Lemma held_in_delete t rid x :
  held_in t x = occ x (default [] (t !! rid)) + held_in (delete rid t) x.
Proof.
  unfold held_in. destruct (t !! rid) as [bs|] eqn:E; cbn.
  - apply (map_fold_delete_L (fun _ bs acc => occ x bs + acc) 0 rid bs t); [|done]. intros; lia.
  - by rewrite delete_id.
Qed.

Lemma held_in_insert t rid bs x :
  held_in (<[rid := bs]> t) x = held_in t x + occ x bs - occ x (default [] (t !! rid)).
Proof.
  rewrite (held_in_delete t rid x), (held_in_delete (<[rid := bs]> t) rid x).
  rewrite lookup_insert_eq, delete_insert_eq. cbn. lia.
Qed.

Lemma held_in_nonneg t x : 0 <= held_in t x.
Proof.
  unfold held_in. apply (map_fold_weak_ind (fun acc _ => 0 <= acc)); [done|].
  intros rid bs t' acc _ IH. pose proof (occ_nonneg x bs). lia.
Qed.

Lemma held_ge_table m rid x : occ x (table m rid) <= held m x.
Proof.
  unfold held, table. rewrite (held_in_delete _ rid).
  pose proof (held_in_nonneg (delete rid (req_to_blocks m)) x). pose proof (occ_nonneg x (cow_refs m)).
  lia.
Qed.

Lemma occ_nil x : occ x [] = 0.
Proof. apply occ_zero, not_elem_of_nil. Qed.

Lemma occ_cons x y l : occ x (y :: l) = occ x [y] + occ x l.
Proof. apply (occ_app x [y] l). Qed.

Lemma occ_one x y : occ x [y] = if decide (x = y) then 1 else 0.
Proof. change [y] with ([] ++ [y]). by rewrite occ_snoc, occ_nil. Qed.

Lemma occ_replicate_ne x y n : x <> y -> occ x (replicate n y) = 0.
Proof. intros Hne. apply occ_zero. by intros [-> _]%elem_of_replicate. Qed.

Lemma occ_reverse x l : occ x (reverse l) = occ x l.
Proof.
  unfold occ, zlen. f_equal. apply Permutation_length. by rewrite reverse_Permutation.
Qed.

Lemma occ_pos x l : x ∈ l -> 1 <= occ x l.
Proof.
  intros Hx. pose proof (occ_nonneg x l). destruct (decide (occ x l = 0)) as [E|]; [|lia].
  by apply occ_zero in E.
Qed.

Lemma occ_NoDup x l : NoDup l -> occ x l = if decide (x ∈ l) then 1 else 0.
Proof.
  intros Hl. destruct (decide (x ∈ l)) as [Hx|Hx]; [|by apply occ_zero].
  apply list_elem_of_split in Hx as (l1 & l2 & ->).
  apply NoDup_app in Hl as (_ & Hd & Hl). apply NoDup_cons in Hl as [Hx2 _].
  rewrite occ_app, occ_cons, occ_one, decide_True by done.
  rewrite (proj2 (occ_zero x l1)), (proj2 (occ_zero x l2)); [done|done|].
  intros Hx1. apply (Hd x Hx1). by left.
Qed.

Lemma occ_insert x l i y z : l !! i = Some y -> occ x (<[i := z]> l) = occ x l - occ x [y] + occ x [z].
Proof.
  intros Hi. pose proof (lookup_lt_Some _ _ _ Hi).
  rewrite insert_take_drop by done. rewrite <- (take_drop_middle l i y Hi) at 3.
  rewrite !occ_app, (occ_cons x z), (occ_cons x y). lia.
Qed.

(** ** The invariant *)

Record mgr_inv (m : Manager) (p : BlockPool) (ext : loc -> Z) : Prop := {
  mi_null : mgr_null_block (cfg m) = null_block p;
  mi_caching : caching_enabled (cfg m) = enable_caching p;
  mi_size : 0 < bsz m;
  mi_chunk : forall c, kind m = ChunkedLocalAttentionSpec c -> 0 < c;
  mi_blocks : forall rid x, x ∈ table m rid -> x ∈ blocks p;
  mi_cow : forall x, x ∈ cow_refs m -> x ∈ blocks p /\ x <> null_block p;
  mi_refs : forall x, x ∈ blocks p -> x <> null_block p -> refs p x = held m x + ext x;
  mi_ext : forall x, 0 <= ext x;
  mi_partial : forall rid idx src, partial_hit_reqs m !! rid = Some (idx, src) ->
    0 <= idx /\ table m rid !! Z.to_nat idx = Some src /\ src <> null_block p
}.

(** One request's list, the copies and the counts change together. *)
Lemma mgr_inv_step m p ext m' p' rid bs' :
  mgr_inv m p ext -> same_config p p' -> cfg m' = cfg m ->
  req_to_blocks m' = <[rid := bs']> (req_to_blocks m) ->
  (forall x, x ∈ bs' -> x ∈ blocks p) ->
  (forall x, x ∈ cow_refs m' -> x ∈ blocks p /\ x <> null_block p) ->
  (forall x, x ∈ blocks p -> x <> null_block p ->
     refs p' x + occ x (table m rid) + occ x (cow_refs m) =
     refs p x + occ x bs' + occ x (cow_refs m')) ->
  (forall rid' idx src, partial_hit_reqs m' !! rid' = Some (idx, src) ->
     if decide (rid' = rid) then 0 <= idx /\ bs' !! Z.to_nat idx = Some src /\ src <> null_block p
     else partial_hit_reqs m !! rid' = Some (idx, src)) ->
  mgr_inv m' p' ext.
Proof.
  intros [H1 H2 H3 H4 H5 H6 H7 H8 H9] Hc Hcfg Hreq Hbs Hcow Hr Hp.
  pose proof Hc as [Cnum Ccach Chbs Cbl Cnull Cev Cnext Chd Ctl Cid Cisn].
  assert (forall rid', table m' rid' = if decide (rid' = rid) then bs' else table m rid') as Ht.
  { intros rid'. unfold table. rewrite Hreq. case_decide as E; [subst; by rewrite lookup_insert_eq|].
    by rewrite lookup_insert_ne. }
  split; unfold bsz, kind in *; rewrite ?Hcfg, ?Cbl, ?Cnull, ?Ccach; try done.
  - intros rid' x. rewrite Ht. case_decide; [apply Hbs|apply H5].
  - intros x Hx Hn. specialize (Hr x Hx Hn). specialize (H7 x Hx Hn). unfold held in *.
    rewrite Hreq, held_in_insert. unfold table in Hr. lia.
  - intros rid' idx src E. specialize (Hp rid' idx src E). rewrite Ht.
    case_decide; [done|]. by apply H9.
Qed.

(** Attributes the invariant does not mention. *)
Lemma mgr_inv_frame m p ext m' :
  mgr_inv m p ext -> cfg m' = cfg m -> req_to_blocks m' = req_to_blocks m ->
  pending_cow_copies m' = pending_cow_copies m ->
  (forall rid h, partial_hit_reqs m' !! rid = Some h -> partial_hit_reqs m !! rid = Some h) ->
  mgr_inv m' p ext.
Proof.
  intros [H1 H2 H3 H4 H5 H6 H7 H8 H9] Hcfg Hreq Hcow Hp.
  split; unfold bsz, kind, table, held, cow_refs in *; rewrite ?Hcfg, ?Hreq, ?Hcow; try done.
  intros rid idx src E. by apply H9, Hp.
Qed.

Lemma read_req_blocks_ok rid m :
  read_req_blocks rid m =
    Ok (table m rid) (set_req_to_blocks (match req_to_blocks m !! rid with
                        | Some _ => req_to_blocks m | None => <[rid := []]> (req_to_blocks m) end) m).
Proof.
  unfold read_req_blocks, table, mbind, M_bind, get. cbn.
  destruct (req_to_blocks m !! rid) eqn:E; [by destruct m|done].
Qed.

(** Reading inserts at most an empty list, which holds nothing. *)
Lemma mgr_inv_read m p ext rid :
  mgr_inv m p ext ->
  mgr_inv (set_req_to_blocks (match req_to_blocks m !! rid with
             | Some _ => req_to_blocks m | None => <[rid := []]> (req_to_blocks m) end) m) p ext.
Proof.
  intros Hi. destruct (req_to_blocks m !! rid) as [bs|] eqn:E; [by destruct m|].
  apply (mgr_inv_step m p ext _ p rid []); try done.
  - by intros x ?%elem_of_nil.
  - apply Hi.
  - intros x _ _. unfold table. by rewrite E.
  - intros rid' idx src Ep. case_decide as Er; [|done]. subst.
    apply (mi_partial _ _ _ Hi) in Ep as (_ & Hl & _). unfold table in Hl. by rewrite E in Hl.
Qed.
