(* ===== verification/ManagerOps.v ===== *)
(** * The operations of a block manager keep the ownership invariant

    Specifications of the methods of [SingleTypeKVCacheManager]: what each does
    to the request's block table and to the free list, and that reference
    counts keep matching the tables. *)
From Stdlib Require Import ZArith QArith Lia.
From stdpp Require Import base tactics gmap strings numbers option list.
From S2P Require Import Prelude Blocks FreeQueue Request Hashing BlockMap Env Metrics.
From S2P Require Import BlockPool BlockPoolInv BlockPoolCache BlockPoolAlloc BlockPoolSpec Managers.
From S2P Require Import ManagerInv.

Local Open Scope Z_scope.

Section ManagerOps.
Context `{Env}.

(** ** Frames *)

(** Only the entry of [rid], and the bookkeeping of new ids, differ. *)
Record same_mgr (rid : string) (m m' : Manager) : Prop := {
  sm_cfg : cfg m' = cfg m;
  sm_other : forall r, r <> rid -> req_to_blocks m' !! r = req_to_blocks m !! r;
  sm_cached : forall r, r <> rid -> num_cached_block m' !! r = num_cached_block m !! r;
  sm_partial : forall r, r <> rid -> partial_hit_reqs m' !! r = partial_hit_reqs m !! r
}.

#[export] Instance same_mgr_refl rid : Reflexive (same_mgr rid).
Proof. by intros m. Qed.
#[export] Instance same_mgr_trans rid : Transitive (same_mgr rid).
Proof.
  intros m1 m2 m3 [A1 A2 A3 A4] [B1 B2 B3 B4].
  split; intros; [congruence|rewrite B2|rewrite B3|rewrite B4]; auto.
Qed.

Definition read_mgr (rid : string) (m : Manager) : Manager :=
  set_req_to_blocks (match req_to_blocks m !! rid with
    | Some _ => req_to_blocks m | None => <[rid := []]> (req_to_blocks m) end) m.

Lemma read_mgr_table rid m r : table (read_mgr rid m) r = table m r.
Proof.
  unfold read_mgr, table. cbn. destruct (req_to_blocks m !! rid) eqn:E; [done|].
  destruct (decide (r = rid)) as [->|Hne]; [by rewrite lookup_insert_eq, E|by rewrite lookup_insert_ne].
Qed.

Lemma read_mgr_same rid m : same_mgr rid m (read_mgr rid m).
Proof.
  unfold read_mgr. split; [done| |done|done]. intros r Hr. cbn.
  destruct (req_to_blocks m !! rid); [done|]. by rewrite lookup_insert_ne.
Qed.

Lemma wp_read rid m p Q :
  Q (table m rid) (read_mgr rid m, p) -> wp (on_mgr (read_req_blocks rid)) Q (m, p).
Proof. intros HQ. apply wp_zoom. unfold wp. cbn [fst]. by rewrite read_req_blocks_ok. Qed.

Lemma wp_record_ids bs m p (Q : unit -> MState -> Prop) :
  (forall ids, Q tt (set_new_block_ids ids m, p)) -> wp (record_ids bs) Q (m, p).
Proof.
  intros HQ. unfold wp, record_ids. destruct (record_new_block_ids (cfg m)); [apply HQ|].
  specialize (HQ (new_block_ids m)). by destruct m.
Qed.

(** ** Hashes

    Only the blocks [bs] lose their hashes, and they lose them all when the pool
    caches. *)
Record rehashed (p : BlockPool) (bs : list loc) (p' : BlockPool) : Prop := {
  rh_keep : forall x, x ∉ bs -> Blocks.block_hash (at_ p' x) = Blocks.block_hash (at_ p x) /\
              block_hash_num_tokens (at_ p' x) = block_hash_num_tokens (at_ p x);
  rh_new : enable_caching p = true -> forall x, x ∈ bs -> Blocks.block_hash (at_ p' x) = None
}.

Lemma alloc_rehashed p p' : alloc_step p p' -> rehashed p [] p'.
Proof. intros [_ _ _ Hh Hn]. split; [done|]. by intros _ x ?%elem_of_nil. Qed.

Lemma rehashed_refl p : rehashed p [] p.
Proof. apply alloc_rehashed. done. Qed.

Lemma rehashed_trans p bs p1 bs' p' :
  enable_caching p1 = enable_caching p -> rehashed p bs p1 -> rehashed p1 bs' p' -> rehashed p (bs ++ bs') p'.
Proof.
  intros Ec [K1 N1] [K2 N2]. rewrite Ec in N2. split.
  - intros x Hx. rewrite elem_of_app in Hx. destruct (K2 x) as [E1 E2]; [tauto|].
    destruct (K1 x) as [E3 E4]; [tauto|]. by rewrite E1, E2, E3, E4.
  - intros Hc x Hx. destruct (decide (x ∈ bs')) as [Hx'|Hx']; [by apply N2|].
    rewrite (proj1 (K2 x Hx')). apply N1; [done|]. apply elem_of_app in Hx. tauto.
Qed.

(** ** Taking new blocks *)

Record taken (p : BlockPool) (free : list loc) (n : Z) (bs : list loc) (p' : BlockPool) : Prop := {
  tk_bs : bs = take (Z.to_nat n) free;
  tk_len : zlen bs = n;
  tk_wf : pool_wf p' (drop (Z.to_nat n) free);
  tk_cfg : same_config p p';
  tk_ref : forall x, refs p' x = refs p x + occ x bs;
  tk_in : forall x, x ∈ bs -> x ∈ blocks p /\ x <> null_block p /\ refs p x = 0;
  tk_hash : rehashed p bs p'
}.

Lemma get_new_taken p free n :
  pool_wf p free -> 0 <= n <= zlen free ->
  wp (get_new_blocks n) (fun bs p' => taken p free n bs p') p.
Proof.
  intros Hwf Hn. pose proof Hwf as Hwf0.
  rewrite <- (take_drop (Z.to_nat n) free) in Hwf.
  assert (zlen (take (Z.to_nat n) free) = n) as Hlen
    by (unfold zlen in *; rewrite length_take; lia).
  pose proof (get_new_blocks_spec p _ _ Hwf) as Hw. rewrite Hlen in Hw.
  eapply wp_mono; [exact Hw|]. intros r p' [-> [G1 G2 G3 G4 G5 G6]].
  assert (forall x, x ∈ take (Z.to_nat n) free -> x ∈ blocks p /\ x <> null_block p /\ refs p x = 0)
    as Hin.
  { intros x Hx. apply (pa_free _ _ (pw_alloc _ _ Hwf0)). rewrite <- (take_drop (Z.to_nat n) free).
    apply elem_of_app. by left. }
  split; [done|done|done|done| |done|].
  2:{ split; [intros x Hx; split; [by apply G4|by apply G5]|]. intros Hc x Hx. by apply G4. }
  intros x. rewrite G3, occ_NoDup.
  - case_decide as Hx; [|lia]. destruct (Hin x Hx) as (_ & _ & ->). done.
  - pose proof (queue_NoDup p free Hwf0) as Hnd. rewrite <- (take_drop (Z.to_nat n) free) in Hnd.
    by apply NoDup_app in Hnd as (? & _).
Qed.

(** The request's list grows by [n] blocks from the front of the free list. *)
Record extended (m : Manager) (p : BlockPool) (free : list loc) (ext : loc -> Z) (rid : string)
    (n : Z) (s : MState) : Prop := {
  ex_table : table s.1 rid = table m rid ++ take (Z.to_nat n) free;
  ex_mgr : same_mgr rid m s.1;
  ex_keep : num_cached_block s.1 = num_cached_block m /\ partial_hit_reqs s.1 = partial_hit_reqs m /\
            pending_cow_copies s.1 = pending_cow_copies m;
  ex_wf : pool_wf s.2 (drop (Z.to_nat n) free);
  ex_inv : mgr_inv s.1 s.2 ext;
  ex_cfg : same_config p s.2;
  ex_hash : rehashed p (take (Z.to_nat n) free) s.2
}.

Lemma extend_inv m p free ext rid n bs p' ids :
  mgr_inv m p ext -> taken p free n bs p' ->
  extended m p free ext rid n
    (set_new_block_ids ids (set_req_to_blocks (<[rid := table m rid ++ bs]> (req_to_blocks m)) m), p').
Proof.
  intros Hi [-> Hl Hwf Hc Hr Hin Hh].
  split; cbn [fst snd]; [unfold table at 1; cbn; by rewrite lookup_insert_eq| |done|done| |done|done].
  { split; [done| |done|done]. intros r Hr'. cbn. by rewrite lookup_insert_ne. }
  apply (mgr_inv_step m p ext _ p' rid (table m rid ++ take (Z.to_nat n) free)); try done.
  - intros x [Hx|Hx]%elem_of_app; [by apply (mi_blocks _ _ _ Hi rid)|by apply Hin].
  - apply Hi.
  - intros x _ _. rewrite Hr, occ_app. change (cow_refs (set_new_block_ids _ _)) with (cow_refs m). lia.
  - intros r idx src E. case_decide as Er; [|done]. subst r.
    destruct (mi_partial _ _ _ Hi rid idx src E) as (? & Hl' & ?). split_and!; [done| |done].
    by apply lookup_app_l_Some.
Qed.

(** Nothing taken. *)
Lemma extended_zero m p free ext rid m' :
  pool_wf p free -> mgr_inv m' p ext -> table m' rid = table m rid -> same_mgr rid m m' ->
  num_cached_block m' = num_cached_block m -> partial_hit_reqs m' = partial_hit_reqs m ->
  pending_cow_copies m' = pending_cow_copies m ->
  extended m p free ext rid 0 (m', p).
Proof. intros. split; cbn; try done; [by rewrite app_nil_r|apply rehashed_refl]. Qed.

(** Reading first does not matter. *)
Lemma extended_read m p free ext rid n s :
  extended (read_mgr rid m) p free ext rid n s -> extended m p free ext rid n s.
Proof.
  intros [H1 H2 H3 H4 H5 H6 H7]. split; [by rewrite H1, read_mgr_table| |done|done|done|done|done].
  transitivity (read_mgr rid m); [apply read_mgr_same|done].
Qed.

Lemma extend_after_read m p free ext rid n bs p' ids :
  mgr_inv m p ext -> taken p free n bs p' ->
  extended m p free ext rid n (set_new_block_ids ids
    (set_req_to_blocks (<[rid := table m rid ++ bs]> (req_to_blocks (read_mgr rid m)))
       (read_mgr rid m)), p').
Proof.
  intros Hi Ht. apply extended_read. rewrite <- (read_mgr_table rid m rid).
  apply extend_inv; [|done]. by apply mgr_inv_read.
Qed.

(** [allocate_external_computed_blocks]: never more than the blocks that the
    computed tokens need. *)
Lemma base_allocate_external_spec m p free ext rid local external :
  pool_wf p free -> mgr_inv m p ext -> 0 <= local -> 0 <= external ->
  Z.max 0 (cdiv (local + external) (bsz m) - zlen (table m rid)) <= zlen free ->
  wp (base_allocate_external_computed_blocks rid local external)
    (fun _ s => exists n, 0 <= n <= Z.max 0 (cdiv (local + external) (bsz m) - zlen (table m rid)) /\
       extended m p free ext rid n s) (m, p).
Proof.
  intros Hwf Hi Hl He Hfree. unfold base_allocate_external_computed_blocks.
  apply wp_bind, wp_gets. cbn [fst].
  set (ext' := if 0 <? _ then _ else external).
  destruct (ext' <=? 0).
  { apply wp_ret. exists 0. split; [lia|]. by apply extended_zero. }
  apply wp_bind, wp_read, wp_bind, wp_zoom. cbn [snd].
  eapply wp_mono; [apply (get_new_taken p free); [done|lia]|]. intros bs p' Ht.
  apply wp_bind, wp_zoom, wp_modify. cbn [fst snd]. apply wp_record_ids. intros ids.
  exists (Z.max 0 (cdiv (local + external) (bsz m) - zlen (table m rid))). split; [lia|].
  by apply extend_after_read.
Qed.

(** One more reference on a block that is not free. *)
Lemma add_ref_spec p free x :
  pool_wf p free -> x ∈ blocks p -> x ∉ free ->
  wp (pupd x (fun b => set_ref_cnt (ref_cnt b + 1) b)) (fun _ p' =>
    pool_wf p' free /\ alloc_step p p' /\
    forall y, refs p' y = refs p y + occ y [x]) p.
Proof.
  intros Hwf Hx Hf. apply wp_modify.
  destruct (touched_wf p free x p (set_heap (hupd x (fun b => set_ref_cnt (ref_cnt b + 1) b) (heap p)) p))
    as (Hwf' & Ha & Hr); try done.
  - rewrite filter_ne_absent by done. apply Hwf.
  - pose proof (pupd_ref_step p x 1 (metrics_collector p)) as Hs. by destruct p.
  - rewrite filter_ne_absent in Hwf' by done. split_and!; [done|done|].
    intros y. rewrite Hr, occ_one. case_decide; lia.
Qed.

(** The shared tail block of a partial hit is replaced by a private copy. *)
Record redirected (m : Manager) (p : BlockPool) (free : list loc) (ext : loc -> Z) (rid : string)
    (idx : Z) (src c : loc) (s : MState) : Prop := {
  rd_table : table s.1 rid = <[Z.to_nat idx := c]> (table m rid);
  rd_mgr : same_mgr rid m s.1;
  rd_cached : num_cached_block s.1 = num_cached_block m;
  rd_partial : partial_hit_reqs s.1 !! rid = None;
  rd_cow : pending_cow_copies s.1 = pending_cow_copies m ++ [(src, c)];
  rd_wf : pool_wf s.2 free;
  rd_inv : mgr_inv s.1 s.2 ext;
  rd_cfg : same_config p s.2;
  rd_hash : rehashed p [c] s.2
}.

(** The manager after the redirect. *)
Definition cow_mgr (rid : string) (idx : Z) (src c : loc) (ids : list Z) (m : Manager) : Manager :=
  mkManager (cfg m) ids (<[rid := <[Z.to_nat idx := c]> (table m rid)]> (req_to_blocks m))
    (num_cached_block m) (delete rid (partial_hit_reqs m)) (pending_cow_copies m ++ [(src, c)]).

Lemma cow_redirected m p free ext rid idx src c ids p' :
  mgr_inv m p ext -> table m rid !! Z.to_nat idx = Some src -> src <> null_block p ->
  src ∈ blocks p -> c ∈ blocks p -> c <> null_block p ->
  pool_wf p' free -> same_config p p' -> rehashed p [c] p' ->
  (forall x, refs p' x = refs p x + occ x [c] + occ x [c]) ->
  redirected m p free ext rid idx src c (cow_mgr rid idx src c ids m, p').
Proof.
  intros Hi Hl Hsn Hsb Hcb Hcn Hwf Hc Hh Hr. split; cbn [fst snd]; try done.
  - unfold table at 1. cbn. by rewrite lookup_insert_eq.
  - split; cbn; [done| |done|]; intros r Hne; [by rewrite lookup_insert_ne|by rewrite lookup_delete_ne].
  - apply lookup_delete_eq.
  - apply (mgr_inv_step m p ext _ p' rid (<[Z.to_nat idx := c]> (table m rid))); try done.
    + intros x [i Hx]%list_elem_of_lookup.
      apply list_lookup_insert_Some in Hx as [(_ & -> & _)|(_ & Hx)]; [done|].
      apply (mi_blocks _ _ _ Hi rid). by eapply list_elem_of_lookup_2.
    + intros x. unfold cow_refs. cbn. rewrite !fmap_app, !elem_of_app. cbn.
      rewrite !list_elem_of_singleton. intros [[Hx| ->]|[Hx| ->]]; [|done| |done];
        apply (mi_cow _ _ _ Hi); unfold cow_refs; rewrite elem_of_app; tauto.
    + intros x _ _. rewrite Hr, (occ_insert x _ _ src) by done.
      unfold cow_refs. cbn [cow_mgr pending_cow_copies]. rewrite !fmap_app, !occ_app.
      change ([(src, c)].*1) with [src]. change ([(src, c)].*2) with [c]. lia.
    + intros r i y. cbn. case_decide as Er; [subst; by rewrite lookup_delete_eq|].
      by rewrite lookup_delete_ne.
Qed.

Lemma read_mgr_id rid m : is_Some (req_to_blocks m !! rid) -> read_mgr rid m = m.
Proof. intros [bs E]. unfold read_mgr. rewrite E. by destruct m. Qed.

(** [_apply_cow] when the block table holds the tail block. *)
Lemma apply_cow_spec m p rid idx src c (Q : unit -> MState -> Prop) free :
  pool_wf p free -> 0 <= idx -> table m rid !! Z.to_nat idx = Some src ->
  is_null (at_ p src) = false -> 0 < refs p src -> c ∈ blocks p -> c ∉ free ->
  (forall p', pool_wf p' free -> alloc_step p p' -> (forall x, refs p' x = refs p x + occ x [c]) ->
     Q tt (mkManager (cfg m) (new_block_ids m)
             (<[rid := <[Z.to_nat idx := c]> (table m rid)]> (req_to_blocks m))
             (num_cached_block m) (partial_hit_reqs m) (pending_cow_copies m ++ [(src, c)]), p')) ->
  wp (apply_cow rid idx src c) Q (m, p).
Proof.
  intros Hwf Hidx Hl Hn Hr Hc Hf HQ. unfold apply_cow. apply wp_bind, wp_read.
  rewrite read_mgr_id by (unfold table in Hl; destruct (req_to_blocks m !! rid); [by eexists|done]).
  apply wp_bind, wp_assert.
  { apply Z.ltb_lt. apply lookup_lt_Some in Hl. unfold zlen. lia. }
  apply wp_bind. eapply wp_of_option; [rewrite py_index_nonneg by done; exact Hl|].
  apply wp_bind, wp_assert; [by apply bool_decide_eq_true|].
  apply wp_bind, wp_zoom, wp_gets. cbn [fst snd]. fold (at_ p src).
  apply wp_bind, wp_assert; [by rewrite Hn, (proj2 (Z.ltb_lt _ _) Hr)|].
  apply wp_bind, wp_zoom, wp_modify. cbn [fst snd]. apply wp_bind, wp_zoom, wp_modify. cbn [fst snd].
  apply wp_zoom. cbn [snd]. eapply wp_mono; [by apply (add_ref_spec p free c)|].
  intros [] p' (H1 & H2 & H3). by apply HQ.
Qed.

Lemma redirect_partial_hit_spec m p c free ext rid idx src :
  pool_wf p (c :: free) -> mgr_inv m p ext -> partial_hit_reqs m !! rid = Some (idx, src) ->
  wp (redirect_partial_hit rid)
    (fun r s => r = [c] /\ redirected m p free ext rid idx src c s) (m, p).
Proof.
  intros Hwf Hi Hp. unfold redirect_partial_hit. apply wp_bind, wp_gets. cbn [fst]. rewrite Hp.
  destruct (mi_partial _ _ _ Hi rid idx src Hp) as (Hidx & Hl & Hns).
  assert (src ∈ table m rid) as Hsin by by eapply list_elem_of_lookup_2.
  pose proof (mi_blocks _ _ _ Hi rid src Hsin) as Hsb.
  assert (0 < refs p src) as Hsr.
  { rewrite (mi_refs _ _ _ Hi) by done. pose proof (held_ge_table m rid src).
    pose proof (occ_pos src _ Hsin). pose proof (mi_ext _ _ _ Hi src). lia. }
  apply wp_bind, wp_zoom, wp_modify. cbn [fst snd]. apply wp_bind, wp_zoom. cbn [snd].
  eapply wp_mono; [apply (get_new_taken p (c :: free) 1); [done|]|].
  { rewrite zlen_cons. pose proof (zlen_nonneg free). lia. }
  intros bs p1 [-> _ Hwf1 Hc1 Hr1 Hin1 Hh1]. change (take (Z.to_nat 1) (c :: free)) with [c] in *.
  change (drop (Z.to_nat 1) (c :: free)) with free in *. cbn [fst snd].
  apply wp_bind. eapply wp_of_option; [reflexivity|].
  destruct (Hin1 c) as (Hcb & Hcn & Hc0); [by left|].
  apply wp_bind, (apply_cow_spec _ p1 rid idx src c _ free); try done.
  - rewrite (sc_isnull _ _ Hc1), (pb_isnull _ (pw_blocks _ _ Hwf) src Hsb). by apply bool_decide_eq_false.
  - rewrite Hr1. pose proof (occ_nonneg src [c]). lia.
  - by rewrite (sc_blocks _ _ Hc1).
  - pose proof (queue_NoDup p _ Hwf) as Hnd. by apply NoDup_cons in Hnd as [? _].
  - intros p2 Hwf2 Hc2 Hr2. apply wp_bind, wp_zoom, wp_gets. cbn [fst snd].
    apply wp_bind, wp_zoom, wp_modify. cbn [fst snd]. apply wp_ret. split; [done|].
    apply (cow_redirected m p free ext rid idx src c _ p2); try done.
    + transitivity p1; [done|apply Hc2].
    + apply (rehashed_trans p [c] p1 [] p2); [by rewrite (sc_caching _ _ Hc1)|done|by apply alloc_rehashed].
    + intros x. by rewrite Hr2, Hr1.
Qed.

(** How many blocks [allocate_new_blocks] takes. *)
Definition new_demand (m : Manager) (rid : string) (num_tokens : Z) : Z :=
  Z.max 0 (cdiv num_tokens (bsz m) - zlen (table m rid)).
Definition cow_demand (m : Manager) (rid : string) : Z :=
  if decide (is_Some (partial_hit_reqs m !! rid)) then 1 else 0.

(** The table with the shared tail replaced by [c]. *)
Definition redirected_table (m : Manager) (rid : string) (c : option loc) : list loc :=
  match partial_hit_reqs m !! rid, c with
  | Some (idx, _), Some c => <[Z.to_nat idx := c]> (table m rid)
  | _, _ => table m rid
  end.

(** What [allocate_new_blocks] does: the copy of a shared tail first, then the
    missing blocks, all from the front of the free list. *)
Record allocated (m : Manager) (p : BlockPool) (free : list loc) (ext : loc -> Z) (rid : string)
    (num_tokens : Z) (r : list loc) (s : MState) : Prop := {
  al_ret : r = take (Z.to_nat (cow_demand m rid + new_demand m rid num_tokens)) free;
  al_table : table s.1 rid = redirected_table m rid (head free) ++
               drop (Z.to_nat (cow_demand m rid)) r;
  al_mgr : same_mgr rid m s.1;
  al_cached : num_cached_block s.1 = num_cached_block m;
  al_partial : partial_hit_reqs s.1 !! rid = None;
  al_wf : pool_wf s.2 (drop (Z.to_nat (cow_demand m rid + new_demand m rid num_tokens)) free);
  al_inv : mgr_inv s.1 s.2 ext;
  al_cfg : same_config p s.2;
  al_hash : rehashed p r s.2
}.

(** The part of [allocate_new_blocks] after the redirect. *)
Lemma allocate_rest_spec m p free ext rid num_tokens cow :
  pool_wf p free -> mgr_inv m p ext -> new_demand m rid num_tokens <= zlen free ->
  wp (req_blocks ← on_mgr (read_req_blocks rid);
      m ← gets fst;
      let num_new_blocks := cdiv num_tokens (bsz m) - zlen req_blocks in
      if num_new_blocks <=? 0 then mret cow else
      new_blocks ← with_pool (get_new_blocks num_new_blocks);
      on_mgr (write_req_blocks rid (req_blocks ++ new_blocks)) ;;
      record_ids new_blocks ;;
      mret (cow ++ new_blocks))
    (fun r s => r = cow ++ take (Z.to_nat (new_demand m rid num_tokens)) free /\
       extended m p free ext rid (new_demand m rid num_tokens) s) (m, p).
Proof.
  intros Hwf Hi Hfree. unfold new_demand in *. apply wp_bind, wp_read, wp_bind, wp_gets. cbn [fst].
  change (bsz (read_mgr rid m)) with (bsz m).
  destruct (Z.leb_spec (cdiv num_tokens (bsz m) - zlen (table m rid)) 0) as [Hle|Hgt].
  - rewrite Z.max_l by lia. apply wp_ret. split; [by rewrite app_nil_r|].
    apply extended_zero; try done; [by apply mgr_inv_read|by rewrite read_mgr_table|apply read_mgr_same].
  - rewrite Z.max_r in * by lia. apply wp_bind, wp_zoom. cbn [snd].
    eapply wp_mono; [apply (get_new_taken p free); [done|lia]|]. intros bs p' Ht.
    apply wp_bind, wp_zoom, wp_modify. cbn [fst snd]. apply wp_bind, wp_record_ids. intros ids.
    apply wp_ret. split; [by rewrite (tk_bs _ _ _ _ _ Ht)|by apply extend_after_read].
Qed.

Lemma base_allocate_new_blocks_spec m p free ext rid num_tokens :
  pool_wf p free -> mgr_inv m p ext ->
  cow_demand m rid + new_demand m rid num_tokens <= zlen free ->
  wp (base_allocate_new_blocks rid num_tokens)
    (fun r s => allocated m p free ext rid num_tokens r s) (m, p).
Proof.
  intros Hwf Hi Hfree. unfold base_allocate_new_blocks, cow_demand in *.
  assert (0 <= new_demand m rid num_tokens) as Hn0 by (unfold new_demand; lia).
  destruct (partial_hit_reqs m !! rid) as [[idx src]|] eqn:Hp.
  - rewrite decide_True in * by by eexists.
    destruct free as [|c free]; [unfold zlen in Hfree; cbn in Hfree; lia|].
    apply wp_bind. eapply wp_mono; [by apply (redirect_partial_hit_spec m p c free ext rid idx src)|].
    intros r [m1 p1] (-> & [R1 R2 R3 R4 R5 R6 R7 R8 R9]). cbn [fst snd] in *.
    assert (new_demand m1 rid num_tokens = new_demand m rid num_tokens) as Hd.
    { unfold new_demand, bsz. rewrite R1, (sm_cfg _ _ _ R2). unfold zlen. by rewrite length_insert. }
    eapply wp_mono; [apply (allocate_rest_spec m1 p1 free ext); [done|done|]|].
    { rewrite zlen_cons in Hfree. lia. }
    intros r [m2 p2] (-> & [X1 X2 (X3 & X3' & _) X4 X5 X6 X7]). cbn [fst snd] in *. rewrite Hd in *.
    assert (Z.to_nat (1 + new_demand m rid num_tokens) = S (Z.to_nat (new_demand m rid num_tokens)))
      as Hs by lia.
    split; unfold cow_demand; rewrite ?Hp, ?decide_True by (by eexists); rewrite ?Hs; cbn [fst snd]; try done.
    + unfold redirected_table. rewrite Hp. cbn. by rewrite X1, R1.
    + by transitivity m1.
    + by rewrite X3.
    + by rewrite X3'.
    + by transitivity p1.
    + apply (rehashed_trans p [c] p1); [by rewrite (sc_caching _ _ R8)|done|done].
  - rewrite decide_False in * by (intros []; done).
    unfold redirect_partial_hit. apply wp_bind, wp_bind, wp_gets. cbn [fst]. rewrite Hp. apply wp_ret.
    eapply wp_mono; [apply (allocate_rest_spec m p free ext); [done|done|lia]|].
    intros r [m2 p2] (-> & [X1 X2 (X3 & X3' & _) X4 X5 X6 X7]). cbn [fst snd] in *.
    split; unfold cow_demand; rewrite ?Hp, ?decide_False by (intros []; done);
      rewrite ?Z.add_0_l; cbn [fst snd]; try done.
    + unfold redirected_table. by rewrite Hp.
    + by rewrite X3'.
Qed.

Lemma redirected_table_length m rid c : length (redirected_table m rid c) = length (table m rid).
Proof.
  unfold redirected_table. destruct (partial_hit_reqs m !! rid) as [[]|], c; try done.
  apply length_insert.
Qed.

(** Enough slots for the tokens. *)
Lemma allocated_enough m p free ext rid num_tokens r s :
  allocated m p free ext rid num_tokens r s ->
  cow_demand m rid + new_demand m rid num_tokens <= zlen free ->
  zlen (table s.1 rid) = Z.max (zlen (table m rid)) (cdiv num_tokens (bsz m)).
Proof.
  intros [A1 A2 _ _ _ _ _ _] Hf. rewrite A2, A1, zlen_app. unfold zlen at 1.
  rewrite redirected_table_length. unfold zlen in *. rewrite length_drop, length_take.
  unfold new_demand, zlen, cow_demand in *. case_decide; lia.
Qed.

(** ** Prefix hits *)

(** Blocks before the window of a request with [total] computed tokens. *)
Definition skipped_blocks (m : Manager) (total : Z) : Z :=
  get_num_skipped_tokens (kind m) total / bsz m.
Definition kept_blocks (m : Manager) (total : Z) (ncb : list loc) : list loc :=
  drop (Z.to_nat (skipped_blocks m total)) ncb.

Lemma skipped_tokens_nonneg m p ext total :
  mgr_inv m p ext -> 0 <= total -> 0 <= get_num_skipped_tokens (kind m) total.
Proof.
  intros Hi Ht. destruct (kind m) eqn:E; cbn; try lia.
  pose proof (mi_chunk _ _ _ Hi _ E). pose proof (Z.div_pos total attention_chunk_size). nia.
Qed.

Lemma skipped_blocks_nonneg m p ext total :
  mgr_inv m p ext -> 0 <= total -> 0 <= skipped_blocks m total.
Proof.
  intros Hi Ht. apply Z.div_pos; [by eapply skipped_tokens_nonneg|apply Hi].
Qed.

(** What the caller of [add_local_computed_blocks] owes: the blocks of a prefix
    hit, whose last one is a real block when the hit ends inside it. *)
Record hit_ok (m : Manager) (p : BlockPool) (ncb : list loc) (local : Z) : Prop := {
  ho_blocks : forall x, x ∈ ncb -> x ∈ blocks p;
  ho_caching : enable_caching p = true \/ ncb = [];
  ho_local : 0 <= local;
  ho_partial : ncb <> [] -> local mod bsz m <> 0 ->
    zlen ncb = local / bsz m + 1 /\ exists t, last ncb = Some t /\ t <> null_block p
}.

Record added (m : Manager) (p : BlockPool) (free : list loc) (ext : loc -> Z) (rid : string)
    (ncb : list loc) (total local : Z) (s : MState) : Prop := {
  ad_table : table s.1 rid = replicate (Z.to_nat (skipped_blocks m total)) (null_block p) ++
               kept_blocks m total ncb;
  ad_mgr : same_mgr rid m s.1;
  ad_cached : num_cached_block s.1 !! rid =
    Some (if has_partial_local_hit m (kept_blocks m total ncb) local then local / bsz m
          else zlen (table s.1 rid));
  ad_partial : is_Some (partial_hit_reqs s.1 !! rid) <->
               has_partial_local_hit m (kept_blocks m total ncb) local = true;
  ad_wf : pool_wf s.2 (filter (fun x => x ∉ kept_blocks m total ncb) free);
  ad_inv : mgr_inv s.1 s.2 ext;
  ad_cfg : same_config p s.2;
  ad_ref : forall x, refs s.2 x = refs p x + occ x (kept_blocks m total ncb);
  ad_hash : rehashed p [] s.2;
  ad_tail : forall h, partial_hit_reqs s.1 !! rid = Some h -> h.1 = local / bsz m
}.

Lemma last_drop_some {A} (l : list A) n t : drop n l <> [] -> last l = Some t -> last (drop n l) = Some t.
Proof.
  intros Hd Hl. rewrite <- (take_drop n l), last_app in Hl. by destruct (last (drop n l)) eqn:E; [|apply last_None in E].
Qed.

(** The state after the list is written; a partial hit is recorded or not. *)
Lemma add_inv m p free ext rid ncb total local p' hits cached :
  mgr_inv m p ext -> table m rid = [] -> hit_ok m p ncb local -> 0 <= total ->
  pool_wf p' (filter (fun x => x ∉ kept_blocks m total ncb) free) -> same_config p p' ->
  (forall x, refs p' x = refs p x + occ x (kept_blocks m total ncb)) ->
  (forall r, r <> rid -> hits !! r = partial_hit_reqs m !! r) ->
  (forall r, r <> rid -> cached !! r = num_cached_block m !! r) ->
  cached !! rid = Some (if has_partial_local_hit m (kept_blocks m total ncb) local then local / bsz m
    else zlen (replicate (Z.to_nat (skipped_blocks m total)) (null_block p) ++ kept_blocks m total ncb)) ->
  rehashed p [] p' ->
  (if has_partial_local_hit m (kept_blocks m total ncb) local
   then exists t, last (kept_blocks m total ncb) = Some t /\ hits !! rid = Some (local / bsz m, t)
   else hits !! rid = None) ->
  added m p free ext rid ncb total local
    (mkManager (cfg m) (new_block_ids m)
       (<[rid := replicate (Z.to_nat (skipped_blocks m total)) (null_block p) ++
                 kept_blocks m total ncb]> (req_to_blocks m))
       cached hits (pending_cow_copies m), p').
Proof.
  intros Hi Ht [Hb _ Hl Hpart] Htot Hwf Hc Hr Hhits Hcach Hcr Hre Hh.
  pose proof (skipped_blocks_nonneg m p ext total Hi Htot) as Hs.
  assert (forall x, x ∈ kept_blocks m total ncb -> x ∈ ncb) as Hsub
    by (intros x Hx; rewrite <- (take_drop (Z.to_nat (skipped_blocks m total)) ncb);
        apply elem_of_app; by right).
  split; cbn [fst snd]; try done.
  - unfold table. cbn. by rewrite lookup_insert_eq.
  - split; cbn; [done| |done|done]. intros r Hne. by rewrite lookup_insert_ne.
  - cbn. rewrite Hcr. unfold table. cbn. by rewrite lookup_insert_eq.
  - cbn. destruct (has_partial_local_hit _ _ _).
    + destruct Hh as (t & _ & ->). split; [done|]. intros _. by eexists.
    + rewrite Hh. split; [by intros []|done].
  - eapply (mgr_inv_step m p ext _ p' rid); try done.
    + intros x [[-> _]%elem_of_replicate|Hx]%elem_of_app; [|by apply Hb, Hsub].
      destruct (pw_blocks _ _ Hwf) as [_ _ _ _ Hnull _].
      by rewrite (sc_blocks _ _ Hc), (sc_null _ _ Hc) in Hnull.
    + apply Hi.
    + intros x _ Hn. rewrite Hr, Ht, occ_nil, occ_app, occ_replicate_ne by done.
      change (cow_refs (mkManager _ _ _ _ _ (pending_cow_copies m))) with (cow_refs m). lia.
    + intros r idx src. cbn. case_decide as Er; [subst r|by rewrite Hhits].
      destruct (has_partial_local_hit m (kept_blocks m total ncb) local) eqn:Ep; [|by rewrite Hh].
      destruct Hh as (t & Hlt & ->). intros [= <- <-].
      unfold has_partial_local_hit in Ep. apply andb_true_iff in Ep as [E1%Z.ltb_lt E2].
      apply negb_true_iff, Z.eqb_neq in E2.
      assert (kept_blocks m total ncb <> []) as Hne by (intros E; rewrite E in E1; done).
      destruct Hpart as [Hlen (t' & Ht' & Hnn)]; [by intros ->; destruct Hne; unfold kept_blocks; rewrite drop_nil|done|].
      pose proof (last_drop_some ncb _ t' Hne Ht') as Hlt'. unfold kept_blocks in Hlt. rewrite Hlt in Hlt'.
      injection Hlt' as ->. split_and!; [apply Z.div_pos; [done|apply Hi]| |done].
      rewrite last_lookup in Hlt. rewrite lookup_app_r; rewrite length_replicate;
        unfold kept_blocks, zlen in *; rewrite length_drop in *.
      * rewrite <- Hlt. f_equal. lia.
      * lia.
  - intros h. cbn. destruct (has_partial_local_hit _ _ _); [|by rewrite Hh].
    destruct Hh as (t & _ & ->). by intros [= <-].
Qed.

Lemma base_add_local_spec m p free ext rid ncb local external :
  pool_wf p free -> mgr_inv m p ext -> table m rid = [] -> partial_hit_reqs m !! rid = None ->
  hit_ok m p ncb local -> 0 <= external ->
  wp (base_add_local_computed_blocks rid ncb local external)
    (fun _ s => added m p free ext rid ncb (local + external) local s) (m, p).
Proof.
  intros Hwf Hi Ht Hpn Hok He. pose proof Hok as [Hb Hcach Hl Hpart].
  unfold base_add_local_computed_blocks. apply wp_bind, wp_read. rewrite Ht.
  apply wp_bind, wp_assert; [done|]. apply wp_bind, wp_gets. cbn [fst].
  change (kind (read_mgr rid m)) with (kind m). change (bsz (read_mgr rid m)) with (bsz m).
  fold (skipped_blocks m (local + external)).
  pose proof (skipped_blocks_nonneg m p ext (local + external) Hi ltac:(lia)) as Hs.
  assert ((if 0 <? skipped_blocks m (local + external)
           then py_from ncb (skipped_blocks m (local + external)) else ncb) =
          kept_blocks m (local + external) ncb) as ->.
  { unfold kept_blocks. destruct (Z.ltb_spec 0 (skipped_blocks m (local + external))).
    - by apply py_from_drop.
    - by replace (skipped_blocks m (local + external)) with 0 by lia. }
  set (kept := kept_blocks m (local + external) ncb).
  assert (forall x, x ∈ kept -> x ∈ blocks p) as Hkb.
  { intros x Hx. apply Hb. rewrite <- (take_drop (Z.to_nat (skipped_blocks m (local + external))) ncb).
    apply elem_of_app. by right. }
  change (cfg (read_mgr rid m)) with (cfg m). rewrite (mi_caching _ _ _ Hi). apply wp_bind.
  eapply wp_mono with (Q := fun _ s => s.1 = read_mgr rid m /\ touched p free kept s.2).
  { destruct (enable_caching p) eqn:Ec.
    - apply wp_zoom. cbn [snd]. eapply wp_mono; [by apply touch_spec|]. done.
    - destruct Hcach as [|Hnil]; [done|]. assert (kept = []) as Hk
        by (unfold kept, kept_blocks; rewrite Hnil; apply drop_nil).
      rewrite Hk. apply wp_assert; [done|]. split; [done|]. unfold touched. cbn [snd].
      rewrite filter_not_nil. split_and!; [done|reflexivity|]. intros y. rewrite occ_nil. lia. }
  intros [] [m1 p1] (Hm1 & Hwf1 & Ha & Hr). cbn [fst snd] in *. subst m1.
  apply wp_bind, wp_zoom, wp_modify. cbn [fst snd]. apply wp_bind, wp_zoom, wp_modify. cbn [fst snd].
  assert (read_mgr rid m = m \/ read_mgr rid m = set_req_to_blocks (<[rid := []]> (req_to_blocks m)) m) as Hrd
    by (unfold read_mgr; destruct (req_to_blocks m !! rid); [left; by destruct m|by right]).
  rewrite (mi_null _ _ _ Hi). cbn [app].
  change (has_partial_local_hit (read_mgr rid m) kept local) with (has_partial_local_hit m kept local).
  assert (forall v, <[rid := v]> (req_to_blocks (read_mgr rid m)) = <[rid := v]> (req_to_blocks m)) as Hins
    by (intros v; destruct Hrd as [-> | ->]; [done|apply insert_insert_eq]).
  destruct (has_partial_local_hit m kept local) eqn:Ep.
  - assert (kept <> []) as Hne by (intros E; rewrite E in Ep; done).
    destruct (last kept) as [t|] eqn:Elast; [|by apply last_None in Elast].
    apply wp_bind. eapply wp_of_option; [rewrite py_index_last; exact Elast|].
    apply wp_bind, wp_zoom, wp_modify. cbn [fst snd]. apply wp_zoom, wp_modify. cbn [fst snd].
    unfold set_num_cached, set_partial_hits, set_req_to_blocks. cbn. rewrite Hins.
    apply add_inv; try done; [lia|apply Ha|..].
    + intros r Hne'. by rewrite lookup_insert_ne.
    + intros r Hne'. by rewrite !lookup_insert_ne.
    + fold kept. by rewrite lookup_insert_eq, Ep.
    + by apply alloc_rehashed.
    + fold kept. rewrite Ep. exists t. by rewrite lookup_insert_eq.
  - apply wp_ret. unfold set_num_cached, set_req_to_blocks. cbn. rewrite Hins.
    apply add_inv; try done; [lia|apply Ha|..].
    + intros r Hne'. by rewrite lookup_insert_ne.
    + fold kept. by rewrite lookup_insert_eq, Ep.
    + by apply alloc_rehashed.
    + fold kept. by rewrite Ep.
Qed.

(** ** Giving blocks back *)

Lemma table_occ_refs m p ext rid x :
  mgr_inv m p ext -> x ∈ table m rid -> x <> null_block p -> occ x (table m rid) <= refs p x.
Proof.
  intros Hi Hx Hn. rewrite (mi_refs _ _ _ Hi) by (done || by apply (mi_blocks _ _ _ Hi rid)).
  pose proof (held_ge_table m rid x). pose proof (mi_ext _ _ _ Hi x). lia.
Qed.

(** Removing an entry is emptying it. *)
Lemma mgr_inv_delete m p ext p' rid ids cached hits :
  mgr_inv m p ext -> same_config p p' ->
  (forall x, x ∈ blocks p -> x <> null_block p -> refs p' x = refs p x - occ x (table m rid)) ->
  (forall r h, hits !! r = Some h -> r <> rid /\ partial_hit_reqs m !! r = Some h) ->
  mgr_inv (mkManager (cfg m) ids (delete rid (req_to_blocks m)) cached hits (pending_cow_copies m)) p' ext.
Proof.
  intros Hi Hc Hr Hh.
  set (m1 := mkManager (cfg m) ids (<[rid := []]> (req_to_blocks m)) cached hits (pending_cow_copies m)).
  assert (mgr_inv m1 p' ext) as [H1 H2 H3 H4 H5 H6 H7 H8 H9].
  { apply (mgr_inv_step m p ext m1 p' rid []); try done.
    - by intros x ?%elem_of_nil.
    - apply Hi.
    - intros x Hx Hn. rewrite Hr, occ_nil by done. change (cow_refs m1) with (cow_refs m). lia.
    - intros r idx src E. apply Hh in E as [Hne E]. by rewrite decide_False. }
  assert (forall r, default [] (delete rid (req_to_blocks m) !! r) = table m1 r) as Ht.
  { intros r. unfold table, m1. cbn. destruct (decide (r = rid)) as [->|Hne].
    - by rewrite lookup_delete_eq, lookup_insert_eq.
    - by rewrite lookup_delete_ne, lookup_insert_ne. }
  split; try done.
  - intros r x. unfold table at 1. cbn. rewrite Ht. apply H5.
  - intros x Hx Hn. rewrite (H7 x Hx Hn). unfold held. f_equal. f_equal. cbn.
    rewrite (held_in_delete (<[rid:=[]]> _) rid), lookup_insert_eq, delete_insert_eq.
    change (default [] (Some [])) with ([] : list loc). rewrite occ_nil. done.
  - intros r idx src E. unfold table. cbn. rewrite Ht. by apply H9.
Qed.

(** [free]: the request's entries disappear and its references are dropped,
    tail first. *)
Lemma mgr_free_spec m p free ext rid :
  pool_wf p free -> mgr_inv m p ext ->
  wp (mgr_free rid) (fun _ s =>
    freed p free (reverse (table m rid)) s.2 /\ mgr_inv s.1 s.2 ext /\ same_mgr rid m s.1 /\
    req_to_blocks s.1 !! rid = None /\ num_cached_block s.1 !! rid = None /\
    partial_hit_reqs s.1 !! rid = None) (m, p).
Proof.
  intros Hwf Hi. unfold mgr_free. apply wp_bind, wp_zoom. cbn [fst].
  unfold pop_blocks_for_free. apply wp_bind, wp_gets. do 3 apply wp_bind, wp_modify. apply wp_ret.
  cbn [fst snd]. fold (table m rid). apply wp_zoom. cbn [snd].
  eapply wp_mono; [apply (free_blocks_spec p free)|].
  - done.
  - intros x Hx. apply (mi_blocks _ _ _ Hi rid). by apply elem_of_reverse.
  - intros x Hx Hn. rewrite elem_of_reverse in Hx. rewrite occ_reverse.
    by apply (table_occ_refs m p ext).
  - intros [] p' Hf. cbn [fst snd]. split_and!; [done|..].
    + apply (mgr_inv_delete m p); [done|apply Hf| |].
      * intros x _ _. by rewrite (fr_ref _ _ _ _ Hf), occ_reverse.
      * intros r h (? & ?)%lookup_delete_Some. done.
    + split; cbn; [done|..]; intros r Hr; by rewrite lookup_delete_ne.
    + apply lookup_delete_eq.
    + apply lookup_delete_eq.
    + apply lookup_delete_eq.
Qed.

(** The backward loop nulls a run of real blocks that ends at [first + n], and
    stops at the first null block below. *)
Lemma null_backward_spec null first n bs :
  (first + n <= length bs)%nat ->
  exists k, (k <= n)%nat /\
    null_backward null first n bs =
      Some (take (first + n - k) bs ++ replicate k null ++ drop (first + n) bs,
            reverse (take k (drop (first + n - k) bs))) /\
    (forall x, x ∈ take k (drop (first + n - k) bs) -> x <> null) /\
    (k < n -> bs !! (first + n - k - 1) = Some null)%nat.
Proof.
  revert bs. induction n as [|n IH]; intros bs Hle.
  { exists 0%nat. split_and!; [done| |by intros x ?%elem_of_nil|lia].
    cbn. by rewrite Nat.sub_0_r, take_drop. }
  cbn [null_backward]. destruct (lookup_lt_is_Some_2 bs (first + n)) as [b Hb]; [lia|].
  rewrite Hb. cbn [mbind option_bind]. case_bool_decide as E.
  { exists 0%nat. split_and!; [lia| |by intros x ?%elem_of_nil|].
    - cbn. by rewrite Nat.sub_0_r, take_drop.
    - intros _. rewrite <- E, <- Hb. f_equal. lia. }
  destruct (IH (<[(first + n)%nat := null]> bs)) as (k & Hk & -> & Hne & Hstop);
    [rewrite length_insert; lia|]. cbn [mbind option_bind].
  exists (S k).
  assert (take k (drop (first + n - k) (<[(first + n)%nat:=null]> bs)) =
          take k (drop (first + n - k) bs)) as Htk.
  { rewrite !take_drop_commute. f_equal. replace (first + n - k + k)%nat with (first + n)%nat by lia.
    by rewrite take_insert_ge by lia. }
  assert (take (S k) (drop (first + S n - S k) bs) = take k (drop (first + n - k) bs) ++ [b]) as Hsk.
  { replace (first + S n - S k)%nat with (first + n - k)%nat by lia.
    erewrite take_S_r; [done|]. rewrite lookup_drop. rewrite <- Hb. f_equal. lia. }
  rewrite Htk in *. split_and!; [lia| | |].
  - rewrite Hsk, reverse_snoc. f_equal. f_equal.
    replace (first + S n - S k)%nat with (first + n - k)%nat by lia.
    rewrite take_insert_ge by lia. f_equal. rewrite (replicate_S_end k), <- app_assoc. f_equal. cbn.
    rewrite drop_insert_ge by lia. rewrite Nat.sub_diag.
    rewrite (drop_S bs b (first + n)) by done. cbn. f_equal. f_equal. lia.
  - rewrite Hsk. intros x [Hx|Hx]%elem_of_app; [by apply Hne|]. apply list_elem_of_singleton in Hx. congruence.
  - intros Hlt. replace (first + S n - S k - 1)%nat with (first + n - k - 1)%nat by lia.
    rewrite <- Hstop by lia. rewrite list_lookup_insert_ne by lia. done.
Qed.

(** The blocks of [rid] in [[F, L)] are given back from the end, [k] of them,
    down to the first null block. *)
Record trimmed (m : Manager) (p : BlockPool) (free : list loc) (ext : loc -> Z) (rid : string)
    (F L k : nat) (s : MState) : Prop := {
  tr_k : (k <= L - F)%nat;
  tr_table : table s.1 rid =
    take (L - k) (table m rid) ++ replicate k (null_block p) ++ drop L (table m rid);
  tr_real : forall x, x ∈ take k (drop (L - k) (table m rid)) -> x <> null_block p;
  tr_stop : (k < L - F)%nat -> table m rid !! (L - k - 1)%nat = Some (null_block p);
  tr_freed : freed p free (reverse (take k (drop (L - k) (table m rid)))) s.2;
  tr_inv : mgr_inv s.1 s.2 ext;
  tr_mgr : same_mgr rid m s.1
}.

Lemma freed_nil p free : pool_wf p free -> freed p free [] p.
Proof.
  intros Hwf. apply freed_wf; try done.
  - by intros x ?%elem_of_nil.
  - by intros x ?%elem_of_nil.
  - intros y. rewrite occ_nil. lia.
  - cbn. rewrite app_nil_r. apply Hwf.
Qed.

Lemma trimmed_zero m p free ext rid F L m' :
  pool_wf p free -> mgr_inv m' p ext -> same_mgr rid m m' -> table m' rid = table m rid ->
  (L <= F)%nat -> trimmed m p free ext rid F L 0 (m', p).
Proof.
  intros Hwf Hi Hs Ht HL. split; cbn [fst snd]; try done; try lia.
  - cbn. by rewrite Nat.sub_0_r, take_drop.
  - by intros x ?%elem_of_nil.
  - by apply freed_nil.
Qed.

Lemma trim_occ (x : loc) L k (t : list loc) null : (k <= L <= length t)%nat -> x <> null ->
  occ x (take (L - k) t ++ replicate k null ++ drop L t) =
  occ x t - occ x (reverse (take k (drop (L - k) t))).
Proof.
  intros Hk Hn. rewrite !occ_app, occ_replicate_ne, occ_reverse by done.
  rewrite <- (take_drop (L - k) t) at 3. rewrite occ_app.
  rewrite <- (take_drop k (drop (L - k) t)) at 1. rewrite occ_app, drop_drop.
  replace (L - k + k)%nat with L by lia. lia.
Qed.

(** Writing the trimmed list once the removed blocks are released. *)
Lemma trimmed_intro m p free ext rid F L k t p' :
  pool_wf p free -> mgr_inv m p ext -> partial_hit_reqs m !! rid = None -> table m rid = t ->
  (k <= L - F)%nat -> (k <= L <= length t)%nat ->
  (forall x, x ∈ take k (drop (L - k) t) -> x <> null_block p) ->
  ((k < L - F)%nat -> t !! (L - k - 1)%nat = Some (null_block p)) ->
  freed p free (reverse (take k (drop (L - k) t))) p' ->
  trimmed m p free ext rid F L k
    (set_req_to_blocks (<[rid := take (L - k) t ++ replicate k (null_block p) ++ drop L t]>
       (req_to_blocks m)) m, p').
Proof.
  intros Hwf Hi Hp Ht Hk HkL Hreal Hstop Hfr. split; cbn [fst snd]; rewrite ?Ht; try done.
  - unfold table. cbn. by rewrite lookup_insert_eq.
  - apply (mgr_inv_step m p ext _ p' rid (take (L - k) t ++ replicate k (null_block p) ++ drop L t));
      try done; [apply Hfr| |apply Hi| |].
    + intros x. rewrite !elem_of_app, elem_of_replicate. intros [Hx|[[-> _]|Hx]].
      * apply (mi_blocks _ _ _ Hi rid). rewrite Ht, <- (take_drop (L - k) t), elem_of_app. by left.
      * apply Hwf.
      * apply (mi_blocks _ _ _ Hi rid). rewrite Ht, <- (take_drop L t), elem_of_app. by right.
    + intros x _ Hn. rewrite (fr_ref _ _ _ _ Hfr), Ht, trim_occ by done.
      change (cow_refs (set_req_to_blocks _ m)) with (cow_refs m). lia.
    + intros r idx src. case_decide as Er; [subst; cbn; by rewrite Hp|done].
  - split; [done| |done|done]. intros r Hr. cbn. by rewrite lookup_insert_ne.
Qed.

Lemma remove_blocks_in_range_spec m p free ext rid first last :
  pool_wf p free -> mgr_inv m p ext -> partial_hit_reqs m !! rid = None -> 0 <= first ->
  wp (remove_blocks_in_range rid first last) (fun _ s => exists k,
    trimmed m p free ext rid (Z.to_nat first)
      (Z.to_nat (Z.min last (zlen (table m rid)))) k s) (m, p).
Proof.
  intros Hwf Hi Hp Hf. unfold remove_blocks_in_range. apply wp_bind, wp_gets. cbn [fst].
  destruct (req_to_blocks m !! rid) as [t|] eqn:E.
  2: { apply wp_ret. exists 0%nat. apply trimmed_zero; try done.
       assert (zlen (table m rid) = 0) as -> by (unfold table; by rewrite E). lia. }
  assert (table m rid = t) as Ht by (unfold table; by rewrite E).
  destruct (Z.leb_spec last first) as [Hle|Hgt].
  { apply wp_ret. exists 0%nat. apply trimmed_zero; try done. lia. }
  rewrite Ht. set (L := Z.to_nat (Z.min last (zlen t))).
  assert (L <= length t)%nat as HLt by (unfold L, zlen; lia).
  destruct (decide (L <= Z.to_nat first)%nat) as [HL|HL].
  { replace (Z.to_nat (Z.min last (zlen t) - first)) with 0%nat by lia. cbn [null_backward].
    apply wp_bind. eapply wp_of_option; [reflexivity|].
    apply wp_bind, wp_zoom, wp_modify. cbn [fst snd]. apply wp_ret. exists 0%nat.
    rewrite insert_id by done. replace (set_req_to_blocks (req_to_blocks m) m) with m by by destruct m.
    by apply trimmed_zero. }
  destruct (null_backward_spec (null_block p) (Z.to_nat first) (L - Z.to_nat first) t)
    as (k & Hk & Enb & Hreal & Hstop); [lia|].
  replace (Z.to_nat first + (L - Z.to_nat first))%nat with L in * by lia.
  replace (Z.to_nat (Z.min last (zlen t) - first)) with (L - Z.to_nat first)%nat by lia.
  rewrite (mi_null _ _ _ Hi), Enb. apply wp_bind. eapply wp_of_option; [reflexivity|].
  apply wp_bind, wp_zoom, wp_modify. cbn [fst snd].
  set (fr := reverse (take k (drop (L - k) t))).
  assert (k <= L <= length t)%nat as HkL by lia.
  assert (forall x, x ∈ fr -> x ∈ t) as Hsub.
  { intros x Hx. unfold fr in Hx. rewrite elem_of_reverse in Hx.
    rewrite <- (take_drop (L - k) t), elem_of_app. right.
    rewrite <- (take_drop k (drop (L - k) t)), elem_of_app. by left. }
  set (Q := fun _ s => exists k', trimmed m p free ext rid (Z.to_nat first) L k' s).
  enough (forall p', freed p free fr p' -> Q tt (set_req_to_blocks (<[rid:=take (L - k) t ++ replicate k (null_block p) ++ drop L t]>
    (req_to_blocks m)) m, p')) as HQ.
  { destruct fr as [|f fr'] eqn:Efr.
    - apply wp_ret. apply HQ. by apply freed_nil.
    - rewrite <- Efr in *. apply wp_zoom. cbn [snd].
      eapply wp_mono; [apply (free_blocks_spec p free fr); [done|..]|intros [] p' Hfr; by apply HQ].
      + intros x Hx. apply (mi_blocks _ _ _ Hi rid). rewrite Ht. by apply Hsub.
      + intros x Hx Hn. etrans; [|apply (table_occ_refs m p ext rid); [done|rewrite Ht; by apply Hsub|done]].
        rewrite Ht. pose proof (trim_occ x L k t (null_block p) HkL Hn) as Ho. fold fr in Ho.
        pose proof (occ_nonneg x (take (L - k) t ++ replicate k (null_block p) ++ drop L t)). lia. }
  intros p' Hfr. exists k. by apply trimmed_intro.
Qed.

(** ** The ring block *)

Lemma claim_ring_block_spec m p free ext rid :
  pool_wf p free -> mgr_inv m p ext -> (table m rid = [] -> 1 <= zlen free) ->
  wp (claim_ring_block rid) (fun r s =>
    r = take (Z.to_nat (if decide (table m rid = []) then 1 else 0)) free /\
    extended m p free ext rid (if decide (table m rid = []) then 1 else 0) s) (m, p).
Proof.
  intros Hwf Hi Hfree. unfold claim_ring_block. apply wp_bind, wp_read.
  destruct (table m rid) as [|b bs] eqn:E.
  - rewrite decide_True by done. specialize (Hfree eq_refl).
    apply wp_bind, wp_zoom. cbn [snd].
    eapply wp_mono; [apply (get_new_taken p free 1); [done|lia]|]. intros r p' Ht.
    apply wp_bind, wp_zoom, wp_modify. cbn [fst snd]. apply wp_bind, wp_record_ids. intros ids.
    apply wp_ret. split; [apply Ht|]. cbn [app].
    pose proof (extend_after_read m p free ext rid 1 r p' ids Hi Ht) as Hx. by rewrite E in Hx.
  - rewrite decide_False by done. apply wp_ret. split; [done|].
    apply extended_zero; try done; [by apply mgr_inv_read|by rewrite read_mgr_table|apply read_mgr_same].
Qed.

(** ** Capacity *)

(** Touching takes at most the evictable blocks out of the free list. *)
Lemma free_after_touch p free bs :
  pool_wf p free ->
  zlen free - get_num_evictable_blocks p bs <= zlen (filter (fun x => x ∉ bs) free).
Proof.
  intros Hwf. pose proof (queue_NoDup p free Hwf) as Hnd.
  assert (zlen (filter (fun x => x ∈ bs) free) <= get_num_evictable_blocks p bs) as Hle.
  { unfold get_num_evictable_blocks, zlen. apply inj_le, submseteq_length, NoDup_submseteq.
    - by apply NoDup_filter.
    - intros x. rewrite !list_elem_of_filter. intros [Hx Hf]. split; [|done].
      apply (pa_free _ _ (pw_alloc _ _ Hwf)) in Hf as (Hb & Hn & Hr). split; [done|].
      fold (at_ p x). rewrite (pb_isnull _ (pw_blocks _ _ Hwf) x Hb). by apply bool_decide_eq_false. }
  enough (zlen free = zlen (filter (fun x => x ∈ bs) free) + zlen (filter (fun x => x ∉ bs) free)) by lia.
  clear. induction free as [|x free IH]; [done|]. rewrite zlen_cons, IH.
  destruct (decide (x ∈ bs)).
  - rewrite filter_cons_True, (filter_cons_False (fun x => x ∉ bs)), zlen_cons by tauto. lia.
  - rewrite filter_cons_False, (filter_cons_True (fun x => x ∉ bs)), zlen_cons by tauto. lia.
Qed.

(** Whether a hit that keeps [kept] needs a private copy of its tail. *)
Definition copy_need (m : Manager) (kept : list loc) (local : Z) : Z :=
  if has_partial_local_hit m kept local then 1 else 0.

(** What the check of the base class accounts for, for a new request. *)
Lemma base_num_blocks_enough m q p ext rid num_tokens ncb total local n :
  mgr_inv m q ext -> table m rid = [] -> num_cached_block m !! rid = None -> 0 <= total ->
  base_num_blocks_to_allocate m p rid num_tokens ncb total local false = Some n ->
  copy_need m (kept_blocks m total ncb) local +
  Z.max 0 (cdiv num_tokens (bsz m) - Z.max (skipped_blocks m total) (zlen ncb)) +
  get_num_evictable_blocks p (kept_blocks m total ncb) <= n.
Proof.
  intros Hi Ht Hnc Htot Hn. unfold base_num_blocks_to_allocate in Hn. rewrite Hnc in Hn.
  fold (table m rid) in Hn. rewrite Ht in Hn. change (zlen []) with 0 in Hn.
  fold (skipped_blocks m total) in Hn.
  pose proof (skipped_blocks_nonneg m q ext total Hi Htot) as Hs.
  rewrite Z.add_0_r, Z.sub_0_r, (Z.max_r 0 (skipped_blocks m total)), py_from_drop in Hn by lia.
  fold (kept_blocks m total ncb) in Hn.
  set (kept := kept_blocks m total ncb) in *.
  assert (zlen kept <= zlen ncb) as Hk by (unfold kept, kept_blocks, zlen; rewrite length_drop; lia).
  assert (copy_need m kept local <= copy_need m ncb local) as Hc.
  { unfold copy_need, has_partial_local_hit. destruct (local mod bsz m =? 0); [by rewrite !andb_false_r|].
    rewrite !andb_true_r. destruct (Z.ltb_spec 0 (zlen kept)), (Z.ltb_spec 0 (zlen ncb)); lia. }
  unfold copy_need in Hc at 2.
  destruct max_admission_blocks, (has_partial_local_hit m ncb local); injection Hn as <-; lia.
Qed.

Lemma kept_length m total ncb : 0 <= skipped_blocks m total ->
  zlen (replicate (Z.to_nat (skipped_blocks m total)) 0%nat ++ kept_blocks m total ncb) =
  Z.max (skipped_blocks m total) (zlen ncb).
Proof.
  intros Hs. unfold kept_blocks, zlen. rewrite length_app, length_replicate, length_drop. lia.
Qed.

End ManagerOps.
