(* ===== verification/ManagerSpec.v ===== *)
(** * Correctness of the block managers

    The theorems of [SingleTypeKVCacheManager] and its subclasses: the capacity
    check is sound, the reference counts always match the block tables, window
    trimming gives back exactly the blocks outside the window, and the
    admission cap bounds what a request holds. *)
From Stdlib Require Import ZArith QArith Lia.
From stdpp Require Import base tactics gmap strings numbers option list.
From S2P Require Import Prelude Blocks FreeQueue Request Hashing BlockMap Env Metrics.
From S2P Require Import BlockPool BlockPoolInv BlockPoolCache BlockPoolAlloc BlockPoolInit BlockPoolSpec Managers.
From S2P Require Import ManagerInv ManagerOps.

Local Open Scope Z_scope.

Section ManagerSpec.
Context `{Env}.

(** ** The capacity check is sound *)

(** The calls the coordinator makes on one manager for a new request. *)
Definition admit_request (rid : string) (ncb : list loc) (local external num_tokens : Z)
    : M MState (list loc) :=
  add_local_computed_blocks rid ncb local external ;;
  allocate_external_computed_blocks rid local external ;;
  allocate_new_blocks rid num_tokens.

(** Unknown to the manager. *)
Record fresh_request (m : Manager) (rid : string) : Prop := {
  fq_table : table m rid = [];
  fq_cached : num_cached_block m !! rid = None;
  fq_partial : partial_hit_reqs m !! rid = None
}.

(** The request has the slots it asked for, within [n] blocks of the free list. *)
Record admitted (m : Manager) (p : BlockPool) (free : list loc) (ext : loc -> Z) (rid : string)
    (slots n : Z) (s : MState) : Prop := {
  am_slots : slots <= zlen (table s.1 rid);
  am_mgr : same_mgr rid m s.1;
  am_free : exists free', pool_wf s.2 free' /\ zlen free - n <= zlen free';
  am_inv : mgr_inv s.1 s.2 ext;
  am_cfg : same_config p s.2
}.

Definition is_ring (k : SpecKind) : bool :=
  match k with CircularBufferSpec | KpoolTailSpec _ _ => true | _ => false end.

Definition is_base (k : SpecKind) : bool :=
  match k with CircularBufferSpec | KpoolTailSpec _ _ | CrossAttentionSpec => false | _ => true end.

(** Managers that inherit the base class's methods. *)
Lemma wp_add_local m p rid ncb local external Q :
  is_base (kind m) = true -> wp (base_add_local_computed_blocks rid ncb local external) Q (m, p) ->
  wp (add_local_computed_blocks rid ncb local external) Q (m, p).
Proof. intros Hk Hw. unfold add_local_computed_blocks. apply wp_bind, wp_gets. cbn [fst]. by destruct (kind m). Qed.

Lemma wp_allocate_external m p rid local external Q :
  is_base (kind m) = true -> wp (base_allocate_external_computed_blocks rid local external) Q (m, p) ->
  wp (allocate_external_computed_blocks rid local external) Q (m, p).
Proof. intros Hk Hw. unfold allocate_external_computed_blocks. apply wp_bind, wp_gets. cbn [fst]. by destruct (kind m). Qed.

Lemma wp_allocate_new m p rid num_tokens Q :
  is_ring (kind m) = false -> wp (base_allocate_new_blocks rid num_tokens) Q (m, p) ->
  wp (allocate_new_blocks rid num_tokens) Q (m, p).
Proof. intros Hk Hw. unfold allocate_new_blocks. apply wp_bind, wp_gets. cbn [fst]. by destruct (kind m). Qed.

Lemma base_admit_spec m p free ext rid ncb local external num_tokens n :
  pool_wf p free -> mgr_inv m p ext -> is_base (kind m) = true ->
  fresh_request m rid -> hit_ok m p ncb local ->
  0 <= external -> local + external <= num_tokens ->
  base_num_blocks_to_allocate m p rid num_tokens ncb (local + external) local false = Some n ->
  n <= zlen free ->
  wp (admit_request rid ncb local external num_tokens)
    (fun _ s => admitted m p free ext rid (cdiv num_tokens (bsz m)) n s) (m, p).
Proof.
  intros Hwf Hi Hbase [Ht Hnc Hpn] Hok He Htot Hn Hfree. unfold admit_request.
  pose proof (ho_local _ _ _ _ Hok) as Hl.
  pose proof (base_num_blocks_enough m p p ext rid num_tokens ncb (local + external) local n
    Hi Ht Hnc ltac:(lia) Hn) as Hneed.
  pose proof (skipped_blocks_nonneg m p ext (local + external) Hi ltac:(lia)) as Hs.
  pose proof (cdiv_mono _ _ (bsz m) (mi_size _ _ _ Hi) Htot) as Hmono.
  set (kept := kept_blocks m (local + external) ncb) in *.
  set (L1 := Z.max (skipped_blocks m (local + external)) (zlen ncb)) in *.
  set (req := cdiv num_tokens (bsz m)) in *.
  pose proof (free_after_touch p free kept Hwf) as Hev.
  assert (0 <= copy_need m kept local <= 1) as Hcn by (unfold copy_need; destruct (has_partial_local_hit _ _ _); lia).
  apply wp_bind, wp_add_local; [done|].
  eapply wp_mono; [by apply (base_add_local_spec m p free ext rid ncb local external)|].
  intros [] [m1 p1] [A1 A2 A3 A4 A5 A6 A7 A8]. cbn [fst snd] in *. fold kept in A1, A4, A5.
  set (free1 := filter (fun x => x ∉ kept) free) in *.
  assert (zlen (table m1 rid) = L1) as HL1.
  { rewrite A1. unfold L1. rewrite <- (kept_length m (local + external) ncb Hs).
    unfold zlen. by rewrite !length_app, !length_replicate. }
  assert (bsz m1 = bsz m) as Hbs by (unfold bsz; by rewrite (sm_cfg _ _ _ A2)).
  apply wp_bind, wp_allocate_external; [unfold kind; by rewrite (sm_cfg _ _ _ A2)|].
  eapply wp_mono; [apply (base_allocate_external_spec m1 p1 free1 ext rid local external); [done..|]|].
  { rewrite HL1, Hbs. lia. }
  intros [] [m2 p2] (n1 & Hn1 & [X1 X2 (X3 & X3' & X3'') X4 X5 X6]). cbn [fst snd] in *.
  rewrite HL1, Hbs in Hn1.
  assert (zlen (table m2 rid) = L1 + n1) as HL2.
  { rewrite X1, zlen_app, HL1. f_equal. unfold zlen in *. rewrite length_take. lia. }
  assert (cow_demand m2 rid = copy_need m kept local) as Hcow.
  { unfold cow_demand, copy_need. rewrite X3'. destruct (has_partial_local_hit m kept local).
    - rewrite decide_True by tauto. done.
    - rewrite decide_False; [done|]. intros ?%A4. done. }
  assert (bsz m2 = bsz m) as Hbs2 by (unfold bsz; by rewrite (sm_cfg _ _ _ X2), (sm_cfg _ _ _ A2)).
  assert (new_demand m2 rid num_tokens = Z.max 0 (req - (L1 + n1))) as Hnew
    by (unfold new_demand; by rewrite HL2, Hbs2).
  assert (zlen (drop (Z.to_nat n1) free1) = zlen free1 - n1) as Hd
    by (unfold zlen in *; rewrite length_drop; lia).
  assert (cow_demand m2 rid + new_demand m2 rid num_tokens <= zlen (drop (Z.to_nat n1) free1)) as Hdem
    by (rewrite Hcow, Hnew, Hd; lia).
  apply wp_allocate_new.
  { unfold kind. rewrite (sm_cfg _ _ _ X2), (sm_cfg _ _ _ A2). fold (kind m). by destruct (kind m). }
  eapply wp_mono; [by apply (base_allocate_new_blocks_spec m2 p2 _ ext rid num_tokens X4 X5)|].
  intros r [m3 p3] Hal.
  pose proof (allocated_enough _ _ _ _ _ _ _ _ Hal Hdem) as Hen.
  destruct Hal as [B1 B2 B3 B4 B5 B6 B7 B8]. cbn [fst snd] in *.
  split; cbn [fst snd]; [|by transitivity m2; [transitivity m1|]| |done|by transitivity p2; [transitivity p1|]].
  - rewrite Hen, HL2, Hbs2. fold req. lia.
  - eexists. split; [exact B6|]. rewrite Hcow, Hnew. unfold zlen at 2. rewrite length_drop.
    fold (zlen (drop (Z.to_nat n1) free1)). unfold zlen in *. lia.
Qed.

(** The slots a manager must provide: a ring keeps one block per request. *)
Definition slots_needed (m : Manager) (num_tokens : Z) : Z :=
  match kind m with
  | CircularBufferSpec | KpoolTailSpec _ _ => 1
  | _ => cdiv num_tokens (bsz m)
  end.

Lemma ring_claim_spec m p free ext rid :
  pool_wf p free -> mgr_inv m p ext -> is_ring (kind m) = true -> 1 <= zlen free -> table m rid = [] ->
  wp (claim_ring_block rid) (fun _ s => zlen (table s.1 rid) = 1 /\ table s.1 rid <> [] /\
    same_mgr rid m s.1 /\ pool_wf s.2 (drop 1 free) /\ mgr_inv s.1 s.2 ext /\ same_config p s.2) (m, p).
Proof.
  intros Hwf Hi Hk Hf Ht.
  eapply wp_mono; [by apply (claim_ring_block_spec m p free ext rid)|].
  intros r [m1 p1] (_ & [X1 X2 _ X4 X5 X6]). rewrite decide_True in * by done. cbn [fst snd] in *.
  rewrite Ht in X1. destruct free as [|c free]; [change (zlen []) with 0 in Hf; lia|].
  change (take (Z.to_nat 1) (c :: free)) with [c] in X1. by rewrite X1.
Qed.

Lemma ring_admit_spec m p free ext rid ncb local external num_tokens :
  pool_wf p free -> mgr_inv m p ext -> table m rid = [] -> is_ring (kind m) = true -> 1 <= zlen free ->
  wp (admit_request rid ncb local external num_tokens)
    (fun _ s => admitted m p free ext rid 1 1 s) (m, p).
Proof.
  intros Hwf Hi Ht Hk Hf. unfold admit_request, add_local_computed_blocks.
  apply wp_bind, wp_bind, wp_gets. cbn [fst].
  eapply wp_mono with (Q := fun _ s => s = (m, p)); [by destruct (kind m)|]. intros ? ? ->.
  unfold allocate_external_computed_blocks. apply wp_bind, wp_bind, wp_gets. cbn [fst].
  eapply wp_mono with (Q := fun _ s => zlen (table s.1 rid) = 1 /\ table s.1 rid <> [] /\
    same_mgr rid m s.1 /\ pool_wf s.2 (drop 1 free) /\ mgr_inv s.1 s.2 ext /\ same_config p s.2).
  { destruct (kind m) eqn:E; try done; apply wp_bind;
      (eapply wp_mono; [apply (ring_claim_spec m p free ext rid); try done; by rewrite E|done]). }
  intros ? [m1 p1] (Hl & Hne & Hsm & Hwf1 & Hi1 & Hc1). cbn [fst snd] in *.
  unfold allocate_new_blocks. apply wp_bind, wp_gets. cbn [fst].
  assert (kind m1 = kind m) as Hk1 by (unfold kind; by rewrite (sm_cfg _ _ _ Hsm)).
  rewrite Hk1. eapply wp_mono with (Q := fun _ s => extended m1 p1 (drop 1 free) ext rid 0 s).
  { destruct (kind m) eqn:E; try done;
      (eapply wp_mono; [apply (claim_ring_block_spec m1 p1 (drop 1 free) ext rid); [done|done|]|];
       [by intros ?|intros ? ? [_ Hx]; by rewrite decide_False in Hx]). }
  intros ? [m2 p2] [X1 X2 _ X4 X5 X6]. cbn [fst snd] in *.
  split; cbn [fst snd]; [|by transitivity m1| |done|by transitivity p1].
  - rewrite X1. cbn. rewrite app_nil_r. lia.
  - eexists. split; [exact X4|]. unfold zlen. rewrite !length_drop. lia.
Qed.

Lemma cross_admit_spec m p free ext rid local external num_tokens n :
  pool_wf p free -> mgr_inv m p ext -> fresh_request m rid -> kind m = CrossAttentionSpec ->
  0 <= local -> 0 <= external ->
  base_num_blocks_to_allocate m p rid num_tokens [] (local + external) local false = Some n ->
  n <= zlen free ->
  wp (admit_request rid [] local external num_tokens)
    (fun _ s => admitted m p free ext rid (cdiv num_tokens (bsz m)) n s) (m, p).
Proof.
  intros Hwf Hi [Ht Hnc Hpn] Hk Hl He Hn Hfree.
  pose proof (base_num_blocks_enough m p p ext rid num_tokens [] (local + external) local n
    Hi Ht Hnc ltac:(lia) Hn) as Hneed.
  unfold admit_request, add_local_computed_blocks. apply wp_bind, wp_bind, wp_gets. cbn [fst]. rewrite Hk.
  apply wp_assert; [done|]. unfold allocate_external_computed_blocks.
  apply wp_bind, wp_bind, wp_gets. cbn [fst]. rewrite Hk. apply wp_ret.
  unfold allocate_new_blocks. apply wp_bind, wp_gets. cbn [fst]. rewrite Hk.
  assert (cow_demand m rid = 0) as Hcow
    by (unfold cow_demand; rewrite Hpn, decide_False; [done|by intros []]).
  assert (skipped_blocks m (local + external) = 0) as Hs0
    by (unfold skipped_blocks; rewrite Hk; by apply Z.div_0_l, Z.neq_sym, Z.lt_neq, Hi).
  assert (kept_blocks m (local + external) [] = []) as Hkn by (unfold kept_blocks; apply drop_nil).
  rewrite Hs0, Hkn in Hneed. change (zlen []) with 0 in Hneed.
  change (get_num_evictable_blocks p []) with 0 in Hneed. change (copy_need m [] local) with 0 in Hneed.
  assert (new_demand m rid num_tokens <= n) as Hnew
    by (unfold new_demand; rewrite Ht; change (zlen []) with 0; lia).
  eapply wp_mono; [apply (base_allocate_new_blocks_spec m p free ext rid num_tokens Hwf Hi); lia|].
  intros r [m3 p3] Hal.
  pose proof (allocated_enough _ _ _ _ _ _ _ _ Hal ltac:(lia)) as Hen.
  destruct Hal as [B1 B2 B3 B4 B5 B6 B7 B8]. cbn [fst snd] in *.
  split; cbn [fst snd]; [lia|done| |done|done].
  eexists. split; [exact B6|]. rewrite Hcow. unfold zlen. rewrite length_drop. lia.
Qed.

Lemma admission_spec m p free ext rid ncb local external num_tokens n :
  pool_wf p free -> mgr_inv m p ext -> fresh_request m rid -> hit_ok m p ncb local ->
  (kind m = CrossAttentionSpec -> ncb = []) ->
  0 <= external -> local + external <= num_tokens ->
  get_num_blocks_to_allocate m p rid num_tokens ncb (local + external) local false = Some n ->
  n <= get_num_free_blocks p ->
  exists new s', admit_request rid ncb local external num_tokens (m, p) = Ok new s' /\
    admitted m p free ext rid (slots_needed m num_tokens) n s'.
Proof.
  intros Hwf Hi Hfr Hok Hcross He Htot Hn Hfree. unfold get_num_free_blocks in Hfree.
  pose proof (qwf_num _ _ (pa_queue _ _ (pw_alloc _ _ Hwf))) as Hnum. cbn in Hnum. rewrite Hnum in Hfree.
  enough (wp (admit_request rid ncb local external num_tokens)
    (fun _ s => admitted m p free ext rid (slots_needed m num_tokens) n s) (m, p)) as Hw.
  { apply wp_ok in Hw as (new & s' & E & Ha). by exists new, s'. }
  unfold slots_needed, get_num_blocks_to_allocate in *.
  assert (is_ring (kind m) = true -> n = 1) as Hring.
  { pose proof (fq_table _ _ Hfr) as Ht. unfold table in Ht.
    destruct (kind m); try done; destruct (req_to_blocks m !! rid) as [[|]|]; try done;
      by injection Hn as <-. }
  pose proof (ho_local _ _ _ _ Hok) as Hl.
  destruct (kind m) eqn:Hk; cbn in Hring;
    try (rewrite (Hring eq_refl) in *; apply ring_admit_spec; [done|done|apply Hfr|by rewrite Hk|done]);
    try (rewrite (Hcross eq_refl) in *; by apply cross_admit_spec);
    (apply base_admit_spec; try done; by rewrite Hk).
Qed.


(** Growth: for a running request whose check fits, [allocate_new_blocks]
    appends exactly the announced number of blocks, taken from the front of the
    free list, and gives it a slot for every token. *)
Theorem growth_check_sound m p free ext rid c num_tokens total local n :
  pool_wf p free -> mgr_inv m p ext -> is_ring (kind m) = false ->
  num_cached_block m !! rid = Some c -> partial_hit_reqs m !! rid = None ->
  get_num_blocks_to_allocate m p rid num_tokens [] total local false = Some n ->
  n <= get_num_free_blocks p ->
  exists m' p', allocate_new_blocks rid num_tokens (m, p) = Ok (take (Z.to_nat n) free) (m', p') /\
    table m' rid = table m rid ++ take (Z.to_nat n) free /\
    cdiv num_tokens (bsz m) <= zlen (table m' rid) /\
    pool_wf p' (drop (Z.to_nat n) free) /\ mgr_inv m' p' ext /\ same_mgr rid m m'.
Proof.
  intros Hwf Hi Hk Hc Hp Hn Hfree. unfold get_num_free_blocks in Hfree.
  pose proof (qwf_num _ _ (pa_queue _ _ (pw_alloc _ _ Hwf))) as Hnum. cbn in Hnum. rewrite Hnum in Hfree.
  assert (n = new_demand m rid num_tokens) as ->.
  { unfold new_demand, get_num_blocks_to_allocate, base_num_blocks_to_allocate in *. rewrite Hc in Hn.
    change (zlen [] =? 0) with true in Hn. fold (table m rid) in Hn.
    destruct (kind m), max_admission_blocks; try done; injection Hn as <-; lia. }
  assert (cow_demand m rid = 0) as Hcow
    by (unfold cow_demand; rewrite Hp, decide_False; [done|by intros []]).
  assert (wp (allocate_new_blocks rid num_tokens)
    (fun r s => allocated m p free ext rid num_tokens r s) (m, p)) as Hw.
  { apply wp_allocate_new; [done|]. apply base_allocate_new_blocks_spec; [done|done|lia]. }
  apply wp_ok in Hw as (r & [m' p'] & E & Hal).
  pose proof (allocated_enough _ _ _ _ _ _ _ _ Hal ltac:(lia)) as Hen.
  destruct Hal as [B1 B2 B3 B4 B5 B6 B7 B8]. rewrite Hcow, ?Z.add_0_l in *. cbn [fst snd] in *.
  unfold redirected_table in B2. rewrite Hp in B2. change (drop (Z.to_nat 0) r) with r in B2.
  exists m', p'. rewrite E. subst r. split_and!; [done|done|lia|done|done|done].
Qed.

(** ** Trimming the window *)

(** The range of blocks [remove_skipped_blocks] gives back. *)
Definition gap (m : Manager) (processed : Z) (num_prompt_tokens : option Z) : Z * Z :=
  match kind m, num_prompt_tokens with
  | CircularBufferSpec, _ | KpoolTailSpec _ _, _ => (0, 0)
  | RSWASpec w, Some n => (cdiv n (bsz m), Z.max n (processed - w) / bsz m)
  | _, _ => (0, skipped_blocks m processed)
  end.

Lemma base_remove_skipped_spec m p free ext rid processed :
  pool_wf p free -> mgr_inv m p ext -> partial_hit_reqs m !! rid = None -> 0 <= processed ->
  wp (base_remove_skipped_blocks rid processed) (fun _ s => exists k,
    trimmed m p free ext rid 0
      (Z.to_nat (Z.min (skipped_blocks m processed) (zlen (table m rid)))) k s) (m, p).
Proof.
  intros Hwf Hi Hp Hpr. unfold base_remove_skipped_blocks. apply wp_bind, wp_gets. cbn [fst].
  pose proof (mi_size _ _ _ Hi) as Hbs.
  destruct (Z.leb_spec (get_num_skipped_tokens (kind m) processed) 0) as [Hle|Hgt].
  { apply wp_ret. exists 0%nat. apply trimmed_zero; try done.
    assert (skipped_blocks m processed = 0) as ->; [|pose proof (zlen_nonneg (table m rid)); lia].
    pose proof (skipped_tokens_nonneg m p ext processed Hi Hpr). unfold skipped_blocks.
    replace (get_num_skipped_tokens (kind m) processed) with 0 by lia. apply Z.div_0_l. lia. }
  apply wp_bind, wp_read. fold (skipped_blocks m processed).
  eapply wp_mono; [apply (remove_blocks_in_range_spec (read_mgr rid m) p free ext rid 0);
                   [done|by apply mgr_inv_read|done|done]|].
  intros [] s (k & [T1 T2 T3 T4 T5 T6 T7]). exists k. rewrite !read_mgr_table in *.
  replace (Z.min (Z.min (skipped_blocks m processed) (zlen (table m rid))) (zlen (table m rid)))
    with (Z.min (skipped_blocks m processed) (zlen (table m rid))) in * by lia.
  split; try done. transitivity (read_mgr rid m); [apply read_mgr_same|done].
Qed.

Lemma remove_skipped_spec m p free ext rid processed prompt :
  pool_wf p free -> mgr_inv m p ext -> partial_hit_reqs m !! rid = None -> 0 <= processed ->
  (forall n, prompt = Some n -> 0 <= n) ->
  wp (remove_skipped_blocks rid processed prompt) (fun _ s => exists k,
    trimmed m p free ext rid (Z.to_nat (gap m processed prompt).1)
      (Z.to_nat (Z.min (gap m processed prompt).2 (zlen (table m rid)))) k s) (m, p).
Proof.
  intros Hwf Hi Hp Hpr Hpn. unfold remove_skipped_blocks, gap. apply wp_bind, wp_gets. cbn [fst].
  pose proof (zlen_nonneg (table m rid)) as Hl.
  destruct (kind m) eqn:Hk; try (by apply base_remove_skipped_spec);
    try (apply wp_ret; exists 0%nat; apply trimmed_zero; try done; cbn; lia).
  destruct prompt as [n|]; [|by apply base_remove_skipped_spec].
  apply remove_blocks_in_range_spec; try done.
  apply cdiv_nonneg; [apply Hi|by apply Hpn].
Qed.

(** In [[F, L)] the null blocks come first: what earlier trims leave. *)
Definition nulls_first (null : loc) (F L : nat) (t : list loc) : Prop :=
  forall i j, (F <= i <= j)%nat -> (j < L)%nat -> t !! j = Some null -> t !! i = Some null.

Lemma trimmed_lookup m p free ext rid F L k s i :
  trimmed m p free ext rid F L k s -> (F <= L <= length (table m rid))%nat ->
  nulls_first (null_block p) F L (table m rid) ->
  table s.1 rid !! i =
    if decide (F <= i < L)%nat then Some (null_block p) else table m rid !! i.
Proof.
  intros [T1 T2 _ T4 _ _ _] HL Hn. rewrite T2.
  destruct (decide (i < L - k)%nat) as [Hi|Hi].
  - rewrite lookup_app_l by (rewrite length_take; lia). rewrite lookup_take_lt by done.
    case_decide as Hr; [|done].
    assert (k < L - F)%nat as Hk by lia. specialize (T4 Hk).
    apply (Hn i (L - k - 1)%nat); [lia|lia|done].
  - rewrite lookup_app_r by (rewrite length_take; lia). rewrite length_take.
    destruct (decide (i < L)%nat) as [Hl|Hl].
    + rewrite decide_True by lia. rewrite lookup_app_l by (rewrite length_replicate; lia).
      apply lookup_replicate. split; [done|lia].
    + rewrite decide_False by lia. rewrite lookup_app_r by (rewrite length_replicate; lia).
      rewrite length_replicate, lookup_drop. f_equal. lia.
Qed.

(** Trimming: [remove_skipped_blocks] raises nothing and replaces by the
    null block exactly the blocks that lie wholly before the window (for R-SWA:
    in the gap between the prompt and the window); every other position of the
    table keeps its block, every block that was free stays free, the pool
    invariant holds and the reference counts still match the tables. *)
Theorem remove_skipped_blocks_correct m p free ext rid processed prompt F L :
  pool_wf p free -> mgr_inv m p ext -> partial_hit_reqs m !! rid = None -> 0 <= processed ->
  (forall n, prompt = Some n -> 0 <= n) ->
  F = Z.to_nat (gap m processed prompt).1 ->
  L = Z.to_nat (Z.min (gap m processed prompt).2 (zlen (table m rid))) ->
  nulls_first (null_block p) F L (table m rid) ->
  exists m' p' free', remove_skipped_blocks rid processed prompt (m, p) = Ok tt (m', p') /\
    (forall i, table m' rid !! i =
       if decide (F <= i < L)%nat then Some (null_block p) else table m rid !! i) /\
    pool_wf p' free' /\ (forall x, x ∈ free -> x ∈ free') /\
    mgr_inv m' p' ext /\ same_mgr rid m m'.
Proof.
  intros Hwf Hi Hp Hpr Hpn HF HL Hn.
  pose proof (remove_skipped_spec m p free ext rid processed prompt Hwf Hi Hp Hpr Hpn) as Hw.
  rewrite <- HF, <- HL in Hw. apply wp_ok in Hw as ([] & [m' p'] & E & k & Ht).
  pose proof Ht as [T1 T2 T3 T4 [Fwf Fst Fref] T6 T7]. cbn [fst snd] in *.
  exists m', p', (released_first p (reverse (take k (drop (L - k) (table m rid)))) ++ free ++
    released_last p (reverse (take k (drop (L - k) (table m rid))))).
  split_and!; [done| |done| |done|done].
  - intros i. destruct (decide (L <= F)%nat) as [HLF|HLF].
    + rewrite decide_False by lia. assert (k = 0)%nat as -> by lia. rewrite T2. cbn.
      by rewrite Nat.sub_0_r, take_drop.
    + apply (trimmed_lookup _ _ _ _ _ _ _ _ _ i Ht); [|done]. unfold zlen in HL. lia.
  - intros x Hx. rewrite !elem_of_app. by auto.
Qed.

(** The window survives: a block of a sliding-window or chunked-local
    request that holds any token at or after [get_num_skipped_tokens] of the
    processed tokens is not in the trimmed range, and every block of the range
    holds only skipped tokens. *)
Theorem window_blocks_kept m processed prompt i :
  0 < bsz m -> (forall w, kind m <> RSWASpec w) -> is_ring (kind m) = false -> 0 <= i ->
  (gap m processed prompt).2 <= i <->
  exists t, i * bsz m <= t < (i + 1) * bsz m /\ get_num_skipped_tokens (kind m) processed <= t.
Proof.
  intros Hbs Hrs Hring Hi.
  assert ((gap m processed prompt).2 = get_num_skipped_tokens (kind m) processed / bsz m) as ->
    by (unfold gap, skipped_blocks; destruct (kind m); try done; by destruct (Hrs rswa_window)).
  set (sk := get_num_skipped_tokens (kind m) processed).
  pose proof (Z.mul_div_le sk (bsz m) Hbs). pose proof (Z.mul_succ_div_gt sk (bsz m) Hbs).
  split.
  - intros Hle. exists (Z.max (i * bsz m) sk). nia.
  - intros (t & Ht & Hs). nia.
Qed.

(** ** The admission cap *)

Lemma held_after_trim (null : loc) k (t : list loc) :
  (forall i, (i < k)%nat -> (i < length t)%nat -> t !! i = Some null) ->
  zlen (filter (fun x => x <> null) t) <= Z.max 0 (zlen t - Z.of_nat k).
Proof.
  intros Hn. rewrite <- (take_drop k t) at 1. rewrite filter_app, zlen_app.
  assert (filter (fun x => x <> null) (take k t) = []) as ->.
  { apply elem_of_nil_inv. intros x [Hx (i & Hi)%list_elem_of_lookup]%list_elem_of_filter.
    apply lookup_take_Some in Hi as [Hi Hlt].
    rewrite (Hn i Hlt ltac:(by eapply lookup_lt_Some)) in Hi. congruence. }
  change (zlen []) with 0. rewrite Z.add_0_l. unfold zlen.
  pose proof (length_filter (fun x => x <> null) (drop k t)). rewrite length_drop in *. lia.
Qed.

(** C37.  The admission cap is a bound on what a request can hold: after the
    blocks before the window of the processed tokens are gone, a request that
    has slots for at most [max_in_flight_tokens] more tokens (and never more
    than [max_model_len]) holds no more real blocks than
    [max_admission_blocks_per_request], for sliding windows of any alignment and
    for chunks that are a multiple of the block size. *)
Theorem admission_cap_bounds_held spec (null : loc) t processed in_flight max_len num_tokens cap :
  0 < spec_block_size spec ->
  (forall c, spec_kind spec = ChunkedLocalAttentionSpec c ->
     0 < c /\ c mod spec_block_size spec = 0) ->
  (forall w e, spec_kind spec = SlidingWindowSpec w e -> 1 <= w /\ 0 <= e) ->
  is_ring (spec_kind spec) = false ->
  max_admission_blocks_per_request spec in_flight max_len = Some cap ->
  0 <= processed -> processed <= num_tokens -> num_tokens <= processed + in_flight ->
  num_tokens <= max_len ->
  zlen t <= cdiv num_tokens (spec_block_size spec) ->
  (forall i, (i < Z.to_nat (get_num_skipped_tokens (spec_kind spec) processed /
                            spec_block_size spec))%nat ->
             (i < length t)%nat -> t !! i = Some null) ->
  zlen (filter (fun x => x <> null) t) <= cap.
Proof.
  intros Hbs Hch Hsw Hring Hcap H0 H1 H2 H3 Hlen Hn. apply held_after_trim in Hn.
  etrans; [exact Hn|]. clear Hn. unfold max_admission_blocks_per_request in Hcap.
  set (bs := spec_block_size spec) in *.
  pose proof (cdiv_spec num_tokens bs Hbs) as Hc.
  destruct (spec_kind spec) as [| | |w e|c| | |] eqn:Hk; try done; injection Hcap as <-; cbn.
  - destruct (Hsw w e eq_refl) as [Hw He].
    set (N := Z.min (w - 1 + e + in_flight) max_len).
    pose proof (cdiv_spec N bs Hbs) as HN. set (sk := Z.max 0 (processed - w + 1 - e)).
    pose proof (Z.div_pos sk bs ltac:(lia) Hbs). pose proof (Z.mul_succ_div_gt sk bs Hbs).
    assert (num_tokens - sk <= N) by lia. assert (0 <= N) by lia. nia.
  - destruct (Hch c eq_refl) as [Hc0 Hmod].
    set (N := Z.min (c + in_flight) max_len). pose proof (cdiv_spec N bs Hbs) as HN.
    apply Z.mod_divide in Hmod as [q Hq]; [|lia].
    assert (processed / c * c / bs = processed / c * q) as ->.
    { rewrite Hq, Z.mul_assoc. apply Z.div_mul. lia. }
    pose proof (Z.mul_succ_div_gt processed c Hc0). pose proof (Z.div_pos processed c H0 Hc0).
    assert (0 <= q) by nia. assert (num_tokens - processed / c * c <= N) by (unfold N; nia).
    assert (0 <= N) by lia. assert (processed / c * c = bs * (processed / c * q)) by nia. nia.
Qed.

(** Release: [free] of any request, known or not, raises nothing; the
    request disappears from the manager, each of its blocks loses the
    references the request held, the blocks nobody else references enter the
    free list, and the reference counts match the remaining tables. *)
Theorem mgr_free_correct m p free ext rid :
  pool_wf p free -> mgr_inv m p ext ->
  exists m' p' free', mgr_free rid (m, p) = Ok tt (m', p') /\
    req_to_blocks m' !! rid = None /\ num_cached_block m' !! rid = None /\ same_mgr rid m m' /\
    (forall x, refs p' x = refs p x - occ x (table m rid)) /\
    pool_wf p' free' /\
    (forall x, x ∈ free' <-> x ∈ free \/
       x ∈ table m rid /\ x <> null_block p /\ refs p x = occ x (table m rid)) /\
    mgr_inv m' p' ext.
Proof.
  intros Hwf Hi.
  destruct (wp_ok _ _ _ (mgr_free_spec m p free ext rid Hwf Hi))
    as ([] & [m' p'] & E & [F1 F2 F3] & Hi' & Hs & Hr & Hc & _). cbn [fst snd] in *.
  exists m', p'. eexists. split_and!; [exact E|done|done|done| |exact F1| |done].
  - intros x. by rewrite F3, occ_reverse.
  - intros x. rewrite !elem_of_app.
    pose proof (elem_of_released_parts p (reverse (table m rid)) x) as Hp.
    assert (forall y, y ∈ reverse (table m rid) -> y ∈ blocks p) as Hb
      by (intros y Hy; rewrite elem_of_reverse in Hy; by apply (mi_blocks _ _ _ Hi rid)).
    rewrite (proj2 (released_facts p free _ Hwf Hb) x), elem_of_reverse, occ_reverse in Hp. tauto.
Qed.

(** ** Reachable states *)

(** The calls made on a manager that owns its pool, by a coordinator that
    checks capacity first and trims and frees running requests. *)
Inductive mgr_step (s : MState) : MState -> Prop :=
| step_admit rid ncb local external num_tokens n new s' :
    fresh_request s.1 rid -> hit_ok s.1 s.2 ncb local ->
    (kind s.1 = CrossAttentionSpec -> ncb = []) -> 0 <= external -> local + external <= num_tokens ->
    get_num_blocks_to_allocate s.1 s.2 rid num_tokens ncb (local + external) local false = Some n ->
    n <= get_num_free_blocks s.2 ->
    admit_request rid ncb local external num_tokens s = Ok new s' -> mgr_step s s'
| step_grow rid num_tokens new s' :
    cow_demand s.1 rid + new_demand s.1 rid num_tokens <= get_num_free_blocks s.2 ->
    is_ring (kind s.1) = false ->
    allocate_new_blocks rid num_tokens s = Ok new s' -> mgr_step s s'
| step_trim rid processed prompt s' :
    partial_hit_reqs s.1 !! rid = None -> 0 <= processed -> (forall n, prompt = Some n -> 0 <= n) ->
    remove_skipped_blocks rid processed prompt s = Ok tt s' -> mgr_step s s'
| step_free rid s' : mgr_free rid s = Ok tt s' -> mgr_step s s'
| step_common rid n s' : get_num_common_prefix_blocks rid s = Ok n s' -> mgr_step s s'
| step_take_ids ids m' : take_new_block_ids s.1 = Ok ids m' -> mgr_step s (m', s.2).

Lemma common_prefix_inv m p ext rid n s :
  mgr_inv m p ext -> get_num_common_prefix_blocks rid (m, p) = Ok n s ->
  mgr_inv s.1 s.2 ext /\ s.2 = p.
Proof.
  intros Hi E. enough (wp (get_num_common_prefix_blocks rid)
    (fun _ s => mgr_inv s.1 s.2 ext /\ s.2 = p) (m, p)) as Hw by by eapply wp_result in Hw.
  unfold get_num_common_prefix_blocks. apply wp_bind, wp_gets. cbn [fst].
  destruct (kind m); try done; apply wp_bind, wp_read, wp_bind, wp_get, wp_ret; cbn [fst snd];
    (split; [by apply mgr_inv_read|done]).
Qed.

Lemma mgr_step_inv s s' ext free :
  pool_wf s.2 free -> mgr_inv s.1 s.2 ext -> mgr_step s s' ->
  exists free', pool_wf s'.2 free' /\ mgr_inv s'.1 s'.2 ext.
Proof.
  destruct s as [m p]. cbn [fst snd]. intros Hwf Hi Hs.
  pose proof (qwf_num _ _ (pa_queue _ _ (pw_alloc _ _ Hwf))) as Hnum. cbn in Hnum.
  unfold get_num_free_blocks in *.
  destruct Hs as [rid ncb l e nt n new s' Hf Hok Hc He Ht Hn Hle E|rid nt new s' Hle Hr E
    |rid pr prompt s' Hp Hpr Hpn E|rid s' E|rid n s' E|ids m' E]; cbn [fst snd] in *.
  - destruct (admission_spec m p free ext rid ncb l e nt n) as (new' & s1 & E' & [_ _ (free' & ? & _) ? _]);
      try done.
    rewrite E in E'. injection E' as <- <-. by exists free'.
  - assert (wp (allocate_new_blocks rid nt) (fun r s => allocated m p free ext rid nt r s) (m, p)) as Hw
      by (apply wp_allocate_new; [done|]; apply base_allocate_new_blocks_spec; [done|done|unfold get_num_free_blocks in *; lia]).
    eapply wp_result in Hw; [|exact E]. destruct Hw. by eexists.
  - pose proof (remove_skipped_spec m p free ext rid pr prompt Hwf Hi Hp Hpr Hpn) as Hw.
    eapply wp_result in Hw; [|exact E]. destruct Hw as (k & [_ _ _ _ [F1 _ _] ? _]). by eexists.
  - pose proof (mgr_free_spec m p free ext rid Hwf Hi) as Hw.
    eapply wp_result in Hw; [|exact E]. destruct Hw as ([F1 _ _] & ? & _). by eexists.
  - destruct (common_prefix_inv m p ext rid n s' Hi E) as [Hi' Hp]. exists free.
    split; [by rewrite Hp|done].
  - exists free. split; [done|]. injection E as _ <-. by apply (mgr_inv_frame m).
Qed.

(** A manager just built on a pool whose blocks are all free. *)
Lemma manager_init_inv n caching hbs events mc p spec in_flight max_len gid dcp pcp sbs zeroing m :
  fresh_pool n caching hbs events mc p -> 0 < spec_block_size spec ->
  (forall c, spec_kind spec = ChunkedLocalAttentionSpec c -> 0 < c) ->
  get_manager_for_kv_cache_spec spec in_flight max_len p caching gid dcp pcp sbs zeroing = inr m ->
  mgr_inv m p (fun _ => 0).
Proof.
  intros Hf Hbs Hch E. pose proof Hf as [F1 F2 F3 F4 F5 F6 F7 F8 F9 F10].
  assert (exists cfg', m = mkManager cfg' [] ∅ ∅ ∅ [] /\ kv_cache_spec cfg' = spec /\
    mgr_null_block cfg' = null_block p /\ caching_enabled cfg' = caching /\
    block_size cfg' = if 1 <? dcp then spec_block_size spec * dcp else spec_block_size spec)
    as (cfg' & -> & Hsp & Hnb & Hca & Hsz).
  { unfold get_manager_for_kv_cache_spec, manager_init in E.
    destruct (spec_kind spec); try done; injection E as <-; by eexists. }
  split; unfold bsz, kind, cow_refs, table; cbn; rewrite ?Hsp, ?Hnb, ?Hca, ?Hsz; try done.
  - destruct (Z.ltb_spec 1 dcp); nia.
  - intros r x. rewrite lookup_empty. by intros ?%elem_of_nil.
  - by intros x ?%elem_of_nil.
  - intros x Hx Hn. unfold held, cow_refs. cbn. rewrite occ_nil. change (held_in ∅ x) with 0.
    apply (pa_free _ _ (pw_alloc _ _ F1)). rewrite F9 in Hx. rewrite F8 in Hn.
    apply elem_of_seq in Hx. apply elem_of_seq. lia.
Qed.

(** C8.  No leak, no double use: starting from a fresh pool and a manager of
    any modelled kind built on it, after any sequence of admissions, growth,
    window trims and releases, the reference count of every real block is the
    number of times the requests' tables list it plus the ends of the pending
    copies, and a block is free exactly when nothing lists it. *)
Theorem manager_reachable_invariant n caching hbs events mc p0 spec in_flight max_len gid dcp pcp
    sbs zeroing m0 m p :
  0 < n -> block_pool_init n caching hbs events mc (blank_pool empty_heap) = Ok tt p0 ->
  0 < spec_block_size spec -> (forall c, spec_kind spec = ChunkedLocalAttentionSpec c -> 0 < c) ->
  get_manager_for_kv_cache_spec spec in_flight max_len p0 caching gid dcp pcp sbs zeroing = inr m0 ->
  rtc mgr_step (m0, p0) (m, p) ->
  exists free, pool_wf p free /\ get_num_free_blocks p = zlen free /\
    forall x, x ∈ blocks p -> x <> null_block p ->
      refs p x = held m x /\ (x ∈ free <-> held m x = 0).
Proof.
  intros Hn Hinit Hbs Hch Hm Hr.
  pose proof (wp_result _ _ _ _ _ (block_pool_init_spec n caching hbs events mc Hn) Hinit) as Hf.
  pose proof (manager_init_inv _ _ _ _ _ _ _ _ _ _ _ _ _ _ _ Hf Hbs Hch Hm) as Hi.
  assert (exists free, pool_wf p free /\ mgr_inv m p (fun _ => 0)) as (free & Hwf & Hi').
  { assert (exists free, pool_wf (m0, p0).2 free /\ mgr_inv (m0, p0).1 (m0, p0).2 (fun _ => 0)) as H0
      by (eexists; split; [apply Hf|done]).
    clear - Hr H0. change p with (m, p).2. change m with (m, p).1 at 2.
    induction Hr as [s|s1 s2 s3 Hs _ IH]; [done|]. destruct H0 as (free & Hwf & Hi).
    apply IH. by eapply mgr_step_inv. }
  exists free. split_and!; [done|apply (qwf_num _ _ (pa_queue _ _ (pw_alloc _ _ Hwf)))|].
  intros x Hx Hnn. pose proof (mi_refs _ _ _ Hi' x Hx Hnn) as Hrx. cbn beta in Hrx. split; [lia|].
  rewrite (pa_free _ _ (pw_alloc _ _ Hwf)). split; [intros (_ & _ & ?); lia|].
  intros. split_and!; [done|done|lia].
Qed.

End ManagerSpec.

(** ** Concrete runs *)

(** A manager of the given kind, block size 2, on the demo pool of five blocks. *)
Definition demo_manager (k : SpecKind) : Manager :=
  mkManager (mkManagerConfig 2 2 2 1 1 (mkSpec 2 k) true
    (max_admission_blocks_per_request (mkSpec 2 k) 4 16) false 0 0%nat false) [] ∅ ∅ ∅ [].

Lemma demo_manager_init k :
  (forall s, k <> SinkFullAttentionSpec s) ->
  get_manager_for_kv_cache_spec (mkSpec 2 k) 4 16 demo_pool true 0 1 1 2 false = inr (demo_manager k).
Proof.
  intros Hk. assert (null_block demo_pool = 0%nat) as Hn by (vm_compute; reflexivity).
  unfold get_manager_for_kv_cache_spec, manager_init, demo_manager. rewrite Hn.
  destruct k; try reflexivity. by destruct (Hk sink_len).
Qed.

Lemma demo_pool_fresh : fresh_pool 5 true 2 true None demo_pool.
Proof. exact (wp_result _ _ _ _ _ (block_pool_init_spec 5 true 2 true None eq_refl) demo_pool_init). Qed.

Lemma demo_manager_inv k :
  (forall s, k <> SinkFullAttentionSpec s) -> (forall c, k = ChunkedLocalAttentionSpec c -> 0 < c) ->
  mgr_inv (demo_manager k) demo_pool (fun _ => 0).
Proof.
  intros Hk Hc.
  apply (manager_init_inv 5 true 2 true None demo_pool (mkSpec 2 k) 4 16 0 1 1 2 false).
  - exact demo_pool_fresh.
  - done.
  - exact Hc.
  - by apply demo_manager_init.
Qed.

Lemma demo_full_inv : mgr_inv (demo_manager FullAttentionSpec) demo_pool (fun _ => 0).
Proof. by apply demo_manager_inv. Qed.

(** A hit of one block that ends inside it: the tail needs a private copy. *)
Lemma demo_hit_ok : hit_ok (demo_manager FullAttentionSpec) demo_pool [1%nat] 1.
Proof.
  split.
  - apply Forall_forall. decide_goal.
  - left. vm_compute. reflexivity.
  - lia.
  - intros _ _. split; [reflexivity|]. exists 1%nat. split; [reflexivity|].
    assert (null_block demo_pool = 0%nat) as -> by (vm_compute; reflexivity). done.
Qed.


(** No hit. *)
Lemma empty_hit_ok m p : hit_ok m p [] 0.
Proof. split; [by intros x ?%elem_of_nil|by right|lia|done]. Qed.

(** The same request admitted without a hit. *)
Definition demo_running (k : SpecKind) : MState :=
  after (admit_request "a" [] 0 0 5) (demo_manager k, demo_pool).

Lemma demo_running_ok k n :
  (forall s, k <> SinkFullAttentionSpec s) -> (forall c, k = ChunkedLocalAttentionSpec c -> 0 < c) ->
  get_num_blocks_to_allocate (demo_manager k) demo_pool "a" 5 [] 0 0 false = Some n ->
  n <= get_num_free_blocks demo_pool ->
  exists new free, admit_request "a" [] 0 0 5 (demo_manager k, demo_pool) = Ok new (demo_running k) /\
    pool_wf (demo_running k).2 free /\ mgr_inv (demo_running k).1 (demo_running k).2 (fun _ => 0).
Proof.
  intros Hk Hc Hn Hle.
  destruct (admission_spec (demo_manager k) demo_pool [1; 2; 3; 4]%nat (fun _ => 0) "a" [] 0 0 5 n)
    as (new & s' & E & [_ _ (free & Hwf & _) Hi _]).
  - exact demo_pool_wf.
  - by apply demo_manager_inv.
  - split; reflexivity.
  - apply empty_hit_ok.
  - reflexivity.
  - lia.
  - lia.
  - exact Hn.
  - exact Hle.
  - exists new, free. unfold demo_running, after. rewrite E.
    split; [reflexivity|]. split; [exact Hwf|exact Hi].
Qed.

Definition demo_run : MState := demo_running FullAttentionSpec.

Lemma demo_run_ok : exists free, pool_wf demo_run.2 free /\ mgr_inv demo_run.1 demo_run.2 (fun _ => 0).
Proof.
  destruct (demo_running_ok FullAttentionSpec 3) as (new & free & _ & H1 & H2).
  - discriminate.
  - discriminate.
  - vm_compute. reflexivity.
  - vm_compute. discriminate.
  - exists free. split; [exact H1|exact H2].
Qed.

Lemma growth_check_sound_witness :
  exists new m' p', allocate_new_blocks "a" 8 demo_run = Ok new (m', p') /\ 4 <= zlen (table m' "a").
Proof.
  destruct demo_run_ok as (free & Hwf & Hi). unfold demo_run in *.
  destruct (demo_running FullAttentionSpec) as [m p] eqn:E.
  assert (num_cached_block m !! "a" = Some 0) as Hc
    by (change m with (m, p).1; rewrite <- E; vm_compute; reflexivity).
  assert (partial_hit_reqs m !! "a" = None) as Hp
    by (change m with (m, p).1; rewrite <- E; vm_compute; reflexivity).
  destruct (growth_check_sound m p free (fun _ => 0) "a" 0 8 0 0 1 Hwf Hi)
    as (m' & p' & E' & _ & Hs & _).
  - change m with (m, p).1. rewrite <- E. vm_compute. reflexivity.
  - exact Hc.
  - exact Hp.
  - change (Some 1) with (Some 1). change m with (m, p).1. change p with (m, p).2 at 2.
    rewrite <- E. vm_compute. reflexivity.
  - change p with (m, p).2. rewrite <- E. vm_compute. discriminate.
  - eexists _, m', p'. split; [exact E'|]. etrans; [|exact Hs].
    change m with (m, p).1. rewrite <- E. vm_compute. discriminate.
Defined.

Lemma mgr_free_correct_witness :
  exists m' p', mgr_free "a" demo_run = Ok tt (m', p') /\ req_to_blocks m' !! "a" = None.
Proof.
  destruct demo_run_ok as (free & Hwf & Hi). destruct demo_run as [m p].
  destruct (mgr_free_correct m p free (fun _ => 0) "a" Hwf Hi) as (m' & p' & free' & E & Hn & _).
  exists m', p'. split; [exact E|exact Hn].
Defined.

Lemma manager_reachable_invariant_witness :
  exists free, pool_wf demo_run.2 free /\ get_num_free_blocks demo_run.2 = zlen free /\
    forall x, x ∈ blocks demo_run.2 -> x <> null_block demo_run.2 ->
      refs demo_run.2 x = held demo_run.1 x /\ (x ∈ free <-> held demo_run.1 x = 0).
Proof.
  destruct (demo_running_ok FullAttentionSpec 3) as (new & free & E & _ & _).
  - discriminate.
  - discriminate.
  - vm_compute. reflexivity.
  - vm_compute. discriminate.
  - fold demo_run in E. destruct demo_run as [m p].
    apply (manager_reachable_invariant 5 true 2 true None demo_pool (mkSpec 2 FullAttentionSpec) 4 16 0
      1 1 2 false (demo_manager FullAttentionSpec) m p).
    + lia.
    + exact demo_pool_init.
    + reflexivity.
    + discriminate.
    + apply demo_manager_init. discriminate.
    + apply rtc_once. apply (step_admit _ "a" [] 0 0 5 3 new (m, p)).
      * split; reflexivity.
      * apply empty_hit_ok.
      * reflexivity.
      * lia.
      * lia.
      * vm_compute. reflexivity.
      * vm_compute. discriminate.
      * exact E.
Defined.

(** A sliding window of two tokens over five processed ones. *)
Definition demo_window : MState := demo_running (SlidingWindowSpec 2 0).

Lemma demo_window_ok :
  exists free, pool_wf demo_window.2 free /\ mgr_inv demo_window.1 demo_window.2 (fun _ => 0).
Proof.
  destruct (demo_running_ok (SlidingWindowSpec 2 0) 3) as (new & free & _ & H1 & H2).
  - discriminate.
  - discriminate.
  - vm_compute. reflexivity.
  - vm_compute. discriminate.
  - exists free. split; [exact H1|exact H2].
Qed.

Lemma demo_window_facts :
  table demo_window.1 "a" = [1; 2; 3]%nat /\ null_block demo_window.2 = 0%nat /\
  gap demo_window.1 5 None = (0, 2) /\ partial_hit_reqs demo_window.1 !! "a" = None.
Proof. split_and!; vm_compute; reflexivity. Qed.

Lemma remove_skipped_blocks_correct_witness :
  exists m' p', remove_skipped_blocks "a" 5 None demo_window = Ok tt (m', p') /\
    table m' "a" !! 0%nat = Some 0%nat /\ table m' "a" !! 1%nat = Some 0%nat /\
    table m' "a" !! 2%nat = Some 3%nat.
Proof.
  destruct demo_window_ok as (free & Hwf & Hi).
  destruct demo_window_facts as (Ht & Hn & Hg & Hp).
  destruct demo_window as [m p]. cbn [fst snd] in *.
  destruct (remove_skipped_blocks_correct m p free (fun _ => 0) "a" 5 None 0 2 Hwf Hi)
    as (m' & p' & free' & E & Hl & _).
  - exact Hp.
  - lia.
  - discriminate.
  - rewrite Hg. reflexivity.
  - rewrite Hg, Ht. reflexivity.
  - rewrite Ht, Hn. intros i j _ Hj E. destruct j as [|[|j]]; [discriminate|discriminate|lia].
  - exists m', p'. rewrite !Hl, Ht, Hn. split; [exact E|]. split_and!; reflexivity.
Defined.

Lemma window_blocks_kept_witness :
  (gap (demo_manager (SlidingWindowSpec 2 0)) 5 None).2 <= 2 /\
  exists t, 2 * 2 <= t < 3 * 2 /\ 4 <= t.
Proof.
  assert ((gap (demo_manager (SlidingWindowSpec 2 0)) 5 None).2 <= 2) as Hle by (vm_compute; discriminate).
  split; [exact Hle|].
  apply (window_blocks_kept (demo_manager (SlidingWindowSpec 2 0)) 5 None 2).
  - reflexivity.
  - discriminate.
  - reflexivity.
  - lia.
  - exact Hle.
Defined.

Lemma admission_cap_bounds_held_witness :
  zlen (filter (fun x => x <> 0%nat) [0; 0; 3; 4; 5]%nat) <= 4.
Proof.
  apply (admission_cap_bounds_held (mkSpec 2 (SlidingWindowSpec 2 0)) 0%nat [0; 0; 3; 4; 5]%nat
    5 4 16 9 4).
  - reflexivity.
  - discriminate.
  - intros w e [= <- <-]. lia.
  - reflexivity.
  - reflexivity.
  - lia.
  - lia.
  - lia.
  - lia.
  - vm_compute. discriminate.
  - intros [|[|i]] Hi _; [reflexivity|reflexivity|]. vm_compute in Hi. lia.
Defined.

(** ** A manager the coordinator cannot build *)

(** [SinkFullAttentionManager.__init__] does not accept the keyword
    [needs_kv_cache_zeroing] that the coordinator always passes through
    [get_manager_for_kv_cache_spec]: whatever the configuration, building the
    manager of a sink-attention group raises [TypeError]. *)
Theorem sink_manager_never_built bs sink in_flight max_len p caching gid dcp pcp sbs zeroing :
  get_manager_for_kv_cache_spec (mkSpec bs (SinkFullAttentionSpec sink)) in_flight max_len p caching
    gid dcp pcp sbs zeroing = inl TypeError.
Proof. reflexivity. Qed.
