(* ===== verification/ManagerTails.v ===== *)
(** * Blocks past the cached prefix

    [num_cached_block] counts the blocks of a request that [cache_blocks] has
    dealt with.  The blocks after them, the tail of the table, are still being
    filled: they carry no hash, or that of a boundary inside them, and no other
    request lists them, save as the shared tail of a partial hit that is about
    to be copied.  [tails_ok] is this invariant over all managers of a pool;
    [tail_step] is what every operation of one manager owes to it. *)
From Stdlib Require Import ZArith QArith Lia.
From stdpp Require Import base tactics gmap strings numbers option list.
From S2P Require Import Prelude Blocks FreeQueue Request Hashing BlockMap Env Metrics.
From S2P Require Import BlockPool BlockPoolInv BlockPoolCache BlockPoolAlloc BlockPoolFull BlockPoolSpec.
From S2P Require Import Managers ManagerInv ManagerOps.

Local Open Scope Z_scope.

Definition ncached (m : Manager) (rid : string) : Z := default 0 (num_cached_block m !! rid).

(** Position [i] of the request's table is a partial hit not yet copied. *)
Definition partial_at (m : Manager) (rid : string) (i : nat) (x : loc) : Prop :=
  partial_hit_reqs m !! rid = Some (Z.of_nat i, x).

Record tail_at (m : Manager) (rid : string) (i : nat) (x : loc) : Prop := {
  ta_here : table m rid !! i = Some x;
  ta_real : x <> mgr_null_block (cfg m);
  ta_past : ncached m rid <= Z.of_nat i;
  ta_own : forall y, ~ partial_at m rid i y
}.

(** Groups whose manager registers boundaries inside a block. *)
Definition fine_grained (p : BlockPool) (m : Manager) : bool :=
  match kind m with
  | FullAttentionSpec | RSWASpec _ | SinkFullAttentionSpec _ => negb (bsz m =? hash_block_size p)
  | _ => false
  end.

(** A block at position [i] of a tail: at most a boundary inside it is hashed. *)
Definition tail_ready (p : BlockPool) (m : Manager) (i : nat) (x : loc) : Prop :=
  hash_ready p x ((Z.of_nat i + 1) * bsz m) /\
  (fine_grained p m = false -> Blocks.block_hash (at_ p x) = None).

Record tails_ok (ms : list Manager) (p : BlockPool) : Prop := {
  to_cached : forall m rid, m ∈ ms -> 0 <= ncached m rid;
  to_tail : enable_caching p = true ->
    forall j m rid i x, ms !! j = Some m -> tail_at m rid i x ->
      tail_ready p m i x /\
      forall j' m' rid' i', ms !! j' = Some m' -> table m' rid' !! i' = Some x ->
        (j' = j /\ rid' = rid /\ i' = i) \/ partial_at m' rid' i' x
}.

(** No tail block satisfies [G]: the blocks handed out as whole-block hits are
    not being filled. *)
Definition apart (G : loc -> Prop) (ms : list Manager) : Prop :=
  forall m rid i x, m ∈ ms -> tail_at m rid i x -> ~ G x.

(** ** One manager's step *)

Section Step.
Context (G : loc -> Prop) (m : Manager) (p : BlockPool) (m' : Manager) (p' : BlockPool).

(** Where a block of the new table comes from: it was there, it was free, or it
    is a hit. *)
Inductive entry (rid : string) (i : nat) (x : loc) : Prop :=
| entry_kept :
    table m rid !! i = Some x -> (tail_at m' rid i x -> tail_at m rid i x) ->
    (partial_at m rid i x -> partial_at m' rid i x) -> entry rid i x
| entry_fresh :
    refs p x = 0 -> ~ G x -> (enable_caching p = true -> Blocks.block_hash (at_ p' x) = None) ->
    (forall rid' i', table m' rid' !! i' = Some x -> rid' = rid /\ i' = i) -> entry rid i x
| entry_hit :
    ~ tail_at m' rid i x -> partial_at m' rid i x \/ G x -> entry rid i x.

Record tail_step : Prop := {
  ts_hash : forall x, refs p x <> 0 ->
    Blocks.block_hash (at_ p' x) = Blocks.block_hash (at_ p x) /\
    block_hash_num_tokens (at_ p' x) = block_hash_num_tokens (at_ p x);
  ts_entry : forall rid i x, table m' rid !! i = Some x -> x <> null_block p -> entry rid i x;
  ts_cached : (forall rid, 0 <= ncached m rid) -> forall rid, 0 <= ncached m' rid
}.
End Step.

Lemma hash_ready_same p p' x t :
  Blocks.block_hash (at_ p' x) = Blocks.block_hash (at_ p x) ->
  block_hash_num_tokens (at_ p' x) = block_hash_num_tokens (at_ p x) -> hash_ready p x t -> hash_ready p' x t.
Proof. unfold hash_ready. by intros -> ->. Qed.

Lemma tail_ready_same p p' m m' i x :
  Blocks.block_hash (at_ p' x) = Blocks.block_hash (at_ p x) ->
  block_hash_num_tokens (at_ p' x) = block_hash_num_tokens (at_ p x) ->
  hash_block_size p' = hash_block_size p -> cfg m' = cfg m -> tail_ready p m i x -> tail_ready p' m' i x.
Proof.
  unfold tail_ready, fine_grained, kind, bsz. intros E1 E2 -> -> [R1 R2].
  split; [by eapply hash_ready_same|by rewrite E1].
Qed.

Lemma unhashed_ready p m i x : Blocks.block_hash (at_ p x) = None -> tail_ready p m i x.
Proof. unfold tail_ready, hash_ready. by intros ->. Qed.

Lemma hash_ready_mono p x t t' : t <= t' -> hash_ready p x t -> hash_ready p x t'.
Proof.
  unfold hash_ready. intros Ht. destruct (Blocks.block_hash _); [|done].
  intros (n & ? & ?). exists n. split; [done|lia].
Qed.

(** ** The operations *)

Section Ops.
Context `{Env}.

Lemma tail_step_refl G m p : tail_step G m p m p.
Proof. split; [done| |done]. intros rid i x Hx _. by apply entry_kept. Qed.

(** The entries of the other requests. *)
Lemma other_entry G rid m p m' p' r i x :
  same_mgr rid m m' -> r <> rid -> table m' r !! i = Some x -> entry G m p m' p' r i x.
Proof.
  intros [S1 S2 S3 S4] Hr Hx. unfold table in Hx. rewrite S2 in Hx by done. apply entry_kept; [done| |].
  - intros [T1 T2 T3 T4]. split; [done|by rewrite <- S1| |].
    + unfold ncached in *. by rewrite S3 in T3.
    + intros y. unfold partial_at in *. rewrite S4 in T4 by done. apply T4.
  - unfold partial_at. by rewrite S4.
Qed.

(** Counts change only for [rid]. *)
Lemma cached_nonneg rid m m' :
  same_mgr rid m m' -> (0 <= ncached m rid -> 0 <= ncached m' rid) ->
  (forall r, 0 <= ncached m r) -> forall r, 0 <= ncached m' r.
Proof.
  intros [_ _ S3 _] Hr Hm r. destruct (decide (r = rid)) as [->|Hne]; [by apply Hr|].
  unfold ncached in *. rewrite S3 by done. apply Hm.
Qed.

(** A free block is in no table. *)
Lemma free_not_listed m p free ext rid i x :
  pool_wf p free -> mgr_inv m p ext -> x ∈ free -> table m rid !! i = Some x -> False.
Proof.
  intros Hwf Hi Hf Hx%list_elem_of_lookup_2. apply (pa_free _ _ (pw_alloc _ _ Hwf)) in Hf as (_ & Hn & Hr).
  pose proof (table_occ_refs m p ext rid x Hi Hx Hn). pose proof (occ_pos x _ Hx). lia.
Qed.

Lemma rehashed_ts p bs p' :
  rehashed p bs p' -> (forall x, x ∈ bs -> refs p x = 0) -> forall x, refs p x <> 0 ->
  Blocks.block_hash (at_ p' x) = Blocks.block_hash (at_ p x) /\
  block_hash_num_tokens (at_ p' x) = block_hash_num_tokens (at_ p x).
Proof. intros [Hk _] Hbs x Hx. apply Hk. intros Hin. by apply Hx, Hbs. Qed.

Lemma take_free_refs p free n x : pool_wf p free -> x ∈ take n free -> x ∈ free /\ refs p x = 0.
Proof.
  intros Hwf Hx. assert (x ∈ free) as Hf by (rewrite <- (take_drop n free); apply elem_of_app; by left).
  split; [done|]. by apply (pa_free _ _ (pw_alloc _ _ Hwf)) in Hf as (_ & _ & ?).
Qed.

(** The request's list changes only by blocks of the free list, each at one
    position. *)
Lemma grown_tail m p free ext rid n m' p' :
  pool_wf p free -> mgr_inv m p ext -> same_mgr rid m m' ->
  num_cached_block m' !! rid = num_cached_block m !! rid -> rehashed p (take n free) p' ->
  (forall i x, table m' rid !! i = Some x -> x ∈ take n free \/
     table m rid !! i = Some x /\ ((forall y, ~ partial_at m' rid i y) -> forall y, ~ partial_at m rid i y) /\
     (partial_at m rid i x -> partial_at m' rid i x)) ->
  (forall i i' x, x ∈ take n free -> table m' rid !! i = Some x -> table m' rid !! i' = Some x -> i = i') ->
  tail_step (fun _ => False) m p m' p'.
Proof.
  intros Hwf Hi Hs Hnc Hh Hk Hu. split.
  3:{ apply (cached_nonneg rid m m' Hs). unfold ncached. by rewrite Hnc. }
  { apply (rehashed_ts _ _ _ Hh). intros x Hx. by apply (take_free_refs p free _ x Hwf) in Hx as [_ ?]. }
  intros r i x Hx _. destruct (decide (r = rid)) as [->|Hr]; [|by apply (other_entry _ rid)].
  destruct (decide (x ∈ take n free)) as [Hin|Hin].
  - destruct (take_free_refs p free _ x Hwf Hin) as [Hf Hz].
    apply entry_fresh; [done|tauto|intros Hc; by apply (rh_new _ _ _ Hh)|].
    intros r' i' Hx'. destruct (decide (r' = rid)) as [->|Hr']; [split; [done|by apply (Hu i' i x)]|].
    unfold table in Hx'. rewrite (sm_other _ _ _ Hs) in Hx' by done. fold (table m r') in Hx'.
    by destruct (free_not_listed m p free ext r' i' x).
  - destruct (Hk i x Hx) as [?|(Ho & Hp1 & Hp2)]; [done|]. apply entry_kept; [done| |done].
    intros [T1 T2 T3 T4]. unfold ncached in T3. rewrite Hnc in T3.
    split; [done|by rewrite <- (sm_cfg _ _ _ Hs)|done|by apply Hp1].
Qed.

Lemma free_prefix_NoDup p free n : pool_wf p free -> NoDup (take n free).
Proof.
  intros Hwf. pose proof (queue_NoDup p free Hwf) as Hnd. rewrite <- (take_drop n free) in Hnd.
  by apply NoDup_app in Hnd as (? & _).
Qed.

Lemma appended_tail m p free ext rid n m' p' :
  pool_wf p free -> mgr_inv m p ext -> same_mgr rid m m' -> table m' rid = table m rid ++ take n free ->
  num_cached_block m' !! rid = num_cached_block m !! rid ->
  partial_hit_reqs m' !! rid = partial_hit_reqs m !! rid -> rehashed p (take n free) p' ->
  tail_step (fun _ => False) m p m' p'.
Proof.
  intros Hwf Hi Hs Ht Hnc Hp Hh. apply (grown_tail m p free ext rid n); try done; rewrite Ht.
  - intros i x [Hx|[_ Hx]]%lookup_app_Some; [right|left; by eapply list_elem_of_lookup_2].
    unfold partial_at. by rewrite Hp.
  - intros i i' x [Hf _]%(take_free_refs p free _ x Hwf) [Hx|[? Hx]]%lookup_app_Some [Hx'|[? Hx']]%lookup_app_Some;
      try (by destruct (free_not_listed m p free ext rid i x));
      try (by destruct (free_not_listed m p free ext rid i' x)).
    pose proof (NoDup_lookup _ _ _ _ (free_prefix_NoDup p free _ Hwf) Hx Hx'). lia.
Qed.

Lemma extended_tail m p free ext rid n s :
  pool_wf p free -> mgr_inv m p ext -> extended m p free ext rid n s ->
  tail_step (fun _ => False) m p s.1 s.2.
Proof.
  intros Hwf Hi [X1 X2 (X3 & X4 & _) _ _ _ X7].
  apply (appended_tail m p free ext rid (Z.to_nat n)); try done; [by rewrite X3|by rewrite X4].
Qed.

Lemma allocated_tail m p free ext rid nt r s :
  pool_wf p free -> mgr_inv m p ext -> cow_demand m rid + new_demand m rid nt <= zlen free ->
  allocated m p free ext rid nt r s -> tail_step (fun _ => False) m p s.1 s.2.
Proof.
  intros Hwf Hi Hd [A1 A2 A3 A4 A5 _ _ _ A9].
  assert (0 <= new_demand m rid nt) as Hn0 by (unfold new_demand; lia).
  unfold redirected_table, cow_demand in *.
  destruct (partial_hit_reqs m !! rid) as [[idx src]|] eqn:Ep.
  2:{ rewrite decide_False in * by (intros []; done). rewrite Z.add_0_l in *. change (drop (Z.to_nat 0) r) with r in A2.
      subst r. apply (appended_tail m p free ext rid (Z.to_nat (new_demand m rid nt))); try done;
        [by rewrite A4|by rewrite A5]. }
  rewrite decide_True in * by by eexists. destruct (mi_partial _ _ _ Hi rid idx src Ep) as (Hidx & Hl & _).
  destruct free as [|c free]; [unfold zlen in Hd; cbn in Hd; lia|]. cbn [head] in A2.
  replace (Z.to_nat (1 + new_demand m rid nt)) with (S (Z.to_nat (new_demand m rid nt))) in A1 by lia.
  set (k := Z.to_nat (new_demand m rid nt)) in *. pose proof (free_prefix_NoDup p _ (S k) Hwf) as Hnd.
  subst r. change (drop (Z.to_nat 1) (take (S k) (c :: free))) with (take k free) in A2.
  apply (grown_tail m p (c :: free) ext rid (S k)); try done; [by rewrite A4|..]; rewrite A2; cbn [take] in *.
  - intros i x [Hx|[_ Hx]]%lookup_app_Some.
    + apply list_lookup_insert_Some in Hx as [(Ei & Ex & _)|(Hne & Hx)]; [left; subst; by left|right].
      unfold partial_at. rewrite Ep. split_and!; [done| |].
      * intros _ y [= E _]. apply Hne. lia.
      * intros [= E _]. exfalso. lia.
    + left. right. by eapply list_elem_of_lookup_2.
  - apply NoDup_cons in Hnd as [Hc Hnd].
    intros i i' x Hin Hx Hx'.
    assert (forall j, (<[Z.to_nat idx:=c]> (table m rid) ++ take k free) !! j = Some x ->
      x = c /\ j = Z.to_nat idx \/ exists j', take k free !! j' = Some x /\ j = (length (table m rid) + j')%nat) as Hpos.
    { intros j [Hj|[Hle Hj]]%lookup_app_Some.
      - apply list_lookup_insert_Some in Hj as [(Ei & Ex & _)|(_ & Hj)]; [by left|].
        destruct (free_not_listed m p (c :: free) ext rid j x Hwf Hi); [|done].
        by apply (take_free_refs p _ (S k) x Hwf).
      - right. rewrite length_insert in *. exists (j - length (table m rid))%nat. split; [done|lia]. }
    destruct (Hpos i Hx) as [(-> & ->)|(j & Hj & ->)], (Hpos i' Hx') as [(E & ->)|(j' & Hj' & ->)]; try done.
    + destruct Hc. by eapply list_elem_of_lookup_2.
    + subst x. destruct Hc. by eapply list_elem_of_lookup_2.
    + pose proof (NoDup_lookup _ _ _ _ Hnd Hj Hj'). lia.
Qed.

(** Positions lose their blocks or become null; hashes stay. *)
Lemma shrunk_tail G m p rid m' p' :
  same_mgr rid m m' -> alloc_step p p' ->
  (forall i x, table m' rid !! i = Some x -> x <> null_block p -> table m rid !! i = Some x) ->
  (table m' rid = [] \/ num_cached_block m' !! rid = num_cached_block m !! rid /\
                        partial_hit_reqs m' !! rid = partial_hit_reqs m !! rid) ->
  (0 <= ncached m rid -> 0 <= ncached m' rid) ->
  tail_step G m p m' p'.
Proof.
  intros Hs [_ _ _ Hh Hn] Ht Hor Hcn. split; [done| |by apply (cached_nonneg rid m m' Hs)].
  intros r i x Hx Hxn. destruct (decide (r = rid)) as [->|Hr]; [|by apply (other_entry _ rid)].
  destruct Hor as [E|[Hnc Hp]]; [by rewrite E in Hx|].
  apply entry_kept; [by apply Ht| |unfold partial_at; by rewrite Hp].
  intros [T1 T2 T3 T4]. unfold ncached, partial_at in *. rewrite Hnc in T3. rewrite Hp in T4.
  split; [by apply Ht|by rewrite <- (sm_cfg _ _ _ Hs)|done|done].
Qed.

(** The blocks of a prefix hit that are used whole. *)
Definition whole_hit (m : Manager) (ncb : list loc) (local : Z) (x : loc) : Prop :=
  exists i, ncb !! i = Some x /\ ~ (local mod bsz m <> 0 /\ Z.of_nat i = local / bsz m).

Lemma added_tail G m p free ext rid ncb total local s :
  mgr_inv m p ext -> 0 <= total -> hit_ok m p ncb local -> (forall x, whole_hit m ncb local x -> G x) ->
  added m p free ext rid ncb total local s -> tail_step G m p s.1 s.2.
Proof.
  intros Hi Htot Hok HG [A1 A2 A3 A4 A5 A6 A7 A8 A9 A10].
  pose proof (skipped_blocks_nonneg m p ext total Hi Htot) as Hs.
  split.
  3:{ apply (cached_nonneg rid m s.1 A2). intros _. unfold ncached. rewrite A3. cbn.
      destruct (has_partial_local_hit _ _ _); [|apply zlen_nonneg]. apply Z.div_pos; [apply Hok|apply Hi]. }
  { apply (rehashed_ts _ _ _ A9). by intros x ?%elem_of_nil. }
  intros r i x Hx Hn. destruct (decide (r = rid)) as [->|Hr]; [|by apply (other_entry _ rid)].
  assert (ncb !! i = Some x /\ (Z.to_nat (skipped_blocks m total) <= i)%nat) as [Hix Hge].
  { rewrite A1 in Hx. apply lookup_app_Some in Hx as [Hx|[Hle Hx]].
    - by apply lookup_replicate in Hx as [-> _].
    - rewrite length_replicate in *. unfold kept_blocks in Hx. rewrite lookup_drop in Hx.
      split; [|done]. rewrite <- Hx. f_equal. lia. }
  pose proof (lookup_lt_Some _ _ _ Hx) as Hlt.
  destruct (has_partial_local_hit m (kept_blocks m total ncb) local) eqn:Ep.
  - unfold has_partial_local_hit in Ep. apply andb_true_iff in Ep as [E1%Z.ltb_lt E2%negb_true_iff%Z.eqb_neq].
    assert (ncb <> []) as Hne by (intros ->; done).
    destruct (ho_partial _ _ _ _ Hok Hne E2) as [Hlen _].
    destruct (proj2 A4 eq_refl) as [[idx src] Eh]. pose proof (A10 _ Eh) as Eidx. cbn in Eidx. subst idx.
    destruct (mi_partial _ _ _ A6 rid _ _ Eh) as (Hz & Hsrc & _).
    pose proof (lookup_lt_Some _ _ _ Hix) as Hlt'.
    destruct (decide (Z.of_nat i = local / bsz m)) as [Ei|Ei].
    + rewrite <- Ei, Nat2Z.id, Hx in Hsrc. injection Hsrc as <-. rewrite <- Ei in Eh. apply entry_hit; [|by left].
      intros [_ _ _ T4]. by apply (T4 x).
    + apply entry_hit; [|right; apply HG; exists i; split; [done|tauto]].
      intros [_ _ T3 _]. unfold ncached in T3. rewrite A3 in T3. cbn in T3. unfold zlen in *. lia.
  - apply entry_hit.
    + intros [_ _ T3 _]. unfold ncached in T3. rewrite A3 in T3. cbn in T3. unfold zlen in *. lia.
    + right. apply HG. exists i. split; [done|]. intros [E1 E2].
      unfold has_partial_local_hit in Ep. rewrite (proj2 (Z.eqb_neq _ _) E1) in Ep. cbn in Ep.
      rewrite andb_true_r in Ep. apply Z.ltb_ge in Ep. unfold kept_blocks, zlen in *.
      rewrite length_drop in Ep. pose proof (lookup_lt_Some _ _ _ Hix). lia.
Qed.

End Ops.
