(* ===== verification/ManagerHits.v ===== *)
(** * Correctness of the prefix-cache searches

    [find_longest_cache_hit] of the full-attention, sliding-window and
    chunked-local managers: the searches only read the pool; every block they
    return is cached under the hash of its position for its group; the hit
    length is aligned, within the limit, and the longest such. *)
From Stdlib Require Import ZArith QArith Lia.
From stdpp Require Import base tactics gmap strings numbers option list.
From S2P Require Import Prelude Blocks FreeQueue Request Hashing BlockMap Env Metrics.
From S2P Require Import BlockPool BlockPoolInv BlockPoolCache BlockPoolAlloc BlockPoolFull BlockPoolSpec.
From S2P Require Import Managers.

Local Open Scope Z_scope.

Section Hits.
Context `{Env}.
Context (p : BlockPool) (free : list loc) (gids : list Z).
Hypothesis Hwf : pool_wf p free.
Hypothesis Hgids : Forall (fun g => 0 <= g < 2 ^ 32) gids.
Hypothesis Hne : gids <> [].

(** The blocks cached under a hash, one per group. *)
Definition look (h : BlockHash) : option (list loc) :=
  mapM (fun g => group_key h g ≫= fun k => head (locs (cached_block_hash_to_block p) k)) gids.

Lemma get_cached_look h : get_cached_block h gids p = Ok (look h) p.
Proof. apply get_cached_block_spec; [apply Hwf|done]. Qed.

Lemma look_length h row : look h = Some row -> length row = length gids.
Proof. intros E%mapM_Some. symmetry. by apply Forall2_length in E. Qed.

Lemma look_not_nil h : look h <> Some [].
Proof. intros E%look_length. destruct gids; done. Qed.

(** The block of group [g] in a hit really holds the key of the hash. *)
Lemma look_owned h row i g b :
  look h = Some row -> gids !! i = Some g -> row !! i = Some b ->
  exists k, group_key h g = Some k /\ b ∈ blocks p /\ b <> null_block p /\ owned p b k.
Proof.
  intros E Hg Hb. apply mapM_Some in E.
  pose proof (Forall2_lookup_lr _ _ _ _ _ _ E Hg Hb) as Hh. cbn beta in Hh.
  destruct (group_key h g) as [k|]; [|done]. cbn in Hh. exists k. split; [done|].
  pose proof Hwf as [Hbl _ Hc].
  assert (b ∈ locs (cached_block_hash_to_block p) k) as Hin
    by (destruct (locs (cached_block_hash_to_block p) k); [done|by injection Hh as ->; left]).
  apply (pc_owned _ Hc) in Hin as [Hin Ho]. split_and!; [done| |done].
  intros ->. by apply (unhashed_owns_nothing p (null_block p) k Hc Hin (pc_null _ Hc)).
Qed.

(** ** Rows and columns *)

(** The rows of the cached blocks at the start of [hs]. *)
Fixpoint prefix_hits (hs : list BlockHash) : list (list loc) :=
  match hs with
  | [] => []
  | h :: hs' => match look h with Some row => row :: prefix_hits hs' | None => [] end
  end.

Lemma prefix_hits_lookup hs i row :
  prefix_hits hs !! i = Some row -> exists h, hs !! i = Some h /\ look h = Some row.
Proof.
  revert i. induction hs as [|h hs IH]; intros i; cbn [prefix_hits]; [done|].
  destruct (look h) as [r|] eqn:E; [|done]. destruct i as [|i]; [|apply IH].
  intros [= <-]. by exists h.
Qed.

Lemma prefix_hits_stop hs :
  (length (prefix_hits hs) < length hs)%nat ->
  exists h, hs !! length (prefix_hits hs) = Some h /\ look h = None.
Proof.
  induction hs as [|h hs IH]; cbn [prefix_hits]; [cbn; lia|].
  destruct (look h) as [r|] eqn:E; cbn [length]; [|by exists h].
  intros Hl. apply IH. lia.
Qed.

Lemma prefix_hits_le hs : (length (prefix_hits hs) <= length hs)%nat.
Proof. induction hs as [|h hs IH]; cbn; [done|]. destruct (look h); cbn; lia. Qed.

(** The longest run: all of the first [n] hashes cached means [n] rows. *)
Lemma prefix_hits_max hs n :
  (n <= length hs)%nat -> (forall i, (i < n)%nat -> exists h, hs !! i = Some h /\ is_Some (look h)) ->
  (n <= length (prefix_hits hs))%nat.
Proof.
  intros Hn Hall. destruct (decide (n <= length (prefix_hits hs))%nat) as [|Hgt]; [done|].
  destruct (prefix_hits_stop hs) as (h & Eh & El); [lia|].
  destruct (Hall (length (prefix_hits hs))) as (h' & Eh' & [r Er]); [lia|]. congruence.
Qed.

Lemma hit_run_eq hs cs : hit_run hs gids cs p = Ok (foldl append_each cs (prefix_hits hs)) p.
Proof.
  revert cs. induction hs as [|h hs IH]; intros cs; [done|]. cbn [hit_run prefix_hits].
  unfold mbind, M_bind. rewrite get_cached_look.
  destruct (look h) as [[|b row]|] eqn:E; [by destruct (look_not_nil h)| |done].
  cbn [foldl]. apply IH.
Qed.

Lemma append_each_lookup cs row i c b :
  cs !! i = Some c -> row !! i = Some b -> append_each cs row !! i = Some (c ++ [b]).
Proof. intros Hc Hb. unfold append_each. by rewrite lookup_zip_with, Hc; cbn; rewrite Hb. Qed.

Lemma append_each_length cs row : length row = length cs -> length (append_each cs row) = length cs.
Proof. intros E. unfold append_each. rewrite length_zip_with. lia. Qed.

(** Column [g] of a list of rows. *)
Definition column (rows : list (list loc)) (g : nat) : list loc := omap (fun row => row !! g) rows.

Definition full_rows (rows : list (list loc)) : Prop :=
  Forall (fun row => length row = length gids) rows.

Lemma prefix_rows hs : full_rows (prefix_hits hs).
Proof.
  apply Forall_lookup. intros i row E. apply prefix_hits_lookup in E as (h & _ & E).
  by eapply look_length.
Qed.

Lemma column_lookup rows g i b :
  full_rows rows -> (g < length gids)%nat ->
  column rows g !! i = Some b <-> exists row, rows !! i = Some row /\ row !! g = Some b.
Proof.
  intros Hr Hg. revert i. induction Hr as [|row rows Hrow Hr IH]; intros i.
  - cbn. split; [done|]. by intros (? & ? & _).
  - cbn. destruct (lookup_lt_is_Some_2 row g) as [x Hx]; [lia|]. rewrite Hx.
    destruct i as [|i]; cbn; [|apply IH]. split.
    + intros [= <-]. by exists row.
    + intros (? & [= <-] & ?). congruence.
Qed.

Lemma column_length rows g :
  full_rows rows -> (g < length gids)%nat -> length (column rows g) = length rows.
Proof.
  intros Hr Hg. induction Hr as [|row rows Hrow Hr IH]; [done|].
  destruct (lookup_lt_is_Some_2 row g) as [x Hx]; [lia|].
  unfold column in *. cbn. rewrite Hx. cbn. f_equal. exact IH.
Qed.

Lemma column_snoc rows row g x :
  row !! g = Some x -> column (rows ++ [row]) g = column rows g ++ [x].
Proof. intros E. unfold column. rewrite omap_app. cbn. by rewrite E. Qed.

(** Appending rows one by one builds the columns. *)
Lemma append_rows cs rows g c :
  full_rows rows -> length cs = length gids -> cs !! g = Some c ->
  foldl append_each cs rows !! g = Some (c ++ column rows g) /\
  length (foldl append_each cs rows) = length gids.
Proof.
  intros Hr. revert cs c. induction Hr as [|row rows Hrow Hr IH]; intros cs c Hl Hc.
  - cbn. by rewrite app_nil_r.
  - pose proof (lookup_lt_Some _ _ _ Hc). destruct (lookup_lt_is_Some_2 row g) as [x Hx]; [lia|].
    cbn [foldl]. destruct (IH (append_each cs row) (c ++ [x])) as [E1 E2].
    + rewrite append_each_length; lia.
    + by apply append_each_lookup.
    + split; [|done]. rewrite E1. cbn. rewrite Hx. by rewrite <- app_assoc.
Qed.

Lemma append_rows_empty rows :
  full_rows rows ->
  foldl append_each (replicate (length gids) []) rows = column rows <$> seq 0 (length gids).
Proof.
  intros Hr. apply list_eq. intros g. destruct (decide (g < length gids)%nat) as [Hg|Hg].
  - destruct (append_rows (replicate (length gids) []) rows g []) as [-> _];
      [done|apply length_replicate|by apply lookup_replicate_2|].
    rewrite list_lookup_fmap, lookup_seq_lt by done. done.
  - assert (length (foldl append_each (replicate (length gids) []) rows) = length gids) as Hl.
    { destruct gids as [|g0 gs] eqn:E; [done|]. rewrite <- E in *.
      apply (append_rows _ rows 0 []); [done|apply length_replicate|].
      apply lookup_replicate_2. rewrite E. cbn. lia. }
    rewrite (proj2 (lookup_ge_None _ _)) by lia. symmetry. apply lookup_ge_None.
    rewrite length_fmap, length_seq. lia.
Qed.

Lemma first_len_columns {S} (s : S) rows :
  full_rows rows -> first_len (column rows <$> seq 0 (length gids)) s = Ok (zlen rows) s.
Proof.
  intros Hr. assert (0 < length gids)%nat as Hl by (destruct gids; [done|cbn; lia]).
  pose proof (column_length rows 0 Hr Hl) as Hc. unfold first_len, mbind, M_bind.
  destruct (length gids) as [|n]; [lia|]. cbn. unfold zlen. by rewrite Hc.
Qed.

Lemma islice_eq {S} (s : S) v hs n :
  0 <= n -> bh_from v 0 = Some hs -> islice v n s = Ok (take (Z.to_nat n) hs) s.
Proof.
  intros Hn Hv. unfold islice. rewrite (proj2 (Z.ltb_ge n 0)) by done.
  unfold mbind, M_bind, of_option. by rewrite Hv.
Qed.

(** ** Full attention *)

(** The specs [FullAttentionManager.find_longest_cache_hit] accepts. *)
Definition full_like (k : SpecKind) : bool :=
  match k with
  | FullAttentionSpec | RSWASpec _ | SinkFullAttentionSpec _ | ChunkedLocalAttentionSpec _ => true
  | _ => false
  end.

Definition shard_block_size (spec : KVCacheSpec) (dcp : Z) : Z :=
  if 1 <? dcp then spec_block_size spec * dcp else spec_block_size spec.

(** The hit length after the EAGLE drop and the alignment. *)
Definition settle (eagle : bool) (align blk raw : Z) : Z :=
  let raw := if eagle && (0 <? raw) then raw - Z.min align blk else raw in
  raw - raw mod align.

Lemma settle_bounds eagle align blk raw :
  0 < align -> 0 < blk -> 0 <= raw -> (raw = 0 \/ Z.min align blk <= raw) ->
  0 <= settle eagle align blk raw <= raw /\ settle eagle align blk raw mod align = 0.
Proof.
  intros Ha Hb Hr Hm. unfold settle.
  set (r := if eagle && (0 <? raw) then raw - Z.min align blk else raw).
  assert (0 <= r <= raw) as Hr' by (subst r; destruct eagle; cbn; [destruct (Z.ltb_spec 0 raw)|]; lia).
  pose proof (Z.mod_pos_bound r align Ha). pose proof (Z.mod_le r align ltac:(lia) Ha).
  split; [lia|]. rewrite Zminus_mod_idemp_r. by rewrite Z.sub_diag.
Qed.

Lemma settle_max align blk raw L :
  0 < align -> 0 <= L <= raw -> L mod align = 0 -> L <= settle false align blk raw.
Proof.
  intros Ha HL Hm. unfold settle. cbn [andb].
  apply Z.mod_divide in Hm as [q ->]; [|lia].
  pose proof (Z.div_mod raw align ltac:(lia)) as Hd.
  pose proof (Z.div_le_lower_bound raw align q Ha ltac:(lia)). nia.
Qed.

(** Blocks as large as the alignment or larger alignment: whole blocks only. *)
Lemma full_search_blocks bhl max_length spec eagle align dcp v hs :
  full_like (spec_kind spec) = true ->
  0 < shard_block_size spec dcp -> 0 <= max_length ->
  (align <? shard_block_size spec dcp) && (shard_block_size spec dcp mod align =? 0) = false ->
  resolve_block_hashes bhl (hash_block_size p) (shard_block_size spec dcp) true (Some align) = Some v ->
  bh_from v 0 = Some hs ->
  let blk := shard_block_size spec dcp in
  let rows := prefix_hits (take (Z.to_nat (max_length / blk)) hs) in
  let hit := settle eagle align blk (zlen rows * blk) in
  full_find_longest_cache_hit bhl max_length gids spec eagle align dcp p =
    Ok ((fun c => py_upto c (cdiv hit blk)) <$> (column rows <$> seq 0 (length gids)), hit) p.
Proof.
  intros Hs Hb Hm Hfine Hres Hv blk rows hit. unfold full_find_longest_cache_hit.
  fold (full_like (spec_kind spec)) in *. change (match spec_kind spec with
    | FullAttentionSpec | RSWASpec _ | SinkFullAttentionSpec _ | ChunkedLocalAttentionSpec _ => true
    | _ => false end) with (full_like (spec_kind spec)). rewrite Hs.
  fold (shard_block_size spec dcp). unfold mbind at 1, M_bind at 1, assert_ at 1. cbn [mret M_ret].
  unfold mret at 1, M_ret at 1.
  unfold mbind at 1, M_bind at 1, gets at 1. unfold mbind at 1, M_bind at 1, of_option at 1.
  rewrite Hres. cbn beta iota. unfold mret at 1, M_ret at 1. rewrite Hfine.
  unfold mbind at 1, M_bind at 1. cbn beta iota. unfold mret at 1, M_ret at 1.
  unfold mbind at 1, M_bind at 1.
  rewrite (islice_eq p v hs) by (done || by apply Z.div_pos). cbn beta iota.
  unfold mbind at 1, M_bind at 1. rewrite hit_run_eq, append_rows_empty by apply prefix_rows.
  cbn beta iota. unfold mbind at 1, M_bind at 1. rewrite first_len_columns by apply prefix_rows.
  cbn beta iota. reflexivity.
Qed.

(** Column [g] of the answer holds, at each position, a block of the pool cached
    for group [gid] under the hash of that position. *)
Definition cached_at (hash_of : nat -> option BlockHash) (gid : Z) (c : list loc) : Prop :=
  forall i b, c !! i = Some b -> exists h k, hash_of i = Some h /\ group_key h gid = Some k /\
    b ∈ blocks p /\ b <> null_block p /\ owned p b k.

Lemma rows_cached_at (hash_of : nat -> option BlockHash) rows g gid n :
  full_rows rows -> gids !! g = Some gid ->
  (forall i row, (i < n)%nat -> rows !! i = Some row -> exists h, hash_of i = Some h /\ look h = Some row) ->
  cached_at hash_of gid (take n (column rows g)).
Proof.
  intros Hr Hg Hrows i b Hb. apply lookup_take_Some in Hb as [Hb Hi].
  apply column_lookup in Hb as (row & Hrow & Hrb); [|done|by eapply lookup_lt_Some].
  destruct (Hrows i row Hi Hrow) as (h & Hh & Hl).
  destruct (look_owned h row g gid b Hl Hg Hrb) as (k & Hk & Hin & Hnn & Ho). by exists h, k.
Qed.

Lemma cdiv_le_mul n b k : 0 < b -> n <= k * b -> cdiv n b <= k.
Proof. intros Hb Hn. pose proof (cdiv_spec n b Hb). nia. Qed.

(** C30.  Full attention, whole blocks: the search reads the pool without
    changing it and raises nothing; the hit length is a multiple of the
    alignment within the limit; every returned block is cached for its group
    under the hash of its position, and there are exactly enough blocks for the
    hit; without EAGLE no longer aligned prefix within the limit has all its
    blocks cached, and with EAGLE at least one cached block past the hit is left
    to recompute. *)
Theorem full_hit_correct bhl max_length spec eagle align dcp v hs :
  full_like (spec_kind spec) = true ->
  0 < shard_block_size spec dcp -> 0 < align -> 0 <= max_length ->
  (align <? shard_block_size spec dcp) && (shard_block_size spec dcp mod align =? 0) = false ->
  resolve_block_hashes bhl (hash_block_size p) (shard_block_size spec dcp) true (Some align) = Some v ->
  bh_from v 0 = Some hs ->
  exists cols hit,
    full_find_longest_cache_hit bhl max_length gids spec eagle align dcp p = Ok (cols, hit) p /\
    length cols = length gids /\ 0 <= hit <= max_length /\ hit mod align = 0 /\
    (forall g gid c, gids !! g = Some gid -> cols !! g = Some c ->
       zlen c = cdiv hit (shard_block_size spec dcp) /\ cached_at (fun i => hs !! i) gid c) /\
    (eagle = false -> forall L, 0 <= L <= max_length -> L mod align = 0 ->
       L mod shard_block_size spec dcp = 0 ->
       (forall i, (i < Z.to_nat (L / shard_block_size spec dcp))%nat ->
          exists h, hs !! i = Some h /\ is_Some (look h)) -> L <= hit) /\
    (eagle = true -> shard_block_size spec dcp <= align -> 0 < hit ->
       exists h, hs !! Z.to_nat (hit / shard_block_size spec dcp) = Some h /\ is_Some (look h)).
Proof.
  intros Hs Hb Ha Hm Hfine Hres Hv.
  pose proof (full_search_blocks bhl max_length spec eagle align dcp v hs Hs Hb Hm Hfine Hres Hv) as E.
  cbv zeta in E. set (blk := shard_block_size spec dcp) in *.
  set (rows := prefix_hits (take (Z.to_nat (max_length / blk)) hs)) in *.
  assert (full_rows rows) as Hfr by apply prefix_rows.
  pose proof (prefix_hits_le (take (Z.to_nat (max_length / blk)) hs)) as Hle. fold rows in Hle.
  rewrite length_take in Hle.
  pose proof (Z.div_pos max_length blk Hm Hb) as Hq. pose proof (Z.mul_div_le max_length blk Hb) as Hmq.
  assert (0 <= zlen rows <= max_length / blk) as Hz by (unfold zlen; lia).
  destruct (settle_bounds eagle align blk (zlen rows * blk) Ha Hb ltac:(nia)) as [Hsb Hsm].
  { destruct (decide (zlen rows = 0)) as [->|]; [by left|right]. nia. }
  set (hit := settle eagle align blk (zlen rows * blk)) in *.
  pose proof (cdiv_nonneg hit blk Hb ltac:(lia)) as Hc0.
  pose proof (cdiv_le_mul hit blk (zlen rows) Hb ltac:(lia)) as Hcz.
  assert (forall i row, rows !! i = Some row -> exists h, hs !! i = Some h /\ look h = Some row) as Hrows.
  { intros i row Er. apply prefix_hits_lookup in Er as (h & Eh & El).
    apply lookup_take_Some in Eh as [Eh _]. by exists h. }
  eexists _, hit. split; [exact E|]. split_and!.
  - by rewrite !length_fmap, length_seq.
  - lia.
  - nia.
  - done.
  - intros g gid c Hg Hc. pose proof (lookup_lt_Some _ _ _ Hg) as Hgl.
    rewrite !list_lookup_fmap, lookup_seq_lt in Hc by done. injection Hc as <-.
    rewrite py_upto_take by done. split.
    + unfold zlen. rewrite length_take, column_length by done. unfold zlen in *. lia.
    + apply rows_cached_at; [done|done|]. intros i row _. apply Hrows.
  - intros -> L HL Hal Hbl Hall. apply settle_max; [done| |done].
    apply Z.mod_divide in Hbl as [q ->]; [|lia]. rewrite Z.div_mul in Hall by lia.
    enough (q <= zlen rows) by nia.
    assert (Z.to_nat q <= length rows)%nat as Hql; [|unfold zlen; lia].
    assert (q <= max_length / blk) as Hqm by (apply Z.div_le_lower_bound; lia).
    apply prefix_hits_max.
    + rewrite length_take. destruct (decide (Z.to_nat q = 0)%nat) as [|Hq0]; [lia|].
      destruct (Hall (Z.to_nat q - 1)%nat) as (h & Hh & _); [lia|]. apply lookup_lt_Some in Hh. lia.
    + intros i Hi. destruct (Hall i Hi) as (h & Hh & Hl). exists h. split; [|done].
      rewrite lookup_take_lt by lia. done.
  - intros -> Hba Hpos. assert (hit <= zlen rows * blk - blk) as Hhb.
    { subst hit. unfold settle in *. destruct (Z.ltb_spec 0 (zlen rows * blk)) as [|Hn]; cbn [andb] in *;
        [|assert (zlen rows * blk = 0) as Hz0 by nia; rewrite Hz0 in Hpos; by rewrite Z.mod_0_l in Hpos by lia].
      rewrite Z.min_r in * by done.
      pose proof (Z.mod_pos_bound (zlen rows * blk - blk) align Ha). lia. }
    assert (hit / blk < zlen rows) as Hlt by (apply Z.div_lt_upper_bound; nia).
    pose proof (Z.div_pos hit blk ltac:(lia) Hb).
    destruct (lookup_lt_is_Some_2 rows (Z.to_nat (hit / blk))) as [row Hrow]; [unfold zlen in *; lia|].
    destruct (Hrows _ _ Hrow) as (h & Hh & Hl). exists h. split; [done|]. by eexists.
Qed.

(** ** Full attention, hits inside a block *)

Lemma mapM_lookup_total {A B} (f : A -> option B) (l : list A) :
  (forall x, x ∈ l -> is_Some (f x)) ->
  exists k, mapM f l = Some k /\ length k = length l /\
    forall i x, l !! i = Some x -> k !! i = f x.
Proof.
  intros Hf. assert (is_Some (mapM f l)) as [k Hk] by (apply mapM_is_Some_2, Forall_forall, Hf).
  exists k. split; [done|]. apply mapM_Some in Hk. split; [symmetry; by eapply Forall2_length|].
  intros i x Hx. destruct (Forall2_lookup_l _ _ _ _ _ Hk Hx) as (y & -> & ->). done.
Qed.

(** A coarser view lists the hash at the end of each coarse block. *)
Lemma scaled_from hs sf :
  0 < sf -> exists fhs, bh_from (ScaledHashes hs sf) 0 = Some fhs /\ zlen fhs = zlen hs / sf /\
    forall i, 0 <= i < zlen hs / sf -> fhs !! Z.to_nat i = hs !! Z.to_nat ((i + 1) * sf - 1).
Proof.
  intros Hsf. cbn [bh_from]. pose proof (Z.div_pos (zlen hs) sf (zlen_nonneg _) Hsf) as Hq.
  pose proof (Z.mul_div_le (zlen hs) sf Hsf) as Hle.
  assert (py_bound (zlen hs / sf) 0 = 0) as -> by (unfold py_bound; cbn; lia).
  destruct (mapM_lookup_total (fun i => py_index hs ((i + 1) * sf - 1)) (py_range 0 (zlen hs / sf)))
    as (fhs & E & Hlen & Hlk).
  { intros i Hi. unfold py_range in Hi. apply elem_of_seqZ in Hi.
    rewrite py_index_nonneg by nia. apply lookup_lt_is_Some_2. unfold zlen in *. nia. }
  exists fhs. split; [done|]. unfold py_range in *. rewrite length_seqZ in Hlen.
  split; [unfold zlen at 1; lia|]. intros i Hi.
  rewrite (Hlk (Z.to_nat i) i) by (rewrite lookup_seqZ; lia). by rewrite py_index_nonneg by nia.
Qed.

(** Probing returns the first boundary that is cached, from the top. *)
Lemma probe_partial_spec hs idxs :
  (forall i, i ∈ idxs -> 0 <= i < zlen hs) ->
  exists r, probe_partial hs idxs gids p = Ok r p /\
    match r with
    | None => forall i h, i ∈ idxs -> hs !! Z.to_nat i = Some h -> look h = None
    | Some (j, row) => exists pre post h, idxs = pre ++ j :: post /\ hs !! Z.to_nat j = Some h /\
        look h = Some row /\ forall i h', i ∈ pre -> hs !! Z.to_nat i = Some h' -> look h' = None
    end.
Proof.
  induction idxs as [|j idxs IH]; intros Hin.
  { exists None. split; [done|]. by intros i h ?%elem_of_nil. }
  destruct (Hin j) as [Hj0 Hj]; [by left|].
  destruct (lookup_lt_is_Some_2 hs (Z.to_nat j)) as [h Hh]; [unfold zlen in Hj; lia|].
  cbn [probe_partial]. unfold mbind, M_bind. rewrite py_index_nonneg, Hh by done. cbn [of_option].
  unfold mret, M_ret. rewrite get_cached_look.
  destruct (look h) as [[|b row]|] eqn:El; [by destruct (look_not_nil h)| |].
  - exists (Some (j, b :: row)). split; [done|]. exists [], idxs, h. split_and!; [done..|].
    by intros i h' ?%elem_of_nil.
  - destruct IH as (r & Er & Hr); [intros i Hi; apply Hin; by right|]. exists r. split; [done|].
    destruct r as [[j' row]|].
    + destruct Hr as (pre & post & h' & -> & ? & ? & Hpre). exists (j :: pre), post, h'.
      split_and!; [done..|]. intros i h'' [->|Hi]%elem_of_cons Hi'; [congruence|by eapply Hpre].
    + intros i h' [->|Hi]%elem_of_cons Hi'; [congruence|by eapply Hr].
Qed.

Lemma elem_of_range_down a b i : i ∈ py_range_down a b <-> b < i <= a.
Proof.
  unfold py_range_down. rewrite list_elem_of_fmap. split.
  - intros (k & -> & Hk%elem_of_seqZ). lia.
  - intros Hi. exists (a - i). split; [lia|]. apply elem_of_seqZ. lia.
Qed.

(** Elements before [j] in a descending range are above it. *)
Lemma range_down_split a b pre j post i :
  py_range_down a b = pre ++ j :: post -> j < i <= a -> i ∈ pre.
Proof.
  intros E Hi. assert (i ∈ py_range_down a b) as Hin.
  { apply elem_of_range_down. assert (j ∈ py_range_down a b) as Hj by (rewrite E, elem_of_app; right; by left).
    apply elem_of_range_down in Hj. lia. }
  rewrite E, elem_of_app, elem_of_cons in Hin. destruct Hin as [|[->|Hp]]; [done|lia|exfalso].
  apply list_elem_of_lookup in Hp as [n Hn].
  assert (py_range_down a b !! length pre = Some j) as H1 by (rewrite E; by apply list_lookup_middle).
  assert (py_range_down a b !! (length pre + S n)%nat = Some i) as H2.
  { rewrite E, lookup_app_r by lia. by replace (length pre + S n - length pre)%nat with (S n) by lia. }
  unfold py_range_down in *. rewrite list_lookup_fmap in H1, H2.
  destruct (seqZ 0 (a - b) !! length pre) as [x|] eqn:Ex; [|done].
  destruct (seqZ 0 (a - b) !! (length pre + S n)%nat) as [y|] eqn:Ey; [|done].
  apply lookup_seqZ in Ex, Ey. cbn in H1, H2. injection H1 as <-. injection H2 as <-. lia.
Qed.

(** The hash at the end of the part of block [i] that lies in the first [L] tokens. *)
Definition boundary_hash (hs : list BlockHash) (a blk L : Z) (i : nat) : option BlockHash :=
  hs !! Z.to_nat (Z.min ((Z.of_nat i + 1) * blk) L / a - 1).

(** All blocks of the first [L] tokens are cached, the last one up to [L]. *)
Definition cached_up_to (hs : list BlockHash) (a blk L : Z) : Prop :=
  forall i, (i < Z.to_nat (cdiv L blk))%nat ->
    exists h, boundary_hash hs a blk L i = Some h /\ is_Some (look h).

(** What the two phases find: the longest cached prefix. *)
Record fine_found (hs : list BlockHash) (a blk max_length : Z) (rows : list (list loc)) (hit : Z) : Prop := {
  ff_rows : full_rows rows;
  ff_bounds : 0 <= hit <= max_length /\ hit mod a = 0 /\ zlen rows = cdiv hit blk;
  ff_cached : forall i row, rows !! i = Some row ->
    exists h, boundary_hash hs a blk hit i = Some h /\ look h = Some row;
  ff_max : forall L, 0 <= L <= max_length -> L mod a = 0 -> cached_up_to hs a blk L -> L <= hit
}.

Section Fine.
Variables (hs : list BlockHash) (a blk sf max_length : Z) (fhs : list BlockHash).
Hypothesis Ha : 0 < a.
Hypothesis Hsf : 1 < sf.
Hypothesis Hblk : blk = sf * a.
Hypothesis Hmax : 0 <= max_length.
Hypothesis Hfl : zlen fhs = zlen hs / sf.
Hypothesis Hfi : forall i, 0 <= i < zlen hs / sf -> fhs !! Z.to_nat i = hs !! Z.to_nat ((i + 1) * sf - 1).

Abbreviation rows := (prefix_hits (take (Z.to_nat (max_length / blk)) fhs)).
Abbreviation n := (zlen rows).

Lemma fine_n : 0 <= n /\ n * blk <= max_length /\ n <= zlen hs / sf.
Proof.
  pose proof (prefix_hits_le (take (Z.to_nat (max_length / blk)) fhs)) as Hle.
  rewrite length_take in Hle. pose proof (Z.div_pos max_length blk Hmax ltac:(nia)).
  pose proof (Z.mul_div_le max_length blk ltac:(nia)). unfold zlen in *. nia.
Qed.

Lemma fine_row i row : rows !! i = Some row ->
  exists h, hs !! Z.to_nat ((Z.of_nat i + 1) * sf - 1) = Some h /\ look h = Some row.
Proof.
  intros Hr. pose proof (lookup_lt_Some _ _ _ Hr) as Hi. pose proof fine_n as (_ & _ & Hn).
  apply prefix_hits_lookup in Hr as (h & Eh & El). apply lookup_take_Some in Eh as [Eh _].
  exists h. split; [|done]. rewrite <- Hfi by (unfold zlen in *; lia). by rewrite Nat2Z.id.
Qed.

(** The boundary of a whole block. *)
Lemma boundary_full L i : (Z.of_nat i + 1) * blk <= L ->
  boundary_hash hs a blk L i = hs !! Z.to_nat ((Z.of_nat i + 1) * sf - 1).
Proof.
  intros HL. unfold boundary_hash. rewrite Z.min_l by done. do 2 f_equal. f_equal.
  rewrite Hblk, Z.mul_assoc. apply Z.div_mul. lia.
Qed.

(** Every cached prefix ends at most in the block after the run. *)
Lemma cached_whole_blocks L : 0 <= L <= max_length -> cached_up_to hs a blk L -> L / blk <= n.
Proof.
  intros HL Hall. assert (0 < blk) as Hb by nia.
  pose proof (Z.div_pos L blk ltac:(lia) Hb) as Hq. pose proof (Z.mul_div_le L blk Hb) as Hqm.
  pose proof (cdiv_spec L blk Hb) as Hc.
  assert (forall i, (i < Z.to_nat (L / blk))%nat ->
    exists h, fhs !! i = Some h /\ is_Some (look h)) as Hf.
  { intros i Hi. destruct (Hall i) as (h & Hh & Hl); [nia|].
    rewrite boundary_full in Hh by nia. exists h. split; [|done].
    apply lookup_lt_Some in Hh as Hlt.
    assert (Z.of_nat i + 1 <= zlen hs / sf) as Hlt'
      by (apply Z.div_le_lower_bound; unfold zlen in *; nia).
    rewrite <- (Nat2Z.id i), Hfi by lia. done. }
  assert (Z.to_nat (L / blk) <= length rows)%nat; [|unfold zlen; lia].
  pose proof (Z.div_le_mono L max_length blk Hb ltac:(lia)).
  apply prefix_hits_max.
  - rewrite length_take. destruct (decide (Z.to_nat (L / blk) = 0)%nat) as [|Hq0]; [lia|].
    destruct (Hf (Z.to_nat (L / blk) - 1)%nat) as (h & Hh & _); [lia|]. apply lookup_lt_Some in Hh. lia.
  - intros i Hi. destruct (Hf i Hi) as (h & Hh & Hl). exists h. split; [|done].
    rewrite lookup_take_lt by lia. done.
Qed.

Abbreviation top := (Z.min (Z.min (n * sf + sf - 1) (max_length / a)) (zlen hs)).

(** A cached prefix longer than the run ends at a probed boundary. *)
Lemma cached_tail_probed L :
  0 <= L <= max_length -> L mod a = 0 -> cached_up_to hs a blk L -> n * blk < L ->
  let j := L / a - 1 in
  n * sf - 1 < j <= top - 1 /\ exists h, hs !! Z.to_nat j = Some h /\ is_Some (look h).
Proof.
  intros HL Hm Hall Hlt j. assert (0 < blk) as Hb by nia. pose proof fine_n as (Hn0 & _ & _).
  pose proof (cached_whole_blocks L HL Hall) as Hq.
  pose proof (Z.mul_succ_div_gt L blk Hb) as Hg.
  apply Z.mod_divide in Hm as [q Hq']; [|lia].
  assert (L / a = q) as Hdiv by (rewrite Hq'; apply Z.div_mul; lia).
  destruct (Hall (Z.to_nat n)) as (h & Hh & Hl).
  { pose proof (cdiv_spec L blk Hb). nia. }
  unfold boundary_hash in Hh. rewrite Z2Nat.id, Z.min_r in Hh by nia. fold j in Hh.
  assert (q <= max_length / a) as Hqm by (apply Z.div_le_lower_bound; nia).
  pose proof (lookup_lt_Some _ _ _ Hh) as Hjl.
  split; [|by exists h]. unfold j in *. rewrite Hdiv in *. unfold zlen at 3. nia.
Qed.

Lemma fine_found_none :
  (forall i h, i ∈ py_range_down (top - 1) (n * sf - 1) -> hs !! Z.to_nat i = Some h -> look h = None) ->
  fine_found hs a blk max_length rows (n * blk).
Proof.
  intros Hnone. assert (0 < blk) as Hb by nia. pose proof fine_n as (Hn0 & Hnm & _). split.
  - apply prefix_rows.
  - split_and!; [nia|done| |by rewrite cdiv_mul].
    rewrite Hblk, Z.mul_assoc. apply Z.mod_mul. lia.
  - intros i row Hr. rewrite boundary_full; [by apply fine_row|].
    apply lookup_lt_Some in Hr. unfold zlen. nia.
  - intros L HL Hm Hall. destruct (Z.le_gt_cases L (n * blk)) as [|Hgt]; [done|].
    destruct (cached_tail_probed L HL Hm Hall Hgt) as (Hj & h & Hh & [r Hr]).
    rewrite (Hnone (L / a - 1) h) in Hr; [done| |done]. by apply elem_of_range_down.
Qed.

Lemma fine_found_some j row pre post h :
  py_range_down (top - 1) (n * sf - 1) = pre ++ j :: post -> hs !! Z.to_nat j = Some h ->
  look h = Some row ->
  (forall i h', i ∈ pre -> hs !! Z.to_nat i = Some h' -> look h' = None) ->
  fine_found hs a blk max_length (rows ++ [row]) ((j + 1) * a).
Proof.
  intros E Hh Hl Hpre. assert (0 < blk) as Hb by nia. pose proof fine_n as (Hn0 & Hnm & _).
  assert (n * sf - 1 < j <= top - 1) as Hj
    by (apply elem_of_range_down; rewrite E, elem_of_app; right; by left).
  pose proof (Z.mul_div_le max_length a Ha) as Hma.
  assert ((j + 1) * a <= max_length) as Hjm by nia.
  assert (n * blk < (j + 1) * a <= (n + 1) * blk) as Hjb by nia.
  split.
  - apply Forall_app. split; [apply prefix_rows|]. constructor; [by eapply look_length|constructor].
  - split_and!; [nia|done|apply Z.mod_mul; lia|]. rewrite zlen_app. symmetry.
    apply cdiv_unique; [done|]. change (zlen [row]) with 1. nia.
  - intros i r Hr. apply lookup_app_Some in Hr as [Hr|[Hi Hr]].
    + rewrite boundary_full; [by apply fine_row|]. apply lookup_lt_Some in Hr. unfold zlen in *. nia.
    + apply list_lookup_singleton_Some in Hr as [Hi0 <-].
      exists h. split; [|done]. unfold boundary_hash.
      rewrite Z.min_r by (unfold zlen in *; nia). rewrite Z.div_mul by lia.
      by replace (j + 1 - 1) with j by lia.
  - intros L HL Hm Hall. destruct (Z.le_gt_cases L (n * blk)) as [|Hgt]; [lia|].
    destruct (cached_tail_probed L HL Hm Hall Hgt) as (HjL & h' & Hh' & [r Hr]).
    apply Z.mod_divide in Hm as [q Hq]; [|lia].
    assert (L / a = q) as Hdiv by (rewrite Hq; apply Z.div_mul; lia). rewrite Hdiv in *.
    destruct (Z.le_gt_cases (q - 1) j) as [|Hjgt]; [nia|].
    rewrite (Hpre (q - 1) h') in Hr; [done| |done]. eapply range_down_split; [exact E|lia].
Qed.

End Fine.

Lemma append_tail_columns rows row :
  full_rows rows -> length row = length gids ->
  append_each (column rows <$> seq 0 (length gids)) row = column (rows ++ [row]) <$> seq 0 (length gids).
Proof.
  intros Hr Hl. rewrite <- !append_rows_empty; [by rewrite foldl_app| |done].
  apply Forall_app. split; [done|]. by repeat constructor.
Qed.

Lemma full_search_fine hs max_length spec eagle a dcp bhl :
  full_like (spec_kind spec) = true -> 0 < a -> a < shard_block_size spec dcp ->
  shard_block_size spec dcp mod a = 0 -> 0 <= max_length ->
  resolve_block_hashes bhl (hash_block_size p) (shard_block_size spec dcp) true (Some a) =
    Some (RawHashes hs) ->
  exists rows hit, fine_found hs a (shard_block_size spec dcp) max_length rows hit /\
    let final := settle eagle a (shard_block_size spec dcp) hit in
    full_find_longest_cache_hit bhl max_length gids spec eagle a dcp p =
    Ok ((fun c => py_upto c (cdiv final (shard_block_size spec dcp))) <$>
          (column rows <$> seq 0 (length gids)), final) p.
Proof.
  intros Hs Ha Hlt Hmod Hm Hres. unfold full_find_longest_cache_hit.
  change (match spec_kind spec with
    | FullAttentionSpec | RSWASpec _ | SinkFullAttentionSpec _ | ChunkedLocalAttentionSpec _ => true
    | _ => false end) with (full_like (spec_kind spec)). rewrite Hs.
  fold (shard_block_size spec dcp). set (blk := shard_block_size spec dcp) in *.
  assert (blk = blk / a * a) as Hblk by (pose proof (Z.div_mod blk a ltac:(lia)); lia).
  set (sf := blk / a) in *. assert (1 < sf) as Hsf by nia.
  destruct (scaled_from hs sf ltac:(lia)) as (fhs & Hfrom & Hfl & Hfi).
  set (rows := prefix_hits (take (Z.to_nat (max_length / blk)) fhs)).
  unfold mbind at 1, M_bind at 1, assert_ at 1, mret at 1, M_ret at 1.
  unfold mbind at 1, M_bind at 1, gets at 1. unfold mbind at 1, M_bind at 1, of_option at 1.
  rewrite Hres. unfold mret at 1, M_ret at 1.
  rewrite (proj2 (Z.ltb_lt a blk)) by done. rewrite Hmod. cbn [Z.eqb andb].
  unfold mbind at 1, M_bind at 1, new_scaled, of_option at 1. rewrite Hmod. cbn [Z.eqb].
  unfold mret at 1, M_ret at 1. fold sf. unfold mbind at 1, M_bind at 1.
  rewrite (islice_eq p (ScaledHashes hs sf) fhs) by (done || by apply Z.div_pos; lia).
  unfold mbind at 1, M_bind at 1. rewrite hit_run_eq, append_rows_empty by apply prefix_rows.
  fold rows. unfold mbind at 1, M_bind at 1. rewrite first_len_columns by apply prefix_rows.
  unfold mbind at 1, M_bind at 1. unfold mbind at 1, M_bind at 1.
  destruct (probe_partial_spec hs (py_range_down (Z.min (Z.min (zlen rows * sf + sf - 1) (max_length / a))
    (zlen hs) - 1) (zlen rows * sf - 1))) as (r & Er & Hr).
  { intros i Hi%elem_of_range_down. pose proof (zlen_nonneg rows). nia. }
  rewrite Er. destruct r as [[j row]|].
  - destruct Hr as (pre & post & h & E & Hh & Hl & Hpre).
    exists (rows ++ [row]), ((j + 1) * a). split; [by eapply (fine_found_some hs a blk sf max_length fhs)|].
    unfold mret at 1, M_ret at 1.
    rewrite append_tail_columns; [reflexivity|apply prefix_rows|by eapply look_length].
  - exists rows, (zlen rows * blk). split; [by eapply (fine_found_none hs a blk sf max_length fhs)|].
    reflexivity.
Qed.

(** C32.  Full attention with sub-block hits: when the alignment is finer than
    the block, the search extends the run of whole cached blocks by the longest
    cached boundary inside the next block.  The hit is a multiple of the
    alignment within the limit and, without EAGLE, the longest prefix whose
    blocks are all cached (the last one possibly partially); every returned
    block is cached for its group under the hash of its (possibly partial) end;
    EAGLE gives up exactly one alignment unit of a non-empty hit. *)
Theorem full_partial_hit_correct hs max_length spec eagle a dcp bhl :
  full_like (spec_kind spec) = true -> 0 < a -> a < shard_block_size spec dcp ->
  shard_block_size spec dcp mod a = 0 -> 0 <= max_length ->
  resolve_block_hashes bhl (hash_block_size p) (shard_block_size spec dcp) true (Some a) =
    Some (RawHashes hs) ->
  exists cols hit longest,
    full_find_longest_cache_hit bhl max_length gids spec eagle a dcp p = Ok (cols, hit) p /\
    length cols = length gids /\ 0 <= hit <= max_length /\ hit mod a = 0 /\
    hit = (if eagle && (0 <? longest) then longest - a else longest) /\
    (forall g gid c, gids !! g = Some gid -> cols !! g = Some c ->
       zlen c = cdiv hit (shard_block_size spec dcp) /\
       cached_at (boundary_hash hs a (shard_block_size spec dcp) longest) gid c) /\
    (forall L, 0 <= L <= max_length -> L mod a = 0 ->
       cached_up_to hs a (shard_block_size spec dcp) L -> L <= longest).
Proof.
  intros Hs Ha Hlt Hmod Hm Hres.
  destruct (full_search_fine hs max_length spec eagle a dcp bhl Hs Ha Hlt Hmod Hm Hres)
    as (rows & longest & [F1 (F2 & F3 & F4) F5 F6] & E). cbv zeta in E.
  set (blk := shard_block_size spec dcp) in *. assert (0 < blk) as Hb by lia.
  destruct (settle_bounds eagle a blk longest Ha Hb ltac:(lia)) as [Hsb Hsm].
  { apply Z.mod_divide in F3 as [q Hq]; [|lia]. destruct (decide (q = 0)) as [->|]; [by left|right; nia]. }
  assert (settle eagle a blk longest = if eagle && (0 <? longest) then longest - a else longest) as Hset.
  { unfold settle. rewrite Z.min_l by lia. destruct (eagle && (0 <? longest)); [|by rewrite F3, Z.sub_0_r].
    rewrite <- Zminus_mod_idemp_r, Z_mod_same_full, Z.sub_0_r, F3. lia. }
  set (hit := settle eagle a blk longest) in *.
  pose proof (cdiv_mono hit longest blk Hb ltac:(lia)) as Hcm.
  pose proof (cdiv_nonneg hit blk Hb ltac:(lia)) as Hc0.
  eexists _, hit, longest. split; [exact E|]. split_and!; try done.
  - by rewrite !length_fmap, length_seq.
  - lia.
  - lia.
  - intros g gid c Hg Hc. pose proof (lookup_lt_Some _ _ _ Hg) as Hgl.
    rewrite !list_lookup_fmap, lookup_seq_lt in Hc by done. injection Hc as <-.
    rewrite py_upto_take by done. split.
    + unfold zlen. rewrite length_take, column_length by done. unfold zlen in F4. lia.
    + apply rows_cached_at; [done|done|]. intros i row _. apply F5.
Qed.

End Hits.

(** ** Witnesses *)

Lemma demo_gids_ok : Forall (fun g => 0 <= g < 2 ^ 32) [0].
Proof. repeat constructor; lia. Qed.

Lemma full_hit_correct_witness :
  exists cols, full_find_longest_cache_hit (RawHashes (block_hashes demo_tokens)) 5 [0]
    (mkSpec 2 FullAttentionSpec) false 2 1 demo_cached.1 = Ok (cols, 4) demo_cached.1 /\ length cols = 1%nat.
Proof.
  destruct (full_hit_correct demo_cached.1 [3; 4]%nat [0] demo_cached_wf demo_gids_ok ltac:(discriminate)
    (RawHashes (block_hashes demo_tokens)) 5 (mkSpec 2 FullAttentionSpec) false 2 1
    (RawHashes (block_hashes demo_tokens)) (block_hashes demo_tokens)
    eq_refl eq_refl eq_refl ltac:(discriminate) eq_refl)
    as (cols & hit & E & Hl & _); [vm_compute; reflexivity|vm_compute; reflexivity|].
  exists cols. split; [|exact Hl]. rewrite E. f_equal. f_equal.
  assert ((fun r => match r with Ok (_, h) _ => h | _ => 0 end)
    (full_find_longest_cache_hit (RawHashes (block_hashes demo_tokens)) 5 [0]
      (mkSpec 2 FullAttentionSpec) false 2 1 demo_cached.1) = 4) as Hh by (vm_compute; reflexivity).
  rewrite E in Hh. exact Hh.
Defined.

Lemma full_partial_hit_correct_witness :
  exists cols hit, full_find_longest_cache_hit (RawHashes (block_hashes demo_tokens)) 5 [0]
    (mkSpec 4 FullAttentionSpec) true 2 1 demo_cached.1 = Ok (cols, hit) demo_cached.1 /\ hit mod 2 = 0.
Proof.
  destruct (full_partial_hit_correct demo_cached.1 [3; 4]%nat [0] demo_cached_wf demo_gids_ok ltac:(discriminate)
    (block_hashes demo_tokens) 5 (mkSpec 4 FullAttentionSpec) true 2 1
    (RawHashes (block_hashes demo_tokens))
    eq_refl eq_refl eq_refl eq_refl ltac:(discriminate))
    as (cols & hit & longest & E & _ & _ & Hm & _); [vm_compute; reflexivity|].
  exists cols, hit. split; [exact E|exact Hm].
Defined.
