(* ===== verification/ManagerWindow.v ===== *)
(** * Correctness of the sliding-window and chunked-local prefix-cache searches

    [SlidingWindowManager.find_longest_cache_hit] looks for a run of cached
    blocks as long as the window needs, from the right; the blocks left of the
    run are the null block.  [ChunkedLocalAttentionManager] needs the blocks of
    the current chunk only. *)
From Stdlib Require Import ZArith QArith Lia.
From stdpp Require Import base tactics gmap strings numbers option list.
From S2P Require Import Prelude Blocks FreeQueue Request Hashing BlockMap Env Metrics.
From S2P Require Import BlockPool BlockPoolInv BlockPoolCache BlockPoolAlloc BlockPoolFull BlockPoolSpec.
From S2P Require Import Managers ManagerHits.

Local Open Scope Z_scope.

Section Hits.
Context `{Env}.
Context (p : BlockPool) (free : list loc) (gids : list Z).
Hypothesis Hwf : pool_wf p free.
Hypothesis Hgids : Forall (fun g => 0 <= g < 2 ^ 32) gids.
Hypothesis Hne : gids <> [].
#[local] Abbreviation look := (look p gids).

(** ** Sliding windows *)

Section Window.
Variables (v : BlockHashList) (blk align need : Z) (eagle : bool) (N : nat).
Hypothesis Hneed : 0 < need.
Hypothesis Hview : forall i, (i < N)%nat -> is_Some (bh_index v (Z.of_nat i)).

Definition cached_block (j : nat) : Prop :=
  exists h row, bh_index v (Z.of_nat j) = Some h /\ look h = Some row.

(** Position [j] of every column holds the block cached for its group. *)
Definition filled (cs : list (list loc)) (j : nat) : Prop :=
  exists h row, bh_index v (Z.of_nat j) = Some h /\ look h = Some row /\
    forall g c, cs !! g = Some c -> c !! j = row !! g.

(** A hit of [e] blocks may end here (one more block is matched with EAGLE). *)
Definition edge_ok (e : Z) : Prop :=
  blk = align \/ ((if eagle then e - 1 else e) * blk) mod align = 0.

#[local] Instance edge_ok_dec e : Decision (edge_ok e).
Proof. unfold edge_ok. apply _. Defined.

(** Before index [i] is examined, with a run of [c] blocks from [i] on. *)
Record sw_inv (i : nat) (c : Z) (cs : list (list loc)) : Prop := {
  sw_cols : length cs = length gids /\ Forall (fun col => length col = N) cs;
  sw_range : 0 <= c < need /\ Z.of_nat i + c <= Z.of_nat N;
  sw_run : forall j, (i <= j)%nat -> Z.of_nat j < Z.of_nat i + c -> filled cs j;
  sw_null : forall g col j, cs !! g = Some col -> (j < i)%nat -> col !! j = Some (null_block p);
  sw_edge : 0 < c -> edge_ok (Z.of_nat i + c);
  sw_none : forall e, Z.of_nat i + c < e <= Z.of_nat N -> edge_ok e ->
    exists j, (i <= j)%nat /\ e - need <= Z.of_nat j < e /\ ~ cached_block j
}.

(** The answer of the search. *)
Record sw_answer (cs : list (list loc)) (c : Z) (found : bool) (e : Z) : Prop := {
  sa_cols : length cs = length gids /\ Forall (fun col => zlen col = if found then e else Z.of_nat N) cs;
  sa_range : 0 <= e <= Z.of_nat N /\ (if found then need <= e else e = c /\ c < need);
  sa_run : forall j, e - need <= Z.of_nat j < e -> filled cs j;
  sa_null : forall g col j, cs !! g = Some col -> Z.of_nat j < e ->
    filled cs j \/ col !! j = Some (null_block p);
  sa_edge : 0 < e -> edge_ok e;
  sa_max : forall e', e < e' <= Z.of_nat N -> edge_ok e' ->
    exists j, e' - need <= Z.of_nat j < e' /\ ~ cached_block j
}.

Lemma range_down_S i :
  py_range_down (Z.of_nat (S i) - 1) (-1) = Z.of_nat i :: py_range_down (Z.of_nat i - 1) (-1).
Proof.
  unfold py_range_down. replace (Z.of_nat (S i) - 1 - -1) with (Z.of_nat (S i)) by lia.
  replace (Z.of_nat i - 1 - -1) with (Z.of_nat i) by lia.
  rewrite seqZ_cons by lia. rewrite fmap_cons. f_equal; [lia|].
  replace (Z.pred (Z.of_nat (S i))) with (Z.of_nat i) by lia.
  apply list_eq. intros k. rewrite !list_lookup_fmap.
  destruct (decide (k < i)%nat) as [Hk|Hk].
  - rewrite (proj2 (lookup_seqZ _ _ k (1 + Z.of_nat k))), (proj2 (lookup_seqZ _ _ k (Z.of_nat k))) by lia.
    cbn. f_equal. lia.
  - rewrite !lookup_seqZ_ge by lia. done.
Qed.

(** Writing the cached blocks at index [i]. *)
Definition put_row (i : nat) (cs : list (list loc)) (row : list loc) : list (list loc) :=
  zip_with (fun l b => <[i := b]> l) cs row.

Lemma put_row_lookup i cs row g col :
  length row = length cs -> put_row i cs row !! g = Some col <->
  exists l b, cs !! g = Some l /\ row !! g = Some b /\ col = <[i := b]> l.
Proof.
  intros Hl. unfold put_row. rewrite lookup_zip_with. split.
  - destruct (cs !! g) as [l|]; cbn; [|done]. destruct (row !! g) as [b|]; cbn; [|done].
    intros [= <-]. by exists l, b.
  - intros (l & b & -> & E & ->). cbn. by rewrite E.
Qed.

Lemma put_row_cols i cs row (P : nat -> Prop) :
  length row = length gids -> length cs = length gids -> Forall (fun col => P (length col)) cs ->
  length (put_row i cs row) = length gids /\ Forall (fun col => P (length col)) (put_row i cs row).
Proof.
  intros Hr Hc Hf. split; [unfold put_row; rewrite length_zip_with; lia|].
  apply Forall_lookup. intros g col (l & b & El & _ & ->)%put_row_lookup; [|lia].
  rewrite length_insert. by eapply Forall_lookup_1 in Hf.
Qed.

Lemma put_row_other i j cs row :
  length row = length cs -> i <> j -> filled cs j -> filled (put_row i cs row) j.
Proof.
  intros Hl Hij (h & r & Hh & Hr & Hf). exists h, r. split_and!; [done|done|].
  intros g col (l & b & El & _ & ->)%put_row_lookup; [|done].
  rewrite list_lookup_insert_ne by done. by apply Hf.
Qed.

Lemma put_row_here i cs row h :
  (i < N)%nat -> length row = length cs -> Forall (fun col => length col = N) cs ->
  bh_index v (Z.of_nat i) = Some h -> look h = Some row -> filled (put_row i cs row) i.
Proof.
  intros Hi Hl Hf Hh Hr. exists h, row. split_and!; [done|done|].
  intros g col (l & b & El & Eb & ->)%put_row_lookup; [|done].
  eapply Forall_lookup_1 in Hf; [|exact El]. cbn in Hf. rewrite Eb.
  apply list_lookup_insert_eq. lia.
Qed.
(** Writing at [i] leaves the positions left of [i] null. *)
Lemma put_row_null i cs row :
  length row = length cs ->
  (forall g col j, cs !! g = Some col -> (j < S i)%nat -> col !! j = Some (null_block p)) ->
  forall g col j, put_row i cs row !! g = Some col -> (j < i)%nat -> col !! j = Some (null_block p).
Proof.
  intros Hl Hn g col j (l & b & El & _ & ->)%put_row_lookup Hj; [|done].
  rewrite list_lookup_insert_ne by lia. eapply Hn; [done|lia].
Qed.

Lemma cached_block_look j h : bh_index v (Z.of_nat j) = Some h -> look h = None -> ~ cached_block j.
Proof. intros Hh Hl (h' & row & Hh' & Hr). congruence. Qed.

(** A miss at [i] rules out every window over it and starts a new run. *)
Lemma sw_inv_miss i c cs h :
  sw_inv (S i) c cs -> bh_index v (Z.of_nat i) = Some h -> look h = None -> sw_inv i 0 cs.
Proof.
  intros [Hc [Hr1 Hr2] Hrun Hn He Hno] Hh Hl. constructor; [done|lia|lia| |lia|].
  - intros g col j Hg Hj. eapply Hn; [done|lia].
  - intros e Hee Hok. destruct (Z.le_gt_cases e (Z.of_nat (S i) + c)) as [Hle|Hgt].
    + exists i. split_and!; [lia|lia|lia|]. by eapply cached_block_look.
    + destruct (Hno e) as (j & ? & ? & ?); [lia|done|]. exists j. split_and!; [lia|lia|lia|done].
Qed.

(** A cached block on which no hit may end is passed over. *)
Lemma sw_inv_skip i cs : sw_inv (S i) 0 cs -> ~ edge_ok (Z.of_nat i + 1) -> sw_inv i 0 cs.
Proof.
  intros [Hc [Hr1 Hr2] Hrun Hn He Hno] Hnok. constructor; [done|lia|lia| |lia|].
  - intros g col j Hg Hj. eapply Hn; [done|lia].
  - intros e Hee Hok. destruct (decide (e = Z.of_nat i + 1)) as [->|]; [done|].
    destruct (Hno e) as (j & ? & ? & ?); [lia|done|]. exists j. split_and!; [lia|lia|lia|done].
Qed.

(** The facts about the extended run, whether or not it is long enough. *)
Lemma sw_put_run i c cs row h :
  sw_inv (S i) c cs -> bh_index v (Z.of_nat i) = Some h -> look h = Some row ->
  (c = 0 -> edge_ok (Z.of_nat i + 1)) ->
  let cs' := put_row i cs row in
  (length cs' = length gids /\ Forall (fun col => length col = N) cs') /\
  (forall j, (i <= j)%nat -> Z.of_nat j < Z.of_nat i + (c + 1) -> filled cs' j) /\
  (forall g col j, cs' !! g = Some col -> (j < i)%nat -> col !! j = Some (null_block p)) /\
  edge_ok (Z.of_nat i + (c + 1)).
Proof.
  intros [[Hc1 Hc2] [Hr1 Hr2] Hrun Hn He Hno] Hh Hl Hedge cs'.
  pose proof (look_length p gids h row Hl) as Hrl. split_and!.
  - by apply (put_row_cols i cs row (fun n => n = N)).
  - by apply (put_row_cols i cs row (fun n => n = N)).
  - intros j Hij Hj. destruct (decide (j = i)) as [->|Hne'].
    + eapply put_row_here; [lia|lia|done..].
    + apply put_row_other; [lia|lia|]. apply Hrun; lia.
  - apply put_row_null; [lia|done].
  - destruct (decide (c = 0)) as [->|]; [by apply Hedge|].
    replace (Z.of_nat i + (c + 1)) with (Z.of_nat (S i) + c) by lia. apply He. lia.
Qed.

Lemma sw_inv_put i c cs row h :
  sw_inv (S i) c cs -> bh_index v (Z.of_nat i) = Some h -> look h = Some row ->
  (c = 0 -> edge_ok (Z.of_nat i + 1)) -> c + 1 < need -> sw_inv i (c + 1) (put_row i cs row).
Proof.
  intros Hi Hh Hl Hedge Hlt. destruct (sw_put_run i c cs row h Hi Hh Hl Hedge) as (H1 & H2 & H3 & H4).
  destruct Hi as [Hc [Hr1 Hr2] _ _ _ Hno]. constructor; [done|lia|done|done|done|].
  intros e He Hok. destruct (Hno e) as (j & ? & ? & ?); [lia|done|].
  exists j. split_and!; [lia|lia|lia|done].
Qed.

(** Cutting the columns keeps the positions before the cut. *)
Definition cut (n : Z) (cs : list (list loc)) : list (list loc) :=
  (fun l => take (Z.to_nat n) l) <$> cs.

Lemma cut_lookup n cs g col :
  cut n cs !! g = Some col <-> exists l, cs !! g = Some l /\ col = take (Z.to_nat n) l.
Proof.
  unfold cut. rewrite list_lookup_fmap_Some. split; intros (l & ? & ?); by exists l.
Qed.

Lemma cut_filled n cs j : Z.of_nat j < n -> filled cs j -> filled (cut n cs) j.
Proof.
  intros Hj (h & r & Hh & Hr & Hf). exists h, r. split_and!; [done|done|].
  intros g col (l & El & ->)%cut_lookup. rewrite lookup_take_lt by lia. by apply Hf.
Qed.

Lemma cut_cols n cs m :
  0 <= n <= m -> length cs = length gids -> Forall (fun col => zlen col = m) cs ->
  length (cut n cs) = length gids /\ Forall (fun col => zlen col = n) (cut n cs).
Proof.
  intros Hn Hl Hf. split; [unfold cut; by rewrite length_fmap|].
  apply Forall_lookup. intros g col (l & El & ->)%cut_lookup.
  eapply Forall_lookup_1 in Hf; [|exact El]. unfold zlen in *. rewrite length_take. lia.
Qed.

Lemma sw_answer_put i c cs row h :
  sw_inv (S i) c cs -> bh_index v (Z.of_nat i) = Some h -> look h = Some row ->
  (c = 0 -> edge_ok (Z.of_nat i + 1)) -> need <= c + 1 ->
  sw_answer (cut (Z.of_nat i + (c + 1)) (put_row i cs row)) (c + 1) true (Z.of_nat i + (c + 1)).
Proof.
  intros Hi Hh Hl Hedge Hge. destruct (sw_put_run i c cs row h Hi Hh Hl Hedge) as ((H1 & H1') & H2 & H3 & H4).
  destruct Hi as [Hc [Hr1 Hr2] _ _ _ Hno]. set (e := Z.of_nat i + (c + 1)) in *.
  assert (forall j, (i <= j)%nat -> Z.of_nat j < e -> filled (cut e (put_row i cs row)) j) as Hf
    by (intros j ??; apply cut_filled; [lia|]; apply H2; lia).
  constructor; [|lia| | |done|].
  - apply (cut_cols e _ (Z.of_nat N)); [lia|done|]. eapply Forall_impl; [exact H1'|].
    intros col Hcol. cbn beta iota in *. unfold zlen. lia.
  - intros j Hj. apply Hf; lia.
  - intros g col j Hg Hj. destruct (decide (i <= j)%nat) as [Hij|Hij]; [left; apply Hf; lia|right].
    apply cut_lookup in Hg as (l & El & ->). rewrite lookup_take_lt by lia. apply (H3 g); [done|lia].
  - intros e' He' Hok. destruct (Hno e') as (j & ? & ? & ?); [lia|done|].
    exists j. split_and!; [lia|lia|done].
Qed.

(** The guard of the code is [edge_ok] at the end of the run. *)
Lemma edge_guard i c :
  (c =? 0) && negb (blk =? align) &&
    negb (((if eagle then Z.of_nat i else Z.of_nat i + 1) * blk) mod align =? 0) = true <->
  c = 0 /\ ~ edge_ok (Z.of_nat i + 1).
Proof.
  unfold edge_ok. rewrite !andb_true_iff, !negb_true_iff, Z.eqb_eq, !Z.eqb_neq.
  replace (Z.of_nat i + 1 - 1) with (Z.of_nat i) by lia. tauto.
Qed.

Lemma sw_search_spec i c cs :
  (i <= N)%nat -> sw_inv i c cs ->
  exists cs' c' found e,
    sw_search v gids blk align need eagle (py_range_down (Z.of_nat i - 1) (-1)) cs c p =
      Ok (cs', c', found) p /\ sw_answer cs' c' found e.
Proof.
  revert c cs. induction i as [|i IH]; intros c cs HiN Hi.
  - exists cs, c, false, c. split; [done|]. destruct Hi as [[Hc1 Hc2] [Hr1 Hr2] Hrun Hn He Hno].
    constructor; [|split; [lia|cbv iota; lia]| | | |].
    + split; [done|]. eapply Forall_impl; [exact Hc2|]. intros col Hcol. cbn beta iota in *. unfold zlen. lia.
    + intros j Hj. apply Hrun; lia.
    + intros g col j Hg Hj. left. apply Hrun; lia.
    + intros Hpos. by apply He in Hpos.
    + intros e' He' Hok. destruct (Hno e') as (j & ? & ? & ?); [lia|done|]. by exists j.
  - rewrite range_down_S. cbn [sw_search].
    destruct (Hview i) as [h Hh]; [lia|]. unfold mbind, M_bind. rewrite Hh. cbn [of_option].
    unfold mret, M_ret. rewrite (get_cached_look p free gids Hwf Hgids).
    destruct (look h) as [[|b row]|] eqn:El; [by destruct (look_not_nil p gids Hgids Hne h)| |].
    2: { apply IH; [lia|]. by eapply sw_inv_miss. }
    destruct (_ && _ && _) eqn:Eg.
    { apply edge_guard in Eg as [-> Hg]. apply IH; [lia|]. by apply sw_inv_skip. }
    assert (c = 0 -> edge_ok (Z.of_nat i + 1)) as Hedge.
    { intros ->. destruct (decide (edge_ok (Z.of_nat i + 1))) as [|Hn]; [done|].
      rewrite (proj2 (edge_guard i 0)) in Eg by done. done. }
    rewrite Nat2Z.id. fold (put_row i cs (b :: row)).
    destruct (Z.leb_spec need (c + 1)) as [Hge|Hlt].
    + eexists _, _, _, _. split; [|eapply sw_answer_put; done].
      unfold cut. destruct Hi as [_ [??] _ _ _ _].
      f_equal. f_equal. f_equal. apply list_fmap_ext. intros _ l _. apply py_upto_take. lia.
    + apply IH; [lia|]. by eapply sw_inv_put.
Qed.

(** *** Settling the result *)

Definition aligned (n : Z) : Prop := blk = align \/ (n * blk) mod align = 0.

Lemma edge_aligned e : edge_ok e <-> aligned (if eagle then e - 1 else e).
Proof. done. Qed.

(** All columns have [n] entries. *)
Definition cols_len (n : Z) (cs : list (list loc)) : Prop :=
  length cs = length gids /\ Forall (fun col => zlen col = n) cs.

Lemma cut_cut m n cs : 0 <= m <= n -> cut m (cut n cs) = cut m cs.
Proof.
  intros Hm. unfold cut. rewrite <- list_fmap_compose. apply list_fmap_ext. intros _ l _. cbn.
  rewrite take_take. f_equal. lia.
Qed.

Lemma cut_all n cs : cols_len n cs -> cut n cs = cs.
Proof.
  intros [_ Hf]. unfold cut. rewrite <- (list_fmap_id cs) at 2. apply list_fmap_ext. intros g l El.
  eapply Forall_lookup_1 in Hf; [|exact El]. cbn beta in Hf. apply take_ge. unfold zlen in Hf. unfold id. lia.
Qed.

Lemma removelast_cut n cs :
  cols_len n cs -> 0 < n -> (fun l => removelast l) <$> cs = cut (n - 1) cs.
Proof.
  intros [_ Hf] Hn. unfold cut. apply list_fmap_ext. intros g l El.
  eapply Forall_lookup_1 in Hf; [|exact El]. cbn beta in Hf. rewrite removelast_firstn_len. f_equal. unfold zlen in Hf. lia.
Qed.

Lemma first_len_cols n cs : cols_len n cs -> first_len cs p = Ok n p.
Proof.
  intros [Hl Hf]. destruct gids as [|g gs]; [done|]. destruct cs as [|c cs]; [done|].
  apply Forall_cons in Hf as [<- _]. done.
Qed.

Lemma py_upto_cut n cs : 0 <= n -> (fun l => py_upto l n) <$> cs = cut n cs.
Proof. intros Hn. apply list_fmap_ext. intros _ l _. by apply py_upto_take. Qed.

(** Popping stops at the largest aligned length. *)
Lemma pop_unaligned_spec n cs :
  cols_len (Z.of_nat n) cs ->
  exists k, pop_unaligned n blk align cs = cut k cs /\ 0 <= k <= Z.of_nat n /\ aligned k /\
    forall m, k < m <= Z.of_nat n -> ~ aligned m.
Proof.
  revert cs. induction n as [|n IH]; intros cs Hc; cbn [pop_unaligned].
  - exists 0. rewrite cut_all by done. split_and!; [done..| |lia]. right. by rewrite Z.mul_0_l, Zmod_0_l.
  - destruct (negb _ && negb _) eqn:E.
    + rewrite (removelast_cut (Z.of_nat (S n))) by (done || lia).
      replace (Z.of_nat (S n) - 1) with (Z.of_nat n) by lia.
      destruct Hc as [Hl Hf]. destruct (IH (cut (Z.of_nat n) cs)) as (k & -> & Hk & Ha & Hm).
      { by apply (cut_cols _ _ (Z.of_nat (S n))); [lia|..]. }
      exists k. rewrite cut_cut by lia. split_and!; [done|lia|lia|done|].
      intros m Hmk. destruct (decide (m = Z.of_nat (S n))) as [->|]; [|apply Hm; lia].
      rewrite andb_true_iff, !negb_true_iff, !Z.eqb_neq in E. unfold aligned. tauto.
    + exists (Z.of_nat (S n)). rewrite cut_all by done. split_and!; [done|lia|lia| |lia].
      rewrite andb_false_iff, !negb_false_iff, !Z.eqb_eq in E. exact E.
Qed.

Lemma pop_until_aligned_spec n cs :
  0 <= n -> cols_len n cs ->
  exists k, pop_until_aligned blk align cs p = Ok (cut k cs) p /\ 0 <= k <= n /\ aligned k /\
    forall m, k < m <= n -> ~ aligned m.
Proof.
  intros Hn Hc. unfold pop_until_aligned, mbind, M_bind. rewrite (first_len_cols n cs) by done.
  destruct (pop_unaligned_spec (Z.to_nat n) cs) as (k & -> & Hk & Ha & Hm); [by rewrite Z2Nat.id|].
  rewrite Z2Nat.id in * by done. by exists k.
Qed.

(** The columns after the first settling step, [n] blocks each: either a run as
    long as the window needs ends there, or all blocks are cached. *)
Record sw_settled (cs : list (list loc)) (n : Z) : Prop := {
  st_cols : cols_len n cs;
  st_range : 0 <= n <= Z.of_nat N;
  st_tail : forall j, n - need <= Z.of_nat j < n -> filled cs j;
  st_null : forall g col j, cs !! g = Some col -> Z.of_nat j < n ->
    filled cs j \/ col !! j = Some (null_block p);
  st_end : (need <= n /\ edge_ok n) \/ (n < need /\ aligned n);
  st_max : eagle = false -> forall m, n < m <= Z.of_nat N -> aligned m ->
    exists j, m - need <= Z.of_nat j < m /\ ~ cached_block j
}.

Lemma sw_settle cs c found e :
  sw_answer cs c found e ->
  exists cs' n, (if found then mret cs else pop_until_aligned blk align ((fun l => py_upto l c) <$> cs)) p =
    Ok cs' p /\ sw_settled cs' n.
Proof.
  intros [[Hl Hf] [Hr Hfnd] Hrun Hn He Hm]. destruct found.
  - exists cs, e. split; [done|]. constructor; [done|done|done|done| |].
    + left. split; [lia|]. apply He. lia.
    + intros Hef m Hmr Ha. apply Hm; [lia|]. rewrite edge_aligned, Hef. done.
  - destruct Hfnd as [-> Hc]. rewrite py_upto_cut by lia.
    destruct (cut_cols c cs (Z.of_nat N) Hr Hl Hf) as [Hl' Hf'].
    destruct (pop_until_aligned_spec c (cut c cs)) as (k & -> & Hk & Ha & Hmx); [lia|done|].
    exists (cut k (cut c cs)), k. split; [done|].
    assert (forall j, Z.of_nat j < k -> filled (cut k (cut c cs)) j) as Hfill.
    { intros j Hj. apply cut_filled; [done|]. apply cut_filled; [lia|]. apply Hrun. lia. }
    constructor; [|lia| | | |].
    + by apply (cut_cols _ _ c).
    + intros j Hj. apply Hfill. lia.
    + intros g col j _ Hj. left. by apply Hfill.
    + right. split; [lia|done].
    + intros Hef m Hmr Hma. destruct (Z.le_gt_cases m c) as [Hmc|Hmc].
      * exfalso. apply (Hmx m); [lia|done].
      * apply Hm; [lia|]. rewrite edge_aligned, Hef. done.
Qed.

(** The final answer, [n] blocks: [tail] of them before its end are cached. *)
Record sw_hit (tail : Z) (cs : list (list loc)) (n : Z) : Prop := {
  sh_cols : cols_len n cs;
  sh_range : 0 <= n <= Z.of_nat N;
  sh_aligned : aligned n;
  sh_tail : forall j, n - tail <= Z.of_nat j < n -> filled cs j;
  sh_null : forall g col j, cs !! g = Some col -> Z.of_nat j < n ->
    filled cs j \/ col !! j = Some (null_block p);
  sh_peek : eagle = true -> 0 < n -> n < Z.of_nat N /\ cached_block (Z.to_nat n);
  sh_max : eagle = false -> forall m, n < m <= Z.of_nat N -> aligned m ->
    exists j, m - need <= Z.of_nat j < m /\ ~ cached_block j
}.

Lemma filled_cached cs j : filled cs j -> cached_block j.
Proof. intros (h & row & ? & ? & _). by exists h, row. Qed.

Lemma sw_finish tail cs n :
  sw_settled cs n -> 0 <= tail -> need = tail + (if eagle then 1 else 0) ->
  exists cs' n', (if eagle && (0 <? n)
    then pop_until_aligned blk align ((fun l => removelast l) <$> cs) else mret cs) p = Ok cs' p /\
    sw_hit tail cs' n'.
Proof.
  intros [Hc Hr Ht Hn He Hm] Htail Hnd. destruct eagle eqn:Ee; cbn [andb].
  2: { exists cs, n. split; [done|]. constructor; [done|done| |intros; apply Ht; lia|done|congruence|].
       - destruct He as [[_ He]|[_ He]]; [|done]. rewrite edge_aligned, Ee in He. done.
       - intros _. by apply Hm. }
  destruct (Z.ltb_spec 0 n) as [Hpos|Hz].
  2: { assert (n = 0) as -> by lia. exists cs, 0. split; [done|].
       constructor; [done|done| |intros; lia|intros; lia|intros; lia|congruence].
       right. by rewrite Z.mul_0_l, Zmod_0_l. }
  rewrite (removelast_cut n) by done. destruct Hc as [Hl Hf].
  destruct (cut_cols (n - 1) cs n) as [Hl' Hf']; [lia|done|done|].
  destruct (pop_until_aligned_spec (n - 1) (cut (n - 1) cs)) as (k & -> & Hk & Ha & Hmx); [lia|done|].
  rewrite cut_cut by lia. exists (cut k cs), k. split; [done|].
  assert ((forall j, k - tail <= Z.of_nat j <= k -> filled cs j)) as Hfill.
  { intros j Hj. destruct He as [[Hge He]|[Hlt _]]; [|apply Ht; lia].
    assert (k = n - 1) as ->; [|apply Ht; lia].
    rewrite edge_aligned, Ee in He.
    destruct (decide (k = n - 1)) as [|Hne']; [done|]. exfalso. apply (Hmx (n - 1)); [lia|done]. }
  constructor; [|lia|done| | | |congruence].
  - apply (cut_cols _ _ n); [lia|done|done].
  - intros j Hj. apply cut_filled; [lia|]. apply Hfill. lia.
  - intros g col j (l & El & ->)%cut_lookup Hj. rewrite lookup_take_lt by lia.
    destruct (Hn g l j El) as [?|?]; [lia| |by right]. left. by apply cut_filled.
  - intros _ Hk0. split; [lia|]. eapply filled_cached, Hfill. lia.
Qed.

Lemma sw_inv_start : sw_inv N 0 (replicate (length gids) (replicate N (null_block p))).
Proof.
  constructor; [|lia|lia| |lia|lia].
  - split; [apply length_replicate|]. apply Forall_replicate, length_replicate.
  - intros g col j [-> _]%lookup_replicate Hj. by apply lookup_replicate_2.
Qed.

End Window.

(** Block [b] is cached for group [gid] under the hash of block [i]. *)
Definition cached_for (v : BlockHashList) (gid : Z) (i : nat) (b : loc) : Prop :=
  exists h k, bh_index v (Z.of_nat i) = Some h /\ group_key h gid = Some k /\
    b ∈ blocks p /\ b <> null_block p /\ owned p b k.

Lemma filled_cached_for v cs g gid col j :
  filled v cs j -> gids !! g = Some gid -> cs !! g = Some col ->
  exists b, col !! j = Some b /\ cached_for v gid j b.
Proof.
  intros (h & row & Hh & Hl & Hf) Hg Hc.
  destruct (lookup_lt_is_Some_2 row g) as [b Hb].
  { rewrite (look_length p gids h row Hl). by eapply lookup_lt_Some. }
  exists b. rewrite (Hf g col Hc). split; [done|].
  destruct (look_owned p free gids Hwf h row g gid b Hl Hg Hb) as (k & ? & ? & ? & ?).
  by exists h, k.
Qed.

Lemma window_search_spec bhl max_length spec w extra eagle align v :
  spec_kind spec = SlidingWindowSpec w extra -> 1 < w -> 0 < spec_block_size spec -> 0 <= max_length ->
  resolve_block_hashes bhl (hash_block_size p) (spec_block_size spec) false (Some align) = Some v ->
  (forall i, (i < Z.to_nat (max_length / spec_block_size spec))%nat -> is_Some (bh_index v (Z.of_nat i))) ->
  let blk := spec_block_size spec in
  exists cs n,
    sw_find_longest_cache_hit bhl max_length gids spec eagle align 1 1 p = Ok (cs, n * blk) p /\
    sw_hit v blk align (contiguous_blocks_for_hit w blk eagle) eagle (Z.to_nat (max_length / blk))
      (cdiv (w - 1) blk) cs n.
Proof.
  intros Hs Hw Hb Hm Hres Hview blk. unfold sw_find_longest_cache_hit. rewrite Hs. fold blk.
  set (need := contiguous_blocks_for_hit w blk eagle). set (N := Z.to_nat (max_length / blk)).
  pose proof (Z.div_pos max_length blk Hm Hb) as Hq.
  pose proof (cdiv_spec (w - 1) blk Hb) as Hcd. pose proof (cdiv_nonneg (w - 1) blk Hb ltac:(lia)) as Hc0.
  assert (0 < need) as Hneed.
  { unfold need, contiguous_blocks_for_hit. destruct eagle; nia. }
  assert (need = cdiv (w - 1) blk + (if eagle then 1 else 0)) as Hnd.
  { unfold need, contiguous_blocks_for_hit. destruct eagle; lia. }
  destruct (sw_search_spec v blk align need eagle N Hneed Hview N 0 _ (le_n _)
    (sw_inv_start v blk align need eagle N Hneed)) as (cs1 & c & found & e & E1 & A1).
  destruct (sw_settle v blk align need eagle N Hneed cs1 c found e A1) as (cs2 & n2 & E2 & A2).
  destruct (sw_finish v blk align need eagle N Hneed (cdiv (w - 1) blk) cs2 n2 A2 Hc0 Hnd)
    as (cs3 & n3 & E3 & A3).
  exists cs3, n3. split; [|exact A3].
  unfold mbind at 1, M_bind at 1, of_option at 1, mret at 1, M_ret at 1.
  do 2 (unfold mbind at 1, M_bind at 1, assert_ at 1; cbn [Z.eqb Pos.eqb]; unfold mret at 1, M_ret at 1).
  unfold mbind at 1, M_bind at 1, gets at 1. unfold mbind at 1, M_bind at 1, of_option at 1.
  fold blk in Hres. rewrite Hres. unfold mret at 1, M_ret at 1.
  unfold mbind at 1, M_bind at 1, gets at 1. unfold mbind at 1, M_bind at 1.
  fold need. replace (max_length / blk - 1) with (Z.of_nat N - 1) by lia. rewrite E1.
  unfold mbind at 1, M_bind at 1. rewrite E2.
  unfold mbind at 1, M_bind at 1. rewrite (first_len_cols n2 cs2) by apply A2.
  unfold mbind at 1, M_bind at 1. rewrite E3.
  unfold mbind at 1, M_bind at 1. rewrite (first_len_cols n3 cs3) by apply A3. done.
Qed.

(** C31.  Sliding windows: the search reads the pool without changing it and
    raises nothing.  Its answer of [n] blocks is aligned and within the limit;
    all blocks the window of the next token reaches (the last
    [cdiv (w - 1) block_size]) are cached for their group, every other returned
    block is the null block or cached; with EAGLE the block after the hit is
    cached too (it is left to recompute); without EAGLE no longer aligned prefix
    has its whole window cached. *)
Theorem window_hit_correct bhl max_length spec w extra eagle align v :
  spec_kind spec = SlidingWindowSpec w extra -> 1 < w -> 0 < spec_block_size spec -> 0 <= max_length ->
  resolve_block_hashes bhl (hash_block_size p) (spec_block_size spec) false (Some align) = Some v ->
  (forall i, (i < Z.to_nat (max_length / spec_block_size spec))%nat -> is_Some (bh_index v (Z.of_nat i))) ->
  let blk := spec_block_size spec in
  exists cs n,
    sw_find_longest_cache_hit bhl max_length gids spec eagle align 1 1 p = Ok (cs, n * blk) p /\
    length cs = length gids /\ 0 <= n * blk <= max_length /\ (n * blk) mod align = 0 /\
    (forall g gid col, gids !! g = Some gid -> cs !! g = Some col ->
       zlen col = n /\
       (forall i, n - cdiv (w - 1) blk <= Z.of_nat i < n -> exists b, col !! i = Some b /\ cached_for v gid i b) /\
       (forall i b, col !! i = Some b -> b = null_block p \/ cached_for v gid i b)) /\
    (eagle = true -> 0 < n -> cached_block v (Z.to_nat n)) /\
    (eagle = false -> forall m, 0 <= m * blk <= max_length -> (m * blk) mod align = 0 ->
       (forall j, m - cdiv (w - 1) blk <= Z.of_nat j < m -> cached_block v j) -> m <= n).
Proof.
  intros Hs Hw Hb Hm Hres Hview blk.
  destruct (window_search_spec bhl max_length spec w extra eagle align v Hs Hw Hb Hm Hres Hview)
    as (cs & n & E & [[Hl Hf] Hr Ha Ht Hn Hp Hmax]).
  fold blk in E, Hr, Ha, Ht, Hp, Hmax. pose proof (Z.mul_div_le max_length blk Hb).
  pose proof (Z.div_pos max_length blk Hm Hb).
  exists cs, n. split; [exact E|]. split_and!; [done|nia|nia| | |intros; by apply Hp|].
  - destruct Ha as [<-|Ha]; [apply Z.mod_mul; lia|done].
  - intros g gid col Hg Hc. eapply Forall_lookup_1 in Hf; [|exact Hc]. cbn beta in Hf. split_and!; [done| |].
    + intros i Hi. eapply filled_cached_for; [by apply Ht|done..].
    + intros i b Hi. pose proof (lookup_lt_Some _ _ _ Hi) as Hlt.
      destruct (Hn g col i Hc) as [Hfill|Hnull]; [unfold zlen in Hf; lia| |left; congruence].
      right. destruct (filled_cached_for v cs g gid col i Hfill Hg Hc) as (b' & ? & ?). congruence.
  - intros He m Hmr Hma Hall. destruct (Z.le_gt_cases m n) as [|Hgt]; [done|].
    destruct (Hmax He m) as (j & Hj & Hnc); [|by right|].
    + split; [lia|]. rewrite Z2Nat.id by done. apply Z.div_le_lower_bound; lia.
    + exfalso. apply Hnc, Hall. unfold contiguous_blocks_for_hit in Hj. rewrite He in Hj. lia.
Qed.

(** ** Chunked local attention *)

Lemma chunk_run_spec v s n cs :
  0 <= s -> (forall i, s <= i < s + Z.of_nat n -> is_Some (bh_index v i)) ->
  exists rows, chunk_run v (py_range s (s + Z.of_nat n)) gids cs p = Ok (foldl append_each cs rows) p /\
    full_rows gids rows /\ zlen rows <= Z.of_nat n /\
    (forall i row, rows !! i = Some row ->
       exists h, bh_index v (s + Z.of_nat i) = Some h /\ look h = Some row) /\
    (zlen rows < Z.of_nat n -> ~ cached_block v (Z.to_nat (s + zlen rows))).
Proof.
  revert s cs. induction n as [|n IH]; intros s cs Hs Hv.
  - exists []. unfold py_range. rewrite seqZ_nil by lia.
    split_and!; [done|constructor|done|done|unfold zlen; cbn; lia].
  - unfold py_range. rewrite seqZ_cons by lia. cbn [chunk_run].
    destruct (Hv s) as [h Hh]; [lia|]. unfold mbind, M_bind. rewrite Hh. cbn [of_option].
    unfold mret, M_ret. rewrite (get_cached_look p free gids Hwf Hgids).
    destruct (look h) as [[|b row]|] eqn:El; [by destruct (look_not_nil p gids Hgids Hne h)| |].
    + destruct (IH (Z.succ s) (append_each cs (b :: row))) as (rows & E & Hf & Hl & Hr & Hn);
        [lia|intros; apply Hv; lia|].
      exists ((b :: row) :: rows). unfold py_range in E.
      replace (Z.pred (s + Z.of_nat (S n) - s)) with (Z.succ s + Z.of_nat n - Z.succ s) by lia.
      split_and!.
      * exact E.
      * constructor; [by eapply look_length|done].
      * rewrite zlen_cons. lia.
      * intros [|i] r; cbn [lookup list_lookup]; [|intros (h' & ? & ?)%Hr].
        -- intros [= <-]. exists h. by rewrite Z.add_0_r.
        -- exists h'. split; [|done]. by replace (s + Z.of_nat (S i)) with (Z.succ s + Z.of_nat i) by lia.
      * rewrite zlen_cons. intros Hlt.
        replace (s + (zlen rows + 1)) with (Z.succ s + zlen rows) by lia. apply Hn. lia.
    + exists []. split_and!; [done|constructor|unfold zlen; cbn; lia|done|].
      intros _. change (zlen []) with 0. rewrite Z.add_0_r.
      intros (h' & row & Hh' & Hrow). rewrite Z2Nat.id in Hh' by done. congruence.
Qed.

Lemma chunk_start_aligned n c blk :
  0 < blk -> c mod blk = 0 -> n / c * c / blk * blk = n / c * c.
Proof.
  intros Hb [q ->]%Z.mod_divide; [|lia]. rewrite Z.mul_assoc, Z.div_mul by lia. done.
Qed.

(** The answer of the search: [n] blocks, null before the chunk of the limit. *)
Record chunk_hit (v : BlockHashList) (start limit : Z) (cs : list (list loc)) (n : Z) : Prop := {
  ch_len : length cs = length gids;
  ch_range : start <= n <= limit;
  ch_cols : forall g gid col, gids !! g = Some gid -> cs !! g = Some col ->
    zlen col = n /\ forall i b, col !! i = Some b ->
      if Z.of_nat i <? start then b = null_block p else cached_for v gid i b;
  ch_stop : n < limit -> ~ cached_block v (Z.to_nat n)
}.

(** The columns after the run: nulls, then the rows found. *)
Lemma chunk_columns v start rows :
  0 <= start -> full_rows gids rows ->
  (forall i row, rows !! i = Some row ->
     exists h, bh_index v (start + Z.of_nat i) = Some h /\ look h = Some row) ->
  let cs := foldl append_each (replicate (length gids) (replicate (Z.to_nat start) (null_block p))) rows in
  length cs = length gids /\
  (forall g gid col, gids !! g = Some gid -> cs !! g = Some col ->
     zlen col = start + zlen rows /\ forall i b, col !! i = Some b ->
       if Z.of_nat i <? start then b = null_block p else cached_for v gid i b).
Proof.
  intros Hs Hf Hr cs.
  assert (forall g gid, gids !! g = Some gid ->
    cs !! g = Some (replicate (Z.to_nat start) (null_block p) ++ column rows g) /\
    length cs = length gids) as Hcols.
  { intros g gid Hg. apply append_rows; [done|apply length_replicate|].
    apply lookup_replicate_2. by eapply lookup_lt_Some. }
  split.
  { assert (exists g0, gids !! 0%nat = Some g0) as [g0 H0] by (destruct gids; [done|by eexists]).
    by destruct (Hcols 0%nat g0 H0). }
  intros g gid col Hg Hcol. destruct (Hcols g gid Hg) as [Hc' _].
  rewrite Hc' in Hcol. injection Hcol as <-. split.
  - rewrite zlen_app. unfold zlen. rewrite length_replicate.
    rewrite (column_length gids) by (done || by eapply lookup_lt_Some). lia.
  - intros i b Hib. apply lookup_app_Some in Hib as [Hib|[Hge Hib]].
    + apply lookup_replicate in Hib as [-> Hlt]. by rewrite (proj2 (Z.ltb_lt _ _)) by lia.
    + rewrite length_replicate in Hge, Hib. rewrite (proj2 (Z.ltb_ge _ _)) by lia.
      apply (column_lookup gids) in Hib as (row & Hrow & Hrb); [|done|by eapply lookup_lt_Some].
      destruct (Hr _ _ Hrow) as (h & Hh & Hlk).
      destruct (look_owned p free gids Hwf h row g gid b Hlk Hg Hrb) as (k & ? & ? & ? & ?).
      exists h, k. split; [|done]. rewrite <- Hh. f_equal. lia.
Qed.

Lemma first_len_known cs n :
  length cs = length gids -> (forall g gid col, gids !! g = Some gid -> cs !! g = Some col -> zlen col = n) ->
  first_len cs p = Ok n p.
Proof.
  intros Hl Hc. destruct gids as [|g0 gs]; [done|]. destruct cs as [|c cs]; [done|].
  unfold first_len, mbind, M_bind. cbn. by rewrite (Hc 0%nat g0 c).
Qed.

Lemma chunk_start_bounds max_length c blk :
  0 < c -> 0 < blk -> 0 <= max_length -> 0 <= max_length / c * c / blk <= max_length / blk.
Proof.
  intros Hc Hb Hm. pose proof (Z.mul_div_le max_length c Hc). pose proof (Z.div_pos max_length c Hm Hc).
  split; [apply Z.div_pos; nia|]. apply Z.div_le_mono; lia.
Qed.

Lemma chunked_search_spec bhl max_length spec c v :
  spec_kind spec = ChunkedLocalAttentionSpec c -> 0 < c -> 0 < spec_block_size spec -> 0 <= max_length ->
  resolve_block_hashes bhl (hash_block_size p) (spec_block_size spec) false
    (Some (spec_block_size spec)) = Some v ->
  (forall i, 0 <= i < max_length / spec_block_size spec -> is_Some (bh_index v i)) ->
  let blk := spec_block_size spec in
  exists cs n,
    chunked_find_longest_cache_hit bhl max_length gids spec false blk 1 1 p = Ok (cs, n * blk) p /\
    chunk_hit v (max_length / c * c / blk) (max_length / blk) cs n.
Proof.
  intros Hs Hc Hb Hm Hres Hview blk. set (start := max_length / c * c / blk).
  pose proof (chunk_start_bounds max_length c blk Hc Hb Hm) as Hst. fold start in Hst.
  destruct (chunk_run_spec v start (Z.to_nat (max_length / blk - start))
    (replicate (length gids) (replicate (Z.to_nat start) (null_block p))) ltac:(lia))
    as (rows & E & Hf & Hl & Hr & Hn).
  { intros i Hi. apply Hview. fold blk. lia. }
  rewrite Z2Nat.id in * by lia. replace (start + (max_length / blk - start)) with (max_length / blk) in E by lia.
  destruct (chunk_columns v start rows ltac:(lia) Hf Hr) as [Hlen Hcols].
  set (cs := foldl _ _ rows) in *. pose proof (zlen_nonneg rows) as Hz.
  exists cs, (start + zlen rows). split; [|constructor; [done|lia|done|intros; apply Hn; lia]].
  unfold chunked_find_longest_cache_hit. rewrite Hs. fold blk.
  unfold mbind at 1, M_bind at 1, of_option at 1, mret at 1, M_ret at 1.
  do 4 (unfold mbind at 1, M_bind at 1, assert_ at 1; cbn [Z.eqb Pos.eqb negb];
        rewrite ?Z.eqb_refl; unfold mret at 1, M_ret at 1).
  unfold mbind at 1, M_bind at 1, gets at 1. unfold mbind at 1, M_bind at 1, of_option at 1.
  fold blk in Hres. rewrite Hres. unfold mret at 1, M_ret at 1.
  unfold mbind at 1, M_bind at 1, gets at 1. unfold mbind at 1, M_bind at 1.
  replace (if 0 <? max_length then max_length / c * c else 0) with (max_length / c * c)
    by (destruct (Z.ltb_spec 0 max_length); [done|replace max_length with 0 by lia; by rewrite Z.div_0_l by lia]).
  fold start. rewrite E. unfold mbind at 1, M_bind at 1.
  rewrite (first_len_known cs (start + zlen rows)); [done|done|]. intros. by eapply Hcols.
Qed.

Lemma chunk_skip_start max_length c blk n :
  0 < c -> 0 < blk -> 0 <= max_length -> c mod blk = 0 ->
  max_length / c * c / blk <= n <= max_length / blk ->
  n * blk / c * c = max_length / c * c / blk * blk.
Proof.
  intros Hc Hb Hm Hcb Hn. rewrite (chunk_start_aligned max_length c blk Hb Hcb).
  pose proof (chunk_start_aligned max_length c blk Hb Hcb) as Hsb.
  f_equal. symmetry. apply (Z.div_unique _ c _ (n * blk - max_length / c * c)); [left|lia].
  pose proof (Z.mul_div_le max_length blk Hb). pose proof (Z.mod_pos_bound max_length c Hc).
  pose proof (Z.div_mod max_length c ltac:(lia)). nia.
Qed.

(** Chunked local attention: the search reads the pool without changing it
    and raises nothing; blocks before the current chunk are the null block, each
    later returned block is cached for its group, and the search stops only at
    the limit or at a block that is not cached.  When blocks divide chunks, the
    null blocks are exactly those of tokens the next token skips. *)
Theorem chunked_hit_correct bhl max_length spec c v :
  spec_kind spec = ChunkedLocalAttentionSpec c -> 0 < c -> 0 < spec_block_size spec -> 0 <= max_length ->
  resolve_block_hashes bhl (hash_block_size p) (spec_block_size spec) false
    (Some (spec_block_size spec)) = Some v ->
  (forall i, 0 <= i < max_length / spec_block_size spec -> is_Some (bh_index v i)) ->
  let blk := spec_block_size spec in
  let start := max_length / c * c / blk in
  exists cs n,
    chunked_find_longest_cache_hit bhl max_length gids spec false blk 1 1 p = Ok (cs, n * blk) p /\
    length cs = length gids /\ start <= n <= max_length / blk /\
    (forall g gid col, gids !! g = Some gid -> cs !! g = Some col ->
       zlen col = n /\
       (forall i b, col !! i = Some b ->
          if Z.of_nat i <? start then b = null_block p else cached_for v gid i b)) /\
    (n < max_length / blk -> ~ cached_block v (Z.to_nat n)) /\
    (c mod blk = 0 -> get_num_skipped_tokens (spec_kind spec) (n * blk) = start * blk).
Proof.
  intros Hs Hc Hb Hm Hres Hview blk start.
  destruct (chunked_search_spec bhl max_length spec c v Hs Hc Hb Hm Hres Hview)
    as (cs & n & E & [H1 H2 H3 H4]).
  exists cs, n. split_and!; [done|done|apply H2|apply H2|done|done|].
  intros Hcb. rewrite Hs. by apply chunk_skip_start.
Qed.

End Hits.

(** ** Witnesses *)

(** A pool of five blocks in which both full blocks of [demo_tokens] are cached. *)
Lemma demo_view_ok i :
  (i < Z.to_nat (5 / 2))%nat -> is_Some (bh_index (RawHashes (block_hashes demo_tokens)) (Z.of_nat i)).
Proof.
  intros Hi. change (Z.to_nat (5 / 2)) with 2%nat in Hi.
  destruct i as [|[|i]]; [vm_compute; eexists; reflexivity..|lia].
Qed.

Lemma window_hit_correct_witness :
  exists cs n, sw_find_longest_cache_hit (RawHashes (block_hashes demo_tokens)) 5 [0]
    (mkSpec 2 (SlidingWindowSpec 3 0)) false 2 1 1 demo_cached.1 = Ok (cs, n * 2) demo_cached.1 /\
    (n * 2) mod 2 = 0.
Proof.
  destruct (window_hit_correct demo_cached.1 [3; 4]%nat [0] demo_cached_wf demo_gids_ok ltac:(discriminate)
    (RawHashes (block_hashes demo_tokens)) 5 (mkSpec 2 (SlidingWindowSpec 3 0)) 3 0 false 2
    (RawHashes (block_hashes demo_tokens)) eq_refl eq_refl eq_refl ltac:(discriminate))
    as (cs & n & E & _ & _ & Ha & _); [vm_compute; reflexivity|exact demo_view_ok|].
  exists cs, n. split; [exact E|exact Ha].
Defined.

Lemma chunked_hit_correct_witness :
  exists cs n, chunked_find_longest_cache_hit (RawHashes (block_hashes demo_tokens)) 5 [0]
    (mkSpec 2 (ChunkedLocalAttentionSpec 4)) false 2 1 1 demo_cached.1 = Ok (cs, n * 2) demo_cached.1 /\
    length cs = 1%nat.
Proof.
  destruct (chunked_hit_correct demo_cached.1 [3; 4]%nat [0] demo_cached_wf demo_gids_ok ltac:(discriminate)
    (RawHashes (block_hashes demo_tokens)) 5 (mkSpec 2 (ChunkedLocalAttentionSpec 4)) 4
    (RawHashes (block_hashes demo_tokens)) eq_refl eq_refl eq_refl ltac:(discriminate))
    as (cs & n & E & Hl & _); [vm_compute; reflexivity| |].
  - intros i Hi. pose proof (demo_view_ok (Z.to_nat i)) as Hv. rewrite Z2Nat.id in Hv by lia.
    apply Hv. cbn [spec_block_size] in Hi. lia.
  - exists cs, n. split; [exact E|exact Hl].
Defined.

(** ** EAGLE and short prefixes *)

(** Three blocks of two tokens, all cached from the start of the request. *)
Definition demo_long : Request := demo_hashed 2 (demo_request None None [] [7; 8; 9; 10; 11; 12; 13]).
Definition demo_three : BlockPool :=
  (after (cache_full_blocks [1; 2; 3]%nat 0 3 2 0 None) (after (get_new_blocks 3) demo_pool, demo_long)).1.

(** The value a call returns. *)
Definition value {S A} (m : M S A) (s : S) : option A :=
  match m s with Ok a _ => Some a | Raise _ _ => None end.

Lemma value_proj {S A B} (f : A -> B) (m : M S A) s a s' b :
  m s = Ok a s' -> f <$> value m s = Some b -> f a = b.
Proof. unfold value. intros ->. by intros [= <-]. Qed.

(** With EAGLE and an alignment of two blocks, three cached blocks give a hit of
    two blocks (four tokens) when the window needs two of them, and no hit at
    all when the window is longer than the prefix: a short prefix is aligned once
    before and once after the EAGLE block is dropped. *)
Lemma eagle_short_run_lost :
  value (sw_find_longest_cache_hit (RawHashes (block_hashes demo_long)) 6 [0]
    (mkSpec 2 (SlidingWindowSpec 5 0)) true 4 1 1) demo_three = Some ([[1; 2]%nat], 4) /\
  value (sw_find_longest_cache_hit (RawHashes (block_hashes demo_long)) 6 [0]
    (mkSpec 2 (SlidingWindowSpec 9 0)) true 4 1 1) demo_three = Some ([[]], 0).
Proof. split; vm_compute; reflexivity. Qed.
