(* ===== verification/Coordinator.v ===== *)
(** * The KV cache coordinators

    vllm/v1/core/kv_cache_coordinator.py: one block pool shared by one manager
    per KV cache group.  The store of a method is the tuple of managers with the
    pool ([KState]), or with the pool and the request being cached ([KCState]).
    Mamba groups are not among the modelled specs, so the fine-grained partial
    hash hits, which only a Mamba group enables, are off. *)
From Stdlib Require Import ZArith QArith Lia.
From stdpp Require Import base tactics gmap strings numbers option list.
From S2P Require Import Prelude Blocks FreeQueue Request Hashing BlockMap Env Metrics.
From S2P Require Import BlockPool Managers.

Local Open Scope Z_scope.

(** ** Configuration *)

(** A group: its spec, the values of the spec's other compared fields (heads,
    sizes, data types: they only matter for equality of specs), and whether it
    holds EAGLE/MTP draft layers. *)
Record KVCacheGroupSpec := mkGroup {
  group_spec : KVCacheSpec;
  spec_fields : string;
  is_eagle_group : bool
}.

Record KVCacheConfig := mkKVConfig {
  num_blocks : Z;
  kv_cache_groups : list KVCacheGroupSpec;
  prefix_cache_retention_interval : option Z;
  needs_kv_cache_zeroing : bool
}.

#[global] Instance SpecKind_eq_dec : EqDecision SpecKind.
Proof. solve_decision. Defined.
#[global] Instance KVCacheSpec_eq_dec : EqDecision KVCacheSpec.
Proof. solve_decision. Defined.

(** [isinstance(spec, FullAttentionSpec)] and [isinstance(spec, SlidingWindowSpec)] *)
Definition is_full (k : SpecKind) : bool :=
  match k with FullAttentionSpec | RSWASpec _ | SinkFullAttentionSpec _ => true | _ => false end.
Definition is_window (k : SpecKind) : bool :=
  match k with SlidingWindowSpec _ _ | KpoolTailSpec _ _ => true | _ => false end.

(** [prefix_cacheable] *)
Definition prefix_cacheable (spec : KVCacheSpec) : bool :=
  match spec_kind spec with CircularBufferSpec | KpoolTailSpec _ _ => false | _ => true end.

(** [dcp_world_size_for_kv_cache_spec] *)
Definition dcp_world_size_for_kv_cache_spec (spec : KVCacheSpec) (dcp : Z) : Z :=
  if dcp <=? 1 then 1 else if is_full (spec_kind spec) then dcp else 1.

(** [_validate_prefix_cache_retention_interval] *)
Definition validate_prefix_cache_retention_interval {S} (retention_interval : option Z)
    (sbs : Z) (config : KVCacheConfig) : M S unit :=
  match retention_interval with
  | None => mret tt
  | Some r =>
      if negb (existsb (fun g => is_window (spec_kind (group_spec g))) (kv_cache_groups config)) then
        if r =? 0 then mret tt else raise ValueError
      else if (r <? 0) || negb (r mod sbs =? 0) then raise ValueError else mret tt
  end.

(** Groups with one spec, looked up together. *)
Record SpecGroup := mkSpecGroup {
  sg_spec : KVCacheSpec;
  sg_fields : string;
  sg_ids : list Z;
  sg_eagle : bool
}.

Inductive CoordinatorKind := NoPrefixCache | Unitary | Hybrid.

(** The attributes a coordinator sets in its constructor. *)
Record Coordinator := mkCoordinator {
  co_kind : CoordinatorKind;
  co_config : KVCacheConfig;
  co_min_prefill_tokens : Z;
  co_scheduler_block_size : Z;
  co_hash_block_size : Z;
  num_reprefillable_tokens : Z;
  eagle_group_ids : list Z;
  retention_interval : option Z;
  attention_groups : list SpecGroup
}.

Abbreviation KState := (list Manager * BlockPool)%type.
Abbreviation KCState := (list Manager * (BlockPool * Request))%type.

(** ** Running a method of every manager, in order *)

Fixpoint for_managers {S A} (f : nat -> M (Manager * S) A) (i : nat) (ms : list Manager) (s : S)
    : outcome (list Manager * S) (list A) :=
  match ms with
  | [] => Ok [] ([], s)
  | m :: ms' =>
      match f i (m, s) with
      | Raise e (m', s') => Raise e (m' :: ms', s')
      | Ok a (m', s') =>
          match for_managers f (Datatypes.S i) ms' s' with
          | Ok l (ms'', s'') => Ok (a :: l) (m' :: ms'', s'')
          | Raise e (ms'', s'') => Raise e (m' :: ms'', s'')
          end
      end
  end.
Definition each_manager {S A} (f : nat -> M (Manager * S) A) : M (list Manager * S) (list A) :=
  fun s => for_managers f 0 s.1 s.2.

Definition sum_list (l : list Z) : Z := foldr Z.add 0 l.

Definition is_cross (m : Manager) : bool :=
  match kind m with CrossAttentionSpec => true | _ => false end.

Section Coordinator.
Context `{Env}.

(** ** Construction *)

(** The managers, one per group. *)
Fixpoint build_managers {S} (i : Z) (gs : list KVCacheGroupSpec) (in_flight max_len : Z)
    (pool : BlockPool) (caching : bool) (dcp pcp sbs : Z) (zeroing : bool) : M S (list Manager) :=
  match gs with
  | [] => mret []
  | g :: gs' =>
      m ← match get_manager_for_kv_cache_spec (group_spec g) in_flight max_len pool caching i
                  (dcp_world_size_for_kv_cache_spec (group_spec g) dcp) pcp sbs zeroing with
          | inl e => raise e
          | inr m => mret m
          end;
      ms ← build_managers (i + 1) gs' in_flight max_len pool caching dcp pcp sbs zeroing;
      mret (m :: ms)
  end.

(** [verify_and_split_kv_cache_groups]: join the group to the first spec group
    with the same spec, or open a new one. *)
Fixpoint join_group (g : KVCacheGroupSpec) (i : Z) (eagle : bool) (sgs : list SpecGroup)
    : list SpecGroup :=
  match sgs with
  | [] => [mkSpecGroup (group_spec g) (spec_fields g) [i] eagle]
  | sg :: sgs' =>
      if bool_decide (sg_spec sg = group_spec g /\ sg_fields sg = spec_fields g)
      then mkSpecGroup (sg_spec sg) (sg_fields sg) (sg_ids sg ++ [i]) (sg_eagle sg || eagle) :: sgs'
      else sg :: join_group g i eagle sgs'
  end.
Fixpoint split_groups (gs : list KVCacheGroupSpec) (i : Z) (eagle_ids : list Z)
    (sgs : list SpecGroup) : list SpecGroup :=
  match gs with
  | [] => sgs
  | g :: gs' =>
      split_groups gs' (i + 1) eagle_ids
        (if prefix_cacheable (group_spec g)
         then join_group g i (bool_decide (i ∈ eagle_ids)) sgs else sgs)
  end.
(** [list.sort] is stable: full attention first. *)
Definition sort_groups (sgs : list SpecGroup) : list SpecGroup :=
  filter (fun sg => is_full (spec_kind (sg_spec sg)) = true) sgs ++
  filter (fun sg => is_full (spec_kind (sg_spec sg)) = false) sgs.

Definition set_use_eagle (b : bool) (m : Manager) : Manager :=
  let c := cfg m in
  mkManager (mkManagerConfig (scheduler_block_size c) (cache_hit_alignment_tokens c) (block_size c)
      (dcp_world_size c) (pcp_world_size c) (kv_cache_spec c) (caching_enabled c)
      (max_admission_blocks c) (record_new_block_ids c) (kv_cache_group_id c) (mgr_null_block c) b)
    (new_block_ids m) (req_to_blocks m) (num_cached_block m) (partial_hit_reqs m)
    (pending_cow_copies m).

(** The EAGLE bit of the managers of EAGLE spec groups. *)
Definition propagate_eagle (sgs : list SpecGroup) (ms : list Manager) : list Manager :=
  foldl (fun ms gid => alter (set_use_eagle true) (Z.to_nat gid) ms) ms
    (concat (sg_ids <$> filter (fun sg => sg_eagle sg = true) sgs)).

(** [KVCacheCoordinator.__init__] *)
Definition coordinator_init (config : KVCacheConfig) (max_model_len max_in_flight_tokens : Z)
    (use_eagle caching events : bool) (dcp pcp sbs hbs : Z)
    (collector : option KVCacheMetricsCollector) (num_prefill_lookahead min_prefill : Z)
    (k : CoordinatorKind) : M BlockPool (Coordinator * list Manager) :=
  assert_ ((sbs mod hbs =? 0) &&
           forallb (fun g => sbs mod spec_block_size (group_spec g) =? 0) (kv_cache_groups config)) ;;
  block_pool_init (num_blocks config) caching hbs events collector ;;
  let n := length (kv_cache_groups config) in
  let flagged := filter (fun i => is_eagle_group <$> kv_cache_groups config !! Z.to_nat i = Some true)
                   (seqZ 0 (Z.of_nat n)) in
  let eagle_ids := if use_eagle && bool_decide (flagged = []) then seqZ 0 (Z.of_nat n) else flagged in
  (if caching && negb (bool_decide (eagle_ids = [])) && (sbs <? num_prefill_lookahead)
   then raise ValueError else mret tt) ;;
  pool ← get;
  ms ← build_managers 0 (kv_cache_groups config) max_in_flight_tokens max_model_len pool caching
         dcp pcp sbs (needs_kv_cache_zeroing config);
  validate_prefix_cache_retention_interval (prefix_cache_retention_interval config) sbs config ;;
  mret (mkCoordinator k config min_prefill sbs hbs (Z.max 0 (num_prefill_lookahead - 1)) eagle_ids
          (prefix_cache_retention_interval config) [], ms).

(** The rest of [HybridKVCacheCoordinator.__init__] *)
Definition hybrid_init (co : Coordinator) (ms : list Manager) (dcp pcp : Z)
    : M BlockPool (Coordinator * list Manager) :=
  let gs := kv_cache_groups (co_config co) in
  assert_ (forallb (fun mg => bsz mg.1 mod co_hash_block_size co =? 0)
             (filter (fun mg => prefix_cacheable (group_spec mg.2) = true) (zip ms gs))) ;;
  assert_ (pcp =? 1) ;;
  (if 1 <? dcp then assert_ (forallb (fun g => is_full (spec_kind (group_spec g))) gs) else mret tt) ;;
  let sgs := split_groups gs 0 (eagle_group_ids co) [] in
  assert_ (negb (bool_decide (sgs = []))) ;;
  let sgs := sort_groups sgs in
  mret (mkCoordinator Hybrid (co_config co) (co_min_prefill_tokens co) (co_scheduler_block_size co)
          (co_hash_block_size co) (num_reprefillable_tokens co) (eagle_group_ids co)
          (retention_interval co) sgs, propagate_eagle sgs ms).

(** The rest of [UnitaryKVCacheCoordinator.__init__] *)
Definition unitary_init (co : Coordinator) (ms : list Manager) (caching : bool)
    : M BlockPool (Coordinator * list Manager) :=
  m ← of_option IndexError (head ms);
  assert_ (negb caching || (co_hash_block_size co =? bsz m)) ;;
  assert_ (zlen (kv_cache_groups (co_config co)) =? 1) ;;
  mret (co, alter (set_use_eagle (bool_decide (0 ∈ eagle_group_ids co))) 0%nat ms).

(** [get_kv_cache_coordinator] *)
Definition get_kv_cache_coordinator (config : KVCacheConfig) (max_model_len max_in_flight_tokens : Z)
    (use_eagle caching events : bool) (dcp pcp sbs hbs : Z)
    (collector : option KVCacheMetricsCollector) (num_prefill_lookahead min_prefill : Z)
    : M BlockPool (Coordinator * list Manager) :=
  if negb caching then
    coordinator_init config max_model_len max_in_flight_tokens use_eagle false events dcp pcp sbs hbs
      collector num_prefill_lookahead min_prefill NoPrefixCache
  else if zlen (kv_cache_groups config) =? 1 then
    '(co, ms) ← coordinator_init config max_model_len max_in_flight_tokens use_eagle caching events
       dcp pcp sbs hbs collector num_prefill_lookahead min_prefill Unitary;
    unitary_init co ms caching
  else
    '(co, ms) ← coordinator_init config max_model_len max_in_flight_tokens use_eagle caching events
       dcp pcp sbs hbs collector num_prefill_lookahead min_prefill Hybrid;
    hybrid_init co ms dcp pcp.

(** ** Allocation *)

(** [get_num_blocks_to_allocate] *)
Definition co_get_num_blocks_to_allocate (rid : string) (num_tokens : Z)
    (new_computed_blocks : list (list loc)) (num_encoder_tokens total_computed_tokens
     num_local_computed_tokens : Z) (apply_admission_cap : bool) : M KState Z :=
  ns ← each_manager (fun i =>
    '(m, p) ← get;
    if is_cross m then
      of_option AssertionError (get_num_blocks_to_allocate m p rid num_encoder_tokens [] 0 0
        apply_admission_cap)
    else
      ncb ← of_option IndexError (new_computed_blocks !! i);
      of_option AssertionError (get_num_blocks_to_allocate m p rid num_tokens ncb
        total_computed_tokens num_local_computed_tokens apply_admission_cap));
  mret (sum_list ns).

(** [allocate_new_computed_blocks] *)
Definition allocate_new_computed_blocks (rid : string) (new_computed_blocks : list (list loc))
    (num_local_computed_tokens num_external_computed_tokens : Z) : M KState unit :=
  ms ← gets fst;
  if existsb (fun m => bool_decide (is_Some (num_cached_block m !! rid))) ms then
    assert_ (forallb (fun bs => zlen bs =? 0) new_computed_blocks)
  else
    _ ← each_manager (fun i =>
      ncb ← of_option IndexError (new_computed_blocks !! i);
      add_local_computed_blocks rid ncb num_local_computed_tokens num_external_computed_tokens);
    if 0 <? num_external_computed_tokens then
      _ ← each_manager (fun _ => allocate_external_computed_blocks rid num_local_computed_tokens
                                   num_external_computed_tokens);
      mret tt
    else mret tt.

(** [allocate_new_blocks] *)
Definition co_allocate_new_blocks (rid : string) (num_tokens num_encoder_tokens : Z)
    : M KState (list (list loc)) :=
  each_manager (fun _ =>
    m ← gets fst;
    allocate_new_blocks rid (if is_cross m then num_encoder_tokens else num_tokens)).

(** [free], [pop_blocks_for_free], [remove_skipped_blocks], [get_blocks],
    [get_num_common_prefix_blocks] *)
Definition co_free (rid : string) : M KState unit :=
  _ ← each_manager (fun _ => mgr_free rid); mret tt.
Definition co_pop_blocks_for_free (rid : string) : M KState (list loc) :=
  bs ← each_manager (fun _ => on_mgr (pop_blocks_for_free rid)); mret (concat bs).
Definition co_remove_skipped_blocks (rid : string) (processed : Z) (num_prompt : option Z)
    : M KState unit :=
  _ ← each_manager (fun _ => remove_skipped_blocks rid processed num_prompt); mret tt.
Definition co_get_blocks (rid : string) (ms : list Manager) : list (list loc) :=
  (fun m => default [] (req_to_blocks m !! rid)) <$> ms.
Definition co_get_num_common_prefix_blocks (co : Coordinator) (rid : string) : M KState (list Z) :=
  match co_kind co with
  | NoPrefixCache => ms ← gets fst; mret (replicate (length ms) 0)
  | _ => each_manager (fun _ => get_num_common_prefix_blocks rid)
  end.

(** ** Caching *)

(** [get_replay_boundaries] *)
Definition get_replay_boundaries (co : Coordinator) (request : Request) : list Z :=
  let resend_limit := Z.max 0 (num_prompt_tokens request - co_min_prefill_tokens co) in
  match eagle_group_ids co with
  | [] => if co_min_prefill_tokens co =? 1 then [resend_limit]
          else [resend_limit; num_prompt_tokens request]
  | _ =>
      let block := co_scheduler_block_size co in
      let a := Z.max (resend_limit / block * block - block) 0 in
      let b := Z.max (num_prompt_tokens request / block * block - block) 0 in
      if a =? b then [a] else [Z.min a b; Z.max a b]
  end.

(** [cache_blocks] of the base class and of the hybrid coordinator (whose
    [_align_cacheable] rounds down to the scheduler block size) *)
Definition co_cache_blocks (co : Coordinator) (num_computed_tokens : Z) : M KCState unit :=
  request ← gets (fun s => s.2.2);
  let boundaries := get_replay_boundaries co request in
  let finalized := Z.max 0 (num_computed_tokens - num_reprefillable_tokens co) in
  _ ← each_manager (fun _ =>
    m ← gets fst;
    cache_blocks
      (match co_kind co with
       | Hybrid =>
           let cached := round_down num_computed_tokens (co_scheduler_block_size co) in
           if use_eagle (cfg m) && (0 <? cached)
           then Z.min finalized (round_down finalized (co_scheduler_block_size co) + bsz m)
           else cached
       | _ => finalized
       end) (retention_interval co) boundaries);
  mret tt.

(** ** Prefix-cache hits *)

(** The variables of the hybrid search. *)
Record HybridState := mkHybrid {
  hy_curr : Z;                                  (* curr_hit_length *)
  hy_longest : Z;                               (* longest_hit_length *)
  hy_blocks : list (option (list loc));         (* hit_blocks_by_group *)
  hy_lens : list Z;                             (* hit_length_by_group *)
  hy_verified : list nat                        (* eagle_verified *)
}.

(** [for group_id, blocks in zip(group_ids, hit_blocks): ...] *)
Definition store_hits (ids : list Z) (hit_blocks : list (list loc)) (len : Z) (h : HybridState)
    : HybridState :=
  foldl (fun h gb => mkHybrid (hy_curr h) (hy_longest h)
           (<[Z.to_nat gb.1 := Some gb.2]> (hy_blocks h)) (<[Z.to_nat gb.1 := len]> (hy_lens h))
           (hy_verified h)) h (zip ids hit_blocks).

(** The body of the [for] loop over the attention groups. *)
Definition check_group (ms : list Manager) (block_hashes : list BlockHash) (max_cache_hit_length : Z)
    (alignment_tokens : Z) (h : HybridState) (ig : nat * SpecGroup) : M BlockPool HybridState :=
  let '(idx, sg) := ig in
  first_group_id ← of_option IndexError (head (sg_ids sg));
  m ← of_option IndexError (ms !! Z.to_nat first_group_id);
  cached_blocks ← of_option IndexError (hy_blocks h !! Z.to_nat first_group_id);
  if is_full (spec_kind (sg_spec sg)) && match cached_blocks with Some _ => true | None => false end
  then
    len ← of_option IndexError (hy_lens h !! Z.to_nat first_group_id);
    mret (mkHybrid (Z.min (hy_curr h) len) (hy_longest h) (hy_blocks h) (hy_lens h) (hy_verified h))
  else
    let drop_eagle_block := sg_eagle sg && negb (bool_decide (idx ∈ hy_verified h)) in
    let max_length := if drop_eagle_block
                      then Z.min (hy_curr h + bsz m) max_cache_hit_length else hy_curr h in
    '(hit_blocks, new_hit_length) ←
      find_longest_cache_hit (RawHashes block_hashes) max_length (sg_ids sg) (sg_spec sg)
        drop_eagle_block alignment_tokens (dcp_world_size (cfg m)) (pcp_world_size (cfg m));
    let verified := if (drop_eagle_block : bool) then hy_verified h ++ [idx]
                    else if new_hit_length <? hy_curr h then [] else hy_verified h in
    mret (store_hits (sg_ids sg) hit_blocks new_hit_length
      (mkHybrid new_hit_length (Z.max (hy_longest h) new_hit_length) (hy_blocks h) (hy_lens h) verified)).

(** The [while True] loop: at most [fuel] rounds.  Each round but the last
    lowers the candidate length. *)
Fixpoint hybrid_rounds (fuel : nat) (ms : list Manager) (sgs : list SpecGroup)
    (block_hashes : list BlockHash) (max_cache_hit_length alignment_tokens : Z)
    (simple : bool) (hit_length : Z) (h : HybridState) : M BlockPool (Z * HybridState) :=
  match fuel with
  | O => raise OutOfFuel
  | S fuel' =>
      h ← fold_m (check_group ms block_hashes max_cache_hit_length alignment_tokens)
            (mkHybrid hit_length (hy_longest h) (hy_blocks h) (hy_lens h) (hy_verified h))
            (imap pair sgs);
      if hit_length <=? hy_curr h then mret (hit_length, h)
      else if simple then mret (hy_curr h, h)
      else hybrid_rounds fuel' ms sgs block_hashes max_cache_hit_length alignment_tokens simple
             (hy_curr h) h
  end.

(** Truncate the full-attention groups to the final length. *)
Definition trim_full (ms : list Manager) (hit_length : Z) (blocks : list (option (list loc)))
    (sg : SpecGroup) : M BlockPool (list (option (list loc))) :=
  if negb (is_full (spec_kind (sg_spec sg))) then mret blocks else
  first_group_id ← of_option IndexError (head (sg_ids sg));
  m ← of_option IndexError (ms !! Z.to_nat first_group_id);
  let num_blocks := cdiv hit_length (bsz m) in
  mret (foldl (fun blocks gid =>
          alter (fmap (fun blks => py_upto blks num_blocks)) (Z.to_nat gid) blocks) blocks (sg_ids sg)).

(** [HybridKVCacheCoordinator.find_longest_cache_hit] *)
Definition hybrid_find_longest_cache_hit (co : Coordinator) (ms : list Manager)
    (block_hashes : list BlockHash) (max_cache_hit_length : Z)
    : M BlockPool (list (list loc) * Z * Z) :=
  let num_groups := length (kv_cache_groups (co_config co)) in
  let sgs := attention_groups co in
  let simple := (zlen sgs =? 2) &&
    match sgs with sg :: _ => is_full (spec_kind (sg_spec sg)) | [] => false end in
  '(hit_length, h) ← hybrid_rounds (S (Z.to_nat max_cache_hit_length)) ms sgs block_hashes
    max_cache_hit_length (co_scheduler_block_size co) simple max_cache_hit_length
    (mkHybrid max_cache_hit_length 0 (replicate num_groups None) (replicate num_groups 0) []);
  blocks ← fold_m (trim_full ms hit_length) (hy_blocks h) sgs;
  mret (default [] <$> blocks, hit_length, hy_longest h - hit_length).

(** [UnitaryKVCacheCoordinator.find_longest_cache_hit] *)
Definition unitary_find_longest_cache_hit (co : Coordinator) (ms : list Manager)
    (block_hashes : list BlockHash) (max_cache_hit_length : Z)
    : M BlockPool (list (list loc) * Z * Z) :=
  m ← of_option IndexError (head ms);
  '(hit_blocks, hit_length) ←
    find_longest_cache_hit (RawHashes block_hashes) max_cache_hit_length [0] (kv_cache_spec (cfg m))
      (bool_decide (0 ∈ eagle_group_ids co)) (bsz m) (dcp_world_size (cfg m)) (pcp_world_size (cfg m));
  mret (hit_blocks, hit_length, 0).

(** [find_longest_cache_hit], dispatched *)
Definition co_find_longest_cache_hit (co : Coordinator) (block_hashes : list BlockHash)
    (max_cache_hit_length : Z) (ms : list Manager) : M BlockPool (list (list loc) * Z * Z) :=
  match co_kind co with
  | NoPrefixCache => mret (replicate (length ms) [], 0, 0)
  | Unitary => unitary_find_longest_cache_hit co ms block_hashes max_cache_hit_length
  | Hybrid => hybrid_find_longest_cache_hit co ms block_hashes max_cache_hit_length
  end.

(** [find_longest_cache_hit_per_group] *)
Definition find_longest_cache_hit_per_group (co : Coordinator) (ms : list Manager)
    (block_hashes : list BlockHash) (max_cache_hit_length : Z)
    : M BlockPool (list (list loc) * list Z) :=
  let n := length (kv_cache_groups (co_config co)) in
  fold_m (fun acc sg =>
      first_group_id ← of_option IndexError (head (sg_ids sg));
      m ← of_option IndexError (ms !! Z.to_nat first_group_id);
      '(blocks, group_hit) ←
        find_longest_cache_hit (RawHashes block_hashes) max_cache_hit_length (sg_ids sg) (sg_spec sg)
          (sg_eagle sg) (co_scheduler_block_size co) (dcp_world_size (cfg m)) (pcp_world_size (cfg m));
      mret (foldl (fun acc gb => (<[Z.to_nat gb.1 := gb.2]> acc.1, <[Z.to_nat gb.1 := group_hit]> acc.2))
              acc (zip (sg_ids sg) blocks)))
    (replicate n [], replicate n 0) (attention_groups co).

End Coordinator.
