(* ===== verification/CoordinatorHits.v ===== *)
(** * Correctness of the coordinators' prefix-cache lookup

    What a group owes the coordinator is one statement for all kinds of
    attention: a hit of [L] tokens covers a group when every block that holds a
    token the token at position [L] attends to is cached for that group
    ([covers]), and the search returns the longest such aligned length.  The
    lookup over several groups is a fixed point over that interface. *)
From Stdlib Require Import ZArith QArith Lia.
From stdpp Require Import base tactics gmap strings numbers option list.
From S2P Require Import Prelude Blocks FreeQueue Request Hashing BlockMap Env Metrics.
From S2P Require Import BlockPool BlockPoolInv BlockPoolCache BlockPoolAlloc BlockPoolFull BlockPoolSpec.
From S2P Require Import Managers ManagerInv ManagerSpec ManagerHits ManagerWindow Coordinator.

Local Open Scope Z_scope.

(** The first token that the token at position [n] attends to. *)
Definition attended_from (k : SpecKind) (n : Z) : Z :=
  match k with
  | SlidingWindowSpec w _ => Z.max 0 (n - w + 1)
  | ChunkedLocalAttentionSpec c => n / c * c
  | _ => 0
  end.

(** The view of the request's hashes at block size [blk]. *)
Definition view_of (hs : list BlockHash) (hbs blk : Z) : BlockHashList :=
  if blk =? hbs then RawHashes hs else ScaledHashes hs (blk / hbs).

(** ** Views *)

Section Views.
Variables (hs : list BlockHash) (hbs blk : Z).
Hypothesis Hhbs : 0 < hbs.
Hypothesis Hblk : 0 < blk.
Hypothesis Hmod : blk mod hbs = 0.

Lemma view_resolves fine align :
  blk <= align ->
  resolve_block_hashes (RawHashes hs) hbs blk fine (Some align) = Some (view_of hs hbs blk).
Proof.
  intros Ha. unfold resolve_block_hashes, view_of, new_scaled. destruct (blk =? hbs); [done|].
  rewrite (proj2 (Z.ltb_ge align blk)) by done. rewrite andb_false_r, Hmod. done.
Qed.

Lemma blk_split : blk = blk / hbs * hbs /\ 1 <= blk / hbs.
Proof.
  pose proof (Z.div_mod blk hbs ltac:(lia)). split; [lia|]. apply Z.div_le_lower_bound; [lia|].
  assert (blk / hbs <> 0) by (intros E; lia). nia.
Qed.

(** Entry [i] of the view is the hash at the end of block [i]. *)
Lemma view_index i :
  0 <= i -> bh_index (view_of hs hbs blk) i = hs !! Z.to_nat ((i + 1) * (blk / hbs) - 1).
Proof.
  intros Hi. pose proof blk_split as [Hs Hs1]. unfold view_of.
  destruct (Z.eqb_spec blk hbs) as [->|_]; cbn [bh_index].
  - rewrite Z.div_same, py_index_nonneg by lia. f_equal. lia.
  - rewrite py_index_nonneg by nia. done.
Qed.

Lemma view_defined n i :
  n / hbs <= zlen hs -> 0 <= i < n / blk -> is_Some (bh_index (view_of hs hbs blk) i).
Proof.
  intros Hn Hi. pose proof blk_split as [Hs Hs1]. rewrite view_index by lia.
  apply lookup_lt_is_Some_2. pose proof (Z.mul_div_le n blk Hblk) as Hm.
  assert ((i + 1) * (blk / hbs) <= n / hbs) by (apply Z.div_le_lower_bound; nia).
  unfold zlen in *. nia.
Qed.

Lemma view_from :
  exists fhs, bh_from (view_of hs hbs blk) 0 = Some fhs /\ zlen fhs = zlen hs / (blk / hbs) /\
    forall i, (i < length fhs)%nat -> fhs !! i = bh_index (view_of hs hbs blk) (Z.of_nat i).
Proof.
  pose proof blk_split as [Hs Hs1]. pose proof (zlen_nonneg hs) as Hz.
  unfold view_of. destruct (Z.eqb_spec blk hbs) as [E|_].
  - exists hs. rewrite E, Z.div_same, Z.div_1_r by lia. split_and!; [|done|].
    + cbn. by rewrite py_from_drop by lia.
    + intros i Hi. cbn. rewrite py_index_nonneg by lia. by rewrite Nat2Z.id.
  - destruct (scaled_from hs (blk / hbs)) as (fhs & E1 & E2 & E3); [lia|].
    exists fhs. split_and!; [done|done|]. intros i Hi. unfold zlen in E2 at 1.
    rewrite <- (Nat2Z.id i) at 1. rewrite E3 by lia. cbn. by rewrite py_index_nonneg by nia.
Qed.

End Views.

(** ** One group *)

Section Group.
Context (p : BlockPool) (free : list loc) (gids : list Z).
Hypothesis Hwf : pool_wf p free.
Hypothesis Hgids : Forall (fun g => 0 <= g < 2 ^ 32) gids.
Hypothesis Hne : gids <> [].

(** A hit of [hit] tokens with the blocks [cols] serves the groups. *)
Record covers (v : BlockHashList) (k : SpecKind) (blk hit : Z) (cols : list (list loc)) : Prop := {
  cv_len : length cols = length gids;
  cv_cols : forall g gid c, gids !! g = Some gid -> cols !! g = Some c ->
    zlen c = hit / blk /\
    forall i b, c !! i = Some b ->
      (b = null_block p /\ (Z.of_nat i + 1) * blk <= attended_from k hit) \/
      cached_for p v gid i b
}.

(** [L] tokens could be served from the cache. *)
Definition coverable (v : BlockHashList) (k : SpecKind) (blk L : Z) : Prop :=
  forall i, Z.of_nat i < L / blk -> attended_from k L < (Z.of_nat i + 1) * blk -> cached_block p gids v i.

(** What the configuration owes for a group to be looked up. *)
Record group_ok (spec : KVCacheSpec) (eagle : bool) (align dcp pcp : Z) : Prop := {
  go_size : 0 < shard_block_size spec dcp;
  go_align : 0 < align /\ align mod shard_block_size spec dcp = 0;
  go_hash : 0 < hash_block_size p /\ shard_block_size spec dcp mod hash_block_size p = 0;
  go_kind : match spec_kind spec with
            | FullAttentionSpec | RSWASpec _ | SinkFullAttentionSpec _ => True
            | SlidingWindowSpec w _ => 1 < w /\ dcp = 1 /\ pcp = 1
            | ChunkedLocalAttentionSpec c => 0 < c /\ c mod spec_block_size spec = 0 /\
                eagle = false /\ align = spec_block_size spec /\ dcp = 1 /\ pcp = 1
            | _ => False
            end
}.

Record found (v : BlockHashList) (spec : KVCacheSpec) (blk : Z) (eagle : bool) (align max_length : Z)
    (cols : list (list loc)) (hit : Z) : Prop := {
  fd_covers : covers v (spec_kind spec) blk hit cols;
  fd_range : 0 <= hit <= if eagle then Z.max 0 (max_length - blk) else max_length;
  fd_aligned : hit mod align = 0;
  fd_max : eagle = false -> forall L, 0 <= L <= max_length -> L mod align = 0 ->
    coverable v (spec_kind spec) blk L -> L <= hit
}.

Lemma mod_of_multiple n a b : 0 < a -> 0 < b -> a mod b = 0 -> n mod a = 0 -> n mod b = 0.
Proof.
  intros Ha Hb [q ->]%Z.mod_divide [r ->]%Z.mod_divide; [|lia..].
  rewrite Z.mul_assoc. apply Z.mod_mul. lia.
Qed.

Lemma align_ge a b : 0 < a -> 0 < b -> a mod b = 0 -> b <= a.
Proof. intros Ha Hb [q ->]%Z.mod_divide; [|lia]. assert (0 < q) by nia. nia. Qed.

(** Full attention: the run of cached blocks from the start. *)
Section Full.
Variables (hs fhs : list BlockHash) (max_length blk align : Z) (eagle : bool).
Hypothesis Hb : 0 < blk.
Hypothesis Ha : 0 < align.
Hypothesis Hab : align mod blk = 0.
Hypothesis Hh : 0 < hash_block_size p.
Hypothesis Hbh : blk mod hash_block_size p = 0.
Hypothesis Hm : 0 <= max_length.
#[local] Abbreviation v := (view_of hs (hash_block_size p) blk).
Hypothesis Hfl : zlen fhs = zlen hs / (blk / hash_block_size p).
Hypothesis Hfi : forall i, (i < length fhs)%nat -> fhs !! i = bh_index v (Z.of_nat i).
#[local] Abbreviation rows := (prefix_hits p gids (take (Z.to_nat (max_length / blk)) fhs)).
#[local] Abbreviation hit := (settle eagle align blk (zlen rows * blk)).

Lemma full_rows_bound : 0 <= zlen rows <= max_length / blk /\ zlen rows * blk <= max_length.
Proof.
  pose proof (prefix_hits_le p gids (take (Z.to_nat (max_length / blk)) fhs)) as Hpl.
  rewrite length_take in Hpl. pose proof (Z.div_pos max_length blk Hm Hb).
  pose proof (Z.mul_div_le max_length blk Hb). unfold zlen. nia.
Qed.

Lemma full_rows_view i row :
  rows !! i = Some row -> exists h, bh_index v (Z.of_nat i) = Some h /\ look p gids h = Some row.
Proof.
  intros Er. apply prefix_hits_lookup in Er as (h & Eh & El).
  apply lookup_take_Some in Eh as [Eh _]. exists h. split; [|done].
  rewrite <- Hfi; [done|]. by eapply lookup_lt_Some.
Qed.

Lemma full_hit_bounds : 0 <= hit <= zlen rows * blk /\ hit mod align = 0.
Proof.
  pose proof full_rows_bound as [Hz _]. apply settle_bounds; [done|done|nia|].
  destruct (decide (zlen rows = 0)) as [->|]; [by left|right]. nia.
Qed.

Lemma full_covers k :
  covers v k blk hit ((fun c => py_upto c (hit / blk)) <$> (column rows <$> seq 0 (length gids))).
Proof.
  pose proof full_hit_bounds as [Hhb _].
  assert (0 <= hit / blk <= zlen rows) as Hhr
    by (split; [apply Z.div_pos; lia|apply Z.div_le_upper_bound; nia]).
  assert (full_rows gids rows) as Hfr by apply prefix_rows.
  constructor; [by rewrite !length_fmap, length_seq|]. intros g gid c Hg Hc.
  pose proof (lookup_lt_Some _ _ _ Hg) as Hgl.
  rewrite !list_lookup_fmap, lookup_seq_lt in Hc by done. injection Hc as <-.
  rewrite py_upto_take by lia. split.
  - unfold zlen. rewrite length_take, (column_length gids) by done. unfold zlen in *. lia.
  - intros i b Hib. right.
    apply (rows_cached_at p free gids Hwf (fun i => bh_index v (Z.of_nat i)) rows g gid
      (Z.to_nat (hit / blk)) Hfr Hg); [|done]. intros j row _. apply full_rows_view.
Qed.

Lemma full_hit_range : 0 <= hit <= if eagle then Z.max 0 (max_length - blk) else max_length.
Proof.
  pose proof full_hit_bounds as [Hhb _]. pose proof full_rows_bound as [Hz Hzm].
  pose proof (align_ge align blk Ha Hb Hab) as Hle.
  split; [lia|]. destruct eagle; [|lia]. unfold settle.
  destruct (Z.ltb_spec 0 (zlen rows * blk)) as [|Hn]; cbn [andb].
  - rewrite Z.min_r by lia. pose proof (Z.mod_pos_bound (zlen rows * blk - blk) align Ha). nia.
  - assert (zlen rows * blk = 0) as -> by nia. rewrite Z.mod_0_l by lia. lia.
Qed.

(** A position of the view that is cached is a position of [fhs]. *)
Lemma full_cached_entry i :
  cached_block p gids v i -> exists h, fhs !! i = Some h /\ is_Some (look p gids h).
Proof.
  intros (h & row & Hhh & Hrow). assert (i < length fhs)%nat as Hil.
  { rewrite view_index in Hhh by lia. apply lookup_lt_Some in Hhh.
    destruct (blk_split (hash_block_size p) blk Hh Hb Hbh) as [Hs1 Hs2].
    assert (Z.of_nat i + 1 <= zlen hs / (blk / hash_block_size p)); [|unfold zlen in Hfl at 1; lia].
    apply Z.div_le_lower_bound; [lia|]. unfold zlen. nia. }
  exists h. rewrite Hfi by done. split; [done|by eexists].
Qed.

Lemma full_longest k L :
  is_full k = true -> 0 <= L <= max_length -> L mod align = 0 -> coverable v k blk L ->
  L <= settle false align blk (zlen rows * blk).
Proof.
  intros Hk HL Hal Hall. apply settle_max; [done| |done].
  pose proof (mod_of_multiple L align blk Ha Hb Hab Hal) as Hbl.
  apply Z.mod_divide in Hbl as [q ->]; [|lia]. unfold coverable in Hall. rewrite Z.div_mul in Hall by lia.
  assert (q <= max_length / blk) as Hqm by (apply Z.div_le_lower_bound; lia).
  assert (0 <= q) as Hq0 by nia.
  enough (Z.to_nat q <= length rows)%nat by (unfold zlen; nia).
  assert (forall i, Z.of_nat i < q -> exists h, fhs !! i = Some h /\ is_Some (look p gids h)) as Hcb.
  { intros i Hi. apply full_cached_entry, Hall; [done|]. destruct k; try done; cbn; nia. }
  apply prefix_hits_max.
  - rewrite length_take. destruct (decide (q = 0)) as [->|]; [lia|].
    destruct (Hcb (Z.to_nat q - 1)%nat) as (h & Hhh & _); [lia|]. apply lookup_lt_Some in Hhh. lia.
  - intros i Hi. destruct (Hcb i ltac:(lia)) as (h & Hhh & Hl). exists h. split; [|done].
    rewrite lookup_take_lt by lia. done.
Qed.

End Full.

Lemma full_found hs max_length spec eagle align dcp pcp :
  group_ok spec eagle align dcp pcp -> is_full (spec_kind spec) = true -> 0 <= max_length ->
  exists cols hit,
    full_find_longest_cache_hit (RawHashes hs) max_length gids spec eagle align dcp p = Ok (cols, hit) p /\
    found (view_of hs (hash_block_size p) (shard_block_size spec dcp)) spec (shard_block_size spec dcp)
      eagle align max_length cols hit.
Proof.
  intros [Hb [Ha Hab] [Hh Hbh] _] Hk Hm. set (blk := shard_block_size spec dcp) in *.
  pose proof (align_ge align blk Ha Hb Hab) as Hle.
  destruct (view_from hs (hash_block_size p) blk Hh Hb Hbh) as (fhs & Hfrom & Hfl & Hfi).
  pose proof (view_resolves hs (hash_block_size p) blk Hbh true align Hle) as Hres.
  assert (full_like (spec_kind spec) = true) as Hfl' by (destruct (spec_kind spec); done).
  pose proof (full_search_blocks p free gids Hwf Hgids Hne (RawHashes hs) max_length spec eagle align dcp _ fhs
    Hfl' Hb Hm ltac:(fold blk; by rewrite (proj2 (Z.ltb_ge align blk))) Hres Hfrom) as E.
  cbv zeta in E. fold blk in E.
  destruct (full_hit_bounds fhs max_length blk align eagle) as [Hhb Hsm]; [done..|].
  pose proof (mod_of_multiple _ align blk Ha Hb Hab Hsm) as Hmod.
  eexists _, _. split; [exact E|]. constructor; [|by apply full_hit_range|done|].
  - rewrite (cdiv_unique _ blk (settle eagle align blk (zlen (prefix_hits p gids
      (take (Z.to_nat (max_length / blk)) fhs)) * blk) / blk)); [by apply full_covers|done|].
    match goal with |- context [?n / blk] => pose proof (Z.div_mod n blk ltac:(lia)) end. lia.
  - intros -> L. by apply (full_longest hs).
Qed.

(** Sliding windows. *)
Lemma window_found hs max_length spec w extra eagle align :
  group_ok spec eagle align 1 1 -> spec_kind spec = SlidingWindowSpec w extra -> 0 <= max_length ->
  max_length / hash_block_size p <= zlen hs ->
  exists cols hit,
    sw_find_longest_cache_hit (RawHashes hs) max_length gids spec eagle align 1 1 p = Ok (cols, hit) p /\
    found (view_of hs (hash_block_size p) (spec_block_size spec)) spec (spec_block_size spec)
      eagle align max_length cols hit.
Proof.
  intros [Hb [Ha Hab] [Hh Hbh] Hkind] Hk Hm Hhs. rewrite Hk in Hkind. destruct Hkind as (Hw & _ & _).
  change (shard_block_size spec 1) with (spec_block_size spec) in *. set (blk := spec_block_size spec) in *.
  pose proof (align_ge align blk Ha Hb Hab) as Hle. pose proof (Z.div_pos max_length blk Hm Hb) as Hq.
  pose proof (view_resolves hs (hash_block_size p) blk Hbh false align Hle) as Hres.
  destruct (window_search_spec p free gids Hwf Hgids Hne (RawHashes hs) max_length spec w extra eagle align
    _ Hk Hw Hb Hm Hres) as (cols & n & E & [[Hl Hf] Hr Hal Ht Hn Hp Hmax]).
  { intros i Hi. fold blk in Hi. apply (view_defined hs (hash_block_size p) blk Hh Hb Hbh max_length); [done|lia]. }
  fold blk in E, Hr, Hal, Ht, Hp, Hmax. rewrite Z2Nat.id in Hr, Hp, Hmax by done.
  pose proof (cdiv_spec (w - 1) blk Hb) as Hcd. pose proof (Z.mul_div_le max_length blk Hb).
  exists cols, (n * blk). split; [exact E|]. constructor.
  - constructor; [done|]. intros g gid c Hg Hc. eapply Forall_lookup_1 in Hf; [|exact Hc]. cbn beta in Hf.
    rewrite Z.div_mul by lia. split; [done|]. intros i b Hib.
    pose proof (lookup_lt_Some _ _ _ Hib) as Hil. unfold zlen in Hf.
    assert (filled p gids (view_of hs (hash_block_size p) blk) cols i -> cached_for p (view_of hs (hash_block_size p) blk) gid i b) as Hfc.
    { intros Hfill. destruct (filled_cached_for p free gids Hwf _ cols g gid c i Hfill Hg Hc)
        as (b' & ? & ?). congruence. }
    destruct (Z.le_gt_cases (n - cdiv (w - 1) blk) (Z.of_nat i)) as [Hin|Hout].
    + right. apply Hfc, Ht. lia.
    + destruct (Hn g c i Hc) as [Hfill|Hnull]; [lia|right; by apply Hfc|left].
      split; [congruence|]. rewrite Hk. cbn. nia.
  - split; [nia|]. destruct eagle; [|nia]. destruct (Z.le_gt_cases n 0) as [|Hpos]; [nia|].
    destruct (Hp eq_refl Hpos) as [Hlt _]. nia.
  - destruct Hal as [<-|Hal]; [apply Z.mod_mul; lia|done].
  - intros He L HL HaL Hcov. pose proof (mod_of_multiple L align blk Ha Hb Hab HaL) as Hbl.
    apply Z.mod_divide in Hbl as [q ->]; [|lia].
    destruct (Z.le_gt_cases q n) as [|Hgt]; [nia|]. exfalso.
    destruct (Hmax He q) as (j & Hj & Hnc); [|by right|].
    + split; [lia|]. apply Z.div_le_lower_bound; lia.
    + apply Hnc, Hcov; [rewrite Z.div_mul; lia|]. rewrite Hk. cbn.
      unfold contiguous_blocks_for_hit in Hj. rewrite He in Hj. nia.
Qed.

(** Chunked local attention. *)
Lemma chunked_found hs max_length spec c align :
  group_ok spec false align 1 1 -> spec_kind spec = ChunkedLocalAttentionSpec c -> 0 <= max_length ->
  max_length / hash_block_size p <= zlen hs ->
  exists cols hit,
    chunked_find_longest_cache_hit (RawHashes hs) max_length gids spec false align 1 1 p = Ok (cols, hit) p /\
    found (view_of hs (hash_block_size p) (spec_block_size spec)) spec (spec_block_size spec)
      false align max_length cols hit.
Proof.
  intros [Hb [Ha Hab] [Hh Hbh] Hkind] Hk Hm Hhs. rewrite Hk in Hkind.
  destruct Hkind as (Hc & Hcb & _ & -> & _ & _).
  change (shard_block_size spec 1) with (spec_block_size spec) in *. set (blk := spec_block_size spec) in *.
  pose proof (Z.div_pos max_length blk Hm Hb) as Hq. pose proof (Z.mul_div_le max_length blk Hb) as Hmq.
  pose proof (view_resolves hs (hash_block_size p) blk Hbh false blk ltac:(lia)) as Hres.
  destruct (chunked_search_spec p free gids Hwf Hgids Hne (RawHashes hs) max_length spec c _ Hk Hc Hb Hm Hres)
    as (cols & n & E & [Hl Hr Hcols Hstop]).
  { intros i Hi. by apply (view_defined hs (hash_block_size p) blk Hh Hb Hbh max_length). }
  fold blk in E, Hr, Hcols, Hstop. set (start := max_length / c * c / blk) in *.
  pose proof (chunk_start_bounds max_length c blk Hc Hb Hm) as Hst. fold start in Hst.
  pose proof (chunk_start_aligned max_length c blk Hb Hcb) as Hsb. fold start in Hsb.
  pose proof (chunk_skip_start max_length c blk n Hc Hb Hm Hcb Hr) as Hsk. fold start in Hsk.
  exists cols, (n * blk). split; [exact E|]. constructor.
  - constructor; [done|]. intros g gid col Hg Hcol. destruct (Hcols g gid col Hg Hcol) as [Hz Hb'].
    rewrite Z.div_mul by lia. split; [done|]. intros i b Hib. specialize (Hb' i b Hib).
    destruct (Z.ltb_spec (Z.of_nat i) start) as [Hlt|]; [left|by right].
    split; [done|]. rewrite Hk. cbn. rewrite Hsk. nia.
  - nia.
  - apply Z.mod_mul. lia.
  - intros _ L HL HaL Hcov. apply Z.mod_divide in HaL as [q ->]; [|lia].
    destruct (Z.le_gt_cases q n) as [|Hgt]; [nia|]. exfalso.
    assert (q <= max_length / blk) as Hqm by (apply Z.div_le_lower_bound; lia).
    apply Hstop; [lia|]. apply Hcov; [rewrite Z.div_mul; lia|].
    rewrite Hk. cbn. rewrite (chunk_skip_start max_length c blk q) by (done || lia). fold start. nia.
Qed.

(** The interface: every kind of group the lookup supports. *)
Lemma find_found hs max_length spec eagle align dcp pcp :
  group_ok spec eagle align dcp pcp -> 0 <= max_length -> max_length / hash_block_size p <= zlen hs ->
  exists cols hit,
    find_longest_cache_hit (RawHashes hs) max_length gids spec eagle align dcp pcp p = Ok (cols, hit) p /\
    found (view_of hs (hash_block_size p) (shard_block_size spec dcp)) spec (shard_block_size spec dcp)
      eagle align max_length cols hit.
Proof.
  intros Hok Hm Hhs. unfold find_longest_cache_hit. pose proof (go_kind _ _ _ _ _ Hok) as Hk.
  destruct (spec_kind spec) as [| | |w e|c| | |] eqn:E; try done.
  1-3: apply (full_found hs max_length spec eagle align dcp pcp); [done|by rewrite E|done].
  - destruct Hk as (_ & -> & ->). by apply (window_found hs max_length spec w e).
  - destruct Hk as (_ & _ & -> & _ & -> & ->). by apply (chunked_found hs max_length spec c).
Qed.

End Group.

(** ** Several groups *)

(** What the lookup finds at the indices of a spec group. *)
Definition stored (h : HybridState) (ids : list Z) (cols : list (list loc)) (len : Z) : Prop :=
  forall g gid c, ids !! g = Some gid -> cols !! g = Some c ->
    hy_blocks h !! Z.to_nat gid = Some (Some c) /\ hy_lens h !! Z.to_nat gid = Some len.

Definition shape (n : nat) (h : HybridState) : Prop :=
  length (hy_blocks h) = n /\ length (hy_lens h) = n.

Lemma store_hits_frame ids cols len h i :
  (forall gid, gid ∈ ids -> Z.to_nat gid <> i) ->
  hy_blocks (store_hits ids cols len h) !! i = hy_blocks h !! i /\
  hy_lens (store_hits ids cols len h) !! i = hy_lens h !! i.
Proof.
  revert cols h. induction ids as [|gid ids IH]; intros cols h Hi; [done|].
  destruct cols as [|c cols]; [done|].
  set (h1 := mkHybrid (hy_curr h) (hy_longest h) (<[Z.to_nat gid := Some c]> (hy_blocks h))
    (<[Z.to_nat gid := len]> (hy_lens h)) (hy_verified h)).
  change (store_hits (gid :: ids) (c :: cols) len h) with (store_hits ids cols len h1).
  destruct (IH cols h1) as [-> ->]; [intros x Hx; apply Hi; by right|].
  cbn. pose proof (Hi gid ltac:(by left)) as Hne.
  by rewrite !list_lookup_insert_ne.
Qed.

Lemma store_hits_fields ids cols len h :
  hy_curr (store_hits ids cols len h) = hy_curr h /\ hy_longest (store_hits ids cols len h) = hy_longest h /\
  length (hy_blocks (store_hits ids cols len h)) = length (hy_blocks h) /\
  length (hy_lens (store_hits ids cols len h)) = length (hy_lens h).
Proof.
  unfold store_hits. generalize (zip ids cols). intros l. revert h.
  induction l as [|[gid c] l IH]; intros h; [done|]. cbn [foldl].
  destruct (IH (mkHybrid (hy_curr h) (hy_longest h) (<[Z.to_nat gid := Some c]> (hy_blocks h))
    (<[Z.to_nat gid := len]> (hy_lens h)) (hy_verified h))) as (E1 & E2 & E3 & E4).
  cbn [hy_blocks hy_lens] in E3, E4. rewrite length_insert in E3. rewrite length_insert in E4. by split_and!.
Qed.

Lemma store_hits_stored ids cols len h n :
  NoDup ids -> Forall (fun g => 0 <= g < Z.of_nat n) ids -> shape n h ->
  stored (store_hits ids cols len h) ids cols len.
Proof.
  revert cols h. induction ids as [|gid ids IH]; intros cols h Hnd Hin Hsh; [intros g ? ? Hg; by destruct g|].
  apply NoDup_cons in Hnd as [Hni Hnd]. apply Forall_cons in Hin as [Hg Hin]. destruct Hsh as [Hs1 Hs2].
  destruct cols as [|c cols]; [intros g ? ? _ Hc; by destruct g|].
  set (h1 := mkHybrid (hy_curr h) (hy_longest h) (<[Z.to_nat gid := Some c]> (hy_blocks h))
    (<[Z.to_nat gid := len]> (hy_lens h)) (hy_verified h)).
  change (store_hits (gid :: ids) (c :: cols) len h) with (store_hits ids cols len h1).
  assert (stored (store_hits ids cols len h1) ids cols len) as Hst
    by (apply IH; [done|done|]; split; cbn; by rewrite length_insert).
  intros [|g] gid' c' Hgi Hci; [|by apply (Hst g)]. injection Hgi as <-. injection Hci as <-.
  destruct (store_hits_frame ids cols len h1 (Z.to_nat gid)) as [-> ->].
  { intros x Hx E. rewrite Forall_forall in Hin. specialize (Hin x Hx). apply Hni.
    by replace gid with x by lia. }
  cbn. by rewrite !list_lookup_insert_eq by lia.
Qed.

Lemma stored_mono h h' ids cols len :
  (forall gid, gid ∈ ids -> hy_blocks h' !! Z.to_nat gid = hy_blocks h !! Z.to_nat gid /\
                            hy_lens h' !! Z.to_nat gid = hy_lens h !! Z.to_nat gid) ->
  stored h ids cols len -> stored h' ids cols len.
Proof.
  intros Heq Hst g gid c Hg Hc. destruct (Heq gid) as [-> ->]; [by eapply list_elem_of_lookup_2|].
  by apply (Hst g).
Qed.

Lemma elem_of_group_ids (l : list SpecGroup) gid :
  gid ∈ concat (sg_ids <$> l) <-> exists sg, sg ∈ l /\ gid ∈ sg_ids sg.
Proof.
  rewrite list_elem_of_In, in_concat. split.
  - intros (x & Hx & Hg). apply list_elem_of_In, list_elem_of_fmap in Hx as (sg & -> & Hsg).
    exists sg. split; [done|]. by apply list_elem_of_In.
  - intros (sg & Hsg & Hg). exists (sg_ids sg). rewrite <- !list_elem_of_In. split; [|done].
    apply list_elem_of_fmap. by exists sg.
Qed.

Section Hybrid.
Context `{Env}.
Context (p : BlockPool) (free : list loc).
Hypothesis Hwf : pool_wf p free.
Variables (ms : list Manager) (sgs : list SpecGroup) (hs : list BlockHash) (maxl align : Z) (n : nat).

(** The manager whose block size and ranks the lookup uses for a spec group. *)
Definition sg_mgr (sg : SpecGroup) : option Manager := head (sg_ids sg) ≫= fun i => ms !! Z.to_nat i.
Definition sg_blk (sg : SpecGroup) : Z := from_option bsz 1 (sg_mgr sg).
Definition sg_view (sg : SpecGroup) : BlockHashList := view_of hs (hash_block_size p) (sg_blk sg).
Definition sg_kind (sg : SpecGroup) : SpecKind := spec_kind (sg_spec sg).

(** A spec group the configuration makes ready for lookup. *)
Record lookup_ok (sg : SpecGroup) : Prop := {
  lk_ids : sg_ids sg <> [];
  lk_range : Forall (fun g => 0 <= g < Z.of_nat n) (sg_ids sg);
  lk_mgr : exists m, sg_mgr sg = Some m /\
    bsz m = shard_block_size (sg_spec sg) (dcp_world_size (cfg m)) /\
    group_ok p (sg_spec sg) (sg_eagle sg) align (dcp_world_size (cfg m)) (pcp_world_size (cfg m))
}.
Hypothesis Hok : Forall lookup_ok sgs.
Hypothesis Hn : Z.of_nat n <= 2 ^ 32.
Hypothesis Hnodup : NoDup (concat (sg_ids <$> sgs)).
Hypothesis Halign : 0 < align.
Hypothesis Hmaxl : 0 <= maxl.
Hypothesis Hhashes : maxl / hash_block_size p <= zlen hs.

(** All groups could serve [L] tokens. *)
Definition servable (L : Z) : Prop :=
  0 <= L <= maxl /\ L mod align = 0 /\
  forall sg, sg ∈ sgs -> coverable p (sg_ids sg) (sg_view sg) (sg_kind sg) (sg_blk sg) L.

Definition no_eagle : Prop := forall sg, sg ∈ sgs -> sg_eagle sg = false.

(** The result recorded for a spec group. *)
Definition entry (h : HybridState) (sg : SpecGroup) (len : Z) : Prop :=
  0 <= len /\ len mod align = 0 /\ exists cols,
    covers p (sg_ids sg) (sg_view sg) (sg_kind sg) (sg_blk sg) len cols /\
    stored h (sg_ids sg) cols len.
Definition blank (h : HybridState) (sg : SpecGroup) : Prop :=
  forall gid, gid ∈ sg_ids sg -> hy_blocks h !! Z.to_nat gid = Some None.

(** A recorded result is at most the longest seen and, without EAGLE, not below
    what all groups could serve. *)
Definition recorded (h : HybridState) (sg : SpecGroup) (len : Z) : Prop :=
  entry h sg len /\ len <= hy_longest h /\ (no_eagle -> forall L, servable L -> L <= len).

(** Between two groups of a round that started at length [start]. *)
Record round (start : Z) (pre : list SpecGroup) (h : HybridState) : Prop := {
  rd_shape : shape n h;
  rd_curr : 0 <= hy_curr h <= start;
  rd_first : (hy_curr h mod align = 0 /\ hy_curr h <= hy_longest h) \/
             (pre = [] /\ forall sg, sg ∈ sgs -> blank h sg);
  rd_done : forall sg, sg ∈ pre -> exists len, recorded h sg len /\ hy_curr h <= len /\
    (is_full (sg_kind sg) = false -> len <= start);
  rd_all : forall sg, sg ∈ sgs -> blank h sg \/ exists len, recorded h sg len;
  rd_last : forall sg, last pre = Some sg -> is_full (sg_kind sg) = false -> recorded h sg (hy_curr h);
  rd_max : no_eagle -> forall L, servable L -> L <= hy_curr h;
  rd_other : forall i, (i < n)%nat -> (forall sg, sg ∈ sgs -> Z.of_nat i ∉ sg_ids sg) ->
    hy_blocks h !! i = Some None
}.

Lemma group_ids_disjoint pre sg post sg' gid :
  sgs = pre ++ sg :: post -> sg' ∈ pre ++ post -> gid ∈ sg_ids sg' -> gid ∉ sg_ids sg.
Proof.
  intros E Hin Hg Hg'. rewrite E, fmap_app, fmap_cons, concat_app in Hnodup. cbn in Hnodup.
  apply NoDup_app in Hnodup as (_ & Hd & Hr). apply NoDup_app in Hr as (_ & Hd2 & _).
  apply elem_of_app in Hin as [Hin|Hin].
  - apply (Hd gid); [|apply elem_of_app; by left]. apply elem_of_group_ids. by exists sg'.
  - apply (Hd2 gid Hg'), elem_of_group_ids. by exists sg'.
Qed.

Lemma sg_ids_nodup sg : sg ∈ sgs -> NoDup (sg_ids sg).
Proof.
  intros (l1 & l2 & E)%list_elem_of_split. rewrite E, fmap_app, fmap_cons, concat_app in Hnodup.
  cbn in Hnodup. apply NoDup_app in Hnodup as (_ & _ & Hr). by apply NoDup_app in Hr as (? & _).
Qed.

Lemma recorded_frame h h' sg len :
  (forall gid, gid ∈ sg_ids sg -> hy_blocks h' !! Z.to_nat gid = hy_blocks h !! Z.to_nat gid /\
                                  hy_lens h' !! Z.to_nat gid = hy_lens h !! Z.to_nat gid) ->
  hy_longest h <= hy_longest h' -> recorded h sg len -> recorded h' sg len.
Proof.
  intros Heq Hlg ((H0 & Ha & cols & Hc & Hst) & Hl & Hm). split_and!; [|lia|done].
  split_and!; [done|done|]. exists cols. split; [done|]. by eapply stored_mono.
Qed.

Lemma blank_frame h h' sg :
  (forall gid, gid ∈ sg_ids sg -> hy_blocks h' !! Z.to_nat gid = hy_blocks h !! Z.to_nat gid) ->
  blank h sg -> blank h' sg.
Proof. intros Heq Hb gid Hg. rewrite Heq by done. by apply Hb. Qed.

(** The first id of a group with a result holds the length. *)
Lemma recorded_first h sg len gid :
  recorded h sg len -> head (sg_ids sg) = Some gid ->
  (exists c, hy_blocks h !! Z.to_nat gid = Some (Some c)) /\ hy_lens h !! Z.to_nat gid = Some len.
Proof.
  intros ((_ & _ & cols & [Hl _] & Hst) & _ & _) Hg.
  destruct (sg_ids sg) as [|g ids] eqn:E; [done|]. injection Hg as ->.
  destruct cols as [|c cols]; [done|]. destruct (Hst 0%nat gid c); [done|done|]. split; [by eexists|done].
Qed.

Section Round.
Variable start : Z.
Hypothesis Hstart : 0 <= start <= maxl.

(** A full-attention group that was looked up before only lowers the candidate. *)
Lemma round_trim pre sg h len :
  sg ∈ sgs -> is_full (sg_kind sg) = true -> round start pre h -> recorded h sg len ->
  (exists sg', sg' ∈ sgs /\ ~ blank h sg') ->
  round start (pre ++ [sg])
    (mkHybrid (Z.min (hy_curr h) len) (hy_longest h) (hy_blocks h) (hy_lens h) (hy_verified h)).
Proof.
  intros Hsg Hf [R1 R2 R3 R4 R5 R6 R7 R8] Hrec (sg' & Hsg' & Hnb).
  destruct R3 as [[R3 R3']|[_ R3]]; [|by destruct (Hnb (R3 sg' Hsg'))].
  pose proof Hrec as ((Hl0 & Hla & _) & Hll & Hlm).
  assert (forall sg'' l, recorded h sg'' l -> recorded (mkHybrid (Z.min (hy_curr h) len) (hy_longest h)
    (hy_blocks h) (hy_lens h) (hy_verified h)) sg'' l) as Hfr
    by (intros sg'' l; apply recorded_frame; [done|cbn; lia]).
  constructor; cbn [hy_curr hy_longest hy_blocks hy_lens]; [done|lia| | | | | |done].
  - left. split; [|lia]. destruct (Z.min_spec (hy_curr h) len) as [[_ ->]|[_ ->]]; done.
  - intros x [Hx| ->%list_elem_of_singleton]%elem_of_app.
    + destruct (R4 x Hx) as (l & Hr & Hc & Hs). exists l. split_and!; [by apply Hfr|lia|done].
    + exists len. split_and!; [by apply Hfr|lia|]. rewrite Hf. done.
  - intros x Hx. destruct (R5 x Hx) as [?|(l & Hr)]; [by left|right]. exists l. by apply Hfr.
  - intros x. rewrite last_snoc. intros [= <-]. rewrite Hf. done.
  - intros Hne L HL. specialize (R7 Hne L HL). specialize (Hlm Hne L HL). lia.
Qed.

(** A search records its result and lowers the candidate to it. *)
Lemma round_search pre sg post h cols new verified :
  sgs = pre ++ sg :: post -> round start pre h ->
  covers p (sg_ids sg) (sg_view sg) (sg_kind sg) (sg_blk sg) new cols ->
  0 <= new <= hy_curr h -> new mod align = 0 -> (no_eagle -> forall L, servable L -> L <= new) ->
  round start (pre ++ [sg]) (store_hits (sg_ids sg) cols new
    (mkHybrid new (Z.max (hy_longest h) new) (hy_blocks h) (hy_lens h) verified)).
Proof.
  intros Esgs [R1 R2 R3 R4 R5 R6 R7 R8] Hcov Hnew Hal Hmx.
  assert (sg ∈ sgs) as Hsg by (rewrite Esgs; apply elem_of_app; right; by left).
  rewrite Forall_forall in Hok. pose proof (Hok sg Hsg) as [_ Hrng _].
  set (h1 := mkHybrid new (Z.max (hy_longest h) new) (hy_blocks h) (hy_lens h) verified).
  destruct (store_hits_fields (sg_ids sg) cols new h1) as (F1 & F2 & F3 & F4).
  assert (recorded (store_hits (sg_ids sg) cols new h1) sg new) as Hrec.
  { split_and!; [|rewrite F2; cbn; lia|done]. split_and!; [lia|done|]. exists cols. split; [done|].
    apply (store_hits_stored _ _ _ _ n); [by apply sg_ids_nodup|done|done]. }
  assert (forall sg', sg' ∈ pre ++ post -> forall gid, gid ∈ sg_ids sg' ->
    hy_blocks (store_hits (sg_ids sg) cols new h1) !! Z.to_nat gid = hy_blocks h !! Z.to_nat gid /\
    hy_lens (store_hits (sg_ids sg) cols new h1) !! Z.to_nat gid = hy_lens h !! Z.to_nat gid) as Hfr.
  { intros sg' Hsg' gid Hg. apply (store_hits_frame _ _ _ h1). intros g' Hg' E.
    assert (sg' ∈ sgs) as Hin by (rewrite Esgs, elem_of_app, elem_of_cons; apply elem_of_app in Hsg'; tauto).
    pose proof (lk_range _ (Hok sg' Hin)) as Hr'. rewrite Forall_forall in Hrng, Hr'.
    specialize (Hrng g' Hg'). specialize (Hr' gid Hg).
    apply (group_ids_disjoint pre sg post sg' gid Esgs Hsg' Hg). by replace gid with g' by lia. }
  assert (forall sg' l, sg' ∈ pre ++ post -> recorded h sg' l ->
    recorded (store_hits (sg_ids sg) cols new h1) sg' l) as Hkeep.
  { intros sg' l Hsg'. apply recorded_frame; [by apply Hfr|]. rewrite F2. cbn. lia. }
  constructor; rewrite ?F1, ?F2; cbn [hy_curr hy_longest h1].
  - destruct R1. split; [by rewrite F3|by rewrite F4].
  - lia.
  - left. split; [done|lia].
  - intros x [Hx| ->%list_elem_of_singleton]%elem_of_app; [|exists new; split_and!; [done|lia|lia]].
    destruct (R4 x Hx) as (l & Hr & Hc & Hs). exists l.
    split_and!; [apply Hkeep; [apply elem_of_app; by left|done]|lia|done].
  - intros x Hx. assert (x = sg \/ x ∈ pre ++ post) as [->|Hpp]
      by (rewrite Esgs, elem_of_app, elem_of_cons in Hx; rewrite elem_of_app; tauto).
    + right. by exists new.
    + destruct (R5 x Hx) as [Hbl|(l & Hr)].
      * left. apply (blank_frame h); [|done]. intros gid Hg. by apply (Hfr x).
      * right. exists l. by apply Hkeep.
  - intros x. rewrite last_snoc. by intros [= <-].
  - done.
  - intros i Hi Hno. destruct (store_hits_frame (sg_ids sg) cols new h1 i) as [-> _]; [|by apply R8].
    intros gid Hg E. rewrite Forall_forall in Hrng. specialize (Hrng gid Hg).
    apply (Hno sg Hsg). by replace (Z.of_nat i) with gid by lia.
Qed.

(** One group of the round. *)
Lemma check_group_spec idx pre sg post h :
  sgs = pre ++ sg :: post -> round start pre h ->
  exists h', check_group ms hs maxl align h (idx, sg) p = Ok h' p /\ round start (pre ++ [sg]) h'.
Proof.
  intros Esgs Hr. assert (sg ∈ sgs) as Hsg by (rewrite Esgs; apply elem_of_app; right; by left).
  pose proof Hok as Hok'. rewrite Forall_forall in Hok'. pose proof (Hok' sg Hsg) as [Hids Hrng (m & Hm & Hbm & Hgo)].
  unfold sg_mgr in Hm. destruct (head (sg_ids sg)) as [gid|] eqn:Hg; [|done]. cbn in Hm.
  assert (gid ∈ sg_ids sg) as Hgin by (destruct (sg_ids sg); [done|]; injection Hg as ->; by left).
  pose proof Hr as [_ R2 _ _ R5 _ R7 _].
  assert (exists cb, hy_blocks h !! Z.to_nat gid = Some cb) as [cb Hcb].
  { destruct (R5 sg Hsg) as [Hb|(l & Hrec)]; [by eexists; apply Hb|].
    destruct (recorded_first h sg l gid Hrec Hg) as [[c ?] _]. by eexists. }
  unfold check_group. rewrite Hg.
  unfold mbind at 1, M_bind at 1, of_option at 1, mret at 1, M_ret at 1.
  unfold mbind at 1, M_bind at 1, of_option at 1. rewrite Hm. unfold mret at 1, M_ret at 1.
  unfold mbind at 1, M_bind at 1, of_option at 1. rewrite Hcb. unfold mret at 1, M_ret at 1.
  fold (sg_kind sg). destruct (is_full (sg_kind sg) && _) eqn:Ef.
  { apply andb_true_iff in Ef as [Ef Ec]. destruct cb as [cb|]; [|done].
    destruct (R5 sg Hsg) as [Hb|(len & Hrec)]; [by rewrite (Hb gid Hgin) in Hcb|].
    destruct (recorded_first h sg len gid Hrec Hg) as [_ Hlen].
    unfold mbind, M_bind. rewrite Hlen. cbn [of_option]. eexists. split; [reflexivity|].
    apply round_trim; [done|done|done|done|]. exists sg. split; [done|].
    intros Hb. by rewrite (Hb gid Hgin) in Hcb. }
  set (drop := sg_eagle sg && _). set (ml := if drop then _ else hy_curr h).
  pose proof (go_size _ _ _ _ _ _ Hgo) as Hbpos.
  assert (0 <= ml <= maxl) as Hml by (subst ml; destruct drop; lia).
  assert (sg_blk sg = bsz m) as Hblk by (unfold sg_blk, sg_mgr; rewrite Hg; cbn; by rewrite Hm).
  assert (group_ok p (sg_spec sg) drop align (dcp_world_size (cfg m)) (pcp_world_size (cfg m))) as Hgo'.
  { destruct Hgo as [G1 G2 G3 G4]. constructor; [done..|]. subst drop.
    destruct (spec_kind (sg_spec sg)); try done. destruct G4 as (? & ? & -> & ?). done. }
  assert (Forall (fun g => 0 <= g < 2 ^ 32) (sg_ids sg)) as Hr32
    by (eapply Forall_impl; [exact Hrng|]; intros g Hg'; cbn beta in Hg'; lia).
  destruct (find_found p free (sg_ids sg) Hwf Hr32 Hids hs ml (sg_spec sg) drop align
    (dcp_world_size (cfg m)) (pcp_world_size (cfg m)) Hgo' ltac:(lia)) as (cols & new & E & [D1 D2 D3 D4]).
  { etrans; [|exact Hhashes]. apply Z.div_le_mono; [apply Hgo|lia]. }
  rewrite <- Hbm, <- Hblk in D1, D2, D4. fold (sg_view sg) in D1, D4. fold (sg_kind sg) in D1, D4.
  unfold mbind, M_bind. rewrite E. eexists. split; [reflexivity|].
  apply (round_search pre sg post); [done|done|done| |done|].
  - split; [lia|]. subst ml. destruct drop; lia.
  - intros Hne L HL. assert (drop = false) as Hd by (subst drop; by rewrite (Hne sg Hsg)).
    pose proof (R7 Hne L HL) as HLc. destruct HL as (HL1 & HL2 & HL3).
    apply D4; [done| |done|by apply HL3]. subst ml. rewrite Hd. lia.
Qed.

Lemma round_loop h :
  round start [] h ->
  exists h', fold_m (check_group ms hs maxl align) h (imap pair sgs) p = Ok h' p /\ round start sgs h'.
Proof.
  intros H0.
  enough (forall post pre k h, sgs = pre ++ post -> round start pre h ->
    exists h', fold_m (check_group ms hs maxl align) h (imap (fun i x => (k + i, x)%nat) post) p = Ok h' p /\
      round start sgs h') as Hgo by (apply (Hgo sgs [] 0%nat); done).
  intros post. induction post as [|sg post IH]; intros pre k h1 Esgs Hr.
  - exists h1. split; [done|]. rewrite app_nil_r in Esgs. by rewrite Esgs.
  - cbn [imap fold_m]. destruct (check_group_spec (k + 0)%nat pre sg post h1 Esgs Hr) as (h2 & E & Hr2).
    destruct (IH (pre ++ [sg]) (S k) h2) as (h3 & E3 & Hr3); [by rewrite <- app_assoc|done|].
    exists h3. split; [|done]. unfold mbind, M_bind. rewrite E. rewrite <- E3. f_equal.
    apply imap_ext. intros i x _. cbn. f_equal. lia.
Qed.

End Round.

(** The candidate all groups agree on. *)
Record agreed (hit : Z) (h : HybridState) : Prop := {
  ag_shape : shape n h;
  ag_range : 0 <= hit <= maxl;
  ag_aligned : hit mod align = 0;
  ag_longest : hit <= hy_longest h;
  ag_groups : forall sg, sg ∈ sgs -> exists len, recorded h sg len /\ hit <= len /\
    (is_full (sg_kind sg) = false -> len = hit);
  ag_max : no_eagle -> forall L, servable L -> L <= hit;
  ag_other : forall i, (i < n)%nat -> (forall sg, sg ∈ sgs -> Z.of_nat i ∉ sg_ids sg) ->
    hy_blocks h !! i = Some None
}.

Hypothesis Hsgs : sgs <> [].

(** Every round but the last lowers the candidate, so [hit + 1] rounds do. *)
Lemma rounds_spec fuel simple hit h :
  0 <= hit <= maxl -> (Z.to_nat hit < fuel)%nat -> hy_curr h = hit -> round hit [] h ->
  (simple = true -> exists sg1 sg2, sgs = [sg1; sg2] /\ is_full (sg_kind sg1) = true) ->
  exists hit' h', hybrid_rounds fuel ms sgs hs maxl align simple hit h p = Ok (hit', h') p /\
    agreed hit' h'.
Proof.
  intros Hhit Hfuel Hcur Hr Hsimple. revert hit h Hhit Hfuel Hcur Hr.
  induction fuel as [|fuel IH]; intros hit h Hhit Hfuel Hcur Hr; [lia|]. cbn [hybrid_rounds].
  replace (mkHybrid hit (hy_longest h) (hy_blocks h) (hy_lens h) (hy_verified h)) with h
    by (rewrite <- Hcur; by destruct h).
  destruct (round_loop hit Hhit h Hr) as (h1 & E & [R1 R2 R3 R4 R5 R6 R7 R8]).
  unfold mbind, M_bind. rewrite E. destruct R3 as [[R3 R3']|[R3 _]]; [|done].
  destruct (Z.leb_spec hit (hy_curr h1)) as [Hge|Hlt].
  - exists hit, h1. split; [done|]. assert (hy_curr h1 = hit) as Hc by lia. rewrite Hc in *.
    constructor; try done. intros sg Hsg. destruct (R4 sg Hsg) as (len & Hrec & Hl & Hf).
    exists len. split_and!; [done|done|]. intros Hnf. specialize (Hf Hnf). lia.
  - destruct simple.
    + exists (hy_curr h1), h1. split; [done|]. constructor; try done; [lia|]. intros sg Hsg.
      destruct (R4 sg Hsg) as (len & Hrec & Hl & Hf).
      destruct (is_full (sg_kind sg)) eqn:Efull; [exists len; split_and!; done|].
      exists (hy_curr h1). split_and!; [|lia|done]. apply R6; [|done].
      destruct Hsimple as (sg1 & sg2 & -> & Hf1); [done|].
      apply elem_of_cons in Hsg as [->|[->|?%elem_of_nil]%elem_of_cons]; [congruence|done|done].
    + apply IH; [lia|lia|done|]. constructor; try done; [lia|by left|].
      by intros sg ?%elem_of_nil.
Qed.

(** ** Truncating the full-attention groups *)

Lemma alter_ids {A} (f : A -> A) (ids : list Z) (l : list A) i :
  NoDup ids -> Forall (fun g => 0 <= g) ids ->
  foldl (fun l gid => alter f (Z.to_nat gid) l) l ids !! i =
    if decide (Z.of_nat i ∈ ids) then f <$> l !! i else l !! i.
Proof.
  revert l. induction ids as [|gid ids IH]; intros l Hnd Hpos.
  - rewrite decide_False; [done|apply not_elem_of_nil].
  - apply NoDup_cons in Hnd as [Hni Hnd]. apply Forall_cons in Hpos as [Hp Hpos]. cbn [foldl].
    rewrite IH by done. destruct (decide (Z.of_nat i = gid)) as [E|E].
    + rewrite decide_False by (by rewrite E). rewrite decide_True by (rewrite E; by left).
      rewrite <- E, Nat2Z.id. apply list_lookup_alter_eq.
    + rewrite list_lookup_alter_ne by lia.
      destruct (decide (Z.of_nat i ∈ ids)) as [Hi|Hi].
      * by rewrite decide_True by (by right).
      * by rewrite decide_False by (intros [?|?]%elem_of_cons; tauto).
Qed.

Lemma alter_ids_length {A} (f : A -> A) (ids : list Z) (l : list A) :
  length (foldl (fun l gid => alter f (Z.to_nat gid) l) l ids) = length l.
Proof. revert l. induction ids as [|gid ids IH]; intros l; [done|]. cbn. rewrite IH. apply length_alter. Qed.

Section Trim.
Variables (hit : Z) (h : HybridState).

(** After the groups [pre]. *)
Record trimming (pre : list SpecGroup) (blocks : list (option (list loc))) : Prop := {
  tg_len : length blocks = length (hy_blocks h);
  tg_full : forall sg gid, sg ∈ pre -> is_full (sg_kind sg) = true -> gid ∈ sg_ids sg ->
    blocks !! Z.to_nat gid =
      fmap (fun blks => py_upto blks (cdiv hit (sg_blk sg))) <$> hy_blocks h !! Z.to_nat gid;
  tg_rest : forall i, (forall sg, sg ∈ pre -> is_full (sg_kind sg) = true -> Z.of_nat i ∉ sg_ids sg) ->
    blocks !! i = hy_blocks h !! i
}.

Lemma trim_one pre sg post blocks :
  sgs = pre ++ sg :: post -> trimming pre blocks ->
  exists blocks', trim_full ms hit blocks sg p = Ok blocks' p /\ trimming (pre ++ [sg]) blocks'.
Proof.
  intros Esgs [T0 T1 T2]. assert (sg ∈ sgs) as Hsg by (rewrite Esgs; apply elem_of_app; right; by left).
  unfold trim_full. fold (sg_kind sg). destruct (is_full (sg_kind sg)) eqn:Ef; cbn [negb].
  2: { eexists. split; [reflexivity|]. constructor; [done|..].
       - intros x gid [Hx| ->%list_elem_of_singleton]%elem_of_app; [by apply T1|congruence].
       - intros i Hi. apply T2. intros x Hx. apply Hi, elem_of_app. by left. }
  pose proof Hok as Hok'. rewrite Forall_forall in Hok'. pose proof (Hok' sg Hsg) as [Hids Hrng (m & Hm & _)].
  unfold mbind, M_bind. assert (sg_blk sg = bsz m) as Hblk by (unfold sg_blk; by rewrite Hm).
  unfold sg_mgr in Hm. destruct (head (sg_ids sg)) as [g0|]; [|done]. cbn in Hm.
  cbn [of_option]. unfold mret at 1, M_ret at 1. rewrite Hm. cbn [of_option].
  unfold mret, M_ret. cbv beta iota zeta. rewrite <- Hblk.
  eexists. split; [reflexivity|].
  assert (Forall (fun g => 0 <= g) (sg_ids sg)) as Hpos
    by (eapply Forall_impl; [exact Hrng|]; intros g Hg; cbn beta in Hg; lia).
  constructor; [by rewrite alter_ids_length|..].
  - intros x gid Hx Hxf Hg.
    assert (0 <= gid) as Hg0.
    { assert (x ∈ sgs) as Hin by (rewrite Esgs; apply elem_of_app in Hx as [?|?%list_elem_of_singleton];
        [apply elem_of_app; by left|subst; done]).
      pose proof (lk_range _ (Hok' x Hin)) as Hr. rewrite Forall_forall in Hr. specialize (Hr gid Hg). lia. }
    rewrite alter_ids by (done || by apply sg_ids_nodup). rewrite Z2Nat.id by done.
    apply elem_of_app in Hx as [Hx|Hx].
    + rewrite decide_False by (apply (group_ids_disjoint pre sg post x gid Esgs); [apply elem_of_app; by left|done]).
      by apply T1.
    + apply list_elem_of_singleton in Hx as ->. rewrite decide_True by done. rewrite T2; [done|].
      rewrite Z2Nat.id by done. intros y Hy _ Hgy.
      apply (group_ids_disjoint pre sg post y gid Esgs); [apply elem_of_app; by left|done|done].
  - intros i Hi. rewrite alter_ids by (done || by apply sg_ids_nodup).
    rewrite decide_False; [apply T2|].
    + intros x Hx. apply Hi, elem_of_app. by left.
    + apply Hi; [apply elem_of_app; right; by left|done].
Qed.

Lemma trim_loop :
  exists blocks, fold_m (trim_full ms hit) (hy_blocks h) sgs p = Ok blocks p /\ trimming sgs blocks.
Proof.
  enough (forall post pre blocks, sgs = pre ++ post -> trimming pre blocks ->
    exists blocks', fold_m (trim_full ms hit) blocks post p = Ok blocks' p /\ trimming sgs blocks') as Hgo.
  { apply (Hgo sgs []); [done|]. constructor; [done| |done]. by intros sg gid ?%elem_of_nil. }
  intros post. induction post as [|sg post IH]; intros pre blocks Esgs Ht.
  - exists blocks. rewrite app_nil_r in Esgs. split; [done|]. by rewrite Esgs.
  - destruct (trim_one pre sg post blocks Esgs Ht) as (b1 & E1 & Ht1).
    destruct (IH (pre ++ [sg]) b1) as (b2 & E2 & Ht2); [by rewrite <- app_assoc|done|].
    exists b2. split; [|done]. cbn. unfold mbind, M_bind. by rewrite E1.
Qed.

End Trim.

(** Full attention is downward closed. *)
Lemma full_covers_down ids v k blk len hit cols :
  is_full k = true -> 0 < blk -> 0 <= hit <= len ->
  covers p ids v k blk len cols ->
  covers p ids v k blk hit ((fun c => py_upto c (hit / blk)) <$> cols).
Proof.
  intros Hk Hb Hh [H1 H2]. constructor; [by rewrite length_fmap|]. intros g gid c Hg Hc.
  apply list_lookup_fmap_Some in Hc as (c0 & -> & Hc0). destruct (H2 g gid c0 Hg Hc0) as [Hl Hb0].
  pose proof (Z.div_pos hit blk ltac:(lia) Hb). pose proof (Z.div_le_mono hit len blk Hb ltac:(lia)).
  rewrite py_upto_take by done. split; [unfold zlen in *; rewrite length_take; lia|].
  intros i b Hib. apply lookup_take_Some in Hib as [Hib Hi]. destruct (Hb0 i b Hib) as [[_ Hle]|?]; [|by right].
  exfalso. destruct k; try done; cbn in Hle; nia.
Qed.

(** The blocks of the answer serve the spec group. *)
Definition group_served (sg : SpecGroup) (hit : Z) (blocks : list (list loc)) : Prop :=
  exists cols, covers p (sg_ids sg) (sg_view sg) (sg_kind sg) (sg_blk sg) hit cols /\
    forall g gid c, sg_ids sg !! g = Some gid -> cols !! g = Some c -> blocks !! Z.to_nat gid = Some c.

Lemma agreed_served hit h blocks sg :
  agreed hit h -> trimming hit h sgs blocks -> sg ∈ sgs ->
  group_served sg hit (default [] <$> blocks).
Proof.
  intros [_ Hr Ha _ Hg _ _] [_ T1 T2] Hsg.
  pose proof Hok as Hok'. rewrite Forall_forall in Hok'. pose proof (Hok' sg Hsg) as [_ Hrng (m & Hm & Hbm & Hgo)].
  assert (sg_blk sg = bsz m) as Hblk by (unfold sg_blk; by rewrite Hm).
  destruct Hgo as [G1 [G2 G3] _ _]. rewrite <- Hbm, <- Hblk in G1, G3.
  destruct (Hg sg Hsg) as (len & ((_ & _ & cols & Hcov & Hst) & _ & _) & Hle & Hnf).
  destruct (is_full (sg_kind sg)) eqn:Ef.
  - exists ((fun c => py_upto c (hit / sg_blk sg)) <$> cols). split; [apply (full_covers_down _ _ _ _ len); [done|done|lia|done]|].
    intros g gid c Hgi Hc. apply list_lookup_fmap_Some in Hc as (c0 & -> & Hc0).
    destruct (Hst g gid c0 Hgi Hc0) as [Hb _].
    rewrite list_lookup_fmap, (T1 sg gid Hsg Ef (list_elem_of_lookup_2 _ _ _ Hgi)), Hb. cbn.
    do 2 f_equal. apply cdiv_unique; [done|].
    pose proof (mod_of_multiple hit align (sg_blk sg) G2 G1 G3 Ha).
    pose proof (Z.div_mod hit (sg_blk sg) ltac:(lia)). lia.
  - rewrite (Hnf eq_refl) in *. exists cols. split; [done|]. intros g gid c Hgi Hc.
    destruct (Hst g gid c Hgi Hc) as [Hb _]. rewrite list_lookup_fmap, T2, Hb; [done|].
    assert (gid ∈ sg_ids sg) as Hin by by eapply list_elem_of_lookup_2.
    rewrite Forall_forall in Hrng. specialize (Hrng gid Hin). rewrite Z2Nat.id by lia.
    intros x Hx Hxf Hgx. apply list_elem_of_split in Hsg as (l1 & l2 & El).
    assert (x ∈ l1 ++ l2) as Hx'.
    { rewrite El, elem_of_app, elem_of_cons in Hx. rewrite elem_of_app. destruct Hx as [?|[->|?]]; [tauto|congruence|tauto]. }
    by apply (group_ids_disjoint l1 sg l2 x gid El Hx' Hgx).
Qed.

End Hybrid.

(** What the configuration and the request owe a lookup over several groups. *)
Record hybrid_ok (co : Coordinator) (ms : list Manager) (p : BlockPool) (hs : list BlockHash)
    (maxl : Z) : Prop := {
  hk_groups : Forall (lookup_ok p ms (co_scheduler_block_size co)
                        (length (kv_cache_groups (co_config co)))) (attention_groups co);
  hk_count : zlen (kv_cache_groups (co_config co)) <= 2 ^ 32;
  hk_nodup : NoDup (concat (sg_ids <$> attention_groups co));
  hk_some : attention_groups co <> [];
  hk_align : 0 < co_scheduler_block_size co;
  hk_max : 0 <= maxl;
  hk_hashes : maxl / hash_block_size p <= zlen hs
}.

Lemma hybrid_hit_spec `{Env} co ms p free hs maxl :
  pool_wf p free -> hybrid_ok co ms p hs maxl ->
  let align := co_scheduler_block_size co in
  exists blocks hit unc,
    hybrid_find_longest_cache_hit co ms hs maxl p = Ok (blocks, hit, unc) p /\
    0 <= hit <= maxl /\ hit mod align = 0 /\ 0 <= unc /\
    length blocks = length (kv_cache_groups (co_config co)) /\
    (forall sg, sg ∈ attention_groups co -> group_served p ms hs sg hit blocks) /\
    (forall i, (i < length (kv_cache_groups (co_config co)))%nat ->
       (forall sg, sg ∈ attention_groups co -> Z.of_nat i ∉ sg_ids sg) -> blocks !! i = Some []) /\
    (no_eagle (attention_groups co) ->
       forall L, servable p ms (attention_groups co) hs maxl align L -> L <= hit).
Proof.
  intros Hwf [Hg Hc Hnd Hs Ha Hm Hhs] align. set (n := length (kv_cache_groups (co_config co))) in *.
  set (sgs := attention_groups co) in *. set (h0 := mkHybrid maxl 0 (replicate n None) (replicate n 0) []).
  assert (forall i, (i < n)%nat -> hy_blocks h0 !! i = Some None) as Hb0
    by (intros i Hi; by apply lookup_replicate_2).
  assert (round p ms sgs hs maxl align n maxl [] h0) as Hr0.
  { assert (forall sg, sg ∈ sgs -> blank h0 sg) as Hbl.
    { intros sg Hsg gid Hgid. rewrite Forall_forall in Hg. pose proof (lk_range _ _ _ _ _ (Hg sg Hsg)) as Hr.
      rewrite Forall_forall in Hr. specialize (Hr gid Hgid). apply Hb0. lia. }
    constructor; cbn [hy_curr hy_longest h0]; try done.
    - split; apply length_replicate.
    - by right.
    - by intros sg ?%elem_of_nil.
    - intros sg Hsg. left. by apply Hbl.
    - intros _ L ((_ & HL) & _). done.
    - intros i Hi _. by apply Hb0. }
  unfold hybrid_find_longest_cache_hit. fold n sgs align.
  match goal with |- context [hybrid_rounds _ _ _ _ _ _ ?b _ _] => set (simple := b) end.
  destruct (rounds_spec p free Hwf ms sgs hs maxl align n Hg Hc Hnd Hm Hhs Hs
    (S (Z.to_nat maxl)) simple maxl h0 ltac:(lia) ltac:(lia) eq_refl Hr0) as (hit & h & E & Hagr).
  { intros Hsi. unfold simple in Hsi. apply andb_true_iff in Hsi as [Hl%Z.eqb_eq Hf].
    destruct sgs as [|sg1 [|sg2 [|]]]; unfold zlen in Hl; cbn in Hl; try lia. by exists sg1, sg2. }
  destruct (trim_loop p ms sgs align n Hg Hnd Hs hit h) as (blocks & E2 & Ht).
  pose proof Hagr as [A1 A2 A3 A4 A5 A6 A7].
  exists (default [] <$> blocks), hit, (hy_longest h - hit). split_and!; [|lia|lia|done|lia| | | |done].
  - unfold mbind, M_bind. fold h0. rewrite E, E2. done.
  - rewrite length_fmap, (tg_len _ _ _ _ _ Ht). apply A1.
  - intros sg Hsg. by apply (agreed_served p ms sgs hs maxl align n Hg Hnd hit h).
  - intros i Hi Hno. rewrite list_lookup_fmap, (tg_rest _ _ _ _ _ Ht), A7; [done|done|done|].
    intros sg Hsg _. by apply Hno.
Qed.

(** C10.  The hybrid lookup is correct for any number of groups of any modelled
    kinds: it raises nothing and terminates within the fuel; the common hit
    length is a multiple of the scheduler block size, at most the requested
    length; for every group the returned blocks are one per block of the hit,
    and each block the group still attends to at that length (all of them for
    full attention, the window or the chunk otherwise) is cached under the
    request's hash; groups without a prefix cache get no blocks; and without
    EAGLE no longer aligned length could be served by all groups. *)
Theorem hybrid_hit_correct `{Env} co ms p free hs maxl :
  pool_wf p free -> hybrid_ok co ms p hs maxl ->
  exists blocks hit unc,
    hybrid_find_longest_cache_hit co ms hs maxl p = Ok (blocks, hit, unc) p /\
    0 <= hit <= maxl /\ hit mod co_scheduler_block_size co = 0 /\ 0 <= unc /\
    length blocks = length (kv_cache_groups (co_config co)) /\
    (forall sg, sg ∈ attention_groups co -> group_served p ms hs sg hit blocks) /\
    (forall i, (i < length (kv_cache_groups (co_config co)))%nat ->
       (forall sg, sg ∈ attention_groups co -> Z.of_nat i ∉ sg_ids sg) -> blocks !! i = Some []) /\
    (no_eagle (attention_groups co) ->
       forall L, servable p ms (attention_groups co) hs maxl (co_scheduler_block_size co) L -> L <= hit).
Proof. intros Hwf Hok. exact (hybrid_hit_spec co ms p free hs maxl Hwf Hok). Qed.

(** ** A concrete lookup *)

(** The demo pool with the two blocks of the request cached for two groups. *)
Definition demo_taken : BlockPool := after (get_new_blocks 2) demo_cached.1.
Definition demo_both : BlockPool :=
  (after (cache_full_blocks [3; 4]%nat 0 2 2 1 None) (demo_taken, demo_tokens)).1.

Lemma demo_taken_wf : pool_wf demo_taken [].
Proof.
  destruct (wp_ok _ _ _ (get_new_blocks_spec demo_cached.1 [3; 4]%nat [] demo_cached_wf))
    as (r & p' & E & -> & Hg).
  assert (p' = demo_taken) as <-; [|apply Hg].
  unfold demo_taken, after. change (zlen [3; 4]%nat) with 2 in E. rewrite E. reflexivity.
Qed.

Lemma demo_taken_unhashed x : x ∈ py_slice [3; 4]%nat 0 2 -> Blocks.block_hash (at_ demo_taken x) = None.
Proof. revert x. apply Forall_forall. decide_goal. Qed.

Lemma demo_taken_cacheable :
  cacheable demo_taken demo_tokens [3; 4]%nat (block_hashes demo_tokens) 0 2 2 1 None.
Proof.
  split.
  - split; [discriminate|]. split; [reflexivity|discriminate].
  - reflexivity.
  - apply Forall_forall. decide_goal.
  - decide_goal.
  - discriminate.
  - split; [discriminate|reflexivity].
  - exists (RawHashes (block_hashes demo_tokens)). split_and!; [vm_compute; reflexivity| |lia].
    vm_compute. reflexivity.
  - vm_compute. discriminate.
  - intros i x Hix. unfold hash_ready. rewrite demo_taken_unhashed; [exact I|].
    exact (sel_pairs_slice _ _ _ _ _ Hix).
  - vm_compute. exact I.
  - intros s e b. by vm_compute.
Qed.

Lemma demo_both_wf : pool_wf demo_both [].
Proof.
  destruct (wp_ok _ _ _ (cache_full_blocks_spec demo_taken demo_tokens [] [3; 4]%nat
    (block_hashes demo_tokens) 0 2 2 1 None demo_taken_wf demo_taken_cacheable)) as ([] & s' & E & Hc).
  unfold demo_both, after. rewrite E. exact (cf_wf _ _ _ _ _ _ _ _ _ _ _ Hc).
Qed.

(** A full-attention group and a sliding-window group. *)
Definition demo_coordinator : Coordinator :=
  mkCoordinator Hybrid
    (mkKVConfig 5 [mkGroup (mkSpec 2 FullAttentionSpec) "" false;
                   mkGroup (mkSpec 2 (SlidingWindowSpec 3 0)) "" false] None false)
    1 2 2 0 [] None
    [mkSpecGroup (mkSpec 2 FullAttentionSpec) "" [0] false;
     mkSpecGroup (mkSpec 2 (SlidingWindowSpec 3 0)) "" [1] false].
Definition demo_pair : list Manager :=
  [demo_manager FullAttentionSpec; demo_manager (SlidingWindowSpec 3 0)].

Lemma demo_hybrid_ok p : hash_block_size p = 2 -> hybrid_ok demo_coordinator demo_pair p (block_hashes demo_tokens) 4.
Proof.
  intros Hh. assert (zlen (block_hashes demo_tokens) = 2) as Hl by (vm_compute; reflexivity).
  split.
  - apply Forall_cons. split; [|apply Forall_singleton];
      (split; [done|by repeat constructor|]; eexists; split; [done|]; split; [done|]; split; rewrite ?Hh; done).
  - done.
  - by vm_compute; repeat constructor; set_solver.
  - done.
  - done.
  - done.
  - rewrite Hh, Hl. done.
Qed.

Lemma hybrid_hit_correct_witness :
  exists blocks hit unc,
    hybrid_find_longest_cache_hit demo_coordinator demo_pair (block_hashes demo_tokens) 4 demo_both =
      Ok (blocks, hit, unc) demo_both /\ hit = 4 /\
    (forall sg, sg ∈ attention_groups demo_coordinator ->
       group_served demo_both demo_pair (block_hashes demo_tokens) sg 4 blocks).
Proof.
  destruct (hybrid_hit_correct demo_coordinator demo_pair demo_both [] (block_hashes demo_tokens) 4
    demo_both_wf (demo_hybrid_ok demo_both ltac:(vm_compute; reflexivity)))
    as (blocks & hit & unc & E & _ & _ & _ & _ & Hs & _).
  assert ((fun r => r.1.2) <$> value (hybrid_find_longest_cache_hit demo_coordinator demo_pair
    (block_hashes demo_tokens) 4) demo_both = Some 4) as Hv by (vm_compute; reflexivity).
  pose proof (value_proj (fun r => r.1.2) _ _ _ _ _ E Hv) as Hh. cbn [fst snd] in Hh. rewrite Hh in *.
  exists blocks, 4, unc. split; [exact E|]. split; [reflexivity|exact Hs].
Defined.
