(* ===== verification/CoordinatorSpec.v ===== *)
(** * Correctness of allocation over several KV cache groups

    All groups draw from one pool.  [coord_inv]: the reference count of a block
    is the sum of what the managers hold, plus the references [ext] of others.
    The coordinator adds up the demands of its managers; when the sum fits into
    the free list, touching every group's hit first and allocating afterwards
    cannot fail. *)
From Stdlib Require Import ZArith QArith Lia.
From stdpp Require Import base tactics gmap strings numbers option list.
From S2P Require Import Prelude Blocks FreeQueue Request Hashing BlockMap Env Metrics.
From S2P Require Import BlockPool BlockPoolInv BlockPoolCache BlockPoolAlloc BlockPoolInit BlockPoolFull BlockPoolSpec.
From S2P Require Import Managers ManagerInv ManagerOps ManagerSpec ManagerTails Coordinator.

Local Open Scope Z_scope.

(** ** Ownership by several managers *)

Definition total_held (ms : list Manager) (x : loc) : Z := sum_list ((fun m => held m x) <$> ms).

Lemma sum_list_app l1 l2 : sum_list (l1 ++ l2) = sum_list l1 + sum_list l2.
Proof. unfold sum_list. induction l1 as [|a l1 IH]; cbn in *; [done|]. rewrite IH. lia. Qed.

Lemma sum_list_cons a l : sum_list (a :: l) = a + sum_list l.
Proof. done. Qed.

Lemma total_held_app ms1 ms2 x : total_held (ms1 ++ ms2) x = total_held ms1 x + total_held ms2 x.
Proof. unfold total_held. by rewrite fmap_app, sum_list_app. Qed.

Lemma total_held_cons m ms x : total_held (m :: ms) x = held m x + total_held ms x.
Proof. done. Qed.

Lemma held_nonneg m x : 0 <= held m x.
Proof. unfold held. pose proof (held_in_nonneg (req_to_blocks m) x). pose proof (occ_nonneg x (cow_refs m)). lia. Qed.

Lemma total_held_nonneg ms x : 0 <= total_held ms x.
Proof.
  induction ms as [|m ms IH]; [done|]. rewrite total_held_cons. pose proof (held_nonneg m x). lia.
Qed.

(** What the managers other than the one between [pre] and [post] hold. *)
Definition others (pre post : list Manager) (ext : loc -> Z) (x : loc) : Z :=
  total_held pre x + total_held post x + ext x.

Record coord_inv (ms : list Manager) (p : BlockPool) (ext : loc -> Z) : Prop := {
  ci_mgr : forall pre m post, ms = pre ++ m :: post -> mgr_inv m p (others pre post ext);
  ci_refs : forall x, x ∈ blocks p -> x <> null_block p -> refs p x = total_held ms x + ext x;
  ci_ext : forall x, 0 <= ext x
}.

(** A manager whose own state is unchanged sees other counts. *)
Lemma mgr_inv_other m p e p' e' :
  mgr_inv m p e -> same_config p p' ->
  (forall x, x ∈ blocks p -> x <> null_block p -> refs p' x = held m x + e' x) ->
  (forall x, 0 <= e' x) -> mgr_inv m p' e'.
Proof.
  intros [H1 H2 H3 H4 H5 H6 H7 H8 H9] Hc Hr He.
  pose proof (sc_blocks _ _ Hc) as Hb. pose proof (sc_null _ _ Hc) as Hnl.
  split; rewrite ?Hb, ?Hnl; try done. by rewrite (sc_caching _ _ Hc).
Qed.

(** One manager moves; the shared pool and the references of others move with it. *)
Lemma coord_inv_move pre m post p ext m' p' ext' :
  coord_inv (pre ++ m :: post) p ext -> same_config p p' -> mgr_inv m' p' (others pre post ext') ->
  (forall x, 0 <= ext' x) -> coord_inv (pre ++ m' :: post) p' ext'.
Proof.
  intros [C1 C2 _] Hc Hi' C3. pose proof (sc_blocks _ _ Hc) as Hb. pose proof (sc_null _ _ Hc) as Hnl.
  assert (forall x, x ∈ blocks p -> x <> null_block p ->
    refs p' x = total_held (pre ++ m' :: post) x + ext' x) as Hrefs.
  { intros x Hx Hn. rewrite (mi_refs _ _ _ Hi') by (rewrite ?Hb, ?Hnl; done).
    unfold others. rewrite total_held_app, total_held_cons. lia. }
  constructor; [|by rewrite Hb, Hnl|done].
  intros pre2 m2 post2 E.
  assert (forall x, total_held pre2 x + held m2 x + total_held post2 x = total_held (pre ++ m' :: post) x) as Hsum.
  { intros x. rewrite E, total_held_app, total_held_cons. lia. }
  assert ((exists old, exists pre3 post3, pre ++ m :: post = pre3 ++ old :: post3 /\ old = m2) \/
          m2 = m' /\ pre2 = pre /\ post2 = post) as [(old & pre3 & post3 & E3 & ->)|(-> & -> & ->)]; [| |done].
  - destruct (decide (length pre2 = length pre)) as [Hl|Hl].
    + right. apply app_inj_1 in E as [-> E]; [|done]. by injection E as -> ->.
    + left. exists m2. destruct (decide (length pre2 < length pre)%nat) as [Hlt|Hge].
      * assert (pre !! length pre2 = Some m2) as Hlk.
        { rewrite <- (lookup_app_l pre (m' :: post)) by done. rewrite E. by apply list_lookup_middle. }
        apply list_elem_of_split_length in Hlk as (l1 & l2 & -> & _).
        exists l1, (l2 ++ m :: post). split; [by rewrite <- app_assoc|done].
      * assert (post !! (length pre2 - length pre - 1)%nat = Some m2) as Hlk.
        { assert ((pre ++ m' :: post) !! length pre2 = Some m2) as Hx by (rewrite E; by apply list_lookup_middle).
          rewrite lookup_app_r in Hx by lia.
          replace (length pre2 - length pre)%nat with (S (length pre2 - length pre - 1))%nat in Hx by lia.
          exact Hx. }
        apply list_elem_of_split_length in Hlk as (l1 & l2 & -> & _).
        exists (pre ++ m :: l1), l2. split; [by rewrite <- app_assoc|done].
  - apply (mgr_inv_other m2 p (others pre3 post3 ext)); [by apply C1|done| |].
    + intros x Hx Hn. rewrite Hrefs by done. unfold others. specialize (Hsum x). lia.
    + intros x. unfold others. pose proof (total_held_nonneg pre2 x). pose proof (total_held_nonneg post2 x).
      specialize (C3 x). lia.
Qed.

Lemma coord_inv_step pre m post p ext m' p' :
  coord_inv (pre ++ m :: post) p ext -> same_config p p' -> mgr_inv m' p' (others pre post ext) ->
  coord_inv (pre ++ m' :: post) p' ext.
Proof. intros Hi Hc Hm. apply (coord_inv_move pre m post p ext); [done|done|done|apply Hi]. Qed.

(** The pool alone moves, and with it the references of others. *)
Lemma coord_inv_ext ms p ext p' ext' :
  coord_inv ms p ext -> same_config p p' ->
  (forall x, x ∈ blocks p -> x <> null_block p -> refs p' x - ext' x = refs p x - ext x) ->
  (forall x, 0 <= ext' x) -> coord_inv ms p' ext'.
Proof.
  intros [C1 C2 C3] Hc Hr He. pose proof (sc_blocks _ _ Hc) as Hb. pose proof (sc_null _ _ Hc) as Hnl.
  constructor; [|rewrite Hb, Hnl|done].
  - intros pre m post E. pose proof (C1 pre m post E) as Hi.
    apply (mgr_inv_other m p (others pre post ext)); [done|done| |].
    + intros x Hx Hn. specialize (Hr x Hx Hn). rewrite (mi_refs _ _ _ Hi) in Hr by done.
      unfold others in *. lia.
    + intros x. unfold others. pose proof (total_held_nonneg pre x). pose proof (total_held_nonneg post x).
      specialize (He x). lia.
  - intros x Hx Hn. specialize (Hr x Hx Hn). specialize (C2 x Hx Hn). lia.
Qed.

(** ** The loop over the managers *)

Lemma wp_each_manager {T A} (f : nat -> M (Manager * T) A) (I : list Manager -> list A -> list Manager -> T -> Prop)
    ms s :
  I [] [] ms s ->
  (forall pre out m post s, length pre + S (length post) = length ms ->
     I pre out (m :: post) s ->
     wp (f (length pre)) (fun a t => I (pre ++ [t.1]) (out ++ [a]) post t.2) (m, s))%nat ->
  wp (each_manager f) (fun out t => length t.1 = length ms /\ I t.1 out [] t.2) (ms, s).
Proof.
  intros H0 Hstep. unfold wp, each_manager. cbn [fst snd].
  enough (forall post pre out s, length pre + length post = length ms -> I pre out post s ->
    match for_managers f (length pre) post s with
    | Ok l t => length (pre ++ t.1) = length ms /\ I (pre ++ t.1) (out ++ l) [] t.2
    | Raise _ _ => False
    end)%nat as Hgo by (apply (Hgo ms [] []); [done|done]).
  intros post. induction post as [|m post IH]; intros pre out s1 Hl HI; cbn [for_managers].
  - rewrite !app_nil_r. cbn in Hl. split; [lia|done].
  - pose proof (Hstep pre out m post s1 Hl HI) as Hw. unfold wp in Hw.
    destruct (f (length pre) (m, s1)) as [a [m' s']|]; [|done]. cbn [fst snd] in Hw.
    specialize (IH (pre ++ [m']) (out ++ [a]) s').
    rewrite length_app in IH. cbn in IH, Hl. rewrite Nat.add_1_r in IH.
    specialize (IH ltac:(lia) Hw). destruct (for_managers f (S (length pre)) post s') as [l t|]; [|done].
    rewrite <- !app_assoc in IH. by destruct t.
Qed.

Section Alloc.
Context `{Env}.

(** ** What one manager still takes from the free list *)

Definition tok (m : Manager) (num_tokens enc : Z) : Z := if is_cross m then enc else num_tokens.

Definition demand (m : Manager) (rid : string) (nt enc : Z) : Z :=
  if is_ring (kind m) then (if decide (table m rid = []) then 1 else 0)
  else cow_demand m rid + new_demand m rid (tok m nt enc).

Lemma demand_nonneg m rid nt enc : 0 <= demand m rid nt enc.
Proof. unfold demand, cow_demand, new_demand. destruct (is_ring _); repeat case_decide; lia. Qed.

(** Only references were added since [p0]. *)
Definition grown (p0 p : BlockPool) : Prop :=
  same_config p0 p /\ forall x, refs p0 x <= refs p x.

Lemma grown_trans p0 p1 p2 : grown p0 p1 -> grown p1 p2 -> grown p0 p2.
Proof.
  intros [H1 H2] [H3 H4]. split; [by transitivity p1|]. intros x. specialize (H2 x). specialize (H4 x). lia.
Qed.

Lemma evictable_grown p0 p free0 bs :
  pool_wf p0 free0 -> grown p0 p -> (forall x, x ∈ bs -> x ∈ blocks p0) ->
  get_num_evictable_blocks p bs <= get_num_evictable_blocks p0 bs.
Proof.
  intros Hwf [Hc Hr] Hb. unfold get_num_evictable_blocks, zlen. apply inj_le.
  induction bs as [|x bs IH]; [done|]. specialize (IH ltac:(intros y Hy; apply Hb; by right)).
  assert (x ∈ blocks p0) as Hx by (apply Hb; by left).
  rewrite !filter_cons. destruct (decide _) as [Hd|Hd], (decide _) as [Hd0|Hd0]; cbn; try lia.
  exfalso. apply Hd0. destruct Hd as [Hd1 Hd2]. specialize (Hr x). fold (at_ p x) in Hd1, Hd2.
  fold (at_ p0 x). rewrite (sc_isnull _ _ Hc) in Hd2. split; [|done].
  rewrite (pb_isnull _ (pw_blocks _ _ Hwf) x Hx) in Hd2. apply bool_decide_eq_false in Hd2.
  pose proof (pa_ref _ _ (pw_alloc _ _ Hwf) x Hx Hd2). lia.
Qed.

(** ** Tails over several managers *)

Lemma coord_listed ms p ext m rid x :
  coord_inv ms p ext -> m ∈ ms -> x ∈ table m rid -> x <> null_block p -> x ∈ blocks p /\ refs p x <> 0.
Proof.
  intros Hi Hm Hx Hn. apply list_elem_of_split in Hm as (pre & post & ->).
  pose proof (ci_mgr _ _ _ Hi pre m post eq_refl) as Hmi.
  split; [by apply (mi_blocks _ _ _ Hmi rid)|].
  pose proof (table_occ_refs m p _ rid x Hmi Hx Hn). pose proof (occ_pos x _ Hx). lia.
Qed.

Lemma coord_null ms p ext m : coord_inv ms p ext -> m ∈ ms -> mgr_null_block (cfg m) = null_block p.
Proof.
  intros Hi Hm. apply list_elem_of_split in Hm as (pre & post & ->). apply (ci_mgr _ _ _ Hi pre m post eq_refl).
Qed.

Lemma lookup_middle_Some {A} (pre post : list A) (m m0 : A) j :
  (pre ++ m :: post) !! j = Some m0 -> j = length pre /\ m0 = m \/
  j <> length pre /\ forall m', (pre ++ m' :: post) !! j = Some m0.
Proof.
  intros Hj. destruct (decide (j = length pre)) as [->|Hne].
  - rewrite list_lookup_middle in Hj by done. injection Hj as <-. by left.
  - right. split; [done|]. intros m'. destruct (Nat.lt_ge_cases j (length pre)).
    + by rewrite lookup_app_l in Hj |- *.
    + rewrite lookup_app_r in Hj |- * by lia.
      destruct (j - length pre)%nat eqn:E; [lia|]. done.
Qed.

Section TailStep.
Context (pre post : list Manager) (m m' : Manager) (p p' : BlockPool) (ext : loc -> Z) (G : loc -> Prop).
Context (Hi : coord_inv (pre ++ m :: post) p ext) (Hcfg : cfg m' = cfg m) (Hc : same_config p p').
Context (Hs : tail_step G m p m' p') (Ha : apart G (pre ++ m :: post)).

Lemma middle_in : m ∈ pre ++ m :: post.
Proof. rewrite elem_of_app. right. by left. Qed.

(** A tail block after the step was a tail block before, or was free. *)
Lemma tail_origin j m0 rid i x :
  (pre ++ m' :: post) !! j = Some m0 -> tail_at m0 rid i x ->
  (exists m1, (pre ++ m :: post) !! j = Some m1 /\ tail_at m1 rid i x /\ cfg m0 = cfg m1) \/
  (j = length pre /\ m0 = m' /\ refs p x = 0 /\ ~ G x /\
   (enable_caching p = true -> Blocks.block_hash (at_ p' x) = None) /\
   forall rid' i', table m' rid' !! i' = Some x -> rid' = rid /\ i' = i).
Proof.
  intros Hj Ht. destruct (lookup_middle_Some _ _ _ _ _ Hj) as [[-> ->]|[Hne Hold]].
  - assert (x <> null_block p) as Hn.
    { rewrite <- (coord_null _ _ _ m Hi middle_in), <- Hcfg. apply Ht. }
    destruct (ts_entry _ _ _ _ _ Hs rid i x (ta_here _ _ _ _ Ht) Hn) as [H1 H2 _|H1 H2 H3 H4|H1 _].
    + left. exists m. split_and!; [by apply list_lookup_middle|by apply H2|done].
    + by right.
    + done.
  - left. exists m0. split_and!; [apply Hold|done|done].
Qed.

Lemma apart_step : apart G (pre ++ m' :: post).
Proof.
  intros m0 rid i x [j Hj]%list_elem_of_lookup Ht.
  destruct (tail_origin j m0 rid i x Hj Ht) as [(m1 & Hj1 & Ht1 & _)|(_ & _ & _ & Hg & _)]; [|done].
  eapply Ha; [by eapply list_elem_of_lookup_2|done].
Qed.

Lemma tails_step : tails_ok (pre ++ m :: post) p -> tails_ok (pre ++ m' :: post) p'.
Proof.
  intros [Hok0 Hok]. split.
  { intros m0 rid [j Hj]%list_elem_of_lookup. destruct (lookup_middle_Some _ _ _ _ _ Hj) as [[-> ->]|[_ Hold]].
    - apply (ts_cached _ _ _ _ _ Hs). intros r. apply Hok0, middle_in.
    - eapply Hok0, list_elem_of_lookup_2, (Hold m). }
  intros Hcach j m0 rid i x Hj Ht. rewrite (sc_caching _ _ Hc) in Hcach.
  assert (forall j1 m1 rid1 i1, (pre ++ m :: post) !! j1 = Some m1 -> tail_at m1 rid1 i1 x ->
    x <> null_block p /\ refs p x <> 0) as Hused.
  { intros j1 m1 rid1 i1 Hj1%list_elem_of_lookup_2 [T1 T2 _ _].
    rewrite (coord_null _ _ _ m1 Hi Hj1) in T2. split; [done|].
    eapply coord_listed; [exact Hi|exact Hj1|by eapply list_elem_of_lookup_2|done]. }
  destruct (tail_origin j m0 rid i x Hj Ht) as [(m1 & Hj1 & Ht1 & Hb)|(-> & -> & Hz & Hg & Hh & Hu)].
  - destruct (Hok Hcach j m1 rid i x Hj1 Ht1) as [Hr Hocc]. destruct (Hused j m1 rid i Hj1 Ht1) as [Hn Hrx].
    destruct (ts_hash _ _ _ _ _ Hs x Hrx) as [E1 E2]. split; [by eapply tail_ready_same, Hr; [..|apply Hc|]|].
    intros j' m2 rid' i' Hj' Hx'. destruct (lookup_middle_Some _ _ _ _ _ Hj') as [[-> ->]|[Hne Hold]].
    + destruct (ts_entry _ _ _ _ _ Hs rid' i' x Hx' Hn) as [K1 _ K3|K1 _ _ _|_ [K2|K2]].
      * destruct (Hocc (length pre) m rid' i') as [?|?]; [by apply list_lookup_middle|done|by left|right; by apply K3].
      * done.
      * by right.
      * destruct (Ha m1 rid i x); [by eapply list_elem_of_lookup_2|done|done].
    + apply (Hocc j' m2 rid' i'); [apply Hold|done].
  - split; [by apply unhashed_ready, Hh|]. intros j' m2 rid' i' Hj' Hx'.
    destruct (lookup_middle_Some _ _ _ _ _ Hj') as [[-> ->]|[Hne Hold]].
    + left. by destruct (Hu rid' i' Hx').
    + destruct (decide (x = null_block p)) as [Hx0|Hx0].
      * destruct (ta_real _ _ _ _ Ht). rewrite Hcfg, (coord_null _ _ _ m Hi middle_in). done.
      * exfalso. eapply (coord_listed _ _ _ m2 rid' x Hi); [by eapply list_elem_of_lookup_2, (Hold m)| |done|done].
        by eapply list_elem_of_lookup_2.
Qed.
End TailStep.

(** ** The three phases on one manager *)

(** What a call on one manager leaves: at most [k] blocks left the free list. *)
Record moved (G : loc -> Prop) (m : Manager) (p : BlockPool) (free : list loc) (ext : loc -> Z) (rid : string)
    (k : Z) (s : MState) : Prop := {
  mv_free : exists free', pool_wf s.2 free' /\ zlen free - k <= zlen free';
  mv_inv : mgr_inv s.1 s.2 ext;
  mv_cfg : same_config p s.2;
  mv_mgr : same_mgr rid m s.1;
  mv_tail : tail_step G m p s.1 s.2
}.

Lemma moved_zero G m p free ext rid : pool_wf p free -> mgr_inv m p ext -> moved G m p free ext rid 0 (m, p).
Proof. intros Hwf Hi. split; [exists free; cbn; split; [done|lia]|done|done|done|apply tail_step_refl]. Qed.

(** No block is given out as a hit. *)
Abbreviation no_hits := (fun _ : loc => False).

Lemma same_mgr_kind rid m m' : same_mgr rid m m' -> kind m' = kind m /\ bsz m' = bsz m.
Proof. intros Hs. unfold kind, bsz. by rewrite (sm_cfg _ _ _ Hs). Qed.

Lemma same_mgr_tok rid m m' nt enc : same_mgr rid m m' -> tok m' nt enc = tok m nt enc.
Proof. intros Hs. unfold tok, is_cross. by rewrite (proj1 (same_mgr_kind _ _ _ Hs)). Qed.

(** The number the check announces for manager [m] in pool [p]. *)
Definition announced (m : Manager) (p : BlockPool) (rid : string) (nt enc : Z) (ncb : list loc)
    (total local : Z) : option Z :=
  if is_cross m then get_num_blocks_to_allocate m p rid enc [] 0 0 false
  else get_num_blocks_to_allocate m p rid nt ncb total local false.

Lemma hit_ok_config m p0 p ncb local : same_config p0 p -> hit_ok m p0 ncb local -> hit_ok m p ncb local.
Proof.
  intros Hc [O1 O2 O3 O4].
  constructor; rewrite ?(sc_blocks _ _ Hc), ?(sc_caching _ _ Hc), ?(sc_null _ _ Hc); done.
Qed.

(** Prefix hits: touching takes the evictable blocks, the rest is still owed. *)
Lemma base_add_moved G m p0 free0 p free ext rid ncb local external nt enc n :
  pool_wf p0 free0 -> grown p0 p -> pool_wf p free -> mgr_inv m p ext -> is_base (kind m) = true ->
  fresh_request m rid -> hit_ok m p0 ncb local -> (forall x, whole_hit m ncb local x -> G x) -> 0 <= external ->
  base_num_blocks_to_allocate m p0 rid nt ncb (local + external) local false = Some n ->
  wp (base_add_local_computed_blocks rid ncb local external) (fun _ s => exists k,
    moved G m p free ext rid k s /\ grown p s.2 /\ k + demand s.1 rid nt enc <= n) (m, p).
Proof.
  intros Hwf0 Hgr Hwf Hi Hbase [Ht Hnc Hpn] Hok HG He Hn.
  pose proof (ho_local _ _ _ _ Hok) as Hl. pose proof (hit_ok_config m p0 p ncb local (proj1 Hgr) Hok) as Hok'.
  pose proof (base_num_blocks_enough m p p0 ext rid nt ncb (local + external) local n
    Hi Ht Hnc ltac:(lia) Hn) as Hneed.
  pose proof (skipped_blocks_nonneg m p ext (local + external) Hi ltac:(lia)) as Hs.
  eapply wp_mono; [by apply (base_add_local_spec m p free ext rid ncb local external)|].
  intros [] [m1 p1] Had. pose proof (added_tail G m p free ext rid ncb (local + external) local _ Hi ltac:(lia) Hok' HG Had) as Htl.
  destruct Had as [A1 A2 A3 A4 A5 A6 A7 A8 _ _]. cbn [fst snd] in *.
  set (kept := kept_blocks m (local + external) ncb) in *.
  assert (forall x, x ∈ kept -> x ∈ blocks p0) as Hkb.
  { intros x Hx. apply (ho_blocks _ _ _ _ Hok).
    rewrite <- (take_drop (Z.to_nat (skipped_blocks m (local + external))) ncb). apply elem_of_app. by right. }
  pose proof (free_after_touch p free kept Hwf) as Hev.
  pose proof (evictable_grown p0 p free0 kept Hwf0 Hgr Hkb) as Hev0.
  exists (get_num_evictable_blocks p kept). split_and!.
  - split; cbn [fst snd]; [by eexists|done|done|done|done].
  - split; [done|]. intros x. rewrite A8. pose proof (occ_nonneg x kept). lia.
  - destruct (same_mgr_kind _ _ _ A2) as [Hk1 Hb1].
    assert (demand m1 rid nt enc = copy_need m kept local +
      Z.max 0 (cdiv nt (bsz m) - Z.max (skipped_blocks m (local + external)) (zlen ncb))) as ->; [|lia].
    unfold demand. rewrite (same_mgr_tok rid m m1 nt enc A2), Hk1. unfold tok, is_cross.
    assert (is_ring (kind m) = false) as -> by (destruct (kind m); done).
    assert (match kind m with CrossAttentionSpec => true | _ => false end = false) as ->
      by (destruct (kind m); done).
    f_equal.
    + unfold cow_demand, copy_need. destruct (has_partial_local_hit m kept local).
      * rewrite decide_True by tauto. done.
      * rewrite decide_False; [done|]. intros ?%A4. done.
    + unfold new_demand. rewrite Hb1. do 2 f_equal. rewrite A1.
      rewrite <- (kept_length m (local + external) ncb Hs). unfold zlen. by rewrite !length_app, !length_replicate.
Qed.

(** The demand of a manager that does nothing about hits. *)
Lemma fresh_demand m q p ext rid nt enc ncb total local n :
  is_base (kind m) = false -> mgr_inv m q ext -> fresh_request m rid ->
  announced m p rid nt enc ncb total local = Some n -> demand m rid nt enc <= n.
Proof.
  intros Hbase Hi [Ht Hnc Hpn] Hn. unfold announced, get_num_blocks_to_allocate, demand, tok, is_cross in *.
  assert (cow_demand m rid = 0) as Hcow
    by (unfold cow_demand; rewrite Hpn, decide_False; [done|by intros []]).
  destruct (kind m) eqn:Hk; try done; cbn [is_ring].
  1,2: rewrite decide_True by done; unfold table in Ht;
       destruct (req_to_blocks m !! rid) as [[|]|]; try done; by injection Hn as <-.
  pose proof (base_num_blocks_enough m q p ext rid enc [] 0 0 n Hi Ht Hnc ltac:(lia) Hn) as Hneed.
  assert (skipped_blocks m 0 = 0) as Hs0
    by (unfold skipped_blocks; rewrite Hk; by apply Z.div_0_l, Z.neq_sym, Z.lt_neq, Hi).
  unfold kept_blocks in Hneed. rewrite Hs0, drop_nil in Hneed. change (zlen (@nil loc)) with 0 in Hneed.
  change (get_num_evictable_blocks p []) with 0 in Hneed. change (copy_need m [] 0) with 0 in Hneed.
  rewrite Hcow. unfold new_demand. rewrite Ht. change (zlen (@nil loc)) with 0. lia.
Qed.

Lemma add_local_moved G m p0 free0 p free ext rid ncb local external nt enc n :
  pool_wf p0 free0 -> grown p0 p -> pool_wf p free -> mgr_inv m p ext -> fresh_request m rid ->
  hit_ok m p0 ncb local -> (forall x, whole_hit m ncb local x -> G x) -> (is_cross m = true -> ncb = []) ->
  0 <= external ->
  announced m p0 rid nt enc ncb (local + external) local = Some n ->
  wp (add_local_computed_blocks rid ncb local external) (fun _ s => exists k,
    moved G m p free ext rid k s /\ grown p s.2 /\ k + demand s.1 rid nt enc <= n) (m, p).
Proof.
  intros Hwf0 Hgr Hwf Hi Hfr Hok HG Hcr He Hn. destruct (is_base (kind m)) eqn:Hbase.
  - apply wp_add_local; [done|]. apply (base_add_moved G m p0 free0); try done.
    unfold announced, get_num_blocks_to_allocate, is_cross in Hn. by destruct (kind m).
  - assert (wp (add_local_computed_blocks rid ncb local external) (fun _ s => s = (m, p)) (m, p)) as Hw.
    { unfold add_local_computed_blocks. apply wp_bind, wp_gets. cbn [fst].
      unfold is_cross in Hcr. destruct (kind m); try done. by rewrite (Hcr eq_refl). }
    eapply wp_mono; [exact Hw|]. intros [] s ->. exists 0. split_and!; [by apply moved_zero|done|].
    rewrite Z.add_0_l. by eapply fresh_demand.
Qed.

(** External tokens: whatever is taken now is not owed any more. *)
Lemma allocate_external_moved m p free ext rid local external nt enc :
  pool_wf p free -> mgr_inv m p ext -> 0 <= local -> 0 <= external ->
  local + external <= nt -> demand m rid nt enc <= zlen free ->
  wp (allocate_external_computed_blocks rid local external) (fun _ s => exists k,
    moved no_hits m p free ext rid k s /\ k + demand s.1 rid nt enc <= demand m rid nt enc) (m, p).
Proof.
  intros Hwf Hi Hl He Htot Hd. unfold allocate_external_computed_blocks. apply wp_bind, wp_gets. cbn [fst].
  destruct (is_base (kind m)) eqn:Hbase; [|destruct (is_ring (kind m)) eqn:Hring].
  - eapply wp_mono with (Q := fun _ s => exists n,
      0 <= n <= Z.max 0 (cdiv (local + external) (bsz m) - zlen (table m rid)) /\ extended m p free ext rid n s).
    { assert (is_ring (kind m) = false /\ is_cross m = false) as [Hr Hc]
        by (unfold is_cross; destruct (kind m); done).
      assert (cdiv (local + external) (bsz m) <= cdiv nt (bsz m)) as Hmono by (apply cdiv_mono; [apply Hi|done]).
      assert (Z.max 0 (cdiv (local + external) (bsz m) - zlen (table m rid)) <= zlen free) as Hfree.
      { unfold demand, tok in Hd. rewrite Hr, Hc in Hd. unfold new_demand, cow_demand in Hd. case_decide; lia. }
      destruct (kind m); try done; by apply base_allocate_external_spec. }
    intros [] [m1 p1] (k & Hk & Hex). pose proof (extended_tail _ _ _ _ _ _ _ Hwf Hi Hex) as Htl.
    destruct Hex as [X1 X2 (X3 & X3' & _) X4 X5 X6 _]. cbn [fst snd] in *.
    destruct (same_mgr_kind _ _ _ X2) as [Hk1 Hb1].
    assert (cdiv (local + external) (bsz m) <= cdiv nt (bsz m)) as Hmono by (apply cdiv_mono; [apply Hi|done]).
    unfold demand, tok in *. assert (is_cross m1 = false /\ is_cross m = false) as [Hc1 Hc]
      by (unfold is_cross; rewrite Hk1; destruct (kind m); done).
    rewrite Hc, Hc1, Hk1 in *. assert (is_ring (kind m) = false) as Hr by (destruct (kind m); done).
    rewrite Hr in *.
    assert (0 <= cow_demand m rid) as Hcow0 by (unfold cow_demand; case_decide; lia).
    assert (k <= zlen free) as Hkf by (unfold new_demand in Hd; lia).
    exists k. split.
    + split; cbn [fst snd]; [|done|done|done|done]. eexists. split; [exact X4|].
      unfold zlen in *. rewrite length_drop. lia.
    + unfold cow_demand, new_demand in *. rewrite X3', X1, zlen_app, Hb1.
      assert (zlen (take (Z.to_nat k) free) = k) as -> by (unfold zlen in *; rewrite length_take; lia). lia.
  - eapply wp_mono with (Q := fun _ s =>
      extended m p free ext rid (if decide (table m rid = []) then 1 else 0) s).
    { unfold demand in Hd. rewrite Hring in Hd.
      destruct (kind m); try done; apply wp_bind;
        (eapply wp_mono; [apply (claim_ring_block_spec m p free ext rid); [done|done|]|by intros ? ? [_ ?]];
         intros Ht; by rewrite decide_True in Hd). }
    intros [] [m1 p1] Hex. pose proof (extended_tail _ _ _ _ _ _ _ Hwf Hi Hex) as Htl.
    destruct Hex as [X1 X2 _ X4 X5 X6 _]. cbn [fst snd] in *. destruct (same_mgr_kind _ _ _ X2) as [Hk1 _].
    unfold demand in *. rewrite Hk1, Hring in *. set (k := if decide (table m rid = []) then 1 else 0) in *.
    assert (0 <= k) as Hk0 by (subst k; case_decide; lia).
    exists k. split.
    + split; cbn [fst snd]; [|done|done|done|done]. eexists. split; [exact X4|].
      unfold zlen in *. rewrite length_drop. lia.
    + subst k. destruct (decide (table m rid = [])) as [Ht|Ht].
      * rewrite decide_False; [done|]. rewrite X1, Ht. destruct free; [done|]. done.
      * rewrite X1. change (take (Z.to_nat 0) free) with (@nil loc). rewrite app_nil_r, decide_False by done. done.
  - assert (kind m = CrossAttentionSpec) as -> by (destruct (kind m); done).
    apply wp_ret. exists 0. split; [by apply moved_zero|]. cbn [fst]. lia.
Qed.

(** New blocks: exactly what is owed is taken, and every token has a slot. *)
Lemma allocate_new_moved m p free ext rid nt enc :
  pool_wf p free -> mgr_inv m p ext -> demand m rid nt enc <= zlen free ->
  wp (allocate_new_blocks rid (if is_cross m then enc else nt)) (fun _ s =>
    moved no_hits m p free ext rid (demand m rid nt enc) s /\
    slots_needed m (tok m nt enc) <= zlen (table s.1 rid) /\
    (is_ring (kind m) = false -> partial_hit_reqs s.1 !! rid = None)) (m, p).
Proof.
  intros Hwf Hi Hd. pose proof (demand_nonneg m rid nt enc) as Hd0. fold (tok m nt enc).
  unfold demand in *. destruct (is_ring (kind m)) eqn:Hring.
  - unfold allocate_new_blocks. apply wp_bind, wp_gets. cbn [fst].
    set (k := if decide (table m rid = []) then 1 else 0) in *.
    eapply wp_mono with (Q := fun _ s => extended m p free ext rid k s).
    { assert (table m rid = [] -> 1 <= zlen free) as Hf by (intros Ht; subst k; by rewrite decide_True in Hd).
      destruct (kind m); try done;
        (eapply wp_mono; [by apply (claim_ring_block_spec m p free ext rid)|by intros ? ? [_ ?]]). }
    intros _ [m1 p1] Hex. pose proof (extended_tail _ _ _ _ _ _ _ Hwf Hi Hex) as Htl.
    destruct Hex as [X1 X2 _ X4 X5 X6 _]. cbn [fst snd] in *. split_and!.
    + split; cbn [fst snd]; [|done|done|done|done]. eexists. split; [exact X4|].
      unfold zlen in *. rewrite length_drop. lia.
    + assert (slots_needed m (tok m nt enc) = 1) as -> by (unfold slots_needed; destruct (kind m); done).
      rewrite X1, zlen_app. subst k. case_decide as Ht.
      * destruct free as [|c free]; [unfold zlen in Hd; cbn in Hd; lia|].
        change (take (Z.to_nat 1) (c :: free)) with [c]. rewrite Ht. done.
      * destruct (table m rid) as [|t0 tb]; [done|]. rewrite zlen_cons. pose proof (zlen_nonneg tb).
        pose proof (zlen_nonneg (take (Z.to_nat 0) free)). lia.
    + done.
  - apply wp_allocate_new; [done|].
    eapply wp_mono; [by apply (base_allocate_new_blocks_spec m p free ext rid (tok m nt enc))|].
    intros r [m1 p1] Hal. pose proof (allocated_enough _ _ _ _ _ _ _ _ Hal Hd) as Hen.
    pose proof (allocated_tail _ _ _ _ _ _ _ _ Hwf Hi Hd Hal) as Htl.
    destruct Hal as [B1 B2 B3 B4 B5 B6 B7 B8 _]. cbn [fst snd] in *. split_and!.
    + split; cbn [fst snd]; [|done|done|done|done]. eexists. split; [exact B6|].
      unfold zlen in *. rewrite length_drop. lia.
    + rewrite Hen. unfold slots_needed. destruct (kind m); try done; lia.
    + done.
Qed.

(** ** One phase over all managers *)

Section Phase.
Context {A : Type} (G : loc -> Prop) (rid : string) (slack : Z) (f : nat -> M MState A).
Context (before : nat -> Manager -> Z) (after : Manager -> Z).
Context (R : BlockPool -> Prop) (Pre : nat -> Manager -> Prop) (Post : Manager -> Manager -> Prop).

Definition total_after (ms : list Manager) : Z := sum_list (after <$> ms).

(** What a phase leaves behind. *)
Record phase_done (ms : list Manager) (p : BlockPool) (ext : loc -> Z) (s : KState) : Prop := {
  pd_inv : coord_inv s.1 s.2 ext;
  pd_free : exists free', pool_wf s.2 free' /\ total_after s.1 + slack <= zlen free';
  pd_cfg : same_config p s.2;
  pd_mgrs : Forall2 (same_mgr rid) ms s.1;
  pd_rel : R s.2;
  pd_post : Forall2 Post ms s.1;
  pd_tails : tails_ok ms p -> apart G ms -> tails_ok s.1 s.2 /\ apart G s.1
}.

Hypothesis before_nonneg : forall i m, Pre i m -> 0 <= before i m.
Hypothesis after_nonneg : forall m, 0 <= after m.
Hypothesis slack_nonneg : 0 <= slack.
Hypothesis step : forall i m p free ext,
  pool_wf p free -> mgr_inv m p ext -> R p -> Pre i m -> before i m <= zlen free ->
  wp (f i) (fun _ s => exists k,
    moved G m p free ext rid k s /\ R s.2 /\ k + after s.1 <= before i m /\ Post m s.1) (m, p).

(** What the managers from index [i] on still need. *)
Definition total_before (i : nat) (ms : list Manager) : Z :=
  sum_list (imap (fun j m => before (i + j) m) ms).

Lemma total_before_cons i m ms : total_before i (m :: ms) = before i m + total_before (S i) ms.
Proof.
  unfold total_before. rewrite imap_cons, sum_list_cons, Nat.add_0_r. f_equal. f_equal.
  apply imap_ext. intros j x _. cbn. by rewrite Nat.add_succ_r.
Qed.

Lemma total_before_nonneg ms : forall i, (forall j m, ms !! j = Some m -> Pre (i + j) m) -> 0 <= total_before i ms.
Proof.
  induction ms as [|m ms IH]; intros i Hp; [done|]. rewrite total_before_cons.
  pose proof (before_nonneg i m) as Hb. pose proof (Hp 0%nat m eq_refl) as H0. rewrite Nat.add_0_r in H0.
  specialize (IH (S i)). enough (0 <= total_before (S i) ms) by (specialize (Hb H0); lia).
  apply IH. intros j x Hj. pose proof (Hp (S j) x Hj) as Hx. by rewrite Nat.add_succ_r in Hx.
Qed.

Lemma total_after_nonneg ms : 0 <= total_after ms.
Proof.
  unfold total_after. induction ms as [|m ms IH]; [done|].
  rewrite fmap_cons, sum_list_cons. pose proof (after_nonneg m). lia.
Qed.

Lemma phase_spec ms p free ext :
  coord_inv ms p ext -> pool_wf p free -> R p -> (forall i m, ms !! i = Some m -> Pre i m) ->
  total_before 0 ms + slack <= zlen free ->
  wp (each_manager f) (fun _ s => phase_done ms p ext s) (ms, p).
Proof.
  intros Hi Hwf HR Hpre Hle.
  eapply wp_mono; [apply (wp_each_manager f (fun pre _ post q => coord_inv (pre ++ post) q ext /\
    (exists fr, pool_wf q fr /\ total_after pre + total_before (length pre) post + slack <= zlen fr) /\
    same_config p q /\ R q /\
    (forall j m, post !! j = Some m -> Pre (length pre + j) m) /\
    (tails_ok ms p -> apart G ms -> tails_ok (pre ++ post) q /\ apart G (pre ++ post)) /\
    exists pre0, ms = pre0 ++ post /\ Forall2 (same_mgr rid) pre0 pre /\ Forall2 Post pre0 pre))|].
  - split_and!; try done; [by exists free|by exists []].
  - intros pre out m post q _ (Hci & (fr & Hwq & Hfr) & Hcq & HRq & Hp & Htl & pre0 & Ems & Hsm & Hpost).
    rewrite total_before_cons in Hfr.
    pose proof (Hp 0%nat m eq_refl) as H0. rewrite Nat.add_0_r in H0.
    assert (forall j x, post !! j = Some x -> Pre (S (length pre) + j)%nat x) as Hp'.
    { intros j x Hj. pose proof (Hp (S j) x Hj) as Hx. by rewrite Nat.add_succ_r in Hx. }
    pose proof (total_before_nonneg post (S (length pre)) Hp') as Hb0. pose proof (total_after_nonneg pre) as Ha0.
    eapply wp_mono; [apply (step (length pre) m q fr (others pre post ext)); try done; [|lia]|].
    { by apply (ci_mgr _ _ _ Hci pre m post). }
    intros a [m' q'] (k & [(fr' & Hwf' & Hk) M2 M3 M4 M5] & HR' & Hcost & HP). cbn [fst snd] in *.
    assert (length (pre ++ [m']) = S (length pre)) as El by (rewrite length_app; cbn; lia).
    split_and!; try done.
    + rewrite <- app_assoc. by apply (coord_inv_step pre m post q ext m' q').
    + exists fr'. split; [done|]. rewrite El. unfold total_after in *. rewrite fmap_app, sum_list_app.
      rewrite fmap_cons, sum_list_cons. change (sum_list (after <$> [])) with 0. lia.
    + by transitivity q.
    + by rewrite El.
    + intros T1 T2. destruct (Htl T1 T2) as [T3 T4]. rewrite <- app_assoc.
      split; [eapply (tails_step pre post m m' q q')|eapply (apart_step pre post m m' q q')]; try done; apply M4.
    + exists (pre0 ++ [m]). split; [by rewrite <- app_assoc|].
      split; (apply Forall2_app; [done|]; by apply Forall2_cons).
  - intros out [ms' q] (_ & Hci & (fr & Hwq & Hfr) & Hcq & HRq & _ & Htl & pre0 & Ems & Hsm & Hpost).
    cbn [fst snd] in *. rewrite app_nil_r in Ems, Hci, Htl. subst pre0. split; cbn [fst snd]; try done.
    exists fr. split; [done|]. unfold total_before in Hfr. cbn in Hfr. lia.
Qed.

End Phase.

(** ** The coordinator's check adds up the managers' checks *)

Definition ann (p : BlockPool) (rid : string) (nt enc : Z) (ncbs : list (list loc)) (total local : Z)
    (i : nat) (m : Manager) : Z :=
  default 0 (announced m p rid nt enc (default [] (ncbs !! i)) total local).

Lemma check_spec rid nt ncbs enc total local ms p n s :
  co_get_num_blocks_to_allocate rid nt ncbs enc total local false (ms, p) = Ok n s ->
  s = (ms, p) /\ n = total_before (ann p rid nt enc ncbs total local) 0 ms /\
  forall i m, ms !! i = Some m ->
    announced m p rid nt enc (default [] (ncbs !! i)) total local =
      Some (ann p rid nt enc ncbs total local i m) /\
    (is_cross m = false -> is_Some (ncbs !! i)).
Proof.
  unfold co_get_num_blocks_to_allocate, each_manager. set (f := fun i : nat => _).
  assert (forall i m a t, f i (m, p) = Ok a t -> t = (m, p) /\ a = ann p rid nt enc ncbs total local i m /\
    announced m p rid nt enc (default [] (ncbs !! i)) total local = Some a /\
    (is_cross m = false -> is_Some (ncbs !! i))) as Hf.
  { intros i m a t E. unfold f, mbind, M_bind, get in E. unfold ann, announced. destruct (is_cross m).
    - destruct (get_num_blocks_to_allocate _ _ _ _ _ _ _ _); [|done]. by injection E as <- <-.
    - destruct (ncbs !! i) as [ncb|]; [|done]. cbn in E. cbn [default from_option].
      destruct (get_num_blocks_to_allocate _ _ _ _ _ _ _ _); [|done]. by injection E as <- <-. }
  intros E. unfold mbind, M_bind in E. cbn [fst snd] in E.
  enough (forall l i ns t, for_managers f i l p = Ok ns t -> t = (l, p) /\
    sum_list ns = total_before (ann p rid nt enc ncbs total local) i l /\
    forall j m, l !! j = Some m ->
      announced m p rid nt enc (default [] (ncbs !! (i + j)%nat)) total local =
        Some (ann p rid nt enc ncbs total local (i + j) m) /\
      (is_cross m = false -> is_Some (ncbs !! (i + j)%nat))) as Hgo.
  { destruct (for_managers f 0 ms p) as [ns t|] eqn:E0; [|done]. apply Hgo in E0 as (-> & Hs & Hall).
    by injection E as <- <-. }
  clear E s n. intros l. induction l as [|m l IH]; intros i ns t; cbn [for_managers].
  - intros [= <- <-]. done.
  - destruct (f i (m, p)) as [a [m' p']|e [m' p']] eqn:Ef; [|done]. apply Hf in Ef as ([= -> ->] & -> & Ha & Hn).
    destruct (for_managers f (S i) l p) as [l' [ms' p']|e [ms' p']] eqn:Eg; [|done].
    apply IH in Eg as ([= -> ->] & Hs & Hall). intros [= <- <-].
    rewrite sum_list_cons, Hs, total_before_cons. split_and!; [done|done|].
    intros [|j] x Hx; cbn in Hx.
    + injection Hx as <-. by rewrite Nat.add_0_r.
    + rewrite Nat.add_succ_r. by apply (Hall j).
Qed.

Lemma announced_nonneg m p rid nt enc ncb total local n :
  announced m p rid nt enc ncb total local = Some n -> 0 <= n.
Proof.
  unfold announced, get_num_blocks_to_allocate. intros Hn.
  assert (forall k b t l, base_num_blocks_to_allocate m p rid k b t l false = Some n -> 0 <= n) as Hbase.
  { intros k b t l. unfold base_num_blocks_to_allocate, get_num_evictable_blocks.
    destruct (num_cached_block m !! rid).
    - destruct (zlen b =? 0); [|done]. intros [= <-]. lia.
    - intros [= <-]. match goal with |- context [zlen (filter ?P ?l)] => pose proof (zlen_nonneg (filter P l)) end.
      destruct (has_partial_local_hit _ _ _); lia. }
  destruct (is_cross m); destruct (kind m); try (by eapply Hbase);
    destruct (req_to_blocks m !! rid) as [[|]|]; injection Hn as <-; lia.
Qed.

(** ** Admission of a request into all groups *)

Definition co_admit (rid : string) (ncbs : list (list loc)) (local external nt enc : Z)
    : M KState (list (list loc)) :=
  allocate_new_computed_blocks rid ncbs local external ;; co_allocate_new_blocks rid nt enc.

(** The hit found for the request, one list per group. *)
Record hits_ok (rid : string) (ncbs : list (list loc)) (local : Z) (ms : list Manager) (p : BlockPool) : Prop := {
  hk_len : length ncbs = length ms;
  hk_fresh : forall m, m ∈ ms -> fresh_request m rid;
  hk_hit : forall i m ncb, ms !! i = Some m -> ncbs !! i = Some ncb ->
    hit_ok m p ncb local /\ (is_cross m = true -> ncb = [])
}.

(** Every group has a slot for every token of the request. *)
Definition served (rid : string) (nt enc : Z) (m : Manager) : Prop :=
  slots_needed m (tok m nt enc) <= zlen (table m rid).

Record co_admitted (G : loc -> Prop) (rid : string) (nt enc slack : Z) (ms : list Manager) (p : BlockPool)
    (ext : loc -> Z) (s : KState) : Prop := {
  ca_served : Forall (served rid nt enc) s.1;
  ca_mgrs : Forall2 (same_mgr rid) ms s.1;
  ca_wf : exists free', pool_wf s.2 free' /\ slack <= zlen free';
  ca_inv : coord_inv s.1 s.2 ext;
  ca_cfg : same_config p s.2;
  ca_partial : Forall (fun m => is_ring (kind m) = false -> partial_hit_reqs m !! rid = None) s.1;
  ca_tails : tails_ok ms p -> apart G ms -> tails_ok s.1 s.2
}.

(** The blocks some group's hit uses whole. *)
Definition whole_hits (ncbs : list (list loc)) (local : Z) (ms : list Manager) (x : loc) : Prop :=
  exists i m ncb, ms !! i = Some m /\ ncbs !! i = Some ncb /\ whole_hit m ncb local x.

Lemma apart_none ms : apart no_hits ms.
Proof. by intros m rid i x _ _ []. Qed.

Lemma co_admitted_weaken G rid nt enc slack ms p ext s :
  co_admitted no_hits rid nt enc slack ms p ext s -> co_admitted G rid nt enc slack ms p ext s.
Proof. intros [C1 C2 C3 C4 C5 C6 C7]. split; try done. intros Ht _. apply C7; [done|apply apart_none]. Qed.

Lemma total_before_const (f : Manager -> Z) ms i : total_before (fun _ => f) i ms = total_after f ms.
Proof.
  revert i. induction ms as [|m ms IH]; intros i; [done|]. rewrite total_before_cons, IH. done.
Qed.

Lemma total_zero ms i : total_before (fun _ _ => 0) i ms = 0.
Proof. revert i. induction ms as [|m ms IH]; intros i; [done|]. by rewrite total_before_cons, IH. Qed.

(** The last phase alone. *)
Lemma co_allocate_new_spec rid nt enc slack ms p free ext :
  pool_wf p free -> coord_inv ms p ext -> 0 <= slack ->
  total_after (fun m => demand m rid nt enc) ms + slack <= zlen free ->
  wp (co_allocate_new_blocks rid nt enc) (fun _ s => co_admitted no_hits rid nt enc slack ms p ext s) (ms, p).
Proof.
  intros Hwf Hi Hsl Hd. unfold co_allocate_new_blocks.
  eapply wp_mono; [apply (phase_spec no_hits rid slack _ (fun _ m => demand m rid nt enc) (fun _ => 0) (fun _ => True)
    (fun _ _ => True) (fun _ m' => served rid nt enc m' /\
      (is_ring (kind m') = false -> partial_hit_reqs m' !! rid = None))) with (free := free); try done|].
  - intros. apply demand_nonneg.
  - intros _ m q fr e Hw Hm _ _ Hle. apply wp_bind, wp_gets. cbn [fst].
    eapply wp_mono; [by apply (allocate_new_moved m q fr e rid nt enc)|].
    intros a [m' q'] (Hmv & Hs & Hpn). exists (demand m rid nt enc).
    unfold served. cbn [fst snd] in *. destruct (same_mgr_kind _ _ _ (mv_mgr _ _ _ _ _ _ _ _ Hmv)) as [Hk Hb].
    split_and!; [done|done|lia| |cbn [fst] in *; by rewrite Hk].
    rewrite (same_mgr_tok rid m m' nt enc (mv_mgr _ _ _ _ _ _ _ _ Hmv)). unfold slots_needed in *. cbn [fst] in *.
    by rewrite Hk, Hb.
  - by rewrite total_before_const.
  - intros _ s [P1 (fr & P2 & P2') P3 P4 _ P6 P7].
    assert (Forall (fun m => served rid nt enc m /\ (is_ring (kind m) = false -> partial_hit_reqs m !! rid = None)) s.1)
      as P8 by (eapply Forall2_Forall_r; [exact P6|]; by apply Forall_true).
    split; try done; [|exists fr; split; [done|]| |intros T1 T2; by apply P7].
    + eapply Forall_impl; [exact P8|]. by intros m [].
    + rewrite <- (total_before_const _ _ 0), total_zero in P2'. lia.
    + eapply Forall_impl; [exact P8|]. by intros m [].
Qed.

Lemma existsb_false_forall {B} (f : B -> bool) l : (forall x, x ∈ l -> f x = false) -> existsb f l = false.
Proof.
  induction l as [|x l IH]; intros Hf; [done|]. cbn. rewrite Hf by left. cbn. apply IH.
  intros y Hy. apply Hf. by right.
Qed.

Lemma co_admit_spec rid ncbs local external nt enc slack ms p free ext n s :
  pool_wf p free -> coord_inv ms p ext -> 0 <= slack -> hits_ok rid ncbs local ms p ->
  0 <= local -> 0 <= external -> local + external <= nt ->
  co_get_num_blocks_to_allocate rid nt ncbs enc (local + external) local false (ms, p) = Ok n s ->
  n + slack <= zlen free ->
  wp (co_admit rid ncbs local external nt enc)
    (fun _ s => co_admitted (whole_hits ncbs local ms) rid nt enc slack ms p ext s) (ms, p).
Proof.
  intros Hwf Hi Hsl [Hlen Hfr Hhit] Hl He Htot Hcheck Hn.
  apply check_spec in Hcheck as (-> & -> & Hann). unfold co_admit, allocate_new_computed_blocks.
  apply wp_bind, wp_bind, wp_gets. cbn [fst]. rewrite existsb_false_forall.
  2:{ intros m Hm. by rewrite (fq_cached _ _ (Hfr m Hm)). }
  apply wp_bind. set (D := fun m => demand m rid nt enc).
  eapply wp_mono; [apply (phase_spec (whole_hits ncbs local ms) rid slack _ (ann p rid nt enc ncbs (local + external) local) D (grown p)
    (fun i m => ms !! i = Some m) (fun _ _ => True)) with (free := free); try done|].
  - intros i m Hm. destruct (Hann i m Hm) as [Ha _]. by eapply announced_nonneg.
  - intros m. apply demand_nonneg.
  - intros i m q fr e Hw Hm HR Him _. destruct (Hann i m Him) as [Ha _].
    assert (is_Some (ncbs !! i)) as [ncb Hncb]
      by (apply lookup_lt_is_Some; rewrite Hlen; by eapply lookup_lt_Some).
    destruct (Hhit i m ncb Him Hncb) as [Hok Hcr]. rewrite Hncb in Ha. change (default [] (Some ncb)) with ncb in Ha.
    apply wp_bind. rewrite Hncb. apply wp_ret.
    eapply wp_mono; [eapply (add_local_moved (whole_hits ncbs local ms) m p free q fr e rid ncb local external nt enc); try done;
      [by apply Hfr, list_elem_of_lookup_2 with i|by intros x Hx; exists i, m, ncb]|].
    intros a t (k & M1 & M2 & M3). exists k. split_and!; try done. by eapply grown_trans.
  - intros _ [ms1 p1] [P1 (fr1 & P2 & P2') P3 P4 _ _ P7]. cbn [fst snd] in *.
    assert (wp (if 0 <? external
                then each_manager (fun _ => allocate_external_computed_blocks rid local external) ≫= (fun _ => mret tt)
                else mret tt)
      (fun _ s => phase_done no_hits rid slack D (fun _ => True) (fun _ _ => True) ms1 p1 ext s) (ms1, p1)) as Hw.
    { destruct (0 <? external).
      2:{ apply wp_ret. split; cbn [fst snd]; try done; [by exists fr1|].
          by apply Forall_Forall2_diag, Forall_true. }
      apply wp_bind. eapply wp_mono; [apply (phase_spec no_hits rid slack _ (fun _ => D) D (fun _ => True) (fun _ _ => True)
        (fun _ _ => True)) with (free := fr1); try done|by intros].
      - intros. apply demand_nonneg.
      - intros. apply demand_nonneg.
      - intros _ m q fr e Hw Hm _ _ Hd.
        eapply wp_mono; [by apply (allocate_external_moved m q fr e rid local external nt enc)|].
        intros a t (k & M1 & M2). by exists k.
      - by rewrite total_before_const. }
    eapply wp_mono; [exact Hw|]. intros [] [ms2 p2] [Q1 (fr2 & Q2 & Q2') Q3 Q4 _ _ Q7]. cbn [fst snd] in *.
    eapply wp_mono; [by apply (co_allocate_new_spec rid nt enc slack ms2 p2 fr2 ext)|].
    intros r s [C1 C2 C3 C4 C5 C6 C7]. split; try done; [|by transitivity p2; [transitivity p1|]|].
    + by transitivity ms2; [transitivity ms1|].
    + intros T1 T2. apply C7; [|apply apart_none]. apply Q7; [|apply apart_none]. by apply P7.
Qed.

(** Growth: every manager's demand is what its check announced. *)
Record running (rid : string) (total : Z) (m : Manager) : Prop := {
  ru_partial : partial_hit_reqs m !! rid = None;
  ru_skipped : num_cached_block m !! rid = None -> skipped_blocks m total <= zlen (table m rid)
}.

Lemma running_demand m q p ext rid nt enc total local n :
  mgr_inv m q ext -> 0 <= total -> running rid total m ->
  announced m p rid nt enc [] total local = Some n -> demand m rid nt enc <= n.
Proof.
  intros Hi Ht [Hp Hs] Hn. unfold announced, demand, tok, get_num_blocks_to_allocate in *.
  assert (cow_demand m rid = 0) as Hcow
    by (unfold cow_demand; rewrite Hp, decide_False; [done|by intros []]).
  assert (forall k t, (num_cached_block m !! rid = None -> skipped_blocks m t <= zlen (table m rid)) ->
    forall l, base_num_blocks_to_allocate m p rid k [] t l false = Some n -> new_demand m rid k <= n) as Hbase.
  { intros k t Hsk l E. unfold base_num_blocks_to_allocate in E. fold (table m rid) in E.
    fold (skipped_blocks m t) in E. unfold new_demand. pose proof (zlen_nonneg (table m rid)) as Hz.
    assert (match max_admission_blocks (cfg m) with Some cap => cdiv k (bsz m) | None => cdiv k (bsz m) end
      = cdiv k (bsz m)) as Em by (destruct (max_admission_blocks (cfg m)); done).
    rewrite Em in E. destruct (num_cached_block m !! rid).
    - change (zlen (@nil loc) =? 0) with true in E. injection E as <-. lia.
    - specialize (Hsk eq_refl). unfold has_partial_local_hit in E. change (zlen (@nil loc)) with 0 in E.
      cbn [Z.ltb Z.compare andb] in E. rewrite ?andb_false_r in E. injection E as <-.
      pose proof (zlen_nonneg (filter (fun x => True) (@nil loc))).
      match goal with |- context [get_num_evictable_blocks ?a ?b] =>
        assert (0 <= get_num_evictable_blocks a b) by (unfold get_num_evictable_blocks; apply zlen_nonneg) end.
      lia. }
  unfold is_cross in *. destruct (kind m) eqn:Hk; cbn [is_ring]; rewrite ?Hcow; try (by eapply Hbase).
  1,2: unfold table; destruct (req_to_blocks m !! rid) as [[|]|]; injection Hn as <-; case_decide; try done; lia.
  rewrite Z.add_0_l. eapply (Hbase enc 0); [|exact Hn]. intros _.
  unfold skipped_blocks. rewrite Hk. cbn [get_num_skipped_tokens]. rewrite Z.div_0_l; [apply zlen_nonneg|].
  apply Z.neq_sym, Z.lt_neq, Hi.
Qed.

Lemma co_grow_spec rid nt enc slack total local ncbs ms p free ext n s :
  pool_wf p free -> coord_inv ms p ext -> 0 <= slack -> 0 <= total -> Forall (running rid total) ms ->
  Forall (fun bs => bs = []) ncbs ->
  co_get_num_blocks_to_allocate rid nt ncbs enc total local false (ms, p) = Ok n s ->
  n + slack <= zlen free ->
  wp (co_allocate_new_blocks rid nt enc) (fun _ s => co_admitted no_hits rid nt enc slack ms p ext s) (ms, p).
Proof.
  intros Hwf Hi Hsl Ht Hrun Hnil Hcheck Hn. apply check_spec in Hcheck as (-> & -> & Hann).
  apply (co_allocate_new_spec rid nt enc slack ms p free ext Hwf Hi Hsl).
  etrans; [|exact Hn]. apply Z.add_le_mono_r. rewrite <- (total_before_const _ ms 0).
  assert (forall i m, ms !! i = Some m -> demand m rid nt enc <= ann p rid nt enc ncbs total local i m) as Hd.
  { intros i m Him. destruct (Hann i m Him) as [Ha _].
    assert (default [] (ncbs !! i) = []) as Hz.
    { destruct (ncbs !! i) eqn:E; [|done]. by eapply (Forall_lookup_1 _ _ _ _ Hnil) in E. }
    rewrite Hz in Ha. pose proof (list_elem_of_split_length _ _ _ Him) as (l1 & l2 & E & _).
    eapply running_demand; [by eapply (ci_mgr _ _ _ Hi l1 m l2)|done| |exact Ha].
    by eapply (Forall_lookup_1 _ _ _ _ Hrun). }
  assert (forall l b, (forall i m, l !! i = Some m -> demand m rid nt enc <= ann p rid nt enc ncbs total local (b + i) m) ->
    total_before (fun _ m => demand m rid nt enc) b l <= total_before (ann p rid nt enc ncbs total local) b l) as Hgo.
  { intros l. induction l as [|m l IH]; intros b Hl; [done|]. rewrite !total_before_cons.
    pose proof (Hl 0%nat m eq_refl) as H0. rewrite Nat.add_0_r in H0.
    enough (total_before (fun _ m => demand m rid nt enc) (S b) l <=
      total_before (ann p rid nt enc ncbs total local) (S b) l) by lia.
    apply IH. intros i x Hx. specialize (Hl (S i) x Hx). by rewrite Nat.add_succ_r in Hl. }
  apply (Hgo ms 0%nat). exact Hd.
Qed.

(** ** Trimming and release over all groups *)

Lemma remove_range_frame rid a b m p u s :
  remove_blocks_in_range rid a b (m, p) = Ok u s ->
  num_cached_block s.1 = num_cached_block m /\ partial_hit_reqs s.1 = partial_hit_reqs m.
Proof.
  unfold remove_blocks_in_range, mbind, M_bind, gets. cbn [fst].
  destruct (req_to_blocks m !! rid) as [t|]; [|by intros [= _ <-]].
  destruct (b <=? a); [by intros [= _ <-]|].
  destruct (null_backward _ _ _ _) as [[t' fr]|]; [|done]. cbn.
  destruct fr as [|x fr]; [by intros [= _ <-]|]. unfold with_pool, zoom. cbn [snd].
  destruct (free_blocks (x :: fr) p) as [a' p'|]; [|done]. by intros [= _ <-].
Qed.

Lemma remove_skipped_frame rid processed prompt m p u s :
  remove_skipped_blocks rid processed prompt (m, p) = Ok u s ->
  num_cached_block s.1 = num_cached_block m /\ partial_hit_reqs s.1 = partial_hit_reqs m.
Proof.
  assert (forall u s, base_remove_skipped_blocks rid processed (m, p) = Ok u s ->
    num_cached_block s.1 = num_cached_block m /\ partial_hit_reqs s.1 = partial_hit_reqs m) as Hb.
  { intros u1 s1. unfold base_remove_skipped_blocks, mbind, M_bind, gets. cbn [fst].
    destruct (_ <=? 0); [by intros [= _ <-]|]. unfold on_mgr, zoom. cbn [fst].
    rewrite read_req_blocks_ok. cbn [snd]. intros E. by apply remove_range_frame in E. }
  unfold remove_skipped_blocks, mbind, M_bind, gets. cbn [fst].
  destruct (kind m); try (apply Hb); try (by intros [= _ <-]).
  destruct prompt; [apply remove_range_frame|apply Hb].
Qed.

Lemma freed_grows p free bs p' :
  freed p free bs p' -> exists free', pool_wf p' free' /\ zlen free - 0 <= zlen free'.
Proof.
  intros [R1 _ _]. eexists. split; [exact R1|]. rewrite !zlen_app.
  pose proof (zlen_nonneg (released_first p bs)). pose proof (zlen_nonneg (released_last p bs)). lia.
Qed.

(** A trimmed table holds only nulls and what it held. *)
Lemma trim_lookup (t : list loc) null L k i x : (k <= L)%nat ->
  (take (L - k) t ++ replicate k null ++ drop L t) !! i = Some x -> x <> null -> t !! i = Some x.
Proof.
  intros Hk Hx Hn. apply lookup_app_Some in Hx as [Hx|[Hle Hx]]; [by apply lookup_take_Some in Hx as [? _]|].
  apply lookup_app_Some in Hx as [[-> _]%lookup_replicate|[Hle' Hx]]; [done|].
  rewrite length_replicate in *. rewrite lookup_drop in Hx.
  pose proof (lookup_lt_Some _ _ _ Hx) as Hlt. rewrite <- Hx. f_equal.
  rewrite length_take in *. lia.
Qed.

(** What a trim leaves of a manager: the bookkeeping and the length of the table. *)
Definition trim_kept (rid : string) (m m' : Manager) : Prop :=
  num_cached_block m' = num_cached_block m /\ partial_hit_reqs m' = partial_hit_reqs m /\
  zlen (table m' rid) = zlen (table m rid).

Lemma remove_skipped_moved G m p free ext rid processed prompt :
  pool_wf p free -> mgr_inv m p ext -> partial_hit_reqs m !! rid = None -> 0 <= processed ->
  (forall n, prompt = Some n -> 0 <= n) ->
  wp (remove_skipped_blocks rid processed prompt) (fun _ s =>
    moved G m p free ext rid 0 s /\ trim_kept rid m s.1) (m, p).
Proof.
  intros Hwf Hi Hp H1 H2.
  pose proof (remove_skipped_spec m p free ext rid processed prompt Hwf Hi Hp H1 H2) as Hw. unfold wp in *.
  destruct (remove_skipped_blocks rid processed prompt (m, p)) as [u s|] eqn:E; [|done].
  destruct (remove_skipped_frame _ _ _ _ _ _ _ E) as [F1 F2].
  destruct Hw as (k & [T1 T2 _ _ R T6 T7]). split; [|split_and!; [done|done|]].
  - split; [by eapply freed_grows|done|apply R|done|].
    apply (shrunk_tail G m p rid); [done|apply R| |right; by rewrite F1, F2|unfold ncached; by rewrite F1].
    intros i x Hx Hn. rewrite T2 in Hx. eapply trim_lookup; [|exact Hx|done]. lia.
  - rewrite T2. unfold zlen in *. rewrite !length_app, length_take, length_replicate, length_drop. lia.
Qed.

Lemma co_remove_skipped_spec G rid processed prompt ms p free ext :
  pool_wf p free -> coord_inv ms p ext -> 0 <= processed -> (forall n, prompt = Some n -> 0 <= n) ->
  Forall (fun m => partial_hit_reqs m !! rid = None) ms ->
  wp (co_remove_skipped_blocks rid processed prompt) (fun _ s =>
    phase_done G rid (zlen free) (fun _ => 0) (fun _ => True) (trim_kept rid) ms p ext s) (ms, p).
Proof.
  intros Hwf Hi H1 H2 Hp. unfold co_remove_skipped_blocks. apply wp_bind.
  eapply wp_mono; [apply (phase_spec G rid (zlen free) _ (fun _ _ => 0) (fun _ => 0) (fun _ => True)
    (fun _ m => partial_hit_reqs m !! rid = None) (trim_kept rid)) with (free := free); try done|].
  - apply zlen_nonneg.
  - intros _ m q fr e Hw Hm _ Hpm _. eapply wp_mono; [by apply (remove_skipped_moved G m q fr e)|].
    intros a t [M1 M2]. exists 0. split_and!; [done|done|lia|done].
  - intros i m Hm. by eapply (Forall_lookup_1 _ _ _ _ Hp).
  - rewrite total_zero. lia.
  - by intros ? ? ?.
Qed.

Lemma co_free_spec G rid ms p free ext :
  pool_wf p free -> coord_inv ms p ext ->
  wp (co_free rid) (fun _ s =>
    phase_done G rid (zlen free) (fun _ => 0) (fun _ => True) (fun _ m' => req_to_blocks m' !! rid = None /\ fresh_request m' rid)
      ms p ext s) (ms, p).
Proof.
  intros Hwf Hi. unfold co_free. apply wp_bind.
  eapply wp_mono; [apply (phase_spec G rid (zlen free) _ (fun _ _ => 0) (fun _ => 0) (fun _ => True) (fun _ _ => True)
    (fun _ m' => req_to_blocks m' !! rid = None /\ fresh_request m' rid)) with (free := free); try done|].
  - apply zlen_nonneg.
  - intros _ m q fr e Hw Hm _ _ _. eapply wp_mono; [by apply (mgr_free_spec m q fr e)|].
    intros a [m' q'] (F1 & F2 & F3 & F4 & F5 & F6). cbn [fst snd] in *. exists 0.
    split_and!; [|done|lia|done|split; [unfold table; by rewrite F4|done|done]].
    split; cbn [fst snd]; [by eapply freed_grows|done|apply F1|done|].
    apply (shrunk_tail G m q rid); [done|apply F1| |left|intros _; unfold ncached; by rewrite F5];
      unfold table; rewrite F4; done.
  - rewrite total_zero. lia.
  - by intros ? ? ?.
Qed.

(** ** Managers just built *)

Definition idle (m : Manager) : Prop := req_to_blocks m = ∅ /\ pending_cow_copies m = [].

Lemma idle_held m x : idle m -> held m x = 0.
Proof. intros [H1 H2]. unfold held, cow_refs. rewrite H1, H2, occ_nil. done. Qed.

Lemma idle_total ms x : Forall idle ms -> total_held ms x = 0.
Proof.
  induction 1 as [|m ms Hm _ IH]; [done|]. rewrite total_held_cons, IH, idle_held by done. done.
Qed.

Lemma coord_inv_init ms p :
  Forall (fun m => idle m /\ mgr_inv m p (fun _ => 0)) ms ->
  (forall x, x ∈ blocks p -> x <> null_block p -> refs p x = 0) -> coord_inv ms p (fun _ => 0).
Proof.
  intros Hms Hr.
  assert (forall l, (forall m, m ∈ l -> m ∈ ms) -> forall x, total_held l x = 0) as Hz.
  { intros l Hl x. apply idle_total. apply Forall_forall. intros m Hm.
    rewrite Forall_forall in Hms. by apply Hms, Hl. }
  constructor.
  - intros pre m post E. apply (mgr_inv_other m p (fun _ => 0)); [| done | |].
    + rewrite Forall_forall in Hms. apply Hms. rewrite E, elem_of_app. right. by left.
    + intros x Hx Hn. unfold others. rewrite Hr by done.
      rewrite (Hz pre), (Hz post), idle_held; [done| |..].
      * rewrite Forall_forall in Hms. apply Hms. rewrite E, elem_of_app. right. by left.
      * intros m' Hm'. rewrite E, elem_of_app. right. by right.
      * intros m' Hm'. rewrite E, elem_of_app. by left.
    + intros x. unfold others. pose proof (total_held_nonneg pre x). pose proof (total_held_nonneg post x). lia.
  - intros x Hx Hn. rewrite Hr, (Hz ms) by done. done.
  - done.
Qed.

Lemma new_manager_idle spec in_flight max_len p caching gid dcp pcp sbs zeroing m :
  get_manager_for_kv_cache_spec spec in_flight max_len p caching gid dcp pcp sbs zeroing = inr m -> idle m.
Proof.
  unfold get_manager_for_kv_cache_spec, manager_init. intros E.
  destruct (spec_kind spec); try done; by injection E as <-.
Qed.

(** Every group's spec is well formed. *)
Definition spec_ok (spec : KVCacheSpec) : Prop :=
  0 < spec_block_size spec /\ forall c, spec_kind spec = ChunkedLocalAttentionSpec c -> 0 < c.

Lemma build_managers_inv {S} n hbs events mc p caching in_flight max_len dcp pcp sbs zeroing gs ms (s s' : S) :
  fresh_pool n caching hbs events mc p -> Forall (fun g => spec_ok (group_spec g)) gs ->
  build_managers 0 gs in_flight max_len p caching dcp pcp sbs zeroing s = Ok ms s' ->
  coord_inv ms p (fun _ => 0) /\ Forall idle ms.
Proof.
  intros Hf Hgs E.
  enough (Forall (fun m => idle m /\ mgr_inv m p (fun _ => 0)) ms) as Hall.
  { split; [|eapply Forall_impl; [exact Hall|by intros m []]]. apply coord_inv_init; [done|].
    intros x Hx Hn. pose proof Hf as [F1 F2 F3 F4 F5 F6 F7 F8 F9 F10].
    apply (pa_free _ _ (pw_alloc _ _ F1)). rewrite F9 in Hx. rewrite F8 in Hn.
    apply elem_of_seq in Hx. apply elem_of_seq. lia. }
  enough (forall i ms (s s' : S), build_managers i gs in_flight max_len p caching dcp pcp sbs zeroing s = Ok ms s' ->
    Forall (fun m => idle m /\ mgr_inv m p (fun _ => 0)) ms) as Hgo by by eapply Hgo.
  clear E ms s s'. induction Hgs as [|g gs [Hb Hc] _ IH]; intros i ms s s' E.
  - by injection E as <- _.
  - cbn [build_managers] in E. unfold mbind, M_bind in E.
    destruct (get_manager_for_kv_cache_spec _ _ _ _ _ _ _ _ _ _) as [e|m] eqn:Em; [done|]. cbn in E.
    destruct (build_managers _ gs _ _ _ _ _ _ _ _ _) as [ms' s1|] eqn:Eb; [|done].
    injection E as <- _. apply Forall_cons. split.
    + split; [by eapply new_manager_idle|by eapply manager_init_inv].
    + by eapply IH.
Qed.

(** C11.  Two-phase allocation is sound: when the sum of the managers' block
    counts, computed before anything is taken, fits into the free list, then
    taking every group's prefix hit, every group's blocks for external tokens
    and every group's new blocks raises nothing, although all groups draw from
    the same free list and a hit of one group may shrink it for the others.
    Every group ends with a slot for every token, the other requests' tables
    are untouched, at most the announced number of blocks left the free list,
    and every reference is accounted for by the tables of all groups together. *)
Theorem coordinator_admission_sound rid ncbs local external nt enc ms p free ext n s :
  pool_wf p free -> coord_inv ms p ext -> hits_ok rid ncbs local ms p ->
  0 <= local -> 0 <= external -> local + external <= nt ->
  co_get_num_blocks_to_allocate rid nt ncbs enc (local + external) local false (ms, p) = Ok n s ->
  n <= get_num_free_blocks p ->
  exists new ms' p', co_admit rid ncbs local external nt enc (ms, p) = Ok new (ms', p') /\
    co_admitted (whole_hits ncbs local ms) rid nt enc (zlen free - n) ms p ext (ms', p').
Proof.
  intros Hwf Hi Hh Hl He Ht Hc Hn. unfold get_num_free_blocks in Hn.
  pose proof (qwf_num _ _ (pa_queue _ _ (pw_alloc _ _ Hwf))) as Hnum. cbn in Hnum. rewrite Hnum in Hn.
  pose proof (co_admit_spec rid ncbs local external nt enc (zlen free - n) ms p free ext n s Hwf Hi
    ltac:(lia) Hh Hl He Ht Hc ltac:(lia)) as Hw.
  apply wp_ok in Hw as (new & [ms' p'] & E & Ha). by exists new, ms', p'.
Qed.

End Alloc.

(** ** Concrete runs *)

(** Two groups on the demo pool: full attention and a window of two tokens. *)
Definition demo_groups : list Manager :=
  [demo_manager FullAttentionSpec; demo_manager (SlidingWindowSpec 2 0)].

Lemma demo_refs x : x ∈ blocks demo_pool -> x <> null_block demo_pool -> refs demo_pool x = 0.
Proof.
  intros Hx Hn. rewrite (mi_refs _ _ _ demo_full_inv x Hx Hn). apply Z.add_0_r.
Qed.

Lemma demo_groups_inv : coord_inv demo_groups demo_pool (fun _ => 0).
Proof.
  apply coord_inv_init; [|exact demo_refs].
  apply Forall_cons. split; [split; [split; reflexivity|exact demo_full_inv]|].
  apply Forall_singleton. split; [split; reflexivity|]. apply demo_manager_inv; discriminate.
Qed.

(** A hit of one block in both groups, and one token more than it covers. *)
Lemma pair_hits_ok p :
  blocks p = [0; 1; 2; 3; 4]%nat -> enable_caching p = true ->
  hits_ok "a" [[1%nat]; [2%nat]] 2 demo_groups p.
Proof.
  intros Hb Hc. split.
  - done.
  - intros m Hm. do 2 (apply elem_of_cons in Hm as [->|Hm]; [done|]). by apply elem_of_nil in Hm.
  - intros [|[|i]] m ncb Hm Hb1; [| |done]; injection Hm as <-; injection Hb1 as <-;
      (split; [split|done]; rewrite ?Hb, ?Hc; [|by left|lia|intros _ Hx; by contradiction Hx]);
      intros x ->%list_elem_of_singleton; set_solver.
Qed.

Lemma demo_hits_ok : hits_ok "a" [[1%nat]; [2%nat]] 2 demo_groups demo_pool.
Proof. apply pair_hits_ok; vm_compute; reflexivity. Qed.

Lemma coordinator_admission_sound_witness :
  exists new ms' p', co_admit "a" [[1%nat]; [2%nat]] 2 0 3 0 (demo_groups, demo_pool) = Ok new (ms', p') /\ Forall (served "a" 3 0) ms'.
Proof.
  destruct (coordinator_admission_sound "a" [[1%nat]; [2%nat]] 2 0 3 0 demo_groups demo_pool
    [1; 2; 3; 4]%nat (fun _ => 0) 4 (demo_groups, demo_pool)) as (new & ms' & p' & E & [Hs _ _ _ _ _ _]).
  - exact demo_pool_wf.
  - exact demo_groups_inv.
  - exact demo_hits_ok.
  - lia.
  - lia.
  - lia.
  - reflexivity.
  - vm_compute. discriminate.
  - exists new, ms', p'. split; [exact E|exact Hs].
Defined.
