(* ===== verification/CoordinatorCaching.v ===== *)
(** * Caching over several KV cache groups

    [cache_blocks] of the coordinator gives the blocks that a request has filled
    since the last call their hashes, group by group.  On the tail invariant it
    raises nothing, changes no table and no reference, and keeps the invariant. *)
From Stdlib Require Import ZArith QArith Lia.
From stdpp Require Import base tactics gmap strings numbers option list.
From S2P Require Import Prelude Blocks FreeQueue Request Hashing BlockMap Env Metrics.
From S2P Require Import BlockPool BlockPoolInv BlockPoolCache BlockPoolAlloc BlockPoolInit BlockPoolFull BlockPoolSpec.
From S2P Require Import Managers ManagerInv ManagerOps ManagerSpec ManagerTails ManagerHits ManagerWindow.
From S2P Require Import Coordinator CoordinatorHits CoordinatorSpec.

Local Open Scope Z_scope.

(** ** Views and masks *)

Lemma view_resolves_default hs hbs blk : blk mod hbs = 0 ->
  resolve_block_hashes (RawHashes hs) hbs blk false None = Some (view_of hs hbs blk).
Proof.
  intros Hm. unfold resolve_block_hashes, view_of, new_scaled. destruct (blk =? hbs); [done|]. cbn [andb].
  by rewrite Hm.
Qed.

Lemma view_from_at hs hbs blk nc :
  0 < hbs -> 0 < blk -> blk mod hbs = 0 -> 0 <= nc ->
  exists fhs, bh_from (view_of hs hbs blk) nc = Some fhs /\ zlen hs / (blk / hbs) - nc <= zlen fhs.
Proof.
  intros Hh Hb Hm Hn. pose proof (blk_split hbs blk Hh Hb Hm) as [Hs Hs1].
  unfold view_of. destruct (Z.eqb_spec blk hbs) as [E|_]; cbn [bh_from].
  - exists (drop (Z.to_nat nc) hs). split; [by rewrite py_from_drop|].
    rewrite E, Z.div_same, Z.div_1_r by lia. unfold zlen. rewrite length_drop. lia.
  - set (n := zlen hs / (blk / hbs)).
    pose proof (Z.div_pos (zlen hs) (blk / hbs) (zlen_nonneg _) ltac:(lia)) as Hq. fold n in Hq.
    pose proof (Z.mul_div_le (zlen hs) (blk / hbs) ltac:(lia)) as Hle. fold n in Hle.
    assert (py_bound n nc = Z.min nc n) as -> by (unfold py_bound; destruct (Z.ltb_spec nc 0); lia).
    destruct (mapM_lookup_total (fun i => py_index hs ((i + 1) * (blk / hbs) - 1)) (py_range (Z.min nc n) n))
      as (fhs & E & Hlen & _).
    { intros i Hi. unfold py_range in Hi. apply elem_of_seqZ in Hi.
      rewrite py_index_nonneg by nia. apply lookup_lt_is_Some_2. unfold zlen in *. nia. }
    exists fhs. split; [done|]. unfold py_range in Hlen. rewrite length_seqZ in Hlen. unfold zlen at 1. lia.
Qed.

Lemma foldl_length_inv {A B} (f : list A -> B -> list A) l acc :
  (forall a b, length (f a b) = length a) -> length (foldl f acc l) = length acc.
Proof. intros Hf. revert acc. induction l as [|b l IH]; intros acc; cbn; [done|]. by rewrite IH, Hf. Qed.

Lemma mask_range_length start lo hi mask : length (mask_range start lo hi mask) = length mask.
Proof. apply foldl_length_inv. intros a b. apply length_insert. Qed.

(** A mask has one entry per new block. *)
Lemma mask_length k bs s e al eagle ret bds dcp mask : s <= e ->
  reachable_block_mask k bs s e al eagle ret bds dcp = Some mask -> zlen mask = e - s.
Proof.
  intros Hse. unfold reachable_block_mask. destruct k; try done. unfold sw_reachable_block_mask.
  destruct al as [al|]; [|done]. destruct (negb _); [done|].
  set (mask0 := replicate _ false). assert (length mask0 = Z.to_nat (e - s)) as H0 by apply length_replicate.
  match goal with |- ?o ≫= _ = _ -> _ => set (o1 := o); assert (forall m, o1 = Some m -> length m = Z.to_nat (e - s)) as H1 end.
  { intros m. unfold o1. destruct (match ret with Some r => _ | None => _ end) as [st|]; [|by intros [= <-]].
    destruct (_ <=? _); [done|]. intros [= <-]. rewrite foldl_length_inv; [done|].
    intros a b. destruct (_ && _); [apply length_insert|done]. }
  destruct o1 as [m1|]; [|done]. specialize (H1 m1 eq_refl). cbn.
  assert (forall m : list bool, length m = Z.to_nat (e - s) -> zlen m = e - s) as Hz by (intros; unfold zlen; lia).
  destruct ret; intros [= <-]; apply Hz; [|done]. rewrite foldl_length_inv; [done|]. intros a b. apply mask_range_length.
Qed.

Section Caching.
Context `{Env}.

(** ** What caching owes to the tail invariant *)

(** The tables stay; only blocks of the request's table change, and those that
    stay in its tail are still ready for their full hash. *)
Record cached_mgr (rid : string) (m : Manager) (p : BlockPool) (m' : Manager) (p' : BlockPool) : Prop := {
  cm_cfg : cfg m' = cfg m;
  cm_tables : forall r, table m' r = table m r;
  cm_partial : partial_hit_reqs m' = partial_hit_reqs m;
  cm_cow : pending_cow_copies m' = pending_cow_copies m;
  cm_held : forall x, held_in (req_to_blocks m') x = held_in (req_to_blocks m) x;
  cm_other : forall r, r <> rid -> num_cached_block m' !! r = num_cached_block m !! r;
  cm_reqs : forall r, r <> rid -> req_to_blocks m' !! r = req_to_blocks m !! r;
  cm_grow : ncached m rid <= ncached m' rid;
  cm_known : forall r, is_Some (num_cached_block m !! r) -> is_Some (num_cached_block m' !! r);
  cm_step : cache_step p p';
  cm_hash : forall x, at_ p' x = at_ p x \/ exists i, table m rid !! i = Some x /\ x <> null_block p /\
    (ncached m' rid <= Z.of_nat i -> tail_ready p' m i x)
}.

Lemma cached_mgr_inv rid m p ext m' p' : mgr_inv m p ext -> cached_mgr rid m p m' p' -> mgr_inv m' p' ext.
Proof.
  intros [H1 H2 H3 H4 H5 H6 H7 H8 H9] [C1 C2 C3 C4 C5 C6 _ C7 C8 [K _ _ Kr] C9].
  split; unfold bsz, kind in *; rewrite ?C1, ?(sc_null _ _ K), ?(sc_caching _ _ K), ?(sc_blocks _ _ K); try done.
  - intros r x. rewrite C2. apply H5.
  - intros x. unfold cow_refs. rewrite C4. apply H6.
  - intros x Hx Hn. rewrite Kr, (H7 x Hx Hn). unfold held, cow_refs. by rewrite C4, C5.
  - intros r i x. rewrite C3, C2. apply H9.
Qed.

Lemma cached_coord rid pre m post p ext m' p' :
  coord_inv (pre ++ m :: post) p ext -> cached_mgr rid m p m' p' -> coord_inv (pre ++ m' :: post) p' ext.
Proof.
  intros Hi Hc. apply (coord_inv_step pre m post p ext); [done|apply Hc|].
  eapply cached_mgr_inv; [by apply (ci_mgr _ _ _ Hi)|done].
Qed.

Lemma cached_tail_at rid m p m' p' r i x : cached_mgr rid m p m' p' -> tail_at m' r i x -> tail_at m r i x.
Proof.
  intros [C1 C2 C3 _ _ C6 _ C7 _ _ _] [T1 T2 T3 T4]. rewrite C2 in T1. rewrite C1 in T2.
  split; [done|done| |unfold partial_at in *; by rewrite C3 in T4].
  destruct (decide (r = rid)) as [->|Hr]; [lia|]. unfold ncached in *. by rewrite C6 in T3.
Qed.

Lemma cached_tails rid pre m post p ext m' p' :
  coord_inv (pre ++ m :: post) p ext -> partial_hit_reqs m !! rid = None ->
  cached_mgr rid m p m' p' -> tails_ok (pre ++ m :: post) p -> tails_ok (pre ++ m' :: post) p'.
Proof.
  intros Hi Hp Hc [Hok0 Hok]. pose proof Hc as [C1 C2 C3 _ _ C6 _ C7 _ Cs C9].
  assert (m ∈ pre ++ m :: post) as Hin by (rewrite elem_of_app; right; by left).
  assert (forall j m0, (pre ++ m' :: post) !! j = Some m0 -> exists m1, (pre ++ m :: post) !! j = Some m1 /\
    cfg m0 = cfg m1 /\ (forall r, table m0 r = table m1 r) /\ partial_hit_reqs m0 = partial_hit_reqs m1 /\
    (forall r i x, tail_at m0 r i x -> tail_at m1 r i x)) as Hback.
  { intros j m0 Hj. destruct (lookup_middle_Some _ _ _ _ _ Hj) as [[-> ->]|[_ Hold]]; [|by exists m0].
    exists m. split_and!; [by apply list_lookup_middle|done|done|done|].
    intros r i x. by apply (cached_tail_at rid m p m' p'). }
  split.
  { intros m0 r [j Hj]%list_elem_of_lookup. destruct (lookup_middle_Some _ _ _ _ _ Hj) as [[-> ->]|[_ Hold]].
    - pose proof (Hok0 m r Hin). destruct (decide (r = rid)) as [->|Hr]; [lia|]. unfold ncached in *. by rewrite C6.
    - eapply Hok0, list_elem_of_lookup_2, (Hold m). }
  intros Hcach j m0 r i x Hj Ht. rewrite (sc_caching _ _ (cs_config _ _ Cs)) in Hcach.
  destruct (Hback j m0 Hj) as (m1 & Hj1 & Hb & _ & _ & Htl). specialize (Htl r i x Ht).
  destruct (Hok Hcach j m1 r i x Hj1 Htl) as [Hr Hocc]. split.
  - destruct (C9 x) as [E|(i0 & Hx & Hn & Hready)].
    { eapply tail_ready_same, Hr; [by rewrite E|by rewrite E|apply Cs|done]. }
    destruct (Hocc (length pre) m rid i0) as [(Ej & Er & Ei)|Hpa]; [by apply list_lookup_middle|done| |].
    + subst j r i. rewrite list_lookup_middle in Hj by done. injection Hj as <-.
      eapply (tail_ready_same p' p' m m'); [done|done|done|done|]. apply Hready, Ht.
    + unfold partial_at in Hpa. by rewrite Hp in Hpa.
  - intros j' m2 r' i' Hj' Hx'. destruct (Hback j' m2 Hj') as (m3 & Hj3 & _ & Ht3 & Hp3 & _).
    rewrite Ht3 in Hx'. unfold partial_at. rewrite Hp3. by apply (Hocc j').
Qed.

(** ** Whole blocks *)

(** What the request and the configuration owe: the hashes of all its full hash
    blocks exist. *)
Record cache_ready (p : BlockPool) (r : Request) : Prop := {
  cr_hbs : 0 < hash_block_size p;
  cr_hashed : num_tokens r / hash_block_size p <= zlen (block_hashes r);
  cr_prompt : 0 <= num_prompt_tokens r <= num_tokens r;
  cr_mm : mm_sorted (mm_features r);
  cr_memo : memo_ok env_sha256 r;
  cr_open : only_last_open r ((num_prompt_tokens r / hash_block_size p - 1) * hash_block_size p)
}.

Record cache_mgr (p : BlockPool) (m : Manager) : Prop := {
  cg_size : 0 < bsz m;
  cg_hash : bsz m mod hash_block_size p = 0;
  cg_group : 0 <= kv_cache_group_id (cfg m) < 2 ^ 32;
  cg_kind : is_cross m = false
}.

Definition cache_result (m : Manager) (p : BlockPool) (r : Request) (free : list loc) (s : Manager * (BlockPool * Request)) : Prop :=
  cached_mgr (request_id r) m p s.1 s.2.1 /\ pool_wf s.2.1 free /\ same_but_memo r s.2.2 /\ memo_ok env_sha256 s.2.2.

Lemma read_mgr_held rid m x : held_in (req_to_blocks (read_mgr rid m)) x = held_in (req_to_blocks m) x.
Proof.
  unfold read_mgr. cbn. destruct (req_to_blocks m !! rid) eqn:E; [done|].
  rewrite held_in_insert, E. cbn. rewrite !occ_nil. lia.
Qed.

Lemma cached_mgr_refl rid m p : cached_mgr rid m p m p.
Proof. split; try done. intros x. by left. Qed.

(** The selected blocks of the new range are tail blocks. *)
Lemma selected_tail m p ext rid nf mask i x :
  mgr_inv m p ext -> partial_hit_reqs m !! rid = None -> 0 <= ncached m rid -> ncached m rid < nf <= zlen (table m rid) ->
  (i, x) ∈ sel_pairs p mask (enumerate (py_slice (table m rid) (ncached m rid) nf)) ->
  tail_at m rid (Z.to_nat (ncached m rid) + i) x /\ Z.of_nat i < nf - ncached m rid.
Proof.
  intros Hi Hp H0 Hnf [Hs (l1 & l2 & Hl)%list_elem_of_split]%list_elem_of_filter.
  apply enumerate_lookup in Hl as [_ Hl]. rewrite py_slice_prefix in Hl by lia.
  apply lookup_take_Some in Hl as [Hl Hlt]. rewrite lookup_drop in Hl. split; [|lia].
  unfold selected in Hs. cbn in Hs. apply andb_true_iff in Hs as [Hs%negb_true_iff%bool_decide_eq_false _].
  split; [done|by rewrite (mi_null _ _ _ Hi)|lia|]. intros y. unfold partial_at. by rewrite Hp.
Qed.

Lemma enumerate_NoDup l : NoDup (enumerate l).
Proof.
  apply (NoDup_fmap_1 fst). unfold enumerate. rewrite fst_zip by (by rewrite length_seq). apply NoDup_seq.
Qed.

Section OneManager.
Context (pre post : list Manager) (m : Manager) (p : BlockPool) (r : Request) (free : list loc) (ext : loc -> Z).
Context (Hwf : pool_wf p free) (Hi : coord_inv (pre ++ m :: post) p ext) (Htl : tails_ok (pre ++ m :: post) p).
Context (Hcach : enable_caching p = true) (Hp : partial_hit_reqs m !! request_id r = None).
Context (Hr : cache_ready p r) (Hm : cache_mgr p m).
Let rid := request_id r.

Lemma here : (pre ++ m :: post) !! length pre = Some m.
Proof. by apply list_lookup_middle. Qed.

Lemma cacheable_tail t mask :
  t <= num_tokens r -> t / bsz m <= zlen (table m rid) -> ncached m rid < t / bsz m ->
  (forall mk, mask = Some mk -> zlen mk = t / bsz m - ncached m rid) ->
  exists hs, cacheable p r (table m rid) hs (ncached m rid) (t / bsz m) (bsz m) (kv_cache_group_id (cfg m)) mask.
Proof.
  intros Ht Hlen Hlt Hmask. pose proof Hr as [R1 R2 R3 R4 R5 R6]. pose proof Hm as [M1 M2 M3 M4].
  pose proof (ci_mgr _ _ _ Hi pre m post eq_refl) as Hmi. pose proof (blk_split _ _ R1 M1 M2) as [Bs B1].
  assert (0 <= ncached m rid) as H0 by (eapply (to_cached _ _ Htl), list_elem_of_lookup_2, here).
  destruct (view_from_at (block_hashes r) (hash_block_size p) (bsz m) (ncached m rid) R1 M1 M2 H0) as (hs & Ehs & Hhs).
  exists hs.
  assert (forall i x, (i, x) ∈ sel_pairs p mask (enumerate (py_slice (table m rid) (ncached m rid) (t / bsz m))) ->
    tail_at m rid (Z.to_nat (ncached m rid) + i) x /\ Z.of_nat i < t / bsz m - ncached m rid) as Hsel
    by (intros i x; by apply (selected_tail m p (others pre post ext))).
  assert (num_tokens r / bsz m <= zlen (block_hashes r) / (bsz m / hash_block_size p)) as Henough.
  { rewrite Bs at 1. rewrite Z.mul_comm, <- Z.div_div by lia. apply Z.div_le_mono; lia. }
  pose proof (Z.div_le_mono t (num_tokens r) (bsz m) M1 Ht) as Hmono.
  split; try done.
  - intros x Hx. rewrite py_slice_prefix in Hx by lia. apply (mi_blocks _ _ _ Hmi rid).
    rewrite <- (take_drop (Z.to_nat (ncached m rid)) (table m rid)), elem_of_app. right.
    rewrite <- (take_drop (Z.to_nat (t / bsz m - ncached m rid)) (drop _ _)), elem_of_app. by left.
  - apply NoDup_fmap_2_strong; [|apply NoDup_filter, enumerate_NoDup].
    intros [i x] [j y] Hix Hjy Exy. cbn in Exy. subst y. f_equal.
    destruct (Hsel i x Hix) as [T1 _]. destruct (Hsel j x Hjy) as [T2 _].
    destruct (to_tail _ _ Htl Hcach _ _ _ _ _ here T1) as [_ Hocc].
    destruct (Hocc _ _ _ _ here (ta_here _ _ _ _ T2)) as [(_ & _ & E)|E]; [lia|].
    unfold partial_at, rid in E. by rewrite Hp in E.
  - exists (view_of (block_hashes r) (hash_block_size p) (bsz m)). split_and!; [by apply view_resolves_default|done|].
    intros Hpos. apply (view_defined _ _ _ R1 M1 M2 (num_tokens r)); [done|lia].
  - lia.
  - intros i x Hix. destruct (Hsel i x Hix) as [T1 _].
    destruct (to_tail _ _ Htl Hcach _ _ _ _ _ here T1) as [[Hready _] _].
    eapply hash_ready_mono; [|exact Hready]. nia.
Qed.

Lemma base_cache_spec t ret bds :
  t <= num_tokens r -> t / bsz m <= zlen (table m rid) ->
  wp (base_cache_blocks t ret bds) (fun _ s => cache_result m p r free s) (m, (p, r)).
Proof.
  intros Ht Hlen. unfold base_cache_blocks. apply wp_bind, wp_get. cbv beta iota zeta. fold rid.
  change (default 0 (num_cached_block m !! rid)) with (ncached m rid).
  destruct (Z.leb_spec (t / bsz m) (ncached m rid)) as [Hle|Hlt].
  { apply wp_ret. unfold cache_result. cbn [fst snd]. split_and!; [apply cached_mgr_refl|done|by destruct r|apply Hr]. }
  set (mask := reachable_block_mask _ _ _ _ _ _ _ _ _).
  destruct (cacheable_tail t mask Ht Hlen Hlt) as [hs Hca].
  { intros mk E. eapply mask_length; [|exact E]. lia. }
  apply wp_bind, wp_zoom. unfold wp at 1. cbn [fst]. rewrite read_req_blocks_ok. cbn [snd]. fold (read_mgr rid m).
  apply wp_bind, wp_zoom. cbn [snd]. eapply wp_mono; [by apply (cache_full_blocks_spec p r free)|].
  intros [] [p' r'] [F1 F2 F3 F4 [F5 F6] _]. cbn [fst snd] in *. apply wp_zoom, wp_modify.
  unfold cache_result. cbn [fst snd]. split_and!; [|done|done|done].
  pose proof (ci_mgr _ _ _ Hi pre m post eq_refl) as Hmi.
  assert (0 <= ncached m rid) as H0 by (eapply (to_cached _ _ Htl), list_elem_of_lookup_2, here).
  assert (ncached (set_num_cached (<[rid:=t / bsz m]> (num_cached_block (read_mgr rid m))) (read_mgr rid m)) rid
    = t / bsz m) as En by (unfold ncached; cbn; by rewrite lookup_insert_eq).
  fold rid. split; try done.
  - intros q. apply read_mgr_table.
  - intros x. apply read_mgr_held.
  - intros q Hq. cbn. by rewrite lookup_insert_ne.
  - intros q Hq. by apply read_mgr_same.
  - lia.
  - intros q Hq. cbn. destruct (decide (q = rid)) as [->|Hne]; [by rewrite lookup_insert_eq|by rewrite lookup_insert_ne].
  - intros x. rewrite En. destruct (decide (x ∈ (sel_pairs p mask (enumerate (py_slice (table m rid) (ncached m rid) (t / bsz m)))).*2)) as [Hx|Hx];
      [right|left; by apply F4].
    apply list_elem_of_fmap in Hx as ([i y] & -> & Hix). cbn.
    destruct (selected_tail m p (others pre post ext) rid (t / bsz m) mask i y) as [[T1 T2 T3 T4] Hi2]; try done.
    rewrite (mi_null _ _ _ Hmi) in T2. exists (Z.to_nat (ncached m rid) + i)%nat. split_and!; [done|done|lia].
Qed.

(** The boundary of the prompt inside a block. *)
Lemma partial_tail_spec t :
  match kind m with FullAttentionSpec | RSWASpec _ | SinkFullAttentionSpec _ => True | _ => False end ->
  bsz m <> hash_block_size p ->
  wp (cache_partial_tail_block t) (fun _ s => cache_result m p r free s) (m, (p, r)).
Proof.
  intros Hfull Hne. pose proof Hr as [R1 R2 R3 R4 R5 R6]. pose proof Hm as [M1 M2 M3 M4].
  pose proof (ci_mgr _ _ _ Hi pre m post eq_refl) as Hmi. pose proof (blk_split _ _ R1 M1 M2) as [Bs B1].
  assert (cache_result m p r free (m, (p, r))) as Hnop.
  { unfold cache_result. cbn [fst snd]. split_and!; [apply cached_mgr_refl|done|by destruct r|done]. }
  assert (forall x, at_ p x = at_ p x) as Hrefl by done.
  unfold cache_partial_tail_block. apply wp_bind, wp_get. cbv beta iota zeta.
  set (b := num_prompt_tokens r / hash_block_size p * hash_block_size p).
  destruct (Z.eqb_spec b 0) as [Hb0|Hb0]; [by apply wp_ret|]. cbn [orb].
  destruct (t <? b); [by apply wp_ret|].
  destruct (Z.eqb_spec (b mod bsz m) 0) as [Hbm|Hbm]; [by apply wp_ret|].
  pose proof (Z.div_pos (num_prompt_tokens r) (hash_block_size p) ltac:(lia) R1) as Hq0.
  apply wp_bind, wp_zoom. unfold wp at 1. cbn [fst]. rewrite read_req_blocks_ok. cbn [snd]. fold rid.
  fold (read_mgr rid m).
  assert (cached_mgr rid m p (read_mgr rid m) p) as Hread.
  { split; try done; [apply read_mgr_table|apply read_mgr_held|apply read_mgr_same|]. intros x. by left. }
  assert (forall p' r', cached_mgr rid m p (read_mgr rid m) p' -> pool_wf p' free -> same_but_memo r r' -> memo_ok env_sha256 r' ->
    cache_result m p r free (read_mgr rid m, (p', r'))) as Hres by done.
  destruct (Z.leb_spec (zlen (table m rid)) (b / bsz m)) as [Hlen|Hlen];
    [apply wp_ret, Hres; [done|done|by destruct r|done]|].
  pose proof (Z.div_pos b (bsz m) ltac:(nia) M1) as Hidx.
  destruct (lookup_lt_is_Some_2 (table m rid) (Z.to_nat (b / bsz m))) as [x Hx]; [unfold zlen in Hlen; lia|].
  apply wp_bind. eapply wp_of_option; [rewrite py_index_nonneg by done; exact Hx|].
  apply wp_bind, wp_zoom. cbn [snd]. change (bsz (read_mgr rid m)) with (bsz m). change (cfg (read_mgr rid m)) with (cfg m).
  assert (x ∈ blocks p) as Hxb by (eapply (mi_blocks _ _ _ Hmi rid), list_elem_of_lookup_2, Hx).
  destruct (decide (x = null_block p)) as [Hxn|Hxn].
  { unfold cache_partial_block. apply wp_bind, wp_zoom, wp_gets. cbn [fst snd]. fold (at_ p x).
    rewrite (pb_isnull _ (pw_blocks _ _ Hwf) x Hxb), bool_decide_eq_true_2 by done. apply wp_ret. cbn [fst snd].
    apply wp_ret, Hres; [done|done|by destruct r|done]. }
  assert (b / hash_block_size p = num_prompt_tokens r / hash_block_size p) as Eb by (unfold b; by rewrite Z.div_mul by lia).
  pose proof (Z.div_le_mono (num_prompt_tokens r) (num_tokens r) _ R1 (proj2 R3)) as Hpm.
  assert (0 < num_prompt_tokens r / hash_block_size p) as Hq by (unfold b in Hb0; nia).
  destruct (lookup_lt_is_Some_2 (block_hashes r) (Z.to_nat (b / hash_block_size p - 1))) as [h Hh];
    [rewrite Eb; unfold zlen in R2; lia|].
  eapply wp_mono; [apply (cache_partial_block_spec p r free x b (kv_cache_group_id (cfg m)) (bsz m) false h Hwf)|].
  { split; try done.
    - intros _. split; [|done]. nia.
    - unfold b. apply Z.mod_mul. lia.
    - rewrite Eb. split; [done|]. by rewrite <- Eb.
    - rewrite Eb. done. }
  intros ko [p' r'] (key & _ & -> & W & [P1 P2 P3 P4 P5] & Hsm & Hmm). cbn [fst snd] in *.
  apply wp_ret. apply Hres; try done.
  destruct Hread as [C1 C2 C3 C4 C5 C6 C6' C7 C8 _ _]. split; try done.
  intros y. destruct (decide (y = x)) as [->|Hy]; [right|left; by apply P4].
  exists (Z.to_nat (b / bsz m)). split_and!; [done|done|]. intros Hnc.
  assert (tail_at m rid (Z.to_nat (b / bsz m)) x) as Ht.
  { split; [done|by rewrite (mi_null _ _ _ Hmi)|done|]. intros z. unfold partial_at, rid. by rewrite Hp. }
  destruct (to_tail _ _ Htl Hcach _ _ _ _ _ here Ht) as [[Hready Hfine] _]. split.
  2:{ intros Hf. exfalso. revert Hf. unfold fine_grained. rewrite (sc_hbs _ _ (cs_config _ _ P1)).
      rewrite (proj2 (Z.eqb_neq _ _) Hne). destruct (kind m); try done. }
  apply P5; [|done]. rewrite Z2Nat.id by done. pose proof (Z.div_mod b (bsz m)). pose proof (Z.mod_pos_bound b (bsz m) M1). nia.
Qed.

End OneManager.

(** ** One manager *)

Lemma cached_mgr_trans rid m p m1 p1 m2 p2 :
  cached_mgr rid m p m1 p1 -> cached_mgr rid m1 p1 m2 p2 -> cached_mgr rid m p m2 p2.
Proof.
  intros [A1 A2 A3 A4 A5 A6 A6' A7 A8' A8 A9] [B1 B2 B3 B4 B5 B6 B6' B7 B8' B8 B9]. split; try (etrans; done); try lia.
  - intros q. by rewrite B2, A2.
  - intros x. by rewrite B5, A5.
  - intros q Hq. by rewrite B6, A6.
  - intros q Hq. by rewrite B6', A6'.
  - intros q Hq. by apply B8', A8'.
  - intros x. destruct (B9 x) as [E|(i & Hx & Hn & Hy)].
    + rewrite E. destruct (A9 x) as [E1|(i & Hx & Hn & Hy)]; [by left|right]. exists i. split_and!; [done|done|].
      intros Hi. eapply (tail_ready_same p1 p2 m m), Hy; [by rewrite E|by rewrite E|apply B8|done|lia].
    + right. exists i. rewrite A2 in Hx. rewrite (sc_null _ _ (cs_config _ _ A8)) in Hn. split_and!; [done|done|].
      intros Hi. by eapply (tail_ready_same p2 p2 m1 m), Hy.
Qed.

Lemma cache_ready_step p r p' r' :
  cache_step p p' -> same_but_memo r r' -> memo_ok env_sha256 r' -> cache_ready p r -> cache_ready p' r'.
Proof.
  intros [Hc _ _ _] -> Hm [R1 R2 R3 R4 R5 R6]. by split; rewrite ?(sc_hbs _ _ Hc).
Qed.

Lemma cache_mgr_step p m p' m' : cache_step p p' -> cfg m' = cfg m -> cache_mgr p m -> cache_mgr p' m'.
Proof.
  intros [Hc _ _ _] E [G1 G2 G3 G4]. unfold bsz, is_cross, kind in *.
  split; unfold bsz, is_cross, kind; rewrite ?E, ?(sc_hbs _ _ Hc); done.
Qed.

Lemma memo_step_trans r r1 r2 : same_but_memo r r1 -> same_but_memo r1 r2 -> same_but_memo r r2.
Proof. unfold same_but_memo. intros E1 E2. rewrite E2, E1. done. Qed.

(** [cache_blocks] of a manager that the call reaches. *)
Lemma cache_blocks_spec pre m post p r free ext t ret bds :
  pool_wf p free -> coord_inv (pre ++ m :: post) p ext -> tails_ok (pre ++ m :: post) p ->
  enable_caching p = true -> (is_ring (kind m) = false -> partial_hit_reqs m !! request_id r = None) ->
  cache_ready p r -> cache_mgr p m -> t <= num_tokens r ->
  (is_ring (kind m) = false -> t / bsz m <= zlen (table m (request_id r))) ->
  wp (cache_blocks t ret bds) (fun _ s => cache_result m p r free s /\
    tails_ok (pre ++ s.1 :: post) s.2.1) (m, (p, r)).
Proof.
  intros Hwf Hi Htl Hc Hp Hr Hm Ht Hlen.
  destruct (is_ring (kind m)) eqn:Hring.
  { unfold cache_blocks. apply wp_bind, wp_get. cbv beta iota. destruct (kind m); try done; apply wp_ret; split; try done;
      (unfold cache_result; cbn [fst snd]; split_and!; [apply cached_mgr_refl|done|by destruct r|apply Hr]). }
  specialize (Hp eq_refl). specialize (Hlen eq_refl).
  assert (forall m1 p1 r1, cache_result m p r free (m1, (p1, r1)) -> tails_ok (pre ++ m1 :: post) p1) as Hkeep.
  { intros m1 p1 r1 (C & _). by apply (cached_tails (request_id r) pre m post p ext). }
  pose proof (base_cache_spec pre post m p r free ext Hwf Hi Htl Hc Hp Hr Hm t ret bds Ht Hlen) as Hbase.
  unfold cache_blocks. apply wp_bind, wp_get. cbv beta iota.
  assert (match kind m with FullAttentionSpec | RSWASpec _ | SinkFullAttentionSpec _ => True | _ => False end ->
    wp (full_cache_blocks t ret bds) (fun _ s => cache_result m p r free s /\
    tails_ok (pre ++ s.1 :: post) s.2.1) (m, (p, r))) as Hfull.
  { intros Hkind. unfold full_cache_blocks. apply wp_bind. eapply wp_mono; [exact Hbase|].
    intros [] [m1 [p1 r1]] Hres. pose proof (Hkeep _ _ _ Hres) as Htl1. destruct Hres as (C & W & Hs & Hmm). cbn [fst snd] in *.
    apply wp_bind, wp_get. cbv beta iota.
    destruct (Z.eqb_spec (bsz m1) (hash_block_size p1)) as [E|E]; [by apply wp_ret|].
    assert (request_id r1 = request_id r) as Erid by (by rewrite Hs).
    assert (partial_hit_reqs m1 !! request_id r1 = None) as Hp1 by (by rewrite Erid, (cm_partial _ _ _ _ _ C)).
    pose proof (cached_coord _ _ _ _ _ _ _ _ Hi C) as Hi1.
    eapply wp_mono; [apply (partial_tail_spec pre post m1 p1 r1 free ext W Hi1 Htl1); try done|].
    4:{ unfold kind. by rewrite (cm_cfg _ _ _ _ _ C). }
    - by rewrite (sc_caching _ _ (cs_config _ _ (cm_step _ _ _ _ _ C))).
    - by apply (cache_ready_step p r); [apply C|..].
    - apply (cache_mgr_step p m); [apply C|apply C|done].
    - intros [] [m2 [p2 r2]] (C2 & W2 & Hs2 & Hmm2). rewrite Erid in C2. cbn [fst snd] in *.
      assert (cache_result m p r free (m2, (p2, r2))) as Hres.
      { unfold cache_result. cbn [fst snd]. split_and!; [by eapply cached_mgr_trans|done|by eapply memo_step_trans|done]. }
      split; [done|]. by eapply Hkeep. }
  destruct Hm as [_ _ _ Hk]. unfold is_cross in Hk.
  destruct (kind m); try done; try (by apply Hfull); (eapply wp_mono; [exact Hbase|]); intros [] [m1 [p1 r1]] Hres; (split; [done|by eapply Hkeep]).
Qed.

(** ** All managers *)

(** Of a manager only the request's count of cached blocks moved. *)
Record cached_kept (rid : string) (m m' : Manager) : Prop := {
  ck_same : same_mgr rid m m';
  ck_tables : forall r, table m' r = table m r;
  ck_partial : partial_hit_reqs m' = partial_hit_reqs m;
  ck_cow : pending_cow_copies m' = pending_cow_copies m;
  ck_grow : ncached m rid <= ncached m' rid;
  ck_known : forall r, is_Some (num_cached_block m !! r) -> is_Some (num_cached_block m' !! r)
}.

Lemma cached_mgr_kept rid m p m' p' : cached_mgr rid m p m' p' -> cached_kept rid m m'.
Proof. intros [C1 C2 C3 C4 C5 C6 C6' C7 C8 _ _]. split; try done. split; try done. intros r _. by rewrite C3. Qed.

Record co_cached (ms : list Manager) (p : BlockPool) (r : Request) (free : list loc) (ext : loc -> Z)
    (s : KCState) : Prop := {
  cc_inv : coord_inv s.1 s.2.1 ext;
  cc_tails : tails_ok s.1 s.2.1;
  cc_wf : pool_wf s.2.1 free;
  cc_step : cache_step p s.2.1;
  cc_mgrs : Forall2 (cached_kept (request_id r)) ms s.1;
  cc_req : same_but_memo r s.2.2 /\ memo_ok env_sha256 s.2.2
}.

(** The tokens handed to a manager are tokens of the request. *)
Lemma co_cache_spec co n ms p r free ext :
  pool_wf p free -> coord_inv ms p ext -> tails_ok ms p -> enable_caching p = true ->
  cache_ready p r -> 0 < co_scheduler_block_size co -> 0 <= num_reprefillable_tokens co ->
  0 <= n <= num_tokens r ->
  Forall (fun m => cache_mgr p m /\ (is_ring (kind m) = false ->
    partial_hit_reqs m !! request_id r = None /\ n / bsz m <= zlen (table m (request_id r)))) ms ->
  wp (co_cache_blocks co n) (fun _ s => co_cached ms p r free ext s) (ms, (p, r)).
Proof.
  intros Hwf Hi Htl Hc Hr Hs Hre Hn Hall. unfold co_cache_blocks. apply wp_bind, wp_gets. cbn [snd].
  apply wp_bind. set (rid := request_id r) in *.
  eapply wp_mono; [apply (wp_each_manager _ (fun pre _ post t =>
    coord_inv (pre ++ post) t.1 ext /\ tails_ok (pre ++ post) t.1 /\ pool_wf t.1 free /\ cache_step p t.1 /\
    same_but_memo r t.2 /\ memo_ok env_sha256 t.2 /\
    exists pre0, ms = pre0 ++ post /\ Forall2 (cached_kept rid) pre0 pre))|].
  - cbn [fst snd]. split_and!; [done|done|done|done|by destruct r|apply Hr|by exists []].
  - intros pre out m post [q r1] _ (Hci & Ht & Hw & Hst & Hsm & Hmm & pre0 & Ems & Hk). cbn [fst snd] in *.
    apply wp_bind, wp_gets. cbn [fst].
    rewrite Forall_forall in Hall. destruct (Hall m) as [Hcm Hpl]; [rewrite Ems, elem_of_app; right; by left|].
    assert (request_id r1 = rid /\ num_tokens r1 = num_tokens r) as [Erid Ent] by (by rewrite Hsm).
    match goal with |- wp (cache_blocks ?a _ _) _ _ => set (t := a) end.
    assert (t <= n) as Htn.
    { unfold t, round_down. destruct (co_kind co); try lia.
      pose proof (Z.mul_div_le n (co_scheduler_block_size co) Hs). destruct (_ && _); lia. }
    eapply wp_mono; [apply (cache_blocks_spec pre m post q r1 free ext t); try done|].
    + by rewrite (sc_caching _ _ (cs_config _ _ Hst)).
    + rewrite Erid. intros Hrg. by apply Hpl.
    + by apply (cache_ready_step p r).
    + by apply (cache_mgr_step p m).
    + lia.
    + rewrite Erid. intros Hrg. destruct (Hpl Hrg) as [_ Hle]. etrans; [|exact Hle].
      apply Z.div_le_mono; [apply Hcm|done].
    + intros [] [m' [q' r']] ((C & W & S1 & S2) & T). rewrite Erid in C. cbn [fst snd] in *.
      rewrite <- !app_assoc. cbn [app].
      split_and!; [by eapply cached_coord|done|done|etrans; [done|apply C]|by eapply memo_step_trans|done|].
      exists (pre0 ++ [m]). split; [by rewrite <- app_assoc|]. apply Forall2_app; [done|].
      apply Forall2_cons. split; [by eapply cached_mgr_kept|by apply Forall2_nil].
  - intros out [ms' [q r1]] (_ & Hci & Ht & Hw & Hst & Hsm & Hmm & pre0 & Ems & Hk). cbn [fst snd] in *.
    rewrite app_nil_r in *. subst pre0. apply wp_ret. by split.
Qed.

End Caching.
