(* ===== verification/KVCacheManager.v ===== *)
(** * The KV cache manager

    vllm/v1/core/kv_cache_manager.py: the scheduler's interface to the block
    pool, the per-group managers and the coordinator.  The store of a method is
    the manager's attributes, or these with the request it is called on.  The
    branches for Mamba groups are absent, as the modelled specs have none. *)
From Stdlib Require Import ZArith QArith Qround Lia.
From stdpp Require Import base tactics gmap strings numbers option list.
From S2P Require Import Prelude Blocks FreeQueue Request Hashing BlockMap Env Metrics.
From S2P Require Import BlockPool Managers Coordinator.

Local Open Scope Z_scope.

(** ** Data *)

(** [KVCacheBlocks]; [shared_empty] tells whether the object's tuple is the
    manager's pre-constructed [empty_kv_cache_blocks.blocks], which the code
    compares by identity. *)
Record KVCacheBlocks := mkKVBlocks { kb_blocks : list (list loc); shared_empty : bool }.

(** [KVCacheBlocks.__add__]: a new object *)
Definition kb_add (a b : KVCacheBlocks) : KVCacheBlocks :=
  mkKVBlocks (zip_with app (kb_blocks a) (kb_blocks b)) false.

(** [[blk.block_id for blk in bs]] *)
Definition ids_of (p : BlockPool) (bs : list loc) : list Z :=
  (fun l => block_id (hget (heap p) l)) <$> bs.

(** [KVCacheBlocks.get_block_ids] *)
Definition kb_get_block_ids (p : BlockPool) (b : KVCacheBlocks) (allow_none : bool) : option (list (list Z)) :=
  if allow_none && forallb (fun g => zlen g =? 0) (kb_blocks b) then None
  else Some (ids_of p <$> kb_blocks b).

(** [get_unhashed_block_ids], [get_unhashed_block_ids_all_groups] *)
Definition kb_get_unhashed_block_ids (p : BlockPool) (b : KVCacheBlocks) : exn + list Z :=
  match kb_blocks b with
  | [g] => inr (ids_of p (filter (fun l => Blocks.block_hash (hget (heap p) l) = None) g))
  | _ => inl AssertionError
  end.
Definition kb_get_unhashed_block_ids_all_groups (p : BlockPool) (b : KVCacheBlocks) : list (list Z) :=
  (fun g => ids_of p (filter (fun l => Blocks.block_hash (hget (heap p) l) = None /\
                                       is_null (hget (heap p) l) = false) g)) <$> kb_blocks b.

(** [new_empty] *)
Definition kb_new_empty (b : KVCacheBlocks) : KVCacheBlocks :=
  mkKVBlocks (replicate (length (kb_blocks b)) []) false.

(** [PrefixCacheStats], vllm/v1/metrics/stats.py *)
Record PrefixCacheStats := mkPrefixStats {
  ps_reset : bool;
  ps_requests : Z;
  ps_queries : Z;
  ps_hits : Z;
  preempted_requests : Z;
  preempted_queries : Z;
  preempted_hits : Z
}.
Definition new_prefix_stats : PrefixCacheStats := mkPrefixStats false 0 0 0 0 0 0.

(** [PrefixCacheStats.record] *)
Definition ps_record (num_tokens num_hits : Z) (preempted : bool) (s : PrefixCacheStats) : PrefixCacheStats :=
  if preempted
  then mkPrefixStats (ps_reset s) (ps_requests s) (ps_queries s) (ps_hits s)
         (preempted_requests s + 1) (preempted_queries s + num_tokens) (preempted_hits s + num_hits)
  else mkPrefixStats (ps_reset s) (ps_requests s + 1) (ps_queries s + num_tokens) (ps_hits s + num_hits)
         (preempted_requests s) (preempted_queries s) (preempted_hits s).

(** [get_kv_cache_spec_kind] and [get_kv_cache_spec_sliding_window] on the modelled specs *)
Definition get_kv_cache_spec_kind (spec : KVCacheSpec) : string :=
  match spec_kind spec with
  | SinkFullAttentionSpec _ => "sink_full_attention"
  | FullAttentionSpec | RSWASpec _ => "full_attention"
  | ChunkedLocalAttentionSpec _ => "chunked_local_attention"
  | SlidingWindowSpec _ _ | KpoolTailSpec _ _ => "sliding_window"
  | CrossAttentionSpec => "cross_attention"
  | CircularBufferSpec => "unknown"
  end.
Definition get_kv_cache_spec_sliding_window (spec : KVCacheSpec) : option Z :=
  match spec_kind spec with
  | SlidingWindowSpec w _ | KpoolTailSpec w _ => Some w
  | _ => None
  end.

(** The attributes of [KVCacheManager] set once. *)
Record KMConfig := mkKMConfig {
  max_model_len : Z;
  min_prefill_tokens : Z;
  km_enable_caching : bool;
  km_enable_events : bool;
  log_stats : bool;
  coordinator : Coordinator;
  km_config : KVCacheConfig;
  watermark_blocks : Z;
  kv_cache_event_metadata : list (string * option Z)
}.

Record KVCacheManager := mkKM {
  km_cfg : KMConfig;
  single_type_managers : list Manager;
  block_pool : BlockPool;
  prefix_cache_stats : option PrefixCacheStats
}.

Definition set_kstate (s : KState) (k : KVCacheManager) : KVCacheManager :=
  mkKM (km_cfg k) s.1 s.2 (prefix_cache_stats k).
Definition set_pool (p : BlockPool) (k : KVCacheManager) : KVCacheManager :=
  mkKM (km_cfg k) (single_type_managers k) p (prefix_cache_stats k).
Definition set_stats (st : option PrefixCacheStats) (k : KVCacheManager) : KVCacheManager :=
  mkKM (km_cfg k) (single_type_managers k) (block_pool k) st.

Definition kstate (k : KVCacheManager) : KState := (single_type_managers k, block_pool k).

(** A call of the coordinator or of the pool. *)
Definition on_coord {A} (c : M KState A) : M KVCacheManager A := zoom kstate set_kstate c.
Definition on_block_pool {A} (c : M BlockPool A) : M KVCacheManager A := zoom block_pool set_pool c.

(** The same beside a request. *)
Abbreviation KRState := (KVCacheManager * Request)%type.
Definition on_km {A} (c : M KVCacheManager A) : M KRState A := zoom fst (fun k s => (k, s.2)) c.
Definition on_coord_req {A} (c : M KCState A) : M KRState A :=
  zoom (fun s => (single_type_managers s.1, (block_pool s.1, s.2)))
       (fun t s => (set_kstate (t.1, t.2.1) s.1, t.2.2)) c.
Definition on_pool_req {A} (c : M (BlockPool * Request) A) : M KRState A :=
  zoom (fun s => (block_pool s.1, s.2)) (fun t s => (set_pool t.1 s.1, t.2)) c.

Definition num_kv_cache_groups (c : KMConfig) : nat := length (kv_cache_groups (km_config c)).

(** [self.empty_kv_cache_blocks] *)
Definition empty_kv_cache_blocks (c : KMConfig) : KVCacheBlocks :=
  mkKVBlocks (replicate (num_kv_cache_groups c) []) true.

(** [create_kv_cache_blocks] *)
Definition create_kv_cache_blocks (c : KMConfig) (bs : list (list loc)) : KVCacheBlocks :=
  if existsb (fun g => negb (zlen g =? 0)) bs then mkKVBlocks bs false else empty_kv_cache_blocks c.

Section KVCacheManager.
Context `{Env}.

(** ** Construction *)

(** [KVCacheManager.__init__]; [int()] of the non-negative product is its floor. *)
Definition kv_cache_manager_init (config : KVCacheConfig) (max_len sbs hbs : Z)
    (max_in_flight_tokens : option Z) (caching use_eagle : bool) (num_prefill_lookahead : Z)
    (log_stats events : bool) (dcp pcp : Z) (collector : option KVCacheMetricsCollector)
    (watermark : Q) (min_prefill : Z) : exn + KVCacheManager :=
  let min_prefill := Z.max 1 min_prefill in
  match get_kv_cache_coordinator config max_len (default max_len max_in_flight_tokens) use_eagle caching
          events dcp pcp sbs hbs collector num_prefill_lookahead min_prefill (blank_pool empty_heap) with
  | Raise e _ => inl e
  | Ok (co, ms) p =>
      if negb (Qle_bool 0 watermark) then inl AssertionError else
      inr (mkKM (mkKMConfig max_len min_prefill caching events log_stats co config
                   (Qfloor (watermark * inject_Z (num_blocks config)))
                   ((fun g => (get_kv_cache_spec_kind (group_spec g),
                               get_kv_cache_spec_sliding_window (group_spec g))) <$> kv_cache_groups config))
                ms p (if log_stats then Some new_prefix_stats else None))
  end.

(** ** Statistics *)

(** [usage] *)
Definition km_usage (k : KVCacheManager) : Q := get_usage (block_pool k).

(** [make_prefix_cache_stats] *)
Definition make_prefix_cache_stats : M KVCacheManager (option PrefixCacheStats) :=
  k ← get;
  if negb (log_stats (km_cfg k)) then mret None else
  modify (set_stats (Some new_prefix_stats)) ;;
  mret (prefix_cache_stats k).

(** [prefix_cache_lookup_enabled], [record_prefix_cache_stats] *)
Definition prefix_cache_lookup_enabled (c : KMConfig) (request : Request) : bool :=
  km_enable_caching c && negb (skip_reading_prefix_cache request).
Definition record_prefix_cache_stats (request : Request) (num_hits : Z) : M KVCacheManager unit :=
  k ← get;
  if negb (log_stats (km_cfg k)) || negb (prefix_cache_lookup_enabled (km_cfg k) request) then mret tt else
  st ← of_option AssertionError (prefix_cache_stats k);
  modify (set_stats (Some (ps_record (num_tokens request) num_hits (0 <? num_preemptions request) st))).

(** ** Lookup *)

(** [for group_idx, group_blocks in enumerate(computed_blocks): ...] *)
Fixpoint emit_hits (gs : list KVCacheGroupSpec) (group_idx : nat) (computed : list (list loc))
    : M (BlockPool * Request) unit :=
  match computed with
  | [] => mret tt
  | group_blocks :: computed' =>
      (if 0 <? zlen group_blocks then
         group ← of_option IndexError (gs !! group_idx);
         emit_cached_block_events (zlen group_blocks) (spec_block_size (group_spec group)) (Z.of_nat group_idx)
       else mret tt) ;;
      emit_hits gs (S group_idx) computed'
  end.

(** [get_computed_blocks]; [report_full] tells whether the request's
    [kv_cache_report_mode] is ["full"]. *)
Definition get_computed_blocks (report_full : bool) : M KRState (KVCacheBlocks * Z * Z) :=
  '(k, request) ← get;
  let c := km_cfg k in
  if negb (prefix_cache_lookup_enabled c request) then mret (empty_kv_cache_blocks c, 0, 0) else
  let max_cache_hit_length := Z.max 0 (num_tokens request - min_prefill_tokens c) in
  '(computed_blocks, num_new_computed_tokens, num_uncached) ←
    on_km (on_block_pool (co_find_longest_cache_hit (coordinator c) (block_hashes request)
      max_cache_hit_length (single_type_managers k)));
  (if (0 <? num_new_computed_tokens) && km_enable_events c && report_full
   then on_pool_req (emit_hits (kv_cache_groups (km_config c)) 0 computed_blocks)
   else mret tt) ;;
  let shared_prefix_boundary :=
    if num_uncached =? 0 then 0 else num_new_computed_tokens + num_uncached in
  mret (create_kv_cache_blocks c computed_blocks, num_new_computed_tokens, shared_prefix_boundary).

(** ** Allocation *)

(** The watermark a request must leave free. *)
Definition watermark_for (c : KMConfig) (has_scheduled_reqs : bool) (st : RequestStatus) : Z :=
  if has_scheduled_reqs && match st with WAITING | PREEMPTED => true | _ => false end
  then watermark_blocks c else 0.

(** [allocate_slots] *)
Definition allocate_slots (num_new_tokens num_new_computed_tokens : Z)
    (new_computed_blocks : option KVCacheBlocks)
    (num_lookahead_tokens num_external_computed_tokens : Z) (delay_cache_blocks : bool)
    (num_encoder_tokens : Z) (full_sequence_must_fit : bool) (reserved_blocks : Z)
    (has_scheduled_reqs : bool) : M KRState (option KVCacheBlocks) :=
  (if (num_new_tokens =? 0) && (num_external_computed_tokens =? 0) then raise ValueError else mret tt) ;;
  '(k, request) ← get;
  let c := km_cfg k in
  let rid := request_id request in
  let new_computed := default (empty_kv_cache_blocks c) new_computed_blocks in
  let num_local_computed_tokens := num_computed_tokens request + num_new_computed_tokens in
  let total_computed_tokens :=
    Z.min (num_local_computed_tokens + num_external_computed_tokens) (max_model_len c) in
  let watermark := watermark_for c has_scheduled_reqs (status request) in
  fits ← (if full_sequence_must_fit then
            let full_num_tokens := Z.min (num_tokens request) (max_model_len c) in
            n ← on_km (on_coord (co_get_num_blocks_to_allocate rid full_num_tokens (kb_blocks new_computed)
                  num_encoder_tokens total_computed_tokens num_local_computed_tokens true));
            p ← gets (fun s => block_pool s.1);
            mret (n + watermark <=? get_num_free_blocks p)
          else mret true);
  if negb fits then mret None else
  let num_tokens_main_model := total_computed_tokens + num_new_tokens in
  let num_tokens_need_slot := Z.min (num_tokens_main_model + num_lookahead_tokens) (max_model_len c) in
  on_km (on_coord (co_remove_skipped_blocks rid
    (Z.max 0 (total_computed_tokens - num_in_flight_tokens request))
    (Some (num_prompt_tokens request)))) ;;
  n ← on_km (on_coord (co_get_num_blocks_to_allocate rid num_tokens_need_slot (kb_blocks new_computed)
        num_encoder_tokens (num_local_computed_tokens + num_external_computed_tokens)
        num_local_computed_tokens false));
  p ← gets (fun s => block_pool s.1);
  if get_num_free_blocks p - reserved_blocks <? n + watermark then mret None else
  (if negb (shared_empty new_computed) || (0 <? num_external_computed_tokens)
   then on_km (on_coord (allocate_new_computed_blocks rid (kb_blocks new_computed)
          num_local_computed_tokens num_external_computed_tokens))
   else mret tt) ;;
  new_blocks ← on_km (on_coord (co_allocate_new_blocks rid num_tokens_need_slot num_encoder_tokens));
  if negb (km_enable_caching c) || delay_cache_blocks
  then mret (Some (create_kv_cache_blocks c new_blocks)) else
  let num_tokens_to_cache := Z.min (total_computed_tokens + num_new_tokens) (num_tokens request) in
  on_coord_req (co_cache_blocks (coordinator c) num_tokens_to_cache) ;;
  mret (Some (create_kv_cache_blocks c new_blocks)).

(** ** Release and maintenance *)

(** [free], [remove_skipped_blocks], [pop_blocks_for_free], [evict_blocks] *)
Definition km_free (request : Request) : M KVCacheManager unit := on_coord (co_free (request_id request)).
Definition km_remove_skipped_blocks (rid : string) (processed : Z) (num_prompt : option Z)
    : M KVCacheManager unit := on_coord (co_remove_skipped_blocks rid processed num_prompt).
Definition km_pop_blocks_for_free (request : Request) : M KVCacheManager (list loc) :=
  on_coord (co_pop_blocks_for_free (request_id request)).
Definition km_evict_blocks (block_ids : gset Z) : M KVCacheManager unit :=
  on_block_pool (evict_blocks (int_set_order block_ids)).

(** [recycle_sliding_windows] *)
Definition recycle_sliding_windows (request : Request) : M KVCacheManager unit :=
  let processed := Z.max 0 (num_computed_tokens request - num_in_flight_tokens request) in
  on_coord (_ ← each_manager (fun _ =>
    m ← gets fst;
    match kind m with
    | SlidingWindowSpec _ _ | ChunkedLocalAttentionSpec _ =>
        remove_skipped_blocks (request_id request) processed None
    | _ => mret tt
    end); mret tt).

(** [reset_prefix_cache] *)
Definition km_reset_prefix_cache : M KVCacheManager bool :=
  ok ← on_block_pool reset_prefix_cache;
  if negb ok then mret false else
  k ← get;
  (if log_stats (km_cfg k) then
     st ← of_option AssertionError (prefix_cache_stats k);
     modify (set_stats (Some (mkPrefixStats true (ps_requests st) (ps_queries st) (ps_hits st)
       (preempted_requests st) (preempted_queries st) (preempted_hits st))))
   else mret tt) ;;
  mret true.

(** [get_num_common_prefix_blocks] *)
Definition km_get_num_common_prefix_blocks (rid : string) : M KVCacheManager (list Z) :=
  k ← get; on_coord (co_get_num_common_prefix_blocks (coordinator (km_cfg k)) rid).

(** [take_events]: the spec kind and window added to each stored event. *)
Definition annotate (meta : list (string * option Z)) (e : KVCacheEvent)
    : KVCacheEvent * option (string * option Z) :=
  (e, match e with
      | EvStored b =>
          match bs_group_idx b with
          | Some g => if (g <? 0) || (zlen meta <=? g) then None else meta !! Z.to_nat g
          | None => None
          end
      | _ => None
      end).
Definition km_take_events : M KVCacheManager (list (KVCacheEvent * option (string * option Z))) :=
  es ← on_block_pool take_events;
  k ← get;
  mret (annotate (kv_cache_event_metadata (km_cfg k)) <$> es).

(** ** Views of a request's blocks *)

(** [get_blocks], [get_block_ids] *)
Definition km_get_blocks (rid : string) (k : KVCacheManager) : KVCacheBlocks :=
  create_kv_cache_blocks (km_cfg k) (co_get_blocks rid (single_type_managers k)).
Definition km_get_block_ids (rid : string) (k : KVCacheManager) : list (list Z) :=
  default [] (kb_get_block_ids (block_pool k) (km_get_blocks rid k) false).

(** [get_block_ids_for_computed_tokens] *)
Definition get_block_ids_for_computed_tokens (rid : string) (num_computed : Z) (k : KVCacheManager)
    : list (list Z) :=
  zip_with (fun group ids =>
      match spec_kind (group_spec group) with
      | CrossAttentionSpec => ids
      | _ => py_upto ids (cdiv num_computed (spec_block_size (group_spec group)))
      end)
    (kv_cache_groups (km_config (km_cfg k))) (km_get_block_ids rid k).

(** [estimate_cached_tokens] *)
Definition estimate_cached_tokens (rid : string) (k : KVCacheManager) : Z :=
  default 0 (foldl (fun cached gb =>
      match spec_kind (group_spec gb.1) with
      | CrossAttentionSpec => cached
      | _ =>
          let group_cached := foldl (fun acc l =>
            Z.max acc (default 0 (block_hash_num_tokens (hget (heap (block_pool k)) l)))) 0 gb.2 in
          Some (match cached with None => group_cached | Some c => Z.min c group_cached end)
      end) None (zip (kv_cache_groups (km_config (km_cfg k))) (kb_blocks (km_get_blocks rid k)))).

(** [cache_blocks] *)
Definition km_cache_blocks (num_computed : Z) : M KRState unit :=
  c ← gets (fun s => km_cfg s.1);
  if km_enable_caching c then on_coord_req (co_cache_blocks (coordinator c) num_computed) else mret tt.

(** [truncate_computed_blocks]; [zip(strict=True)] raises on a mismatch. *)
Fixpoint truncate_groups (bs : list (list loc)) (ms : list Manager) (gs : list KVCacheGroupSpec)
    (num_computed : Z) : exn + list (list loc) :=
  match bs, ms, gs with
  | [], [], [] => inr []
  | group_blocks :: bs', m :: ms', group :: gs' =>
      match
        (if negb (prefix_cacheable (group_spec group)) then
           if zlen group_blocks =? 0 then inr [] else inl AssertionError
         else if negb (num_computed mod bsz m =? 0) then inl AssertionError
         else if num_computed / bsz m <=? zlen group_blocks
              then inr (py_upto group_blocks (num_computed / bsz m)) else inl AssertionError)
      with
      | inl e => inl e
      | inr t => match truncate_groups bs' ms' gs' num_computed with
                 | inl e => inl e
                 | inr l => inr (t :: l)
                 end
      end
  | _, _, _ => inl ValueError
  end.
Definition truncate_computed_blocks (b : KVCacheBlocks) (num_computed : Z) (k : KVCacheManager)
    : exn + KVCacheBlocks :=
  match truncate_groups (kb_blocks b) (single_type_managers k)
          (kv_cache_groups (km_config (km_cfg k))) num_computed with
  | inl e => inl e
  | inr l => inr (create_kv_cache_blocks (km_cfg k) l)
  end.

(** [take_new_block_ids] *)
Definition km_take_new_block_ids : M KVCacheManager (list (list Z)) :=
  on_coord (each_manager (fun _ => on_mgr take_new_block_ids)).

(** [get_zeroing_block_ids_in_range], [record_blocks_for_zeroing]: the subscript
    of the [defaultdict] may insert an empty entry. *)
Definition get_zeroing_block_ids_in_range (rid : string) (start_token end_token : Z)
    : M KVCacheManager (list (list Z)) :=
  on_coord (each_manager (fun _ =>
    m ← gets fst;
    if record_new_block_ids (cfg m) then
      bs ← on_mgr (read_req_blocks rid);
      p ← gets snd;
      mret (ids_of p (py_slice bs (start_token / bsz m) (cdiv end_token (bsz m))))
    else mret [])).
Definition record_blocks_for_zeroing (rid : string) (start_token : Z) : M KVCacheManager unit :=
  on_coord (_ ← each_manager (fun _ =>
    m ← gets fst;
    if record_new_block_ids (cfg m) then
      assert_ (start_token mod bsz m =? 0) ;;
      bs ← on_mgr (read_req_blocks rid);
      p ← gets snd;
      on_mgr (modify (fun m => set_new_block_ids (new_block_ids m ++
        ids_of p (py_from bs (start_token / bsz m))) m))
    else mret tt); mret tt).

(** [take_kv_cache_block_copies]: pairs of block ids, and the retained blocks. *)
Definition take_kv_cache_block_copies : M KVCacheManager (list (Z * Z) * list loc) :=
  pending ← on_coord (each_manager (fun _ => on_mgr take_pending_cow_copies));
  p ← gets block_pool;
  let copies := concat pending in
  mret ((fun sd => (block_id (hget (heap p) sd.1), block_id (hget (heap p) sd.2))) <$> copies,
        concat ((fun sd => [sd.1; sd.2]) <$> copies)).

End KVCacheManager.
