(* ===== verification/KVCacheManagerSpec.v ===== *)
(** * Correctness of the KV cache manager

    [allocate_slots] either refuses, leaving at most the window-trimmed state,
    or serves every group within the blocks the caller may use and caches what
    is final; [free] gives back everything a request holds. *)
From Stdlib Require Import ZArith QArith Lia.
From stdpp Require Import base tactics gmap strings numbers option list.
From S2P Require Import Prelude Blocks FreeQueue Request Hashing BlockMap Env Metrics.
From S2P Require Import BlockPool BlockPoolInv BlockPoolCache BlockPoolAlloc BlockPoolInit BlockPoolFull BlockPoolSpec.
From S2P Require Import Managers ManagerInv ManagerOps ManagerSpec ManagerTails ManagerHits ManagerWindow.
From S2P Require Import Coordinator CoordinatorHits CoordinatorSpec CoordinatorCaching KVCacheManager.

Local Open Scope Z_scope.

Section Slots.
Context `{Env}.

(** ** Stores *)

Lemma run_coord {A} (c : M KState A) k r a ms p :
  c (kstate k) = Ok a (ms, p) -> on_km (on_coord c) (k, r) = Ok a (set_kstate (ms, p) k, r).
Proof. intros E. unfold on_km, on_coord, zoom. cbn [fst snd]. by rewrite E. Qed.

Lemma kstate_set s k : kstate (set_kstate s k) = s.
Proof. by destruct s. Qed.

Lemma set_kstate_twice s s' k : set_kstate s' (set_kstate s k) = set_kstate s' k.
Proof. done. Qed.

Lemma coord_at {A} (c : M KState A) s k r :
  on_km (on_coord c) (set_kstate s k, r) =
    match c s with Ok a t => Ok a (set_kstate t k, r) | Raise e t => Raise e (set_kstate t k, r) end.
Proof.
  unfold on_km, on_coord, zoom. cbn [fst snd]. rewrite kstate_set.
  destruct (c s) as [a t|e t]; by rewrite set_kstate_twice.
Qed.

Lemma set_kstate_id k : set_kstate (kstate k) k = k.
Proof. by destruct k. Qed.

(** ** The capacity check never raises *)

(** One list of new computed blocks per group, none for a tracked request. *)
Definition checkable (rid : string) (ncbs : list (list loc)) (ms : list Manager) : Prop :=
  forall i m, ms !! i = Some m ->
    exists ncb, ncbs !! i = Some ncb /\ (num_cached_block m !! rid = None \/ ncb = []).

Lemma get_num_some m p rid nt ncb total local cap :
  num_cached_block m !! rid = None \/ ncb = [] ->
  is_Some (get_num_blocks_to_allocate m p rid nt ncb total local cap).
Proof.
  intros Hn. assert (forall b, is_Some (base_num_blocks_to_allocate m p rid nt ncb total local b)) as Hb.
  { intros b. unfold base_num_blocks_to_allocate. destruct (num_cached_block m !! rid); [|by eexists].
    destruct Hn as [Hn| ->]; [done|]. by eexists. }
  unfold get_num_blocks_to_allocate. destruct (kind m); try apply Hb;
    destruct (req_to_blocks m !! rid) as [[|]|]; by eexists.
Qed.

Lemma check_total rid nt ncbs enc total local cap ms p :
  checkable rid ncbs ms ->
  exists n, co_get_num_blocks_to_allocate rid nt ncbs enc total local cap (ms, p) = Ok n (ms, p).
Proof.
  intros Hc. unfold co_get_num_blocks_to_allocate, each_manager, mbind, M_bind. cbn [fst snd].
  set (f := fun i : nat => _).
  assert (forall i m, ms !! i = Some m -> exists a, f i (m, p) = Ok a (m, p)) as Hf.
  { intros i m Hm. destruct (Hc i m Hm) as (ncb & Hi & Hn). unfold f, get. cbn. destruct (is_cross m).
    - destruct (get_num_some m p rid enc [] 0 0 cap) as [a ->]; [by right|]. by exists a.
    - rewrite Hi. cbn. destruct (get_num_some m p rid nt ncb total local cap Hn) as [a ->]. by exists a. }
  enough (forall l i, (forall j m, l !! j = Some m -> exists a, f (i + j)%nat (m, p) = Ok a (m, p)) ->
    exists ns, for_managers f i l p = Ok ns (l, p)) as Hgo.
  { destruct (Hgo ms 0%nat) as [ns ->]; [exact Hf|]. by eexists. }
  clear Hf Hc. intros l. induction l as [|m l IH]; intros i Hl; cbn [for_managers]; [by eexists|].
  destruct (Hl 0%nat m eq_refl) as [a Ha]. rewrite Nat.add_0_r in Ha. rewrite Ha.
  destruct (IH (S i)) as [ns ->]; [|by eexists].
  intros j x Hj. specialize (Hl (S j) x Hj). by rewrite Nat.add_succ_r in Hl.
Qed.

(** ** Hits and running requests survive the trim *)

Lemma trim_fresh rid m m' : trim_kept rid m m' -> fresh_request m rid -> fresh_request m' rid.
Proof.
  intros (T1 & T2 & T3) [F1 F2 F3]. rewrite F1 in T3. change (zlen []) with 0 in T3.
  split; [|by rewrite T1|by rewrite T2].
  destruct (table m' rid); [done|]. rewrite zlen_cons in T3. pose proof (zlen_nonneg l). lia.
Qed.

Lemma trim_running rid total m m' :
  same_mgr rid m m' -> trim_kept rid m m' -> running rid total m -> running rid total m'.
Proof.
  intros Hs (T1 & T2 & T3) [R1 R2]. destruct (same_mgr_kind _ _ _ Hs) as [Hk Hb]. split; [by rewrite T2|].
  rewrite T1. unfold skipped_blocks. rewrite Hk, Hb, T3. exact R2.
Qed.

Lemma trim_hits_ok rid ncbs local ms p ms' p' :
  Forall2 (same_mgr rid) ms ms' -> Forall2 (trim_kept rid) ms ms' -> same_config p p' ->
  hits_ok rid ncbs local ms p -> hits_ok rid ncbs local ms' p'.
Proof.
  intros Hs Ht Hc [H1 H2 H3]. split.
  - rewrite H1. by eapply Forall2_length.
  - intros m' Hm'. apply list_elem_of_lookup in Hm' as [i Hi].
    destruct (Forall2_lookup_r _ _ _ _ _ Ht Hi) as (m & Hm & Hk). eapply trim_fresh; [done|].
    by eapply H2, list_elem_of_lookup_2.
  - intros i m' ncb Hi Hb. destruct (Forall2_lookup_r _ _ _ _ _ Hs Hi) as (m & Hm & Hk).
    destruct (H3 i m ncb Hm Hb) as [Hok Hcr]. destruct (same_mgr_kind _ _ _ Hk) as [Hk1 Hb1]. split.
    + destruct (hit_ok_config m p p' ncb local Hc Hok) as [O1 O2 O3 O4]. by split; rewrite ?Hb1.
    + unfold is_cross in *. by rewrite Hk1.
Qed.

(** ** allocate_slots *)

Lemma bind_ok {S A B} (m : M S A) (f : A -> M S B) s a s' : m s = Ok a s' -> (m ≫= f) s = f a s'.
Proof. unfold mbind, M_bind. by intros ->. Qed.

(** The last statements of [allocate_slots]: caching, unless disabled or delayed. *)
Definition finish_slots (c : KMConfig) (delay : bool) (num_tokens_to_cache : Z) (new_blocks : list (list loc))
    : M KRState (option KVCacheBlocks) :=
  if negb (km_enable_caching c) || delay then mret (Some (create_kv_cache_blocks c new_blocks))
  else on_coord_req (co_cache_blocks (coordinator c) num_tokens_to_cache) ;;
       mret (Some (create_kv_cache_blocks c new_blocks)).

(** The two ways the scheduler calls it: a new request with the result of a
    prefix lookup or external tokens, or a request that only grows. *)
Inductive slot_case (rid : string) (new : KVCacheBlocks) (local external : Z) (k : KVCacheManager) : Prop :=
| case_hits :
    negb (shared_empty new) || (0 <? external) = true ->
    hits_ok rid (kb_blocks new) local (single_type_managers k) (block_pool k) ->
    slot_case rid new local external k
| case_grow :
    shared_empty new = true -> external = 0 ->
    length (kb_blocks new) = length (single_type_managers k) ->
    Forall (fun bs => bs = []) (kb_blocks new) ->
    Forall (running rid local) (single_type_managers k) ->
    slot_case rid new local external k.

Lemma case_checkable rid new local external k :
  slot_case rid new local external k -> checkable rid (kb_blocks new) (single_type_managers k).
Proof.
  intros [_ [H1 H2 _]|_ _ H1 H2 _] i m Hm.
  - assert (is_Some (kb_blocks new !! i)) as [b Hb]
      by (apply lookup_lt_is_Some; rewrite H1; by eapply lookup_lt_Some).
    exists b. split; [done|]. left. by eapply H2, list_elem_of_lookup_2.
  - assert (is_Some (kb_blocks new !! i)) as [b Hb]
      by (apply lookup_lt_is_Some; rewrite H1; by eapply lookup_lt_Some).
    exists b. split; [done|]. right. by eapply (Forall_lookup_1 _ _ _ _ H2).
Qed.

Lemma case_partial rid new local external k :
  slot_case rid new local external k ->
  Forall (fun m => partial_hit_reqs m !! rid = None) (single_type_managers k).
Proof.
  intros [_ [_ H2 _]|_ _ _ _ H2].
  - apply Forall_forall. intros m Hm. apply (H2 m Hm).
  - eapply Forall_impl; [exact H2|]. by intros m [].
Qed.

Lemma case_trim rid new local external k ms p :
  Forall2 (same_mgr rid) (single_type_managers k) ms -> Forall2 (trim_kept rid) (single_type_managers k) ms ->
  same_config (block_pool k) p -> slot_case rid new local external k ->
  slot_case rid new local external (set_kstate (ms, p) k).
Proof.
  intros Hs Ht Hc [H1 H2|H1 H2 H3 H4 H5].
  - apply case_hits; [done|]. by eapply trim_hits_ok.
  - apply case_grow; try done; cbn.
    + rewrite H3. by eapply Forall2_length.
    + apply Forall_lookup. intros i m' Hi. destruct (Forall2_lookup_r _ _ _ _ _ Hs Hi) as (m & Hm & Hk).
      destruct (Forall2_lookup_r _ _ _ _ _ Ht Hi) as (m2 & Hm2 & Hk2). rewrite Hm in Hm2. injection Hm2 as <-.
      eapply trim_running; [done|done|]. by eapply (Forall_lookup_1 _ _ _ _ H5).
Qed.

(** Once the check fits, allocation succeeds. *)
Lemma grant_spec rid new local external k free ext nt enc slack n s :
  pool_wf (block_pool k) free -> coord_inv (single_type_managers k) (block_pool k) ext -> 0 <= slack ->
  slot_case rid new local external k -> 0 <= local -> 0 <= external -> local + external <= nt ->
  co_get_num_blocks_to_allocate rid nt (kb_blocks new) enc (local + external) local false (kstate k) = Ok n s ->
  n + slack <= zlen free ->
  wp ((if negb (shared_empty new) || (0 <? external)
       then allocate_new_computed_blocks rid (kb_blocks new) local external else mret tt) ;;
      co_allocate_new_blocks rid nt enc)
    (fun _ s => co_admitted (whole_hits (kb_blocks new) local (single_type_managers k)) rid nt enc slack
       (single_type_managers k) (block_pool k) ext s) (kstate k).
Proof.
  intros Hwf Hi Hsl Hcase Hl He Ht Hc Hn. destruct Hcase as [H1 H2|H1 -> H3 H4 H5].
  - rewrite H1. by apply (co_admit_spec rid (kb_blocks new) local external nt enc slack _ _ free ext n s).
  - rewrite H1. apply wp_bind, wp_ret. rewrite Z.add_0_r in *.
    eapply wp_mono; [by apply (co_grow_spec rid nt enc slack local local (kb_blocks new) _ _ free ext n s)|].
    intros a s' Ha. by apply co_admitted_weaken.
Qed.

(** What the arguments of a call owe. *)
Record slot_args (c : KMConfig) (r : Request) (num_new local external lookahead reserved : Z) : Prop := {
  sa_some : (num_new =? 0) && (external =? 0) = false;
  sa_new : 0 <= num_new;
  sa_local : 0 <= local;
  sa_external : 0 <= external;
  sa_lookahead : 0 <= lookahead;
  sa_fits : local + external <= max_model_len c;
  sa_prompt : 0 <= num_prompt_tokens r;
  sa_reserved : 0 <= reserved;
  sa_watermark : 0 <= watermark_blocks c
}.

Lemma watermark_nonneg c has st : 0 <= watermark_blocks c -> 0 <= watermark_for c has st.
Proof. intros Hw. unfold watermark_for. by destruct (has && _). Qed.

(** The blocks a call takes whole from the prefix hit. *)
Abbreviation taken_whole new local k := (whole_hits (kb_blocks new) local (single_type_managers k)).

(** The state after the window trim. *)
Abbreviation trimmed_state G rid free ext k s :=
  (phase_done G rid (zlen free) (fun _ => 0) (fun _ => True) (trim_kept rid)
     (single_type_managers k) (block_pool k) ext s).

Lemma whole_hits_same rid ncbs local ms ms' x :
  Forall2 (same_mgr rid) ms ms' -> whole_hits ncbs local ms' x -> whole_hits ncbs local ms x.
Proof.
  intros Hs (i & m' & ncb & Hm' & Hb & Hx). destruct (Forall2_lookup_r _ _ _ _ _ Hs Hm') as (m & Hm & Hk).
  exists i, m, ncb. split_and!; [done|done|]. unfold whole_hit in *. by rewrite <- (proj2 (same_mgr_kind _ _ _ Hk)).
Qed.

(** From the trim on. *)
Lemma slots_after_trim k r free ext new num_new local external lookahead enc reserved wm :
  let c := km_cfg k in let rid := request_id r in let G := taken_whole new local k in
  let nt := Z.min (local + external + num_new + lookahead) (max_model_len c) in
  pool_wf (block_pool k) free -> coord_inv (single_type_managers k) (block_pool k) ext ->
  slot_args c r num_new local external lookahead reserved -> 0 <= wm ->
  slot_case rid new local external k ->
  exists ms1 p1 n,
    trimmed_state G rid free ext k (ms1, p1) /\
    co_get_num_blocks_to_allocate rid nt (kb_blocks new) enc (local + external) local false (ms1, p1) =
      Ok n (ms1, p1) /\
    co_remove_skipped_blocks rid (Z.max 0 (local + external - num_in_flight_tokens r))
      (Some (num_prompt_tokens r)) (kstate k) = Ok tt (ms1, p1) /\
    (n + wm <= get_num_free_blocks p1 - reserved -> exists new_blocks ms2 p2,
      co_admitted G rid nt enc (reserved + wm) ms1 p1 ext (ms2, p2) /\
      ((if negb (shared_empty new) || (0 <? external)
        then allocate_new_computed_blocks rid (kb_blocks new) local external else mret tt) ;;
       co_allocate_new_blocks rid nt enc) (ms1, p1) = Ok new_blocks (ms2, p2)).
Proof.
  intros c rid G nt Hwf Hi [S1 S2 S3 S4 S5 S6 S7 S8 S9] Hwm Hcase.
  assert (wp (co_remove_skipped_blocks rid (Z.max 0 (local + external - num_in_flight_tokens r))
    (Some (num_prompt_tokens r))) (fun _ s => trimmed_state G rid free ext k s) (kstate k)) as Hw.
  { apply (co_remove_skipped_spec G rid _ _ _ _ free ext Hwf Hi); [lia|by intros ? [= <-]|by eapply case_partial]. }
  apply wp_ok in Hw as ([] & [ms1 p1] & E1 & Htr). pose proof Htr as [T1 (fr1 & T2 & T2') T3 T4 _ T5 _].
  cbn [fst snd] in *.
  pose proof (case_trim rid new local external k ms1 p1 T4 T5 T3 Hcase) as Hcase1.
  destruct (check_total rid nt (kb_blocks new) enc (local + external) local false ms1 p1) as [n En];
    [by apply (case_checkable rid new local external (set_kstate (ms1, p1) k))|].
  exists ms1, p1, n. split_and!; [done|done|done|]. intros Hle. unfold get_num_free_blocks in Hle.
  pose proof (qwf_num _ _ (pa_queue _ _ (pw_alloc _ _ T2))) as Hnum. cbn in Hnum. rewrite Hnum in Hle.
  assert (wp ((if negb (shared_empty new) || (0 <? external)
       then allocate_new_computed_blocks rid (kb_blocks new) local external else mret tt) ;;
      co_allocate_new_blocks rid nt enc)
    (fun _ s => co_admitted (whole_hits (kb_blocks new) local ms1) rid nt enc (reserved + wm) ms1 p1 ext s) (ms1, p1)) as Hg.
  { apply (grant_spec rid new local external (set_kstate (ms1, p1) k) fr1 ext nt enc (reserved + wm) n (ms1, p1));
      try done; cbn; lia. }
  apply wp_ok in Hg as (nb & [ms2 p2] & E2 & Ha). exists nb, ms2, p2. split; [|done].
  destruct Ha as [C1 C2 C3 C4 C5 C6 C7]. split; try done. intros Hto Hap. apply C7; [done|].
  intros m q i x Hm Ht Hx. by eapply Hap, whole_hits_same.
Qed.

(** ** The end of the call: caching *)

(** What the configuration owes to caching. *)
Record km_caches (k : KVCacheManager) : Prop := {
  kc_flag : km_enable_caching (km_cfg k) = enable_caching (block_pool k);
  kc_mgrs : km_enable_caching (km_cfg k) = true -> Forall (cache_mgr (block_pool k)) (single_type_managers k);
  kc_sbs : 0 < co_scheduler_block_size (coordinator (km_cfg k));
  kc_lookahead : 0 <= num_reprefillable_tokens (coordinator (km_cfg k))
}.

Lemma cached_admitted G rid nt enc slack ms p ext ms2 p2 r free s :
  co_admitted G rid nt enc slack ms p ext (ms2, p2) -> slack <= zlen free -> request_id r = rid ->
  co_cached ms2 p2 r free ext s -> co_admitted G rid nt enc slack ms p ext (s.1, s.2.1).
Proof.
  intros [C1 C2 C3 C4 C5 C6 C7] Hsl <- [D1 D2 D3 D4 D5 D6]. cbn [fst snd] in *.
  assert (forall (P : Manager -> Prop), (forall m m', cached_kept (request_id r) m m' -> P m -> P m') ->
    Forall P ms2 -> Forall P s.1) as Hmap.
  { intros P HP Hall. apply Forall_lookup. intros i m' Hm'. destruct (Forall2_lookup_r _ _ _ _ _ D5 Hm') as (m & Hm & Hk).
    eapply HP; [exact Hk|]. by eapply (Forall_lookup_1 _ _ _ _ Hall). }
  split; cbn [fst snd]; try done.
  - eapply Hmap; [|exact C1]. intros m m' [K1 K2 _ _ _ _] Hs. unfold served in *.
    rewrite (same_mgr_tok _ _ _ nt enc K1), K2. unfold slots_needed in *.
    by destruct (same_mgr_kind _ _ _ K1) as [-> ->].
  - transitivity ms2; [done|]. eapply Forall2_impl; [exact D5|]. by intros m m' [].
  - by exists free.
  - transitivity p2; [done|apply D4].
  - eapply Hmap; [|exact C6]. intros m m' [K1 _ K3 _ _ _] Hs. rewrite K3.
    by destruct (same_mgr_kind _ _ _ K1) as [-> _].
Qed.

Lemma admitted_cache_mgr G rid nt enc slack ms p ext s :
  co_admitted G rid nt enc slack ms p ext s -> Forall (cache_mgr p) ms -> Forall (cache_mgr s.2) s.1.
Proof.
  intros [_ C2 _ _ C5 _ _] Hall. apply Forall_lookup. intros i m' Hm'.
  destruct (Forall2_lookup_r _ _ _ _ _ C2 Hm') as (m & Hm & [K _ _ _]).
  pose proof (Forall_lookup_1 _ _ _ _ Hall Hm) as [G1 G2 G3 G4]. unfold bsz, is_cross, kind in *.
  split; unfold bsz, is_cross, kind; rewrite ?K, ?(sc_hbs _ _ C5); done.
Qed.

(** Tokens to cache lie within the slots of every group that caches. *)
Lemma served_covers rid nt enc n m :
  0 < bsz m -> is_cross m = false -> is_ring (kind m) = false -> n <= nt -> served rid nt enc m ->
  n / bsz m <= zlen (table m rid).
Proof.
  intros Hb Hc Hr Hn Hs. etrans; [|exact Hs]. unfold slots_needed, tok, is_cross in *.
  assert (n / bsz m <= cdiv nt (bsz m)) as Hd.
  { pose proof (Z.mul_div_le n (bsz m) Hb). pose proof (cdiv_spec nt (bsz m) Hb). nia. }
  destruct (kind m); done.
Qed.

Lemma finish_spec k r free ext G nt enc slack ms1 p1 ms2 p2 delay n new_blocks :
  let rid := request_id r in let c := km_cfg k in
  km_caches k -> same_config (block_pool k) p1 -> Forall2 (same_mgr rid) (single_type_managers k) ms1 ->
  co_admitted G rid nt enc slack ms1 p1 ext (ms2, p2) -> tails_ok ms2 p2 ->
  pool_wf p2 free -> slack <= zlen free -> 0 <= n ->
  (km_enable_caching c = true -> delay = false -> cache_ready (block_pool k) r /\ n <= num_tokens r /\ n <= nt) ->
  exists ms3 p3 r', finish_slots c delay n new_blocks (set_kstate (ms2, p2) k, r) =
      Ok (Some (create_kv_cache_blocks c new_blocks)) (set_kstate (ms3, p3) k, r') /\
    co_admitted G rid nt enc slack ms1 p1 ext (ms3, p3) /\ tails_ok ms3 p3 /\ same_but_memo r r'.
Proof.
  intros rid c [K1 K2 K3 K4] Hc1 Hs1 Ha Htl Hwf Hsl Hn Hr. unfold finish_slots. fold c in K1, K2, K3, K4 |- *.
  destruct (km_enable_caching c) eqn:Ec; cbn [negb orb]; [|by exists ms2, p2, r; split_and!; [| | |destruct r]].
  destruct delay; [by exists ms2, p2, r; split_and!; [| | |destruct r]|].
  destruct (Hr eq_refl eq_refl) as (Hcr & Hnr & Hnt).
  pose proof (ca_cfg _ _ _ _ _ _ _ _ _ Ha) as Hc2. cbn [snd] in Hc2.
  assert (Forall (cache_mgr p1) ms1) as Hg1.
  { apply Forall_lookup. intros i m' Hm'. destruct (Forall2_lookup_r _ _ _ _ _ Hs1 Hm') as (m & Hm & [Hk _ _ _]).
    pose proof (Forall_lookup_1 _ _ _ _ (K2 eq_refl) Hm) as [G1 G2 G3 G4]. unfold bsz, is_cross, kind in *.
    split; unfold bsz, is_cross, kind; rewrite ?Hk, ?(sc_hbs _ _ Hc1); done. }
  pose proof (admitted_cache_mgr _ _ _ _ _ _ _ _ _ Ha Hg1) as Hg2. cbn [fst snd] in Hg2.
  pose proof (co_cache_spec (coordinator c) n ms2 p2 r free ext) as Hw.
  destruct (wp_ok _ _ _ (Hw Hwf ltac:(by apply Ha) Htl
    ltac:(by rewrite (sc_caching _ _ Hc2), (sc_caching _ _ Hc1))
    ltac:(destruct Hcr as [R1 R2 R3 R4 R5 R6]; split; rewrite ?(sc_hbs _ _ Hc2), ?(sc_hbs _ _ Hc1); done)
    K3 K4 ltac:(lia) ltac:(apply Forall_forall; intros m Hm; split; [by eapply (Forall_forall _ ms2)|];
      intros Hring; pose proof (proj1 (Forall_forall _ _) Hg2 m Hm) as [G1 _ _ G4]; split;
      [by apply (proj1 (Forall_forall _ _) (ca_partial _ _ _ _ _ _ _ _ _ Ha) m Hm)|];
      apply (served_covers rid nt enc n m G1 G4 Hring ltac:(lia));
      apply (proj1 (Forall_forall _ _) (ca_served _ _ _ _ _ _ _ _ _ Ha) m Hm)))) as ([] & [ms3 [p3 r']] & E & Hcc).
  exists ms3, p3, r'. split_and!.
  - rewrite (bind_ok _ _ _ tt (set_kstate (ms3, p3) k, r')); [done|].
    unfold on_coord_req, zoom. cbn. by rewrite E.
  - by apply (cached_admitted G rid nt enc slack ms1 p1 ext ms2 p2 r free (ms3, (p3, r'))).
  - apply Hcc.
  - apply Hcc.
Qed.

(** A call whose checks have been evaluated. *)
Lemma allocate_slots_run k r num_new num_new_computed ncb lookahead external delay enc full reserved has_scheduled
    nf n ms1 p1 :
  let c := km_cfg k in let rid := request_id r in
  let new := default (empty_kv_cache_blocks c) ncb in
  let local := num_computed_tokens r + num_new_computed in
  let wm := watermark_for c has_scheduled (status r) in
  let nt := Z.min (local + external + num_new + lookahead) (max_model_len c) in
  (num_new =? 0) && (external =? 0) = false -> local + external <= max_model_len c ->
  co_get_num_blocks_to_allocate rid (Z.min (num_tokens r) (max_model_len c)) (kb_blocks new) enc
    (local + external) local true (kstate k) = Ok nf (kstate k) ->
  co_remove_skipped_blocks rid (Z.max 0 (local + external - num_in_flight_tokens r))
    (Some (num_prompt_tokens r)) (kstate k) = Ok tt (ms1, p1) ->
  co_get_num_blocks_to_allocate rid nt (kb_blocks new) enc (local + external) local false (ms1, p1) = Ok n (ms1, p1) ->
  allocate_slots num_new num_new_computed ncb lookahead external delay enc full reserved has_scheduled (k, r) =
    if full && negb (nf + wm <=? get_num_free_blocks (block_pool k)) then Ok None (k, r) else
    if get_num_free_blocks p1 - reserved <? n + wm then Ok None (set_kstate (ms1, p1) k, r) else
    match ((if negb (shared_empty new) || (0 <? external)
            then allocate_new_computed_blocks rid (kb_blocks new) local external else mret tt) ;;
           co_allocate_new_blocks rid nt enc) (ms1, p1) with
    | Ok nb s => finish_slots c delay (Z.min (local + external + num_new) (num_tokens r)) nb (set_kstate s k, r)
    | Raise e s => Raise e (set_kstate s k, r)
    end.
Proof.
  intros c rid new local wm nt S1 S2 Ef Etr En. unfold allocate_slots. rewrite S1.
  rewrite (bind_ok _ _ _ tt (k, r)) by done. rewrite (bind_ok _ _ _ (k, r) (k, r)) by done. cbv zeta.
  fold c rid new local wm. rewrite (Z.min_l (local + external) (max_model_len c)) by done. fold nt.
  set (fits := if full then nf + wm <=? get_num_free_blocks (block_pool k) else true).
  rewrite (bind_ok _ _ (k, r) fits (k, r)).
  2:{ unfold fits. destruct full; [|done]. rewrite (bind_ok _ _ _ nf (k, r)); [done|].
      rewrite (run_coord _ k r nf _ _ Ef). fold (kstate k). by rewrite set_kstate_id. }
  replace (full && negb (nf + wm <=? get_num_free_blocks (block_pool k))) with (negb fits) by (by destruct full).
  destruct fits; cbn [negb]; [|done].
  rewrite (bind_ok _ _ _ tt (set_kstate (ms1, p1) k, r)) by by apply run_coord.
  rewrite (bind_ok _ _ _ n (set_kstate (ms1, p1) k, r)) by by apply (run_coord _ (set_kstate (ms1, p1) k)).
  rewrite (bind_ok _ _ _ p1 (set_kstate (ms1, p1) k, r)) by done.
  destruct (_ <? _); [done|].
  fold (finish_slots c delay (Z.min (local + external + num_new) (num_tokens r))). destruct (negb (shared_empty new) || (0 <? external)).
  - unfold mbind, M_bind. rewrite coord_at. destruct (allocate_new_computed_blocks _ _ _ _ _) as [[] s4|]; [|done].
    rewrite coord_at. by destruct (co_allocate_new_blocks _ _ _ _).
  - unfold mbind, M_bind, mret, M_ret. rewrite coord_at. by destruct (co_allocate_new_blocks _ _ _ _).
Qed.


(** ** From lookup to allocation *)

(** The managers of a hybrid coordinator, none of which knows the request. *)
Record lookup_ready (co : Coordinator) (ms : list Manager) (p : BlockPool) (rid : string) : Prop := {
  lr_len : length ms = length (kv_cache_groups (co_config co));
  lr_caching : enable_caching p = true;
  lr_fresh : forall m, m ∈ ms -> fresh_request m rid /\ is_cross m = false;
  lr_sizes : forall i m sg, ms !! i = Some m -> sg ∈ attention_groups co -> Z.of_nat i ∈ sg_ids sg ->
    0 < bsz m /\ co_scheduler_block_size co mod bsz m = 0;
  lr_windows : forall m, m ∈ ms -> get_num_skipped_tokens (kind m) 0 = 0
}.

Lemma served_block ms p free hs blks hit sg i c :
  pool_wf p free -> group_served p ms hs sg hit blks -> Z.of_nat i ∈ sg_ids sg -> blks !! i = Some c ->
  zlen c = hit / sg_blk ms sg /\ forall x, x ∈ c -> x ∈ blocks p.
Proof.
  intros Hwf (cols & [Hlen Hcov] & Hst) Hi Hc. apply list_elem_of_lookup in Hi as [g Hg].
  assert (is_Some (cols !! g)) as [c' Hc'] by (apply lookup_lt_is_Some; rewrite Hlen; by eapply lookup_lt_Some).
  pose proof (Hst g _ c' Hg Hc') as Hb. rewrite Nat2Z.id, Hc in Hb. injection Hb as <-.
  destruct (Hcov g _ c Hg Hc') as [Hz Hb]. split; [done|].
  intros x [j Hj]%list_elem_of_lookup. destruct (Hb j x Hj) as [[-> _]|(h & k & _ & _ & Hx & _)]; [apply Hwf|done].
Qed.

(** A group whose column is empty has no hit. *)
Lemma empty_column_no_hit co ms p hs maxl hit sg :
  hybrid_ok co ms p hs maxl -> sg ∈ attention_groups co ->
  0 <= hit -> hit mod co_scheduler_block_size co = 0 -> hit / sg_blk ms sg = 0 -> hit = 0.
Proof.
  intros [Hg _ _ _ Ha _ _] Hsg Hh Hmod Hz. rewrite Forall_forall in Hg.
  destruct (Hg sg Hsg) as [_ _ (m & Hm & Hb & [G1 [G2 G3] _ _])].
  assert (sg_blk ms sg = bsz m) as Hblk by (unfold sg_blk; by rewrite Hm).
  rewrite Hblk, Hb in Hz. set (blk := shard_block_size _ _) in *.
  assert (hit mod blk = 0) as Hm0 by (eapply mod_of_multiple; [exact G2|exact G1|exact G3|exact Hmod]).
  pose proof (Z.div_mod hit blk ltac:(lia)). lia.
Qed.

Lemma hybrid_hits_ok co ms p free rid hs maxl blks hit :
  pool_wf p free -> hybrid_ok co ms p hs maxl -> lookup_ready co ms p rid ->
  0 <= hit -> hit mod co_scheduler_block_size co = 0 ->
  length blks = length (kv_cache_groups (co_config co)) ->
  (forall sg, sg ∈ attention_groups co -> group_served p ms hs sg hit blks) ->
  (forall i, (i < length (kv_cache_groups (co_config co)))%nat ->
     (forall sg, sg ∈ attention_groups co -> Z.of_nat i ∉ sg_ids sg) -> blks !! i = Some []) ->
  hits_ok rid blks hit ms p.
Proof.
  intros Hwf Hok [L1 L2 L3 L4 L5] Hh Hmod Hlen Hs Hrest. split; [by rewrite Hlen, L1|by intros m []%L3|].
  intros i m ncb Hm Hb. destruct (L3 m ltac:(by eapply list_elem_of_lookup_2)) as [_ Hcr].
  split; [|intros E; by rewrite Hcr in E].
  destruct (decide (Exists (fun sg => Z.of_nat i ∈ sg_ids sg) (attention_groups co))) as [Hex|Hno].
  - apply Exists_exists in Hex as (sg & Hsg & Hi).
    destruct (served_block ms p free hs blks hit sg i ncb Hwf (Hs sg Hsg) Hi Hb) as [_ Hx].
    destruct (L4 i m sg Hm Hsg Hi) as [B1 B2].
    split; [done|by left|done|]. intros _ Hne. destruct Hne.
    eapply mod_of_multiple; [|exact B1|exact B2|exact Hmod]. apply Hok.
  - rewrite Hrest in Hb.
    + injection Hb as <-. split; [by intros x ?%elem_of_nil|by left|done|done].
    + rewrite <- L1. by eapply lookup_lt_Some.
    + intros sg Hsg Hi. apply Hno, Exists_exists. by exists sg.
Qed.

(** A block found by its hash is not one that is still being filled, in groups
    that hash whole blocks only. *)
Lemma lookup_apart co ms p free hs maxl blks hit ext :
  pool_wf p free -> hybrid_ok co ms p hs maxl ->
  (forall sg, sg ∈ attention_groups co -> group_served p ms hs sg hit blks) ->
  (forall i, (i < length (kv_cache_groups (co_config co)))%nat ->
     (forall sg, sg ∈ attention_groups co -> Z.of_nat i ∉ sg_ids sg) -> blks !! i = Some []) ->
  length ms = length (kv_cache_groups (co_config co)) -> enable_caching p = true ->
  coord_inv ms p ext -> tails_ok ms p -> Forall (fun m => fine_grained p m = false) ms ->
  apart (whole_hits blks hit ms) ms.
Proof.
  intros Hwf Hok Hs Hrest Hlen Hen Hi [_ Ht] Hfine m rid j x Hm Htail (i & m' & ncb & Hm' & Hb & n & Hx & _).
  assert (Blocks.block_hash (at_ p x) = None) as Hnone.
  { apply list_elem_of_lookup in Hm as [jm Hm]. destruct (Ht Hen jm m rid j x Hm Htail) as [[_ Hf] _].
    apply Hf. by eapply (Forall_lookup_1 _ _ _ _ Hfine). }
  assert (mgr_null_block (cfg m) = null_block p) as Hnull.
  { apply list_elem_of_split in Hm as (pre & post & E). apply (ci_mgr _ _ _ Hi pre m post E). }
  destruct (decide (Exists (fun sg => Z.of_nat i ∈ sg_ids sg) (attention_groups co))) as [Hex|Hno].
  - apply Exists_exists in Hex as (sg & Hsg & Hin). destruct (Hs sg Hsg) as (cols & [Hcl Hcov] & Hst).
    apply list_elem_of_lookup in Hin as [g Hg].
    assert (is_Some (cols !! g)) as [c' Hc'] by (apply lookup_lt_is_Some; rewrite Hcl; by eapply lookup_lt_Some).
    pose proof (Hst g _ c' Hg Hc') as Hb'. rewrite Nat2Z.id, Hb in Hb'. injection Hb' as <-.
    destruct (proj2 (Hcov g _ ncb Hg Hc') n x Hx) as [[-> _]|(h & kk & _ & _ & Hxb & _ & Ho)].
    + by destruct (ta_real _ _ _ _ Htail).
    + by destruct (unhashed_owns_nothing p x kk (pw_cache _ _ Hwf) Hxb Hnone).
  - rewrite Hrest in Hb; [by injection Hb as <-| |].
    + rewrite <- Hlen. by eapply lookup_lt_Some.
    + intros sg Hsg Hin. apply Hno, Exists_exists. by exists sg.
Qed.


(** [free] forgets a request in every group: it raises nothing, no group
    lists the request any more, the other requests' tables are untouched, no
    block leaves the free list, and the reference count of every block is again
    what the remaining tables of all groups list, and the blocks the other
    requests are still filling stay theirs. *)
Theorem km_free_correct k r free ext :
  pool_wf (block_pool k) free -> coord_inv (single_type_managers k) (block_pool k) ext ->
  exists k' free', km_free r k = Ok tt k' /\
    Forall (fun m => req_to_blocks m !! request_id r = None /\ fresh_request m (request_id r))
      (single_type_managers k') /\
    Forall2 (same_mgr (request_id r)) (single_type_managers k) (single_type_managers k') /\
    pool_wf (block_pool k') free' /\ zlen free <= zlen free' /\
    coord_inv (single_type_managers k') (block_pool k') ext /\
    (tails_ok (single_type_managers k) (block_pool k) -> tails_ok (single_type_managers k') (block_pool k')).
Proof.
  intros Hwf Hi. pose proof (co_free_spec (fun _ => False) (request_id r) _ _ free ext Hwf Hi) as Hw.
  apply wp_ok in Hw as ([] & [ms p] & E & [P1 (fr & P2 & P2') _ P4 _ P6 P7]). cbn [fst snd] in *.
  exists (set_kstate (ms, p) k), fr. split_and!; try done.
  - unfold km_free, on_coord, zoom, kstate. by rewrite E.
  - eapply Forall2_Forall_r; [exact P6|]. apply Forall_true. by intros.
  - rewrite <- (total_before_const _ _ 0), total_zero in P2'. lia.
  - intros Ht. by apply (P7 Ht), apart_none.
Qed.

End Slots.

(** ** Concrete runs *)

(** A manager over the given groups and pool, caching on, no watermark. *)
Definition demo_km (ms : list Manager) (p : BlockPool) : KVCacheManager :=
  mkKM (mkKMConfig 16 1 true false false demo_coordinator (co_config demo_coordinator) 0 []) ms p None.

Lemma demo_slot_case : slot_case "req" (empty_kv_cache_blocks (km_cfg (demo_km demo_groups demo_pool))) 0 0
  (demo_km demo_groups demo_pool).
Proof.
  apply case_grow; [reflexivity|reflexivity|reflexivity| |].
  - apply Forall_replicate. reflexivity.
  - apply Forall_cons. split; [|apply Forall_singleton]; (split; [reflexivity|discriminate]).
Qed.

(** Managers no request has used have no tails. *)
Lemma demo_no_tail m rid i x : m ∈ demo_groups -> ~ tail_at m rid i x.
Proof.
  intros Hm [Hx _ _ _]. do 2 (apply elem_of_cons in Hm as [->|Hm]; [discriminate Hx|]).
  by apply elem_of_nil in Hm.
Qed.

Lemma demo_tails : tails_ok demo_groups demo_pool.
Proof.
  split.
  - intros m rid Hm. do 2 (apply elem_of_cons in Hm as [->|Hm]; [by vm_compute|]). by apply elem_of_nil in Hm.
  - intros _ j m rid i x Hm Ht. destruct (demo_no_tail m rid i x); [by eapply list_elem_of_lookup_2|done].
Qed.

Lemma demo_apart G : apart G demo_groups.
Proof. intros m rid i x Hm Ht. by destruct (demo_no_tail m rid i x). Qed.

Lemma demo_caches : km_caches (demo_km demo_groups demo_pool).
Proof.
  split; [reflexivity| |reflexivity|discriminate].
  intros _. apply Forall_cons. split; [|apply Forall_singleton]; split; vm_compute; try reflexivity; split; discriminate || reflexivity.
Qed.

Lemma demo_cache_ready : cache_ready demo_pool demo_tokens.
Proof. split; by vm_compute. Qed.


Lemma demo_lookup_ready p : enable_caching p = true -> lookup_ready demo_coordinator demo_pair p "req".
Proof.
  intros Hc. split.
  - done.
  - done.
  - intros m Hm. do 2 (apply elem_of_cons in Hm as [->|Hm]; [done|]). by apply elem_of_nil in Hm.
  - intros [|[|i]] m sg Hm _ _; [| |done]; by injection Hm as <-.
  - intros m Hm. do 2 (apply elem_of_cons in Hm as [->|Hm]; [done|]). by apply elem_of_nil in Hm.
Qed.


Lemma km_free_correct_witness :
  exists k', km_free demo_tokens (demo_km demo_groups demo_pool) = Ok tt k' /\
    Forall (fun m => fresh_request m (request_id demo_tokens)) (single_type_managers k').
Proof.
  destruct (km_free_correct (demo_km demo_groups demo_pool) demo_tokens [1; 2; 3; 4]%nat (fun _ => 0)
    demo_pool_wf demo_groups_inv) as (k' & free' & E & Hf & _).
  exists k'. split; [exact E|]. eapply Forall_impl; [exact Hf|]. intros m [_ Hx]. exact Hx.
Defined.
