(* ===== verification/OrderedDict.v ===== *)
(** * Insertion-ordered dictionaries

    Python's [dict] and [OrderedDict] where their order is read: a list of
    entries, oldest first, with distinct keys. *)
From Stdlib Require Import ZArith Lia.
From stdpp Require Import base tactics gmap numbers option list.

Section OrderedDict.
Context {K V : Type} `{EqDecision K}.
Implicit Types (d : list (K * V)) (k : K) (v : V).

(** [d.get(k)] *)
Fixpoint od_get (k : K) (d : list (K * V)) : option V :=
  match d with
  | [] => None
  | (k', v) :: d' => if decide (k = k') then Some v else od_get k d'
  end.

(** [d[k] = v]: in place when [k] is present, at the end otherwise. *)
Fixpoint od_set (k : K) (v : V) (d : list (K * V)) : list (K * V) :=
  match d with
  | [] => [(k, v)]
  | (k', v') :: d' => if decide (k = k') then (k', v) :: d' else (k', v') :: od_set k v d'
  end.

(** [d.pop(k, None)]: what is left. *)
Fixpoint od_pop (k : K) (d : list (K * V)) : list (K * V) :=
  match d with
  | [] => []
  | (k', v) :: d' => if decide (k = k') then d' else (k', v) :: od_pop k d'
  end.

(** [d.move_to_end(k)]; [None] is [KeyError]. *)
Definition od_move_to_end (k : K) (d : list (K * V)) : option (list (K * V)) :=
  v ← od_get k d; Some (od_pop k d ++ [(k, v)]).

Definition od_mem (k : K) (d : list (K * V)) : bool := bool_decide (k ∈ d.*1).

Lemma od_get_None k d : od_get k d = None <-> k ∉ d.*1.
Proof.
  induction d as [|[k' v] d IH]; cbn; [split; [by intros _ ?%elem_of_nil|done]|].
  rewrite not_elem_of_cons. case_decide; naive_solver.
Qed.

Lemma od_get_elem k v d : od_get k d = Some v -> (k, v) ∈ d.
Proof.
  induction d as [|[k' v'] d IH]; cbn; [done|]. case_decide as E.
  - subst. intros [= <-]. by left.
  - intros Hg. right. by apply IH.
Qed.

Lemma od_get_key k v d : od_get k d = Some v -> k ∈ d.*1.
Proof. intros Hg%od_get_elem. apply list_elem_of_fmap. by exists (k, v). Qed.

Lemma od_elem_get k v d : NoDup d.*1 -> (k, v) ∈ d -> od_get k d = Some v.
Proof.
  induction d as [|[k' v'] d IH]; cbn; [by intros _ ?%elem_of_nil|].
  intros [Hk Hd]%NoDup_cons [[= <- <-]|Hin]%elem_of_cons; [by rewrite decide_True|].
  rewrite decide_False; [by apply IH|]. intros ->. apply Hk, list_elem_of_fmap. by exists (k', v).
Qed.

Lemma od_pop_keys k d : (od_pop k d).*1 ⊆+ d.*1.
Proof.
  induction d as [|[k' v] d IH]; cbn; [done|]. case_decide; cbn; [by apply submseteq_cons|by apply submseteq_skip].
Qed.

Lemma od_pop_NoDup k d : NoDup d.*1 -> NoDup (od_pop k d).*1.
Proof.
  intros Hd. destruct (submseteq_Permutation _ _ (od_pop_keys k d)) as [l Hl]. rewrite Hl in Hd.
  by apply NoDup_app in Hd as (? & _).
Qed.

Lemma od_pop_absent k d : k ∉ d.*1 -> od_pop k d = d.
Proof.
  induction d as [|[k' v] d IH]; cbn; [done|]. rewrite not_elem_of_cons. intros [Hk Hd].
  rewrite decide_False by done. by rewrite IH.
Qed.

Lemma od_pop_perm k v d : od_get k d = Some v -> d ≡ₚ (k, v) :: od_pop k d.
Proof.
  induction d as [|[k' v'] d IH]; cbn; [done|]. case_decide as E.
  - subst. by intros [= <-].
  - intros Hg. rewrite (IH Hg) at 1. apply Permutation_swap.
Qed.

Lemma elem_of_od_pop k d x : NoDup d.*1 -> x ∈ (od_pop k d).*1 <-> x ∈ d.*1 /\ x <> k.
Proof.
  induction d as [|[k' v] d IH]; cbn; [intros _; rewrite elem_of_nil; tauto|].
  intros [Hk Hd]%NoDup_cons. case_decide as E; cbn.
  - subst. rewrite elem_of_cons. split; [intros Hx; split; [by right|]; by intros ->|].
    intros [[->|Hx] Hne]; [done|done].
  - rewrite !elem_of_cons, IH by done. naive_solver.
Qed.

Lemma od_get_pop k k' d : NoDup d.*1 ->
  od_get k' (od_pop k d) = if decide (k' = k) then None else od_get k' d.
Proof.
  induction d as [|[k0 v] d IH]; cbn; [intros _; by case_decide|].
  intros [Hk Hd]%NoDup_cons. destruct (decide (k = k0)) as [->|Hne]; cbn.
  - destruct (decide (k' = k0)) as [->|]; [by apply od_get_None|done].
  - rewrite IH by done. destruct (decide (k' = k0)), (decide (k' = k)); congruence.
Qed.

Lemma od_get_set k v k' d :
  od_get k' (od_set k v d) = if decide (k' = k) then Some v else od_get k' d.
Proof.
  induction d as [|[k0 v0] d IH]; cbn; [done|]. destruct (decide (k = k0)) as [->|Hne]; cbn.
  - by destruct (decide (k' = k0)).
  - rewrite IH. destruct (decide (k' = k0)), (decide (k' = k)); congruence.
Qed.

Lemma od_set_keys_in k v d : k ∈ d.*1 -> (od_set k v d).*1 = d.*1.
Proof.
  induction d as [|[k0 v0] d IH]; cbn; [by intros ?%elem_of_nil|].
  rewrite elem_of_cons. case_decide as E; cbn; [done|]. intros [->|Hk]; [done|]. by rewrite IH.
Qed.

Lemma od_set_absent k v d : k ∉ d.*1 -> od_set k v d = d ++ [(k, v)].
Proof.
  induction d as [|[k0 v0] d IH]; cbn; [done|]. rewrite not_elem_of_cons. intros [Hk Hd].
  rewrite decide_False by done. by rewrite IH.
Qed.

Lemma od_set_last k v w d : k ∉ d.*1 -> od_set k v (d ++ [(k, w)]) = d ++ [(k, v)].
Proof.
  induction d as [|[k0 v0] d IH]; cbn; [intros _; by rewrite decide_True|]. rewrite not_elem_of_cons.
  intros [Hk Hd]. rewrite decide_False by done. by rewrite IH.
Qed.

Lemma od_set_NoDup k v d : NoDup d.*1 -> NoDup (od_set k v d).*1.
Proof.
  intros Hd. destruct (decide (k ∈ d.*1)) as [Hk|Hk]; [by rewrite od_set_keys_in|].
  rewrite od_set_absent, fmap_app by done. apply NoDup_app. split_and!; [done| |apply NoDup_singleton].
  intros x Hx ->%list_elem_of_singleton. done.
Qed.

Lemma od_get_app k d1 d2 :
  od_get k (d1 ++ d2) = match od_get k d1 with Some v => Some v | None => od_get k d2 end.
Proof. induction d1 as [|[k0 v0] d1 IH]; cbn; [done|]. by case_decide. Qed.

Lemma od_mem_get k d : od_mem k d = true <-> is_Some (od_get k d).
Proof.
  unfold od_mem. rewrite bool_decide_eq_true. destruct (od_get k d) eqn:E.
  - split; [by eexists|]. intros _. by eapply od_get_key.
  - apply od_get_None in E. split; [done|]. by intros [? ?].
Qed.

Lemma od_move_keys k d d' : od_move_to_end k d = Some d' -> d' ≡ₚ d.
Proof.
  unfold od_move_to_end. destruct (od_get k d) as [v|] eqn:E; cbn; [|done]. intros [= <-].
  rewrite (od_pop_perm k v d E) at 2. rewrite Permutation_app_comm. done.
Qed.

Lemma od_get_perm k d d' : NoDup d.*1 -> d ≡ₚ d' -> od_get k d = od_get k d'.
Proof.
  intros Hd Hp. assert (NoDup d'.*1) as Hd' by by rewrite <- Hp.
  destruct (od_get k d) as [v|] eqn:E.
  - symmetry. apply od_elem_get; [done|]. rewrite <- Hp. by apply od_get_elem.
  - symmetry. apply od_get_None. rewrite <- Hp. by apply od_get_None.
Qed.

End OrderedDict.
