(* ===== verification/Offload.v ===== *)
(** * CPU offloading of KV blocks

    vllm/v1/kv_offload: offload keys (base.py), the eviction policies
    (cpu/policies/{base,lru,arc}.py) behind one interface, and the manager of
    the CPU tier (cpu/manager.py), written once for every policy.

    A [ChunkStatus] is referenced only from the policy's dictionaries while it
    is stored, so an assignment to its fields is an update of the stored entry
    ([pol_write]).  Floats are exact rationals. *)
From Stdlib Require Import ZArith QArith Qround Lia.
From stdpp Require Import base tactics gmap strings numbers option list.
From S2P Require Import Prelude OrderedDict.

Local Open Scope Z_scope.

(** ** Keys, base.py *)

Abbreviation OffloadKey := (list Byte.byte).

(** [make_offload_key]; [None] is [OverflowError] *)
Definition make_offload_key (block_hash : bytes) (group_idx : Z) : option OffloadKey :=
  b ← int_to_bytes 4 group_idx; Some (block_hash ++ b).
(** [get_offload_block_hash], [get_offload_group_idx] *)
Definition get_offload_block_hash (key : OffloadKey) : bytes := py_upto key (-4).
Definition get_offload_group_idx (key : OffloadKey) : Z := int_from_bytes (py_from key (-4)).

Inductive LookupResult := MISS | HIT | HIT_PENDING | RETRY.

(** [OffloadingEvent]; locality, ownership and removal_expected keep their defaults in this tier. *)
Record OffloadingEvent := mkOffEvent { oe_keys : list OffloadKey; oe_medium : string; oe_removed : bool }.

Record PrepareStoreOutput := mkPrepareStore {
  keys_to_store : list OffloadKey;
  store_spec : list Z;
  evicted_keys : list OffloadKey
}.

(** ** Chunks *)

(** [ctypes.c_int32] *)
Definition wrap32 (z : Z) : Z := (z + 2 ^ 31) mod 2 ^ 32 - 2 ^ 31.

Record ChunkStatus := mkChunk { chunk_ref : Z; chunk_id : Z }.

(** [ChunkStatus(chunk_id)], [is_ready] *)
Definition new_chunk (id : Z) : ChunkStatus := mkChunk (-1) id.
Definition is_ready (c : ChunkStatus) : bool := 0 <=? chunk_ref c.
Definition set_chunk_ref (n : Z) (c : ChunkStatus) : ChunkStatus := mkChunk (wrap32 n) (chunk_id c).

(** ** The policy interface *)

Class CachePolicy (P : Type) := {
  pol_init : Z -> P;
  pol_get : OffloadKey -> P -> option ChunkStatus;
  pol_insert : OffloadKey -> ChunkStatus -> M P unit;
  pol_remove : OffloadKey -> M P unit;
  pol_touch : list OffloadKey -> M P unit;
  pol_evict : Z -> gset OffloadKey -> M P (option (list (OffloadKey * ChunkStatus)));
  pol_clear : M P unit;
  pol_mark_evictable : OffloadKey -> M P unit;
  pol_mark_non_evictable : OffloadKey -> M P unit;
  pol_write : OffloadKey -> ChunkStatus -> P -> P
}.

(** ** LRU, cpu/policies/lru.py *)

Record LRUCachePolicy := mkLRU {
  evictable_chunks : list (OffloadKey * unit);
  chunks : list (OffloadKey * ChunkStatus)
}.

Definition lru_get (key : OffloadKey) (s : LRUCachePolicy) : option ChunkStatus := od_get key (chunks s).

Definition lru_insert (key : OffloadKey) (chunk : ChunkStatus) : M LRUCachePolicy unit :=
  modify (fun s => mkLRU (evictable_chunks s) (od_set key chunk (chunks s))) ;;
  (if chunk_ref chunk =? 0
   then modify (fun s => mkLRU (od_set key tt (evictable_chunks s)) (chunks s)) else mret tt).

Definition lru_remove (key : OffloadKey) : M LRUCachePolicy unit :=
  s ← get;
  _ ← of_option KeyError (od_get key (chunks s));
  modify (fun s => mkLRU (od_pop key (evictable_chunks s)) (od_pop key (chunks s))).

Definition lru_touch (keys : list OffloadKey) : M LRUCachePolicy unit :=
  for_each (reverse keys) (fun key =>
    s ← get;
    if od_mem key (evictable_chunks s)
    then d ← of_option KeyError (od_move_to_end key (evictable_chunks s));
         modify (fun s => mkLRU d (chunks s))
    else mret tt).

(** The candidates, oldest first, until [n] are found. *)
Fixpoint lru_candidates (n : nat) (protected : gset OffloadKey) (s : LRUCachePolicy)
    (es : list (OffloadKey * unit)) : exn + list (OffloadKey * ChunkStatus) :=
  match n, es with
  | O, _ | _, [] => inr []
  | S n', (key, _) :: es' =>
      if decide (key ∈ protected) then lru_candidates n protected s es' else
      match od_get key (chunks s) with
      | None => inl KeyError
      | Some chunk =>
          if negb (chunk_ref chunk =? 0) then inl AssertionError else
          match lru_candidates n' protected s es' with
          | inl e => inl e
          | inr l => inr ((key, chunk) :: l)
          end
      end
  end.

Definition lru_evict (n : Z) (protected : gset OffloadKey)
    : M LRUCachePolicy (option (list (OffloadKey * ChunkStatus))) :=
  if n =? 0 then mret (Some []) else
  s ← get;
  match lru_candidates (Z.to_nat n) protected s (evictable_chunks s) with
  | inl e => raise e
  | inr candidates =>
      if zlen candidates <? n then mret None else
      for_each candidates (fun kc =>
        s ← get;
        _ ← of_option KeyError (od_get kc.1 (evictable_chunks s));
        _ ← of_option KeyError (od_get kc.1 (chunks s));
        modify (fun s => mkLRU (od_pop kc.1 (evictable_chunks s)) (od_pop kc.1 (chunks s)))) ;;
      mret (Some candidates)
  end.

Definition lru_clear : M LRUCachePolicy unit := modify (fun _ => mkLRU [] []).
Definition lru_mark_evictable (key : OffloadKey) : M LRUCachePolicy unit :=
  modify (fun s => mkLRU (od_set key tt (evictable_chunks s)) (chunks s)).
Definition lru_mark_non_evictable (key : OffloadKey) : M LRUCachePolicy unit :=
  s ← get;
  _ ← of_option KeyError (od_get key (evictable_chunks s));
  modify (fun s => mkLRU (od_pop key (evictable_chunks s)) (chunks s)).

#[export] Instance lru_policy : CachePolicy LRUCachePolicy := {
  pol_init := fun _ => mkLRU [] [];
  pol_get := lru_get;
  pol_insert := lru_insert;
  pol_remove := lru_remove;
  pol_touch := lru_touch;
  pol_evict := lru_evict;
  pol_clear := lru_clear;
  pol_mark_evictable := lru_mark_evictable;
  pol_mark_non_evictable := lru_mark_non_evictable;
  pol_write := fun key c s => mkLRU (evictable_chunks s) (od_set key c (chunks s))
}.

(** ** ARC, cpu/policies/arc.py *)

Record ARCCachePolicy := mkARC {
  cache_capacity : Z;
  target_t1_size : Q;
  t1 : list (OffloadKey * ChunkStatus);
  t2 : list (OffloadKey * ChunkStatus);
  b1 : list (OffloadKey * unit);
  b2 : list (OffloadKey * unit)
}.

Definition arc_get (key : OffloadKey) (s : ARCCachePolicy) : option ChunkStatus :=
  match od_get key (t1 s) with Some c => Some c | None => od_get key (t2 s) end.

Definition arc_insert (key : OffloadKey) (chunk : ChunkStatus) : M ARCCachePolicy unit :=
  modify (fun s => mkARC (cache_capacity s) (target_t1_size s) (od_set key chunk (t1 s)) (t2 s)
                     (od_pop key (b1 s)) (od_pop key (b2 s))).

Definition arc_remove (key : OffloadKey) : M ARCCachePolicy unit :=
  modify (fun s => match od_get key (t1 s) with
                   | Some _ => mkARC (cache_capacity s) (target_t1_size s) (od_pop key (t1 s)) (t2 s) (b1 s) (b2 s)
                   | None => mkARC (cache_capacity s) (target_t1_size s) (t1 s) (od_pop key (t2 s)) (b1 s) (b2 s)
                   end).

Definition qmax (a b : Q) : Q := if Qle_bool a b then b else a.
Definition qmin (a b : Q) : Q := if Qle_bool a b then a else b.

(** [max(1, len(a) / len(b))] for a non-empty [b] *)
Definition arc_delta {A} (a b : list A) : Q := qmax 1 (inject_Z (zlen a) / inject_Z (zlen b)).

(** One key of [touch]. *)
Definition arc_touch_key (key : OffloadKey) (s : ARCCachePolicy) : ARCCachePolicy :=
  match od_get key (t1 s) with
  | Some chunk =>
      if is_ready chunk
      then mkARC (cache_capacity s) (target_t1_size s) (od_pop key (t1 s)) (od_set key chunk (t2 s)) (b1 s) (b2 s)
      else mkARC (cache_capacity s) (target_t1_size s) (od_pop key (t1 s) ++ [(key, chunk)]) (t2 s) (b1 s) (b2 s)
  | None =>
      if od_mem key (t2 s) then
        mkARC (cache_capacity s) (target_t1_size s) (t1 s) (default [] (od_move_to_end key (t2 s))) (b1 s) (b2 s)
      else if od_mem key (b1 s) then
        mkARC (cache_capacity s)
          (qmin (target_t1_size s + arc_delta (b2 s) (b1 s)) (inject_Z (cache_capacity s)))
          (t1 s) (t2 s) (default [] (od_move_to_end key (b1 s))) (b2 s)
      else if od_mem key (b2 s) then
        mkARC (cache_capacity s)
          (qmax (target_t1_size s - arc_delta (b1 s) (b2 s)) 0)
          (t1 s) (t2 s) (b1 s) (default [] (od_move_to_end key (b2 s)))
      else s
  end.
Definition arc_touch (keys : list OffloadKey) : M ARCCachePolicy unit :=
  for_each (reverse keys) (fun key => modify (arc_touch_key key)).

Definition arc_clear : M ARCCachePolicy unit := modify (fun s => mkARC (cache_capacity s) 0 [] [] [] []).

(** [next_candidate]: the entry found and the iterator after it. *)
Fixpoint next_candidate (protected : gset OffloadKey) (entries : list (OffloadKey * ChunkStatus))
    : option (OffloadKey * ChunkStatus) * list (OffloadKey * ChunkStatus) :=
  match entries with
  | [] => (None, [])
  | (key, chunk) :: entries' =>
      if (chunk_ref chunk =? 0) && negb (bool_decide (key ∈ protected))
      then (Some (key, chunk), entries') else next_candidate protected entries'
  end.

(** The selection loop: [n] rounds over the two iterators. *)
Fixpoint arc_select (n : nat) (protected : gset OffloadKey) (target virtual_t1_size : Z)
    (t1_iter t2_iter : list (OffloadKey * ChunkStatus)) : option (list (OffloadKey * ChunkStatus * bool)) :=
  match n with
  | O => Some []
  | S n' =>
      let '(entry1, it1) :=
        if target <=? virtual_t1_size then next_candidate protected t1_iter else (None, t1_iter) in
      match entry1 with
      | Some e => rest ← arc_select n' protected target (virtual_t1_size - 1) it1 t2_iter; Some ((e, true) :: rest)
      | None =>
          let '(entry2, it2) := next_candidate protected t2_iter in
          match entry2 with
          | Some e => rest ← arc_select n' protected target virtual_t1_size it1 it2; Some ((e, false) :: rest)
          | None =>
              let '(entry3, it1') := next_candidate protected it1 in
              match entry3 with
              | None => None
              | Some e => rest ← arc_select n' protected target (virtual_t1_size - 1) it1' it2;
                          Some ((e, true) :: rest)
              end
          end
      end
  end.

(** [del self.t1[key]; self.b1[key] = None], or the same for T2. *)
Definition arc_apply (s : ARCCachePolicy) (c : OffloadKey * ChunkStatus * bool) : ARCCachePolicy :=
  let '(key, chunk, from_t1) := c in
  if from_t1 : bool
  then mkARC (cache_capacity s) (target_t1_size s) (od_pop key (t1 s)) (t2 s) (od_set key tt (b1 s)) (b2 s)
  else mkARC (cache_capacity s) (target_t1_size s) (t1 s) (od_pop key (t2 s)) (b1 s) (od_set key tt (b2 s)).

(** [for _ in range(len(ghost) - capacity): ghost.popitem(last=False)] *)
Definition trim_ghost (capacity : Z) (g : list (OffloadKey * unit)) : list (OffloadKey * unit) :=
  drop (Z.to_nat (zlen g - capacity)) g.

Definition arc_evict (n : Z) (protected : gset OffloadKey)
    : M ARCCachePolicy (option (list (OffloadKey * ChunkStatus))) :=
  if n =? 0 then mret (Some []) else
  s ← get;
  match arc_select (Z.to_nat n) protected (Qfloor (target_t1_size s)) (zlen (t1 s)) (t1 s) (t2 s) with
  | None => mret None
  | Some candidates =>
      modify (fun s => foldl arc_apply s candidates) ;;
      modify (fun s => mkARC (cache_capacity s) (target_t1_size s) (t1 s) (t2 s)
                         (trim_ghost (cache_capacity s) (b1 s)) (trim_ghost (cache_capacity s) (b2 s))) ;;
      mret (Some candidates.*1)
  end.

#[export] Instance arc_policy : CachePolicy ARCCachePolicy := {
  pol_init := fun cap => mkARC cap 0 [] [] [] [];
  pol_get := arc_get;
  pol_insert := arc_insert;
  pol_remove := arc_remove;
  pol_touch := arc_touch;
  pol_evict := arc_evict;
  pol_clear := arc_clear;
  pol_mark_evictable := fun _ => mret tt;
  pol_mark_non_evictable := fun _ => mret tt;
  pol_write := fun key c s => match od_get key (t1 s) with
    | Some _ => mkARC (cache_capacity s) (target_t1_size s) (od_set key c (t1 s)) (t2 s) (b1 s) (b2 s)
    | None => mkARC (cache_capacity s) (target_t1_size s) (t1 s) (od_set key c (t2 s)) (b1 s) (b2 s)
    end
}.

(** ** The CPU tier, cpu/manager.py *)

Record CPUOffloadingManager (P : Type) := mkCPU {
  num_chunks : Z;
  num_allocated_chunks : Z;
  free_list : list Z;
  off_events : option (list OffloadingEvent);
  policy : P;
  num_evictable_cache_chunks : Z;
  num_write_pending_chunks : Z;
  store_threshold : Z;
  max_tracker_size : Z;
  stores_skipped_in_current_batch : Z;
  allocation_sizes_in_current_batch : list Z;
  counts : option (list (OffloadKey * Z))
}.
Arguments mkCPU {P}.
Arguments num_chunks {P}.
Arguments num_allocated_chunks {P}.
Arguments free_list {P}.
Arguments off_events {P}.
Arguments policy {P}.
Arguments num_evictable_cache_chunks {P}.
Arguments num_write_pending_chunks {P}.
Arguments store_threshold {P}.
Arguments max_tracker_size {P}.
Arguments stores_skipped_in_current_batch {P}.
Arguments allocation_sizes_in_current_batch {P}.
Arguments counts {P}.

Section CPU.
Context {P : Type} `{CachePolicy P}.
Local Abbreviation CPU := (CPUOffloadingManager P).

Definition set_alloc (a : Z) (f : list Z) (m : CPU) : CPU :=
  mkCPU (num_chunks m) a f (off_events m) (policy m) (num_evictable_cache_chunks m)
    (num_write_pending_chunks m) (store_threshold m) (max_tracker_size m)
    (stores_skipped_in_current_batch m) (allocation_sizes_in_current_batch m) (counts m).
Definition set_policy (s : P) (m : CPU) : CPU :=
  mkCPU (num_chunks m) (num_allocated_chunks m) (free_list m) (off_events m) s
    (num_evictable_cache_chunks m) (num_write_pending_chunks m) (store_threshold m) (max_tracker_size m)
    (stores_skipped_in_current_batch m) (allocation_sizes_in_current_batch m) (counts m).
Definition set_counters (ev wp : Z) (m : CPU) : CPU :=
  mkCPU (num_chunks m) (num_allocated_chunks m) (free_list m) (off_events m) (policy m) ev wp
    (store_threshold m) (max_tracker_size m)
    (stores_skipped_in_current_batch m) (allocation_sizes_in_current_batch m) (counts m).
Definition set_off_events (e : option (list OffloadingEvent)) (m : CPU) : CPU :=
  mkCPU (num_chunks m) (num_allocated_chunks m) (free_list m) e (policy m)
    (num_evictable_cache_chunks m) (num_write_pending_chunks m) (store_threshold m) (max_tracker_size m)
    (stores_skipped_in_current_batch m) (allocation_sizes_in_current_batch m) (counts m).
Definition set_batch (skipped : Z) (sizes : list Z) (m : CPU) : CPU :=
  mkCPU (num_chunks m) (num_allocated_chunks m) (free_list m) (off_events m) (policy m)
    (num_evictable_cache_chunks m) (num_write_pending_chunks m) (store_threshold m) (max_tracker_size m)
    skipped sizes (counts m).
Definition set_counts (c : option (list (OffloadKey * Z))) (m : CPU) : CPU :=
  mkCPU (num_chunks m) (num_allocated_chunks m) (free_list m) (off_events m) (policy m)
    (num_evictable_cache_chunks m) (num_write_pending_chunks m) (store_threshold m) (max_tracker_size m)
    (stores_skipped_in_current_batch m) (allocation_sizes_in_current_batch m) c.

Definition on_policy {A} (c : M P A) : M CPU A := zoom policy set_policy c.

(** [CPUOffloadingManager.__init__], the policy resolved *)
Definition cpu_init (n : Z) (enable_events : bool) (threshold tracker_size : Z) : CPU :=
  mkCPU n 0 [] (if enable_events then Some [] else None) (pol_init n) 0 0 threshold tracker_size 0 []
    (if 2 <=? threshold then Some [] else None).

(** [_get_num_free_chunks] *)
Definition get_num_free_chunks (m : CPU) : Z :=
  zlen (free_list m) + num_chunks m - num_allocated_chunks m.

(** [self._free_list.pop()] [n] times *)
Fixpoint pop_free (n : nat) : M CPU (list Z) :=
  match n with
  | O => mret []
  | S n' =>
      m ← get;
      id ← of_option IndexError (last (free_list m));
      modify (set_alloc (num_allocated_chunks m) (removelast (free_list m))) ;;
      ids ← pop_free n';
      mret (id :: ids)
  end.

(** [_allocate_chunks] *)
Definition allocate_chunks (keys : list OffloadKey) : M CPU (list ChunkStatus) :=
  m ← get;
  let num_fresh := Z.min (zlen keys) (num_chunks m - num_allocated_chunks m) in
  let num_reused := zlen keys - num_fresh in
  assert_ (num_reused <=? zlen (free_list m)) ;;
  let fresh := seqZ (num_allocated_chunks m) num_fresh in
  modify (set_alloc (num_allocated_chunks m + Z.max 0 num_fresh) (free_list m)) ;;
  reused ← pop_free (Z.to_nat num_reused);
  mret (new_chunk <$> fresh ++ reused).

(** [_free_chunk] *)
Definition free_chunk (chunk : ChunkStatus) : M CPU unit :=
  modify (fun m => set_alloc (num_allocated_chunks m) (free_list m ++ [chunk_id chunk]) m).

(** [_record_accesses]: the two loops over the tracker *)
Definition count_tracked (keys : list OffloadKey) (c : list (OffloadKey * Z))
    : list (OffloadKey * Z) * gset OffloadKey :=
  foldl (fun cp key =>
    match od_get key cp.1 with
    | Some n => (od_set key (n + 1) (default cp.1 (od_move_to_end key cp.1)), {[ key ]} ∪ cp.2)
    | None => cp
    end) (c, ∅) keys.
Definition track_new (max_size : Z) (keys : list OffloadKey) (c : list (OffloadKey * Z)) (unprotected : Z)
    : list (OffloadKey * Z) * Z :=
  foldl (fun cu key =>
    if od_mem key cu.1 then cu
    else if max_size <=? zlen cu.1 then
      if cu.2 =? 0 then cu else (od_set key 1 (drop 1 cu.1), cu.2 - 1)
    else (od_set key 1 cu.1, cu.2)) (c, unprotected) keys.
Definition record_accesses (keys : list OffloadKey) : M CPU unit :=
  m ← get;
  c ← of_option AssertionError (counts m);
  let '(c, protected) := count_tracked keys c in
  let '(c, _) := track_new (max_tracker_size m) keys c (zlen c - Z.of_nat (size protected)) in
  modify (set_counts (Some c)).

(** [lookup] *)
Definition lookup_chunk (key : OffloadKey) (m : CPU) : LookupResult :=
  match pol_get key (policy m) with
  | None => MISS
  | Some chunk => if is_ready chunk then HIT else HIT_PENDING
  end.

(** [chunk.ref_cnt += 1], with the evictable bookkeeping *)
Definition pin (key : OffloadKey) (chunk : ChunkStatus) : M CPU unit :=
  (if chunk_ref chunk =? 0 then
     on_policy (pol_mark_non_evictable key) ;;
     modify (fun m => set_counters (num_evictable_cache_chunks m - 1) (num_write_pending_chunks m) m) ;;
     m ← get;
     assert_ (0 <=? num_evictable_cache_chunks m)
   else mret tt) ;;
  modify (fun m => set_policy (pol_write key (set_chunk_ref (chunk_ref chunk + 1) chunk) (policy m)) m).

(** [prepare_load]: the chunk ids to read *)
Definition prepare_load (keys : list OffloadKey) : M CPU (list Z) :=
  fold_m (fun ids key =>
    m ← get;
    chunk ← of_option AssertionError (pol_get key (policy m));
    assert_ (is_ready chunk) ;;
    pin key chunk ;;
    mret (ids ++ [chunk_id chunk])) [] keys.

(** [touch] *)
Definition cpu_touch (keys : list OffloadKey) : M CPU unit := on_policy (pol_touch keys).

(** [reserve_hits] *)
Definition reserve_hits (keys : list OffloadKey) : M CPU (list OffloadKey) :=
  fold_m (fun reserved key =>
    m ← get;
    match pol_get key (policy m) with
    | None => mret reserved
    | Some chunk =>
        if negb (is_ready chunk) then mret reserved else
        pin key chunk ;; mret (reserved ++ [key])
    end) [] keys.

(** [release_reservation] and [complete_load] *)
Definition unpin (key : OffloadKey) : M CPU unit :=
  m ← get;
  chunk ← of_option AssertionError (pol_get key (policy m));
  assert_ (0 <? chunk_ref chunk) ;;
  let chunk' := set_chunk_ref (chunk_ref chunk - 1) chunk in
  modify (fun m => set_policy (pol_write key chunk' (policy m)) m) ;;
  (if chunk_ref chunk' =? 0 then
     modify (fun m => set_counters (num_evictable_cache_chunks m + 1) (num_write_pending_chunks m) m) ;;
     on_policy (pol_mark_evictable key)
   else mret tt).
Definition release_reservation (keys : list OffloadKey) : M CPU unit := for_each keys unpin.
Definition complete_load (keys : list OffloadKey) : M CPU unit := for_each keys unpin.

Definition emit_off_event (keys : list OffloadKey) (removed : bool) : M CPU unit :=
  match keys with
  | [] => mret tt
  | _ => modify (fun m => set_off_events
           ((fun es => es ++ [mkOffEvent keys "CPU" removed]) <$> off_events m) m)
  end.

(** Making room: [None] when [num_to_evict] idle chunks cannot be found. *)
Definition make_room (num_to_evict : Z) (protected : gset OffloadKey) : M CPU (option (list OffloadKey)) :=
  if num_to_evict <=? 0 then mret (Some []) else
  m ← get;
  if num_evictable_cache_chunks m <? num_to_evict then mret None else
  r ← on_policy (pol_evict num_to_evict protected);
  match r with
  | None => mret None
  | Some evicted =>
      modify (fun m => set_counters (num_evictable_cache_chunks m - zlen evicted) (num_write_pending_chunks m) m) ;;
      m ← get;
      assert_ (0 <=? num_evictable_cache_chunks m) ;;
      for_each evicted (fun kc => free_chunk kc.2) ;;
      mret (Some evicted.*1)
  end.

(** The store filter: keys offered often enough. *)
Definition filter_offered (keys : list OffloadKey) : M CPU (list OffloadKey) :=
  m ← get;
  match counts m with
  | None => mret keys
  | Some _ =>
      record_accesses keys ;;
      m ← get;
      let kept := filter (fun k => store_threshold m <= default 0 (od_get k (default [] (counts m)))) keys in
      modify (fun m => set_batch (stores_skipped_in_current_batch m + (zlen keys - zlen kept))
                         (allocation_sizes_in_current_batch m) m) ;;
      mret kept
  end.

(** [prepare_store] *)
Definition prepare_store (keys : list OffloadKey) : M CPU (option PrepareStoreOutput) :=
  keys ← filter_offered keys;
  m ← get;
  let to_store := filter (fun k => pol_get k (policy m) = None) keys in
  match to_store with
  | [] => mret (Some (mkPrepareStore [] [] []))
  | _ =>
      modify (fun m => set_batch (stores_skipped_in_current_batch m)
                         (allocation_sizes_in_current_batch m ++ [zlen to_store]) m) ;;
      m ← get;
      room ← make_room (zlen to_store - get_num_free_chunks m) (list_to_set keys);
      match room with
      | None => mret None
      | Some to_evict =>
          emit_off_event to_evict true ;;
          new ← allocate_chunks to_store;
          assert_ (zlen new =? zlen to_store) ;;
          for_each (zip to_store new) (fun kc => on_policy (pol_insert kc.1 kc.2)) ;;
          modify (fun m => set_counters (num_evictable_cache_chunks m)
                             (num_write_pending_chunks m + zlen to_store) m) ;;
          mret (Some (mkPrepareStore to_store (chunk_id <$> new) to_evict))
      end
  end.

(** [complete_store] *)
Definition complete_store (keys : list OffloadKey) (success : bool) : M CPU unit :=
  stored ← fold_m (fun stored key =>
    m ← get;
    match pol_get key (policy m) with
    | None => mret stored
    | Some chunk =>
        if is_ready chunk then mret stored else
        if success then
          modify (fun m => set_policy (pol_write key (set_chunk_ref 0 chunk) (policy m)) m) ;;
          modify (fun m => set_counters (num_evictable_cache_chunks m + 1) (num_write_pending_chunks m - 1) m) ;;
          on_policy (pol_mark_evictable key) ;;
          mret (stored ++ [key])
        else
          modify (fun m => set_counters (num_evictable_cache_chunks m) (num_write_pending_chunks m - 1) m) ;;
          on_policy (pol_remove key) ;;
          free_chunk chunk ;;
          mret stored
    end) [] keys;
  emit_off_event stored false.

(** [reset_cache] *)
Definition reset_cache : M CPU unit :=
  on_policy pol_clear ;;
  modify (set_counters 0 0) ;;
  modify (set_alloc 0 []).

(** [take_events] *)
Definition take_off_events : M CPU (list OffloadingEvent) :=
  m ← get;
  match off_events m with
  | None => mret []
  | Some es => modify (set_off_events (Some [])) ;; mret es
  end.

(** [get_stats]: the usage gauges, the allocation sizes and the skipped stores *)
Record CPUStats := mkCPUStats {
  st_usage : Q;
  st_sizes : list Z;
  st_write_usage : Q;
  st_read_usage : Q;
  st_skipped : option Z
}.
Definition get_stats : M CPU CPUStats :=
  m ← get;
  let num_used := num_allocated_chunks m - zlen (free_list m) - num_evictable_cache_chunks m in
  let per_chunk (n : Z) : Q := if 0 <? num_chunks m then (inject_Z n / inject_Z (num_chunks m))%Q else 0%Q in
  let usage := per_chunk num_used in
  let write_usage := per_chunk (num_write_pending_chunks m) in
  let counted := 2 <=? store_threshold m in
  modify (fun m => set_batch (if counted then 0 else stores_skipped_in_current_batch m) [] m) ;;
  mret (mkCPUStats usage (allocation_sizes_in_current_batch m) write_usage (qmax (usage - write_usage) 0)
          (if counted then Some (stores_skipped_in_current_batch m) else None)).

End CPU.
