(* ===== verification/OffloadPolicies.v ===== *)
(** * What an eviction policy promises

    The laws of the policy interface, stated on the map of stored chunks and on
    the set of keys the manager has marked evictable, and their proofs for LRU
    and ARC. *)
From Stdlib Require Import ZArith QArith Qround Lia.
From stdpp Require Import base tactics gmap strings numbers option list.
From S2P Require Import Prelude OrderedDict Offload.

Local Open Scope Z_scope.

Abbreviation chunk_map := (gmap OffloadKey ChunkStatus).

(** The chunks no transfer uses. *)
Definition idle_keys (m : chunk_map) : gset OffloadKey := dom (filter (fun kc => chunk_ref kc.2 = 0) m).

Lemma elem_of_idle m k : k ∈ idle_keys m <-> exists c, m !! k = Some c /\ chunk_ref c = 0.
Proof.
  unfold idle_keys. rewrite elem_of_dom. unfold is_Some. setoid_rewrite map_lookup_filter_Some. done.
Qed.

(** The result of an eviction of [n] chunks. *)
Definition evicted_from (m : chunk_map) (n : Z) (protected : gset OffloadKey)
    (l : list (OffloadKey * ChunkStatus)) (m' : chunk_map) : Prop :=
  zlen l = n /\ NoDup l.*1 /\
  (forall k c, (k, c) ∈ l -> k ∉ protected /\ m !! k = Some c /\ chunk_ref c = 0) /\
  (forall k, m' !! k = if decide (k ∈ l.*1) then None else m !! k).

Class CachePolicySpec (P : Type) `{CachePolicy P} := {
  pol_wf : gset OffloadKey -> P -> Prop;
  pol_map : P -> chunk_map;
  pol_init_ok cap : 0 <= cap -> pol_wf ∅ (pol_init cap) /\ pol_map (pol_init cap) = ∅;
  pol_get_ok E s k : pol_wf E s -> pol_get k s = pol_map s !! k;
  pol_insert_ok E s k c : pol_wf E s -> pol_map s !! k = None -> chunk_ref c <> 0 ->
    wp (pol_insert k c) (fun _ s' => pol_wf E s' /\ pol_map s' = <[k := c]> (pol_map s)) s;
  pol_remove_ok E s k : pol_wf E s -> is_Some (pol_map s !! k) ->
    wp (pol_remove k) (fun _ s' => pol_wf (E ∖ {[k]}) s' /\ pol_map s' = delete k (pol_map s)) s;
  pol_touch_ok E s ks : pol_wf E s ->
    wp (pol_touch ks) (fun _ s' => pol_wf E s' /\ pol_map s' = pol_map s) s;
  pol_evict_ok E s n prot : pol_wf E s -> E = idle_keys (pol_map s) -> 0 <= n ->
    wp (pol_evict n prot) (fun r s' =>
      match r with
      | None => s' = s /\ Z.of_nat (size (E ∖ prot)) < n
      | Some l => evicted_from (pol_map s) n prot l (pol_map s') /\ pol_wf (idle_keys (pol_map s')) s'
      end) s;
  pol_clear_ok E s : pol_wf E s -> wp pol_clear (fun _ s' => pol_wf ∅ s' /\ pol_map s' = ∅) s;
  pol_mark_ok E s k : pol_wf E s -> is_Some (pol_map s !! k) ->
    wp (pol_mark_evictable k) (fun _ s' => pol_wf ({[k]} ∪ E) s' /\ pol_map s' = pol_map s) s;
  pol_unmark_ok E s k : pol_wf E s -> k ∈ E ->
    wp (pol_mark_non_evictable k) (fun _ s' => pol_wf (E ∖ {[k]}) s' /\ pol_map s' = pol_map s) s;
  pol_write_ok E s k c : pol_wf E s -> is_Some (pol_map s !! k) ->
    pol_wf E (pol_write k c s) /\ pol_map (pol_write k c s) = <[k := c]> (pol_map s)
}.

(** ** Dictionaries as maps *)

Definition od_map (d : list (OffloadKey * ChunkStatus)) : chunk_map := list_to_map d.

Lemma od_map_get d k : od_map d !! k = od_get k d.
Proof.
  unfold od_map. induction d as [|[k' c] d IH]; cbn; [done|]. case_decide as E.
  - subst. by rewrite lookup_insert_eq.
  - by rewrite lookup_insert_ne.
Qed.

Lemma od_map_set d k c : od_map (od_set k c d) = <[k := c]> (od_map d).
Proof.
  apply map_eq. intros k'. rewrite od_map_get, od_get_set. case_decide as E.
  - subst. by rewrite lookup_insert_eq.
  - by rewrite lookup_insert_ne, od_map_get.
Qed.

Lemma od_map_pop d k : NoDup d.*1 -> od_map (od_pop k d) = delete k (od_map d).
Proof.
  intros Hd. apply map_eq. intros k'. rewrite od_map_get, od_get_pop by done. case_decide as E.
  - subst. by rewrite lookup_delete_eq.
  - by rewrite lookup_delete_ne, od_map_get.
Qed.

Lemma NoDup_take_l {A} n (l : list A) : NoDup l -> NoDup (take n l).
Proof. rewrite <- (take_drop n l) at 1. by intros (? & _)%NoDup_app. Qed.

(** ** LRU *)

Record lru_wf (E : gset OffloadKey) (s : LRUCachePolicy) : Prop := {
  lw_chunks : NoDup (chunks s).*1;
  lw_list : NoDup (evictable_chunks s).*1;
  lw_marks : forall k, k ∈ (evictable_chunks s).*1 <-> k ∈ E;
  lw_stored : forall k, k ∈ E -> k ∈ (chunks s).*1
}.

Lemma odu_get k (d : list (OffloadKey * unit)) : k ∈ d.*1 -> od_get k d = Some tt.
Proof.
  intros Hk. destruct (od_get k d) as [[]|] eqn:Eg; [done|]. by apply od_get_None in Eg.
Qed.

Lemma elem_of_od_set {V} (k k' : OffloadKey) (v : V) d : k' ∈ (od_set k v d).*1 <-> k' = k \/ k' ∈ d.*1.
Proof.
  destruct (decide (k ∈ d.*1)) as [Hk|Hk].
  - rewrite od_set_keys_in by done. naive_solver.
  - rewrite od_set_absent, fmap_app, elem_of_app by done. cbn. rewrite list_elem_of_singleton. naive_solver.
Qed.

Lemma lru_touch_ok E s ks : lru_wf E s ->
  wp (lru_touch ks) (fun _ s' => lru_wf E s' /\ chunks s' = chunks s) s.
Proof.
  intros Hs. unfold lru_touch.
  apply (wp_for_each (fun _ s' => lru_wf E s' /\ chunks s' = chunks s)); [done|].
  intros done_ k rest s' _ [[W1 W2 W3 W4] Hc]. apply wp_bind, wp_get.
  destruct (od_mem k (evictable_chunks s')) eqn:Em; [|by apply wp_ret].
  apply od_mem_get in Em as [v Hv]. unfold od_move_to_end at 1. apply wp_bind.
  eapply wp_of_option; [by rewrite Hv|]. apply wp_modify. split; [|done].
  assert (od_pop k (evictable_chunks s') ++ [(k, v)] ≡ₚ evictable_chunks s') as Hp.
  { apply (od_move_keys k). unfold od_move_to_end. by rewrite Hv. }
  split; cbn; [done|by rewrite Hp|intros k'; by rewrite Hp|done].
Qed.

(** The candidates are the first [n] unprotected keys of the list. *)
Lemma lru_candidates_spec n prot s : forall es,
  (forall k, k ∈ es.*1 -> exists c, od_get k (chunks s) = Some c /\ chunk_ref c = 0) ->
  exists l, lru_candidates n prot s es = inr l /\
    l.*1 = take n (filter (fun k => k ∉ prot) es.*1) /\
    forall k c, (k, c) ∈ l -> od_get k (chunks s) = Some c /\ chunk_ref c = 0.
Proof.
  induction n as [|n IHn]; intros es Hes.
  { exists []. split_and!; [by destruct es|done|by intros ? ? ?%elem_of_nil]. }
  induction es as [|[k u] es IH].
  { exists []. split_and!; [done|done|by intros ? ? ?%elem_of_nil]. }
  cbn [lru_candidates fmap list_fmap fst]. rewrite filter_cons. destruct (decide (k ∈ prot)) as [Hp|Hp].
  - rewrite decide_False by tauto. apply IH. intros k' Hk'. apply Hes. by right.
  - rewrite decide_True by done. destruct (Hes k) as (c & Hc & Hr); [by left|]. rewrite Hc, Hr. cbn [Z.eqb negb].
    destruct (IHn es) as (l & -> & Hl & Hall); [intros k' Hk'; apply Hes; by right|].
    exists ((k, c) :: l). split_and!; [done|cbn; by rewrite Hl|].
    intros k' c' [[= -> ->]|Hin]%elem_of_cons; [done|by apply Hall].
Qed.

(** Deleting the candidates. *)
Lemma lru_delete_loop E s (l : list (OffloadKey * ChunkStatus)) :
  lru_wf E s -> NoDup l.*1 -> (forall k, k ∈ l.*1 -> k ∈ E) ->
  wp (for_each l (fun kc =>
        s ← get;
        _ ← of_option KeyError (od_get kc.1 (evictable_chunks s));
        _ ← of_option KeyError (od_get kc.1 (chunks s));
        modify (fun s => mkLRU (od_pop kc.1 (evictable_chunks s)) (od_pop kc.1 (chunks s)))))
    (fun _ s' => lru_wf (E ∖ list_to_set l.*1) s' /\
       (forall k, od_get k (chunks s') = if decide (k ∈ l.*1) then None else od_get k (chunks s))) s.
Proof.
  intros Hs Hnd Hin.
  eapply wp_mono; [apply (wp_for_each (fun d s' => lru_wf (E ∖ list_to_set d.*1) s' /\
    (forall k, od_get k (chunks s') = if decide (k ∈ d.*1) then None else od_get k (chunks s))))|done].
  - split_and!.
    + cbn. by rewrite difference_empty_L.
    + intros k. rewrite decide_False; [done|]. cbn. by intros ?%elem_of_nil.
  - intros d [k c] rest s' El ([W1 W2 W3 W4] & Hg). cbn [fst].
    assert (k ∈ E /\ k ∉ d.*1) as [HkE Hkd].
    { subst l. rewrite fmap_app, fmap_cons in Hnd. apply NoDup_app in Hnd as (_ & Hdis & _). split.
      - apply Hin. rewrite fmap_app, elem_of_app, fmap_cons. right. by left.
      - intros Hk. apply (Hdis k Hk). by left. }
    assert (k ∈ (evictable_chunks s').*1) as Hke by (apply W3; set_solver).
    apply wp_bind, wp_get. apply wp_bind. eapply wp_of_option; [by apply odu_get|].
    apply wp_bind. assert (is_Some (od_get k (chunks s'))) as [c' Hc'].
    { apply od_mem_get. apply bool_decide_eq_true, W4. set_solver. }
    eapply wp_of_option; [done|]. apply wp_modify. split_and!; cbn [evictable_chunks chunks].
    + split; cbn.
      * by apply od_pop_NoDup.
      * by apply od_pop_NoDup.
      * intros k'. rewrite elem_of_od_pop, W3, fmap_app, list_to_set_app_L by done. cbn. set_solver.
      * intros k'. rewrite fmap_app, list_to_set_app_L. cbn. intros Hk'. rewrite elem_of_od_pop by done.
        split; [apply W4; set_solver|set_solver].
    + intros k'. rewrite od_get_pop, Hg by done. rewrite fmap_app. cbn.
      destruct (decide (k' = k)) as [->|Hne].
      * rewrite decide_True; [done|]. rewrite elem_of_app, list_elem_of_singleton. by right.
      * destruct (decide (k' ∈ d.*1)); [rewrite decide_True|rewrite decide_False]; try done;
          rewrite elem_of_app, list_elem_of_singleton; tauto.
Qed.

Lemma lru_evict_ok E s n prot :
  lru_wf E s -> E = idle_keys (od_map (chunks s)) -> 0 <= n ->
  wp (lru_evict n prot) (fun r s' =>
    match r with
    | None => s' = s /\ Z.of_nat (size (E ∖ prot)) < n
    | Some l => evicted_from (od_map (chunks s)) n prot l (od_map (chunks s')) /\
        lru_wf (idle_keys (od_map (chunks s'))) s' /\
        l.*1 = take (Z.to_nat n) (filter (fun k => k ∉ prot) (evictable_chunks s).*1)
    end) s.
Proof.
  intros Hs HE Hn. pose proof Hs as [W1 W2 W3 W4]. unfold lru_evict. destruct (Z.eqb_spec n 0) as [->|Hn0].
  { apply wp_ret. split_and!; [|by rewrite <- HE|done]. split_and!; [done|apply NoDup_nil_2| |].
    - by intros k c ?%elem_of_nil.
    - intros k. rewrite decide_False; [done|]. apply not_elem_of_nil. }
  apply wp_bind, wp_get.
  assert (forall k, k ∈ E <-> exists c, od_get k (chunks s) = Some c /\ chunk_ref c = 0) as Hidle.
  { intros k. rewrite HE, elem_of_idle. by setoid_rewrite od_map_get. }
  destruct (lru_candidates_spec (Z.to_nat n) prot s (evictable_chunks s)) as (l & -> & Hl & Hall).
  { intros k Hk. by apply Hidle, W3. }
  set (fs := filter (fun k => k ∉ prot) (evictable_chunks s).*1) in *.
  assert (NoDup fs) as Hfs by by apply NoDup_filter.
  assert (Z.of_nat (size (E ∖ prot)) = zlen fs) as Hsz.
  { unfold zlen. f_equal. rewrite <- (size_list_to_set (C := gset OffloadKey) fs) by done. f_equal.
    apply set_eq. intros k. rewrite elem_of_list_to_set. unfold fs. rewrite list_elem_of_filter, W3. set_solver. }
  assert (zlen l = Z.min n (zlen fs)) as Hzl.
  { unfold zlen at 1. rewrite <- (length_fmap fst), Hl, length_take. unfold zlen. lia. }
  destruct (Z.ltb_spec (zlen l) n) as [Hlt|Hge]; [apply wp_ret; split; [done|lia]|].
  assert (NoDup l.*1) as Hnd by (rewrite Hl; by apply NoDup_take_l).
  assert (forall k, k ∈ l.*1 -> k ∈ E /\ k ∉ prot) as Hin.
  { intros k Hk. rewrite Hl in Hk. apply elem_of_take in Hk as (i & Hi & _).
    apply list_elem_of_lookup_2 in Hi. unfold fs in Hi. apply list_elem_of_filter in Hi as [Hi1 Hi2].
    split; [by apply W3|done]. }
  apply wp_bind. eapply wp_mono; [apply (lru_delete_loop E s l Hs Hnd); naive_solver|].
  intros [] s' [Hw Hg]. apply wp_ret.
  assert (evicted_from (od_map (chunks s)) n prot l (od_map (chunks s'))) as Hev.
  { split_and!; [lia|done| |].
    - intros k c Hkc. rewrite od_map_get. split; [|by apply Hall]. apply Hin, list_elem_of_fmap. by exists (k, c).
    - intros k. by rewrite !od_map_get, Hg. }
  split_and!; [done| |done].
  assert (idle_keys (od_map (chunks s')) = E ∖ list_to_set l.*1) as ->; [|done].
  apply set_eq. intros k. rewrite elem_of_idle, elem_of_difference, elem_of_list_to_set, Hidle.
  rewrite od_map_get, Hg. case_decide; naive_solver.
Qed.

#[export] Program Instance lru_spec : CachePolicySpec LRUCachePolicy := {
  pol_wf := lru_wf;
  pol_map := fun s => od_map (chunks s)
}.
Next Obligation.
  intros cap _. split; [|done]. split; cbn; try apply NoDup_nil_2; set_solver.
Qed.
Next Obligation. intros E s k _. symmetry. apply od_map_get. Qed.
Next Obligation.
  intros E s k c [W1 W2 W3 W4] Hk Hc. cbn. unfold lru_insert. apply wp_bind, wp_modify.
  rewrite (proj2 (Z.eqb_neq _ _) Hc). apply wp_ret. split; [|apply od_map_set].
  split; cbn; [by apply od_set_NoDup|done|done|]. intros k' Hk'. apply elem_of_od_set. right. by apply W4.
Qed.
Next Obligation.
  intros E s k [W1 W2 W3 W4] [c Hk]. cbn. unfold lru_remove. apply wp_bind, wp_get.
  rewrite od_map_get in Hk. apply wp_bind. eapply wp_of_option; [done|]. apply wp_modify.
  split; [|by apply od_map_pop].
  split; cbn; [by apply od_pop_NoDup|by apply od_pop_NoDup| |].
  - intros k'. rewrite elem_of_od_pop, W3 by done. set_solver.
  - intros k' Hk'. rewrite elem_of_od_pop by done. split; [apply W4|]; set_solver.
Qed.
Next Obligation.
  intros E s ks Hs. cbn. eapply wp_mono; [by apply (lru_touch_ok E)|]. intros [] s' [? Hc]. by rewrite Hc.
Qed.
Next Obligation.
  intros E s n prot Hs HE Hn. cbn. eapply wp_mono; [by apply (lru_evict_ok E)|].
  intros [l|] s'; naive_solver.
Qed.
Next Obligation.
  intros E s _. cbn. split; [|done]. split; cbn; try apply NoDup_nil_2; set_solver.
Qed.
Next Obligation.
  intros E s k [W1 W2 W3 W4] [c Hk]. cbn. split; [|done].
  rewrite od_map_get in Hk. split; cbn; [done|by apply od_set_NoDup| |].
  - intros k'. rewrite elem_of_od_set, W3. set_solver.
  - intros k' [->%elem_of_singleton|Hk']%elem_of_union; [by eapply od_get_key|by apply W4].
Qed.
Next Obligation.
  intros E s k [W1 W2 W3 W4] Hk. cbn. unfold lru_mark_non_evictable. apply wp_bind, wp_get.
  apply wp_bind. eapply wp_of_option; [by apply odu_get, W3|]. apply wp_modify. split; [|done].
  split; cbn; [done|by apply od_pop_NoDup| |].
  - intros k'. rewrite elem_of_od_pop, W3 by done. set_solver.
  - intros k' Hk'. apply W4. set_solver.
Qed.
Next Obligation.
  intros E s k c [W1 W2 W3 W4] [c0 Hk]. cbn. split; [|apply od_map_set].
  split; cbn; [by apply od_set_NoDup|done|done|]. intros k' Hk'. apply elem_of_od_set. right. by apply W4.
Qed.

(** ** ARC: selection *)

Definition evictable_entry (prot : gset OffloadKey) (kc : OffloadKey * ChunkStatus) : Prop :=
  chunk_ref kc.2 = 0 /\ kc.1 ∉ prot.
#[global] Instance evictable_entry_dec prot kc : Decision (evictable_entry prot kc).
Proof. unfold evictable_entry. apply _. Defined.

Abbreviation evictables prot it := (filter (evictable_entry prot) it).

Lemma next_candidate_spec prot it :
  match evictables prot it with
  | [] => next_candidate prot it = (None, [])
  | e :: r => exists it', next_candidate prot it = (Some e, it') /\ evictables prot it' = r
  end.
Proof.
  induction it as [|[k c] it IH]; [done|]. rewrite filter_cons. cbn [next_candidate].
  unfold evictable_entry at 1. cbn [fst snd]. destruct (decide _) as [[Hr Hp]|Hn].
  - rewrite Hr, bool_decide_eq_false_2 by done. cbn. by exists it.
  - replace ((chunk_ref c =? 0) && negb (bool_decide (k ∈ prot))) with false; [done|].
    symmetry. apply not_true_is_false. rewrite andb_true_iff, Z.eqb_eq, negb_true_iff, bool_decide_eq_false. tauto.
Qed.

(** The selected entries are the oldest evictable ones of each list. *)
Lemma arc_select_spec prot target : forall n v it1 it2,
  match arc_select n prot target v it1 it2 with
  | None => (length (evictables prot it1) + length (evictables prot it2) < n)%nat
  | Some cs => length cs = n /\ exists r1 r2,
      evictables prot it1 = (filter (fun c => c.2 = true) cs).*1 ++ r1 /\
      evictables prot it2 = (filter (fun c => c.2 = false) cs).*1 ++ r2
  end.
Proof.
  induction n as [|n IH]; intros v it1 it2; cbn [arc_select].
  { split; [done|]. by exists (evictables prot it1), (evictables prot it2). }
  pose proof (next_candidate_spec prot it1) as N1. pose proof (next_candidate_spec prot it2) as N2.
  (* taking from T2, or from T1 when T2 is exhausted *)
  assert (forall i1 r1, evictables prot i1 = r1 ->
    match
      (let '(entry2, i2) := next_candidate prot it2 in
       match entry2 with
       | Some e => rest ← arc_select n prot target v i1 i2; Some ((e, false) :: rest)
       | None =>
           let '(entry3, i1') := next_candidate prot i1 in
           match entry3 with
           | None => None
           | Some e => rest ← arc_select n prot target (v - 1) i1' i2; Some ((e, true) :: rest)
           end
       end)
    with
    | None => (length r1 + length (evictables prot it2) < S n)%nat
    | Some cs => length cs = S n /\ exists q1 q2,
        r1 = (filter (fun c => c.2 = true) cs).*1 ++ q1 /\
        evictables prot it2 = (filter (fun c => c.2 = false) cs).*1 ++ q2
    end) as Hrest.
  { intros i1 r1 <-. destruct (evictables prot it2) as [|e2 l2] eqn:E2.
    - rewrite N2. pose proof (next_candidate_spec prot i1) as N3.
      destruct (evictables prot i1) as [|e3 l3] eqn:E3; [rewrite N3; cbn; lia|].
      destruct N3 as (i1' & -> & E3'). specialize (IH (v - 1) i1' []). cbn [mbind option_bind].
      destruct (arc_select n prot target (v - 1) i1' []) as [cs|]; cbn in IH |- *; rewrite E3' in IH; [|lia].
      destruct IH as (Hl & q1 & q2 & H1 & H2). split; [lia|]. exists q1, q2. by rewrite H1.
    - destruct N2 as (it2' & -> & E2'). specialize (IH v i1 it2'). cbn [mbind option_bind].
      destruct (arc_select n prot target v i1 it2') as [cs|]; cbn in IH |- *; rewrite E2' in IH; [|lia].
      destruct IH as (Hl & q1 & q2 & H1 & H2). split; [lia|]. exists q1, q2. by rewrite H2. }
  destruct (target <=? v).
  - destruct (evictables prot it1) as [|e1 l1] eqn:E1.
    + rewrite N1. exact (Hrest [] [] eq_refl).
    + destruct N1 as (it1' & -> & E1'). specialize (IH (v - 1) it1' it2). cbn [mbind option_bind].
      destruct (arc_select n prot target (v - 1) it1' it2) as [cs|]; cbn in IH |- *; rewrite E1' in IH; [|lia].
      destruct IH as (Hl & q1 & q2 & H1 & H2). split; [lia|]. exists q1, q2. by rewrite H1.
  - exact (Hrest it1 _ eq_refl).
Qed.

(** ** ARC: the four lists *)

(** Distinct keys in each list, and no key in two of them. *)
Record arc_lists (s : ARCCachePolicy) : Prop := {
  al_t1 : NoDup (t1 s).*1;
  al_t2 : NoDup (t2 s).*1;
  al_b1 : NoDup (b1 s).*1;
  al_b2 : NoDup (b2 s).*1;
  al_t12 : forall k, k ∈ (t1 s).*1 -> k ∉ (t2 s).*1;
  al_ghost1 : forall k, k ∈ (b1 s).*1 -> k ∉ (t1 s).*1 /\ k ∉ (t2 s).*1 /\ k ∉ (b2 s).*1;
  al_ghost2 : forall k, k ∈ (b2 s).*1 -> k ∉ (t1 s).*1 /\ k ∉ (t2 s).*1
}.

Record arc_wf (s : ARCCachePolicy) : Prop := {
  aw_lists : arc_lists s;
  aw_cap : 0 <= cache_capacity s;
  aw_target : (0 <= target_t1_size s <= inject_Z (cache_capacity s))%Q;
  aw_b1 : zlen (b1 s) <= cache_capacity s;
  aw_b2 : zlen (b2 s) <= cache_capacity s
}.

Definition arc_map (s : ARCCachePolicy) : chunk_map := od_map (t1 s ++ t2 s).

Lemma arc_map_get s k : arc_map s !! k = arc_get k s.
Proof. unfold arc_map, arc_get. by rewrite od_map_get, od_get_app. Qed.

Lemma perm_keys {V} (d d' : list (OffloadKey * V)) k : d ≡ₚ d' -> k ∈ d.*1 <-> k ∈ d'.*1.
Proof. intros Hp. by rewrite Hp. Qed.

Lemma move_default {V} k (d : list (OffloadKey * V)) :
  od_mem k d = true -> default [] (od_move_to_end k d) ≡ₚ d.
Proof.
  intros [v Hv]%od_mem_get. unfold od_move_to_end. rewrite Hv. cbn.
  rewrite (od_pop_perm k v d Hv) at 2. by rewrite Permutation_app_comm.
Qed.

(** Reordering the lists changes nothing. *)
Lemma arc_lists_perm s s' :
  arc_lists s -> t1 s' ≡ₚ t1 s -> t2 s' ≡ₚ t2 s -> b1 s' ≡ₚ b1 s -> b2 s' ≡ₚ b2 s ->
  arc_lists s' /\ arc_map s' = arc_map s.
Proof.
  intros [A1 A2 A3 A4 A5 A6 A7] P1 P2 P3 P4. split.
  - split; [by rewrite P1|by rewrite P2|by rewrite P3|by rewrite P4| | |]; intros k.
    + rewrite P1, P2. apply A5.
    + rewrite P1, P2, P3, P4. apply A6.
    + rewrite P1, P2, P4. apply A7.
  - apply map_eq. intros k. rewrite !arc_map_get. unfold arc_get.
    by rewrite <- (od_get_perm k (t1 s) (t1 s')), <- (od_get_perm k (t2 s) (t2 s')).
Qed.

Lemma qmin_bounds a b lo hi : (lo <= a)%Q -> (lo <= b)%Q -> (b <= hi)%Q -> (lo <= qmin a b <= hi)%Q.
Proof.
  intros H1 H2 H3. unfold qmin. destruct (Qle_bool a b) eqn:E; [|done]. split; [done|].
  apply Qle_bool_iff in E. by eapply Qle_trans.
Qed.

Lemma qmax_bounds a b lo hi : (a <= hi)%Q -> (lo <= b)%Q -> (b <= hi)%Q -> (lo <= qmax a b <= hi)%Q.
Proof.
  intros H1 H2 H3. unfold qmax. destruct (Qle_bool a b) eqn:E; [done|]. split; [|done].
  apply Qle_trans with b; [done|]. apply Qlt_le_weak, Qnot_le_lt. intros Hle.
  apply Qle_bool_iff in Hle. by rewrite Hle in E.
Qed.

Lemma arc_delta_pos {A} (a b : list A) : (0 <= arc_delta a b)%Q.
Proof.
  unfold arc_delta, qmax. destruct (Qle_bool 1 _) eqn:E; [|done].
  apply Qle_bool_iff in E. by apply Qle_trans with 1%Q.
Qed.

Lemma arc_touch_key_ok k s : arc_wf s -> arc_wf (arc_touch_key k s) /\ arc_map (arc_touch_key k s) = arc_map s.
Proof.
  intros [Hl Hc Ht H1 H2]. unfold arc_touch_key.
  assert (forall s', arc_lists s' /\ arc_map s' = arc_map s -> cache_capacity s' = cache_capacity s ->
    (0 <= target_t1_size s' <= inject_Z (cache_capacity s))%Q ->
    zlen (b1 s') = zlen (b1 s) -> zlen (b2 s') = zlen (b2 s) -> arc_wf s' /\ arc_map s' = arc_map s) as Hwrap.
  { intros s' [Hl' Hm] Hc' Ht' Hb1 Hb2. split; [|done]. split; rewrite ?Hc', ?Hb1, ?Hb2; done. }
  destruct (od_get k (t1 s)) as [c|] eqn:E1; [destruct (is_ready c)|].
  - apply Hwrap; try done. pose proof Hl as [A1 A2 A3 A4 A5 A6 A7].
    pose proof (od_get_key _ _ _ E1) as Hk1. pose proof (A5 k Hk1) as Hk2. split.
    + split; cbn; try done; [by apply od_pop_NoDup|by apply od_set_NoDup| | |]; intros k'.
      * rewrite elem_of_od_pop, elem_of_od_set by done. naive_solver.
      * rewrite elem_of_od_pop, elem_of_od_set by done. naive_solver.
      * rewrite elem_of_od_pop, elem_of_od_set by done. naive_solver.
    + apply map_eq. intros k'. rewrite !arc_map_get. unfold arc_get. cbn.
      rewrite od_get_pop, od_get_set by done. destruct (decide (k' = k)) as [->|]; [by rewrite E1|done].
  - apply Hwrap; try done. apply arc_lists_perm; cbn; try done.
    rewrite (od_pop_perm k c (t1 s) E1) at 2. by rewrite Permutation_app_comm.
  - destruct (od_mem k (t2 s)) eqn:E2; [|destruct (od_mem k (b1 s)) eqn:E3; [|destruct (od_mem k (b2 s)) eqn:E4]].
    + apply Hwrap; try done. apply arc_lists_perm; cbn; try done. by apply move_default.
    + pose proof (move_default _ _ E3) as Hp.
      apply Hwrap; cbn; try done; [apply arc_lists_perm; cbn; try done| |by unfold zlen; rewrite Hp].
      apply qmin_bounds; [|by change 0%Q with (inject_Z 0); rewrite <- Zle_Qle|apply Qle_refl].
      rewrite <- (Qplus_0_l 0). apply Qplus_le_compat; [apply Ht|apply arc_delta_pos].
    + pose proof (move_default _ _ E4) as Hp.
      apply Hwrap; cbn; try done; [apply arc_lists_perm; cbn; try done| |by unfold zlen; rewrite Hp].
      apply qmax_bounds; [|apply Qle_refl|by change 0%Q with (inject_Z 0); rewrite <- Zle_Qle].
      apply Qle_trans with (target_t1_size s); [|apply Ht].
      rewrite <- (Qplus_0_r (target_t1_size s)) at 2. unfold Qminus. apply Qplus_le_compat; [apply Qle_refl|].
      apply (Qopp_le_compat 0), arc_delta_pos.
    + done.
Qed.

Lemma arc_touch_ok s ks : arc_wf s -> wp (arc_touch ks) (fun _ s' => arc_wf s' /\ arc_map s' = arc_map s) s.
Proof.
  intros Hs. unfold arc_touch. apply (wp_for_each (fun _ s' => arc_wf s' /\ arc_map s' = arc_map s)); [done|].
  intros d k rest s' _ [Hw Hm]. apply wp_modify. destruct (arc_touch_key_ok k s' Hw) as [? ->]. done.
Qed.

(** ** ARC: eviction *)

(** The list an entry was selected from still has it. *)
Definition from_list (s : ARCCachePolicy) (c : OffloadKey * ChunkStatus * bool) : Prop :=
  od_get c.1.1 (if c.2 then t1 s else t2 s) = Some c.1.2.

Lemma arc_apply_one s c :
  arc_lists s -> from_list s c ->
  arc_lists (arc_apply s c) /\
  (forall k, od_get k (t1 (arc_apply s c)) = if decide (k = c.1.1) then None else od_get k (t1 s)) /\
  (forall k, od_get k (t2 (arc_apply s c)) = if decide (k = c.1.1) then None else od_get k (t2 s)).
Proof.
  intros [A1 A2 A3 A4 A5 A6 A7] Hf. destruct c as [[key ch] fl]. unfold from_list in Hf. cbn [fst snd] in *.
  destruct fl; cbn; pose proof (od_get_key _ _ _ Hf) as Hk; (split; [|split]).
  - split; cbn; try done; [by apply od_pop_NoDup|by apply od_set_NoDup| | |]; intros k;
      rewrite ?elem_of_od_set, ?elem_of_od_pop by done; naive_solver.
  - intros k. by apply od_get_pop.
  - intros k. case_decide as E; [subst; apply od_get_None; by apply A5|done].
  - split; cbn; try done; [by apply od_pop_NoDup|by apply od_set_NoDup| | |]; intros k;
      rewrite ?elem_of_od_set, ?elem_of_od_pop by done; naive_solver.
  - intros k. case_decide as E; [subst; apply od_get_None; by intros ?%A5|done].
  - intros k. by apply od_get_pop.
Qed.

Lemma arc_apply_fixed s c :
  cache_capacity (arc_apply s c) = cache_capacity s /\ target_t1_size (arc_apply s c) = target_t1_size s.
Proof. destruct c as [[key ch] []]; done. Qed.

Lemma arc_apply_loop cs : forall s,
  arc_lists s -> NoDup (cs.*1).*1 -> (forall c, c ∈ cs -> from_list s c) ->
  let s' := foldl arc_apply s cs in
  arc_lists s' /\ cache_capacity s' = cache_capacity s /\ target_t1_size s' = target_t1_size s /\
  (forall k, od_get k (t1 s') = if decide (k ∈ (cs.*1).*1) then None else od_get k (t1 s)) /\
  (forall k, od_get k (t2 s') = if decide (k ∈ (cs.*1).*1) then None else od_get k (t2 s)).
Proof.
  induction cs as [|c cs IH]; intros s Hs Hnd Hf s'.
  { subst s'. cbn. split_and!; try done; intros k; rewrite decide_False; try done; apply not_elem_of_nil. }
  cbn [fmap list_fmap] in Hnd. apply NoDup_cons in Hnd as [Hc Hnd].
  destruct (arc_apply_one s c Hs) as (Hl1 & G1 & G2); [apply Hf; by left|].
  destruct (arc_apply_fixed s c) as [F1 F2].
  destruct (IH (arc_apply s c) Hl1 Hnd) as (L & C & T & H1 & H2).
  { intros c' Hc'. pose proof (Hf c' ltac:(by right)) as Hf'. unfold from_list in *.
    assert (c'.1.1 <> c.1.1) as Hne.
    { intros E. apply Hc. rewrite <- E. apply list_elem_of_fmap. exists c'.1. split; [done|].
      apply list_elem_of_fmap. by exists c'. }
    destruct (c'.2); [rewrite G1|rewrite G2]; by rewrite decide_False. }
  subst s'. cbn [foldl]. split_and!; [done|congruence|congruence| |].
  - intros k. rewrite H1, G1. cbn [fmap list_fmap]. clear -Hc.
    destruct (decide (k ∈ (cs.*1).*1)), (decide (k = c.1.1)); subst;
      first [rewrite decide_True by (rewrite elem_of_cons; tauto)|rewrite decide_False by (rewrite elem_of_cons; tauto)]; done.
  - intros k. rewrite H2, G2. cbn [fmap list_fmap]. clear -Hc.
    destruct (decide (k ∈ (cs.*1).*1)), (decide (k = c.1.1)); subst;
      first [rewrite decide_True by (rewrite elem_of_cons; tauto)|rewrite decide_False by (rewrite elem_of_cons; tauto)]; done.
Qed.

Lemma trim_ghost_spec cap g : 0 <= cap -> NoDup g.*1 ->
  NoDup (trim_ghost cap g).*1 /\ zlen (trim_ghost cap g) <= cap /\ forall k, k ∈ (trim_ghost cap g).*1 -> k ∈ g.*1.
Proof.
  intros Hc Hg. unfold trim_ghost. set (n := Z.to_nat (zlen g - cap)). split_and!.
  - rewrite fmap_drop. rewrite <- (take_drop n g.*1) in Hg. by apply NoDup_app in Hg as (_ & _ & ?).
  - unfold zlen in *. rewrite length_drop. lia.
  - intros k Hk. rewrite fmap_drop in Hk. rewrite <- (take_drop n g.*1), elem_of_app. by right.
Qed.

Lemma arc_evictables s prot : arc_lists s ->
  Z.of_nat (size (idle_keys (arc_map s) ∖ prot)) =
  zlen (evictables prot (t1 s)) + zlen (evictables prot (t2 s)).
Proof.
  intros [A1 A2 A3 A4 A5 A6 A7]. set (l := evictables prot (t1 s) ++ evictables prot (t2 s)).
  rewrite <- zlen_app. fold l. unfold zlen. f_equal. rewrite <- (length_fmap fst).
  assert (forall d k, NoDup d.*1 -> k ∈ (evictables prot d).*1 <->
    exists c, od_get k d = Some c /\ chunk_ref c = 0 /\ k ∉ prot) as Hin.
  { intros d k Hd. rewrite list_elem_of_fmap. split.
    - intros ([k' c] & -> & [[? ?] Hx]%list_elem_of_filter). exists c. cbn in *. split; [by apply od_elem_get|done].
    - intros (c & Hg & Hr & Hp). exists (k, c). split; [done|]. apply list_elem_of_filter.
      split; [done|by apply od_get_elem]. }
  assert (NoDup l.*1) as Hnd.
  { unfold l. rewrite fmap_app. apply NoDup_app. split_and!.
    - eapply sublist_NoDup; [exact A1|]. apply fmap_sublist. apply sublist_filter.
    - intros k (c & Hg & _)%Hin (c' & Hg' & _)%Hin; try done. apply (A5 k); by eapply od_get_key.
    - eapply sublist_NoDup; [exact A2|]. apply fmap_sublist. apply sublist_filter. }
  rewrite <- (size_list_to_set (C := gset OffloadKey) l.*1) by done. f_equal. apply set_eq. intros k.
  rewrite elem_of_list_to_set, elem_of_difference, elem_of_idle, arc_map_get. unfold l.
  rewrite fmap_app, elem_of_app, !Hin by done. unfold arc_get.
  destruct (od_get k (t1 s)) as [c|] eqn:E1.
  - assert (od_get k (t2 s) = None) as -> by (apply od_get_None, A5; by eapply od_get_key). naive_solver.
  - naive_solver.
Qed.

Lemma flag_split {A} (cs : list (A * bool)) :
  cs.*1 ≡ₚ (filter (fun c => c.2 = true) cs).*1 ++ (filter (fun c => c.2 = false) cs).*1.
Proof.
  induction cs as [|[a b] cs IH]; [done|]. rewrite !filter_cons. cbn [snd]. destruct b.
  - rewrite decide_True, decide_False by done. cbn. by rewrite IH.
  - rewrite decide_False, decide_True by done. cbn. rewrite IH. by rewrite Permutation_middle.
Qed.

(** An eviction of ARC: atomic, exactly [n] idle chunks, each the oldest left
    in its list; the ghost lists take the evicted keys and stay bounded. *)
Lemma arc_evict_ok s n prot :
  arc_wf s -> 0 <= n ->
  wp (arc_evict n prot) (fun r s' =>
    match r with
    | None => s' = s /\ Z.of_nat (size (idle_keys (arc_map s) ∖ prot)) < n
    | Some l => evicted_from (arc_map s) n prot l (arc_map s') /\ arc_wf s' /\
        exists l1 l2 r1 r2, l ≡ₚ l1 ++ l2 /\
          evictables prot (t1 s) = l1 ++ r1 /\ evictables prot (t2 s) = l2 ++ r2
    end) s.
Proof.
  intros Hs Hn. pose proof Hs as [Hl Hc Ht Hb1 Hb2]. unfold arc_evict. destruct (Z.eqb_spec n 0) as [->|Hn0].
  { apply wp_ret. split_and!; [|done|by exists [], [], (evictables prot (t1 s)), (evictables prot (t2 s))].
    split_and!; [done|apply NoDup_nil_2|by intros k c ?%elem_of_nil|].
    intros k. rewrite decide_False; [done|]. apply not_elem_of_nil. }
  apply wp_bind, wp_get.
  pose proof (arc_select_spec prot (Qfloor (target_t1_size s)) (Z.to_nat n) (zlen (t1 s)) (t1 s) (t2 s)) as Hsel.
  pose proof (arc_evictables s prot Hl) as Hsz.
  destruct (arc_select _ _ _ _ _ _) as [cs|]; [|apply wp_ret; split; [done|unfold zlen in Hsz; lia]].
  destruct Hsel as (Hlen & r1 & r2 & R1 & R2). pose proof Hl as [A1 A2 A3 A4 A5 A6 A7].
  pose proof (flag_split cs) as Hsplit.
  set (l1 := (filter (fun c => c.2 = true) cs).*1) in *. set (l2 := (filter (fun c => c.2 = false) cs).*1) in *.
  assert (forall e, e ∈ l1 -> evictable_entry prot e /\ od_get e.1 (t1 s) = Some e.2) as M1.
  { intros [k c] He. assert ((k, c) ∈ evictables prot (t1 s)) as Hx by (rewrite R1, elem_of_app; by left).
    apply list_elem_of_filter in Hx as [? Hx]. split; [done|by apply od_elem_get]. }
  assert (forall e, e ∈ l2 -> evictable_entry prot e /\ od_get e.1 (t2 s) = Some e.2) as M2.
  { intros [k c] He. assert ((k, c) ∈ evictables prot (t2 s)) as Hx by (rewrite R2, elem_of_app; by left).
    apply list_elem_of_filter in Hx as [? Hx]. split; [done|by apply od_elem_get]. }
  assert (NoDup (cs.*1).*1) as Hnd.
  { rewrite Hsplit, fmap_app. apply NoDup_app. split_and!.
    - apply (sublist_NoDup _ (t1 s).*1 A1). apply fmap_sublist. transitivity (evictables prot (t1 s));
        [rewrite R1; by apply sublist_inserts_r|apply sublist_filter].
    - intros k (e & -> & He)%list_elem_of_fmap (e' & E & He')%list_elem_of_fmap.
      apply (A5 e.1); [|rewrite E]; eapply od_get_key; [by apply M1|by apply M2].
    - apply (sublist_NoDup _ (t2 s).*1 A2). apply fmap_sublist. transitivity (evictables prot (t2 s));
        [rewrite R2; by apply sublist_inserts_r|apply sublist_filter]. }
  assert (forall c, c ∈ cs -> evictable_entry prot c.1 /\ from_list s c) as Hfrom.
  { intros [e fl] He. unfold from_list. cbn [fst snd]. destruct fl.
    - apply M1. apply list_elem_of_fmap. exists (e, true). split; [done|]. by apply list_elem_of_filter.
    - apply M2. apply list_elem_of_fmap. exists (e, false). split; [done|]. by apply list_elem_of_filter. }
  apply wp_bind, wp_modify, wp_bind, wp_modify, wp_ret.
  destruct (arc_apply_loop cs s Hl Hnd) as (L & C & T & G1 & G2); [intros c Hcs; by apply Hfrom|].
  set (s1 := foldl arc_apply s cs) in *. pose proof L as [B1 B2 B3 B4 B5 B6 B7].
  destruct (trim_ghost_spec (cache_capacity s1) (b1 s1)) as (T1 & T2 & T3); [by rewrite C|done|].
  destruct (trim_ghost_spec (cache_capacity s1) (b2 s1)) as (U1 & U2 & U3); [by rewrite C|done|].
  split_and!.
  - split_and!; [unfold zlen; rewrite length_fmap; lia|done| |].
    + intros k c Hkc. apply list_elem_of_fmap in Hkc as ([e fl] & E & He). cbn in E. subst e.
      destruct (Hfrom _ He) as [[Hr Hp] Hfl]. unfold from_list in Hfl. cbn in *. split_and!; try done.
      rewrite arc_map_get. unfold arc_get. destruct fl; [by rewrite Hfl|].
      assert (od_get k (t1 s) = None) as ->; [|done]. apply od_get_None. intros Hk%A5.
      apply Hk. by eapply od_get_key.
    + intros k. rewrite !arc_map_get. unfold arc_get. cbn. rewrite G1, G2. by case_decide.
  - rewrite C in T1, T2, T3, U1, U2, U3. split; cbn; rewrite ?C, ?T; try done.
    split; cbn; try done; intros k Hk.
    + destruct (B6 k (T3 k Hk)) as (? & ? & Hb). split_and!; try done. intros Hk2. by apply Hb, U3.
    + by apply B7, U3.
  - by exists l1, l2, r1, r2.
Qed.

#[export] Program Instance arc_spec : CachePolicySpec ARCCachePolicy := {
  pol_wf := fun _ s => arc_wf s;
  pol_map := arc_map
}.
Next Obligation.
  intros cap Hc. split; [|done]. split; cbn; try done; try lia.
  - split; cbn; try apply NoDup_nil_2; set_solver.
  - split; [apply Qle_refl|]. change 0%Q with (inject_Z 0). by rewrite <- Zle_Qle.
Qed.
Next Obligation. intros E s k _. symmetry. apply arc_map_get. Qed.
Next Obligation.
  intros E s k c [[A1 A2 A3 A4 A5 A6 A7] Hcap Ht Hb1 Hb2] Hk Hc.
  unfold pol_insert, arc_policy, arc_insert. apply wp_modify.
  rewrite arc_map_get in Hk. unfold arc_get in Hk. destruct (od_get k (t1 s)) eqn:E1; [done|].
  apply od_get_None in E1 as N1. apply od_get_None in Hk as N2. split.
  - assert (forall g : list (OffloadKey * unit), zlen (od_pop k g) <= zlen g) as Hz.
    { intros g. clear. unfold zlen. induction g as [|[k' u] g IH]; cbn; [lia|]. case_decide; cbn; lia. }
    split; cbn; try done; [|by etrans; [apply Hz|]|by etrans; [apply Hz|]].
    split; cbn; try done; try (by apply od_set_NoDup); try (by apply od_pop_NoDup); intros k';
      rewrite ?elem_of_od_set, ?elem_of_od_pop by done; naive_solver.
  - apply map_eq. intros k'. rewrite arc_map_get. unfold arc_get. cbn. rewrite od_get_set.
    destruct (decide (k' = k)) as [->|Hne]; [by rewrite lookup_insert_eq|].
    rewrite lookup_insert_ne by done. by rewrite arc_map_get.
Qed.
Next Obligation.
  intros E s k [[A1 A2 A3 A4 A5 A6 A7] Hcap Ht Hb1 Hb2] [c Hk].
  unfold pol_remove, arc_policy, arc_remove. apply wp_modify.
  assert (forall s', od_get k (t1 s') = None -> od_get k (t2 s') = None ->
    (forall k', k' <> k -> arc_get k' s' = arc_get k' s) -> arc_map s' = delete k (arc_map s)) as Hm.
  { intros s' H1 H2 H3. apply map_eq. intros k'. rewrite arc_map_get. destruct (decide (k' = k)) as [->|Hne].
    - rewrite lookup_delete_eq. unfold arc_get. by rewrite H1.
    - rewrite lookup_delete_ne by done. rewrite arc_map_get. by apply H3. }
  destruct (od_get k (t1 s)) as [c1|] eqn:E1; split.
  - split; cbn; try done. split; cbn; try done; [by apply od_pop_NoDup| | |]; intros k';
      rewrite ?elem_of_od_pop by done; naive_solver.
  - apply Hm; cbn; [by rewrite od_get_pop, decide_True| |].
    + apply od_get_None, A5. by eapply od_get_key.
    + intros k' Hne. unfold arc_get. cbn. by rewrite od_get_pop, decide_False.
  - split; cbn; try done. split; cbn; try done; [by apply od_pop_NoDup| | |]; intros k';
      rewrite ?elem_of_od_pop by done; naive_solver.
  - apply Hm; cbn; [done|by rewrite od_get_pop, decide_True|].
    intros k' Hne. unfold arc_get. cbn. by rewrite od_get_pop, decide_False.
Qed.
Next Obligation. intros E s ks Hs. by apply arc_touch_ok. Qed.
Next Obligation.
  intros E s n prot Hs -> Hn. cbn. eapply wp_mono; [by apply arc_evict_ok|]. intros [l|] s'; naive_solver.
Qed.
Next Obligation.
  intros E s [_ Hcap _ _ _]. cbn. split; [|done]. split; cbn; try done.
  - split; cbn; try apply NoDup_nil_2; set_solver.
  - split; [apply Qle_refl|]. change 0%Q with (inject_Z 0). by rewrite <- Zle_Qle.
Qed.
Next Obligation. intros E s k Hs _. done. Qed.
Next Obligation. intros E s k Hs _. done. Qed.
Next Obligation.
  intros E s k c [[A1 A2 A3 A4 A5 A6 A7] Hcap Ht Hb1 Hb2] [c0 Hk].
  unfold pol_write, arc_policy.
  rewrite arc_map_get in Hk. unfold arc_get in Hk. destruct (od_get k (t1 s)) as [c1|] eqn:E1; split.
  - pose proof (od_set_keys_in k c (t1 s) (od_get_key _ _ _ E1)) as Hks.
    split; cbn; try done. split; cbn; rewrite ?Hks; done.
  - apply map_eq. intros k'. rewrite arc_map_get. unfold arc_get. cbn. rewrite od_get_set.
    destruct (decide (k' = k)) as [->|Hne]; [by rewrite lookup_insert_eq|].
    rewrite lookup_insert_ne by done. by rewrite arc_map_get.
  - pose proof (od_set_keys_in k c (t2 s) (od_get_key _ _ _ Hk)) as Hks.
    split; cbn; try done. split; cbn; rewrite ?Hks; done.
  - apply map_eq. intros k'. rewrite arc_map_get. unfold arc_get. cbn. rewrite od_get_set.
    destruct (decide (k' = k)) as [->|Hne]; [by rewrite lookup_insert_eq, E1|].
    rewrite lookup_insert_ne by done. by rewrite arc_map_get.
Qed.
