(* ===== verification/OffloadSpec.v ===== *)
(** * Correctness of the CPU offloading manager

    Proved once, against the policy interface: whatever policy is plugged in,
    no two stored chunks share a slot, no slot is lost, the counters are exact,
    and a chunk in use is never evicted. *)
From Stdlib Require Import ZArith QArith Qround Lia.
From stdpp Require Import base tactics gmap strings numbers option list.
From S2P Require Import Prelude OrderedDict Offload OffloadPolicies.

Local Open Scope Z_scope.

(** ** The stored chunks as a bag *)

Definition values (m : chunk_map) : list ChunkStatus := (map_to_list m).*2.

Lemma values_insert m k c : m !! k = None -> values (<[k := c]> m) ≡ₚ c :: values m.
Proof. intros Hk. unfold values. by rewrite map_to_list_insert. Qed.

Lemma values_delete m k c : m !! k = Some c -> values m ≡ₚ c :: values (delete k m).
Proof.
  intros Hk. rewrite <- (insert_delete_id m k c Hk) at 1. apply values_insert, lookup_delete_eq.
Qed.

Lemma values_write m k c c' : m !! k = Some c ->
  exists rest, values m ≡ₚ c :: rest /\ values (<[k := c']> m) ≡ₚ c' :: rest.
Proof.
  intros Hk. exists (values (delete k m)). split; [by apply values_delete|].
  rewrite <- insert_delete_eq. apply values_insert, lookup_delete_eq.
Qed.

Lemma values_evict l : forall m m',
  NoDup l.*1 -> (forall k c, (k, c) ∈ l -> m !! k = Some c) ->
  (forall k, m' !! k = if decide (k ∈ l.*1) then None else m !! k) -> values m ≡ₚ l.*2 ++ values m'.
Proof.
  induction l as [|[k c] l IH]; intros m m' Hnd Hin Hm; cbn in *.
  - assert (m' = m) as ->; [|done]. apply map_eq. intros k. rewrite Hm, decide_False; [done|apply not_elem_of_nil].
  - apply NoDup_cons in Hnd as [Hk Hnd]. rewrite (values_delete m k c) by (apply Hin; by left).
    f_equiv. apply (IH (delete k m) m' Hnd).
    + intros k' c' Hk'. rewrite lookup_delete_ne; [apply Hin; by right|].
      intros ->. apply Hk, list_elem_of_fmap. by exists (k', c').
    + intros k'. rewrite Hm. destruct (decide (k' = k)) as [->|Hne].
      * rewrite decide_True by by left. rewrite lookup_delete_eq. by destruct (decide _).
      * rewrite lookup_delete_ne by done. destruct (decide (k' ∈ l.*1)).
        -- by rewrite decide_True by by right.
        -- rewrite decide_False; [done|]. rewrite elem_of_cons. tauto.
Qed.

(** How many chunks have the given reference count. *)
Definition with_ref (r : Z) (l : list ChunkStatus) : Z := zlen (filter (fun c => chunk_ref c = r) l).

Lemma with_ref_cons r c l : with_ref r (c :: l) = (if decide (chunk_ref c = r) then 1 else 0) + with_ref r l.
Proof. unfold with_ref. rewrite filter_cons. destruct (decide _); [rewrite zlen_cons|]; lia. Qed.

Lemma with_ref_app r l1 l2 : with_ref r (l1 ++ l2) = with_ref r l1 + with_ref r l2.
Proof. unfold with_ref. by rewrite filter_app, zlen_app. Qed.

#[export] Instance with_ref_perm r : Proper ((≡ₚ) ==> (=)) (with_ref r).
Proof. intros l1 l2 Hl. unfold with_ref, zlen. by rewrite Hl. Qed.

Lemma with_ref_all r r' l : (forall c, c ∈ l -> chunk_ref c = r') ->
  with_ref r l = if decide (r' = r) then zlen l else 0.
Proof.
  induction l as [|c l IH]; intros Hl; [by destruct (decide _)|]. rewrite with_ref_cons, IH.
  - rewrite (Hl c) by by left. rewrite zlen_cons. destruct (decide _); lia.
  - intros c' Hc'. apply Hl. by right.
Qed.

Lemma idle_size m : Z.of_nat (size (idle_keys m)) = with_ref 0 (values m).
Proof.
  unfold idle_keys, with_ref, values, zlen. f_equal. rewrite size_dom, <- length_map_to_list, map_filter_alt.
  rewrite map_to_list_to_map.
  2:{ eapply sublist_NoDup; [apply (NoDup_fst_map_to_list m)|]. apply fmap_sublist, sublist_filter. }
  induction (map_to_list m) as [|[k c] l IH]; [done|]. cbn [fmap list_fmap snd]. rewrite !filter_cons.
  cbn [snd]. destruct (decide _); cbn; by rewrite IH.
Qed.

Lemma wrap32_small z : - 2 ^ 31 <= z < 2 ^ 31 -> wrap32 z = z.
Proof. intros Hz. unfold wrap32. rewrite Z.mod_small; lia. Qed.

Section Manager.
Context {P : Type} `{CachePolicySpec P}.
Implicit Types (m : CPUOffloadingManager P).

Abbreviation stored m := (pol_map (policy m)).

(** ** The invariant

    [hand]: slots taken from the pool and not yet stored, or taken from the
    cache and not yet returned; [d]: stores not yet counted. *)
Record off_inv_at (hand : list Z) (d : Z) m : Prop := {
  oi_wf : pol_wf (idle_keys (stored m)) (policy m);
  oi_slots : (chunk_id <$> values (stored m)) ++ hand ++ free_list m ≡ₚ seqZ 0 (num_allocated_chunks m);
  oi_alloc : 0 <= num_allocated_chunks m <= num_chunks m;
  oi_idle : num_evictable_cache_chunks m = Z.of_nat (size (idle_keys (stored m)));
  oi_pending : num_write_pending_chunks m + d = with_ref (-1) (values (stored m));
  oi_refs : forall k c, stored m !! k = Some c -> -1 <= chunk_ref c < 2 ^ 31
}.
Abbreviation off_inv := (off_inv_at [] 0).

(** Only the policy and the two counters differ. *)
Definition only_policy m m' : Prop := exists s ev w, m' = set_policy s (set_counters ev w m).

Lemma only_policy_refl m : only_policy m m.
Proof. exists (policy m), (num_evictable_cache_chunks m), (num_write_pending_chunks m). by destruct m. Qed.

Lemma only_policy_trans m1 m2 m3 : only_policy m1 m2 -> only_policy m2 m3 -> only_policy m1 m3.
Proof. intros (s & e & w & ->) (s' & e' & w' & ->). by exists s', e', w'. Qed.

(** One entry is rewritten, keeping its slot. *)
Lemma off_inv_write hand d m k c c' s' ev w :
  off_inv_at hand d m -> stored m !! k = Some c -> chunk_id c' = chunk_id c -> -1 <= chunk_ref c' < 2 ^ 31 ->
  pol_map s' = <[k := c']> (stored m) -> pol_wf (idle_keys (pol_map s')) s' ->
  ev - (if decide (chunk_ref c' = 0) then 1 else 0) =
    num_evictable_cache_chunks m - (if decide (chunk_ref c = 0) then 1 else 0) ->
  w - (if decide (chunk_ref c' = -1) then 1 else 0) =
    num_write_pending_chunks m - (if decide (chunk_ref c = -1) then 1 else 0) ->
  off_inv_at hand d (set_policy s' (set_counters ev w m)).
Proof.
  intros [I1 I2 I3 I4 I5 I6] Hk Hid Hr Hm Hw Hev Hwp.
  destruct (values_write (stored m) k c c' Hk) as (rest & V1 & V2).
  split; cbn; try done; rewrite ?Hm.
  - rewrite V2. rewrite V1 in I2. cbn in *. by rewrite Hid.
  - rewrite idle_size in *. rewrite V2, with_ref_cons. rewrite V1, with_ref_cons in I4. lia.
  - rewrite V2, with_ref_cons. rewrite V1, with_ref_cons in I5. lia.
  - intros k' c0. destruct (decide (k' = k)) as [->|Hne].
    + rewrite lookup_insert_eq. by intros [= <-].
    + rewrite lookup_insert_ne by done. apply I6.
Qed.

Lemma idle_write mp k c' : is_Some (mp !! k) ->
  idle_keys (<[k := c']> mp) =
    if decide (chunk_ref c' = 0) then {[k]} ∪ idle_keys mp else idle_keys mp ∖ {[k]}.
Proof.
  intros _. apply set_eq. intros k'.
  destruct (decide (chunk_ref c' = 0)); rewrite elem_of_idle, ?elem_of_union, ?elem_of_difference, elem_of_singleton, elem_of_idle;
    (destruct (decide (k' = k)) as [->|Hne]; [rewrite lookup_insert_eq|rewrite lookup_insert_ne by done]); naive_solver.
Qed.

(** ** Pins *)

Definition bump (n : Z) (c : ChunkStatus) : ChunkStatus := mkChunk (chunk_ref c + n) (chunk_id c).

Lemma pin_ok hand d m k c :
  off_inv_at hand d m -> stored m !! k = Some c -> 0 <= chunk_ref c -> chunk_ref c + 1 < 2 ^ 31 ->
  wp (pin k c) (fun _ m' => off_inv_at hand d m' /\ stored m' = <[k := bump 1 c]> (stored m) /\ only_policy m m') m.
Proof.
  intros Hi Hk Hr Hb. pose proof Hi as [I1 I2 I3 I4 I5 I6].
  assert (set_chunk_ref (chunk_ref c + 1) c = bump 1 c) as Hbump
    by (unfold set_chunk_ref, bump; rewrite wrap32_small by lia; done).
  assert (is_Some (stored m !! k)) as Hsome by by eexists.
  (* the write, after the marks are in place *)
  assert (forall s ev, pol_wf (idle_keys (<[k := bump 1 c]> (stored m))) s -> pol_map s = stored m ->
    ev = num_evictable_cache_chunks m - (if decide (chunk_ref c = 0) then 1 else 0) ->
    wp (modify (fun m => set_policy (pol_write k (set_chunk_ref (chunk_ref c + 1) c) (policy m)) m))
      (fun _ m' => off_inv_at hand d m' /\ stored m' = <[k := bump 1 c]> (stored m) /\ only_policy m m')
      (set_policy s (set_counters ev (num_write_pending_chunks m) m))) as Hwrite.
  { intros s ev Hs Hm Hev. apply wp_modify. cbn. rewrite Hbump.
    destruct (pol_write_ok _ s k (bump 1 c) Hs) as [W1 W2]; [by rewrite Hm|]. rewrite Hm in W2.
    split_and!; [|done|by exists (pol_write k (bump 1 c) s), ev, (num_write_pending_chunks m)].
    apply (off_inv_write hand d m k c (bump 1 c) (pol_write k (bump 1 c) s) ev (num_write_pending_chunks m)); try done; cbn.
    - lia.
    - by rewrite W2.
    - rewrite (decide_False (P := chunk_ref c + 1 = 0)) by lia. lia.
    - rewrite !decide_False by lia. lia. }
  assert (chunk_ref (bump 1 c) <> 0) as Hne by (cbn; lia).
  unfold pin. apply wp_bind. destruct (Z.eqb_spec (chunk_ref c) 0) as [Hz|Hnz].
  - apply wp_bind, wp_zoom. eapply wp_mono; [apply (pol_unmark_ok _ _ k I1)|].
    { apply elem_of_idle. by exists c. }
    intros [] s [S1 S2]. apply wp_bind, wp_modify, wp_bind, wp_get, wp_assert.
    { apply Z.leb_le. cbn. rewrite I4.
      assert (size (idle_keys (stored m)) <> 0%nat) as Hn0.
      { intros E%size_empty_inv. assert (k ∈ idle_keys (stored m)) by (apply elem_of_idle; by exists c). set_solver. }
      lia. }
    apply (Hwrite s (num_evictable_cache_chunks m - 1)); [|done|].
    + rewrite idle_write by done. by rewrite decide_False.
    + by rewrite decide_True.
  - apply wp_ret.
    assert (m = set_policy (policy m) (set_counters (num_evictable_cache_chunks m) (num_write_pending_chunks m) m)) as Em
      by by destruct m.
    specialize (Hwrite (policy m) (num_evictable_cache_chunks m)). rewrite <- Em in Hwrite.
    apply Hwrite; [|done|].
    + rewrite idle_write by done. rewrite decide_False by done.
      assert (idle_keys (stored m) ∖ {[k]} = idle_keys (stored m)) as ->; [|done].
      apply set_eq. intros k'. rewrite elem_of_difference, elem_of_singleton.
      split; [by intros []|]. intros Hk'. split; [done|]. intros ->.
      apply elem_of_idle in Hk' as (c' & Hc' & ?). rewrite Hk in Hc'. by injection Hc' as <-.
    + rewrite decide_False by done. lia.
Qed.

Lemma unpin_ok m k c :
  off_inv m -> stored m !! k = Some c -> 0 < chunk_ref c ->
  wp (unpin k) (fun _ m' => off_inv m' /\ stored m' = <[k := bump (-1) c]> (stored m) /\ only_policy m m') m.
Proof.
  intros Hi Hk Hr. pose proof Hi as [I1 I2 I3 I4 I5 I6]. pose proof (I6 k c Hk) as Hc.
  assert (set_chunk_ref (chunk_ref c - 1) c = bump (-1) c) as Hbump
    by (unfold set_chunk_ref, bump; rewrite wrap32_small by lia; f_equal; lia).
  assert (is_Some (stored m !! k)) as Hsome by by eexists.
  assert (k ∉ idle_keys (stored m)) as Hnk.
  { intros (c' & Hc' & ?)%elem_of_idle. rewrite Hk in Hc'. injection Hc' as <-. lia. }
  unfold unpin. apply wp_bind, wp_get, wp_bind. rewrite (pol_get_ok _ _ k I1). eapply wp_of_option; [done|].
  apply wp_bind, wp_assert; [by apply Z.ltb_lt|]. rewrite Hbump. apply wp_bind, wp_modify.
  destruct (pol_write_ok _ (policy m) k (bump (-1) c) I1 Hsome) as [W1 W2].
  set (s1 := pol_write k (bump (-1) c) (policy m)) in *.
  destruct (Z.eqb_spec (chunk_ref (bump (-1) c)) 0) as [Hz|Hnz].
  - apply wp_bind, wp_modify, wp_zoom. cbn.
    eapply wp_mono; [apply (pol_mark_ok _ s1 k W1); by rewrite W2, lookup_insert_eq|].
    intros [] s2 [S1 S2]. rewrite W2 in S2.
    split_and!; [|done|by exists s2, (num_evictable_cache_chunks m + 1), (num_write_pending_chunks m)].
    apply (off_inv_write [] 0 m k c (bump (-1) c) s2 (num_evictable_cache_chunks m + 1) (num_write_pending_chunks m));
      try done.
    + cbn in *. lia.
    + rewrite S2, idle_write by done. by rewrite decide_True.
    + rewrite decide_True by done. rewrite decide_False by (cbn in *; lia). lia.
    + rewrite !decide_False by (cbn in *; lia). lia.
  - apply wp_ret.
    split_and!; [|done|by exists s1, (num_evictable_cache_chunks m), (num_write_pending_chunks m); destruct m].
    assert (set_policy s1 m = set_policy s1 (set_counters (num_evictable_cache_chunks m) (num_write_pending_chunks m) m))
      as -> by by destruct m.
    apply (off_inv_write [] 0 m k c (bump (-1) c)); try done.
    + cbn in *. lia.
    + rewrite W2, idle_write by done. rewrite decide_False by done.
      assert (idle_keys (stored m) ∖ {[k]} = idle_keys (stored m)) as -> by set_solver. done.
    + rewrite !decide_False by (cbn in *; lia). lia.
    + rewrite !decide_False by (cbn in *; lia). lia.
Qed.

(** ** Loads *)

(** The references of the chunks in [ks] are moved by [n]. *)
Definition bumped (n : Z) (ks : list OffloadKey) (mp mp' : chunk_map) : Prop :=
  forall k, mp' !! k = if decide (k ∈ ks) then bump n <$> mp !! k else mp !! k.

Lemma bumped_nil n mp : bumped n [] mp mp.
Proof. intros k. rewrite decide_False; [done|apply not_elem_of_nil]. Qed.

Lemma bumped_snoc n ks k c mp mp' :
  bumped n ks mp mp' -> k ∉ ks -> mp !! k = Some c -> bumped n (ks ++ [k]) mp (<[k := bump n c]> mp').
Proof.
  intros Hb Hk Hc k'. destruct (decide (k' = k)) as [->|Hne].
  - rewrite lookup_insert_eq, decide_True, Hc; [done|]. rewrite elem_of_app, list_elem_of_singleton. by right.
  - rewrite lookup_insert_ne, Hb by done. destruct (decide (k' ∈ ks)).
    + rewrite decide_True; [done|]. rewrite elem_of_app. by left.
    + rewrite decide_False; [done|]. rewrite elem_of_app, list_elem_of_singleton. tauto.
Qed.

Lemma bumped_other n ks mp mp' k : bumped n ks mp mp' -> k ∉ ks -> mp' !! k = mp !! k.
Proof. intros Hb Hk. by rewrite Hb, decide_False. Qed.

(** Every key is stored, ready, and has room for one more reference. *)
Definition loadable m (k : OffloadKey) : Prop :=
  exists c, stored m !! k = Some c /\ 0 <= chunk_ref c /\ chunk_ref c + 1 < 2 ^ 31.

Lemma NoDup_middle_notin {A} (pre : list A) x post : NoDup (pre ++ x :: post) -> x ∉ pre.
Proof. intros (_ & Hd & _)%NoDup_app Hx. apply (Hd x Hx). by left. Qed.

Lemma prepare_load_ok m keys :
  off_inv m -> NoDup keys -> Forall (loadable m) keys ->
  wp (prepare_load keys) (fun ids m' => off_inv m' /\ bumped 1 keys (stored m) (stored m') /\ only_policy m m' /\
    Forall2 (fun k id => exists c, stored m !! k = Some c /\ chunk_id c = id) keys ids) m.
Proof.
  intros Hi Hnd Hall. unfold prepare_load.
  apply (wp_fold_m (fun d ids m' => off_inv m' /\ bumped 1 d (stored m) (stored m') /\ only_policy m m' /\
    Forall2 (fun k id => exists c, stored m !! k = Some c /\ chunk_id c = id) d ids)).
  - split_and!; [done|apply bumped_nil|apply only_policy_refl|by apply Forall2_nil].
  - intros d k post ids m1 E (Hi1 & Hb & Ho & Hf). subst keys.
    pose proof (NoDup_middle_notin _ _ _ Hnd) as Hk. apply Forall_app in Hall as [_ [(c & Hc & Hc0 & Hc1) _]%Forall_cons].
    assert (stored m1 !! k = Some c) as Hcm by by rewrite (bumped_other _ _ _ _ _ Hb Hk).
    apply wp_bind, wp_get, wp_bind. rewrite (pol_get_ok _ _ k (oi_wf _ _ _ Hi1)). eapply wp_of_option; [done|].
    apply wp_bind, wp_assert; [by apply Z.leb_le|]. apply wp_bind.
    eapply wp_mono; [by apply (pin_ok [] 0 m1 k c)|]. intros [] m2 (Hi2 & Hm2 & Ho2). apply wp_ret.
    split_and!; [done|rewrite Hm2; by apply bumped_snoc|by eapply only_policy_trans|].
    apply Forall2_app; [done|]. apply Forall2_cons. split; [by exists c|done].
Qed.

Lemma unpin_all_ok m keys :
  off_inv m -> NoDup keys -> Forall (fun k => exists c, stored m !! k = Some c /\ 0 < chunk_ref c) keys ->
  wp (for_each keys unpin) (fun _ m' => off_inv m' /\ bumped (-1) keys (stored m) (stored m') /\ only_policy m m') m.
Proof.
  intros Hi Hnd Hall.
  apply (wp_for_each (fun d m' => off_inv m' /\ bumped (-1) d (stored m) (stored m') /\ only_policy m m')).
  - split_and!; [done|apply bumped_nil|apply only_policy_refl].
  - intros d k post m1 E (Hi1 & Hb & Ho). subst keys.
    pose proof (NoDup_middle_notin _ _ _ Hnd) as Hk. apply Forall_app in Hall as [_ [(c & Hc & Hc0) _]%Forall_cons].
    assert (stored m1 !! k = Some c) as Hcm by by rewrite (bumped_other _ _ _ _ _ Hb Hk).
    eapply wp_mono; [by apply (unpin_ok m1 k c)|]. intros [] m2 (Hi2 & Hm2 & Ho2).
    split_and!; [done|rewrite Hm2; by apply bumped_snoc|by eapply only_policy_trans].
Qed.

(** The keys that are ready. *)
Definition ready_key m (k : OffloadKey) : Prop :=
  match stored m !! k with Some c => 0 <= chunk_ref c | None => False end.
#[global] Instance ready_key_dec m k : Decision (ready_key m k).
Proof. unfold ready_key. destruct (stored m !! k); apply _. Defined.

Lemma reserve_hits_ok m keys :
  off_inv m -> NoDup keys -> (forall k c, k ∈ keys -> stored m !! k = Some c -> chunk_ref c + 1 < 2 ^ 31) ->
  wp (reserve_hits keys) (fun r m' => r = filter (ready_key m) keys /\ off_inv m' /\
    bumped 1 r (stored m) (stored m') /\ only_policy m m') m.
Proof.
  intros Hi Hnd Hb. unfold reserve_hits.
  apply (wp_fold_m (fun d r m' => r = filter (ready_key m) d /\ off_inv m' /\
    bumped 1 r (stored m) (stored m') /\ only_policy m m')).
  - split_and!; [done|done|apply bumped_nil|apply only_policy_refl].
  - intros d k post r m1 E (-> & Hi1 & Hbm & Ho). subst keys.
    pose proof (NoDup_middle_notin _ _ _ Hnd) as Hk.
    assert (k ∉ filter (ready_key m) d) as Hkf by (rewrite list_elem_of_filter; tauto).
    assert (stored m1 !! k = stored m !! k) as Es by by rewrite (bumped_other _ _ _ _ _ Hbm Hkf).
    apply wp_bind, wp_get. rewrite (pol_get_ok _ _ k (oi_wf _ _ _ Hi1)), Es. rewrite filter_app, filter_cons.
    change (filter (ready_key m) []) with (@nil OffloadKey).
    destruct (decide (ready_key m k)) as [Hrk|Hrk]; unfold ready_key in Hrk.
    + destruct (stored m !! k) as [c|] eqn:Ec; [|done]. unfold is_ready. rewrite (proj2 (Z.leb_le _ _) Hrk). cbn [negb].
      apply wp_bind. eapply wp_mono; [apply (pin_ok [] 0 m1 k c); [done|done|done|apply (Hb k c); [|done]; rewrite elem_of_app; right; by left]|].
      intros [] m2 (Hi2 & Hm2 & Ho2). apply wp_ret.
      split_and!; [done|done|rewrite Hm2; by apply bumped_snoc|by eapply only_policy_trans].
    + rewrite app_nil_r. destruct (stored m !! k) as [c|] eqn:Ec; [|by apply wp_ret].
      unfold is_ready. rewrite (proj2 (Z.leb_gt _ _)) by lia. by apply wp_ret.
Qed.

(** ** Slots *)

(** The attributes set at construction. *)
Definition same_limits m m' : Prop :=
  num_chunks m' = num_chunks m /\ store_threshold m' = store_threshold m /\ max_tracker_size m' = max_tracker_size m /\
  (counts m = None -> counts m' = None).

Lemma same_limits_trans m1 m2 m3 : same_limits m1 m2 -> same_limits m2 m3 -> same_limits m1 m3.
Proof. intros (? & ? & ? & ?) (? & ? & ? & ?). split_and!; auto; congruence. Qed.

Lemma free_all_ok d m (l : list (OffloadKey * ChunkStatus)) :
  off_inv_at (chunk_id <$> l.*2) d m ->
  wp (for_each l (fun kc => free_chunk kc.2)) (fun _ m' => off_inv_at [] d m' /\
    m' = set_alloc (num_allocated_chunks m) (free_list m ++ (chunk_id <$> l.*2)) m) m.
Proof.
  intros [I1 I2 I3 I4 I5 I6].
  eapply wp_mono; [apply (wp_for_each (fun pre m' =>
    m' = set_alloc (num_allocated_chunks m) (free_list m ++ (chunk_id <$> pre.*2)) m))|].
  - cbn. rewrite app_nil_r. by destruct m.
  - intros pre [k c] post m1 _ ->. unfold free_chunk. apply wp_modify. unfold set_alloc. cbn.
    by rewrite !fmap_app, <- app_assoc.
  - intros [] m' ->. split; [|done]. split; cbn; try done.
    rewrite <- I2. f_equiv. by rewrite Permutation_app_comm.
Qed.

(** Making room takes exactly the missing number of idle chunks, or nothing. *)
Lemma make_room_ok m n prot :
  off_inv m ->
  wp (make_room n prot) (fun r m' =>
    match r with
    | None => m' = m /\ Z.of_nat (size (idle_keys (stored m) ∖ prot)) < n
    | Some ev => off_inv m' /\ same_limits m m' /\ num_allocated_chunks m' = num_allocated_chunks m /\
        exists l, ev = l.*1 /\ evicted_from (stored m) (Z.max 0 n) prot l (stored m') /\
          free_list m' = free_list m ++ (chunk_id <$> l.*2)
    end) m.
Proof.
  intros Hi. pose proof Hi as [I1 I2 I3 I4 I5 I6]. unfold make_room.
  destruct (Z.leb_spec n 0) as [Hn|Hn].
  { apply wp_ret. split_and!; try done. exists []. rewrite Z.max_l by done. split_and!; [done| |by rewrite app_nil_r].
    split_and!; [done|apply NoDup_nil_2|by intros k c ?%elem_of_nil|].
    intros k. rewrite decide_False; [done|apply not_elem_of_nil]. }
  rewrite Z.max_r by lia. apply wp_bind, wp_get.
  destruct (Z.ltb_spec (num_evictable_cache_chunks m) n) as [Hlt|Hge].
  { apply wp_ret. split; [done|]. rewrite I4 in Hlt.
    assert (size (idle_keys (stored m) ∖ prot) <= size (idle_keys (stored m)))%nat
      by (apply subseteq_size; set_solver). lia. }
  apply wp_bind, wp_zoom. eapply wp_mono; [apply (pol_evict_ok _ _ n prot I1 eq_refl); lia|].
  intros [l|] s'; [|intros [-> Hsz]; apply wp_ret; split; [by destruct m|done]].
  intros [(Hzl & Hnd & Hin & Hm) Hw].
  assert (values (stored m) ≡ₚ l.*2 ++ values (pol_map s')) as Hv.
  { apply values_evict; [done| |done]. intros k c Hkc. by apply Hin. }
  assert (forall c, c ∈ l.*2 -> chunk_ref c = 0) as Hl0.
  { intros c ([k c'] & -> & Hkc)%list_elem_of_fmap. by apply (Hin k c'). }
  apply wp_bind, wp_modify, wp_bind, wp_get, wp_bind, wp_assert.
  { apply Z.leb_le. cbn. lia. }
  apply wp_bind. set (m1 := set_counters _ _ _).
  assert (off_inv_at (chunk_id <$> l.*2) 0 m1) as Hi1.
  { split; cbn; try done.
    - rewrite Hv in I2. rewrite fmap_app in I2. rewrite <- I2. cbn. rewrite app_assoc.
      f_equiv. by rewrite Permutation_app_comm.
    - rewrite idle_size. rewrite idle_size, Hv, with_ref_app in I4.
      rewrite (with_ref_all 0 0 l.*2 Hl0), decide_True in I4 by done.
      unfold zlen in *. rewrite length_fmap in I4. lia.
    - rewrite Hv, with_ref_app, (with_ref_all (-1) 0 l.*2 Hl0), decide_False in I5 by done. lia.
    - intros k c Hk. rewrite Hm in Hk. destruct (decide _); [done|]. by eapply I6. }
  eapply wp_mono; [by apply (free_all_ok 0 m1)|]. intros [] m2 [Hi2 ->]. apply wp_ret.
  split_and!; try done. exists l. split_and!; done.
Qed.

Lemma pop_free_ok n : forall m,
  (n <= length (free_list m))%nat ->
  wp (pop_free n) (fun ids m' =>
    m' = set_alloc (num_allocated_chunks m) (take (length (free_list m) - n) (free_list m)) m /\
    length ids = n /\
    free_list m ≡ₚ ids ++ take (length (free_list m) - n) (free_list m)) m.
Proof.
  induction n as [|n IH]; intros m Hn; cbn [pop_free].
  { apply wp_ret. rewrite Nat.sub_0_r, firstn_all. split_and!; [by destruct m|done|done]. }
  apply wp_bind, wp_get. destruct (exists_last (l := free_list m)) as (f & id & Ef); [by intros E; rewrite E in Hn; cbn in Hn; lia|].
  apply wp_bind. eapply wp_of_option; [by rewrite Ef, last_snoc|]. apply wp_bind, wp_modify, wp_bind.
  set (m1 := set_alloc (num_allocated_chunks m) (removelast (free_list m)) m).
  assert (free_list m1 = f) as Ef1
    by (change (free_list m1) with (removelast (free_list m)); rewrite Ef; apply removelast_last).
  assert (length (free_list m) = S (length f)) as Elen by (rewrite Ef, length_app; cbn; lia).
  eapply wp_mono; [apply (IH m1); rewrite Ef1; lia|]. intros ids m2 (-> & Hl & Hp). apply wp_ret.
  rewrite Ef1 in *. rewrite Elen. cbn [Nat.sub].
  assert (take (length f - n) (free_list m) = take (length f - n) f) as Et.
  { rewrite Ef, take_app_le by lia. done. }
  rewrite Et. split_and!; [done|cbn; lia|]. rewrite Ef, Hp at 1. cbn.
  rewrite Permutation_app_comm. done.
Qed.

Lemma allocate_chunks_ok m keys :
  off_inv m -> zlen keys <= get_num_free_chunks m ->
  wp (allocate_chunks keys) (fun new m' => zlen new = zlen keys /\ (forall c, c ∈ new -> chunk_ref c = -1) /\
    off_inv_at (chunk_id <$> new) 0 m' /\ policy m' = policy m /\ same_limits m m') m.
Proof.
  intros [I1 I2 I3 I4 I5 I6] Hle. unfold allocate_chunks, get_num_free_chunks in *. apply wp_bind, wp_get.
  pose proof (zlen_nonneg keys) as Hk0. pose proof (zlen_nonneg (free_list m)) as Hf0. set (nf := Z.min (zlen keys) (num_chunks m - num_allocated_chunks m)).
  assert (0 <= nf <= zlen keys) as Hnf by (unfold nf; lia).
  apply wp_bind, wp_assert; [apply Z.leb_le; unfold nf; lia|]. apply wp_bind, wp_modify, wp_bind.
  set (m1 := set_alloc (num_allocated_chunks m + Z.max 0 nf) (free_list m) m).
  eapply wp_mono; [apply (pop_free_ok (Z.to_nat (zlen keys - nf)) m1)|].
  { change (free_list m1) with (free_list m).
    assert (zlen keys - nf <= zlen (free_list m)) as Hz by (unfold nf; lia). unfold zlen in Hz at 2. lia. }
  intros ids m2 (-> & Hl & Hp). apply wp_ret. cbn in Hp |- *. rewrite Z.max_r by lia.
  assert (chunk_id <$> (new_chunk <$> seqZ (num_allocated_chunks m) nf ++ ids) = seqZ (num_allocated_chunks m) nf ++ ids) as Eid.
  { rewrite <- list_fmap_compose. rewrite <- (list_fmap_id (seqZ _ _ ++ ids)) at 2. by apply list_fmap_ext. }
  split_and!.
  - unfold zlen in *. rewrite length_fmap, length_app, length_seqZ. lia.
  - intros c (id & -> & _)%list_elem_of_fmap. done.
  - split; cbn; try done; [|lia]. rewrite Eid. rewrite <- app_assoc, <- Hp.
    replace (num_allocated_chunks m + nf) with (Z.of_nat (Z.to_nat (num_allocated_chunks m)) + nf) by lia.
    rewrite seqZ_app by lia. rewrite Z.add_0_l, !Z2Nat.id by lia. rewrite <- I2. cbn.
    rewrite <- !app_assoc. f_equiv. by rewrite Permutation_app_comm.
  - done.
  - done.
Qed.

(** ** Stores *)

(** The map after the entries [l] were added. *)
Definition added_to (l : list (OffloadKey * ChunkStatus)) (mp mp' : chunk_map) : Prop :=
  forall k, mp' !! k = match od_get k l with Some c => Some c | None => mp !! k end.

Lemma insert_one_ok hand d m k c :
  off_inv_at (chunk_id c :: hand) d m -> stored m !! k = None -> chunk_ref c = -1 ->
  wp (on_policy (pol_insert k c)) (fun _ m' => off_inv_at hand (d + 1) m' /\
    stored m' = <[k := c]> (stored m) /\ exists s, m' = set_policy s m) m.
Proof.
  intros [I1 I2 I3 I4 I5 I6] Hk Hr. apply wp_zoom.
  eapply wp_mono; [apply (pol_insert_ok _ _ k c I1 Hk); lia|]. intros [] s [S1 S2].
  pose proof (values_insert (stored m) k c Hk) as Hv.
  split_and!; [|done|by exists s].
  assert (idle_keys (<[k := c]> (stored m)) = idle_keys (stored m)) as Hidle.
  { apply set_eq. intros k'. rewrite !elem_of_idle. destruct (decide (k' = k)) as [->|Hne].
    - rewrite lookup_insert_eq, Hk. split; [intros (c' & [= <-] & ?); lia|by intros (? & ? & _)].
    - by rewrite lookup_insert_ne. }
  split; cbn; rewrite ?S2, ?Hidle; try done.
  - rewrite Hv. cbn. rewrite <- I2. cbn. by rewrite Permutation_middle.
  - rewrite Hv, with_ref_cons, decide_True by done. lia.
  - intros k' c'. destruct (decide (k' = k)) as [->|Hne].
    + rewrite lookup_insert_eq. intros [= <-]. lia.
    + rewrite lookup_insert_ne by done. apply I6.
Qed.

Lemma insert_all_ok m (l : list (OffloadKey * ChunkStatus)) :
  off_inv_at (chunk_id <$> l.*2) 0 m -> NoDup l.*1 -> (forall k, k ∈ l.*1 -> stored m !! k = None) ->
  (forall c, c ∈ l.*2 -> chunk_ref c = -1) ->
  wp (for_each l (fun kc => on_policy (pol_insert kc.1 kc.2))) (fun _ m' =>
    off_inv_at [] (zlen l) m' /\ added_to l (stored m) (stored m') /\ exists s, m' = set_policy s m) m.
Proof.
  intros Hi Hnd Hfresh Href.
  eapply wp_mono; [apply (wp_for_each (fun pre m' =>
    (forall post, l = pre ++ post -> off_inv_at (chunk_id <$> post.*2) (zlen pre) m') /\
    added_to pre (stored m) (stored m') /\ exists s, m' = set_policy s m))|].
  - split_and!; [by intros post ->|by intros k|]. exists (policy m). by destruct m.
  - intros pre [k c] post m1 El (Hi1 & Ha & s & ->). cbn [fst snd].
    assert (k ∉ pre.*1 /\ stored m !! k = None) as [Hkp Hk].
    { split; [|apply Hfresh; rewrite El, fmap_app, elem_of_app; right; by left].
      rewrite El, fmap_app in Hnd. by eapply NoDup_middle_notin. }
    assert (od_get k pre = None) as Hg by by apply od_get_None.
    specialize (Hi1 ((k, c) :: post) El). cbn [fmap list_fmap snd] in Hi1.
    eapply wp_mono; [apply (insert_one_ok (chunk_id <$> post.*2) (zlen pre) _ k c Hi1)|].
    + by rewrite Ha, Hg.
    + apply Href. rewrite El, fmap_app, elem_of_app. right. by left.
    + intros [] m2 (Hi2 & Hm2 & s2 & ->). split_and!; [| |by exists s2].
      * intros post' El'. assert (post' = post) as ->.
        { rewrite El in El'. rewrite <- app_assoc in El'. apply app_inv_head in El'. by injection El'. }
        by rewrite zlen_app.
      * intros k'. rewrite Hm2, od_get_app. cbn. destruct (decide (k' = k)) as [->|Hne].
        -- rewrite lookup_insert_eq, Hg. done.
        -- rewrite lookup_insert_ne, Ha by done. by destruct (od_get k' pre).
  - intros [] m' (Hi' & Ha & Hs). split_and!; [|done|done]. apply (Hi' []). by rewrite app_nil_r.
Qed.

Lemma off_inv_frame hand d m m' :
  off_inv_at hand d m -> policy m' = policy m -> num_allocated_chunks m' = num_allocated_chunks m ->
  free_list m' = free_list m -> num_chunks m' = num_chunks m ->
  num_evictable_cache_chunks m' = num_evictable_cache_chunks m ->
  num_write_pending_chunks m' = num_write_pending_chunks m -> off_inv_at hand d m'.
Proof.
  intros [I1 I2 I3 I4 I5 I6] E1 E2 E3 E4 E5 E6. split; rewrite ?E1, ?E2, ?E3, ?E4, ?E5, ?E6; done.
Qed.

(** The tracker after an offer of [keys], and the keys offered often enough. *)
Definition tracker_after (size_limit : Z) (keys : list OffloadKey) (c : list (OffloadKey * Z)) : list (OffloadKey * Z) :=
  let '(c1, protected) := count_tracked keys c in
  (track_new size_limit keys c1 (zlen c1 - Z.of_nat (size protected))).1.
Definition passing m (keys : list OffloadKey) : list OffloadKey :=
  match counts m with
  | None => keys
  | Some c => filter (fun k => store_threshold m <= default 0 (od_get k (tracker_after (max_tracker_size m) keys c))) keys
  end.

Lemma passing_sublist m keys : passing m keys `sublist_of` keys.
Proof. unfold passing. destruct (counts m); [apply sublist_filter|done]. Qed.

Lemma filter_offered_ok m keys :
  off_inv m ->
  wp (filter_offered keys) (fun kept m' => kept = passing m keys /\ off_inv m' /\ policy m' = policy m /\
    same_limits m m' /\ get_num_free_chunks m' = get_num_free_chunks m) m.
Proof.
  intros Hi. unfold filter_offered, passing, tracker_after. apply wp_bind, wp_get. destruct (counts m) as [c|] eqn:Ec.
  2:{ by apply wp_ret. }
  apply wp_bind. unfold record_accesses. apply wp_bind, wp_get, wp_bind. eapply wp_of_option; [done|].
  destruct (count_tracked keys c) as [c1 prot]. destruct (track_new _ _ _ _) as [c2 u].
  apply wp_modify, wp_bind, wp_get, wp_bind, wp_modify, wp_ret.
  split_and!; [done|by eapply off_inv_frame|done| |done]. split_and!; try done. intros Hn. congruence.
Qed.

Lemma emit_off_ok keys removed m (Q : unit -> CPUOffloadingManager P -> Prop) :
  (forall es, Q tt (set_off_events es m)) -> wp (emit_off_event keys removed) Q m.
Proof.
  intros HQ. unfold emit_off_event. destruct keys; [|apply wp_modify, HQ].
  apply wp_ret. specialize (HQ (off_events m)). by destruct m.
Qed.

(** The outcome of [prepare_store], in terms of the keys that passed the filter. *)
Definition store_prepared m (kept : list OffloadKey) (out : PrepareStoreOutput) m' : Prop :=
  keys_to_store out = filter (fun k => stored m !! k = None) kept /\
  length (store_spec out) = length (keys_to_store out) /\
  zlen (evicted_keys out) = Z.max 0 (if decide (keys_to_store out = []) then 0
                                     else zlen (keys_to_store out) - get_num_free_chunks m) /\
  (forall k, k ∈ evicted_keys out -> k ∈ idle_keys (stored m) /\ k ∉ kept) /\
  (forall i k id, keys_to_store out !! i = Some k -> store_spec out !! i = Some id ->
     stored m' !! k = Some (mkChunk (-1) id)) /\
  (forall k, k ∉ keys_to_store out ->
     stored m' !! k = if decide (k ∈ evicted_keys out) then None else stored m !! k).

Lemma zip_keys {A B} (l1 : list A) (l2 : list B) : length l1 = length l2 -> (zip l1 l2).*1 = l1 /\ (zip l1 l2).*2 = l2.
Proof. intros Hl. split; [apply fst_zip|apply snd_zip]; lia. Qed.

Lemma od_get_zip (ks : list OffloadKey) (cs : list ChunkStatus) i k c :
  NoDup ks -> ks !! i = Some k -> cs !! i = Some c -> length ks = length cs -> od_get k (zip ks cs) = Some c.
Proof.
  intros Hnd Hk Hc Hl. apply od_elem_get; [by rewrite (proj1 (zip_keys ks cs Hl))|].
  apply list_elem_of_lookup_2 with i. apply lookup_zip_with_Some. by exists k, c.
Qed.

(** From the point where the slots are free. *)
Lemma store_chunks_ok m (to_store : list OffloadKey) :
  off_inv m -> NoDup to_store -> (forall k, k ∈ to_store -> stored m !! k = None) ->
  zlen to_store <= get_num_free_chunks m ->
  wp (new ← allocate_chunks to_store;
      assert_ (zlen new =? zlen to_store) ;;
      for_each (zip to_store new) (fun kc => on_policy (pol_insert kc.1 kc.2)) ;;
      modify (fun m => set_counters (num_evictable_cache_chunks m)
                         (num_write_pending_chunks m + zlen to_store) m) ;;
      mret (chunk_id <$> new))
    (fun ids m' => off_inv m' /\ same_limits m m' /\ length ids = length to_store /\
       added_to (zip to_store (new_chunk <$> ids)) (stored m) (stored m')) m.
Proof.
  intros Hi Hnd Hfresh Hle. apply wp_bind. eapply wp_mono; [by apply (allocate_chunks_ok m to_store)|].
  intros new m1 (Hl & Href & Hi1 & Hp1 & Hlim). apply wp_bind, wp_assert; [by apply Z.eqb_eq|].
  assert (length to_store = length new) as Hlen by (unfold zlen in Hl; lia).
  destruct (zip_keys to_store new Hlen) as [Z1 Z2].
  apply wp_bind. eapply wp_mono; [apply (insert_all_ok m1 (zip to_store new)); rewrite ?Z1, ?Z2; try done|].
  { intros k Hk. rewrite Hp1. by apply Hfresh. }
  intros [] m2 (Hi2 & Ha & s & ->). apply wp_bind, wp_modify, wp_ret.
  assert (new_chunk <$> (chunk_id <$> new) = new) as Enew.
  { rewrite <- list_fmap_compose. rewrite <- (list_fmap_id new) at 2. apply list_fmap_ext.
    intros j c Hc. apply list_elem_of_lookup_2 in Hc. specialize (Href c Hc). destruct c as [r id]. cbn in *. by subst. }
  split_and!; [|done|by rewrite length_fmap|rewrite Enew, <- Hp1; exact Ha].
  assert (zlen (zip to_store new) = zlen to_store) as Ez by (unfold zlen; rewrite length_zip; lia).
  destruct Hi2 as [J1 J2 J3 J4 J5 J6]. rewrite Ez in J5. split; cbn in *; try done. lia.
Qed.

Lemma prepare_store_ok m keys :
  off_inv m -> NoDup keys ->
  wp (prepare_store keys) (fun r m' => off_inv m' /\ same_limits m m' /\ exists kept, kept = passing m keys /\
    match r with
    | None => stored m' = stored m /\
        get_num_free_chunks m + Z.of_nat (size (idle_keys (stored m) ∖ list_to_set kept)) <
          zlen (filter (fun k => stored m !! k = None) kept)
    | Some out => store_prepared m kept out m'
    end) m.
Proof.
  intros Hi Hnd. unfold prepare_store. apply wp_bind. eapply wp_mono; [by apply (filter_offered_ok m keys)|].
  intros kept m1 (Hsub & Hi1 & Hp1 & Hlim1 & Hfree1).
  assert (NoDup kept) as Hndk by (subst kept; eapply sublist_NoDup; [done|apply passing_sublist]).
  apply wp_bind, wp_get.
  assert (filter (fun k => pol_get k (policy m1) = None) kept = filter (fun k => stored m !! k = None) kept) as Ets.
  { apply list_filter_iff. intros k. by rewrite (pol_get_ok _ _ k (oi_wf _ _ _ Hi1)), Hp1. }
  rewrite Ets. set (to_store := filter (fun k => stored m !! k = None) kept).
  assert (NoDup to_store) as Hndt by by apply NoDup_filter.
  assert (forall k, k ∈ to_store -> stored m !! k = None) as Hfresh .
  { intros k Hk. by apply list_elem_of_filter in Hk as [? _]. }
  destruct to_store as [|k0 ks0] eqn:Et.
  { apply wp_ret. split_and!; [done|done|]. exists kept. split; [done|]. unfold store_prepared. fold to_store. rewrite Et.
    cbn. rewrite Hp1. split_and!; try done; try (by intros ? ?%elem_of_nil). }
  rewrite <- Et in *. apply wp_bind, wp_modify, wp_bind, wp_get, wp_bind.
  set (m2 := set_batch _ _ m1).
  assert (off_inv m2) as Hi2 by by eapply off_inv_frame.
  assert (stored m2 = stored m) as Es2 by (cbn; by rewrite Hp1).
  assert (get_num_free_chunks m2 = get_num_free_chunks m) as Ef2 by (rewrite <- Hfree1; done).
  assert (same_limits m m2) as Hlim2 by done.
  rewrite Ef2. set (need := zlen to_store - get_num_free_chunks m).
  eapply wp_mono; [by apply (make_room_ok m2 need (list_to_set kept))|]. rewrite Es2.
  intros [ev|] m3.
  2:{ intros [-> Hlt]. apply wp_ret. split_and!; [done|done|]. exists kept. split_and!; [done|done|].
      fold to_store. unfold need in Hlt. lia. }
  intros (Hi3 & Hlim3 & Hal & l & -> & (Hzl & Hndl & Hin & Hm3) & Hfl).
  apply wp_bind, emit_off_ok. intros es. set (m4 := set_off_events es m3).
  assert (off_inv m4) as Hi4 by by eapply off_inv_frame.
  assert (same_limits m m4) as Hlim4 by by apply (same_limits_trans m m2).
  pose proof Hlim3 as (L1 & _).
  assert (zlen to_store <= get_num_free_chunks m4) as Hroom.
  { unfold get_num_free_chunks in *. cbn. rewrite Hfl, Hal, zlen_app, L1.
    assert (zlen (chunk_id <$> l.*2) = zlen l) as -> by (unfold zlen; by rewrite !length_fmap).
    rewrite Hzl. unfold need in *. lia. }
  assert (forall k, k ∈ to_store -> stored m4 !! k = None) as Hfresh4.
  { intros k Hk. cbn. rewrite Hm3. destruct (decide _); [done|by apply Hfresh]. }
  pose proof (store_chunks_ok m4 to_store Hi4 Hndt Hfresh4 Hroom) as Hst.
  apply wp_bind_inv in Hst. apply wp_bind. eapply wp_mono; [exact Hst|]. intros new m5 Hst5.
  apply wp_bind_inv in Hst5. apply wp_bind. eapply wp_mono; [exact Hst5|]. intros [] m6 Hst6.
  apply wp_bind_inv in Hst6. apply wp_bind. eapply wp_mono; [exact Hst6|]. intros [] m7 Hst7.
  apply wp_bind_inv in Hst7. apply wp_bind. eapply wp_mono; [exact Hst7|]. intros [] m8 (Hi8 & Hlim8 & Hlen & Ha).
  cbn in Hi8. apply wp_ret. split_and!; [done|by apply (same_limits_trans m m4)|].
  exists kept. split; [done|]. unfold store_prepared. cbn [keys_to_store store_spec evicted_keys].
  fold to_store. split_and!; [done|done| | | |].
  - rewrite decide_False by (rewrite Et; done). fold need. rewrite <- Hzl. unfold zlen. by rewrite length_fmap.
  - intros k ([k' c] & -> & Hkc)%list_elem_of_fmap. destruct (Hin k' c Hkc) as (Hp & Hs & Hr). cbn. split.
    + apply elem_of_idle. by exists c.
    + by rewrite elem_of_list_to_set in Hp.
  - intros j k id Hk Hid. rewrite Ha.
    erewrite (od_get_zip to_store _ j k (new_chunk id)); [done|done|done| |by rewrite length_fmap].
    by rewrite list_lookup_fmap, Hid.
  - intros k Hk. rewrite Ha.
    assert (od_get k (zip to_store (new_chunk <$> (chunk_id <$> new))) = None) as ->; [|cbn; apply Hm3].
    apply od_get_None. rewrite (proj1 (zip_keys to_store (new_chunk <$> (chunk_id <$> new)) ltac:(by rewrite length_fmap))). done.
Qed.

(** The map after the stores of [ks] ended. *)
Definition completed (success : bool) (ks : list OffloadKey) (mp mp' : chunk_map) : Prop :=
  forall k, mp' !! k =
    match mp !! k with
    | Some c => if decide (k ∈ ks /\ chunk_ref c = -1)
                then (if success then Some (mkChunk 0 (chunk_id c)) else None) else Some c
    | None => None
    end.

(** One pending chunk becomes ready. *)
Lemma finish_one_ok m k c :
  off_inv m -> stored m !! k = Some c -> chunk_ref c = -1 ->
  wp (modify (fun m => set_policy (pol_write k (set_chunk_ref 0 c) (policy m)) m) ;;
      modify (fun m => set_counters (num_evictable_cache_chunks m + 1) (num_write_pending_chunks m - 1) m) ;;
      on_policy (pol_mark_evictable k))
    (fun _ m' => off_inv m' /\ same_limits m m' /\ stored m' = <[k := mkChunk 0 (chunk_id c)]> (stored m)) m.
Proof.
  intros Hi Hk Hr. pose proof Hi as [I1 I2 I3 I4 I5 I6]. change (set_chunk_ref 0 c) with (mkChunk 0 (chunk_id c)).
  assert (is_Some (stored m !! k)) as Hsome by by eexists.
  apply wp_bind, wp_modify, wp_bind, wp_modify, wp_zoom. cbn.
  destruct (pol_write_ok _ (policy m) k (mkChunk 0 (chunk_id c)) I1 Hsome) as [W1 W2].
  eapply wp_mono; [apply (pol_mark_ok _ _ k W1); by rewrite W2, lookup_insert_eq|].
  intros [] s [S1 S2]. rewrite W2 in S2. split_and!; [|done|done].
  apply (off_inv_write [] 0 m k c (mkChunk 0 (chunk_id c)) s (num_evictable_cache_chunks m + 1)
    (num_write_pending_chunks m - 1)); try done; cbn.
  - rewrite S2, idle_write by done. by rewrite decide_True.
  - rewrite (decide_True (P := 0 = 0)) by done. rewrite decide_False by lia. lia.
  - rewrite (decide_False (P := 0 = -1)) by lia. rewrite decide_True by done. lia.
Qed.

(** One pending chunk is dropped. *)
Lemma drop_one_ok m k c :
  off_inv m -> stored m !! k = Some c -> chunk_ref c = -1 ->
  wp (modify (fun m => set_counters (num_evictable_cache_chunks m) (num_write_pending_chunks m - 1) m) ;;
      on_policy (pol_remove k) ;;
      free_chunk c)
    (fun _ m' => off_inv m' /\ same_limits m m' /\ stored m' = delete k (stored m)) m.
Proof.
  intros Hi Hk Hr. pose proof Hi as [I1 I2 I3 I4 I5 I6].
  apply wp_bind, wp_modify, wp_bind, wp_zoom. cbn.
  eapply wp_mono; [apply (pol_remove_ok _ _ k I1); by eexists|]. intros [] s [S1 S2].
  split_and!; [|done|done].
  pose proof (values_delete (stored m) k c Hk) as Hv.
  assert (idle_keys (delete k (stored m)) = idle_keys (stored m) ∖ {[k]}) as Hidle.
  { apply set_eq. intros k'. rewrite elem_of_difference, elem_of_singleton, !elem_of_idle.
    destruct (decide (k' = k)) as [->|Hne]; [rewrite lookup_delete_eq|rewrite lookup_delete_ne by done]; naive_solver. }
  split; cbn; rewrite ?S2; try done.
  - by rewrite Hidle.
  - rewrite Hv in I2. cbn in I2. rewrite <- I2. rewrite app_assoc, Permutation_app_comm. done.
  - rewrite idle_size in *. rewrite Hv, with_ref_cons, decide_False in I4 by lia. lia.
  - rewrite Hv, with_ref_cons, decide_True in I5 by done. lia.
  - intros k' c' Hk'. apply lookup_delete_Some in Hk' as [_ Hk']. by eapply I6.
Qed.

(** What becomes of one entry when its store ends. *)
Definition finish (success : bool) (c : ChunkStatus) : option ChunkStatus :=
  if decide (chunk_ref c = -1) then (if success then Some (mkChunk 0 (chunk_id c)) else None) else Some c.

Lemma finish_idem success c c' : finish success c = Some c' -> finish success c' = Some c'.
Proof.
  unfold finish. destruct (decide (chunk_ref c = -1)).
  - destruct success; [|done]. intros [= <-]. by rewrite decide_False.
  - intros [= <-]. by rewrite decide_False.
Qed.

Lemma completed_lookup success ks mp mp' k : completed success ks mp mp' ->
  mp' !! k = if decide (k ∈ ks) then mp !! k ≫= finish success else mp !! k.
Proof.
  intros Hc. rewrite Hc. destruct (mp !! k) as [c|]; cbn; [|by destruct (decide _)]. unfold finish.
  destruct (decide (k ∈ ks)), (decide (chunk_ref c = -1)); [rewrite decide_True|rewrite decide_False..]; tauto.
Qed.

Lemma completed_snoc success ks k mp mp1 mp2 :
  completed success ks mp mp1 ->
  (forall k', mp2 !! k' = if decide (k' = k) then mp1 !! k ≫= finish success else mp1 !! k') ->
  completed success (ks ++ [k]) mp mp2.
Proof.
  intros Hc Hm k'. rewrite Hm. destruct (decide (k' = k)) as [->|Hne].
  - rewrite (completed_lookup _ _ _ _ _ Hc). destruct (mp !! k) as [c|]; [|by destruct (decide _)].
    transitivity (finish success c).
    + destruct (decide (k ∈ ks)); [|done]. cbn. destruct (finish success c) as [c'|] eqn:E; [|done].
      by eapply finish_idem.
    + unfold finish. destruct (decide (chunk_ref c = -1)); [rewrite decide_True|rewrite decide_False]; try done.
      * split; [|done]. rewrite elem_of_app, list_elem_of_singleton. by right.
      * tauto.
  - rewrite Hc. destruct (mp !! k') as [c|]; [|done].
    destruct (decide (k' ∈ ks /\ chunk_ref c = -1)) as [[? ?]|Hn]; [rewrite decide_True|rewrite decide_False]; try done.
    + split; [|done]. rewrite elem_of_app. by left.
    + rewrite elem_of_app, list_elem_of_singleton. tauto.
Qed.

Lemma complete_store_ok m keys success :
  off_inv m ->
  wp (complete_store keys success) (fun _ m' => off_inv m' /\ same_limits m m' /\
    completed success keys (stored m) (stored m')) m.
Proof.
  intros Hi. unfold complete_store. apply wp_bind.
  eapply wp_mono; [apply (wp_fold_m (fun d _ m' => off_inv m' /\ same_limits m m' /\
    completed success d (stored m) (stored m')))|].
  - split_and!; try done. intros k. destruct (stored m !! k) as [c|]; [|done].
    rewrite decide_False; [done|]. intros [?%elem_of_nil _]. done.
  - intros d k post acc m1 _ (Hi1 & Hl1 & Hc). apply wp_bind, wp_get. rewrite (pol_get_ok _ _ k (oi_wf _ _ _ Hi1)).
    assert (forall m2, stored m2 = stored m1 -> stored m1 !! k ≫= finish success = stored m1 !! k ->
      completed success (d ++ [k]) (stored m) (stored m2)) as Hsame.
    { intros m2 E2 Ek. apply (completed_snoc _ _ _ _ _ _ Hc). intros k'. rewrite E2.
      case_decide as E; [by subst|done]. }
    destruct (stored m1 !! k) as [c|] eqn:Ek; [|apply wp_ret; split_and!; try done; by apply Hsame].
    unfold is_ready. destruct (Z.leb_spec 0 (chunk_ref c)) as [Hr|Hr].
    { apply wp_ret. split_and!; try done. apply Hsame; [done|]. cbn. unfold finish. by rewrite decide_False by lia. }
    assert (chunk_ref c = -1) as Hr1 by (pose proof (oi_refs _ _ _ Hi1 k c Ek); lia). destruct success.
    + pose proof (finish_one_ok m1 k c Hi1 Ek Hr1) as Hf.
      apply wp_bind_inv in Hf. apply wp_bind. eapply wp_mono; [exact Hf|]. intros [] m2 Hf2.
      apply wp_bind_inv in Hf2. apply wp_bind. eapply wp_mono; [exact Hf2|]. intros [] m3 Hf3.
      apply wp_bind. eapply wp_mono; [exact Hf3|]. intros [] m4 (Hi4 & Hl4 & Hm4). apply wp_ret.
      split_and!; [done|by eapply same_limits_trans|].
      apply (completed_snoc _ _ _ _ _ _ Hc). intros k'. rewrite Hm4, Ek. cbn. unfold finish. case_decide as E.
      * subst. by rewrite lookup_insert_eq, decide_True.
      * by rewrite lookup_insert_ne.
    + pose proof (drop_one_ok m1 k c Hi1 Ek Hr1) as Hf.
      apply wp_bind_inv in Hf. apply wp_bind. eapply wp_mono; [exact Hf|]. intros [] m2 Hf2.
      apply wp_bind_inv in Hf2. apply wp_bind. eapply wp_mono; [exact Hf2|]. intros [] m3 Hf3.
      apply wp_bind. eapply wp_mono; [exact Hf3|]. intros [] m4 (Hi4 & Hl4 & Hm4). apply wp_ret.
      split_and!; [done|by eapply same_limits_trans|].
      apply (completed_snoc _ _ _ _ _ _ Hc). intros k'. rewrite Hm4, Ek. cbn. unfold finish. case_decide as E.
      * subst. by rewrite lookup_delete_eq, decide_True.
      * by rewrite lookup_delete_ne.
  - intros stored_ m1 (Hi1 & Hl1 & Hc). apply emit_off_ok. intros es.
    split_and!; [by eapply off_inv_frame|done|done].
Qed.

Lemma touch_ok m keys : off_inv m ->
  wp (cpu_touch keys) (fun _ m' => off_inv m' /\ same_limits m m' /\ stored m' = stored m) m.
Proof.
  intros [I1 I2 I3 I4 I5 I6]. apply wp_zoom. eapply wp_mono; [by apply (pol_touch_ok _ _ keys I1)|].
  intros [] s [S1 S2]. split_and!; [|done|done]. split; cbn; rewrite ?S2; done.
Qed.

Lemma reset_ok m : off_inv m ->
  wp reset_cache (fun _ m' => off_inv m' /\ same_limits m m' /\ stored m' = ∅ /\
    get_num_free_chunks m' = num_chunks m) m.
Proof.
  intros [I1 I2 I3 I4 I5 I6]. apply wp_bind, wp_zoom. eapply wp_mono; [by apply (pol_clear_ok _ _ I1)|].
  intros [] s [S1 S2]. apply wp_bind, wp_modify, wp_modify. split_and!; [|done|done|].
  - assert (idle_keys ∅ = ∅) as E0 by (apply set_eq; intros k; rewrite elem_of_idle; set_solver).
    split; cbn; rewrite ?S2, ?E0; try done; lia.
  - unfold get_num_free_chunks, zlen. cbn. lia.
Qed.

End Manager.
