(* ===== verification/OffloadTracker.v ===== *)
(** * The store filter's access tracker

    [CPUOffloadingManager._record_accesses]: how often each key was offered, in
    a dictionary of bounded size that forgets the least recently offered keys
    first.  The two loops are given in closed form; the tracker keeps what the
    current offer counts. *)
From Stdlib Require Import ZArith QArith Lia.
From stdpp Require Import base tactics gmap strings numbers option list.
From S2P Require Import Prelude OrderedDict Offload OffloadPolicies OffloadSpec.

Local Open Scope Z_scope.

Lemma list_filter_id {A} (Q : A -> Prop) `{!forall x, Decision (Q x)} (l : list A) :
  (forall x, x ∈ l -> Q x) -> filter Q l = l.
Proof.
  induction l as [|x l IH]; intros Hl; [done|]. rewrite filter_cons_True by (apply Hl; by left).
  f_equal. apply IH. intros y Hy. apply Hl. by right.
Qed.

Lemma list_filter_none {A} (Q : A -> Prop) `{!forall x, Decision (Q x)} (l : list A) :
  (forall x, x ∈ l -> ~ Q x) -> filter Q l = [].
Proof.
  induction l as [|x l IH]; intros Hl; [done|]. rewrite filter_cons_False by (apply Hl; by left).
  apply IH. intros y Hy. apply Hl. by right.
Qed.

Lemma elem_of_dropped {A} i (l : list A) x : x ∈ drop i l -> x ∈ l.
Proof. rewrite <- (take_drop i l) at 2. rewrite elem_of_app. by right. Qed.

Abbreviation tracker := (list (OffloadKey * Z)).

(** The entries whose key is outside [ks], in order. *)
Definition outside (ks : list OffloadKey) (c : tracker) : tracker := filter (fun kn => kn.1 ∉ ks) c.
(** The counted entries of an offer: one more for each tracked key, in order. *)
Definition counted (ks : list OffloadKey) (c : tracker) : tracker :=
  omap (fun k => n ← od_get k c; Some (k, n + 1)) ks.

Lemma counted_key k n ks c : (k, n) ∈ counted ks c <-> k ∈ ks /\ exists n0, od_get k c = Some n0 /\ n = n0 + 1.
Proof.
  unfold counted. rewrite list_elem_of_omap. split.
  - intros (k' & Hk' & E). destruct (od_get k' c) as [n0|] eqn:Eg; [|done]. cbn in E. injection E as <- <-. eauto.
  - intros (Hk & n0 & Hg & ->). exists k. by rewrite Hg.
Qed.

Lemma counted_keys k ks c : k ∈ (counted ks c).*1 <-> k ∈ ks /\ k ∈ c.*1.
Proof.
  rewrite list_elem_of_fmap. split.
  - intros ([k' n] & -> & (Hk & n0 & Hg & _)%counted_key). split; [done|by eapply od_get_key].
  - intros [Hk Hc]. destruct (od_get k c) as [n0|] eqn:Eg; [|by apply od_get_None in Eg].
    exists (k, n0 + 1). split; [done|]. apply counted_key. eauto.
Qed.

Lemma outside_keys k ks c : k ∈ (outside ks c).*1 <-> k ∉ ks /\ k ∈ c.*1.
Proof.
  unfold outside. rewrite !list_elem_of_fmap. split.
  - intros ([k' n] & -> & [? ?]%list_elem_of_filter). eauto.
  - intros [Hk ([k' n] & -> & Hin)]. exists (k', n). split; [done|]. by apply list_elem_of_filter.
Qed.

Lemma outside_NoDup ks c : NoDup c.*1 -> NoDup (outside ks c).*1.
Proof. intros Hd. eapply sublist_NoDup; [exact Hd|]. apply fmap_sublist, sublist_filter. Qed.

Lemma counted_NoDup ks c : NoDup ks -> NoDup (counted ks c).*1.
Proof.
  unfold counted. induction ks as [|k ks IH]; [intros _; apply NoDup_nil_2|]. intros [Hk Hd]%NoDup_cons. cbn.
  destruct (od_get k c) as [n|] eqn:Eg; cbn; [|by apply IH]. apply NoDup_cons. split; [|by apply IH].
  intros Hin. apply (counted_keys k ks c) in Hin as [? _]. done.
Qed.

Lemma od_pop_filter (k : OffloadKey) (c : tracker) : NoDup c.*1 -> od_pop k c = filter (fun kn => kn.1 <> k) c.
Proof.
  induction c as [|[k' n] c IH]; [done|]. intros Hd. cbn in Hd. apply NoDup_cons in Hd as [Hk Hd].
  cbn [od_pop]. rewrite filter_cons. cbn [fst].
  destruct (decide (k = k')) as [->|Hne].
  - rewrite decide_False by tauto. symmetry. apply list_filter_id. intros [k n0] Hin. cbn. intros ->.
    apply Hk, list_elem_of_fmap. by exists (k', n0).
  - rewrite decide_True by congruence. by rewrite IH.
Qed.

Lemma outside_snoc ks k c : NoDup c.*1 -> k ∉ ks -> outside (ks ++ [k]) c = od_pop k (outside ks c).
Proof.
  intros Hd Hk. rewrite od_pop_filter by by apply outside_NoDup. unfold outside. rewrite list_filter_filter.
  apply list_filter_iff. intros [k' n]. cbn. rewrite elem_of_app, list_elem_of_singleton. tauto.
Qed.

Lemma od_pop_app_l (k : OffloadKey) (c1 c2 : tracker) : k ∈ c1.*1 -> od_pop k (c1 ++ c2) = od_pop k c1 ++ c2.
Proof.
  induction c1 as [|[k' n] c1 IH]; cbn; [by intros ?%elem_of_nil|]. intros Hk. destruct (decide (k = k')) as [|Hne]; [done|].
  cbn. f_equal. apply IH. by apply elem_of_cons in Hk as [?|?].
Qed.

Lemma counted_snoc ks k c :
  counted (ks ++ [k]) c = counted ks c ++ match od_get k c with Some n => [(k, n + 1)] | None => [] end.
Proof. unfold counted. rewrite omap_app. cbn. by destruct (od_get k c). Qed.

(** The first loop in closed form. *)
Lemma count_tracked_closed ks c :
  NoDup c.*1 -> NoDup ks ->
  count_tracked ks c = (outside ks c ++ counted ks c, list_to_set (counted ks c).*1).
Proof.
  intros Hc. induction ks as [|k ks IH] using rev_ind; intros Hnd.
  { cbn. unfold outside. rewrite list_filter_id, app_nil_r; [done|]. intros ? _. apply not_elem_of_nil. }
  apply NoDup_app in Hnd as (Hnd & Hd & _).
  assert (k ∉ ks) as Hk by (intros Hin; apply (Hd k Hin); by left).
  unfold count_tracked in *. rewrite foldl_app, IH by done. cbn [foldl].
  assert (k ∉ (counted ks c).*1) as Hkc by (rewrite counted_keys; tauto).
  assert (od_get k (outside ks c ++ counted ks c) = od_get k c) as Hg.
  { rewrite od_get_app. rewrite (proj2 (od_get_None k (counted ks c)) Hkc). destruct (od_get k c) as [n|] eqn:Eg.
    - rewrite (od_elem_get k n); [done|by apply outside_NoDup|]. apply list_elem_of_filter. split; [done|by apply od_get_elem].
    - rewrite (proj2 (od_get_None _ _)); [done|]. rewrite outside_keys. apply od_get_None in Eg. tauto. }
  cbn [fst snd]. rewrite Hg, counted_snoc, outside_snoc by done.
  destruct (od_get k c) as [n|] eqn:Eg; cbn.
  - assert (k ∈ (outside ks c).*1) as Hko by (rewrite outside_keys; split; [done|by eapply od_get_key]).
    unfold od_move_to_end. rewrite Hg. cbn. rewrite od_pop_app_l by done. f_equal.
    + rewrite od_set_last; [by rewrite <- app_assoc|]. rewrite fmap_app, elem_of_app, elem_of_od_pop by by apply outside_NoDup.
      tauto.
    + apply set_eq. intros k'. rewrite fmap_app. cbn. set_solver.
  - f_equal; [|by rewrite app_nil_r]. rewrite app_nil_r, od_pop_absent; [done|].
    rewrite outside_keys. apply od_get_None in Eg. tauto.
Qed.

(** One key of the second loop. *)
Definition track_one (limit : Z) (cu : tracker * Z) (key : OffloadKey) : tracker * Z :=
  if od_mem key cu.1 then cu
  else if limit <=? zlen cu.1 then
    if cu.2 =? 0 then cu else (od_set key 1 (drop 1 cu.1), cu.2 - 1)
  else (od_set key 1 cu.1, cu.2).

(** The state of the second loop: of the old entries [U] outside the offer the
    oldest [j] are gone, the counted ones [R] are all there, then the new ones. *)
Record tracked (limit : Z) (U R : tracker) (d : list OffloadKey) (cu : tracker * Z) : Prop := {
  tr_shape : exists j news, (j <= length U)%nat /\ cu.1 = drop j U ++ R ++ news /\ cu.2 = zlen U - Z.of_nat j /\
    (forall k n, (k, n) ∈ news -> k ∈ d /\ n = 1) /\
    (forall k, k ∈ d -> k ∈ (R ++ news).*1 \/ j = length U /\ limit <= zlen cu.1);
  tr_nodup : NoDup cu.1.*1;
  tr_size : zlen cu.1 <= Z.max limit (zlen (U ++ R))
}.

(** The key is there already, or there is no room for it. *)
Lemma tracked_skip limit U R d cu k :
  k ∉ U.*1 -> tracked limit U R d cu -> k ∈ cu.1.*1 \/ cu.2 = 0 /\ limit <= zlen cu.1 ->
  tracked limit U R (d ++ [k]) cu.
Proof.
  intros HkU [(j & news & Hj & Hs & Hu & Hn & Hd) Hnd Hz] Hk. split; [|done|done].
  exists j, news. split_and!; [done|done|done| |].
  - intros k' n Hin. rewrite elem_of_app. destruct (Hn _ _ Hin). tauto.
  - intros k'. rewrite elem_of_app, list_elem_of_singleton. intros [?| ->]; [by apply Hd|].
    destruct Hk as [Hin|[E0 ?]]; [left|right; unfold zlen in Hu; split; [lia|done]].
    rewrite Hs, fmap_app, elem_of_app in Hin. destruct Hin as [Hin|Hin]; [|done].
    exfalso. apply HkU. rewrite fmap_drop in Hin. by eapply elem_of_dropped.
Qed.

(** The key is appended, after [i] of the oldest entries are dropped. *)
Lemma tracked_add limit U R d cu k i :
  tracked limit U R d cu -> k ∉ cu.1.*1 -> Z.of_nat i <= cu.2 -> (i = 0%nat \/ i = 1%nat) ->
  zlen cu.1 - Z.of_nat i + 1 <= Z.max limit (zlen (U ++ R)) ->
  tracked limit U R (d ++ [k]) (od_set k 1 (drop i cu.1), cu.2 - Z.of_nat i).
Proof.
  intros [(j & news & Hj & Hs & Hu & Hn & Hd) Hnd Hz] Hk Hi Hi01 Hsz.
  assert (drop i cu.1 = drop (j + i) U ++ R ++ news) as Edrop.
  { rewrite Hs, drop_app_le by (rewrite length_drop; unfold zlen in Hu; lia). by rewrite drop_drop. }
  assert (zlen (drop i cu.1) = zlen cu.1 - Z.of_nat i) as Ez.
  { assert (Z.of_nat i <= zlen cu.1) by (rewrite Hs, !zlen_app; unfold zlen in *; rewrite length_drop; lia).
    unfold zlen in *. rewrite length_drop. lia. }
  assert (k ∉ (drop i cu.1).*1) as Hk'.
  { rewrite fmap_drop. intros Hin. apply Hk. by eapply elem_of_dropped. }
  rewrite od_set_absent by done. split; cbn [fst snd].
  - exists (j + i)%nat, (news ++ [(k, 1)]). split_and!; [unfold zlen in Hu; lia|by rewrite Edrop, <- !app_assoc|lia| |].
    + intros k' n. rewrite !elem_of_app, !list_elem_of_singleton. intros [Hin|[= -> ->]]; [|tauto].
      destruct (Hn _ _ Hin). tauto.
    + intros k'. rewrite elem_of_app, list_elem_of_singleton. intros [Hk2| ->].
      * destruct (Hd k' Hk2) as [Hin|[-> Hl]].
        -- left. rewrite app_assoc, fmap_app, elem_of_app. by left.
        -- right. rewrite zlen_app, Ez. unfold zlen in *. cbn. lia.
      * left. rewrite !fmap_app, !elem_of_app. cbn. right. right. by left.
  - rewrite fmap_app. apply NoDup_app. split_and!; [rewrite fmap_drop; eapply sublist_NoDup; [exact Hnd|apply sublist_drop]| |apply NoDup_singleton].
    intros x Hx ->%list_elem_of_singleton. done.
  - rewrite zlen_app, Ez. unfold zlen at 2. cbn. lia.
Qed.

Lemma tracked_step limit U R d cu k :
  k ∉ U.*1 -> tracked limit U R d cu -> tracked limit U R (d ++ [k]) (track_one limit cu k).
Proof.
  intros HkU Ht. pose proof (tr_size _ _ _ _ _ Ht) as Hz.
  assert (0 <= cu.2) as H0 by (destruct Ht as [(j & news & Hj & _ & Hu & _) _ _]; unfold zlen in Hu; lia).
  unfold track_one, od_mem. destruct (bool_decide_reflect (k ∈ cu.1.*1)) as [Hin|Hk].
  { apply tracked_skip; [done|done|by left]. }
  destruct (Z.leb_spec limit (zlen cu.1)) as [Hfull|Hroom].
  - destruct (Z.eqb_spec cu.2 0) as [E0|E0]; [apply tracked_skip; [done|done|by right]|].
    apply (tracked_add _ _ _ _ _ _ 1); [done|done|lia|by right|lia].
  - pose proof (tracked_add limit U R d cu k 0 Ht Hk) as Ha. rewrite drop_0, !Z.sub_0_r in Ha.
    apply Ha; [lia|by left|lia].
Qed.

Lemma track_new_tracked limit ks U R :
  NoDup (U ++ R).*1 -> (forall k, k ∈ ks -> k ∉ U.*1) ->
  tracked limit U R ks (track_new limit ks (U ++ R) (zlen U)).
Proof.
  intros Hnd Hk. induction ks as [|k ks IH] using rev_ind.
  - split; [|done|cbn; lia]. exists 0%nat, []. rewrite drop_0, app_nil_r. split_and!; [lia|done|cbn; lia| |].
    + by intros ? ? ?%elem_of_nil.
    + by intros ? ?%elem_of_nil.
  - unfold track_new in *. rewrite foldl_app. cbn [foldl]. apply tracked_step.
    + apply Hk. rewrite elem_of_app, list_elem_of_singleton. by right.
    + apply IH. intros k' Hk'. apply Hk. rewrite elem_of_app. by left.
Qed.

Lemma counted_length ks c : NoDup ks -> Z.of_nat (size (list_to_set (C := gset OffloadKey) (counted ks c).*1)) = zlen (counted ks c).
Proof. intros Hnd. unfold zlen. rewrite size_list_to_set, length_fmap; [done|by apply counted_NoDup]. Qed.

Lemma tracker_after_tracked limit ks c :
  NoDup c.*1 -> NoDup ks -> exists u, tracked limit (outside ks c) (counted ks c) ks (tracker_after limit ks c, u).
Proof.
  intros Hc Hks. unfold tracker_after. rewrite count_tracked_closed by done. rewrite counted_length, zlen_app by done.
  replace (zlen (outside ks c) + zlen (counted ks c) - zlen (counted ks c)) with (zlen (outside ks c)) by lia.
  pose proof (track_new_tracked limit ks (outside ks c) (counted ks c)) as Ht.
  destruct (track_new _ _ _ _) as [c' u]. exists u. apply Ht.
  - rewrite fmap_app. apply NoDup_app. split_and!; [by apply outside_NoDup| |by apply counted_NoDup].
    intros k. rewrite outside_keys, counted_keys. tauto.
  - intros k Hk. rewrite outside_keys. tauto.
Qed.

Lemma tracked_size ks c : NoDup c.*1 -> NoDup ks -> zlen (outside ks c ++ counted ks c) = zlen c.
Proof.
  intros Hc Hks. unfold zlen. f_equal. rewrite <- !(length_fmap fst). apply Permutation_length, NoDup_Permutation.
  - rewrite fmap_app. apply NoDup_app. split_and!; [by apply outside_NoDup| |by apply counted_NoDup].
    intros k. rewrite outside_keys, counted_keys. tauto.
  - done.
  - intros k. rewrite fmap_app, elem_of_app, outside_keys, counted_keys. destruct (decide (k ∈ ks)); tauto.
Qed.

(** The store filter counts faithfully within its bound.  Recording an
    offer of distinct keys in a tracker within its limit leaves a tracker within
    its limit in which every tracked key of the offer counts one more offer,
    every untracked one counts one, unless the tracker is full of keys of this
    very offer, keys outside the offer keep their counts or are forgotten, and
    the forgotten ones are the least recently offered. *)
Theorem record_accesses_correct {P} `{CachePolicy P} (m : CPUOffloadingManager P) keys c :
  counts m = Some c -> NoDup c.*1 -> NoDup keys -> zlen c <= max_tracker_size m ->
  exists c', record_accesses keys m = Ok tt (set_counts (Some c') m) /\
    NoDup c'.*1 /\ zlen c' <= max_tracker_size m /\
    (forall k n, k ∈ keys -> od_get k c = Some n -> od_get k c' = Some (n + 1)) /\
    (forall k, k ∈ keys -> od_get k c = None ->
       od_get k c' = Some 1 \/ od_get k c' = None /\ zlen c' = max_tracker_size m /\ forall k', k' ∈ c'.*1 -> k' ∈ keys) /\
    exists j, outside keys c' = drop j (outside keys c).
Proof.
  intros Em Hc Hks Hsz. destruct (tracker_after_tracked (max_tracker_size m) keys c Hc Hks) as [u Ht].
  exists (tracker_after (max_tracker_size m) keys c).
  split.
  { unfold record_accesses, tracker_after. unfold mbind at 1, M_bind at 1, get at 1. rewrite Em. cbn [of_option].
    unfold mbind at 1, M_bind at 1, mret at 1, M_ret at 1. destruct (count_tracked keys c) as [c1 prot].
    by destruct (track_new _ _ _ _). }
  set (c' := tracker_after _ _ _) in *. destruct Ht as [(j & news & Hj & Hs & Hu & Hn & Hd) Hnd Hz]. cbn [fst snd] in *.
  rewrite tracked_size in Hz by done.
  assert (forall k, k ∈ news.*1 -> k ∈ keys /\ od_get k c' = Some 1) as Hnews.
  { intros k ([k' n] & -> & Hin)%list_elem_of_fmap. destruct (Hn _ _ Hin) as [? ->]. split; [done|].
    apply od_elem_get; [done|]. rewrite Hs, !elem_of_app. tauto. }
  split_and!; [done|lia| | |].
  - intros k n Hk Hg. apply od_elem_get; [done|]. rewrite Hs, !elem_of_app. right. left. apply counted_key. eauto.
  - intros k Hk Hg. apply od_get_None in Hg. destruct (decide (k ∈ news.*1)) as [Hkn|Hkn]; [left; by apply Hnews|].
    right. destruct (Hd k Hk) as [Hin|[-> Hl]].
    { rewrite fmap_app, elem_of_app, counted_keys in Hin. tauto. }
    assert (forall k', k' ∈ c'.*1 <-> k' ∈ keys /\ k' ∈ c.*1 \/ k' ∈ news.*1) as Hc'.
    { intros k'. rewrite Hs, !fmap_app, !elem_of_app, drop_all, counted_keys. split; [|tauto].
      intros [Hx%elem_of_nil|Hx]; [done|exact Hx]. }
    split_and!; [apply od_get_None; rewrite Hc'; tauto|lia|]. intros k' [[? _]|Hk']%Hc'; [done|by apply Hnews].
  - exists j. rewrite Hs. unfold outside at 1. rewrite !filter_app.
    rewrite (list_filter_id _ (drop j (outside keys c))).
    2:{ intros [k n] Hin%elem_of_dropped. by apply list_elem_of_filter in Hin as [? _]. }
    rewrite (list_filter_none _ (counted keys c)), (list_filter_none _ news), !app_nil_r; [done| |].
    + intros [k n] Hin. destruct (Hn _ _ Hin). cbn. tauto.
    + intros [k n] [? _]%counted_key. cbn. tauto.
Qed.

(** A full tracker of two: an offer of a tracked key and a new one counts the
    first and displaces the entry outside the offer. *)
Lemma record_accesses_correct_witness :
  let ka : OffloadKey := [Byte.x61] in let kb : OffloadKey := [Byte.x62] in let kc : OffloadKey := [Byte.x63] in
  let m := set_counts (Some [(ka, 1); (kb, 4)]) (cpu_init (P := LRUCachePolicy) 8 false 2 2) in
  exists c', record_accesses [ka; kc] m = Ok tt (set_counts (Some c') m) /\ od_get ka c' = Some 2 /\
    c' = [(ka, 2); (kc, 1)].
Proof.
  intros ka kb kc m.
  destruct (record_accesses_correct m [ka; kc] [(ka, 1); (kb, 4)]) as (c' & E & _ & _ & Hk & _).
  - reflexivity.
  - apply (bool_decide_eq_true (NoDup [ka; kb])). vm_compute. reflexivity.
  - apply (bool_decide_eq_true (NoDup [ka; kc])). vm_compute. reflexivity.
  - vm_compute. discriminate.
  - exists c'. split; [exact E|]. split.
    + apply (Hk ka 1); [left|reflexivity].
    + assert ((fun x => match x with Ok _ m' => counts m' | Raise _ _ => None end) (record_accesses [ka; kc] m)
        = Some [(ka, 2); (kc, 1)]) as Hv by (vm_compute; reflexivity).
      rewrite E in Hv. cbn in Hv. injection Hv as ->. reflexivity.
Defined.
