(* ===== verification/OffloadSteps.v ===== *)
(** * The CPU offloading manager as a state machine

    Every call the offloading connector makes is a step.  From construction no
    call made within its contract fails, for every eviction policy, and the
    pool of slots stays exact.  Then the behaviour of stores, loads, evictions
    and of the store filter. *)
From Stdlib Require Import ZArith QArith Qround Lia.
From stdpp Require Import base tactics gmap strings numbers option list relations.
From S2P Require Import Prelude OrderedDict Offload OffloadPolicies OffloadSpec.

Local Open Scope Z_scope.

(** ** Calls *)

Inductive off_op :=
  | OpTouch (keys : list OffloadKey)
  | OpReserve (keys : list OffloadKey)
  | OpRelease (keys : list OffloadKey)
  | OpPrepareLoad (keys : list OffloadKey)
  | OpCompleteLoad (keys : list OffloadKey)
  | OpPrepareStore (keys : list OffloadKey)
  | OpCompleteStore (keys : list OffloadKey) (success : bool)
  | OpReset
  | OpTakeEvents
  | OpGetStats.

Section Steps.
Context {P : Type} `{CachePolicySpec P}.
Implicit Types (m : CPUOffloadingManager P).
Local Abbreviation stored m := (pol_map (policy m)).

Definition discard {S A} (c : M S A) : M S unit := _ ← c; mret tt.

Definition run_op (op : off_op) : M (CPUOffloadingManager P) unit :=
  match op with
  | OpTouch keys => cpu_touch keys
  | OpReserve keys => discard (reserve_hits keys)
  | OpRelease keys => release_reservation keys
  | OpPrepareLoad keys => discard (prepare_load keys)
  | OpCompleteLoad keys => complete_load keys
  | OpPrepareStore keys => discard (prepare_store keys)
  | OpCompleteStore keys success => complete_store keys success
  | OpReset => reset_cache
  | OpTakeEvents => discard take_off_events
  | OpGetStats => discard get_stats
  end.

(** Some reader holds the chunk. *)
Definition held m (k : OffloadKey) : Prop := exists c, stored m !! k = Some c /\ 0 < chunk_ref c.

(** The caller's side of each call: keys of one call are distinct, what is
    loaded is ready, what is released is held, and no reference count reaches
    the end of its 32 bits. *)
Definition op_ok m (op : off_op) : Prop :=
  match op with
  | OpReserve keys => NoDup keys /\ forall k c, k ∈ keys -> stored m !! k = Some c -> chunk_ref c + 1 < 2 ^ 31
  | OpPrepareLoad keys => NoDup keys /\ Forall (loadable m) keys
  | OpRelease keys | OpCompleteLoad keys => NoDup keys /\ Forall (held m) keys
  | OpPrepareStore keys => NoDup keys
  | _ => True
  end.

Inductive off_step m : CPUOffloadingManager P -> Prop :=
  | off_step_intro op m' : op_ok m op -> run_op op m = Ok tt m' -> off_step m m'.

Lemma wp_discard {S A} (c : M S A) (Q : unit -> S -> Prop) s : wp c (fun _ s' => Q tt s') s -> wp (discard c) Q s.
Proof. intros Hw. apply wp_bind. eapply wp_mono; [exact Hw|]. intros a s' HQ. by apply wp_ret. Qed.

Lemma only_policy_limits m m' : only_policy m m' -> num_chunks m' = num_chunks m.
Proof. by intros (s & ev & w & ->). Qed.

Lemma run_op_ok m op :
  off_inv_at [] 0 m -> op_ok m op ->
  wp (run_op op) (fun _ m' => off_inv_at [] 0 m' /\ num_chunks m' = num_chunks m) m.
Proof.
  intros Hi Hop. destruct op as [ks|ks|ks|ks|ks|ks|ks b| | |]; cbn [run_op op_ok] in *.
  - eapply wp_mono; [by apply touch_ok|]. intros [] m' (? & (? & _) & _). done.
  - destruct Hop as [Hnd Hb]. apply wp_discard. eapply wp_mono; [by apply reserve_hits_ok|].
    intros r m' (_ & ? & _ & ?%only_policy_limits). done.
  - destruct Hop as [Hnd Hb]. eapply wp_mono; [by apply unpin_all_ok|]. intros [] m' (? & _ & ?%only_policy_limits). done.
  - destruct Hop as [Hnd Hb]. apply wp_discard. eapply wp_mono; [by apply prepare_load_ok|].
    intros r m' (? & _ & ?%only_policy_limits & _). done.
  - destruct Hop as [Hnd Hb]. eapply wp_mono; [by apply unpin_all_ok|]. intros [] m' (? & _ & ?%only_policy_limits). done.
  - apply wp_discard. eapply wp_mono; [by apply prepare_store_ok|]. intros r m' (? & (? & _) & _). done.
  - eapply wp_mono; [by apply complete_store_ok|]. intros [] m' (? & (? & _) & _). done.
  - eapply wp_mono; [by apply reset_ok|]. intros [] m' (? & (? & _) & _). done.
  - apply wp_discard. unfold take_off_events. apply wp_bind, wp_get. destruct (off_events m); [|by apply wp_ret].
    apply wp_bind, wp_modify, wp_ret. split; [by eapply off_inv_frame|done].
  - apply wp_discard. apply wp_bind, wp_get, wp_bind, wp_modify, wp_ret. split; [by eapply off_inv_frame|done].
Qed.

Lemma init_ok n events threshold tracker : 0 <= n -> off_inv_at [] 0 (cpu_init (P := P) n events threshold tracker).
Proof.
  intros Hn. destruct (pol_init_ok (P := P) n Hn) as [W1 W2].
  assert (idle_keys ∅ = ∅) as E0 by (apply set_eq; intros k; rewrite elem_of_idle; set_solver).
  split; cbn; rewrite ?W2, ?E0; try done; lia.
Qed.

(** Reachable from construction. *)
Definition off_reachable (n : Z) (events : bool) (threshold tracker : Z) m : Prop :=
  rtc off_step (cpu_init n events threshold tracker) m.

Lemma off_reachable_inv n events threshold tracker m :
  0 <= n -> off_reachable n events threshold tracker m -> off_inv_at [] 0 m /\ num_chunks m = n.
Proof.
  intros Hn Hr. unfold off_reachable in Hr. pose proof (init_ok n events threshold tracker Hn) as Hi.
  assert (num_chunks (cpu_init (P := P) n events threshold tracker) = n) as Hc by done.
  revert Hi Hc. induction Hr as [m0|m0 m1 m2 [op m1' Hop Hrun] _ IH]; [done|]. intros Hi Hc.
  pose proof (run_op_ok m0 op Hi Hop) as Hw. unfold wp in Hw. rewrite Hrun in Hw. destruct Hw as [Hi1 Hc1].
  apply IH; [done|congruence].
Qed.

(** What the counters and the free list say about the stored chunks. *)
Record slots_exact (n : Z) m : Prop := {
  se_distinct : forall k1 k2 c1 c2, stored m !! k1 = Some c1 -> stored m !! k2 = Some c2 ->
    chunk_id c1 = chunk_id c2 -> k1 = k2;
  se_range : forall k c, stored m !! k = Some c -> 0 <= chunk_id c < n /\ chunk_id c ∉ free_list m;
  se_free : get_num_free_chunks m + Z.of_nat (size (stored m)) = n;
  se_evictable : num_evictable_cache_chunks m = Z.of_nat (size (idle_keys (stored m)));
  se_pending : num_write_pending_chunks m =
    Z.of_nat (size (filter (fun kc : OffloadKey * ChunkStatus => chunk_ref kc.2 = -1) (stored m)));
  se_refs : forall k c, stored m !! k = Some c -> -1 <= chunk_ref c < 2 ^ 31
}.

Lemma with_ref_size (r : Z) (mp : chunk_map) :
  with_ref r (values mp) = Z.of_nat (size (filter (fun kc : OffloadKey * ChunkStatus => chunk_ref kc.2 = r) mp)).
Proof.
  unfold with_ref, values, zlen. f_equal. rewrite <- length_map_to_list, map_filter_alt, map_to_list_to_map.
  2:{ eapply sublist_NoDup; [apply (NoDup_fst_map_to_list mp)|]. apply fmap_sublist, sublist_filter. }
  induction (map_to_list mp) as [|[k c] l IH]; [done|]. cbn [fmap list_fmap snd]. rewrite !filter_cons.
  cbn [snd]. destruct (decide _); cbn; by rewrite IH.
Qed.

Lemma values_elem (mp : chunk_map) k c : mp !! k = Some c -> c ∈ values mp.
Proof. intros Hk. apply list_elem_of_fmap. exists (k, c). split; [done|by apply elem_of_map_to_list]. Qed.

Lemma off_inv_exact m : off_inv_at [] 0 m -> slots_exact (num_chunks m) m.
Proof.
  intros [I1 I2 I3 I4 I5 I6]. cbn in I2.
  assert (NoDup ((chunk_id <$> values (stored m)) ++ free_list m)) as Hnd by (rewrite I2; apply NoDup_seqZ).
  split; try done.
  - intros k1 k2 c1 c2 H1 H2 Hid. destruct (decide (k1 = k2)) as [|Hne]; [done|]. exfalso.
    apply NoDup_app in Hnd as (Hnd & _ & _).
    rewrite (values_delete _ _ _ H1) in Hnd. cbn in Hnd. apply NoDup_cons in Hnd as [Hnd _]. apply Hnd.
    rewrite Hid. apply list_elem_of_fmap. exists c2. split; [done|]. apply (values_elem _ k2).
    by rewrite lookup_delete_ne.
  - intros k c Hk. assert (chunk_id c ∈ chunk_id <$> values (stored m)) as Hin
      by (apply list_elem_of_fmap; exists c; split; [done|by eapply values_elem]). split.
    + assert (chunk_id c ∈ seqZ 0 (num_allocated_chunks m)) as Hs by (rewrite <- I2, elem_of_app; by left).
      apply elem_of_seqZ in Hs. lia.
    + apply NoDup_app in Hnd as (_ & Hd & _). by apply Hd.
  - unfold get_num_free_chunks. apply Permutation_length in I2.
    rewrite length_app, length_fmap, length_seqZ in I2. unfold values in I2. rewrite length_fmap, length_map_to_list in I2.
    unfold zlen. lia.
  - rewrite <- with_ref_size. lia.
Qed.

(** C24.  Safety of the CPU offloading tier, for every eviction policy that
    meets the interface.  From construction with [n] slots, after any sequence
    of calls made within their contracts: no two stored chunks share a slot,
    every slot in use is inside the buffer and not on the free list, free slots
    plus stored chunks make [n], the two counters the manager maintains
    incrementally are the numbers of idle and of unfinished chunks, every
    reference count fits its 32 bits, and the next call raises nothing. *)
Theorem offload_reachable_invariant n events threshold tracker m op :
  0 <= n -> off_reachable n events threshold tracker m -> op_ok m op ->
  slots_exact n m /\ exists m', run_op op m = Ok tt m' /\ slots_exact n m'.
Proof.
  intros Hn Hr Hop. destruct (off_reachable_inv _ _ _ _ _ Hn Hr) as [Hi <-].
  split; [by apply off_inv_exact|]. pose proof (run_op_ok m op Hi Hop) as Hw. apply wp_ok in Hw as ([] & m' & E & Hi' & <-).
  exists m'. split; [done|by apply off_inv_exact].
Qed.


Lemma bumped_back ks mp mp1 mp2 : bumped 1 ks mp mp1 -> bumped (-1) ks mp1 mp2 -> mp2 = mp.
Proof.
  intros H1 H2. apply map_eq. intros k. rewrite H2, H1. destruct (decide (k ∈ ks)); [|done].
  destruct (mp !! k) as [[r i]|]; [|done]. cbn. unfold bump. cbn. do 2 f_equal. lia.
Qed.

(** A load and its completion, on keys that are ready. *)
Lemma load_and_complete_ok m keys :
  off_inv_at [] 0 m -> NoDup keys -> Forall (loadable m) keys ->
  exists ids m1 m2, prepare_load keys m = Ok ids m1 /\ complete_load keys m1 = Ok tt m2 /\
    Forall2 (fun k id => exists c, stored m !! k = Some c /\ chunk_id c = id) keys ids /\
    bumped 1 keys (stored m) (stored m1) /\ stored m2 = stored m /\ off_inv_at [] 0 m2 /\ num_chunks m2 = num_chunks m.
Proof.
  intros Hi Hnd Hall. pose proof (prepare_load_ok m keys Hi Hnd Hall) as Hw.
  apply wp_ok in Hw as (ids & m1 & E1 & Hi1 & Hb1 & Ho1%only_policy_limits & Hf).
  assert (Forall (held m1) keys) as Hheld.
  { apply Forall_forall. intros k Hk. rewrite Forall_forall in Hall. destruct (Hall k Hk) as (c & Hc & Hc0 & _).
    exists (bump 1 c). rewrite Hb1, decide_True, Hc by done. split; [done|]. cbn. lia. }
  pose proof (unpin_all_ok m1 keys Hi1 Hnd Hheld) as Hw. apply wp_ok in Hw as ([] & m2 & E2 & Hi2 & Hb2 & Ho2%only_policy_limits).
  exists ids, m1, m2. split_and!; try done; [by eapply bumped_back|congruence].
Qed.

(** C26.  Store and load meet in the same slots.  After a successful
    [prepare_store], completing it makes every new key a hit, a load of those
    keys is sent to the very slots the store was sent to and pins them, and
    completing the load puts every reference back where it was. *)
Theorem store_load_roundtrip n events threshold tracker m keys out m1 :
  0 <= n -> off_reachable n events threshold tracker m -> NoDup keys ->
  prepare_store keys m = Ok (Some out) m1 ->
  exists m2 m3 m4,
    complete_store (keys_to_store out) true m1 = Ok tt m2 /\
    Forall (fun k => lookup_chunk k m1 = HIT_PENDING /\ lookup_chunk k m2 = HIT) (keys_to_store out) /\
    prepare_load (keys_to_store out) m2 = Ok (store_spec out) m3 /\
    Forall (held m3) (keys_to_store out) /\
    complete_load (keys_to_store out) m3 = Ok tt m4 /\ stored m4 = stored m2 /\ slots_exact n m4.
Proof.
  intros Hn Hr Hnd E1. destruct (off_reachable_inv _ _ _ _ _ Hn Hr) as [Hi Hnc].
  pose proof (prepare_store_ok m keys Hi Hnd) as Hw. apply wp_ok in Hw as (r & m' & E & Hi1 & (Hl1 & _) & kept & -> & Hout).
  rewrite E1 in E. injection E as <- <-. destruct Hout as (Hk & Hlen & _ & _ & Hnew & _).
  assert (NoDup (keys_to_store out)) as Hndk.
  { rewrite Hk. apply NoDup_filter. eapply sublist_NoDup; [exact Hnd|apply passing_sublist]. }
  assert (forall j k, keys_to_store out !! j = Some k -> exists id, store_spec out !! j = Some id /\
    stored m1 !! k = Some (mkChunk (-1) id)) as Hslot.
  { intros j k Hj. destruct (store_spec out !! j) as [id|] eqn:Ej.
    - exists id. split; [done|by eapply Hnew].
    - apply lookup_ge_None in Ej. apply lookup_lt_Some in Hj. lia. }
  pose proof (complete_store_ok m1 (keys_to_store out) true Hi1) as Hw. apply wp_ok in Hw as ([] & m2 & E2 & Hi2 & (Hl2 & _) & Hc).
  assert (forall j k id, keys_to_store out !! j = Some k -> store_spec out !! j = Some id ->
    stored m2 !! k = Some (mkChunk 0 id)) as Hready.
  { intros j k id Hj Hid. rewrite Hc, (Hnew j k id Hj Hid). rewrite decide_True; [done|].
    split; [by eapply list_elem_of_lookup_2|done]. }
  assert (Forall (loadable m2) (keys_to_store out)) as Hload.
  { apply Forall_lookup. intros j k Hj. destruct (Hslot j k Hj) as (id & Hid & _).
    exists (mkChunk 0 id). split; [by eapply Hready|cbn; lia]. }
  destruct (load_and_complete_ok m2 _ Hi2 Hndk Hload) as (ids & m3 & m4 & E3 & E4 & Hf & Hb & Hs4 & Hi4 & Hn4).
  assert (ids = store_spec out) as ->.
  { apply list_eq_same_length with (length (store_spec out)); [done|by rewrite Hlen, (Forall2_length _ _ _ Hf)|].
    intros j x y _ Hx Hy. destruct (Forall2_lookup_r _ _ _ _ _ Hf Hx) as (k & Hkj & c & Hck & <-).
    rewrite (Hready j k y Hkj Hy) in Hck. by injection Hck as <-. }
  exists m2, m3, m4. split_and!; try done.
  - apply Forall_lookup. intros j k Hj. destruct (Hslot j k Hj) as (id & Hid & Hs).
    unfold lookup_chunk. by rewrite (pol_get_ok _ _ k (oi_wf _ _ _ Hi1)), (pol_get_ok _ _ k (oi_wf _ _ _ Hi2)), Hs, (Hready j k id Hj Hid).
  - apply Forall_forall. intros k Hkin. rewrite Forall_forall in Hload. destruct (Hload k Hkin) as (c & Hck & Hc0 & _).
    exists (bump 1 c). rewrite Hb, decide_True, Hck by done. split; [done|cbn; lia].
  - replace n with (num_chunks m4); [by apply off_inv_exact|congruence].
Qed.

End Steps.

(** ** Evictions *)

(** LRU eviction is atomic and oldest first.  It raises nothing; when
    fewer than [n] idle chunks lie outside the protected set it returns [None]
    and changes nothing; otherwise it removes exactly the [n] least recently
    used of them and no other chunk. *)
Theorem lru_evict_correct s n prot :
  lru_wf (idle_keys (od_map (chunks s))) s -> 0 <= n ->
  exists r s', lru_evict n prot s = Ok r s' /\
    match r with
    | None => s' = s /\ Z.of_nat (size (idle_keys (od_map (chunks s)) ∖ prot)) < n
    | Some l => evicted_from (od_map (chunks s)) n prot l (od_map (chunks s')) /\
        l.*1 = take (Z.to_nat n) (filter (fun k => k ∉ prot) (evictable_chunks s).*1) /\
        lru_wf (idle_keys (od_map (chunks s'))) s'
    end.
Proof.
  intros Hs Hn. pose proof (lru_evict_ok _ s n prot Hs eq_refl Hn) as Hw. apply wp_ok in Hw as (r & s' & E & Hr).
  exists r, s'. split; [done|]. destruct r; [|done]. tauto.
Qed.

(** ARC eviction is atomic, oldest first in each of its two lists, and
    keeps its bounds.  It raises nothing; when fewer than [n] idle chunks lie
    outside the protected set it returns [None] and changes nothing; otherwise
    it removes exactly [n] of them, from the front of T1 and of T2, touches no
    chunk in use, and the ghost lists and the target stay within the capacity. *)
Theorem arc_evict_correct s n prot :
  arc_wf s -> 0 <= n ->
  exists r s', arc_evict n prot s = Ok r s' /\
    match r with
    | None => s' = s /\ Z.of_nat (size (idle_keys (arc_map s) ∖ prot)) < n
    | Some l => evicted_from (arc_map s) n prot l (arc_map s') /\ arc_wf s' /\
        exists l1 l2 r1 r2, l ≡ₚ l1 ++ l2 /\
          evictables prot (t1 s) = l1 ++ r1 /\ evictables prot (t2 s) = l2 ++ r2
    end.
Proof.
  intros Hs Hn. pose proof (arc_evict_ok s n prot Hs Hn) as Hw. apply wp_ok in Hw as (r & s' & E & Hr). eauto.
Qed.

(** ** Witnesses *)

Definition key_a : OffloadKey := [Byte.x61; Byte.x00].
Definition key_b : OffloadKey := [Byte.x62; Byte.x00].
Definition key_c : OffloadKey := [Byte.x63; Byte.x00].

Lemma NoDup_by_compute (l : list OffloadKey) : bool_decide (NoDup l) = true -> NoDup l.
Proof. apply bool_decide_eq_true. Qed.

Definition final {S A} (c : M S A) (s : S) : S := match c s with Ok _ s' | Raise _ s' => s' end.

(** A manager of two slots that stored [key_a] and [key_b]. *)
Definition demo_init (P : Type) `{CachePolicy P} : CPUOffloadingManager P := cpu_init 2 true 0 8.
Definition demo_stored (P : Type) `{CachePolicySpec P} : CPUOffloadingManager P :=
  final (run_op (OpCompleteStore [key_a; key_b] true))
    (final (run_op (OpPrepareStore [key_a; key_b])) (demo_init P)).

Definition succeeds {S A} (c : M S A) (s : S) : bool := match c s with Ok _ _ => true | Raise _ _ => false end.

Lemma succeeds_final {S} (c : M S unit) (s : S) : succeeds c s = true -> c s = Ok tt (final c s).
Proof. unfold succeeds, final. by destruct (c s) as [[]|]. Qed.

Lemma demo_reachable (P : Type) `{CachePolicySpec P} :
  succeeds (run_op (OpPrepareStore [key_a; key_b])) (demo_init P) = true ->
  succeeds (run_op (OpCompleteStore [key_a; key_b] true))
    (final (run_op (OpPrepareStore [key_a; key_b])) (demo_init P)) = true ->
  off_reachable 2 true 0 8 (demo_stored P).
Proof.
  intros H1 H2. eapply rtc_l; [|eapply rtc_l; [|apply rtc_refl]].
  - apply (off_step_intro _ (OpPrepareStore [key_a; key_b])); [by apply NoDup_by_compute|by apply succeeds_final].
  - apply (off_step_intro _ (OpCompleteStore [key_a; key_b] true)); [exact I|by apply succeeds_final].
Qed.

Lemma demo_reachable_lru : off_reachable 2 true 0 8 (demo_stored LRUCachePolicy).
Proof. apply demo_reachable; vm_compute; reflexivity. Qed.

Lemma demo_reachable_arc : off_reachable 2 true 0 8 (demo_stored ARCCachePolicy).
Proof. apply demo_reachable; vm_compute; reflexivity. Qed.

(** Loading [key_a] from the demo manager. *)
Lemma offload_reachable_invariant_witness :
  slots_exact 2 (demo_stored LRUCachePolicy) /\
  exists m', run_op (OpPrepareLoad [key_a]) (demo_stored LRUCachePolicy) = Ok tt m' /\ slots_exact 2 m'.
Proof.
  apply (offload_reachable_invariant 2 true 0 8); [lia|exact demo_reachable_lru|]. split.
  - apply NoDup_by_compute. vm_compute. reflexivity.
  - apply Forall_singleton. exists (mkChunk 0 0). split; [vm_compute; reflexivity|cbn; lia].
Defined.


Lemma store_load_roundtrip_witness :
  exists m2 m3 m4, let m1 := final (run_op (OpPrepareStore [key_c])) (demo_stored LRUCachePolicy) in
    complete_store [key_c] true m1 = Ok tt m2 /\ prepare_load [key_c] m2 = Ok [0] m3 /\
    complete_load [key_c] m3 = Ok tt m4 /\ slots_exact 2 m4.
Proof.
  destruct (store_load_roundtrip (P := LRUCachePolicy) 2 true 0 8 (demo_stored LRUCachePolicy) [key_c]
    (mkPrepareStore [key_c] [0] [key_a]) (final (run_op (OpPrepareStore [key_c])) (demo_stored LRUCachePolicy)))
    as (m2 & m3 & m4 & E2 & _ & E3 & _ & E4 & _ & Hs).
  - lia.
  - exact demo_reachable_lru.
  - apply NoDup_by_compute. vm_compute. reflexivity.
  - vm_compute. reflexivity.
  - exists m2, m3, m4. split; [exact E2|split; [exact E3|split; [exact E4|exact Hs]]].
Defined.

(** With a store threshold, a stored chunk of the original offer can be evicted
    by that very offer: one slot, threshold two, a tracker of one entry.  The
    tracker has forgotten [key_a], so it is filtered out and not protected. *)
Lemma offered_chunk_evicted :
  let offers := [[key_a]; [key_a]; [key_b]] in
  let m := final (for_each offers (fun ks => discard (prepare_store ks) ;; complete_store ks true))
             (cpu_init (P := LRUCachePolicy) 1 false 2 1) in
  lookup_chunk key_a m = HIT /\
  match prepare_store [key_a; key_b] m with
  | Ok (Some out) m' => evicted_keys out = [key_a] /\ lookup_chunk key_a m' = MISS
  | _ => False
  end.
Proof. vm_compute. repeat split. Qed.

(** Of two idle chunks with [key_a] protected, [key_b] is evicted, and two
    cannot be. *)
Lemma lru_evict_correct_witness :
  let s := policy (demo_stored LRUCachePolicy) in
  (exists r s', lru_evict 1 {[key_a]} s = Ok r s' /\ option_map (fun l => l.*1) r = Some [key_b]) /\
  (exists s', lru_evict 2 {[key_a]} s = Ok None s').
Proof.
  intros s.
  assert (lru_wf (idle_keys (od_map (chunks s))) s) as Hs.
  { destruct (off_reachable_inv 2 true 0 8 _ ltac:(lia) demo_reachable_lru) as [[Hw _ _ _ _ _] _]. exact Hw. }
  split.
  - destruct (lru_evict_correct s 1 {[key_a]} Hs ltac:(lia)) as (r & s' & E & _). exists r, s'. split; [exact E|].
    assert ((fun x => match x with Ok r _ => option_map (fun l => l.*1) r | Raise _ _ => None end) (lru_evict 1 {[key_a]} s)
      = Some [key_b]) as Hv by (vm_compute; reflexivity).
    rewrite E in Hv. exact Hv.
  - destruct (lru_evict_correct s 2 {[key_a]} Hs ltac:(lia)) as (r & s' & E & _). exists s'. rewrite E. f_equal.
    assert ((fun x => match x with Ok (Some _) _ => false | _ => true end) (lru_evict 2 {[key_a]} s) = true) as Hv
      by (vm_compute; reflexivity).
    rewrite E in Hv. by destruct r.
Defined.

Lemma arc_evict_correct_witness :
  let s := policy (demo_stored ARCCachePolicy) in
  exists r s', arc_evict 1 {[key_a]} s = Ok r s' /\ option_map (fun l => l.*1) r = Some [key_b] /\ (b1 s').*1 = [key_b].
Proof.
  intros s.
  assert (arc_wf s) as Hs.
  { destruct (off_reachable_inv 2 true 0 8 _ ltac:(lia) demo_reachable_arc) as [[Hw _ _ _ _ _] _]. exact Hw. }
  destruct (arc_evict_correct s 1 {[key_a]} Hs ltac:(lia)) as (r & s' & E & _). exists r, s'. split; [exact E|].
  assert ((fun x => match x with Ok r s' => (option_map (fun l => l.*1) r, (b1 s').*1) | Raise _ _ => (None, []) end)
    (arc_evict 1 {[key_a]} s) = (Some [key_b], [key_b])) as Hv by (vm_compute; reflexivity).
  rewrite E in Hv. injection Hv as -> ->. split; reflexivity.
Defined.
