(* ===== verification/Tiering.v ===== *)
(** * Offloading over several tiers

    [TieringOffloadingManager] (vllm/v1/kv_offload/tiering/manager.py): the CPU
    tier of Offload.v is the primary tier, the only one the GPU reads and writes,
    and every transfer between it and a secondary tier is a job.  New chunks are
    cascaded to the secondary tiers, chunks found in one are promoted to the
    primary tier.

    A secondary tier is an implementation of the abstract class
    [SecondaryTierManager] (tiering/base.py), here the class [SecondaryTier].  A
    tier that serves remote peers calls back into the manager; such a call is a
    program over the four methods of [ParentManager] ([ServeProgram]).  What a
    tier does on its own threads shows in what [get_finished_jobs] returns.

    Of [TieringMetricsTracker] (tiering/metrics.py) the counts of transfers under
    way are modelled, which assertions check; histograms, labels, durations and
    logging are left out, as are the parameters of a request that only tiers
    read. *)
From Stdlib Require Import ZArith Lia.
From stdpp Require Import base tactics gmap strings numbers option list.
From S2P Require Import Prelude Blocks Env OrderedDict Offload.

Local Open Scope Z_scope.

(** ** Data, base.py *)

Inductive Medium := MediumCPU | MediumSTORAGE.
Inductive Locality := LOCAL | REMOTE.

#[global] Instance Medium_eq_dec : EqDecision Medium.
Proof. solve_decision. Defined.
#[global] Instance Locality_eq_dec : EqDecision Locality.
Proof. solve_decision. Defined.

Record TierMatcher := mkTierMatcher { tm_medium : option Medium; tm_locality : option Locality }.

(** [a is None or b is None or a == b] *)
Definition agrees {A} `{EqDecision A} (a b : option A) : bool :=
  match a, b with Some x, Some y => bool_decide (x = y) | _, _ => true end.

Definition matches (m : TierMatcher) (medium : option Medium) (locality : option Locality) : bool :=
  agrees (tm_medium m) medium && agrees (tm_locality m) locality.

(** The matchers of a [TierFilter]; [ALL] has the one that matches everything, so
    the shortcut for it changes nothing. *)
Definition allows (f : list TierMatcher) (medium : option Medium) (locality : option Locality) : bool :=
  existsb (fun m => matches m medium locality) f.
Definition all_tiers : list TierMatcher := [mkTierMatcher None None].

Record ReqContext := mkReqContext { rc_req_id : string; load_tier_filter : list TierMatcher }.

Inductive OffloadPolicy := CHUNK_LEVEL | REQUEST_LEVEL.

Record ScheduleEndContext := mkScheduleEnd { new_req_ids : list string; preempted_req_ids : list string }.

(** ** Data, tiering/base.py and tiering/manager.py *)

Record TransferJob := mkTransferJob {
  tj_job_id : Z;
  tj_keys : list OffloadKey;
  tj_chunk_ids : list Z;
  is_promotion : bool;
  tj_req_context : ReqContext
}.

Record JobResult := mkJobResult {
  jr_job_id : Z;
  jr_success : bool;
  successful_keys : option (list OffloadKey)
}.

Record PendingPromotion := mkPendingPromotion {
  pp_req_context : ReqContext;
  pp_keys : list OffloadKey;
  pp_chunk_ids : list Z
}.

Record RequestState := mkRequestState {
  rs_req_context : ReqContext;
  pending_primary_stores : Z;
  rs_is_finished : bool;
  request_level_tiers : option (gset Z);
  pending_cascade_keys : list OffloadKey
}.

Definition rs_set_stores (n : Z) (r : RequestState) : RequestState :=
  mkRequestState (rs_req_context r) n (rs_is_finished r) (request_level_tiers r) (pending_cascade_keys r).
Definition rs_set_finished (r : RequestState) : RequestState :=
  mkRequestState (rs_req_context r) (pending_primary_stores r) true (request_level_tiers r) (pending_cascade_keys r).
Definition rs_set_parked (l : list OffloadKey) (r : RequestState) : RequestState :=
  mkRequestState (rs_req_context r) (pending_primary_stores r) (rs_is_finished r) (request_level_tiers r) l.

Record JobMetadata := mkJobMetadata { transfer_job : TransferJob; tier_idx : Z }.

(** [_TierState] of tiering/metrics.py *)
Record TierCounts := mkTierCounts {
  active_promotion_count : Z;
  active_cascade_count : Z;
  primary_write_chunk_count : Z;
  primary_read_chunk_count : Z
}.

(** ** Secondary tiers *)

(** What a tier does with the [parent] handle of [serve_external_requests]; the
    state is the tier's own when the call returns. *)
Inductive ServeProgram (T : Type) :=
| ServeReturn (t : T)
| ServeNewRequest (ctx : ReqContext) (k : OffloadPolicy -> ServeProgram T)
| ServeLookup (key : OffloadKey) (ctx : ReqContext) (k : LookupResult -> ServeProgram T)
| ServeStoreJob (keys : list OffloadKey) (ctx : ReqContext) (k : TransferJob -> ServeProgram T)
| ServeFinished (ctx : ReqContext) (k : ServeProgram T).
Arguments ServeReturn {T}.
Arguments ServeNewRequest {T}.
Arguments ServeLookup {T}.
Arguments ServeStoreJob {T}.
Arguments ServeFinished {T}.

Class SecondaryTier (T : Type) := {
  tier_medium : T -> option Medium;
  tier_locality : T -> option Locality;
  tier_lookup : OffloadKey -> ReqContext -> M T LookupResult;
  tier_submit_store : TransferJob -> M T unit;
  tier_submit_load : TransferJob -> M T unit;
  tier_get_finished_jobs : M T (list JobResult);
  tier_has_pending_work : T -> bool;
  tier_take_events : M T (list OffloadingEvent);
  tier_touch : list OffloadKey -> ReqContext -> M T unit;
  tier_on_new_request : ReqContext -> M T OffloadPolicy;
  tier_on_request_finished : ReqContext -> M T unit;
  tier_serve_external_requests : T -> ServeProgram T;
  tier_on_schedule_end : ScheduleEndContext -> M T unit;
  tier_drain_jobs : M T unit
}.

(** ** The manager's state *)

Record TieringOffloadingManager (P T : Type) := mkTiering {
  primary_tier : CPUOffloadingManager P;
  secondary_tiers : list T;
  job_id_counter : Z;
  jobs : list (Z * JobMetadata);
  tier_states : list TierCounts;
  pending_load_submissions : list (Z * list (string * PendingPromotion));
  processed_jobs_this_step : bool;
  req_state : list (string * RequestState)
}.
Arguments mkTiering {P T}.
Arguments primary_tier {P T}.
Arguments secondary_tiers {P T}.
Arguments job_id_counter {P T}.
Arguments jobs {P T}.
Arguments tier_states {P T}.
Arguments pending_load_submissions {P T}.
Arguments processed_jobs_this_step {P T}.
Arguments req_state {P T}.

Section Tiering.
Context `{Env} {P T : Type} `{CachePolicy P} `{SecondaryTier T}.
(** How often the loop of [_promote_missing_sync] polls before its deadline. *)
Context (sync_polls : nat).
Local Abbreviation Tiers := (TieringOffloadingManager P T).

Definition set_primary (v : CPUOffloadingManager P) (s : Tiers) : Tiers :=
  mkTiering v (secondary_tiers s) (job_id_counter s) (jobs s) (tier_states s) (pending_load_submissions s)
    (processed_jobs_this_step s) (req_state s).
Definition set_tiers (v : list T) (s : Tiers) : Tiers :=
  mkTiering (primary_tier s) v (job_id_counter s) (jobs s) (tier_states s) (pending_load_submissions s)
    (processed_jobs_this_step s) (req_state s).
Definition set_counter (v : Z) (s : Tiers) : Tiers :=
  mkTiering (primary_tier s) (secondary_tiers s) v (jobs s) (tier_states s) (pending_load_submissions s)
    (processed_jobs_this_step s) (req_state s).
Definition set_jobs (v : list (Z * JobMetadata)) (s : Tiers) : Tiers :=
  mkTiering (primary_tier s) (secondary_tiers s) (job_id_counter s) v (tier_states s) (pending_load_submissions s)
    (processed_jobs_this_step s) (req_state s).
Definition set_tier_states (v : list TierCounts) (s : Tiers) : Tiers :=
  mkTiering (primary_tier s) (secondary_tiers s) (job_id_counter s) (jobs s) v (pending_load_submissions s)
    (processed_jobs_this_step s) (req_state s).
Definition set_pending_loads (v : list (Z * list (string * PendingPromotion))) (s : Tiers) : Tiers :=
  mkTiering (primary_tier s) (secondary_tiers s) (job_id_counter s) (jobs s) (tier_states s) v
    (processed_jobs_this_step s) (req_state s).
Definition set_processed (v : bool) (s : Tiers) : Tiers :=
  mkTiering (primary_tier s) (secondary_tiers s) (job_id_counter s) (jobs s) (tier_states s) (pending_load_submissions s)
    v (req_state s).
Definition set_req_state (v : list (string * RequestState)) (s : Tiers) : Tiers :=
  mkTiering (primary_tier s) (secondary_tiers s) (job_id_counter s) (jobs s) (tier_states s) (pending_load_submissions s)
    (processed_jobs_this_step s) v.

(** [TieringOffloadingManager.__init__] *)
Definition tiering_init (primary : CPUOffloadingManager P) (tiers : list T) : Tiers :=
  mkTiering primary tiers 0 [] (replicate (length tiers) (mkTierCounts 0 0 0 0)) [] false [].

Definition on_primary {A} (c : M (CPUOffloadingManager P) A) : M Tiers A := zoom primary_tier set_primary c.

(** A call on the tier of an index of [enumerate]. *)
Definition on_tier {A} (i : Z) (c : M T A) : M Tiers A := fun s =>
  match secondary_tiers s !! Z.to_nat i with
  | None => Raise IndexError s
  | Some t => match c t with
              | Ok a t' => Ok a (set_tiers (<[Z.to_nat i := t']> (secondary_tiers s)) s)
              | Raise e t' => Raise e (set_tiers (<[Z.to_nat i := t']> (secondary_tiers s)) s)
              end
  end.
Definition tier_indices (s : Tiers) : list Z := seqZ 0 (zlen (secondary_tiers s)).
Definition each_tier (f : Z -> M Tiers unit) : M Tiers unit := s ← get; for_each (tier_indices s) f.

(** [self._req_state[req_id]] and an assignment to its attributes. *)
Definition request_state (rid : string) : M Tiers RequestState := s ← get; of_option KeyError (od_get rid (req_state s)).
Definition modify_request_state (rid : string) (f : RequestState -> RequestState) : M Tiers unit :=
  r ← request_state rid; modify (fun s => set_req_state (od_set rid (f r) (req_state s)) s).

(** ** Jobs *)

(** [TieringMetricsTracker.on_job_registered] *)
Definition count_registered (j : TransferJob) (c : TierCounts) : TierCounts :=
  let n := zlen (tj_chunk_ids j) in
  if is_promotion j
  then mkTierCounts (active_promotion_count c + 1) (active_cascade_count c) (primary_write_chunk_count c + n) (primary_read_chunk_count c)
  else mkTierCounts (active_promotion_count c) (active_cascade_count c + 1) (primary_write_chunk_count c) (primary_read_chunk_count c + n).
Definition on_job_registered (m : JobMetadata) : M Tiers unit :=
  s ← get;
  c ← of_option IndexError (tier_states s !! Z.to_nat (tier_idx m));
  modify (set_tier_states (<[Z.to_nat (tier_idx m) := count_registered (transfer_job m) c]> (tier_states s))).

(** [on_job_finished]: [_decrement_tier_state] *)
Definition on_job_finished (m : JobMetadata) : M Tiers unit :=
  s ← get;
  c ← of_option IndexError (tier_states s !! Z.to_nat (tier_idx m));
  let n := zlen (tj_chunk_ids (transfer_job m)) in
  if is_promotion (transfer_job m) then
    assert_ (0 <? active_promotion_count c) ;;
    modify (set_tier_states (<[Z.to_nat (tier_idx m) :=
      mkTierCounts (active_promotion_count c - 1) (active_cascade_count c) (primary_write_chunk_count c - n) (primary_read_chunk_count c)]> (tier_states s))) ;;
    assert_ (0 <=? primary_write_chunk_count c - n)
  else
    assert_ (0 <? active_cascade_count c) ;;
    modify (set_tier_states (<[Z.to_nat (tier_idx m) :=
      mkTierCounts (active_promotion_count c) (active_cascade_count c - 1) (primary_write_chunk_count c) (primary_read_chunk_count c - n)]> (tier_states s))) ;;
    assert_ (0 <=? primary_read_chunk_count c - n).

(** [assert_idle] *)
Definition idle_counts (c : TierCounts) : bool :=
  (active_promotion_count c =? 0) && (active_cascade_count c =? 0) && (primary_write_chunk_count c =? 0) &&
  (primary_read_chunk_count c =? 0).

(** [_next_job_id] *)
Definition next_job_id : M Tiers Z :=
  s ← get; modify (set_counter (job_id_counter s + 1)) ;; mret (job_id_counter s).

(** [_register_job] *)
Definition register_job (j : TransferJob) (i : Z) : M Tiers unit :=
  let m := mkJobMetadata j i in
  modify (fun s => set_jobs (od_set (tj_job_id j) m (jobs s)) s) ;;
  on_job_registered m.

(** [_pop_job] *)
Definition pop_job (id : Z) : M Tiers (option JobMetadata) :=
  s ← get; modify (set_jobs (od_pop id (jobs s))) ;; mret (od_get id (jobs s)).

(** [_complete_promotion]: which keys arrived and which did not *)
Definition promotion_outcome (j : TransferJob) (r : JobResult) : M Tiers (list OffloadKey * list OffloadKey) :=
  if jr_success r then mret (tj_keys j, []) else
  match successful_keys r with
  | Some ((_ :: _) as arrived) =>
      assert_ (bool_decide (list_to_set arrived ⊆ (list_to_set (tj_keys j) : gset OffloadKey))) ;;
      mret (arrived, set_order (list_to_set (tj_keys j) ∖ list_to_set arrived))
  | _ => mret ([], tj_keys j)
  end.
Definition complete_promotion (j : TransferJob) (r : JobResult) : M Tiers unit :=
  o ← promotion_outcome j r;
  when (negb (bool_decide (o.1 = []))) (on_primary (complete_store o.1 true)) ;;
  when (negb (bool_decide (o.2 = []))) (on_primary (complete_store o.2 false)).

(** The body of the loops of [_process_finished_jobs]. *)
Definition finish_job (i : Z) (r : JobResult) : M Tiers unit :=
  popped ← pop_job (jr_job_id r);
  m ← of_option AssertionError popped;
  assert_ (tier_idx m =? i) ;;
  on_job_finished m ;;
  if is_promotion (transfer_job m) then complete_promotion (transfer_job m) r
  else on_primary (complete_load (tj_keys (transfer_job m))).

Definition process_finished_jobs : M Tiers unit :=
  each_tier (fun i => results ← on_tier i tier_get_finished_jobs; for_each results (finish_job i)).

(** [_maybe_process_finished_jobs] *)
Definition maybe_process_finished_jobs : M Tiers unit :=
  s ← get;
  if processed_jobs_this_step s then mret tt else
  modify (set_processed true) ;;
  process_finished_jobs.

(** ** Lookup and promotion *)

(** [_initiate_promotion] *)
Definition initiate_promotion (i : Z) (key : OffloadKey) (ctx : ReqContext) : M Tiers bool :=
  r ← on_primary (prepare_store [key]);
  match r with
  | None => mret false
  | Some out =>
      modify (fun s =>
        let by_ctx := default [] (od_get i (pending_load_submissions s)) in
        let e := default (mkPendingPromotion ctx [] []) (od_get (rc_req_id ctx) by_ctx) in
        let e := mkPendingPromotion (pp_req_context e) (pp_keys e ++ keys_to_store out) (pp_chunk_ids e ++ store_spec out) in
        set_pending_loads (od_set i (od_set (rc_req_id ctx) e by_ctx) (pending_load_submissions s)) s) ;;
      mret true
  end.

(** The loop of [lookup] over the secondary tiers. *)
Fixpoint lookup_tiers (key : OffloadKey) (ctx : ReqContext) (exclude : option Z) (any_retry : bool) (idxs : list Z) : M Tiers LookupResult :=
  match idxs with
  | [] => mret (if any_retry then RETRY else MISS)
  | i :: rest =>
      if bool_decide (exclude = Some i) then lookup_tiers key ctx exclude any_retry rest else
      s ← get;
      t ← of_option IndexError (secondary_tiers s !! Z.to_nat i);
      if negb (allows (load_tier_filter ctx) (tier_medium t) (tier_locality t))
      then lookup_tiers key ctx exclude any_retry rest else
      r ← on_tier i (tier_lookup key ctx);
      match r with
      | HIT => promoted ← initiate_promotion i key ctx; mret (if promoted : bool then HIT_PENDING else MISS)
      | RETRY => lookup_tiers key ctx exclude true rest
      | _ => lookup_tiers key ctx exclude any_retry rest
      end
  end.

Definition tiering_lookup (key : OffloadKey) (ctx : ReqContext) (exclude : option Z) : M Tiers LookupResult :=
  maybe_process_finished_jobs ;;
  s ← get;
  match lookup_chunk key (primary_tier s) with
  | HIT => mret HIT
  | HIT_PENDING => mret HIT_PENDING
  | _ => lookup_tiers key ctx exclude false (tier_indices s)
  end.

(** The body of the loops of [_flush_pending_promotions]. *)
Definition submit_promotion (i : Z) (e : PendingPromotion) : M Tiers unit :=
  id ← next_job_id;
  let j := mkTransferJob id (pp_keys e) (pp_chunk_ids e) true (pp_req_context e) in
  register_job j i ;;
  on_tier i (tier_submit_load j).

Definition flush_pending_promotions : M Tiers unit :=
  s ← get;
  match pending_load_submissions s with
  | [] => mret tt
  | pending =>
      for_each pending (fun e => for_each e.2 (fun f => submit_promotion e.1 f.2)) ;;
      modify (set_pending_loads [])
  end.

(** ** Loads *)

(** The search of [_promote_missing_sync] for a tier that has the key. *)
Fixpoint promote_from (key : OffloadKey) (ctx : ReqContext) (idxs : list Z) : M Tiers bool :=
  match idxs with
  | [] => mret false
  | i :: rest =>
      s ← get;
      t ← of_option IndexError (secondary_tiers s !! Z.to_nat i);
      if negb (allows (load_tier_filter ctx) (tier_medium t) (tier_locality t)) then promote_from key ctx rest else
      r ← on_tier i (tier_lookup key ctx);
      match r with
      | HIT => initiate_promotion i key ctx
      | _ => promote_from key ctx rest
      end
  end.

(** Whether all the keys could be promoted; the loop returns at the first that
    could not. *)
Fixpoint promote_all (keys : list OffloadKey) (ctx : ReqContext) : M Tiers bool :=
  match keys with
  | [] => mret true
  | key :: rest =>
      s ← get;
      promoted ← promote_from key ctx (tier_indices s);
      if promoted : bool then promote_all rest ctx else mret false
  end.

(** The polling loop, until its deadline. *)
Fixpoint wait_for_promotions (polls : nat) (missing : list OffloadKey) : M Tiers unit :=
  process_finished_jobs ;;
  s ← get;
  if forallb (fun key => match lookup_chunk key (primary_tier s) with HIT => true | _ => false end) missing then mret tt else
  match polls with
  | O => mret tt
  | S polls => wait_for_promotions polls missing
  end.

(** [_promote_missing_sync] *)
Definition promote_missing_sync (keys : list OffloadKey) (ctx : ReqContext) : M Tiers unit :=
  s ← get;
  let missing := filter (fun key => pol_get key (policy (primary_tier s)) = None) keys in
  match missing with
  | [] => mret tt
  | _ =>
      promoted ← promote_all missing ctx;
      if negb promoted then mret tt else
      flush_pending_promotions ;;
      wait_for_promotions sync_polls missing
  end.

(** [_log_missing_keys] asks every tier about the keys that are not ready. *)
Definition log_missing_keys (keys : list OffloadKey) (ctx : ReqContext) : M Tiers unit :=
  for_each keys (fun key =>
    s ← get;
    match lookup_chunk key (primary_tier s) with
    | HIT => mret tt
    | _ => each_tier (fun i => on_tier i (tier_lookup key ctx) ;; mret tt)
    end).

(** [try: ... except AssertionError: ...; raise] *)
Definition on_assertion {A} (c : M Tiers A) (h : M Tiers unit) : M Tiers A := fun s =>
  match c s with
  | Raise AssertionError s' => (h ;; raise AssertionError) s'
  | r => r
  end.

Definition tiering_prepare_load (keys : list OffloadKey) (ctx : ReqContext) : M Tiers (list Z) :=
  promote_missing_sync keys ctx ;;
  on_assertion (on_primary (prepare_load keys)) (log_missing_keys keys ctx).

Definition tiering_complete_load (keys : list OffloadKey) : M Tiers unit := on_primary (complete_load keys).
Definition tiering_reserve_hits (keys : list OffloadKey) : M Tiers (list OffloadKey) := on_primary (reserve_hits keys).
Definition tiering_release_reservation (keys : list OffloadKey) : M Tiers unit := on_primary (release_reservation keys).

Definition tiering_touch (keys : list OffloadKey) (ctx : ReqContext) : M Tiers unit :=
  on_primary (cpu_touch keys) ;;
  each_tier (fun i => on_tier i (tier_touch keys ctx)).

(** ** Stores *)

Definition create_store_job (keys : list OffloadKey) (ctx : ReqContext) (i : Z) : M Tiers TransferJob :=
  chunk_ids ← on_primary (prepare_load keys);
  id ← next_job_id;
  let j := mkTransferJob id keys chunk_ids false ctx in
  register_job j i ;;
  mret j.

(** A store job, given to its tier. *)
Definition cascade (keys : list OffloadKey) (ctx : ReqContext) (i : Z) : M Tiers unit :=
  j ← create_store_job keys ctx i;
  on_tier i (tier_submit_store j).

(** [_cascade_existing_chunks_to_request_level_tiers] *)
Definition cascade_existing (keys : list OffloadKey) (ctx : ReqContext) (tiers : gset Z) : M Tiers unit :=
  request_state (rc_req_id ctx) ;;
  ready ← fold_m (fun ready key =>
    s ← get;
    match lookup_chunk key (primary_tier s) with
    | HIT => mret (ready ++ [key])
    | HIT_PENDING =>
        modify_request_state (rc_req_id ctx) (fun r => rs_set_parked (pending_cascade_keys r ++ [key]) r) ;; mret ready
    | MISS => mret ready
    | RETRY => raise AssertionError
    end) [] keys;
  match ready with
  | [] => mret tt
  | _ => for_each (int_set_order tiers) (cascade ready ctx)
  end.

(** A set that is neither [None] nor empty. *)
Definition some_tiers (x : option (gset Z)) : option (gset Z) :=
  match x with Some tiers => if bool_decide (tiers = ∅) then None else Some tiers | None => None end.

Definition tiering_prepare_store (keys : list OffloadKey) (ctx : ReqContext) : M Tiers (option PrepareStoreOutput) :=
  maybe_process_finished_jobs ;;
  r ← on_primary (prepare_store keys);
  match r with
  | None => mret None
  | Some out =>
      when (negb (bool_decide (keys_to_store out = [])))
        (modify_request_state (rc_req_id ctx) (fun r => rs_set_stores (pending_primary_stores r + 1) r)) ;;
      r ← request_state (rc_req_id ctx);
      match some_tiers (request_level_tiers r), filter (fun k => k ∉ keys_to_store out) keys with
      | Some tiers, (_ :: _) as existing => cascade_existing existing ctx tiers
      | _, _ => mret tt
      end ;;
      mret (Some out)
  end.

(** ** Requests *)

(** [_maybe_finalize_request] *)
Definition maybe_finalize_request (rid : string) (exclude : option Z) : M Tiers unit :=
  r ← request_state rid;
  if negb (rs_is_finished r) then mret tt else
  if negb (pending_primary_stores r =? 0) then mret tt else
  if negb (bool_decide (pending_cascade_keys r = [])) then mret tt else
  each_tier (fun i => if bool_decide (exclude = Some i) then mret tt else on_tier i (tier_on_request_finished (rs_req_context r))) ;;
  modify (fun s => set_req_state (od_pop rid (req_state s)) s).

Definition tiering_complete_store (keys : list OffloadKey) (ctx : ReqContext) (success : bool) : M Tiers unit :=
  on_primary (complete_store keys success) ;;
  when success (each_tier (cascade keys ctx)) ;;
  r ← request_state (rc_req_id ctx);
  assert_ (0 <? pending_primary_stores r) ;;
  modify_request_state (rc_req_id ctx) (fun r => rs_set_stores (pending_primary_stores r - 1) r) ;;
  maybe_finalize_request (rc_req_id ctx) None.

(** [_flush_pending_cascades] *)
Definition flush_parked (rid : string) : M Tiers unit :=
  r ← request_state rid;
  match pending_cascade_keys r with
  | [] => mret tt
  | keys =>
      tiers ← of_option AssertionError (some_tiers (request_level_tiers r));
      modify_request_state rid (rs_set_parked []) ;;
      cascade_existing keys (rs_req_context r) tiers ;;
      maybe_finalize_request rid None
  end.
Definition flush_pending_cascades : M Tiers unit := s ← get; for_each (req_state s).*1 flush_parked.

Definition tiering_on_new_request (ctx : ReqContext) (exclude : option Z) : M Tiers OffloadPolicy :=
  s ← get;
  tiers ← fold_m (fun tiers i =>
    if bool_decide (exclude = Some i) then mret tiers else
    p ← on_tier i (tier_on_new_request ctx);
    match p with
    | REQUEST_LEVEL => mret (Some ({[i]} ∪ default ∅ tiers))
    | CHUNK_LEVEL => mret tiers
    end) None (tier_indices s);
  modify (fun s => set_req_state (od_set (rc_req_id ctx) (mkRequestState ctx 0 false tiers []) (req_state s)) s) ;;
  mret (match some_tiers tiers with Some _ => REQUEST_LEVEL | None => CHUNK_LEVEL end).

(** The primary tier has nothing to do when a request finishes. *)
Definition tiering_on_request_finished (ctx : ReqContext) (exclude : option Z) : M Tiers unit :=
  modify_request_state (rc_req_id ctx) rs_set_finished ;;
  maybe_finalize_request (rc_req_id ctx) exclude.

(** ** Steps *)

(** [serve_external_requests] of the tier [i], with its [_SecondaryTierFacingParent]. *)
Fixpoint run_serve (i : Z) (p : ServeProgram T) : M Tiers unit :=
  match p with
  | ServeReturn t => modify (fun s => set_tiers (<[Z.to_nat i := t]> (secondary_tiers s)) s)
  | ServeNewRequest ctx k => r ← tiering_on_new_request ctx (Some i); run_serve i (k r)
  | ServeLookup key ctx k => r ← tiering_lookup key ctx (Some i); run_serve i (k r)
  | ServeStoreJob keys ctx k => j ← create_store_job keys ctx i; run_serve i (k j)
  | ServeFinished ctx k => tiering_on_request_finished ctx (Some i) ;; run_serve i k
  end.

Definition tiering_on_schedule_end (c : ScheduleEndContext) : M Tiers unit :=
  maybe_process_finished_jobs ;;
  each_tier (fun i => s ← get; t ← of_option IndexError (secondary_tiers s !! Z.to_nat i);
                      run_serve i (tier_serve_external_requests t)) ;;
  modify (set_processed false) ;;
  flush_pending_promotions ;;
  flush_pending_cascades ;;
  each_tier (fun i => on_tier i (tier_on_schedule_end c)).

Definition tiering_has_pending_work (s : Tiers) : bool :=
  negb (bool_decide (jobs s = [])) ||
  existsb (fun e => negb (bool_decide (pending_cascade_keys e.2 = []))) (req_state s) ||
  existsb tier_has_pending_work (secondary_tiers s).

Definition tiering_take_events : M Tiers (list OffloadingEvent) :=
  es ← on_primary take_off_events;
  s ← get;
  fold_m (fun es i => es' ← on_tier i tier_take_events; mret (es ++ es')) es (tier_indices s).

(** [reset_cache]: the loop over the requests *)
Definition reset_request (finished : list string) (rid : string) : M Tiers (list string) :=
  modify_request_state rid (fun r => rs_set_parked [] (rs_set_stores 0 r)) ;;
  r ← request_state rid;
  if negb (rs_is_finished r) then mret finished else
  each_tier (fun i => on_tier i (tier_on_request_finished (rs_req_context r))) ;;
  mret (finished ++ [rid]).

Definition tiering_reset_cache : M Tiers unit :=
  each_tier (fun i => on_tier i tier_drain_jobs) ;;
  process_finished_jobs ;;
  s ← get;
  assert_ (bool_decide (jobs s = [])) ;;
  modify (set_pending_loads []) ;;
  assert_ (forallb idle_counts (tier_states s)) ;;
  finished ← fold_m reset_request [] (req_state s).*1;
  on_primary reset_cache ;;
  for_each finished (fun rid => modify (fun s => set_req_state (od_pop rid (req_state s)) s)) ;;
  modify (set_processed false).

End Tiering.
