(* ===== verification/TieringPrimary.v ===== *)
(** * The primary tier and what is under way on it

    The CPU manager of Offload.v, seen by the manager of several tiers: which keys
    are being read (once per transfer, load or reservation) and which are being
    written.  A chunk's reference count is the number of its readers, and a
    chunk with readers or a writer keeps its slot whatever is called. *)
From Stdlib Require Import ZArith QArith Lia.
From stdpp Require Import base tactics gmap strings numbers option list.
From S2P Require Import Prelude OrderedDict Offload OffloadPolicies OffloadSpec.

Local Open Scope Z_scope.

(** How often a key occurs. *)
Definition kocc (k : OffloadKey) (l : list OffloadKey) : Z := zlen (filter (fun x => x = k) l).

Lemma kocc_cons k x l : kocc k (x :: l) = (if decide (x = k) then 1 else 0) + kocc k l.
Proof. unfold kocc. rewrite filter_cons. destruct (decide (x = k)); [rewrite zlen_cons|]; lia. Qed.
Lemma kocc_app k l1 l2 : kocc k (l1 ++ l2) = kocc k l1 + kocc k l2.
Proof. unfold kocc. by rewrite filter_app, zlen_app. Qed.
Lemma kocc_nonneg k l : 0 <= kocc k l.
Proof. apply zlen_nonneg. Qed.
Lemma kocc_pos k l : k ∈ l <-> 0 < kocc k l.
Proof.
  induction l as [|x l IH]; [split; [by intros ?%elem_of_nil|change (kocc k []) with 0; lia]|]. rewrite elem_of_cons, kocc_cons, IH.
  pose proof (kocc_nonneg k l). destruct (decide (x = k)) as [->|]; split; try lia; [by left|]. intros [->|]; [done|lia].
Qed.
Lemma kocc_zero k l : k ∉ l -> kocc k l = 0.
Proof. rewrite kocc_pos. pose proof (kocc_nonneg k l). lia. Qed.
Lemma kocc_le k l : kocc k l <= zlen l.
Proof. unfold kocc, zlen. pose proof (length_filter (fun x => x = k) l). lia. Qed.
#[export] Instance kocc_perm k : Proper ((≡ₚ) ==> (=)) (kocc k).
Proof. intros l1 l2 Hl. unfold kocc, zlen. by rewrite Hl. Qed.

Lemma kocc_once k l : NoDup l -> k ∈ l -> kocc k l = 1.
Proof.
  intros Hnd Hk. induction l as [|x l IH]; [by apply elem_of_nil in Hk|]. apply NoDup_cons in Hnd as [Hx Hnd]. rewrite kocc_cons.
  destruct (decide (x = k)) as [->|Hne]; [by rewrite kocc_zero|]. rewrite IH; [done|done|]. apply elem_of_cons in Hk as [->|]; done.
Qed.

Section Primary.
Context {P : Type} `{CachePolicySpec P}.
Implicit Types (m : CPUOffloadingManager P) (R W : list OffloadKey).
Local Abbreviation stored m := (pol_map (policy m)).

(** [R]: the keys being read, [W]: the keys being written. *)
Record primary_ok m R W : Prop := {
  po_inv : off_inv_at [] 0 m;
  po_once : NoDup W;
  po_pending : forall k, k ∈ W <-> exists c, stored m !! k = Some c /\ chunk_ref c = -1;
  po_refs : forall k c, stored m !! k = Some c -> chunk_ref c <> -1 -> chunk_ref c = kocc k R;
  po_readers : forall k, k ∈ R -> exists c, stored m !! k = Some c /\ chunk_ref c <> -1;
  (** a primary tier has no [store_threshold] *)
  po_unfiltered : counts m = None
}.

(** The slot of a key. *)
Definition slot m (k : OffloadKey) : option Z := chunk_id <$> stored m !! k.

(** Under way: read or written. *)
Definition busy R W (k : OffloadKey) : Prop := k ∈ R \/ k ∈ W.
(** What is under way keeps its slot. *)
Definition slots_kept R W m m' : Prop := forall k, busy R W k -> slot m' k = slot m k.

#[global] Instance primary_ok_perm m : Proper ((≡ₚ) ==> (≡ₚ) ==> iff) (primary_ok m).
Proof.
  intros R1 R2 HR W1 W2 HW. split; intros [I1 I2 I3 I4 I5 I6]; split; try done.
  - by rewrite <- HW.
  - intros k. by rewrite <- HW.
  - intros k c Hk Hc. rewrite <- HR. by apply I4.
  - intros k. rewrite <- HR. apply I5.
  - by rewrite HW.
  - intros k. by rewrite HW.
  - intros k c Hk Hc. rewrite HR. by apply I4.
  - intros k. rewrite HR. apply I5.
Qed.

Lemma only_policy_counts m m' : only_policy m m' -> counts m' = counts m.
Proof. by intros (s & ev & w & ->). Qed.

Lemma reader_stored m R W k : primary_ok m R W -> k ∈ R ->
  exists c, stored m !! k = Some c /\ chunk_ref c = kocc k R /\ 0 < chunk_ref c.
Proof.
  intros Hp Hk. destruct (po_readers _ _ _ Hp k Hk) as (c & Hc & Hr). exists c. split; [done|].
  rewrite (po_refs _ _ _ Hp k c Hc Hr). split; [done|by apply kocc_pos].
Qed.

Lemma lookup_spec m R W k : primary_ok m R W ->
  match lookup_chunk k m with
  | HIT => exists c, stored m !! k = Some c /\ chunk_ref c = kocc k R
  | HIT_PENDING => k ∈ W
  | MISS => stored m !! k = None
  | RETRY => False
  end.
Proof.
  intros Hp. unfold lookup_chunk. rewrite (pol_get_ok _ _ k (oi_wf _ _ _ (po_inv _ _ _ Hp))).
  destruct (stored m !! k) as [c|] eqn:Hc; [|done]. pose proof (oi_refs _ _ _ (po_inv _ _ _ Hp) k c Hc) as Hr.
  unfold is_ready. destruct (Z.leb_spec 0 (chunk_ref c)).
  - exists c. split; [done|]. apply (po_refs _ _ _ Hp k c Hc). lia.
  - apply (po_pending _ _ _ Hp). exists c. split; [done|lia].
Qed.

(** A reader arrives and leaves. *)
Lemma pin_reader m R W k c :
  primary_ok m R W -> stored m !! k = Some c -> chunk_ref c = kocc k R -> kocc k R + 1 < 2 ^ 31 ->
  wp (pin k c) (fun _ m' => primary_ok m' (k :: R) W /\ (forall k', slot m' k' = slot m k') /\ only_policy m m') m.
Proof.
  intros Hp Hk Hr Hb. pose proof Hp as [I1 I2 I3 I4 I5 I6]. pose proof (kocc_nonneg k R).
  eapply wp_mono; [apply (pin_ok [] 0 m k c); try done; lia|]. intros [] m' (Hi & Hm & Ho).
  assert (forall k' c', stored m' !! k' = Some c' -> exists c0, stored m !! k' = Some c0 /\
    c' = if decide (k = k') then bump 1 c else c0) as Hback.
  { intros k' c'. rewrite Hm. destruct (decide (k = k')) as [<-|Hne].
    - rewrite lookup_insert_eq. intros [= <-]. by exists c.
    - rewrite lookup_insert_ne by done. intros Hc'. by exists c'. }
  split_and!; [|intros k'; unfold slot; rewrite Hm; destruct (decide (k = k')) as [<-|Hne]|done].
  2:{ by rewrite lookup_insert_eq, Hk. }
  2:{ by rewrite lookup_insert_ne. }
  split; rewrite ?(only_policy_counts _ _ Ho); try done.
  - intros k'. rewrite I3, Hm. destruct (decide (k = k')) as [<-|Hne]; [rewrite lookup_insert_eq|by rewrite lookup_insert_ne].
    split; intros (c' & Hc' & Hr'); [rewrite Hk in Hc'; injection Hc' as <-; lia|injection Hc' as <-; cbn in Hr'; lia].
  - intros k' c' Hc' Hr'. destruct (Hback k' c' Hc') as (c0 & Hc0 & ->). rewrite kocc_cons. destruct (decide (k = k')) as [<-|Hne].
    + cbn. lia.
    + rewrite (I4 k' c0 Hc0 Hr'). lia.
  - intros k' [->|Hin]%elem_of_cons; rewrite Hm.
    + exists (bump 1 c). rewrite lookup_insert_eq. split; [done|cbn; lia].
    + destruct (decide (k = k')) as [<-|Hne]; [exists (bump 1 c); rewrite lookup_insert_eq; split; [done|cbn; lia]|].
      rewrite lookup_insert_ne by done. by apply I5.
Qed.

Lemma unpin_reader m R W k :
  primary_ok m (k :: R) W ->
  wp (unpin k) (fun _ m' => primary_ok m' R W /\ (forall k', slot m' k' = slot m k') /\ only_policy m m') m.
Proof.
  intros Hp. pose proof Hp as [I1 I2 I3 I4 I5 I6]. destruct (reader_stored _ _ _ k Hp) as (c & Hk & Hr & Hpos); [by left|].
  rewrite kocc_cons, decide_True in Hr by done. pose proof (kocc_nonneg k R).
  eapply wp_mono; [by apply (unpin_ok m k c)|]. intros [] m' (Hi & Hm & Ho).
  split_and!; [|intros k'; unfold slot; rewrite Hm; destruct (decide (k = k')) as [<-|Hne]|done].
  2:{ by rewrite lookup_insert_eq, Hk. }
  2:{ by rewrite lookup_insert_ne. }
  split; rewrite ?(only_policy_counts _ _ Ho); try done.
  - intros k'. rewrite I3, Hm. destruct (decide (k = k')) as [<-|Hne]; [rewrite lookup_insert_eq|by rewrite lookup_insert_ne].
    split; intros (c' & Hc' & Hr'); [rewrite Hk in Hc'; injection Hc' as <-; lia|injection Hc' as <-; cbn in Hr'; lia].
  - intros k' c'. rewrite Hm. destruct (decide (k = k')) as [<-|Hne].
    + rewrite lookup_insert_eq. intros [= <-] _. cbn. lia.
    + rewrite lookup_insert_ne by done. intros Hc' Hr'. rewrite (I4 k' c' Hc' Hr'), kocc_cons, decide_False by done. lia.
  - intros k' Hin. rewrite Hm. destruct (decide (k = k')) as [<-|Hne].
    + exists (bump (-1) c). rewrite lookup_insert_eq. split; [done|]. apply kocc_pos in Hin. cbn. lia.
    + rewrite lookup_insert_ne by done. apply I5. by right.
Qed.

Lemma only_policy_chunks m m' : only_policy m m' -> num_chunks m' = num_chunks m.
Proof. by intros (s & ev & w & ->). Qed.

(** Every key is there and ready. *)
Definition all_ready m (keys : list OffloadKey) : Prop := forall k, k ∈ keys -> exists c, stored m !! k = Some c /\ chunk_ref c <> -1.

Lemma prepare_load_spec m R W keys :
  primary_ok m R W -> all_ready m keys -> zlen (keys ++ R) < 2 ^ 31 ->
  wp (prepare_load keys) (fun ids m' => primary_ok m' (keys ++ R) W /\ (forall k, slot m' k = slot m k) /\
    Forall2 (fun k id => slot m k = Some id) keys ids /\ num_chunks m' = num_chunks m) m.
Proof.
  intros Hp Hr Hb. unfold prepare_load.
  eapply wp_mono; [apply (wp_fold_m (fun pre ids m' => primary_ok m' (reverse pre ++ R) W /\ (forall k, slot m' k = slot m k) /\
    Forall2 (fun k id => slot m k = Some id) pre ids /\ num_chunks m' = num_chunks m))|].
  - split_and!; [done|done|constructor|done].
  - intros pre k post ids m1 -> (P1 & S1 & F1 & N1). destruct (Hr k) as (c0 & Hc0 & _); [apply elem_of_app; right; by left|].
    pose proof (S1 k) as Hs. unfold slot in Hs. rewrite Hc0 in Hs. destruct (stored m1 !! k) as [c|] eqn:Hc; [|done]. cbn in Hs. injection Hs as Hid.
    assert (chunk_ref c <> -1) as Hcr.
    { intros Heq. assert (k ∈ W) as (c1 & Hc1 & Hr1)%(po_pending _ _ _ Hp) by (apply (po_pending _ _ _ P1); by exists c).
      destruct (Hr k) as (c2 & Hc2 & Hr2); [apply elem_of_app; right; by left|]. congruence. }
    apply wp_bind, wp_get, wp_bind. rewrite (pol_get_ok _ _ k (oi_wf _ _ _ (po_inv _ _ _ P1))), Hc. eapply wp_of_option; [done|].
    pose proof (oi_refs _ _ _ (po_inv _ _ _ P1) k c Hc). apply wp_bind, wp_assert; [apply Z.leb_le; lia|]. apply wp_bind.
    eapply wp_mono; [apply (pin_reader m1 (reverse pre ++ R) W k c P1 Hc (po_refs _ _ _ P1 k c Hc Hcr))|].
    { pose proof (kocc_le k (reverse pre ++ R)). unfold zlen in *. rewrite !length_app in *. rewrite length_reverse in *. cbn in Hb. lia. }
    intros [] m2 (P2 & S2 & O2). apply wp_ret. split_and!.
    + by rewrite reverse_snoc.
    + intros k'. by rewrite S2, S1.
    + apply Forall2_app; [done|]. constructor; [|constructor]. unfold slot. rewrite Hc0. cbn. by rewrite Hid.
    + by rewrite (only_policy_chunks _ _ O2).
  - intros ids m' (P1 & S1 & F1 & N1). split_and!; try done. by rewrite reverse_Permutation in P1.
Qed.

Lemma complete_load_spec keys : forall m R W,
  primary_ok m (keys ++ R) W ->
  wp (complete_load keys) (fun _ m' => primary_ok m' R W /\ (forall k, slot m' k = slot m k) /\ num_chunks m' = num_chunks m) m.
Proof.
  induction keys as [|k keys IH]; intros m R W Hp; [by apply wp_ret|]. cbn [complete_load for_each]. apply wp_bind.
  eapply wp_mono; [by apply unpin_reader|]. intros [] m1 (P1 & S1 & O1). eapply wp_mono; [by apply IH|].
  intros [] m2 (P2 & S2 & N2). split_and!; [done|intros k'; by rewrite S2, S1|]. by rewrite N2, (only_policy_chunks _ _ O1).
Qed.

(** What is offered and stored gets slots; what is under way keeps its own. *)
Lemma prepare_store_spec m R W keys :
  primary_ok m R W -> NoDup keys ->
  wp (prepare_store keys) (fun r m' => num_chunks m' = num_chunks m /\
    match r with
    | None => primary_ok m' R W /\ stored m' = stored m
    | Some out => primary_ok m' R (keys_to_store out ++ W) /\ slots_kept R W m m' /\
        (forall k, k ∈ keys_to_store out -> k ∈ keys /\ stored m !! k = None) /\ NoDup (keys_to_store out) /\
        Forall2 (fun k id => slot m' k = Some id) (keys_to_store out) (store_spec out) /\
        (forall k, k ∈ keys -> stored m !! k = None -> k ∈ keys_to_store out) /\
        (forall k c, k ∈ keys -> stored m !! k = Some c -> stored m' !! k = Some c)
    end) m.
Proof.
  intros Hp Hnd. pose proof Hp as [I1 I2 I3 I4 I5 I6]. eapply wp_mono; [by apply prepare_store_ok|].
  intros r m' (Hi & (Hn & _ & _ & Hcn) & kept & Hkept & Hr). split; [done|]. destruct r as [out|].
  2:{ destruct Hr as [Hs _]. split; [|done]. split; rewrite ?Hs, ?Hcn; done. }
  destruct Hr as (K1 & K2 & K3 & K4 & K5 & K6). set (new := keys_to_store out) in *.
  assert (forall k, k ∈ new -> k ∈ keys /\ stored m !! k = None) as Hnew.
  { intros k Hk. rewrite K1 in Hk. apply list_elem_of_filter in Hk as [Hs Hk]. split; [|done]. subst kept.
    eapply elem_of_submseteq; [exact Hk|apply sublist_submseteq, passing_sublist]. }
  assert (forall k, busy R W k -> stored m' !! k = stored m !! k) as Hbusy.
  { intros k Hk. assert (exists c, stored m !! k = Some c /\ chunk_ref c <> 0) as (c & Hc & Hr).
    { destruct Hk as [Hk|(c & Hc & Hr)%I3]; [|exists c; split; [done|lia]]. destruct (reader_stored _ _ _ k Hp Hk) as (c & Hc & _ & Hpos). exists c. split; [done|lia]. }
    rewrite K6; [|intros Hin; destruct (Hnew k Hin); congruence]. rewrite decide_False; [done|]. intros Hev.
    destruct (K4 k Hev) as [(c' & Hc' & Hr')%elem_of_idle _]. congruence. }
  assert (NoDup new) as Hndn by (rewrite K1; apply NoDup_filter; subst kept; eapply sublist_NoDup; [exact Hnd|apply passing_sublist]).
  assert (forall k, k ∈ new -> exists id, stored m' !! k = Some (mkChunk (-1) id)) as Hin.
  { intros k (j & Hj)%list_elem_of_lookup. destruct (lookup_lt_is_Some_2 (store_spec out) j) as [id Hid]; [rewrite K2; by eapply lookup_lt_Some|].
    exists id. by apply (K5 j). }
  split_and!; try done.
  - split; try by rewrite ?Hcn.
    + apply NoDup_app. split_and!; [done| |done]. intros k Hk (c & Hc & _)%I3. destruct (Hnew k Hk). congruence.
    + intros k. rewrite elem_of_app, I3. split.
      * intros [Hk|Hk]; [destruct (Hin k Hk) as [id Hid]; by eexists|]. rewrite Hbusy; [done|right; by apply I3].
      * intros (c & Hc & Hr). destruct (decide (k ∈ new)) as [|Hk]; [by left|right]. rewrite K6 in Hc by done.
        case_decide; [done|]. by exists c.
    + intros k c Hc Hr. destruct (decide (k ∈ new)) as [Hk|Hk]; [destruct (Hin k Hk) as [id Hid]; rewrite Hid in Hc; by injection Hc as <-|].
      rewrite K6 in Hc by done. case_decide; [done|]. by apply I4.
    + intros k Hk. rewrite Hbusy by by left. by apply I5.
  - intros k Hk. unfold slot. by rewrite Hbusy.
  - apply Forall2_same_length_lookup. split; [by rewrite K2|]. intros j k id Hj Hid. unfold slot. by rewrite (K5 j k id Hj Hid).
  - intros k Hk Hs. rewrite K1. apply list_elem_of_filter. split; [done|]. subst kept. unfold passing. by rewrite I6.
  - intros k c Hk Hc. rewrite K6; [|intros Hn'; destruct (Hnew k Hn'); congruence]. rewrite decide_False; [done|].
    intros [_ Hev]%K4. apply Hev. subst kept. unfold passing. by rewrite I6.
Qed.

(** The writes of [keys] end. *)
Lemma complete_store_spec m R W keys success :
  primary_ok m R (keys ++ W) ->
  wp (complete_store keys success) (fun _ m' => num_chunks m' = num_chunks m /\ primary_ok m' R W /\
    (forall k, k ∉ keys -> stored m' !! k = stored m !! k) /\
    (forall k, k ∈ keys -> if success : bool then slot m' k = slot m k /\ exists c, stored m' !! k = Some c /\ chunk_ref c <> -1
                           else stored m' !! k = None)) m.
Proof.
  intros Hp. pose proof Hp as [I1 I2 I3 I4 I5 I6]. apply NoDup_app in I2 as (N1 & N2 & N3).
  eapply wp_mono; [by apply complete_store_ok|]. intros [] m' (Hi & (Hn & _ & _ & Hcn) & Hc). split; [done|].
  assert (forall k, k ∈ keys -> exists c, stored m !! k = Some c /\ chunk_ref c = -1 /\
    stored m' !! k = if success then Some (mkChunk 0 (chunk_id c)) else None) as Hin.
  { intros k Hk. destruct (proj1 (I3 k)) as (c & Hck & Hr); [apply elem_of_app; by left|]. exists c. rewrite Hc, Hck, decide_True by done. by destruct success. }
  assert (forall k, k ∉ keys -> stored m' !! k = stored m !! k) as Hout.
  { intros k Hk. rewrite Hc. destruct (stored m !! k) as [c|]; [|done]. rewrite decide_False; [done|]. by intros [? _]. }
  split_and!; [|done|].
  - split; try by rewrite ?Hcn.
    + intros k. destruct (decide (k ∈ keys)) as [Hk|Hk].
      * destruct (Hin k Hk) as (c & _ & _ & ->). split; [intros HW; by destruct (N2 k Hk)|]. destruct success; [|by intros (? & ? & _)]. by intros (? & [= <-] & ?).
      * rewrite Hout by done. rewrite <- I3, elem_of_app. tauto.
    + intros k c Hck Hr. destruct (decide (k ∈ keys)) as [Hk|Hk]; [|rewrite Hout in Hck by done; by apply I4].
      destruct (Hin k Hk) as (c0 & Hc0 & Hr0 & Hs). rewrite Hs in Hck. destruct success; [|done]. injection Hck as <-. cbn.
      rewrite kocc_zero; [done|]. intros HR. destruct (I5 k HR) as (c1 & Hc1 & Hr1). congruence.
    + intros k HR. destruct (decide (k ∈ keys)) as [Hk|Hk]; [|rewrite Hout by done; by apply I5].
      destruct (Hin k Hk) as (c0 & Hc0 & Hr0 & _). destruct (I5 k HR) as (c1 & Hc1 & Hr1). congruence.
  - intros k Hk. destruct (Hin k Hk) as (c & Hck & _ & Hs). unfold slot. rewrite Hs, Hck. destruct success; [|done]. split; [done|]. by eexists.
Qed.

Lemma reserve_spec m R W keys :
  primary_ok m R W -> NoDup keys -> zlen (keys ++ R) < 2 ^ 31 ->
  wp (reserve_hits keys) (fun r m' => primary_ok m' (r ++ R) W /\ (forall k, slot m' k = slot m k) /\
    r `sublist_of` keys /\ num_chunks m' = num_chunks m) m.
Proof.
  intros Hp Hnd Hb. pose proof Hp as [I1 I2 I3 I4 I5 I6]. eapply wp_mono; [apply reserve_hits_ok; try done|].
  { intros k c Hk Hc. destruct (decide (chunk_ref c = -1)); [lia|]. rewrite (I4 k c Hc) by done. pose proof (kocc_le k R).
    unfold zlen in *. rewrite length_app in Hb. destruct keys; [by apply elem_of_nil in Hk|]. cbn in Hb. lia. }
  intros r m' (Hr & Hi & Hbump & Ho).
  assert (NoDup r) as Hndr by (subst r; by apply NoDup_filter).
  assert (forall k, k ∈ r -> exists c, stored m !! k = Some c /\ chunk_ref c <> -1) as Hready.
  { intros k Hk. subst r. apply list_elem_of_filter in Hk as [Hk _]. unfold ready_key in Hk. destruct (stored m !! k) as [c|]; [|done]. exists c. split; [done|lia]. }
  assert (forall k, kocc k r = if decide (k ∈ r) then 1 else 0) as Hocc.
  { intros k. destruct (decide (k ∈ r)) as [Hk|Hk]; [by apply kocc_once|by apply kocc_zero]. }
  split_and!; [| |subst r; apply sublist_filter|by apply only_policy_chunks].
  - split; rewrite ?(only_policy_counts _ _ Ho); try done.
    + intros k. rewrite I3, Hbump. destruct (decide (k ∈ r)) as [Hk|Hk]; [|done]. destruct (Hready k Hk) as (c & Hc & Hr'). rewrite Hc. cbn.
      pose proof (oi_refs _ _ _ I1 k c Hc). split; intros (c' & [= <-] & Hc'); cbn in *; lia.
    + intros k c. rewrite Hbump, kocc_app, Hocc. destruct (decide (k ∈ r)) as [Hk|Hk]; [|intros Hc Hr'; rewrite (I4 k c Hc Hr'); lia].
      destruct (Hready k Hk) as (c0 & Hc0 & Hr0). rewrite Hc0. intros [= <-] _. cbn. rewrite (I4 k c0 Hc0 Hr0). lia.
    + intros k [Hk|Hk]%elem_of_app; rewrite Hbump.
      * rewrite decide_True by done. destruct (Hready k Hk) as (c & Hc & Hr'). rewrite Hc. exists (bump 1 c). split; [done|].
        pose proof (oi_refs _ _ _ I1 k c Hc). cbn. lia.
      * destruct (I5 k Hk) as (c & Hc & Hr'). rewrite Hc. pose proof (oi_refs _ _ _ I1 k c Hc).
        destruct (decide (k ∈ r)); [exists (bump 1 c); split; [done|cbn; lia]|by exists c].
  - intros k. unfold slot. rewrite Hbump. destruct (decide (k ∈ r)); [|done]. by destruct (stored m !! k).
Qed.

Lemma primary_touch_spec m R W keys : primary_ok m R W ->
  wp (cpu_touch keys) (fun _ m' => primary_ok m' R W /\ stored m' = stored m /\ num_chunks m' = num_chunks m) m.
Proof.
  intros [I1 I2 I3 I4 I5 I6]. eapply wp_mono; [by apply touch_ok|]. intros [] m' (Hi & (Hn & _ & _ & Hcn) & Hs). split_and!; [|done|done]. split; rewrite ?Hs, ?Hcn; done.
Qed.

Lemma reset_spec m R W : primary_ok m R W ->
  wp reset_cache (fun _ m' => primary_ok m' [] [] /\ stored m' = ∅ /\ num_chunks m' = num_chunks m) m.
Proof.
  intros [I1 _ _ _ _ I6]. eapply wp_mono; [by apply reset_ok|]. intros [] m' (Hi & (Hn & _ & _ & Hcn) & Hs & _). split_and!; [|done|done].
  split; rewrite ?Hs, ?Hcn; try done.
  - constructor.
  - intros k. split; [by intros ?%elem_of_nil|by intros (? & ? & _)].
  - by intros k ?%elem_of_nil.
Qed.

End Primary.
