(* ===== verification/TieringInv.v ===== *)
(** * The invariant of the tiering manager

    What a secondary tier promises ([SecondaryTierLaws], from the documentation of
    tiering/base.py), and the books of [TieringOffloadingManager]: every transfer
    under way is a registered job of one tier, its chunks are held in the primary
    tier for as long as it runs and keep their slots, and the counters agree. *)
From Stdlib Require Import ZArith QArith Lia.
From stdpp Require Import base tactics gmap strings numbers option list.
From S2P Require Import Prelude Blocks Env OrderedDict Offload OffloadPolicies OffloadSpec Tiering TieringPrimary.

Local Open Scope Z_scope.

(** ** What a secondary tier promises *)

(** A tier as the manager knows it: the jobs submitted and not yet reported, the
    remote requests it has open, and the request ids it may use. *)
Record TierView := mkTierView {
  tv_jobs : gmap Z TransferJob;
  tv_open : gset string;
  tv_own : string -> bool
}.
Definition view_add (j : TransferJob) (v : TierView) : TierView :=
  mkTierView (<[tj_job_id j := j]> (tv_jobs v)) (tv_open v) (tv_own v).
Definition view_remove (id : Z) (v : TierView) : TierView :=
  mkTierView (delete id (tv_jobs v)) (tv_open v) (tv_own v).
Definition view_set_open (o : gset string) (v : TierView) : TierView := mkTierView (tv_jobs v) o (tv_own v).

(** Keys and slots correspond. *)
Definition job_shape (j : TransferJob) : Prop := length (tj_chunk_ids j) = length (tj_keys j).
(** Keys reported as loaded are among those of the job. *)
Definition result_ok (j : TransferJob) (r : JobResult) : Prop :=
  forall l, successful_keys r = Some l -> NoDup l /\ forall k, k ∈ l -> k ∈ tj_keys j.

(** The documented use of a [ParentManager]: a request is opened before and
    finished after its calls, and a store job is asked for keys found in the
    primary tier since the last lookup that may have displaced them.  [n] bounds
    the keys of the store jobs. *)
Fixpoint serve_ok {T} (promise : T -> TierView -> Prop) (n : Z) (hits : gset OffloadKey) (v : TierView) (p : ServeProgram T) : Prop :=
  match p with
  | ServeReturn t => promise t v
  | ServeNewRequest ctx k =>
      tv_own v (rc_req_id ctx) = true /\ rc_req_id ctx ∉ tv_open v /\
      forall r, serve_ok promise n hits (view_set_open ({[rc_req_id ctx]} ∪ tv_open v) v) (k r)
  | ServeLookup key ctx k =>
      forall r, serve_ok promise n (match r with HIT => {[key]} ∪ hits | HIT_PENDING => ∅ | _ => hits end) v (k r)
  | ServeStoreJob keys ctx k =>
      (forall x, x ∈ keys -> x ∈ hits) /\ zlen keys <= n /\
      forall j, tj_keys j = keys -> job_shape j -> is_promotion j = false -> tv_jobs v !! tj_job_id j = None ->
        serve_ok promise (n - zlen keys) hits (view_add j v) (k j)
  | ServeFinished ctx k =>
      rc_req_id ctx ∈ tv_open v /\ serve_ok promise n hits (view_set_open (tv_open v ∖ {[rc_req_id ctx]}) v) k
  end.

Class SecondaryTierLaws (T : Type) `{SecondaryTier T} := {
  (** a tier in order, as the manager knows it *)
  st_ok : T -> TierView -> Prop;
  (** every submitted job has completed or failed *)
  st_drained : T -> Prop;
  (** the most keys of the store jobs of one [serve_external_requests] *)
  st_serves : Z;
  stl_lookup k ctx t v : st_ok t v -> wp (tier_lookup k ctx) (fun _ t' => st_ok t' v) t;
  stl_submit_store j t v : st_ok t v -> job_shape j -> tv_jobs v !! tj_job_id j = None ->
    wp (tier_submit_store j) (fun _ t' => st_ok t' (view_add j v)) t;
  stl_submit_load j t v : st_ok t v -> job_shape j -> tv_jobs v !! tj_job_id j = None ->
    wp (tier_submit_load j) (fun _ t' => st_ok t' (view_add j v)) t;
  stl_finished t v : st_ok t v ->
    wp tier_get_finished_jobs (fun rs t' => NoDup (jr_job_id <$> rs) /\
      (forall r, r ∈ rs -> exists j, tv_jobs v !! jr_job_id r = Some j /\ result_ok j r) /\
      st_ok t' (foldl (fun v r => view_remove (jr_job_id r) v) v rs) /\
      (st_drained t -> tv_jobs (foldl (fun v r => view_remove (jr_job_id r) v) v rs) = ∅)) t;
  stl_touch ks ctx t v : st_ok t v -> wp (tier_touch ks ctx) (fun _ t' => st_ok t' v) t;
  stl_new ctx t v : st_ok t v -> wp (tier_on_new_request ctx) (fun _ t' => st_ok t' v) t;
  stl_request_finished ctx t v : st_ok t v -> wp (tier_on_request_finished ctx) (fun _ t' => st_ok t' v) t;
  stl_schedule_end c t v : st_ok t v -> wp (tier_on_schedule_end c) (fun _ t' => st_ok t' v) t;
  stl_drain t v : st_ok t v -> wp tier_drain_jobs (fun _ t' => st_ok t' v /\ st_drained t') t;
  stl_events t v : st_ok t v -> wp tier_take_events (fun _ t' => st_ok t' v) t;
  stl_serves : 0 <= st_serves;
  stl_serve t v : st_ok t v -> serve_ok st_ok st_serves ∅ v (tier_serve_external_requests t)
}.

(** ** The books *)

(** The keys the registered jobs read and write. *)
Definition job_reads (e : Z * JobMetadata) : list OffloadKey := if is_promotion (transfer_job e.2) then [] else tj_keys (transfer_job e.2).
Definition job_writes (e : Z * JobMetadata) : list OffloadKey := if is_promotion (transfer_job e.2) then tj_keys (transfer_job e.2) else [].
Definition reads (js : list (Z * JobMetadata)) : list OffloadKey := js ≫= job_reads.
Definition writes (js : list (Z * JobMetadata)) : list OffloadKey := js ≫= job_writes.

(** The promotions queued for the end of the step, with their tiers. *)
Definition queued_promotions (q : list (Z * list (string * PendingPromotion))) : list (Z * PendingPromotion) :=
  q ≫= fun e => (fun f => (e.1, f.2)) <$> e.2.
Definition queued_keys (q : list (Z * list (string * PendingPromotion))) : list OffloadKey :=
  queued_promotions q ≫= fun e => pp_keys e.2.

(** Sums over the jobs. *)
Fixpoint total (f : Z * JobMetadata -> Z) (js : list (Z * JobMetadata)) : Z :=
  match js with [] => 0 | e :: js => f e + total f js end.
Definition count_if (b : Z * JobMetadata -> bool) (f : Z * JobMetadata -> Z) (js : list (Z * JobMetadata)) : Z :=
  total (fun e => if b e then f e else 0) js.
Definition promotes (i : Z) (e : Z * JobMetadata) : bool := (tier_idx e.2 =? i) && is_promotion (transfer_job e.2).
Definition cascades (i : Z) (e : Z * JobMetadata) : bool := (tier_idx e.2 =? i) && negb (is_promotion (transfer_job e.2)).
Definition job_size (e : Z * JobMetadata) : Z := zlen (tj_chunk_ids (transfer_job e.2)).
Definition counts_of (js : list (Z * JobMetadata)) (i : Z) : TierCounts :=
  mkTierCounts (count_if (promotes i) (fun _ => 1) js) (count_if (cascades i) (fun _ => 1) js)
    (count_if (promotes i) job_size js) (count_if (cascades i) job_size js).

#[export] Instance total_perm f : Proper ((≡ₚ) ==> (=)) (total f).
Proof. induction 1; cbn in *; lia. Qed.

Lemma total_nonneg f js : (forall e, 0 <= f e) -> 0 <= total f js.
Proof. intros Hf. induction js as [|e js IH]; cbn; [done|]. specialize (Hf e). lia. Qed.

Lemma reads_add id m js : id ∉ js.*1 -> reads (od_set id m js) ≡ₚ job_reads (id, m) ++ reads js.
Proof. intros Hid. rewrite od_set_absent by done. unfold reads. rewrite bind_app. cbn. rewrite app_nil_r. apply Permutation_app_comm. Qed.
Lemma writes_add id m js : id ∉ js.*1 -> writes (od_set id m js) ≡ₚ job_writes (id, m) ++ writes js.
Proof. intros Hid. rewrite od_set_absent by done. unfold writes. rewrite bind_app. cbn. rewrite app_nil_r. apply Permutation_app_comm. Qed.
Lemma reads_pop id m js : od_get id js = Some m -> reads js ≡ₚ job_reads (id, m) ++ reads (od_pop id js).
Proof. intros Hg. unfold reads. by rewrite (od_pop_perm id m js Hg) at 1. Qed.
Lemma writes_pop id m js : od_get id js = Some m -> writes js ≡ₚ job_writes (id, m) ++ writes (od_pop id js).
Proof. intros Hg. unfold writes. by rewrite (od_pop_perm id m js Hg) at 1. Qed.

Lemma reads_elem js id m k : od_get id js = Some m -> is_promotion (transfer_job m) = false -> k ∈ tj_keys (transfer_job m) -> k ∈ reads js.
Proof. intros Hg Hp Hk. rewrite (reads_pop id m js Hg). apply elem_of_app. left. unfold job_reads. cbn. by rewrite Hp. Qed.
Lemma writes_elem js id m k : od_get id js = Some m -> is_promotion (transfer_job m) = true -> k ∈ tj_keys (transfer_job m) -> k ∈ writes js.
Proof. intros Hg Hp Hk. rewrite (writes_pop id m js Hg). apply elem_of_app. left. unfold job_writes. cbn. by rewrite Hp. Qed.

Lemma Forall2_impl_l_elem {A B} (Q R : A -> B -> Prop) l k :
  Forall2 Q l k -> (forall x y, x ∈ l -> Q x y -> R x y) -> Forall2 R l k.
Proof.
  intros HQ HR. induction HQ as [|x y l k Hxy _ IH]; constructor; [apply HR; [by left|done]|]. apply IH. intros x' y' Hx'. apply HR. by right.
Qed.

Lemma counts_cons id m js i :
  counts_of ((id, m) :: js) i = if decide (tier_idx m = i) then count_registered (transfer_job m) (counts_of js i) else counts_of js i.
Proof.
  unfold counts_of, count_if, promotes, cascades, count_registered, job_size. cbn [total fst snd].
  destruct (Z.eqb_spec (tier_idx m) i) as [->|Hne]; cbn [andb].
  - rewrite decide_True by done. destruct (is_promotion (transfer_job m)); cbn; f_equal; lia.
  - rewrite decide_False by done. f_equal; lia.
Qed.
Lemma counts_perm js1 js2 i : js1 ≡ₚ js2 -> counts_of js1 i = counts_of js2 i.
Proof. intros Hp. unfold counts_of, count_if. by rewrite !Hp. Qed.
Lemma counts_nonneg js i : 0 <= primary_write_chunk_count (counts_of js i) /\ 0 <= primary_read_chunk_count (counts_of js i) /\
  0 <= active_promotion_count (counts_of js i) /\ 0 <= active_cascade_count (counts_of js i).
Proof.
  unfold counts_of, count_if, job_size. cbn. split_and!; apply total_nonneg; intros e; case_match; try done; apply zlen_nonneg.
Qed.

(** A list of a value per tier, updated for one. *)
Lemma insert_seqZ {A} (f g : Z -> A) n i :
  0 <= i < n -> (forall k, 0 <= k < n -> k <> i -> g k = f k) -> <[Z.to_nat i := g i]> (f <$> seqZ 0 n) = g <$> seqZ 0 n.
Proof.
  intros Hi Hg. apply list_eq. intros k. destruct (decide (k = Z.to_nat i)) as [->|Hne].
  - rewrite list_lookup_insert_eq by (rewrite length_fmap, length_seqZ; lia). rewrite list_lookup_fmap, lookup_seqZ_lt by lia. cbn. f_equal. f_equal. lia.
  - rewrite list_lookup_insert_ne by done. rewrite !list_lookup_fmap. destruct (decide (k < Z.to_nat n)%nat).
    + rewrite !lookup_seqZ_lt by lia. cbn. rewrite Hg by lia. done.
    + rewrite !lookup_seqZ_ge by lia. done.
Qed.

Lemma fmap_seqZ_lookup {A} (f : Z -> A) n i : 0 <= i < n -> (f <$> seqZ 0 n) !! Z.to_nat i = Some (f i).
Proof. intros Hi. rewrite list_lookup_fmap, lookup_seqZ_lt by lia. cbn. f_equal. f_equal. lia. Qed.

(** ** The state *)

(** What the caller has under way: keys it has reserved, loads with the slots they
    read, and per request the stores to the primary tier, with the slots they
    write. *)
Record Client := mkClient {
  cl_reserved : list OffloadKey;
  cl_loads : list (OffloadKey * Z);
  cl_stores : list (string * list (OffloadKey * Z))
}.
Definition client_reads (c : Client) : list OffloadKey := cl_reserved c ++ (cl_loads c).*1.
Definition client_writes (c : Client) : list OffloadKey := (concat (cl_stores c).*2).*1.
Definition client_slots (c : Client) : list (OffloadKey * Z) := cl_loads c ++ concat (cl_stores c).*2.

Lemma client_slots_key c k id : (k, id) ∈ client_slots c -> k ∈ client_reads c \/ k ∈ client_writes c.
Proof.
  unfold client_slots, client_reads, client_writes. rewrite !elem_of_app. intros [Hin|Hin]; [left; right|right]; apply list_elem_of_fmap; by exists (k, id).
Qed.

Section Books.
Context `{Env} {P T : Type} `{CachePolicySpec P} `{SecondaryTierLaws T}.
Local Abbreviation Tiers := (TieringOffloadingManager P T).
Implicit Types (s : Tiers) (c : Client) (V : list TierView).

Definition all_reads c s : list OffloadKey := client_reads c ++ reads (jobs s).
Definition all_writes c s : list OffloadKey :=
  client_writes c ++ writes (jobs s) ++ queued_keys (pending_load_submissions s).

(** Keys and the slots they have. *)
Definition placed s (keys : list OffloadKey) (ids : list Z) : Prop :=
  Forall2 (fun k id => slot (primary_tier s) k = Some id) keys ids.

(** The registered jobs and the queued promotions. *)
Record registry V s : Prop := {
  rg_nodup : NoDup (jobs s).*1;
  rg_jobs : forall id m, od_get id (jobs s) = Some m ->
    tj_job_id (transfer_job m) = id /\ id < job_id_counter s /\ 0 <= tier_idx m < zlen V /\
    placed s (tj_keys (transfer_job m)) (tj_chunk_ids (transfer_job m));
  rg_views : forall i v, V !! i = Some v -> forall id j,
    tv_jobs v !! id = Some j <-> od_get id (jobs s) = Some (mkJobMetadata j (Z.of_nat i));
  rg_counts : tier_states s = counts_of (jobs s) <$> seqZ 0 (zlen V);
  rg_queue : forall i e, (i, e) ∈ queued_promotions (pending_load_submissions s) -> 0 <= i < zlen V /\ placed s (pp_keys e) (pp_chunk_ids e);
  rg_tiers : length (secondary_tiers s) = length V
}.
Record books c V s : Prop := {
  bk_primary : primary_ok (primary_tier s) (all_reads c s) (all_writes c s);
  bk_registry : registry V s;
  bk_client : forall k id, (k, id) ∈ client_slots c -> slot (primary_tier s) k = Some id
}.

(** The requests the manager knows. *)
Record request_ok c V (rid : string) (r : RequestState) : Prop := {
  ro_id : rc_req_id (rs_req_context r) = rid;
  ro_stores : pending_primary_stores r = zlen (filter (fun e => e.1 = rid) (cl_stores c));
  ro_parked : pending_cascade_keys r <> [] -> is_Some (some_tiers (request_level_tiers r));
  ro_tiers : forall ts i, request_level_tiers r = Some ts -> i ∈ ts -> 0 <= i < zlen V;
  ro_remote : forall i v, V !! i = Some v -> tv_own v rid = true ->
    rid ∈ tv_open v /\ pending_cascade_keys r = [] /\ rs_is_finished r = false
}.
Record requests_ok c V s : Prop := {
  rq_nodup : NoDup (req_state s).*1;
  rq_state : forall rid r, od_get rid (req_state s) = Some r -> request_ok c V rid r;
  rq_stores : forall rid ks, (rid, ks) ∈ cl_stores c -> is_Some (od_get rid (req_state s)) /\ forall i v, V !! i = Some v -> tv_own v rid = false;
  rq_open : forall i v rid, V !! i = Some v -> rid ∈ tv_open v -> tv_own v rid = true /\ is_Some (od_get rid (req_state s));
  rq_apart : forall i j v w rid, V !! i = Some v -> V !! j = Some w -> tv_own v rid = true -> tv_own w rid = true -> i = j
}.

(** The views are the tiers', but for the tier that is serving a peer. *)
Definition linked (x : option nat) V s : Prop :=
  forall i t, secondary_tiers s !! i = Some t -> x <> Some i -> exists v, V !! i = Some v /\ st_ok t v.

(** The transfers and the tiers that do them. *)
Record core c V (x : option nat) s : Prop := {
  co_books : books c V s;
  co_linked : linked x V s
}.
Record tier_inv c V (x : option nat) s : Prop := {
  ti_core : core c V x s;
  ti_requests : requests_ok c V s
}.

(** ** Statements *)

Lemma wp_on_primary {A} (m : M (CPUOffloadingManager P) A) Q s :
  wp m (fun a p => Q a (set_primary p s)) (primary_tier s) -> wp (on_primary m) Q s.
Proof. intros HQ. by apply wp_zoom. Qed.

Lemma wp_on_tier {A} i t (m : M T A) Q s :
  secondary_tiers s !! Z.to_nat i = Some t ->
  wp m (fun a t' => Q a (set_tiers (<[Z.to_nat i := t']> (secondary_tiers s)) s)) t -> wp (on_tier i m) Q s.
Proof. intros Ht HQ. unfold wp, on_tier in *. rewrite Ht. by destruct (m t). Qed.

(** Ready means stored and not being written. *)
Lemma ready_slot m R W k : primary_ok m R W ->
  (exists ch, pol_map (policy m) !! k = Some ch /\ chunk_ref ch <> -1) <-> is_Some (slot m k) /\ k ∉ W.
Proof.
  intros Hp. unfold slot. split.
  - intros (ch & Hch & Hr). rewrite Hch. split; [by eexists|]. intros (c' & Hc' & Hr')%(po_pending _ _ _ Hp). congruence.
  - intros [[id Hs] Hk]. destruct (pol_map (policy m) !! k) as [ch|] eqn:Hch; [|done]. exists ch. split; [done|].
    intros Hr. apply Hk, (po_pending _ _ _ Hp). by exists ch.
Qed.

(** *** Registration *)

(** The state with one more job. *)
Definition with_job (m : JobMetadata) (counts : list TierCounts) s : Tiers :=
  set_tier_states counts (set_jobs (od_set (tj_job_id (transfer_job m)) m (jobs s)) (set_counter (job_id_counter s + 1) s)).

Lemma fresh_job V s : registry V s -> job_id_counter s ∉ (jobs s).*1.
Proof.
  intros Hr Hin. destruct (od_get (job_id_counter s) (jobs s)) as [m|] eqn:Hg; [|by apply od_get_None in Hg].
  destruct (rg_jobs _ _ Hr _ _ Hg) as (_ & Hlt & _). lia.
Qed.

Lemma fresh_view V s i v : registry V s -> V !! i = Some v -> tv_jobs v !! job_id_counter s = None.
Proof.
  intros Hr Hv. destruct (tv_jobs v !! job_id_counter s) as [j|] eqn:Hj; [|done]. apply (rg_views _ _ Hr i v Hv) in Hj.
  exfalso. apply (fresh_job V s Hr). by eapply od_get_key.
Qed.

Lemma register_job_spec V s j i v :
  registry V s -> V !! i = Some v -> tj_job_id j = job_id_counter s -> placed s (tj_keys j) (tj_chunk_ids j) ->
  wp (register_job j (Z.of_nat i))
    (fun _ s' => (exists counts, s' = with_job (mkJobMetadata j (Z.of_nat i)) counts s) /\ registry (<[i := view_add j v]> V) s')
    (set_counter (job_id_counter s + 1) s).
Proof.
  intros Hr Hv Hid Hpl. pose proof Hr as [R1 R2 R3 R4 R5 R6]. pose proof (fresh_job V s Hr) as Hfresh.
  pose proof (lookup_lt_Some _ _ _ Hv) as Hlt. assert (0 <= Z.of_nat i < zlen V) as Hi by (unfold zlen; lia).
  unfold register_job, on_job_registered. apply wp_bind, wp_modify, wp_bind, wp_get, wp_bind. cbn [tier_idx tier_states set_jobs set_counter].
  rewrite R4, Nat2Z.id. pose proof (fmap_seqZ_lookup (counts_of (jobs s)) (zlen V) (Z.of_nat i) Hi) as Hlk. rewrite Nat2Z.id in Hlk.
  eapply wp_of_option; [exact Hlk|]. apply wp_modify. split; [by eexists|]. cbn [transfer_job].
  set (m := mkJobMetadata j (Z.of_nat i)). assert (zlen (<[i := view_add j v]> V) = zlen V) as Hz by (unfold zlen; by rewrite length_insert).
  split; cbn [jobs set_tier_states set_jobs set_counter secondary_tiers pending_load_submissions tier_states job_id_counter]; rewrite ?Hz.
  - by apply od_set_NoDup.
  - intros id m'. rewrite od_get_set. destruct (decide (id = tj_job_id j)) as [->|Hne].
    + intros [= <-]. split_and!; cbn; try done; lia.
    + intros Hg. destruct (R2 id m' Hg) as (Q1 & Q2 & Q3 & Q4). split_and!; try done; lia.
  - intros i' v' Hv' id j'. rewrite od_get_set. destruct (decide (i' = i)) as [->|Hne].
    + rewrite list_lookup_insert_eq in Hv' by done. injection Hv' as <-. cbn. destruct (decide (id = tj_job_id j)) as [->|Hid'].
      * rewrite lookup_insert_eq. split; [by intros [= <-]|]. by intros [= <-].
      * rewrite lookup_insert_ne by done. by apply R3.
    + rewrite list_lookup_insert_ne in Hv' by done. destruct (decide (id = tj_job_id j)) as [->|Hid']; [|by apply R3]. split.
      * intros Hj'. rewrite (R3 i' v' Hv') in Hj'. exfalso. apply Hfresh. rewrite <- Hid. by eapply od_get_key.
      * intros [= _ Heq]. lia.
  - assert (forall k, counts_of (od_set (tj_job_id j) m (jobs s)) k = if decide (Z.of_nat i = k) then count_registered j (counts_of (jobs s) k) else counts_of (jobs s) k) as Hc.
    { intros k. rewrite <- (counts_cons (tj_job_id j) m). apply counts_perm. rewrite od_set_absent by by rewrite Hid.
      by rewrite Permutation_app_comm. }
    pose proof (insert_seqZ (counts_of (jobs s)) (counts_of (od_set (tj_job_id j) m (jobs s))) (zlen V) (Z.of_nat i) Hi) as Hins.
    rewrite Nat2Z.id, (Hc (Z.of_nat i)), decide_True in Hins by done. apply Hins. intros k _ Hk. rewrite Hc, decide_False; [done|]. congruence.
  - done.
  - by rewrite length_insert.
Qed.

(** The parts a job leaves alone. *)
Record rest_same s s' : Prop := {
  rs_tiers : secondary_tiers s' = secondary_tiers s;
  rs_queue : pending_load_submissions s' = pending_load_submissions s;
  rs_gate : processed_jobs_this_step s' = processed_jobs_this_step s;
  rs_reqs : req_state s' = req_state s
}.

(** The primary tier changes and what the registry refers to keeps its slots. *)
Lemma registry_primary V s p :
  registry V s -> (forall k, k ∈ reads (jobs s) \/ k ∈ writes (jobs s) \/ k ∈ queued_keys (pending_load_submissions s) ->
    slot p k = slot (primary_tier s) k) -> registry V (set_primary p s).
Proof.
  intros [R1 R2 R3 R4 R5 R6] Hs. split; cbn; try done.
  - intros id m Hg. destruct (R2 id m Hg) as (Q1 & Q2 & Q3 & Q4). split_and!; try done; [lia..|]. unfold placed in *. cbn.
    eapply Forall2_impl_l_elem; [exact Q4|]. intros k x Hk Hx. rewrite Hs; [done|].
    destruct (is_promotion (transfer_job m)) eqn:Hp; [right; left; by eapply writes_elem|left; by eapply reads_elem].
  - intros i e Hin. destruct (R5 i e Hin) as [Q1 Q2]. split; [done|]. unfold placed in *. cbn.
    eapply Forall2_impl_l_elem; [exact Q2|]. intros k x Hk Hx. rewrite Hs; [done|]. do 2 right.
    unfold queued_keys. apply list_elem_of_bind. exists (i, e). by split.
Qed.

Definition client_placed c s : Prop := forall k id, (k, id) ∈ client_slots c -> slot (primary_tier s) k = Some id.

(** The primary tier changes and what is under way keeps its slots. *)
Lemma books_primary c V s p :
  registry V s -> client_placed c s -> (forall k, busy (all_reads c s) (all_writes c s) k -> slot p k = slot (primary_tier s) k) ->
  primary_ok p (all_reads c s) (all_writes c s) -> books c V (set_primary p s).
Proof.
  intros Hr Hcl Hs Hp. unfold busy, all_reads, all_writes in Hs. split; [done| |].
  - apply registry_primary; [done|]. intros k Hk. apply Hs. rewrite !elem_of_app. tauto.
  - intros k id Hin. cbn. rewrite Hs; [by apply Hcl|]. rewrite !elem_of_app. destruct (client_slots_key c k id Hin); tauto.
Qed.

Lemma create_store_job_spec c V s keys ctx i v :
  books c V s -> V !! i = Some v -> all_ready (primary_tier s) keys -> zlen (keys ++ all_reads c s) < 2 ^ 31 ->
  wp (create_store_job keys ctx (Z.of_nat i)) (fun j s' =>
    tj_keys j = keys /\ job_shape j /\ is_promotion j = false /\ tj_req_context j = ctx /\ tv_jobs v !! tj_job_id j = None /\
    books c (<[i := view_add j v]> V) s' /\ rest_same s s' /\ all_reads c s' ≡ₚ keys ++ all_reads c s /\ all_writes c s' = all_writes c s /\
    (forall k, slot (primary_tier s') k = slot (primary_tier s) k)) s.
Proof.
  intros [Hp Hr Hcl] Hv Hrd Hb. unfold create_store_job. apply wp_bind, wp_on_primary.
  eapply wp_mono; [by apply prepare_load_spec|]. intros ids p (P1 & S1 & F1 & _).
  set (s1 := set_primary p s). assert (registry V s1) as Hr1 by (apply registry_primary; [done|by intros k _]).
  apply wp_bind, wp_bind, wp_get, wp_bind, wp_modify, wp_ret. set (j := mkTransferJob _ keys ids false ctx).
  assert (placed s1 keys ids) as Hpl by (unfold placed; cbn; eapply Forall2_impl; [exact F1|]; intros k x Hx; by rewrite S1).
  apply wp_bind. eapply wp_mono; [by apply (register_job_spec V s1 j i v)|]. intros [] s2 [[counts ->] Hr2]. apply wp_ret.
  assert (all_reads c (with_job (mkJobMetadata j (Z.of_nat i)) counts s1) ≡ₚ keys ++ all_reads c s) as Hreads.
  { unfold all_reads, with_job. cbn -[od_set]. rewrite reads_add by (apply (fresh_job V s1 Hr1)). unfold job_reads. cbn.
    rewrite !app_assoc. by rewrite (Permutation_app_comm _ keys). }
  assert (writes (od_set (job_id_counter s) (mkJobMetadata j (Z.of_nat i)) (jobs s)) = writes (jobs s)) as Hw.
  { rewrite od_set_absent by (apply (fresh_job V s1 Hr1)). unfold writes. rewrite bind_app. cbn. by rewrite app_nil_r. }
  assert (all_writes c (with_job (mkJobMetadata j (Z.of_nat i)) counts s1) = all_writes c s) as Hwrites.
  { unfold all_writes. f_equal. f_equal. exact Hw. }
  split_and!; try done.
  - unfold job_shape. cbn. symmetry. by eapply Forall2_length.
  - by apply (fresh_view V s1 i v).
  - split; [by rewrite Hreads, Hwrites|done|]. intros k id Hin. cbn. rewrite S1. by apply Hcl.
Qed.

(** *** Completion *)

(** The state without a job. *)
Definition without_job (id : Z) (counts : list TierCounts) s : Tiers := set_tier_states counts (set_jobs (od_pop id (jobs s)) s).

Lemma unregister_spec V s id j i v :
  registry V s -> V !! i = Some v -> tv_jobs v !! id = Some j ->
  registry (<[i := view_remove id v]> V) (without_job id (counts_of (od_pop id (jobs s)) <$> seqZ 0 (zlen V)) s).
Proof.
  intros [R1 R2 R3 R4 R5 R6] Hv Hj. assert (zlen (<[i := view_remove id v]> V) = zlen V) as Hz by (unfold zlen; by rewrite length_insert).
  pose proof (lookup_lt_Some _ _ _ Hv) as Hlt.
  split; cbn [jobs without_job set_tier_states set_jobs secondary_tiers pending_load_submissions tier_states job_id_counter]; rewrite ?Hz; try done.
  - by apply od_pop_NoDup.
  - intros id' m. rewrite od_get_pop by done. destruct (decide (id' = id)); [done|]. apply R2.
  - intros i' v' Hv' id' j'. rewrite od_get_pop by done. destruct (decide (i' = i)) as [->|Hne].
    + rewrite list_lookup_insert_eq in Hv' by done. injection Hv' as <-. cbn. destruct (decide (id' = id)) as [->|Hid].
      * by rewrite lookup_delete_eq.
      * rewrite lookup_delete_ne by done. by apply R3.
    + rewrite list_lookup_insert_ne in Hv' by done. rewrite (R3 i' v' Hv'). destruct (decide (id' = id)) as [->|Hid]; [|done].
      apply (R3 i v Hv) in Hj. rewrite Hj. split; [|done]. intros [= _ Heq]. lia.
  - by rewrite length_insert.
Qed.

Lemma job_finished_spec V s id j i v :
  registry V s -> V !! i = Some v -> tv_jobs v !! id = Some j ->
  wp (on_job_finished (mkJobMetadata j (Z.of_nat i)))
    (fun _ s' => s' = without_job id (counts_of (od_pop id (jobs s)) <$> seqZ 0 (zlen V)) s) (set_jobs (od_pop id (jobs s)) s).
Proof.
  intros [R1 R2 R3 R4 R5 R6] Hv Hj. apply (R3 i v Hv) in Hj. pose proof (lookup_lt_Some _ _ _ Hv) as Hlt.
  assert (0 <= Z.of_nat i < zlen V) as Hi by (unfold zlen; lia).
  assert (forall k, counts_of (jobs s) k = if decide (Z.of_nat i = k) then count_registered j (counts_of (od_pop id (jobs s)) k) else counts_of (od_pop id (jobs s)) k) as Hc.
  { intros k. rewrite (counts_perm _ _ k (od_pop_perm id _ _ Hj)). apply counts_cons. }
  pose proof (counts_nonneg (od_pop id (jobs s)) (Z.of_nat i)) as (N1 & N2 & N3 & N4).
  unfold on_job_finished. apply wp_bind, wp_get, wp_bind. cbn [tier_idx transfer_job tier_states set_jobs]. rewrite R4.
  eapply wp_of_option; [by apply fmap_seqZ_lookup|]. rewrite (Hc (Z.of_nat i)), decide_True by done.
  pose proof (insert_seqZ (counts_of (jobs s)) (counts_of (od_pop id (jobs s))) (zlen V) (Z.of_nat i) Hi) as Hins.
  assert (<[Z.to_nat (Z.of_nat i) := counts_of (od_pop id (jobs s)) (Z.of_nat i)]> (counts_of (jobs s) <$> seqZ 0 (zlen V)) =
    counts_of (od_pop id (jobs s)) <$> seqZ 0 (zlen V)) as Hst.
  { apply Hins. intros k _ Hk. by rewrite Hc, decide_False. }
  set (x := counts_of (od_pop id (jobs s)) (Z.of_nat i)) in *. unfold count_registered.
  destruct (is_promotion j) eqn:Hp; cbn [active_promotion_count active_cascade_count primary_write_chunk_count primary_read_chunk_count].
  all: apply wp_bind, wp_assert; [apply Z.ltb_lt; lia|]; apply wp_bind, wp_modify, wp_assert; [apply Z.leb_le; lia|].
  all: unfold without_job; rewrite <- Hst; unfold set_tier_states; cbn; f_equal; f_equal; unfold x, counts_of; f_equal; lia.
Qed.

(** The keys that arrived and those that did not make up the job's. *)
Lemma outcome_spec j r s : NoDup (tj_keys j) -> result_ok j r ->
  wp (promotion_outcome j r) (fun o s' => s' = s /\ o.1 ++ o.2 ≡ₚ tj_keys j) s.
Proof.
  intros Hnd Hr. unfold promotion_outcome. destruct (jr_success r); [apply wp_ret; split; [done|]; cbn; by rewrite app_nil_r|].
  destruct (successful_keys r) as [[|k l]|] eqn:Hs; [by apply wp_ret| |by apply wp_ret]. destruct (Hr _ Hs) as [Hndl Hin].
  remember (k :: l) as a eqn:Ha. clear Ha.
  apply wp_bind, wp_assert. { apply bool_decide_eq_true. intros x. rewrite !elem_of_list_to_set. apply Hin. }
  apply wp_ret. split; [done|]. cbn [fst snd]. apply NoDup_Permutation; [|done|].
  - apply NoDup_app. split_and!; [done| |apply NoDup_set_order]. intros x Hx. rewrite elem_of_set_order, elem_of_difference, !elem_of_list_to_set. tauto.
  - intros x. rewrite elem_of_app, elem_of_set_order, elem_of_difference, !elem_of_list_to_set. split; [|destruct (decide (x ∈ a)); tauto].
    intros [Hx|[Hx _]]; [by apply Hin|done].
Qed.

(** The end of writes of some keys, perhaps of none. *)
Lemma end_writes_spec R W keys success s :
  primary_ok (primary_tier s) R (keys ++ W) ->
  wp (when (negb (bool_decide (keys = []))) (on_primary (complete_store keys success)))
    (fun _ s' => exists p, s' = set_primary p s /\ primary_ok p R W /\
       forall k, k ∉ keys -> pol_map (policy p) !! k = pol_map (policy (primary_tier s)) !! k) s.
Proof.
  intros Hp. apply wp_when; intros Hb.
  - apply wp_on_primary. eapply wp_mono; [by apply complete_store_spec|]. intros [] p (_ & P1 & P2 & _). by exists p.
  - apply negb_false_iff, bool_decide_eq_true in Hb. subst keys. exists (primary_tier s). split_and!; try done. by destruct s.
Qed.

Lemma complete_promotion_spec R W j r s :
  primary_ok (primary_tier s) R (tj_keys j ++ W) -> result_ok j r ->
  wp (complete_promotion j r) (fun _ s' => exists p, s' = set_primary p s /\ primary_ok p R W /\
    forall k, k ∉ tj_keys j -> pol_map (policy p) !! k = pol_map (policy (primary_tier s)) !! k) s.
Proof.
  intros Hp Hr. pose proof (po_once _ _ _ Hp) as (Hnd & _ & _)%NoDup_app. unfold complete_promotion. apply wp_bind.
  eapply wp_mono; [by apply (outcome_spec j r s)|]. intros [a b] s1 [-> Hab]. cbn [fst snd] in *.
  rewrite <- Hab, <- app_assoc in Hp. apply wp_bind. eapply wp_mono; [by apply end_writes_spec|]. intros [] s1 (p1 & -> & P1 & Q1).
  eapply wp_mono; [apply (end_writes_spec R W b false); exact P1|]. intros [] s2 (p2 & -> & P2 & Q2). exists p2. split_and!; try done.
  intros k Hk. rewrite <- Hab, elem_of_app in Hk. cbn in Q2. rewrite Q2, Q1; [done|tauto..].
Qed.

(** A reported job leaves the books; what else is under way keeps its slots. *)
Lemma finish_job_spec c V s i v j r :
  books c V s -> V !! i = Some v -> tv_jobs v !! jr_job_id r = Some j -> result_ok j r ->
  wp (finish_job (Z.of_nat i) r) (fun _ s' => books c (<[i := view_remove (jr_job_id r) v]> V) s' /\ rest_same s s' /\
    (all_reads c s ≡ₚ all_reads c s' \/ all_reads c s ≡ₚ tj_keys j ++ all_reads c s')) s.
Proof.
  intros [Hp Hr Hcl] Hv Hj Hres. pose proof (proj1 (rg_views _ _ Hr i v Hv _ _) Hj) as Hg. set (id := jr_job_id r) in *.
  unfold finish_job. fold id. apply wp_bind, wp_bind, wp_get, wp_bind, wp_modify, wp_ret. rewrite Hg. apply wp_bind. eapply wp_of_option; [done|].
  apply wp_bind, wp_assert; [apply Z.eqb_refl|]. apply wp_bind. eapply wp_mono; [by apply (job_finished_spec V s id j i v)|]. intros [] s1 ->.
  set (s1 := without_job id _ s). pose proof (unregister_spec V s id j i v Hr Hv Hj) as Hr1. fold s1 in Hr1.
  cbn [transfer_job].
  destruct (is_promotion j) eqn:Ej.
  - assert (all_writes c s ≡ₚ tj_keys j ++ all_writes c s1) as Hw.
    { unfold all_writes. change (jobs s1) with (od_pop id (jobs s)). change (pending_load_submissions s1) with (pending_load_submissions s).
      rewrite (writes_pop id _ (jobs s) Hg). unfold job_writes. cbn. rewrite Ej. solve_Permutation. }
    assert (all_reads c s ≡ₚ all_reads c s1) as Hrd.
    { unfold all_reads. change (jobs s1) with (od_pop id (jobs s)). rewrite (reads_pop id _ (jobs s) Hg). unfold job_reads. cbn. by rewrite Ej. }
    rewrite Hw, Hrd in Hp. eapply wp_mono; [by apply (complete_promotion_spec (all_reads c s1) (all_writes c s1) j r s1)|].
    intros [] s2 (p & -> & P1 & Q1). split_and!; [|done|by left]. apply books_primary; [done|done| |done].
    assert (forall k, k ∈ all_reads c s1 \/ k ∈ all_writes c s1 -> k ∉ tj_keys j) as Hout.
    { intros k [Hk|Hk] Hin.
      - destruct (reader_stored _ _ _ k Hp Hk) as (ch & Hch & _ & Hpos). assert (k ∈ tj_keys j ++ all_writes c s1) as (c' & Hc' & Hc'')%(po_pending _ _ _ Hp) by (apply elem_of_app; by left).
        assert (ch = c') as -> by congruence. lia.
      - pose proof (po_once _ _ _ Hp) as (_ & Hd & _)%NoDup_app. by apply (Hd k Hin). }
    intros k Hk. unfold slot. rewrite Q1; [done|]. by apply Hout.
  - assert (all_writes c s ≡ₚ all_writes c s1) as Hw.
    { unfold all_writes. change (jobs s1) with (od_pop id (jobs s)). change (pending_load_submissions s1) with (pending_load_submissions s).
      rewrite (writes_pop id _ (jobs s) Hg). unfold job_writes. cbn. by rewrite Ej. }
    assert (all_reads c s ≡ₚ tj_keys j ++ all_reads c s1) as Hrd.
    { unfold all_reads. change (jobs s1) with (od_pop id (jobs s)). rewrite (reads_pop id _ (jobs s) Hg). unfold job_reads. cbn. rewrite Ej. solve_Permutation. }
    rewrite Hw, Hrd in Hp. apply wp_on_primary. eapply wp_mono; [by apply (complete_load_spec (tj_keys j) (primary_tier s1) (all_reads c s1) (all_writes c s1))|].
    intros [] p (P1 & S1 & _). split_and!; [|done|by right]. apply books_primary; [done|done|by intros k _|done].
Qed.

(** *** Polling *)

(** Views that differ in their jobs only. *)
Definition same_names (v v' : TierView) : Prop := tv_open v' = tv_open v /\ tv_own v' = tv_own v.

Lemma requests_views c V V' s : Forall2 same_names V V' -> requests_ok c V s -> requests_ok c V' s.
Proof.
  intros HV [Q1 Q2 Q3 Q4 Q5]. assert (zlen V' = zlen V) as Hz by (unfold zlen; by rewrite (Forall2_length _ _ _ HV)).
  assert (forall i v', V' !! i = Some v' -> exists v, V !! i = Some v /\ tv_open v' = tv_open v /\ tv_own v' = tv_own v) as Hb.
  { intros i v' Hv'. destruct (Forall2_lookup_r _ _ _ _ _ HV Hv') as (v & Hv & Hs). by exists v. }
  split; try done.
  - intros rid r Hg. destruct (Q2 rid r Hg) as [A1 A2 A3 A4 A5]. split; rewrite ?Hz; try done.
    intros i v' Hv' Hown. destruct (Hb i v' Hv') as (v & Hv & Ho & Hw). rewrite Ho. apply (A5 i v Hv). by rewrite <- Hw.
  - intros rid ks Hin. destruct (Q3 rid ks Hin) as [A1 A2]. split; [done|]. intros i v' Hv'. destruct (Hb i v' Hv') as (v & Hv & Ho & Hw). rewrite Hw. by apply (A2 i v).
  - intros i v' rid Hv'. destruct (Hb i v' Hv') as (v & Hv & Ho & Hw). rewrite Ho, Hw. by apply (Q4 i v).
  - intros i j v' w' rid Hv' Hw'. destruct (Hb i v' Hv') as (v & Hv & Ho & Hw), (Hb j w' Hw') as (w & Hvw & Hob & Hwb). rewrite Hw, Hwb. by apply (Q5 i j v w).
Qed.

Lemma same_names_insert V i v v' : V !! i = Some v -> same_names v v' -> Forall2 same_names V (<[i := v']> V).
Proof.
  intros Hv Hs. apply Forall2_same_length_lookup. split; [by rewrite length_insert|]. intros k w w' Hw Hw'.
  destruct (decide (k = i)) as [->|Hne].
  - rewrite list_lookup_insert_eq in Hw' by by eapply lookup_lt_Some. by simplify_eq.
  - rewrite list_lookup_insert_ne in Hw' by done. by simplify_eq.
Qed.

Lemma same_names_trans V1 V2 V3 : Forall2 same_names V1 V2 -> Forall2 same_names V2 V3 -> Forall2 same_names V1 V3.
Proof.
  intros H12. revert V3. induction H12 as [|a b l1 l2 [A1 A2] _ IH]; intros V3 H23; inversion H23 as [|? e ? l3 [B1 B2] ?]; subst; constructor.
  - split; congruence.
  - by apply IH.
Qed.
Lemma same_names_refl V : Forall2 same_names V V.
Proof. induction V; by constructor. Qed.

(** Nothing is added: what polling leaves alone. *)
Record polled c s s' : Prop := {
  pl_queue : pending_load_submissions s' = pending_load_submissions s;
  pl_reqs : req_state s' = req_state s;
  pl_gate : processed_jobs_this_step s' = processed_jobs_this_step s;
  pl_reads : zlen (all_reads c s') <= zlen (all_reads c s);
  pl_tiers : length (secondary_tiers s') = length (secondary_tiers s)
}.
Lemma polled_refl c s : polled c s s.
Proof. by split. Qed.
Lemma polled_trans c s1 s2 s3 : polled c s1 s2 -> polled c s2 s3 -> polled c s1 s3.
Proof. intros [A1 A2 A3 A4 A5] [B1 B2 B3 B4 B5]. split; try congruence; lia. Qed.

(** Only the requests' part of a state matters to them. *)
Lemma requests_frame c V s s' : req_state s' = req_state s -> requests_ok c V s -> requests_ok c V s'.
Proof. intros Hs [Q1 Q2 Q3 Q4 Q5]. split; rewrite ?Hs; done. Qed.

Lemma zlen_perm {A} (l1 l2 : list A) : l1 ≡ₚ l2 -> zlen l1 = zlen l2.
Proof. intros Hp. unfold zlen. by rewrite Hp. Qed.

Lemma finish_jobs_spec c V s i v rs :
  books c V s -> V !! i = Some v -> NoDup (jr_job_id <$> rs) ->
  (forall r, r ∈ rs -> exists j, tv_jobs v !! jr_job_id r = Some j /\ result_ok j r) ->
  wp (for_each rs (finish_job (Z.of_nat i))) (fun _ s' =>
    books c (<[i := foldl (fun v r => view_remove (jr_job_id r) v) v rs]> V) s' /\ rest_same s s' /\ polled c s s') s.
Proof.
  intros Hb Hv Hnd Hrs.
  apply (wp_for_each (fun pre s' => books c (<[i := foldl (fun v r => view_remove (jr_job_id r) v) v pre]> V) s' /\ rest_same s s' /\ polled c s s')).
  { split_and!; [by rewrite list_insert_id|done|apply polled_refl]. }
  intros pre r post s1 -> (B1 & S1 & L1). destruct (Hrs r) as (j & Hj & Hr); [apply elem_of_app; right; by left|].
  assert (tv_jobs (foldl (fun v r => view_remove (jr_job_id r) v) v pre) !! jr_job_id r = Some j) as Hj1.
  { rewrite fmap_app in Hnd. apply NoDup_app in Hnd as (_ & Hd & _). clear -Hj Hd. revert v Hj. induction pre as [|r0 pre IH]; intros v Hj; [done|].
    cbn [foldl]. apply IH; [intros x Hx; apply Hd; by right|]. cbn. rewrite lookup_delete_ne; [done|]. intros Heq.
    apply (Hd (jr_job_id r0)); [by left|]. rewrite Heq. by left. }
  eapply wp_mono; [eapply (finish_job_spec c _ s1 i _ j r B1); [|done|done]|].
  { apply list_lookup_insert_eq. by eapply lookup_lt_Some. }
  intros [] s2 (B2 & [R1 R2 R3 R4] & Hrd). rewrite list_insert_insert_eq in B2. rewrite foldl_app. cbn [foldl]. split_and!; [done| |].
  - destruct S1. split; congruence.
  - eapply polled_trans; [exact L1|]. split; try congruence. destruct Hrd as [Hz%zlen_perm|Hz%zlen_perm]; rewrite Hz; [lia|]. rewrite zlen_app. pose proof (zlen_nonneg (tj_keys j)). lia.
Qed.

End Books.
