(* ===== verification/TieringOps.v ===== *)
(** * The operations of the tiering manager, specified

    Each method of [TieringOffloadingManager] (Tiering.v) on a state with the
    invariant of TieringInv.v: it raises nothing, keeps the invariant, and what is
    under way keeps its slots. *)
From Stdlib Require Import ZArith QArith Lia.
From stdpp Require Import base tactics gmap strings numbers option list.
From S2P Require Import Prelude Blocks Env OrderedDict Offload OffloadPolicies OffloadSpec Tiering TieringPrimary TieringInv.

Local Open Scope Z_scope.

Lemma seqZ_split n pre x post : seqZ 0 n = pre ++ x :: post -> x = Z.of_nat (length pre) /\ (length pre < Z.to_nat n)%nat.
Proof.
  intros Hs. assert (seqZ 0 n !! length pre = Some x) as Hx by (rewrite Hs; by apply list_lookup_middle).
  apply lookup_seqZ in Hx. lia.
Qed.

(** *** The queue of promotions *)

Lemma od_set_perm {A B} `{EqDecision A} k (v : B) (d : list (A * B)) : od_set k v d ≡ₚ (k, v) :: od_pop k d.
Proof.
  induction d as [|[k' v'] d IH]; [done|]. cbn. destruct (decide (k = k')) as [->|]; [done|]. rewrite IH. apply Permutation_swap.
Qed.
Lemma od_set_id {A B} `{EqDecision A} k (v : B) (d : list (A * B)) : od_get k d = Some v -> od_set k v d = d.
Proof.
  induction d as [|[k' v'] d IH]; [done|]. cbn. destruct (decide (k = k')) as [->|]; [by intros [= ->]|]. intros Hg. by rewrite IH.
Qed.
Lemma od_set_set {A B} `{EqDecision A} k (v w : B) (d : list (A * B)) : od_set k w (od_set k v d) = od_set k w d.
Proof.
  induction d as [|[k' v'] d IH]; cbn; [by rewrite decide_True|]. destruct (decide (k = k')) as [->|Hne]; cbn.
  - by rewrite decide_True.
  - by rewrite decide_False, IH.
Qed.
Lemma od_get_perm_pop {A B} `{EqDecision A} k (d : list (A * B)) :
  d ≡ₚ match od_get k d with Some v => [(k, v)] | None => [] end ++ od_pop k d.
Proof.
  destruct (od_get k d) as [v|] eqn:Hg; [by apply od_pop_perm|]. apply od_get_None in Hg. by rewrite od_pop_absent.
Qed.

(** A promotion added to the queue. *)
Definition push_promotion (i : Z) (ctx : ReqContext) (keys : list OffloadKey) (ids : list Z)
    (q : list (Z * list (string * PendingPromotion))) : list (Z * list (string * PendingPromotion)) :=
  let by_ctx := default [] (od_get i q) in
  let e := default (mkPendingPromotion ctx [] []) (od_get (rc_req_id ctx) by_ctx) in
  let e := mkPendingPromotion (pp_req_context e) (pp_keys e ++ keys) (pp_chunk_ids e ++ ids) in
  od_set i (od_set (rc_req_id ctx) e by_ctx) q.

Lemma queued_cons i b q : queued_promotions ((i, b) :: q) = ((fun f => (i, f.2)) <$> b) ++ queued_promotions q.
Proof. done. Qed.

(** The entry that grew, and the others. *)
Lemma push_perm i ctx keys ids q : exists e0 rest,
  queued_promotions (push_promotion i ctx keys ids q) ≡ₚ (i, mkPendingPromotion (pp_req_context e0) (pp_keys e0 ++ keys) (pp_chunk_ids e0 ++ ids)) :: rest /\
  (queued_promotions q ≡ₚ (i, e0) :: rest \/ (queued_promotions q ≡ₚ rest /\ pp_keys e0 = [] /\ pp_chunk_ids e0 = [])).
Proof.
  unfold push_promotion. set (b := default [] (od_get i q)). set (e0 := default _ (od_get (rc_req_id ctx) b)).
  set (e1 := mkPendingPromotion _ _ _). exists e0, (((fun f => (i, f.2)) <$> od_pop (rc_req_id ctx) b) ++ queued_promotions (od_pop i q)).
  assert (forall q1 q2, q1 ≡ₚ q2 -> queued_promotions q1 ≡ₚ queued_promotions q2) as Hproper by (intros q1 q2 Hq; unfold queued_promotions; by rewrite Hq).
  split.
  - rewrite (Hproper _ _ (od_set_perm i _ q)), queued_cons. rewrite od_set_perm. done.
  - rewrite (Hproper _ _ (od_get_perm_pop i q)). unfold e0, b in *. destruct (od_get i q) as [b'|] eqn:Hb; cbn [default from_option id app].
    + rewrite queued_cons. pose proof (od_get_perm_pop (rc_req_id ctx) b') as Hpp.
      destruct (od_get (rc_req_id ctx) b') as [e|]; cbn in *; [left|right; split_and!; try done]; by rewrite Hpp at 1.
    + right. by split_and!.
Qed.

Lemma push_keys i ctx keys ids q : queued_keys (push_promotion i ctx keys ids q) ≡ₚ keys ++ queued_keys q.
Proof.
  destruct (push_perm i ctx keys ids q) as (e0 & rest & Hp & Hq). unfold queued_keys. rewrite Hp. cbn.
  destruct Hq as [Hq|(Hq & He & _)]; rewrite Hq; cbn.
  - rewrite (Permutation_app_comm (pp_keys e0) keys). by rewrite app_assoc.
  - by rewrite He.
Qed.

Section Ops.
Context `{Env} {P T : Type} `{CachePolicySpec P} `{SecondaryTierLaws T}.
Local Abbreviation Tiers := (TieringOffloadingManager P T).
Implicit Types (s : Tiers) (c : Client) (V : list TierView).

(** A loop over the tiers. *)
Lemma wp_each_tier (I : nat -> Tiers -> Prop) f s :
  I 0%nat s ->
  (forall i s', (i < length (secondary_tiers s))%nat -> I i s' -> wp (f (Z.of_nat i)) (fun _ s'' => I (S i) s'') s') ->
  wp (each_tier f) (fun _ s' => I (length (secondary_tiers s)) s') s.
Proof.
  intros H0' Hstep. unfold each_tier, tier_indices. apply wp_bind, wp_get.
  eapply wp_mono; [apply (wp_for_each (fun pre s' => I (length pre) s')); [done|]|].
  - intros pre x post s' Hs HI. destruct (seqZ_split _ _ _ _ Hs) as [-> Hlt]. unfold zlen in Hlt. rewrite length_app, Nat.add_1_r. apply Hstep; [lia|done].
  - intros [] s' HI. rewrite length_seqZ in HI. unfold zlen in HI. by rewrite Nat2Z.id in HI.
Qed.

(** The tiers change and nothing else. *)
Definition tiers_only s s' : Prop := exists ts, s' = set_tiers ts s /\ length ts = length (secondary_tiers s).
Lemma tiers_only_refl s : tiers_only s s.
Proof. exists (secondary_tiers s). split; [by destruct s|done]. Qed.
Lemma tiers_only_trans s1 s2 s3 : tiers_only s1 s2 -> tiers_only s2 s3 -> tiers_only s1 s3.
Proof. intros (ts & -> & L1) (ts' & -> & L2). exists ts'. split; [done|]. cbn in L2. congruence. Qed.

Lemma books_tiers c V s s' : tiers_only s s' -> books c V s -> books c V s'.
Proof. intros (ts & -> & Hl) [Hp [R1 R2 R3 R4 R5 R6] Hcl]. split; [done| |done]. split; try done. cbn. by rewrite Hl. Qed.

(** The tier of an index. *)
Lemma tier_at c V x s i : core c V x s -> (i < length V)%nat -> x <> Some i ->
  exists t v, secondary_tiers s !! i = Some t /\ V !! i = Some v /\ st_ok t v.
Proof.
  intros [[_ Hr] Hl] Hi Hx. destruct (lookup_lt_is_Some_2 (secondary_tiers s) i) as [t Ht]; [by rewrite (rg_tiers _ _ Hr)|].
  destruct (Hl i t Ht Hx) as (v & Hv & Hok). by exists t, v.
Qed.

(** A tier is replaced, and perhaps its view. *)
Lemma linked_insert V x s s' i t' v' :
  linked x V s -> (i < length V)%nat -> secondary_tiers s' = <[i := t']> (secondary_tiers s) -> st_ok t' v' -> linked x (<[i := v']> V) s'.
Proof.
  intros Hl Hlt Hs Hok k u Hu Hk. rewrite Hs in Hu. destruct (decide (k = i)) as [->|Hne].
  - exists v'. rewrite list_lookup_insert_eq by done. split; [done|]. pose proof (lookup_lt_Some _ _ _ Hu) as Hk'. rewrite length_insert in Hk'.
    rewrite list_lookup_insert_eq in Hu by done. by injection Hu as <-.
  - rewrite list_lookup_insert_ne in Hu by done. rewrite list_lookup_insert_ne by done. by apply Hl.
Qed.

(** A call that a tier answers without changing its view. *)
Lemma same_view_spec {A} c V x s i (f : M T A) :
  core c V x s -> (i < length V)%nat -> x <> Some i ->
  (forall t v, st_ok t v -> wp f (fun _ t' => st_ok t' v) t) ->
  wp (on_tier (Z.of_nat i) f) (fun _ s' => core c V x s' /\ tiers_only s s') s.
Proof.
  intros Hc Hi Hx Hf. destruct (tier_at _ _ _ _ _ Hc Hi Hx) as (t & v & Ht & Hv & Hok). destruct Hc as [Hb Hl].
  eapply wp_on_tier; [by rewrite Nat2Z.id|]. eapply wp_mono; [by apply (Hf t v)|]. intros a t' Hok'. rewrite Nat2Z.id.
  assert (tiers_only s (set_tiers (<[i := t']> (secondary_tiers s)) s)) as Ht' by (eexists; split; [done|by rewrite length_insert]).
  split; [|done]. split; [by eapply books_tiers|]. rewrite <- (list_insert_id V i v Hv). by eapply linked_insert.
Qed.

(** All tiers in turn. *)
Lemma each_same_view c V x s g :
  core c V x s ->
  (forall i s', (i < length V)%nat -> core c V x s' -> wp (g (Z.of_nat i)) (fun _ s'' => core c V x s'' /\ tiers_only s' s'') s') ->
  wp (each_tier g) (fun _ s' => core c V x s' /\ tiers_only s s') s.
Proof.
  intros Hc Hg. apply (wp_each_tier (fun _ s' => core c V x s' /\ tiers_only s s')); [split; [done|apply tiers_only_refl]|].
  intros i s' Hi [C1 T1]. rewrite (rg_tiers _ _ (bk_registry _ _ _ (co_books _ _ _ _ Hc))) in Hi.
  eapply wp_mono; [by apply Hg|]. intros [] s2 [C2 T2]. split; [done|]. by eapply tiers_only_trans.
Qed.

(** ** Polling *)

Lemma poll_tier_spec c V s i :
  core c V None s -> (i < length V)%nat ->
  wp (results ← on_tier (Z.of_nat i) tier_get_finished_jobs; for_each results (finish_job (Z.of_nat i)))
    (fun _ s' => exists v t', core c (<[i := v]> V) None s' /\ Forall2 same_names V (<[i := v]> V) /\ polled c s s' /\
       secondary_tiers s' = <[i := t']> (secondary_tiers s) /\
       ((forall t, secondary_tiers s !! i = Some t -> st_drained t) -> tv_jobs v = ∅)) s.
Proof.
  intros Hc Hi. destruct (tier_at _ _ _ _ _ Hc Hi) as (t & v & Ht & Hv & Hok); [done|]. destruct Hc as [Hb Hl].
  apply wp_bind. eapply wp_on_tier; [by rewrite Nat2Z.id|].
  eapply wp_mono; [by apply stl_finished|]. intros rs t' (Hnd & Hrs & Hok' & Hdr). rewrite Nat2Z.id.
  set (s1 := set_tiers _ s). assert (books c V s1) as B1.
  { eapply books_tiers; [|exact Hb]. eexists. split; [done|by rewrite length_insert]. }
  eapply wp_mono; [by apply (finish_jobs_spec c V s1 i v rs)|]. intros [] s2 (B2 & S2 & L2). set (v' := foldl _ v rs) in *.
  assert (same_names v v') as Hsn.
  { unfold v'. clear. revert v. induction rs as [|r rs IH]; intros v; [done|]. cbn [foldl]. exact (IH (view_remove (jr_job_id r) v)). }
  exists v', t'. split_and!.
  - split; [done|]. eapply linked_insert; [exact Hl|done| |done]. by rewrite (rs_tiers _ _ S2).
  - by apply (same_names_insert V i v).
  - eapply polled_trans; [|exact L2]. split; try done. cbn. by rewrite length_insert.
  - by rewrite (rs_tiers _ _ S2).
  - intros Hd. by apply Hdr, Hd.
Qed.

Lemma poll_all_spec c V s :
  core c V None s ->
  wp process_finished_jobs (fun _ s' => exists V', core c V' None s' /\ Forall2 same_names V V' /\ polled c s s' /\
    ((forall i t, secondary_tiers s !! i = Some t -> st_drained t) -> forall i v, V' !! i = Some v -> tv_jobs v = ∅)) s.
Proof.
  intros Hc. pose proof (rg_tiers _ _ (bk_registry _ _ _ (co_books _ _ _ _ Hc))) as Hlen. unfold process_finished_jobs.
  eapply wp_mono; [apply (wp_each_tier (fun n s' => exists V', core c V' None s' /\ Forall2 same_names V V' /\ polled c s s' /\
    (forall k, (n <= k)%nat -> secondary_tiers s' !! k = secondary_tiers s !! k) /\
    ((forall i t, secondary_tiers s !! i = Some t -> st_drained t) -> forall i v, (i < n)%nat -> V' !! i = Some v -> tv_jobs v = ∅)))|].
  - exists V. split_and!; try done; [apply same_names_refl|intros; lia].
  - intros i s1 Hlt (V1 & I1 & N1 & L1 & T1 & D1). rewrite Hlen, (Forall2_length _ _ _ N1) in Hlt.
    eapply wp_mono; [by apply (poll_tier_spec c V1 s1 i)|]. intros [] s2 (v & t' & I2 & N2 & L2 & T2 & D2). exists (<[i := v]> V1). split_and!; try done.
    + by eapply same_names_trans.
    + by eapply polled_trans.
    + intros k Hk. rewrite T2, list_lookup_insert_ne by lia. apply T1. lia.
    + intros Hd k w Hk Hw. destruct (decide (k = i)) as [->|Hne].
      * rewrite list_lookup_insert_eq in Hw by done. injection Hw as <-. apply D2. intros t Ht. apply (Hd i). by rewrite <- T1.
      * rewrite list_lookup_insert_ne in Hw by done. apply (D1 Hd k w); [lia|done].
  - intros [] s' (V' & I' & N' & L' & _ & D'). exists V'. split_and!; try done. intros Hd i v Hv. apply (D' Hd i v); [|done].
    rewrite Hlen, (Forall2_length _ _ _ N'). by eapply lookup_lt_Some.
Qed.

(** Polling when the gate is open; nothing while a tier serves a peer. *)
Lemma maybe_process_spec c V x s :
  core c V x s -> (x <> None -> processed_jobs_this_step s = true) ->
  wp maybe_process_finished_jobs (fun _ s' => exists V', core c V' x s' /\ Forall2 same_names V V' /\ polled c (set_processed true s) s' /\
    (processed_jobs_this_step s = true -> s' = s /\ V' = V)) s.
Proof.
  intros Hc Hg. unfold maybe_process_finished_jobs. apply wp_bind, wp_get. destruct (processed_jobs_this_step s) eqn:Ep.
  - apply wp_ret. exists V. split_and!; try done; apply same_names_refl.
  - destruct x as [x|]; [by specialize (Hg ltac:(done))|]. apply wp_bind, wp_modify. eapply wp_mono; [apply (poll_all_spec c V)|].
    + destruct Hc as [[Hp [R1 R2 R3 R4 R5 R6] Hcl] Hl]. split; [split; [done|by split|done]|done].
    + intros [] s' (V' & I' & N' & L' & _). by exists V'.
Qed.

(** ** Promotion and lookup *)

(** Nothing but the primary tier, the queue and the tiers may change. *)
Record lookup_same s s' : Prop := {
  ls_jobs : jobs s' = jobs s;
  ls_reqs : req_state s' = req_state s;
  ls_gate : processed_jobs_this_step s' = processed_jobs_this_step s;
  ls_tiers : length (secondary_tiers s') = length (secondary_tiers s)
}.
Lemma lookup_same_trans s1 s2 s3 : lookup_same s1 s2 -> lookup_same s2 s3 -> lookup_same s1 s3.
Proof. intros [] []. split; congruence. Qed.
Lemma lookup_same_tiers s s' : tiers_only s s' -> lookup_same s s'.
Proof. intros (ts & -> & Hl). by split. Qed.

(** The primary tier holds the same chunks. *)
Definition same_chunks s s' : Prop := forall k, pol_map (policy (primary_tier s')) !! k = pol_map (policy (primary_tier s)) !! k.
Lemma same_chunks_tiers s s' : tiers_only s s' -> same_chunks s s'.
Proof. by intros (ts & -> & _). Qed.
Lemma same_chunks_trans s1 s2 s3 : same_chunks s1 s2 -> same_chunks s2 s3 -> same_chunks s1 s3.
Proof. intros H12 H23 k. by rewrite H23. Qed.

Definition absent s (key : OffloadKey) : Prop := pol_map (policy (primary_tier s)) !! key = None.

Lemma promotion_spec c V x s i key ctx :
  core c V x s -> (i < length V)%nat -> absent s key ->
  wp (initiate_promotion (Z.of_nat i) key ctx) (fun b s' => core c V x s' /\ lookup_same s s' /\
    if b : bool then key ∈ queued_keys (pending_load_submissions s') else same_chunks s s') s.
Proof.
  intros [[Hp Hr Hcl] Hl] Hlt Hab. unfold initiate_promotion. apply wp_bind, wp_on_primary.
  eapply wp_mono; [apply (prepare_store_spec _ _ _ [key] Hp), NoDup_singleton|]. intros [out|] p (_ & Hres).
  2:{ destruct Hres as [P1 S1]. apply wp_ret. split_and!; [|done|intros k; cbn; by rewrite S1]. split; [|done].
      apply books_primary; [done|done| |done]. intros k _. unfold slot. by rewrite S1. }
  destruct Hres as (P1 & K1 & _ & _ & F1 & N1 & _). apply wp_bind, wp_modify, wp_ret.
  change (pending_load_submissions (set_primary p s)) with (pending_load_submissions s).
  fold (push_promotion (Z.of_nat i) ctx (keys_to_store out) (store_spec out) (pending_load_submissions s)).
  set (q := push_promotion _ _ _ _ _). set (s1 := set_primary p s).
  assert (registry V s1) as [R1 R2 R3 R4 R5 R6].
  { apply registry_primary; [done|]. intros k Hk. apply K1. unfold busy, all_reads, all_writes. rewrite !elem_of_app. tauto. }
  assert (queued_keys q ≡ₚ keys_to_store out ++ queued_keys (pending_load_submissions s)) as Hk by apply push_keys.
  split_and!; [|done|].
  2:{ change (key ∈ queued_keys q). rewrite Hk. apply elem_of_app. left. apply N1; [by left|done]. }
  split; [|done]. split; [| |intros k id Hin; cbn; rewrite K1; [by apply Hcl|];
    unfold busy, all_reads, all_writes; rewrite !elem_of_app; destruct (client_slots_key c k id Hin); tauto].
  - cbn [primary_tier set_pending_loads set_primary s1]. unfold all_reads, all_writes. cbn [jobs pending_load_submissions set_pending_loads set_primary s1].
    rewrite Hk.
    assert (client_writes c ++ writes (jobs s) ++ keys_to_store out ++ queued_keys (pending_load_submissions s) ≡ₚ keys_to_store out ++ all_writes c s) as ->.
    { unfold all_writes. solve_Permutation. }
    exact P1.
  - split; try done. intros i' e Hin. cbn in Hin.
    destruct (push_perm (Z.of_nat i) ctx (keys_to_store out) (store_spec out) (pending_load_submissions s)) as (e0 & rest & Hpm & Hold).
    fold q in Hpm. rewrite Hpm in Hin. apply elem_of_cons in Hin as [[= -> ->]|Hin].
    + split; [unfold zlen; lia|]. cbn. apply Forall2_app; [|exact F1]. destruct Hold as [Hold|(_ & -> & ->)]; [|constructor].
      destruct (R5 (Z.of_nat i) e0) as [_ Hpl]; [cbn; rewrite Hold; by left|exact Hpl].
    + apply R5. cbn. destruct Hold as [Hold|(Hold & _)]; rewrite Hold; [by right|done].
Qed.

(** What the search of the tiers leaves: a promotion queued, or the primary tier
    as it was. *)
Definition searched c V x key s (r : LookupResult) s' : Prop :=
  core c V x s' /\ lookup_same s s' /\ r <> HIT /\
  match r with HIT_PENDING => key ∈ queued_keys (pending_load_submissions s') | _ => same_chunks s s' end.

Lemma lookup_tiers_spec c V x key ctx exclude idxs : forall retry s,
  core c V x s -> absent s key -> (forall i, i ∈ idxs -> 0 <= i < zlen V) -> (forall i, x = Some i -> exclude = Some (Z.of_nat i)) ->
  wp (lookup_tiers key ctx exclude retry idxs) (searched c V x key s) s.
Proof.
  induction idxs as [|i idxs IH]; intros retry s Hc Hab Hin Hx.
  { apply wp_ret. unfold searched. split_and!; [done|by split|by destruct retry|by destruct retry]. }
  assert (forall i, i ∈ idxs -> 0 <= i < zlen V) as Hin' by (intros k Hk; apply Hin; by right).
  cbn [lookup_tiers]. destruct (bool_decide_reflect (exclude = Some i)) as [|Hne]; [by apply IH|].
  destruct (Hin i) as [Hi0 Hi1]; [by left|]. rewrite <- (Z2Nat.id i Hi0) in *. set (n := Z.to_nat i) in *. unfold zlen in Hi1.
  assert (x <> Some n) as Hxn by (intros Heq; apply Hne; by apply Hx).
  destruct (tier_at _ _ _ _ n Hc) as (t & v & Ht & _ & _); [lia|done|].
  apply wp_bind, wp_get, wp_bind. rewrite Nat2Z.id. eapply wp_of_option; [exact Ht|]. destruct (negb _); [by apply IH|].
  apply wp_bind. eapply wp_mono; [apply (same_view_spec c V x s n _ Hc); [lia|done|intros; by apply stl_lookup]|].
  intros r s1 [C1 T1]. pose proof (lookup_same_tiers _ _ T1) as L1. pose proof (same_chunks_tiers _ _ T1) as S1.
  assert (absent s1 key) as Hab1 by (unfold absent; by rewrite S1).
  assert (forall retry, wp (lookup_tiers key ctx exclude retry idxs) (searched c V x key s) s1) as Hgo.
  { intros b. eapply wp_mono; [by apply (IH b s1)|]. intros r' s2 (I2 & L2 & N2 & C2). unfold searched. split_and!; try done; [by eapply lookup_same_trans|].
    destruct r'; try done; by eapply same_chunks_trans. }
  destruct r; try apply Hgo. apply wp_bind. eapply wp_mono; [apply (promotion_spec c V x s1 n key ctx C1); [lia|done]|].
  intros b s2 (I2 & L2 & C2). apply wp_ret. unfold searched. split_and!; [done|by eapply lookup_same_trans|by destruct b|].
  destruct b; [done|by eapply same_chunks_trans].
Qed.

Lemma tier_indices_ok c V x s i : core c V x s -> i ∈ tier_indices s -> 0 <= i < zlen V.
Proof.
  intros Hc Hi. pose proof (rg_tiers _ _ (bk_registry _ _ _ (co_books _ _ _ _ Hc))). unfold tier_indices, zlen in *. apply elem_of_seqZ in Hi. lia.
Qed.

(** What a lookup says of the state it leaves. *)
Definition looked_up c V x key s (r : LookupResult) s' : Prop :=
  exists V', core c V' x s' /\ Forall2 same_names V V' /\ req_state s' = req_state s /\
    zlen (all_reads c s') <= zlen (all_reads c s) /\ processed_jobs_this_step s' = true /\ length (secondary_tiers s') = length (secondary_tiers s) /\
    match r with
    | HIT => all_ready (primary_tier s') [key]
    | HIT_PENDING => key ∈ all_writes c s'
    | _ => absent s' key
    end /\
    (processed_jobs_this_step s = true -> V' = V /\ all_reads c s' = all_reads c s /\ (r <> HIT_PENDING -> same_chunks s s')).

Lemma tiering_lookup_spec c V x s key ctx exclude :
  core c V x s -> (x <> None -> processed_jobs_this_step s = true) -> (forall i, x = Some i -> exclude = Some (Z.of_nat i)) ->
  wp (tiering_lookup key ctx exclude) (looked_up c V x key s) s.
Proof.
  intros Hc Hg Hx. unfold tiering_lookup. apply wp_bind. eapply wp_mono; [by apply (maybe_process_spec c V x)|].
  intros [] s1 (V1 & C1 & N1 & [Q1 R1 G1 Z1 T1] & E1). cbn in Q1, R1, G1, T1. change (all_reads c (set_processed true s)) with (all_reads c s) in Z1.
  apply wp_bind, wp_get. pose proof (lookup_spec _ _ _ key (bk_primary _ _ _ (co_books _ _ _ _ C1))) as Hlk.
  assert (forall r, match r with HIT => all_ready (primary_tier s1) [key] | HIT_PENDING => key ∈ all_writes c s1 | _ => absent s1 key end ->
    looked_up c V x key s r s1) as Hret.
  { intros r Hr. exists V1. split_and!; try done. intros Hgt. by destruct (E1 Hgt) as [-> ->]. }
  assert (absent s1 key -> wp (lookup_tiers key ctx exclude false (tier_indices s1)) (looked_up c V x key s) s1) as Htiers.
  { intros Hab. eapply wp_mono; [apply (lookup_tiers_spec c V1 x); [done|done|intros i; by eapply tier_indices_ok|done]|].
    intros r s2 (C2 & [L1 L2 L3 L4] & NH & S2). exists V1. assert (all_reads c s2 = all_reads c s1) as Hrd by (unfold all_reads; by rewrite L1).
    rewrite Hrd. split_and!; try done; try congruence.
    - destruct r; try done; [unfold absent; by rewrite S2| |unfold absent; by rewrite S2]. unfold all_writes. rewrite !elem_of_app. by right; right.
    - intros Hgt. destruct (E1 Hgt) as [-> ->]. split_and!; try done. by destruct r. }
  destruct (lookup_chunk key (primary_tier s1)) eqn:El; try done.
  - by apply Htiers.
  - apply wp_ret, Hret. destruct Hlk as (ch & Hch & Hr). intros k ->%list_elem_of_singleton. exists ch. split; [done|].
    pose proof (kocc_nonneg key (all_reads c s1)). lia.
  - by apply wp_ret, Hret.
Qed.

End Ops.

(** * Transfers of the tiering manager, specified

    Store jobs (cascades) and promotions from their creation to their submission
    ([create_store_job], [submit_store], [_flush_pending_promotions]): the books
    gain the job, its tier's view gains it too, and nothing under way moves. *)

Lemma zlen_nil A : zlen (@nil A) = 0.
Proof. done. Qed.

(** A loop in a loop. *)
Lemma wp_for_each_nested {St A B} (l : list A) (h : A -> list B) (F : A -> B -> M St unit) Q s :
  wp (for_each (l ≫= fun a => (fun b => (a, b)) <$> h a) (fun p => F p.1 p.2)) Q s ->
  wp (for_each l (fun a => for_each (h a) (F a))) Q s.
Proof.
  revert Q s. induction l as [|a l IH]; intros Q s Hw; [done|]. cbn [for_each mbind list_bind] in *. apply wp_bind. revert s Hw.
  induction (h a) as [|b bs IHb]; intros s Hw; [apply wp_ret; by apply IH|]. cbn [fmap list_fmap app for_each] in *.
  apply wp_bind_inv in Hw. apply wp_bind. eapply wp_mono; [exact Hw|]. intros [] s' Hw'. by apply IHb.
Qed.

(** Distinct indices are few. *)
Lemma indices_bound (l : list Z) n : 0 <= n -> NoDup l -> (forall i, i ∈ l -> 0 <= i < n) -> zlen l <= n.
Proof.
  intros Hn Hnd Hin. assert (l ⊆+ seqZ 0 n) as Hs by (apply NoDup_submseteq; [done|]; intros i Hi; apply elem_of_seqZ; specialize (Hin i Hi); lia).
  apply submseteq_length in Hs. rewrite length_seqZ in Hs. unfold zlen. lia.
Qed.

Section Jobs.
Context `{Env} {P T : Type} `{CachePolicySpec P} `{SecondaryTierLaws T}.
Local Abbreviation Tiers := (TieringOffloadingManager P T).
Implicit Types (s : Tiers) (c : Client) (V : list TierView).

(** What creating jobs leaves alone: the requests, the queue, and the slots. *)
Record cascaded c s s' : Prop := {
  ca_queue : pending_load_submissions s' = pending_load_submissions s;
  ca_reqs : req_state s' = req_state s;
  ca_gate : processed_jobs_this_step s' = processed_jobs_this_step s;
  ca_writes : all_writes c s' = all_writes c s;
  ca_slots : forall k, slot (primary_tier s') k = slot (primary_tier s) k;
  ca_tiers : length (secondary_tiers s') = length (secondary_tiers s)
}.
Lemma cascaded_refl c s : cascaded c s s.
Proof. by split. Qed.
Lemma cascaded_trans c s1 s2 s3 : cascaded c s1 s2 -> cascaded c s2 s3 -> cascaded c s1 s3.
Proof. intros [A1 A2 A3 A4 A5 A6] [B1 B2 B3 B4 B5 B6]. split; try congruence. Qed.

(** Ready keys stay so. *)
Lemma cascaded_ready c V V' s s' keys :
  books c V s -> books c V' s' -> cascaded c s s' -> all_ready (primary_tier s) keys -> all_ready (primary_tier s') keys.
Proof.
  intros [Hp _] [Hp' _] Hc Hr k Hk. apply (ready_slot _ _ _ k Hp'). rewrite (ca_slots _ _ _ Hc), (ca_writes _ _ _ Hc).
  apply (ready_slot _ _ _ k Hp). by apply Hr.
Qed.

(** A registered job is handed to its tier. *)
Lemma submit_spec c V s i v j (f : M T unit) :
  linked None V s -> V !! i = Some v -> books c (<[i := view_add j v]> V) s ->
  (forall t, st_ok t v -> wp f (fun _ t' => st_ok t' (view_add j v)) t) ->
  wp (on_tier (Z.of_nat i) f) (fun _ s' => core c (<[i := view_add j v]> V) None s' /\ tiers_only s s') s.
Proof.
  intros Hl Hv Hb Hf. pose proof (lookup_lt_Some _ _ _ Hv) as Hlt.
  destruct (lookup_lt_is_Some_2 (secondary_tiers s) i) as [t Ht]; [by rewrite (rg_tiers _ _ (bk_registry _ _ _ Hb)), length_insert|].
  destruct (Hl i t Ht) as (v0 & Hv0 & Hok); [done|]. assert (v0 = v) as -> by congruence.
  eapply wp_on_tier; [by rewrite Nat2Z.id|]. eapply wp_mono; [by apply Hf|]. intros [] t' Hok'. rewrite Nat2Z.id.
  assert (tiers_only s (set_tiers (<[i := t']> (secondary_tiers s)) s)) as Ht' by (eexists; split; [done|by rewrite length_insert]).
  split; [|done]. split; [by eapply books_tiers|]. by eapply linked_insert.
Qed.

(** ** Cascades *)

Lemma cascade_spec c V s keys ctx i :
  core c V None s -> (i < length V)%nat -> all_ready (primary_tier s) keys -> zlen (keys ++ all_reads c s) < 2 ^ 31 ->
  wp (cascade keys ctx (Z.of_nat i)) (fun _ s' => exists V', core c V' None s' /\ Forall2 same_names V V' /\ cascaded c s s' /\
    all_reads c s' ≡ₚ keys ++ all_reads c s) s.
Proof.
  intros [Hb Hl] Hi Hr Hz. destruct (lookup_lt_is_Some_2 V i Hi) as [v Hv]. unfold cascade. apply wp_bind.
  eapply wp_mono; [by apply (create_store_job_spec c V s keys ctx i v)|].
  intros j s1 (J1 & J2 & J3 & _ & J4 & B1 & [S1 S2 S3 S4] & R1 & W1 & K1).
  eapply wp_mono; [apply (submit_spec c V s1 i v j); [|done|done|]|].
  - intros k t. rewrite S1. apply Hl.
  - intros t Hok. by apply stl_submit_store.
  - intros [] s2 [C2 (ts & -> & L2)]. exists (<[i := view_add j v]> V). split_and!; try done.
    + by apply (same_names_insert V i v).
    + split; try done. cbn. by rewrite L2, S1.
Qed.

(** Cascades to several tiers: as many readers more. *)
Lemma cascade_tiers_spec c V s keys ctx idxs :
  core c V None s -> (forall i, i ∈ idxs -> 0 <= i < zlen V) -> all_ready (primary_tier s) keys ->
  zlen (all_reads c s) + zlen idxs * zlen keys < 2 ^ 31 ->
  wp (for_each idxs (cascade keys ctx)) (fun _ s' => exists V', core c V' None s' /\ Forall2 same_names V V' /\ cascaded c s s' /\
    zlen (all_reads c s') = zlen (all_reads c s) + zlen idxs * zlen keys) s.
Proof.
  intros Hc Hin Hr Hz.
  apply (wp_for_each (fun pre s' => exists V', core c V' None s' /\ Forall2 same_names V V' /\ cascaded c s s' /\
    zlen (all_reads c s') = zlen (all_reads c s) + zlen pre * zlen keys)).
  { exists V. split_and!; [done|apply same_names_refl|apply cascaded_refl|]. rewrite zlen_nil. lia. }
  intros pre i post s1 -> (V1 & C1 & N1 & K1 & Z1). destruct (Hin i) as [Hi0 Hi1]; [apply elem_of_app; right; by left|].
  rewrite <- (Z2Nat.id i Hi0). pose proof (Forall2_length _ _ _ N1) as Hlen.
  eapply wp_mono; [apply (cascade_spec c V1 s1); [done|unfold zlen in Hi1; lia| |]|].
  - eapply cascaded_ready; [apply Hc|apply C1|done|done].
  - rewrite zlen_app, Z1. rewrite zlen_app, zlen_cons in Hz. pose proof (zlen_nonneg post). pose proof (zlen_nonneg keys). nia.
  - intros [] s2 (V2 & C2 & N2 & K2 & R2). exists V2. split_and!; [done|by eapply same_names_trans|by eapply cascaded_trans|].
    rewrite (zlen_perm _ _ R2), !zlen_app, Z1, zlen_cons, zlen_nil. lia.
Qed.

(** ** Queued promotions *)

Lemma submit_promotion_spec c V s i e :
  linked None V s -> registry V s -> 0 <= i < zlen V -> placed s (pp_keys e) (pp_chunk_ids e) ->
  wp (submit_promotion i e) (fun _ s' => exists V', linked None V' s' /\ registry V' s' /\ Forall2 same_names V V' /\
    primary_tier s' = primary_tier s /\ pending_load_submissions s' = pending_load_submissions s /\ req_state s' = req_state s /\
    processed_jobs_this_step s' = processed_jobs_this_step s /\ length (secondary_tiers s') = length (secondary_tiers s) /\
    (exists id, jobs s' = jobs s ++ [(id, mkJobMetadata (mkTransferJob id (pp_keys e) (pp_chunk_ids e) true (pp_req_context e)) i)])) s.
Proof.
  intros Hl Hr Hi Hpl. rewrite <- (Z2Nat.id i) by lia. set (n := Z.to_nat i).
  destruct (lookup_lt_is_Some_2 V n) as [v Hv]; [unfold zlen in Hi; lia|]. pose proof (lookup_lt_Some _ _ _ Hv) as Hlt.
  unfold submit_promotion. apply wp_bind, wp_bind, wp_get, wp_bind, wp_modify, wp_ret. set (j := mkTransferJob _ _ _ true _).
  apply wp_bind. eapply wp_mono; [by apply (register_job_spec V s j n v)|]. intros [] s1 [[counts ->] Hr1].
  destruct (lookup_lt_is_Some_2 (secondary_tiers s) n) as [t Ht]; [by rewrite (rg_tiers _ _ Hr)|].
  destruct (Hl n t Ht) as (v0 & Hv0 & Hok); [done|]. assert (v0 = v) as -> by congruence.
  eapply wp_on_tier; [by rewrite Nat2Z.id|]. eapply wp_mono; [apply (stl_submit_load j t v Hok)|].
  - unfold job_shape. cbn. symmetry. by eapply Forall2_length.
  - by apply (fresh_view V s n v).
  - intros [] t' Hok'. rewrite Nat2Z.id. exists (<[n := view_add j v]> V). split_and!; try done.
    + by eapply (linked_insert V None s).
    + destruct Hr1 as [R1 R2 R3 R4 R5 R6]. split; try done. cbn. by rewrite length_insert.
    + by apply (same_names_insert V n v).
    + cbn. by rewrite length_insert.
    + exists (job_id_counter s). cbn. by rewrite od_set_absent by by apply (fresh_job V s).
Qed.

(** The jobs that submitting the queue adds. *)
Definition promotion_of (e : Z * PendingPromotion) (job : Z * JobMetadata) : Prop :=
  job.2 = mkJobMetadata (mkTransferJob job.1 (pp_keys e.2) (pp_chunk_ids e.2) true (pp_req_context e.2)) e.1.

Lemma promotions_reads es js : Forall2 promotion_of es js -> reads js = [] /\ writes js = es ≫= fun e => pp_keys e.2.
Proof.
  induction 1 as [|e [id m] es js Hm _ [IH1 IH2]]; [done|]. unfold promotion_of in Hm. cbn in Hm. subst m.
  unfold reads, writes in *. cbn. by rewrite IH1, IH2.
Qed.

(** Every queued promotion is a job of its tier when the queue is flushed. *)
Lemma flush_promotions_spec c V s :
  core c V None s ->
  wp flush_pending_promotions (fun _ s' => exists V', core c V' None s' /\ Forall2 same_names V V' /\
    pending_load_submissions s' = [] /\ req_state s' = req_state s /\ processed_jobs_this_step s' = processed_jobs_this_step s /\
    all_reads c s' = all_reads c s /\ primary_tier s' = primary_tier s /\ length (secondary_tiers s') = length (secondary_tiers s) /\
    exists js, jobs s' = jobs s ++ js /\ Forall2 promotion_of (queued_promotions (pending_load_submissions s)) js) s.
Proof.
  intros [[Hp Hr Hcl] Hl]. unfold flush_pending_promotions. apply wp_bind, wp_get.
  destruct (pending_load_submissions s) as [|e0 q0] eqn:Eq.
  { apply wp_ret. exists V. split_and!; try done; [apply same_names_refl|]. exists []. by rewrite app_nil_r. }
  rewrite <- Eq. clear e0 q0 Eq. apply wp_bind.
  eapply wp_mono; [apply (wp_for_each_nested _ snd (fun e f => submit_promotion e.1 f.2))|].
  - apply (wp_for_each (fun pre s' => exists V', linked None V' s' /\ registry V' s' /\ Forall2 same_names V V' /\
      primary_tier s' = primary_tier s /\ pending_load_submissions s' = pending_load_submissions s /\ req_state s' = req_state s /\
      processed_jobs_this_step s' = processed_jobs_this_step s /\ length (secondary_tiers s') = length (secondary_tiers s) /\
      exists js, jobs s' = jobs s ++ js /\ Forall2 promotion_of ((fun p => (p.1.1, p.2.2)) <$> pre) js)).
    { exists V. split_and!; try done; [apply same_names_refl|]. exists []. rewrite app_nil_r. split; [done|constructor]. }
    intros pre [e f] post s1 Hs (V1 & L1 & R1 & N1 & P1 & Q1 & RS1 & G1 & T1 & js & J1 & F1). cbn [fst snd].
    assert ((e.1, f.2) ∈ queued_promotions (pending_load_submissions s1)) as Hin.
    { rewrite Q1. assert ((e, f) ∈ pending_load_submissions s ≫= (fun a => (fun b => (a, b)) <$> a.2)) as Hef by (rewrite Hs; apply elem_of_app; right; by left).
      apply list_elem_of_bind in Hef as (a & Hef & Ha). apply list_elem_of_fmap in Hef as (b & [= -> ->] & Hb).
      apply list_elem_of_bind. exists a. split; [|done]. apply list_elem_of_fmap. by exists b. }
    destruct (rg_queue _ _ R1 _ _ Hin) as [Hi Hpl].
    eapply wp_mono; [by apply (submit_promotion_spec c V1 s1)|]. intros [] s2 (V2 & L2 & R2 & N2 & P2 & Q2 & RS2 & G2 & T2 & id & J2).
    exists V2. split_and!; try congruence; [done|by eapply same_names_trans|]. eexists. split; [rewrite J2, J1; by rewrite <- app_assoc|].
    rewrite fmap_app. apply Forall2_app; [done|]. constructor; [done|constructor].
  - intros [] s1 (V1 & L1 & R1 & N1 & P1 & Q1 & RS1 & G1 & T1 & js & J1 & F1).
    assert ((fun p : (Z * list (string * PendingPromotion)) * (string * PendingPromotion) => (p.1.1, p.2.2)) <$>
      (pending_load_submissions s ≫= (fun a => (fun b => (a, b)) <$> a.2)) = queued_promotions (pending_load_submissions s)) as Hq.
    { unfold queued_promotions. generalize (pending_load_submissions s). intros q. induction q as [|a q IH]; [done|].
      cbn. rewrite fmap_app, IH. f_equal. rewrite <- list_fmap_compose. done. }
    rewrite Hq in F1. destruct (promotions_reads _ _ F1) as [Rj Wj]. apply wp_modify. exists V1.
    assert (reads (jobs s1) = reads (jobs s)) as Hrd by (rewrite J1; unfold reads in *; by rewrite bind_app, Rj, app_nil_r).
    assert (writes (jobs s1) = writes (jobs s) ++ queued_keys (pending_load_submissions s)) as Hwr by (rewrite J1; unfold writes, queued_keys in *; by rewrite bind_app, Wj).
    split_and!; try done; [|unfold all_reads; cbn [jobs set_pending_loads]; by rewrite Hrd|by exists js].
    split; [|done]. split; [| |intros k id Hin; cbn; rewrite P1; by apply Hcl].
    + cbn [primary_tier set_pending_loads]. rewrite P1. unfold all_reads, all_writes. cbn [jobs set_pending_loads pending_load_submissions].
      rewrite Hrd, Hwr. change (queued_keys []) with (@nil OffloadKey). rewrite app_nil_r. exact Hp.
    + destruct R1 as [A1 A2 A3 A4 A5 A6]. split; try done. intros i e Hin. by apply elem_of_nil in Hin.
Qed.

End Jobs.
