(* ===== verification/TieringRequests.v ===== *)
(** * The requests of the tiering manager, specified

    What the manager keeps per request ([_req_state]): the stores it has under way,
    the keys parked until their write completes, and when the tiers are told that
    a request has finished. *)
From Stdlib Require Import ZArith QArith Lia.
From stdpp Require Import base tactics gmap strings numbers option list.
From S2P Require Import Prelude Blocks Env OrderedDict Offload OffloadPolicies OffloadSpec Tiering TieringPrimary TieringInv TieringOps.

Local Open Scope Z_scope.

(** The stores a request has under way. *)
Definition stores_of (c : Client) (rid : string) : list (string * list (OffloadKey * Z)) := filter (fun e => e.1 = rid) (cl_stores c).

Lemma stores_of_elem c rid : (exists ks, (rid, ks) ∈ cl_stores c) <-> stores_of c rid <> [].
Proof.
  unfold stores_of. split.
  - intros [ks Hin] Heq. assert ((rid, ks) ∈ filter (fun e => e.1 = rid) (cl_stores c)) as Hin' by by apply list_elem_of_filter.
    rewrite Heq in Hin'. by apply elem_of_nil in Hin'.
  - intros Hne. destruct (filter _ (cl_stores c)) as [|[r ks] l] eqn:Hf; [done|].
    assert ((r, ks) ∈ filter (fun e => e.1 = rid) (cl_stores c)) as [Hr Hin]%list_elem_of_filter by (rewrite Hf; by left).
    cbn in Hr. subst. by exists ks.
Qed.

Lemma zlen_ne {A} (l : list A) : l <> [] <-> zlen l <> 0.
Proof. unfold zlen. destruct l; cbn; split; try done; lia. Qed.

(** An id that no tier uses for its remote requests. *)
Definition local_id (V : list TierView) (rid : string) : Prop := forall i v, V !! i = Some v -> tv_own v rid = false.

Lemma local_id_names V V' rid : Forall2 same_names V V' -> local_id V rid -> local_id V' rid.
Proof.
  intros HV Hl i v' Hv'. destruct (Forall2_lookup_r _ _ _ _ _ HV Hv') as (v & Hv & _ & Hown). rewrite Hown. by apply (Hl i).
Qed.

Section Requests.
Context `{Env} {P T : Type} `{CachePolicySpec P} `{SecondaryTierLaws T}.
Local Abbreviation Tiers := (TieringOffloadingManager P T).
Implicit Types (s : Tiers) (c : Client) (V : list TierView).

Lemma core_requests c V x s q : core c V x s -> core c V x (set_req_state q s).
Proof. intros [[Hp [R1 R2 R3 R4 R5 R6] Hcl] Hl]. split; [split; [done|by split|done]|done]. Qed.

(** ** The table of requests *)

(** The entry of one request changes, and with it its stores. *)
Lemma requests_set c c' V s s' rid r' :
  requests_ok c V s -> req_state s' = od_set rid r' (req_state s) -> request_ok c' V rid r' ->
  (forall rid', rid' <> rid -> zlen (stores_of c' rid') = zlen (stores_of c rid')) ->
  (stores_of c' rid <> [] -> local_id V rid) -> requests_ok c' V s'.
Proof.
  intros [Q1 Q2 Q3 Q4 Q5] Hs Hr Hst Hloc. split; rewrite ?Hs; try done.
  - by apply od_set_NoDup.
  - intros rid' r. rewrite od_get_set. destruct (decide (rid' = rid)) as [->|Hne]; [by intros [= <-]|]. intros Hg.
    destruct (Q2 rid' r Hg) as [A1 A2 A3 A4 A5]. split; try done. fold (stores_of c' rid'). by rewrite Hst.
  - intros rid' ks Hin. destruct (decide (rid' = rid)) as [->|Hne].
    + split; [rewrite od_get_set, decide_True by done; by eexists|]. apply Hloc, stores_of_elem. by exists ks.
    + assert (exists ks, (rid', ks) ∈ cl_stores c) as [ks' Hin'] 
      by (apply stores_of_elem, zlen_ne; rewrite <- (Hst rid') by done; apply zlen_ne, stores_of_elem; by exists ks).
      destruct (Q3 rid' ks' Hin') as [A1 A2]. split; [|done]. by rewrite od_get_set, decide_False.
  - intros i v rid' Hv Hin. destruct (Q4 i v rid' Hv Hin) as [A1 A2]. split; [done|]. rewrite od_get_set. destruct (decide (rid' = rid)); [by eexists|done].
Qed.

(** A request without stores leaves. *)
Lemma requests_pop c V s s' rid :
  requests_ok c V s -> req_state s' = od_pop rid (req_state s) -> stores_of c rid = [] ->
  (forall i v, V !! i = Some v -> rid ∉ tv_open v) -> requests_ok c V s'.
Proof.
  intros [Q1 Q2 Q3 Q4 Q5] Hs Hst Hop. split; rewrite ?Hs; try done.
  - by apply od_pop_NoDup.
  - intros rid' r. rewrite od_get_pop by done. destruct (decide (rid' = rid)); [done|]. apply Q2.
  - intros rid' ks Hin. destruct (Q3 rid' ks Hin) as [A1 A2]. split; [|done]. rewrite od_get_pop by done.
    destruct (decide (rid' = rid)) as [->|]; [|done]. exfalso. assert (stores_of c rid <> []) by (apply stores_of_elem; by exists ks). done.
  - intros i v rid' Hv Hin. destruct (Q4 i v rid' Hv Hin) as [A1 A2]. split; [done|]. rewrite od_get_pop by done.
    destruct (decide (rid' = rid)) as [->|]; [|done]. by destruct (Hop i v Hv).
Qed.

(** The views of one tier's remote requests change. *)
Lemma core_open c V i v o s : core c V (Some i) s -> V !! i = Some v -> core c (<[i := view_set_open o v]> V) (Some i) s.
Proof.
  intros [[Hp [R1 R2 R3 R4 R5 R6] Hcl] Hl] Hv. pose proof (lookup_lt_Some _ _ _ Hv) as Hlt.
  assert (zlen (<[i := view_set_open o v]> V) = zlen V) as Hz by (unfold zlen; by rewrite length_insert).
  split; [split; [done| |done]|].
  - split; rewrite ?Hz, ?length_insert; try done. intros k w Hw id j. destruct (decide (k = i)) as [->|Hne].
    + rewrite list_lookup_insert_eq in Hw by done. injection Hw as <-. by apply (R3 i v).
    + rewrite list_lookup_insert_ne in Hw by done. by apply (R3 k w).
  - intros k t Ht Hk. rewrite list_lookup_insert_ne by congruence. by apply Hl.
Qed.

(** A request as it begins. *)
Record fresh_request V (rid : string) (r : RequestState) : Prop := {
  fr_id : rc_req_id (rs_req_context r) = rid;
  fr_stores : pending_primary_stores r = 0;
  fr_parked : pending_cascade_keys r = [];
  fr_live : rs_is_finished r = false;
  fr_tiers : forall ts i, request_level_tiers r = Some ts -> i ∈ ts -> 0 <= i < zlen V
}.

Lemma no_stores c V s rid : requests_ok c V s -> od_get rid (req_state s) = None -> stores_of c rid = [].
Proof.
  intros Hq Hg. destruct (stores_of c rid) eqn:Hs; [done|]. assert (stores_of c rid <> []) as [ks Hin]%stores_of_elem by by rewrite Hs.
  destruct (rq_stores _ _ _ Hq rid ks Hin) as [[r Hr] _]. congruence.
Qed.

Lemma fresh_ok c V s rid r : requests_ok c V s -> od_get rid (req_state s) = None -> fresh_request V rid r ->
  (forall i v, V !! i = Some v -> tv_own v rid = true -> rid ∈ tv_open v) -> request_ok c V rid r.
Proof.
  intros Hq Hg [F1 F2 F3 F4 F5] Hop. split; try done.
  - rewrite F2. fold (stores_of c rid). by rewrite (no_stores c V s).
  - intros i v Hv Hown. split_and!; try done. by apply (Hop i v).
Qed.

(** The requests do not depend on what is open for other ids. *)
Lemma request_ok_open c V i v o rid rid' r :
  V !! i = Some v -> (forall x, x <> rid -> x ∈ o <-> x ∈ tv_open v) -> rid' <> rid ->
  request_ok c V rid' r -> request_ok c (<[i := view_set_open o v]> V) rid' r.
Proof.
  intros Hv Ho Hne [A1 A2 A3 A4 A5]. pose proof (lookup_lt_Some _ _ _ Hv) as Hlt. split; try done; unfold zlen; rewrite ?length_insert; try done.
  intros k w Hw. destruct (decide (k = i)) as [->|Hk].
  - rewrite list_lookup_insert_eq in Hw by done. injection Hw as <-. cbn. intros Hown. destruct (A5 i v Hv Hown) as (B1 & B2 & B3).
    split_and!; try done. by apply Ho.
  - rewrite list_lookup_insert_ne in Hw by done. by apply (A5 k).
Qed.

Lemma requests_opened c V s s' i v rid r :
  requests_ok c V s -> V !! i = Some v -> tv_own v rid = true -> od_get rid (req_state s) = None ->
  req_state s' = od_set rid r (req_state s) -> fresh_request V rid r ->
  requests_ok c (<[i := view_set_open ({[rid]} ∪ tv_open v) v]> V) s'.
Proof.
  intros Hq Hv Hown Hg Hs Hf. pose proof Hq as [Q1 Q2 Q3 Q4 Q5]. pose proof (lookup_lt_Some _ _ _ Hv) as Hlt.
  set (V' := <[i := _]> V). assert (forall k w, V' !! k = Some w -> exists u, V !! k = Some u /\ tv_own w = tv_own u /\
    ((k = i /\ u = v /\ tv_open w = {[rid]} ∪ tv_open v) \/ (k <> i /\ w = u))) as Hb.
  { intros k w Hw. unfold V' in Hw. destruct (decide (k = i)) as [->|Hk].
    - rewrite list_lookup_insert_eq in Hw by done. injection Hw as <-. exists v. split_and!; try done. by left.
    - rewrite list_lookup_insert_ne in Hw by done. exists w. split_and!; try done. by right. }
  split; rewrite ?Hs.
  - by apply od_set_NoDup.
  - intros rid' r'. rewrite od_get_set. destruct (decide (rid' = rid)) as [->|Hne].
    + intros [= <-]. destruct Hf as [F1 F2 F3 F4 F5]. split; try done.
      * rewrite F2. fold (stores_of c rid). by rewrite (no_stores c V s).
      * unfold V', zlen. by rewrite length_insert.
      * intros k w Hw Hown'. destruct (Hb k w Hw) as (u & Hu & Ho & [(-> & -> & ->)|(Hk & ->)]); [split_and!; try done; set_solver|].
        exfalso. apply Hk. by eapply Q5.
    + intros Hg'. eapply request_ok_open; [done| |exact Hne|by apply Q2]. set_solver.
  - intros rid' ks Hin. destruct (Q3 rid' ks Hin) as [A1 A2]. split.
    + rewrite od_get_set. by destruct (decide (rid' = rid)).
    + intros k w Hw. destruct (Hb k w Hw) as (u & Hu & Ho & _). rewrite Ho. by apply (A2 k).
  - intros k w rid' Hw Hin. rewrite od_get_set. destruct (Hb k w Hw) as (u & Hu & Ho & [(-> & -> & Hop)|(Hk & ->)]).
    + rewrite Ho. rewrite Hop, elem_of_union, elem_of_singleton in Hin. destruct (decide (rid' = rid)) as [->|Hne]; [done|].
      apply (Q4 i v); [done|]. tauto.
    + destruct (Q4 k u rid' Hu Hin) as [A1 A2]. split; [done|]. by destruct (decide (rid' = rid)).
  - intros k k' w w' rid' Hw Hw'. destruct (Hb k w Hw) as (u & Hu & Ho & _), (Hb k' w' Hw') as (u' & Hu' & Ho' & _). rewrite Ho, Ho'. by apply Q5.
Qed.

Lemma requests_closed c V s s' i v rid :
  requests_ok c V s -> V !! i = Some v -> rid ∈ tv_open v -> req_state s' = od_pop rid (req_state s) ->
  requests_ok c (<[i := view_set_open (tv_open v ∖ {[rid]}) v]> V) s'.
Proof.
  intros [Q1 Q2 Q3 Q4 Q5] Hv Hop Hs. pose proof (lookup_lt_Some _ _ _ Hv) as Hlt. destruct (Q4 i v rid Hv Hop) as [Hown _].
  set (V' := <[i := _]> V). assert (forall k w, V' !! k = Some w -> exists u, V !! k = Some u /\ tv_own w = tv_own u /\
    ((k = i /\ u = v /\ tv_open w = tv_open v ∖ {[rid]}) \/ (k <> i /\ w = u))) as Hb.
  { intros k w Hw. unfold V' in Hw. destruct (decide (k = i)) as [->|Hk].
    - rewrite list_lookup_insert_eq in Hw by done. injection Hw as <-. exists v. split_and!; try done. by left.
    - rewrite list_lookup_insert_ne in Hw by done. exists w. split_and!; try done. by right. }
  split; rewrite ?Hs.
  - by apply od_pop_NoDup.
  - intros rid' r'. rewrite od_get_pop by done. destruct (decide (rid' = rid)) as [->|Hne]; [done|].
    intros Hg'. eapply request_ok_open; [done| |exact Hne|by apply Q2]. set_solver.
  - intros rid' ks Hin. destruct (Q3 rid' ks Hin) as [A1 A2]. rewrite od_get_pop by done. split.
    + destruct (decide (rid' = rid)) as [->|]; [|done]. rewrite (A2 i v Hv) in Hown. done.
    + intros k w Hw. destruct (Hb k w Hw) as (u & Hu & Ho & _). rewrite Ho. by apply (A2 k).
  - intros k w rid' Hw Hin. rewrite od_get_pop by done. destruct (Hb k w Hw) as (u & Hu & Ho & [(-> & -> & Ho')|(Hk & ->)]).
    + rewrite Ho. rewrite Ho' in Hin. destruct (decide (rid' = rid)) as [->|]; [set_solver|]. apply (Q4 i v); [done|]. set_solver.
    + destruct (Q4 k u rid' Hu Hin) as [A1 A2]. split; [done|]. destruct (decide (rid' = rid)) as [->|]; [|done].
      exfalso. apply Hk. by eapply Q5.
  - intros k k' w w' rid' Hw Hw'. destruct (Hb k w Hw) as (u & Hu & Ho & _), (Hb k' w' Hw') as (u' & Hu' & Ho' & _). rewrite Ho, Ho'. by apply Q5.
Qed.

(** ** Beginning and end *)

Lemma new_request_core c V x s ctx exclude :
  core c V x s -> (forall i, x = Some i -> exclude = Some (Z.of_nat i)) ->
  wp (tiering_on_new_request ctx exclude) (fun _ s' => core c V x s' /\ exists ts r, length ts = length (secondary_tiers s) /\
    s' = set_req_state (od_set (rc_req_id ctx) r (req_state s)) (set_tiers ts s) /\ fresh_request V (rc_req_id ctx) r) s.
Proof.
  intros Hc Hx. unfold tiering_on_new_request. apply wp_bind, wp_get, wp_bind.
  eapply wp_mono; [apply (wp_fold_m (fun _ tiers s' => core c V x s' /\ tiers_only s s' /\
    forall ts i, tiers = Some ts -> i ∈ ts -> 0 <= i < zlen V))|].
  - split_and!; [done|apply tiers_only_refl|done].
  - intros pre i post tiers s1 Hs (C1 & T1 & B1). assert (0 <= i < zlen V) as Hi.
    { apply (tier_indices_ok c V x s); [done|]. rewrite Hs. apply elem_of_app. right. by left. }
    destruct (bool_decide_reflect (exclude = Some i)) as [|Hne]; [by apply wp_ret|].
    rewrite <- (Z2Nat.id i) by lia. rewrite <- (Z2Nat.id i) in Hne by lia. apply wp_bind.
    eapply wp_mono; [apply (same_view_spec c V x s1 (Z.to_nat i) _ C1); [unfold zlen in Hi; lia| |intros; by apply stl_new]|].
    + intros Heq. apply Hne. by apply Hx.
    + intros [|] s2 [C2 T2]; apply wp_ret; (split_and!; [done|by eapply tiers_only_trans|]); [done|].
      intros ts k [= <-]. rewrite elem_of_union, elem_of_singleton. intros [->|Hk]; [rewrite Z2Nat.id; lia|].
      destruct tiers as [ts'|]; [|by apply not_elem_of_empty in Hk]. by apply (B1 ts').
  - intros tiers s1 (C1 & (ts & -> & Hl) & B1). apply wp_bind, wp_modify, wp_ret. split; [by apply core_requests|].
    exists ts. eexists. split_and!; [done|done|]. split; try done.
Qed.

(** When the tiers are told that a request has finished. *)
Definition finalizable (r : RequestState) : bool :=
  rs_is_finished r && (pending_primary_stores r =? 0) && bool_decide (pending_cascade_keys r = []).

Lemma finalize_spec c V x s rid r exclude :
  core c V x s -> (forall i, x = Some i -> exclude = Some (Z.of_nat i)) -> od_get rid (req_state s) = Some r ->
  wp (maybe_finalize_request rid exclude) (fun _ s' => core c V x s' /\
    if finalizable r then exists ts, length ts = length (secondary_tiers s) /\ s' = set_req_state (od_pop rid (req_state s)) (set_tiers ts s) else s' = s) s.
Proof.
  intros Hc Hx Hg. unfold maybe_finalize_request, request_state, finalizable. apply wp_bind, wp_bind, wp_get. eapply wp_of_option; [exact Hg|].
  destruct (rs_is_finished r); cbn [negb andb]; [|by apply wp_ret]. destruct (pending_primary_stores r =? 0); cbn [negb andb]; [|by apply wp_ret].
  destruct (bool_decide _); cbn [negb]; [|by apply wp_ret]. apply wp_bind.
  eapply wp_mono; [apply (each_same_view c V x s); [done|]|].
  - intros i s1 Hi C1. destruct (bool_decide_reflect (exclude = Some (Z.of_nat i))) as [|Hne]; [apply wp_ret; split; [done|apply tiers_only_refl]|].
    apply same_view_spec; [done|done| |intros; by apply stl_request_finished]. intros Heq. apply Hne. by apply Hx.
  - intros [] s1 [C1 (ts & -> & Hl)]. apply wp_modify. split; [by apply core_requests|]. by exists ts.
Qed.

(** A request of the engine begins. *)
Lemma new_request_spec c V s ctx :
  tier_inv c V None s -> od_get (rc_req_id ctx) (req_state s) = None -> local_id V (rc_req_id ctx) ->
  wp (tiering_on_new_request ctx None) (fun _ s' => tier_inv c V None s' /\ is_Some (od_get (rc_req_id ctx) (req_state s'))) s.
Proof.
  intros [Hc Hq] Hg Hloc. eapply wp_mono; [by apply (new_request_core c V None)|].
  intros p s' (C1 & ts & r & Hl & -> & Hf). split; [split; [done|]|].
  - eapply (requests_set c c V s); [done|done| |done|done]. eapply fresh_ok; [done|done|done|]. intros i v Hv. by rewrite (Hloc i v Hv).
  - cbn. rewrite od_get_set, decide_True by done. by eexists.
Qed.

(** An engine's request finishes; the tiers hear of it when nothing is pending. *)
Lemma finished_request_ok c V s s1 s' rid r r' :
  requests_ok c V s -> local_id V rid -> req_state s1 = od_set rid r' (req_state s) -> od_get rid (req_state s1) = Some r' ->
  request_ok c V rid r' ->
  (if finalizable r' then exists ts, length ts = length (secondary_tiers s1) /\ s' = set_req_state (od_pop rid (req_state s1)) (set_tiers ts s1) else s' = s1) ->
  od_get rid (req_state s) = Some r -> requests_ok c V s'.
Proof.
  intros Hq Hloc Hs1 Hg1 Hr' Hfin Hg. assert (requests_ok c V s1) as Hq1.
  { eapply requests_set; [exact Hq|exact Hs1|done|done|done]. }
  destruct (finalizable r') eqn:Hf; [|by subst]. destruct Hfin as (ts & _ & ->). unfold finalizable in Hf. rewrite !andb_true_iff in Hf.
  destruct Hf as [[_ Hz%Z.eqb_eq] _]. eapply requests_pop; [exact Hq1|done| |].
  - rewrite (ro_stores _ _ _ _ Hr') in Hz. fold (stores_of c rid) in Hz. destruct (stores_of c rid); [done|]. rewrite zlen_cons in Hz.
    pose proof (zlen_nonneg l). lia.
  - intros i v Hv Hin. destruct (rq_open _ _ _ Hq i v rid Hv Hin) as [Hown _]. by rewrite (Hloc i v Hv) in Hown.
Qed.

Lemma request_finished_spec c V s ctx r :
  tier_inv c V None s -> od_get (rc_req_id ctx) (req_state s) = Some r -> local_id V (rc_req_id ctx) ->
  wp (tiering_on_request_finished ctx None) (fun _ s' => tier_inv c V None s' /\
    (finalizable (rs_set_finished r) = true -> od_get (rc_req_id ctx) (req_state s') = None)) s.
Proof.
  intros [Hc Hq] Hg Hloc. unfold tiering_on_request_finished, modify_request_state, request_state.
  apply wp_bind, wp_bind, wp_bind, wp_get. eapply wp_of_option; [exact Hg|]. apply wp_modify. set (s1 := set_req_state _ s).
  assert (od_get (rc_req_id ctx) (req_state s1) = Some (rs_set_finished r)) as Hg1 by (cbn; by rewrite od_get_set, decide_True).
  eapply wp_mono; [eapply (finalize_spec c V None s1); [by apply core_requests|done|exact Hg1]|].
  intros [] s2 [C2 Hf]. split; [split; [done|]|].
  - eapply (finished_request_ok c V s s1); [done|done|done|done| |exact Hf|exact Hg].
    destruct (rq_state _ _ _ Hq _ _ Hg) as [A1 A2 A3 A4 A5]. split; try done. intros i v Hv. by rewrite (Hloc i v Hv).
  - intros Hfin. rewrite Hfin in Hf. destruct Hf as (ts & _ & ->). cbn -[od_pop od_set]. rewrite od_get_pop; [by rewrite decide_True|].
    apply od_set_NoDup, (rq_nodup _ _ _ Hq).
Qed.

End Requests.

(** * Request-level cascades of the tiering manager, specified

    Chunks already in the primary tier are cascaded to the tiers that ask for
    whole requests; a chunk whose write is not complete is parked and cascaded at
    the end of a later step. *)

Lemma some_tiers_eq x ts : some_tiers x = Some ts -> x = Some ts.
Proof. unfold some_tiers. destruct x; [|done]. by destruct (bool_decide _). Qed.

Section Parked.
Context `{Env} {P T : Type} `{CachePolicySpec P} `{SecondaryTierLaws T}.
Local Abbreviation Tiers := (TieringOffloadingManager P T).
Implicit Types (s : Tiers) (c : Client) (V : list TierView).

(** The entry of a request with more parked keys. *)
Definition park (rid : string) (r : RequestState) (parked : list OffloadKey) s : Tiers :=
  set_req_state (od_set rid (rs_set_parked (pending_cascade_keys r ++ parked) r) (req_state s)) s.

Lemma park_nil rid r s : od_get rid (req_state s) = Some r -> park rid r [] s = s.
Proof.
  intros Hg. unfold park. rewrite app_nil_r. assert (rs_set_parked (pending_cascade_keys r) r = r) as -> by by destruct r.
  rewrite od_set_id by done. by destruct s.
Qed.

Lemma park_snoc rid r parked k s :
  wp (modify_request_state rid (fun r => rs_set_parked (pending_cascade_keys r ++ [k]) r)) (fun _ s' => s' = park rid r (parked ++ [k]) s)
    (park rid r parked s).
Proof.
  unfold modify_request_state, request_state. apply wp_bind, wp_bind, wp_get. eapply wp_of_option.
  { unfold park. cbn [req_state set_req_state]. rewrite od_get_set. by rewrite decide_True. }
  apply wp_modify. unfold park, set_req_state. cbn [req_state primary_tier secondary_tiers job_id_counter jobs tier_states pending_load_submissions processed_jobs_this_step].
  rewrite od_set_set. cbn [pending_cascade_keys rs_set_parked]. by rewrite app_assoc.
Qed.

(** The loop that sorts the keys into ready and parked. *)
Lemma sort_keys_spec c V s rid r keys :
  core c V None s -> od_get rid (req_state s) = Some r ->
  wp (fold_m (fun ready key =>
        s ← get;
        match lookup_chunk key (primary_tier s) with
        | HIT => mret (ready ++ [key])
        | HIT_PENDING => modify_request_state rid (fun r => rs_set_parked (pending_cascade_keys r ++ [key]) r) ;; mret ready
        | MISS => mret ready
        | RETRY => raise AssertionError
        end) [] keys)
    (fun ready s' => exists parked, s' = park rid r parked s /\ all_ready (primary_tier s) ready /\ zlen ready <= zlen keys /\
       (forall k, k ∈ parked -> k ∈ all_writes c s) /\ (forall k, k ∈ keys -> k ∈ ready \/ k ∈ parked \/ absent s k)) s.
Proof.
  intros Hc Hg. apply (wp_fold_m (fun pre ready s' => exists parked, s' = park rid r parked s /\ all_ready (primary_tier s) ready /\ zlen ready <= zlen pre /\
       (forall k, k ∈ parked -> k ∈ all_writes c s) /\ (forall k, k ∈ pre -> k ∈ ready \/ k ∈ parked \/ absent s k))).
  { exists []. rewrite park_nil by done. split_and!; try done; by intros k ?%elem_of_nil. }
  intros pre key post ready s1 -> (parked & -> & R1 & Z1 & W1 & K1). apply wp_bind, wp_get. cbn [primary_tier park set_req_state].
  pose proof (lookup_spec _ _ _ key (bk_primary _ _ _ (co_books _ _ _ _ Hc))) as Hlk. rewrite zlen_app, zlen_cons, zlen_nil.
  assert (forall Q : OffloadKey -> Prop, (forall k, k ∈ pre -> Q k) -> Q key -> forall k, k ∈ pre ++ [key] -> Q k) as Hext.
  { intros Q H1' H2' k [Hk| ->%list_elem_of_singleton]%elem_of_app; auto. }
  destruct (lookup_chunk key (primary_tier s)); try done.
  - apply wp_ret. exists parked. split_and!; try done; [lia|]. apply (Hext (fun k => k ∈ ready \/ k ∈ parked \/ absent s k)); [done|]. by right; right.
  - apply wp_ret. exists parked. split_and!; try done.
    + intros k [Hk| ->%list_elem_of_singleton]%elem_of_app; [by apply R1|]. destruct Hlk as (ch & Hch & Hr). exists ch. split; [done|].
      pose proof (kocc_nonneg key (all_reads c s)). lia.
    + rewrite zlen_app, zlen_cons, zlen_nil. lia.
    + apply (Hext (fun k => k ∈ ready ++ [key] \/ k ∈ parked \/ absent s k)); [|left; apply elem_of_app; right; by left].
      intros k Hk. rewrite elem_of_app. destruct (K1 k Hk) as [|[|]]; tauto.
  - apply wp_bind. eapply wp_mono; [apply park_snoc|]. intros [] s1 ->. apply wp_ret. exists (parked ++ [key]). split_and!; try done; [lia| |].
    + intros k [Hk| ->%list_elem_of_singleton]%elem_of_app; [by apply W1|done].
    + apply (Hext (fun k => k ∈ ready \/ k ∈ parked ++ [key] \/ absent s k)); [|right; left; apply elem_of_app; right; by left].
      intros k Hk. rewrite elem_of_app. destruct (K1 k Hk) as [|[|]]; tauto.
Qed.

Lemma cascade_existing_spec c V s keys ctx tiers r :
  core c V None s -> od_get (rc_req_id ctx) (req_state s) = Some r -> (forall i, i ∈ tiers -> 0 <= i < zlen V) ->
  zlen (all_reads c s) + zlen V * zlen keys < 2 ^ 31 ->
  wp (cascade_existing keys ctx tiers) (fun _ s' => exists V' parked, core c V' None s' /\ Forall2 same_names V V' /\
    cascaded c (park (rc_req_id ctx) r parked s) s' /\ zlen (all_reads c s') <= zlen (all_reads c s) + zlen V * zlen keys /\
    (forall k, k ∈ parked -> k ∈ all_writes c s)) s.
Proof.
  intros Hc Hg Ht Hz. unfold cascade_existing, request_state at 1. apply wp_bind, wp_bind, wp_get. eapply wp_of_option; [exact Hg|].
  apply wp_bind. eapply wp_mono; [by apply (sort_keys_spec c V s _ r)|]. intros ready s1 (parked & -> & R1 & Z1 & W1 & _).
  set (s1 := park _ r parked s). assert (core c V None s1) as C1 by by apply core_requests.
  pose proof (zlen_nonneg V). pose proof (zlen_nonneg keys). pose proof (zlen_nonneg ready).
  destruct ready as [|k0 ready'] eqn:Er.
  { apply wp_ret. exists V, parked. split_and!; [done|apply same_names_refl|apply cascaded_refl| |done]. change (all_reads c s1) with (all_reads c s). nia. }
  rewrite <- Er in *. clear Er k0 ready'.
  assert (forall i, i ∈ int_set_order tiers -> 0 <= i < zlen V) as Hidx by (intros i; rewrite int_set_order_perm, elem_of_elements; apply Ht).
  assert (zlen (int_set_order tiers) <= zlen V) as Hn.
  { apply indices_bound; [done| |done]. rewrite int_set_order_perm. apply NoDup_elements. }
  pose proof (zlen_nonneg (int_set_order tiers)).
  assert (zlen (int_set_order tiers) * zlen ready <= zlen V * zlen keys) as Hle by (apply Z.mul_le_mono_nonneg; lia).
  eapply wp_mono; [apply (cascade_tiers_spec c V s1 ready ctx); [done|done|done|]|].
  - change (all_reads c s1) with (all_reads c s). lia.
  - intros [] s2 (V2 & C2 & N2 & K2 & Z2). change (all_reads c s1) with (all_reads c s) in Z2. exists V2, parked. split_and!; try done. lia.
Qed.

(** ** Parked keys *)

Lemma park_ok c V rid r parked :
  request_ok c V rid r -> local_id V rid -> is_Some (some_tiers (request_level_tiers r)) ->
  request_ok c V rid (rs_set_parked parked r).
Proof. intros [A1 A2 A3 A4 A5] Hloc Ht. split; try done. intros i v Hv. by rewrite (Hloc i v Hv). Qed.

Lemma flush_parked_spec c V s rid r :
  tier_inv c V None s -> od_get rid (req_state s) = Some r ->
  zlen (all_reads c s) + zlen V * zlen (pending_cascade_keys r) < 2 ^ 31 ->
  wp (flush_parked rid) (fun _ s' => exists V', tier_inv c V' None s' /\ Forall2 same_names V V' /\
    zlen (all_reads c s') <= zlen (all_reads c s) + zlen V * zlen (pending_cascade_keys r) /\
    pending_load_submissions s' = pending_load_submissions s /\ all_writes c s' = all_writes c s /\
    processed_jobs_this_step s' = processed_jobs_this_step s /\
    (forall rid', rid' <> rid -> od_get rid' (req_state s') = od_get rid' (req_state s)) /\
    (forall r' k, od_get rid (req_state s') = Some r' -> k ∈ pending_cascade_keys r' -> k ∈ all_writes c s')) s.
Proof.
  intros [Hc Hq] Hg Hz. pose proof (rq_state _ _ _ Hq rid r Hg) as Hr. unfold flush_parked, request_state at 1.
  apply wp_bind, wp_bind, wp_get. eapply wp_of_option; [exact Hg|]. destruct (pending_cascade_keys r) as [|k0 ks] eqn:Ek.
  { apply wp_ret. exists V. split_and!; try done; [apply same_names_refl|rewrite zlen_nil; lia|]. intros r' k. rewrite Hg. intros [= <-].
    rewrite Ek. by intros ?%elem_of_nil. }
  rewrite <- Ek in *. assert (local_id V rid) as Hloc.
  { intros i v Hv. destruct (tv_own v rid) eqn:Ho; [|done]. destruct (ro_remote _ _ _ _ Hr i v Hv Ho) as (_ & He & _). congruence. }
  destruct (ro_parked _ _ _ _ Hr) as [tiers Ht]; [by rewrite Ek|]. apply wp_bind. eapply wp_of_option; [exact Ht|].
  apply wp_bind. unfold modify_request_state, request_state. apply wp_bind, wp_bind, wp_get. eapply wp_of_option; [exact Hg|]. apply wp_modify.
  set (r1 := rs_set_parked [] r). set (s1 := set_req_state _ s).
  assert (od_get rid (req_state s1) = Some r1) as Hg1 by (cbn -[od_set]; by rewrite od_get_set, decide_True).
  pose proof (ro_id _ _ _ _ Hr) as Hid. apply wp_bind.
  eapply wp_mono; [eapply (cascade_existing_spec c V s1 _ _ tiers r1); [by apply core_requests|by rewrite Hid| |done]|].
  { intros i. apply (ro_tiers _ _ _ _ Hr tiers). by apply some_tiers_eq. }
  intros [] s2 (V2 & parked & C2 & N2 & K2 & Z2 & W2). rewrite Hid in K2. set (r2 := rs_set_parked (pending_cascade_keys r1 ++ parked) r1) in *.
  assert (req_state s2 = od_set rid r2 (req_state s)) as Hs2 by (rewrite (ca_reqs _ _ _ K2); cbn -[od_set]; by rewrite od_set_set).
  assert (od_get rid (req_state s2) = Some r2) as Hg2 by (rewrite Hs2, od_get_set; by rewrite decide_True).
  assert (zlen V2 = zlen V) as Hz2 by (unfold zlen; by rewrite (Forall2_length _ _ _ N2)).
  pose proof (local_id_names _ _ _ N2 Hloc) as Hloc2.
  eapply wp_mono; [eapply (finalize_spec c V2 None s2); [done|done|exact Hg2]|]. intros [] s3 [C3 Hf].
  assert (requests_ok c V2 s3) as Hq3.
  { eapply (finished_request_ok c V2 s s2 s3 rid r r2); [by eapply requests_views|done|done|done| |exact Hf|exact Hg].
    apply park_ok; [|done|by exists tiers]. apply park_ok; [|done|by exists tiers]. by apply (rq_state _ _ _ (requests_views _ _ _ _ N2 Hq)). }
  exists V2. assert (all_reads c s3 = all_reads c s2 /\ pending_load_submissions s3 = pending_load_submissions s2 /\ all_writes c s3 = all_writes c s2 /\
    processed_jobs_this_step s3 = processed_jobs_this_step s2 /\ (forall rid', rid' <> rid -> od_get rid' (req_state s3) = od_get rid' (req_state s2)) /\
    (forall r', od_get rid (req_state s3) = Some r' -> r' = r2)) as (E1 & E2 & E3 & E4 & E5 & E6).
  { destruct (finalizable r2); [|subst; split_and!; try done; congruence]. destruct Hf as (ts & _ & ->). assert (NoDup (req_state s2).*1) by (rewrite Hs2; apply od_set_NoDup, Hq).
    split_and!; try done.
    - intros rid' Hne. cbn -[od_pop]. rewrite od_get_pop by done. by rewrite decide_False.
    - intros r'. cbn -[od_pop]. rewrite od_get_pop by done. by rewrite decide_True. }
  split_and!; try done.
  - rewrite E1. done.
  - rewrite E2. apply (ca_queue _ _ _ K2).
  - rewrite E3. apply (ca_writes _ _ _ K2).
  - rewrite E4. apply (ca_gate _ _ _ K2).
  - intros rid' Hne. rewrite E5, Hs2, od_get_set by done. by rewrite decide_False.
  - intros r' k Hr' Hk. rewrite (E6 r' Hr') in Hk. rewrite E3, (ca_writes _ _ _ K2). by apply W2.
Qed.

(** The keys parked for all requests. *)
Definition parked_in (l : list (string * RequestState)) : list OffloadKey := l ≫= fun e => pending_cascade_keys e.2.
Definition parked_keys s : list OffloadKey := parked_in (req_state s).

(** Only keys whose write is under way are parked. *)
Definition parked_wait c s : Prop := forall rid r k, od_get rid (req_state s) = Some r -> k ∈ pending_cascade_keys r -> k ∈ all_writes c s.

Lemma flush_cascades_spec c V s :
  tier_inv c V None s -> zlen (all_reads c s) + zlen V * zlen (parked_keys s) < 2 ^ 31 ->
  wp flush_pending_cascades (fun _ s' => exists V', tier_inv c V' None s' /\ Forall2 same_names V V' /\
    pending_load_submissions s' = pending_load_submissions s /\ processed_jobs_this_step s' = processed_jobs_this_step s /\ all_writes c s' = all_writes c s /\
    zlen (all_reads c s') <= zlen (all_reads c s) + zlen V * zlen (parked_keys s) /\ parked_wait c s') s.
Proof.
  intros Hi Hz. pose proof (rq_nodup _ _ _ (ti_requests _ _ _ _ Hi)) as Hnd. pose proof (zlen_nonneg V) as HzV.
  unfold flush_pending_cascades. apply wp_bind, wp_get.
  eapply wp_mono; [apply (wp_for_each (fun pre s' => exists V', tier_inv c V' None s' /\ Forall2 same_names V V' /\
    pending_load_submissions s' = pending_load_submissions s /\ processed_jobs_this_step s' = processed_jobs_this_step s /\ all_writes c s' = all_writes c s /\
    zlen (all_reads c s') <= zlen (all_reads c s) + zlen V * zlen (parked_in (take (length pre) (req_state s))) /\
    (forall rid, rid ∉ pre -> od_get rid (req_state s') = od_get rid (req_state s)) /\
    (forall rid r k, rid ∈ pre -> od_get rid (req_state s') = Some r -> k ∈ pending_cascade_keys r -> k ∈ all_writes c s')))|].
  - exists V. split_and!; try done; [apply same_names_refl|change (parked_in (take (length (@nil string)) (req_state s))) with (@nil OffloadKey); rewrite zlen_nil; lia|]. by intros rid r k ?%elem_of_nil.
  - intros pre rid post s1 Hs (V1 & I1 & N1 & Q1 & G1 & W1 & Z1 & O1 & K1).
    assert (req_state s !! length pre = Some (rid, default (mkRequestState (mkReqContext rid []) 0 false None []) (od_get rid (req_state s))) /\
      is_Some (od_get rid (req_state s))) as [Hlk [r Hg]].
    { assert ((req_state s).*1 !! length pre = Some rid) as Hk by (rewrite Hs; by apply list_lookup_middle).
      rewrite list_lookup_fmap in Hk. destruct (req_state s !! length pre) as [[rid' r]|] eqn:He; [|done]. cbn in Hk. injection Hk as ->.
      rewrite (od_elem_get rid r (req_state s) Hnd); [by split; [|eexists]|]. by eapply list_elem_of_lookup_2. }
    rewrite Hg in Hlk. cbn [default from_option id] in Hlk.
    assert (rid ∉ pre) as Hpre. { rewrite Hs in Hnd. apply NoDup_app in Hnd as (_ & Hd & _). intros Hin. apply (Hd rid Hin). by left. }
    assert (parked_in (take (S (length pre)) (req_state s)) = parked_in (take (length pre) (req_state s)) ++ pending_cascade_keys r) as Htake.
    { erewrite take_S_r by exact Hlk. unfold parked_in. rewrite bind_app. cbn. by rewrite app_nil_r. }
    assert (zlen V1 = zlen V) as HV by (unfold zlen; by rewrite (Forall2_length _ _ _ N1)).
    assert (zlen (parked_in (take (S (length pre)) (req_state s))) <= zlen (parked_keys s)) as Hle.
    { unfold parked_keys. rewrite <- (take_drop (S (length pre)) (req_state s)) at 2. unfold parked_in. rewrite bind_app, zlen_app.
      pose proof (zlen_nonneg (drop (S (length pre)) (req_state s) ≫= (fun e => pending_cascade_keys e.2))). lia. }
    rewrite Htake, zlen_app in Hle.
    eapply wp_mono; [eapply (flush_parked_spec c V1 s1 rid r); [done|by rewrite O1|rewrite HV; nia]|].
    intros [] s2 (V2 & I2 & N2 & Z2 & Q2 & W2 & G2 & O2 & K2). exists V2. split_and!; try congruence; [by eapply same_names_trans| | |].
    + rewrite length_app, Nat.add_1_r, Htake, zlen_app. rewrite HV in Z2. lia.
    + intros rid' Hn. rewrite elem_of_app, list_elem_of_singleton in Hn. rewrite O2, O1; tauto.
    + intros rid' r' k [Hp| ->%list_elem_of_singleton]%elem_of_app Hg' Hk; [|by eapply K2].
      rewrite W2. eapply K1; [exact Hp| |exact Hk]. rewrite <- O2; [done|]. by intros ->.
  - intros [] s' (V' & I' & N' & Q' & G' & W' & Z' & O' & K'). exists V'. split_and!; try done.
    + rewrite take_ge in Z' by by rewrite length_fmap. done.
    + intros rid r k Hg Hk. destruct (decide (rid ∈ (req_state s).*1)) as [Hin|Hin]; [by eapply K'|].
      rewrite O' in Hg by done. apply od_get_None in Hin. congruence.
Qed.

End Parked.
