(* ===== verification/TieringCalls.v ===== *)
(** * The calls of the engine on the tiering manager, specified

    [prepare_load] to [complete_store]: each keeps the invariant, with what the
    caller has under way updated ([Client]). *)
From Stdlib Require Import ZArith QArith Lia.
From stdpp Require Import base tactics gmap strings numbers option list.
From S2P Require Import Prelude Blocks Env OrderedDict Offload OffloadPolicies OffloadSpec Tiering TieringPrimary TieringInv TieringOps TieringRequests.

Local Open Scope Z_scope.

(** ** What the caller has under way *)

Definition load_begun (keys : list OffloadKey) (ids : list Z) (c : Client) : Client :=
  mkClient (cl_reserved c) (zip keys ids ++ cl_loads c) (cl_stores c).
Definition hits_reserved (keys : list OffloadKey) (c : Client) : Client := mkClient (keys ++ cl_reserved c) (cl_loads c) (cl_stores c).
Definition store_begun (rid : string) (out : option PrepareStoreOutput) (c : Client) : Client :=
  match out with
  | Some out => if decide (keys_to_store out = []) then c
                else mkClient (cl_reserved c) (cl_loads c) ((rid, zip (keys_to_store out) (store_spec out)) :: cl_stores c)
  | None => c
  end.
Definition with_reserved (l : list OffloadKey) (c : Client) : Client := mkClient l (cl_loads c) (cl_stores c).
Definition with_loads (l : list (OffloadKey * Z)) (c : Client) : Client := mkClient (cl_reserved c) l (cl_stores c).
Definition with_stores (l : list (string * list (OffloadKey * Z))) (c : Client) : Client := mkClient (cl_reserved c) (cl_loads c) l.

Lemma Forall2_zip {A B} (R : A -> B -> Prop) l k x y : Forall2 R l k -> (x, y) ∈ zip l k -> R x y.
Proof. intros HR. induction HR as [|a b l k Hab _ IH]; cbn; [by intros ?%elem_of_nil|]. intros [[= -> ->]|Hin]%elem_of_cons; auto. Qed.

Section Calls.
Context `{Env} {P T : Type} `{CachePolicySpec P} `{SecondaryTierLaws T}.
Local Abbreviation Tiers := (TieringOffloadingManager P T).
Implicit Types (s : Tiers) (c : Client) (V : list TierView).

(** The requests see only the stores of the caller. *)
Lemma requests_client c c' V s : cl_stores c' = cl_stores c -> requests_ok c V s -> requests_ok c' V s.
Proof.
  intros Hs [Q1 Q2 Q3 Q4 Q5]. split; rewrite ?Hs; try done. intros rid r Hg. destruct (Q2 rid r Hg) as [A1 A2 A3 A4 A5]. split; rewrite ?Hs; done.
Qed.

(** The primary tier and the caller change; the jobs keep their slots. *)
Lemma core_client c c' V x s p :
  core c V x s -> (forall k, k ∈ reads (jobs s) \/ k ∈ writes (jobs s) \/ k ∈ queued_keys (pending_load_submissions s) -> slot p k = slot (primary_tier s) k) ->
  primary_ok p (all_reads c' s) (all_writes c' s) -> client_placed c' (set_primary p s) -> core c' V x (set_primary p s).
Proof. intros [[Hp Hr Hcl] Hl] Hs Hp' Hcl'. split; [|done]. split; [done| |done]. by apply registry_primary. Qed.

Lemma wp_on_assertion {A} (m : M Tiers A) h Q s : wp m Q s -> wp (on_assertion m h) Q s.
Proof. unfold wp, on_assertion. by destruct (m s). Qed.

(** ** Loads *)

(** Keys that are ready need no promotion. *)
Lemma promote_missing_ready polls c V s keys ctx Q :
  core c V None s -> all_ready (primary_tier s) keys -> Q tt s -> wp (promote_missing_sync polls keys ctx) Q s.
Proof.
  intros Hc Hr HQ. unfold promote_missing_sync. apply wp_bind, wp_get.
  assert (filter (fun key => pol_get key (policy (primary_tier s)) = None) keys = []) as ->; [|by apply wp_ret].
  clear HQ. induction keys as [|k keys IH]; [done|]. rewrite filter_cons. rewrite decide_False; [apply IH; intros k' Hk'; apply Hr; by right|].
  destruct (Hr k) as (ch & Hch & _); [by left|].
  by rewrite (pol_get_ok _ _ k (oi_wf _ _ _ (po_inv _ _ _ (bk_primary _ _ _ (co_books _ _ _ _ Hc))))), Hch.
Qed.

Lemma tiering_prepare_load_spec polls c V s keys ctx :
  tier_inv c V None s -> all_ready (primary_tier s) keys -> zlen (keys ++ all_reads c s) < 2 ^ 31 ->
  wp (tiering_prepare_load polls keys ctx) (fun ids s' => tier_inv (load_begun keys ids c) V None s' /\ placed s' keys ids) s.
Proof.
  intros [Hc Hq] Hr Hz. unfold tiering_prepare_load. apply wp_bind. eapply promote_missing_ready; [done|done|].
  pose proof Hc as [[Hp Hrg Hcl] Hl]. apply wp_on_assertion, wp_on_primary.
  eapply wp_mono; [by apply prepare_load_spec|]. intros ids p (P1 & S1 & F1 & _).
  assert (placed (set_primary p s) keys ids) as Hpl by (eapply Forall2_impl; [exact F1|]; intros k id Hk; cbn; by rewrite S1).
  split; [|done]. split; [|by eapply (requests_client c); [|eapply requests_frame; [|exact Hq]]].
  apply (core_client c); [done|by intros k _| |].
  - assert (all_reads (load_begun keys ids c) s ≡ₚ keys ++ all_reads c s) as ->; [|done].
    unfold all_reads, client_reads. cbn. rewrite fmap_app, fst_zip by by rewrite (Forall2_length _ _ _ F1). solve_Permutation.
  - intros k id Hin. unfold client_slots in Hin. cbn in Hin. rewrite <- app_assoc in Hin. apply elem_of_app in Hin as [Hin|Hin].
    + by eapply Forall2_zip in Hin; [|exact Hpl].
    + cbn. rewrite S1. by apply Hcl.
Qed.

Lemma tiering_complete_load_spec c V s keys ids rest :
  tier_inv c V None s -> cl_loads c ≡ₚ zip keys ids ++ rest -> length ids = length keys ->
  wp (tiering_complete_load keys) (fun _ s' => tier_inv (with_loads rest c) V None s') s.
Proof.
  intros [Hc Hq] Hl Hlen. pose proof Hc as [[Hp Hrg Hcl] Hli]. apply wp_on_primary.
  assert (all_reads c s ≡ₚ keys ++ all_reads (with_loads rest c) s) as Hr.
  { unfold all_reads, client_reads. cbn. rewrite Hl, fmap_app, fst_zip by lia. solve_Permutation. }
  rewrite Hr in Hp. eapply wp_mono; [by apply complete_load_spec|]. intros [] p (P1 & S1 & _).
  split; [|by eapply (requests_client c); [|eapply requests_frame; [|exact Hq]]].
  apply (core_client c); [done|by intros k _|done|]. intros k id Hin. cbn. rewrite S1. apply Hcl. unfold client_slots in *. cbn in Hin.
  rewrite Hl. rewrite !elem_of_app in *. tauto.
Qed.

(** ** Reservations *)

Lemma tiering_reserve_spec c V s keys :
  tier_inv c V None s -> NoDup keys -> zlen (keys ++ all_reads c s) < 2 ^ 31 ->
  wp (tiering_reserve_hits keys) (fun r s' => tier_inv (hits_reserved r c) V None s' /\ r `sublist_of` keys) s.
Proof.
  intros [Hc Hq] Hnd Hz. pose proof Hc as [[Hp Hrg Hcl] Hli]. apply wp_on_primary.
  eapply wp_mono; [by apply reserve_spec|]. intros r p (P1 & S1 & Hsub & _). split; [|done].
  split; [|by eapply (requests_client c); [|eapply requests_frame; [|exact Hq]]]. apply (core_client c); [done|by intros k _| |].
  - assert (all_reads (hits_reserved r c) s = r ++ all_reads c s) as ->; [|done]. unfold all_reads, client_reads. cbn. by rewrite <- !app_assoc.
  - intros k id Hin. cbn. rewrite S1. by apply Hcl.
Qed.

Lemma tiering_release_spec c V s keys rest :
  tier_inv c V None s -> cl_reserved c ≡ₚ keys ++ rest ->
  wp (tiering_release_reservation keys) (fun _ s' => tier_inv (with_reserved rest c) V None s') s.
Proof.
  intros [Hc Hq] Hl. pose proof Hc as [[Hp Hrg Hcl] Hli]. apply wp_on_primary.
  assert (all_reads c s ≡ₚ keys ++ all_reads (with_reserved rest c) s) as Hr by (unfold all_reads, client_reads; cbn; rewrite Hl; solve_Permutation).
  rewrite Hr in Hp. eapply wp_mono; [by apply (complete_load_spec keys)|]. intros [] p (P1 & S1 & _).
  split; [|by eapply (requests_client c); [|eapply requests_frame; [|exact Hq]]].
  apply (core_client c); [done|by intros k _|done|]. intros k id Hin. cbn. rewrite S1. by apply Hcl.
Qed.

Lemma tiering_touch_spec c V s keys ctx :
  tier_inv c V None s -> wp (tiering_touch keys ctx) (fun _ s' => tier_inv c V None s') s.
Proof.
  intros [Hc Hq]. pose proof Hc as [[Hp Hrg Hcl] Hli]. unfold tiering_touch. apply wp_bind, wp_on_primary.
  eapply wp_mono; [by apply primary_touch_spec|]. intros [] p (P1 & S1 & _). set (s1 := set_primary p s).
  assert (core c V None s1) as C1.
  { apply (core_client c); [done| |done|].
    - intros k _. unfold slot. by rewrite S1.
    - intros k id Hin. cbn. unfold slot. rewrite S1. by apply Hcl. }
  eapply wp_mono; [apply (each_same_view c V None s1 _ C1)|].
  - intros i s2 Hi C2. apply same_view_spec; [done|done|done|]. intros. by apply stl_touch.
  - intros [] s2 [C2 (ts & -> & _)]. split; [done|]. by eapply requests_frame; [|exact Hq].
Qed.

Lemma tiering_events_spec c V s : tier_inv c V None s -> wp tiering_take_events (fun _ s' => tier_inv c V None s') s.
Proof.
  intros [Hc Hq]. pose proof Hc as [[Hp Hrg Hcl] Hli]. unfold tiering_take_events. apply wp_bind, wp_on_primary.
  assert (wp take_off_events (fun _ p => core c V None (set_primary p s)) (primary_tier s)) as Hev.
  { unfold take_off_events. apply wp_bind, wp_get. destruct (off_events (primary_tier s)) as [es|].
    - apply wp_bind, wp_modify, wp_ret. apply (core_client c); try done. destruct Hp as [I1 I2 I3 I4 I5 I6]. split; try done. by eapply off_inv_frame.
    - apply wp_ret. by destruct s. }
  eapply wp_mono; [exact Hev|]. intros es p C1. apply wp_bind, wp_get. set (s1 := set_primary p s) in *.
  eapply wp_mono; [apply (wp_fold_m (fun _ _ s' => core c V None s' /\ tiers_only s1 s'))|].
  - split; [done|apply tiers_only_refl].
  - intros pre i post es' s2 Hs [C2 T2]. assert (0 <= i < zlen V) as Hi.
    { apply (tier_indices_ok c V None s1); [done|]. rewrite Hs. apply elem_of_app. right. by left. }
    rewrite <- (Z2Nat.id i) by lia. apply wp_bind.
    eapply wp_mono; [apply (same_view_spec c V None s2 (Z.to_nat i) _ C2); [unfold zlen in Hi; lia|done|intros; by apply stl_events]|].
    intros es'' s3 [C3 T3]. apply wp_ret. split; [done|by eapply tiers_only_trans].
  - intros es' s2 [C2 (ts & -> & _)]. split; [done|]. by eapply requests_frame; [|exact Hq].
Qed.

(** ** Stores *)

(** The stores of the other requests are as before. *)
Lemma store_begun_others rid out c rid' : rid' <> rid -> zlen (stores_of (store_begun rid out c) rid') = zlen (stores_of c rid').
Proof.
  intros Hne. destruct out as [out|]; [|done]. cbn. destruct (decide _); [done|]. unfold stores_of. cbn [cl_stores]. rewrite filter_cons.
  by rewrite decide_False by (cbn; congruence).
Qed.

(** The entry of a request that offers chunks: a store more, if any is new. *)
Definition offered (r : RequestState) (out : PrepareStoreOutput) : RequestState :=
  if decide (keys_to_store out = []) then r else rs_set_stores (pending_primary_stores r + 1) r.

Lemma offered_ok c V rid r out :
  request_ok c V rid r -> local_id V rid -> request_ok (store_begun rid (Some out) c) V rid (offered r out).
Proof.
  intros [A1 A2 A3 A4 A5] Hloc. unfold offered. cbn. destruct (decide (keys_to_store out = [])); [by split|].
  split; try done. cbn [cl_stores pending_primary_stores rs_set_stores]. rewrite filter_cons, decide_True by done. rewrite zlen_cons, A2. lia.
Qed.

(** A store begins in the books. *)
Lemma store_begun_core c V s p rid out :
  core c V None s -> primary_ok p (all_reads c s) (keys_to_store out ++ all_writes c s) -> slots_kept (all_reads c s) (all_writes c s) (primary_tier s) p ->
  Forall2 (fun k id => slot p k = Some id) (keys_to_store out) (store_spec out) ->
  core (store_begun rid (Some out) c) V None (set_primary p s).
Proof.
  intros Hc Hp Hk Hf. pose proof Hc as [[_ Hrg Hcl] Hli]. apply (core_client c); [done| | |].
  - intros k Hin. apply Hk. unfold busy, all_reads, all_writes. rewrite !elem_of_app. tauto.
  - cbn. destruct (decide (keys_to_store out = [])) as [He|_]; [by rewrite He in Hp|].
    assert (all_writes (mkClient (cl_reserved c) (cl_loads c) ((rid, zip (keys_to_store out) (store_spec out)) :: cl_stores c)) s = keys_to_store out ++ all_writes c s) as Hw.
    { unfold all_writes, client_writes. cbn. rewrite fmap_app, fst_zip by by rewrite (Forall2_length _ _ _ Hf). by rewrite <- !app_assoc. }
    by rewrite Hw.
  - assert (forall k id, (k, id) ∈ client_slots c -> slot p k = Some id) as Hold.
    { intros k id Hin. rewrite Hk; [by apply Hcl|]. unfold busy, all_reads, all_writes. rewrite !elem_of_app. destruct (client_slots_key c k id Hin); tauto. }
    cbn. destruct (decide (keys_to_store out = [])); [done|]. intros k id Hin. unfold client_slots in Hin. cbn in Hin. cbn.
    rewrite !elem_of_app in Hin. destruct Hin as [Hin|[Hin|Hin]].
    + apply Hold. unfold client_slots. rewrite elem_of_app. by left.
    + by eapply Forall2_zip in Hin; [|exact Hf].
    + apply Hold. unfold client_slots. rewrite elem_of_app. by right.
Qed.

Lemma tiering_prepare_store_spec c V s keys ctx r :
  tier_inv c V None s -> NoDup keys -> od_get (rc_req_id ctx) (req_state s) = Some r -> local_id V (rc_req_id ctx) ->
  zlen (all_reads c s) + zlen V * zlen keys < 2 ^ 31 ->
  wp (tiering_prepare_store keys ctx) (fun out s' => exists V', tier_inv (store_begun (rc_req_id ctx) out c) V' None s' /\ Forall2 same_names V V') s.
Proof.
  intros [Hc Hq] Hnd Hg Hloc Hz. set (rid := rc_req_id ctx) in *. unfold tiering_prepare_store. apply wp_bind.
  eapply wp_mono; [by apply (maybe_process_spec c V None)|]. intros [] s1 (V1 & C1 & N1 & [Q1 R1 G1 Z1 T1] & _).
  change (req_state (set_processed true s)) with (req_state s) in R1. change (all_reads c (set_processed true s)) with (all_reads c s) in Z1.
  pose proof (requests_views _ _ _ _ N1 Hq) as Hq1. eapply (requests_frame c V1 s s1) in Hq1; [|done].
  pose proof (local_id_names _ _ _ N1 Hloc) as Hloc1. assert (zlen V1 = zlen V) as HV by (unfold zlen; by rewrite (Forall2_length _ _ _ N1)).
  rewrite <- R1 in Hg. pose proof (rq_state _ _ _ Hq1 rid r Hg) as Hr. apply wp_bind, wp_on_primary.
  eapply wp_mono; [apply (prepare_store_spec _ _ _ keys (bk_primary _ _ _ (co_books _ _ _ _ C1)) Hnd)|]. intros [out|] p (_ & Hres).
  2:{ destruct Hres as [P1 S1]. apply wp_ret. exists V1. split; [|done]. split; [|by eapply requests_frame; [|exact Hq1]].
      apply (core_client c); [done| |done|]; [intros k _|intros k id Hin; cbn]; unfold slot; rewrite S1; [done|]. by apply C1. }
  destruct Hres as (P1 & K1 & _ & _ & F1 & _). set (s2 := set_primary p s1). set (c' := store_begun rid (Some out) c).
  assert (core c' V1 None s2) as C2 by by apply (store_begun_core c V1 s1 p rid out).
  assert (zlen (all_reads c' s2) = zlen (all_reads c s1)) as Z2 by (unfold c'; cbn; by destruct (decide _)).
  set (r1 := offered r out). set (s3 := set_req_state (od_set rid r1 (req_state s2)) s2).
  assert (wp (when (negb (bool_decide (keys_to_store out = []))) (modify_request_state rid (fun r => rs_set_stores (pending_primary_stores r + 1) r)))
    (fun _ s' => s' = s3) s2) as Hwhen.
  { apply wp_when; intros Hb.
    - apply negb_true_iff, bool_decide_eq_false in Hb. unfold modify_request_state, request_state. apply wp_bind, wp_bind, wp_get.
      eapply wp_of_option; [exact Hg|]. apply wp_modify. unfold s3, r1, offered. by rewrite decide_False.
    - apply negb_false_iff, bool_decide_eq_true in Hb. unfold s3, r1, offered. rewrite decide_True by done.
      rewrite od_set_id by exact Hg. by destruct s2. }
  apply wp_bind. eapply wp_mono; [exact Hwhen|]. intros [] s' ->. unfold request_state at 1. apply wp_bind, wp_bind, wp_get.
  assert (od_get rid (req_state s3) = Some r1) as Hg3 by (unfold s3; cbn [req_state set_req_state]; by rewrite od_get_set, decide_True).
  eapply wp_of_option; [exact Hg3|]. assert (core c' V1 None s3) as C3 by by apply core_requests.
  assert (request_ok c' V1 rid r1) as Hr1 by by apply offered_ok.
  assert (forall V' parked s4, Forall2 same_names V1 V' -> core c' V' None s4 -> req_state s4 = req_state (park rid r1 parked s3) ->
    (parked = [] \/ is_Some (some_tiers (request_level_tiers r1))) ->
    wp (mret (Some out)) (fun out s' => exists V', tier_inv (store_begun rid out c) V' None s' /\ Forall2 same_names V V') s4) as Hend.
  { intros V' parked s4 N4 C4 R4 Hpk. apply wp_ret. exists V'. split; [|by eapply same_names_trans]. split; [done|]. eapply requests_views; [exact N4|].
    eapply (requests_set c c' V1 s1 s4 rid (rs_set_parked (pending_cascade_keys r1 ++ parked) r1)); [done| | | |].
    - rewrite R4. unfold park, s3. cbn [req_state set_req_state]. by rewrite od_set_set.
    - destruct Hpk as [->|Ht]; [|by apply park_ok]. rewrite app_nil_r. by destruct r1.
    - intros rid' Hne. by apply store_begun_others.
    - by intros _. }
  apply wp_bind. destruct (some_tiers (request_level_tiers r1)) as [tiers|] eqn:Ht.
  2:{ apply wp_ret. apply (Hend V1 []); [apply same_names_refl|done|by rewrite park_nil|by left]. }
  destruct (filter (fun k => k ∉ keys_to_store out) keys) as [|k0 ex] eqn:Ef.
  { apply wp_ret. apply (Hend V1 []); [apply same_names_refl|done|by rewrite park_nil|by left]. }
  assert (zlen (k0 :: ex) <= zlen keys) as Hex.
  { rewrite <- Ef. unfold zlen. pose proof (length_filter (fun k => k ∉ keys_to_store out) keys). lia. }
  eapply wp_mono; [apply (cascade_existing_spec c' V1 s3 _ ctx tiers r1 C3 Hg3)|].
  - intros i. apply (ro_tiers _ _ _ _ Hr1 tiers). by apply some_tiers_eq.
  - change (all_reads c' s3) with (all_reads c' s2). rewrite Z2, HV. pose proof (zlen_nonneg V). nia.
  - intros [] s4 (V4 & parked & C4 & N4 & K4 & _). apply (Hend V4 parked); [done|done|apply (ca_reqs _ _ _ K4)|right; by eexists].
Qed.

(** A store ends: its keys are no longer written. *)
Lemma store_ended_writes c s rid l rest keys :
  cl_stores c ≡ₚ (rid, l) :: rest -> keys ≡ₚ l.*1 -> all_writes c s ≡ₚ keys ++ all_writes (with_stores rest c) s.
Proof.
  intros Hs Hk. unfold all_writes, client_writes. cbn. rewrite Hs. cbn. by rewrite fmap_app, Hk, <- !app_assoc.
Qed.

Lemma store_ended_stores c rid l rest rid' : cl_stores c ≡ₚ (rid, l) :: rest ->
  zlen (stores_of c rid') = (if decide (rid' = rid) then 1 else 0) + zlen (stores_of (with_stores rest c) rid').
Proof.
  intros Hs. unfold stores_of. cbn [cl_stores with_stores]. rewrite (zlen_perm _ _ (filter_Permutation _ _ _ Hs)), filter_cons. cbn [fst].
  destruct (decide (rid = rid')) as [->|Hne]; [rewrite decide_True, zlen_cons by done; lia|]. by rewrite decide_False by congruence.
Qed.

Lemma store_ended_core c V s rid l rest keys success :
  core c V None s -> cl_stores c ≡ₚ (rid, l) :: rest -> keys ≡ₚ l.*1 ->
  wp (on_primary (complete_store keys success)) (fun _ s' => core (with_stores rest c) V None s' /\
    (success = true -> all_ready (primary_tier s') keys) /\ exists p, s' = set_primary p s) s.
Proof.
  intros Hc Hs Hk. pose proof Hc as [[Hp Hrg Hcl] Hli]. pose proof (store_ended_writes c s rid l rest keys Hs Hk) as Hw. rewrite Hw in Hp.
  apply wp_on_primary. eapply wp_mono; [by apply complete_store_spec|]. intros [] p (_ & P1 & Hout & Hin).
  assert (forall k, k ∈ all_reads c s \/ k ∈ all_writes (with_stores rest c) s -> k ∉ keys) as Hno.
  { intros k [Hr|Hr] Hkk.
    - destruct (reader_stored _ _ _ k Hp Hr) as (ch & Hch & _ & Hpos). assert (k ∈ keys ++ all_writes (with_stores rest c) s) as (ch' & Hch' & Hr')%(po_pending _ _ _ Hp) by (apply elem_of_app; by left).
      assert (ch = ch') as -> by congruence. lia.
    - pose proof (po_once _ _ _ Hp) as (_ & Hd & _)%NoDup_app. by apply (Hd k Hkk). }
  assert (forall k, k ∉ keys -> slot p k = slot (primary_tier s) k) as Hsl by (intros k Hkk; unfold slot; by rewrite Hout).
  split_and!; [|intros ->; intros k Hkk; by destruct (Hin k Hkk) as [_ ?]|by exists p].
  apply (core_client c); [done| |done|].
  - intros k Hkk. apply Hsl, Hno. unfold all_reads, all_writes. rewrite !elem_of_app. tauto.
  - intros k id Hkk. cbn. rewrite Hsl.
    + apply Hcl. unfold client_slots in *. cbn in Hkk. rewrite Hs. cbn. rewrite !elem_of_app in *. tauto.
    + apply Hno. unfold all_reads, all_writes. rewrite !elem_of_app. destruct (client_slots_key _ k id Hkk); tauto.
Qed.

Lemma tiering_complete_store_spec c V s rid l rest keys ctx success :
  tier_inv c V None s -> cl_stores c ≡ₚ (rid, l) :: rest -> keys ≡ₚ l.*1 -> rc_req_id ctx = rid ->
  zlen (all_reads c s) + zlen V * zlen keys < 2 ^ 31 ->
  wp (tiering_complete_store keys ctx success) (fun _ s' => exists V', tier_inv (with_stores rest c) V' None s' /\ Forall2 same_names V V') s.
Proof.
  intros [Hc Hq] Hs Hk Hid Hz. set (c' := with_stores rest c). unfold tiering_complete_store. rewrite Hid. apply wp_bind.
  eapply wp_mono; [by apply (store_ended_core c V s rid l rest)|]. intros [] s1 (C1 & R1 & p & ->). set (s1 := set_primary p s) in *. fold c' in C1.
  assert ((rid, l) ∈ cl_stores c) as Hin by (rewrite Hs; by left). destruct (rq_stores _ _ _ Hq rid l Hin) as [[r Hg] Hloc].
  pose proof (rq_state _ _ _ Hq rid r Hg) as Hr.
  apply wp_bind. assert (wp (when success (each_tier (cascade keys ctx))) (fun _ s2 => exists V2, core c' V2 None s2 /\ Forall2 same_names V V2 /\ req_state s2 = req_state s1) s1) as Hw.
  { apply wp_when; intros Hb; [|by exists V; split_and!; [done|apply same_names_refl|]]. unfold each_tier. apply wp_bind, wp_get.
    assert (zlen (tier_indices s1) = zlen V) as Hti.
    { unfold tier_indices, zlen at 1. rewrite length_seqZ. cbn. unfold zlen. rewrite (rg_tiers _ _ (bk_registry _ _ _ (co_books _ _ _ _ Hc))). lia. }
    eapply wp_mono; [apply (cascade_tiers_spec c' V s1 keys ctx); [done|intros i; by eapply tier_indices_ok|by apply R1|]|].
    - rewrite Hti. done.
    - intros [] s2 (V2 & C2 & N2 & K2 & _). exists V2. split_and!; [done|done|apply (ca_reqs _ _ _ K2)]. }
  eapply wp_mono; [exact Hw|]. intros [] s2 (V2 & C2 & N2 & Hs2). change (req_state s1) with (req_state s) in Hs2.
  pose proof (local_id_names _ _ _ N2 Hloc) as Hloc2. rewrite <- Hs2 in Hg.
  pose proof (store_ended_stores c rid l rest rid Hs) as Hn. rewrite decide_True in Hn by done. fold c' in Hn.
  pose proof (ro_stores _ _ _ _ Hr) as Hst. fold (stores_of c rid) in Hst. pose proof (zlen_nonneg (stores_of c' rid)).
  unfold modify_request_state, request_state. apply wp_bind, wp_bind, wp_get. eapply wp_of_option; [exact Hg|].
  apply wp_bind, wp_assert; [apply Z.ltb_lt; lia|]. apply wp_bind, wp_bind, wp_bind, wp_get. eapply wp_of_option; [exact Hg|]. apply wp_modify.
  set (r3 := rs_set_stores _ r). set (s3 := set_req_state _ s2). assert (req_state s3 = od_set rid r3 (req_state s)) as Hs3 by (unfold s3; cbn [req_state set_req_state]; by rewrite Hs2).
  assert (od_get rid (req_state s3) = Some r3) as Hg3 by (rewrite Hs3, od_get_set; by rewrite decide_True).
  assert (request_ok c' V2 rid r3) as Hr3.
  { destruct (rq_state _ _ _ (requests_views _ _ _ _ N2 Hq) rid r) as [A1 A2 A3 A4 A5]; [by rewrite <- Hs2|]. split; try done.
    cbn [pending_primary_stores rs_set_stores r3]. fold (stores_of c' rid). lia. }
  assert (requests_ok c' V2 s3) as Hq3.
  { eapply (requests_set c c' V2 s s3 rid r3); [by eapply requests_views|done|done| |done].
    intros rid' Hne. rewrite (store_ended_stores c rid l rest rid' Hs), decide_False by done. done. }
  eapply wp_mono; [eapply (finalize_spec c' V2 None s3); [by apply core_requests|done|exact Hg3]|]. intros [] s4 [C4 Hf].
  exists V2. split; [|done]. split; [done|].
  eapply (finished_request_ok c' V2 s3 s3 s4 rid r3 r3); [done|done| |done|done|exact Hf|done]. by rewrite od_set_id.
Qed.

End Calls.
