(* ===== verification/TieringServe.v ===== *)
(** * Steps and resets of the tiering manager, specified

    Remote requests served by a tier ([serve_external_requests] with its
    [ParentManager]), the end of a scheduler step, and [reset_cache]. *)
From Stdlib Require Import ZArith QArith Lia.
From stdpp Require Import base tactics gmap strings numbers option list.
From S2P Require Import Prelude Blocks Env OrderedDict Offload OffloadPolicies OffloadSpec Tiering TieringPrimary TieringInv TieringOps TieringRequests TieringCalls.

Local Open Scope Z_scope.

Lemma od_pop_set {A B} `{EqDecision A} k (v : B) (d : list (A * B)) : od_pop k (od_set k v d) = od_pop k d.
Proof.
  induction d as [|[k' v'] d IH]; cbn; [by rewrite decide_True|]. destruct (decide (k = k')) as [->|Hne]; cbn.
  - by rewrite decide_True.
  - by rewrite decide_False, IH.
Qed.

Lemma parked_pop rid l : zlen (parked_in (od_pop rid l)) <= zlen (parked_in l).
Proof.
  destruct (od_get rid l) as [r|] eqn:Hg.
  - unfold parked_in. rewrite (zlen_perm (l ≫= _) _ (bind_Permutation _ _ _ (od_pop_perm rid r l Hg))). cbn. rewrite zlen_app.
    pose proof (zlen_nonneg (pending_cascade_keys r)). lia.
  - apply od_get_None in Hg. rewrite od_pop_absent by done. lia.
Qed.

Section Serve.
Context `{Env} {P T : Type} `{CachePolicySpec P} `{SecondaryTierLaws T}.
Local Abbreviation Tiers := (TieringOffloadingManager P T).
Implicit Types (s : Tiers) (c : Client) (V : list TierView).

(** ** Remote requests *)

(** Keys found in the primary tier. *)
Definition hits_ready s (hits : gset OffloadKey) : Prop :=
  forall k, k ∈ hits -> exists ch, pol_map (policy (primary_tier s)) !! k = Some ch /\ chunk_ref ch <> -1.

Lemma hits_same s s' hits : same_chunks s s' -> hits_ready s hits -> hits_ready s' hits.
Proof. intros Hs Hh k Hk. rewrite Hs. by apply Hh. Qed.

(** What serving costs: at most [n] readers, and no parked keys. *)
Definition served c (n : Z) s s' : Prop :=
  processed_jobs_this_step s' = true /\ zlen (all_reads c s') <= zlen (all_reads c s) + n /\
  zlen (parked_keys s') <= zlen (parked_keys s) /\ length (secondary_tiers s') = length (secondary_tiers s).

Lemma served_trans c n1 n2 s1 s2 s3 : served c n1 s1 s2 -> served c n2 s2 s3 -> served c (n1 + n2) s1 s3.
Proof. intros (A1 & A2 & A3 & A4) (B1 & B2 & B3 & B4). split_and!; try done; [lia|lia|congruence]. Qed.
Lemma served_mono c n1 n2 s1 s2 : n1 <= n2 -> served c n1 s1 s2 -> served c n2 s1 s2.
Proof. intros Hn (A1 & A2 & A3 & A4). split_and!; try done. lia. Qed.

Lemma serve_new_spec c V s i v ctx :
  tier_inv c V (Some i) s -> V !! i = Some v -> processed_jobs_this_step s = true -> tv_own v (rc_req_id ctx) = true -> rc_req_id ctx ∉ tv_open v ->
  wp (tiering_on_new_request ctx (Some (Z.of_nat i))) (fun _ s' =>
    tier_inv c (<[i := view_set_open ({[rc_req_id ctx]} ∪ tv_open v) v]> V) (Some i) s' /\ same_chunks s s' /\ served c 0 s s') s.
Proof.
  intros [Hc Hq] Hv Hg Hown Hop. eapply wp_mono; [apply (new_request_core c V (Some i)); [done|congruence]|].
  intros p s' (C1 & ts & r & Hl & -> & Hf). set (rid := rc_req_id ctx) in *.
  assert (od_get rid (req_state s) = None) as Hn.
  { destruct (od_get rid (req_state s)) as [r0|] eqn:Hr0; [|done]. destruct (ro_remote _ _ _ _ (rq_state _ _ _ Hq rid r0 Hr0) i v Hv Hown) as (? & _). done. }
  split_and!; [split| |].
  - by apply core_open.
  - by eapply (requests_opened c V s).
  - done.
  - split_and!; try done; [change (all_reads c (set_req_state _ _)) with (all_reads c s); lia|].
    unfold parked_keys. cbn [req_state set_req_state]. rewrite od_set_absent by by apply od_get_None. unfold parked_in. rewrite bind_app. cbn.
    by rewrite (fr_parked _ _ _ Hf), !app_nil_r.
Qed.

Lemma serve_store_spec c V s i v keys ctx :
  tier_inv c V (Some i) s -> V !! i = Some v -> processed_jobs_this_step s = true -> all_ready (primary_tier s) keys ->
  zlen (keys ++ all_reads c s) < 2 ^ 31 ->
  wp (create_store_job keys ctx (Z.of_nat i)) (fun j s' => tj_keys j = keys /\ job_shape j /\ is_promotion j = false /\ tv_jobs v !! tj_job_id j = None /\
    tier_inv c (<[i := view_add j v]> V) (Some i) s' /\ (forall hits, hits_ready s hits -> hits_ready s' hits) /\ served c (zlen keys) s s') s.
Proof.
  intros [[Hb Hl] Hq] Hv Hg Hr Hz. pose proof (lookup_lt_Some _ _ _ Hv) as Hlt.
  eapply wp_mono; [by apply (create_store_job_spec c V s keys ctx i v)|].
  intros j s' (J1 & J2 & J3 & _ & J4 & B1 & [S1 S2 S3 S4] & R1 & W1 & K1). split_and!; try done.
  - split.
    + split; [done|]. intros k t Ht Hk. rewrite list_lookup_insert_ne by congruence. apply Hl; [by rewrite <- S1|done].
    + eapply requests_views; [by apply (same_names_insert V i v)|]. by eapply requests_frame.
  - intros hits Hh k Hk. apply (ready_slot _ _ _ k (bk_primary _ _ _ B1)). rewrite W1, K1. apply (ready_slot _ _ _ k (bk_primary _ _ _ Hb)). by apply Hh.
  - split_and!; [congruence| |unfold parked_keys; by rewrite S4|by rewrite S1]. rewrite (zlen_perm _ _ R1), zlen_app. lia.
Qed.

Lemma serve_finished_spec c V s i v ctx :
  tier_inv c V (Some i) s -> V !! i = Some v -> processed_jobs_this_step s = true -> rc_req_id ctx ∈ tv_open v ->
  wp (tiering_on_request_finished ctx (Some (Z.of_nat i))) (fun _ s' =>
    tier_inv c (<[i := view_set_open (tv_open v ∖ {[rc_req_id ctx]}) v]> V) (Some i) s' /\ same_chunks s s' /\ served c 0 s s') s.
Proof.
  intros [Hc Hq] Hv Hgate Hop. set (rid := rc_req_id ctx) in *. destruct (rq_open _ _ _ Hq i v rid Hv Hop) as [Hown [r Hg]].
  pose proof (rq_state _ _ _ Hq rid r Hg) as Hr. destruct (ro_remote _ _ _ _ Hr i v Hv Hown) as (_ & Hpk & Hfin).
  assert (stores_of c rid = []) as Hst.
  { destruct (stores_of c rid) eqn:He; [done|]. assert (stores_of c rid <> []) as [ks Hin]%stores_of_elem by by rewrite He.
    destruct (rq_stores _ _ _ Hq rid ks Hin) as [_ Hno]. rewrite (Hno i v Hv) in Hown. done. }
  unfold tiering_on_request_finished, modify_request_state, request_state. fold rid.
  apply wp_bind, wp_bind, wp_bind, wp_get. eapply wp_of_option; [exact Hg|]. apply wp_modify. set (s1 := set_req_state _ s).
  assert (od_get rid (req_state s1) = Some (rs_set_finished r)) as Hg1 by (unfold s1; cbn [req_state set_req_state]; by rewrite od_get_set, decide_True).
  eapply wp_mono; [eapply (finalize_spec c V (Some i) s1); [by apply core_requests|congruence|exact Hg1]|]. intros [] s2 [C2 Hf].
  assert (finalizable (rs_set_finished r) = true) as Hfz.
  { unfold finalizable. cbn. rewrite (ro_stores _ _ _ _ Hr). fold (stores_of c rid). rewrite Hst. cbn. by apply bool_decide_eq_true. }
  rewrite Hfz in Hf. destruct Hf as (ts & Hl & ->). assert (od_pop rid (req_state s1) = od_pop rid (req_state s)) as Hpop by apply od_pop_set.
  split_and!; [split| |].
  - by apply core_open.
  - eapply (requests_closed c V s); [done|done|done|]. exact Hpop.
  - done.
  - split_and!; try done; [change (all_reads c (set_req_state _ _)) with (all_reads c s); lia|].
    unfold parked_keys. cbn [req_state set_req_state]. rewrite Hpop. apply parked_pop.
Qed.

(** A tier's program raises nothing and leaves the tier as it promises. *)
Lemma run_serve_spec c i p : forall n hits V v s,
  serve_ok st_ok n hits v p -> tier_inv c V (Some i) s -> V !! i = Some v -> processed_jobs_this_step s = true ->
  hits_ready s hits -> 0 <= n -> zlen (all_reads c s) + n < 2 ^ 31 ->
  wp (run_serve (Z.of_nat i) p) (fun _ s' => exists V', tier_inv c V' None s' /\ served c n s s') s.
Proof.
  induction p as [t|ctx k IH|key ctx k IH|keys ctx k IH|ctx p IH]; intros n hits V v s Hok Hi Hv Hg Hh Hn Hz; cbn [run_serve serve_ok] in *.
  - apply wp_modify. rewrite Nat2Z.id. destruct Hi as [[Hb Hl] Hq]. pose proof (lookup_lt_Some _ _ _ Hv) as Hlt.
    exists V. split; [|split_and!; try done; [change (all_reads c (set_tiers _ s)) with (all_reads c s); lia|cbn; by rewrite length_insert]].
    split; [|by eapply requests_frame; [|exact Hq]]. split; [eapply books_tiers; [|exact Hb]; eexists; split; [done|by rewrite length_insert]|].
    intros k u Hu _. cbn in Hu. destruct (decide (k = i)) as [->|Hne].
    + exists v. split; [done|]. pose proof (lookup_lt_Some _ _ _ Hu) as Hk. rewrite length_insert in Hk. rewrite list_lookup_insert_eq in Hu by done. by injection Hu as <-.
    + rewrite list_lookup_insert_ne in Hu by done. apply Hl; [done|congruence].
  - destruct Hok as (Hown & Hop & Hk). apply wp_bind. eapply wp_mono; [by apply (serve_new_spec c V s i v)|]. intros r s1 (I1 & S1 & V1).
    eapply wp_mono; [eapply (IH r n hits _ _ s1 (Hk r) I1); [|apply V1|by eapply hits_same|done|destruct V1 as (_ & ? & _); lia]|].
    + apply list_lookup_insert_eq. by eapply lookup_lt_Some.
    + intros [] s2 (V2 & I2 & S2). exists V2. split; [done|]. eapply (served_trans c 0 n); [exact V1|exact S2].
  - apply wp_bind. destruct Hi as [Hc Hq]. eapply wp_mono; [apply (tiering_lookup_spec c V (Some i)); [done|done|congruence]|].
    intros r s1 (V1 & C1 & N1 & Q1 & Z1 & G1 & T1 & A1 & E1). destruct (E1 Hg) as (-> & Hrd & Hch).
    assert (tier_inv c V (Some i) s1) as I1 by (split; [done|by eapply requests_frame]).
    assert (served c 0 s s1) as V1 by (split_and!; [done|lia|unfold parked_keys; by rewrite Q1|done]).
    eapply wp_mono; [eapply (IH r n _ _ _ s1 (Hok r) I1 Hv G1); [|done|rewrite Hrd; lia]|].
    + destruct r; [eapply hits_same; [|exact Hh]; by apply Hch| |done|eapply hits_same; [|exact Hh]; by apply Hch].
      intros x [->%elem_of_singleton|Hx]%elem_of_union; [apply A1; by left|]. rewrite Hch by done. by apply Hh.
    + intros [] s2 (V2 & I2 & S2). exists V2. split; [done|]. eapply (served_trans c 0 n); [exact V1|exact S2].
  - destruct Hok as (Hin & Hlen & Hk). pose proof (zlen_nonneg keys). apply wp_bind.
    eapply wp_mono; [apply (serve_store_spec c V s i v); [done|done|done|intros x Hx; by apply Hh, Hin|rewrite zlen_app; lia]|].
    intros j s1 (J1 & J2 & J3 & J4 & I1 & H1' & V1).
    eapply wp_mono; [eapply (IH j (n - zlen keys) hits _ _ s1 (Hk j J1 J2 J3 J4) I1); [|apply V1|by apply H1'|lia|destruct V1 as (_ & ? & _); lia]|].
    + apply list_lookup_insert_eq. by eapply lookup_lt_Some.
    + intros [] s2 (V2 & I2 & S2). exists V2. split; [done|]. eapply served_mono; [|eapply (served_trans c); [exact V1|exact S2]]. lia.
  - destruct Hok as (Hop & Hk). apply wp_bind. eapply wp_mono; [by apply (serve_finished_spec c V s i v)|]. intros [] s1 (I1 & S1 & V1).
    eapply wp_mono; [eapply (IH n hits _ _ s1 Hk I1); [|apply V1|by eapply hits_same|done|destruct V1 as (_ & ? & _); lia]|].
    + apply list_lookup_insert_eq. by eapply lookup_lt_Some.
    + intros [] s2 (V2 & I2 & S2). exists V2. split; [done|]. eapply (served_trans c 0 n); [exact V1|exact S2].
Qed.

(** ** The end of a step *)

Lemma serving c V i s : tier_inv c V None s -> tier_inv c V (Some i) s.
Proof. intros [[Hb Hl] Hq]. split; [split; [done|]|done]. intros k t Ht _. by apply Hl. Qed.

Lemma core_gate c V x s b : core c V x s -> core c V x (set_processed b s).
Proof. intros [[Hp [R1 R2 R3 R4 R5 R6] Hcl] Hl]. split; [split; [done|by split|done]|done]. Qed.

Lemma zlen_views c V x s : core c V x s -> zlen V = zlen (secondary_tiers s).
Proof. intros [[_ Hr _] _]. unfold zlen. by rewrite (rg_tiers _ _ Hr). Qed.

(** Every tier serves its peers. *)
Lemma serve_all_spec c V s :
  tier_inv c V None s -> processed_jobs_this_step s = true -> zlen (all_reads c s) + zlen V * st_serves (T := T) < 2 ^ 31 ->
  wp (each_tier (fun i => s ← get; t ← of_option IndexError (secondary_tiers s !! Z.to_nat i); run_serve i (tier_serve_external_requests t)))
    (fun _ s' => exists V', tier_inv c V' None s' /\ served c (zlen V * st_serves (T := T)) s s') s.
Proof.
  intros Hi Hg Hz. pose proof (zlen_views _ _ _ _ (ti_core _ _ _ _ Hi)) as HV. pose proof (stl_serves (T := T)) as Hs0.
  eapply wp_mono; [apply (wp_each_tier (fun n s' => exists V', tier_inv c V' None s' /\ served c (Z.of_nat n * st_serves (T := T)) s s'))|].
  - exists V. split; [done|]. split_and!; try done. lia.
  - intros i s1 Hlt (V1 & I1 & S1). pose proof S1 as (G1 & Z1 & P1 & T1). apply wp_bind, wp_get, wp_bind. rewrite Nat2Z.id.
    assert (i < length V1)%nat as Hi1 by (rewrite <- (rg_tiers _ _ (bk_registry _ _ _ (co_books _ _ _ _ (ti_core _ _ _ _ I1)))); lia).
    destruct (tier_at _ _ _ _ i (ti_core _ _ _ _ I1) Hi1) as (t & v & Ht & Hv & Hok); [done|]. eapply wp_of_option; [exact Ht|].
    eapply wp_mono; [eapply (run_serve_spec c i _ (st_serves (T := T)) ∅ V1 v s1 (stl_serve t v Hok)); [by apply serving|done|done|by intros k ?%elem_of_empty|done|]|].
    + rewrite HV in Hz. assert (Z.of_nat i + 1 <= zlen (secondary_tiers s)) by (unfold zlen; lia). nia.
    + intros [] s2 (V2 & I2 & S2). exists V2. split; [done|]. eapply served_mono; [|by eapply served_trans]. lia.
  - intros [] s' (V' & I' & S'). exists V'. split; [done|]. by rewrite HV.
Qed.

Lemma schedule_end_spec c V s ctx :
  tier_inv c V None s -> zlen (all_reads c s) + zlen V * (st_serves (T := T) + zlen (parked_keys s)) < 2 ^ 31 ->
  wp (tiering_on_schedule_end ctx) (fun _ s' => exists V', tier_inv c V' None s' /\ pending_load_submissions s' = [] /\
    processed_jobs_this_step s' = false /\ parked_wait c s') s.
Proof.
  intros [Hc Hq] Hz. pose proof (zlen_views _ _ _ _ Hc) as HV. pose proof (stl_serves (T := T)) as Hs0. pose proof (zlen_nonneg V). pose proof (zlen_nonneg (parked_keys s)).
  unfold tiering_on_schedule_end. apply wp_bind. eapply wp_mono; [by apply (maybe_process_spec c V None)|].
  intros [] s1 (V1 & C1 & N1 & [Q1 R1 G1 Z1 T1] & _). change (req_state (set_processed true s)) with (req_state s) in R1.
  change (all_reads c (set_processed true s)) with (all_reads c s) in Z1. cbn in G1, T1.
  assert (tier_inv c V1 None s1) as I1 by (split; [done|]; eapply requests_views; [exact N1|]; by eapply requests_frame).
  assert (zlen V1 = zlen V) as HV1 by (unfold zlen; by rewrite (Forall2_length _ _ _ N1)).
  assert (parked_keys s1 = parked_keys s) as Hpk by (unfold parked_keys; by rewrite R1).
  apply wp_bind. eapply wp_mono; [apply (serve_all_spec c V1 s1 I1 G1); rewrite HV1; nia|]. intros [] s2 (V2 & I2 & G2 & Z2 & P2 & T2).
  apply wp_bind, wp_modify. set (s3 := set_processed false s2).
  assert (core c V2 None s3) as C3 by (apply core_gate, I2). assert (zlen V2 = zlen V) as HV2 by (rewrite (zlen_views _ _ _ _ C3), HV; unfold zlen; cbn; by rewrite T2, T1).
  apply wp_bind. eapply wp_mono; [by apply (flush_promotions_spec c V2 s3)|]. intros [] s4 (V4 & C4 & N4 & Q4 & R4 & G4 & Z4 & _ & T4 & _).
  assert (tier_inv c V4 None s4) as I4.
  { split; [done|]. eapply requests_views; [exact N4|]. eapply requests_frame; [|exact (ti_requests _ _ _ _ I2)]. by rewrite R4. }
  assert (zlen V4 = zlen V) as HV4 by (unfold zlen; rewrite <- (Forall2_length _ _ _ N4); exact HV2).
  assert (parked_keys s4 = parked_keys s2) as Hpk4 by (unfold parked_keys; by rewrite R4).
  change (all_reads c s3) with (all_reads c s2) in Z4.
  apply wp_bind. eapply wp_mono; [apply (flush_cascades_spec c V4 s4 I4)|].
  { rewrite HV4, Hpk4, Z4. rewrite HV1 in Z2. rewrite Hpk in P2. nia. }
  intros [] s5 (V5 & I5 & N5 & Q5 & G5 & W5 & _ & K5).
  eapply wp_mono; [apply (each_same_view c V5 None s5 _ (ti_core _ _ _ _ I5))|].
  - intros i s6 Hi6 C6. apply same_view_spec; [done|done|done|]. intros. by apply stl_schedule_end.
  - intros [] s6 [C6 (ts & -> & _)]. exists V5. split_and!; try done.
    + split; [done|]. by eapply requests_frame; [|exact (ti_requests _ _ _ _ I5)].
    + cbn. by rewrite Q5, Q4.
    + cbn. by rewrite G5, G4.
Qed.

End Serve.

(** * Resets of the tiering manager, specified

    [reset_cache] waits for every transfer of the tiers, so that no slot is in use
    when the primary tier is emptied; unfinished requests stay. *)

Definition no_client : Client := mkClient [] [] [].

Section Resets.
Context `{Env} {P T : Type} `{CachePolicySpec P} `{SecondaryTierLaws T}.
Local Abbreviation Tiers := (TieringOffloadingManager P T).
Implicit Types (s : Tiers) (c : Client) (V : list TierView).

Lemma drain_all_spec c V s :
  core c V None s ->
  wp (each_tier (fun i => on_tier i tier_drain_jobs)) (fun _ s' => core c V None s' /\ tiers_only s s' /\
    forall i t, secondary_tiers s' !! i = Some t -> st_drained t) s.
Proof.
  intros Hc. pose proof (rg_tiers _ _ (bk_registry _ _ _ (co_books _ _ _ _ Hc))) as Hlen.
  eapply wp_mono; [apply (wp_each_tier (fun n s' => core c V None s' /\ tiers_only s s' /\
    forall i t, (i < n)%nat -> secondary_tiers s' !! i = Some t -> st_drained t))|].
  - split_and!; [done|apply tiers_only_refl|intros; lia].
  - intros i s1 Hi (C1 & T1 & D1). destruct (tier_at c V None s1 i C1) as (t & v & Ht & Hv & Hok); [lia|done|].
    eapply wp_on_tier; [by rewrite Nat2Z.id|]. eapply wp_mono; [by apply (stl_drain t v)|]. intros [] t' [Hok' Hd]. rewrite Nat2Z.id.
    pose proof (lookup_lt_Some _ _ _ Ht) as Hlt.
    assert (tiers_only s1 (set_tiers (<[i := t']> (secondary_tiers s1)) s1)) as T2 by (eexists; split; [done|by rewrite length_insert]).
    destruct C1 as [B1 L1]. split_and!.
    + split; [by eapply books_tiers|]. rewrite <- (list_insert_id V i v Hv). eapply linked_insert; [exact L1|lia|done|done].
    + by eapply tiers_only_trans.
    + intros k u Hk Hu. cbn in Hu. destruct (decide (k = i)) as [->|Hne].
      * rewrite list_lookup_insert_eq in Hu by done. by injection Hu as <-.
      * rewrite list_lookup_insert_ne in Hu by done. apply (D1 k u); [lia|done].
  - intros [] s' (C' & T' & D'). split_and!; try done. intros i t Ht. apply (D' i t); [|done]. pose proof (lookup_lt_Some _ _ _ Ht) as Hlt.
    destruct T' as (ts & -> & Hl). cbn in Hlt. lia.
Qed.

(** Without jobs in the tiers there are none in the books. *)
Lemma drained_jobs V s : registry V s -> (forall i v, V !! i = Some v -> tv_jobs v = ∅) -> jobs s = [].
Proof.
  intros [R1 R2 R3 R4 R5 R6] He. destruct (jobs s) as [|[id m] js] eqn:Ej; [done|]. exfalso.
  assert (od_get id (jobs s) = Some m) as Hg by (apply od_elem_get; [by rewrite Ej|rewrite Ej; by left]). rewrite Ej in Hg.
  destruct (R2 id m) as (_ & _ & Hi & _); [done|]. destruct (lookup_lt_is_Some_2 V (Z.to_nat (tier_idx m))) as [v Hv]; [unfold zlen in Hi; lia|].
  assert (tv_jobs v !! id = Some (transfer_job m)) as Hj by (apply (R3 _ v Hv); rewrite Z2Nat.id by lia; rewrite Hg; by destruct m).
  rewrite (He _ v Hv) in Hj. done.
Qed.

Lemma idle_without_jobs V s : registry V s -> jobs s = [] -> forallb idle_counts (tier_states s) = true.
Proof.
  intros Hr Hj. rewrite (rg_counts _ _ Hr), Hj. apply forallb_forall. intros x Hx. apply list_elem_of_In, list_elem_of_fmap in Hx as (i & -> & _). done.
Qed.

(** The queue is dropped: the writes it had reserved have no owner until the
    primary tier is emptied. *)
Definition orphans (q : list (Z * list (string * PendingPromotion))) : list (OffloadKey * Z) :=
  queued_promotions q ≫= fun e => zip (pp_keys e.2) (pp_chunk_ids e.2).

Lemma orphans_ok V s : registry V s ->
  (orphans (pending_load_submissions s)).*1 = queued_keys (pending_load_submissions s) /\
  forall k id, (k, id) ∈ orphans (pending_load_submissions s) -> slot (primary_tier s) k = Some id.
Proof.
  intros Hr. pose proof (rg_queue _ _ Hr) as Hq. unfold orphans, queued_keys. revert Hq. generalize (queued_promotions (pending_load_submissions s)).
  intros l Hq. induction l as [|[i e] l IH]; [split; [done|by intros k id ?%elem_of_nil]|].
  destruct IH as [IH1 IH2]; [intros i' e' He'; apply Hq; by right|]. destruct (Hq i e) as [_ He]; [by left|]. cbn. split.
  - rewrite fmap_app, IH1, fst_zip; [done|]. by rewrite (Forall2_length _ _ _ He).
  - intros k id [Hin|Hin]%elem_of_app; [|by apply IH2]. by eapply Forall2_zip in Hin; [|exact He].
Qed.

Lemma drop_queue_core c V s : core c V None s -> exists c', core c' V None (set_pending_loads [] s).
Proof.
  intros [[Hp Hr Hcl] Hl]. destruct (orphans_ok V s Hr) as [Ho1 Ho2]. pose proof Hr as [R1 R2 R3 R4 R5 R6]. set (q := pending_load_submissions s) in *.
  exists (mkClient (cl_reserved c) (cl_loads c) ((""%string, orphans q) :: cl_stores c)). split; [|done]. split.
  - set (c' := mkClient _ _ _). change (all_reads c' (set_pending_loads [] s)) with (all_reads c s).
    assert (all_writes c' (set_pending_loads [] s) ≡ₚ all_writes c s) as ->; [|done].
    unfold all_writes, client_writes. cbn [c' cl_stores fmap list_fmap concat snd jobs pending_load_submissions set_pending_loads].
    rewrite fmap_app, Ho1. change (queued_keys []) with (@nil OffloadKey). fold q. rewrite app_nil_r. solve_Permutation.
  - split; try done. intros i e Hin. by apply elem_of_nil in Hin.
  - intros k id Hin. unfold client_slots in Hin. cbn in Hin. rewrite !elem_of_app in Hin. cbn.
    destruct Hin as [Hin|[Hin|Hin]]; [apply Hcl; unfold client_slots; rewrite elem_of_app; by left|by apply Ho2|apply Hcl; unfold client_slots; rewrite elem_of_app; by right].
Qed.

(** ** The requests at a reset *)

Definition reset_entry (r : RequestState) : RequestState := rs_set_parked [] (rs_set_stores 0 r).

(** The table when the requests of [pre] have been visited. *)
Definition visited (d : list (string * RequestState)) (pre : list string) (q : list (string * RequestState)) : Prop :=
  q.*1 = d.*1 /\ forall rid, od_get rid q = (if decide (rid ∈ pre) then reset_entry else id) <$> od_get rid d.

Lemma visit d pre rid r q : visited d pre q -> rid ∉ pre -> od_get rid d = Some r -> visited d (pre ++ [rid]) (od_set rid (reset_entry r) q).
Proof.
  intros [V1 V2] Hn Hg. split; [rewrite od_set_keys_in; [done|]; rewrite V1; by eapply od_get_key|].
  intros rid'. rewrite od_get_set. destruct (decide (rid' = rid)) as [->|Hne].
  - rewrite Hg, decide_True; [done|]. apply elem_of_app. right. by left.
  - rewrite V2. destruct (decide (rid' ∈ pre)), (decide (rid' ∈ pre ++ [rid])) as [Hin|Hout]; try done.
    + exfalso. apply Hout, elem_of_app. by left.
    + apply elem_of_app in Hin as [|Hin%list_elem_of_singleton]; done.
Qed.

Lemma reset_requests_spec c V s :
  core c V None s -> NoDup (req_state s).*1 ->
  wp (fold_m reset_request [] (req_state s).*1) (fun fin s' => core c V None s' /\ exists ts q, length ts = length (secondary_tiers s) /\
    s' = set_req_state q (set_tiers ts s) /\ visited (req_state s) (req_state s).*1 q /\
    forall rid, rid ∈ fin <-> exists r, od_get rid (req_state s) = Some r /\ rs_is_finished r = true) s.
Proof.
  intros Hc Hnd.
  eapply wp_mono; [apply (wp_fold_m (fun pre fin s' => core c V None s' /\ exists ts q, length ts = length (secondary_tiers s) /\
    s' = set_req_state q (set_tiers ts s) /\ visited (req_state s) pre q /\
    forall rid, rid ∈ fin <-> rid ∈ pre /\ exists r, od_get rid (req_state s) = Some r /\ rs_is_finished r = true))|].
  - split; [done|]. exists (secondary_tiers s), (req_state s). split_and!; [done|by destruct s| |].
    + split; [done|]. intros rid. rewrite decide_False by apply not_elem_of_nil. by destruct (od_get rid (req_state s)).
    + intros rid. split; [by intros ?%elem_of_nil|by intros [?%elem_of_nil _]].
  - intros pre rid post fin s1 Hs (C1 & ts & q & Hl & -> & Hv & Hf). set (s1 := set_req_state q _).
    assert (rid ∉ pre) as Hpre. { rewrite Hs in Hnd. apply NoDup_app in Hnd as (_ & Hd & _). intros Hin. apply (Hd rid Hin). by left. }
    assert (rid ∈ (req_state s).*1) as Hin by (rewrite Hs; apply elem_of_app; right; by left).
    destruct (od_get rid (req_state s)) as [r|] eqn:Hg; [|by apply od_get_None in Hg].
    assert (od_get rid (req_state s1) = Some r) as Hg1 by (cbn; rewrite (proj2 Hv), decide_False, Hg; done).
    unfold reset_request, modify_request_state, request_state. apply wp_bind, wp_bind, wp_bind, wp_get. eapply wp_of_option; [exact Hg1|]. apply wp_modify.
    fold (reset_entry r). set (s2 := set_req_state _ s1). assert (core c V None s2) as C2 by by apply core_requests.
    assert (visited (req_state s) (pre ++ [rid]) (req_state s2)) as Hv2 by by apply visit.
    apply wp_bind, wp_bind, wp_get. eapply wp_of_option; [cbn [s2 req_state set_req_state]; rewrite od_get_set; by rewrite decide_True|].
    change (rs_is_finished (reset_entry r)) with (rs_is_finished r). destruct (rs_is_finished r) eqn:Efin; cbn [negb].
    + apply wp_bind. eapply wp_mono; [apply (each_same_view c V None s2 _ C2)|].
      * intros i s3 Hi C3. apply same_view_spec; [done|done|done|]. intros. by apply stl_request_finished.
      * intros [] s3 [C3 (ts3 & -> & Hl3)]. apply wp_ret. split; [done|]. exists ts3, (req_state s2). split_and!; [by rewrite Hl3|done|done|].
        intros rid'. rewrite !elem_of_app, !list_elem_of_singleton, Hf. split.
        -- intros [[? ?]| ->]; [by split; [left|]|]. split; [by right|]. by exists r.
        -- intros [[?| ->] ?]; [by left|by right].
    + apply wp_ret. split; [done|]. exists ts, (req_state s2). split_and!; [done|done|done|].
      intros rid'. rewrite elem_of_app, list_elem_of_singleton, Hf. split; [intros [? ?]; split; [by left|done]|].
      intros [[?| ->] (r' & Hr' & Hfin')]; [by split; [|exists r']|]. congruence.
  - intros fin s' (C' & ts & q & Hl & -> & Hv & Hf). split; [done|]. exists ts, q. split_and!; try done.
    intros rid. rewrite Hf. split; [by intros [_ ?]|]. intros (r & Hr & Hfin). split; [by eapply od_get_key|]. by exists r.
Qed.

(** Dropping the finished requests. *)
Lemma drop_requests_spec l s : NoDup (req_state s).*1 ->
  wp (for_each l (fun rid => modify (fun s => set_req_state (od_pop rid (req_state s)) s))) (fun _ s' => exists q, s' = set_req_state q s /\
    NoDup q.*1 /\ forall rid, od_get rid q = if decide (rid ∈ l) then None else od_get rid (req_state s)) s.
Proof.
  intros Hnd. eapply wp_mono; [apply (wp_for_each (fun pre s' => exists q, s' = set_req_state q s /\ NoDup q.*1 /\
    forall rid, od_get rid q = if decide (rid ∈ pre) then None else od_get rid (req_state s)))|done].
  - exists (req_state s). split_and!; [by destruct s|done|]. intros rid. by rewrite decide_False by apply not_elem_of_nil.
  - intros pre rid post s1 -> (q & -> & Hq & Ho). apply wp_modify. exists (od_pop rid q). split_and!; [done|by apply od_pop_NoDup|].
    intros rid'. rewrite od_get_pop by done. destruct (decide (rid' = rid)) as [->|Hne].
    + rewrite decide_True; [done|]. apply elem_of_app. right. by left.
    + rewrite Ho. destruct (decide (rid' ∈ pre)), (decide (rid' ∈ pre ++ [rid])) as [Hin|Hout]; try done.
      * exfalso. apply Hout, elem_of_app. by left.
      * apply elem_of_app in Hin as [|Hin%list_elem_of_singleton]; done.
Qed.

(** The table after a reset. *)
Definition reset_table (d : list (string * RequestState)) (q : list (string * RequestState)) : Prop :=
  forall rid, od_get rid q = match od_get rid d with Some r => if rs_is_finished r then None else Some (reset_entry r) | None => None end.

Lemma reset_requests_ok c V s s' : requests_ok c V s -> NoDup (req_state s').*1 -> reset_table (req_state s) (req_state s') -> requests_ok no_client V s'.
Proof.
  intros [Q1 Q2 Q3 Q4 Q5] Hnd Ht. split; try done.
  - intros rid r'. rewrite Ht. destruct (od_get rid (req_state s)) as [r|] eqn:Hg; [|done]. destruct (rs_is_finished r) eqn:Hf; [done|]. intros [= <-].
    destruct (Q2 rid r Hg) as [A1 A2 A3 A4 A5]. split; try done. intros i v Hv Hown. by destruct (A5 i v Hv Hown) as (? & _).
  - intros rid ks Hin. by apply elem_of_nil in Hin.
  - intros i v rid Hv Hin. destruct (Q4 i v rid Hv Hin) as [Hown [r Hg]]. split; [done|]. rewrite Ht, Hg.
    destruct (ro_remote _ _ _ _ (Q2 rid r Hg) i v Hv Hown) as (_ & _ & ->). by eexists.
Qed.

Lemma tiering_reset_spec c V s :
  tier_inv c V None s ->
  wp tiering_reset_cache (fun _ s' => exists V', tier_inv no_client V' None s' /\ Forall2 same_names V V' /\ jobs s' = [] /\ pending_load_submissions s' = [] /\
    pol_map (policy (primary_tier s')) = ∅ /\ processed_jobs_this_step s' = false /\ reset_table (req_state s) (req_state s')) s.
Proof.
  intros [Hc Hq]. pose proof (rq_nodup _ _ _ Hq) as Hnd. unfold tiering_reset_cache. apply wp_bind. eapply wp_mono; [by apply (drain_all_spec c V)|].
  intros [] s1 (C1 & (ts1 & -> & Hl1) & D1). set (s1 := set_tiers ts1 s) in *.
  apply wp_bind. eapply wp_mono; [by apply (poll_all_spec c V s1)|]. intros [] s2 (V2 & C2 & N2 & [_ R2 _ _ T2] & J2).
  change (req_state s1) with (req_state s) in R2. specialize (J2 D1). pose proof (bk_registry _ _ _ (co_books _ _ _ _ C2)) as Hr2.
  pose proof (drained_jobs V2 s2 Hr2 J2) as Hj2. apply wp_bind, wp_get, wp_bind, wp_assert; [by apply bool_decide_eq_true|].
  apply wp_bind, wp_modify. set (s3 := set_pending_loads [] s2). destruct (drop_queue_core c V2 s2 C2) as [c3 C3].
  apply wp_bind, wp_assert; [by apply (idle_without_jobs V2)|].
  apply wp_bind. eapply wp_mono; [apply (reset_requests_spec c3 V2 s3 C3); cbn; by rewrite R2|].
  intros fin s4 (C4 & ts & q & Hl & -> & [Hk Hv] & Hf). cbn [req_state set_pending_loads s3] in Hk, Hv, Hf. rewrite R2 in Hk, Hv, Hf. set (s4 := set_req_state q _) in *.
  apply wp_bind, wp_on_primary. eapply wp_mono; [by apply (reset_spec _ (all_reads c3 s4) (all_writes c3 s4)), C4|]. intros [] p (P5 & S5 & _).
  set (s5 := set_primary p s4). apply wp_bind. eapply wp_mono; [apply (drop_requests_spec fin s5); change (req_state s5) with q; by rewrite Hk|].
  intros [] s6 (q6 & -> & Hq6 & Ho6). apply wp_modify. exists V2.
  assert (reset_table (req_state s) q6) as Htab.
  { intros rid. rewrite Ho6. change (req_state s5) with q. rewrite Hv. destruct (od_get rid (req_state s)) as [r|] eqn:Hg; cbn; [|by destruct (decide _)].
    destruct (rs_is_finished r) eqn:Hfin.
    - rewrite decide_True; [done|]. apply Hf. by exists r.
    - rewrite decide_False; [|rewrite Hf; intros (r' & Hr' & Hfin'); congruence]. by rewrite decide_True by by eapply od_get_key. }
  split_and!; try done. split; [|by eapply (reset_requests_ok c V2 s); [eapply requests_views|..]].
  assert (jobs s4 = []) as Hj4 by exact Hj2. destruct C4 as [[_ [A1 A2 A3 A4 A5 A6] _] L4]. split; [|done]. split.
  - unfold all_reads, all_writes. cbn -[reads writes queued_keys]. by rewrite Hj2.
  - split; try done; [intros id m; cbn; by rewrite Hj2|]. intros i e Hin. by apply elem_of_nil in Hin.
  - intros k id Hin. by apply elem_of_nil in Hin.
Qed.

End Resets.
