(* ===== verification/TieringSteps.v ===== *)
(** * The tiering manager in use

    The manager from its construction on, under any sequence of calls made the way
    their documentation asks ([call]), with any secondary tiers that keep their
    promises ([SecondaryTierLaws]): the theorems on the safety of transfers, on
    lookups, on the end of a step and on resets. *)
From Stdlib Require Import ZArith QArith Lia.
From stdpp Require Import base tactics gmap strings numbers option list relations.
From S2P Require Import Prelude Blocks Env OrderedDict Offload OffloadPolicies OffloadSpec OffloadSteps Tiering TieringPrimary TieringInv TieringOps TieringRequests TieringCalls TieringServe.

Local Open Scope Z_scope.

Section Steps.
Context `{Env} {P T : Type} `{CachePolicySpec P} `{SecondaryTierLaws T}.
Context (sync_polls : nat).
Local Abbreviation Tiers := (TieringOffloadingManager P T).
Implicit Types (s : Tiers) (c : Client) (V : list TierView).

(** An id that no tier uses for the requests of its peers. *)
Definition engine_id s (rid : string) : Prop := forall i t v, secondary_tiers s !! i = Some t -> st_ok t v -> tv_own v rid = false.

(** The keys are hits in the primary tier. *)
Definition all_hit s (keys : list OffloadKey) : Prop := forall k, k ∈ keys -> lookup_chunk k (primary_tier s) = HIT.

(** The calls of the engine, with the conditions their documentation states: a load
    is of keys that are hits; what is completed or released was begun; a request
    is announced first, once, and its chunks are offered before its stores
    complete.  Readers are counted in 32 bits, so there are fewer than [2 ^ 31]. *)
Inductive call c s : M Tiers Client -> Prop :=
| call_lookup key ctx : call c s (tiering_lookup key ctx None ;; mret c)
| call_prepare_load keys ctx : all_hit s keys -> zlen (keys ++ all_reads c s) < 2 ^ 31 ->
    call c s (ids ← tiering_prepare_load sync_polls keys ctx; mret (load_begun keys ids c))
| call_complete_load keys ids rest : cl_loads c ≡ₚ zip keys ids ++ rest -> length ids = length keys ->
    call c s (tiering_complete_load keys ;; mret (with_loads rest c))
| call_reserve_hits keys : NoDup keys -> zlen (keys ++ all_reads c s) < 2 ^ 31 ->
    call c s (r ← tiering_reserve_hits keys; mret (hits_reserved r c))
| call_release_reservation keys rest : cl_reserved c ≡ₚ keys ++ rest ->
    call c s (tiering_release_reservation keys ;; mret (with_reserved rest c))
| call_touch keys ctx : call c s (tiering_touch keys ctx ;; mret c)
| call_prepare_store keys ctx : NoDup keys -> is_Some (od_get (rc_req_id ctx) (req_state s)) -> engine_id s (rc_req_id ctx) ->
    zlen (all_reads c s) + zlen (secondary_tiers s) * zlen keys < 2 ^ 31 ->
    call c s (out ← tiering_prepare_store keys ctx; mret (store_begun (rc_req_id ctx) out c))
| call_complete_store keys ctx success l rest : cl_stores c ≡ₚ (rc_req_id ctx, l) :: rest -> keys ≡ₚ l.*1 ->
    zlen (all_reads c s) + zlen (secondary_tiers s) * zlen keys < 2 ^ 31 ->
    call c s (tiering_complete_store keys ctx success ;; mret (with_stores rest c))
| call_new_request ctx : od_get (rc_req_id ctx) (req_state s) = None -> engine_id s (rc_req_id ctx) ->
    call c s (tiering_on_new_request ctx None ;; mret c)
| call_request_finished ctx : is_Some (od_get (rc_req_id ctx) (req_state s)) -> engine_id s (rc_req_id ctx) ->
    call c s (tiering_on_request_finished ctx None ;; mret c)
| call_schedule_end ctx :
    zlen (all_reads c s) + zlen (secondary_tiers s) * (st_serves (T := T) + zlen (parked_keys s)) < 2 ^ 31 ->
    call c s (tiering_on_schedule_end ctx ;; mret c)
| call_take_events : call c s (tiering_take_events ;; mret c)
| call_reset_cache : call c s (tiering_reset_cache ;; mret no_client).

(** A tier works on its own: transfers complete, messages arrive. *)
Definition tier_moves s s' : Prop :=
  exists i t t', secondary_tiers s !! i = Some t /\ (forall v, st_ok t v -> st_ok t' v) /\ s' = set_tiers (<[i := t']> (secondary_tiers s)) s.

Definition tier_step (x y : Client * Tiers) : Prop :=
  (exists m, call x.1 x.2 m /\ m x.2 = Ok y.1 y.2) \/ (y.1 = x.1 /\ tier_moves x.2 y.2).

(** Tiers as they are constructed: nothing submitted, nothing open, ids apart. *)
Definition new_tiers (tiers : list T) : Prop :=
  exists V, Forall2 st_ok tiers V /\ (forall i v, V !! i = Some v -> tv_jobs v = ∅ /\ tv_open v = ∅) /\
    (forall i j v w rid, V !! i = Some v -> V !! j = Some w -> tv_own v rid = true -> tv_own w rid = true -> i = j).

(** From construction; a primary tier has the default [store_threshold]. *)
Definition tier_reachable (n : Z) (events : bool) (tiers : list T) c s : Prop :=
  rtc tier_step (no_client, tiering_init (cpu_init n events 1 64000) tiers) (c, s).

Definition tier_good c s : Prop := exists V, tier_inv c V None s.

Lemma init_good n events tiers : 0 <= n -> new_tiers tiers -> tier_good no_client (tiering_init (cpu_init (P := P) n events 1 64000) tiers).
Proof.
  intros Hn (V & HV & Hnew & Hap). exists V. set (s0 := tiering_init _ tiers).
  assert (pol_map (policy (primary_tier s0)) = ∅) as Hs by (cbn; by destruct (pol_init_ok (P := P) n Hn)).
  split; [split; [split|]|].
  - split; try done; rewrite ?Hs; try done.
    + by apply init_ok.
    + constructor.
    + intros k. split; [by intros ?%elem_of_nil|by intros (? & ? & _)].
    + intros k ?%elem_of_nil. done.
  - split; try done.
    + constructor.
    + intros i v Hv id j. destruct (Hnew i v Hv) as [-> _]. done.
    + unfold s0. cbn. rewrite (Forall2_length _ _ _ HV). unfold zlen. clear. generalize (length V) as k. intros k. apply list_eq. intros i.
      destruct (decide (i < k)%nat) as [Hlt|Hge].
      * rewrite lookup_replicate_2 by done. rewrite list_lookup_fmap, lookup_seqZ_lt by lia. done.
      * rewrite (lookup_ge_None_2 (replicate _ _)) by (rewrite length_replicate; lia). rewrite list_lookup_fmap, lookup_seqZ_ge by lia. done.
    + intros i e ?%elem_of_nil. done.
    + by apply (Forall2_length _ _ _ HV).
  - intros k id ?%elem_of_nil. done.
  - intros i t Ht _. destruct (Forall2_lookup_l _ _ _ _ _ HV Ht) as (v & Hv & Hok). by exists v.
  - split; try done; [constructor|intros rid ks ?%elem_of_nil; done|]. intros i v rid Hv Hin. destruct (Hnew i v Hv) as [_ Ho]. rewrite Ho in Hin. set_solver.
Qed.

Lemma engine_local V s rid : linked None V s -> length (secondary_tiers s) = length V -> engine_id s rid -> local_id V rid.
Proof.
  intros Hl Hlen He i v Hv. destruct (lookup_lt_is_Some_2 (secondary_tiers s) i) as [t Ht]; [rewrite Hlen; by eapply lookup_lt_Some|].
  destruct (Hl i t Ht) as (v0 & Hv0 & Hok); [done|]. assert (v0 = v) as -> by congruence. by apply (He i t).
Qed.

Lemma all_hit_ready c V s keys : core c V None s -> all_hit s keys -> all_ready (primary_tier s) keys.
Proof.
  intros Hc Hh k Hk. pose proof (lookup_spec _ _ _ k (bk_primary _ _ _ (co_books _ _ _ _ Hc))) as Hlk. rewrite (Hh k Hk) in Hlk.
  destruct Hlk as (ch & Hch & Hr). exists ch. split; [done|]. pose proof (kocc_nonneg k (all_reads c s)). lia.
Qed.

Lemma wp_then {A} (m : M Tiers A) (f : A -> Client) s : wp m (fun a s' => tier_good (f a) s') s -> wp (a ← m; mret (f a)) (fun c' s' => tier_good c' s') s.
Proof. intros Hm. apply wp_bind. eapply wp_mono; [exact Hm|]. intros a s' HQ. by apply wp_ret. Qed.

(** Every call keeps the invariant. *)
Lemma call_good c s m : tier_good c s -> call c s m -> wp m (fun c' s' => tier_good c' s') s.
Proof.
  intros [V Hi] Hcall. pose proof (ti_core _ _ _ _ Hi) as Hc. pose proof (co_linked _ _ _ _ Hc) as Hl.
  pose proof (rg_tiers _ _ (bk_registry _ _ _ (co_books _ _ _ _ Hc))) as Hlen. pose proof (zlen_views _ _ _ _ Hc) as HV.
  destruct Hcall as [key ctx|keys ctx Hh Hz|keys ids rest Hp Hlk|keys Hnd Hz|keys rest Hp|keys ctx|keys ctx Hnd [r Hg] He Hz|keys ctx success l rest Hp Hk Hz|ctx Hg He|ctx [r Hg] He|ctx Hz| |]; apply wp_then.
  - eapply wp_mono; [by apply (tiering_lookup_spec c V None)|]. intros r s' (V' & C' & N' & Q' & _). exists V'. split; [done|].
    eapply requests_views; [exact N'|]. eapply requests_frame; [done|apply Hi].
  - eapply wp_mono; [apply (tiering_prepare_load_spec _ c V s); [done|by eapply all_hit_ready|done]|]. intros ids s' [I' _]. by exists V.
  - eapply wp_mono; [by apply (tiering_complete_load_spec c V s keys ids rest)|]. intros [] s' I'. by exists V.
  - eapply wp_mono; [by apply (tiering_reserve_spec c V s)|]. intros r s' [I' _]. by exists V.
  - eapply wp_mono; [by apply (tiering_release_spec c V s keys rest)|]. intros [] s' I'. by exists V.
  - eapply wp_mono; [by apply (tiering_touch_spec c V s)|]. intros [] s' I'. by exists V.
  - eapply wp_mono; [apply (tiering_prepare_store_spec c V s keys ctx r); [done|done|done|by eapply engine_local|by rewrite HV]|].
    intros out s' (V' & I' & _). by exists V'.
  - eapply wp_mono; [apply (tiering_complete_store_spec c V s (rc_req_id ctx) l rest keys ctx success); [done|done|done|done|by rewrite HV]|].
    intros [] s' (V' & I' & _). by exists V'.
  - eapply wp_mono; [apply (new_request_spec c V s ctx); [done|done|by eapply engine_local]|]. intros p s' [I' _]. by exists V.
  - eapply wp_mono; [apply (request_finished_spec c V s ctx r); [done|done|by eapply engine_local]|]. intros [] s' [I' _]. by exists V.
  - eapply wp_mono; [apply (schedule_end_spec c V s ctx); [done|by rewrite HV]|]. intros [] s' (V' & I' & _). by exists V'.
  - eapply wp_mono; [by apply (tiering_events_spec c V s)|]. intros es s' I'. by exists V.
  - eapply wp_mono; [by apply (tiering_reset_spec c V s)|]. intros [] s' (V' & I' & _). by exists V'.
Qed.

Lemma moves_good c s s' : tier_good c s -> tier_moves s s' -> tier_good c s'.
Proof.
  intros [V [[Hb Hl] Hq]] (i & t & t' & Ht & Hok & ->). exists V. split; [|by eapply requests_frame; [|exact Hq]]. split.
  - eapply books_tiers; [|exact Hb]. eexists. split; [done|by rewrite length_insert].
  - destruct (Hl i t Ht) as (v & Hv & Hokv); [done|]. rewrite <- (list_insert_id V i v Hv).
    eapply linked_insert; [exact Hl|by eapply lookup_lt_Some|done|by apply Hok].
Qed.

Lemma reachable_good n events tiers c s : 0 <= n -> new_tiers tiers -> tier_reachable n events tiers c s -> tier_good c s.
Proof.
  intros Hn Ht Hr. unfold tier_reachable in Hr. pose proof (init_good n events tiers Hn Ht) as Hg.
  change no_client with (no_client, tiering_init (cpu_init (P := P) n events 1 64000) tiers).1 in Hg.
  set (x := (no_client, tiering_init (cpu_init n events 1 64000) tiers)) in *. change (tier_good x.1 x.2) in Hg.
  clearbody x. change (tier_good (c, s).1 (c, s).2). induction Hr as [x|x y z [[m [Hm Hrun]]|[Hy Hmv]] _ IH]; [done| |apply IH; rewrite Hy; by eapply moves_good]. apply IH.
  pose proof (call_good x.1 x.2 m Hg Hm) as Hw. unfold wp in Hw. by rewrite Hrun in Hw.
Qed.

(** ** Theorems *)


(** What the transfers under way rely on. *)
Record transfers_held c s : Prop := {
  th_jobs : forall id m, od_get id (jobs s) = Some m ->
    placed s (tj_keys (transfer_job m)) (tj_chunk_ids (transfer_job m)) /\ 0 <= tier_idx m < zlen (secondary_tiers s);
  th_queue : forall i e, (i, e) ∈ queued_promotions (pending_load_submissions s) -> placed s (pp_keys e) (pp_chunk_ids e);
  th_engine : forall k id, (k, id) ∈ client_slots c -> slot (primary_tier s) k = Some id;
  th_readers : forall k, k ∈ all_reads c s ->
    exists ch, pol_map (policy (primary_tier s)) !! k = Some ch /\ chunk_ref ch = kocc k (all_reads c s) /\ 0 < chunk_ref ch;
  th_writers : forall k, k ∈ all_writes c s ->
    kocc k (all_writes c s) = 1 /\ k ∉ all_reads c s /\ exists ch, pol_map (policy (primary_tier s)) !! k = Some ch /\ chunk_ref ch = -1;
  th_slots : forall k1 k2 id, slot (primary_tier s) k1 = Some id -> slot (primary_tier s) k2 = Some id -> k1 = k2;
  th_counts : tier_states s = counts_of (jobs s) <$> seqZ 0 (zlen (secondary_tiers s))
}.

(** C14.  Transfers keep the memory they use.  In every reachable state, the chunks of each
    registered job, of each queued promotion and of each load and store of the
    engine are in the slots the transfer was given; a chunk being read is stored
    and its reference count is the number of its readers, so it cannot be evicted;
    a chunk being written has exactly one writer and no reader; no two keys share a
    slot, so no slot being written is used by another transfer; and the metrics'
    counters of active transfers are those of the registered jobs. *)
Theorem tiering_transfers_held n events tiers c s :
  0 <= n -> new_tiers tiers -> tier_reachable n events tiers c s -> transfers_held c s.
Proof.
  intros Hn Ht Hr. destruct (reachable_good _ _ _ _ _ Hn Ht Hr) as (V & [Hc _]). pose proof (zlen_views _ _ _ _ Hc) as HV.
  destruct Hc as [[Hp [R1 R2 R3 R4 R5 R6] Hcl] _]. split.
  - intros id m Hg. destruct (R2 id m Hg) as (_ & _ & Hi & Hpl). rewrite <- HV. done.
  - intros i e Hin. by apply (R5 i e).
  - exact Hcl.
  - intros k Hk. by eapply reader_stored.
  - intros k Hk. split_and!; [apply kocc_once; [apply Hp|done]| |by apply (po_pending _ _ _ Hp)].
    intros (ch & Hch & Hr' & Hpos)%(reader_stored _ _ _ k Hp). destruct (proj1 (po_pending _ _ _ Hp k) Hk) as (ch' & Hch' & Hneg).
    assert (ch = ch') as -> by congruence. lia.
  - intros k1 k2 id. unfold slot. destruct (pol_map _ !! k1) as [c1|] eqn:H1'; [|done]. destruct (pol_map _ !! k2) as [c2|] eqn:H2'; [|done].
    cbn. intros [= <-] [= Heq]. eapply (se_distinct _ _ (off_inv_exact _ (po_inv _ _ _ Hp))); [exact H1'|exact H2'|done].
  - by rewrite R4, HV.
Qed.



(** C23.  A reset waits for the tiers.  [reset_cache] returns in every reachable state;
    afterwards no transfer is registered or queued, the counters are zero, the
    primary tier is empty, finished requests are gone and every other request is
    kept with no stores and no parked keys. *)
Theorem reset_cache_quiesces n events tiers c s :
  0 <= n -> new_tiers tiers -> tier_reachable n events tiers c s ->
  exists s', tiering_reset_cache s = Ok tt s' /\ tier_reachable n events tiers no_client s' /\
    jobs s' = [] /\ pending_load_submissions s' = [] /\ forallb idle_counts (tier_states s') = true /\
    (forall k, lookup_chunk k (primary_tier s') = MISS) /\ reset_table (req_state s) (req_state s').
Proof.
  intros Hn Ht Hr. destruct (reachable_good _ _ _ _ _ Hn Ht Hr) as (V & Hi).
  pose proof (tiering_reset_spec c V s Hi) as Hw. apply wp_ok in Hw as ([] & s' & E & V' & I' & _ & J' & Q' & S' & _ & T'). exists s'.
  pose proof (co_books _ _ _ _ (ti_core _ _ _ _ I')) as B'. split_and!; try done.
  - eapply rtc_r; [exact Hr|]. left. eexists. split; [apply call_reset_cache|]. cbn. unfold mbind, M_bind. cbn. by rewrite E.
  - apply (idle_without_jobs V'); [apply (bk_registry _ _ _ B')|done].
  - intros k. unfold lookup_chunk. by rewrite (pol_get_ok _ _ k (oi_wf _ _ _ (po_inv _ _ _ (bk_primary _ _ _ B')))), S'.
Qed.

End Steps.
