(* ===== verification/TieringExample.v ===== *)
(** * A secondary tier in memory

    [ExampleSecondaryTierManager] (vllm/v1/kv_offload/tiering/example/manager.py),
    the reference for new tiers, with the methods it inherits from
    [SecondaryTierManager]; and that it keeps the promises of TieringInv.v. *)
From Stdlib Require Import ZArith QArith Lia.
From stdpp Require Import base tactics gmap strings numbers option list relations.
From S2P Require Import Prelude Blocks Env OrderedDict Offload OffloadPolicies OffloadSpec OffloadSteps Tiering TieringPrimary TieringInv TieringOps TieringRequests TieringCalls TieringServe TieringSteps.

Local Open Scope Z_scope.

(** [self.chunks]: only presence matters. *)
Record ExampleSecondaryTierManager := mkExampleTier {
  ex_chunks : gset OffloadKey;
  completed_jobs : list JobResult
}.

Definition example_init : ExampleSecondaryTierManager := mkExampleTier ∅ [].

Definition complete_job (id : Z) (success : bool) : M ExampleSecondaryTierManager unit :=
  modify (fun t => mkExampleTier (ex_chunks t) (completed_jobs t ++ [mkJobResult id success None])).

Definition example_lookup (key : OffloadKey) (ctx : ReqContext) : M ExampleSecondaryTierManager LookupResult :=
  t ← get; mret (if bool_decide (key ∈ ex_chunks t) then HIT else MISS).

Definition example_submit_store (j : TransferJob) : M ExampleSecondaryTierManager unit :=
  assert_ (zlen (tj_keys j) =? zlen (tj_chunk_ids j)) ;;
  for_each (tj_keys j) (fun key => modify (fun t => mkExampleTier ({[key]} ∪ ex_chunks t) (completed_jobs t))) ;;
  complete_job (tj_job_id j) true.

(** The loop of [submit_load]: whether it returned early. *)
Fixpoint missing_chunk (keys : list OffloadKey) (chunks : gset OffloadKey) : bool :=
  match keys with
  | [] => false
  | key :: rest => if bool_decide (key ∈ chunks) then missing_chunk rest chunks else true
  end.
Definition example_submit_load (j : TransferJob) : M ExampleSecondaryTierManager unit :=
  assert_ (zlen (tj_keys j) =? zlen (tj_chunk_ids j)) ;;
  t ← get;
  if missing_chunk (tj_keys j) (ex_chunks t) then complete_job (tj_job_id j) false else complete_job (tj_job_id j) true.

Definition example_get_finished_jobs : M ExampleSecondaryTierManager (list JobResult) :=
  t ← get; modify (fun t => mkExampleTier (ex_chunks t) []) ;; mret (completed_jobs t).

Definition get_num_chunks (t : ExampleSecondaryTierManager) : Z := Z.of_nat (size (ex_chunks t)).

(** What it does not override does nothing. *)
#[global] Instance ExampleTier_methods : SecondaryTier ExampleSecondaryTierManager := {
  tier_medium := fun _ => Some MediumCPU;
  tier_locality := fun _ => None;
  tier_lookup := example_lookup;
  tier_submit_store := example_submit_store;
  tier_submit_load := example_submit_load;
  tier_get_finished_jobs := example_get_finished_jobs;
  tier_has_pending_work := fun _ => false;
  tier_take_events := mret [];
  tier_touch := fun _ _ => mret tt;
  tier_on_new_request := fun _ => mret CHUNK_LEVEL;
  tier_on_request_finished := fun _ => mret tt;
  tier_serve_external_requests := fun t => ServeReturn t;
  tier_on_schedule_end := fun _ => mret tt;
  tier_drain_jobs := mret tt
}.

(** ** It keeps its promises *)

(** Every submitted job is complete and waits to be reported. *)
Record example_ok (t : ExampleSecondaryTierManager) (v : TierView) : Prop := {
  ek_nodup : NoDup (jr_job_id <$> completed_jobs t);
  ek_jobs : forall id, is_Some (tv_jobs v !! id) <-> id ∈ jr_job_id <$> completed_jobs t;
  ek_whole : forall r, r ∈ completed_jobs t -> successful_keys r = None;
  ek_closed : tv_open v = ∅;
  ek_none : forall rid, tv_own v rid = false
}.

Lemma example_complete_ok t v j b : example_ok t v -> tv_jobs v !! tj_job_id j = None ->
  wp (complete_job (tj_job_id j) b) (fun _ t' => example_ok t' (view_add j v)) t.
Proof.
  intros [E1 E2 E3 E4 E5] Hj. apply wp_modify. split; cbn; try done; rewrite ?fmap_app; cbn.
  - apply NoDup_app. split_and!; [done| |apply NoDup_singleton]. intros id Hid ->%list_elem_of_singleton. apply E2 in Hid as [x Hx]. congruence.
  - intros id. rewrite elem_of_app, list_elem_of_singleton, <- E2. destruct (decide (id = tj_job_id j)) as [->|Hne].
    + rewrite lookup_insert_eq. split; [by right|by eexists].
    + rewrite lookup_insert_ne by done. split; [by left|]. by intros [?|?].
  - intros r [Hr| ->%list_elem_of_singleton]%elem_of_app; [by apply E3|done].
Qed.

(** The chunks matter to lookups only. *)
Lemma example_chunks_ok t v ks : example_ok t v -> example_ok (mkExampleTier ks (completed_jobs t)) v.
Proof. by intros [E1 E2 E3 E4 E5]. Qed.

Lemma example_store_ok t v j : example_ok t v -> job_shape j -> tv_jobs v !! tj_job_id j = None ->
  wp (example_submit_store j) (fun _ t' => example_ok t' (view_add j v)) t.
Proof.
  intros Hok Hs Hj. unfold example_submit_store. apply wp_bind, wp_assert; [apply Z.eqb_eq; unfold job_shape, zlen in *; lia|].
  apply wp_bind. eapply wp_mono; [apply (wp_for_each (fun _ t' => example_ok t' v)); [done|]|].
  - intros pre k post t' _ Hok'. apply wp_modify. by apply example_chunks_ok.
  - intros [] t' Hok'. by apply example_complete_ok.
Qed.

Lemma example_load_ok t v j : example_ok t v -> job_shape j -> tv_jobs v !! tj_job_id j = None ->
  wp (example_submit_load j) (fun _ t' => example_ok t' (view_add j v)) t.
Proof.
  intros Hok Hs Hj. unfold example_submit_load. apply wp_bind, wp_assert; [apply Z.eqb_eq; unfold job_shape, zlen in *; lia|].
  apply wp_bind, wp_get. destruct (missing_chunk _ _); by apply example_complete_ok.
Qed.

(** The jobs of a view after some are reported. *)
Lemma view_removed_jobs rs : forall v id,
  tv_jobs (foldl (fun v r => view_remove (jr_job_id r) v) v rs) !! id = if decide (id ∈ jr_job_id <$> rs) then None else tv_jobs v !! id.
Proof.
  induction rs as [|r rs IH]; intros v id; [by rewrite decide_False by apply not_elem_of_nil|]. cbn [foldl fmap list_fmap]. rewrite IH. cbn.
  destruct (decide (id ∈ jr_job_id <$> rs)) as [Hin|Hout]; [by rewrite decide_True by by right|].
  destruct (decide (id = jr_job_id r)) as [->|Hne].
  - rewrite lookup_delete_eq, decide_True; [done|by left].
  - rewrite lookup_delete_ne, decide_False; [done| |done]. by intros [|]%elem_of_cons.
Qed.
Lemma view_removed_names rs : forall v, same_names v (foldl (fun v r => view_remove (jr_job_id r) v) v rs).
Proof. induction rs as [|r rs IH]; intros v; [done|]. exact (IH (view_remove (jr_job_id r) v)). Qed.

Lemma example_finished_ok t v : example_ok t v ->
  wp example_get_finished_jobs (fun rs t' => NoDup (jr_job_id <$> rs) /\
      (forall r, r ∈ rs -> exists j, tv_jobs v !! jr_job_id r = Some j /\ result_ok j r) /\
      example_ok t' (foldl (fun v r => view_remove (jr_job_id r) v) v rs) /\
      (True -> tv_jobs (foldl (fun v r => view_remove (jr_job_id r) v) v rs) = ∅)) t.
Proof.
  intros [E1 E2 E3 E4 E5]. unfold example_get_finished_jobs. apply wp_bind, wp_get, wp_bind, wp_modify, wp_ret.
  assert (forall id, tv_jobs (foldl (fun v r => view_remove (jr_job_id r) v) v (completed_jobs t)) !! id = None) as Hnone.
  { intros id. rewrite view_removed_jobs. destruct (decide _) as [|Hout]; [done|]. rewrite <- E2 in Hout. destruct (tv_jobs v !! id); [|done].
    exfalso. apply Hout. by eexists. }
  destruct (view_removed_names (completed_jobs t) v) as [Ho Hw]. split_and!; try done.
  - intros r Hr. assert (is_Some (tv_jobs v !! jr_job_id r)) as [j Hj] by (apply E2, list_elem_of_fmap; by exists r).
    exists j. split; [done|]. intros l. by rewrite (E3 r Hr).
  - split; cbn; try done; [constructor|intros id; rewrite Hnone; split; [by intros []|by intros ?%elem_of_nil]|by intros r ?%elem_of_nil|by rewrite Ho|].
    intros rid. by rewrite Hw.
  - intros _. apply map_empty. intros id. apply Hnone.
Qed.

#[global] Program Instance ExampleTier_laws : SecondaryTierLaws ExampleSecondaryTierManager := {
  st_ok := example_ok;
  st_drained := fun _ => True;
  st_serves := 0
}.
Next Obligation. intros k ctx t v Hok. apply wp_bind, wp_get, wp_ret. done. Qed.
Next Obligation. intros j t v. apply example_store_ok. Qed.
Next Obligation. intros j t v. apply example_load_ok. Qed.
Next Obligation. intros t v. apply example_finished_ok. Qed.
Next Obligation. intros ks ctx t v Hok. by apply wp_ret. Qed.
Next Obligation. intros ctx t v Hok. by apply wp_ret. Qed.
Next Obligation. intros ctx t v Hok. by apply wp_ret. Qed.
Next Obligation. intros ctx t v Hok. by apply wp_ret. Qed.
Next Obligation. intros t v Hok. by apply wp_ret. Qed.
Next Obligation. intros t v Hok. by apply wp_ret. Qed.
Next Obligation. done. Qed.
Next Obligation. intros t v Hok. exact Hok. Qed.

(** * Runs of the tiering manager

    A manager with two slots and two tiers in memory, evaluated: the witnesses of
    the theorems of TieringSteps.v. *)

Local Abbreviation Tiers := (TieringOffloadingManager LRUCachePolicy ExampleSecondaryTierManager).

Definition example_tiers : list ExampleSecondaryTierManager := [example_init; example_init].

Lemma example_tiers_new : new_tiers example_tiers.
Proof.
  set (v := mkTierView ∅ ∅ (fun _ => false)). exists [v; v]. split_and!.
  - assert (example_ok example_init v) by (split; cbn; try done; [constructor|intros id; rewrite lookup_empty; split; [by intros []|by intros ?%elem_of_nil]|by intros r ?%elem_of_nil]).
    constructor; [done|]. constructor; [done|constructor].
  - intros i w. destruct i as [|[|i]]; cbn; [intros [= <-]; done|intros [= <-]; done|done].
  - intros i j w w' rid Hw _. destruct i as [|[|i]]; cbn in Hw; [injection Hw as <-; done|injection Hw as <-; done|done].
Qed.

Lemma example_engine_id (s : Tiers) rid : engine_id s rid.
Proof. intros i t v _ Hok. apply (ek_none _ _ Hok). Qed.

(** The state after a call. *)
Definition after (m : M Tiers Client) (x : Client * Tiers) : Client * Tiers :=
  match m x.2 with Ok c s => (c, s) | Raise _ s => (x.1, s) end.

Lemma step_after m x : succeeds m x.2 = true -> call 3 x.1 x.2 m -> tier_step 3 x (after m x).
Proof. intros Hs Hc. left. exists m. split; [done|]. unfold succeeds, after in *. by destruct (m x.2). Qed.

(** ** The run *)

Definition ctx_1 : ReqContext := mkReqContext "r1" all_tiers.
Definition demo_start : Client * Tiers := (no_client, tiering_init (cpu_init 2 true 1 64000) example_tiers).
Definition demo_request := after (tiering_on_new_request ctx_1 None ;; mret demo_start.1) demo_start.
(** [key_a] and [key_b] are stored, and cascaded to both tiers. *)
Definition demo_storing := after (out ← tiering_prepare_store [key_a; key_b] ctx_1; mret (store_begun "r1" out demo_request.1)) demo_request.
Definition demo_stored_both := after (tiering_complete_store [key_a; key_b] ctx_1 true ;; mret (with_stores [] demo_storing.1)) demo_storing.
Definition demo_step := after (tiering_on_schedule_end (mkScheduleEnd [] []) ;; mret demo_stored_both.1) demo_stored_both.
(** [key_c] displaces [key_a], which the tiers keep. *)
Definition demo_storing_c := after (out ← tiering_prepare_store [key_c] ctx_1; mret (store_begun "r1" out demo_step.1)) demo_step.
Definition demo_stored_c := after (tiering_complete_store [key_c] ctx_1 true ;; mret (with_stores [] demo_storing_c.1)) demo_storing_c.
(** A lookup of [key_a] queues its promotion, in the place of [key_b]. *)
Definition demo_promoting := after (tiering_lookup key_a ctx_1 None ;; mret demo_stored_c.1) demo_stored_c.

(** One more call of a run. *)
Lemma reach_after m x :
  tier_reachable 3 2 true example_tiers x.1 x.2 -> succeeds m x.2 = true -> call 3 x.1 x.2 m ->
  tier_reachable 3 2 true example_tiers (after m x).1 (after m x).2.
Proof.
  intros Hr Hs Hc. eapply rtc_r; [exact Hr|]. pose proof (step_after m x Hs Hc) as Hst. destruct x, (after m _). exact Hst.
Qed.

Lemma eq_perm {A} (l k : list A) : l = k -> l ≡ₚ k.
Proof. by intros ->. Qed.

Lemma demo_reach_request : tier_reachable 3 2 true example_tiers demo_request.1 demo_request.2.
Proof.
  unfold demo_request. apply reach_after; [apply rtc_refl|vm_compute; reflexivity|].
  apply call_new_request; [vm_compute; reflexivity|apply example_engine_id].
Qed.

Lemma demo_reach_stored_both : tier_reachable 3 2 true example_tiers demo_stored_both.1 demo_stored_both.2.
Proof.
  unfold demo_stored_both. apply reach_after; [unfold demo_storing; apply reach_after; [exact demo_reach_request|vm_compute; reflexivity|]|vm_compute; reflexivity|].
  - apply (call_prepare_store _ _ _ [key_a; key_b] ctx_1);
      [apply NoDup_by_compute; vm_compute; reflexivity|vm_compute; by eexists|apply example_engine_id|vm_compute; reflexivity].
  - apply (call_complete_store _ _ _ [key_a; key_b] ctx_1 true (zip [key_a; key_b] [0; 1]));
      [apply eq_perm; vm_compute; reflexivity|apply eq_perm; vm_compute; reflexivity|vm_compute; reflexivity].
Qed.

Lemma demo_reach_storing_c : tier_reachable 3 2 true example_tiers demo_storing_c.1 demo_storing_c.2.
Proof.
  unfold demo_storing_c. apply reach_after; [unfold demo_step; apply reach_after; [exact demo_reach_stored_both|vm_compute; reflexivity|]|vm_compute; reflexivity|].
  - apply (call_schedule_end _ _ _ (mkScheduleEnd [] [])). vm_compute. reflexivity.
  - apply (call_prepare_store _ _ _ [key_c] ctx_1);
      [apply NoDup_by_compute; vm_compute; reflexivity|vm_compute; by eexists|apply example_engine_id|vm_compute; reflexivity].
Qed.

Lemma demo_reach_promoting : tier_reachable 3 2 true example_tiers demo_promoting.1 demo_promoting.2.
Proof.
  unfold demo_promoting. apply reach_after; [unfold demo_stored_c; apply reach_after; [exact demo_reach_storing_c|vm_compute; reflexivity|]|vm_compute; reflexivity|].
  - apply (call_complete_store _ _ _ [key_c] ctx_1 true (zip [key_c] [0]));
      [apply eq_perm; vm_compute; reflexivity|apply eq_perm; vm_compute; reflexivity|vm_compute; reflexivity].
  - apply (call_lookup _ _ _ key_a ctx_1).
Qed.

(** The two cascades of [key_c] and the promotion of [key_a] are under way. *)
Example demo_promoting_state :
  (fun e => (tier_idx e.2, is_promotion (transfer_job e.2), tj_keys (transfer_job e.2), tj_chunk_ids (transfer_job e.2))) <$> jobs demo_promoting.2 =
    [(0, false, [key_c], [0]); (1, false, [key_c], [0])] /\
  queued_keys (pending_load_submissions demo_promoting.2) = [key_a].
Proof. split; vm_compute; reflexivity. Qed.

(** ** Witnesses *)


Lemma tiering_transfers_held_witness : transfers_held demo_promoting.1 demo_promoting.2.
Proof. apply (tiering_transfers_held 3 2 true example_tiers); [lia|apply example_tiers_new|apply demo_reach_promoting]. Defined.



Lemma reset_cache_quiesces_witness :
  exists s', tiering_reset_cache demo_promoting.2 = Ok tt s' /\ jobs s' = [] /\ lookup_chunk key_a (primary_tier s') = MISS.
Proof.
  destruct (reset_cache_quiesces 3 2 true example_tiers demo_promoting.1 demo_promoting.2) as (s' & E & _ & J & _ & _ & M & _);
    [lia|apply example_tiers_new|apply demo_reach_promoting|]. exists s'. split_and!; [exact E|exact J|apply M].
Defined.
