(* ===== verification/TieringPeer.v ===== *)
(** * Lookups of a remote peer

    How the peer-to-peer tier resolves an inbound lookup against the tiering
    manager: [_process_inbound_lookup], [_poll_lookup_keys],
    [_pin_and_register_hits] and [_finalize_lookup] of
    vllm/v1/kv_offload/tiering/p2p/session/server.py, as programs over the
    [ParentManager].  The messages, the registered supply and the deadline stay
    with the session: the continuation gets the lookup, and the store job if one
    was created. *)
From Stdlib Require Import ZArith Lia.
From stdpp Require Import base tactics gmap strings numbers option list.
From S2P Require Import Prelude Blocks Env OrderedDict Offload OffloadPolicies OffloadSteps Tiering TieringInv TieringCalls TieringServe TieringExample.

Local Open Scope Z_scope.

(** [_ActiveLookup] *)
Record ActiveLookup := mkActiveLookup {
  al_ctx : ReqContext;
  al_keys : list OffloadKey;
  al_resolved : list (OffloadKey * bool);
  al_pending : gset OffloadKey
}.

Definition al_resolve (h : OffloadKey) (hit : bool) (l : ActiveLookup) : ActiveLookup :=
  mkActiveLookup (al_ctx l) (al_keys l) (od_set h hit (al_resolved l)) (al_pending l ∖ {[h]}).
Definition al_park (h : OffloadKey) (l : ActiveLookup) : ActiveLookup :=
  mkActiveLookup (al_ctx l) (al_keys l) (al_resolved l) ({[h]} ∪ al_pending l).

Section Peer.
Context {T : Type}.

(** The loop of [_poll_lookup_keys]. *)
Fixpoint poll_keys (keys : list OffloadKey) (l : ActiveLookup) (new_hits : list OffloadKey)
    (k : ActiveLookup -> list OffloadKey -> ServeProgram T) : ServeProgram T :=
  match keys with
  | [] => k l new_hits
  | h :: rest =>
      if od_mem h (al_resolved l) then poll_keys rest l new_hits k else
      ServeLookup h (al_ctx l) (fun r =>
        match r with
        | HIT => poll_keys rest (al_resolve h true l) (new_hits ++ [h]) k
        | MISS => poll_keys rest (al_resolve h false l) new_hits k
        | _ => poll_keys rest (al_park h l) new_hits k
        end)
  end.

Definition poll_lookup_keys (l : ActiveLookup) (keys : list OffloadKey)
    (k : ActiveLookup -> option TransferJob -> ServeProgram T) : ServeProgram T :=
  poll_keys keys l [] (fun l new_hits =>
    match new_hits with
    | [] => k l None
    | _ => ServeStoreJob new_hits (al_ctx l) (fun j => k l (Some j))
    end).

(** [_finalize_lookup] *)
Definition finalize_lookup (l : ActiveLookup) (k : ServeProgram T) : ServeProgram T := ServeFinished (al_ctx l) k.

(** [dict.fromkeys] keeps the first occurrence of each key. *)
Fixpoint dict_fromkeys (seen : gset OffloadKey) (keys : list OffloadKey) : list OffloadKey :=
  match keys with
  | [] => []
  | key :: rest => if bool_decide (key ∈ seen) then dict_fromkeys seen rest else key :: dict_fromkeys ({[key]} ∪ seen) rest
  end.

(** [_process_inbound_lookup]; the continuation gets the lookup if it stays open. *)
Definition process_inbound_lookup (ctx : ReqContext) (keys : list OffloadKey)
    (k : option ActiveLookup -> option TransferJob -> ServeProgram T) : ServeProgram T :=
  ServeNewRequest ctx (fun _ =>
    poll_lookup_keys (mkActiveLookup ctx keys [] ∅) (dict_fromkeys ∅ keys) (fun l job =>
      if bool_decide (al_pending l = ∅) then finalize_lookup l (k None job) else k (Some l) job)).

End Peer.

(** ** A tier that serves lookups *)

(** The tier in memory, with an inbound lookup for the next step.  What it keeps of
    the lookup is left out: the jobs it gets complete at once. *)
Record PeerTier := mkPeerTier { pt_tier : ExampleSecondaryTierManager; pt_inbound : option (ReqContext * list OffloadKey) }.

Definition on_example {A} (c : M ExampleSecondaryTierManager A) : M PeerTier A :=
  zoom pt_tier (fun t p => mkPeerTier t (pt_inbound p)) c.

#[global] Instance PeerTier_methods : SecondaryTier PeerTier := {
  tier_medium := fun t => tier_medium (pt_tier t);
  tier_locality := fun t => tier_locality (pt_tier t);
  tier_lookup := fun k ctx => on_example (tier_lookup k ctx);
  tier_submit_store := fun j => on_example (tier_submit_store j);
  tier_submit_load := fun j => on_example (tier_submit_load j);
  tier_get_finished_jobs := on_example tier_get_finished_jobs;
  tier_has_pending_work := fun t => tier_has_pending_work (pt_tier t);
  tier_take_events := on_example tier_take_events;
  tier_touch := fun ks ctx => on_example (tier_touch ks ctx);
  tier_on_new_request := fun ctx => on_example (tier_on_new_request ctx);
  tier_on_request_finished := fun ctx => on_example (tier_on_request_finished ctx);
  tier_serve_external_requests := fun t =>
    match pt_inbound t with
    | None => ServeReturn t
    | Some (ctx, keys) => process_inbound_lookup ctx keys (fun _ job =>
        ServeReturn (mkPeerTier (match job with
          | Some j => mkExampleTier (ex_chunks (pt_tier t)) (completed_jobs (pt_tier t) ++ [mkJobResult (tj_job_id j) true None])
          | None => pt_tier t
          end) None))
    end;
  tier_on_schedule_end := fun c => on_example (tier_on_schedule_end c);
  tier_drain_jobs := on_example tier_drain_jobs
}.

Local Abbreviation Peers := (TieringOffloadingManager LRUCachePolicy PeerTier).

(** Two slots, two tiers, [key_b] and [key_c] in the primary tier and all three keys
    in both tiers. *)
Definition run_all (ms : list (M Peers unit)) : M Peers unit := for_each ms id.
Definition peer_start : Peers := tiering_init (cpu_init 2 true 1 64000) (replicate 2 (mkPeerTier example_init None)).
Definition peer_idle : Peers := final (run_all
  [ tiering_on_new_request ctx_1 None ;; mret tt;
    tiering_prepare_store [key_a; key_b] ctx_1 ;; mret tt;
    tiering_complete_store [key_a; key_b] ctx_1 true;
    tiering_on_schedule_end (mkScheduleEnd [] []);
    tiering_prepare_store [key_c] ctx_1 ;; mret tt;
    tiering_complete_store [key_c] ctx_1 true;
    tiering_on_schedule_end (mkScheduleEnd [] []) ]) peer_start.

(** A lookup message of a peer arrives at the first tier. *)
Definition peer_asks (keys : list OffloadKey) (s : Peers) : Peers :=
  set_tiers (alter (fun t => mkPeerTier (pt_tier t) (Some (mkReqContext "p2p:lu1" all_tiers, keys))) 0%nat (secondary_tiers s)) s.

(** The run up to the message returns, a lookup of [key_b] alone is served, and one
    of [key_b] and [key_a] raises: [key_b] is a hit, then [key_a] is promoted from
    the second tier into the slot of [key_b], which is gone when the hits are
    pinned. *)
Theorem peer_hit_evicted_before_pin :
  succeeds (run_all [tiering_on_schedule_end (mkScheduleEnd [] [])]) peer_idle = true /\
  lookup_chunk key_b (primary_tier (final (run_all [tiering_on_schedule_end (mkScheduleEnd [] [])]) peer_idle)) = HIT /\
  succeeds (tiering_on_schedule_end (mkScheduleEnd [] [])) (peer_asks [key_b] peer_idle) = true /\
  match tiering_on_schedule_end (mkScheduleEnd [] []) (peer_asks [key_b; key_a] peer_idle) with
  | Raise AssertionError s => lookup_chunk key_b (primary_tier s) = MISS /\ lookup_chunk key_a (primary_tier s) = HIT_PENDING
  | _ => False
  end.
Proof. vm_compute. done. Qed.

(** * Runs of the tiering manager that its documentation does not describe

    A tier that writes down when it is told of loads and of finished requests. *)

Inductive TierCall := SubmitLoad (rid : string) (keys : list OffloadKey) | RequestFinished (rid : string).

(** The tier in memory, with the calls it got. *)
Record LoggedTier := mkLoggedTier { lt_tier : ExampleSecondaryTierManager; lt_calls : list TierCall }.

Definition on_logged {A} (c : M ExampleSecondaryTierManager A) : M LoggedTier A := zoom lt_tier (fun t p => mkLoggedTier t (lt_calls p)) c.
Definition log_call (x : TierCall) : M LoggedTier unit := modify (fun t => mkLoggedTier (lt_tier t) (lt_calls t ++ [x])).

#[global] Instance LoggedTier_methods : SecondaryTier LoggedTier := {
  tier_medium := fun t => tier_medium (lt_tier t);
  tier_locality := fun t => tier_locality (lt_tier t);
  tier_lookup := fun k ctx => on_logged (tier_lookup k ctx);
  tier_submit_store := fun j => on_logged (tier_submit_store j);
  tier_submit_load := fun j => log_call (SubmitLoad (rc_req_id (tj_req_context j)) (tj_keys j)) ;; on_logged (tier_submit_load j);
  tier_get_finished_jobs := on_logged tier_get_finished_jobs;
  tier_has_pending_work := fun t => tier_has_pending_work (lt_tier t);
  tier_take_events := on_logged tier_take_events;
  tier_touch := fun ks ctx => on_logged (tier_touch ks ctx);
  tier_on_new_request := fun ctx => on_logged (tier_on_new_request ctx);
  tier_on_request_finished := fun ctx => log_call (RequestFinished (rc_req_id ctx));
  tier_serve_external_requests := fun t => ServeReturn t;
  tier_on_schedule_end := fun c => on_logged (tier_on_schedule_end c);
  tier_drain_jobs := on_logged tier_drain_jobs
}.

Local Abbreviation Logged := (TieringOffloadingManager LRUCachePolicy LoggedTier).

(** The tier has [key_a]; a request looks it up and finishes in the same step. *)
Definition logged_start : Logged :=
  tiering_init (cpu_init 2 true 1 64000) [mkLoggedTier (mkExampleTier {[key_a]} []) []].
Definition lookup_then_finish : Logged := final (for_each
  [ tiering_on_new_request ctx_1 None ;; mret tt;
    tiering_lookup key_a ctx_1 None ;; mret tt;
    tiering_on_request_finished ctx_1 None;
    tiering_on_schedule_end (mkScheduleEnd [] []) ] id) logged_start.

(** The promotion that the lookup queued is submitted after the tier was told that
    the request had finished. *)
Theorem load_follows_request_finished :
  lt_calls <$> secondary_tiers lookup_then_finish = [[RequestFinished "r1"; SubmitLoad "r1" [key_a]]] /\
  req_state lookup_then_finish = [].
Proof. split; vm_compute; reflexivity. Qed.
