(* ===== verification/SchedEncoder.v ===== *)
(** * Scheduling of encoder inputs

    [Scheduler._try_schedule_encoder_inputs] of vllm/v1/core/sched/scheduler.py
    over the encoder cache: which multi-modal inputs of a request are encoded in
    this step, and how many decoder tokens can be scheduled with them; with
    [get_mm_features_in_window] (vllm/multimodal/utils.py), which runs Python's
    [bisect_left], and [PlaceholderRange.get_embeds_indices_in_range].

    Both encoder caches stand behind one interface, as in the source.  The
    encoder-cache connector is its [has_cache_item] query, when there is one. *)
From Stdlib Require Import ZArith Lia.
From stdpp Require Import base tactics gmap strings numbers option list.
From S2P Require Import Prelude Blocks Request Hashing Env EncoderCache EncoderCacheSpec.

Local Open Scope Z_scope.

(** ** Python's [bisect.bisect_left(a, x, key=key)]

    Each round halves [lo, hi), so its length bounds the rounds. *)
Fixpoint bisect_loop {A} (fuel : nat) (key : A -> Z) (x : Z) (a : list A) (lo hi : Z) : option Z :=
  if lo <? hi then
    match fuel with
    | O => None
    | S fuel' =>
        let mid := (lo + hi) / 2 in
        y ← py_index a mid;
        if key y <? x then bisect_loop fuel' key x a (mid + 1) hi else bisect_loop fuel' key x a lo mid
    end
  else Some lo.
Definition bisect_left {A} (key : A -> Z) (x : Z) (a : list A) : option Z :=
  bisect_loop (length a) key x a 0 (zlen a).

(** [get_mm_features_in_window] *)
Definition mm_end (f : MultiModalFeatureSpec) : Z := offset (mm_position f) + length_ (mm_position f).
Definition get_mm_features_in_window (mm : list MultiModalFeatureSpec) (start end_ : Z) : option (Z * Z) :=
  lo ← bisect_left mm_end (start + 1) mm;
  hi ← bisect_left (fun f => offset (mm_position f)) end_ mm;
  Some (lo, hi).

(** [PlaceholderRange.get_embeds_indices_in_range] *)
Definition get_embeds_indices_in_range (p : PlaceholderRange) (start_idx end_idx : Z) : option (Z * Z) :=
  match embeds_cumsum p with
  | None => Some (start_idx, end_idx)
  | Some c =>
      s ← (if 0 <? start_idx then py_index c (start_idx - 1) else Some 0);
      e ← (if 0 <? end_idx then py_index c (end_idx - 1) else Some 0);
      Some (s, e)
  end.

(** ** The interface of the encoder caches *)

Class EncoderCacheOps (S : Type) := {
  eco_check_and_update_cache : Request -> Z -> M S bool;
  eco_can_allocate : Request -> Z -> Z -> Z -> M S bool;
  eco_allocate : Request -> Z -> M S unit
}.
#[export] Instance encoder_cache_ops : EncoderCacheOps EncoderCacheManager := {
  eco_check_and_update_cache := check_and_update_cache;
  eco_can_allocate := can_allocate;
  eco_allocate := allocate
}.
#[export] Instance encdec_cache_ops : EncoderCacheOps EncoderDecoderCacheManager := {
  eco_check_and_update_cache := fun r i => mret (ed_check_and_update_cache r i);
  eco_can_allocate := ed_can_allocate;
  eco_allocate := ed_allocate
}.

(** ** The method *)

(** The scheduler's attributes the method reads. *)
Record EncoderSchedConfig := mkEncoderSched {
  is_encoder_decoder : bool;
  sc_disable_chunked_mm_input : bool;
  ec_has_cache_item : option (string -> bool)
}.

(** The local variables the loop updates. *)
Record EncoderLoop := mkEncoderLoop {
  encoder_inputs_to_schedule : list Z;
  el_num_new_tokens : Z;
  el_budget : Z;
  external_load_encoder_input : list Z;
  mm_hashes_to_schedule : gset string;
  num_embeds_to_schedule : Z
}.
Definition el_set_new (n : Z) (st : EncoderLoop) : EncoderLoop :=
  mkEncoderLoop (encoder_inputs_to_schedule st) n (el_budget st) (external_load_encoder_input st)
    (mm_hashes_to_schedule st) (num_embeds_to_schedule st).
Definition el_external (i embeds : Z) (h : string) (st : EncoderLoop) : EncoderLoop :=
  mkEncoderLoop (encoder_inputs_to_schedule st) (el_num_new_tokens st) (el_budget st)
    (external_load_encoder_input st ++ [i]) ({[h]} ∪ mm_hashes_to_schedule st)
    (num_embeds_to_schedule st + embeds).
Definition el_compute (i embeds : Z) (h : string) (st : EncoderLoop) : EncoderLoop :=
  mkEncoderLoop (encoder_inputs_to_schedule st ++ [i]) (el_num_new_tokens st) (el_budget st - embeds)
    (external_load_encoder_input st) ({[h]} ∪ mm_hashes_to_schedule st)
    (num_embeds_to_schedule st + embeds).

Section Method.
Context {S : Type} `{EncoderCacheOps S} (cfg : EncoderSchedConfig).

(** The body of [for i in range(lo, hi)]: [continue] goes on with the rest,
    [break] returns. *)
Fixpoint encoder_loop (r : Request) (num_computed shift window_end : Z) (todo : list Z) (st : EncoderLoop)
    : M S EncoderLoop :=
  match todo with
  | [] => mret st
  | i :: todo' =>
      f ← of_option IndexError (py_index (mm_features r) i);
      let start_pos := offset (mm_position f) in
      let num_encoder_tokens := length_ (mm_position f) in
      let num_encoder_embeds := get_num_embeds (mm_position f) in
      let item_identifier := identifier f in
      if is_encoder_decoder cfg && (0 <? num_computed) then
        assert_ (start_pos =? 0) ;; encoder_loop r num_computed shift window_end todo' st
      else
      skip ← (if is_encoder_decoder cfg then mret false
              else if bool_decide (item_identifier ∈ mm_hashes_to_schedule st) then mret true
              else eco_check_and_update_cache r i);
      if (skip : bool) then encoder_loop r num_computed shift window_end todo' st else
      if sc_disable_chunked_mm_input cfg && (num_computed <? start_pos)
         && (num_computed + el_num_new_tokens st <? start_pos + num_encoder_tokens) then
        mret (el_set_new (Z.max 0 (start_pos - (num_computed + shift))) st)
      else
      ok ← eco_can_allocate r i (el_budget st) (num_embeds_to_schedule st);
      if negb (ok : bool) then
        mret (el_set_new (if num_computed + shift <? start_pos then start_pos - (num_computed + shift) else 0) st)
      else
      let start_idx_rel := Z.max 0 (num_computed - start_pos) in
      let end_idx_rel := Z.min num_encoder_tokens (window_end - start_pos) in
      '(curr_embeds_start, curr_embeds_end) ← of_option IndexError
        (get_embeds_indices_in_range (mm_position f) start_idx_rel end_idx_rel);
      if curr_embeds_end - curr_embeds_start =? 0 then encoder_loop r num_computed shift window_end todo' st else
      encoder_loop r num_computed shift window_end todo'
        (if match ec_has_cache_item cfg with Some has => has item_identifier | None => false end
         then el_external i num_encoder_embeds item_identifier st
         else el_compute i num_encoder_embeds item_identifier st)
  end.

(** [_try_schedule_encoder_inputs]; the features are never [None] in the model. *)
Definition try_schedule_encoder_inputs (r : Request) (num_computed num_new budget shift : Z)
    : M S (list Z * Z * Z * list Z) :=
  if (num_new =? 0) || (zlen (mm_features r) <=? 0) then mret ([], num_new, budget, []) else
  assert_ (0 <? zlen (mm_features r)) ;;
  let encoder_window_end := num_computed + num_new + shift in
  '(lo, hi) ← of_option OutOfFuel (get_mm_features_in_window (mm_features r) num_computed encoder_window_end);
  let lo := if is_encoder_decoder cfg then 0 else lo in
  st ← encoder_loop r num_computed shift encoder_window_end (py_range lo hi)
         (mkEncoderLoop [] num_new budget [] ∅ 0);
  mret (encoder_inputs_to_schedule st, el_num_new_tokens st, el_budget st, external_load_encoder_input st).

End Method.

(** ** Windows *)

Lemma bisect_loop_ok {A} (key : A -> Z) x (a : list A) fuel : forall lo hi,
  (forall i j y z, (i <= j)%nat -> a !! i = Some y -> a !! j = Some z -> key y <= key z) ->
  0 <= lo <= hi -> hi <= zlen a -> hi - lo <= Z.of_nat fuel ->
  (forall i y, Z.of_nat i < lo -> a !! i = Some y -> key y < x) ->
  (forall i y, hi <= Z.of_nat i -> a !! i = Some y -> x <= key y) ->
  exists p, bisect_loop fuel key x a lo hi = Some p /\ 0 <= p <= zlen a /\
    (forall i y, Z.of_nat i < p -> a !! i = Some y -> key y < x) /\
    (forall i y, p <= Z.of_nat i -> a !! i = Some y -> x <= key y).
Proof.
  induction fuel as [|fuel IH]; intros lo hi Hs Hlo Hhi Hf Hl Hr; cbn [bisect_loop];
    destruct (Z.ltb_spec lo hi) as [Hlt|Hge].
  - lia.
  - exists lo. split_and!; [done|lia|lia|done|]. intros i y Hi. apply Hr. lia.
  - assert (lo <= (lo + hi) / 2 < hi) as Hm by (split; [apply Z.div_le_lower_bound|apply Z.div_lt_upper_bound]; lia).
    set (mid := (lo + hi) / 2) in *. rewrite py_index_nonneg by lia.
    destruct (a !! Z.to_nat mid) as [y|] eqn:Ey; [|apply lookup_ge_None in Ey; unfold zlen in Hhi; lia]. cbn.
    destruct (Z.ltb_spec (key y) x) as [Hk|Hk].
    + apply IH; try done; try lia. intros i z Hi Hz. assert (key z <= key y); [|lia].
      apply (Hs i (Z.to_nat mid)); [lia|done|done].
    + apply IH; try done; try lia. intros i z Hi Hz. assert (key y <= key z); [|lia].
      apply (Hs (Z.to_nat mid) i); [lia|done|done].
  - exists lo. split_and!; [done|lia|lia|done|]. intros i y Hi. apply Hr. lia.
Qed.

Lemma bisect_left_ok {A} (key : A -> Z) x (a : list A) :
  (forall i j y z, (i <= j)%nat -> a !! i = Some y -> a !! j = Some z -> key y <= key z) ->
  exists p, bisect_left key x a = Some p /\ 0 <= p <= zlen a /\
    (forall i y, Z.of_nat i < p -> a !! i = Some y -> key y < x) /\
    (forall i y, p <= Z.of_nat i -> a !! i = Some y -> x <= key y).
Proof.
  intros Hs. apply bisect_loop_ok; try done.
  - unfold zlen. lia.
  - unfold zlen. lia.
  - intros. lia.
  - intros i y Hi Hy. apply lookup_lt_Some in Hy. unfold zlen in Hi. lia.
Qed.

(** What a request's features satisfy: in the order of the prompt, disjoint, and
    a mask covers its placeholder. *)
Record features_ok (mm : list MultiModalFeatureSpec) : Prop := {
  fo_disjoint : forall i j f g, (i < j)%nat -> mm !! i = Some f -> mm !! j = Some g -> mm_end f <= offset (mm_position g);
  fo_length : forall f, f ∈ mm -> 0 <= length_ (mm_position f);
  fo_mask : forall f l, f ∈ mm -> is_embed (mm_position f) = Some l -> zlen l = length_ (mm_position f)
}.

Lemma window_ok mm start end_ :
  features_ok mm ->
  exists lo hi, get_mm_features_in_window mm start end_ = Some (lo, hi) /\
    0 <= lo <= zlen mm /\ 0 <= hi <= zlen mm /\
    forall i f, mm !! i = Some f ->
      (lo <= Z.of_nat i <-> start < mm_end f) /\ (Z.of_nat i < hi <-> offset (mm_position f) < end_).
Proof.
  intros [D L _].
  assert (forall i j f g, (i <= j)%nat -> mm !! i = Some f -> mm !! j = Some g ->
    offset (mm_position f) <= offset (mm_position g) /\ mm_end f <= mm_end g) as Hs.
  { intros i j f g Hij Hf Hg. destruct (decide (i = j)) as [->|Hne]; [rewrite Hf in Hg; injection Hg as <-; lia|].
    pose proof (D i j f g ltac:(lia) Hf Hg) as Hd.
    pose proof (L f (list_elem_of_lookup_2 _ _ _ Hf)) as Lf. pose proof (L g (list_elem_of_lookup_2 _ _ _ Hg)) as Lg.
    unfold mm_end in *. lia. }
  destruct (bisect_left_ok mm_end (start + 1) mm) as (lo & E1 & B1 & P1 & Q1); [intros; by eapply Hs|].
  destruct (bisect_left_ok (fun f => offset (mm_position f)) end_ mm) as (hi & E2 & B2 & P2 & Q2); [intros; by eapply Hs|].
  exists lo, hi. unfold get_mm_features_in_window. rewrite E1, E2. cbn. split_and!; [done|lia..|].
  intros i f Hi. specialize (P1 i f). specialize (Q1 i f). specialize (P2 i f). specialize (Q2 i f). cbn in *.
  destruct (Z.le_gt_cases lo (Z.of_nat i)); destruct (Z.le_gt_cases hi (Z.of_nat i)); intuition lia.
Qed.

(** ** Embedding positions *)

(** Position [pos] of the prompt holds an encoder output of the placeholder. *)
Definition embed_at (p : PlaceholderRange) (pos : Z) : Prop :=
  offset p <= pos < offset p + length_ p /\
  match is_embed p with None => True | Some l => l !! Z.to_nat (pos - offset p) = Some true end.

Definition ones (l : list bool) : Z := foldr (fun b acc => Z.b2z b + acc) 0 l.

Lemma ones_app l1 l2 : ones (l1 ++ l2) = ones l1 + ones l2.
Proof. induction l1 as [|b l1 IH]; cbn; [done|]. fold (ones (l1 ++ l2)) (ones l1). lia. Qed.

Lemma ones_nonneg l : 0 <= ones l.
Proof. induction l as [|b l IH]; cbn; [done|]. fold (ones l). destruct b; cbn; lia. Qed.

Lemma ones_zero l i : ones l = 0 -> l !! i = Some true -> False.
Proof.
  revert i. induction l as [|b l IH]; intros i Hz Hi; [done|]. cbn in Hz. fold (ones l) in Hz.
  pose proof (ones_nonneg l). destruct i as [|i]; cbn in Hi.
  - injection Hi as ->. cbn in Hz. lia.
  - apply (IH i); [destruct b; cbn in Hz; lia|done].
Qed.

Lemma cumsum_lookup l : forall acc i, (i < length l)%nat -> cumsum acc l !! i = Some (acc + ones (take (S i) l)).
Proof.
  induction l as [|b l IH]; intros acc i Hi; cbn in Hi; [lia|].
  assert (ones (take (S i) (b :: l)) = Z.b2z b + ones (take i l)) as -> by done.
  destruct i as [|i]; cbn [cumsum].
  - rewrite take_0. cbn. f_equal. lia.
  - change ((acc + Z.b2z b :: cumsum (acc + Z.b2z b) l) !! S i) with (cumsum (acc + Z.b2z b) l !! i).
    rewrite IH by lia. f_equal. lia.
Qed.

Lemma cumsum_at l k : 0 <= k <= zlen l ->
  (if 0 <? k then py_index (cumsum 0 l) (k - 1) else Some 0) = Some (ones (take (Z.to_nat k) l)).
Proof.
  intros Hk. destruct (Z.ltb_spec 0 k) as [Hp|Hp].
  - rewrite py_index_nonneg by lia. unfold zlen in Hk. rewrite cumsum_lookup, Z.add_0_l by lia.
    by replace (S (Z.to_nat (k - 1))) with (Z.to_nat k) by lia.
  - replace k with 0 by lia. done.
Qed.

(** An empty range of embedding indices means no embedding position. *)
Lemma embeds_range_ok p s e :
  (forall l, is_embed p = Some l -> zlen l = length_ p) -> 0 <= s <= e -> e <= length_ p ->
  exists a b, get_embeds_indices_in_range p s e = Some (a, b) /\
    (b - a = 0 -> forall pos, offset p + s <= pos < offset p + e -> ~ embed_at p pos).
Proof.
  intros Hmask Hs He. unfold get_embeds_indices_in_range, embeds_cumsum, embed_at. destruct (is_embed p) as [l|].
  - specialize (Hmask l eq_refl). cbn. rewrite !cumsum_at by lia. cbn. do 2 eexists. split; [done|].
    intros Hz pos Hpos [_ Hat].
    assert (take (Z.to_nat e) l = take (Z.to_nat s) l ++ drop (Z.to_nat s) (take (Z.to_nat e) l)) as Et.
    { rewrite <- (take_drop (Z.to_nat s) (take (Z.to_nat e) l)) at 1. rewrite take_take. do 2 f_equal. lia. }
    rewrite Et, ones_app in Hz. apply (ones_zero (drop (Z.to_nat s) (take (Z.to_nat e) l)) (Z.to_nat (pos - offset p - s))); [lia|].
    rewrite lookup_drop, lookup_take_lt by lia. rewrite <- Hat. f_equal. lia.
  - cbn. exists s, e. split; [done|lia].
Qed.

(** ** The loop *)

Section Loop.
Context `{Env} (size_of : string -> Z) (size_nonneg : forall h, 0 <= size_of h).
Context (features : string -> list MultiModalFeatureSpec).
Context (features_size : forall rid f, f ∈ features rid -> get_num_embeds (mm_position f) = size_of (identifier f)).
Context (cfg : EncoderSchedConfig) (not_encdec : is_encoder_decoder cfg = false).
Context (r : Request) (r_known : known features r) (r_features : features_ok (mm_features r)).
Context (c n0 budget0 shift : Z) (n_pos : 0 < n0) (shift_nonneg : 0 <= shift).

Local Abbreviation wf := (encoder_wf size_of features).
Local Abbreviation rid := (request_id r).
Local Abbreviation feature i := (py_index (mm_features r) i).
Local Abbreviation wend := (c + n0 + shift).

(** The request holds a reference to the cached output [h]. *)
Definition holds_ref (m : EncoderCacheManager) (h : string) : Prop :=
  exists ids, cached m !! h = Some ids /\ rid ∈ ids.

Definition input_size (i : Z) : Z := from_option (fun f => size_of (identifier f)) 0 (feature i).
Definition total_size (l : list Z) : Z := foldr (fun i acc => input_size i + acc) 0 l.
Definition input_ids (l : list Z) : list string := omap (fun i => identifier <$> feature i) l.

(** A feature of the window whose outputs are needed is there or scheduled. *)
Definition served (st : EncoderLoop) (m : EncoderCacheManager) (i : Z) : Prop :=
  forall f pos, feature i = Some f -> c <= pos < wend -> embed_at (mm_position f) pos ->
    holds_ref m (identifier f) \/ identifier f ∈ mm_hashes_to_schedule st.

Record el_inv (d : list Z) (st : EncoderLoop) (m : EncoderCacheManager) : Prop := {
  li_wf : wf m;
  li_new : el_num_new_tokens st = n0;
  li_budget : el_budget st + total_size (encoder_inputs_to_schedule st) = budget0;
  li_budget_nonneg : 0 <= el_budget st;
  li_embeds : num_embeds_to_schedule st =
    total_size (encoder_inputs_to_schedule st ++ external_load_encoder_input st);
  li_room : num_embeds_to_schedule st <= num_free_slots m;
  li_hashes : forall h, h ∈ mm_hashes_to_schedule st <->
    h ∈ input_ids (encoder_inputs_to_schedule st ++ external_load_encoder_input st);
  li_nodup : NoDup (input_ids (encoder_inputs_to_schedule st ++ external_load_encoder_input st));
  li_valid : Forall (fun i => is_Some (feature i)) (encoder_inputs_to_schedule st ++ external_load_encoder_input st);
  li_fresh : forall h, h ∈ mm_hashes_to_schedule st -> cached m !! h = None;
  li_served : forall i, i ∈ d -> served st m i
}.

Lemma feature_hash i f : feature i = Some f -> hash_of features rid i = Some (identifier f).
Proof using r_known. intros Hf. unfold hash_of. by rewrite <- r_known, Hf. Qed.

Lemma feature_size i f : feature i = Some f -> get_num_embeds (mm_position f) = size_of (identifier f).
Proof. intros Hf. apply (features_size rid). rewrite <- r_known. by apply py_index_Some in Hf as [? _]. Qed.

Lemma total_size_app l1 l2 : total_size (l1 ++ l2) = total_size l1 + total_size l2.
Proof. induction l1 as [|i l1 IH]; cbn; [done|]. fold (total_size (l1 ++ l2)) (total_size l1). lia. Qed.

(** Only the entry of [h] changes in a check. *)
Lemma check_frame m i f b m' :
  feature i = Some f -> check_and_update_cache r i m = Ok b m' ->
  forall h, h <> identifier f -> cached m' !! h = cached m !! h.
Proof.
  intros Hf E h Hne. unfold check_and_update_cache, input_hash in E. rewrite Hf in E.
  unfold mbind, M_bind, mret, M_ret, gets, get, modify in E. cbn [fmap option_fmap option_map of_option] in E.
  unfold mret, M_ret in E. destruct (cached m !! identifier f) as [ids|]; [|by injection E as _ <-].
  destruct (bool_decide _).
  - destruct (odict_get _ _) as [v|]; [|done]. injection E as _ <-. cbn. by rewrite lookup_insert_ne.
  - injection E as _ <-. cbn. by rewrite lookup_insert_ne.
Qed.

Lemma check_ok m i f :
  wf m -> feature i = Some f ->
  wp (check_and_update_cache r i) (fun b m' => wf m' /\ num_free_slots m' = num_free_slots m /\
    (b = false -> m' = m /\ cached m !! identifier f = None) /\
    (b = true -> holds_ref m' (identifier f) /\ is_Some (cached m !! identifier f)) /\
    forall h, h <> identifier f -> cached m' !! h = cached m !! h) m.
Proof.
  intros Hwf Hf. pose proof (feature_hash i f Hf) as Hh.
  pose proof (check_and_update_spec size_of size_nonneg features features_size m r i _ Hwf r_known Hh) as Hw.
  apply wp_ok in Hw as (b & m' & E & Hwf' & Hb & Hs & _ & Hfalse & Htrue).
  apply (wp_intro _ _ _ b m' E). split_and!; [done|done| | |by apply (check_frame m i f b)].
  - intros ->. split; [by apply Hfalse|]. symmetry in Hb. apply bool_decide_eq_false in Hb.
    destruct (cached m !! identifier f); [|done]. exfalso. apply Hb. by eexists.
  - intros ->. split; [|symmetry in Hb; by apply bool_decide_eq_true in Hb].
    destruct (ew_ids _ _ _ Hwf' rid i (Htrue eq_refl)) as (h & ids & Hh' & Hc & Hr).
    rewrite Hh in Hh'. injection Hh' as <-. by exists ids.
Qed.

Lemma can_ok m i f budget t :
  wf m -> feature i = Some f ->
  wp (can_allocate r i budget t) (fun b m' => wf m' /\ (b = false -> m' = m) /\ num_free_slots m <= num_free_slots m' /\
    (b = true -> size_of (identifier f) <= budget /\ size_of (identifier f) + t <= num_free_slots m') /\
    (forall h, cached m !! h = None -> cached m' !! h = None) /\
    (forall h, holds_ref m h -> holds_ref m' h)) m.
Proof.
  intros Hwf Hf. pose proof (feature_hash i f Hf) as Hh.
  eapply wp_mono; [by apply (can_allocate_spec size_of size_nonneg features features_size m r i (identifier f) budget t)|].
  intros b m' (Hb & Hfalse & Htrue & ev & rest & He & _). split_and!; [apply He|done| | | |].
  - rewrite (ee_slots _ _ _ _ _ _ He). assert (0 <= dsum ev); [|lia].
    assert (forall h v, (h, v) ∈ ev -> 0 <= v) as Hv.
    { intros h v Hin. assert ((h, v) ∈ freeable m) as Hx by (rewrite (ee_split _ _ _ _ _ _ He), elem_of_app; by left).
      apply (ew_unref _ _ _ Hwf) in Hx as [_ ->]. apply size_nonneg. }
    clear -Hv. induction ev as [|[h v] ev IH]; cbn; [done|]. fold (dsum ev).
    assert (0 <= v) by (apply (Hv h v); by left). assert (0 <= dsum ev) by (apply IH; intros h' v' Hin; apply (Hv h' v'); by right). lia.
  - intros ->. split; [symmetry in Hb; apply andb_true_iff in Hb as [Hb _]; by apply Z.leb_le in Hb|by apply Htrue].
  - intros h Hn. rewrite (ee_cached _ _ _ _ _ _ He), Hn. by destruct (decide _).
  - intros h (ids & Hc & Hr). exists ids. split; [|done]. rewrite (ee_cached _ _ _ _ _ _ He), decide_False; [done|].
    intros ([h' v] & -> & Hin)%list_elem_of_fmap. cbn in Hc.
    assert ((h', v) ∈ freeable m) as Hx by (rewrite (ee_split _ _ _ _ _ _ He), elem_of_app; by left).
    apply (ew_unref _ _ _ Hwf) in Hx as [Hx _]. rewrite Hc in Hx. injection Hx as ->. set_solver.
Qed.

(** The cache may take references and evict, never drop what is needed. *)
Definition cache_grows (m m' : EncoderCacheManager) : Prop :=
  wf m' /\ num_free_slots m <= num_free_slots m' /\ forall h, holds_ref m h -> holds_ref m' h.

Lemma el_inv_cache d st m m' :
  el_inv d st m -> cache_grows m m' ->
  (forall h, h ∈ mm_hashes_to_schedule st -> cached m' !! h = None) -> el_inv d st m'.
Proof.
  intros [] (Hw & Hs & Hr) Hf. split; try done; [lia|].
  intros i Hi f pos H1 H2 H3. destruct (li_served0 i Hi f pos H1 H2 H3); [left; by apply Hr|by right].
Qed.

Lemma el_inv_snoc d st m i : el_inv d st m -> served st m i -> el_inv (d ++ [i]) st m.
Proof.
  intros [] Hi. split; try done. intros j [Hj| ->%list_elem_of_singleton]%elem_of_app; [by apply li_served0|done].
Qed.

(** The input is scheduled, to be computed or to be loaded. *)
Lemma el_inv_schedule d st m i f (ext : bool) :
  el_inv d st m -> feature i = Some f -> identifier f ∉ mm_hashes_to_schedule st ->
  cached m !! identifier f = None -> size_of (identifier f) <= el_budget st ->
  size_of (identifier f) + num_embeds_to_schedule st <= num_free_slots m ->
  el_inv (d ++ [i]) (if ext then el_external i (get_num_embeds (mm_position f)) (identifier f) st
                     else el_compute i (get_num_embeds (mm_position f)) (identifier f) st) m.
Proof.
  intros [] Hf Hnew Hc Hb Hroom. rewrite (feature_size i f Hf).
  assert (total_size [i] = size_of (identifier f)) as Hone by (cbn; unfold input_size; rewrite Hf; cbn; lia).
  assert (input_ids [i] = [identifier f]) as Hid by (unfold input_ids; cbn; by rewrite Hf).
  set (inp := encoder_inputs_to_schedule st) in *. set (exs := external_load_encoder_input st) in *.
  assert (forall l, l ≡ₚ i :: (inp ++ exs) -> input_ids l ≡ₚ identifier f :: input_ids (inp ++ exs)) as Hperm.
  { intros l Hl. unfold input_ids. rewrite Hl. cbn. by rewrite Hf. }
  assert (forall l, l ≡ₚ i :: (inp ++ exs) -> NoDup (input_ids l) /\
    Forall (fun j => is_Some (feature j)) l /\
    (forall h, h ∈ {[identifier f]} ∪ mm_hashes_to_schedule st <-> h ∈ input_ids l)) as Hall.
  { intros l Hl. split_and!.
    - rewrite (Hperm l Hl). apply NoDup_cons. split; [|done]. by rewrite <- li_hashes0.
    - rewrite Hl. apply Forall_cons. split; [by eexists|done].
    - intros h. rewrite elem_of_union, elem_of_singleton, (Hperm l Hl), elem_of_cons. by rewrite li_hashes0. }
  assert (forall st', mm_hashes_to_schedule st' = {[identifier f]} ∪ mm_hashes_to_schedule st ->
    forall j, j ∈ d ++ [i] -> served st' m j) as Hserved.
  { intros st' E j [Hj| ->%list_elem_of_singleton]%elem_of_app g pos Hg Hpos Hat; rewrite E, elem_of_union, elem_of_singleton.
    - destruct (li_served0 j Hj g pos Hg Hpos Hat); [by left|right; by right].
    - rewrite Hf in Hg. injection Hg as <-. right. by left. }
  assert (forall h, h ∈ {[identifier f]} ∪ mm_hashes_to_schedule st -> cached m !! h = None) as Hfresh.
  { intros h [->%elem_of_singleton|Hh]%elem_of_union; [done|by apply li_fresh0]. }
  assert (inp ++ exs ++ [i] ≡ₚ i :: (inp ++ exs)) as P1 by (by rewrite app_assoc, Permutation_app_comm).
  assert ((inp ++ [i]) ++ exs ≡ₚ i :: (inp ++ exs)) as P2 by (by rewrite <- app_assoc, Permutation_middle).
  destruct ext; split; cbn; fold inp exs; try done; rewrite ?total_size_app in *; try lia; try (by apply Hserved).
  all: try (by apply Hall).
Qed.

(** How the loop ended: at the end of its range, or before a feature. *)
Definition loop_end (rest : list Z) (n' : Z) : Prop :=
  rest = [] /\ n' = n0 \/
  exists j rest' f, rest = j :: rest' /\ feature j = Some f /\
    (n' = 0 \/ 0 < n' /\ n' = offset (mm_position f) - (c + shift)).

Definition loop_result (all : list Z) (st' : EncoderLoop) (m' : EncoderCacheManager) : Prop :=
  exists st0 d rest n', st' = el_set_new n' st0 /\ all = d ++ rest /\ el_inv d st0 m' /\ loop_end rest n'.

Definition in_window (i : Z) : Prop :=
  exists f, feature i = Some f /\ c < mm_end f /\ offset (mm_position f) < wend.

Lemma loop_break d st m i f rest n' :
  el_inv d st m -> feature i = Some f -> (n' = 0 \/ 0 < n' /\ n' = offset (mm_position f) - (c + shift)) ->
  loop_result (d ++ i :: rest) (el_set_new n' st) m.
Proof. intros Hi Hf Hn. exists st, d, (i :: rest), n'. split_and!; [done..|]. right. by exists i, rest, f. Qed.

Lemma encoder_loop_ok todo : forall d st m,
  el_inv d st m -> Forall in_window todo ->
  wp (encoder_loop cfg r c shift wend todo st) (fun st' m' => loop_result (d ++ todo) st' m') m.
Proof.
  induction todo as [|i todo IH]; intros d st m Hi Hw; cbn [encoder_loop].
  { apply wp_ret. exists st, d, [], n0. split_and!; [|done|done|by left].
    pose proof (li_new _ _ _ Hi) as En. destruct st; cbn in *. by subst. }
  apply Forall_cons in Hw as [(f & Hf & Hc & Ho) Hw]. rewrite Hf, not_encdec. cbn [andb of_option].
  apply wp_bind, wp_ret. cbn zeta.
  assert (forall st1 m1, el_inv (d ++ [i]) st1 m1 ->
    wp (encoder_loop cfg r c shift wend todo st1) (fun st' m' => loop_result (d ++ i :: todo) st' m') m1) as Hnext.
  { intros st1 m1 H1. eapply wp_mono; [by apply (IH (d ++ [i]))|]. intros st' m' Hr. by rewrite <- app_assoc in Hr. }
  apply wp_bind. destruct (bool_decide_reflect (identifier f ∈ mm_hashes_to_schedule st)) as [Hin|Hin].
  { apply wp_ret, Hnext, el_inv_snoc; [done|]. intros g pos Hg _ _. rewrite Hf in Hg. injection Hg as <-. by right. }
  eapply wp_mono; [by apply check_ok; [apply Hi|]|]. intros b m1 (W1 & S1 & B1 & B2 & F1). destruct b.
  { destruct (B2 eq_refl) as [Href Hsome]. apply Hnext. apply el_inv_snoc.
    - apply (el_inv_cache d st m m1 Hi); [split_and!; [done|lia|]|].
      + intros h (ids & Hh & Hr). destruct (decide (h = identifier f)) as [->|Hne]; [done|].
        exists ids. by rewrite F1.
      + intros h Hh. rewrite F1; [by apply (li_fresh _ _ _ Hi)|]. intros ->. done.
    - intros g pos Hg _ _. rewrite Hf in Hg. injection Hg as <-. by left. }
  destruct (B1 eq_refl) as [-> Hnone]. clear B1 B2 F1 S1 W1.
  destruct (_ && _ && _).
  { apply wp_ret, (loop_break d st m i f todo); [done|done|]. lia. }
  apply wp_bind. eapply wp_mono; [by apply (can_ok m i f); [apply Hi|]|].
  intros b m1 (W1 & Bf & S1 & Bt & F1 & R1).
  destruct b; cbn [negb].
  2:{ rewrite (Bf eq_refl). apply wp_ret, (loop_break d st m i f todo); [done|done|].
      destruct (Z.ltb_spec (c + shift) (offset (mm_position f))); lia. }
  destruct (Bt eq_refl) as [Hb Hroom]. clear Bf Bt.
  assert (el_inv d st m1) as Hi1.
  { apply (el_inv_cache d st m m1 Hi); [done|]. intros h Hh. by apply F1, (li_fresh _ _ _ Hi). }
  pose proof (py_index_Some _ _ _ Hf) as [Hel _]. unfold mm_end in Hc.
  destruct (embeds_range_ok (mm_position f) (Z.max 0 (c - offset (mm_position f)))
    (Z.min (length_ (mm_position f)) (wend - offset (mm_position f)))) as (a & e & -> & Hempty).
  { intros l Hl. by apply (fo_mask _ r_features f). }
  { pose proof (fo_length _ r_features f Hel). lia. }
  { lia. }
  apply wp_bind, wp_ret. cbn beta iota. destruct (Z.eqb_spec (e - a) 0) as [Hz|Hz].
  - apply Hnext, el_inv_snoc; [done|]. intros g pos Hg Hpos Hat. rewrite Hf in Hg. injection Hg as <-.
    exfalso. apply (Hempty Hz pos); [|done]. destruct Hat as [Hat _]. lia.
  - apply Hnext. apply el_inv_schedule; try done. by apply F1.
Qed.

(** ** Allocating what was scheduled *)

Lemma allocate_frame m i f m' :
  feature i = Some f -> allocate r i m = Ok tt m' ->
  forall h, h <> identifier f -> cached m' !! h = cached m !! h.
Proof using r.
  intros Hf E h Hne. unfold allocate, input_hash, assert_ in E. rewrite Hf in E.
  unfold mbind, M_bind, mret, M_ret, gets, get, modify in E. cbn [fmap option_fmap option_map of_option] in E.
  unfold mret, M_ret in E. destruct (get_num_encoder_embeds r i) as [n|]; [|done]. cbn [of_option] in E. unfold mret, M_ret in E.
  destruct (n <=? _); [|done]. destruct (n <=? _); [|done]. injection E as <-. cbn.
  destruct (cached m !! identifier f); cbn; by rewrite !lookup_insert_ne.
Qed.

(** The inputs can be allocated, one after the other. *)
Record pending_inputs (m : EncoderCacheManager) (l : list Z) : Prop := {
  pi_valid : Forall (fun i => is_Some (feature i)) l;
  pi_nodup : NoDup (input_ids l);
  pi_fresh : forall h, h ∈ input_ids l -> cached m !! h = None;
  pi_room : total_size l <= num_free_slots m
}.

Lemma total_size_nonneg l : 0 <= total_size l.
Proof using size_nonneg.
  clear not_encdec n_pos shift_nonneg r_features features_size r_known.
  induction l as [|j l IH]; cbn; [done|]. fold (total_size l).
  assert (0 <= input_size j) by (unfold input_size; destruct (feature j); cbn; [apply size_nonneg|lia]). lia.
Qed.

Lemma allocate_one_ok m i l :
  wf m -> pending_inputs m (i :: l) ->
  wp (allocate r i) (fun _ m' => wf m' /\ pending_inputs m' l /\
    (forall h, h ∈ input_ids [i] -> holds_ref m' h) /\ (forall h, holds_ref m h -> holds_ref m' h)) m.
Proof using size_nonneg features_size r_known.
  clear not_encdec n_pos shift_nonneg r_features.
  intros Hwf [Hv Hnd Hnew Hroom]. apply Forall_cons in Hv as [[f Hf] Hv].
  assert (forall l', input_ids (i :: l') = identifier f :: input_ids l') as Eid by (intros l'; unfold input_ids; cbn; by rewrite Hf).
  assert (total_size (i :: l) = size_of (identifier f) + total_size l) as Ets
    by (change (total_size (i :: l)) with (input_size i + total_size l); unfold input_size; by rewrite Hf).
  pose proof (total_size_nonneg l) as Hts. rewrite Eid in Hnd, Hnew. apply NoDup_cons in Hnd as [Hi Hnd]. rewrite Ets in Hroom.
  pose proof (allocate_spec size_of size_nonneg features features_size m r i (identifier f) Hwf r_known (feature_hash i f Hf)
    ltac:(apply Hnew; by left) ltac:(lia)) as Ha.
  apply wp_ok in Ha as ([] & m1 & E1 & W1 & S1 & _ & C1 & _). apply (wp_intro _ _ _ tt m1 E1).
  pose proof (allocate_frame m i f m1 Hf E1) as Hfr. split_and!; [done| | |].
  - split; [done|done| |lia]. intros h Hh. rewrite Hfr; [apply Hnew; by right|]. by intros ->.
  - rewrite Eid. intros h [->|Hh%elem_of_nil]%elem_of_cons; [|done]. exists {[rid]}. split; [done|set_solver].
  - intros h (ids & Hh & Hr). exists ids. split; [|done]. rewrite Hfr; [done|]. intros ->. rewrite Hnew in Hh by by left. done.
Qed.

Lemma allocate_all_ok l : forall m,
  wf m -> pending_inputs m l ->
  wp (for_each l (allocate r)) (fun _ m' => wf m' /\ (forall h, h ∈ input_ids l -> holds_ref m' h) /\
    (forall h, holds_ref m h -> holds_ref m' h)) m.
Proof.
  induction l as [|i l IH]; intros m Hwf Hp; cbn [for_each].
  { apply wp_ret. split_and!; [done|by intros h ?%elem_of_nil|done]. }
  apply wp_bind. eapply wp_mono; [by apply (allocate_one_ok m i l)|]. intros [] m1 (W1 & P1 & H1 & K1).
  eapply wp_mono; [by apply IH|]. intros [] m2 (W2 & H2 & K2). split_and!; [done| |auto].
  change (i :: l) with ([i] ++ l). unfold input_ids. rewrite omap_app. intros h [Hh|Hh]%elem_of_app; [by apply K2, H1|by apply H2].
Qed.

Lemma py_range_elem a b i : i ∈ py_range a b <-> a <= i < b.
Proof. unfold py_range. rewrite elem_of_seqZ. lia. Qed.

(** Elements of a range after a given one are larger. *)
Lemma py_range_suffix a b d j rest i : py_range a b = d ++ j :: rest -> i ∈ j :: rest -> j <= i.
Proof.
  intros E Hi. apply list_elem_of_lookup in Hi as [k Hk].
  assert (py_range a b !! length d = Some j) as Hj by (rewrite E, lookup_app_r, Nat.sub_diag by lia; done).
  assert (py_range a b !! (length d + k)%nat = Some i) as Hi' by (rewrite E, lookup_app_r by lia; rewrite <- Hk; f_equal; lia).
  unfold py_range in *. apply lookup_seqZ in Hj as [-> _]. apply lookup_seqZ in Hi' as [-> _]. lia.
Qed.

(** A feature with an embedding before the end of the scheduled tokens was visited. *)
Lemma processed_before_end lo hi d rest n' i f pos :
  0 <= lo -> (forall i f, mm_features r !! i = Some f ->
     (lo <= Z.of_nat i <-> c < mm_end f) /\ (Z.of_nat i < hi <-> offset (mm_position f) < wend)) ->
  py_range lo hi = d ++ rest -> loop_end rest n' -> 0 < n' <= n0 ->
  mm_features r !! i = Some f -> c <= pos < c + n' + shift -> embed_at (mm_position f) pos -> Z.of_nat i ∈ d.
Proof.
  intros Hlo0 Hwin Eall Hend Hn' Hf Hpos [Hat _]. destruct (Hwin i f Hf) as [H1 H2]. unfold mm_end in *.
  assert (Z.of_nat i ∈ py_range lo hi) as Hin by (apply py_range_elem; split; [apply H1|apply H2]; lia).
  rewrite Eall in Hin. apply elem_of_app in Hin as [?|Hr]; [done|]. exfalso.
  destruct Hend as [[-> _]|(j & rest' & g & -> & Hg & Hn)]; [by apply elem_of_nil in Hr|].
  pose proof (py_range_suffix _ _ _ _ _ _ Eall Hr) as Hji.
  assert (lo <= j) as Hlo by (apply (py_range_elem lo hi); rewrite Eall, elem_of_app; right; by left).
  rewrite py_index_nonneg in Hg by lia.
  assert (offset (mm_position g) <= offset (mm_position f)); [|lia].
  destruct (decide (Z.to_nat j = i)) as [E|Hne]; [rewrite E, Hf in Hg; by injection Hg as <-|].
  pose proof (fo_disjoint _ r_features (Z.to_nat j) i g f ltac:(lia) Hg Hf) as Hdis.
  pose proof (fo_length _ r_features g (list_elem_of_lookup_2 _ _ _ Hg)). unfold mm_end in Hdis. lia.
Qed.

Lemma try_schedule_ok m :
  wf m -> 0 <= budget0 -> 0 < zlen (mm_features r) ->
  wp (try_schedule_encoder_inputs cfg r c n0 budget0 shift) (fun out m' =>
    let '(inputs, n', budget', ext) := out in
    0 <= n' <= n0 /\ 0 <= budget' /\ budget' + total_size inputs = budget0 /\ wf m' /\ pending_inputs m' (inputs ++ ext) /\
    wp (for_each (inputs ++ ext) (allocate r)) (fun _ m2 => wf m2 /\
      (0 < n' -> forall i f pos, mm_features r !! i = Some f -> c <= pos < c + n' + shift ->
         embed_at (mm_position f) pos -> holds_ref m2 (identifier f))) m') m.
Proof.
  intros Hwf Hb Hlen. unfold try_schedule_encoder_inputs. rewrite (proj2 (Z.eqb_neq n0 0)) by lia.
  rewrite (proj2 (Z.leb_gt (zlen (mm_features r)) 0)) by lia. cbn [orb].
  apply wp_bind, wp_assert; [by apply Z.ltb_lt|]. apply wp_bind.
  destruct (window_ok (mm_features r) c wend r_features) as (lo & hi & -> & Blo & Bhi & Hwin).
  apply wp_ret. cbn beta iota. rewrite not_encdec. apply wp_bind.
  assert (Forall in_window (py_range lo hi)) as Hall.
  { apply Forall_forall. intros i Hi%py_range_elem. unfold in_window. rewrite py_index_nonneg by lia.
    destruct (mm_features r !! Z.to_nat i) as [f|] eqn:Ef; [|apply lookup_ge_None in Ef; unfold zlen in *; lia].
    exists f. destruct (Hwin _ _ Ef) as [H1 H2]. rewrite Z2Nat.id in H1, H2 by lia. split; [done|].
    split; [apply H1|apply H2]; lia. }
  eapply wp_mono; [apply (encoder_loop_ok (py_range lo hi) []); [|done]|].
  { pose proof (ew_room _ _ _ Hwf).
    split; cbn; try done; try lia; try (by intros ? ?%elem_of_nil); try constructor; set_solver. }
  intros st' m' (st0 & d & rest & n' & -> & Eall & Hinv & Hend). cbn [app] in Eall. apply wp_ret. cbn.
  destruct Hinv as [I1 I2 I3 I4 I5 I6 I7 I8 I9 I10 I11].
  assert (forall j f rest', rest = j :: rest' -> feature j = Some f -> offset (mm_position f) < wend) as Hj.
  { intros j f rest' -> Hf. rewrite Eall in Hall. apply Forall_app in Hall as [_ [(g & Hg & _ & ?) _]%Forall_cons].
    rewrite Hf in Hg. by injection Hg as <-. }
  assert (pending_inputs m' (encoder_inputs_to_schedule st0 ++ external_load_encoder_input st0)) as Hpend.
  { split; [done|done| |lia]. intros h Hh. apply I10. by apply I7. }
  split_and!; [| |done|done|done|done|].
  - destruct Hend as [[_ ->]|(j & rest' & f & -> & Hf & Hn)]; lia.
  - destruct Hend as [[_ ->]|(j & rest' & f & -> & Hf & Hn)]; [lia|]. specialize (Hj j f rest' eq_refl Hf). lia.
  - eapply wp_mono; [by apply allocate_all_ok|].
    + intros [] m2 (W2 & A2 & K2). split; [done|]. intros Hn' i f pos Hf Hpos Hat.
      assert (feature (Z.of_nat i) = Some f) as Hfi by (rewrite py_index_nonneg, Nat2Z.id by lia; done).
      assert (n' <= n0) as Hle.
      { destruct Hend as [[_ ->]|(j & rest' & g & -> & Hg & Hn)]; [lia|]. specialize (Hj j g rest' eq_refl Hg). lia. }
      assert (Z.of_nat i ∈ d) as Hd by (eapply (processed_before_end lo hi); eauto; lia).
      destruct (I11 _ Hd f pos Hfi ltac:(lia) Hat) as [Hr|Hh]; [by apply K2|]. apply A2. by apply I7.
Qed.

End Loop.

(** C28.  No token is scheduled without its encoder output.  On a well-formed
    cache and features in prompt order, [_try_schedule_encoder_inputs] raises
    nothing, asks for no more tokens than offered and spends no more than the
    budget, exactly the embeddings of the inputs it schedules.  Allocating those
    inputs and the ones to be loaded then succeeds, and afterwards every
    embedding position among the scheduled tokens (and the drafter's shift) has
    its encoder output in the cache, referenced by the request. *)
Theorem encoder_inputs_scheduled `{Env} size_of features cfg r m c n budget shift :
  (forall h, 0 <= size_of h) ->
  (forall rid f, f ∈ features rid -> get_num_embeds (mm_position f) = size_of (identifier f)) ->
  is_encoder_decoder cfg = false -> known features r -> features_ok (mm_features r) ->
  encoder_wf size_of features m -> 0 <= n -> 0 <= budget -> 0 <= shift ->
  exists inputs n' budget' ext m' m2,
    try_schedule_encoder_inputs cfg r c n budget shift m = Ok (inputs, n', budget', ext) m' /\
    0 <= n' <= n /\ 0 <= budget' /\ budget' + total_size size_of r inputs = budget /\
    for_each (inputs ++ ext) (allocate r) m' = Ok tt m2 /\ encoder_wf size_of features m2 /\
    (0 < n' -> forall i f pos, mm_features r !! i = Some f -> c <= pos < c + n' + shift ->
       embed_at (mm_position f) pos -> holds_ref r m2 (identifier f)).
Proof.
  intros Hs Hf Hed Hk Hok Hwf Hn Hb Hsh.
  destruct (decide (n = 0 \/ zlen (mm_features r) <= 0)) as [Hno|Hyes].
  { exists [], n, budget, [], m, m. unfold try_schedule_encoder_inputs.
    assert ((n =? 0) || (zlen (mm_features r) <=? 0) = true) as ->.
    { apply orb_true_iff. destruct Hno; [left; by apply Z.eqb_eq|right; by apply Z.leb_le]. }
    split_and!; [done|lia|lia|done|cbn; lia|done|done|]. intros Hp i f pos Hi. destruct Hno as [|Hno]; [lia|].
    apply lookup_lt_Some in Hi. unfold zlen in Hno. lia. }
  pose proof (try_schedule_ok size_of Hs features Hf cfg Hed r Hk Hok c n budget shift ltac:(lia) Hsh m Hwf Hb ltac:(lia)) as Hw.
  apply wp_ok in Hw as ([[[inputs n'] budget'] ext] & m' & E & Hn' & Hb' & Hbud & _ & _ & Ha).
  apply wp_ok in Ha as ([] & m2 & E2 & W2 & Hall). by exists inputs, n', budget', ext, m', m2.
Qed.

(** Two images of four embeddings behind two text tokens; a budget for one. *)
Definition es_features (rid : string) : list MultiModalFeatureSpec :=
  [mkMMFeature "cat" (mkPlaceholder 2 4 None); mkMMFeature "dog" (mkPlaceholder 6 4 None)].
Definition es_request : Request := demo_request None None (es_features "req") [].
Definition es_config : EncoderSchedConfig := mkEncoderSched false false None.

Lemma es_features_ok : features_ok (mm_features es_request).
Proof.
  split.
  - intros i j f g Hij Hf Hg. destruct i as [|[|i]], j as [|[|j]]; cbn in Hf, Hg; try lia; try done; try (by rewrite lookup_nil in Hg).
    injection Hf as <-. injection Hg as <-. unfold mm_end; cbn; lia.
  - intros f [->|[->|?%elem_of_nil]%elem_of_cons]%elem_of_cons; cbn; lia || done.
  - intros f l [->|[->|?%elem_of_nil]%elem_of_cons]%elem_of_cons; done.
Qed.

(** With room for one image the chunk stops before the second. *)
Lemma encoder_inputs_scheduled_witness :
  exists m' m2, try_schedule_encoder_inputs es_config es_request 0 10 4 0 (new_encoder_cache 16) = Ok ([0], 6, 0, []) m' /\
    for_each [0] (allocate es_request) m' = Ok tt m2 /\ holds_ref es_request m2 "cat".
Proof.
  destruct (encoder_inputs_scheduled (fun _ => 4) es_features es_config es_request (new_encoder_cache 16) 0 10 4 0)
    as (inputs & n' & budget' & ext & m' & m2 & E & _ & _ & _ & E2 & _ & Hall).
  - intros h. lia.
  - intros rid f [->|[->|?%elem_of_nil]%elem_of_cons]%elem_of_cons; done.
  - reflexivity.
  - reflexivity.
  - exact es_features_ok.
  - apply new_encoder_cache_wf. lia.
  - lia.
  - lia.
  - lia.
  - assert (match try_schedule_encoder_inputs es_config es_request 0 10 4 0 (new_encoder_cache 16) with
            | Ok x _ => Some x | Raise _ _ => None end = Some ([0], 6, 0, [])) as Hv by (vm_compute; reflexivity).
    rewrite E in Hv. injection Hv as -> -> -> ->.
    exists m', m2. split; [exact E|]. split; [exact E2|].
    apply (Hall ltac:(lia) 0%nat (mkMMFeature "cat" (mkPlaceholder 2 4 None)) 2); [reflexivity|lia|].
    split; [cbn; lia|exact I].
Defined.
