(* ===== verification/SchedChunk.v ===== *)
(** * How the scheduler cuts prefill chunks

    The arithmetic of vllm/v1/core/sched/scheduler.py that decides where a
    prefill chunk ends: [_mamba_block_aligned_split] (with the checkpoint
    helpers of vllm/v1/kv_cache_interface.py), [_reserve_prefill_lookahead] and
    [_exl3_prefill_budget]. *)
From Stdlib Require Import ZArith Lia.
From stdpp Require Import base tactics gmap strings numbers option list.
From S2P Require Import Prelude Blocks Request Hashing.

Local Open Scope Z_scope.

(** The scheduler's attributes these methods read. *)
Record ChunkConfig := mkChunkConfig {
  cc_block_size : Z;
  cc_hash_block_size : Z;
  use_eagle_block_drop : bool;
  mamba_has_prefill_checkpoint_blocks : bool;
  mamba_prefill_checkpoint_alignment : option Z;
  max_num_scheduled_tokens : Z;
  exl3_prefill_auto : bool;
  long_prefill_token_threshold : Z;
  mamba_partial_cache_hit : bool;
  mamba_fine_grained_prefix_cache : bool;
  num_prefill_lookahead : Z
}.

(** ** Checkpoints, kv_cache_interface.py *)

Definition get_mamba_prefill_checkpoint_position (num_toks hash_block_size : Z) (drop_eagle_block : bool) : Z :=
  let checkpoint_position := (num_toks - 1) / hash_block_size * hash_block_size in
  Z.max (if drop_eagle_block then checkpoint_position - hash_block_size else checkpoint_position) 0.

(** [None] is [AssertionError] *)
Definition is_mamba_prefill_checkpoint_valid (query_start query_end checkpoint_position hash_block_size
    mamba_block_size : Z) (checkpoint_alignment : option Z) : option bool :=
  match checkpoint_alignment with
  | None => Some false
  | Some a =>
      if negb (0 <? a) then None else
      let initial_state_col := (query_start - 1) / mamba_block_size in
      let checkpoint_col := cdiv query_end mamba_block_size - 2 in
      Some ((query_start mod hash_block_size =? 0)
            && (initial_state_col <? checkpoint_col)
            && (query_start + hash_block_size <=? checkpoint_position)
            && ((query_start <? checkpoint_position) && (checkpoint_position <? query_end))
            && ((checkpoint_position - query_start) mod a =? 0))
  end.

(** ** [_mamba_block_aligned_split] *)

Section Split.
Context (c : ChunkConfig).

(** [min((s for s in stops if start < s < end), default=end)] *)
Definition earliest_stop (start end_ : Z) (stops : list Z) : Z :=
  match filter (fun s => start < s < end_) stops with
  | [] => end_
  | s :: ss => foldl Z.min s ss
  end.

(** The largest prefill chunk the scheduler grants. *)
Definition max_prefill_tokens : Z :=
  let m := if exl3_prefill_auto c then Z.min (max_num_scheduled_tokens c) 2048 else max_num_scheduled_tokens c in
  if 0 <? long_prefill_token_threshold c then Z.min m (long_prefill_token_threshold c) else m.

(** The end of the chunk, rounded down to a block when the prefill goes on. *)
Definition rounded_end (start end_ prefill_end : Z) : Z :=
  if end_ <? prefill_end then
    let aligned_end := end_ / cc_block_size c * cc_block_size c in
    if (start <? aligned_end) || (cc_block_size c <=? max_prefill_tokens) then aligned_end else end_
  else end_.

(** The prompt's last hash boundary, when its state is registered. *)
Definition tail_boundary (r : Request) (use_internal_checkpoint : bool) : Z :=
  let t := if mamba_partial_cache_hit c && negb use_internal_checkpoint
           then num_prompt_tokens r / cc_hash_block_size c * cc_hash_block_size c else 0 in
  if negb (t =? 0) && use_eagle_block_drop c then Z.max (t - cc_hash_block_size c) 0 else t.

Definition junction_stop (r : Request) (start : Z) : Z :=
  let junction := shared_prefix_boundary r in
  if mamba_fine_grained_prefix_cache c && (junction <=? num_prompt_tokens r) then junction
  else start + (junction - start) / cc_block_size c * cc_block_size c.

(** The mandatory stops of a chunk. *)
Definition chunk_stops (r : Request) (start end_ last_cache_position : Z) (use_internal_checkpoint : bool) : list Z :=
  let block_size := cc_block_size c in
  let junction := shared_prefix_boundary r in
  let tail := tail_boundary r use_internal_checkpoint in
  [ if negb (start mod block_size =? 0) && negb use_internal_checkpoint
    then (start / block_size + 1) * block_size else 0;
    last_cache_position;
    if (last_cache_position <? tail) && (tail <? num_prompt_tokens r) then tail else 0;
    if (start <? junction) && (junction <? end_) then junction_stop r start else 0 ].

(** Whether the backend exports the state of this prefill from inside a chunk. *)
Definition uses_internal_checkpoint (r : Request) (start end_ prefill_end : Z) : option bool :=
  if mamba_has_prefill_checkpoint_blocks c && (prefill_end <=? end_) then
    is_mamba_prefill_checkpoint_valid start end_
      (get_mamba_prefill_checkpoint_position prefill_end (cc_hash_block_size c) (use_eagle_block_drop c))
      (cc_hash_block_size c) (cc_block_size c) (mamba_prefill_checkpoint_alignment c)
  else Some false.

Definition mamba_block_aligned_split (r : Request) (num_new num_new_local num_external : Z) : option Z :=
  let start := num_computed_tokens r + num_new_local + num_external in
  let prefill_end := Z.max (num_prompt_tokens r) (num_tokens r - 1) in
  if prefill_end <=? start then Some num_new else
  let block_size := cc_block_size c in
  let last_cache_position := num_tokens r - num_tokens r mod block_size in
  let last_cache_position :=
    if use_eagle_block_drop c then Z.max (last_cache_position - block_size) 0 else last_cache_position in
  let end_ := start + num_new in
  use_internal_checkpoint ← uses_internal_checkpoint r start end_ prefill_end;
  let last_cache_position := if (use_internal_checkpoint : bool) then 0 else last_cache_position in
  let end_ := rounded_end start end_ prefill_end in
  Some (Z.max (earliest_stop start end_ (chunk_stops r start end_ last_cache_position use_internal_checkpoint) - start) 0).

(** ** [_reserve_prefill_lookahead] *)

Definition reserve_prefill_lookahead (r : Request) (num_computed num_new : Z) : Z :=
  let remaining := num_tokens r - num_computed - num_new in
  Z.max (if (0 <? remaining) && (remaining <? num_prefill_lookahead c)
         then num_new - (num_prefill_lookahead c - remaining) else num_new) 0.

End Split.

(** ** [_exl3_prefill_budget]: the store is [exl3_int8_prefill_requests] *)

Definition exl3_prefill_budget (r : Request) (num_computed available : Z) : M (gset string) Z :=
  let remaining := num_prompt_tokens r - num_computed in
  if (remaining <? 4096) || (available <? 4096) then mret 2048 else
  planned ← get;
  if (10240 <=? remaining) || bool_decide (request_id r ∈ (planned : gset string)) then
    modify (fun s => {[request_id r]} ∪ s) ;; mret 6144
  else mret 2048.

(** ** Correctness *)

Lemma foldl_min_elem (l : list Z) : forall s, foldl Z.min s l = s \/ foldl Z.min s l ∈ l.
Proof.
  induction l as [|x l IH]; intros s; cbn; [by left|]. destruct (IH (Z.min s x)) as [->|Hin]; [|right; by right].
  destruct (Z.min_spec s x) as [[_ ->]|[_ ->]]; [by left|right; by left].
Qed.

Lemma foldl_min_le (l : list Z) : forall s x, x = s \/ x ∈ l -> foldl Z.min s l <= x.
Proof.
  induction l as [|y l IH]; intros s x Hx; cbn.
  - destruct Hx as [->|?%elem_of_nil]; [lia|done].
  - assert (foldl Z.min (Z.min s y) l <= Z.min s y) by (apply IH; by left).
    destruct Hx as [->|[->|Hx]%elem_of_cons]; [lia|lia|]. apply IH. by right.
Qed.

(** The stop is one of the list strictly inside the chunk and the first such, or
    the end when there is none. *)
Lemma earliest_stop_spec start end_ stops :
  let e := earliest_stop start end_ stops in
  (e = end_ \/ e ∈ stops /\ start < e < end_) /\ (forall s, s ∈ stops -> start < s < end_ -> e <= s).
Proof.
  unfold earliest_stop. assert (forall s, s ∈ filter (fun s => start < s < end_) stops <-> (start < s < end_) /\ s ∈ stops) as Hf
    by (intros s; rewrite list_elem_of_filter; tauto).
  destruct (filter _ stops) as [|s ss] eqn:E.
  - split; [by left|]. intros s Hs Hin. exfalso. apply (not_elem_of_nil s). apply Hf. done.
  - split.
    + right. assert (foldl Z.min s ss ∈ s :: ss) as Hin.
      { destruct (foldl_min_elem ss s) as [->|?]; [by left|by right]. }
      apply Hf in Hin. tauto.
    + intros x Hx Hin. apply foldl_min_le. assert (x ∈ s :: ss) as Hxs by by apply Hf.
      by apply elem_of_cons in Hxs.
Qed.

Section Correct.
Context (c : ChunkConfig) (block_size_pos : 0 < cc_block_size c).
Local Abbreviation bs := (cc_block_size c).

Lemma div_mul_bounds a : a - bs < a / bs * bs <= a.
Proof. pose proof (Z.div_mod a bs ltac:(lia)). pose proof (Z.mod_pos_bound a bs block_size_pos). lia. Qed.

Lemma multiple_of_block k : (k * bs) mod bs = 0.
Proof. apply Z.mod_mul. lia. Qed.

(** Rounding loses the chunk only when a chunk of a whole block can be granted. *)
Lemma rounded_end_spec start end_ prefill_end :
  let e := rounded_end c start end_ prefill_end in
  e <= end_ /\
  (e = end_ /\ prefill_end <= end_ \/ e mod bs = 0 /\ end_ - bs < e \/
   e = end_ /\ end_ / bs * bs <= start /\ max_prefill_tokens c < bs).
Proof.
  unfold rounded_end. pose proof (div_mul_bounds end_) as Hd. pose proof (multiple_of_block (end_ / bs)) as Hm.
  destruct (Z.ltb_spec end_ prefill_end); [|lia].
  destruct (Z.ltb_spec start (end_ / bs * bs)); cbn [orb]; [lia|].
  destruct (Z.leb_spec bs (max_prefill_tokens c)); lia.
Qed.

(** Where a chunk that leaves prefill to do may end. *)
Definition allowed_end (r : Request) (start n e : Z) : Prop :=
  e mod bs = 0 \/
  (mamba_partial_cache_hit c = true /\ e = tail_boundary c r false) \/
  (mamba_fine_grained_prefix_cache c = true /\ e = shared_prefix_boundary r /\ e <= num_prompt_tokens r) \/
  (max_prefill_tokens c < bs /\ (start + n) / bs * bs <= start).

(** A stop inside a chunk, when no state is exported from inside it. *)
Lemma stop_allowed r start n end_ last s :
  start < s < end_ -> end_ <= start + n -> last mod bs = 0 ->
  (forall s', s' ∈ chunk_stops c r start end_ last false -> start < s' < end_ -> s <= s') ->
  s ∈ chunk_stops c r start end_ last false -> 0 <= start -> allowed_end r start n s.
Proof.
  intros Hs Hend Hlast Hmin Hin Hst. unfold chunk_stops in *.
  pose proof (div_mul_bounds start) as Hdm.
  apply elem_of_cons in Hin as [E|Hin].
  { rewrite andb_true_r in E. revert E; destruct (negb _); intros E; [|lia]. left. rewrite E. by apply multiple_of_block. }
  apply elem_of_cons in Hin as [->|Hin]; [by left|].
  apply elem_of_cons in Hin as [E|Hin].
  { revert E; destruct ((last <? _) && _); intros E; [|lia]. subst s. right. left. split; [|done].
    unfold tail_boundary in Hs. destruct (mamba_partial_cache_hit c); [done|]. cbn in Hs. lia. }
  apply elem_of_cons in Hin as [E|Hin]; [|by apply elem_of_nil in Hin].
  revert E; destruct ((start <? shared_prefix_boundary r) && (shared_prefix_boundary r <? end_)); intros E; [|lia].
  unfold junction_stop in E. destruct (mamba_fine_grained_prefix_cache c) eqn:Ef; cbn [andb] in E.
  1: destruct (Z.leb_spec (shared_prefix_boundary r) (num_prompt_tokens r)); [right; right; left; split; [done|lia]|].
  all: left; destruct (Z.eqb_spec (start mod bs) 0) as [Hz|Hz].
  1, 3: rewrite E, Z.mod_add, Hz by lia; done.
  all: exfalso; assert (bs <= s - start) as Hge by
    (rewrite E in Hs |- *; assert (0 < (shared_prefix_boundary r - start) / bs) by nia; nia).
  all: assert (s <= (start / bs + 1) * bs) as Hle by (apply Hmin; [left|lia]).
  all: pose proof (Z.div_mod start bs ltac:(lia)); pose proof (Z.mod_pos_bound start bs block_size_pos); lia.
Qed.

Lemma last_cache_position_aligned (n : Z) (drop : bool) :
  let p := n - n mod bs in (if drop then Z.max (p - bs) 0 else p) mod bs = 0.
Proof.
  cbn zeta. assert (n - n mod bs = n / bs * bs) as -> by (pose proof (Z.div_mod n bs ltac:(lia)); lia).
  destruct drop; [|apply multiple_of_block]. destruct (Z.max_spec (n / bs * bs - bs) 0) as [[_ ->]|[_ ->]].
  - by apply Z.mod_0_l; lia.
  - replace (n / bs * bs - bs) with ((n / bs - 1) * bs) by lia. apply multiple_of_block.
Qed.

Lemma uses_internal_checkpoint_total r start end_ prefill_end :
  (forall a, mamba_prefill_checkpoint_alignment c = Some a -> 0 < a) ->
  exists b, uses_internal_checkpoint c r start end_ prefill_end = Some b /\ (b = true -> prefill_end <= end_).
Proof.
  intros Ha. unfold uses_internal_checkpoint, is_mamba_prefill_checkpoint_valid.
  destruct (mamba_has_prefill_checkpoint_blocks c); cbn [andb]; [|by exists false].
  destruct (Z.leb_spec prefill_end end_); [|by exists false].
  destruct (mamba_prefill_checkpoint_alignment c) as [a|]; [|by exists false].
  rewrite (proj2 (Z.ltb_lt 0 a)) by by apply Ha. by eexists.
Qed.

Lemma split_ok r n local ext :
  let start := num_computed_tokens r + local + ext in
  let prefill_end := Z.max (num_prompt_tokens r) (num_tokens r - 1) in
  0 <= start -> 0 <= n -> (forall a, mamba_prefill_checkpoint_alignment c = Some a -> 0 < a) ->
  exists s, mamba_block_aligned_split c r n local ext = Some s /\ 0 <= s <= n /\
    (0 < n -> bs <= n \/ max_prefill_tokens c < bs \/ prefill_end <= start + n -> 0 < s) /\
    (0 < s -> start + s < prefill_end ->
     uses_internal_checkpoint c r start (start + n) prefill_end = Some false -> allowed_end r start n (start + s)).
Proof.
  intros start prefill_end Hst Hn Ha. unfold mamba_block_aligned_split. fold start prefill_end.
  destruct (Z.leb_spec prefill_end start) as [Hd|Hp].
  { exists n. split_and!; [done|lia|lia|lia|lia]. }
  destruct (uses_internal_checkpoint_total r start (start + n) prefill_end Ha) as (b & -> & Hb). cbn [mbind option_bind].
  set (end_ := rounded_end c start (start + n) prefill_end).
  set (last := if b then 0 else _).
  eexists. split; [done|]. set (e := earliest_stop _ _ _).
  destruct (rounded_end_spec start (start + n) prefill_end) as [R1 R2]. fold end_ in R1, R2.
  destruct (earliest_stop_spec start end_ (chunk_stops c r start end_ last b)) as [E1 E2]. fold e in E1, E2.
  split_and!; [lia| | |].
  - destruct E1 as [->|[_ ?]]; lia.
  - intros Hn0 Hw. destruct E1 as [E|[_ ?]]; [|lia]. rewrite E.
    destruct R2 as [[-> _]|[[_ R2]|(-> & _ & _)]]; [lia| |lia].
    destruct (Z.le_gt_cases bs n) as [Hge|Hlt]; [lia|].
    assert (start < end_); [|lia]. unfold end_, rounded_end.
    destruct (Z.ltb_spec (start + n) prefill_end); [|lia].
    destruct (Z.ltb_spec start ((start + n) / bs * bs)); cbn [orb]; [done|].
    destruct (Z.leb_spec bs (max_prefill_tokens c)); lia.
  - intros Hs0 Hs1 [= ->]. replace (start + Z.max (e - start) 0) with e by lia.
    destruct E1 as [E|[Hin Hin']].
    + destruct R2 as [[E' ?]|[[R2 _]|(E' & R3 & R4)]]; [lia|left; by rewrite E|].
      right. right. right. done.
    + apply (stop_allowed r start n end_ last e); [lia|lia|apply last_cache_position_aligned|done|done|done].
Qed.

End Correct.


(** A prompt of 20 tokens in blocks of 8: an offer of 13 is cut to the block. *)
Definition chunk_demo_config : ChunkConfig := mkChunkConfig 8 8 false false None 64 false 0 false false 0.
Definition chunk_demo_request : Request := demo_request None None [] (replicate 20 7).


(** The drafter's look-ahead.  The reserve never grants more than offered;
    a granted chunk either finishes the known tokens or leaves at least the
    look-ahead for the next chunk; and it only shortens a chunk that would end
    inside the look-ahead. *)
Theorem reserve_prefill_lookahead_correct c r computed n :
  0 <= n -> 0 <= num_prefill_lookahead c ->
  let n' := reserve_prefill_lookahead c r computed n in
  let left_ k := num_tokens r - computed - k in
  0 <= n' <= n /\ (0 < n' -> left_ n' <= 0 \/ num_prefill_lookahead c <= left_ n') /\
  (left_ n <= 0 \/ num_prefill_lookahead c <= left_ n -> n' = n).
Proof.
  intros Hn Hl. unfold reserve_prefill_lookahead. cbn zeta.
  destruct (Z.ltb_spec 0 (num_tokens r - computed - n)); cbn [andb];
    [destruct (Z.ltb_spec (num_tokens r - computed - n) (num_prefill_lookahead c))|]; lia.
Qed.

Lemma reserve_prefill_lookahead_correct_witness :
  reserve_prefill_lookahead (mkChunkConfig 8 8 false false None 64 false 0 false false 3) chunk_demo_request 0 18 = 17 /\
  (0 <= 17 <= 18).
Proof.
  destruct (reserve_prefill_lookahead_correct (mkChunkConfig 8 8 false false None 64 false 0 false false 3)
    chunk_demo_request 0 18) as [Hb _]; [lia|cbn; lia|].
  assert (reserve_prefill_lookahead (mkChunkConfig 8 8 false false None 64 false 0 false false 3) chunk_demo_request 0 18 = 17)
    as Hv by (vm_compute; reflexivity).
  rewrite Hv in Hb. split; [exact Hv|exact Hb].
Defined.
