(* ===== verification/DeferredFree.v ===== *)
(** * Fenced release of KV blocks

    With several batches in flight a finished or preempted request's blocks may
    still be written by a step that runs on the device.  The scheduler
    (vllm/v1/core/sched/scheduler.py) then parks them in [deferred_frees] behind
    a fence, the number of the last scheduled step, and returns them to the pool
    when the output of that step has been processed:
    [_free_request_blocks], [_free_cow_retained_blocks],
    [_drain_deferred_frees], and the places of [schedule] and
    [update_from_output] that count the steps. *)
From Stdlib Require Import ZArith Lia.
From stdpp Require Import base tactics gmap strings numbers option list relations.
From S2P Require Import Prelude Blocks FreeQueue Request Hashing BlockMap Env Metrics BlockPool BlockPoolInv BlockPoolCache BlockPoolAlloc BlockPoolInit BlockPoolFull BlockPoolSpec Managers ManagerInv ManagerOps ManagerSpec ManagerHits ManagerWindow Coordinator CoordinatorHits CoordinatorSpec KVCacheManager KVCacheManagerSpec.

Local Open Scope Z_scope.

(** The scheduler's attributes these methods use. *)
Record FenceState := mkFence {
  fn_kv_cache_manager : KVCacheManager;
  deferred_frees : list (Z * list loc);
  sched_step_seq : Z;
  processed_step_seq : Z;
  defer_block_free : bool
}.

Definition fn_set_km (k : KVCacheManager) (s : FenceState) : FenceState :=
  mkFence k (deferred_frees s) (sched_step_seq s) (processed_step_seq s) (defer_block_free s).
Definition fn_set_deferred (d : list (Z * list loc)) (s : FenceState) : FenceState :=
  mkFence (fn_kv_cache_manager s) d (sched_step_seq s) (processed_step_seq s) (defer_block_free s).
Definition fn_set_seqs (sched processed : Z) (s : FenceState) : FenceState :=
  mkFence (fn_kv_cache_manager s) (deferred_frees s) sched processed (defer_block_free s).
Definition on_fkm {A} (c : M KVCacheManager A) : M FenceState A := zoom fn_kv_cache_manager fn_set_km c.

Section DeferredFree.
Context `{Env}.

(** [_free_request_blocks]; [last_sched_seq] is the request's attribute. *)
Definition free_request_blocks (r : Request) (last_sched_seq : Z) : M FenceState unit :=
  s ← get;
  if negb (defer_block_free s) || (last_sched_seq <=? processed_step_seq s) then on_fkm (km_free r) else
  blocks ← on_fkm (km_pop_blocks_for_free r);
  match blocks with
  | [] => mret tt
  | _ => modify (fun s => fn_set_deferred (deferred_frees s ++ [(sched_step_seq s, blocks)]) s)
  end.

(** [_free_cow_retained_blocks] *)
Definition free_cow_retained_blocks (blocks : list loc) (fence_seq : Z) : M FenceState unit :=
  s ← get;
  if negb (defer_block_free s) || (fence_seq <=? processed_step_seq s)
  then on_fkm (on_block_pool (free_blocks blocks))
  else modify (fun s => fn_set_deferred (deferred_frees s ++ [(fence_seq, reverse blocks)]) s).

(** [_drain_deferred_frees]: each round takes one entry. *)
Fixpoint drain_loop (fuel : nat) : M FenceState unit :=
  s ← get;
  match deferred_frees s with
  | [] => mret tt
  | (fence, blocks) :: rest =>
      if processed_step_seq s <? fence then mret tt else
      match fuel with
      | O => raise OutOfFuel
      | S fuel' =>
          modify (fn_set_deferred rest) ;;
          on_fkm (on_block_pool (free_blocks (reverse blocks))) ;;
          drain_loop fuel'
      end
  end.
Definition drain_deferred_frees : M FenceState unit :=
  s ← get; drain_loop (length (deferred_frees s)).

(** The end of [schedule]: the pending block copies are handed to the workers
    and their blocks retained until the copies have run; then a step that
    schedules tokens advances the sequence. *)
Definition hand_over_copies : M FenceState (list (Z * Z)) :=
  '(copies, retained) ← on_fkm take_kv_cache_block_copies;
  s ← get;
  (match copies with [] => mret tt | _ => free_cow_retained_blocks retained (sched_step_seq s + 1) end) ;;
  mret copies.
Definition advance_sched_seq (total_num_scheduled_tokens : Z) : M FenceState unit :=
  modify (fun s => if defer_block_free s && (0 <? total_num_scheduled_tokens)
                   then fn_set_seqs (sched_step_seq s + 1) (processed_step_seq s) s else s).

(** The start of [update_from_output]. *)
Definition process_step (total_num_scheduled_tokens : Z) : M FenceState unit :=
  s ← get;
  if defer_block_free s && (0 <? total_num_scheduled_tokens) then
    modify (fun s => fn_set_seqs (sched_step_seq s) (processed_step_seq s + 1) s) ;;
    drain_deferred_frees
  else mret tt.

(** ** Ownership of the parked blocks *)

Local Abbreviation kms s := (single_type_managers (fn_kv_cache_manager s)).
Local Abbreviation kpool s := (block_pool (fn_kv_cache_manager s)).
Definition parked (s : FenceState) : list loc := concat (deferred_frees s).*2.

Record fence_inv (ext : loc -> Z) (s : FenceState) : Prop := {
  fi_pool : exists free, pool_wf (kpool s) free;
  fi_owner : coord_inv (kms s) (kpool s) (fun x => ext x + occ x (parked s));
  fi_ext : forall x, 0 <= ext x;
  fi_blocks : forall x, x ∈ parked s -> x ∈ blocks (kpool s)
}.

Lemma parked_snoc (d : list (Z * list loc)) f bs : concat (d ++ [(f, bs)]).*2 = concat d.*2 ++ bs.
Proof. rewrite fmap_app, concat_app. cbn. by rewrite app_nil_r. Qed.

Lemma elem_of_concat {A} (x : A) ls : x ∈ concat ls <-> exists l, x ∈ l /\ l ∈ ls.
Proof.
  induction ls as [|l ls IH]; cbn; [split; [by intros ?%elem_of_nil|by intros (? & _ & ?%elem_of_nil)]|].
  rewrite elem_of_app, IH. setoid_rewrite elem_of_cons. naive_solver.
Qed.

(** Popping a request's blocks moves its references to whoever took them. *)
Lemma mgr_pop_inv m p pre post ext rid :
  mgr_inv m p (others pre post ext) ->
  wp (on_mgr (pop_blocks_for_free rid)) (fun bs t => t.2 = p /\ bs = table m rid /\
    req_to_blocks t.1 !! rid = None /\ same_mgr rid m t.1 /\
    mgr_inv t.1 p (others pre post (fun x => ext x + occ x bs))) (m, p).
Proof.
  intros Hi. apply wp_zoom. cbn [fst]. unfold pop_blocks_for_free. apply wp_bind, wp_gets.
  do 3 apply wp_bind, wp_modify. apply wp_ret. cbn [fst snd]. fold (table m rid).
  split_and!; [done|done|apply lookup_delete_eq|split; cbn; [done|..]; intros r Hr; by rewrite lookup_delete_ne|].
  pose proof Hi as [H1 H2 H3 H4 H5 H6 H7 H8 H9].
  assert (forall r x, x ∈ default [] (delete rid (req_to_blocks m) !! r) -> x ∈ table m r) as Ht.
  { intros r x. destruct (decide (r = rid)) as [->|Hne].
    - rewrite lookup_delete_eq. by intros ?%elem_of_nil.
    - by rewrite lookup_delete_ne. }
  split; cbn; try done.
  - intros r x Hx. apply (H5 r). by apply Ht.
  - intros x Hx Hn. rewrite (H7 x Hx Hn). unfold held, others. cbn. rewrite (held_in_delete _ rid).
    unfold table, cow_refs. lia.
  - intros x. specialize (H8 x). unfold others in *. pose proof (occ_nonneg x (table m rid)). lia.
  - intros r idx src Hd. apply lookup_delete_Some in Hd as [Hne Hd]. destruct (H9 r idx src Hd) as (? & Hl & ?).
    split_and!; [done| |done]. unfold table in *. cbn. by rewrite lookup_delete_ne.
Qed.

Lemma co_pop_spec rid ms p ext :
  coord_inv ms p ext ->
  wp (co_pop_blocks_for_free rid) (fun bs t => t.2 = p /\ bs = concat (flip table rid <$> ms) /\
    Forall (fun m => req_to_blocks m !! rid = None) t.1 /\ Forall2 (same_mgr rid) ms t.1 /\
    coord_inv t.1 p (fun x => ext x + occ x bs)) (ms, p).
Proof.
  intros Hi. unfold co_pop_blocks_for_free. apply wp_bind.
  eapply wp_mono; [apply (wp_each_manager _ (fun pre out post q => q = p /\
    exists done, ms = done ++ post /\ out = flip table rid <$> done /\
      Forall (fun m => req_to_blocks m !! rid = None) pre /\ Forall2 (same_mgr rid) done pre /\
      coord_inv (pre ++ post) p (fun x => ext x + occ x (concat out))))|].
  - split; [done|]. exists []. split_and!; [done|done|by apply Forall_nil|by apply Forall2_nil|].
    cbn. apply (coord_inv_ext ms p ext); [done|done|intros; rewrite occ_nil; lia|].
    intros x. rewrite occ_nil. pose proof (ci_ext _ _ _ Hi x). lia.
  - intros pre out m post q _ (-> & d & -> & -> & Hn & Hs & Hc).
    eapply wp_mono; [apply (mgr_pop_inv m p pre post); by apply (ci_mgr _ _ _ Hc)|].
    intros bs [m' q'] (-> & -> & Hrid & Hsm & Hm). cbn [fst snd] in *. split; [done|].
    exists (d ++ [m]). split_and!.
    + by rewrite <- app_assoc.
    + by rewrite fmap_app.
    + apply Forall_app. split; [done|by apply Forall_singleton].
    + apply Forall2_app; [done|apply Forall2_cons; split; [done|by apply Forall2_nil]].
    + rewrite <- app_assoc. cbn. rewrite concat_app. cbn. rewrite app_nil_r.
      assert (forall x, (ext x + occ x (concat (flip table rid <$> d))) + occ x (table m rid) =
        ext x + occ x (concat (flip table rid <$> d) ++ table m rid)) as He by (intros x; rewrite occ_app; lia).
      apply (coord_inv_move pre m post p _ m' p _ Hc); [done| |].
      * destruct Hm as [H1 H2 H3 H4 H5 H6 H7 H8 H9]. split; try done.
        -- intros x Hx Hnn. rewrite (H7 x Hx Hnn). unfold others. rewrite He. done.
        -- intros x. specialize (H8 x). unfold others in *. rewrite He in H8. done.
      * intros x. pose proof (ci_ext _ _ _ Hi x). pose proof (occ_nonneg x (concat (flip table rid <$> d) ++ table m rid)). lia.
  - intros out [ms' q] [_ (Eq & d & E & -> & Hn & Hs & Hc)]. cbn [fst snd] in *. subst q. apply wp_ret. cbn [fst snd].
    rewrite app_nil_r in E, Hc. subst d. done.
Qed.

(** Handing over the copies moves the references they keep. *)
Definition copied_blocks (copies : list (loc * loc)) : list loc := concat ((fun sd => [sd.1; sd.2]) <$> copies).

Lemma copied_blocks_occ x copies : occ x (copied_blocks copies) = occ x (copies.*1 ++ copies.*2).
Proof.
  assert (copied_blocks copies ≡ₚ copies.*1 ++ copies.*2) as Hp.
  { induction copies as [|[a b] copies IH]; [done|].
    change (a :: b :: copied_blocks copies ≡ₚ a :: copies.*1 ++ b :: copies.*2).
    by rewrite IH, <- Permutation_middle. }
  unfold occ, zlen. by rewrite Hp.
Qed.

Lemma mgr_take_copies_inv m p pre post ext :
  mgr_inv m p (others pre post ext) ->
  wp (on_mgr take_pending_cow_copies) (fun copies t => t.2 = p /\ copies = pending_cow_copies m /\
    mgr_inv t.1 p (others pre post (fun x => ext x + occ x (copied_blocks copies)))) (m, p).
Proof.
  intros Hi. apply wp_zoom. cbn [fst]. apply wp_bind, wp_gets, wp_bind, wp_modify, wp_ret. cbn [fst snd].
  split_and!; [done|done|]. pose proof Hi as [H1 H2 H3 H4 H5 H6 H7 H8 H9]. split; try done.
  - by intros x ?%elem_of_nil.
  - intros x Hx Hn. rewrite (H7 x Hx Hn). unfold held, others. cbn. rewrite copied_blocks_occ, occ_nil. unfold cow_refs. lia.
  - intros x. specialize (H8 x). unfold others in *. pose proof (occ_nonneg x (copied_blocks (pending_cow_copies m))). lia.
Qed.

Lemma co_take_copies_spec ms p ext :
  coord_inv ms p ext ->
  wp (each_manager (fun _ => on_mgr take_pending_cow_copies)) (fun out t => t.2 = p /\
    (forall x, x ∈ copied_blocks (concat out) -> x ∈ blocks p) /\
    coord_inv t.1 p (fun x => ext x + occ x (copied_blocks (concat out)))) (ms, p).
Proof.
  intros Hi. eapply wp_mono; [apply (wp_each_manager _ (fun pre out post q => q = p /\
    (forall x, x ∈ copied_blocks (concat out) -> x ∈ blocks p) /\
    coord_inv (pre ++ post) p (fun x => ext x + occ x (copied_blocks (concat out)))))|].
  - split_and!; [done|by intros x ?%elem_of_nil|]. cbn. apply (coord_inv_ext ms p ext); [done|done|intros; rewrite occ_nil; lia|].
    intros x. rewrite occ_nil. pose proof (ci_ext _ _ _ Hi x). lia.
  - intros pre out m post q _ (-> & Hb & Hc). pose proof (ci_mgr _ _ _ Hc pre m post eq_refl) as Hm0.
    eapply wp_mono; [by apply (mgr_take_copies_inv m p pre post)|].
    intros cs [m' q'] (-> & -> & Hm). cbn [fst snd] in *.
    assert (copied_blocks (concat (out ++ [pending_cow_copies m])) =
      copied_blocks (concat out) ++ copied_blocks (pending_cow_copies m)) as Ecb.
    { unfold copied_blocks. rewrite concat_app. cbn. by rewrite app_nil_r, fmap_app, concat_app. }
    rewrite Ecb. split_and!; [done| |].
    + intros x [Hx|Hx]%elem_of_app; [by apply Hb|]. apply (mi_cow _ _ _ Hm0). unfold cow_refs.
      destruct (decide (x ∈ (pending_cow_copies m).*1 ++ (pending_cow_copies m).*2)) as [|Hno]; [done|].
      apply occ_zero in Hno. rewrite <- copied_blocks_occ in Hno. by apply occ_zero in Hno.
    + rewrite <- app_assoc. cbn. apply (coord_inv_move pre m post p _ m' p _ Hc); [done| |].
      * destruct Hm as [H1 H2 H3 H4 H5 H6 H7 H8 H9]. split; try done.
        -- intros x Hx Hnn. rewrite (H7 x Hx Hnn). unfold others. rewrite occ_app. lia.
        -- intros x. specialize (H8 x). unfold others in *. rewrite occ_app. lia.
      * intros x. pose proof (ci_ext _ _ _ Hi x).
        pose proof (occ_nonneg x (copied_blocks (concat out) ++ copied_blocks (pending_cow_copies m))). lia.
  - intros out [ms' q] [_ (Eq & Hb & Hc)]. cbn [fst snd] in *. subst q. by rewrite app_nil_r in Hc.
Qed.

(** ** The operations *)

(** Blocks whose references the caller owns go back to the pool. *)
Lemma release_spec k free ext bs :
  pool_wf (block_pool k) free ->
  coord_inv (single_type_managers k) (block_pool k) (fun x => ext x + occ x bs) ->
  (forall x, 0 <= ext x) -> (forall x, x ∈ bs -> x ∈ blocks (block_pool k)) ->
  wp (on_block_pool (free_blocks bs)) (fun _ k' => single_type_managers k' = single_type_managers k /\
    same_config (block_pool k) (block_pool k') /\ (exists free', pool_wf (block_pool k') free') /\
    coord_inv (single_type_managers k') (block_pool k') ext) k.
Proof.
  intros Hwf Hi He Hb. apply wp_zoom. eapply wp_mono; [apply (free_blocks_spec _ free bs Hwf Hb)|].
  - intros x Hx Hn. rewrite (ci_refs _ _ _ Hi) by (done || by apply Hb).
    pose proof (total_held_nonneg (single_type_managers k) x). specialize (He x). lia.
  - intros [] p' [F1 F2 F3]. cbn. pose proof (as_config _ _ F2) as Hc. split_and!; [done|done|by eexists|].
    apply (coord_inv_ext _ (block_pool k) (fun x => ext x + occ x bs)); [done|done| |done].
    intros x Hx Hn. rewrite F3. lia.
Qed.

(** Nothing but the manager, the queue and the counters. *)
Definition fence_next (s s' : FenceState) : Prop :=
  defer_block_free s' = defer_block_free s /\ processed_step_seq s <= processed_step_seq s' /\
  sched_step_seq s <= sched_step_seq s' /\ same_config (kpool s) (kpool s') /\
  forall f bs, (f, bs) ∈ deferred_frees s -> (f, bs) ∈ deferred_frees s' \/ f <= processed_step_seq s'.

Lemma fence_next_refl s : fence_next s s.
Proof. split_and!; [done|lia|lia|done|by left]. Qed.

Lemma fence_next_trans s1 s2 s3 : fence_next s1 s2 -> fence_next s2 s3 -> fence_next s1 s3.
Proof.
  intros (A1 & A2 & A3 & A4 & A5) (B1 & B2 & B3 & B4 & B5). split_and!; [congruence|lia|lia|by etrans|].
  intros f bs Hf. destruct (A5 f bs Hf) as [Hf2|]; [by apply B5|right; lia].
Qed.

Lemma free_request_blocks_spec ext s r last :
  fence_inv ext s ->
  wp (free_request_blocks r last) (fun _ s' => fence_inv ext s' /\ fence_next s s' /\
    Forall (fun m => req_to_blocks m !! request_id r = None) (kms s') /\
    (defer_block_free s = true -> processed_step_seq s < last ->
     processed_step_seq s' = processed_step_seq s /\ kpool s' = kpool s /\
     forall m x, m ∈ kms s -> x ∈ table m (request_id r) ->
       exists bs, (sched_step_seq s, bs) ∈ deferred_frees s' /\ x ∈ bs)) s.
Proof.
  intros [[free Hwf] Ho He Hb]. unfold free_request_blocks. apply wp_bind, wp_get.
  destruct (negb (defer_block_free s) || (last <=? processed_step_seq s)) eqn:Eb.
  - apply wp_zoom, wp_zoom. eapply wp_mono; [by apply (co_free_spec (fun _ => False) (request_id r) _ _ free)|].
    intros [] [ms p] [P1 (fr & P2 & _) P3 P4 _ P6 _]. cbn [fst snd] in *. split_and!.
    + split; cbn; [by exists fr|done|done|]. intros x Hx. rewrite (sc_blocks _ _ P3). by apply Hb.
    + split_and!; cbn; [done|lia|lia|done|by left].
    + cbn. eapply Forall2_Forall_r; [exact P6|]. apply Forall_true. by intros m' m [? _].
    + intros Hd Hl. rewrite Hd in Eb. cbn in Eb. apply Z.leb_le in Eb. lia.
  - apply wp_bind, wp_zoom, wp_zoom. eapply wp_mono; [by apply co_pop_spec|].
    intros bs [ms p] (Ep & Ebs & P3 & P4 & P5). cbn [fst snd] in *. subst p. cbn.
    assert (forall m x, m ∈ kms s -> x ∈ table m (request_id r) -> x ∈ bs) as Hin.
    { intros m x Hm Hx. rewrite Ebs. apply elem_of_concat. exists (table m (request_id r)). split; [done|].
      apply list_elem_of_fmap. by exists m. }
    assert (forall x, x ∈ bs -> x ∈ blocks (kpool s)) as Hbs.
    { intros x. rewrite Ebs. intros (l & Hx & (m & -> & Hm)%list_elem_of_fmap)%elem_of_concat.
      apply list_elem_of_split in Hm as (pre & post & E). apply (mi_blocks _ _ _ (ci_mgr _ _ _ Ho pre m post E) (request_id r)).
      done. }
    destruct bs as [|b0 bs0].
    { apply wp_ret. cbn. split_and!; [|split_and!; cbn; [done|lia|lia|done|by left]|done|].
      - split; cbn; [by exists free| |done|done]. apply (coord_inv_ext _ _ _ _ _ P5); [done| |].
        + intros x _ _. rewrite occ_nil. unfold parked. cbn. lia.
        + intros x. specialize (He x). pose proof (occ_nonneg x (parked s)). unfold parked in *. cbn. lia.
      - intros _ _. split_and!; [done|done|]. intros m x Hm Hx. by specialize (Hin m x Hm Hx) as ?%elem_of_nil. }
    set (bs := b0 :: bs0) in *. apply wp_modify. cbn. split_and!; [| |done|].
    + split; cbn; [by exists free| |done|].
      * apply (coord_inv_ext _ _ _ _ _ P5); [done| |].
        -- intros x _ _. unfold parked. cbn. rewrite parked_snoc, occ_app. lia.
        -- intros x. specialize (He x). pose proof (occ_nonneg x (concat (deferred_frees s ++ [(sched_step_seq s, bs)]).*2)).
           unfold parked. cbn. lia.
      * unfold parked. cbn. rewrite parked_snoc. intros x [Hx|Hx]%elem_of_app; [by apply Hb|by apply Hbs].
    + split_and!; cbn; [done|lia|lia|done|]. intros f b Hf. left. apply elem_of_app. by left.
    + intros _ _. split_and!; [done|done|]. intros m x Hm Hx. exists bs. split; [|by apply (Hin m x)].
      apply elem_of_app. right. by left.
Qed.

Lemma free_cow_spec ext s bs fence :
  fence_inv (fun x => ext x + occ x bs) s -> (forall x, 0 <= ext x) -> (forall x, x ∈ bs -> x ∈ blocks (kpool s)) ->
  wp (free_cow_retained_blocks bs fence) (fun _ s' => fence_inv ext s' /\ fence_next s s' /\
    sched_step_seq s' = sched_step_seq s) s.
Proof.
  intros [[free Hwf] Ho _ Hb] He Hbs. unfold free_cow_retained_blocks. apply wp_bind, wp_get.
  destruct (negb _ || _).
  - apply wp_zoom. eapply wp_mono; [apply (release_spec _ free (fun x => ext x + occ x (parked s)) bs Hwf)|].
    + apply (coord_inv_ext _ _ _ _ _ Ho); [done|intros; lia|].
      intros x. specialize (He x). pose proof (occ_nonneg x (parked s)). pose proof (occ_nonneg x bs). lia.
    + intros x. specialize (He x). pose proof (occ_nonneg x (parked s)). lia.
    + done.
    + intros [] k' (R1 & R2 & R3 & R4). split_and!; [|split_and!; cbn; [done|lia|lia|done|by left]|done].
      split; cbn; [done|done|done|]. intros x Hx. rewrite (sc_blocks _ _ R2). by apply Hb.
  - apply wp_modify. split_and!; [|split_and!; cbn; [done|lia|lia|done|]|done].
    + split; cbn; [by exists free| |done|].
      * apply (coord_inv_ext _ _ _ _ _ Ho); [done| |].
        -- intros x _ _. unfold parked. cbn. rewrite parked_snoc, occ_app, occ_reverse. lia.
        -- intros x. specialize (He x). pose proof (occ_nonneg x (concat (deferred_frees s ++ [(fence, reverse bs)]).*2)).
           unfold parked. cbn. lia.
      * unfold parked. cbn. rewrite parked_snoc. intros x [Hx|Hx]%elem_of_app; [by apply Hb|].
        apply Hbs. by apply elem_of_reverse.
    + intros f b Hf. left. apply elem_of_app. by left.
Qed.

(** The loop returns the entries up to the first pending fence. *)
Lemma drain_spec ext fuel : forall s,
  fence_inv ext s -> (length (deferred_frees s) <= fuel)%nat ->
  wp (drain_loop fuel) (fun _ s' => fence_inv ext s' /\ fence_next s s' /\
    processed_step_seq s' = processed_step_seq s /\ sched_step_seq s' = sched_step_seq s /\
    exists done, deferred_frees s = done ++ deferred_frees s' /\
      Forall (fun e => e.1 <= processed_step_seq s) done /\
      match deferred_frees s' with [] => True | (f, _) :: _ => processed_step_seq s < f end) s.
Proof.
  induction fuel as [|fuel IH]; intros s Hi Hf; cbn [drain_loop]; apply wp_bind, wp_get;
    destruct (deferred_frees s) as [|[f bs] rest] eqn:Ed.
  - apply wp_ret. split_and!; [done|apply fence_next_refl|done|done|]. exists []. by rewrite Ed.
  - cbn in Hf. lia.
  - apply wp_ret. split_and!; [done|apply fence_next_refl|done|done|]. exists []. by rewrite Ed.
  - destruct (Z.ltb_spec (processed_step_seq s) f) as [Hlt|Hge].
    { apply wp_ret. split_and!; [done|apply fence_next_refl|done|done|]. exists []. rewrite Ed. by split_and!. }
    apply wp_bind, wp_modify, wp_bind, wp_zoom. cbn. destruct Hi as [[free Hwf] Ho He Hb].
    assert (parked s = bs ++ concat rest.*2) as Ep by (unfold parked; by rewrite Ed).
    eapply wp_mono; [apply (release_spec _ free (fun x => ext x + occ x (concat rest.*2)) (reverse bs) Hwf)|].
    + apply (coord_inv_ext _ _ _ _ _ Ho); [done|intros x _ _; rewrite Ep, occ_app, occ_reverse; lia|].
      intros x. specialize (He x). pose proof (occ_nonneg x (concat rest.*2)). pose proof (occ_nonneg x (reverse bs)). lia.
    + intros x. specialize (He x). pose proof (occ_nonneg x (concat rest.*2)). lia.
    + intros x Hx. apply Hb. rewrite Ep, elem_of_app. left. by apply elem_of_reverse.
    + intros [] k' (R1 & R2 & R3 & R4). set (s1 := fn_set_km k' (fn_set_deferred rest s)).
      assert (fence_inv ext s1) as Hi1.
      { split; cbn; [done|done|done|]. intros x Hx. rewrite (sc_blocks _ _ R2). apply Hb. rewrite Ep, elem_of_app. by right. }
      assert (fence_next s s1) as Hn1.
      { split_and!; cbn; [done|lia|lia|done|]. rewrite Ed. intros f' b [[= -> ->]|Hin]%elem_of_cons; [by right|by left]. }
      eapply wp_mono; [apply (IH s1 Hi1); cbn in *; lia|].
      intros [] s2 (I2 & N2 & P2 & Q2 & d & E2 & F2 & L2). cbn in *.
      split_and!; [done|by eapply fence_next_trans|done|done|]. exists ((f, bs) :: d).
      split_and!; [by rewrite E2|by apply Forall_cons|by destruct (deferred_frees s2) as [|[]]].
Qed.

Lemma process_step_spec ext s total :
  fence_inv ext s ->
  wp (process_step total) (fun _ s' => fence_inv ext s' /\ fence_next s s') s.
Proof.
  intros Hi. unfold process_step. apply wp_bind, wp_get. destruct (_ && _); [|apply wp_ret; split; [done|apply fence_next_refl]].
  apply wp_bind, wp_modify. unfold drain_deferred_frees. apply wp_bind, wp_get.
  set (s1 := fn_set_seqs _ _ s). assert (fence_inv ext s1) as Hi1 by (destruct Hi; by split).
  eapply wp_mono; [apply (drain_spec ext _ s1 Hi1); lia|]. intros [] s2 (I2 & N2 & _). split; [done|].
  eapply fence_next_trans; [|exact N2]. split_and!; cbn; [done|lia|lia|done|by left].
Qed.

Lemma hand_over_copies_spec ext s :
  fence_inv ext s ->
  wp hand_over_copies (fun _ s' => fence_inv ext s' /\ fence_next s s') s.
Proof.
  intros [[free Hwf] Ho He Hb]. unfold hand_over_copies, take_kv_cache_block_copies. apply wp_bind, wp_zoom, wp_bind, wp_zoom.
  eapply wp_mono; [by apply co_take_copies_spec|]. intros out [ms p] (Ep & Hbl & Hc). cbn [fst snd] in *. subst p.
  apply wp_bind, wp_gets, wp_ret. cbn. apply wp_bind, wp_get, wp_bind. fold (copied_blocks (concat out)).
  set (s1 := fn_set_km _ s).
  assert (fence_inv (fun x => ext x + occ x (copied_blocks (concat out))) s1) as Hi1.
  { split; cbn; [by exists free| |intros x; specialize (He x); pose proof (occ_nonneg x (copied_blocks (concat out))); lia|done].
    apply (coord_inv_ext _ _ _ _ _ Hc); [done|intros; unfold parked; cbn; lia|].
    intros x. specialize (He x). pose proof (occ_nonneg x (copied_blocks (concat out))). pose proof (occ_nonneg x (parked s)).
    unfold parked in *. cbn. lia. }
  assert (fence_next s s1) as Hn1 by (split_and!; cbn; [done|lia|lia|done|by left]).
  destruct (concat out) as [|c0 cs] eqn:Eo; cbn [fmap list_fmap].
  - apply wp_ret, wp_ret. split; [|done]. destruct Hi1 as [J1 J2 J3 J4]. split; [done| |done|done].
    apply (coord_inv_ext _ _ _ _ _ J2); [done|intros; cbn; rewrite occ_nil; lia|].
    intros x. specialize (He x). pose proof (occ_nonneg x (parked s1)). lia.
  - rewrite <- Eo in *. eapply wp_mono; [by apply (free_cow_spec ext s1 _ _ Hi1)|].
    intros [] s2 (I2 & N2 & _). apply wp_ret. split; [done|]. exact (fence_next_trans _ _ _ Hn1 N2).
Qed.

(** ** Runs *)

(** A call of the KV cache manager that keeps the ownership invariant whatever
    others hold, as its operations do. *)
Definition owner_step (k k' : KVCacheManager) : Prop :=
  same_config (block_pool k) (block_pool k') /\
  forall ext free, pool_wf (block_pool k) free -> coord_inv (single_type_managers k) (block_pool k) ext ->
    exists free', pool_wf (block_pool k') free' /\ coord_inv (single_type_managers k') (block_pool k') ext.

Inductive fence_step (s : FenceState) : FenceState -> Prop :=
  | step_free r last s' : free_request_blocks r last s = Ok tt s' -> fence_step s s'
  | step_copies cs s' : hand_over_copies s = Ok cs s' -> fence_step s s'
  | step_schedule total s' : advance_sched_seq total s = Ok tt s' -> fence_step s s'
  | step_process total s' : process_step total s = Ok tt s' -> fence_step s s'
  | step_manager k' : owner_step (fn_kv_cache_manager s) k' -> fence_step s (fn_set_km k' s).

Lemma fence_step_ok ext s s' : fence_inv ext s -> fence_step s s' -> fence_inv ext s' /\ fence_next s s'.
Proof.
  intros Hi [r last s1 E|cs s1 E|total s1 E|total s1 E|k' [Hc Hk]].
  - pose proof (free_request_blocks_spec ext s r last Hi) as Hw. unfold wp in Hw. rewrite E in Hw. tauto.
  - pose proof (hand_over_copies_spec ext s Hi) as Hw. unfold wp in Hw. rewrite E in Hw. done.
  - injection E as <-. destruct (_ && _); [|split; [done|apply fence_next_refl]].
    split; [by destruct Hi|]. split_and!; cbn; [done|lia|lia|done|by left].
  - pose proof (process_step_spec ext s total Hi) as Hw. unfold wp in Hw. rewrite E in Hw. done.
  - destruct Hi as [[free Hwf] Ho He Hb]. destruct (Hk _ _ Hwf Ho) as (free' & Hwf' & Ho'). split.
    + split; cbn; [by exists free'|done|done|]. intros x Hx. rewrite (sc_blocks _ _ Hc). by apply Hb.
    + split_and!; cbn; [done|lia|lia|done|by left].
Qed.

Lemma fence_run_ok ext s s' : fence_inv ext s -> rtc fence_step s s' -> fence_inv ext s' /\ fence_next s s'.
Proof.
  intros Hi Hr. revert Hi. induction Hr as [s|s1 s2 s3 Hs _ IH]; intros Hi; [split; [done|apply fence_next_refl]|].
  destruct (fence_step_ok ext s1 s2 Hi Hs) as [Hi2 Hn2]. destruct (IH Hi2) as [Hi3 Hn3].
  split; [done|by eapply fence_next_trans].
Qed.

(** A parked block is not free. *)
Lemma parked_not_free ext s x :
  fence_inv ext s -> x ∈ parked s -> x <> null_block (kpool s) ->
  exists free, pool_wf (kpool s) free /\ x ∉ free.
Proof.
  intros [[free Hwf] Ho He Hb] Hx Hn. exists free. split; [done|].
  intros (_ & _ & Hz)%(pa_free _ _ (pw_alloc _ _ Hwf)).
  pose proof (ci_refs _ _ _ Ho x (Hb x Hx) Hn) as Hr. pose proof (occ_pos x _ Hx).
  pose proof (total_held_nonneg (kms s) x). specialize (He x). cbv beta in Hr. rewrite Hz in Hr. lia.
Qed.


(** The fences are drained in order and the loop ends.  Processing a step
    returns exactly the parked entries before the first pending fence, all of
    them past their fence, and the references of every block are again what the
    tables, the remaining entries and the other owners hold. *)
Theorem drain_deferred_frees_correct ext s :
  fence_inv ext s ->
  exists s', drain_deferred_frees s = Ok tt s' /\ fence_inv ext s' /\
    exists done, deferred_frees s = done ++ deferred_frees s' /\
      Forall (fun e => e.1 <= processed_step_seq s) done /\
      match deferred_frees s' with [] => True | (f, _) :: _ => processed_step_seq s < f end.
Proof.
  intros Hi. pose proof (drain_spec ext (length (deferred_frees s)) s Hi ltac:(lia)) as Hw.
  apply wp_ok in Hw as ([] & s' & E & Hi' & _ & _ & _ & Hd). by exists s'.
Qed.

End DeferredFree.

(** ** A concrete run *)

(** Request "req" holds two blocks in each of two groups; step 3 is scheduled,
    step 2 processed. *)
Definition demo_held : KState := after (co_allocate_new_blocks "req" 4 0) (demo_groups, demo_pool).
Definition demo_fence : FenceState := mkFence (demo_km demo_held.1 demo_held.2) [] 3 2 true.

Lemma demo_held_inv : (exists free, pool_wf demo_held.2 free) /\ coord_inv demo_held.1 demo_held.2 (fun _ => 0).
Proof.
  pose proof (co_allocate_new_spec "req" 4 0 0 demo_groups demo_pool [1; 2; 3; 4]%nat (fun _ => 0) demo_pool_wf demo_groups_inv
    ltac:(lia) ltac:(vm_compute; discriminate)) as Hw.
  apply wp_ok in Hw as (new & s & E & [_ _ (fr & W3 & _) W4 _]). unfold demo_held, after. rewrite E.
  split; [exists fr; exact W3|exact W4].
Qed.

Lemma demo_fence_inv : fence_inv (fun _ => 0) demo_fence.
Proof.
  destruct demo_held_inv as [H1 H2]. split; cbn; [exact H1| |lia|].
  - apply (coord_inv_ext _ _ _ _ _ H2); [reflexivity|intros x _ _; rewrite occ_nil; lia|intros x; rewrite occ_nil; lia].
  - intros x Hx. by apply elem_of_nil in Hx.
Qed.


Lemma drain_deferred_frees_correct_witness :
  exists s', drain_deferred_frees demo_fence = Ok tt s' /\ fence_inv (fun _ => 0) s'.
Proof.
  destruct (drain_deferred_frees_correct (fun _ => 0) demo_fence demo_fence_inv) as (s' & E & Hi & _).
  exists s'. split; [exact E|exact Hi].
Defined.
