(* ===== verification/SchedRequest.v ===== *)
(** * Requests as the scheduler sees them

    The attributes of [Request] (vllm/v1/request.py) that only the scheduler
    reads: placeholders and stale output of asynchronous scheduling, draft
    tokens, the structured-output state and the queue of a streaming session,
    with [StreamingUpdate] and the update of a session by its next input
    ([Scheduler._update_request_as_session]). *)
From Stdlib Require Import ZArith Lia.
From stdpp Require Import base tactics gmap strings numbers option list sorting.
From S2P Require Import Prelude Blocks Request Hashing Heapq RequestQueue.

Local Open Scope Z_scope.

(** Assignments to attributes of [Request]. *)
Definition set_computed (n : Z) (r : Request) : Request :=
  mkRequest (request_id r) (priority r) (arrival_time r) (sampling_params r) (pooling_params r)
    (lora_request r) (cache_salt r) (session_id r) (mm_features r) (prompt_embeds r)
    (prompt_embeds_per_block_hashes r) (num_prompt_tokens r) (output_token_ids r) (all_token_ids r)
    (block_hashes r) (status r) (stop_reason r) (max_tokens r) n (num_in_flight_tokens r)
    (shared_prefix_boundary r) (num_preemptions r) (skip_reading_prefix_cache r).
Definition set_in_flight (n : Z) (r : Request) : Request :=
  mkRequest (request_id r) (priority r) (arrival_time r) (sampling_params r) (pooling_params r)
    (lora_request r) (cache_salt r) (session_id r) (mm_features r) (prompt_embeds r)
    (prompt_embeds_per_block_hashes r) (num_prompt_tokens r) (output_token_ids r) (all_token_ids r)
    (block_hashes r) (status r) (stop_reason r) (max_tokens r) (num_computed_tokens r) n
    (shared_prefix_boundary r) (num_preemptions r) (skip_reading_prefix_cache r).
Definition set_preemptions (n : Z) (r : Request) : Request :=
  mkRequest (request_id r) (priority r) (arrival_time r) (sampling_params r) (pooling_params r)
    (lora_request r) (cache_salt r) (session_id r) (mm_features r) (prompt_embeds r)
    (prompt_embeds_per_block_hashes r) (num_prompt_tokens r) (output_token_ids r) (all_token_ids r)
    (block_hashes r) (status r) (stop_reason r) (max_tokens r) (num_computed_tokens r)
    (num_in_flight_tokens r) (shared_prefix_boundary r) n (skip_reading_prefix_cache r).
Definition set_boundary (n : Z) (r : Request) : Request :=
  mkRequest (request_id r) (priority r) (arrival_time r) (sampling_params r) (pooling_params r)
    (lora_request r) (cache_salt r) (session_id r) (mm_features r) (prompt_embeds r)
    (prompt_embeds_per_block_hashes r) (num_prompt_tokens r) (output_token_ids r) (all_token_ids r)
    (block_hashes r) (status r) (stop_reason r) (max_tokens r) (num_computed_tokens r)
    (num_in_flight_tokens r) n (num_preemptions r) (skip_reading_prefix_cache r).
Definition set_mm_features (mm : list MultiModalFeatureSpec) (r : Request) : Request :=
  mkRequest (request_id r) (priority r) (arrival_time r) (sampling_params r) (pooling_params r)
    (lora_request r) (cache_salt r) (session_id r) mm (prompt_embeds r)
    (prompt_embeds_per_block_hashes r) (num_prompt_tokens r) (output_token_ids r) (all_token_ids r)
    (block_hashes r) (status r) (stop_reason r) (max_tokens r) (num_computed_tokens r)
    (num_in_flight_tokens r) (shared_prefix_boundary r) (num_preemptions r)
    (skip_reading_prefix_cache r).
Definition set_session_fields (num_prompt : Z) (arrival : Z) (sp : option SamplingParams) (r : Request) : Request :=
  mkRequest (request_id r) (priority r) arrival sp (pooling_params r) (lora_request r) (cache_salt r)
    (session_id r) (mm_features r) (prompt_embeds r) (prompt_embeds_per_block_hashes r) num_prompt
    (output_token_ids r) (all_token_ids r) (block_hashes r) (status r) (stop_reason r) (max_tokens r)
    (num_computed_tokens r) (num_in_flight_tokens r) (shared_prefix_boundary r) (num_preemptions r)
    (skip_reading_prefix_cache r).

(** [StreamingUpdate] *)
Record StreamingUpdate := mkStreamingUpdate {
  su_mm_features : option (list MultiModalFeatureSpec);
  su_prompt_token_ids : option (list Z);
  su_max_tokens : Z;
  su_arrival_time : Z;
  su_sampling_params : option SamplingParams
}.

(** [StructuredOutputRequest.grammar]: being compiled, failed, or ready. *)
Inductive Grammar := GrammarPending | GrammarFailed | GrammarReady.

(** A request object: the attributes of Request.v and the scheduler's own. *)
Record SReq := mkSReq {
  sr_request : Request;
  prompt_token_ids : option (list Z);
  num_output_placeholders : Z;
  num_stale_output_tokens : Z;
  drop_stale_output : bool;
  next_decode_eligible_step : Z;
  last_sched_seq : Z;
  spec_token_ids : list Z;
  spec_token_ids_step_id : option Z;
  is_prefill_chunk : bool;
  structured_output_request : option Grammar;
  resumable : bool;
  streaming_queue : option (list (option StreamingUpdate));
  client_index : Z
}.

Definition so_set_request (r : Request) (o : SReq) : SReq :=
  mkSReq r (prompt_token_ids o) (num_output_placeholders o) (num_stale_output_tokens o)
    (drop_stale_output o) (next_decode_eligible_step o) (last_sched_seq o) (spec_token_ids o)
    (spec_token_ids_step_id o) (is_prefill_chunk o) (structured_output_request o) (resumable o)
    (streaming_queue o) (client_index o).
Definition so_set_prompt (p : option (list Z)) (o : SReq) : SReq :=
  mkSReq (sr_request o) p (num_output_placeholders o) (num_stale_output_tokens o)
    (drop_stale_output o) (next_decode_eligible_step o) (last_sched_seq o) (spec_token_ids o)
    (spec_token_ids_step_id o) (is_prefill_chunk o) (structured_output_request o) (resumable o)
    (streaming_queue o) (client_index o).
Definition so_set_placeholders (n : Z) (o : SReq) : SReq :=
  mkSReq (sr_request o) (prompt_token_ids o) n (num_stale_output_tokens o) (drop_stale_output o)
    (next_decode_eligible_step o) (last_sched_seq o) (spec_token_ids o) (spec_token_ids_step_id o)
    (is_prefill_chunk o) (structured_output_request o) (resumable o) (streaming_queue o)
    (client_index o).
Definition so_set_stale (n : Z) (d : bool) (o : SReq) : SReq :=
  mkSReq (sr_request o) (prompt_token_ids o) (num_output_placeholders o) n d
    (next_decode_eligible_step o) (last_sched_seq o) (spec_token_ids o) (spec_token_ids_step_id o)
    (is_prefill_chunk o) (structured_output_request o) (resumable o) (streaming_queue o)
    (client_index o).
Definition so_set_eligible (n : Z) (o : SReq) : SReq :=
  mkSReq (sr_request o) (prompt_token_ids o) (num_output_placeholders o) (num_stale_output_tokens o)
    (drop_stale_output o) n (last_sched_seq o) (spec_token_ids o) (spec_token_ids_step_id o)
    (is_prefill_chunk o) (structured_output_request o) (resumable o) (streaming_queue o)
    (client_index o).
Definition so_set_last_seq (n : Z) (o : SReq) : SReq :=
  mkSReq (sr_request o) (prompt_token_ids o) (num_output_placeholders o) (num_stale_output_tokens o)
    (drop_stale_output o) (next_decode_eligible_step o) n (spec_token_ids o) (spec_token_ids_step_id o)
    (is_prefill_chunk o) (structured_output_request o) (resumable o) (streaming_queue o)
    (client_index o).
Definition so_set_spec (l : list Z) (step : option Z) (o : SReq) : SReq :=
  mkSReq (sr_request o) (prompt_token_ids o) (num_output_placeholders o) (num_stale_output_tokens o)
    (drop_stale_output o) (next_decode_eligible_step o) (last_sched_seq o) l step (is_prefill_chunk o)
    (structured_output_request o) (resumable o) (streaming_queue o) (client_index o).
Definition so_set_prefill (b : bool) (o : SReq) : SReq :=
  mkSReq (sr_request o) (prompt_token_ids o) (num_output_placeholders o) (num_stale_output_tokens o)
    (drop_stale_output o) (next_decode_eligible_step o) (last_sched_seq o) (spec_token_ids o)
    (spec_token_ids_step_id o) b (structured_output_request o) (resumable o) (streaming_queue o)
    (client_index o).
Definition so_set_resumable (b : bool) (o : SReq) : SReq :=
  mkSReq (sr_request o) (prompt_token_ids o) (num_output_placeholders o) (num_stale_output_tokens o)
    (drop_stale_output o) (next_decode_eligible_step o) (last_sched_seq o) (spec_token_ids o)
    (spec_token_ids_step_id o) (is_prefill_chunk o) (structured_output_request o) b (streaming_queue o)
    (client_index o).
Definition so_set_streaming (q : option (list (option StreamingUpdate))) (o : SReq) : SReq :=
  mkSReq (sr_request o) (prompt_token_ids o) (num_output_placeholders o) (num_stale_output_tokens o)
    (drop_stale_output o) (next_decode_eligible_step o) (last_sched_seq o) (spec_token_ids o)
    (spec_token_ids_step_id o) (is_prefill_chunk o) (structured_output_request o) (resumable o) q
    (client_index o).

Definition so_id (o : SReq) : string := request_id (sr_request o).
Definition so_status (o : SReq) : RequestStatus := status (sr_request o).
Definition so_finished (o : SReq) : bool := is_finished (so_status o).
Definition so_set_status (st : RequestStatus) (o : SReq) : SReq := so_set_request (set_status st (sr_request o)) o.

(** The properties [use_structured_output], [num_tokens_with_spec] and
    [has_encoder_inputs]. *)
Definition use_structured_output (o : SReq) : bool := bool_decide (is_Some (structured_output_request o)).
Definition num_tokens_with_spec (o : SReq) : Z := num_tokens (sr_request o) + zlen (spec_token_ids o).
Definition has_encoder_inputs (o : SReq) : bool := 0 <? zlen (mm_features (sr_request o)).

(** The scheduler's attributes of a new request ([Request.__init__]). *)
Definition new_sreq (r : Request) (prompt : option (list Z)) (structured : option Grammar) (resume : bool)
    (client : Z) : SReq :=
  mkSReq r prompt 0 0 false 0 0 [] None false structured resume None client.

(** [StreamingUpdate.from_request] *)
Definition update_from_request (o : SReq) : option StreamingUpdate :=
  if negb (resumable o) then None else
  let r := sr_request o in
  Some (mkStreamingUpdate (Some (mm_features r)) (prompt_token_ids o) (max_tokens r) (arrival_time r)
          (sampling_params r)).

(** A feature of an update, moved behind the session's tokens. *)
Definition shift_feature (base : Z) (f : MultiModalFeatureSpec) : MultiModalFeatureSpec :=
  mkMMFeature (identifier f)
    (mkPlaceholder (offset (mm_position f) + base) (length_ (mm_position f)) (is_embed (mm_position f))).

(** A statement on the request part of an object. *)
Definition on_request {A} (c : M Request A) : M SReq A := zoom sr_request so_set_request c.

(** * The scheduler's queues by policy

    [create_request_queue] (vllm/v1/core/sched/request_queue.py) picks the queue
    class at run time, so a scheduler's queue is one of the two, and the store of
    request objects it reads for its comparisons changes between calls.  This
    file puts both classes behind one type and states what holds whatever the
    comparisons answer: every call keeps exactly the right requests.  The order
    of a heap may be lost when a queued request changes (SchedFindings.v). *)

Inductive WaitQueue :=
| WFcfs (q : FCFSRequestQueue)
| WPriority (q : PriorityRequestQueue).

(** [create_request_queue] *)
Definition create_request_queue (policy : SchedulingPolicy) : WaitQueue :=
  match policy with
  | PRIORITY => WPriority (mkPriority [])
  | FCFS => WFcfs (mkFCFS [])
  end.

(** The queued references, as the class stores them. *)
Definition members (q : WaitQueue) : list Z :=
  match q with WFcfs q => deque q | WPriority q => heap q end.

Section Dispatch.
Context (deref : Z -> Request).

(** A method call on a queue of either class. *)
Definition wq_call {A} (op : forall Q, RequestQueue Q -> M Q A) : M WaitQueue A := fun q =>
  match q with
  | WFcfs q => match op _ fcfs_queue q with Ok a q' => Ok a (WFcfs q') | Raise e q' => Raise e (WFcfs q') end
  | WPriority q =>
      match op _ (priority_queue deref) q with
      | Ok a q' => Ok a (WPriority q')
      | Raise e q' => Raise e (WPriority q')
      end
  end.

Definition wq_add (r : Z) : M WaitQueue unit := wq_call (fun Q _ => add_request r).
Definition wq_pop : M WaitQueue Z := wq_call (fun Q _ => pop_request).
Definition wq_peek : M WaitQueue Z := wq_call (fun Q _ => peek_request).
Definition wq_prepend (r : Z) : M WaitQueue unit := wq_call (fun Q _ => prepend_request r).
Definition wq_prepend_all (rs : list Z) : M WaitQueue unit := wq_call (fun Q _ => prepend_requests rs).
Definition wq_remove_all (rs : list Z) : M WaitQueue unit := wq_call (fun Q _ => remove_requests rs).
Definition wq_iter : M WaitQueue (list Z) := wq_call (fun Q _ => rq_iter).

(** [bool(queue)] and [len(queue)] read the list only. *)
Definition wq_nonempty (q : WaitQueue) : bool := 0 <? zlen (members q).
Definition wq_len (q : WaitQueue) : Z := zlen (members q).

(** ** What every call keeps *)

#[local] Opaque heapify heappop heappush heap_drain.

Definition same_class (q q' : WaitQueue) : Prop :=
  match q, q' with WFcfs _, WFcfs _ | WPriority _, WPriority _ => True | _, _ => False end.

Lemma same_class_trans q1 q2 q3 : same_class q1 q2 -> same_class q2 q3 -> same_class q1 q3.
Proof. by destruct q1, q2, q3. Qed.

Definition added (r : Z) (q q' : WaitQueue) : Prop := members q' ≡ₚ r :: members q /\ same_class q q'.

Lemma heap_add_members r h :
  exists h', heap_add deref r (mkPriority h) = Ok tt (mkPriority h') /\ h' ≡ₚ r :: h.
Proof.
  destruct (heappush_perm (ref_lt deref) h r) as (h' & E & Hp). exists h'.
  unfold heap_add, mbind, M_bind, get. cbn. by rewrite E.
Qed.

Lemma wq_add_spec r q : wp (wq_add r) (fun _ q' => added r q q') q.
Proof.
  destruct q as [[l]|[h]]; unfold wp, wq_add, wq_call; cbn.
  - split; [symmetry; apply Permutation_cons_append|done].
  - by destruct (heap_add_members r h) as (h' & -> & Hp).
Qed.

Lemma wq_prepend_spec r q : wp (wq_prepend r) (fun _ q' => added r q q') q.
Proof.
  destruct q as [[l]|[h]]; unfold wp, wq_prepend, wq_call; cbn; [done|].
  by destruct (heap_add_members r h) as (h' & -> & Hp).
Qed.

(** A deque keeps the order of what it had behind the new head. *)
Lemma wq_prepend_front r q :
  wp (wq_prepend r) (fun _ q' => added r q q' /\ forall l, q = WFcfs (mkFCFS l) -> q' = WFcfs (mkFCFS (r :: l))) q.
Proof.
  destruct q as [[l]|[h]]; unfold wp, wq_prepend, wq_call; cbn; [split; [done|by intros l1 [= <-]]|].
  by destruct (heap_add_members r h) as (h' & -> & Hp).
Qed.

Lemma wq_prepend_all_spec rs q :
  wp (wq_prepend_all rs) (fun _ q' => members q' ≡ₚ rs ++ members q /\ same_class q q') q.
Proof.
  destruct q as [[l]|[h]]; unfold wp, wq_prepend_all, wq_call; cbn [prepend_requests fcfs_queue priority_queue].
  - rewrite (for_each_modify (fun r q => mkFCFS (r :: deque q))). split; [|done]. cbn.
    revert l. induction rs as [|r rs IH]; intros l; [done|]. cbn. rewrite (IH (r :: l)). cbn.
    symmetry. apply Permutation_middle.
  - assert (exists h', for_each rs (heap_add deref) (mkPriority h) = Ok tt (mkPriority h') /\ h' ≡ₚ rs ++ h)
      as (h' & -> & Hp); [|done].
    revert h. induction rs as [|r rs IH]; intros h; [by exists h|].
    destruct (heap_add_members r h) as (h1 & E1 & Hp1). destruct (IH h1) as (h' & E & Hp). exists h'.
    cbn [for_each]. unfold mbind, M_bind. rewrite E1, E. split; [done|]. rewrite Hp, Hp1. cbn.
    symmetry. apply Permutation_middle.
Qed.

Lemma wq_pop_spec q :
  members q <> [] ->
  wp wq_pop (fun r q' => head (members q) = Some r /\ members q ≡ₚ r :: members q' /\ same_class q q') q.
Proof.
  destruct q as [[[|r l]]|[[|r h]]]; intros Hne; [done| |done|]; unfold wp, wq_pop, wq_call; cbn; [done|].
  unfold mbind, M_bind, get. cbn. destruct (heappop_perm (ref_lt deref) r h) as (h' & -> & Hp). cbn.
  by rewrite Hp.
Qed.

Lemma wq_peek_spec q :
  members q <> [] -> wp wq_peek (fun r q' => q' = q /\ head (members q) = Some r) q.
Proof. by destruct q as [[[|r l]]|[[|r h]]]. Qed.

Lemma wq_remove_all_spec rs q :
  wp (wq_remove_all rs) (fun _ q' => members q' ≡ₚ filter (fun r => r ∉ rs) (members q) /\ same_class q q') q.
Proof.
  destruct q as [[l]|[h]]; unfold wp, wq_remove_all, wq_call; cbn; [done|].
  unfold mbind, M_bind, get. cbn.
  by destruct (heapify_perm (ref_lt deref) (filter (fun r => r ∉ rs) h)) as (h' & -> & Hp).
Qed.

Lemma wq_iter_spec q : wp wq_iter (fun l q' => q' = q /\ l ≡ₚ members q) q.
Proof.
  destruct q as [[l]|[h]]; unfold wp, wq_iter, wq_call; cbn; [done|].
  unfold mbind, M_bind, get. cbn. by destruct (heap_drain_perm (ref_lt deref) (length h) h) as (l & -> & Hp).
Qed.

End Dispatch.

#[export] Hint Resolve wq_add_spec wq_prepend_spec wq_prepend_all_spec wq_remove_all_spec wq_iter_spec : vllm.
