(* ===== verification/SchedIface.v ===== *)
(** * The scheduler's state and the components it calls

    [Scheduler] of vllm/v1/core/sched/scheduler.py keeps the request objects in
    queues and sets, and calls components behind interfaces: the KV cache manager
    together with the fence of deferred releases ([KVService]), the encoder cache
    ([EncoderService]), the KV connector ([KVConnector], the abstract class
    KVConnectorBase_V1, implemented by plugins) and the encoder-cache connector
    ([ECConnector]).  The scheduler's methods are written against these classes;
    what the theorems need of an implementation are the laws of SchedulerInv.v.

    Request objects are shared between the dictionary [requests], the queues and
    the running list, so they live in a store [objs] and are referred to by
    identity. *)
From Stdlib Require Import ZArith Lia.
From stdpp Require Import base tactics gmap strings numbers option list.
From S2P Require Import Prelude Blocks Request Hashing Env RequestQueue OrderedDict SchedChunk SchedRequest.

Local Open Scope Z_scope.

(** ** Interfaces *)

(** The KV cache manager and the scheduler's deferred releases. *)
Class KVService (K : Type) := {
  (** [Scheduler._free_request_blocks]; the argument is [request.last_sched_seq] *)
  kv_free_request_blocks : Request -> Z -> M K unit;
  (** [kv_cache_manager.free] *)
  kv_free : Request -> M K unit;
  kv_cache_blocks : Z -> M (K * Request) unit;
  kv_record_blocks_for_zeroing : string -> Z -> M K unit;
  kv_reset_prefix_cache : M K bool;
  kv_remove_skipped_blocks : string -> Z -> Z -> M K unit;
  kv_finalize_partial_tail_offloads : Request -> M K (list (Z * Z * Z));
  kv_block_ids_for_computed_tokens : string -> Z -> K -> list (list Z);
  (** attributes of the scheduler kept with the fence *)
  kv_defer_block_free : K -> bool;
  kv_sched_step_seq : K -> Z
}.

(** The encoder cache manager, as the request lifecycle uses it. *)
Class EncoderService (E : Type) := {
  en_free : Request -> M E unit;
  en_cached_input_ids : Request -> E -> gset Z;
  en_free_input : Request -> Z -> M E unit
}.

(** [KVConnectorOutput]: the fields the scheduler reads. *)
Record KVConnectorOutput := mkConnectorOutput {
  finished_sending : list string;
  finished_recving : list string;
  invalid_block_ids : gset Z
}.

Class KVConnector (C : Type) := {
  cn_on_new_request : Request -> M C unit;
  (** [isinstance(connector, SupportsHMA)] *)
  cn_supports_hma : bool;
  (** [request_finished] and [request_finished_all_groups]: whether the blocks
      are still needed for an asynchronous transfer *)
  cn_request_finished : Request -> list Z -> M C bool;
  cn_request_finished_all_groups : Request -> list (list Z) -> M C bool;
  cn_register_finished_partial_tail : Request -> list (list Z) -> list (Z * Z * Z) -> M C bool;
  cn_update_connector_output : KVConnectorOutput -> M C unit;
  (** [reset_cache() is False] is the only failure the scheduler looks at *)
  cn_reset_cache : M C bool;
  cn_has_pending_push_work : C -> bool
}.

Class ECConnector (X : Type) := {
  ec_request_finished : Request -> M X bool;
  ec_update_state_after_free : Request -> Z -> M X unit;
  ec_has_pending_push_work : X -> bool
}.

(** ** State *)

Inductive PauseState := UNPAUSED | PAUSED_NEW | PAUSED_ALL.

#[global] Instance PauseState_eq_dec : EqDecision PauseState.
Proof. solve_decision. Defined.

(** The sets and small dictionaries of [Scheduler.__init__]. *)
Record SchedSets := mkSets {
  inflight_prefills : gset Z;
  finished_req_ids : gset string;
  finished_req_ids_dict : option (gmap Z (gset string));
  finished_recving_kv_req_ids : gset string;
  failed_recving_kv_req_ids : gset string;
  grammar_compile_error_reqs : gset string;
  reset_preempted_req_ids : gset string;
  exl3_int8_prefill_requests : gset string;
  prev_step_scheduled_req_ids : gset string;
  pending_draft_token_ids : list (string * Z * list Z);
  skip_zero_block_ids : gmap Z (gset Z)
}.

Definition ss_inflight_prefills (v : gset Z) (x : SchedSets) : SchedSets :=
  mkSets v (finished_req_ids x) (finished_req_ids_dict x) (finished_recving_kv_req_ids x)
    (failed_recving_kv_req_ids x) (grammar_compile_error_reqs x) (reset_preempted_req_ids x)
    (exl3_int8_prefill_requests x) (prev_step_scheduled_req_ids x) (pending_draft_token_ids x)
    (skip_zero_block_ids x).
Definition ss_finished_req_ids (v : gset string) (x : SchedSets) : SchedSets :=
  mkSets (inflight_prefills x) v (finished_req_ids_dict x) (finished_recving_kv_req_ids x)
    (failed_recving_kv_req_ids x) (grammar_compile_error_reqs x) (reset_preempted_req_ids x)
    (exl3_int8_prefill_requests x) (prev_step_scheduled_req_ids x) (pending_draft_token_ids x)
    (skip_zero_block_ids x).
Definition ss_finished_req_ids_dict (v : option (gmap Z (gset string))) (x : SchedSets) : SchedSets :=
  mkSets (inflight_prefills x) (finished_req_ids x) v (finished_recving_kv_req_ids x)
    (failed_recving_kv_req_ids x) (grammar_compile_error_reqs x) (reset_preempted_req_ids x)
    (exl3_int8_prefill_requests x) (prev_step_scheduled_req_ids x) (pending_draft_token_ids x)
    (skip_zero_block_ids x).
Definition ss_finished_recving_kv_req_ids (v : gset string) (x : SchedSets) : SchedSets :=
  mkSets (inflight_prefills x) (finished_req_ids x) (finished_req_ids_dict x) v
    (failed_recving_kv_req_ids x) (grammar_compile_error_reqs x) (reset_preempted_req_ids x)
    (exl3_int8_prefill_requests x) (prev_step_scheduled_req_ids x) (pending_draft_token_ids x)
    (skip_zero_block_ids x).
Definition ss_failed_recving_kv_req_ids (v : gset string) (x : SchedSets) : SchedSets :=
  mkSets (inflight_prefills x) (finished_req_ids x) (finished_req_ids_dict x)
    (finished_recving_kv_req_ids x) v (grammar_compile_error_reqs x) (reset_preempted_req_ids x)
    (exl3_int8_prefill_requests x) (prev_step_scheduled_req_ids x) (pending_draft_token_ids x)
    (skip_zero_block_ids x).
Definition ss_grammar_compile_error_reqs (v : gset string) (x : SchedSets) : SchedSets :=
  mkSets (inflight_prefills x) (finished_req_ids x) (finished_req_ids_dict x)
    (finished_recving_kv_req_ids x) (failed_recving_kv_req_ids x) v (reset_preempted_req_ids x)
    (exl3_int8_prefill_requests x) (prev_step_scheduled_req_ids x) (pending_draft_token_ids x)
    (skip_zero_block_ids x).
Definition ss_reset_preempted_req_ids (v : gset string) (x : SchedSets) : SchedSets :=
  mkSets (inflight_prefills x) (finished_req_ids x) (finished_req_ids_dict x)
    (finished_recving_kv_req_ids x) (failed_recving_kv_req_ids x) (grammar_compile_error_reqs x) v
    (exl3_int8_prefill_requests x) (prev_step_scheduled_req_ids x) (pending_draft_token_ids x)
    (skip_zero_block_ids x).
Definition ss_exl3_int8_prefill_requests (v : gset string) (x : SchedSets) : SchedSets :=
  mkSets (inflight_prefills x) (finished_req_ids x) (finished_req_ids_dict x)
    (finished_recving_kv_req_ids x) (failed_recving_kv_req_ids x) (grammar_compile_error_reqs x)
    (reset_preempted_req_ids x) v (prev_step_scheduled_req_ids x) (pending_draft_token_ids x)
    (skip_zero_block_ids x).
Definition ss_prev_step_scheduled_req_ids (v : gset string) (x : SchedSets) : SchedSets :=
  mkSets (inflight_prefills x) (finished_req_ids x) (finished_req_ids_dict x)
    (finished_recving_kv_req_ids x) (failed_recving_kv_req_ids x) (grammar_compile_error_reqs x)
    (reset_preempted_req_ids x) (exl3_int8_prefill_requests x) v (pending_draft_token_ids x)
    (skip_zero_block_ids x).
Definition ss_pending_draft_token_ids (v : list (string * Z * list Z)) (x : SchedSets) : SchedSets :=
  mkSets (inflight_prefills x) (finished_req_ids x) (finished_req_ids_dict x)
    (finished_recving_kv_req_ids x) (failed_recving_kv_req_ids x) (grammar_compile_error_reqs x)
    (reset_preempted_req_ids x) (exl3_int8_prefill_requests x) (prev_step_scheduled_req_ids x) v
    (skip_zero_block_ids x).
Definition ss_skip_zero_block_ids (v : gmap Z (gset Z)) (x : SchedSets) : SchedSets :=
  mkSets (inflight_prefills x) (finished_req_ids x) (finished_req_ids_dict x)
    (finished_recving_kv_req_ids x) (failed_recving_kv_req_ids x) (grammar_compile_error_reqs x)
    (reset_preempted_req_ids x) (exl3_int8_prefill_requests x) (prev_step_scheduled_req_ids x)
    (pending_draft_token_ids x) v.

(** The attributes fixed at construction. *)
Record SchedConfig := mkSchedConfig {
  sc_policy : SchedulingPolicy;
  sc_max_model_len : Z;
  sc_block_size : Z;
  num_groups : Z;
  is_kv_producer : bool;
  needs_kv_cache_zeroing : bool;
  recompute_kv_load_failures : bool;
  requires_kv_delivery : bool;
  max_pending_draft_token_ids : Z;
  num_sampled_tokens_per_step : Z;
  sched_encoder_decoder : bool;
  (** the attributes that cut chunks, SchedChunk.v *)
  chunk_config : ChunkConfig;
  need_mamba_block_aligned_split : bool;
  max_num_batched_tokens : Z;
  max_num_running_reqs : Z;
  max_num_encoder_input_tokens : Z;
  draft_slots : Z;
  num_lookahead_tokens : Z;
  num_spec_tokens : Z;
  dynamic_sd_lookup : option (list Z);
  enable_chunked_prefill : bool;
  disable_chunked_mm_input : bool;
  (** [lora_config.max_loras] *)
  max_loras : option Z;
  scheduler_reserve_full_isl : bool;
  has_kv_cache_tokens : bool;
  use_v2_model_runner : bool;
  (** the class is [AsyncScheduler] *)
  async_scheduler : bool;
  align_hybrid_decodes : bool;
  pp_size : Z;
  is_mm_encoder_only : bool
}.

Section State.
Context {K E C X : Type}.

Record Scheduler := mkScheduler {
  objs : gmap Z SReq;
  requests : list (string * Z);
  running : list Z;
  waiting : WaitQueue;
  skipped_waiting : WaitQueue;
  num_waiting_for_streaming_input : Z;
  sets : SchedSets;
  kv_cache_manager : K;
  encoder_cache_manager : E;
  connector : option C;
  ec_connector : option X;
  pause_state : PauseState;
  current_step : Z;
  prefill_capacity_bound : bool;
  (** [AsyncScheduler._decode_phase] *)
  decode_phase : option Z
}.

Definition set_objs (v : gmap Z SReq) (s : Scheduler) : Scheduler :=
  mkScheduler v (requests s) (running s) (waiting s) (skipped_waiting s)
    (num_waiting_for_streaming_input s) (sets s) (kv_cache_manager s) (encoder_cache_manager s)
    (connector s) (ec_connector s) (pause_state s) (current_step s) (prefill_capacity_bound s)
    (decode_phase s).
Definition set_requests (v : list (string * Z)) (s : Scheduler) : Scheduler :=
  mkScheduler (objs s) v (running s) (waiting s) (skipped_waiting s)
    (num_waiting_for_streaming_input s) (sets s) (kv_cache_manager s) (encoder_cache_manager s)
    (connector s) (ec_connector s) (pause_state s) (current_step s) (prefill_capacity_bound s)
    (decode_phase s).
Definition set_running (v : list Z) (s : Scheduler) : Scheduler :=
  mkScheduler (objs s) (requests s) v (waiting s) (skipped_waiting s)
    (num_waiting_for_streaming_input s) (sets s) (kv_cache_manager s) (encoder_cache_manager s)
    (connector s) (ec_connector s) (pause_state s) (current_step s) (prefill_capacity_bound s)
    (decode_phase s).
Definition set_waiting (v : WaitQueue) (s : Scheduler) : Scheduler :=
  mkScheduler (objs s) (requests s) (running s) v (skipped_waiting s)
    (num_waiting_for_streaming_input s) (sets s) (kv_cache_manager s) (encoder_cache_manager s)
    (connector s) (ec_connector s) (pause_state s) (current_step s) (prefill_capacity_bound s)
    (decode_phase s).
Definition set_skipped (v : WaitQueue) (s : Scheduler) : Scheduler :=
  mkScheduler (objs s) (requests s) (running s) (waiting s) v (num_waiting_for_streaming_input s)
    (sets s) (kv_cache_manager s) (encoder_cache_manager s) (connector s) (ec_connector s)
    (pause_state s) (current_step s) (prefill_capacity_bound s)
    (decode_phase s).
Definition set_num_streaming (v : Z) (s : Scheduler) : Scheduler :=
  mkScheduler (objs s) (requests s) (running s) (waiting s) (skipped_waiting s) v (sets s)
    (kv_cache_manager s) (encoder_cache_manager s) (connector s) (ec_connector s) (pause_state s)
    (current_step s) (prefill_capacity_bound s)
    (decode_phase s).
Definition set_sets (v : SchedSets) (s : Scheduler) : Scheduler :=
  mkScheduler (objs s) (requests s) (running s) (waiting s) (skipped_waiting s)
    (num_waiting_for_streaming_input s) v (kv_cache_manager s) (encoder_cache_manager s) (connector s)
    (ec_connector s) (pause_state s) (current_step s) (prefill_capacity_bound s)
    (decode_phase s).
Definition set_kv (v : K) (s : Scheduler) : Scheduler :=
  mkScheduler (objs s) (requests s) (running s) (waiting s) (skipped_waiting s)
    (num_waiting_for_streaming_input s) (sets s) v (encoder_cache_manager s) (connector s)
    (ec_connector s) (pause_state s) (current_step s) (prefill_capacity_bound s)
    (decode_phase s).
Definition set_enc (v : E) (s : Scheduler) : Scheduler :=
  mkScheduler (objs s) (requests s) (running s) (waiting s) (skipped_waiting s)
    (num_waiting_for_streaming_input s) (sets s) (kv_cache_manager s) v (connector s) (ec_connector s)
    (pause_state s) (current_step s) (prefill_capacity_bound s)
    (decode_phase s).
Definition set_connector (v : option C) (s : Scheduler) : Scheduler :=
  mkScheduler (objs s) (requests s) (running s) (waiting s) (skipped_waiting s)
    (num_waiting_for_streaming_input s) (sets s) (kv_cache_manager s) (encoder_cache_manager s) v
    (ec_connector s) (pause_state s) (current_step s) (prefill_capacity_bound s)
    (decode_phase s).
Definition set_ec (v : option X) (s : Scheduler) : Scheduler :=
  mkScheduler (objs s) (requests s) (running s) (waiting s) (skipped_waiting s)
    (num_waiting_for_streaming_input s) (sets s) (kv_cache_manager s) (encoder_cache_manager s)
    (connector s) v (pause_state s) (current_step s) (prefill_capacity_bound s)
    (decode_phase s).
Definition set_pause (v : PauseState) (s : Scheduler) : Scheduler :=
  mkScheduler (objs s) (requests s) (running s) (waiting s) (skipped_waiting s)
    (num_waiting_for_streaming_input s) (sets s) (kv_cache_manager s) (encoder_cache_manager s)
    (connector s) (ec_connector s) v (current_step s) (prefill_capacity_bound s)
    (decode_phase s).
Definition set_step (v : Z) (s : Scheduler) : Scheduler :=
  mkScheduler (objs s) (requests s) (running s) (waiting s) (skipped_waiting s)
    (num_waiting_for_streaming_input s) (sets s) (kv_cache_manager s) (encoder_cache_manager s)
    (connector s) (ec_connector s) (pause_state s) v (prefill_capacity_bound s)
    (decode_phase s).
Definition set_bound (v : bool) (s : Scheduler) : Scheduler :=
  mkScheduler (objs s) (requests s) (running s) (waiting s) (skipped_waiting s)
    (num_waiting_for_streaming_input s) (sets s) (kv_cache_manager s) (encoder_cache_manager s)
    (connector s) (ec_connector s) (pause_state s) (current_step s) v (decode_phase s).
Definition set_decode_phase (v : option Z) (s : Scheduler) : Scheduler :=
  mkScheduler (objs s) (requests s) (running s) (waiting s) (skipped_waiting s)
    (num_waiting_for_streaming_input s) (sets s) (kv_cache_manager s) (encoder_cache_manager s)
    (connector s) (ec_connector s) (pause_state s) (current_step s) (prefill_capacity_bound s) v.

(** What a dangling reference would show; no reference dangles. *)
Definition no_request : Request :=
  mkRequest "" 0 0 None None None None None [] None ∅ 0 [] [] [] WAITING None 0 0 0 0 0 false.

(** The request a reference denotes, for the comparisons of the queues. *)
Definition deref (s : Scheduler) (a : Z) : Request :=
  match objs s !! a with Some o => sr_request o | None => no_request end.

(** ** Statements on parts of the state *)

Definition obj (a : Z) : M Scheduler SReq := s ← get; of_option AttributeError (objs s !! a).
Definition modify_obj (a : Z) (f : SReq -> SReq) : M Scheduler unit :=
  o ← obj a; modify (fun s => set_objs (<[a := f o]> (objs s)) s).
Definition modify_request (a : Z) (f : Request -> Request) : M Scheduler unit :=
  modify_obj a (fun o => so_set_request (f (sr_request o)) o).
(** A method of the request object. *)
Definition on_obj {A} (a : Z) (c : M SReq A) : M Scheduler A :=
  o ← obj a; zoom (fun _ => o) (fun o' s => set_objs (<[a := o']> (objs s)) s) c.

Definition modify_sets (f : SchedSets -> SchedSets) : M Scheduler unit := modify (fun s => set_sets (f (sets s)) s).

Definition on_waiting {A} (c : (Z -> Request) -> M WaitQueue A) : M Scheduler A :=
  s ← get; zoom waiting set_waiting (c (deref s)).
Definition on_skipped {A} (c : (Z -> Request) -> M WaitQueue A) : M Scheduler A :=
  s ← get; zoom skipped_waiting set_skipped (c (deref s)).

Definition on_kv {A} (c : M K A) : M Scheduler A := zoom kv_cache_manager set_kv c.
Definition on_enc {A} (c : M E A) : M Scheduler A := zoom encoder_cache_manager set_enc c.
(** A call of the KV cache manager that reads and memoises in the request. *)
Definition on_kv_request {A} (a : Z) (c : M (K * Request) A) : M Scheduler A :=
  o ← obj a;
  zoom (fun s => (kv_cache_manager s, sr_request o))
       (fun t s => set_objs (<[a := so_set_request t.2 o]> (objs s)) (set_kv t.1 s)) c.

(** [if self.connector is not None: ...], with what is returned otherwise. *)
Definition on_connector {A} (none : A) (c : M C A) : M Scheduler A := fun s =>
  match connector s with
  | None => Ok none s
  | Some x => match c x with
              | Ok a x' => Ok a (set_connector (Some x') s)
              | Raise e x' => Raise e (set_connector (Some x') s)
              end
  end.
Definition on_ec {A} (none : A) (c : M X A) : M Scheduler A := fun s =>
  match ec_connector s with
  | None => Ok none s
  | Some x => match c x with
              | Ok a x' => Ok a (set_ec (Some x') s)
              | Raise e x' => Raise e (set_ec (Some x') s)
              end
  end.

End State.
Arguments Scheduler : clear implicits.
