(* ===== verification/Scheduler.v ===== *)
(** * The request lifecycle

    The methods of [Scheduler] (vllm/v1/core/sched/scheduler.py) that move
    requests between the queues and release what they hold: arrival
    ([add_request]), streaming sessions, stopping, abortion ([finish_requests]),
    preemption, resets, and the notifications of the KV connector.

    Observability (events, statistics, logging) and the adaptive draft budget
    are left out; transfer parameters returned by connectors are opaque and not
    tracked. *)
From Stdlib Require Import ZArith Lia.
From stdpp Require Import base tactics gmap strings numbers option list.
From S2P Require Import Prelude Blocks Request Hashing Env SchedUtils RequestQueue OrderedDict SchedRequest SchedIface.

Local Open Scope Z_scope.

(** ** Streaming sessions *)

(** [_update_request_as_session], the part on the session object. *)
Definition update_session (block_hasher : option (M Request (list BlockHash))) (u : StreamingUpdate) : M SReq unit :=
  o ← get;
  let num_computed := num_computed_tokens (sr_request o) in
  let kept_output_tokens := py_slice (all_token_ids (sr_request o)) (num_prompt_tokens (sr_request o)) num_computed in
  on_request (modify (fun r => set_tokens [] (py_upto (all_token_ids r) num_computed) r)) ;;
  prompt ← of_option AssertionError (prompt_token_ids o);
  modify (so_set_prompt (Some (prompt ++ kept_output_tokens))) ;;
  on_request (modify (fun r =>
    match default [] (su_mm_features u) with
    | [] => r
    | mm => set_mm_features (mm_features r ++ (shift_feature (num_tokens r) <$> mm)) r
    end)) ;;
  let new := default [] (su_prompt_token_ids u) in
  on_request (modify (fun r => set_tokens (output_token_ids r) (all_token_ids r ++ new) r)) ;;
  modify (so_set_prompt (Some (prompt ++ kept_output_tokens ++ new))) ;;
  on_request (update_block_hashes block_hasher) ;;
  on_request (modify (set_session_fields (zlen (prompt ++ kept_output_tokens ++ new)) (su_arrival_time u)
                        (su_sampling_params u))).

Section Lifecycle.
Context `{Env} {K E C X : Type} `{KVService K} `{EncoderService E} `{KVConnector C} `{ECConnector X}.
Context (cfg : SchedConfig) (block_hasher : option (M Request (list BlockHash))).
Local Abbreviation Sched := (Scheduler K E C X).

Definition update_request_as_session (a : Z) (u : StreamingUpdate) : M Sched unit :=
  o ← obj a;
  modify_sets (fun x => ss_exl3_int8_prefill_requests (exl3_int8_prefill_requests x ∖ {[so_id o]}) x) ;;
  on_obj a (update_session block_hasher u) ;;
  o ← obj a;
  when (bool_decide (so_status o = WAITING_FOR_STREAMING_REQ))
    (modify (fun s => set_num_streaming (num_waiting_for_streaming_input s - 1) s)) ;;
  modify_obj a (so_set_status WAITING).

(** ** Queues *)

(** [_is_blocked_waiting_status] *)
Definition is_blocked_waiting_status (st : RequestStatus) : bool :=
  match st with
  | WAITING_FOR_STRUCTURED_OUTPUT_GRAMMAR | WAITING_FOR_REMOTE_KVS | WAITING_FOR_STREAMING_REQ => true
  | _ => false
  end.

(** [_enqueue_waiting_request] *)
Definition enqueue_waiting_request (a : Z) : M Sched unit :=
  o ← obj a;
  if is_blocked_waiting_status (so_status o) then on_skipped (fun d => wq_add d a)
  else on_waiting (fun d => wq_add d a).

(** ** Release *)

(** [_discard_pending_draft_token_ids] *)
Definition discard_pending_draft_token_ids (rid : string) : M Sched unit :=
  modify_sets (fun x =>
    ss_pending_draft_token_ids (filter (fun e => e.1.1 <> rid) (pending_draft_token_ids x)) x).

(** [_connector_finished]: whether the connector keeps the blocks. *)
Definition connector_finished (a : Z) : M Sched bool :=
  s ← get;
  match connector s with
  | None => mret false
  | Some _ =>
      o ← obj a;
      let r := sr_request o in
      tails ← (if is_kv_producer cfg then on_kv (kv_finalize_partial_tail_offloads r) else mret []);
      on_kv (kv_remove_skipped_blocks (request_id r)
               (Z.max 0 (num_computed_tokens r - num_in_flight_tokens r)) (num_prompt_tokens r)) ;;
      block_ids ← gets (fun s => kv_block_ids_for_computed_tokens (request_id r) (num_computed_tokens r) (kv_cache_manager s));
      partial_tail_delay ← (match tails with
                            | [] => mret false
                            | _ => on_connector false (cn_register_finished_partial_tail r block_ids tails)
                            end);
      delay_free ← (if negb (cn_supports_hma (C := C)) then
                      assert_ (num_groups cfg =? 1) ;;
                      ids ← of_option IndexError (head block_ids);
                      on_connector false (cn_request_finished r ids)
                    else on_connector false (cn_request_finished_all_groups r block_ids));
      mret (delay_free || partial_tail_delay)
  end.

(** [_free_request_blocks] *)
Definition sched_free_request_blocks (a : Z) : M Sched unit :=
  o ← obj a; on_kv (kv_free_request_blocks (sr_request o) (last_sched_seq o)).

(** [_free_blocks] *)
Definition sched_free_blocks (a : Z) : M Sched unit :=
  o ← obj a;
  assert_ (so_finished o) ;;
  sched_free_request_blocks a ;;
  s ← get;
  _ ← of_option KeyError (od_get (so_id o) (requests s));
  modify (fun s => set_requests (od_pop (so_id o) (requests s)) s).

(** [_free_request] *)
Definition free_request (a : Z) (delay_free_blocks : bool) : M Sched unit :=
  o ← obj a;
  assert_ (so_finished o) ;;
  let rid := so_id o in
  modify_sets (fun x => ss_exl3_int8_prefill_requests (exl3_int8_prefill_requests x ∖ {[rid]}) x) ;;
  discard_pending_draft_token_ids rid ;;
  modify_sets (fun x => ss_inflight_prefills (inflight_prefills x ∖ {[a]}) x) ;;
  kv_delay ← connector_finished a;
  ec_delay ← on_ec false (ec_request_finished (sr_request o));
  on_enc (en_free (sr_request o)) ;;
  modify_sets (fun x => ss_finished_req_ids ({[rid]} ∪ finished_req_ids x) x) ;;
  modify_sets (fun x =>
    match finished_req_ids_dict x with
    | None => x
    | Some d => ss_finished_req_ids_dict
        (Some (<[client_index o := {[rid]} ∪ default ∅ (d !! client_index o)]> d)) x
    end) ;;
  if negb (delay_free_blocks || (kv_delay || ec_delay)) then sched_free_blocks a else mret tt.

(** ** [finish_requests] *)

(** The argument: one id, a collection of ids, or [None] for all requests. *)
Inductive FinishTarget := FinishOne (rid : string) | FinishSet (ids : gset string) | FinishAll.

Definition target_ids (t : FinishTarget) (s : Sched) : list string :=
  match t with
  | FinishOne rid => [rid]
  | FinishSet ids => str_set_order ids
  | FinishAll => (requests s).*1
  end.

(** The first pass: the requests to finish, those in [running] and the others. *)
Record FinishPass := mkFinishPass { fp_running : list Z; fp_waiting : list Z; fp_valid : list Z }.

Definition finish_collect (p : FinishPass) (rid : string) : M Sched FinishPass :=
  s ← get;
  match od_get rid (requests s) with
  | None => mret p
  | Some a =>
      o ← obj a;
      if so_finished o then mret p else
      if bool_decide (so_status o = RUNNING) then
        mret (mkFinishPass (a :: fp_running p) (fp_waiting p) (fp_valid p ++ [a]))
      else
        when (bool_decide (so_status o = WAITING_FOR_STREAMING_REQ))
          (modify (fun s => set_num_streaming (num_waiting_for_streaming_input s - 1) s)) ;;
        mret (mkFinishPass (fp_running p) (fp_waiting p ++ [a]) (fp_valid p ++ [a]))
  end.

(** The second pass. *)
Definition finish_one (st : RequestStatus) (a : Z) : M Sched unit :=
  o ← obj a;
  delay ← (if bool_decide (so_status o = WAITING_FOR_REMOTE_KVS) then
             s ← get;
             let delay := negb (bool_decide (so_id o ∈ finished_recving_kv_req_ids (sets s))) in
             modify_sets (fun x => ss_finished_recving_kv_req_ids (finished_recving_kv_req_ids x ∖ {[so_id o]}) x) ;;
             modify_sets (fun x => ss_failed_recving_kv_req_ids (failed_recving_kv_req_ids x ∖ {[so_id o]}) x) ;;
             mret delay
           else mret false);
  modify_obj a (so_set_status st) ;;
  free_request a delay.

(** [if reqs: self.waiting.remove_requests(reqs); self.skipped_waiting.remove_requests(reqs)] *)
Definition remove_from_waiting (reqs : list Z) : M Sched unit :=
  match reqs with
  | [] => mret tt
  | _ => on_waiting (fun d => wq_remove_all d reqs) ;; on_skipped (fun d => wq_remove_all d reqs)
  end.

Definition finish_requests (t : FinishTarget) (st : RequestStatus) : M Sched (list Z) :=
  assert_ (is_finished st) ;;
  s ← get;
  p ← fold_m finish_collect (mkFinishPass [] [] []) (target_ids t s);
  modify (fun s => set_running (remove_all (running s) (fp_running p)).1 s) ;;
  remove_from_waiting (fp_waiting p) ;;
  for_each (fp_valid p) (finish_one st) ;;
  mret (fp_valid p).

(** ** [add_request] *)

Definition sched_add_request (a : Z) : M Sched unit :=
  o ← obj a;
  s ← get;
  match od_get (so_id o) (requests s) with
  | Some e =>
      let update := update_from_request o in
      existing ← obj e;
      if negb (bool_decide (so_status existing = WAITING_FOR_STREAMING_REQ)) then
        q ← of_option AssertionError (streaming_queue existing);
        modify_obj e (so_set_streaming (Some (q ++ [update])))
      else match update with
           | Some u => update_request_as_session e u
           | None => finish_requests (FinishOne (so_id o)) FINISHED_ABORTED ;; mret tt
           end
  | None =>
      when (resumable o) (modify_obj a (so_set_streaming (Some []))) ;;
      enqueue_waiting_request a ;;
      modify (fun s => set_requests (od_set (so_id o) a (requests s)) s) ;;
      on_connector tt (cn_on_new_request (sr_request o))
  end.

(** [_handle_stopped_request]: whether the request is finished. *)
Definition handle_stopped_request (a : Z) : M Sched bool :=
  o ← obj a;
  if negb (resumable o) then mret true else
  match default [] (streaming_queue o) with
  | None :: rest => modify_obj a (so_set_streaming (Some rest)) ;; mret true
  | Some u :: rest =>
      modify_obj a (so_set_streaming (Some rest)) ;;
      update_request_as_session a u ;; enqueue_waiting_request a ;; mret false
  | [] =>
      modify_obj a (so_set_status WAITING_FOR_STREAMING_REQ) ;;
      modify (fun s => set_num_streaming (num_waiting_for_streaming_input s + 1) s) ;;
      enqueue_waiting_request a ;; mret false
  end.

(** ** Preemption and reset *)

(** The counters [_preempt_request] resets on the request. *)
Definition preempted (drop : bool) (o : SReq) : SReq :=
  let r := sr_request o in
  so_set_placeholders 0
    (so_set_stale (num_in_flight_tokens r) (drop || (drop_stale_output o && (0 <? num_stale_output_tokens o)))
      (so_set_spec [] None
        (so_set_request (set_preemptions (num_preemptions r + 1) (set_computed 0 (set_status PREEMPTED r))) o))).

(** [_preempt_request] *)
Definition preempt_request (a : Z) (drop : bool) : M Sched unit :=
  o ← obj a;
  assert_ (bool_decide (so_status o = RUNNING)) ;;
  sched_free_request_blocks a ;;
  on_enc (en_free (sr_request o)) ;;
  modify_sets (fun x => ss_inflight_prefills (inflight_prefills x ∖ {[a]}) x) ;;
  modify_sets (fun x => ss_exl3_int8_prefill_requests (exl3_int8_prefill_requests x ∖ {[so_id o]}) x) ;;
  discard_pending_draft_token_ids (so_id o) ;;
  modify_obj a (preempted drop) ;;
  on_waiting (fun d => wq_prepend d a) ;;
  modify_sets (fun x => ss_reset_preempted_req_ids ({[so_id o]} ∪ reset_preempted_req_ids x) x).

(** [while self.running: self._preempt_request(self.running.pop(), ...)] *)
Fixpoint preempt_all (fuel : nat) : M Sched unit :=
  s ← get;
  match last (running s) with
  | None => mret tt
  | Some a =>
      match fuel with
      | O => raise OutOfFuel
      | S fuel' =>
          modify (fun s => set_running (removelast (running s)) s) ;;
          preempt_request a true ;;
          preempt_all fuel'
      end
  end.

(** [reset_connector_cache] *)
Definition reset_connector_cache : M Sched bool := on_connector true cn_reset_cache.

(** [reset_prefix_cache] *)
Definition sched_reset_prefix_cache (reset_running_requests reset_connector : bool) : M Sched bool :=
  when reset_running_requests
    (s ← get; preempt_all (length (running s)) ;;
     modify_sets (ss_prev_step_scheduled_req_ids ∅)) ;;
  ok ← on_kv kv_reset_prefix_cache;
  if reset_running_requests && negb ok then raise RuntimeError else
  if reset_connector then conn ← reset_connector_cache; mret (conn && ok) else mret ok.

(** ** KV transfers *)

(** [_update_waiting_for_remote_kv] *)
Definition update_waiting_for_remote_kv (a : Z) : M Sched unit :=
  s ← get;
  assert_ (bool_decide (is_Some (connector s))) ;;
  o ← obj a;
  let rid := so_id o in
  let n := num_computed_tokens (sr_request o) in
  (if bool_decide (rid ∈ failed_recving_kv_req_ids (sets s)) then
     (if negb (n =? 0) then
        on_kv_request a (kv_cache_blocks n) ;;
        when (needs_kv_cache_zeroing cfg) (on_kv (kv_record_blocks_for_zeroing rid n))
      else on_kv (kv_free (sr_request o))) ;;
     modify_sets (fun x => ss_failed_recving_kv_req_ids (failed_recving_kv_req_ids x ∖ {[rid]}) x)
   else
     on_kv_request a (kv_cache_blocks n) ;;
     when (n =? num_tokens (sr_request o)) (modify_request a (set_computed (num_tokens (sr_request o) - 1)))) ;;
  s ← get;
  (if bool_decide (rid ∈ finished_recving_kv_req_ids (sets s)) then mret tt else raise KeyError) ;;
  modify_sets (fun x => ss_finished_recving_kv_req_ids (finished_recving_kv_req_ids x ∖ {[rid]}) x).

(** [_try_promote_blocked_waiting_request] *)
Definition try_promote_blocked_waiting_request (a : Z) : M Sched bool :=
  o ← obj a;
  s ← get;
  match so_status o with
  | WAITING_FOR_REMOTE_KVS =>
      if negb (bool_decide (so_id o ∈ finished_recving_kv_req_ids (sets s))) then mret false else
      update_waiting_for_remote_kv a ;;
      modify_obj a (fun o => so_set_status (if negb (num_preemptions (sr_request o) =? 0) then PREEMPTED else WAITING) o) ;;
      mret true
  | WAITING_FOR_STRUCTURED_OUTPUT_GRAMMAR =>
      match structured_output_request o with
      | None | Some GrammarPending => mret false
      | Some GrammarFailed =>
          modify_sets (fun x => ss_grammar_compile_error_reqs ({[so_id o]} ∪ grammar_compile_error_reqs x) x) ;; mret false
      | Some GrammarReady => modify_obj a (so_set_status WAITING) ;; mret true
      end
  | WAITING_FOR_STREAMING_REQ =>
      assert_ (bool_decide (default [] (streaming_queue o) = [])) ;; mret false
  | _ => raise AssertionError
  end.

(** [_update_from_kv_xfer_finished] *)
Definition recv_finished (rid : string) : M Sched unit :=
  s ← get;
  match od_get rid (requests s) with
  | None => mret tt
  | Some a =>
      o ← obj a;
      if bool_decide (so_status o = WAITING_FOR_REMOTE_KVS) then
        modify_sets (fun x => ss_finished_recving_kv_req_ids ({[rid]} ∪ finished_recving_kv_req_ids x) x)
      else if so_finished o then sched_free_blocks a else mret tt
  end.
Definition send_finished (rid : string) : M Sched unit :=
  s ← get;
  match od_get rid (requests s) with None => mret tt | Some a => sched_free_blocks a end.
Definition update_from_kv_xfer_finished (out : KVConnectorOutput) : M Sched unit :=
  on_connector tt (cn_update_connector_output out) ;;
  for_each (finished_recving out) recv_finished ;;
  for_each (finished_sending out) send_finished.

(** ** Counts *)

Definition get_request_counts (s : Sched) : Z * Z :=
  (zlen (running s), wq_len (waiting s) + wq_len (skipped_waiting s)).

Definition get_num_unfinished_requests (s : Sched) : Z :=
  match pause_state s with
  | PAUSED_ALL => 0
  | PAUSED_NEW => zlen (running s)
  | UNPAUSED =>
      wq_len (waiting s) + wq_len (skipped_waiting s) - num_waiting_for_streaming_input s + zlen (running s)
  end.

Definition has_finished_requests (s : Sched) : bool :=
  if negb (bool_decide (finished_req_ids (sets s) = ∅)) then true else
  match connector s with
  | None => false
  | Some _ => wq_len (waiting s) + wq_len (skipped_waiting s) + zlen (running s) <? zlen (requests s)
  end.

(** [has_requests], with [has_unfinished_requests] of the interface. *)
Definition has_requests (s : Sched) : bool :=
  (0 <? get_num_unfinished_requests s) || has_finished_requests s
  || match connector s with Some c => cn_has_pending_push_work c | None => false end
  || match ec_connector s with Some x => ec_has_pending_push_work x | None => false end.

Definition set_pause_state (p : PauseState) : M Sched unit := modify (set_pause p).

End Lifecycle.
