(* ===== verification/SchedulerInv.v ===== *)
(** * The invariant of the request lifecycle

    Every request the scheduler tracks and has not finished is in exactly one of
    the running list, the waiting queue and the skipped queue, where its status
    belongs; nothing else is queued; the count of paused sessions is exact; and
    whatever the KV cache or the encoder cache holds for a request id, that id is
    tracked.

    Methods move a request in several statements, so the invariant has a list
    [D] of references that are in the middle of a move: tracked, unfinished and
    in no queue.  Moves are compositions of [take], [update], [put] and
    [settle]. *)
From Stdlib Require Import ZArith Lia.
From stdpp Require Import base tactics gmap strings numbers option list.
From S2P Require Import Prelude Blocks Request Hashing Env SchedUtils RequestQueue OrderedDict SchedRequest SchedIface Scheduler.

Local Open Scope Z_scope.

(** ** What the components promise *)

(** [kv_holds k rid]: the KV cache keeps blocks for the id. *)
Class KVLaws (K : Type) `{KVService K} := {
  kv_wf : K -> Prop;
  kv_holds : K -> string -> Prop;
  kvl_free_request r last k : kv_wf k ->
    wp (kv_free_request_blocks r last) (fun _ k' => kv_wf k' /\
      forall q, kv_holds k' q -> kv_holds k q /\ q <> request_id r) k;
  kvl_free r k : kv_wf k ->
    wp (kv_free r) (fun _ k' => kv_wf k' /\ forall q, kv_holds k' q -> kv_holds k q /\ q <> request_id r) k;
  kvl_reset k : kv_wf k ->
    wp kv_reset_prefix_cache (fun _ k' => kv_wf k' /\ forall q, kv_holds k' q -> kv_holds k q) k;
  kvl_trim rid n p k : kv_wf k -> 0 <= n -> 0 <= p ->
    wp (kv_remove_skipped_blocks rid n p) (fun _ k' => kv_wf k' /\ forall q, kv_holds k' q -> kv_holds k q) k;
  kvl_finalize r k : kv_wf k ->
    wp (kv_finalize_partial_tail_offloads r) (fun _ k' => kv_wf k' /\ forall q, kv_holds k' q -> kv_holds k q) k;
  kvl_groups rid n k : kv_wf k -> kv_block_ids_for_computed_tokens rid n k <> [];
  (** [kv_cacheable k r n]: the first [n] tokens of [r] are computed, hashed and
      have their blocks *)
  kv_cacheable : K -> Request -> Z -> Prop;
  kvl_cache n k r : kv_wf k -> kv_cacheable k r n ->
    wp (kv_cache_blocks n) (fun _ t => kv_wf t.1 /\ same_but_memo r t.2 /\
      forall q, kv_holds t.1 q -> kv_holds k q) (k, r);
  kvl_zero rid n k : kv_wf k ->
    wp (kv_record_blocks_for_zeroing rid n) (fun _ k' => kv_wf k' /\ forall q, kv_holds k' q -> kv_holds k q) k
}.

(** [en_knows r]: the features of [r] are those the cache accounts for its id. *)
Class EncoderLaws (E : Type) `{EncoderService E} := {
  en_wf : E -> Prop;
  en_holds : E -> string -> Prop;
  en_knows : Request -> Prop;
  enl_knows r r' : request_id r' = request_id r -> mm_features r' = mm_features r -> en_knows r -> en_knows r';
  enl_free r e : en_wf e -> en_knows r ->
    wp (en_free r) (fun _ e' => en_wf e' /\ forall q, en_holds e' q -> en_holds e q /\ q <> request_id r) e
}.

(** A connector keeps its own invariant and raises nothing. *)
Class KVConnectorLaws (C : Type) `{KVConnector C} := {
  cn_wf : C -> Prop;
  cnl_new r c : cn_wf c -> wp (cn_on_new_request r) (fun _ => cn_wf) c;
  cnl_finished r ids c : cn_wf c -> wp (cn_request_finished r ids) (fun _ => cn_wf) c;
  cnl_finished_all r ids c : cn_wf c -> wp (cn_request_finished_all_groups r ids) (fun _ => cn_wf) c;
  cnl_tail r ids t c : cn_wf c -> wp (cn_register_finished_partial_tail r ids t) (fun _ => cn_wf) c;
  cnl_output o c : cn_wf c -> wp (cn_update_connector_output o) (fun _ => cn_wf) c;
  cnl_reset c : cn_wf c -> wp cn_reset_cache (fun _ => cn_wf) c
}.

Class ECConnectorLaws (X : Type) `{ECConnector X} := {
  ec_wf : X -> Prop;
  ecl_finished r x : ec_wf x -> wp (ec_request_finished r) (fun _ => ec_wf) x
}.

(** ** The invariant *)

Section Inv.
Context `{Env} {K E C X : Type} `{KVLaws K} `{EncoderLaws E} `{KVConnectorLaws C} `{ECConnectorLaws X}.
Context (cfg : SchedConfig).
Local Abbreviation Sched := (Scheduler K E C X).
Implicit Types (s : Sched) (D : list Z).

Definition queued (s : Sched) : list Z := running s ++ members (waiting s) ++ members (skipped_waiting s).

(** [a] is the object the dictionary has for its id. *)
Definition tracked (s : Sched) (a : Z) (o : SReq) : Prop :=
  objs s !! a = Some o /\ od_get (so_id o) (requests s) = Some a.

Definition streaming (ob : gmap Z SReq) (a : Z) : bool :=
  match ob !! a with Some o => bool_decide (so_status o = WAITING_FOR_STREAMING_REQ) | None => false end.
Definition num_streaming (ob : gmap Z SReq) (l : list Z) : Z := zlen (filter (streaming ob) l).

(** Updates of sessions carry tokens only: what the encoder cache accounts for
    an id is fixed. *)
Definition update_ok (u : option StreamingUpdate) : Prop :=
  forall v, u = Some v -> default [] (su_mm_features v) = [].

(** A session has its prompt and a queue of updates, which is empty while the
    session waits for input. *)
Definition session_ok (o : SReq) : Prop :=
  (resumable o = true -> is_Some (prompt_token_ids o) /\ exists q, streaming_queue o = Some q /\ Forall update_ok q) /\
  (so_status o = WAITING_FOR_STREAMING_REQ -> resumable o = true /\ streaming_queue o = Some []).

(** The components' states; fixed parts of a configuration. *)
Record parts_wf (s : Sched) : Prop := {
  pw_kv : kv_wf (kv_cache_manager s);
  pw_enc : en_wf (encoder_cache_manager s);
  pw_conn : forall c, connector s = Some c -> cn_wf c /\ (cn_supports_hma (C := C) = true \/ num_groups cfg = 1);
  pw_ec : forall x, ec_connector s = Some x -> ec_wf x
}.

Definition can_wait (st : RequestStatus) : Prop := st = WAITING \/ st = PREEMPTED.
Definition can_skip (st : RequestStatus) : Prop := can_wait st \/ is_blocked_waiting_status st = true.

Record object_ok (o : SReq) : Prop := {
  ob_session : session_ok o;
  ob_known : en_knows (sr_request o);
  ob_counts : 0 <= num_prompt_tokens (sr_request o)
}.

Record lifecycle (D : list Z) (s : Sched) : Prop := {
  lc_keys : NoDup (requests s).*1;
  lc_objs : forall rid a, od_get rid (requests s) = Some a ->
    exists o, objs s !! a = Some o /\ so_id o = rid /\ object_ok o;
  lc_nodup : NoDup (queued s);
  lc_queued : forall a, a ∈ queued s <-> a ∉ D /\ exists o, tracked s a o /\ so_finished o = false;
  lc_running : forall a o, a ∈ running s -> objs s !! a = Some o -> so_status o = RUNNING;
  lc_waiting : forall a o, a ∈ members (waiting s) -> objs s !! a = Some o -> can_wait (so_status o);
  lc_skipped : forall a o, a ∈ members (skipped_waiting s) -> objs s !! a = Some o -> can_skip (so_status o);
  lc_count : num_waiting_for_streaming_input s = num_streaming (objs s) (queued s);
  lc_kv : forall rid, kv_holds (kv_cache_manager s) rid -> rid ∈ (requests s).*1;
  lc_enc : forall rid, en_holds (encoder_cache_manager s) rid ->
    exists a o, tracked s a o /\ so_id o = rid /\ (so_finished o = false \/ a ∈ D);
  lc_parts : parts_wf s
}.

(** *** Parts the invariant does not read *)

Lemma lifecycle_sets D s x : lifecycle D s -> lifecycle D (set_sets x s).
Proof. by intros [? ? ? ? ? ? ? ? ? ? [? ? ? ?]]. Qed.
Lemma lifecycle_pause D s x : lifecycle D s -> lifecycle D (set_pause x s).
Proof. by intros [? ? ? ? ? ? ? ? ? ? [? ? ? ?]]. Qed.

Lemma lifecycle_kv D s k :
  lifecycle D s -> kv_wf k -> (forall q, kv_holds k q -> kv_holds (kv_cache_manager s) q) -> lifecycle D (set_kv k s).
Proof. intros [? ? ? ? ? ? ? ? L ? [? ? ? ?]] Hk Hh. split; try done. intros rid Hr. by apply L, Hh. Qed.

Lemma lifecycle_enc D s e :
  lifecycle D s -> en_wf e -> (forall q, en_holds e q -> en_holds (encoder_cache_manager s) q) -> lifecycle D (set_enc e s).
Proof. intros [? ? ? ? ? ? ? ? ? L [? ? ? ?]] Hk Hh. split; try done. intros rid Hr. by apply L, Hh. Qed.

Lemma lifecycle_connector D s c c' :
  lifecycle D s -> connector s = Some c -> cn_wf c' -> lifecycle D (set_connector (Some c') s).
Proof.
  intros [? ? ? ? ? ? ? ? ? ? [P1 P2 P3 P4]] Hc Hw. split; try done. split; try done.
  cbn. intros c1 [= <-]. split; [done|]. by destruct (P3 c Hc).
Qed.

Lemma lifecycle_ec D s x :
  lifecycle D s -> ec_wf x -> lifecycle D (set_ec (Some x) s).
Proof.
  intros [? ? ? ? ? ? ? ? ? ? [P1 P2 P3 P4]] Hw. split; try done. split; try done. cbn. by intros c1 [= <-].
Qed.

Lemma tracked_lookup D s rid a :
  lifecycle D s -> od_get rid (requests s) = Some a -> exists o, tracked s a o /\ so_id o = rid /\ object_ok o.
Proof.
  intros L Hg. destruct (lc_objs _ _ L rid a Hg) as (o & Ho & <- & Hok). exists o. by split; [split|].
Qed.

Lemma tracked_inj D s a b o o' :
  lifecycle D s -> tracked s a o -> tracked s b o' -> so_id o = so_id o' -> a = b.
Proof. intros _ [_ Ha] [_ Hb] Eid. rewrite Eid, Hb in Ha. by injection Ha. Qed.

(** *** Counting *)

Lemma num_streaming_perm ob l l' : l ≡ₚ l' -> num_streaming ob l = num_streaming ob l'.
Proof. intros Hp. unfold num_streaming, zlen. by rewrite Hp. Qed.

Lemma num_streaming_cons ob a l :
  num_streaming ob (a :: l) = Z.b2z (streaming ob a) + num_streaming ob l.
Proof.
  unfold num_streaming. destruct (streaming ob a) eqn:Es.
  - rewrite filter_cons_True by (rewrite Es; exact I). rewrite zlen_cons. cbn. lia.
  - rewrite filter_cons_False by (rewrite Es; exact (fun x => x)). cbn. lia.
Qed.

Lemma num_streaming_app ob l l' : num_streaming ob (l ++ l') = num_streaming ob l + num_streaming ob l'.
Proof. unfold num_streaming. by rewrite filter_app, zlen_app. Qed.

Lemma num_streaming_ext ob ob' l :
  (forall a, a ∈ l -> ob' !! a = ob !! a) -> num_streaming ob' l = num_streaming ob l.
Proof.
  intros He. unfold num_streaming. f_equal. induction l as [|a l IH]; [done|].
  assert (streaming ob' a = streaming ob a) as Ea by (unfold streaming; by rewrite He by left).
  rewrite !filter_cons, Ea, IH; [done|]. intros b Hb. apply He. by right.
Qed.

Lemma streaming_other ob a o : ob !! a = Some o -> so_status o <> WAITING_FOR_STREAMING_REQ -> streaming ob a = false.
Proof. intros Ho Hst. unfold streaming. rewrite Ho. by apply bool_decide_eq_false. Qed.

Lemma num_streaming_one ob a : num_streaming ob [a] = Z.b2z (streaming ob a).
Proof. rewrite num_streaming_cons. change (num_streaming ob []) with 0. lia. Qed.

(** *** Moves *)

(** The queues of [s'] hold what those of [s] held without [l]. *)
Record removed (l : list Z) (s s' : Sched) : Prop := {
  rm_running : forall b, b ∈ running s' -> b ∈ running s;
  rm_waiting : forall b, b ∈ members (waiting s') -> b ∈ members (waiting s);
  rm_skipped : forall b, b ∈ members (skipped_waiting s') -> b ∈ members (skipped_waiting s);
  rm_perm : queued s ≡ₚ l ++ queued s'
}.

(** Nothing else changed but the count of paused sessions. *)
Record same_but_queues (s s' : Sched) : Prop := {
  sq_objs : objs s' = objs s;
  sq_requests : requests s' = requests s;
  sq_kv : kv_cache_manager s' = kv_cache_manager s;
  sq_enc : encoder_cache_manager s' = encoder_cache_manager s;
  sq_conn : connector s' = connector s;
  sq_ec : ec_connector s' = ec_connector s
}.

Lemma parts_same s s' : same_but_queues s s' -> parts_wf s -> parts_wf s'.
Proof. intros [_ _ E3 E4 E5 E6] [P1 P2 P3 P4]. split; rewrite ?E3, ?E4, ?E5, ?E6; done. Qed.

Lemma tracked_same s s' a o : same_but_queues s s' -> tracked s' a o <-> tracked s a o.
Proof. intros [E1 E2 _ _ _ _]. unfold tracked. by rewrite E1, E2. Qed.

(** Take requests out of their queues. *)
Lemma lifecycle_take D s s' l :
  lifecycle D s -> removed l s s' -> same_but_queues s s' ->
  num_waiting_for_streaming_input s' = num_waiting_for_streaming_input s - num_streaming (objs s) l ->
  lifecycle (l ++ D) s'.
Proof.
  intros [L1 L2 L3 L4 L5 L6 L7 L8 L9 L10 L11] [R1 R2 R3 R4] Hs Hn. pose proof Hs as [E1 E2 E3 E4 E5 E6].
  rewrite R4 in L3. apply NoDup_app in L3 as (_ & Ha & L3).
  assert (forall b, b ∈ queued s' <-> b ∈ queued s /\ b ∉ l) as Hq.
  { intros b. rewrite R4, elem_of_app. split; [|tauto]. intros Hb. split; [by right|]. intros Hx. by apply (Ha b). }
  split; rewrite ?E1, ?E2, ?E3, ?E4; try done.
  - intros b. rewrite Hq, L4, not_elem_of_app. setoid_rewrite (tracked_same s s' b _ Hs). tauto.
  - intros b o Hb. by apply L5, R1.
  - intros b o Hb. by apply L6, R2.
  - intros b o Hb. by apply L7, R3.
  - rewrite Hn, L8, (num_streaming_perm _ _ _ R4), num_streaming_app. lia.
  - intros rid Hr. destruct (L10 rid Hr) as (b & o & Ht & Hid & Hf). exists b, o. rewrite (tracked_same s s' _ _ Hs).
    rewrite elem_of_app. tauto.
  - by apply (parts_same s).
Qed.

(** Change an object that is in no queue, or the same with a finished one. *)
Lemma lifecycle_update D s a o o' :
  lifecycle (a :: D) s -> objs s !! a = Some o -> so_id o' = so_id o -> object_ok o' ->
  lifecycle (a :: D) (set_objs (<[a := o']> (objs s)) s).
Proof.
  intros [L1 L2 L3 L4 L5 L6 L7 L8 L9 L10 L11] Ho Hid Hok.
  assert (forall b, b ∈ queued s -> b <> a) as Hne.
  { intros b Hb ->. apply L4 in Hb as [Hb _]. by apply not_elem_of_cons in Hb as []. }
  split; cbn; try done.
  - intros rid b Hg. destruct (L2 rid b Hg) as (p & Hp & Hr & Hk). destruct (decide (b = a)) as [->|Hb].
    + exists o'. rewrite lookup_insert_eq. rewrite Ho in Hp. injection Hp as <-. split_and!; congruence.
    + exists p. by rewrite lookup_insert_ne.
  - intros b. change (queued (set_objs _ s)) with (queued s). rewrite L4. unfold tracked. cbn.
    rewrite not_elem_of_cons. destruct (decide (b = a)) as [->|Hb]; [naive_solver|].
    by rewrite lookup_insert_ne.
  - intros b p Hb. rewrite lookup_insert_ne; [by apply L5|]. intros ->. apply (Hne b); [|done].
    apply elem_of_app. by left.
  - intros b p Hb. rewrite lookup_insert_ne; [by apply L6|]. intros ->. apply (Hne b); [|done].
    unfold queued. rewrite !elem_of_app. tauto.
  - intros b p Hb. rewrite lookup_insert_ne; [by apply L7|]. intros ->. apply (Hne b); [|done].
    unfold queued. rewrite !elem_of_app. tauto.
  - change (queued (set_objs _ s)) with (queued s). rewrite L8. symmetry. apply num_streaming_ext. intros b Hb.
    rewrite lookup_insert_ne; [done|]. intros ->. by apply (Hne b).
  - intros rid Hr. destruct (L10 rid Hr) as (b & p & [Hp Hg] & Hi & Hf). unfold tracked. cbn.
    destruct (decide (b = a)) as [->|Hb].
    + exists a, o'. rewrite lookup_insert_eq, Hid. rewrite Ho in Hp. injection Hp as <-. split_and!; [done|done|done|right; by left].
    + exists b, p. by rewrite lookup_insert_ne.
  - by destruct L11.
Qed.

(** A finished object with no encoder entries needs no queue. *)
Lemma lifecycle_settle D s a o :
  objs s !! a = Some o -> so_finished o = true -> ~ en_holds (encoder_cache_manager s) (so_id o) ->
  lifecycle (a :: D) s -> lifecycle D s.
Proof.
  intros Hoa Hfa Hen [L1 L2 L3 L4 L5 L6 L7 L8 L9 L10 L11].
  assert (forall b, b ∉ a :: D /\ (exists o, tracked s b o /\ so_finished o = false) <->
                    b ∉ D /\ (exists o, tracked s b o /\ so_finished o = false)) as Heq.
  { intros b. rewrite not_elem_of_cons. split; [intros [[_ Hb] Hx]; by split|].
    intros [Hb (p & [Hp Hg] & Hn)]. split; [|by exists p]. split; [|done].
    intros ->. congruence. }
  split; try done.
  - intros b. by rewrite L4, Heq.
  - intros rid Hr. destruct (L10 rid Hr) as (b & p & Hp & Hid & Hf). exists b, p. split_and!; [done|done|].
    destruct Hf as [|[->|]%elem_of_cons]; [by left| |by right]. destruct Hp as [Hp _]. exfalso. apply Hen. congruence.
Qed.

(** A finished object may be taken up again. *)
Lemma lifecycle_unsettle D s a o :
  objs s !! a = Some o -> so_finished o = true -> lifecycle D s -> lifecycle (a :: D) s.
Proof.
  intros Hoa Hfa [L1 L2 L3 L4 L5 L6 L7 L8 L9 L10 L11]. split; try done.
  - intros b. rewrite L4, not_elem_of_cons. split; [|intros [[_ Hb] Hx]; by split].
    intros [Hb (p & [Hp Hg] & Hn)]. split; [|by exists p]. split; [|done]. intros ->. congruence.
  - intros rid Hr. destruct (L10 rid Hr) as (b & p & Hp & Hid & Hf). exists b, p. rewrite elem_of_cons. tauto.
Qed.

(** Where a request may be put. *)
Inductive put_into (a : Z) (st : RequestStatus) (s s' : Sched) : Prop :=
| put_running : st = RUNNING -> running s' ≡ₚ a :: running s -> waiting s' = waiting s ->
    skipped_waiting s' = skipped_waiting s -> put_into a st s s'
| put_waiting : can_wait st -> running s' = running s -> members (waiting s') ≡ₚ a :: members (waiting s) ->
    skipped_waiting s' = skipped_waiting s -> put_into a st s s'
| put_skipped : can_skip st -> running s' = running s -> waiting s' = waiting s ->
    members (skipped_waiting s') ≡ₚ a :: members (skipped_waiting s) -> put_into a st s s'.

Lemma put_into_perm a st s s' : put_into a st s s' -> queued s' ≡ₚ a :: queued s.
Proof.
  unfold queued. intros [_ Hr Hw Hk|_ Hr Hw Hk|_ Hr Hw Hk]; rewrite Hr, Hw, Hk; [done| |].
  - cbn. symmetry. apply Permutation_middle.
  - rewrite !(Permutation_app_comm (running s)), <- !app_assoc. cbn. rewrite <- !Permutation_middle. done.
Qed.

(** Put a request into the queue its status belongs to. *)
Lemma lifecycle_put D s s' a o :
  lifecycle (a :: D) s -> a ∉ D -> tracked s a o -> so_finished o = false -> put_into a (so_status o) s s' ->
  same_but_queues s s' ->
  num_waiting_for_streaming_input s' = num_waiting_for_streaming_input s + Z.b2z (streaming (objs s) a) ->
  lifecycle D s'.
Proof.
  intros [L1 L2 L3 L4 L5 L6 L7 L8 L9 L10 L11] HaD Ht Hf Hput Hs Hn. pose proof (put_into_perm _ _ _ _ Hput) as Hp.
  pose proof Hs as [E1 E2 E3 E4 E5 E6]. pose proof Ht as [Ho _].
  assert (a ∉ queued s) as Ha by (intros [Hx _]%L4; by apply not_elem_of_cons in Hx as []).
  split; rewrite ?E1, ?E2, ?E3, ?E4; try done.
  - rewrite Hp. by apply NoDup_cons.
  - intros b. rewrite Hp, elem_of_cons, L4, not_elem_of_cons. setoid_rewrite (tracked_same s s' b _ Hs).
    destruct (decide (b = a)) as [->|Hb]; naive_solver.
  - intros b p Hb Hp'. destruct Hput as [Hst Hr Hw Hk|_ Hr Hw Hk|_ Hr Hw Hk]; rewrite Hr in Hb; [|by apply (L5 b)..].
    apply elem_of_cons in Hb as [->|Hb]; [congruence|by apply (L5 b)].
  - intros b p Hb Hp'. destruct Hput as [Hst Hr Hw Hk|Hst Hr Hw Hk|_ Hr Hw Hk]; rewrite Hw in Hb; [by apply (L6 b)| |by apply (L6 b)].
    apply elem_of_cons in Hb as [->|Hb]; [congruence|by apply (L6 b)].
  - intros b p Hb Hp'. destruct Hput as [Hst Hr Hw Hk|Hst Hr Hw Hk|Hst Hr Hw Hk]; rewrite Hk in Hb; [by apply (L7 b)..|].
    apply elem_of_cons in Hb as [->|Hb]; [congruence|by apply (L7 b)].
  - rewrite Hn, L8, (num_streaming_perm _ _ _ Hp), num_streaming_cons. lia.
  - intros rid Hr. destruct (L10 rid Hr) as (b & p & Hb & Hid & Hfb). exists b, p. rewrite (tracked_same s s' _ _ Hs).
    split_and!; [done|done|]. destruct Hfb as [|[->|]%elem_of_cons]; [by left| |by right].
    left. destruct Hb as [Hb _]. congruence.
  - by apply (parts_same s).
Qed.

End Inv.
