(* ===== verification/SchedulerOps.v ===== *)
(** * What the lifecycle methods keep

    Each method of Scheduler.v raises nothing where its contract holds and
    keeps the invariant of SchedulerInv.v. *)
From Stdlib Require Import ZArith Lia.
From stdpp Require Import base tactics gmap strings numbers option list.
From S2P Require Import Prelude Blocks Request Hashing Env SchedUtils RequestQueue OrderedDict SchedRequest SchedIface Scheduler SchedulerInv.

Local Open Scope Z_scope.

(** ** Statements that keep a predicate *)

Definition preserves {S A} (I : S -> Prop) (m : M S A) : Prop := forall s, I s -> wp m (fun _ => I) s.

Lemma preserves_ret {S A} (I : S -> Prop) (a : A) : preserves I (mret a).
Proof. by intros s Hs. Qed.

Lemma preserves_bind {S A B} (I : S -> Prop) (m : M S A) (f : A -> M S B) :
  preserves I m -> (forall a, preserves I (f a)) -> preserves I (m ≫= f).
Proof. intros Hm Hf s Hs. apply wp_bind. eapply wp_mono; [by apply Hm|]. intros a s'. apply Hf. Qed.

Lemma wp_bind_keep {S A B} (I : S -> Prop) (m : M S A) (f : A -> M S B) (Q : B -> S -> Prop) s :
  preserves I m -> I s -> (forall a s', I s' -> wp (f a) Q s') -> wp (m ≫= f) Q s.
Proof. intros Hm Hs Hf. apply wp_bind. eapply wp_mono; [by apply Hm|]. intros a s'. apply Hf. Qed.

(** Statements that may raise: [F] holds of what they raise. *)
Definition wpe {S A} (m : M S A) (Q : A -> S -> Prop) (F : exn -> S -> Prop) (s : S) : Prop :=
  match m s with Ok a s' => Q a s' | Raise e s' => F e s' end.

Lemma wpe_bind {S A B} (m : M S A) (f : A -> M S B) Q F s :
  wp m (fun a s' => wpe (f a) Q F s') s -> wpe (m ≫= f) Q F s.
Proof. unfold wp, wpe, mbind, M_bind. by destruct (m s). Qed.

Lemma wpe_wp {S A} (m : M S A) Q F s : wp m Q s -> wpe m Q F s.
Proof. unfold wp, wpe. by destruct (m s). Qed.

(** ** Statements on parts of the state *)

Section Statements.
Context {K E C X : Type}.
Local Abbreviation Sched := (Scheduler K E C X).
Implicit Types s : Sched.

Lemma wp_obj a o Q s : objs s !! a = Some o -> Q o s -> wp (obj a) Q s.
Proof. intros Ho HQ. unfold obj. apply wp_bind, wp_get. by eapply wp_of_option. Qed.

Lemma wp_modify_obj a f o (Q : unit -> Sched -> Prop) s :
  objs s !! a = Some o -> Q tt (set_objs (<[a := f o]> (objs s)) s) -> wp (modify_obj a f) Q s.
Proof. intros Ho HQ. unfold modify_obj. apply wp_bind. by eapply wp_obj. Qed.

Lemma wp_on_obj {A} a (c : M SReq A) o Q s :
  objs s !! a = Some o -> wp c (fun x o' => Q x (set_objs (<[a := o']> (objs s)) s)) o -> wp (on_obj a c) Q s.
Proof. intros Ho HQ. unfold on_obj. apply wp_bind. eapply wp_obj; [done|]. by apply wp_zoom. Qed.

Lemma wp_on_waiting {A} (c : (Z -> Request) -> M WaitQueue A) Q s :
  wp (c (deref s)) (fun x q => Q x (set_waiting q s)) (waiting s) -> wp (on_waiting c) Q s.
Proof. intros HQ. unfold on_waiting. by apply wp_bind, wp_get, wp_zoom. Qed.

Lemma wp_on_skipped {A} (c : (Z -> Request) -> M WaitQueue A) Q s :
  wp (c (deref s)) (fun x q => Q x (set_skipped q s)) (skipped_waiting s) -> wp (on_skipped c) Q s.
Proof. intros HQ. unfold on_skipped. by apply wp_bind, wp_get, wp_zoom. Qed.

Lemma wp_on_connector {A} (none : A) (c : M C A) Q s :
  (connector s = None -> Q none s) ->
  (forall x, connector s = Some x -> wp c (fun a x' => Q a (set_connector (Some x') s)) x) ->
  wp (on_connector none c) Q s.
Proof.
  intros H1 H2. unfold wp, on_connector. destruct (connector s) as [x|] eqn:Ec; [|by apply H1].
  specialize (H2 x eq_refl). unfold wp in H2. by destruct (c x).
Qed.

Lemma wp_on_ec {A} (none : A) (c : M X A) Q s :
  (ec_connector s = None -> Q none s) ->
  (forall x, ec_connector s = Some x -> wp c (fun a x' => Q a (set_ec (Some x') s)) x) ->
  wp (on_ec none c) Q s.
Proof.
  intros H1 H2. unfold wp, on_ec. destruct (ec_connector s) as [x|] eqn:Ec; [|by apply H1].
  specialize (H2 x eq_refl). unfold wp in H2. by destruct (c x).
Qed.

End Statements.

Section Ops.
Context `{Env} {K E C X : Type} `{KVLaws K} `{EncoderLaws E} `{KVConnectorLaws C} `{ECConnectorLaws X}.
Context (cfg : SchedConfig) (block_hasher : option (M Request (list BlockHash))).
(** The hasher memoises in the request and raises nothing. *)
Context (hasher_total : forall h, block_hasher = Some h -> forall r, wp h (fun _ r' => same_but_memo r r') r).
Local Abbreviation Sched := (Scheduler K E C X).
Local Abbreviation lifecycle := (lifecycle cfg).
Implicit Types (s : Sched) (D : list Z).

(** What a method leaves alone. *)
Record same_core (s s' : Sched) : Prop := {
  sk_objs : objs s' = objs s;
  sk_requests : requests s' = requests s;
  sk_running : running s' = running s;
  sk_waiting : waiting s' = waiting s;
  sk_skipped : skipped_waiting s' = skipped_waiting s;
  sk_count : num_waiting_for_streaming_input s' = num_waiting_for_streaming_input s
}.

Lemma same_core_refl s : same_core s s.
Proof. by split. Qed.
Lemma same_core_trans s1 s2 s3 : same_core s1 s2 -> same_core s2 s3 -> same_core s1 s3.
Proof. intros [? ? ? ? ? ?] [? ? ? ? ? ?]. split; congruence. Qed.

(** ** Release *)

(** Statements between which only the components change. *)
Definition released D s (s' : Sched) : Prop :=
  lifecycle D s' /\ same_core s s' /\ encoder_cache_manager s' = encoder_cache_manager s /\
  (is_Some (connector s) -> is_Some (connector s')).

Lemma released_kv {A} (m : M K A) D s :
  (forall k, kv_wf k -> wp m (fun _ k' => kv_wf k' /\ forall q, kv_holds k' q -> kv_holds k q) k) ->
  preserves (released D s) (on_kv m).
Proof.
  intros Hm s1 (L1 & S1 & E1 & C1). apply wp_zoom. eapply wp_mono; [apply Hm, L1|].
  intros x k' [Hw Hh]. split_and!; [by apply lifecycle_kv|by destruct S1|done|done].
Qed.

Lemma released_connector {A} (d : A) (m : M C A) D s :
  (forall c, cn_wf c -> wp m (fun _ => cn_wf) c) -> preserves (released D s) (on_connector d m).
Proof.
  intros Hm s1 Hr. pose proof Hr as (L1 & S1 & E1 & C1). apply wp_on_connector; [done|].
  intros c Hc. eapply wp_mono; [apply Hm; by apply (pw_conn _ _ (lc_parts _ _ _ L1))|].
  intros x c' Hw. split_and!; [by eapply lifecycle_connector|by destruct S1|done|by eexists].
Qed.

(** The last statements of [_connector_finished]. *)
Lemma connector_notified D s r ids tail :
  ids <> [] -> is_Some (connector s) ->
  preserves (released D s)
    (delay_free ← (if negb (cn_supports_hma (C := C)) then
        assert_ (num_groups cfg =? 1) ;; i ← of_option IndexError (head ids);
        on_connector false (cn_request_finished r i)
      else on_connector false (cn_request_finished_all_groups r ids));
     mret (delay_free || tail)).
Proof.
  intros Hids Hs. apply preserves_bind; [|intros d; apply preserves_ret].
  destruct (cn_supports_hma (C := C)) eqn:Eh; cbn [negb]; [apply released_connector, cnl_finished_all|].
  intros s1 Hs1. pose proof Hs1 as (L1 & _ & _ & C1). destruct (C1 Hs) as [c Hc].
  destruct (pw_conn _ _ (lc_parts _ _ _ L1) c Hc) as [_ [Hbad|Hg]]; [congruence|].
  apply wp_bind, wp_assert; [by apply Z.eqb_eq|]. destruct ids as [|i ids]; [done|].
  apply wp_bind. eapply wp_of_option; [done|]. by apply released_connector; [apply cnl_finished|].
Qed.

Lemma connector_finished_spec D s a o :
  lifecycle D s -> objs s !! a = Some o -> 0 <= num_prompt_tokens (sr_request o) ->
  wp (connector_finished cfg a) (fun _ s' => released D s s') s.
Proof.
  intros L Ho Hn. assert (released D s s) as HI by (split_and!; [done|apply same_core_refl|done|done]).
  unfold connector_finished. apply wp_bind, wp_get.
  destruct (connector s) as [c|] eqn:Ec; [|by apply wp_ret]. apply wp_bind. eapply wp_obj; [done|]. cbv zeta.
  assert (is_Some (connector s)) as Hs by by eexists.
  eapply wp_bind_keep; [|exact HI|intros tails s1 G1].
  { destruct (is_kv_producer cfg); [|apply preserves_ret]. apply released_kv. intros k Hk. by apply kvl_finalize. }
  eapply wp_bind_keep; [|exact G1|intros [] s2 G2]. { apply released_kv. intros k Hk. apply kvl_trim; [done|lia|done]. }
  apply wp_bind, wp_gets.
  eapply wp_bind_keep; [|exact G2|intros tail s3 G3].
  { destruct tails; [apply preserves_ret|]. apply released_connector. intros c1 Hc1. by apply cnl_tail. }
  apply connector_notified; [|done|done]. apply kvl_groups, G2.
Qed.

(** Only the entry of a finished request may leave the dictionary. *)
Record forgot (rid : string) (s s' : Sched) : Prop := {
  fg_objs : objs s' = objs s;
  fg_running : running s' = running s;
  fg_waiting : waiting s' = waiting s;
  fg_skipped : skipped_waiting s' = skipped_waiting s;
  fg_requests : requests s' = requests s \/ requests s' = od_pop rid (requests s)
}.

Lemma lifecycle_forget D s a o k :
  lifecycle D s -> tracked s a o -> so_finished o = true -> a ∉ D -> kv_wf k ->
  (forall q, kv_holds k q -> kv_holds (kv_cache_manager s) q /\ q <> so_id o) ->
  lifecycle D (set_requests (od_pop (so_id o) (requests s)) (set_kv k s)).
Proof.
  intros L Ht Hf HaD Hk Hh. pose proof L as [L1 L2 L3 L4 L5 L6 L7 L8 L9 L10 [P1 P2 P3 P4]].
  assert (forall b p, objs s !! b = Some p -> od_get (so_id p) (od_pop (so_id o) (requests s)) = Some b <->
    od_get (so_id p) (requests s) = Some b /\ b <> a) as Hget.
  { intros b p Hp. rewrite od_get_pop by done. case_decide as Eid.
    - split; [done|]. intros [Hb Hne]. rewrite Eid in Hb. destruct Ht as [_ Ha]. congruence.
    - split; [|tauto]. intros Hb. split; [done|]. intros ->. destruct Ht as [Ho _]. congruence. }
  split; cbn; try done.
  - by apply od_pop_NoDup.
  - intros rid b. rewrite od_get_pop by done. case_decide; [done|]. apply L2.
  - intros b. change (queued (set_requests _ _)) with (queued s). rewrite L4. unfold tracked. cbn.
    split; intros (Hb & p & [Hp Hg] & Hn); (split; [done|]); exists p; (split; [|done]); (split; [done|]).
    + apply Hget; [done|]. split; [done|]. intros ->. destruct Ht as [Ho _]. congruence.
    + by apply Hget in Hg as [Hg _].
  - intros rid Hr. destruct (Hh rid Hr) as [Hr1 Hr2]. apply elem_of_od_pop; [done|]. split; [by apply L9|done].
  - intros rid Hr. destruct (L10 rid Hr) as (b & p & [Hp Hg] & Hid & Hfb). exists b, p. split_and!; [|done|done].
    split; [done|]. apply Hget; [done|]. split; [done|]. intros ->. destruct Ht as [Ho _].
    rewrite Hp in Ho. injection Ho as ->. by destruct Hfb as [|]; congruence.
Qed.

Lemma sched_free_blocks_spec D s a o :
  lifecycle D s -> tracked s a o -> so_finished o = true -> a ∉ D ->
  wp (sched_free_blocks a) (fun _ s' => lifecycle D s' /\ forgot (so_id o) s s') s.
Proof.
  intros L Ht Hf HaD. pose proof Ht as [Ho Hg]. unfold sched_free_blocks.
  apply wp_bind. eapply wp_obj; [done|]. apply wp_bind, wp_assert; [done|].
  unfold sched_free_request_blocks. apply wp_bind, wp_bind. eapply wp_obj; [done|]. apply wp_zoom.
  eapply wp_mono; [apply kvl_free_request, L|]. intros [] k [Hk Hh].
  apply wp_bind, wp_get, wp_bind. eapply wp_of_option; [exact Hg|]. apply wp_modify.
  split; [by apply (lifecycle_forget D s a o k)|]. split; try done. by right.
Qed.

(** The statements of [_free_request] after the connectors. *)
Lemma free_request_end D s s1 a o delay kd d :
  lifecycle (a :: D) s1 -> a ∉ D -> tracked s a o -> so_finished o = true -> object_ok o ->
  objs s1 = objs s -> requests s1 = requests s -> running s1 = running s -> waiting s1 = waiting s ->
  skipped_waiting s1 = skipped_waiting s ->
  wp (on_enc (en_free (sr_request o)) ;;
      modify_sets (fun x => ss_finished_req_ids ({[so_id o]} ∪ finished_req_ids x) x) ;;
      modify_sets (fun x =>
        match finished_req_ids_dict x with
        | None => x
        | Some d => ss_finished_req_ids_dict
            (Some (<[client_index o := {[so_id o]} ∪ default ∅ (d !! client_index o)]> d)) x
        end) ;;
      if negb (delay || (kd || d)) then sched_free_blocks a else mret tt)
    (fun _ s' => lifecycle D s' /\ forgot (so_id o) s s') s1.
Proof.
  intros L1 HaD Ht Hf Hok T1 T2 T3 T4 T5. pose proof Ht as [Ho Hg].
  apply wp_bind, wp_zoom. eapply wp_mono; [apply enl_free; [apply L1|apply Hok]|]. intros [] e [He Hh].
  do 2 apply wp_bind, wp_modify.
  match goal with |- wp _ _ ?t => set (s2 := t) end.
  assert (lifecycle D s2) as L2.
  { do 2 apply lifecycle_sets. apply (lifecycle_settle cfg D _ a o); [cbn; by rewrite T1|done| |].
    - intros [_ []]%Hh. done.
    - apply lifecycle_enc; [done|done|]. intros q Hq. by apply Hh. }
  assert (tracked s2 a o) as Ht2 by (unfold tracked; cbn; by rewrite T1, T2).
  destruct (negb (delay || (kd || d))).
  - eapply wp_mono; [by apply (sched_free_blocks_spec D s2 a o)|]. intros [] s' (L' & [F1 F2 F3 F4 F5]). split; [done|].
    cbn in *. split; congruence || (destruct F5 as [F5|F5]; rewrite F5, T2; auto).
  - apply wp_ret. split; [done|]. split; cbn; auto.
Qed.

Lemma free_request_spec D s a o delay :
  lifecycle (a :: D) s -> a ∉ D -> tracked s a o -> so_finished o = true ->
  wp (free_request cfg a delay) (fun _ s' => lifecycle D s' /\ forgot (so_id o) s s') s.
Proof.
  intros L HaD Ht Hf. pose proof Ht as [Ho Hg]. unfold free_request.
  destruct (lc_objs _ _ _ L _ _ Hg) as (o1 & Ho1 & _ & Hok). rewrite Ho in Ho1. injection Ho1 as <-.
  apply wp_bind. eapply wp_obj; [done|]. apply wp_bind, wp_assert; [done|]. cbv zeta.
  do 3 apply wp_bind, wp_modify. cbn [set_sets sets].
  apply wp_bind. eapply wp_mono; [apply (connector_finished_spec (a :: D) _ a o); [by do 3 apply lifecycle_sets|done|apply Hok]|].
  intros kd s1 (L1 & S1 & _ & _). pose proof S1 as [T1 T2 T3 T4 T5 T6]. cbn in T1, T2, T3, T4, T5, T6.
  apply wp_bind, wp_on_ec.
  - intros _. apply (free_request_end D s s1 a o delay kd false); done.
  - intros x Hx. eapply wp_mono; [apply ecl_finished; by apply (pw_ec _ _ (lc_parts _ _ _ L1))|]. intros d x' Hx'.
    apply (free_request_end D s (set_ec (Some x') s1) a o delay kd d); try done. by apply lifecycle_ec.
Qed.

(** ** [finish_requests] *)

Lemma set_status_ok st o :
  object_ok o -> (st = WAITING_FOR_STREAMING_REQ -> resumable o = true /\ streaming_queue o = Some []) ->
  object_ok (so_set_status st o).
Proof.
  intros [[S1 S2] B2 B3] Hst. split; [split; [done|]|by apply (enl_knows (sr_request o))|done]. done.
Qed.

Lemma is_finished_not_streaming st : is_finished st = true -> st <> WAITING_FOR_STREAMING_REQ.
Proof. by destruct st. Qed.

Record finished_as (st : RequestStatus) (a : Z) (o : SReq) (s s' : Sched) : Prop := {
  fa_objs : objs s' = <[a := so_set_status st o]> (objs s);
  fa_running : running s' = running s;
  fa_waiting : waiting s' = waiting s;
  fa_skipped : skipped_waiting s' = skipped_waiting s;
  fa_requests : requests s' = requests s \/ requests s' = od_pop (so_id o) (requests s)
}.

Lemma finish_one_spec D s a o st :
  lifecycle (a :: D) s -> a ∉ D -> tracked s a o -> is_finished st = true ->
  wp (finish_one cfg st a) (fun _ s' => lifecycle D s' /\ finished_as st a o s s') s.
Proof.
  intros L HaD Ht Hst. pose proof Ht as [Ho Hg]. unfold finish_one.
  destruct (lc_objs _ _ _ L _ _ Hg) as (o1 & Ho1 & _ & Hok). rewrite Ho in Ho1. injection Ho1 as <-.
  assert (forall s1 delay, lifecycle (a :: D) s1 -> same_core s s1 ->
    wp (modify_obj a (so_set_status st) ;; free_request cfg a delay)
      (fun _ s' => lifecycle D s' /\ finished_as st a o s s') s1) as Hrest.
  { intros s1 delay L1 [T1 T2 T3 T4 T5 T6]. apply wp_bind. eapply wp_modify_obj; [by rewrite T1|].
    eapply wp_mono; [apply (free_request_spec D _ a (so_set_status st o))|].
    - apply (lifecycle_update cfg D s1 a o); [done|by rewrite T1|done|]. apply set_status_ok; [done|].
      intros Hs. by apply is_finished_not_streaming in Hst.
    - done.
    - split; cbn; [by rewrite lookup_insert_eq|]. by rewrite T2.
    - done.
    - intros [] s' (L' & [F1 F2 F3 F4 F5]). split; [done|]. cbn in *. split; [congruence..|].
      destruct F5 as [F5|F5]; rewrite F5, T2; auto. }
  apply wp_bind. eapply wp_obj; [done|]. apply wp_bind. case_bool_decide.
  - apply wp_bind, wp_get, wp_bind, wp_modify, wp_bind, wp_modify, wp_ret. apply Hrest; [by do 2 apply lifecycle_sets|done].
  - apply wp_ret. by apply Hrest.
Qed.

Lemma tracked_others D s s' st a o b p :
  lifecycle D s -> tracked s a o -> tracked s b p -> b <> a -> finished_as st a o s s' -> tracked s' b p.
Proof.
  intros L Ha Hb Hne [F1 _ _ _ F5]. pose proof Hb as [Hp Hg]. split; [by rewrite F1, lookup_insert_ne|].
  destruct F5 as [->| ->]; [done|]. rewrite od_get_pop by apply L. rewrite decide_False; [done|].
  intros Eid. apply Hne. by eapply tracked_inj.
Qed.

(** The second pass finishes all the requests taken out of their queues. *)
Lemma finish_all_spec st l : forall s,
  is_finished st = true -> lifecycle l s -> NoDup l -> (forall a, a ∈ l -> exists o, tracked s a o) ->
  wp (for_each l (finish_one cfg st)) (fun _ s' => lifecycle [] s' /\
    running s' = running s /\ waiting s' = waiting s /\ skipped_waiting s' = skipped_waiting s /\
    (forall a o, objs s !! a = Some o -> objs s' !! a = Some (if decide (a ∈ l) then so_set_status st o else o)) /\
    (forall rid a, od_get rid (requests s') = Some a -> od_get rid (requests s) = Some a)) s.
Proof.
  induction l as [|a l IH]; intros s Hst L Hnd Htr; cbn [for_each]; [by apply wp_ret; split_and!|].
  apply NoDup_cons in Hnd as [Ha Hnd]. destruct (Htr a) as [o Ht]; [by left|]. apply wp_bind.
  eapply wp_mono; [by apply (finish_one_spec l s a o st)|]. intros [] s1 [L1 F].
  eapply wp_mono; [apply (IH s1 Hst L1 Hnd)|].
  { intros b Hb. destruct (Htr b) as [p Hp]; [by right|]. exists p. apply (tracked_others (a :: l) s s1 st a o b p); try done. intros ->. done. }
  intros [] s' (L' & R' & W' & K' & O' & Q'). destruct F as [F1 F2 F3 F4 F5]. split_and!; [done|congruence..| |].
  - intros b p Hp. destruct (decide (b = a)) as [->|Hne].
    + assert (objs s1 !! a = Some (so_set_status st o)) as Hx by (by rewrite F1, lookup_insert_eq).
      rewrite (O' a _ Hx), decide_False, decide_True by (done || by left). destruct Ht as [Ho _]. congruence.
    + rewrite (O' b p) by (by rewrite F1, lookup_insert_ne).
      destruct (decide (b ∈ l)), (decide (b ∈ a :: l)) as [Hx|Hx]; try done; [|].
      * exfalso. apply Hx. by right.
      * exfalso. by apply elem_of_cons in Hx as [|].
  - intros rid b Hb. apply Q' in Hb. destruct F5 as [F5|F5]; rewrite F5 in Hb; [done|].
    rewrite od_get_pop in Hb by apply L. by case_decide.
Qed.

(** The first pass: what has been collected for the ids read so far. *)
Record collected (s : Sched) (ids : list string) (p : FinishPass) (s' : Sched) : Prop := {
  cl_state : s' = set_num_streaming (num_waiting_for_streaming_input s - num_streaming (objs s) (fp_valid p)) s;
  cl_nodup : NoDup (fp_valid p);
  cl_valid : forall a, a ∈ fp_valid p <->
    exists o, tracked s a o /\ so_id o ∈ ids /\ so_finished o = false;
  cl_running : forall a, a ∈ fp_running p <-> a ∈ fp_valid p /\ a ∈ running s;
  cl_waiting : forall a, a ∈ fp_waiting p <-> a ∈ fp_valid p /\ a ∉ running s
}.

Lemma running_iff s a o : lifecycle [] s -> tracked s a o -> so_finished o = false ->
  so_status o = RUNNING <-> a ∈ running s.
Proof.
  intros L Ht Hf. pose proof Ht as [Ho _]. assert (a ∈ queued s) as Hq by (apply (lc_queued _ _ _ L); split; [apply not_elem_of_nil|by exists o]).
  split; [|intros Hr; by apply (lc_running _ _ _ L a)]. intros Hst. unfold queued in Hq. rewrite !elem_of_app in Hq.
  destruct Hq as [Hq|[Hq|Hq]]; [done|exfalso..].
  - destruct (lc_waiting _ _ _ L a o Hq Ho); congruence.
  - destruct (lc_skipped _ _ _ L a o Hq Ho) as [[|]|Hb]; rewrite Hst in *; done.
Qed.

Lemma finish_collect_spec s ids rid p s' :
  lifecycle [] s -> collected s ids p s' -> rid ∉ ids ->
  wp (finish_collect p rid) (fun p' s'' => collected s (ids ++ [rid]) p' s'') s'.
Proof.
  intros L [-> C2 C3 C4 C5] Hrid. unfold finish_collect. apply wp_bind, wp_get. cbn [requests set_num_streaming].
  destruct (od_get rid (requests s)) as [a|] eqn:Eg.
  2:{ apply wp_ret. split; try done. intros a. rewrite C3. apply exist_proper. intros o. rewrite elem_of_app, list_elem_of_singleton.
      split; [tauto|]. intros (Ht & [Hi|Hi] & Hf); [done|]. destruct Ht as [_ Ht]. congruence. }
  destruct (tracked_lookup _ _ _ _ _ L Eg) as (o & Ht & Hid & Hok). pose proof Ht as [Ho _].
  apply wp_bind. eapply wp_obj; [exact Ho|].
  assert (forall b, (exists q, tracked s b q /\ so_id q ∈ ids ++ [rid] /\ so_finished q = false) <->
    b ∈ fp_valid p \/ b = a /\ so_finished o = false) as Hvalid.
  { intros b. rewrite C3. split.
    - intros (q & Hq & Hi & Hf). rewrite elem_of_app, list_elem_of_singleton in Hi. destruct Hi as [Hi|Hi]; [left; by exists q|].
      right. assert (b = a) as -> by (eapply tracked_inj; [exact L|exact Hq|exact Ht|congruence]).
      split; [done|]. destruct Hq as [Hq _]. congruence.
    - intros [(q & Hq & Hi & Hf)|[-> Hf]]; [exists q|exists o]; rewrite elem_of_app, list_elem_of_singleton; tauto. }
  destruct (so_finished o) eqn:Ef.
  { apply wp_ret. split; try done. intros b. rewrite Hvalid. intuition congruence. }
  assert (a ∉ fp_valid p) as Hnew.
  { rewrite C3. intros (q & [Hq _] & Hi & _). rewrite Ho in Hq. injection Hq as <-. by rewrite Hid in Hi. }
  assert (NoDup (fp_valid p ++ [a])) as Hnd.
  { apply NoDup_app. split_and!; [done|by intros b Hb ->%list_elem_of_singleton|apply NoDup_singleton]. }
  assert (num_streaming (objs s) (fp_valid p ++ [a]) = num_streaming (objs s) (fp_valid p) +
    Z.b2z (bool_decide (so_status o = WAITING_FOR_STREAMING_REQ))) as Hcnt.
  { rewrite num_streaming_app, num_streaming_cons. change (num_streaming (objs s) []) with 0. unfold streaming. rewrite Ho. lia. }
  pose proof (running_iff s a o L Ht Ef) as Hrun. destruct (bool_decide (so_status o = RUNNING)) eqn:Er.
  - apply bool_decide_eq_true in Er. apply wp_ret. rewrite Er in Hcnt. cbn in Hcnt.
    split; cbn; [by rewrite Hcnt, Z.add_0_r|done|..]; intros b; rewrite ?elem_of_cons, ?elem_of_app, ?list_elem_of_singleton.
    + rewrite Hvalid. tauto.
    + rewrite C4. split; [intros [->|]; tauto|]. intros [[Hb| ->] Hr]; [right; tauto|by left].
    + rewrite C5. split; [tauto|]. intros [[Hb| ->] Hr]; [done|tauto].
  - apply bool_decide_eq_false in Er. apply wp_bind.
    assert (forall s1, s1 = set_num_streaming (num_waiting_for_streaming_input s - num_streaming (objs s) (fp_valid p ++ [a])) s ->
      collected s (ids ++ [rid]) (mkFinishPass (fp_running p) (fp_waiting p ++ [a]) (fp_valid p ++ [a])) s1) as Hdone.
    { intros s1 ->. split; cbn; [done|done|..]; intros b; rewrite ?elem_of_cons, ?elem_of_app, ?list_elem_of_singleton.
      + rewrite Hvalid. tauto.
      + rewrite C4. split; [tauto|]. intros [[Hb| ->] Hr]; tauto.
      + rewrite C5. split; [intros [| ->]; tauto|]. intros [[Hb| ->] Hr]; tauto. }
    apply wp_when; intros Hs; (apply wp_modify || idtac); apply wp_ret, Hdone; rewrite Hcnt, Hs; cbn; [|by rewrite Z.add_0_r].
    unfold set_num_streaming. cbn. f_equal. lia.
Qed.

Lemma target_ids_NoDup t s : lifecycle [] s -> NoDup (target_ids t s).
Proof.
  intros L. destruct t as [rid|ids|]; cbn; [apply NoDup_singleton| |apply L].
  rewrite str_set_order_perm. apply NoDup_elements.
Qed.

(** What finishing the requests [l] leaves. *)
Record all_finished (st : RequestStatus) (l : list Z) (s s' : Sched) : Prop := {
  af_running : running s' = filter (fun a => a ∉ l) (running s);
  af_waiting : forall a, a ∈ members (waiting s') <-> a ∈ members (waiting s) /\ a ∉ l;
  af_skipped : forall a, a ∈ members (skipped_waiting s') <-> a ∈ members (skipped_waiting s) /\ a ∉ l;
  af_objs : forall a o, objs s !! a = Some o -> objs s' !! a = Some (if decide (a ∈ l) then so_set_status st o else o);
  af_requests : forall rid a, od_get rid (requests s') = Some a -> od_get rid (requests s) = Some a
}.

Lemma filter_nothing (l : list Z) : filter (fun r => r ∉ []) l = l.
Proof. induction l as [|a l IH]; [done|]. rewrite filter_cons_True by apply not_elem_of_nil. by rewrite IH. Qed.

(** Removing requests from both waiting queues. *)
Lemma remove_waiting_spec ws s :
  wp (remove_from_waiting ws)
    (fun _ s' => same_but_queues s s' /\ running s' = running s /\ sets s' = sets s /\
      num_waiting_for_streaming_input s' = num_waiting_for_streaming_input s /\
      members (waiting s') ≡ₚ filter (fun r => r ∉ ws) (members (waiting s)) /\
      members (skipped_waiting s') ≡ₚ filter (fun r => r ∉ ws) (members (skipped_waiting s))) s.
Proof.
  unfold remove_from_waiting. destruct ws as [|w ws].
  - apply wp_ret. split_and!; try done; rewrite filter_nothing; done.
  - apply wp_bind, wp_on_waiting. eapply wp_mono; [apply wq_remove_all_spec|]. intros [] q [Hq _].
    apply wp_on_skipped. eapply wp_mono; [apply wq_remove_all_spec|]. intros [] q' [Hq' _]. by split_and!.
Qed.

Lemma filter_split (l q : list Z) :
  NoDup l -> NoDup q -> (forall a, a ∈ l -> a ∈ q) -> q ≡ₚ l ++ filter (fun a => a ∉ l) q.
Proof.
  intros Hl Hq Hin. apply NoDup_Permutation; [done| |].
  - apply NoDup_app. split_and!; [done|by intros a Ha [Hx _]%list_elem_of_filter|by apply NoDup_filter].
  - intros a. rewrite elem_of_app, list_elem_of_filter. destruct (decide (a ∈ l)); naive_solver.
Qed.

Lemma filter_ext_in (P Q : Z -> Prop) `{forall x, Decision (P x)} `{forall x, Decision (Q x)} (l : list Z) :
  (forall a, a ∈ l -> P a <-> Q a) -> filter P l = filter Q l.
Proof.
  induction l as [|a l IH]; intros Hpq; [done|]. rewrite !filter_cons, IH by (intros; apply Hpq; by right).
  specialize (Hpq a ltac:(by left)). destruct (decide (P a)), (decide (Q a)); tauto.
Qed.

Lemma finish_requests_spec t st s :
  lifecycle [] s -> is_finished st = true ->
  wp (finish_requests cfg t st) (fun l s' => lifecycle [] s' /\ all_finished st l s s' /\ NoDup l /\
    forall a, a ∈ l <-> exists o, tracked s a o /\ so_id o ∈ target_ids t s /\ so_finished o = false) s.
Proof.
  intros L Hst. unfold finish_requests. apply wp_bind, wp_assert; [done|]. apply wp_bind, wp_get, wp_bind.
  pose proof (target_ids_NoDup t s L) as Hnd.
  eapply wp_mono; [apply (wp_fold_m (fun pre p s1 => collected s pre p s1))|].
  - split; cbn; [|constructor|..].
    + unfold num_streaming. cbn. rewrite Z.sub_0_r. by destruct s.
    + intros a. rewrite elem_of_nil. split; [done|]. by intros (o & _ & ?%elem_of_nil & _).
    + intros a. rewrite elem_of_nil. tauto.
    + intros a. rewrite elem_of_nil. tauto.
  - intros pre rid post p s1 Epre Hc. apply finish_collect_spec; [done|done|].
    rewrite Epre in Hnd. apply NoDup_app in Hnd as (_ & Hd & _). intros Hr. apply (Hd rid Hr). by left.
  - intros p s1 [-> C2 C3 C4 C5]. apply wp_bind, wp_modify. set (l := fp_valid p) in *.
    assert (forall a, a ∈ l -> a ∈ queued s) as Hlq.
    { intros a (o & Ht & _ & Hf)%C3. apply (lc_queued _ _ _ L). split; [apply not_elem_of_nil|by exists o]. }
    pose proof (lc_nodup _ _ _ L) as Hq. unfold queued in Hq. apply NoDup_app in Hq as (Hqr & Hqd & Hq).
    apply NoDup_app in Hq as (Hqw & Hqd2 & Hqs).
    apply wp_bind. eapply wp_mono; [apply remove_waiting_spec|]. intros [] s2 (S2 & R2 & _ & N2 & W2 & K2).
    cbn in R2, N2, W2, K2. rewrite remove_all_correct in R2 by done.
    rewrite (filter_ext_in _ (fun a => a ∉ l)) in R2 by (intros a Ha; rewrite C4; tauto).
    rewrite (filter_ext_in _ (fun a => a ∉ l)) in W2.
    2:{ intros a Ha. rewrite C5. split; [|tauto]. intros Hx Hl. apply Hx. split; [done|].
        intros Hr. apply (Hqd a Hr). apply elem_of_app. by left. }
    rewrite (filter_ext_in _ (fun a => a ∉ l)) in K2.
    2:{ intros a Ha. rewrite C5. split; [|tauto]. intros Hx Hl. apply Hx. split; [done|].
        intros Hr. apply (Hqd a Hr). apply elem_of_app. by right. }
    assert (same_but_queues s s2) as S by (destruct S2; by split).
    assert (lifecycle (l ++ []) s2) as L2.
    { apply (lifecycle_take cfg [] s s2 l); [done| |done|by rewrite N2].
      split.
      - intros b. rewrite R2. by intros [_ ?]%list_elem_of_filter.
      - intros b. rewrite W2. by intros [_ ?]%list_elem_of_filter.
      - intros b. rewrite K2. by intros [_ ?]%list_elem_of_filter.
      - unfold queued at 2. rewrite R2, W2, K2, <- !filter_app. apply filter_split; [done|apply L|done]. }
    rewrite app_nil_r in L2. pose proof S as [S1 S2' _ _ _ _].
    apply wp_bind. eapply wp_mono; [apply (finish_all_spec st l s2 Hst L2 C2)|].
    { intros a (o & Ht & _)%C3. exists o. by apply (tracked_same s s2). }
    intros [] s3 (L3 & R3 & W3 & K3 & O3 & Q3). apply wp_ret. split_and!; [done| |done|exact C3].
    split.
    + by rewrite R3.
    + intros a. rewrite W3, W2, list_elem_of_filter. tauto.
    + intros a. rewrite K3, K2, list_elem_of_filter. tauto.
    + intros a o Ho. apply O3. by rewrite S1.
    + intros rid a Hr. apply Q3 in Hr. by rewrite S2' in Hr.
Qed.

(** ** Sessions *)

Record session_updated (o o' : SReq) : Prop := {
  su_id : so_id o' = so_id o;
  su_status : so_status o' = so_status o;
  su_resumable : resumable o' = resumable o;
  su_queue : streaming_queue o' = streaming_queue o;
  su_prompt : is_Some (prompt_token_ids o');
  su_features : mm_features (sr_request o') = mm_features (sr_request o);
  su_in_flight : num_in_flight_tokens (sr_request o') = num_in_flight_tokens (sr_request o);
  su_client : client_index o' = client_index o;
  su_count : 0 <= num_prompt_tokens (sr_request o')
}.

Lemma update_session_spec u o :
  update_ok (Some u) -> is_Some (prompt_token_ids o) ->
  wp (update_session block_hasher u) (fun _ o' => session_updated o o') o.
Proof.
  intros Hu [pt Hpt]. specialize (Hu u eq_refl). unfold update_session.
  apply wp_bind, wp_get. cbv zeta. apply wp_bind, wp_zoom, wp_modify. apply wp_bind. eapply wp_of_option; [exact Hpt|].
  apply wp_bind, wp_modify, wp_bind, wp_zoom, wp_modify. rewrite Hu. apply wp_bind, wp_zoom, wp_modify, wp_bind, wp_modify.
  match goal with |- wp _ _ ?t => set (o1 := t) end.
  assert (session_updated o (so_set_request (set_session_fields 0 0 None (sr_request o1)) o1)) as Ho1 by (split; try done; by eexists).
  apply wp_bind, wp_zoom. unfold update_block_hashes. destruct block_hasher as [h|] eqn:Eh.
  - apply wp_bind. eapply wp_mono; [by apply (hasher_total h)|]. intros new r' Hr. apply wp_modify, wp_zoom, wp_modify.
    unfold same_but_memo in Hr. rewrite Hr. destruct Ho1. split; try done. apply zlen_nonneg.
  - apply wp_ret, wp_zoom, wp_modify. destruct Ho1. split; try done. apply zlen_nonneg.
Qed.

(** Sessions keep their good standing when the status is set afterwards. *)
Lemma session_updated_ok o o' st :
  object_ok o -> resumable o = true -> session_updated o o' -> st <> WAITING_FOR_STREAMING_REQ ->
  object_ok (so_set_status st o').
Proof.
  intros [[S1 S2] B2 B3] Hr [U1 U2 U3 U4 U5 U6 U7 U8 U9] Hst. split; [split; [|done]|by apply (enl_knows (sr_request o))|done].
  intros _. destruct (S1 Hr) as [_ Hq]. split; [done|]. cbn. by rewrite U4.
Qed.

(** What is in flight for a request, and whose it is. *)
Definition same_flight (o o' : SReq) : Prop :=
  num_in_flight_tokens (sr_request o') = num_in_flight_tokens (sr_request o) /\ client_index o' = client_index o.

(** [_update_request_as_session]: the object and the count change. *)
Lemma update_as_session_spec s a o u :
  objs s !! a = Some o -> object_ok o -> resumable o = true -> update_ok (Some u) ->
  wp (update_request_as_session block_hasher a u) (fun _ s' => exists o' x, object_ok o' /\
    so_id o' = so_id o /\ so_status o' = WAITING /\ same_flight o o' /\
    s' = set_num_streaming (num_waiting_for_streaming_input s - Z.b2z (streaming (objs s) a))
           (set_objs (<[a := o']> (objs s)) (set_sets x s))) s.
Proof.
  intros Ho Hok Hr Hu. unfold update_request_as_session, streaming. rewrite Ho.
  apply wp_bind. eapply wp_obj; [done|]. apply wp_bind, wp_modify, wp_bind. eapply wp_on_obj; [exact Ho|].
  eapply wp_mono; [apply update_session_spec; [done|by apply Hok]|]. intros [] o' Hup.
  apply wp_bind. eapply wp_obj; [cbn; apply lookup_insert_eq|]. rewrite (su_status _ _ Hup). apply wp_bind.
  assert (object_ok (so_set_status WAITING o')) as Hok' by by apply (session_updated_ok o).
  apply wp_when; intros Hs; (apply wp_modify || idtac); (eapply wp_modify_obj; [cbn; apply lookup_insert_eq|]);
    exists (so_set_status WAITING o'); eexists; (split_and!; [done|apply Hup|done|split; apply Hup|]); rewrite Hs; cbn;
    unfold set_objs, set_num_streaming; cbn; rewrite insert_insert_eq, ?Z.sub_0_r; reflexivity.
Qed.

(** A request put back with a new object: out of its queue, changed, and into
    the queue of its new status. *)
Lemma lifecycle_move D s s0 s1 s' l a o o' :
  lifecycle D s -> a ∉ D -> tracked s a o -> l = (if so_finished o then [] else [a]) ->
  removed l s s0 -> same_but_queues s s0 ->
  num_waiting_for_streaming_input s0 = num_waiting_for_streaming_input s - num_streaming (objs s) l ->
  s1 = set_objs (<[a := o']> (objs s0)) s0 -> so_id o' = so_id o -> object_ok o' -> so_finished o' = false ->
  put_into a (so_status o') s1 s' -> same_but_queues s1 s' ->
  num_waiting_for_streaming_input s' = num_waiting_for_streaming_input s1 + Z.b2z (streaming (objs s1) a) ->
  lifecycle D s'.
Proof.
  intros L HaD Ht -> Hrm Hs0 Hn0 -> Hid Hok Hf Hput Hs' Hn'. pose proof Ht as [Ho Hg]. pose proof Hs0 as [S1 S2 _ _ _ _].
  assert (lifecycle (a :: D) s0) as L0.
  { pose proof (lifecycle_take cfg D s s0 _ L Hrm Hs0 Hn0) as L0. destruct (so_finished o) eqn:Ef; [|done].
    apply (lifecycle_unsettle cfg D s0 a o); [by rewrite S1|done|done]. }
  apply (lifecycle_put cfg D (set_objs (<[a := o']> (objs s0)) s0) s' a o'); try done.
  - apply (lifecycle_update cfg D s0 a o); [done|by rewrite S1|done|done].
  - split; cbn; [apply lookup_insert_eq|]. by rewrite Hid, S2.
Qed.

(** A change that keeps the id and the status. *)
Lemma lifecycle_touch D s a o o' :
  lifecycle D s -> objs s !! a = Some o -> so_id o' = so_id o -> so_status o' = so_status o ->
  (object_ok o -> object_ok o') -> lifecycle D (set_objs (<[a := o']> (objs s)) s).
Proof.
  intros [L1 L2 L3 L4 L5 L6 L7 L8 L9 L10 L11] Ho Hid Hst Hok.
  assert (forall b p', <[a := o']> (objs s) !! b = Some p' -> exists p, objs s !! b = Some p /\ so_id p' = so_id p /\
    so_status p' = so_status p /\ (object_ok p -> object_ok p')) as Hback.
  { intros b p'. destruct (decide (b = a)) as [->|Hne]; [rewrite lookup_insert_eq|rewrite lookup_insert_ne by done].
    - intros [= <-]. by exists o.
    - intros Hp. by exists p'. }
  assert (forall b p, objs s !! b = Some p -> exists p', <[a := o']> (objs s) !! b = Some p' /\ so_id p' = so_id p /\
    so_status p' = so_status p /\ (object_ok p -> object_ok p')) as Hforth.
  { intros b p Hp. destruct (decide (b = a)) as [->|Hne]; [rewrite lookup_insert_eq|rewrite lookup_insert_ne by done].
    - exists o'. rewrite Ho in Hp. by injection Hp as <-.
    - by exists p. }
  assert (forall p p', so_status p' = so_status p -> so_finished p' = so_finished p) as Hfin
    by (intros p p' Ep; unfold so_finished; by rewrite Ep).
  split; cbn; try done.
  - intros rid b Hg. destruct (L2 rid b Hg) as (p & Hp & Hr & Hk). destruct (Hforth b p Hp) as (p' & Hp' & Hi & Hs & Hk').
    exists p'. split_and!; [done|congruence|by apply Hk'].
  - intros b. change (queued (set_objs _ s)) with (queued s). rewrite L4. unfold tracked. cbn.
    split; intros (Hb & p & [Hp Hg] & Hn); (split; [done|]).
    + destruct (Hforth b p Hp) as (p' & Hp' & Hi & Hs & _). exists p'. rewrite Hi, (Hfin p p' Hs). done.
    + destruct (Hback b p Hp) as (p' & Hp' & Hi & Hs & _). exists p'. rewrite <- Hi, <- (Hfin p' p Hs). done.
  - intros b p' Hb Hp'. destruct (Hback b p' Hp') as (p & Hp & _ & -> & _). by apply (L5 b).
  - intros b p' Hb Hp'. destruct (Hback b p' Hp') as (p & Hp & _ & -> & _). by apply (L6 b).
  - intros b p' Hb Hp'. destruct (Hback b p' Hp') as (p & Hp & _ & -> & _). by apply (L7 b).
  - change (queued (set_objs _ s)) with (queued s). rewrite L8. unfold num_streaming. f_equal. apply list_filter_iff. intros b.
    unfold streaming. destruct (objs s !! b) as [p|] eqn:Ep.
    + destruct (Hforth b p Ep) as (p' & -> & _ & -> & _). done.
    + destruct (decide (b = a)) as [->|Hne]; [congruence|]. by rewrite lookup_insert_ne, Ep.
  - intros rid Hr. destruct (L10 rid Hr) as (b & p & [Hp Hg] & Hi & Hf). unfold tracked. cbn.
    destruct (Hforth b p Hp) as (p' & Hp' & Hi' & Hs & _). exists b, p'. rewrite Hi', (Hfin p p' Hs). done.
  - by destruct L11.
Qed.

(** A request leaves a waiting queue. *)
Lemma queue_without a q : a ∈ members q -> exists q0, members q ≡ₚ a :: members q0 /\ same_class q q0.
Proof.
  intros [l Hl]%elem_of_Permutation. destruct q; [exists (WFcfs (mkFCFS l))|exists (WPriority (mkPriority l))]; done.
Qed.

(** A request of the skipped queue changes status there. *)
Lemma lifecycle_restatus D s a o o' n :
  lifecycle D s -> tracked s a o -> a ∈ members (skipped_waiting s) -> so_id o' = so_id o -> object_ok o' ->
  can_skip (so_status o') -> so_finished o' = false ->
  n = num_waiting_for_streaming_input s - Z.b2z (streaming (objs s) a) + Z.b2z (bool_decide (so_status o' = WAITING_FOR_STREAMING_REQ)) ->
  lifecycle D (set_num_streaming n (set_objs (<[a := o']> (objs s)) s)).
Proof.
  intros L Ht Ha Hid Hok Hst Hf ->. destruct (queue_without a _ Ha) as (q0 & Hq0 & _). pose proof Ht as [Ho Hg].
  assert (a ∈ queued s) as Haq by (unfold queued; rewrite !elem_of_app; tauto).
  assert (a ∉ D /\ so_finished o = false) as [HaD Hfo].
  { apply (lc_queued _ _ _ L) in Haq as (HaD & p & [Hp _] & Hn). split; [done|]. congruence. }
  set (s0 := set_num_streaming (num_waiting_for_streaming_input s - Z.b2z (streaming (objs s) a)) (set_skipped q0 s)).
  apply (lifecycle_move D s s0 (set_objs (<[a := o']> (objs s)) s0) _ [a] a o o'); try done.
  - by rewrite Hfo.
  - split; cbn; try done.
    + intros b Hb. rewrite Hq0. by right.
    + unfold queued. cbn. rewrite Hq0. rewrite !(Permutation_app_comm (running s)), <- !app_assoc. cbn.
      rewrite <- !Permutation_middle. done.
  - cbn. rewrite num_streaming_cons. change (num_streaming (objs s) []) with 0. lia.
  - apply put_skipped; cbn; [done|done|done|]. done.
  - unfold streaming at 2. cbn. by rewrite lookup_insert_eq.
Qed.

(** ** Arrival *)

(** The request is one more in the queue of its status; the others keep theirs. *)
Definition enqueued (a : Z) (blocked : bool) (s s' : Sched) : Prop :=
  running s' = running s /\ if blocked
    then waiting s' = waiting s /\ members (skipped_waiting s') ≡ₚ a :: members (skipped_waiting s)
    else skipped_waiting s' = skipped_waiting s /\ members (waiting s') ≡ₚ a :: members (waiting s).

Lemma enqueue_spec s a o :
  objs s !! a = Some o -> can_skip (so_status o) ->
  wp (enqueue_waiting_request a) (fun _ s' => put_into a (so_status o) s s' /\ same_but_queues s s' /\
    num_waiting_for_streaming_input s' = num_waiting_for_streaming_input s /\ sets s' = sets s /\
    enqueued a (is_blocked_waiting_status (so_status o)) s s') s.
Proof.
  intros Ho Hst. unfold enqueue_waiting_request. apply wp_bind. eapply wp_obj; [done|].
  destruct (is_blocked_waiting_status (so_status o)) eqn:Eb.
  - apply wp_on_skipped. eapply wp_mono; [apply wq_add_spec|]. intros [] q [Hq _]. split_and!; [|done|done|done|done].
    apply put_skipped; done.
  - apply wp_on_waiting. eapply wp_mono; [apply wq_add_spec|]. intros [] q [Hq _]. split_and!; [|done|done|done|done].
    apply put_waiting; [|done|done|done]. destruct Hst as [|]; [done|congruence].
Qed.

(** A new object enters the dictionary. *)
Lemma lifecycle_register s a o0 o :
  lifecycle [] s -> objs s !! a = Some o0 -> so_id o = so_id o0 -> od_get (so_id o) (requests s) = None -> object_ok o ->
  lifecycle [a] (set_requests (od_set (so_id o) a (requests s)) (set_objs (<[a := o]> (objs s)) s)).
Proof.
  intros [L1 L2 L3 L4 L5 L6 L7 L8 L9 L10 L11] Ho Hid Hnew Hok.
  assert (forall rid b, od_get rid (requests s) = Some b -> b <> a /\ rid <> so_id o) as Hold.
  { intros rid b Hg. destruct (L2 rid b Hg) as (p & Hp & Hr & _). split; intros ->; congruence. }
  assert (forall b, b ∈ queued s -> b <> a) as Hqa.
  { intros b (_ & p & [_ Hg] & _)%L4. by apply Hold in Hg as [? _]. }
  assert (forall b p, b <> a -> tracked (set_requests (od_set (so_id o) a (requests s)) (set_objs (<[a := o]> (objs s)) s)) b p <->
    tracked s b p) as Htr.
  { intros b p Hb. unfold tracked. cbn. rewrite lookup_insert_ne by done. rewrite od_get_set. case_decide as Ei; [|done].
    split; [intros [_ [= ->]]; done|]. intros [_ Hg]. by apply Hold in Hg as [_ []]. }
  split; cbn; try done.
  - by apply od_set_NoDup.
  - intros rid b. rewrite od_get_set. case_decide as Er.
    + intros [= <-]. exists o. by rewrite lookup_insert_eq.
    + intros Hg. destruct (Hold rid b Hg) as [Hb _]. rewrite lookup_insert_ne by done. by apply L2.
  - intros b. change (queued (set_requests _ _)) with (queued s). rewrite not_elem_of_cons.
    destruct (decide (b = a)) as [->|Hb].
    + split; [intros Hq; by apply Hqa in Hq|]. by intros [[] _].
    + setoid_rewrite (Htr b _ Hb). rewrite L4. pose proof (not_elem_of_nil b). tauto.
  - intros b p Hb. rewrite lookup_insert_ne; [by apply L5|]. intros ->. apply (Hqa b); [|done]. unfold queued. rewrite !elem_of_app. tauto.
  - intros b p Hb. rewrite lookup_insert_ne; [by apply L6|]. intros ->. apply (Hqa b); [|done]. unfold queued. rewrite !elem_of_app. tauto.
  - intros b p Hb. rewrite lookup_insert_ne; [by apply L7|]. intros ->. apply (Hqa b); [|done]. unfold queued. rewrite !elem_of_app. tauto.
  - change (queued (set_requests _ _)) with (queued s). rewrite L8. symmetry. apply num_streaming_ext. intros b Hb.
    apply lookup_insert_ne. intros ->. by apply (Hqa b).
  - intros rid Hr. rewrite od_set_absent, fmap_app, elem_of_app by (by apply od_get_None). left. by apply L9.
  - intros rid Hr. destruct (L10 rid Hr) as (b & p & Hb & Hi & Hf). exists b, p.
    rewrite (Htr b p); [split_and!; [done|done|by destruct Hf as [|?%elem_of_nil]; [left|]]|]. destruct Hb as [_ Hg]. by apply Hold in Hg as [? _].
  - by destruct L11.
Qed.

(** What a caller of [add_request] owes: a new object in good standing, or the
    next chunk of a session. *)
Record arrival_ok (s : Sched) (a : Z) (o : SReq) : Prop := {
  ar_new : od_get (so_id o) (requests s) = None ->
    can_skip (so_status o) /\ so_status o <> WAITING_FOR_STREAMING_REQ /\ en_knows (sr_request o) /\
    0 <= num_prompt_tokens (sr_request o) /\ (resumable o = true -> is_Some (prompt_token_ids o));
  ar_session : forall e p, tracked s e p -> so_id p = so_id o -> resumable p = true /\ update_ok (update_from_request o)
}.

Lemma add_new_spec s a o :
  lifecycle [] s -> objs s !! a = Some o -> arrival_ok s a o -> od_get (so_id o) (requests s) = None ->
  wp (sched_add_request cfg block_hasher a) (fun _ s' => lifecycle [] s' /\ od_get (so_id o) (requests s') = Some a /\
    enqueued a (is_blocked_waiting_status (so_status o)) s s') s.
Proof.
  intros L Ho [Hnew _] Hg. destruct (Hnew Hg) as (A1 & A2 & A3 & A4 & A5). unfold sched_add_request.
  apply wp_bind. eapply wp_obj; [done|]. apply wp_bind, wp_get. rewrite Hg. apply wp_bind.
  set (o1 := if resumable o then so_set_streaming (Some []) o else o).
  assert (so_id o1 = so_id o /\ so_status o1 = so_status o) as [Hid Hst] by (unfold o1; by destruct (resumable o)).
  assert (object_ok o1) as Hok.
  { unfold o1. destruct (resumable o) eqn:Er; split; try done; (split; [|done]).
    - intros _. split; [by apply A5|]. by exists [].
    - by rewrite Er. }
  assert (wp (when (resumable o) (modify_obj a (so_set_streaming (Some []))))
    (fun _ s1 => s1 = set_objs (<[a := o1]> (objs s)) s) s) as Hw.
  { unfold o1. apply wp_when; intros ->; [by eapply wp_modify_obj|]. rewrite insert_id by done. by destruct s. }
  eapply wp_mono; [exact Hw|]. intros [] s1 ->. apply wp_bind.
  eapply wp_mono; [apply (enqueue_spec _ a o1); [cbn; apply lookup_insert_eq|by rewrite Hst]|].
  intros [] s2 (Hput & Hsq & Hn & _ & Hen). rewrite Hst in Hen. apply wp_bind, wp_modify.
  assert (lifecycle [] (set_requests (od_set (so_id o) a (requests s2)) s2)) as L2.
  { pose proof (lifecycle_register s a o o1 L Ho Hid) as Lr. rewrite Hid in Lr. specialize (Lr Hg Hok). destruct Hsq as [Q1 Q2 Q3 Q4 Q5 Q6].
    cbn in Q1, Q2. apply (lifecycle_put cfg [] _ _ a o1 Lr); [apply not_elem_of_nil|..].
    - split; cbn; [apply lookup_insert_eq|]. rewrite Hid, od_get_set. by rewrite decide_True.
    - unfold so_finished. rewrite Hst. by destruct A1 as [[->| ->]|Hb]; [..|destruct (so_status o)].
    - destruct Hput as [P1 P2 P3 P4|P1 P2 P3 P4|P1 P2 P3 P4]; cbn in *; [apply put_running|apply put_waiting|apply put_skipped]; done.
    - split; cbn; [done|by rewrite Q2|done..].
    - cbn. rewrite Hn. unfold streaming. rewrite lookup_insert_eq, bool_decide_eq_false_2; [cbn; lia|]. by rewrite Hst. }
  apply wp_on_connector.
  - intros _. split_and!; [done| |done]. cbn. rewrite od_get_set. by rewrite decide_True.
  - intros c Hc. eapply wp_mono; [apply cnl_new; by apply (pw_conn _ _ (lc_parts _ _ _ L2))|]. intros [] c' Hc'.
    split_and!; [by eapply lifecycle_connector| |done]. cbn. rewrite od_get_set. by rewrite decide_True.
Qed.

(** A paused session is in the skipped queue. *)
Lemma blocked_skipped s a o :
  lifecycle [] s -> tracked s a o -> is_blocked_waiting_status (so_status o) = true -> a ∈ members (skipped_waiting s).
Proof.
  intros L Ht Hb. assert (a ∈ queued s) as Hq.
  { apply (lc_queued _ _ _ L). split; [apply not_elem_of_nil|]. exists o. split; [done|]. unfold so_finished. by destruct (so_status o). }
  pose proof Ht as [Ho _]. unfold queued in Hq. rewrite !elem_of_app in Hq. destruct Hq as [Hq|[Hq|Hq]]; [exfalso..|done].
  - pose proof (lc_running _ _ _ L a o Hq Ho) as Hs. by rewrite Hs in Hb.
  - by destruct (lc_waiting _ _ _ L a o Hq Ho) as [Hs|Hs]; rewrite Hs in Hb.
Qed.

Lemma queue_update_ok o q u :
  object_ok o -> so_status o <> WAITING_FOR_STREAMING_REQ -> streaming_queue o = Some q -> update_ok u ->
  object_ok (so_set_streaming (Some (q ++ [u])) o).
Proof.
  intros [[S1 S2] B2 B3] Hst Hq Hu. split; [split; [|done]|done|done]. intros Hr. destruct (S1 Hr) as [Hp (q1 & Hq1 & Hf)].
  split; [done|]. exists (q ++ [u]). split; [done|]. apply Forall_app. split; [congruence|]. by apply Forall_singleton.
Qed.

(** [add_request] raises nothing and keeps the invariant; afterwards the id is
    tracked, unless the arrival ended a paused session. *)
Lemma add_request_spec s a o :
  lifecycle [] s -> objs s !! a = Some o -> arrival_ok s a o ->
  wp (sched_add_request cfg block_hasher a) (fun _ s' => lifecycle [] s') s.
Proof.
  intros L Ho Ha. destruct (od_get (so_id o) (requests s)) as [e|] eqn:Hg.
  2:{ eapply wp_mono; [by apply (add_new_spec s a o)|]. by intros [] s' [L' _]. }
  destruct (tracked_lookup _ _ _ _ _ L Hg) as (p & Ht & Hid & Hok). pose proof Ht as [Hp _].
  destruct (ar_session _ _ _ Ha e p Ht Hid) as [Hr Hu].
  unfold sched_add_request. apply wp_bind. eapply wp_obj; [done|]. apply wp_bind, wp_get. rewrite Hg. cbv zeta.
  apply wp_bind. eapply wp_obj; [done|]. case_bool_decide as Est; cbn [negb].
  - destruct (update_from_request o) as [u|].
    + eapply wp_mono; [by apply (update_as_session_spec s e p u)|]. intros [] s' (p' & x & Hok' & Hid' & Hst' & _ & ->).
      rewrite <- (Z.add_0_r (_ - _)). apply (lifecycle_restatus [] (set_sets x s) e p p').
      * by apply lifecycle_sets.
      * done.
      * apply (blocked_skipped _ e p L Ht). by rewrite Est.
      * done.
      * done.
      * rewrite Hst'. by left; left.
      * unfold so_finished. by rewrite Hst'.
      * rewrite Hst'. done.
    + apply wp_bind. eapply wp_mono; [by apply finish_requests_spec|]. intros l s' [L' _]. by apply wp_ret.
  - destruct (proj1 (ob_session _ Hok) Hr) as [_ (q & Hq & _)]. apply wp_bind. eapply wp_of_option; [exact Hq|].
    eapply wp_modify_obj; [done|]. apply (lifecycle_touch [] s e p); try done. intros _. by apply queue_update_ok.
Qed.

(** ** Stopping *)

Lemma pop_update_ok o u rest :
  object_ok o -> resumable o = true -> so_status o <> WAITING_FOR_STREAMING_REQ -> default [] (streaming_queue o) = u :: rest ->
  object_ok (so_set_streaming (Some rest) o) /\ update_ok u.
Proof.
  intros [[S1 S2] B2 B3] Hr Hst Hq. destruct (S1 Hr) as [Hp (q & Hq1 & Hf)]. rewrite Hq1 in Hq. cbn in Hq. subst q.
  apply Forall_cons in Hf as [Hu Hf]. split; [|done]. split; [split; [|done]|done|done]. intros _. split; [done|]. by exists rest.
Qed.

Lemma pause_ok o :
  object_ok o -> resumable o = true -> default [] (streaming_queue o) = [] -> object_ok (so_set_status WAITING_FOR_STREAMING_REQ o).
Proof.
  intros Hok Hr Hq. apply set_status_ok; [done|]. intros _. split; [done|].
  destruct (proj1 (ob_session _ Hok) Hr) as [_ (q & Hq1 & _)]. rewrite Hq1 in *. cbn in Hq. by subst q.
Qed.

(** [_handle_stopped_request] on a stopped request: either it is finished, or
    the session goes into the queue of its new status. *)
Definition session_back (a : Z) (o : SReq) (s s' : Sched) : Prop :=
  resumable o = true /\ exists o' x s1, object_ok o' /\ so_id o' = so_id o /\ same_flight o o' /\ can_skip (so_status o') /\
    so_finished o' = false /\
    s1 = set_num_streaming (num_waiting_for_streaming_input s + Z.b2z (bool_decide (so_status o' = WAITING_FOR_STREAMING_REQ)))
           (set_objs (<[a := o']> (objs s)) (set_sets x s)) /\
    put_into a (so_status o') s1 s' /\ same_but_queues s1 s' /\
    num_waiting_for_streaming_input s' = num_waiting_for_streaming_input s1 /\ sets s' = sets s1 /\
    enqueued a (is_blocked_waiting_status (so_status o')) s1 s'.

(** A session that ended keeps its status. *)
Definition session_over (a : Z) (o : SReq) (s s' : Sched) : Prop :=
  exists o', object_ok o' /\ so_id o' = so_id o /\ so_status o' = so_status o /\ same_flight o o' /\
    all_token_ids (sr_request o') = all_token_ids (sr_request o) /\ stop_reason (sr_request o') = stop_reason (sr_request o) /\
    s' = set_objs (<[a := o']> (objs s)) s.

Lemma handle_stopped_spec s a o :
  objs s !! a = Some o -> object_ok o -> so_finished o = true ->
  wp (handle_stopped_request block_hasher a) (fun fin s' => if fin then session_over a o s s' else session_back a o s s') s.
Proof.
  intros Ho Hok Hf.
  assert (so_status o <> WAITING_FOR_STREAMING_REQ) as Hst by (intros Hs; unfold so_finished in Hf; by rewrite Hs in Hf).
  unfold handle_stopped_request. apply wp_bind. eapply wp_obj; [done|].
  destruct (resumable o) eqn:Hr; cbn [negb].
  2:{ apply wp_ret. exists o. split_and!; try done. rewrite insert_id by done. by destruct s. }
  destruct (default [] (streaming_queue o)) as [|[u|] rest] eqn:Hq.
  - apply wp_bind. eapply wp_modify_obj; [done|]. apply wp_bind, wp_modify, wp_bind.
    eapply wp_mono; [apply (enqueue_spec _ a (so_set_status WAITING_FOR_STREAMING_REQ o)); [cbn; apply lookup_insert_eq|by right]|].
    intros [] s' (P1 & P2 & P3 & P4 & P5). apply wp_ret. split; [done|].
    exists (so_set_status WAITING_FOR_STREAMING_REQ o), (sets s). eexists.
    split_and!; [by apply pause_ok|done|done|by right|done| |exact P1|exact P2|exact P3|exact P4|exact P5]. by destruct s.
  - destruct (pop_update_ok o (Some u) rest Hok Hr Hst Hq) as [Hok1 Hu].
    apply wp_bind. eapply wp_modify_obj; [done|]. apply wp_bind.
    eapply wp_mono; [apply (update_as_session_spec _ a (so_set_streaming (Some rest) o) u); [cbn; apply lookup_insert_eq|done..]|].
    intros [] s' (o' & x & Hok' & Hid' & Hst' & Hfl & ->). unfold streaming. cbn. rewrite lookup_insert_eq, insert_insert_eq.
    rewrite bool_decide_eq_false_2 by done. rewrite Z.sub_0_r. apply wp_bind.
    eapply wp_mono; [apply (enqueue_spec _ a o'); [cbn; apply lookup_insert_eq|rewrite Hst'; by left; left]|].
    intros [] s' (P1 & P2 & P3 & P4 & P5). apply wp_ret. split; [done|]. exists o', x. eexists.
    split_and!; [done|done|exact Hfl|rewrite Hst'; by left; left|by unfold so_finished; rewrite Hst'| |exact P1|exact P2|exact P3|exact P4|exact P5].
    rewrite Hst'. cbn. rewrite Z.add_0_r. by destruct s.
  - destruct (pop_update_ok o None rest Hok Hr Hst Hq) as [Hok1 _].
    apply wp_bind. eapply wp_modify_obj; [done|]. apply wp_ret. by eexists.
Qed.

End Ops.
