(* ===== verification/SchedulerPreempt.v ===== *)
(** * Preemption, resets and transfers

    What [_preempt_request], [reset_prefix_cache], the promotion of blocked
    requests and the notifications of the KV connector do to the state of
    Scheduler.v, and that they keep the invariant of SchedulerInv.v. *)
From Stdlib Require Import ZArith Lia.
From stdpp Require Import base tactics gmap strings numbers option list.
From S2P Require Import Prelude Blocks Request Hashing Env SchedUtils RequestQueue OrderedDict SchedRequest SchedIface Scheduler SchedulerInv SchedulerOps.

Local Open Scope Z_scope.

Section Preempt.
Context `{Env} {K E C X : Type} `{KVLaws K} `{EncoderLaws E} `{KVConnectorLaws C} `{ECConnectorLaws X}.
Context (cfg : SchedConfig).
Local Abbreviation Sched := (Scheduler K E C X).
Local Abbreviation lifecycle := (lifecycle cfg).
Implicit Types (s : Sched) (D : list Z).

(** ** Preemption *)

(** [a] went from no queue to the front of the waiting queue, reset and without
    blocks. *)
Record preempted_to (drop : bool) (a : Z) (o : SReq) (s s' : Sched) : Prop := {
  pt_objs : objs s' = <[a := preempted drop o]> (objs s);
  pt_requests : requests s' = requests s;
  pt_running : running s' = running s;
  pt_skipped : skipped_waiting s' = skipped_waiting s;
  pt_waiting : added a (waiting s) (waiting s');
  pt_front : forall l, waiting s = WFcfs (mkFCFS l) -> waiting s' = WFcfs (mkFCFS (a :: l));
  pt_kv : forall rid, kv_holds (kv_cache_manager s') rid -> kv_holds (kv_cache_manager s) rid /\ rid <> so_id o;
  pt_enc : forall rid, en_holds (encoder_cache_manager s') rid -> en_holds (encoder_cache_manager s) rid /\ rid <> so_id o;
  pt_kv_call : kv_free_request_blocks (sr_request o) (last_sched_seq o) (kv_cache_manager s) = Ok tt (kv_cache_manager s');
  pt_enc_call : en_free (sr_request o) (encoder_cache_manager s) = Ok tt (encoder_cache_manager s');
  pt_ec : ec_connector s' = ec_connector s;
  pt_conn : connector s' = connector s;
  pt_rest : pause_state s' = pause_state s /\ current_step s' = current_step s /\ prefill_capacity_bound s' = prefill_capacity_bound s
}.

Lemma preempted_ok drop o : object_ok o -> object_ok (preempted drop o).
Proof. intros [[S1 S2] B2 B3]. split; [split; [done|done]|by apply (enl_knows (sr_request o))|done]. Qed.

Lemma preempt_request_spec D s a o drop :
  lifecycle (a :: D) s -> a ∉ D -> tracked s a o -> so_status o = RUNNING ->
  wp (preempt_request a drop) (fun _ s' => lifecycle D s' /\ preempted_to drop a o s s') s.
Proof.
  intros L HaD Ht Hst. pose proof Ht as [Ho Hg]. unfold preempt_request.
  destruct (lc_objs _ _ _ L _ _ Hg) as (o1 & Ho1 & _ & Hok). rewrite Ho in Ho1. injection Ho1 as <-.
  apply wp_bind. eapply wp_obj; [done|]. apply wp_bind, wp_assert; [by apply bool_decide_eq_true|].
  unfold sched_free_request_blocks. apply wp_bind, wp_bind. eapply wp_obj; [done|]. apply wp_zoom.
  destruct (wp_ok _ _ _ (kvl_free_request (sr_request o) (last_sched_seq o) _ (pw_kv _ _ (lc_parts _ _ _ L)))) as ([] & k & Ek & Hk & Hkh).
  destruct (wp_ok _ _ _ (enl_free (sr_request o) _ (pw_enc _ _ (lc_parts _ _ _ L)) (ob_known _ Hok))) as ([] & e & Ee & He & Heh).
  apply (wp_intro _ _ _ _ _ Ek). apply wp_bind, wp_zoom, (wp_intro _ _ _ _ _ Ee).
  do 3 apply wp_bind, wp_modify. apply wp_bind. eapply wp_modify_obj; [exact Ho|]. apply wp_bind, wp_on_waiting.
  eapply wp_mono; [apply wq_prepend_front|]. intros [] q [Hq Hfront]. apply wp_modify.
  split; [|by split]. apply lifecycle_sets.
  match goal with |- SchedulerInv.lifecycle _ _ (set_waiting _ ?t) => set (s1 := t) end.
  assert (lifecycle (a :: D) s1) as L1.
  { unfold s1. apply (lifecycle_update cfg D _ a o); [|done|done|by apply preempted_ok]. do 3 apply lifecycle_sets.
    apply lifecycle_enc; [|done|intros r Hr; by apply Heh]. apply lifecycle_kv; [done|done|intros r Hr; by apply Hkh]. }
  apply (lifecycle_put cfg D s1 _ a (preempted drop o)); try done.
  - split; cbn; [apply lookup_insert_eq|done].
  - apply put_waiting; [by right|done|apply Hq|done].
  - rewrite (streaming_other _ a (preempted drop o)) by (done || cbn; apply lookup_insert_eq). cbn. lia.
Qed.

(** Taking a running request out of the list. *)
Lemma take_running D s l1 a l2 :
  lifecycle D s -> running s = l1 ++ a :: l2 ->
  lifecycle (a :: D) (set_running (l1 ++ l2) s) /\ a ∉ D /\ a ∉ l1 ++ l2 /\ exists o, tracked s a o /\ so_status o = RUNNING.
Proof.
  intros L Hr. assert (running s ≡ₚ a :: l1 ++ l2) as Hp by (rewrite Hr; symmetry; apply Permutation_middle).
  assert (a ∈ running s) as Ha by (rewrite Hp; by left).
  assert (a ∈ queued s) as Haq by (unfold queued; apply elem_of_app; by left).
  apply (lc_queued _ _ _ L) in Haq as (HaD & o & Ht & Hf). pose proof Ht as [Ho _].
  pose proof (lc_running _ _ _ L a o Ha Ho) as Hst. split_and!; [|done| |by exists o].
  - apply (lifecycle_take cfg D s _ [a]); [done| |done|].
    + split; cbn; try done.
      * intros b Hb. rewrite Hp. by right.
      * unfold queued. cbn. by rewrite Hp.
    + rewrite num_streaming_one, (streaming_other _ a o) by (done || by rewrite Hst). cbn. lia.
  - pose proof (lc_nodup _ _ _ L) as Hn. unfold queued in Hn. apply NoDup_app in Hn as [Hn _]. rewrite Hp in Hn.
    by apply NoDup_cons in Hn as [? _].
Qed.

(** All running requests are back in the waiting queue, reset. *)
Record all_preempted (l : list Z) (s s' : Sched) : Prop := {
  ap_running : running s' = [];
  ap_requests : requests s' = requests s;
  ap_skipped : skipped_waiting s' = skipped_waiting s;
  ap_waiting : members (waiting s') ≡ₚ l ++ members (waiting s);
  ap_order : forall q, waiting s = WFcfs (mkFCFS q) -> waiting s' = WFcfs (mkFCFS (l ++ q));
  ap_objs : forall a o, objs s !! a = Some o -> objs s' !! a = Some (if decide (a ∈ l) then preempted true o else o);
  ap_kv : forall rid, kv_holds (kv_cache_manager s') rid -> kv_holds (kv_cache_manager s) rid /\
    forall a o, a ∈ l -> objs s !! a = Some o -> rid <> so_id o
}.

Lemma preempt_all_spec l : forall s,
  lifecycle [] s -> running s = l ->
  wp (preempt_all (length l)) (fun _ s' => lifecycle [] s' /\ all_preempted l s s') s.
Proof.
  induction l as [|a l IH] using rev_ind; intros s L Hr.
  { cbn. apply wp_bind, wp_get. rewrite Hr. apply wp_ret. split; [done|]. split; try done.
    - intros rid Hh. split; [done|]. by intros a o Ha%elem_of_nil. }
  rewrite length_app. cbn [length]. rewrite Nat.add_comm. cbn. apply wp_bind, wp_get. rewrite Hr, last_snoc.
  apply wp_bind, wp_modify. rewrite Hr, removelast_last. apply wp_bind.
  destruct (take_running [] s l a [] L Hr) as (L1 & HaD & Hal & o & Ht & Hst). rewrite app_nil_r in L1, Hal.
  eapply wp_mono; [by apply (preempt_request_spec [] _ a o true)|]. intros [] s1 [L1' [T1 T2 T3 T4 T5 T6 T7 T8 _ _ _ _ _]].
  cbn in T1, T2, T3, T4, T5, T6, T7. eapply wp_mono; [by apply (IH s1 L1')|]. intros [] s' [L' [A1 A2 A3 A4 A5 A6 A7]].
  split; [done|]. pose proof Ht as [Ho _]. split; try congruence.
  - rewrite A4. destruct T5 as [-> _]. rewrite <- app_assoc. done.
  - intros q Hq. rewrite (A5 (a :: q)); [by rewrite <- app_assoc|]. by apply T6.
  - intros b p Hp. destruct (decide (b = a)) as [->|Hne].
    + rewrite (A6 a (preempted true o)) by (by rewrite T1, lookup_insert_eq). rewrite decide_False by done.
      rewrite decide_True by (apply elem_of_app; right; by left). congruence.
    + rewrite (A6 b p) by (by rewrite T1, lookup_insert_ne). f_equal. apply decide_ext.
      rewrite elem_of_app, list_elem_of_singleton. tauto.
  - intros rid Hh. destruct (A7 rid Hh) as [Hh1 Hl]. destruct (T7 rid Hh1) as [Hh2 Hne]. split; [done|].
    intros b p Hb Hp. apply elem_of_app in Hb as [Hb| ->%list_elem_of_singleton].
    + apply (Hl b p Hb). rewrite T1, lookup_insert_ne; [done|]. by intros ->.
    + congruence.
Qed.

(** ** [reset_prefix_cache] *)

Lemma all_preempted_parts l s s' k x c :
  (forall rid, kv_holds k rid -> kv_holds (kv_cache_manager s') rid) ->
  all_preempted l s s' -> all_preempted l s (set_connector c (set_kv k (set_sets x s'))).
Proof. intros Hk [A1 A2 A3 A4 A5 A6 A7]. split; try done. intros rid Hh. by apply A7, Hk. Qed.

(** What a reset leaves: with [reset_running_requests] the running requests are
    back in the waiting queue, in their order; without it nothing moves. *)
Definition after_reset (reset_running : bool) (s s' : Sched) : Prop :=
  lifecycle [] s' /\ if reset_running then all_preempted (running s) s s' else same_core s s'.

Lemma after_reset_parts rr s s' k c :
  after_reset rr s s' -> kv_wf k -> (forall rid, kv_holds k rid -> kv_holds (kv_cache_manager s') rid) ->
  (c = connector s' \/ exists c0 c1, connector s' = Some c0 /\ c = Some c1 /\ cn_wf c1) ->
  after_reset rr s (set_connector c (set_kv k s')).
Proof.
  intros [L R] Hk Hh Hc. assert (lifecycle [] (set_kv k s')) as Lk by by apply lifecycle_kv. split.
  - destruct Hc as [->|(c0 & c1 & E0 & -> & Hw)]; [by destruct Lk as [? ? ? ? ? ? ? ? ? ? [? ? ? ?]]|]. by eapply lifecycle_connector.
  - destruct rr.
    + replace (set_kv k s') with (set_kv k (set_sets (sets s') s')) by done. by apply all_preempted_parts.
    + by destruct R.
Qed.

Lemma sched_reset_spec rr rc s :
  lifecycle [] s ->
  wpe (sched_reset_prefix_cache rr rc) (fun _ s' => after_reset rr s s')
    (fun e s' => e = RuntimeError /\ rr = true /\ after_reset rr s s') s.
Proof.
  intros L. unfold sched_reset_prefix_cache. apply wpe_bind.
  apply (wp_mono _ (fun _ s1 => after_reset rr s s1)).
  { apply wp_when; intros ->; [|by split]. apply wp_bind, wp_get, wp_bind.
    eapply wp_mono; [by apply preempt_all_spec|]. intros [] s1 [L1 A1]. apply wp_modify.
    split; [by apply lifecycle_sets|]. by destruct A1. }
  intros [] s1 R1. apply wpe_bind, wp_zoom.
  eapply wp_mono; [apply kvl_reset, (lc_parts _ _ _ (proj1 R1))|]. intros ok k [Hk Hh].
  assert (after_reset rr s (set_kv k s1)) as R2.
  { pose proof (after_reset_parts rr s s1 k (connector s1) R1 Hk Hh (or_introl eq_refl)) as R2. by destruct s1. }
  destruct (rr && negb ok) eqn:Eraise.
  { apply andb_true_iff in Eraise as [-> _]. by split. }
  apply wpe_wp. destruct rc; [|by apply wp_ret]. apply wp_bind, wp_on_connector; [by intros _; apply wp_ret|].
  intros c Hc. eapply wp_mono; [apply cnl_reset; by apply (pw_conn _ _ (lc_parts _ _ _ (proj1 R2)))|].
  intros d c' Hc'. apply wp_ret. replace (set_kv k s1) with (set_kv (kv_cache_manager (set_kv k s1)) (set_kv k s1)) by done.
  apply after_reset_parts; [done|apply R2|done|]. right. by exists c, c'.
Qed.

(** ** Promotion of blocked requests *)

Lemma memo_object_ok o r : same_but_memo (sr_request o) r -> object_ok o -> object_ok (so_set_request r o).
Proof.
  intros Hr [[S1 S2] B2 B3]. unfold same_but_memo in Hr. split.
  - split; [done|]. unfold so_status in *. cbn. rewrite Hr. done.
  - apply (enl_knows (sr_request o)); [by rewrite Hr|by rewrite Hr|done].
  - cbn. by rewrite Hr.
Qed.

(** [a] keeps its place, its id and its status; the rest of the object and the
    components may change. *)
Record in_place (a : Z) (o : SReq) (s s' : Sched) : Prop := {
  ip_inv : lifecycle [] s';
  ip_obj : exists o', objs s' !! a = Some o' /\ so_id o' = so_id o /\ so_status o' = so_status o /\ object_ok o';
  ip_requests : requests s' = requests s;
  ip_skipped : skipped_waiting s' = skipped_waiting s
}.

Lemma in_place_sets a o s f : preserves (in_place a o s) (modify_sets f).
Proof. intros s1 [I1 I2 I3 I4]. apply wp_modify. split; [by apply lifecycle_sets|done..]. Qed.

Lemma in_place_kv {A} (m : M K A) a o s :
  (forall k, kv_wf k -> wp m (fun _ k' => kv_wf k' /\ forall q, kv_holds k' q -> kv_holds k q) k) ->
  preserves (in_place a o s) (on_kv m).
Proof.
  intros Hm s1 [I1 I2 I3 I4]. apply wp_zoom. eapply wp_mono; [apply Hm, I1|].
  intros x k' [Hw Hh]. split; [by apply lifecycle_kv|done..].
Qed.

Lemma in_place_cache a o s n :
  lifecycle [] s -> tracked s a o -> object_ok o -> kv_cacheable (kv_cache_manager s) (sr_request o) n ->
  wp (on_kv_request a (kv_cache_blocks n)) (fun _ s' => in_place a o s s' /\ sets s' = sets s) s.
Proof.
  intros L Ht Hok Hc. pose proof Ht as [Ho _]. unfold on_kv_request. apply wp_bind. eapply wp_obj; [done|]. apply wp_zoom.
  eapply wp_mono; [apply kvl_cache; [apply L|done]|]. intros [] [k r] (Hk & Hr & Hh). cbn in Hk, Hr, Hh. cbn [fst snd].
  assert (so_id (so_set_request r o) = so_id o /\ so_status (so_set_request r o) = so_status o) as [Hid Hst].
  { unfold so_id, so_status, same_but_memo in *. cbn. by rewrite Hr. }
  split; [|done]. split; try done.
  - apply (lifecycle_touch cfg [] (set_kv k s) a o); [by apply lifecycle_kv|done|done|done|]. by apply memo_object_ok.
  - exists (so_set_request r o). cbn. rewrite lookup_insert_eq. split_and!; try done. by apply memo_object_ok.
Qed.

Lemma in_place_object a o s f :
  (forall p, object_ok p -> object_ok (so_set_request (f (sr_request p)) p) /\ so_id (so_set_request (f (sr_request p)) p) = so_id p /\
    so_status (so_set_request (f (sr_request p)) p) = so_status p) ->
  preserves (in_place a o s) (modify_request a f).
Proof.
  intros Hf s1 [I1 (p & Hp & Hid & Hst & Hok) I3 I4]. eapply wp_modify_obj; [done|]. destruct (Hf p Hok) as (F1 & F2 & F3).
  split; [by apply (lifecycle_touch cfg [] s1 a p)| |done|done].
  exists (so_set_request (f (sr_request p)) p). cbn. rewrite lookup_insert_eq. split_and!; congruence || done.
Qed.

Lemma finished_recving_spec a o s (s1 : Sched) rid :
  in_place a o s s1 -> rid ∈ finished_recving_kv_req_ids (sets s1) ->
  wp (s ← get;
      (if bool_decide (rid ∈ finished_recving_kv_req_ids (sets s)) then mret tt else raise KeyError) ;;
      modify_sets (fun x => ss_finished_recving_kv_req_ids (finished_recving_kv_req_ids x ∖ {[rid]}) x))
    (fun _ s' => in_place a o s s') s1.
Proof.
  intros Hp Hr. apply wp_bind, wp_get, wp_bind. rewrite bool_decide_eq_true_2 by done. apply wp_ret.
  by apply in_place_sets.
Qed.

(** A finished transfer raises nothing and leaves the request in its place. *)
Lemma update_waiting_spec s a o :
  lifecycle [] s -> tracked s a o -> is_Some (connector s) -> so_id o ∈ finished_recving_kv_req_ids (sets s) ->
  (so_id o ∉ failed_recving_kv_req_ids (sets s) \/ num_computed_tokens (sr_request o) <> 0 ->
   kv_cacheable (kv_cache_manager s) (sr_request o) (num_computed_tokens (sr_request o))) ->
  wp (update_waiting_for_remote_kv cfg a) (fun _ s' => in_place a o s s') s.
Proof.
  intros L Ht Hc Hfin Hca. pose proof Ht as [Ho Hg]. unfold update_waiting_for_remote_kv. apply wp_bind, wp_get.
  destruct (lc_objs _ _ _ L _ _ Hg) as (o1 & Ho1 & _ & Hok). rewrite Ho in Ho1. injection Ho1 as <-.
  apply wp_bind, wp_assert; [by apply bool_decide_eq_true|]. apply wp_bind. eapply wp_obj; [done|]. cbv zeta. apply wp_bind.
  apply (wp_mono _ (fun _ s1 => in_place a o s s1 /\ so_id o ∈ finished_recving_kv_req_ids (sets s1))).
  2:{ intros [] s1 [Hp Hr]. by apply finished_recving_spec. }
  case_bool_decide as Efail.
  - apply wp_bind. apply (wp_mono _ (fun _ s1 => in_place a o s s1 /\ sets s1 = sets s)).
    2:{ intros [] s1 [Hp Hs]. apply wp_modify. split; [by apply in_place_sets|]. cbn. by rewrite Hs. }
    destruct (num_computed_tokens (sr_request o) =? 0) eqn:En; cbn [negb].
    + apply wp_zoom. eapply wp_mono; [apply kvl_free, L|]. intros [] k [Hk Hh]. split; [|done].
      split; [|by exists o|done|done]. apply lifecycle_kv; [done|done|]. intros q Hq. by apply Hh.
    + apply wp_bind. eapply wp_mono; [apply in_place_cache; try done; apply Hca; right; by apply Z.eqb_neq|].
      intros [] s1 [Hp Hs]. apply wp_when; intros _; [|done]. apply wp_zoom.
      eapply wp_mono; [apply kvl_zero, Hp|]. intros [] k [Hk Hh]. split; [|done].
      destruct Hp as [I1 I2 I3 I4]. split; [by apply lifecycle_kv|done..].
  - apply wp_bind. eapply wp_mono; [apply in_place_cache; try done; apply Hca; by left|].
    intros [] s1 [Hp Hs]. apply wp_when; intros _; [|by rewrite Hs].
    apply (wp_mono _ (fun _ s2 => in_place a o s s2 /\ sets s2 = sets s)); [|by intros [] s2 [Hp2 ->]].
    apply wp_conj; [apply in_place_object; [|done]|].
    + intros p [[P1 P2] P3 P4]. split_and!; [|done|done]. split; [done|by apply (enl_knows (sr_request p))|done].
    + destruct Hp as [_ (p & Hp & _) _ _]. by eapply wp_modify_obj.
Qed.

(** A new status for a request that stayed in the skipped queue. *)
Lemma in_place_status a o s (s1 : Sched) p st :
  in_place a o s s1 -> a ∈ members (skipped_waiting s) -> od_get (so_id o) (requests s) = Some a ->
  objs s1 !! a = Some p -> so_id p = so_id o -> so_status p = so_status o -> object_ok p ->
  so_status o <> WAITING_FOR_STREAMING_REQ -> can_wait st ->
  let s2 := set_objs (<[a := so_set_status st p]> (objs s1)) s1 in
  lifecycle [] s2 /\ skipped_waiting s2 = skipped_waiting s /\ tracked s2 a (so_set_status st p).
Proof.
  intros [I1 _ I3 I4] Hsk Hg Hp Hid Hst1 Hokp Hns Hst. cbv zeta. split_and!; [|done|].
  - replace (set_objs _ s1) with (set_num_streaming (num_waiting_for_streaming_input s1) (set_objs (<[a := so_set_status st p]> (objs s1)) s1)) by by destruct s1.
    assert (st <> WAITING_FOR_STREAMING_REQ) as Hst2 by (by destruct Hst as [->| ->]).
    apply (lifecycle_restatus cfg [] s1 a p); [done| |by rewrite I4|done| |by left| |].
    + split; [done|]. by rewrite Hid, I3.
    + by apply set_status_ok.
    + by destruct Hst as [->| ->].
    + rewrite (streaming_other _ a p), bool_decide_eq_false_2 by (done || by rewrite Hst1). cbn. lia.
  - split; cbn; [apply lookup_insert_eq|]. rewrite I3. change (od_get (so_id p) (requests s) = Some a). by rewrite Hid.
Qed.

(** [_try_promote_blocked_waiting_request] on a blocked request of the skipped
    queue: it stays there, promoted or not. *)
Lemma try_promote_spec s a o :
  lifecycle [] s -> tracked s a o -> is_blocked_waiting_status (so_status o) = true ->
  (so_status o = WAITING_FOR_REMOTE_KVS -> is_Some (connector s)) ->
  (so_status o = WAITING_FOR_REMOTE_KVS -> so_id o ∈ finished_recving_kv_req_ids (sets s) ->
   so_id o ∉ failed_recving_kv_req_ids (sets s) \/ num_computed_tokens (sr_request o) <> 0 ->
   kv_cacheable (kv_cache_manager s) (sr_request o) (num_computed_tokens (sr_request o))) ->
  wp (try_promote_blocked_waiting_request cfg a) (fun ok s' => lifecycle [] s' /\ skipped_waiting s' = skipped_waiting s /\
    exists o', tracked s' a o' /\ so_id o' = so_id o /\
      (if ok then can_wait (so_status o') else so_status o' = so_status o)) s.
Proof.
  intros L Ht Hb Hc Hca. pose proof Ht as [Ho Hg]. pose proof (blocked_skipped cfg s a o L Ht Hb) as Hsk.
  destruct (lc_objs _ _ _ L _ _ Hg) as (o1 & Ho1 & _ & Hok). rewrite Ho in Ho1. injection Ho1 as <-.
  assert (in_place a o s s) as Hself by (split; try done; by exists o).
  unfold try_promote_blocked_waiting_request. apply wp_bind. eapply wp_obj; [done|]. apply wp_bind, wp_get.
  destruct (so_status o) eqn:Es; try discriminate Hb.
  - destruct (structured_output_request o) as [[| |]|].
    + apply wp_ret. split_and!; [done|done|]. by exists o.
    + apply wp_bind, wp_modify, wp_ret. split_and!; [by apply lifecycle_sets|done|]. by exists o.
    + apply wp_bind. eapply wp_modify_obj; [done|]. apply wp_ret.
      destruct (in_place_status a o s s o WAITING Hself Hsk Hg Ho) as (G1 & G2 & G3); [done|done|done|by rewrite Es|by left|].
      split_and!; [done|done|]. exists (so_set_status WAITING o). by split_and!; [| |left].
    + apply wp_ret. split_and!; [done|done|]. by exists o.
  - case_bool_decide as Ef; cbn [negb]; [|apply wp_ret; split_and!; [done|done|by exists o]].
    apply wp_bind. eapply wp_mono; [apply (update_waiting_spec s a o); auto|]. intros [] s1 Hp.
    pose proof Hp as [_ (p & Hpa & Hid & Hst & Hokp) _ _]. apply wp_bind. eapply wp_modify_obj; [done|]. apply wp_ret.
    set (st := if negb (num_preemptions (sr_request p) =? 0) then PREEMPTED else WAITING).
    assert (can_wait st) as Hcw by (unfold st; destruct (negb _); [by right|by left]).
    destruct (in_place_status a o s s1 p st Hp Hsk Hg Hpa Hid) as (G1 & G2 & G3); [congruence|done|by rewrite Es|done|].
    split_and!; [done|done|]. exists (so_set_status st p). done.
  - apply wp_bind, wp_assert; [|apply wp_ret; split_and!; [done|done|by exists o]].
    apply bool_decide_eq_true. destruct (proj2 (ob_session _ Hok) Es) as [_ ->]. done.
Qed.

(** ** Finished transfers *)

(** Only entries of finished requests may have left the dictionary. *)
Record shrunk (s s' : Sched) : Prop := {
  sh_inv : lifecycle [] s';
  sh_objs : objs s' = objs s;
  sh_requests : forall rid a, od_get rid (requests s') = Some a -> od_get rid (requests s) = Some a;
  sh_queues : running s' = running s /\ waiting s' = waiting s /\ skipped_waiting s' = skipped_waiting s
}.

Lemma shrunk_free_blocks s (s1 : Sched) rid a o :
  shrunk s s1 -> od_get rid (requests s1) = Some a -> objs s1 !! a = Some o -> so_finished o = true ->
  wp (sched_free_blocks a) (fun _ s' => shrunk s s') s1.
Proof.
  intros [L1 O1 R1 Q1] Hg Ho Hf. destruct (lc_objs _ _ _ L1 rid a Hg) as (p & Hp & <- & _). rewrite Ho in Hp. injection Hp as <-.
  eapply wp_mono; [apply (sched_free_blocks_spec cfg [] s1 a o); [done|by split|done|apply not_elem_of_nil]|].
  intros [] s' (L' & [F1 F2 F3 F4 F5]). split; [done|congruence| |by rewrite F2, F3, F4].
  intros r b Hb. apply R1. destruct F5 as [F5|F5]; rewrite F5 in Hb; [done|].
  rewrite od_get_pop in Hb by apply L1. by case_decide.
Qed.

Lemma recv_finished_spec s rid : preserves (shrunk s) (recv_finished rid).
Proof.
  intros s1 Hs. unfold recv_finished. apply wp_bind, wp_get. destruct (od_get rid (requests s1)) as [a|] eqn:Eg; [|done].
  destruct (lc_objs _ _ _ (sh_inv _ _ Hs) rid a Eg) as (o & Ho & _). apply wp_bind. eapply wp_obj; [done|].
  case_bool_decide.
  - apply wp_modify. destruct Hs. split; [by apply lifecycle_sets|done..].
  - destruct (so_finished o) eqn:Ef; [by eapply shrunk_free_blocks|done].
Qed.

(** The contract of a connector: what it reports as sent is finished. *)
Definition sent_finished (s : Sched) (ids : list string) : Prop :=
  forall rid a o, rid ∈ ids -> od_get rid (requests s) = Some a -> objs s !! a = Some o -> so_finished o = true.

Lemma send_finished_spec s rid : sent_finished s [rid] -> preserves (shrunk s) (send_finished rid).
Proof.
  intros Hsent s1 Hs. unfold send_finished. apply wp_bind, wp_get. destruct (od_get rid (requests s1)) as [a|] eqn:Eg; [|done].
  destruct (lc_objs _ _ _ (sh_inv _ _ Hs) rid a Eg) as (o & Ho & _). eapply shrunk_free_blocks; [done|done|done|].
  apply (Hsent rid a); [by left|by apply Hs|]. by rewrite <- (sh_objs _ _ Hs).
Qed.

Lemma xfer_finished_spec s out :
  lifecycle [] s -> sent_finished s (finished_sending out) ->
  wp (update_from_kv_xfer_finished out) (fun _ s' => shrunk s s') s.
Proof.
  intros L Hsent. unfold update_from_kv_xfer_finished.
  assert (shrunk s s) as Hs by by split.
  eapply (wp_bind_keep (shrunk s)); [|done|intros [] s1 Hs1].
  { intros s1 [L1 O1 R1 Q1]. apply wp_on_connector; [done|]. intros c Hc.
    eapply wp_mono; [apply cnl_output; by apply (pw_conn _ _ (lc_parts _ _ _ L1))|]. intros [] c' Hc'.
    split; [by eapply lifecycle_connector|done..]. }
  eapply (wp_bind_keep (shrunk s)); [|done|intros [] s2 Hs2].
  - intros s2 Hs2. apply (wp_for_each (fun _ => shrunk s)); [done|]. intros pre rid post s3 _ Hs3. by apply recv_finished_spec.
  - apply (wp_for_each (fun _ => shrunk s)); [done|]. intros pre rid post s3 Epre Hs3. apply send_finished_spec; [|done].
    intros r a o Hr%list_elem_of_singleton. subst r. apply Hsent. rewrite Epre. apply elem_of_app. right. by left.
Qed.

End Preempt.
