(* ===== verification/SchedulePass.v ===== *)
(** * The first pass of [schedule]: the running requests

    The local variables of [Scheduler.schedule]
    (vllm/v1/core/sched/scheduler.py) as a record [Pass], the services a step
    uses, and the loop over [self.running] with its preemptions.  The loop
    bodies are functions from the local variables to the local variables in the
    monad of the scheduler's state; [continue] and [break] are the [true] and
    [false] of their results.

    The adaptive draft budget, timestamps, events and profiling contexts are
    left out. *)
From Stdlib Require Import ZArith Lia.
From stdpp Require Import base tactics gmap strings numbers option list.
From S2P Require Import Prelude Blocks Request Hashing Env SchedUtils RequestQueue KVCacheManager OrderedDict SchedEncoder SchedChunk SchedRequest SchedIface Scheduler.

Local Open Scope Z_scope.

(** ** Services of a step *)

(** [kv_cache_manager], for scheduling. *)
Class KVScheduling (K : Type) := {
  kv_new_step_starts : M K unit;
  kv_recycle_sliding_windows : Request -> M K unit;
  (** [num_new_tokens], [num_new_computed_tokens], [new_computed_blocks],
      [num_lookahead_tokens], [num_external_computed_tokens],
      [delay_cache_blocks], [num_encoder_tokens], [full_sequence_must_fit],
      [reserved_blocks], [has_scheduled_reqs] *)
  kv_allocate_slots : Z -> Z -> option KVCacheBlocks -> Z -> Z -> bool -> Z -> bool -> Z -> bool ->
    M (K * Request) (option KVCacheBlocks);
  kv_get_computed_blocks : M (K * Request) (KVCacheBlocks * Z * Z);
  kv_get_computed_blocks_for_connector : M (K * Request) (KVCacheBlocks * Z * Z * bool);
  kv_truncate_computed_blocks : KVCacheBlocks -> Z -> M K KVCacheBlocks;
  kv_empty_kv_cache_blocks : K -> KVCacheBlocks;
  kv_get_blocks : string -> K -> KVCacheBlocks;
  kv_record_prefix_cache_stats : Request -> Z -> M K unit;
  kv_get_zeroing_block_ids_in_range : string -> Z -> Z -> M K (list (list Z));
  (** [coordinator.get_num_blocks_to_allocate], as [_request_remaining_blocks]
      calls it: the id, the number of tokens and the computed tokens *)
  kv_remaining_blocks : string -> Z -> Z -> M K Z;
  kv_take_new_block_ids : M K (list (list Z));
  (** the pending copies, their blocks retained until the step has run *)
  kv_hand_over_copies : M K (list (Z * Z));
  kv_advance_sched_seq : Z -> M K unit;
  kv_process_step : Z -> M K unit
}.

(** [ec_connector], for scheduling. *)
Class ECScheduling (X : Type) := {
  ec_ensure_cache_available : Request -> Z -> M X bool;
  ec_has_cache_item_ : X -> string -> bool;
  ec_update_state_after_alloc : Request -> Z -> M X unit
}.

(** ** Local variables *)

Record Pass := mkPass {
  req_index : Z;
  token_budget : Z;
  input_budget : Z;
  encoder_compute_budget : Z;
  scheduled_running_reqs : list Z;
  scheduled_new_reqs : list Z;
  scheduled_resumed_reqs : list Z;
  preempted_reqs : list Z;
  num_scheduled_tokens : list (string * Z);
  req_to_new_blocks : list (string * KVCacheBlocks);
  scheduled_spec_decode_tokens : list (string * list Z);
  scheduled_spec_decode_step_ids : list (string * Z);
  scheduled_encoder_inputs : list (string * list Z);
  prefill_scheduled : bool;
  has_sync_kv_loads : bool;
  scheduled_loras : gset Z
}.

Definition ps_index (i : Z) (p : Pass) : Pass :=
  mkPass i (token_budget p) (input_budget p) (encoder_compute_budget p) (scheduled_running_reqs p)
    (scheduled_new_reqs p) (scheduled_resumed_reqs p) (preempted_reqs p) (num_scheduled_tokens p)
    (req_to_new_blocks p) (scheduled_spec_decode_tokens p) (scheduled_spec_decode_step_ids p)
    (scheduled_encoder_inputs p) (prefill_scheduled p) (has_sync_kv_loads p) (scheduled_loras p).
Definition ps_budgets (t i : Z) (p : Pass) : Pass :=
  mkPass (req_index p) t i (encoder_compute_budget p) (scheduled_running_reqs p)
    (scheduled_new_reqs p) (scheduled_resumed_reqs p) (preempted_reqs p) (num_scheduled_tokens p)
    (req_to_new_blocks p) (scheduled_spec_decode_tokens p) (scheduled_spec_decode_step_ids p)
    (scheduled_encoder_inputs p) (prefill_scheduled p) (has_sync_kv_loads p) (scheduled_loras p).
Definition ps_encoder_budget (b : Z) (p : Pass) : Pass :=
  mkPass (req_index p) (token_budget p) (input_budget p) b (scheduled_running_reqs p)
    (scheduled_new_reqs p) (scheduled_resumed_reqs p) (preempted_reqs p) (num_scheduled_tokens p)
    (req_to_new_blocks p) (scheduled_spec_decode_tokens p) (scheduled_spec_decode_step_ids p)
    (scheduled_encoder_inputs p) (prefill_scheduled p) (has_sync_kv_loads p) (scheduled_loras p).
Definition ps_running (l : list Z) (p : Pass) : Pass :=
  mkPass (req_index p) (token_budget p) (input_budget p) (encoder_compute_budget p) l
    (scheduled_new_reqs p) (scheduled_resumed_reqs p) (preempted_reqs p) (num_scheduled_tokens p)
    (req_to_new_blocks p) (scheduled_spec_decode_tokens p) (scheduled_spec_decode_step_ids p)
    (scheduled_encoder_inputs p) (prefill_scheduled p) (has_sync_kv_loads p) (scheduled_loras p).
Definition ps_preempted (l : list Z) (p : Pass) : Pass :=
  mkPass (req_index p) (token_budget p) (input_budget p) (encoder_compute_budget p)
    (scheduled_running_reqs p) (scheduled_new_reqs p) (scheduled_resumed_reqs p) l
    (num_scheduled_tokens p) (req_to_new_blocks p) (scheduled_spec_decode_tokens p)
    (scheduled_spec_decode_step_ids p) (scheduled_encoder_inputs p) (prefill_scheduled p)
    (has_sync_kv_loads p) (scheduled_loras p).
Definition ps_tokens (t : list (string * Z)) (b : list (string * KVCacheBlocks)) (p : Pass) : Pass :=
  mkPass (req_index p) (token_budget p) (input_budget p) (encoder_compute_budget p)
    (scheduled_running_reqs p) (scheduled_new_reqs p) (scheduled_resumed_reqs p) (preempted_reqs p) t b
    (scheduled_spec_decode_tokens p) (scheduled_spec_decode_step_ids p) (scheduled_encoder_inputs p)
    (prefill_scheduled p) (has_sync_kv_loads p) (scheduled_loras p).
Definition ps_spec (t : list (string * list Z)) (i : list (string * Z)) (p : Pass) : Pass :=
  mkPass (req_index p) (token_budget p) (input_budget p) (encoder_compute_budget p)
    (scheduled_running_reqs p) (scheduled_new_reqs p) (scheduled_resumed_reqs p) (preempted_reqs p)
    (num_scheduled_tokens p) (req_to_new_blocks p) t i (scheduled_encoder_inputs p)
    (prefill_scheduled p) (has_sync_kv_loads p) (scheduled_loras p).
Definition ps_encoder_inputs (e : list (string * list Z)) (p : Pass) : Pass :=
  mkPass (req_index p) (token_budget p) (input_budget p) (encoder_compute_budget p)
    (scheduled_running_reqs p) (scheduled_new_reqs p) (scheduled_resumed_reqs p) (preempted_reqs p)
    (num_scheduled_tokens p) (req_to_new_blocks p) (scheduled_spec_decode_tokens p)
    (scheduled_spec_decode_step_ids p) e (prefill_scheduled p) (has_sync_kv_loads p) (scheduled_loras p).
Definition ps_prefill (b : bool) (p : Pass) : Pass :=
  mkPass (req_index p) (token_budget p) (input_budget p) (encoder_compute_budget p)
    (scheduled_running_reqs p) (scheduled_new_reqs p) (scheduled_resumed_reqs p) (preempted_reqs p)
    (num_scheduled_tokens p) (req_to_new_blocks p) (scheduled_spec_decode_tokens p)
    (scheduled_spec_decode_step_ids p) (scheduled_encoder_inputs p) b (has_sync_kv_loads p)
    (scheduled_loras p).
Definition ps_admit (n r : list Z) (p : Pass) : Pass :=
  mkPass (req_index p) (token_budget p) (input_budget p) (encoder_compute_budget p)
    (scheduled_running_reqs p) n r (preempted_reqs p) (num_scheduled_tokens p) (req_to_new_blocks p)
    (scheduled_spec_decode_tokens p) (scheduled_spec_decode_step_ids p) (scheduled_encoder_inputs p)
    (prefill_scheduled p) (has_sync_kv_loads p) (scheduled_loras p).
Definition ps_sync (b : bool) (p : Pass) : Pass :=
  mkPass (req_index p) (token_budget p) (input_budget p) (encoder_compute_budget p)
    (scheduled_running_reqs p) (scheduled_new_reqs p) (scheduled_resumed_reqs p) (preempted_reqs p)
    (num_scheduled_tokens p) (req_to_new_blocks p) (scheduled_spec_decode_tokens p)
    (scheduled_spec_decode_step_ids p) (scheduled_encoder_inputs p) (prefill_scheduled p) b
    (scheduled_loras p).
Definition ps_loras (l : gset Z) (p : Pass) : Pass :=
  mkPass (req_index p) (token_budget p) (input_budget p) (encoder_compute_budget p)
    (scheduled_running_reqs p) (scheduled_new_reqs p) (scheduled_resumed_reqs p) (preempted_reqs p)
    (num_scheduled_tokens p) (req_to_new_blocks p) (scheduled_spec_decode_tokens p)
    (scheduled_spec_decode_step_ids p) (scheduled_encoder_inputs p) (prefill_scheduled p)
    (has_sync_kv_loads p) l.

Section Running.
Context `{Env} {K E C X : Type} `{KVService K} `{KVScheduling K} `{EncoderService E} `{EncoderCacheOps E}.
Context `{KVConnector C} `{ECConnector X} `{ECScheduling X}.
Context (cfg : SchedConfig).
Local Abbreviation Sched := (Scheduler K E C X).

(** The local variables before the first loop. *)
Definition start_pass (token_budget input_budget : Z) : Pass :=
  mkPass 0 token_budget input_budget (max_num_encoder_input_tokens cfg) [] [] [] [] [] [] [] [] [] false false ∅.

(** [any(r.num_computed_tokens >= r.num_prompt_tokens for r in self.running)]:
    references of [running] do not dangle. *)
Definition any_running (f : SReq -> bool) (s : Sched) : bool :=
  existsb (fun a => match objs s !! a with Some o => f o | None => false end) (running s).

Definition initial_budgets (s : Sched) : Z * Z :=
  let token_budget := max_num_scheduled_tokens (chunk_config cfg) in
  let input_budget := max_num_batched_tokens cfg in
  let '(token_budget, input_budget) :=
    if exl3_prefill_auto (chunk_config cfg)
       && any_running (fun o => num_prompt_tokens (sr_request o) <=? num_computed_tokens (sr_request o)) s
    then (Z.min token_budget 2048, Z.min input_budget 2048) else (token_budget, input_budget) in
  (match pause_state s with PAUSED_ALL => 0 | _ => token_budget end, input_budget).

(** ** Steps of a loop body *)

Definition on_exl3 {A} (c : M (gset string) A) : M Sched A :=
  zoom (fun s => exl3_int8_prefill_requests (sets s))
       (fun v s => set_sets (ss_exl3_int8_prefill_requests v (sets s)) s) c.

(** [if self.exl3_prefill_auto: ...] *)
Definition clamp_budgets (r : Request) (num_computed : Z) (p : Pass) : M Sched Pass :=
  if exl3_prefill_auto (chunk_config cfg) then
    budget ← on_exl3 (exl3_prefill_budget r num_computed (Z.min (token_budget p) (input_budget p)));
    mret (ps_budgets (Z.min (token_budget p) budget) (Z.min (input_budget p) budget) p)
  else mret p.

(** [if self.need_mamba_block_aligned_split: ...] *)
Definition align_split (r : Request) (num_new local external : Z) : M Sched Z :=
  if need_mamba_block_aligned_split cfg
  then of_option AssertionError (mamba_block_aligned_split (chunk_config cfg) r num_new local external)
  else mret num_new.

(** [_ec_transfer_pending] *)
Definition ec_transfer_pending (r : Request) (num_computed : Z) : M Sched bool :=
  if zlen (mm_features r) =? 0 then mret false
  else on_ec false (ok ← ec_ensure_cache_available r num_computed; mret (negb ok)).

(** [if request.has_encoder_inputs: ... = self._try_schedule_encoder_inputs(...)] *)
Definition schedule_encoder (o : SReq) (num_computed num_new budget : Z) : M Sched (list Z * Z * Z * list Z) :=
  if has_encoder_inputs o then
    s ← get;
    on_enc (try_schedule_encoder_inputs
      (mkEncoderSched (sched_encoder_decoder cfg) (disable_chunked_mm_input cfg)
         (ec_has_cache_item_ <$> ec_connector s))
      (sr_request o) num_computed num_new budget (num_prefill_lookahead (chunk_config cfg)))
  else mret ([], num_new, budget, []).

(** [self.encoder_cache_manager.allocate(request, i)], with the EC connector. *)
Definition allocate_encoder_input (r : Request) (i : Z) : M Sched unit :=
  on_enc (eco_allocate r i) ;; on_ec tt (ec_update_state_after_alloc r i).

(** The end of a loop body: allocate the encoder inputs of the request. *)
Definition allocate_encoder_inputs (r : Request) (inputs external : list Z) (new_budget : Z) (p : Pass)
    : M Sched Pass :=
  p ← (match inputs with
       | [] => mret p
       | _ => for_each inputs (allocate_encoder_input r) ;;
              mret (ps_encoder_budget new_budget
                (ps_encoder_inputs (od_set (request_id r) inputs (scheduled_encoder_inputs p)) p))
       end);
  for_each external (allocate_encoder_input r) ;; mret p.

(** ** Preemption *)

(** [request.get_num_encoder_embeds(i)] *)
Definition encoder_embeds_of (r : Request) (i : Z) : M Sched Z :=
  assert_ (i <? zlen (mm_features r)) ;;
  f ← of_option IndexError (py_index (mm_features r) i);
  mret (get_num_embeds (mm_position f)).
Definition sum_encoder_embeds (r : Request) (inputs : list Z) : M Sched Z :=
  fold_m (fun acc i => n ← encoder_embeds_of r i; mret (acc + n)) 0 inputs.

(** [max(self.running, key=lambda r: (r.priority, r.arrival_time))]: the first
    of the largest. *)
Definition key_lt (r1 r2 : Request) : bool :=
  (priority r1 <? priority r2) || ((priority r1 =? priority r2) && (arrival_time r1 <? arrival_time r2)).
Definition max_by_key (deref : Z -> Request) (l : list Z) : option Z :=
  match l with
  | [] => None
  | a :: l => Some (foldl (fun m b => if key_lt (deref m) (deref b) then b else m) a l)
  end.

(** [l.index(a)] *)
Fixpoint list_index (l : list Z) (a : Z) : option Z :=
  match l with
  | [] => None
  | b :: l' => if a =? b then Some 0 else Z.succ <$> list_index l' a
  end.

(** [del l[i]] *)
Definition list_delete (l : list Z) (i : Z) : list Z := py_upto l i ++ py_from l (i + 1).
(** [l.remove(a)] for a member *)
Definition list_remove (l : list Z) (a : Z) : list Z :=
  match list_index l a with Some i => list_delete l i | None => l end.

(** What a victim was scheduled for in this step goes back to the budgets. *)
Definition unschedule (v : Z) (p : Pass) : M Sched Pass :=
  o ← obj v;
  let rid := so_id o in
  restored ← of_option KeyError (od_get rid (num_scheduled_tokens p));
  _ ← of_option KeyError (od_get rid (req_to_new_blocks p));
  let p := ps_spec (od_pop rid (scheduled_spec_decode_tokens p)) (od_pop rid (scheduled_spec_decode_step_ids p))
    (ps_tokens (od_pop rid (num_scheduled_tokens p)) (od_pop rid (req_to_new_blocks p))
      (ps_budgets (token_budget p + restored) (input_budget p + (restored + draft_slots cfg))
        (ps_running (list_remove (scheduled_running_reqs p) v) p))) in
  let inputs := default [] (od_get rid (scheduled_encoder_inputs p)) in
  n ← sum_encoder_embeds (sr_request o) inputs;
  mret (ps_encoder_budget (encoder_compute_budget p + n)
    (ps_encoder_inputs (od_pop rid (scheduled_encoder_inputs p)) p)).

(** Choose the request to preempt and take it out of [self.running]. *)
Definition take_victim (p : Pass) : M Sched (Z * Pass) :=
  s ← get;
  match sc_policy cfg with
  | PRIORITY =>
      v ← of_option ValueError (max_by_key (deref s) (running s));
      victim_index ← of_option ValueError (list_index (running s) v);
      modify (fun s => set_running (list_delete (running s) victim_index) s) ;;
      let p := if victim_index <? req_index p then ps_index (req_index p - 1) p else p in
      p ← (if bool_decide (v ∈ scheduled_running_reqs p) then unschedule v p else mret p);
      mret (v, p)
  | FCFS =>
      v ← of_option IndexError (last (running s));
      modify (fun s => set_running (removelast (running s)) s) ;; mret (v, p)
  end.

(** [while True: new_blocks = self.kv_cache_manager.allocate_slots(...) ...] *)
Fixpoint allocate_or_preempt (fuel : nat) (a num_new : Z) (p : Pass) : M Sched (option KVCacheBlocks * Pass) :=
  new_blocks ← on_kv_request a
    (kv_allocate_slots num_new 0 None (num_lookahead_tokens cfg) 0 false 0 false 0 true);
  match new_blocks with
  | Some b => mret (Some b, p)
  | None =>
      match fuel with
      | O => raise OutOfFuel
      | S fuel' =>
          '(v, p) ← take_victim p;
          preempt_request v (requires_kv_delivery cfg) ;;
          let p := ps_preempted (preempted_reqs p ++ [v]) p in
          if v =? a then mret (None, p) else allocate_or_preempt fuel' a num_new p
      end
  end.

(** ** The loop *)

(** The conditions that leave a running request out of this step. *)
Definition skips_step (defer_prefills : bool) (s : Sched) (o : SReq) : bool :=
  let r := sr_request o in
  ((0 <? num_output_placeholders o)
   && (num_prompt_tokens r + max_tokens r <=? num_computed_tokens r + 2 - num_output_placeholders o))
  || (current_step s <? next_decode_eligible_step o)
  || (defer_prefills && is_prefill_chunk o).

(** The number of tokens the request could run, before encoder inputs. *)
Definition running_chunk (o : SReq) (p : Pass) : M Sched (Z * Pass) :=
  let r := sr_request o in
  let num_new := num_tokens_with_spec o + num_output_placeholders o - num_computed_tokens r in
  let threshold := long_prefill_token_threshold (chunk_config cfg) in
  let num_new := if (0 <? threshold) && (threshold <? num_new) then threshold else num_new in
  p ← clamp_budgets r (num_computed_tokens r) p;
  let num_new := Z.min num_new (Z.min (token_budget p) (input_budget p - draft_slots cfg)) in
  let num_new := Z.min num_new
    (sc_max_model_len cfg - num_computed_tokens r - num_sampled_tokens_per_step cfg) in
  num_new ← align_split r num_new 0 0;
  mret (num_new, p).

(** The draft tokens of a scheduled request. *)
Definition schedule_drafts (a : Z) (num_new : Z) (p : Pass) : M Sched Pass :=
  o ← obj a;
  match spec_token_ids o with
  | [] => mret p
  | drafts =>
      let r := sr_request o in
      let num_scheduled_spec_tokens :=
        num_new + num_computed_tokens r - num_tokens r - num_output_placeholders o in
      let p :=
        if 0 <? num_scheduled_spec_tokens then
          let drafts := if num_scheduled_spec_tokens <? zlen drafts
                        then py_upto drafts num_scheduled_spec_tokens else drafts in
          ps_spec (od_set (so_id o) drafts (scheduled_spec_decode_tokens p))
            (match spec_token_ids_step_id o with
             | Some step => if existsb (fun t => t <? 0) drafts
                            then od_set (so_id o) step (scheduled_spec_decode_step_ids p)
                            else scheduled_spec_decode_step_ids p
             | None => scheduled_spec_decode_step_ids p
             end) p
        else p in
      modify_obj a (so_set_spec [] None) ;; mret p
  end.

(** The request has its blocks. *)
Definition record_running (a num_new : Z) (blocks : KVCacheBlocks) (p : Pass) : M Sched Pass :=
  o ← obj a;
  mret (ps_index (req_index p + 1)
    (ps_budgets (token_budget p - num_new) (input_budget p - (num_new + draft_slots cfg))
      (ps_tokens (od_set (so_id o) num_new (num_scheduled_tokens p)) (od_set (so_id o) blocks (req_to_new_blocks p))
        (ps_prefill (prefill_scheduled p || is_prefill_chunk o)
          (ps_running (scheduled_running_reqs p ++ [a]) p))))).

(** One round: whether the loop goes on. *)
Definition run_one (defer_prefills : bool) (a : Z) (p : Pass) : M Sched (bool * Pass) :=
  if input_budget p <=? draft_slots cfg then mret (false, p) else
  o ← obj a;
  s ← get;
  let next := ps_index (req_index p + 1) in
  if skips_step defer_prefills s o then mret (true, next p) else
  let r := sr_request o in
  pending ← ec_transfer_pending r (num_computed_tokens r - num_output_placeholders o);
  if (pending : bool) then mret (true, next p) else
  '(num_new, p) ← running_chunk o p;
  '(inputs, num_new, new_budget, external) ←
    schedule_encoder o (num_computed_tokens r) num_new (encoder_compute_budget p);
  let num_new := reserve_prefill_lookahead (chunk_config cfg) r (num_computed_tokens r) num_new in
  if num_new =? 0 then mret (true, next p) else
  s ← get;
  '(new_blocks, p) ← allocate_or_preempt (length (running s)) a num_new p;
  match new_blocks with
  | None => mret (false, p)
  | Some blocks =>
      p ← record_running a num_new blocks p;
      p ← schedule_drafts a num_new p;
      p ← allocate_encoder_inputs r inputs external new_budget p;
      mret (true, p)
  end.

(** [while req_index < len(self.running) and token_budget > 0] *)
Fixpoint running_loop (defer_prefills : bool) (fuel : nat) (p : Pass) : M Sched Pass :=
  s ← get;
  if (req_index p <? zlen (running s)) && (0 <? token_budget p) then
    match fuel with
    | O => raise OutOfFuel
    | S fuel' =>
        a ← of_option IndexError (py_index (running s) (req_index p));
        '(go, p) ← run_one defer_prefills a p;
        if (go : bool) then running_loop defer_prefills fuel' p else mret p
    end
  else mret p.

(** The LoRAs of the running requests, after the loop. *)
Definition record_loras (p : Pass) : M Sched Pass :=
  match max_loras cfg with
  | None => mret p
  | Some m =>
      ids ← fold_m (fun acc a => o ← obj a;
              mret (match lora_request (sr_request o) with
                    | Some l => if 0 <? lora_int_id l then {[lora_int_id l]} ∪ acc else acc
                    | None => acc
                    end)) (∅ : gset Z) (scheduled_running_reqs p);
      assert_ (Z.of_nat (size ids) <=? m) ;; mret (ps_loras ids p)
  end.

End Running.
