(* ===== verification/ScheduleInv.v ===== *)
(** * What holds during a step of the scheduler

    The laws of the services a step uses, and the invariant of the local
    variables of [schedule]: what is scheduled is accounted for in the budgets,
    once, and the requests it is scheduled for are running. *)
From Stdlib Require Import ZArith Lia.
From stdpp Require Import base tactics gmap strings numbers option list.
From S2P Require Import Prelude Blocks Request Hashing Env SchedUtils RequestQueue KVCacheManager OrderedDict SchedEncoder SchedChunk SchedRequest SchedIface Scheduler SchedulerInv SchedulerOps SchedulerPreempt SchedulePass.

Local Open Scope Z_scope.

(** ** Laws *)

(** The requests of [ok] see no difference. *)
Definition kept_for {K} (ready idle loaded : K -> Request -> Prop) (ok : Request -> Prop) (k k' : K) : Prop := forall r, ok r ->
  (ready k r -> ready k' r) /\ (idle k r -> idle k' r) /\ (loaded k r -> loaded k' r).

(** [kv_ready k r]: the request may ask for more slots.
    [kv_idle k r]: no blocks are held for the request, it can be looked up.
    [kv_loaded k r]: a load of the request from a connector has ended. *)
Class KVScheduleLaws (K : Type) `{KVLaws K} `{!KVScheduling K} := {
  kv_ready : K -> Request -> Prop;
  kv_idle : K -> Request -> Prop;
  kv_loaded : K -> Request -> Prop;
  kv_kept (ok : Request -> Prop) (k k' : K) : Prop := kept_for kv_ready kv_idle kv_loaded ok k k';
  kvl_ready_free r last r' k : kv_wf k -> kv_ready k r' -> request_id r' <> request_id r ->
    wp (kv_free_request_blocks r last) (fun _ k' => kv_ready k' r') k;
  kvl_grow n la k r : kv_wf k -> kv_ready k r -> 0 < n -> 0 <= la ->
    wp (kv_allocate_slots n 0 None la 0 false 0 false 0 true) (fun _ t => kv_wf t.1 /\ same_but_memo r t.2 /\
      kv_ready t.1 t.2 /\ (forall q, kv_holds t.1 q -> kv_holds k q \/ q = request_id r) /\
      kv_kept (fun r' => request_id r' <> request_id r) k t.1) (k, r);
  kvl_new_step k : kv_wf k ->
    wp kv_new_step_starts (fun _ k' => kv_wf k' /\ (forall q, kv_holds k' q -> kv_holds k q) /\
      kv_kept (fun _ => True) k k') k;
  kvl_recycle r k : kv_wf k ->
    wp (kv_recycle_sliding_windows r) (fun _ k' => kv_wf k' /\ (forall q, kv_holds k' q -> kv_holds k q) /\
      kv_kept (fun _ => True) k k') k
}.

Definition valid_inputs (r : Request) (l : list Z) : Prop := Forall (fun i => 0 <= i < zlen (mm_features r)) l.

(** [en_pending e r l]: the inputs [l] of [r] can be allocated. *)
Class EncoderScheduleLaws (E : Type) `{EncoderLaws E} `{!EncoderCacheOps E} := {
  en_pending : E -> Request -> list Z -> Prop;
  enl_embeds r f : en_knows r -> f ∈ mm_features r -> 0 <= get_num_embeds (mm_position f);
  enl_try c r computed n budget shift e :
    is_encoder_decoder c = false -> en_wf e -> en_knows r -> 0 <= computed -> 0 <= n -> 0 <= budget -> 0 <= shift ->
    wp (try_schedule_encoder_inputs c r computed n budget shift)
      (fun res e' => let '(inputs, n', budget', ext) := res in
         en_wf e' /\ 0 <= n' <= n /\ 0 <= budget' /\ valid_inputs r inputs /\
         (0 < n' -> en_pending e' r (inputs ++ ext)) /\
         (Forall (fun f => offset (mm_position f) <= computed) (mm_features r) -> n' = n \/ n' = 0) /\
         (forall q, en_holds e' q -> en_holds e q \/ q = request_id r)) e;
  enl_pending_free r r' l e : en_wf e -> en_knows r -> request_id r' <> request_id r -> en_pending e r' l ->
    wp (en_free r) (fun _ e' => en_pending e' r' l) e;
  enl_pending_memo r r' l e : request_id r' = request_id r -> mm_features r' = mm_features r -> en_pending e r l -> en_pending e r' l;
  enl_allocate r i l e : en_wf e -> en_knows r -> en_pending e r (i :: l) ->
    wp (eco_allocate r i) (fun _ e' => en_wf e' /\ en_pending e' r l /\
      forall q, en_holds e' q -> en_holds e q \/ q = request_id r) e
}.

Class ECScheduleLaws (X : Type) `{ECConnectorLaws X} `{!ECScheduling X} := {
  ecl_ensure r n x : ec_wf x -> wp (ec_ensure_cache_available r n) (fun _ => ec_wf) x;
  ecl_alloc r i x : ec_wf x -> wp (ec_update_state_after_alloc r i) (fun _ => ec_wf) x
}.

(** What a configuration owes; the encoder cache of encoder-decoder models has
    other laws. *)
Record config_ok (cfg : SchedConfig) : Prop := {
  ck_decoder : sched_encoder_decoder cfg = false;
  ck_spec : 0 <= num_spec_tokens cfg;
  ck_pad : 0 < long_prefill_token_threshold (chunk_config cfg) ->
    1 + num_spec_tokens cfg <= long_prefill_token_threshold (chunk_config cfg);
  ck_tokens : 0 <= max_num_scheduled_tokens (chunk_config cfg);
  ck_inputs : 0 <= max_num_batched_tokens cfg;
  ck_encoder : 0 <= max_num_encoder_input_tokens cfg;
  ck_slots : 0 <= draft_slots cfg;
  ck_exl3 : exl3_prefill_auto (chunk_config cfg) = true -> draft_slots cfg < 2048;
  ck_lookahead : 0 <= num_lookahead_tokens cfg;
  ck_prefill : 0 <= num_prefill_lookahead (chunk_config cfg);
  ck_threshold : 0 <= long_prefill_token_threshold (chunk_config cfg);
  ck_block : 0 < cc_block_size (chunk_config cfg);
  ck_align : forall a, mamba_prefill_checkpoint_alignment (chunk_config cfg) = Some a -> 0 < a
}.

(** ** Lists *)

Lemma list_index_split (l : list Z) a :
  a ∈ l -> exists l1 l2, l = l1 ++ a :: l2 /\ a ∉ l1 /\ list_index l a = Some (zlen l1).
Proof.
  induction l as [|b l IH]; intros Ha; [by apply elem_of_nil in Ha|]. cbn. destruct (Z.eqb_spec a b) as [->|Hne].
  - exists [], l. split_and!; [done|apply not_elem_of_nil|done].
  - apply elem_of_cons in Ha as [->|Ha]; [done|]. destruct (IH Ha) as (l1 & l2 & -> & Hn & ->).
    exists (b :: l1), l2. split_and!; [done|by apply not_elem_of_cons|]. cbn. f_equal. rewrite zlen_cons. lia.
Qed.

Lemma list_delete_split (l1 l2 : list Z) a : list_delete (l1 ++ a :: l2) (zlen l1) = l1 ++ l2.
Proof.
  unfold list_delete. pose proof (zlen_nonneg l1). rewrite py_upto_take by done. rewrite py_from_drop by lia.
  unfold zlen. rewrite Nat2Z.id, take_app_length. f_equal.
  replace (Z.to_nat (Z.of_nat (length l1) + 1)) with (length (l1 ++ [a])) by (rewrite length_app; cbn; lia).
  change (a :: l2) with ([a] ++ l2). by rewrite app_assoc, drop_app_length.
Qed.

Lemma list_remove_perm (l : list Z) a : a ∈ l -> l ≡ₚ a :: list_remove l a.
Proof.
  intros Ha. unfold list_remove. destruct (list_index_split l a Ha) as (l1 & l2 & -> & _ & ->).
  rewrite list_delete_split. symmetry. apply Permutation_middle.
Qed.

(** The largest of a list is a member. *)
Lemma max_by_key_elem deref l : l <> [] -> exists v, max_by_key deref l = Some v /\ v ∈ l.
Proof.
  destruct l as [|a l]; [done|]. intros _. eexists. split; [done|].
  assert (forall l m, foldl (fun m b => if key_lt (deref m) (deref b) then b else m) m l ∈ m :: l) as Hf; [|apply Hf].
  clear. intros l. induction l as [|b l IH]; intros m; [by left|]. cbn.
  specialize (IH (if key_lt (deref m) (deref b) then b else m)). apply elem_of_cons in IH as [->|Hin].
  - destruct (key_lt _ _); [right; by left|by left].
  - right. by right.
Qed.

(** Positions before an index, after one element is taken out. *)
Lemma take_without (l1 l2 : list Z) v i b :
  b ∈ take i (l1 ++ v :: l2) -> b <> v ->
  b ∈ take (if decide (length l1 < i)%nat then i - 1 else i)%nat (l1 ++ l2).
Proof.
  intros Hb Hne. destruct (decide (length l1 < i)%nat) as [Hlt|Hge].
  - rewrite take_app_ge in Hb by lia. rewrite take_app_ge by lia. apply elem_of_app in Hb as [Hb|Hb]; apply elem_of_app; [by left|].
    right. replace (i - length l1)%nat with (S (i - 1 - length l1)) in Hb by lia. cbn in Hb. by apply elem_of_cons in Hb as [|].
  - rewrite take_app_le in Hb by lia. by rewrite take_app_le by lia.
Qed.

Lemma lookup_without (l1 l2 : list Z) v i a :
  (l1 ++ v :: l2) !! i = Some a -> i <> length l1 ->
  (l1 ++ l2) !! (if decide (length l1 < i)%nat then i - 1 else i)%nat = Some a.
Proof.
  intros Hi Hne. destruct (decide (length l1 < i)%nat) as [Hlt|Hge].
  - rewrite lookup_app_r in Hi by lia. rewrite lookup_app_r by lia.
    replace (i - length l1)%nat with (S (i - 1 - length l1)) in Hi by lia. done.
  - rewrite lookup_app_l in Hi by lia. by rewrite lookup_app_l by lia.
Qed.

Definition total_tokens (d : list (string * Z)) : Z := foldr (fun kn acc => kn.2 + acc) 0 d.

Lemma total_tokens_perm d d' : d ≡ₚ d' -> total_tokens d = total_tokens d'.
Proof. unfold total_tokens. induction 1 as [| | |]; cbn; lia. Qed.

Lemma total_tokens_app d d' : total_tokens (d ++ d') = total_tokens d + total_tokens d'.
Proof. unfold total_tokens. induction d as [|kn d IH]; cbn in *; lia. Qed.

(** ** The invariant *)

Section Pass.
Context `{Env} {K E C X : Type} `{KVScheduleLaws K} `{EncoderScheduleLaws E} `{KVConnectorLaws C} `{ECScheduleLaws X}.
Context (cfg : SchedConfig).
Local Abbreviation Sched := (Scheduler K E C X).
Local Abbreviation lifecycle := (lifecycle cfg).
Implicit Types (s : Sched) (p : Pass).

Definition rid_of (s : Sched) (a : Z) : string := request_id (deref s a).

(** The requests scheduled in this step. *)
Definition scheduled (p : Pass) : list Z :=
  scheduled_running_reqs p ++ scheduled_new_reqs p ++ scheduled_resumed_reqs p.

(** A running request the step may schedule. *)
Record runnable (s : Sched) (o : SReq) : Prop := {
  rn_kv : kv_ready (kv_cache_manager s) (sr_request o);
  rn_counts : 0 <= num_computed_tokens (sr_request o) <= num_tokens_with_spec o + num_output_placeholders o;
  rn_len : num_computed_tokens (sr_request o) + num_sampled_tokens_per_step cfg <= sc_max_model_len cfg
}.

(** The accounts: every scheduled request has its tokens and its blocks, once,
    and the budgets are what is left. *)
Record accounts (s : Sched) (p : Pass) : Prop := {
  ac_nodup : NoDup (scheduled p);
  ac_tracked : forall b, b ∈ scheduled p -> od_get (rid_of s b) (requests s) = Some b;
  ac_keys : (num_scheduled_tokens p).*1 ≡ₚ rid_of s <$> scheduled p;
  ac_blocks : (req_to_new_blocks p).*1 ≡ₚ rid_of s <$> scheduled p;
  ac_positive : Forall (fun kn => 0 < kn.2) (num_scheduled_tokens p);
  ac_token : 0 <= token_budget p /\
    token_budget p + total_tokens (num_scheduled_tokens p) <= max_num_scheduled_tokens (chunk_config cfg);
  ac_input : 0 <= input_budget p /\ input_budget p + total_tokens (num_scheduled_tokens p)
    + draft_slots cfg * zlen (num_scheduled_tokens p) <= max_num_batched_tokens cfg;
  ac_encoder : 0 <= encoder_compute_budget p;
  ac_inputs_keys : NoDup (scheduled_encoder_inputs p).*1;
  ac_inputs : forall rid l, od_get rid (scheduled_encoder_inputs p) = Some l ->
    exists b, b ∈ scheduled p /\ rid_of s b = rid /\ valid_inputs (deref s b) l
}.

(** [D]: requests in the middle of a move. *)
Record pass_ok (D : list Z) (s : Sched) (p : Pass) : Prop := {
  po_inv : lifecycle D s;
  po_accounts : accounts s p;
  po_index : 0 <= req_index p <= zlen (running s);
  po_scheduled : forall b, b ∈ scheduled p -> b ∈ running s;
  po_before : forall b, b ∈ scheduled_running_reqs p -> b ∈ take (Z.to_nat (req_index p)) (running s);
  po_ready : forall b o, b ∈ running s -> b ∉ scheduled p -> objs s !! b = Some o -> runnable s o;
  po_preempted : forall v, v ∈ preempted_reqs p -> v ∈ members (waiting s)
}.

(** What no part of a step changes about a request. *)
Record same_identity (s s' : Sched) : Prop := {
  si_requests : requests s' = requests s;
  si_ids : forall a, rid_of s' a = rid_of s a;
  si_features : forall a, mm_features (deref s' a) = mm_features (deref s a)
}.

(** Requests that do not run. *)
Definition bystander (s : Sched) (r : Request) : Prop := forall b, b ∈ running s -> rid_of s b <> request_id r.

(** Nothing changed for them. *)
Record quiet (s s' : Sched) : Prop := {
  qt_objs : forall b, b ∉ running s -> objs s' !! b = objs s !! b;
  qt_running : running s' = running s;
  qt_waiting : waiting s' = waiting s;
  qt_skipped : skipped_waiting s' = skipped_waiting s;
  qt_ids : forall b, rid_of s' b = rid_of s b;
  qt_kv : kv_kept (bystander s) (kv_cache_manager s) (kv_cache_manager s');
  qt_sets : finished_recving_kv_req_ids (sets s') = finished_recving_kv_req_ids (sets s) /\
    failed_recving_kv_req_ids (sets s') = failed_recving_kv_req_ids (sets s) /\ inflight_prefills (sets s') = inflight_prefills (sets s)
}.

Lemma kv_kept_refl ok (k : K) : kv_kept ok k k.
Proof. by intros r Hr. Qed.
Lemma kv_kept_trans ok (k1 k2 k3 : K) : kv_kept ok k1 k2 -> kv_kept ok k2 k3 -> kv_kept ok k1 k3.
Proof. intros A1 A2 r Hr. destruct (A1 r Hr) as (? & ? & ?), (A2 r Hr) as (? & ? & ?). auto. Qed.
Lemma kv_kept_weaken (ok ok' : Request -> Prop) (k k' : K) :
  (forall r, ok' r -> ok r) -> kv_kept ok k k' -> kv_kept ok' k k'.
Proof. intros Ho A1 r Hr. apply A1. by apply Ho. Qed.

Lemma quiet_refl s : quiet s s.
Proof. by split; try apply kv_kept_refl. Qed.

Lemma quiet_trans s1 s2 s3 : quiet s1 s2 -> quiet s2 s3 -> quiet s1 s3.
Proof.
  intros [A1 A2 A3 A4 A5 A6 (A7 & A8 & A9)] [B1 B2 B3 B4 B5 B6 (B7 & B8 & B9)]. split; try congruence.
  - intros b Hb. rewrite B1, A1; [done|done|by rewrite A2].
  - eapply kv_kept_trans; [done|]. eapply kv_kept_weaken; [|done]. intros r Hr b. rewrite A2, A5. apply Hr.
  - by rewrite B7, B8, B9.
Qed.

Lemma accounts_same s s' p : same_identity s s' -> accounts s p -> accounts s' p.
Proof.
  intros [I1 I2 I3] [A1 A2 A3 A4 A5 A6 A7 A8 A9 A10].
  assert (rid_of s' <$> scheduled p = rid_of s <$> scheduled p) as Hm by (apply list_fmap_ext; intros; apply I2).
  split; rewrite ?Hm, ?I1; try done.
  - intros b Hb. rewrite I2. by apply A2.
  - intros rid l Hl. destruct (A10 rid l Hl) as (b & Hb & Hr & Hv). exists b. rewrite I2. split_and!; [done|done|].
    unfold valid_inputs. by rewrite I3.
Qed.

(** Ids tell scheduled requests apart. *)
Lemma scheduled_inj s p a b : accounts s p -> a ∈ scheduled p -> b ∈ scheduled p -> rid_of s a = rid_of s b -> a = b.
Proof. intros Ha H1' H2' Heq. apply (ac_tracked _ _ Ha) in H1'. apply (ac_tracked _ _ Ha) in H2'. rewrite Heq in H1'. congruence. Qed.

Lemma keys_nodup s p (d : list (string * Z)) :
  accounts s p -> d.*1 ≡ₚ rid_of s <$> scheduled p -> NoDup d.*1.
Proof.
  intros Ha ->. apply NoDup_fmap_2_strong; [|apply Ha]. intros a b. by apply (scheduled_inj s p).
Qed.

(** ** What the parts of a round change *)

Context (cfg_ok : config_ok cfg).

Definition ec_fine (x : option X) : Prop := forall c, x = Some c -> ec_wf c.

Lemma set_ec_same s : s = set_ec (ec_connector s) s.
Proof. by destruct s. Qed.
Lemma set_enc_same s : s = set_enc (encoder_cache_manager s) s.
Proof. by destruct s. Qed.
Lemma set_sets_same s : s = set_sets (sets s) s.
Proof. by destruct s. Qed.

Lemma ec_pending_spec s r n :
  ec_fine (ec_connector s) -> wp (ec_transfer_pending r n) (fun _ s' => exists x, s' = set_ec x s /\ ec_fine x) s.
Proof.
  intros Hx. unfold ec_transfer_pending. destruct (zlen (mm_features r) =? 0); [apply wp_ret; eexists; by split; [apply set_ec_same|]|].
  apply wp_on_ec; [intros _; eexists; by split; [apply set_ec_same|]|]. intros x Ex. apply wp_bind.
  eapply wp_mono; [by apply ecl_ensure, Hx|]. intros b x' Hx'. apply wp_ret. exists (Some x'). split; [done|]. by intros c [= <-].
Qed.

Lemma exl3_budget_spec r c av (x : gset string) : wp (exl3_prefill_budget r c av) (fun b _ => 2048 <= b) x.
Proof.
  unfold exl3_prefill_budget. cbv zeta. destruct (_ || _); [by apply wp_ret|]. apply wp_bind, wp_get.
  destruct (_ || _); [apply wp_bind, wp_modify, wp_ret; lia|by apply wp_ret].
Qed.

(** The budgets only shrink, and still allow one token. *)
Lemma clamp_budgets_spec s p r c :
  0 < token_budget p -> draft_slots cfg < input_budget p ->
  wp (clamp_budgets cfg r c p) (fun p' s' => (exists x, s' = set_sets (ss_exl3_int8_prefill_requests x (sets s)) s) /\
    exists t i, p' = ps_budgets t i p /\ 0 < t <= token_budget p /\ draft_slots cfg < i <= input_budget p) s.
Proof.
  intros Ht Hi. unfold clamp_budgets. destruct (exl3_prefill_auto (chunk_config cfg)) eqn:Ee.
  - apply wp_bind, wp_zoom. eapply wp_mono; [apply exl3_budget_spec|]. intros b x Hb. cbv beta in Hb. apply wp_ret.
    pose proof (ck_exl3 _ cfg_ok Ee). split; [by eexists|]. eexists _, _. split_and!; [done|lia..].
  - apply wp_ret. split; [exists (exl3_int8_prefill_requests (sets s)); destruct s as []; cbn; by destruct sets|]. exists (token_budget p), (input_budget p). split_and!; [by destruct p|lia..].
Qed.

Lemma align_split_spec s r n local ext :
  0 <= num_computed_tokens r + local + ext -> 0 <= n ->
  wp (align_split cfg r n local ext) (fun n' s' => s' = s /\ 0 <= n' <= n) s.
Proof.
  intros Hs Hn. unfold align_split. destruct (need_mamba_block_aligned_split cfg); [|apply wp_ret; split; [done|lia]].
  destruct (split_ok (chunk_config cfg) (ck_block _ cfg_ok) r n local ext) as (n' & En & Hn' & _); [lia|done|apply (ck_align _ cfg_ok)|].
  by eapply wp_of_option.
Qed.

(** The inputs of a request that are still to be allocated, if any. *)
Definition pend (e : E) (r : Request) (l : list Z) : Prop := l = [] \/ en_pending e r l.

(** The encoder cache grew for one request. *)
Definition enc_grown (rid : string) (e e' : E) : Prop :=
  en_wf e' /\ forall q, en_holds e' q -> en_holds e q \/ q = rid.

Lemma enc_grown_trans rid e1 e2 e3 : enc_grown rid e1 e2 -> enc_grown rid e2 e3 -> enc_grown rid e1 e3.
Proof. intros [_ A2] [B1 B2]. split; [done|]. intros q Hq. apply B2 in Hq as [Hq|Hq]; [by apply A2|by right]. Qed.

Lemma schedule_encoder_spec s o c n budget :
  en_wf (encoder_cache_manager s) -> en_knows (sr_request o) -> 0 <= c -> 0 <= n -> 0 <= budget ->
  wp (schedule_encoder cfg o c n budget) (fun res s' => let '(inputs, n', budget', ext) := res in
    exists e, s' = set_enc e s /\ enc_grown (so_id o) (encoder_cache_manager s) e /\ 0 <= n' <= n /\ 0 <= budget' /\
    valid_inputs (sr_request o) inputs /\ (0 < n' -> pend e (sr_request o) (inputs ++ ext)) /\
    (Forall (fun f => offset (mm_position f) <= c) (mm_features (sr_request o)) -> n' = n \/ n' = 0)) s.
Proof.
  intros He Hk Hc Hn Hb. unfold schedule_encoder. destruct (has_encoder_inputs o).
  - apply wp_bind, wp_get, wp_zoom. eapply wp_mono; [apply enl_try; [apply cfg_ok|done|done|done|done|done|apply cfg_ok]|].
    intros [[[inputs n'] b'] ext] e (W1 & W2 & W3 & W4 & W5 & W6 & W7). exists e. split_and!; [done|done|lia|lia|done|done| |done].
    intros Hn'. right. by apply W5.
  - apply wp_ret. exists (encoder_cache_manager s). split_and!; [apply set_enc_same|by split; [|left]|lia|lia|done|apply Forall_nil_2|by left|by left].
Qed.

Lemma reserve_bounds r c n : 0 <= n -> 0 <= reserve_prefill_lookahead (chunk_config cfg) r c n <= n.
Proof.
  intros Hn. unfold reserve_prefill_lookahead. cbv zeta.
  destruct (Z.ltb_spec 0 (num_tokens r - c - n)), (Z.ltb_spec (num_tokens r - c - n) (num_prefill_lookahead (chunk_config cfg))); cbn; lia.
Qed.

(** The encoder cache and the EC connector changed, for one request. *)
Definition enc_moved (rid : string) (s s' : Sched) : Prop :=
  exists e x, s' = set_ec x (set_enc e s) /\ enc_grown rid (encoder_cache_manager s) e /\ ec_fine x.

Lemma alloc_inputs_spec r rest l : forall s,
  en_wf (encoder_cache_manager s) -> ec_fine (ec_connector s) -> en_knows r -> pend (encoder_cache_manager s) r (l ++ rest) ->
  wp (for_each l (allocate_encoder_input r)) (fun _ s' => enc_moved (request_id r) s s' /\ pend (encoder_cache_manager s') r rest) s.
Proof.
  induction l as [|i l IH]; intros s He Hx Hk Hl; cbn [for_each].
  { apply wp_ret. split; [|done]. exists (encoder_cache_manager s), (ec_connector s). split_and!; [by destruct s|by split; [|left]|done]. }
  destruct Hl as [Hl|Hl]; [done|]. apply wp_bind. unfold allocate_encoder_input at 1. apply wp_bind, wp_zoom.
  eapply wp_mono; [by apply (enl_allocate r i (l ++ rest))|]. intros [] e (He1 & Hl' & Hh).
  assert (forall x, ec_fine x -> wp (for_each l (allocate_encoder_input r)) (fun _ s' => enc_moved (request_id r) s s' /\
    pend (encoder_cache_manager s') r rest) (set_ec x (set_enc e s))) as Hrest.
  { intros x Hx1. eapply wp_mono; [apply (IH (set_ec x (set_enc e s))); try done; by right|].
    intros [] s' ((e' & x' & -> & Hg & Hx') & W2). split; [|done]. exists e', x'. split_and!; [done| |done].
    by apply (enc_grown_trans _ _ e). }
  apply wp_on_ec.
  - intros _. cbn. pose proof (Hrest (ec_connector s) Hx) as Hr. by destruct s.
  - intros x Ex. eapply wp_mono; [apply ecl_alloc; by apply Hx|]. intros [] x' Hx'. apply Hrest. by intros c [= <-].
Qed.

Lemma allocate_inputs_spec s p r inputs ext budget :
  en_wf (encoder_cache_manager s) -> ec_fine (ec_connector s) -> en_knows r -> pend (encoder_cache_manager s) r (inputs ++ ext) ->
  wp (allocate_encoder_inputs r inputs ext budget p) (fun p' s' => enc_moved (request_id r) s s' /\
    (p' = p \/ p' = ps_encoder_budget budget (ps_encoder_inputs (od_set (request_id r) inputs (scheduled_encoder_inputs p)) p))) s.
Proof.
  intros He Hx Hk Hl. unfold allocate_encoder_inputs. apply wp_bind.
  apply (wp_mono _ (fun p' s' => enc_moved (request_id r) s s' /\ pend (encoder_cache_manager s') r ext /\
    (p' = p \/ p' = ps_encoder_budget budget (ps_encoder_inputs (od_set (request_id r) inputs (scheduled_encoder_inputs p)) p)))).
  - destruct inputs as [|i inputs].
    + apply wp_ret. split_and!; [|done|by left]. exists (encoder_cache_manager s), (ec_connector s). split_and!; [by destruct s|by split; [|left]|done].
    + apply wp_bind. eapply wp_mono; [by apply (alloc_inputs_spec r ext)|]. intros [] s1 (W1 & W2). apply wp_ret. split_and!; [done|done|by right].
  - intros p' s1 ((e & x & -> & [Hg1 Hg2] & Hx1) & W2 & W3). apply wp_bind.
    eapply wp_mono; [apply (alloc_inputs_spec r [] ext); try done; by rewrite app_nil_r|].
    intros [] s2 ((e' & x' & -> & Hg' & Hx') & _). apply wp_ret. split; [|done]. exists e', x'. split_and!; [done| |done].
    by apply (enc_grown_trans _ _ e).
Qed.

(** The inputs of a scheduled request are recorded. *)
Lemma accounts_inputs s p a o r inputs budget :
  accounts s p -> a ∈ scheduled p -> objs s !! a = Some o -> request_id r = so_id o ->
  mm_features r = mm_features (sr_request o) -> valid_inputs r inputs -> 0 <= budget ->
  accounts s (ps_encoder_budget budget (ps_encoder_inputs (od_set (request_id r) inputs (scheduled_encoder_inputs p)) p)).
Proof.
  intros [A1 A2 A3 A4 A5 A6 A7 A8 A9 A10] Ha Ho Hr Hm Hv Hb. split; try done; cbn.
  - by apply od_set_NoDup.
  - intros rid l. rewrite od_get_set. case_decide as Er; [|apply A10]. intros [= <-]. exists a. unfold rid_of, deref. rewrite Ho.
    split_and!; [done|unfold so_id in Hr; congruence|]. unfold valid_inputs in *. by rewrite <- Hm.
Qed.

(** A request enters the accounts. *)
Lemma accounts_add s p p' a n b :
  accounts s p -> a ∉ scheduled p -> od_get (rid_of s a) (requests s) = Some a ->
  0 < n <= token_budget p -> n + draft_slots cfg <= input_budget p ->
  scheduled p' ≡ₚ a :: scheduled p ->
  num_scheduled_tokens p' = od_set (rid_of s a) n (num_scheduled_tokens p) ->
  req_to_new_blocks p' = od_set (rid_of s a) b (req_to_new_blocks p) ->
  token_budget p' = token_budget p - n -> input_budget p' = input_budget p - (n + draft_slots cfg) ->
  encoder_compute_budget p' = encoder_compute_budget p -> scheduled_encoder_inputs p' = scheduled_encoder_inputs p ->
  accounts s p'.
Proof.
  intros [A1 A2 A3 A4 A5 A6 A7 A8 A9 A10] Hna Hg Hn Hi Hsch T1 T2 T3 T4 T5 T6.
  assert (forall V (d : list (string * V)), d.*1 ≡ₚ rid_of s <$> scheduled p -> rid_of s a ∉ d.*1) as Hfresh.
  { intros V d Hd. rewrite Hd. intros (c & Hc' & Hcs)%list_elem_of_fmap. pose proof (A2 c Hcs) as Hx.
    rewrite <- Hc' in Hx. apply Hna. congruence. }
  rewrite od_set_absent in T1 by by apply Hfresh. rewrite od_set_absent in T2 by by apply Hfresh.
  split; rewrite ?T1, ?T2, ?T3, ?T4, ?T5, ?T6; try done.
  - rewrite Hsch. by apply NoDup_cons.
  - intros c. rewrite Hsch, elem_of_cons. intros [->|Hcs]; [done|by apply A2].
  - rewrite Hsch, fmap_app, A3. cbn. symmetry. apply Permutation_cons_append.
  - rewrite Hsch, fmap_app, A4. cbn. symmetry. apply Permutation_cons_append.
  - apply Forall_app. split; [done|]. apply Forall_singleton. cbn. lia.
  - rewrite total_tokens_app. cbn. lia.
  - rewrite total_tokens_app, zlen_app, zlen_cons. cbn. change (zlen []) with 0. lia.
  - intros rid l Hl. destruct (A10 rid l Hl) as (c & Hcs & Hr). exists c. split; [rewrite Hsch; by right|done].
Qed.

End Pass.
