(* ===== verification/ScheduleRun.v ===== *)
(** * Scheduling the running requests

    The loop over [self.running] in [schedule] ends, raises nothing, keeps the
    invariant of the request lifecycle and the accounts of the step, and the
    preemption loop inside it ends with the blocks or with the request itself
    preempted. *)
From Stdlib Require Import ZArith Lia.
From stdpp Require Import base tactics gmap strings numbers option list.
From S2P Require Import Prelude Blocks Request Hashing Env SchedUtils RequestQueue KVCacheManager OrderedDict SchedEncoder SchedChunk SchedRequest SchedIface Scheduler SchedulerInv SchedulerOps SchedulerPreempt SchedulePass ScheduleInv.

Local Open Scope Z_scope.

Section Run.
Context `{Env} {K E C X : Type} `{KVScheduleLaws K} `{EncoderScheduleLaws E} `{KVConnectorLaws C} `{ECScheduleLaws X}.
Context (cfg : SchedConfig) (cfg_ok : config_ok cfg).
Local Abbreviation Sched := (Scheduler K E C X).
Local Abbreviation lifecycle := (lifecycle cfg).
Local Abbreviation accounts := (accounts cfg).
Local Abbreviation pass_ok := (pass_ok cfg).
Implicit Types (s : Sched) (p : Pass).

(** What the first loop leaves of the local variables it does not use. *)
Record first_pass (p p' : Pass) : Prop := {
  fp_new : scheduled_new_reqs p' = scheduled_new_reqs p;
  fp_resumed : scheduled_resumed_reqs p' = scheduled_resumed_reqs p;
  fp_token : token_budget p <= token_budget p';
  fp_input : input_budget p <= input_budget p'
}.

Lemma first_pass_refl p : first_pass p p.
Proof. by split. Qed.
Lemma first_pass_trans p1 p2 p3 : first_pass p1 p2 -> first_pass p2 p3 -> first_pass p1 p3.
Proof. intros [? ? ? ?] [? ? ? ?]. split; (congruence || lia). Qed.

(** ** Preemption *)

Lemma sum_embeds_spec s r l :
  en_knows r -> valid_inputs r l -> wp (sum_encoder_embeds r l) (fun n s' => s' = s /\ 0 <= n) s.
Proof.
  intros Hk Hv. unfold sum_encoder_embeds. eapply wp_mono; [apply (wp_fold_m (fun _ n s' => s' = s /\ 0 <= n))|].
  - done.
  - intros pre i post n s' El [-> Hn]. unfold encoder_embeds_of. unfold valid_inputs in Hv. rewrite Forall_forall in Hv.
    destruct (Hv i) as [Hi1 Hi2]; [rewrite El; apply elem_of_app; right; by left|].
    apply wp_bind, wp_bind, wp_assert; [by apply Z.ltb_lt|]. rewrite py_index_nonneg by done.
    destruct (mm_features r !! Z.to_nat i) as [f|] eqn:Ef.
    + apply wp_bind. eapply wp_of_option; [done|]. apply wp_ret, wp_ret. split; [done|].
      pose proof (enl_embeds r f Hk ltac:(by eapply list_elem_of_lookup_2)). lia.
    + apply lookup_ge_None in Ef. unfold zlen in Hi2. lia.
  - by intros n s' Hn.
Qed.

Lemma unschedule_spec s p v o :
  accounts s p -> v ∈ scheduled_running_reqs p -> objs s !! v = Some o -> en_knows (sr_request o) ->
  wp (unschedule cfg v p) (fun p' s' => s' = s /\ accounts s p' /\ first_pass p p' /\
    scheduled_running_reqs p ≡ₚ v :: scheduled_running_reqs p' /\
    req_index p' = req_index p /\ preempted_reqs p' = preempted_reqs p) s.
Proof.
  intros Ha Hv Ho Hk. pose proof Ha as [A1 A2 A3 A4 A5 A6 A7 A8 A9 A10].
  pose proof (list_remove_perm _ _ Hv) as Hrm. set (l := list_remove (scheduled_running_reqs p) v) in *.
  assert (scheduled p ≡ₚ v :: (l ++ scheduled_new_reqs p ++ scheduled_resumed_reqs p)) as Hsch by (unfold scheduled; by rewrite Hrm).
  assert (rid_of s v = so_id o) as Hrid by (unfold rid_of, deref; by rewrite Ho).
  assert (so_id o ∈ (num_scheduled_tokens p).*1 /\ so_id o ∈ (req_to_new_blocks p).*1) as [Hk1 Hk2].
  { rewrite A3, A4, Hsch, <- Hrid. cbn. split; by left. }
  unfold unschedule. apply wp_bind. eapply wp_obj; [done|]. cbv zeta.
  destruct (od_get (so_id o) (num_scheduled_tokens p)) as [n|] eqn:En; [|by apply od_get_None in En].
  destruct (od_get (so_id o) (req_to_new_blocks p)) as [bl|] eqn:Eb; [|by apply od_get_None in Eb].
  apply wp_bind. eapply wp_of_option; [done|]. apply wp_bind. eapply wp_of_option; [done|].
  cbn [scheduled_encoder_inputs ps_spec ps_tokens ps_budgets ps_running].
  apply wp_bind. eapply wp_mono; [apply sum_embeds_spec; [done|]|].
  { destruct (od_get (so_id o) (scheduled_encoder_inputs p)) as [l0|] eqn:El; [|apply Forall_nil_2].
    destruct (A10 _ _ El) as (b & Hb & Hr & Hvl). assert (b = v) as ->.
    { apply (scheduled_inj cfg s p); [done|done|unfold scheduled; apply elem_of_app; by left|congruence]. }
    unfold deref in Hvl. by rewrite Ho in Hvl. }
  intros e s' [-> He]. apply wp_ret. pose proof (od_pop_perm _ _ _ En) as Pn. pose proof (od_pop_perm _ _ _ Eb) as Pb.
  pose proof (total_tokens_perm _ _ Pn) as Ht. cbn in Ht.
  assert (zlen (num_scheduled_tokens p) = zlen (od_pop (so_id o) (num_scheduled_tokens p)) + 1) as Hl
    by (unfold zlen; rewrite Pn at 1; cbn; lia).
  assert (0 < n) as Hn by (rewrite Pn in A5; by apply Forall_cons in A5 as [? _]).
  pose proof (ck_slots _ cfg_ok) as Hds.
  rewrite Hsch, Pn in A3. cbn in A3. rewrite Hrid in A3. apply Permutation_cons_inv in A3.
  rewrite Hsch, Pb in A4. cbn in A4. rewrite Hrid in A4. apply Permutation_cons_inv in A4.
  split_and!; [done| | |done|done|done].
  - split; cbn; try done.
    + rewrite Hsch in A1. by apply NoDup_cons in A1 as [_ A1].
    + intros b Hb. apply A2. rewrite Hsch. by right.
    + rewrite Pn in A5. by apply Forall_cons in A5 as [_ A5].
    + lia.
    + nia.
    + lia.
    + by apply od_pop_NoDup.
    + intros rid l0. rewrite od_get_pop by done. case_decide as Er; [done|]. intros Hl0.
      destruct (A10 rid l0 Hl0) as (b & Hb & Hr & Hvl). exists b. split_and!; [|done|done].
      rewrite Hsch in Hb. apply elem_of_cons in Hb as [->|Hb]; [|done]. congruence.
  - split; cbn; try done; lia.
Qed.

(** [a] is the request of the current round. *)
Definition current (s : Sched) (p : Pass) (a : Z) : Prop := running s !! Z.to_nat (req_index p) = Some a.

Lemma current_unscheduled s p a :
  pass_ok [] s p -> scheduled_new_reqs p = [] -> scheduled_resumed_reqs p = [] -> current s p a -> a ∉ scheduled p.
Proof.
  intros Hp Hn Hr Hc Ha. unfold scheduled in Ha. rewrite Hn, Hr, app_nil_r in Ha. apply (po_before _ _ _ _ Hp) in Ha.
  apply list_elem_of_lookup in Ha as [i Hi]. apply lookup_take_Some in Hi as [Hi Hlt].
  pose proof (lc_nodup _ _ _ (po_inv _ _ _ _ Hp)) as Hnd. unfold queued in Hnd. apply NoDup_app in Hnd as [Hnd _].
  pose proof (NoDup_lookup _ _ _ _ Hnd Hi Hc). lia.
Qed.

(** Take [v] out of [self.running], before its share is given back. *)
Lemma victim_taken s p l1 v l2 :
  pass_ok [] s p -> running s = l1 ++ v :: l2 ->
  let i := if zlen l1 <? req_index p then req_index p - 1 else req_index p in
  let s' := set_running (l1 ++ l2) s in
  lifecycle [v] s' /\ same_identity s s' /\ 0 <= i <= zlen (running s') /\
  (forall b, b ∈ scheduled p -> b <> v -> b ∈ running s') /\
  (forall b, b ∈ scheduled_running_reqs p -> b <> v -> b ∈ take (Z.to_nat i) (running s')) /\
  (forall a, current s p a -> a <> v -> running s' !! Z.to_nat i = Some a) /\
  exists o, tracked s v o /\ so_status o = RUNNING /\ v ∉ running s'.
Proof.
  intros [L A I1 I2 I3 I4 I5] Hr. cbv zeta. destruct (take_running cfg [] s l1 v l2 L Hr) as (L' & _ & Hv & o & Ht & Hst).
  assert (zlen (running s) = zlen l1 + zlen l2 + 1) as Hlen by (rewrite Hr, zlen_app, zlen_cons; lia).
  assert (forall i : nat, Z.to_nat (if zlen l1 <? req_index p then req_index p - 1 else req_index p) =
    (if decide (length l1 < Z.to_nat (req_index p))%nat then Z.to_nat (req_index p) - 1 else Z.to_nat (req_index p))%nat) as Hi.
  { intros _. unfold zlen. destruct (Z.ltb_spec (Z.of_nat (length l1)) (req_index p)); case_decide; lia. }
  specialize (Hi 0%nat). cbn [running set_running]. rewrite zlen_app. split_and!; [done|done| | | | | |].
  - pose proof (zlen_nonneg l1). destruct (Z.ltb_spec (zlen l1) (req_index p)); lia.
  - pose proof (zlen_nonneg l2). destruct (Z.ltb_spec (zlen l1) (req_index p)); lia.
  - intros b Hb Hne. apply I2 in Hb. rewrite Hr in Hb. rewrite elem_of_app in *. rewrite elem_of_cons in Hb. tauto.
  - intros b Hb Hne. rewrite Hi. apply (take_without l1 l2 v); [|done]. rewrite <- Hr. by apply I3.
  - intros a Ha Hne. rewrite Hi. unfold current in Ha. rewrite Hr in Ha. apply (lookup_without l1 l2 v); [done|].
    intros Ei. rewrite Ei, list_lookup_middle in Ha by done. congruence.
  - exists o. done.
Qed.

(** The state after [take_victim]. *)
Record victim (a : Z) s p (v : Z) p' s' : Prop := {
  vi_pass : pass_ok [v] s' p';
  vi_state : exists l1 l2, running s = l1 ++ v :: l2 /\ s' = set_running (l1 ++ l2) s;
  vi_frame : first_pass p p' /\ preempted_reqs p' = preempted_reqs p;
  vi_current : a <> v -> current s' p' a;
  vi_measure : zlen (running s') - req_index p' <= zlen (running s) - req_index p;
  vi_object : exists o, tracked s v o /\ so_status o = RUNNING /\ v ∉ running s'
}.

Lemma ready_kept s p (s' : Sched) :
  (forall b o, b ∈ running s -> b ∉ scheduled p -> objs s !! b = Some o -> runnable cfg s o) ->
  (forall b, b ∈ running s' -> b ∈ running s) -> objs s' = objs s -> kv_cache_manager s' = kv_cache_manager s ->
  forall b o, b ∈ running s' -> b ∉ scheduled p -> objs s' !! b = Some o -> runnable cfg s' o.
Proof.
  intros Hr Hsub Ho Hk b o Hb Hn Hob. rewrite Ho in Hob. destruct (Hr b o (Hsub b Hb) Hn Hob) as [R1 R2 R3].
  split; [by rewrite Hk|done|done].
Qed.

Lemma take_victim_spec s p a :
  pass_ok [] s p -> scheduled_new_reqs p = [] -> scheduled_resumed_reqs p = [] -> current s p a ->
  wp (take_victim cfg p) (fun vp s' => victim a s p vp.1 vp.2 s') s.
Proof.
  intros Hp Hnew Hres Hc. assert (running s <> []) as Hne by (intros Hx; unfold current in Hc; by rewrite Hx in Hc).
  pose proof Hp as [L A I1 I2 I3 I4 I5].
  assert (scheduled p = scheduled_running_reqs p) as Hsch by (unfold scheduled; by rewrite Hnew, Hres, app_nil_r).
  unfold take_victim. apply wp_bind, wp_get. destruct (sc_policy cfg).
  - destruct (exists_last Hne) as (l & v & Hl). rewrite Hl, last_snoc. apply wp_bind. eapply wp_of_option; [done|].
    apply wp_bind, wp_modify. rewrite Hl, removelast_last. apply wp_ret. cbn [fst snd].
    destruct (victim_taken s p l v [] Hp Hl) as (V1 & V2 & V3 & V4 & V5 & V6 & V7). rewrite app_nil_r in *.
    assert (req_index p <= zlen l) as Hle.
    { apply lookup_lt_Some in Hc. rewrite Hl, length_app in Hc. cbn in Hc. unfold zlen. lia. }
    rewrite (proj2 (Z.ltb_ge _ _)) in V3, V5, V6 by done. split; cbn [fst snd].
    + assert (v ∉ scheduled p) as Hv.
      { rewrite Hsch. intros Hx%I3. rewrite Hl, take_app_le in Hx by (unfold zlen in Hle; lia). destruct V7 as (_ & _ & _ & Hn).
        apply Hn. cbn. apply list_elem_of_lookup in Hx as [i Hi]. apply lookup_take_Some in Hi as [Hi _]. by eapply list_elem_of_lookup_2. }
      split; try done.
      * by apply (accounts_same cfg s).
      * intros b Hb. apply V4; [done|]. by intros ->.
      * intros b Hb. apply V5; [done|]. rewrite <- Hsch in Hb. by intros ->.
      * apply (ready_kept s p); try done. cbn. intros b Hb. rewrite Hl. apply elem_of_app. by left.
    + exists l, []. by rewrite app_nil_r.
    + by split; [apply first_pass_refl|].
    + intros Hav. by apply V6.
    + cbn. rewrite Hl, zlen_app. pose proof (zlen_nonneg [v]). lia.
    + done.
  - destruct (max_by_key_elem (deref s) (running s) Hne) as (v & -> & Hv). apply wp_bind. eapply wp_of_option; [done|].
    destruct (list_index_split _ _ Hv) as (l1 & l2 & Hl & _ & Ei). rewrite Ei. apply wp_bind. eapply wp_of_option; [done|].
    apply wp_bind, wp_modify. rewrite Hl, list_delete_split. cbv zeta.
    destruct (victim_taken s p l1 v l2 Hp Hl) as (V1 & V2 & V3 & V4 & V5 & V6 & o & Ht & Hst & Hnv).
    set (s' := set_running (l1 ++ l2) s) in *. set (i := if zlen l1 <? req_index p then _ else _) in *.
    replace (if zlen l1 <? req_index p then ps_index (req_index p - 1) p else p) with (ps_index i p).
    2:{ unfold i. destruct (zlen l1 <? req_index p); [done|by destruct p]. }
    assert (forall b, b ∈ running s' -> b ∈ running s) as Hsub.
    { intros b. rewrite Hl. cbn. rewrite !elem_of_app, elem_of_cons. tauto. }
    assert (zlen (running s') - i <= zlen (running s) - req_index p) as Hmeasure.
    { rewrite Hl. cbn. rewrite !zlen_app, zlen_cons. unfold i. destruct (zlen l1 <? req_index p); lia. }
    assert (accounts s' (ps_index i p)) as A' by (apply (accounts_same cfg s); [done|by destruct A; split]).
    apply wp_bind. case_bool_decide as Es; cbn [scheduled_running_reqs ps_index] in Es.
    + destruct (lc_objs _ _ _ L _ _ (proj2 Ht)) as (o1 & Ho1 & _ & Hok). destruct Ht as [Ho Hg]. rewrite Ho in Ho1. injection Ho1 as <-.
      eapply wp_mono; [apply (unschedule_spec s' (ps_index i p) v o A' Es Ho); apply Hok|].
      intros p' s2 (-> & A2 & [F1 F2 F3 F4] & Hperm & Hidx & Hpre). cbn in F1, F2, F3, F4, Hperm, Hidx, Hpre. apply wp_ret. cbn [fst snd].
      assert (scheduled p' = scheduled_running_reqs p') as Hsch' by (unfold scheduled; by rewrite F1, F2, Hnew, Hres, app_nil_r).
      assert (forall b, b ∈ scheduled_running_reqs p' -> b ∈ scheduled_running_reqs p /\ b <> v) as Hin.
      { intros b Hb. split; [rewrite Hperm; by right|]. intros ->. pose proof (ac_nodup _ _ _ A) as Hnd. rewrite Hsch, Hperm in Hnd.
        by apply NoDup_cons in Hnd as [? _]. }
      split; cbn [fst snd].
      * split; rewrite ?Hidx; try done.
        -- intros b Hb. rewrite Hsch' in Hb. apply Hin in Hb as [Hb Hbv]. apply V4; [by rewrite Hsch|done].
        -- intros b Hb. apply Hin in Hb as [Hb Hbv]. by apply V5.
        -- intros b ob Hb Hnb. apply (ready_kept s p s' I4 Hsub eq_refl eq_refl b ob Hb). rewrite Hsch, Hperm, not_elem_of_cons, <- Hsch'.
           split; [|done]. by intros ->.
        -- rewrite Hpre. done.
      * by exists l1, l2.
      * split; [by split|done].
      * intros Hav. unfold current. rewrite Hidx. by apply V6.
      * rewrite Hidx. done.
      * exists o. done.
    + apply wp_ret. cbn [fst snd]. split; cbn [fst snd].
      * split; try done.
        -- intros b Hb. change (scheduled (ps_index i p)) with (scheduled p) in Hb. apply V4; [done|]. intros ->. by rewrite Hsch in Hb.
        -- intros b Hb. apply V5; [done|]. by intros ->.
        -- intros b ob Hb Hnb. by apply (ready_kept s p s' I4 Hsub eq_refl eq_refl b ob Hb).
      * by exists l1, l2.
      * done.
      * intros Hav. by apply V6.
      * done.
      * exists o. done.
Qed.

Lemma lifecycle_kv_grow D s k :
  lifecycle D s -> kv_wf k -> (forall q, kv_holds k q -> q ∈ (requests s).*1) -> lifecycle D (set_kv k s).
Proof. intros [? ? ? ? ? ? ? ? L ? [? ? ? ?]] Hk Hh. by split. Qed.

(** What the other requests and services see of a preemption or an allocation. *)
Record aside (s s' : Sched) : Prop := {
  as_identity : same_identity s s';
  as_ec : ec_connector s' = ec_connector s;
  as_conn : connector s' = connector s;
  as_rest : pause_state s' = pause_state s /\ current_step s' = current_step s /\ prefill_capacity_bound s' = prefill_capacity_bound s
}.

Lemma aside_trans s1 s2 s3 : aside s1 s2 -> aside s2 s3 -> aside s1 s3.
Proof.
  intros [[A1 A2 A3] A4 A5 (A6 & A7 & A8)] [[B1 B2 B3] B4 B5 (B6 & B7 & B8)]. split; [|congruence..|by rewrite B6, B7, B8].
  split; [congruence|intros a; by rewrite B2|intros a; by rewrite B3].
Qed.

Lemma preempted_identity s (s' : Sched) drop v o :
  objs s !! v = Some o -> objs s' = <[v := preempted drop o]> (objs s) -> requests s' = requests s -> same_identity s s'.
Proof.
  intros Ho E1 E2. assert (forall b, request_id (deref s' b) = request_id (deref s b) /\ mm_features (deref s' b) = mm_features (deref s b)) as Hb.
  { intros b. unfold deref. rewrite E1. destruct (decide (b = v)) as [->|Hne]; [by rewrite lookup_insert_eq, Ho|by rewrite lookup_insert_ne]. }
  split; [done|intros b; apply Hb|intros b; apply Hb].
Qed.

Lemma running_tracked D s b : lifecycle D s -> b ∈ running s -> exists o, tracked s b o /\ object_ok o /\ so_status o = RUNNING.
Proof.
  intros L Hb. assert (b ∈ queued s) as Hq by (unfold queued; apply elem_of_app; by left).
  apply (lc_queued _ _ _ L) in Hq as (_ & o & Ht & _). pose proof Ht as [Ho Hg].
  destruct (lc_objs _ _ _ L _ _ Hg) as (o1 & Ho1 & _ & Hok). rewrite Ho in Ho1. injection Ho1 as <-.
  exists o. split_and!; [done|done|by apply (lc_running _ _ _ L b)].
Qed.

(** Preempt the victim that was taken. *)
Lemma preempt_pass s p v o drop :
  pass_ok [v] s p -> tracked s v o -> so_status o = RUNNING -> v ∉ running s ->
  wp (preempt_request v drop) (fun _ s' => pass_ok [] s' (ps_preempted (preempted_reqs p ++ [v]) p) /\ aside s s' /\
    running s' = running s /\ (forall b, b <> v -> objs s' !! b = objs s !! b) /\
    forall r l, request_id r <> so_id o -> en_pending (encoder_cache_manager s) r l -> en_pending (encoder_cache_manager s') r l) s.
Proof.
  intros [L A I1 I2 I3 I4 I5] Ht Hst Hv. pose proof Ht as [Ho Hg].
  destruct (lc_objs _ _ _ L _ _ Hg) as (o1 & Ho1 & _ & Hok). rewrite Ho in Ho1. injection Ho1 as <-.
  eapply wp_mono; [apply (preempt_request_spec cfg [] s v o drop L); [apply not_elem_of_nil|done|done]|].
  intros [] s' [L' [T1 T2 T3 T4 T5 T6 T7 T8 T9 T10 T11 T12 T13]].
  assert (same_identity s s') as Hid by by eapply preempted_identity.
  assert (forall b, b <> v -> objs s' !! b = objs s !! b) as Hobj by (intros b Hb; by rewrite T1, lookup_insert_ne).
  split_and!; [|done|done|done|].
  - split; rewrite ?T3; try done.
    + pose proof (accounts_same cfg s s' p Hid A) as A'. by destruct A'; split.
    + intros b p0 Hb Hn Hp0. assert (b <> v) as Hbv by (by intros ->). rewrite Hobj in Hp0 by done.
      destruct (I4 b p0 Hb Hn Hp0) as [R1 R2 R3]. split; [|done|done].
      destruct (running_tracked [v] s b L Hb) as (p1 & [Hp1 Hg1] & _). rewrite Hp0 in Hp1. injection Hp1 as <-.
      pose proof (kvl_ready_free (sr_request o) (last_sched_seq o) (sr_request p0) (kv_cache_manager s) (pw_kv _ _ (lc_parts _ _ _ L)) R1) as Hw.
      unfold wp in Hw. rewrite T9 in Hw. apply Hw. intros Heq. apply Hbv. change (so_id p0 = so_id o) in Heq. congruence.
    + cbn. intros b. destruct T5 as [T5 _]. rewrite T5, elem_of_cons, elem_of_app, list_elem_of_singleton.
      intros [Hb|Hb]; [right; by apply I5|by left].
  - intros r l Hr Hpend.
    pose proof (enl_pending_free (sr_request o) r l (encoder_cache_manager s) (pw_enc _ _ (lc_parts _ _ _ L)) (ob_known _ Hok) Hr Hpend) as Hw.
    unfold wp in Hw. by rewrite T10 in Hw.
Qed.

(** One call of [allocate_slots] for the current request. *)
Lemma grow_pass s p a o n :
  pass_ok [] s p -> a ∈ running s -> a ∉ scheduled p -> objs s !! a = Some o -> 0 < n ->
  wp (on_kv_request a (kv_allocate_slots n 0 None (num_lookahead_tokens cfg) 0 false 0 false 0 true))
    (fun _ s' => pass_ok [] s' p /\ aside s s' /\ running s' = running s /\ encoder_cache_manager s' = encoder_cache_manager s /\ quiet s s' /\
      exists r, objs s' = <[a := so_set_request r o]> (objs s) /\ same_but_memo (sr_request o) r) s.
Proof.
  intros [L A I1 I2 I3 I4 I5] Ha Hna Ho Hn. destruct (running_tracked [] s a L Ha) as (o1 & [Ho1 Hg] & Hok & Hst).
  rewrite Ho in Ho1. injection Ho1 as <-. destruct (I4 a o Ha Hna Ho) as [R1 R2 R3].
  unfold on_kv_request. apply wp_bind. eapply wp_obj; [done|]. apply wp_zoom.
  eapply wp_mono; [apply kvl_grow; [apply L|done|done|apply cfg_ok]|]. intros res [k r] (Hk & Hm & Hr & Hh & Hother). cbn in Hk, Hm, Hr, Hh. cbn [fst snd] in Hother |- *.
  assert (request_id r = request_id (sr_request o) /\ status r = status (sr_request o) /\ mm_features r = mm_features (sr_request o) /\
    num_computed_tokens r = num_computed_tokens (sr_request o) /\ num_tokens r = num_tokens (sr_request o)) as (M1 & M2 & M3 & M4 & M5).
  { unfold same_but_memo in Hm. by rewrite Hm. }
  set (s' := set_objs (<[a := so_set_request r o]> (objs s)) (set_kv k s)).
  assert (same_identity s s') as Hid.
  { split; [done|..]; intros b; unfold rid_of, deref, s'; cbn; (destruct (decide (b = a)) as [->|Hne]; [by rewrite lookup_insert_eq, Ho|by rewrite lookup_insert_ne]). }
  split_and!; [|done|done|done| |by exists r].
  2:{ split; try done; [|apply Hid|].
      - intros b Hb. unfold s'. cbn. by rewrite lookup_insert_ne by (by intros ->).
      - apply (kv_kept_weaken (fun r' => request_id r' <> request_id (sr_request o))); [|done]. intros r' Hr' Heq. apply (Hr' a Ha).
        unfold rid_of, deref. by rewrite Ho, Heq. }
  split; try done.
  - apply (lifecycle_touch cfg [] (set_kv k s) a o); [|done|exact M1|exact M2|by apply memo_object_ok].
    apply lifecycle_kv_grow; [done|done|]. intros q [Hq| ->]%Hh; [by apply L|]. by eapply od_get_key.
  - by apply (accounts_same cfg s).
  - intros b p0 Hb Hnb. unfold s'. cbn. destruct (decide (b = a)) as [->|Hne].
    + rewrite lookup_insert_eq. intros [= <-]. split; cbn; [done| |by rewrite M4]. unfold num_tokens_with_spec in *. cbn. by rewrite M4, M5.
    + rewrite lookup_insert_ne by done. intros Hp0. destruct (I4 b p0 Hb Hnb Hp0) as [Q1 Q2 Q3]. split; [|done|done]. cbn. apply (Hother (sr_request p0)); [|done].
      destruct (running_tracked [] s b L Hb) as (p1 & [Hp1 Hg1] & _). rewrite Hp0 in Hp1. injection Hp1 as <-.
      intros Heq. change (so_id p0 = so_id o) in Heq. rewrite Heq in Hg1. congruence.
Qed.

Definition memo_of (o : SReq) (o' : SReq) : Prop := exists r, o' = so_set_request r o /\ same_but_memo (sr_request o) r.

Lemma memo_of_trans o1 o2 o3 : memo_of o1 o2 -> memo_of o2 o3 -> memo_of o1 o3.
Proof.
  intros (r1 & -> & H1') (r2 & -> & H2'). exists r2. split; [done|]. cbn in H2'. unfold same_but_memo in *. rewrite H2', H1'. done.
Qed.

(** The preemption loop ends: with the blocks, or with the request preempted. *)
Lemma allocate_or_preempt_spec fuel r0 : forall s p a o n l,
  pass_ok [] s p -> scheduled_new_reqs p = [] -> scheduled_resumed_reqs p = [] -> current s p a -> objs s !! a = Some o -> 0 < n ->
  (length (running s) <= fuel)%nat -> request_id r0 = so_id o -> pend (encoder_cache_manager s) r0 l ->
  wp (allocate_or_preempt cfg fuel a n p) (fun res s' => pass_ok [] s' res.2 /\ first_pass p res.2 /\ aside s s' /\
    (forall b, b ∈ running s' -> b ∈ running s) /\
    (preempted_reqs res.2 = [] -> preempted_reqs p = [] /\ quiet s s') /\
    match res.1 with
    | Some _ => current s' res.2 a /\ (exists o', objs s' !! a = Some o' /\ memo_of o o') /\
        pend (encoder_cache_manager s') r0 l /\
        zlen (running s') - req_index res.2 <= zlen (running s) - req_index p
    | None => preempted_reqs res.2 <> []
    end) s.
Proof.
  induction fuel as [|fuel IH]; intros s p a o n l Hp Hnew Hres Hc Ho Hn Hfuel Hr0 Hl.
  { apply lookup_lt_Some in Hc. lia. }
  pose proof (list_elem_of_lookup_2 _ _ _ Hc) as Ha. pose proof (current_unscheduled s p a Hp Hnew Hres Hc) as Hna.
  cbn [allocate_or_preempt]. apply wp_bind. eapply wp_mono; [by apply (grow_pass s p a o n)|].
  intros [b|] s1 (Hp1 & Ha1 & Hr1 & He1 & Hqt & r & Ho1 & Hm).
  { apply wp_ret. cbn [fst snd]. split_and!; [done|apply first_pass_refl|done|by rewrite Hr1|done|by unfold current; rewrite Hr1| |by rewrite He1|by rewrite Hr1].
    exists (so_set_request r o). rewrite Ho1, lookup_insert_eq. split; [done|by exists r]. }
  assert (current s1 p a) as Hc1 by (unfold current; by rewrite Hr1).
  apply wp_bind. eapply wp_mono; [by apply (take_victim_spec s1 p a)|]. intros [v p1] s2 [W1 (l1 & l2 & Hl12 & Hs2) [W3 W3'] W4 W5 (ov & Htv & Hstv & Hnv)].
  cbn [fst snd] in *. apply wp_bind.
  assert (tracked s2 v ov) as Htv2 by (by rewrite Hs2).
  eapply wp_mono; [by apply (preempt_pass s2 p1 v ov)|]. intros [] s3 (Hp3 & Ha3 & Hr3 & Hobj3 & Hpend3).
  assert (aside s s3) as Has by (eapply aside_trans; [done|]; eapply aside_trans; [|done]; by rewrite Hs2).
  assert (forall b, b ∈ running s3 -> b ∈ running s) as Hsub.
  { intros b. rewrite Hr3, Hs2, <- Hr1, Hl12. cbn. rewrite !elem_of_app, elem_of_cons. tauto. }
  destruct (Z.eqb_spec v a) as [->|Hva].
  { apply wp_ret. cbn [fst snd]. split_and!; [done|by destruct W3; split|done|done|..]; cbn; by destruct (preempted_reqs p1). }
  assert (objs s3 !! a = Some (so_set_request r o)) as Ho3 by (rewrite Hobj3 by done; by rewrite Hs2; cbn; rewrite Ho1, lookup_insert_eq).
  assert (request_id r0 <> so_id ov) as Hids.
  { destruct (running_tracked [] s1 a (po_inv _ _ _ _ Hp1) ltac:(by rewrite Hr1)) as (oa & Hta & _).
    assert (oa = so_set_request r o) as ->. { destruct Hta as [Hta _]. rewrite Ho1, lookup_insert_eq in Hta. congruence. }
    intros Heq. apply Hva. symmetry. apply (tracked_inj cfg [] s1 a v _ _ (po_inv _ _ _ _ Hp1) Hta Htv).
    rewrite <- Heq, Hr0. unfold so_id. cbn. unfold same_but_memo in Hm. by rewrite Hm. }
  eapply wp_mono; [apply (IH s3 (ps_preempted (preempted_reqs p1 ++ [v]) p1) a (so_set_request r o) n l)|].
  - done.
  - cbn. by rewrite (fp_new _ _ W3).
  - cbn. by rewrite (fp_resumed _ _ W3).
  - unfold current in *. rewrite Hr3. by apply W4.
  - done.
  - done.
  - rewrite Hr3, Hs2. cbn. rewrite <- Hr1, Hl12, !length_app in Hfuel. cbn in Hfuel. rewrite length_app. lia.
  - rewrite Hr0. unfold so_id. cbn. unfold same_but_memo in Hm. by rewrite Hm.
  - destruct Hl as [->|Hl]; [by left|]. right. apply Hpend3; [done|]. rewrite Hs2. cbn. by rewrite He1.
  - intros res s4 (Q1 & Q2 & Q3 & Q5 & Q6 & Q4). split_and!; [done| |by eapply aside_trans|by intros b Hb; apply Hsub, Q5| |].
    + eapply first_pass_trans; [exact W3|]. by destruct Q2; split.
    + intros Hx. destruct (Q6 Hx) as [Hy _]. cbn in Hy. by destruct (preempted_reqs p1).
    + destruct res.1 as [b|]; [|done]. destruct Q4 as (C1 & (o4 & Ho4 & Hm4) & C3 & C4). split_and!; [done| |done|].
      * exists o4. split; [done|]. eapply memo_of_trans; [|done]. by exists r.
      * cbn in C4. rewrite Hr3 in C4. rewrite <- Hr1. lia.
Qed.

(** ** The parts of a round *)

(** The invariant reads the objects, the dictionary, the lists and the KV cache. *)
Lemma pass_ok_quiet D s s' p :
  pass_ok D s p -> lifecycle D s' -> objs s' = objs s -> requests s' = requests s -> running s' = running s ->
  waiting s' = waiting s -> kv_cache_manager s' = kv_cache_manager s -> pass_ok D s' p.
Proof.
  intros [L A I1 I2 I3 I4 I5] L' E1 E2 E3 E4 E5.
  assert (same_identity s s') as Hid by (split; [done|..]; intros b; unfold rid_of, deref; by rewrite E1).
  split; rewrite ?E3, ?E4; try done; [by apply (accounts_same cfg s)|].
  intros b o Hb Hn Hob. rewrite E1 in Hob. destruct (I4 b o Hb Hn Hob) as [R1 R2 R3]. split; [by rewrite E5|done|done].
Qed.

Lemma pass_ok_budgets D s p t i :
  pass_ok D s p -> 0 <= t <= token_budget p -> 0 <= i <= input_budget p -> pass_ok D s (ps_budgets t i p).
Proof.
  intros [L [A1 A2 A3 A4 A5 A6 A7 A8 A9 A10] I1 I2 I3 I4 I5] Ht Hi. split; try done. split; try done; cbn [token_budget input_budget num_scheduled_tokens ps_budgets]; lia.
Qed.

Lemma pass_ok_next D s p : pass_ok D s p -> req_index p < zlen (running s) -> pass_ok D s (ps_index (req_index p + 1) p).
Proof.
  intros [L [A1 A2 A3 A4 A5 A6 A7 A8 A9 A10] I1 I2 I3 I4 I5] Hi. split; try done; cbn; [lia|].
  intros b Hb%I3. apply list_elem_of_lookup in Hb as [j Hj]. apply lookup_take_Some in Hj as [Hj Hlt].
  apply list_elem_of_lookup. exists j. apply lookup_take_Some. split; [done|lia].
Qed.

Lemma parts_fine D s p : pass_ok D s p -> en_wf (encoder_cache_manager s) /\ ec_fine (ec_connector s).
Proof. intros Hp. pose proof (lc_parts _ _ _ (po_inv _ _ _ _ Hp)) as [_ P2 _ P4]. by split. Qed.

Lemma pass_ok_ec D s p x : pass_ok D s p -> ec_fine x -> pass_ok D (set_ec x s) p.
Proof.
  intros Hp Hx. apply (pass_ok_quiet D s); try done. pose proof (po_inv _ _ _ _ Hp) as L.
  destruct L as [? ? ? ? ? ? ? ? ? ? [? ? ? ?]]. by split.
Qed.

Lemma pass_ok_sets D s p x : pass_ok D s p -> pass_ok D (set_sets x s) p.
Proof. intros Hp. apply (pass_ok_quiet D s); try done. apply lifecycle_sets, Hp. Qed.

(** The chunk fits the budgets. *)
Lemma running_chunk_spec s p o :
  runnable cfg s o -> 0 < token_budget p -> draft_slots cfg < input_budget p ->
  wp (running_chunk cfg o p) (fun np s' => (exists x, s' = set_sets (ss_exl3_int8_prefill_requests x (sets s)) s) /\
    (exists t i, np.2 = ps_budgets t i p /\ 0 < t <= token_budget p /\ draft_slots cfg < i <= input_budget p) /\
    0 <= np.1 <= token_budget np.2 /\ np.1 + draft_slots cfg <= input_budget np.2) s.
Proof.
  intros [R1 R2 R3] Ht Hi. unfold running_chunk. cbv zeta. apply wp_bind.
  eapply wp_mono; [by apply clamp_budgets_spec|]. intros p' s' ([x ->] & t & i & -> & Ht' & Hi'). cbn [token_budget input_budget ps_budgets].
  set (m := if _ && _ then _ else _). assert (0 <= m) as Hm by (unfold m; pose proof (ck_threshold _ cfg_ok); destruct (_ && _); lia).
  set (n := Z.min (Z.min m _) _). assert (0 <= n /\ n <= t /\ n + draft_slots cfg <= i) as (Hn0 & Hn1 & Hn2) by (unfold n; lia).
  apply wp_bind. eapply wp_mono; [apply align_split_spec; [done|lia|done]|]. intros n' s1 [-> Hn']. apply wp_ret. cbn.
  split_and!; [by eexists|by eexists _, _|lia..].
Qed.

Lemma lifecycle_enc_grow s e :
  lifecycle [] s -> en_wf e ->
  (forall q, en_holds e q -> en_holds (encoder_cache_manager s) q \/ exists a o, tracked s a o /\ so_id o = q /\ so_finished o = false) ->
  lifecycle [] (set_enc e s).
Proof.
  intros [? ? ? ? ? ? ? ? ? L [? ? ? ?]] Hk Hh. split; try done. intros rid Hr. destruct (Hh rid Hr) as [Hq|(a & o & Ht & Hid & Hf)]; [by apply L|].
  exists a, o. split_and!; [done|done|by left].
Qed.

(** Calls of the encoder cache for a running request. *)
Lemma enc_pass s p a o e :
  pass_ok [] s p -> a ∈ running s -> objs s !! a = Some o -> enc_grown (so_id o) (encoder_cache_manager s) e ->
  pass_ok [] (set_enc e s) p.
Proof.
  intros Hp Ha Ho [He Hh]. apply (pass_ok_quiet [] s); try done. apply lifecycle_enc_grow; [apply Hp|done|].
  intros q [Hq| ->]%Hh; [by left|right]. destruct (running_tracked [] s a (po_inv _ _ _ _ Hp) Ha) as (o1 & [Ho1 Hg] & _ & Hst).
  rewrite Ho in Ho1. injection Ho1 as <-. exists a, o. split_and!; [by split|done|]. unfold so_finished. by rewrite Hst.
Qed.

(** The current request is scheduled. *)
Lemma record_running_spec s p a n b :
  pass_ok [] s p -> scheduled_new_reqs p = [] -> scheduled_resumed_reqs p = [] -> current s p a ->
  0 < n <= token_budget p -> n + draft_slots cfg <= input_budget p ->
  wp (record_running cfg a n b p) (fun p' s' => s' = s /\ pass_ok [] s p' /\ a ∈ scheduled p' /\
    scheduled_new_reqs p' = [] /\ scheduled_resumed_reqs p' = [] /\ req_index p' = req_index p + 1 /\ preempted_reqs p' = preempted_reqs p) s.
Proof.
  intros Hp Hnew Hres Hc Hn Hi. pose proof (current_unscheduled s p a Hp Hnew Hres Hc) as Hna. pose proof (list_elem_of_lookup_2 _ _ _ Hc) as Ha.
  pose proof Hp as [L A I1 I2 I3 I4 I5]. destruct (running_tracked [] s a L Ha) as (o & [Ho Hg] & Hok & Hst).
  assert (rid_of s a = so_id o) as Hrid by (unfold rid_of, deref; by rewrite Ho).
  unfold record_running. apply wp_bind. eapply wp_obj; [done|]. apply wp_ret.
  match goal with |- context [pass_ok [] s ?q] => set (p' := q) end.
  assert (scheduled p' ≡ₚ a :: scheduled p) as Hsch by (unfold scheduled, p'; cbn; by rewrite <- (Permutation_cons_append (scheduled_running_reqs p) a)).
  assert (Z.to_nat (req_index p + 1) = S (Z.to_nat (req_index p))) as Hidx by lia.
  split_and!; [done| |rewrite Hsch; by left|done|done|done|done]. split; try done.
  - rewrite <- Hrid in Hg. apply (accounts_add cfg s p p' a n b); try done; unfold p'; cbn; by rewrite Hrid.
  - unfold p'. cbn. apply lookup_lt_Some in Hc. unfold zlen. lia.
  - intros c. rewrite Hsch, elem_of_cons. intros [->|Hcs]; [done|by apply I2].
  - unfold p'. cbn. rewrite Hidx, (take_S_r _ _ _ Hc). intros c. rewrite !elem_of_app, list_elem_of_singleton. intros [Hcs|Hcs]; [left; by apply I3|by right].
  - intros c oc Hcr Hcs. rewrite Hsch, not_elem_of_cons in Hcs. destruct Hcs. by apply I4.
Qed.

(** An object of a scheduled request may change what the invariant does not read. *)
Lemma touch_pass s p a o o' :
  pass_ok [] s p -> a ∈ scheduled p -> objs s !! a = Some o -> so_id o' = so_id o -> so_status o' = so_status o ->
  mm_features (sr_request o') = mm_features (sr_request o) -> (object_ok o -> object_ok o') ->
  pass_ok [] (set_objs (<[a := o']> (objs s)) s) p.
Proof.
  intros [L A I1 I2 I3 I4 I5] Ha Ho Hid Hst Hmm Hok. set (s' := set_objs _ s).
  assert (same_identity s s') as Hsame.
  { split; [done|..]; intros b; unfold rid_of, deref, s'; cbn; (destruct (decide (b = a)) as [->|Hne]; [by rewrite lookup_insert_eq, Ho|by rewrite lookup_insert_ne]). }
  split; try done; [by apply (lifecycle_touch cfg [] s a o)|by apply (accounts_same cfg s)|].
  intros b ob Hb Hn. unfold s'. cbn. rewrite lookup_insert_ne by (by intros ->). intros Hob. by destruct (I4 b ob Hb Hn Hob).
Qed.

Lemma pass_ok_spec D s p t i : pass_ok D s p -> pass_ok D s (ps_spec t i p).
Proof. intros [L [A1 A2 A3 A4 A5 A6 A7 A8 A9 A10] I1 I2 I3 I4 I5]. by split. Qed.

Lemma schedule_drafts_spec s p a o n :
  pass_ok [] s p -> a ∈ scheduled p -> objs s !! a = Some o ->
  wp (schedule_drafts a n p) (fun p' s' => pass_ok [] s' p' /\ (exists t i, p' = ps_spec t i p) /\
    exists o', s' = set_objs (<[a := o']> (objs s)) s /\ sr_request o' = sr_request o) s.
Proof.
  intros Hp Ha Ho. unfold schedule_drafts. apply wp_bind. eapply wp_obj; [done|]. destruct (spec_token_ids o) as [|t ts] eqn:Et.
  - apply wp_ret. split_and!; [done|by exists (scheduled_spec_decode_tokens p), (scheduled_spec_decode_step_ids p); destruct p|].
    exists o. rewrite insert_id by done. by destruct s.
  - cbv zeta. apply wp_bind. eapply wp_modify_obj; [done|]. apply wp_ret.
    assert (pass_ok [] (set_objs (<[a := so_set_spec [] None o]> (objs s)) s) p) as Hp'.
    { apply (touch_pass s p a o); try done. intros [[S1 S2] B2 B3]. split; [by split|done|done]. }
    split_and!; [|destruct (0 <? _); [by eexists _, _|]|by exists (so_set_spec [] None o)].
    + destruct (0 <? _); [by apply pass_ok_spec|done].
    + by exists (scheduled_spec_decode_tokens p), (scheduled_spec_decode_step_ids p); destruct p.
Qed.

(** The encoder inputs of a scheduled request. *)
Lemma inputs_pass s p a o r inputs ext budget :
  pass_ok [] s p -> a ∈ running s -> a ∈ scheduled p -> objs s !! a = Some o -> request_id r = so_id o ->
  mm_features r = mm_features (sr_request o) -> en_knows r -> valid_inputs r inputs -> 0 <= budget ->
  pend (encoder_cache_manager s) r (inputs ++ ext) ->
  wp (allocate_encoder_inputs r inputs ext budget p) (fun p' s' => pass_ok [] s' p' /\
    (exists e x, s' = set_ec x (set_enc e s)) /\ exists l b, p' = ps_encoder_budget b (ps_encoder_inputs l p)) s.
Proof.
  intros Hp Hrun Ha Ho Hr Hm Hk Hv Hb Hl. destruct (parts_fine [] s p Hp) as [He Hx].
  eapply wp_mono; [by apply allocate_inputs_spec|]. intros p' s' ((e & x & -> & Hg & Hx') & Hcase). rewrite Hr in Hg.
  assert (pass_ok [] (set_ec x (set_enc e s)) p) as Hp' by (apply pass_ok_ec; [by apply (enc_pass s p a o)|done]).
  split_and!; [|by exists e, x|].
  - destruct Hcase as [->| ->]; [done|]. destruct Hp' as [L A I1 I2 I3 I4 I5]. split; try done. by apply (accounts_inputs cfg _ p a o).
  - destruct Hcase as [->| ->]; [|by eexists _, _]. exists (scheduled_encoder_inputs p), (encoder_compute_budget p). by destruct p.
Qed.

(** ** The loop *)

(** What a part of the first loop may do to the rest of the state. *)
Record passed (s : Sched) (p : Pass) (s' : Sched) (p' : Pass) : Prop := {
  pd_identity : same_identity s s';
  pd_running : forall b, b ∈ running s' -> b ∈ running s;
  pd_conn : is_Some (connector s) <-> is_Some (connector s');
  pd_rest : pause_state s' = pause_state s /\ current_step s' = current_step s /\ prefill_capacity_bound s' = prefill_capacity_bound s;
  pd_quiet : preempted_reqs p' = [] -> preempted_reqs p = [] /\ quiet s s'
}.

Lemma passed_refl s p : passed s p s p.
Proof. by split; try split; try apply quiet_refl. Qed.
Lemma passed_trans s1 s2 s3 p1 p2 p3 : passed s1 p1 s2 p2 -> passed s2 p2 s3 p3 -> passed s1 p1 s3 p3.
Proof.
  intros [[A1 A2 A3] A4 A5 (A6 & A7 & A8) A9] [[B1 B2 B3] B4 B5 (B6 & B7 & B8) B9]. split; [|auto|by rewrite A5|by rewrite B6, B7, B8|].
  - split; [congruence|intros a; by rewrite B2|intros a; by rewrite B3].
  - intros Hp. destruct (B9 Hp) as [Hp2 Hq2]. destruct (A9 Hp2). split; [done|by eapply quiet_trans].
Qed.

(** The preempted requests are the same and the state changed in parts that
    waiting requests do not read. *)
Lemma passed_quiet s s' p p' :
  same_identity s s' -> quiet s s' -> preempted_reqs p' = preempted_reqs p -> (is_Some (connector s) <-> is_Some (connector s')) ->
  pause_state s' = pause_state s /\ current_step s' = current_step s /\ prefill_capacity_bound s' = prefill_capacity_bound s -> passed s p s' p'.
Proof.
  intros Hi Hq Hp Hc Hr. split; try done; [by rewrite (qt_running _ _ Hq)|by rewrite Hp].
Qed.

Lemma passed_object s (s' : Sched) p p' a o o' :
  a ∈ running s -> objs s !! a = Some o -> s' = set_objs (<[a := o']> (objs s)) s -> sr_request o' = sr_request o ->
  preempted_reqs p' = preempted_reqs p -> passed s p s' p'.
Proof.
  intros Ha Ho -> Hr Hp.
  assert (same_identity s (set_objs (<[a := o']> (objs s)) s)) as Hid.
  { split; [done|..]; intros b; unfold rid_of, deref; cbn; (destruct (decide (b = a)) as [->|Hne]; [by rewrite lookup_insert_eq, Ho, Hr|by rewrite lookup_insert_ne]). }
  apply passed_quiet; try done. split; try done; [|apply Hid]. intros b Hb. cbn. by rewrite lookup_insert_ne by (by intros ->).
Qed.

Lemma aside_passed s s' p p' :
  aside s s' -> (forall b, b ∈ running s' -> b ∈ running s) -> (preempted_reqs p' = [] -> preempted_reqs p = [] /\ quiet s s') -> passed s p s' p'.
Proof. intros [? ? Hc ?] ? ?. split; try done. by rewrite Hc. Qed.

(** Changes of the encoder cache, the EC connector and the sets of the EXL3 kernel. *)
Lemma passed_parts s p p' e x y :
  preempted_reqs p' = preempted_reqs p -> passed s p (set_enc e (set_sets (ss_exl3_int8_prefill_requests y (sets s)) (set_ec x s))) p'.
Proof. intros Hp. by apply passed_quiet; try split. Qed.

(** The state of the first loop between rounds. *)
Record first_ok (s : Sched) (p : Pass) : Prop := {
  fo_pass : pass_ok [] s p;
  fo_new : scheduled_new_reqs p = [];
  fo_resumed : scheduled_resumed_reqs p = []
}.

(** The end of a round that has the blocks. *)
Lemma scheduled_round s p a o r n b inputs ext budget :
  first_ok s p -> current s p a -> objs s !! a = Some o -> request_id r = so_id o ->
  mm_features r = mm_features (sr_request o) -> en_knows r -> valid_inputs r inputs -> 0 <= budget ->
  pend (encoder_cache_manager s) r (inputs ++ ext) -> 0 < n <= token_budget p -> n + draft_slots cfg <= input_budget p ->
  wp (p ← record_running cfg a n b p; p ← schedule_drafts a n p; p ← allocate_encoder_inputs r inputs ext budget p; mret (true, p))
    (fun gp s' => first_ok s' gp.2 /\ passed s p s' gp.2 /\ running s' = running s /\ req_index gp.2 = req_index p + 1) s.
Proof.
  intros [Hp Hnew Hres] Hc Ho Hr Hm Hk Hv Hb Hl Hn Hi. pose proof (list_elem_of_lookup_2 _ _ _ Hc) as Ha.
  apply wp_bind. eapply wp_mono; [by apply record_running_spec|]. intros p1 s1 (-> & Hp1 & Has & N1 & N2 & N3 & N4).
  apply wp_bind. eapply wp_mono; [by apply (schedule_drafts_spec s p1 a o)|]. intros p2 s2 (Hp2 & (t & i & ->) & o' & Hs2 & Hro).
  pose proof (passed_object s s2 p (ps_spec t i p1) a o o' Ha Ho Hs2 Hro N4) as Hpd. apply wp_bind.
  eapply wp_mono; [apply (inputs_pass s2 (ps_spec t i p1) a o' r inputs ext budget); try done|].
  - by rewrite Hs2.
  - rewrite Hs2. cbn. apply lookup_insert_eq.
  - unfold so_id in *. by rewrite Hro.
  - by rewrite Hro.
  - by rewrite Hs2.
  - intros p3 s3 (Hp3 & (e & x & ->) & l & bb & ->). apply wp_ret. cbn [fst snd].
    split_and!; [by split| |by rewrite Hs2|done]. eapply passed_trans; [exact Hpd|].
    by apply passed_quiet; try split.
Qed.

Lemma run_one_spec defer s p a :
  first_ok s p -> current s p a -> 0 < token_budget p ->
  wp (run_one cfg defer a p) (fun gp s' => first_ok s' gp.2 /\ passed s p s' gp.2 /\
    (gp.1 = true -> zlen (running s') - req_index gp.2 < zlen (running s) - req_index p)) s.
Proof.
  intros Hf Hc Ht. pose proof Hf as [Hp Hnew Hres]. pose proof (list_elem_of_lookup_2 _ _ _ Hc) as Ha.
  destruct (running_tracked [] s a (po_inv _ _ _ _ Hp) Ha) as (o & [Ho Hg] & Hok & Hst).
  pose proof (current_unscheduled s p a Hp Hnew Hres Hc) as Hna. destruct (po_ready _ _ _ _ Hp a o Ha Hna Ho) as [R1 R2 R3].
  assert (req_index p < zlen (running s)) as Hidx by (apply lookup_lt_Some in Hc; pose proof (po_index _ _ _ _ Hp); unfold zlen; lia).
  assert (forall s1 q, pass_ok [] s1 q -> req_index q = req_index p -> running s1 = running s -> scheduled_new_reqs q = [] -> scheduled_resumed_reqs q = [] ->
    passed s p s1 (ps_index (req_index p + 1) q) -> wp (mret (true, ps_index (req_index p + 1) q)) (fun gp s' => first_ok s' gp.2 /\ passed s p s' gp.2 /\
    (gp.1 = true -> zlen (running s') - req_index gp.2 < zlen (running s) - req_index p)) s1) as Hskip.
  { intros s1 q Hq Hqi Hrun Q1 Q2 Hpd. apply wp_ret. cbn [fst snd]. split_and!; [|done|cbn; rewrite Hrun; lia].
    split; [|done|done]. rewrite <- Hqi. apply pass_ok_next; [done|]. rewrite Hqi, Hrun. lia. }
  unfold run_one. destruct (Z.leb_spec (input_budget p) (draft_slots cfg)) as [Hi|Hi].
  { apply wp_ret. cbn [fst snd]. split_and!; [done|apply passed_refl|done]. }
  apply wp_bind. eapply wp_obj; [done|]. apply wp_bind, wp_get. cbv zeta.
  destruct (skips_step defer s o); [by apply Hskip; try done; destruct (passed_refl s p)|].
  destruct (parts_fine [] s p Hp) as [Hef Hxf].
  apply wp_bind. eapply wp_mono; [by apply ec_pending_spec|]. intros pending s1 (x & -> & Hx). pose proof (pass_ok_ec [] s p x Hp Hx) as Hp1.
  destruct pending; [apply Hskip; try done; by apply passed_quiet; try split|].
  apply wp_bind. eapply wp_mono; [apply (running_chunk_spec (set_ec x s) p o); [by split|done|done]|].
  intros [n p1] s2 ((y & ->) & (t & i & Ep1 & Ht1 & Hi1) & Hn & Hni). cbn [fst snd] in *. pose proof (ck_slots _ cfg_ok) as Hds.
  assert (pass_ok [] (set_sets (ss_exl3_int8_prefill_requests y (sets s)) (set_ec x s)) p1) as Hp2 by (rewrite Ep1; apply pass_ok_budgets; [by apply pass_ok_sets|lia|lia]).
  apply wp_bind. eapply wp_mono; [apply schedule_encoder_spec; [done|done|apply Hok|lia|lia|apply Hp2]|].
  intros [[[inputs n'] budget] ext] s3 (e & -> & Hge & Hn' & Hbud & Hval & Hpend & _).
  assert (pass_ok [] (set_enc e (set_sets (ss_exl3_int8_prefill_requests y (sets s)) (set_ec x s))) p1) as Hp3 by by apply (enc_pass _ p1 a o).
  pose proof (reserve_bounds cfg (sr_request o) (num_computed_tokens (sr_request o)) n' ltac:(lia)) as Hres'.
  set (m := reserve_prefill_lookahead _ _ _ n') in *. destruct (Z.eqb_spec m 0) as [Hm|Hm].
  { rewrite Ep1 in *. by apply (Hskip _ (ps_budgets t i p)); try apply passed_parts. }
  apply wp_bind, wp_get, wp_bind.
  eapply wp_mono; [apply (allocate_or_preempt_spec _ (sr_request o) _ p1 a o m (inputs ++ ext)); try done|].
  - by rewrite Ep1.
  - by rewrite Ep1.
  - unfold current. cbn. by rewrite Ep1.
  - lia.
  - apply Hpend. lia.
  - intros [res p4] s4 (Hp4 & Hfp & Has & Hsub & Hqt & Hcase). cbn [fst snd] in *. destruct Hfp as [F1 F2 F3 F4].
    assert (passed s p s4 p4) as Hpd.
    { eapply (passed_trans s _ s4 p p1 p4); [exact (passed_parts s p p1 e x y ltac:(by rewrite Ep1))|by apply aside_passed]. }
    assert (first_ok s4 p4) as Hf4 by (split; [done|rewrite F1, Ep1; done|rewrite F2, Ep1; done]).
    destruct res as [b|].
    + destruct Hcase as (Hc4 & (o4 & Ho4 & (r4 & -> & Hm4)) & Hpend4 & Hmeas). unfold same_but_memo in Hm4.
      eapply wp_mono; [apply (scheduled_round s4 p4 a (so_set_request r4 o) (sr_request o) m b inputs ext budget); try done|].
      * unfold so_id. cbn. by rewrite Hm4.
      * cbn. by rewrite Hm4.
      * apply Hok.
      * lia.
      * lia.
      * intros gp s5 (W1 & W2 & W3 & W4). split_and!; [done|by eapply passed_trans|]. intros _. rewrite W3, W4.
        cbn in Hmeas. rewrite Ep1 in Hmeas. cbn in Hmeas. lia.
    + apply wp_ret. cbn [fst snd]. done.
Qed.

(** The first loop of [schedule] ends within its fuel. *)
Lemma running_loop_spec defer fuel : forall s p,
  first_ok s p -> (Z.to_nat (zlen (running s) - req_index p) <= fuel)%nat ->
  wp (running_loop cfg defer fuel p) (fun p' s' => first_ok s' p' /\ passed s p s' p') s.
Proof.
  induction fuel as [|fuel IH]; intros s p Hf Hfuel.
  - cbn. apply wp_bind, wp_get. rewrite (proj2 (Z.ltb_ge _ _)) by lia. cbn. apply wp_ret. split; [done|apply passed_refl].
  - cbn. apply wp_bind, wp_get. pose proof (po_index _ _ _ _ (fo_pass _ _ Hf)) as [Hi1 Hi2].
    destruct (Z.ltb_spec (req_index p) (zlen (running s))) as [Hlt|Hge]; cbn [andb]; [|apply wp_ret; split; [done|apply passed_refl]].
    destruct (Z.ltb_spec 0 (token_budget p)) as [Ht|Ht]; [|apply wp_ret; split; [done|apply passed_refl]].
    destruct (lookup_lt_is_Some_2 (running s) (Z.to_nat (req_index p))) as [a Ha]; [unfold zlen in Hlt; lia|].
    rewrite py_index_nonneg by done. apply wp_bind. eapply wp_of_option; [exact Ha|].
    apply wp_bind. eapply wp_mono; [by apply (run_one_spec defer s p a)|]. intros [go p1] s1 (Hf1 & Hpd1 & Hm). cbn [fst snd] in *.
    destruct go; [|by apply wp_ret]. eapply wp_mono; [apply (IH s1 p1 Hf1)|].
    + specialize (Hm eq_refl). lia.
    + intros p2 s2 [Hf2 Hpd2]. split; [done|by eapply passed_trans].
Qed.

End Run.
