(* ===== verification/ScheduleWait.v ===== *)
(** * The second pass of [schedule]: the waiting requests

    The loop over [self.waiting] and [self.skipped_waiting] in
    [Scheduler.schedule] (vllm/v1/core/sched/scheduler.py): promotion of blocked
    requests, prefix-cache and connector lookups, the chunk, admission.  The
    round of the source is cut at its [continue]s and [break]s: a part that may
    leave the round returns an option. *)
From Stdlib Require Import ZArith Lia.
From stdpp Require Import base tactics gmap strings numbers option list.
From S2P Require Import Prelude Blocks Request Hashing Env SchedUtils RequestQueue KVCacheManager OrderedDict SchedEncoder SchedChunk SchedRequest SchedIface Scheduler SchedulePass.

Local Open Scope Z_scope.

(** [connector], for scheduling. *)
Class ConnectorScheduling (C : Type) := {
  cn_supports_divergent_local_hybrid_hits : bool;
  cn_get_num_new_matched_tokens : Request -> Z -> M C (option Z * bool);
  cn_update_state_after_alloc : Request -> KVCacheBlocks -> Z -> M C unit
}.

(** The queue a round takes its request from. *)
Inductive QueueName := QWaiting | QSkipped.

(** What a lookup found: the blocks, the local, external and all computed
    tokens, whether the load is asynchronous, whether the caches were read. *)
Record Found := mkFound {
  new_computed_blocks : KVCacheBlocks;
  num_new_local_computed_tokens : Z;
  num_external_computed_tokens : Z;
  found_computed_tokens : Z;
  load_kv_async : bool;
  did_prefix_cache_lookup : bool
}.

(** What a round will compute. *)
Record Chunk := mkChunk {
  ch_num_new_tokens : Z;
  pad_spec_decode : bool;
  ch_encoder_inputs : list Z;
  ch_external_inputs : list Z;
  ch_encoder_budget : Z
}.

Section Waiting.
Context `{Env} {K E C X : Type} `{KVService K} `{KVScheduling K} `{EncoderService E} `{EncoderCacheOps E}.
Context `{KVConnector C} `{ConnectorScheduling C} `{ECConnector X} `{ECScheduling X}.
Context (cfg : SchedConfig).
Local Abbreviation Sched := (Scheduler K E C X).

(** [_select_waiting_queue_for_scheduling]; [peek_request] reads the head. *)
Definition select_waiting_queue_for_scheduling (s : Sched) : option QueueName :=
  let w := wq_nonempty (waiting s) in
  let k := wq_nonempty (skipped_waiting s) in
  match sc_policy cfg with
  | FCFS => if k then Some QSkipped else if w then Some QWaiting else None
  | PRIORITY =>
      match head (members (waiting s)), head (members (skipped_waiting s)) with
      | Some a, Some b => Some (if ref_lt (deref s) a b then QWaiting else QSkipped)
      | Some _, None => Some QWaiting
      | None, Some _ => Some QSkipped
      | None, None => None
      end
  end.

Definition on_queue {A} (q : QueueName) (c : (Z -> Request) -> M WaitQueue A) : M Sched A :=
  match q with QWaiting => on_waiting c | QSkipped => on_skipped c end.

(** A method call on [step_skipped_waiting], a local queue. *)
Definition on_local {A} (q : WaitQueue) (c : (Z -> Request) -> M WaitQueue A) : M Sched (A * WaitQueue) := fun s =>
  match c (deref s) q with Ok a q' => Ok (a, q') s | Raise e _ => Raise e s end.

(** [request_queue.pop_request(); step_skipped_waiting.prepend_request(request)] *)
Definition skip_request (q : QueueName) (a : Z) (skipped : WaitQueue) : M Sched WaitQueue :=
  _ ← on_queue q wq_pop;
  '(_, skipped) ← on_local skipped (fun d => wq_prepend d a);
  mret skipped.

(** ** Lookup *)

(** [_get_local_prefix_cache_hit] *)
Definition get_local_prefix_cache_hit (a : Z) : M Sched (KVCacheBlocks * Z * Z * bool) :=
  s ← get;
  match connector s with
  | Some _ =>
      if cn_supports_divergent_local_hybrid_hits (C := C)
      then on_kv_request a kv_get_computed_blocks_for_connector
      else '(b, n, boundary) ← on_kv_request a kv_get_computed_blocks; mret (b, n, boundary, false)
  | None => '(b, n, boundary) ← on_kv_request a kv_get_computed_blocks; mret (b, n, boundary, false)
  end.

(** What the connector adds: [None] when it does not know yet. *)
Definition lookup_external (a : Z) (blocks : KVCacheBlocks) (local : Z) (hit_diverged : bool)
    : M Sched (option (KVCacheBlocks * Z * Z * bool)) :=
  o ← obj a;
  let partial_tail := local mod sc_block_size cfg in
  let block_aligned_local := local - partial_tail in
  '(ext_tokens, load_async) ← on_connector (Some 0, false)
    (cn_get_num_new_matched_tokens (sr_request o) block_aligned_local);
  match ext_tokens with
  | None => mret None
  | Some ext =>
      '(blocks, local, external, load_async) ←
        (if negb (partial_tail =? 0) && (partial_tail <? ext) then
           b ← on_kv (kv_truncate_computed_blocks blocks block_aligned_local);
           mret (b, block_aligned_local, ext, load_async)
         else if negb (partial_tail =? 0) then mret (blocks, local, 0, false)
         else mret (blocks, local, ext, load_async));
      if hit_diverged && (external =? 0) then
        '(b, n, boundary) ← on_kv_request a kv_get_computed_blocks;
        modify_request a (set_boundary boundary) ;;
        mret (Some (b, n, external, load_async))
      else mret (Some (blocks, local, external, load_async))
  end.

(** The already computed tokens; [None]: the round skips the request. *)
Definition lookup_computed (a : Z) : M Sched (option Found) :=
  o ← obj a;
  s ← get;
  if num_computed_tokens (sr_request o) =? 0 then
    '(blocks, local, boundary, hit_diverged) ← get_local_prefix_cache_hit a;
    modify_request a (set_boundary boundary) ;;
    found ← (match connector s with
             | None => mret (Some (blocks, local, 0, false))
             | Some _ => lookup_external a blocks local hit_diverged
             end);
    match found with
    | None => mret None
    | Some (blocks, local, external, load_async) =>
        let num_computed := local + external in
        assert_ (num_computed <=? num_tokens (sr_request o)) ;;
        pending ← ec_transfer_pending (sr_request o) num_computed;
        if (pending : bool) then mret None
        else mret (Some (mkFound blocks local external num_computed load_async true))
    end
  else
    let num_computed := num_computed_tokens (sr_request o) in
    pending ← ec_transfer_pending (sr_request o) num_computed;
    if (pending : bool) then mret None
    else mret (Some (mkFound (kv_empty_kv_cache_blocks (kv_cache_manager s)) 0 0 num_computed false false)).

(** ** The chunk *)

(** Pad a decode to the uniform size of speculative decoding: the number of
    tokens and whether it is padded; [None] is [break]. *)
Definition pad_decode (p : Pass) (num_computed num_new request_token_budget : Z) : option (Z * bool) :=
  let padded := 1 + num_spec_tokens cfg in
  if (0 <? num_spec_tokens cfg) && bool_decide (dynamic_sd_lookup cfg = None)
     && (0 <? num_sampled_tokens_per_step cfg) && (num_new =? 1) && negb (prefill_scheduled p)
     && (negb (bool_decide (scheduled_running_reqs p = [])) || (0 <? num_computed))
     && (num_computed + padded + num_sampled_tokens_per_step cfg <=? sc_max_model_len cfg)
  then if request_token_budget <? padded then None else Some (padded, true)
  else Some (num_new, false).

(** The tokens a request may run before encoder inputs: [None] is [break]. *)
Definition waiting_tokens (o : SReq) (f : Found) (p : Pass) : M Sched (option (Z * bool)) :=
  let r := sr_request o in
  let request_token_budget := Z.min (token_budget p) (input_budget p - draft_slots cfg) in
  let num_new := num_tokens r - found_computed_tokens f in
  match pad_decode p (found_computed_tokens f) num_new request_token_budget with
  | None => mret None
  | Some (num_new, pad) =>
      let threshold := long_prefill_token_threshold (chunk_config cfg) in
      let num_new := if (0 <? threshold) && (threshold <? num_new) then threshold else num_new in
      if negb (enable_chunked_prefill cfg) && (request_token_budget <? num_new) then mret None else
      let num_new := Z.min num_new request_token_budget in
      assert_ (0 <? num_new) ;;
      if need_mamba_block_aligned_split cfg then
        num_new ← align_split cfg r num_new (num_new_local_computed_tokens f) (num_external_computed_tokens f);
        mret (if num_new =? 0 then None
              else if pad && negb (num_new =? 1 + num_spec_tokens cfg) then Some (1, false)
              else Some (num_new, pad))
      else mret (Some (num_new, pad))
  end.

(** What the round computes: [None] is [break]. *)
Definition waiting_chunk (defer_prefills : bool) (o : SReq) (f : Found) (p : Pass)
    : M Sched (option Chunk * Pass) :=
  let r := sr_request o in
  if load_kv_async f then
    assert_ (0 <? num_external_computed_tokens f) ;;
    mret (Some (mkChunk 0 false [] [] (encoder_compute_budget p)), p)
  else if defer_prefills && (found_computed_tokens f <? num_tokens r - 1) then mret (None, p)
  else
    p ← clamp_budgets cfg r (found_computed_tokens f) p;
    tokens ← waiting_tokens o f p;
    match tokens with
    | None => mret (None, p)
    | Some (num_new, pad) =>
        '(inputs, num_new, new_budget, external) ←
          schedule_encoder cfg o (found_computed_tokens f) num_new (encoder_compute_budget p);
        let num_new := reserve_prefill_lookahead (chunk_config cfg) r (found_computed_tokens f) num_new in
        if num_new =? 0 then mret (None, p)
        else mret (Some (mkChunk num_new pad inputs external new_budget), p)
    end.

(** ** Admission *)

(** [_request_remaining_blocks], [_inflight_prefill_reserved_blocks] *)
Definition request_remaining_blocks (a : Z) : M Sched Z :=
  o ← obj a;
  let r := sr_request o in
  on_kv (kv_remaining_blocks (request_id r) (Z.min (num_tokens r) (sc_max_model_len cfg)) (num_computed_tokens r)).
Definition inflight_prefill_reserved_blocks : M Sched Z :=
  s ← get;
  fold_m (fun acc a => n ← request_remaining_blocks a; mret (acc + n)) 0 (elements (inflight_prefills (sets s))).

(** [self.kv_cache_manager.allocate_slots(...)] *)
Definition allocate_waiting (a : Z) (f : Found) (c : Chunk) : M Sched (option KVCacheBlocks) :=
  o ← obj a;
  let r := sr_request o in
  let lookahead := if load_kv_async f && (0 <? num_lookahead_tokens cfg) then 0 else num_lookahead_tokens cfg in
  num_encoder_tokens ←
    (if sched_encoder_decoder cfg && has_encoder_inputs o && negb (bool_decide (ch_encoder_inputs c = []))
     then sum_encoder_embeds r (ch_encoder_inputs c) else mret 0);
  reserved ← (if load_kv_async f then inflight_prefill_reserved_blocks else mret 0);
  s ← get;
  on_kv_request a (kv_allocate_slots (ch_num_new_tokens c) (num_new_local_computed_tokens f)
    (Some (new_computed_blocks f)) lookahead (num_external_computed_tokens f) (load_kv_async f)
    num_encoder_tokens (scheduler_reserve_full_isl cfg) reserved (negb (bool_decide (running s = [])))).

(** An asynchronous load: the request waits for its blocks to be filled. *)
Definition start_async_load (a : Z) (f : Found) (skipped : WaitQueue) : M Sched WaitQueue :=
  modify_obj a (so_set_status WAITING_FOR_REMOTE_KVS) ;;
  '(_, skipped) ← on_local skipped (fun d => wq_prepend d a);
  modify_request a (set_computed (found_computed_tokens f)) ;;
  modify_sets (fun x => ss_inflight_prefills ({[a]} ∪ inflight_prefills x) x) ;;
  when (needs_kv_cache_zeroing cfg)
    (o ← obj a;
     per_group ← on_kv (kv_get_zeroing_block_ids_in_range (so_id o) (num_new_local_computed_tokens f)
                          (found_computed_tokens f));
     modify_sets (fun x => ss_skip_zero_block_ids
       (foldl (fun m gi => match gi.2 with
                           | [] => m
                           | ids => <[Z.of_nat gi.1 := list_to_set ids ∪ default ∅ (m !! Z.of_nat gi.1)]> m
                           end) (skip_zero_block_ids x) (imap pair per_group)) x)) ;;
  mret skipped.

(** The request runs in this step. *)
Definition admit_request (a : Z) (f : Found) (c : Chunk) (p : Pass) : M Sched Pass :=
  modify (fun s => set_running (running s ++ [a]) s) ;;
  o ← obj a;
  let rid := so_id o in
  let p := if 0 <? num_external_computed_tokens f then ps_sync true p else p in
  p ← (match so_status o with
       | WAITING => mret (ps_admit (scheduled_new_reqs p ++ [a]) (scheduled_resumed_reqs p) p)
       | PREEMPTED => mret (ps_admit (scheduled_new_reqs p) (scheduled_resumed_reqs p ++ [a]) p)
       | _ => raise RuntimeError
       end);
  let p := match max_loras cfg, lora_request (sr_request o) with
           | Some _, Some l => ps_loras ({[lora_int_id l]} ∪ scheduled_loras p) p
           | _, _ => p
           end in
  s ← get;
  let n := ch_num_new_tokens c in
  let p := ps_budgets (token_budget p - n) (input_budget p - (n + draft_slots cfg))
    (ps_tokens (od_set rid n (num_scheduled_tokens p))
       (od_set rid (kv_get_blocks rid (kv_cache_manager s)) (req_to_new_blocks p)) p) in
  modify_obj a (fun o => so_set_request (set_computed (found_computed_tokens f) (set_status RUNNING (sr_request o))) o) ;;
  p ← (if pad_spec_decode c then
         assert_ (n =? 1 + num_spec_tokens cfg) ;;
         mret (ps_spec (od_set rid (replicate (Z.to_nat (num_spec_tokens cfg)) (-1)) (scheduled_spec_decode_tokens p))
                 (scheduled_spec_decode_step_ids p) p)
       else mret p);
  when (found_computed_tokens f + n <? num_tokens (sr_request o))
    (modify_sets (fun x => ss_inflight_prefills ({[a]} ∪ inflight_prefills x) x)) ;;
  allocate_encoder_inputs (sr_request o) (ch_encoder_inputs c) (ch_external_inputs c) (ch_encoder_budget c) p.

(** [max_loras] is reached and the request has another LoRA. *)
Definition exceeds_loras (o : SReq) (p : Pass) : bool :=
  match max_loras cfg, lora_request (sr_request o) with
  | Some m, Some l => (Z.of_nat (size (scheduled_loras p)) =? m) && negb (bool_decide (lora_int_id l ∈ scheduled_loras p))
  | _, _ => false
  end.

(** Whether the round must skip the request before any lookup. *)
Definition skips_round (a : Z) (p : Pass) : M Sched bool :=
  o ← obj a;
  blocked ← (if is_blocked_waiting_status (so_status o)
             then ok ← try_promote_blocked_waiting_request cfg a; mret (negb ok) else mret false);
  if (blocked : bool) then mret true else
  o ← obj a;
  mret (((0 <? num_stale_output_tokens o) && negb (drop_stale_output o)) || exceeds_loras o p).

(** One round: whether the loop goes on. *)
Definition wait_one (defer_prefills : bool) (q : QueueName) (a : Z) (p : Pass) (skipped : WaitQueue)
    : M Sched (bool * Pass * WaitQueue) :=
  skip ← skips_round a p;
  if (skip : bool) then skipped ← skip_request q a skipped; mret (true, p, skipped) else
  found ← lookup_computed a;
  match found with
  | None => skipped ← skip_request q a skipped; mret (true, p, skipped)
  | Some f =>
      o ← obj a;
      '(chunk, p) ← waiting_chunk defer_prefills o f p;
      match chunk with
      | None => mret (false, p, skipped)
      | Some c =>
          new_blocks ← allocate_waiting a f c;
          match new_blocks with
          | None => when (has_encoder_inputs o) (on_enc (en_free (sr_request o))) ;; mret (false, p, skipped)
          | Some _ =>
              s ← get;
              on_connector tt (cn_update_state_after_alloc (sr_request o)
                (kv_get_blocks (so_id o) (kv_cache_manager s)) (num_external_computed_tokens f)) ;;
              when (did_prefix_cache_lookup f)
                (on_kv (kv_record_prefix_cache_stats (sr_request o) (num_new_local_computed_tokens f))) ;;
              a ← on_queue q wq_pop;
              if load_kv_async f then skipped ← start_async_load a f skipped; mret (true, p, skipped)
              else p ← admit_request a f c p; mret (true, p, skipped)
          end
      end
  end.

(** [while (self.waiting or self.skipped_waiting) and token_budget > 0] *)
Fixpoint waiting_loop (defer_prefills : bool) (fuel : nat) (p : Pass) (skipped : WaitQueue)
    : M Sched (Pass * WaitQueue) :=
  s ← get;
  if (wq_nonempty (waiting s) || wq_nonempty (skipped_waiting s)) && (0 <? token_budget p)
     && negb (input_budget p <=? draft_slots cfg)
     && negb (max_num_running_reqs cfg <=? zlen (running s) + num_waiting_for_streaming_input s)
  then
    match fuel with
    | O => raise OutOfFuel
    | S fuel' =>
        q ← of_option AssertionError (select_waiting_queue_for_scheduling s);
        a ← on_queue q (fun _ => wq_peek (deref s));
        '(go, p, skipped) ← wait_one defer_prefills q a p skipped;
        if (go : bool) then waiting_loop defer_prefills fuel' p skipped else mret (p, skipped)
    end
  else mret (p, skipped).

(** [if not preempted_reqs and self._pause_state == PauseState.UNPAUSED: ...] *)
Definition schedule_waiting (defer_prefills : bool) (p : Pass) : M Sched Pass :=
  s ← get;
  if bool_decide (preempted_reqs p = []) && bool_decide (pause_state s = UNPAUSED) then
    '(p, skipped) ← waiting_loop defer_prefills
      (length (members (waiting s)) + length (members (skipped_waiting s))) p (create_request_queue (sc_policy cfg));
    when (wq_nonempty skipped)
      ('(l, _) ← on_local skipped wq_iter; on_skipped (fun d => wq_prepend_all d l)) ;;
    when (negb defer_prefills) (modify (fun s => set_bound (wq_nonempty (waiting s)) s)) ;;
    mret p
  else mret p.

End Waiting.
