(* ===== verification/ScheduleAdmit.v ===== *)
(** * Scheduling the waiting requests

    The loop over the waiting queues in [schedule] ends, raises nothing, keeps
    the invariant of the request lifecycle and the accounts of the step, and
    admits no more requests than [max_num_running_reqs].

    Requests skipped in a step are in a local queue until the loop ends; the
    invariant is that of the state in which they are back in the skipped
    queue. *)
From Stdlib Require Import ZArith Lia.
From stdpp Require Import base tactics gmap strings numbers option list.
From S2P Require Import Prelude Blocks Request Hashing Env SchedUtils RequestQueue KVCacheManager OrderedDict SchedEncoder SchedChunk SchedRequest SchedIface Scheduler SchedulerInv SchedulerOps SchedulerPreempt SchedulePass ScheduleInv ScheduleRun ScheduleWait.

Local Open Scope Z_scope.

(** ** Laws *)

(** [kv_hit k r b n]: [b] holds the first [n] tokens of the request. *)
Class KVAdmitLaws (bs : Z) (K : Type) `{KVScheduleLaws K} := {
  kv_hit : K -> Request -> KVCacheBlocks -> Z -> Prop;
  kvl_lookup k r : kv_wf k -> kv_idle k r ->
    wp kv_get_computed_blocks (fun res t => kv_wf t.1 /\ same_but_memo r t.2 /\ (forall q, kv_holds t.1 q -> kv_holds k q) /\
      kv_kept (fun _ => True) k t.1 /\ kv_idle t.1 t.2 /\ 0 <= res.1.2 < num_tokens r /\ kv_hit t.1 t.2 res.1.1 res.1.2) (k, r);
  kvl_lookup_connector k r : kv_wf k -> kv_idle k r ->
    wp kv_get_computed_blocks_for_connector (fun res t => kv_wf t.1 /\ same_but_memo r t.2 /\ (forall q, kv_holds t.1 q -> kv_holds k q) /\
      kv_kept (fun _ => True) k t.1 /\ kv_idle t.1 t.2 /\ 0 <= res.1.1.2 < num_tokens r /\ kv_hit t.1 t.2 res.1.1.1 res.1.1.2) (k, r);
  kvl_idle_attrs k r st b : kv_idle k r -> kv_idle k (set_status st r) /\ kv_idle k (set_boundary b r);
  kvl_ready_attrs k r st : kv_ready k r -> kv_ready k (set_status st r);
  kvl_hit_attrs k r b bl n : kv_hit k r bl n -> kv_hit k (set_boundary b r) bl n;
  kvl_truncate k r b n : kv_wf k -> kv_hit k r b n ->
    wp (kv_truncate_computed_blocks b (n - n mod bs)) (fun b' k' => k' = k /\ kv_hit k r b' (n - n mod bs)) k;
  kvl_admit n local b la ext async enc full reserved has k r :
    kv_wf k -> kv_idle k r -> kv_hit k r b local -> 0 <= n -> 0 <= ext -> 0 < n + ext -> local + ext <= num_tokens r ->
    0 <= la -> 0 <= reserved -> 0 <= enc ->
    wp (kv_allocate_slots n local (Some b) la ext async enc full reserved has) (fun res t => kv_wf t.1 /\ same_but_memo r t.2 /\
      (res = None -> kv_idle t.1 t.2) /\
      (forall q, kv_holds t.1 q -> kv_holds k q \/ q = request_id r) /\
      kv_kept (fun r' => request_id r' <> request_id r) k t.1) (k, r);
  kvl_readmit n la async enc full reserved has k r :
    kv_wf k -> kv_ready k r -> 0 < n -> 0 <= la -> 0 <= reserved -> 0 <= enc ->
    wp (kv_allocate_slots n 0 (Some (kv_empty_kv_cache_blocks k)) la 0 async enc full reserved has) (fun res t =>
      kv_wf t.1 /\ same_but_memo r t.2 /\ (res = None -> kv_ready t.1 t.2) /\
      (forall q, kv_holds t.1 q -> kv_holds k q \/ q = request_id r) /\
      kv_kept (fun r' => request_id r' <> request_id r) k t.1) (k, r);
  kvl_remaining rid n c k : kv_wf k -> wp (kv_remaining_blocks rid n c) (fun m k' => k' = k /\ 0 <= m) k;
  kvl_stats r n k : kv_wf k ->
    wp (kv_record_prefix_cache_stats r n) (fun _ k' => kv_wf k' /\ (forall q, kv_holds k' q -> kv_holds k q) /\ kv_kept (fun _ => True) k k') k;
  kvl_zeroing rid m n k : kv_wf k ->
    wp (kv_get_zeroing_block_ids_in_range rid m n) (fun _ k' => kv_wf k' /\ (forall q, kv_holds k' q -> kv_holds k q) /\ kv_kept (fun _ => True) k k') k;
  kvl_loaded_cacheable k r : kv_loaded k r -> 0 < num_computed_tokens r -> kv_cacheable k r (num_computed_tokens r);
  kvl_loaded_cache k r : kv_wf k -> kv_loaded k r -> 0 < num_computed_tokens r ->
    wp (kv_cache_blocks (num_computed_tokens r)) (fun _ t => kv_kept (fun r' => request_id r' <> request_id r) k t.1 /\
      kv_ready t.1 t.2 /\ kv_ready t.1 (set_computed (num_tokens r - 1) t.2)) (k, r);
  kvl_loaded_zero rid n k : kv_wf k -> wp (kv_record_blocks_for_zeroing rid n) (fun _ k' => kv_kept (fun _ => True) k k') k;
  kvl_loaded_free k r : kv_wf k -> kv_loaded k r ->
    wp (kv_free r) (fun _ k' => kv_idle k' r /\ kv_kept (fun r' => request_id r' <> request_id r) k k') k
}.

(** The connector's documented answer: what can be loaded beyond the computed
    tokens, within the request, and one token is left to run when the load is
    part of the step. *)
Class ConnectorScheduleLaws (C : Type) `{KVConnectorLaws C} `{!ConnectorScheduling C} := {
  cnl_matched r n c : cn_wf c -> 0 <= n < num_tokens r ->
    wp (cn_get_num_new_matched_tokens r n) (fun res c' => cn_wf c' /\ forall e, res.1 = Some e ->
      0 <= e /\ n + e <= num_tokens r /\ (res.2 = true -> 0 < e) /\ (res.2 = false -> n + e < num_tokens r)) c;
  cnl_alloc r b n c : cn_wf c -> wp (cn_update_state_after_alloc r b n) (fun _ => cn_wf) c
}.

(** ** The invariant of the loop *)

Section Admit.
Context `{Env} {K E C X : Type} (cfg : SchedConfig) (cfg_ok : config_ok cfg).
Context `{KVAdmitLaws (sc_block_size cfg) K} `{EncoderScheduleLaws E} `{ConnectorScheduleLaws C} `{ECScheduleLaws X}.
Context (block_size_pos : 0 < sc_block_size cfg).
Local Abbreviation Sched := (Scheduler K E C X).
Local Abbreviation lifecycle := (lifecycle cfg).
Local Abbreviation accounts := (accounts cfg).
Implicit Types (s : Sched) (p : Pass).

(** The state with the skipped requests of the step back in their queue. *)
Definition merged (s : Sched) (sk : WaitQueue) : Sched :=
  set_skipped (WFcfs (mkFCFS (members sk ++ members (skipped_waiting s)))) s.

(** A request that may be admitted. *)
Record admissible (k : K) (o : SReq) : Prop := {
  ad_counts : 0 <= num_computed_tokens (sr_request o) < num_tokens (sr_request o);
  ad_features : Forall (fun f => offset (mm_position f) < num_tokens (sr_request o)) (mm_features (sr_request o));
  ad_kv : if num_computed_tokens (sr_request o) =? 0 then kv_idle k (sr_request o) else kv_ready k (sr_request o)
}.

(** A finished transfer left the request with what was loaded. *)
Record transferred (s : Sched) (o : SReq) : Prop := {
  tf_kv : kv_loaded (kv_cache_manager s) (sr_request o);
  tf_counts : 0 <= num_computed_tokens (sr_request o) <= num_tokens (sr_request o);
  tf_features : Forall (fun f => offset (mm_position f) < num_tokens (sr_request o)) (mm_features (sr_request o));
  tf_failed : so_id o ∈ failed_recving_kv_req_ids (sets s) -> num_computed_tokens (sr_request o) < num_tokens (sr_request o);
  tf_loaded : so_id o ∉ failed_recving_kv_req_ids (sets s) ->
    0 < num_computed_tokens (sr_request o) /\ 2 <= num_tokens (sr_request o)
}.

(** What a request of the waiting queues owes. *)
Definition waitable (s : Sched) (o : SReq) : Prop :=
  match so_status o with
  | WAITING_FOR_REMOTE_KVS => is_Some (connector s) /\
      (so_id o ∈ finished_recving_kv_req_ids (sets s) -> transferred s o)
  | WAITING_FOR_STREAMING_REQ => True
  | _ => admissible (kv_cache_manager s) o
  end.

Definition in_queues (s : Sched) (a : Z) : Prop := a ∈ members (waiting s) \/ a ∈ members (skipped_waiting s).

Record wait_ok (s : Sched) (p : Pass) (sk : WaitQueue) : Prop := {
  wo_inv : lifecycle [] (merged s sk);
  wo_accounts : accounts s p;
  wo_scheduled : forall b, b ∈ scheduled p -> b ∈ running s;
  wo_ready : forall a o, in_queues s a -> objs s !! a = Some o -> waitable s o;
  wo_inflight : forall a, a ∈ inflight_prefills (sets s) -> is_Some (objs s !! a);
  wo_running : zlen (running s) <= max_num_running_reqs cfg
}.

(** Requests change places in the waiting queues. *)
Lemma lifecycle_requeue s s' :
  lifecycle [] s -> same_but_queues s s' -> running s' = running s ->
  num_waiting_for_streaming_input s' = num_waiting_for_streaming_input s -> queued s' ≡ₚ queued s ->
  (forall b, b ∈ members (waiting s') -> b ∈ members (waiting s)) ->
  (forall b, b ∈ members (skipped_waiting s') -> b ∈ members (waiting s) \/ b ∈ members (skipped_waiting s)) ->
  lifecycle [] s'.
Proof.
  intros [L1 L2 L3 L4 L5 L6 L7 L8 L9 L10 L11] Hs Hr Hn Hq Hw Hk. pose proof Hs as [E1 E2 E3 E4 E5 E6].
  split; rewrite ?E1, ?E2, ?E3, ?E4, ?Hr, ?Hn; try done.
  - by rewrite Hq.
  - intros a. rewrite Hq, L4. by setoid_rewrite (tracked_same s s' a _ Hs).
  - intros a o Ha. by apply L6, Hw.
  - intros a o Ha Ho. destruct (Hk a Ha) as [Hb|Hb]; [left; by apply (L6 a)|by apply (L7 a)].
  - rewrite L8. by apply num_streaming_perm.
  - intros rid Hrid. destruct (L10 rid Hrid) as (a & o & Ht & Hx). exists a, o. by rewrite (tracked_same s s' _ _ Hs).
  - by apply (parts_same cfg s).
Qed.

Lemma queued_tracked s sk p a :
  wait_ok s p sk -> in_queues s a -> exists o, tracked s a o /\ object_ok o /\ so_finished o = false /\ can_skip (so_status o) /\ waitable s o.
Proof.
  intros Hw Ha. pose proof (wo_inv _ _ _ Hw) as L.
  assert (a ∈ queued (merged s sk)) as Hq by (unfold queued; cbn; rewrite !elem_of_app; destruct Ha; tauto).
  apply (lc_queued _ _ _ L) in Hq as (_ & o & Ht & Hf). pose proof Ht as [Ho Hg].
  destruct (lc_objs _ _ _ L _ _ Hg) as (o1 & Ho1 & _ & Hok). rewrite Ho in Ho1. injection Ho1 as <-.
  exists o. split_and!; [done|done|done| |by apply (wo_ready _ _ _ Hw a)].
  destruct Ha as [Ha|Ha]; [left; by apply (lc_waiting _ _ _ L a)|]. apply (lc_skipped _ _ _ L a); [cbn; apply elem_of_app; by right|done].
Qed.

(** The transfer state of an id is the same. *)
Definition same_transfer (x x' : SchedSets) (rid : string) : Prop :=
  (rid ∈ finished_recving_kv_req_ids x' <-> rid ∈ finished_recving_kv_req_ids x) /\
  (rid ∈ failed_recving_kv_req_ids x' <-> rid ∈ failed_recving_kv_req_ids x).

Lemma admissible_kept (k k' : K) o ok : kv_kept ok k k' -> ok (sr_request o) -> admissible k o -> admissible k' o.
Proof. intros Hk Hok [A1 A3 A2]. destruct (Hk _ Hok) as (K1 & K2 & _). split; [done|done|]. by destruct (_ =? 0); [apply K2|apply K1]. Qed.

Lemma waitable_kept s s' o ok :
  kv_kept ok (kv_cache_manager s) (kv_cache_manager s') -> ok (sr_request o) -> (is_Some (connector s) -> is_Some (connector s')) ->
  same_transfer (sets s) (sets s') (so_id o) -> waitable s o -> waitable s' o.
Proof.
  intros Hk Hok Hc [Hf1 Hf2] Hw. unfold waitable in *. destruct (Hk _ Hok) as (_ & _ & K3).
  destruct (so_status o); try done; try by eapply admissible_kept.
  destruct Hw as [W1 W2]. split; [by apply Hc|]. rewrite Hf1. intros Hf. destruct (W2 Hf) as [T1 T2 T5 T3 T4].
  split; [by apply K3|done|done|by rewrite Hf2|by rewrite Hf2].
Qed.

(** ** Queues *)

Definition queue_of (q : QueueName) (s : Sched) : WaitQueue :=
  match q with QWaiting => waiting s | QSkipped => skipped_waiting s end.
Definition at_head (q : QueueName) (s : Sched) (a : Z) : Prop := head (members (queue_of q s)) = Some a.

(** [a] has left the waiting queues, which are now [w] and [k]. *)
Record popped (a : Z) (s : Sched) (w k : WaitQueue) : Prop := {
  pp_perm : members (waiting s) ++ members (skipped_waiting s) ≡ₚ a :: members w ++ members k;
  pp_waiting : forall b, b ∈ members w -> b ∈ members (waiting s);
  pp_skipped : forall b, b ∈ members k -> b ∈ members (skipped_waiting s)
}.

Definition num_waiting (s : Sched) : nat := length (members (waiting s)) + length (members (skipped_waiting s)).

Lemma popped_length a s w k : popped a s w k -> num_waiting s = S (num_waiting (set_skipped k (set_waiting w s))).
Proof. intros [Hp _ _]. unfold num_waiting. cbn. rewrite <- !length_app, Hp. done. Qed.

Lemma at_head_in q s a : at_head q s a -> in_queues s a.
Proof.
  unfold at_head, in_queues, queue_of. destruct q; intros Hh; [left|right].
  - destruct (members (waiting s)); [done|]. injection Hh as ->. by left.
  - destruct (members (skipped_waiting s)); [done|]. injection Hh as ->. by left.
Qed.

Lemma pop_spec q s a :
  at_head q s a -> wp (on_queue q wq_pop) (fun b s' => b = a /\ exists w k, s' = set_skipped k (set_waiting w s) /\ popped a s w k) s.
Proof.
  unfold at_head, queue_of. destruct q; intros Hh; [apply wp_on_waiting|apply wp_on_skipped];
    (eapply wp_mono; [apply wq_pop_spec; by intros Hx; rewrite Hx in Hh|]); intros b l (Hb & Hp & _); rewrite Hh in Hb; injection Hb as <-;
    (split; [done|]).
  - exists l, (skipped_waiting s). split; [by destruct s|]. split; [by rewrite Hp|intros b Hb; rewrite Hp; by right|done].
  - exists (waiting s), l. split; [by destruct s|]. split; [|done|intros b Hb; rewrite Hp; by right].
    rewrite Hp. symmetry. apply Permutation_middle.
Qed.

Lemma peek_spec q s a d : at_head q s a -> wp (on_queue q (fun _ => wq_peek d)) (fun b s' => b = a /\ s' = s) s.
Proof.
  unfold at_head, queue_of. destruct q; intros Hh; [apply wp_on_waiting|apply wp_on_skipped];
    (eapply wp_mono; [apply wq_peek_spec; by intros Hx; rewrite Hx in Hh|]); intros b l (-> & Hb); rewrite Hh in Hb; injection Hb as <-;
    (split; [done|]); by destruct s.
Qed.

Lemma local_prepend_spec s sk a :
  wp (on_local sk (fun d => wq_prepend d a)) (fun r s' => s' = s /\ members r.2 ≡ₚ a :: members sk) s.
Proof.
  unfold wp, on_local. pose proof (wq_prepend_spec (deref s) a sk) as Hw. unfold wp in Hw.
  destruct (wq_prepend (deref s) a sk) as [[] q|]; [|done]. by destruct Hw as [Hp _].
Qed.

(** A queue is not empty when the loop goes on. *)
Lemma select_spec s :
  wq_nonempty (waiting s) || wq_nonempty (skipped_waiting s) = true ->
  exists q a, select_waiting_queue_for_scheduling cfg s = Some q /\ at_head q s a.
Proof.
  unfold wq_nonempty, select_waiting_queue_for_scheduling, at_head, queue_of, wq_nonempty, zlen. intros Hn.
  destruct (members (waiting s)) as [|a l] eqn:Ew, (members (skipped_waiting s)) as [|b l'] eqn:Ek; cbn in *; [done|..];
    destruct (sc_policy cfg); try (eexists QSkipped, _; split; [done|]; cbn; rewrite Ek; done);
    try (eexists QWaiting, _; split; [done|]; cbn; rewrite Ew; done).
  destruct (ref_lt (deref s) a b); [exists QWaiting, a|exists QSkipped, b]; (split; [done|]); cbn; by rewrite ?Ew, ?Ek.
Qed.

Lemma requeue_perm a s w k sk sk' :
  popped a s w k -> members sk' ≡ₚ a :: members sk ->
  members w ++ members sk' ++ members k ≡ₚ members (waiting s) ++ members sk ++ members (skipped_waiting s).
Proof.
  intros [P1 _ _] ->. rewrite (Permutation_app_swap_app (members w)), (Permutation_app_swap_app (members (waiting s))).
  rewrite P1. cbn. apply Permutation_middle.
Qed.

Lemma skip_request_spec q s p sk a :
  wait_ok s p sk -> at_head q s a ->
  wp (skip_request q a sk) (fun sk' s' => wait_ok s' p sk' /\ num_waiting s = S (num_waiting s') /\
    running s' = running s /\ exists w k, s' = set_skipped k (set_waiting w s)) s.
Proof.
  intros Hw Hh. unfold skip_request. apply wp_bind. eapply wp_mono; [by apply pop_spec|]. intros b s1 (-> & w & k & -> & Hp).
  apply wp_bind. eapply wp_mono; [apply local_prepend_spec|]. intros [[] sk'] s2 [-> Hsk]. cbn [snd] in Hsk. apply wp_ret.
  split_and!; [|by apply (popped_length a)|done|by exists w, k].
  destruct Hw as [W1 W2 W3 W4 W5 W6]. pose proof Hp as [P1 P2 P3]. split; try done.
  - apply (lifecycle_requeue (merged s sk)); try done; cbn.
    + unfold queued. cbn. by rewrite (requeue_perm a s w k sk sk').
    + intros b Hb. rewrite Hsk, elem_of_app, elem_of_cons in Hb. rewrite elem_of_app.
      destruct Hb as [[->|Hb]|Hb]; [|tauto|right; right; by apply P3].
      destruct (at_head_in q s a Hh); tauto.
  - by apply (accounts_same cfg s).
  - intros b o Hb Ho. apply (waitable_kept s _ o (fun _ => True)); try done.
    apply (W4 b); [|done]. destruct Hb as [Hb|Hb]; [left; by apply P2|right; by apply P3].
Qed.

(** ** What a round does to its request *)

(** Only the object of [a] and what the services keep for it changed. *)
Record touched (a : Z) (o o' : SReq) (s s' : Sched) : Prop := {
  to_old : objs s !! a = Some o;
  to_objs : objs s' = <[a := o']> (objs s);
  to_id : so_id o' = so_id o;
  to_features : mm_features (sr_request o') = mm_features (sr_request o);
  to_requests : requests s' = requests s;
  to_running : running s' = running s;
  to_waiting : waiting s' = waiting s;
  to_skipped : skipped_waiting s' = skipped_waiting s;
  to_count : num_waiting_for_streaming_input s' = num_waiting_for_streaming_input s;
  to_kv : kv_wf (kv_cache_manager s') /\
    (forall q, kv_holds (kv_cache_manager s') q -> kv_holds (kv_cache_manager s) q \/ q = so_id o) /\
    kv_kept (fun r => request_id r <> so_id o) (kv_cache_manager s) (kv_cache_manager s');
  to_enc : enc_grown (so_id o) (encoder_cache_manager s) (encoder_cache_manager s');
  to_conn : (is_Some (connector s) -> is_Some (connector s')) /\
    forall c, connector s' = Some c -> cn_wf c /\ is_Some (connector s);
  to_ec : ec_fine (ec_connector s');
  to_sets : (forall rid, rid <> so_id o -> same_transfer (sets s) (sets s') rid) /\
    forall b, b ∈ inflight_prefills (sets s') -> b ∈ inflight_prefills (sets s) \/ b = a
}.

Lemma touched_trans a o1 o2 o3 s1 s2 s3 : touched a o1 o2 s1 s2 -> touched a o2 o3 s2 s3 -> touched a o1 o3 s1 s3.
Proof.
  intros [A1 A2 A3 A4 A5 A6 A7 A8 A9 (A10 & A11 & A12) A13 (A14 & A15) A16 (A17 & A18)]
         [B1 B2 B3 B4 B5 B6 B7 B8 B9 (B10 & B11 & B12) B13 (B14 & B15) B16 (B17 & B18)].
  rewrite A3 in *. split; try congruence.
  - rewrite B2, A2. apply insert_insert_eq.
  - split_and!; [done|intros q Hq; destruct (B11 q Hq); auto|by eapply kv_kept_trans].
  - by eapply enc_grown_trans.
  - split; [auto|]. intros c Hc. destruct (B15 c Hc) as [? [c2 Hc2]]. split; [done|]. by apply (A15 c2).
  - done.
  - split.
    + intros rid Hr. destruct (A17 rid Hr), (B17 rid Hr). split; etransitivity; eassumption.
    + intros b Hb. destruct (B18 b Hb) as [Hb'| ->]; [by apply A18|by right].
Qed.

Lemma touched_refl s p sk a o :
  wait_ok s p sk -> objs s !! a = Some o -> touched a o o s s.
Proof.
  intros Hw Ho. pose proof (lc_parts _ _ _ (wo_inv _ _ _ Hw)) as [P1 P2 P3 P4]. cbn in P1, P2, P3, P4. split; try done.
  - by rewrite insert_id.
  - split_and!; [done|by left|apply kv_kept_refl].
  - by split; [|left].
  - split; [done|]. intros c Hc. split; [by apply P3|by eexists].
  - split; [done|by left].
Qed.

(** The invariant reads nothing else. *)
Lemma lifecycle_agree s s' :
  lifecycle [] s -> same_but_queues s s' -> running s' = running s -> waiting s' = waiting s ->
  skipped_waiting s' = skipped_waiting s -> num_waiting_for_streaming_input s' = num_waiting_for_streaming_input s -> lifecycle [] s'.
Proof.
  intros L Hs E1 E2 E3 E4. apply (lifecycle_requeue s); try done; rewrite ?E2, ?E3; try done; [|tauto].
  unfold queued. by rewrite E1, E2, E3.
Qed.

(** The services changed for a tracked request. *)
Lemma lifecycle_services s a o k e c x :
  lifecycle [] s -> tracked s a o -> so_finished o = false -> kv_wf k ->
  (forall q, kv_holds k q -> kv_holds (kv_cache_manager s) q \/ q = so_id o) ->
  enc_grown (so_id o) (encoder_cache_manager s) e ->
  (forall c', c = Some c' -> cn_wf c' /\ is_Some (connector s)) -> ec_fine x ->
  lifecycle [] (set_ec x (set_connector c (set_enc e (set_kv k s)))).
Proof.
  intros [L1 L2 L3 L4 L5 L6 L7 L8 L9 L10 [P1 P2 P3 P4]] [Ho Hg] Hf Hk Hkh [He Heh] Hc Hx. split; try done; cbn.
  - intros rid Hr. destruct (Hkh rid Hr) as [Hr'| ->]; [by apply L9|by eapply od_get_key].
  - intros rid Hr. destruct (Heh rid Hr) as [Hr'| ->]; [by apply L10|]. exists a, o. split_and!; [by split|done|by left].
  - split; try done. cbn. intros c' Hc'. destruct (Hc c' Hc') as [Hw [c0 Hc0]]. split; [done|]. by destruct (P3 c0 Hc0).
Qed.

(** Where the new status of the object fits. *)
Definition status_fits (s : Sched) (sk : WaitQueue) (a : Z) (o o' : SReq) : Prop :=
  so_status o' = so_status o \/
  a ∈ members (skipped_waiting s) /\ can_wait (so_status o') /\ so_status o <> WAITING_FOR_STREAMING_REQ.

Lemma lifecycle_touched s s' sk p a o o' :
  wait_ok s p sk -> in_queues s a -> touched a o o' s s' -> object_ok o' -> status_fits s sk a o o' -> lifecycle [] (merged s' sk).
Proof.
  intros Hw Hq Ht Hok Hst. destruct (queued_tracked s sk p a Hw Hq) as (o1 & Htr & _ & Hf & _ & _).
  destruct Ht as [A1 A2 A3 A4 A5 A6 A7 A8 A9 (A10 & A11 & A12) A13 (A14 & A15) A16 _]. pose proof Htr as [Ho Hg]. rewrite A1 in Ho. injection Ho as <-.
  pose proof (wo_inv _ _ _ Hw) as L.
  assert (lifecycle [] (set_objs (<[a := o']> (objs s)) (merged s sk))) as L1.
  { destruct Hst as [Hst|(Hk & Hcw & Hns)].
    - by apply (lifecycle_touch cfg [] (merged s sk) a o).
    - assert (so_status o' <> WAITING_FOR_STREAMING_REQ) as Hns' by (destruct Hcw as [->| ->]; done).
      apply (lifecycle_agree (set_num_streaming (num_waiting_for_streaming_input s) (set_objs (<[a := o']> (objs s)) (merged s sk)))); try done.
      apply (lifecycle_restatus cfg [] (merged s sk) a o); try done.
      + cbn. apply elem_of_app. by right.
      + by left.
      + unfold so_finished. by destruct Hcw as [->| ->].
      + cbn. rewrite (streaming_other _ a o), bool_decide_eq_false_2 by done. cbn. lia. }
  apply (lifecycle_agree (set_ec (ec_connector s') (set_connector (connector s') (set_enc (encoder_cache_manager s')
    (set_kv (kv_cache_manager s') (set_objs (<[a := o']> (objs s)) (merged s sk))))))); [|by split|done|done|by cbn; rewrite A8|done].
  apply (lifecycle_services _ a o'); cbn; try done; rewrite ?A3; try done.
  - split; cbn; [apply lookup_insert_eq|by rewrite A3].
  - destruct Hst as [Hst|(_ & Hcw & _)]; unfold so_finished in *; [by rewrite Hst|by destruct Hcw as [->| ->]].
Qed.

Lemma touched_identity s s' a o o' : touched a o o' s s' -> same_identity s s'.
Proof.
  intros [A1 A2 A3 A4 A5 _ _ _ _ _ _ _ _ _]. split; [done|..]; intros b; unfold rid_of, deref; rewrite A2;
    (destruct (decide (b = a)) as [->|Hne]; [by rewrite lookup_insert_eq, A1|by rewrite lookup_insert_ne]).
Qed.

Lemma others_waitable s s' sk p a o o' b ob :
  wait_ok s p sk -> in_queues s a -> touched a o o' s s' -> b <> a -> in_queues s b -> objs s' !! b = Some ob -> waitable s' ob.
Proof.
  intros [W1 W2 W3 W4 W5 W6] Hq [A1 A2 A3 A4 A5 A6 A7 A8 A9 (A10 & A11 & A12) A13 (A14 & A15) A16 (A17 & A18)] Hne Hb' Hob.
  rewrite A2, lookup_insert_ne in Hob by done.
  assert (so_id ob <> so_id o) as Hids.
  { intros Eid. apply Hne. assert (a ∈ queued (merged s sk) /\ b ∈ queued (merged s sk)) as [Qa Qb].
    { unfold queued. cbn. rewrite !elem_of_app. destruct Hq, Hb'; tauto. }
    apply (lc_queued _ _ _ W1) in Qa as (_ & oa & Hta & _). apply (lc_queued _ _ _ W1) in Qb as (_ & ob' & Htb & _).
    apply (tracked_inj cfg [] (merged s sk) b a ob' oa W1 Htb Hta). destruct Hta as [Hta _], Htb as [Htb _]. cbn in Hta, Htb. congruence. }
  apply (waitable_kept s s' ob (fun r => request_id r <> so_id o)); try done; [by apply A17|by apply (W4 b)].
Qed.

Lemma touched_wait s s' sk p a o o' :
  wait_ok s p sk -> in_queues s a -> touched a o o' s s' -> object_ok o' -> status_fits s sk a o o' -> waitable s' o' -> wait_ok s' p sk.
Proof.
  intros Hw Hq Ht Hok Hst Hwt. pose proof (lifecycle_touched s s' sk p a o o' Hw Hq Ht Hok Hst) as L'.
  pose proof Hw as [W1 W2 W3 W4 W5 W6]. pose proof Ht as [A1 A2 A3 A4 A5 A6 A7 A8 A9 (A10 & A11 & A12) A13 (A14 & A15) A16 (A17 & A18)].
  split; try done.
  - apply (accounts_same cfg s); [by eapply touched_identity|done].
  - by rewrite A6.
  - intros b ob Hb Hob. destruct (decide (b = a)) as [->|Hne]; [rewrite A2, lookup_insert_eq in Hob; congruence|].
    apply (others_waitable s s' sk p a o o' b); try done. unfold in_queues in *. by rewrite A7, A8 in Hb.
  - intros b Hb. rewrite A2. destruct (decide (b = a)) as [->|Hne]; [rewrite lookup_insert_eq; by eexists|rewrite lookup_insert_ne by done].
    destruct (A18 b Hb) as [Hb'|]; [by apply W5|done].
  - by rewrite A6.
Qed.

(** *** Statements of a round *)

Section Touch.
Context (a : Z) (o o1 : SReq) (s s1 : Sched) (Ht : touched a o o1 s s1).

Lemma touch_sets x :
  (forall rid, rid <> so_id o -> same_transfer (sets s1) x rid) ->
  (forall b, b ∈ inflight_prefills x -> b ∈ inflight_prefills (sets s1) \/ b = a) -> touched a o o1 s (set_sets x s1).
Proof.
  intros Hx Hb. destruct Ht as [A1 A2 A3 A4 A5 A6 A7 A8 A9 A10 A13 A14 A16 (A17 & A18)]. split; try done. split; cbn.
  - intros rid Hr. destruct (A17 rid Hr), (Hx rid Hr). split; etransitivity; eassumption.
  - intros b [Hb'| ->]%Hb; [by apply A18|by right].
Qed.

Lemma touch_kv k :
  kv_wf k -> (forall q, kv_holds k q -> kv_holds (kv_cache_manager s1) q \/ q = so_id o) ->
  kv_kept (fun r => request_id r <> so_id o) (kv_cache_manager s1) k -> touched a o o1 s (set_kv k s1).
Proof.
  intros Hk Hh Hke. destruct Ht as [A1 A2 A3 A4 A5 A6 A7 A8 A9 (A10 & A11 & A12) A13 A14 A16 A17]. split; try done. split_and!; cbn; [done| |].
  - intros q [Hq| ->]%Hh; [by apply A11|by right].
  - by eapply kv_kept_trans.
Qed.

Lemma touch_obj o2 :
  so_id o2 = so_id o1 -> mm_features (sr_request o2) = mm_features (sr_request o1) ->
  touched a o o2 s (set_objs (<[a := o2]> (objs s1)) s1).
Proof.
  intros Hid Hmm. destruct Ht as [A1 A2 A3 A4 A5 A6 A7 A8 A9 A10 A13 A14 A16 A17]. split; try done; cbn; [|congruence..].
  rewrite A2. apply insert_insert_eq.
Qed.

Lemma touch_enc e : enc_grown (so_id o) (encoder_cache_manager s1) e -> touched a o o1 s (set_enc e s1).
Proof.
  intros He. destruct Ht as [A1 A2 A3 A4 A5 A6 A7 A8 A9 A10 A13 A14 A16 A17]. split; try done. by eapply enc_grown_trans.
Qed.

Lemma touch_ec x : ec_fine x -> touched a o o1 s (set_ec x s1).
Proof. intros Hx. destruct Ht as [A1 A2 A3 A4 A5 A6 A7 A8 A9 A10 A13 A14 A16 A17]. by split. Qed.

Lemma touch_conn c c0 : connector s1 = Some c0 -> cn_wf c -> touched a o o1 s (set_connector (Some c) s1).
Proof.
  intros Hc Hw. destruct Ht as [A1 A2 A3 A4 A5 A6 A7 A8 A9 A10 A13 (A14 & A15) A16 A17]. split; try done. split; cbn; [by eexists|].
  intros c' [= <-]. split; [done|]. by apply (A15 c0).
Qed.

Lemma touched_lookup : objs s1 !! a = Some o1.
Proof. rewrite (to_objs _ _ _ _ _ Ht). apply lookup_insert_eq. Qed.

End Touch.

(** A call of the KV cache that takes the request. *)
Lemma touched_kv_request {A} (m : M (K * Request) A) (Q : A -> K * Request -> Prop) a o o1 s s1 :
  touched a o o1 s s1 ->
  wp m (fun x t => Q x t /\ kv_wf t.1 /\ same_but_memo (sr_request o1) t.2 /\
    (forall q, kv_holds t.1 q -> kv_holds (kv_cache_manager s1) q \/ q = request_id (sr_request o1)) /\
    kv_kept (fun r => request_id r <> request_id (sr_request o1)) (kv_cache_manager s1) t.1) (kv_cache_manager s1, sr_request o1) ->
  wp (on_kv_request a m) (fun x s2 => exists r, touched a o (so_set_request r o1) s s2 /\ same_but_memo (sr_request o1) r /\
    Q x (kv_cache_manager s2, r) /\ sets s2 = sets s1 /\ connector s2 = connector s1 /\
    encoder_cache_manager s2 = encoder_cache_manager s1) s1.
Proof.
  intros Ht Hw. unfold on_kv_request. apply wp_bind. eapply wp_obj; [by eapply touched_lookup|]. apply wp_zoom.
  eapply wp_mono; [exact Hw|]. intros x [k r] (HQ & Hk & Hm & Hh & Hke). cbn [fst snd] in *. exists r.
  pose proof (to_id _ _ _ _ _ Ht) as Hid. change (request_id (sr_request o1)) with (so_id o1) in Hh, Hke. rewrite Hid in Hh, Hke.
  split_and!; [|done|done|done|done|done]. apply (touch_obj a o o1 s (set_kv k s1)); [by apply touch_kv|..]; unfold so_id, same_but_memo in *; cbn; by rewrite Hm.
Qed.

(** ** Promotion *)

Lemma same_transfer_refl x rid : same_transfer x x rid.
Proof. by split. Qed.

Lemma memo_refl r : same_but_memo r r.
Proof. by destruct r. Qed.

Lemma remote_failed_spec s p sk a o :
  wait_ok s p sk -> tracked s a o -> object_ok o -> transferred s o ->
  let n := num_computed_tokens (sr_request o) in
  wp (if negb (n =? 0) then
        on_kv_request a (kv_cache_blocks n) ;;
        when (needs_kv_cache_zeroing cfg) (on_kv (kv_record_blocks_for_zeroing (so_id o) n))
      else on_kv (kv_free (sr_request o)))
    (fun _ s1 => exists r, touched a o (so_set_request r o) s s1 /\ same_but_memo (sr_request o) r /\ sets s1 = sets s /\
      if n =? 0 then kv_idle (kv_cache_manager s1) r else kv_ready (kv_cache_manager s1) r) s.
Proof.
  intros Hw [Ho Hg] Hok [T1 T2 T5 T3 T4]. cbv zeta. pose proof (touched_refl s p sk a o Hw Ho) as Ht.
  pose proof (pw_kv _ _ (lc_parts _ _ _ (wo_inv _ _ _ Hw))) as Hk. cbn in Hk.
  destruct (Z.eqb_spec (num_computed_tokens (sr_request o)) 0) as [En|En]; cbn [negb].
  - apply wp_zoom. eapply wp_mono; [apply wp_conj; [by apply kvl_free|by apply kvl_loaded_free]|].
    intros [] k [[Hk' Hh] [Hi Hke]]. exists (sr_request o). split_and!; [|apply memo_refl|done|done].
    replace (so_set_request (sr_request o) o) with o by by destruct o. apply touch_kv; [done|done|intros q Hq; left; by apply Hh|done].
  - apply wp_bind. eapply wp_mono; [apply (touched_kv_request (kv_cache_blocks (num_computed_tokens (sr_request o)))
      (fun _ t => kv_ready t.1 t.2) a o o s s Ht)|].
    + eapply wp_mono; [apply wp_conj; [apply kvl_cache; [done|apply kvl_loaded_cacheable; [done|lia]]|apply kvl_loaded_cache; [done|done|lia]]|].
      intros [] t [(K1 & K2 & K3) (K4 & K5 & _)]. split_and!; try done. intros q Hq. left. by apply K3.
    + intros [] s1 (r & Ht1 & Hm & Hr & Hs & _). apply wp_when; intros _; [|by exists r]. apply wp_zoom.
      destruct (to_kv _ _ _ _ _ Ht1) as (Hk1 & _ & _).
      eapply wp_mono; [apply wp_conj; [by apply kvl_zero|by apply kvl_loaded_zero]|]. intros [] k [[Hk' Hh] Hke]. exists r.
      split_and!; [|done|done|by apply Hke]. apply touch_kv; [done|done|intros q Hq; left; by apply Hh|]. by apply (kv_kept_weaken (fun _ => True)).
Qed.

Lemma same_counts r r' : same_but_memo r r' ->
  num_computed_tokens r' = num_computed_tokens r /\ num_tokens r' = num_tokens r /\ status r' = status r /\
  mm_features r' = mm_features r /\ request_id r' = request_id r.
Proof. unfold same_but_memo. by intros ->. Qed.

(** The request after its transfer. *)
Record loaded (a : Z) (o : SReq) (s s' : Sched) (r : Request) : Prop := {
  ld_touched : touched a o (so_set_request r o) s s';
  ld_status : status r = status (sr_request o);
  ld_ok : object_ok (so_set_request r o);
  ld_admissible : admissible (kv_cache_manager s') (so_set_request r o)
}.

Lemma loaded_memo a o s s' r :
  object_ok o -> touched a o (so_set_request r o) s s' -> same_but_memo (sr_request o) r ->
  0 <= num_computed_tokens (sr_request o) < num_tokens (sr_request o) ->
  Forall (fun f => offset (mm_position f) < num_tokens (sr_request o)) (mm_features (sr_request o)) ->
  (if num_computed_tokens (sr_request o) =? 0 then kv_idle (kv_cache_manager s') r else kv_ready (kv_cache_manager s') r) ->
  loaded a o s s' r.
Proof.
  intros Hok Ht Hm Hc Hft Hr. destruct (same_counts _ _ Hm) as (C1 & C2 & C3 & C4 & _). split; [done|done|by apply memo_object_ok|].
  split; cbn; rewrite ?C1, ?C2, ?C4; done.
Qed.

Lemma remote_loaded_spec s p sk a o :
  wait_ok s p sk -> tracked s a o -> object_ok o -> transferred s o -> so_id o ∉ failed_recving_kv_req_ids (sets s) ->
  let n := num_computed_tokens (sr_request o) in
  wp (on_kv_request a (kv_cache_blocks n) ;;
      when (n =? num_tokens (sr_request o)) (modify_request a (set_computed (num_tokens (sr_request o) - 1))))
    (fun _ s1 => sets s1 = sets s /\ exists r, loaded a o s s1 r) s.
Proof.
  intros Hw [Ho Hg] Hok [T1 T2 T5 T3 T4] Hnf. cbv zeta. destruct (T4 Hnf) as [Hpos Htwo]. pose proof (touched_refl s p sk a o Hw Ho) as Ht.
  pose proof (pw_kv _ _ (lc_parts _ _ _ (wo_inv _ _ _ Hw))) as Hk. cbn in Hk. apply wp_bind.
  eapply wp_mono; [apply (touched_kv_request (kv_cache_blocks (num_computed_tokens (sr_request o)))
    (fun _ t => kv_ready t.1 t.2 /\ kv_ready t.1 (set_computed (num_tokens (sr_request o) - 1) t.2)) a o o s s Ht)|].
  { eapply wp_mono; [apply wp_conj; [apply kvl_cache; [done|by apply kvl_loaded_cacheable]|by apply kvl_loaded_cache]|].
    intros [] t [(K1 & K2 & K3) (K4 & K5 & K6)]. split_and!; try done. intros q Hq. left. by apply K3. }
  intros [] s1 (r & Ht1 & Hm & [Hr1 Hr2] & Hs & _). destruct (same_counts _ _ Hm) as (C1 & C2 & C3 & C4 & C5). cbn [fst snd] in *.
  apply wp_when; intros En.
  - apply Z.eqb_eq in En. eapply wp_modify_obj; [by eapply touched_lookup|]. split; [done|].
    exists (set_computed (num_tokens (sr_request o) - 1) r). split; cbn.
    + by apply (touch_obj a o (so_set_request r o) s s1 Ht1 (so_set_request (set_computed (num_tokens (sr_request o) - 1) r) (so_set_request r o))).
    + done.
    + pose proof (memo_object_ok o r Hm Hok) as [[S1 S2] B2 B3]. split; [by split|by apply (enl_knows r)|done].
    + split; cbn.
      * change (num_tokens (set_computed (num_tokens (sr_request o) - 1) r)) with (num_tokens r). lia.
      * change (num_tokens (set_computed (num_tokens (sr_request o) - 1) r)) with (num_tokens r). by rewrite C2, C4.
      * destruct (Z.eqb_spec (num_tokens (sr_request o) - 1) 0); [lia|done].
  - apply Z.eqb_neq in En. split; [done|]. exists r. apply loaded_memo; try done; [lia|]. destruct (Z.eqb_spec (num_computed_tokens (sr_request o)) 0); [lia|done].
Qed.

Lemma update_waiting_effect s p sk a o :
  wait_ok s p sk -> tracked s a o -> object_ok o -> is_Some (connector s) -> so_id o ∈ finished_recving_kv_req_ids (sets s) -> transferred s o ->
  wp (update_waiting_for_remote_kv cfg a) (fun _ s' => exists r, loaded a o s s' r) s.
Proof.
  intros Hw Htr Hok Hc Hfin Htf. pose proof Htr as [Ho Hg]. unfold update_waiting_for_remote_kv. apply wp_bind, wp_get.
  apply wp_bind, wp_assert; [by apply bool_decide_eq_true|]. apply wp_bind. eapply wp_obj; [done|]. cbv zeta. apply wp_bind.
  apply (wp_mono _ (fun _ s1 => so_id o ∈ finished_recving_kv_req_ids (sets s1) /\ exists r, loaded a o s s1 r)).
  - case_bool_decide as Efail.
    + apply wp_bind. eapply wp_mono; [by apply (remote_failed_spec s p sk a o)|]. intros [] s1 (r & Ht1 & Hm & Hs & Hk). apply wp_modify.
      split; [cbn; by rewrite Hs|]. exists r. apply loaded_memo; try done; [|pose proof (tf_failed _ _ Htf Efail); pose proof (tf_counts _ _ Htf); lia|apply Htf].
      apply touch_sets; [done|..]; cbn; [|by left]. intros rid Hr. split; cbn; [done|set_solver].
    + eapply wp_mono; [by apply (remote_loaded_spec s p sk a o)|]. intros [] s1 [Hs Hr]. split; [by rewrite Hs|done].
  - intros [] s1 (Hf1 & r & [D1 D2 D3 D4]). apply wp_bind, wp_get, wp_bind. rewrite bool_decide_eq_true_2 by done. apply wp_ret, wp_modify.
    exists r. split; try done. apply touch_sets; [done|..]; cbn; [|by left]. intros rid Hr. split; cbn; [set_solver|done].
Qed.

Lemma status_ok_wait o st : object_ok o -> can_wait st -> object_ok (so_set_status st o).
Proof. intros Hok Hst. apply set_status_ok; [done|]. by destruct Hst as [->| ->]. Qed.

Lemma admissible_status (k : K) o st : admissible k o -> admissible k (so_set_status st o).
Proof.
  intros [A1 A3 A2]. split; [done|done|]. cbn. destruct (_ =? 0); [by destruct (kvl_idle_attrs k (sr_request o) st 0 A2)|by apply kvl_ready_attrs].
Qed.

(** [_try_promote_blocked_waiting_request], in the loop. *)
Lemma promote_spec s p sk a o :
  wait_ok s p sk -> in_queues s a -> objs s !! a = Some o -> is_blocked_waiting_status (so_status o) = true ->
  wp (try_promote_blocked_waiting_request cfg a) (fun ok s' => exists o', touched a o o' s s' /\ object_ok o' /\
    if ok then can_wait (so_status o') /\ admissible (kv_cache_manager s') o' /\ so_status o <> WAITING_FOR_STREAMING_REQ
    else so_status o' = so_status o /\ waitable s' o') s.
Proof.
  intros Hw Hq Ho Hb. destruct (queued_tracked s sk p a Hw Hq) as (o1 & Htr & Hok & Hf & Hcs & Hwt).
  pose proof Htr as [Ho1 Hg]. rewrite Ho in Ho1. injection Ho1 as <-. pose proof (touched_refl s p sk a o Hw Ho) as Ht.
  unfold try_promote_blocked_waiting_request. apply wp_bind. eapply wp_obj; [done|]. apply wp_bind, wp_get.
  destruct (so_status o) eqn:Es; try discriminate Hb.
  - assert (admissible (kv_cache_manager s) o) as Had by (unfold waitable in Hwt; by rewrite Es in Hwt).
    destruct (structured_output_request o) as [[| |]|].
    + apply wp_ret. by exists o.
    + apply wp_bind, wp_modify, wp_ret. exists o. split_and!; [|done|done|].
      * apply touch_sets; [done|done|by left].
      * apply (waitable_kept s _ o (fun _ => True)); done.
    + apply wp_bind. eapply wp_modify_obj; [done|]. apply wp_ret. exists (so_set_status WAITING o).
      split_and!; [by apply (touch_obj a o o)|apply status_ok_wait; [done|by left]|by left|by apply admissible_status|done].
    + apply wp_ret. by exists o.
  - assert (is_Some (connector s) /\ (so_id o ∈ finished_recving_kv_req_ids (sets s) -> transferred s o)) as [Hc Htf]
      by (unfold waitable in Hwt; by rewrite Es in Hwt).
    case_bool_decide as Ef; cbn [negb]; [|apply wp_ret; by exists o].
    apply wp_bind. eapply wp_mono; [apply (update_waiting_effect s p sk a o); auto|]. intros [] s1 (r & [D1 D2 D3 D4]).
    apply wp_bind. eapply wp_modify_obj; [by eapply touched_lookup|]. apply wp_ret.
    set (st := if negb (num_preemptions (sr_request (so_set_request r o)) =? 0) then PREEMPTED else WAITING).
    assert (can_wait st) as Hcw by (unfold st; destruct (negb _); [by right|by left]).
    exists (so_set_status st (so_set_request r o)).
    split_and!; [by apply (touch_obj a o (so_set_request r o))|by apply status_ok_wait|done|by apply admissible_status|done].
  - apply wp_bind, wp_assert; [|apply wp_ret; by exists o].
    apply bool_decide_eq_true. destruct (proj2 (ob_session _ Hok) Es) as [_ ->]. done.
Qed.

Lemma admissible_waitable s o : can_wait (so_status o) -> admissible (kv_cache_manager s) o -> waitable s o.
Proof. intros [Hs|Hs] Ha; unfold waitable; by rewrite Hs. Qed.

(** The first part of a round: the request is skipped, or it can be admitted. *)
Lemma skips_round_spec q s p sk a :
  wait_ok s p sk -> at_head q s a ->
  wp (skips_round cfg a p) (fun skip s' => wait_ok s' p sk /\ at_head q s' a /\ num_waiting s' = num_waiting s /\
    running s' = running s /\ num_waiting_for_streaming_input s' = num_waiting_for_streaming_input s /\
    (skip = false -> exists o, objs s' !! a = Some o /\ can_wait (so_status o) /\ admissible (kv_cache_manager s') o)) s.
Proof.
  intros Hw Hh. pose proof (at_head_in q s a Hh) as Hq. destruct (queued_tracked s sk p a Hw Hq) as (o & [Ho Hg] & Hok & Hf & Hcs & Hwt).
  unfold skips_round. apply wp_bind. eapply wp_obj; [done|]. destruct (is_blocked_waiting_status (so_status o)) eqn:Eb.
  - apply wp_bind, wp_bind. eapply wp_mono; [by apply (promote_spec s p sk a o)|]. intros ok s1 (o' & Ht & Hok' & Hcase). apply wp_ret.
    assert (wait_ok s1 p sk) as Hw1.
    { apply (touched_wait s s1 sk p a o o'); try done.
      - destruct ok; [|by left; apply Hcase]. right. destruct Hcase as (C1 & _ & C3). split_and!; [|done|done].
        destruct Hq as [Hq|Hq]; [|done]. exfalso.
        destruct (lc_waiting _ _ _ (wo_inv _ _ _ Hw) a o Hq Ho) as [Hs|Hs]; by rewrite Hs in Eb.
      - destruct ok; [by apply admissible_waitable; apply Hcase|by apply Hcase]. }
    pose proof (touched_lookup a o o' s s1 Ht) as Ho1. destruct Ht as [_ _ _ _ _ A6 A7 A8 A9 _ _ _ _ _].
    assert (at_head q s1 a) as Hh1 by (unfold at_head, queue_of in *; by rewrite A7, A8).
    assert (num_waiting s1 = num_waiting s) as Hn1 by (unfold num_waiting; by rewrite A7, A8).
    destruct ok; cbn [negb]; [|by apply wp_ret]. apply wp_bind. eapply wp_obj; [done|]. apply wp_ret. split_and!; try done.
    intros _. exists o'. by destruct Hcase as (C1 & C2 & _).
  - apply wp_bind, wp_ret, wp_bind. eapply wp_obj; [done|]. apply wp_ret. split_and!; [done|done|done|done|done|]. intros _. exists o.
    assert (can_wait (so_status o)) as Hcw by (destruct Hcs as [|Hx]; [done|congruence]). split_and!; [done|done|].
    unfold waitable in Hwt. by destruct Hcw as [Hs|Hs]; rewrite Hs in Hwt.
Qed.

(** ** Lookup *)

(** A request being looked up. *)
Record looked (a : Z) (o : SReq) (s : Sched) (o1 : SReq) (s1 : Sched) : Prop := {
  lk_touched : touched a o o1 s s1;
  lk_ok : object_ok o1;
  lk_status : so_status o1 = so_status o;
  lk_tokens : num_tokens (sr_request o1) = num_tokens (sr_request o);
  lk_computed : num_computed_tokens (sr_request o1) = num_computed_tokens (sr_request o)
}.

Lemma looked_memo a o s o1 s1 r s2 :
  looked a o s o1 s1 -> touched a o (so_set_request r o1) s s2 -> same_but_memo (sr_request o1) r -> looked a o s (so_set_request r o1) s2.
Proof.
  intros [L1 L2 L3 L4 L5] Ht Hm. destruct (same_counts _ _ Hm) as (C1 & C2 & C3 & C4 & C5).
  split; [done|by apply memo_object_ok|unfold so_status in *; cbn; congruence|cbn; congruence|cbn; congruence].
Qed.

Lemma looked_boundary a o s o1 s1 b :
  looked a o s o1 s1 ->
  wp (modify_request a (set_boundary b)) (fun _ s2 => looked a o s (so_set_request (set_boundary b (sr_request o1)) o1) s2 /\
    kv_cache_manager s2 = kv_cache_manager s1 /\ connector s2 = connector s1) s1.
Proof.
  intros [L1 L2 L3 L4 L5]. eapply wp_modify_obj; [by eapply touched_lookup|]. split; [|done]. split; try done.
  - by apply (touch_obj a o o1).
  - destruct L2 as [[S1 S2] B2 B3]. split; [by split|by apply (enl_knows (sr_request o1))|done].
Qed.

(** The result of a local lookup. *)
Definition hit_ok (k : K) (r : Request) (b : KVCacheBlocks) (n : Z) : Prop :=
  kv_idle k r /\ 0 <= n < num_tokens r /\ kv_hit k r b n.

Lemma looked_computed_blocks a o s o1 s1 :
  looked a o s o1 s1 -> kv_idle (kv_cache_manager s1) (sr_request o1) ->
  wp (on_kv_request a kv_get_computed_blocks) (fun res s2 => exists r, looked a o s (so_set_request r o1) s2 /\
    connector s2 = connector s1 /\ hit_ok (kv_cache_manager s2) r res.1.1 res.1.2) s1.
Proof.
  intros Hl Hi. pose proof (lk_touched _ _ _ _ _ Hl) as Ht. destruct (to_kv _ _ _ _ _ Ht) as (Hk & _).
  eapply wp_mono; [apply (touched_kv_request kv_get_computed_blocks (fun res t => hit_ok t.1 t.2 res.1.1 res.1.2) a o o1 s s1 Ht)|].
  - eapply wp_mono; [by apply kvl_lookup|]. intros res t (K1 & K2 & K3 & K4 & K5 & K6 & K7).
    destruct (same_counts _ _ K2) as (_ & C2 & _).
    split; [split_and!; [done|lia|lia|done]|]. split_and!; [done|done|intros q Hq; left; by apply K3|by apply (kv_kept_weaken (fun _ => True))].
  - intros res s2 (r & Ht2 & Hm & Hh & _ & Hc & _). exists r. split_and!; [by eapply looked_memo|done|done].
Qed.

Lemma looked_connector_blocks a o s o1 s1 :
  looked a o s o1 s1 -> kv_idle (kv_cache_manager s1) (sr_request o1) ->
  wp (on_kv_request a kv_get_computed_blocks_for_connector) (fun res s2 => exists r, looked a o s (so_set_request r o1) s2 /\
    connector s2 = connector s1 /\ hit_ok (kv_cache_manager s2) r res.1.1.1 res.1.1.2) s1.
Proof.
  intros Hl Hi. pose proof (lk_touched _ _ _ _ _ Hl) as Ht. destruct (to_kv _ _ _ _ _ Ht) as (Hk & _).
  eapply wp_mono; [apply (touched_kv_request kv_get_computed_blocks_for_connector (fun res t => hit_ok t.1 t.2 res.1.1.1 res.1.1.2) a o o1 s s1 Ht)|].
  - eapply wp_mono; [by apply kvl_lookup_connector|]. intros res t (K1 & K2 & K3 & K4 & K5 & K6 & K7).
    destruct (same_counts _ _ K2) as (_ & C2 & _).
    split; [split_and!; [done|lia|lia|done]|]. split_and!; [done|done|intros q Hq; left; by apply K3|by apply (kv_kept_weaken (fun _ => True))].
  - intros res s2 (r & Ht2 & Hm & Hh & _ & Hc & _). exists r. split_and!; [by eapply looked_memo|done|done].
Qed.

Lemma hit_boundary (k : K) r b bl n : hit_ok k r bl n -> hit_ok k (set_boundary b r) bl n.
Proof.
  intros (H1' & H2' & H3'). split_and!; [by destruct (kvl_idle_attrs k r WAITING b H1')|apply H2'|apply H2'|by apply kvl_hit_attrs].
Qed.

Lemma get_local_spec a o s o1 s1 :
  looked a o s o1 s1 -> kv_idle (kv_cache_manager s1) (sr_request o1) ->
  wp (get_local_prefix_cache_hit a) (fun res s2 => exists r, looked a o s (so_set_request r o1) s2 /\
    connector s2 = connector s1 /\ hit_ok (kv_cache_manager s2) r res.1.1.1 res.1.1.2) s1.
Proof.
  intros Hl Hi. unfold get_local_prefix_cache_hit. apply wp_bind, wp_get.
  assert (wp ('(b, n, boundary) ← on_kv_request a kv_get_computed_blocks; mret (b, n, boundary, false)) (fun res s2 =>
    exists r, looked a o s (so_set_request r o1) s2 /\ connector s2 = connector s1 /\ hit_ok (kv_cache_manager s2) r res.1.1.1 res.1.1.2) s1) as Hg.
  { apply wp_bind. eapply wp_mono; [by apply looked_computed_blocks|]. intros [[b n] bd] s2 Hr. by apply wp_ret. }
  pose proof (looked_connector_blocks a o s o1 s1 Hl Hi) as Hg2.
  destruct (connector s1); [|done]. by destruct cn_supports_divergent_local_hybrid_hits.
Qed.

(** What is found: a hit of a request without computed tokens, or the tokens a
    request already has. *)
Record found_ok (k : K) (o : SReq) (f : Found) : Prop := {
  fk_local : 0 <= num_new_local_computed_tokens f;
  fk_external : 0 <= num_external_computed_tokens f;
  fk_total : num_computed_tokens (sr_request o) + num_new_local_computed_tokens f + num_external_computed_tokens f = found_computed_tokens f;
  fk_async : load_kv_async f = true -> 0 < num_external_computed_tokens f;
  fk_bound : found_computed_tokens f <= num_tokens (sr_request o) /\
    (load_kv_async f = false -> found_computed_tokens f < num_tokens (sr_request o));
  fk_kv : if num_computed_tokens (sr_request o) =? 0 then
      kv_hit k (sr_request o) (new_computed_blocks f) (num_new_local_computed_tokens f)
    else new_computed_blocks f = kv_empty_kv_cache_blocks k /\ num_new_local_computed_tokens f = 0 /\
      num_external_computed_tokens f = 0 /\ kv_ready k (sr_request o)
}.

(** What the connector adds to a hit. *)
Definition external_ok (k : K) (r : Request) (res : option (KVCacheBlocks * Z * Z * bool)) : Prop :=
  forall b local ext async, res = Some (b, local, ext, async) ->
    0 <= local /\ kv_hit k r b local /\ 0 <= ext /\ local + ext <= num_tokens r /\
    (async = true -> 0 < ext) /\ (async = false -> local + ext < num_tokens r).

Lemma looked_connector {A} (none : A) (m : M C A) (Q : A -> Prop) a o s o1 s1 :
  looked a o s o1 s1 -> (connector s1 = None -> Q none) -> (forall c, cn_wf c -> wp m (fun x c' => cn_wf c' /\ Q x) c) ->
  wp (on_connector none m) (fun x s2 => looked a o s o1 s2 /\ kv_cache_manager s2 = kv_cache_manager s1 /\ Q x /\
    encoder_cache_manager s2 = encoder_cache_manager s1) s1.
Proof.
  intros Hl Hn Hm. pose proof Hl as [L1 L2 L3 L4 L5]. apply wp_on_connector; [intros Hc; split_and!; [done|done|by apply Hn|done]|].
  intros c Hc. destruct (to_conn _ _ _ _ _ L1) as [_ Hwf]. eapply wp_mono; [apply Hm; by apply (Hwf c)|].
  intros x c' [Hc' HQ]. split_and!; [|done|done|done]. split; try done. by eapply touch_conn.
Qed.

Lemma lookup_external_spec a o s o1 s1 blocks local diverged :
  looked a o s o1 s1 -> is_Some (connector s1) -> hit_ok (kv_cache_manager s1) (sr_request o1) blocks local ->
  wp (lookup_external cfg a blocks local diverged) (fun res s2 => exists o2, looked a o s o2 s2 /\
    kv_idle (kv_cache_manager s2) (sr_request o2) /\ external_ok (kv_cache_manager s2) (sr_request o2) res) s1.
Proof.
  intros Hl Hc (Hi & Hn & Hh). unfold lookup_external. apply wp_bind. eapply wp_obj; [eapply touched_lookup, Hl|]. cbv zeta.
  pose proof (Z.mod_pos_bound local (sc_block_size cfg) block_size_pos) as Hmod. pose proof (Z.mod_le local (sc_block_size cfg) ltac:(lia) block_size_pos) as Hle.
  set (tail := local mod sc_block_size cfg) in *. apply wp_bind.
  eapply wp_mono; [apply (looked_connector _ _ (fun res : option Z * bool => forall e, res.1 = Some e -> 0 <= e /\ local - tail + e <= num_tokens (sr_request o1) /\
    (res.2 = true -> 0 < e) /\ (res.2 = false -> local - tail + e < num_tokens (sr_request o1))) a o s o1 s1 Hl)|].
  { intros Hx. rewrite Hx in Hc. by destruct Hc. }
  { intros c Hcw. eapply wp_mono; [apply cnl_matched; [done|lia]|]. by intros res c' Hr. }
  intros [ext async] s2 (Hl2 & Hk2 & He & _). cbn [fst snd] in He. rewrite <- Hk2 in Hi, Hh.
  destruct ext as [e|]; [|apply wp_ret; by exists o1]. destruct (He e eq_refl) as (E1 & E2 & E3 & E4).
  destruct (to_kv _ _ _ _ _ (lk_touched _ _ _ _ _ Hl2)) as (Hwf & _). apply wp_bind.
  apply (wp_mono _ (fun res s3 => s3 = s2 /\ external_ok (kv_cache_manager s2) (sr_request o1) (Some res))).
  - destruct (Z.eqb_spec tail 0) as [Ht0|Ht0]; cbn [negb andb].
    + apply wp_ret. split; [done|]. intros b l x y [= <- <- <- <-]. split_and!; try done; lia || (intros Hx; pose proof (E3 Hx); pose proof (E4 Hx); lia) || idtac; intros Hx; [pose proof (E4 Hx)]; lia.
    + destruct (Z.ltb_spec tail e).
      * apply wp_bind, wp_zoom. eapply wp_mono; [by apply (kvl_truncate _ (sr_request o1) blocks local)|]. intros b' k' [-> Hb']. apply wp_ret.
        split; [by destruct s2|]. intros b l x y [= <- <- <- <-]. split_and!; try done; lia.
      * apply wp_ret. split; [done|]. intros b l x y [= <- <- <- <-]. split_and!; try done; lia.
  - intros [[[b l] x] y] s3 [-> Hx]. destruct (diverged && (x =? 0)) eqn:Ed.
    + apply andb_true_iff in Ed as [_ Ex]. apply Z.eqb_eq in Ex. subst x.
      apply wp_bind. eapply wp_mono; [by apply (looked_computed_blocks a o s o1 s2)|]. intros [[b' n'] bd] s3 (r & Hl3 & _ & Hh3). cbn [fst snd] in Hh3.
      apply wp_bind. eapply wp_mono; [by apply (looked_boundary a o s (so_set_request r o1) s3 bd)|]. intros [] s4 (Hl4 & Hk4 & _). apply wp_ret.
      eexists. split_and!; [exact Hl4|..]; rewrite Hk4; apply (hit_boundary _ _ bd) in Hh3; cbn; [by apply Hh3|].
      intros b0 l0 x0 y0 [= <- <- <- <-]. destruct Hh3 as (_ & Hr & Hh3). destruct (Hx b l 0 y eq_refl) as (_ & _ & _ & _ & X5 & _).
      split_and!; try done; lia || (intros Hy; pose proof (X5 Hy); lia) || idtac; lia.
    + apply wp_ret. by exists o1.
Qed.

Lemma looked_ec a o s o1 s1 r n :
  looked a o s o1 s1 ->
  wp (ec_transfer_pending r n) (fun _ s2 => looked a o s o1 s2 /\ kv_cache_manager s2 = kv_cache_manager s1) s1.
Proof.
  intros Hl. pose proof Hl as [L1 L2 L3 L4 L5]. eapply wp_mono; [apply ec_pending_spec, (to_ec _ _ _ _ _ L1)|].
  intros b s2 (x & -> & Hx). split; [|done]. split; try done. by apply touch_ec.
Qed.

Lemma looked_admissible a o s o1 s1 :
  looked a o s o1 s1 -> 0 <= num_computed_tokens (sr_request o) < num_tokens (sr_request o) ->
  Forall (fun f => offset (mm_position f) < num_tokens (sr_request o)) (mm_features (sr_request o)) ->
  (if num_computed_tokens (sr_request o) =? 0 then kv_idle (kv_cache_manager s1) (sr_request o1) else kv_ready (kv_cache_manager s1) (sr_request o1)) ->
  admissible (kv_cache_manager s1) o1.
Proof. intros [L1 L2 L3 L4 L5] Hc Hf Hk. split; rewrite ?L4, ?L5, ?(to_features _ _ _ _ _ L1); done. Qed.

Lemma lookup_computed_spec s p sk a o :
  wait_ok s p sk -> objs s !! a = Some o -> object_ok o -> admissible (kv_cache_manager s) o ->
  wp (lookup_computed cfg a) (fun res s1 => exists o1, looked a o s o1 s1 /\ admissible (kv_cache_manager s1) o1 /\
    forall f, res = Some f -> found_ok (kv_cache_manager s1) o1 f) s.
Proof.
  intros Hw Ho Hok [A1 A3 A2].
  assert (looked a o s o s) as Hl by (split; [by eapply touched_refl|done..]).
  unfold lookup_computed. apply wp_bind. eapply wp_obj; [done|]. apply wp_bind, wp_get.
  destruct (Z.eqb_spec (num_computed_tokens (sr_request o)) 0) as [En|En].
  - apply wp_bind. eapply wp_mono; [by apply (get_local_spec a o s o s)|]. intros [[[b n] bd] dv] s1 (r & Hl1 & Hc1 & Hh). cbn [fst snd] in Hh.
    apply wp_bind. eapply wp_mono; [by apply (looked_boundary a o s (so_set_request r o) s1 bd)|]. intros [] s2 (Hl2 & Hk2 & Hc2).
    apply (hit_boundary _ _ bd) in Hh. rewrite <- Hk2 in Hh. cbn [sr_request so_set_request] in Hl2.
    set (o2 := so_set_request (set_boundary bd r) (so_set_request r o)) in *. apply wp_bind.
    apply (wp_mono _ (fun res s3 => exists o3, looked a o s o3 s3 /\ kv_idle (kv_cache_manager s3) (sr_request o3) /\
      external_ok (kv_cache_manager s3) (sr_request o3) res)).
    + destruct (connector s) as [c|] eqn:Ec; [apply (lookup_external_spec a o s o2 s2); [done|rewrite Hc2, Hc1; by eexists|done]|].
      apply wp_ret. exists o2. split_and!; [done|by apply Hh|]. destruct Hh as (_ & Hr & Hh). intros b0 l0 x0 y0 [= <- <- <- <-].
      cbn [sr_request so_set_request o2]. split_and!; try done; lia.
    + intros res s3 (o3 & Hl3 & Hi3 & Hx3). pose proof (lk_tokens _ _ _ _ _ Hl3) as Ht3. pose proof (lk_computed _ _ _ _ _ Hl3) as Hc3.
      assert (forall s4, looked a o s o3 s4 -> kv_cache_manager s4 = kv_cache_manager s3 -> admissible (kv_cache_manager s4) o3) as Had.
      { intros s4 Hl4 Hk4. apply (looked_admissible a o s); [done|done|done|]. rewrite En. cbn. by rewrite Hk4. }
      destruct res as [[[[b3 l3] x3] y3]|]; [|apply wp_ret; exists o3; by split_and!; [|apply Had|]].
      destruct (Hx3 _ _ _ _ eq_refl) as (X1 & X2 & X3 & X4 & X5 & X6). apply wp_bind, wp_assert; [apply Z.leb_le; lia|].
      apply wp_bind. eapply wp_mono; [by apply (looked_ec a o s o3 s3)|]. intros pending s4 [Hl4 Hk4].
      destruct pending; apply wp_ret; exists o3; (split_and!; [done|by apply Had|]); [done|]. intros f [= <-].
      split; cbn.
      * done.
      * done.
      * lia.
      * done.
      * split; [lia|]. intros Hy. pose proof (X6 Hy). lia.
      * rewrite Hc3, En. cbn. by rewrite Hk4.
  - apply wp_bind. eapply wp_mono; [by apply (looked_ec a o s o s)|]. intros pending s1 [Hl1 Hk1].
    assert (admissible (kv_cache_manager s1) o) as Had by (rewrite Hk1; split; [done|done|]; destruct (Z.eqb_spec (num_computed_tokens (sr_request o)) 0); done).
    destruct pending; apply wp_ret; exists o; (split_and!; [done|done|]); [done|]. intros f [= <-]. rewrite Hk1.
    split; cbn; try done; try lia. by destruct (Z.eqb_spec (num_computed_tokens (sr_request o)) 0).
Qed.

(** ** The chunk *)

(** A chunk fits the budgets; a padded decode has the uniform size. *)
Definition fits (p : Pass) (n : Z) : Prop := 0 < n <= token_budget p /\ n + draft_slots cfg <= input_budget p.
Definition padded_ok (o : SReq) (f : Found) (n : Z) (pad : bool) : Prop :=
  pad = true -> n = 1 + num_spec_tokens cfg /\ found_computed_tokens f + 1 = num_tokens (sr_request o).

Lemma pad_decode_spec p c num_new budget n pad :
  0 < num_new -> pad_decode cfg p c num_new budget = Some (n, pad) ->
  0 < n /\ (pad = true -> n = 1 + num_spec_tokens cfg /\ num_new = 1 /\ n <= budget).
Proof.
  intros Hn. unfold pad_decode. pose proof (ck_spec _ cfg_ok) as Hs. destruct (_ && (num_new =? 1) && _ && _ && _) eqn:Ep.
  - destruct (Z.ltb_spec budget (1 + num_spec_tokens cfg)); [done|]. intros [= <- <-]. rewrite !andb_true_iff, Z.eqb_eq in Ep.
    split; [lia|]. intros _. split_and!; [done|apply Ep|done].
  - intros [= <- <-]. by split.
Qed.

Lemma waiting_tokens_spec s p (k : K) o f :
  found_ok k o f -> 0 <= num_computed_tokens (sr_request o) -> load_kv_async f = false -> 0 < token_budget p -> draft_slots cfg < input_budget p ->
  wp (waiting_tokens cfg o f p) (fun res s' => s' = s /\ forall n pad, res = Some (n, pad) -> fits p n /\ padded_ok o f n pad) s.
Proof.
  intros [F1 F2 F3 F4 [F5 F6] _] Hc Ha Ht Hi. specialize (F6 Ha). unfold waiting_tokens. cbv zeta.
  set (budget := Z.min (token_budget p) _). assert (0 < budget) as Hb by (unfold budget; lia).
  destruct (pad_decode _ _ _ _ _) as [[n pad]|] eqn:Ep; [|by apply wp_ret]. apply pad_decode_spec in Ep as [Hn Hpad]; [|lia].
  pose proof (ck_pad _ cfg_ok) as Hth. set (th := long_prefill_token_threshold _) in *.
  set (m := if _ && _ then th else n).
  assert (0 < m /\ (pad = true -> m = n)) as [Hm Hmp].
  { unfold m. destruct (Z.ltb_spec 0 th); [|by split]. destruct (Z.ltb_spec th n); [|by split].
    split; [done|]. intros Hp. destruct (Hpad Hp) as (Hp1 & _ & _). specialize (Hth ltac:(done)). lia. }
  destruct (negb _ && _); [by apply wp_ret|]. apply wp_bind, wp_assert; [apply Z.ltb_lt; lia|].
  assert (pad = true -> Z.min m budget = 1 + num_spec_tokens cfg /\ found_computed_tokens f + 1 = num_tokens (sr_request o)) as Hpo.
  { intros Hp. specialize (Hmp Hp). destruct (Hpad Hp) as (Hp1 & Hp2 & Hp3). lia. }
  destruct (need_mamba_block_aligned_split cfg).
  - apply wp_bind. eapply wp_mono; [apply align_split_spec; [done|lia|lia]|]. intros n' s' [-> Hn']. apply wp_ret. split; [done|].
    intros n1 pad1. destruct (Z.eqb_spec n' 0) as [|Hn0]; [done|]. destruct (pad && negb (n' =? _)) eqn:Eq.
    + intros [= <- <-]. unfold fits, budget in *. split; [lia|done].
    + intros [= <- <-]. unfold fits, budget in *. split; [lia|]. intros ->. destruct (Z.eqb_spec n' (1 + num_spec_tokens cfg)); [|done]. split; [done|by apply Hpo].
  - apply wp_ret. split; [done|]. intros n1 pad1 [= <- <-]. unfold fits, budget in *. split; [lia|]. intros Hp. by apply Hpo.
Qed.

(** What a round will do for its request. *)
Record chunk_ok (e : E) (o : SReq) (f : Found) (p : Pass) (c : Chunk) : Prop := {
  ch_async : load_kv_async f = true -> ch_num_new_tokens c = 0;
  ch_fits : load_kv_async f = false -> fits p (ch_num_new_tokens c);
  ch_inputs : valid_inputs (sr_request o) (ch_encoder_inputs c);
  ch_budget : 0 <= ch_encoder_budget c;
  ch_pend : pend e (sr_request o) (ch_encoder_inputs c ++ ch_external_inputs c);
  ch_pad : pad_spec_decode c = true -> ch_num_new_tokens c = 1 + num_spec_tokens cfg
}.

Lemma reserve_padded r c n : 0 <= n -> num_tokens r <= c + n -> reserve_prefill_lookahead (chunk_config cfg) r c n = n.
Proof. intros Hn Hc. unfold reserve_prefill_lookahead. cbv zeta. destruct (Z.ltb_spec 0 (num_tokens r - c - n)); cbn; lia. Qed.

Lemma waiting_chunk_spec defer s p a o o1 s1 f :
  looked a o s o1 s1 -> accounts s p -> admissible (kv_cache_manager s1) o1 -> found_ok (kv_cache_manager s1) o1 f ->
  0 < token_budget p -> draft_slots cfg < input_budget p ->
  wp (waiting_chunk cfg defer o1 f p) (fun res s2 => looked a o s o1 s2 /\ kv_cache_manager s2 = kv_cache_manager s1 /\
    (exists t i, res.2 = ps_budgets t i p /\ 0 <= t <= token_budget p /\ 0 <= i <= input_budget p) /\
    forall c, res.1 = Some c -> chunk_ok (encoder_cache_manager s2) o1 f res.2 c) s1.
Proof.
  intros Hl Hac [A1 A3 _] Hf Ht Hi. pose proof Hf as [F1 F2 F3 F4 [F5 F6] _]. pose proof (ck_slots _ cfg_ok) as Hds.
  assert (forall s2, exists t i, p = ps_budgets t i p /\ 0 <= t <= token_budget p /\ 0 <= i <= input_budget p) as Hsame.
  { intros _. exists (token_budget p), (input_budget p). split_and!; [by destruct p|lia..]. }
  unfold waiting_chunk. destruct (load_kv_async f) eqn:Ea.
  { apply wp_bind, wp_assert; [by apply Z.ltb_lt, F4|]. apply wp_ret. split_and!; [done|done|by apply Hsame|].
    cbn [fst snd]. intros c [= <-]. split; cbn; rewrite ?Ea; try done; [by apply Forall_nil_2|apply (ac_encoder _ _ _ Hac)|by left]. }
  destruct (defer && _); [apply wp_ret; by split_and!; [| |apply Hsame|]|].
  pose proof Hl as [L1 L2 L3 L4 L5]. apply wp_bind. eapply wp_mono; [by apply clamp_budgets_spec|].
  intros p1 s2 ((y & ->) & t & i & -> & Ht1 & Hi1).
  assert (exists t0 i0, ps_budgets t i p = ps_budgets t0 i0 p /\ 0 <= t0 <= token_budget p /\ 0 <= i0 <= input_budget p) as Hbud
    by (exists t, i; split_and!; [done|lia..]).
  apply wp_bind. eapply wp_mono; [apply (waiting_tokens_spec _ (ps_budgets t i p) (kv_cache_manager s1) o1 f); cbn; [done|lia|done|lia|lia]|]. intros tokens s3 [-> Htok].
  set (s2 := set_sets _ s1).
  assert (looked a o s o1 s2) as Hl2 by (split; [apply touch_sets; [done|done|by left]|done..]).
  destruct tokens as [[n pad]|]; [|by apply wp_ret]. destruct (Htok n pad eq_refl) as [[Hn Hni] Hpad]. cbn [token_budget input_budget ps_budgets] in Hn, Hni.
  apply wp_bind. eapply wp_mono; [apply schedule_encoder_spec; [done|apply (to_enc _ _ _ _ _ L1)|apply L2|lia|lia|apply (ac_encoder _ _ _ Hac)]|].
  intros [[[inputs n'] budget] ext] s4 (e & -> & Hge & Hn' & Hbe & Hv & Hpd & Hkeep). cbv beta zeta.
  pose proof (reserve_bounds cfg (sr_request o1) (found_computed_tokens f) n' ltac:(lia)) as Hres.
  pose proof (reserve_padded (sr_request o1) (found_computed_tokens f) n') as Hrp.
  set (m := reserve_prefill_lookahead _ _ _ n') in *.
  assert (looked a o s o1 (set_enc e s2)) as Hl4.
  { split; try done. apply touch_enc; [apply Hl2|]. by rewrite <- (to_id _ _ _ _ _ L1). }
  destruct (Z.eqb_spec m 0) as [|Hm]; apply wp_ret; (split_and!; [done|done|done|]); [done|].
  cbn [fst snd]. intros c [= <-]. split; cbn; rewrite ?Ea; try done.
  - intros _. unfold fits. cbn. lia.
  - apply Hpd. lia.
  - intros Hp. destruct (Hpad Hp) as [P1 P2]. pose proof (ck_spec _ cfg_ok).
    destruct Hkeep as [->| ->]; [|lia|lia]. eapply Forall_impl; [exact A3|]. cbv beta. lia.
Qed.

(** ** Leaving the queues *)

(** Where an admitted request goes: it waits for its transfer, or runs. *)
Inductive goes (a : Z) (st : RequestStatus) (w k : WaitQueue) (t : Sched) (sk : WaitQueue) : Sched -> WaitQueue -> Prop :=
| goes_skipped sk' : can_skip st -> members sk' ≡ₚ a :: members sk -> goes a st w k t sk (set_skipped k (set_waiting w t)) sk'
| goes_running : st = RUNNING -> goes a st w k t sk (set_running (running t ++ [a]) (set_skipped k (set_waiting w t))) sk.

Lemma depart_lifecycle s p sk a o o1 t w k s' sk' :
  wait_ok s p sk -> in_queues s a -> touched a o o1 s t -> can_wait (so_status o) -> object_ok o1 -> so_finished o1 = false ->
  so_status o1 <> WAITING_FOR_STREAMING_REQ -> popped a s w k -> goes a (so_status o1) w k t sk s' sk' -> lifecycle [] (merged s' sk').
Proof.
  intros Hw Hq [A1 A2 A3 A4 A5 A6 A7 A8 A9 (A10 & A11 & A12) A13 (A14 & A15) A16 _] Hcw Hok Hf Hns [P1 P2 P3] Hg.
  pose proof (wo_inv _ _ _ Hw) as L. destruct (queued_tracked s sk p a Hw Hq) as (o0 & Htr & _ & Hfo & _). pose proof Htr as [Ho Hid]. rewrite A1 in Ho. injection Ho as <-.
  assert (streaming (objs s) a = false) as Hs0 by (apply (streaming_other _ a o); [done|]; destruct Hcw as [->| ->]; done).
  assert (streaming (<[a := o1]> (objs s)) a = false) as Hs1 by (apply (streaming_other _ a o1); [apply lookup_insert_eq|done]).
  set (s0 := merged (set_skipped k (set_waiting w s)) sk).
  set (u := set_running (running s') (set_skipped (WFcfs (mkFCFS (members sk' ++ members k))) (set_objs (<[a := o1]> (objs s)) s0))).
  assert (lifecycle [] u) as Lu.
  { apply (lifecycle_move cfg [] (merged s sk) s0 (set_objs (<[a := o1]> (objs s)) s0) u [a] a o o1); try done.
    - apply not_elem_of_nil.
    - by rewrite Hfo.
    - split; cbn; try done.
      + intros b. rewrite !elem_of_app. intros [Hb|Hb]; [by left|right; by apply P3].
      + unfold queued. cbn. rewrite (Permutation_app_swap_app (members (waiting s))), P1, (Permutation_app_swap_app (members w)). cbn.
        rewrite <- (Permutation_middle (members sk)), <- Permutation_middle. done.
    - cbn. rewrite num_streaming_one, Hs0. cbn. lia.
    - inversion Hg as [sk1 Hst Hsk|Hst]; subst; [apply put_skipped|apply put_running]; cbn; try done.
      + by rewrite Hsk.
      + rewrite A6. symmetry. apply Permutation_cons_append.
    - cbn. rewrite Hs1. cbn. lia. }
  apply (lifecycle_agree (set_ec (ec_connector t) (set_connector (connector t) (set_enc (encoder_cache_manager t) (set_kv (kv_cache_manager t) u))))).
  - apply (lifecycle_services u a o1); cbn; try done; rewrite ?A3; try done. split; cbn; [apply lookup_insert_eq|by rewrite A3].
  - inversion Hg; subst; by split.
  - inversion Hg; subst; done.
  - inversion Hg; subst; done.
  - inversion Hg; subst; done.
  - inversion Hg; subst; done.
Qed.

Lemma popped_others a s w k b p sk : wait_ok s p sk -> popped a s w k -> b ∈ members w \/ b ∈ members k -> b <> a /\ in_queues s b.
Proof.
  intros Hw [P1 P2 P3] Hb. split.
  - intros ->. pose proof (lc_nodup _ _ _ (wo_inv _ _ _ Hw)) as Hn. unfold queued in Hn. cbn in Hn.
    rewrite (Permutation_app_swap_app (members (waiting s))), P1 in Hn. apply NoDup_app in Hn as (_ & _ & Hn).
    apply NoDup_app in Hn as (_ & _ & Hn). apply NoDup_cons in Hn as [Hn _]. apply Hn, elem_of_app, Hb.
  - destruct Hb as [Hb|Hb]; [left; by apply P2|right; by apply P3].
Qed.

Lemma depart s p sk a o o1 t w k s' p' sk' :
  wait_ok s p sk -> in_queues s a -> touched a o o1 s t -> can_wait (so_status o) -> object_ok o1 -> so_finished o1 = false ->
  so_status o1 <> WAITING_FOR_STREAMING_REQ -> popped a s w k -> goes a (so_status o1) w k t sk s' sk' ->
  accounts t p' -> (forall b, b ∈ scheduled p' -> b ∈ running s') -> zlen (running s') <= max_num_running_reqs cfg -> wait_ok s' p' sk'.
Proof.
  intros Hw Hq Ht Hcw Hok Hf Hns Hp Hg Hac Hsub Hlen.
  pose proof (depart_lifecycle s p sk a o o1 t w k s' sk' Hw Hq Ht Hcw Hok Hf Hns Hp Hg) as L'.
  assert (objs s' = objs t /\ requests s' = requests t /\ kv_cache_manager s' = kv_cache_manager t /\ connector s' = connector t /\
    sets s' = sets t /\ members (waiting s') = members w /\ members (skipped_waiting s') = members k) as (E1 & E2 & E3 & E4 & E5 & E6 & E7)
    by (inversion Hg; subst; done).
  split; try done.
  - apply (accounts_same cfg t); [|done]. split; [done|..]; intros b; unfold rid_of, deref; by rewrite E1.
  - intros b ob Hb Hob. unfold in_queues in Hb. rewrite E6, E7 in Hb. destruct (popped_others a s w k b p sk Hw Hp Hb) as [Hne Hbq].
    rewrite E1 in Hob. pose proof (others_waitable s t sk p a o o1 b ob Hw Hq Ht Hne Hbq Hob) as Hwt.
    unfold waitable in *. destruct (so_status ob); rewrite ?E3, ?E4, ?E5; try done.
    destruct Hwt as [W1 W2]. split; [done|]. intros Hx. destruct (W2 Hx) as [T1 T2 T5 T3 T4].
    split; rewrite ?E3, ?E5; done.
  - intros b. rewrite E1, E5, (to_objs _ _ _ _ _ Ht). intros Hb. destruct (decide (b = a)) as [->|Hne]; [rewrite lookup_insert_eq; by eexists|].
    rewrite lookup_insert_ne by done. destruct (to_sets _ _ _ _ _ Ht) as [_ Hi]. destruct (Hi b Hb) as [Hb'|]; [|done]. by apply (wo_inflight _ _ _ Hw).
Qed.

(** ** Allocation *)

Lemma reserved_spec s :
  kv_wf (kv_cache_manager s) -> (forall b, b ∈ inflight_prefills (sets s) -> is_Some (objs s !! b)) ->
  wp (inflight_prefill_reserved_blocks cfg) (fun n s' => s' = s /\ 0 <= n) s.
Proof.
  intros Hk Hin. unfold inflight_prefill_reserved_blocks. apply wp_bind, wp_get.
  assert (Forall (fun b => is_Some (objs s !! b)) (elements (inflight_prefills (sets s)))) as Hall.
  { apply Forall_forall. intros b Hb%elem_of_elements. by apply Hin. }
  assert (forall l acc, Forall (fun b => is_Some (objs s !! b)) l -> 0 <= acc ->
    wp (fold_m (fun acc a => n ← request_remaining_blocks cfg a; mret (acc + n)) acc l) (fun n s' => s' = s /\ 0 <= n) s) as Hl; [|by apply Hl].
  induction l as [|b l IH]; intros acc Hf Hacc; [by apply wp_ret|]. apply Forall_cons in Hf as [[ob Hob] Hf]. cbn [fold_m].
  apply wp_bind, wp_bind. unfold request_remaining_blocks. apply wp_bind. eapply wp_obj; [done|]. apply wp_zoom.
  eapply wp_mono; [by apply kvl_remaining|]. intros m k' [-> Hm]. apply wp_ret.
  replace (set_kv (kv_cache_manager s) s) with s by by destruct s. apply IH; [done|lia].
Qed.

Lemma kv_request_looked {A} (m : M (K * Request) A) (Q : A -> K * Request -> Prop) a o s o1 s1 :
  looked a o s o1 s1 ->
  wp m (fun x t => Q x t /\ kv_wf t.1 /\ same_but_memo (sr_request o1) t.2 /\
    (forall q, kv_holds t.1 q -> kv_holds (kv_cache_manager s1) q \/ q = request_id (sr_request o1)) /\
    kv_kept (fun r => request_id r <> request_id (sr_request o1)) (kv_cache_manager s1) t.1) (kv_cache_manager s1, sr_request o1) ->
  wp (on_kv_request a m) (fun x s2 => exists r, looked a o s (so_set_request r o1) s2 /\ same_but_memo (sr_request o1) r /\
    Q x (kv_cache_manager s2, r) /\ encoder_cache_manager s2 = encoder_cache_manager s1) s1.
Proof.
  intros Hl Hm. eapply wp_mono; [by apply (touched_kv_request m Q a o o1 s s1 (lk_touched _ _ _ _ _ Hl))|].
  intros x s2 (r & Ht2 & Hm2 & HQ & _ & _ & He). exists r. split_and!; [by eapply looked_memo|done..].
Qed.

Lemma allocate_waiting_spec s p p1 sk a o o1 s1 f c :
  wait_ok s p sk -> looked a o s o1 s1 -> admissible (kv_cache_manager s1) o1 -> found_ok (kv_cache_manager s1) o1 f ->
  chunk_ok (encoder_cache_manager s1) o1 f p1 c ->
  wp (allocate_waiting cfg a f c) (fun res s2 => exists r, looked a o s (so_set_request r o1) s2 /\ same_but_memo (sr_request o1) r /\
    encoder_cache_manager s2 = encoder_cache_manager s1 /\ (res = None -> admissible (kv_cache_manager s2) (so_set_request r o1))) s1.
Proof.
  intros Hw Hl [A1 A3 A2] Hf Hc. pose proof (lk_touched _ _ _ _ _ Hl) as Ht. destruct (to_kv _ _ _ _ _ Ht) as (Hk & _).
  assert (forall b, b ∈ inflight_prefills (sets s1) -> is_Some (objs s1 !! b)) as Hin.
  { intros b Hb. rewrite (to_objs _ _ _ _ _ Ht). destruct (decide (b = a)) as [->|Hne]; [rewrite lookup_insert_eq; by eexists|rewrite lookup_insert_ne by done].
    destruct (to_sets _ _ _ _ _ Ht) as [_ Hi]. destruct (Hi b Hb) as [Hb'|]; [|done]. by apply (wo_inflight _ _ _ Hw). }
  unfold allocate_waiting. apply wp_bind. eapply wp_obj; [by eapply touched_lookup|]. cbv zeta. rewrite (ck_decoder _ cfg_ok). cbn [andb].
  apply wp_bind, wp_ret, wp_bind. apply (wp_mono _ (fun n s' => s' = s1 /\ 0 <= n)).
  { destruct (load_kv_async f); [by apply reserved_spec|by apply wp_ret]. }
  intros reserved s2 [-> Hres]. apply wp_bind, wp_get.
  set (la := if _ && _ then 0 else _). assert (0 <= la) as Hla by (unfold la; pose proof (ck_lookahead _ cfg_ok); destruct (_ && _); lia).
  destruct Hf as [F1 F2 F3 F4 [F5 F6] F7].
  assert (0 <= ch_num_new_tokens c /\ 0 < ch_num_new_tokens c + num_external_computed_tokens f /\
    (load_kv_async f = false -> 0 < ch_num_new_tokens c)) as (Hn0 & Hn1 & Hn2).
  { destruct (load_kv_async f) eqn:Ea; [rewrite (ch_async _ _ _ _ _ Hc Ea); specialize (F4 eq_refl); lia|].
    destruct (ch_fits _ _ _ _ _ Hc Ea). lia. }
  eapply wp_mono; [apply (kv_request_looked _ (fun res t => res = None -> if num_computed_tokens (sr_request o1) =? 0 then kv_idle t.1 t.2 else kv_ready t.1 t.2) a o s o1 s1 Hl)|].
  - destruct (Z.eqb_spec (num_computed_tokens (sr_request o1)) 0) as [En|En].
    + eapply wp_mono; [apply kvl_admit; try done; lia|]. intros res t (K1 & K2 & K3 & K4 & K5). by split_and!.
    + destruct F7 as (-> & E2 & E3 & F7). rewrite E2, E3 in *.
      assert (load_kv_async f = false) as Ea by (destruct (load_kv_async f); [specialize (F4 eq_refl); lia|done]).
      eapply wp_mono; [apply kvl_readmit; try done; auto|]. intros res t (K1 & K2 & K3 & K4 & K5). by split_and!.
  - intros res s2 (r & Hl2 & Hm & HQ & He). exists r. split_and!; [done|done|done|]. intros Hn. cbn [fst snd] in HQ.
    destruct (same_counts _ _ Hm) as (C1 & C2 & C3 & C4 & _). split; cbn; rewrite ?C1, ?C2, ?C4; try done. by apply HQ.
Qed.

End Admit.
