(* ===== verification/ScheduleLoop.v ===== *)
(** * The loop over the waiting requests

    The end of a round (an asynchronous load, or admission to the running
    list), the round, the loop and the second pass of [schedule] as a whole. *)
From Stdlib Require Import ZArith Lia.
From stdpp Require Import base tactics gmap strings numbers option list.
From S2P Require Import Prelude Blocks Request Hashing Env SchedUtils RequestQueue KVCacheManager OrderedDict SchedEncoder SchedChunk SchedRequest SchedIface Scheduler SchedulerInv SchedulerOps SchedulerPreempt SchedulePass ScheduleInv ScheduleRun ScheduleWait ScheduleAdmit.

Local Open Scope Z_scope.

Section Loop.
Context `{Env} {K E C X : Type} (cfg : SchedConfig) (cfg_ok : config_ok cfg).
Context `{KVAdmitLaws (sc_block_size cfg) K} `{EncoderScheduleLaws E} `{ConnectorScheduleLaws C} `{ECScheduleLaws X}.
Context (block_size_pos : 0 < sc_block_size cfg).
Local Abbreviation Sched := (Scheduler K E C X).
Local Abbreviation lifecycle := (lifecycle cfg).
Local Abbreviation accounts := (accounts cfg).
Local Abbreviation wait_ok := (wait_ok cfg).
Local Abbreviation found_ok := (found_ok cfg).
Local Abbreviation chunk_ok := (chunk_ok cfg).
Implicit Types (s t : Sched) (p : Pass).

(** The state of a round whose request has left the queues. *)
Definition without (w k : WaitQueue) (t : Sched) : Sched := set_skipped k (set_waiting w t).

Lemma set_computed_ok n o : object_ok o -> object_ok (so_set_request (set_computed n (sr_request o)) o).
Proof. intros [[S1 S2] B2 B3]. split; [by split|by apply (enl_knows (sr_request o))|done]. Qed.

(** ** An asynchronous load *)

Lemma start_async_spec s a o o1 t w k sk f :
  looked a o s o1 t ->
  wp (start_async_load cfg a f sk) (fun sk' s' => members sk' ≡ₚ a :: members sk /\ exists o2 t', s' = without w k t' /\ touched a o o2 s t' /\
    object_ok o2 /\ so_status o2 = WAITING_FOR_REMOTE_KVS) (without w k t).
Proof.
  intros [L1 L2 L3 L4 L5]. pose proof (touched_lookup a o o1 s t L1) as Ho. unfold start_async_load.
  apply wp_bind. eapply wp_modify_obj; [done|]. set (o2 := so_set_status WAITING_FOR_REMOTE_KVS o1).
  set (t1 := set_objs (<[a := o2]> (objs t)) t). change (set_objs _ (without w k t)) with (without w k t1).
  assert (touched a o o2 s t1) as Ht1 by by apply (touch_obj a o o1).
  apply wp_bind. eapply wp_mono; [apply local_prepend_spec|]. intros [[] sk'] s2 [-> Hsk]. cbn [snd] in Hsk.
  apply wp_bind. eapply wp_modify_obj; [by apply (touched_lookup a o o2 s t1)|]. set (o3 := so_set_request _ o2).
  set (t2 := set_objs (<[a := o3]> (objs t1)) t1). change (set_objs _ (without w k t1)) with (without w k t2).
  assert (touched a o o3 s t2) as Ht2 by by apply (touch_obj a o o2).
  assert (object_ok o3) as Hok3 by (apply set_computed_ok, set_status_ok; done).
  apply wp_bind, wp_modify. set (t3 := set_sets (ss_inflight_prefills ({[a]} ∪ inflight_prefills (sets t2)) (sets t2)) t2).
  change (set_sets _ (without w k t2)) with (without w k t3).
  assert (touched a o o3 s t3) as Ht3.
  { apply touch_sets; [done|done|]. cbn. intros b Hb. set_solver. }
  apply wp_bind, wp_when; intros _; [|apply wp_ret; split; [done|]; by exists o3, t3].
  apply wp_bind. eapply wp_obj; [by apply (touched_lookup a o o3 s t3)|]. apply wp_bind, wp_zoom.
  destruct (to_kv _ _ _ _ _ Ht3) as (Hk & _). eapply wp_mono; [by apply kvl_zeroing|]. intros ids k' (Hk' & Hh & Hkept). apply wp_modify.
  set (t4 := set_kv k' t3). assert (touched a o o3 s t4) as Ht4.
  { apply touch_kv; [done|done|intros q Hq; left; by apply Hh|by apply (kv_kept_weaken (fun _ => True))]. }
  apply wp_ret. split; [done|]. exists o3. eexists (set_sets _ t4). split_and!; [reflexivity| |done|done].
  apply touch_sets; [done|done|by left].
Qed.

(** ** Admission *)

(** The parts of the accounts that entering a request leaves alone. *)
Record entered (a : Z) (p p' : Pass) : Prop := {
  et_scheduled : scheduled p' ≡ₚ a :: scheduled p;
  et_tokens : num_scheduled_tokens p' = num_scheduled_tokens p;
  et_blocks : req_to_new_blocks p' = req_to_new_blocks p;
  et_budgets : token_budget p' = token_budget p /\ input_budget p' = input_budget p /\ encoder_compute_budget p' = encoder_compute_budget p;
  et_inputs : scheduled_encoder_inputs p' = scheduled_encoder_inputs p
}.

Lemma enter_spec a o p s :
  can_wait (so_status o) ->
  wp (match so_status o with
      | WAITING => mret (ps_admit (scheduled_new_reqs p ++ [a]) (scheduled_resumed_reqs p) p)
      | PREEMPTED => mret (ps_admit (scheduled_new_reqs p) (scheduled_resumed_reqs p ++ [a]) p)
      | _ => raise RuntimeError
      end) (fun p' s' => s' = s /\ entered a p p') s.
Proof.
  intros [Hs|Hs]; rewrite Hs; apply wp_ret; (split; [done|]); split; try done; unfold scheduled; cbn.
  - rewrite <- (Permutation_cons_append (scheduled_new_reqs p)). cbn. symmetry. apply Permutation_middle.
  - rewrite <- (Permutation_cons_append (scheduled_resumed_reqs p)), !app_assoc. symmetry. apply Permutation_middle.
Qed.

Lemma admit_spec s p sk p1 a o o1 t w k f c :
  wait_ok s p sk -> in_queues s a -> looked a o s o1 t -> can_wait (so_status o) -> accounts s p1 -> scheduled p1 = scheduled p ->
  load_kv_async f = false -> chunk_ok (encoder_cache_manager t) o1 f p1 c ->
  wp (admit_request cfg a f c p1) (fun p' s' => exists o2 t', s' = set_running (running t' ++ [a]) (without w k t') /\ touched a o o2 s t' /\
    object_ok o2 /\ so_status o2 = RUNNING /\ accounts s p' /\ scheduled p' ≡ₚ a :: scheduled p) (without w k t).
Proof.
  intros Hw Hq Hl Hcw Hac Hsch Ha [C1 C2 C3 C4 C5 C6]. pose proof Hl as [L1 L2 L3 L4 L5]. destruct (C2 Ha) as [Hn Hni].
  pose proof (touched_lookup a o o1 s t L1) as Ho1. pose proof (to_old _ _ _ _ _ L1) as Ho.
  destruct (queued_tracked cfg s sk p a Hw Hq) as (o0 & [Ho0 Hg] & _). rewrite Ho in Ho0. injection Ho0 as <-.
  assert (rid_of s a = so_id o1) as Hrid by (unfold rid_of, deref; rewrite Ho, (to_id _ _ _ _ _ L1); done).
  assert (a ∉ scheduled p1) as Hna.
  { rewrite Hsch. intros Hx%(wo_scheduled _ _ _ _ Hw). pose proof (lc_nodup _ _ _ (wo_inv _ _ _ _ Hw)) as Hnd. unfold queued in Hnd. cbn in Hnd.
    apply NoDup_app in Hnd as (_ & Hnd & _). apply (Hnd a Hx). rewrite !elem_of_app. destruct Hq; tauto. }
  unfold admit_request. apply wp_bind, wp_modify, wp_bind. eapply wp_obj; [done|]. cbv zeta.
  set (p2 := if 0 <? _ then ps_sync true p1 else p1).
  assert (scheduled p2 = scheduled p1 /\ num_scheduled_tokens p2 = num_scheduled_tokens p1 /\ req_to_new_blocks p2 = req_to_new_blocks p1 /\
    token_budget p2 = token_budget p1 /\ input_budget p2 = input_budget p1 /\ encoder_compute_budget p2 = encoder_compute_budget p1 /\
    scheduled_encoder_inputs p2 = scheduled_encoder_inputs p1) as (P1 & P2 & P3 & P4 & P5 & P6 & P7) by (unfold p2; by destruct (0 <? _)).
  apply wp_bind. eapply wp_mono; [apply (enter_spec a o1); by rewrite L3|]. intros p3 s3 [-> [T1 T2 T3 (T4 & T5 & T6) T7]].
  set (p4 := match max_loras cfg with Some _ => _ | None => _ end).
  assert (scheduled p4 = scheduled p3 /\ num_scheduled_tokens p4 = num_scheduled_tokens p3 /\ req_to_new_blocks p4 = req_to_new_blocks p3 /\
    token_budget p4 = token_budget p3 /\ input_budget p4 = input_budget p3 /\ encoder_compute_budget p4 = encoder_compute_budget p3 /\
    scheduled_encoder_inputs p4 = scheduled_encoder_inputs p3) as (Q1 & Q2 & Q3 & Q4 & Q5 & Q6 & Q7).
  { unfold p4. destruct (max_loras cfg); [|done]. by destruct (lora_request _). }
  apply wp_bind, wp_get. set (n := ch_num_new_tokens c) in *. set (p5 := ps_budgets _ _ _).
  assert (scheduled p5 ≡ₚ a :: scheduled p1) as S5 by (change (scheduled p5) with (scheduled p4); by rewrite Q1, T1, P1).
  assert (accounts s p5) as A5.
  { eapply (accounts_add cfg s p1 p5 a n); try done; try (rewrite Hrid, (to_id _ _ _ _ _ L1); done); unfold p5; cbn;
      rewrite ?Q1, ?Q2, ?Q3, ?Q4, ?Q5, ?Q6, ?Q7, ?T1, ?T2, ?T3, ?T4, ?T5, ?T6, ?T7, ?P1, ?P2, ?P3, ?P4, ?P5, ?P6, ?P7, ?Hrid; try done. }
  clearbody p5. clear dependent p4. clear dependent p3. clear dependent p2.
  apply wp_bind. eapply wp_modify_obj; [done|].
  set (o2 := so_set_request (set_computed (found_computed_tokens f) (set_status RUNNING (sr_request o1))) o1).
  set (t1 := set_objs (<[a := o2]> (objs t)) t). change (set_objs _ _) with (set_running (running t1 ++ [a]) (without w k t1)).
  assert (touched a o o2 s t1) as Ht1 by by apply (touch_obj a o o1).
  assert (object_ok o2) as Hok2 by (apply (set_computed_ok _ (so_set_status RUNNING o1)), set_status_ok; done).
  apply wp_bind. apply (wp_mono _ (fun p6 s' => s' = set_running (running t1 ++ [a]) (without w k t1) /\ accounts s p6 /\ scheduled p6 ≡ₚ a :: scheduled p1)).
  { destruct (pad_spec_decode c); [|by apply wp_ret]. apply wp_bind, wp_assert; [by apply Z.eqb_eq, C6|]. apply wp_ret.
    split_and!; [done| |done]. by destruct A5. }
  intros p6 s4 (-> & A6 & S6). apply wp_bind.
  apply (wp_mono _ (fun _ s' => exists t2, s' = set_running (running t2 ++ [a]) (without w k t2) /\ touched a o o2 s t2 /\
    encoder_cache_manager t2 = encoder_cache_manager t)).
  { apply wp_when; intros _; [|by exists t1]. apply wp_modify. eexists (set_sets _ t1). split_and!; [reflexivity| |done].
    apply touch_sets; [done|done|]. cbn. intros b Hb. set_solver. }
  intros [] s5 (t2 & -> & Ht2 & He2). pose proof Ht2 as [G1 G2 G3 G4 G5 G6 G7 G8 G9 G10 G11 G12 G13 G14].
  eapply wp_mono; [apply allocate_inputs_spec; [apply G11|done|apply L2|unfold without; cbn; by rewrite He2]|].
  intros p7 s6 ((e & x & -> & Hge & Hx) & Hcase). exists o2, (set_ec x (set_enc e t2)).
  assert (accounts s p7) as A7.
  { destruct Hcase as [->| ->]; [done|]. apply (accounts_inputs cfg s p6 a o); try done. rewrite S6. by left. }
  split_and!; [done| |done|done|done|].
  - apply touch_ec; [|done]. apply touch_enc; [done|]. by rewrite <- (to_id _ _ _ _ _ L1).
  - destruct Hcase as [->| ->]; rewrite <- Hsch; done.
Qed.

(** ** The round *)

Lemma accounts_budgets s p (t i : Z) :
  accounts s p -> 0 <= t <= token_budget p -> 0 <= i <= input_budget p -> accounts s (ps_budgets t i p).
Proof.
  intros [A1 A2 A3 A4 A5 A6 A7 A8 A9 A10] Ht Hi. split; try done; cbn [token_budget input_budget num_scheduled_tokens ps_budgets]; lia.
Qed.

Lemma wait_ok_budgets s p sk (t i : Z) :
  wait_ok s p sk -> 0 <= t <= token_budget p -> 0 <= i <= input_budget p -> wait_ok s (ps_budgets t i p) sk.
Proof. intros [W1 W2 W3 W4 W5 W6] Ht Hi. split; try done. by apply accounts_budgets. Qed.

Lemma chunk_memo (e : E) o f p c r : same_but_memo (sr_request o) r -> chunk_ok e o f p c -> chunk_ok e (so_set_request r o) f p c.
Proof.
  intros Hm [C1 C2 C3 C4 C5 C6]. destruct (same_counts _ _ Hm) as (_ & _ & _ & M4 & M5). split; try done; cbn.
  - unfold valid_inputs. by rewrite M4.
  - destruct C5 as [C5|C5]; [by left|right]. by apply (enl_pending_memo (sr_request o)).
Qed.

Lemma popped_touched s t a o o1 w k : touched a o o1 s t -> popped a t w k -> popped a s w k.
Proof. intros Ht [P1 P2 P3]. rewrite (to_waiting _ _ _ _ _ Ht), (to_skipped _ _ _ _ _ Ht) in *. by split. Qed.

Lemma looked_wait s p sk a o o1 t :
  wait_ok s p sk -> in_queues s a -> looked a o s o1 t -> can_wait (so_status o) -> admissible (kv_cache_manager t) o1 -> wait_ok t p sk.
Proof.
  intros Hw Hq [L1 L2 L3 L4 L5] Hcw Had. apply (touched_wait cfg s t sk p a o o1); try done; [by left|].
  apply admissible_waitable; [by rewrite L3|done].
Qed.

Lemma touched_places q s t a o o1 : touched a o o1 s t -> at_head q s a -> at_head q t a /\ num_waiting t = num_waiting s.
Proof.
  intros Ht. unfold at_head, queue_of, num_waiting. rewrite (to_waiting _ _ _ _ _ Ht), (to_skipped _ _ _ _ _ Ht). done.
Qed.

Lemma no_blocks_spec s p sk a o o1 t r :
  wait_ok s p sk -> in_queues s a -> looked a o s (so_set_request r o1) t -> same_but_memo (sr_request o1) r -> can_wait (so_status o) ->
  admissible (kv_cache_manager t) (so_set_request r o1) ->
  wp (when (has_encoder_inputs o1) (on_enc (en_free (sr_request o1)))) (fun _ s' => wait_ok s' p sk) t.
Proof.
  intros Hw Hq Hl Hm Hcw Had. pose proof Hl as [L1 L2 L3 L4 L5]. apply wp_when; intros _; [|by apply (looked_wait s p sk a o (so_set_request r o1))].
  destruct (same_counts _ _ Hm) as (_ & _ & _ & M4 & M5). pose proof (to_enc _ _ _ _ _ L1) as [He _].
  apply wp_zoom. eapply wp_mono; [apply enl_free; [done|]|].
  { apply (enl_knows r); [done|done|apply L2]. }
  intros [] e [He' Hh]. apply (looked_wait s p sk a o (so_set_request r o1)); try done. split; try done. apply touch_enc; [done|].
  split; [done|]. intros q' Hq'. left. by apply Hh.
Qed.

(** The blocks are there: the request leaves its queue. *)
Lemma granted_spec q s p p1 sk a o o1 t f c :
  wait_ok s p sk -> at_head q s a -> looked a o s o1 t -> can_wait (so_status o) -> accounts s p1 -> scheduled p1 = scheduled p ->
  chunk_ok (encoder_cache_manager t) o1 f p1 c -> zlen (running s) < max_num_running_reqs cfg ->
  wp (a ← on_queue q wq_pop;
      if load_kv_async f then sk ← start_async_load cfg a f sk; mret (true, p1, sk)
      else p2 ← admit_request cfg a f c p1; mret (true, p2, sk))
    (fun res s' => wait_ok s' res.1.2 res.2 /\ num_waiting s = S (num_waiting s')) t.
Proof.
  intros Hw Hh Hl Hcw Hac Hsch Hc Hlt. pose proof (at_head_in q s a Hh) as Hq. pose proof Hl as [L1 L2 L3 L4 L5].
  destruct (touched_places q s t a o o1 L1 Hh) as [Hh' Hnw]. apply wp_bind. eapply wp_mono; [by apply (pop_spec q t a)|].
  intros b s1 (-> & w & k & -> & Hp). apply (popped_touched s t a o o1) in Hp; [|done]. change (set_skipped k (set_waiting w t)) with (without w k t).
  pose proof (popped_length a s w k Hp) as Hlen. destruct (load_kv_async f) eqn:Ea.
  - apply wp_bind. eapply wp_mono; [by apply (start_async_spec s a o o1)|]. intros sk' s2 (Hsk & o2 & t' & -> & Ht' & Hok2 & Hst2). apply wp_ret. cbn [fst snd].
    split; [|done]. apply (depart cfg s p sk a o o2 t' w k); try done; unfold so_finished; rewrite ?Hst2; try done.
    + apply goes_skipped; [by right|done].
    + apply (accounts_same cfg s); [by eapply touched_identity|done].
    + unfold without. cbn. rewrite (to_running _ _ _ _ _ Ht'), Hsch. apply Hw.
    + unfold without. cbn. rewrite (to_running _ _ _ _ _ Ht'). apply Hw.
  - apply wp_bind. eapply wp_mono; [by apply (admit_spec s p sk p1 a o o1 t w k f c)|].
    intros p2 s2 (o2 & t' & -> & Ht' & Hok2 & Hst2 & Hac2 & Hsch2). apply wp_ret. cbn [fst snd]. split; [|done].
    apply (depart cfg s p sk a o o2 t' w k); try done; unfold so_finished; rewrite ?Hst2; try done.
    + by apply goes_running.
    + apply (accounts_same cfg s); [by eapply touched_identity|done].
    + intros b. cbn. rewrite Hsch2, elem_of_cons, elem_of_app, list_elem_of_singleton, (to_running _ _ _ _ _ Ht'). intros [->|Hb]; [by right|].
      left. by apply (wo_scheduled _ _ _ _ Hw).
    + cbn. rewrite (to_running _ _ _ _ _ Ht'), zlen_app. change (zlen [a]) with 1. lia.
Qed.

Lemma wait_one_spec defer q s p sk a :
  wait_ok s p sk -> at_head q s a -> 0 < token_budget p -> draft_slots cfg < input_budget p -> zlen (running s) < max_num_running_reqs cfg ->
  wp (wait_one cfg defer q a p sk) (fun res s' => wait_ok s' res.1.2 res.2 /\
    (res.1.1 = true -> num_waiting s = S (num_waiting s'))) s.
Proof.
  intros Hw0 Hh0 Ht Hi Hlt0. unfold wait_one. apply wp_bind. eapply wp_mono; [by apply (skips_round_spec cfg cfg_ok block_size_pos q s p sk a)|].
  intros skip s1 (Hw & Hh & Hnw & Hrun & _ & Hgo). rewrite <- Hrun in Hlt0. rewrite <- Hnw.
  assert (forall t, wait_ok t p sk -> at_head q t a -> num_waiting t = num_waiting s1 ->
    wp (sk ← skip_request q a sk; mret (true, p, sk)) (fun res s' => wait_ok s' res.1.2 res.2 /\ (res.1.1 = true -> num_waiting s1 = S (num_waiting s'))) t) as Hskip.
  { intros t Hwt Hht Hnt. apply wp_bind. eapply wp_mono; [by apply (skip_request_spec cfg q t p sk a)|]. intros sk' s' (W1 & W2 & _). apply wp_ret. split; [done|]. by rewrite <- Hnt. }
  destruct skip; [by apply Hskip|]. destruct (Hgo eq_refl) as (o & Ho & Hcw & Had). pose proof (at_head_in q s1 a Hh) as Hq.
  destruct (queued_tracked cfg s1 sk p a Hw Hq) as (o0 & [Ho0 _] & Hok & _). rewrite Ho in Ho0. injection Ho0 as <-.
  apply wp_bind. eapply wp_mono; [by apply (lookup_computed_spec cfg block_size_pos s1 p sk a o)|]. intros found s2 (o1 & Hl2 & Had2 & Hf).
  destruct (touched_places q s1 s2 a o o1 (lk_touched _ _ _ _ _ Hl2) Hh) as [Hh2 Hnw2].
  pose proof (looked_wait s1 p sk a o o1 s2 Hw Hq Hl2 Hcw Had2) as Hw2.
  destruct found as [f|]; [|by apply Hskip]. specialize (Hf f eq_refl).
  apply wp_bind. eapply wp_obj; [by apply (touched_lookup a o o1 s1 s2), Hl2|].
  apply wp_bind. eapply wp_mono; [apply (waiting_chunk_spec cfg cfg_ok defer s1 p a o o1 s2 f); try done; apply Hw|].
  intros [chunk p1] s3 (Hl3 & Hk3 & (t & i & Ep & Hti & Hii) & Hck). cbn [fst snd] in *. subst p1. rewrite <- Hk3 in Had2, Hf.
  pose proof (wait_ok_budgets s1 p sk t i Hw Hti Hii) as Hwb.
  destruct chunk as [c|]; [|apply wp_ret; split; [by apply (looked_wait s1 (ps_budgets t i p) sk a o o1 s3)|done]].
  specialize (Hck c eq_refl). apply wp_bind.
  eapply wp_mono; [by apply (allocate_waiting_spec cfg cfg_ok s1 p (ps_budgets t i p) sk a o o1 s3 f c)|].
  intros blocks s4 (r & Hl4 & Hm & He4 & Hnone). destruct blocks as [b|].
  2:{ apply wp_bind. eapply wp_mono; [by apply (no_blocks_spec s1 (ps_budgets t i p) sk a o o1 s4 r); auto|].
      intros [] s5 Hw5. by apply wp_ret. }
  apply (chunk_memo _ o1 f _ c r Hm) in Hck. rewrite <- He4 in Hck. set (o2 := so_set_request r o1) in *.
  apply wp_bind, wp_get, wp_bind.
  eapply wp_mono; [apply (looked_connector tt _ (fun _ => True) a o s1 o2 s4 Hl4); [done|]|].
  { intros cn Hcn. eapply wp_mono; [by apply cnl_alloc|]. done. }
  intros [] s5 (Hl5 & Hk5 & _ & He5). rewrite <- He5 in Hck. apply wp_bind.
  apply (wp_mono _ (fun _ s' => looked a o s1 o2 s' /\ encoder_cache_manager s' = encoder_cache_manager s5)).
  { apply wp_when; intros _; [|done]. apply wp_zoom. destruct (to_kv _ _ _ _ _ (lk_touched _ _ _ _ _ Hl5)) as (Hkw & _).
    eapply wp_mono; [by apply kvl_stats|]. intros [] k' (K1 & K2 & K3). split; [|done]. pose proof Hl5 as [L1 L2 L3 L4 L5]. split; try done.
    apply touch_kv; [done|done|intros q' Hq'; left; by apply K2|by apply (kv_kept_weaken (fun _ => True))]. }
  intros [] s6 [Hl6 He6]. rewrite <- He6 in Hck.
  eapply wp_mono; [apply (granted_spec q s1 (ps_budgets t i p) (ps_budgets t i p) sk a o o2 s6 f c); try done; apply Hwb|].
  intros res s' [W1 W2]. split; [done|by intros _].
Qed.

(** ** The loop *)

Lemma streaming_nonneg s sk p : wait_ok s p sk -> 0 <= num_waiting_for_streaming_input s.
Proof. intros Hw. pose proof (lc_count _ _ _ (wo_inv _ _ _ _ Hw)) as Hc. cbn in Hc. rewrite Hc. apply zlen_nonneg. Qed.

Lemma waiting_loop_spec defer fuel : forall s p sk,
  wait_ok s p sk -> (num_waiting s <= fuel)%nat ->
  wp (waiting_loop cfg defer fuel p sk) (fun res s' => wait_ok s' res.1 res.2) s.
Proof.
  induction fuel as [|fuel IH]; intros s p sk Hw Hfuel; cbn [waiting_loop]; apply wp_bind, wp_get;
    destruct (_ && _) eqn:Ec; try by apply wp_ret.
  - exfalso. rewrite !andb_true_iff in Ec. destruct Ec as [[[Ec _] _] _]. destruct (select_spec cfg s Ec) as (q & a & _ & Hh).
    pose proof (at_head_in q s a Hh) as Ha. unfold num_waiting, in_queues in *.
    destruct (members (waiting s)); [|cbn in Hfuel; lia]. destruct (members (skipped_waiting s)); [|cbn in Hfuel; lia].
    by destruct Ha as [Ha|Ha]; apply elem_of_nil in Ha.
  - rewrite !andb_true_iff, !negb_true_iff, Z.ltb_lt, !Z.leb_gt in Ec. destruct Ec as [[[Ec Ht] Hi] Hr].
    destruct (select_spec cfg s Ec) as (q & a & Hsel & Hh). pose proof (streaming_nonneg s sk p Hw) as Hns.
    apply wp_bind. eapply wp_of_option; [exact Hsel|]. apply wp_bind. eapply wp_mono; [by apply peek_spec|]. intros b s' [-> ->].
    apply wp_bind. eapply wp_mono; [apply (wait_one_spec defer q s p sk a); try done; lia|].
    intros [[go p1] sk1] s1 [Hw1 Hn1]. cbn [fst snd] in *. destruct go; [|by apply wp_ret]. apply IH; [done|].
    specialize (Hn1 eq_refl). lia.
Qed.

(** ** The second pass *)

(** What a step has at its end. *)
Record planned (s : Sched) (p : Pass) : Prop := {
  pl_inv : lifecycle [] s;
  pl_accounts : accounts s p;
  pl_scheduled : forall b, b ∈ scheduled p -> b ∈ running s;
  pl_running : zlen (running s) <= max_num_running_reqs cfg
}.

(** What the waiting requests owe before a step. *)
Record waiting_ready (s : Sched) : Prop := {
  wr_waitable : forall a o, in_queues s a -> objs s !! a = Some o -> waitable s o;
  wr_inflight : forall a, a ∈ inflight_prefills (sets s) -> is_Some (objs s !! a)
}.

Lemma wait_start s p :
  planned s p -> waiting_ready s -> wait_ok s p (create_request_queue (sc_policy cfg)).
Proof.
  intros [L A S R] [W1 W2]. assert (members (create_request_queue (sc_policy cfg)) = []) as Hm by by destruct (sc_policy cfg).
  split; try done. apply (lifecycle_requeue cfg s); try done; unfold merged, queued; cbn; rewrite Hm; cbn; try done. intros b Hb. by right.
Qed.

(** The skipped requests go back to their queue. *)
Lemma wait_end s p sk : wait_ok s p sk ->
  wp (when (wq_nonempty sk) ('(l, _) ← on_local sk wq_iter; on_skipped (fun d => wq_prepend_all d l)))
    (fun _ s' => planned s' p) s.
Proof.
  intros Hw. pose proof Hw as [W1 W2 W3 W4 W5 W6].
  assert (forall q, members q ≡ₚ members sk ++ members (skipped_waiting s) -> planned (set_skipped q s) p) as Hend.
  { intros q Hq. split; try done; [|by apply (accounts_same cfg s)]. apply (lifecycle_requeue cfg (merged s sk)); try done; unfold queued; cbn; [by rewrite Hq|].
    intros b. rewrite Hq. by right. }
  apply wp_when; intros Hn.
  - apply wp_bind. apply (wp_mono _ (fun r s' => s' = s /\ r.1 ≡ₚ members sk)).
    { unfold wp, on_local. pose proof (wq_iter_spec (deref s) sk) as Hi. unfold wp in Hi. destruct (wq_iter _ sk); [|done]. by destruct Hi as [_ Hi]. }
    intros [l q] s' [-> Hl]. cbn [fst] in Hl. apply wp_on_skipped. eapply wp_mono; [apply wq_prepend_all_spec|]. intros [] q' [Hq' _]. apply Hend. by rewrite Hq', Hl.
  - assert (members sk = []) as Hm.
    { unfold wq_nonempty, zlen in Hn. destruct (members sk); [done|]. cbn in Hn. discriminate. }
    pose proof (Hend (skipped_waiting s)) as Hs. rewrite Hm in Hs. specialize (Hs (reflexivity _)). by destruct s.
Qed.

Lemma schedule_waiting_spec defer s p :
  planned s p -> (preempted_reqs p = [] -> waiting_ready s) ->
  wp (schedule_waiting cfg defer p) (fun p' s' => planned s' p') s.
Proof.
  intros Hpl Hwr. unfold schedule_waiting. apply wp_bind, wp_get. case_bool_decide as Epre; [|by apply wp_ret].
  case_bool_decide; [|by apply wp_ret]. cbn [andb]. apply wp_bind.
  eapply wp_mono; [apply waiting_loop_spec; [by apply wait_start; auto|done]|]. intros [p1 sk] s1 Hw. cbn [fst snd] in Hw.
  apply wp_bind. eapply wp_mono; [by apply wait_end|]. intros [] s2 Hp2. apply wp_bind.
  apply wp_when; intros _; [|by apply wp_ret]. apply wp_modify, wp_ret. destruct Hp2 as [P1 P2 P3 P4]. split; try done; [|by destruct P2].
  by destruct P1 as [? ? ? ? ? ? ? ? ? ? []].
Qed.

(** The first pass leaves the waiting requests as they are, unless it preempts. *)
Lemma quiet_ready s s' : lifecycle [] s -> quiet s s' -> (is_Some (connector s) -> is_Some (connector s')) -> waiting_ready s ->
  (forall a, is_Some (objs s !! a) -> is_Some (objs s' !! a)) -> waiting_ready s'.
Proof.
  intros L [Q1 Q2 Q3 Q4 Q5 Q6 (Q7 & Q8 & Q9)] Hc [W1 W2] Hobj. split.
  - intros a o Ha Ho. unfold in_queues in Ha. rewrite Q3, Q4 in Ha.
    assert (a ∈ queued s) as Hq by (unfold queued; rewrite !elem_of_app; tauto).
    assert (a ∉ running s) as Hnr.
    { pose proof (lc_nodup _ _ _ L) as Hn. unfold queued in Hn. apply NoDup_app in Hn as (_ & Hn & _). intros Hr. apply (Hn a Hr), elem_of_app, Ha. }
    rewrite Q1 in Ho by done. apply (lc_queued _ _ _ L) in Hq as (_ & o1 & [Ho1 Hg1] & _). rewrite Ho in Ho1. injection Ho1 as <-.
    apply (waitable_kept s s' o (bystander s)); try done; [| |by apply (W1 a)].
    + intros b Hb Heq. apply Hnr. assert (b ∈ queued s) as Hqb by (unfold queued; rewrite elem_of_app; by left).
      apply (lc_queued _ _ _ L) in Hqb as (_ & ob & [Hob Hgb] & _). unfold rid_of, deref in Heq. rewrite Hob in Heq.
      change (so_id ob = so_id o) in Heq. rewrite Heq in Hgb. congruence.
    + split; by rewrite ?Q7, ?Q8.
  - intros a. rewrite Q9. intros Ha. by apply Hobj, W2.
Qed.

End Loop.
