(* ===== verification/Schedule.v ===== *)
(** * [schedule]

    The whole method [Scheduler.schedule] of vllm/v1/core/sched/scheduler.py with
    the two loops of SchedulePass.v and ScheduleWait.v, the output it builds
    (vllm/v1/core/sched/output.py), [_make_cached_request_data],
    [_get_new_block_ids_to_zero] and [_update_after_schedule]; the overrides of
    [AsyncScheduler] (vllm/v1/core/sched/async_scheduler.py) are taken when the
    configuration says the class is [AsyncScheduler].

    The opaque metadata the connectors build for the workers is not part of the
    model; building it may change a connector's state. *)
From Stdlib Require Import ZArith Lia.
From stdpp Require Import base tactics gmap strings numbers option list.
From S2P Require Import Prelude Blocks Request Hashing Env SchedUtils RequestQueue KVCacheManager OrderedDict SchedEncoder SchedChunk SchedRequest SchedIface Scheduler SchedulePass ScheduleWait.

Local Open Scope Z_scope.

(** ** The output *)

(** [NewRequestData], without [prompt_is_token_ids]; the features of the model
    carry no data to strip. *)
Record NewRequestData := mkNewRequest {
  nr_req_id : string;
  nr_prompt_token_ids : option (list Z);
  nr_mm_features : list MultiModalFeatureSpec;
  nr_sampling_params : option SamplingParams;
  nr_pooling_params : option PoolingParams;
  nr_block_ids : list (list Z);
  nr_num_computed_tokens : Z;
  nr_lora_request : option LoRARequest;
  nr_prompt_embeds : option (list bytes);
  nr_prefill_token_ids : option (list Z)
}.

(** [CachedRequestData] *)
Record CachedRequestData := mkCachedRequests {
  cr_req_ids : list string;
  cr_resumed_req_ids : gset string;
  cr_new_token_ids : list (list Z);
  cr_all_token_ids : list (string * list Z);
  cr_new_block_ids : list (option (list (list Z)));
  cr_num_computed_tokens : list Z;
  cr_num_output_tokens : list Z
}.

(** [SchedulerOutput] *)
Record SchedulerOutput := mkSchedulerOutput {
  out_new_reqs : list NewRequestData;
  out_cached_reqs : CachedRequestData;
  out_num_scheduled_tokens : list (string * Z);
  out_total : Z;
  out_spec_tokens : list (string * list Z);
  out_spec_step_ids : option (list (string * Z));
  out_step_id : Z;
  out_encoder_inputs : list (string * list Z);
  out_num_common_prefix_blocks : list Z;
  out_preempted_req_ids : gset string;
  out_finished_req_ids : gset string;
  out_freed_mm_hashes : list string;
  out_block_ids_to_zero : option (list (list Z));
  out_has_sync_kv_loads : bool;
  out_block_copies : option (list (Z * Z));
  out_num_spec_tokens : Z;
  out_has_structured : bool;
  out_pending_structured : bool;
  out_num_invalid_spec_tokens : option (list (string * Z))
}.

Definition out_set_flags (structured pending : bool) (o : SchedulerOutput) : SchedulerOutput :=
  mkSchedulerOutput (out_new_reqs o) (out_cached_reqs o) (out_num_scheduled_tokens o) (out_total o)
    (out_spec_tokens o) (out_spec_step_ids o) (out_step_id o) (out_encoder_inputs o)
    (out_num_common_prefix_blocks o) (out_preempted_req_ids o) (out_finished_req_ids o)
    (out_freed_mm_hashes o) (out_block_ids_to_zero o) (out_has_sync_kv_loads o) (out_block_copies o)
    (out_num_spec_tokens o) structured pending (out_num_invalid_spec_tokens o).

(** ** Services at the end of a step *)

Class KVStep (K : Type) := {
  kv_get_num_common_prefix_blocks : string -> M K (list Z);
  (** [KVCacheBlocks.get_block_ids(allow_none)] *)
  kv_block_ids : KVCacheBlocks -> bool -> K -> option (list (list Z));
  (** the offers go to the connector's metadata only *)
  kv_take_boundary_state_offloads : M K unit
}.
Class EncoderStep (E : Type) := en_get_freed_mm_hashes : M E (list string).
Class ConnectorStep (C : Type) := cn_build_connector_meta : SchedulerOutput -> M C unit.
Class ECStep (X : Type) := ec_build_connector_meta : SchedulerOutput -> M X unit.

Section Schedule.
Context `{Env} {K E C X : Type} `{KVService K} `{KVScheduling K} `{KVStep K}.
Context `{EncoderService E} `{EncoderCacheOps E} `{EncoderStep E}.
Context `{KVConnector C} `{ConnectorScheduling C} `{ConnectorStep C} `{ECConnector X} `{ECScheduling X} `{ECStep X}.
Context (cfg : SchedConfig).
Local Abbreviation Sched := (Scheduler K E C X).

(** A list comprehension. *)
Definition collect {A B} (f : A -> M Sched B) (l : list A) : M Sched (list B) :=
  fold_m (fun acc x => y ← f x; mret (acc ++ [y])) [] l.

(** [NewRequestData.from_request(req, req_to_new_blocks[req.request_id].get_block_ids(), ...)] *)
Definition new_request_data (p : Pass) (a : Z) : M Sched NewRequestData :=
  o ← obj a;
  b ← of_option KeyError (od_get (so_id o) (req_to_new_blocks p));
  s ← get;
  let r := sr_request o in
  mret (mkNewRequest (so_id o) (prompt_token_ids o) (mm_features r) (sampling_params r) (pooling_params r)
          (default [] (kv_block_ids b false (kv_cache_manager s))) (num_computed_tokens r) (lora_request r) (prompt_embeds r)
          (if use_v2_model_runner cfg then Some (all_token_ids r) else None)).

(** [_make_cached_request_data]: one request. *)
Definition cache_request (p : Pass) (resumed : bool) (d : CachedRequestData) (a : Z) : M Sched CachedRequestData :=
  o ← obj a;
  let r := sr_request o in
  let rid := so_id o in
  tokens ← (if (1 <? pp_size cfg) && negb (async_scheduler cfg) then
              n ← of_option KeyError (od_get rid (num_scheduled_tokens p));
              let n := n - zlen (default [] (od_get rid (scheduled_spec_decode_tokens p))) in
              mret [py_slice (all_token_ids r) (num_computed_tokens r) (num_computed_tokens r + n)]
            else mret []);
  s ← get;
  b ← of_option KeyError (od_get rid (req_to_new_blocks p));
  mret (mkCachedRequests (cr_req_ids d ++ [rid])
          (if resumed : bool then {[rid]} ∪ cr_resumed_req_ids d else cr_resumed_req_ids d)
          (cr_new_token_ids d ++ tokens)
          (if negb (use_v2_model_runner cfg) && negb (bool_decide (rid ∈ prev_step_scheduled_req_ids (sets s)))
           then od_set rid (all_token_ids r) (cr_all_token_ids d) else cr_all_token_ids d)
          (cr_new_block_ids d ++ [kv_block_ids b true (kv_cache_manager s)])
          (cr_num_computed_tokens d ++ [num_computed_tokens r])
          (cr_num_output_tokens d ++ [num_output_tokens r + num_output_placeholders o])).
Definition make_cached_request_data (p : Pass) (running_reqs resumed_reqs : list Z) : M Sched CachedRequestData :=
  d ← fold_m (cache_request p false) (mkCachedRequests [] ∅ [] [] [] [] []) running_reqs;
  fold_m (cache_request p true) d resumed_reqs.

(** [_get_new_block_ids_to_zero] *)
Definition get_new_block_ids_to_zero : M Sched (option (list (list Z))) :=
  ids ← on_kv kv_take_new_block_ids;
  if negb (needs_kv_cache_zeroing cfg) then mret None else
  s ← get;
  let skip := skip_zero_block_ids (sets s) in
  ids ← (if bool_decide (skip = ∅) then mret ids else
         modify_sets (ss_skip_zero_block_ids ∅) ;;
         mret (imap (fun g l => filter (fun b => b ∉ default ∅ (skip !! Z.of_nat g)) l) ids));
  mret (if forallb (fun l => bool_decide (l = [])) ids then None else Some ids).

(** The size of the next drafts; the adaptive budget is not modelled. *)
Definition num_spec_tokens_to_schedule (p : Pass) : M Sched Z :=
  match dynamic_sd_lookup cfg with
  | Some lookup => if 0 <? zlen (num_scheduled_tokens p)
                   then of_option IndexError (py_index lookup (zlen (num_scheduled_tokens p)))
                   else mret (num_spec_tokens cfg)
  | None => mret (num_spec_tokens cfg)
  end.

(** ** [_update_after_schedule] *)

(** A request after its tokens are scheduled. *)
Definition advance_request (k : K) (n : Z) (o : SReq) : SReq :=
  let r := sr_request o in
  let o := so_set_request (set_in_flight (num_in_flight_tokens r + n) (set_computed (num_computed_tokens r + n) r)) o in
  let o := if kv_defer_block_free k then so_set_last_seq (kv_sched_step_seq k) o else o in
  so_set_prefill (num_computed_tokens (sr_request o) <? num_tokens (sr_request o) + num_output_placeholders o) o.

Definition after_schedule_base (out : SchedulerOutput) : M Sched SchedulerOutput :=
  structured ← fold_m (fun flag rn =>
      s ← get;
      a ← of_option KeyError (od_get rn.1 (requests s));
      modify_obj a (advance_request (kv_cache_manager s) rn.2) ;;
      o ← obj a;
      when (negb (is_prefill_chunk o))
        (modify_sets (fun x => ss_inflight_prefills (inflight_prefills x ∖ {[a]}) x)) ;;
      mret (flag || (use_structured_output o && negb (is_prefill_chunk o))))
    (out_has_structured out) (out_num_scheduled_tokens out);
  modify_sets (fun x => ss_reset_preempted_req_ids ∅ (ss_finished_req_ids ∅ x)) ;;
  mret (out_set_flags structured (out_pending_structured out) out).

(** [AsyncScheduler._update_after_schedule]: one request that samples tokens. *)
Definition expect_tokens (out : SchedulerOutput) (step : Z) (rid : string) (o : SReq) : SReq :=
  let drafts := zlen (default [] (od_get rid (out_spec_tokens out))) in
  let placeholders := replicate (Z.to_nat (out_num_spec_tokens out)) (-1) in
  let o := so_set_placeholders (num_output_placeholders o + (num_sampled_tokens_per_step cfg + drafts)) o in
  let o := so_set_spec placeholders
    (if use_v2_model_runner cfg && use_structured_output o && negb (bool_decide (placeholders = []))
     then Some (out_step_id out) else None) o in
  if use_v2_model_runner cfg then so_set_eligible (step + pp_size cfg) o else o.

Definition after_schedule_async (out : SchedulerOutput) : M Sched SchedulerOutput :=
  pending ← fold_m (fun flag rn =>
      s ← get;
      a ← of_option KeyError (od_get rn.1 (requests s));
      o ← obj a;
      if is_prefill_chunk o then mret flag else
      modify_obj a (expect_tokens out (current_step s) rn.1) ;;
      mret (flag || (use_structured_output o && (0 <? num_output_placeholders o))))
    (out_pending_structured out) (out_num_scheduled_tokens out);
  mret (out_set_flags (out_has_structured out) pending out).

Definition update_after_schedule (out : SchedulerOutput) : M Sched SchedulerOutput :=
  out ← after_schedule_base out;
  if async_scheduler cfg then after_schedule_async out else mret out.

(** ** The method *)

(** The part before the loops: budgets, and whether prefills are deferred. *)
Definition begin_step (throttle_prefills : bool) : M Sched (bool * Pass) :=
  s ← get;
  when (has_kv_cache_tokens cfg && bool_decide (connector s = None))
    (for_each (running s) (fun a => o ← obj a; on_kv (kv_recycle_sliding_windows (sr_request o)))) ;;
  modify (fun s => set_step (current_step s + 1) s) ;;
  when (exl3_prefill_auto (chunk_config cfg))
    (modify (fun s => set_sets (ss_exl3_int8_prefill_requests
       (exl3_int8_prefill_requests (sets s) ∩ list_to_set (requests s).*1) (sets s)) s)) ;;
  s ← get;
  let '(token_budget, input_budget) := initial_budgets cfg s in
  on_kv kv_new_step_starts ;;
  s ← get;
  mret (throttle_prefills && negb (prefill_capacity_bound s) && any_running (fun o => negb (is_prefill_chunk o)) s,
        start_pass cfg token_budget input_budget).

(** The assertions after the loops. *)
Definition check_step (p : Pass) : M Sched unit :=
  s ← get;
  assert_ (foldr (fun kn acc => kn.2 + acc) 0 (num_scheduled_tokens p) <=? max_num_scheduled_tokens (chunk_config cfg)) ;;
  assert_ (0 <=? token_budget p) ;;
  assert_ (0 <=? input_budget p) ;;
  assert_ (zlen (running s) <=? max_num_running_reqs cfg) ;;
  assert_ (zlen (scheduled_new_reqs p) + zlen (scheduled_resumed_reqs p) + zlen (scheduled_running_reqs p) <=? zlen (running s)).

(** The construction of the output. *)
Definition build_output (p : Pass) : M Sched SchedulerOutput :=
  s ← get;
  common ← (match running s with
            | [] => mret (replicate (Z.to_nat (num_groups cfg)) 0)
            | a :: _ => o ← obj a; on_kv (kv_get_num_common_prefix_blocks (so_id o))
            end);
  let '(new_reqs, resumed_reqs) :=
    if use_v2_model_runner cfg then (scheduled_new_reqs p ++ scheduled_resumed_reqs p, [])
    else (scheduled_new_reqs p, scheduled_resumed_reqs p) in
  new_data ← collect (new_request_data p) new_reqs;
  cached ← make_cached_request_data p (scheduled_running_reqs p) resumed_reqs;
  when (negb (use_v2_model_runner cfg))
    (modify_sets (ss_prev_step_scheduled_req_ids (list_to_set (num_scheduled_tokens p).*1))) ;;
  on_kv kv_take_boundary_state_offloads ;;
  copies ← on_kv kv_hand_over_copies;
  num_spec ← num_spec_tokens_to_schedule p;
  freed ← on_enc en_get_freed_mm_hashes;
  zero ← get_new_block_ids_to_zero;
  s ← get;
  mret (mkSchedulerOutput new_data cached (num_scheduled_tokens p)
          (foldr (fun kn acc => kn.2 + acc) 0 (num_scheduled_tokens p)) (scheduled_spec_decode_tokens p)
          (match scheduled_spec_decode_step_ids p with [] => None | l => Some l end) (current_step s)
          (scheduled_encoder_inputs p) common (reset_preempted_req_ids (sets s)) (finished_req_ids (sets s))
          freed zero (has_sync_kv_loads p) (match copies with [] => None | l => Some l end) num_spec false false None).

Definition schedule_base (throttle_prefills : bool) : M Sched SchedulerOutput :=
  '(defer_prefills, p) ← begin_step throttle_prefills;
  s ← get;
  p ← running_loop cfg defer_prefills (length (running s)) p;
  p ← record_loras cfg p;
  p ← schedule_waiting cfg defer_prefills p;
  check_step p ;;
  out ← build_output p;
  on_connector tt (cn_build_connector_meta out) ;;
  on_ec tt (ec_build_connector_meta out) ;;
  on_kv (kv_advance_sched_seq (out_total out)) ;;
  update_after_schedule out.

Definition decoding (s : Sched) (a : Z) : bool :=
  match objs s !! a with Some o => negb (is_prefill_chunk o) | None => false end.

(** [AsyncScheduler.schedule]: decodes of a pipeline join one batch. *)
Definition align_decodes : M Sched unit :=
  s ← get;
  let decodes := filter (decoding s) (running s) in
  match decodes with
  | [] => modify (set_decode_phase None)
  | a :: rest =>
      o ← obj a;
      least ← fold_m (fun m b => o ← obj b; mret (Z.min m (next_decode_eligible_step o))) (next_decode_eligible_step o) rest;
      let phase := match decode_phase s with Some ph => ph | None => least mod pp_size cfg end in
      modify (set_decode_phase (Some phase)) ;;
      for_each decodes (fun b => modify_obj b (fun o =>
        so_set_eligible (next_decode_eligible_step o + (phase - next_decode_eligible_step o) mod pp_size cfg) o))
  end.

Definition schedule (throttle_prefills : bool) : M Sched SchedulerOutput :=
  when (async_scheduler cfg && align_hybrid_decodes cfg) align_decodes ;;
  schedule_base throttle_prefills.

End Schedule.
