(* ===== verification/ScheduleSpec.v ===== *)
(** * What a step of the scheduler guarantees

    [schedule] raises nothing, keeps the invariant of the request lifecycle, and
    its output is within the budgets of the configuration, names each scheduled
    request once and only requests that run. *)
From Stdlib Require Import ZArith Lia.
From stdpp Require Import base tactics gmap strings numbers option list.
From S2P Require Import Prelude Blocks Request Hashing Env SchedUtils RequestQueue KVCacheManager OrderedDict SchedEncoder SchedChunk SchedRequest SchedIface Scheduler SchedulerInv SchedulerOps SchedulerPreempt SchedulePass ScheduleInv ScheduleRun ScheduleWait ScheduleAdmit ScheduleLoop Schedule.

Local Open Scope Z_scope.

(** ** Laws *)

Class KVStepLaws (K : Type) `{KVLaws K} `{!KVScheduling K} `{!KVStep K} := {
  kvl_common rid k : kv_wf k -> wp (kv_get_num_common_prefix_blocks rid)
    (fun _ k' => kv_wf k' /\ forall q, kv_holds k' q -> kv_holds k q \/ q = rid) k;
  kvl_offloads k : kv_wf k -> wp kv_take_boundary_state_offloads (fun _ k' => kv_wf k' /\ forall q, kv_holds k' q -> kv_holds k q) k;
  kvl_copies k : kv_wf k -> wp kv_hand_over_copies (fun _ k' => kv_wf k' /\ forall q, kv_holds k' q -> kv_holds k q) k;
  kvl_new_ids k : kv_wf k -> wp kv_take_new_block_ids (fun _ k' => kv_wf k' /\ forall q, kv_holds k' q -> kv_holds k q) k;
  kvl_advance n k : kv_wf k -> wp (kv_advance_sched_seq n) (fun _ k' => kv_wf k' /\ forall q, kv_holds k' q -> kv_holds k q) k
}.
Class EncoderStepLaws (E : Type) `{EncoderLaws E} `{!EncoderStep E} :=
  enl_freed e : en_wf e -> wp en_get_freed_mm_hashes (fun _ e' => en_wf e' /\ forall q, en_holds e' q -> en_holds e q) e.
Class ConnectorStepLaws (C : Type) `{KVConnectorLaws C} `{!ConnectorStep C} :=
  cnl_meta out c : cn_wf c -> wp (cn_build_connector_meta out) (fun _ => cn_wf) c.
Class ECStepLaws (X : Type) `{ECConnectorLaws X} `{!ECStep X} :=
  ecl_meta out x : ec_wf x -> wp (ec_build_connector_meta out) (fun _ => ec_wf) x.

Section Spec.
Context `{Env} {K E C X : Type} (cfg : SchedConfig) (cfg_ok : config_ok cfg).
Context `{KVAdmitLaws (sc_block_size cfg) K} `{!KVStep K} `{!KVStepLaws K}.
Context `{EncoderScheduleLaws E} `{!EncoderStep E} `{!EncoderStepLaws E}.
Context `{ConnectorScheduleLaws C} `{!ConnectorStep C} `{!ConnectorStepLaws C} `{ECScheduleLaws X} `{!ECStep X} `{!ECStepLaws X}.
Context (block_size_pos : 0 < sc_block_size cfg).
(** the step may exceed [max_loras]: see the waiting loop *)
Context (no_loras : max_loras cfg = None).
(** [get_dynamic_sd_lookup] has an entry for every batch size *)
Context (lookup_covers : forall l, dynamic_sd_lookup cfg = Some l -> max_num_running_reqs cfg < zlen l).
Local Abbreviation Sched := (Scheduler K E C X).
Local Abbreviation lifecycle := (lifecycle cfg).
Local Abbreviation accounts := (accounts cfg).
Implicit Types (s : Sched) (p : Pass).

(** What a step needs. *)
Record schedulable (s : Sched) : Prop := {
  sd_inv : lifecycle [] s;
  sd_running : forall a o, a ∈ running s -> objs s !! a = Some o -> runnable cfg s o;
  sd_waiting : waiting_ready s;
  sd_len : zlen (running s) <= max_num_running_reqs cfg
}.

(** ** Before the loops *)

Lemma schedulable_quiet s s' :
  schedulable s -> lifecycle [] s' -> quiet s s' -> objs s' = objs s -> (is_Some (connector s) -> is_Some (connector s')) ->
  (forall r, kv_ready (kv_cache_manager s) r -> kv_ready (kv_cache_manager s') r) -> schedulable s'.
Proof.
  intros [L R W N] L' Hq Ho Hc Hr. split; [done| | |by rewrite (qt_running _ _ Hq)].
  - intros a o Ha Hob. rewrite (qt_running _ _ Hq) in Ha. rewrite Ho in Hob. destruct (R a o Ha Hob). split; [by apply Hr|done|done].
  - apply (quiet_ready cfg s s'); try done. by rewrite Ho.
Qed.

Lemma schedulable_kv s k :
  schedulable s -> kv_wf k -> (forall q, kv_holds k q -> kv_holds (kv_cache_manager s) q) ->
  kv_kept (fun _ => True) (kv_cache_manager s) k -> schedulable (set_kv k s).
Proof.
  intros Hs Hk Hh Hkept. apply (schedulable_quiet s); try done.
  - by apply lifecycle_kv; [apply Hs|..].
  - split; try done. by apply (kv_kept_weaken (fun _ => True)).
  - intros r. by apply Hkept.
Qed.

Lemma schedulable_step s n : schedulable s -> schedulable (set_step n s).
Proof. intros Hs. apply (schedulable_quiet s); try done. by destruct (sd_inv _ Hs) as [? ? ? ? ? ? ? ? ? ? []]. Qed.

Lemma schedulable_exl3 s x : schedulable s -> schedulable (set_sets (ss_exl3_int8_prefill_requests x (sets s)) s).
Proof. intros Hs. apply (schedulable_quiet s); try done. apply lifecycle_sets, Hs. Qed.

Lemma start_first s t i :
  schedulable s -> 0 <= t <= max_num_scheduled_tokens (chunk_config cfg) -> 0 <= i <= max_num_batched_tokens cfg -> first_ok cfg s (start_pass cfg t i).
Proof.
  intros [L R W N] Ht Hi. split; [|done|done]. split; cbn; try done; try (by intros b ?%elem_of_nil).
  - split; cbn; try done; change (zlen (@nil (string * Z))) with 0; try constructor; try lia; try (by intros b ?%elem_of_nil). apply cfg_ok.
  - pose proof (zlen_nonneg (running s)). lia.
  - intros b o Hb _. by apply R.
Qed.

Lemma initial_budgets_bounds s : let '(t, i) := initial_budgets cfg s in
  0 <= t <= max_num_scheduled_tokens (chunk_config cfg) /\ 0 <= i <= max_num_batched_tokens cfg.
Proof.
  unfold initial_budgets. pose proof (ck_tokens _ cfg_ok). pose proof (ck_inputs _ cfg_ok). destruct (_ && _), (pause_state s); lia.
Qed.

Lemma begin_step_spec throttle s :
  schedulable s -> wp (begin_step cfg throttle) (fun dp s' => schedulable s' /\ first_ok cfg s' dp.2) s.
Proof.
  intros Hs. unfold begin_step. apply wp_bind, wp_get, wp_bind.
  apply (wp_mono _ (fun _ s' => schedulable s')).
  { apply wp_when; intros _; [|done].
    assert (forall l s0, schedulable s0 -> Forall (fun a => is_Some (objs s0 !! a)) l ->
      wp (for_each l (fun a => o ← obj a; on_kv (kv_recycle_sliding_windows (sr_request o)))) (fun _ s' => schedulable s') s0) as Hl.
    { induction l as [|a l IH]; intros s0 Hs0 Hf; [by apply wp_ret|]. apply Forall_cons in Hf as [[o Ho] Hf]. cbn [for_each].
      apply wp_bind, wp_bind. eapply wp_obj; [done|]. apply wp_zoom.
      eapply wp_mono; [apply kvl_recycle, (lc_parts _ _ _ (sd_inv _ Hs0))|]. intros [] k (K1 & K2 & K3). apply IH; [by apply schedulable_kv|done]. }
    apply Hl; [done|]. apply Forall_forall. intros a Ha.
    assert (a ∈ queued s) as Hq by (unfold queued; rewrite elem_of_app; by left).
    apply (lc_queued _ _ _ (sd_inv _ Hs)) in Hq as (_ & o & [Ho _] & _). by eexists. }
  intros [] s1 Hs1. apply wp_bind, wp_modify, wp_bind.
  apply (wp_mono _ (fun _ s' => schedulable s')).
  { apply wp_when; intros _; [|by apply schedulable_step]. apply wp_modify. by apply schedulable_exl3, schedulable_step. }
  intros [] s2 Hs2. apply wp_bind, wp_get. pose proof (initial_budgets_bounds s2) as Hb. destruct (initial_budgets cfg s2) as [t i].
  apply wp_bind, wp_zoom. eapply wp_mono; [apply kvl_new_step, (lc_parts _ _ _ (sd_inv _ Hs2))|]. intros [] k (K1 & K2 & K3).
  apply wp_bind, wp_get, wp_ret. cbn [snd]. assert (schedulable (set_kv k s2)) as Hs3 by by apply schedulable_kv.
  split; [done|]. apply start_first; [done|lia|lia].
Qed.

(** ** The loops *)

Lemma first_planned s p : first_ok cfg s p -> zlen (running s) <= max_num_running_reqs cfg -> planned cfg s p.
Proof. intros [[L A I1 I2 I3 I4 I5] _ _] Hn. by split. Qed.

Lemma NoDup_zlen_le (l k : list Z) : NoDup l -> (forall x, x ∈ l -> x ∈ k) -> zlen l <= zlen k.
Proof. intros Hn Hs. unfold zlen. apply inj_le, submseteq_length, NoDup_submseteq; done. Qed.

Lemma running_shrinks s p s' p' : lifecycle [] s' -> passed s p s' p' -> zlen (running s') <= zlen (running s).
Proof.
  intros L Hp. apply NoDup_zlen_le; [|apply Hp]. pose proof (lc_nodup _ _ _ L) as Hn. unfold queued in Hn. by apply NoDup_app in Hn as (Hn & _).
Qed.

Lemma passed_objs s p s' p' a : lifecycle [] s -> lifecycle [] s' -> passed s p s' p' -> quiet s s' -> is_Some (objs s !! a) -> is_Some (objs s' !! a).
Proof.
  intros L L' Hp Hq Ha. destruct (decide (a ∈ running s)) as [Hr|Hr]; [|by rewrite (qt_objs _ _ Hq)].
  rewrite <- (qt_running _ _ Hq) in Hr. assert (a ∈ queued s') as Hx by (unfold queued; rewrite elem_of_app; by left).
  apply (lc_queued _ _ _ L') in Hx as (_ & o & [Ho _] & _). by eexists.
Qed.

Lemma loops_spec defer s p :
  schedulable s -> first_ok cfg s p ->
  wp (s ← get; p ← running_loop cfg defer (length (running s)) p; p ← record_loras cfg p; schedule_waiting cfg defer p)
    (fun p' s' => planned cfg s' p') s.
Proof.
  intros Hs Hf. apply wp_bind, wp_get, wp_bind. eapply wp_mono; [apply (running_loop_spec cfg cfg_ok); [done|]|].
  { pose proof (po_index _ _ _ _ (fo_pass _ _ _ Hf)). unfold zlen. lia. }
  intros p1 s1 [Hf1 Hp1]. unfold record_loras. rewrite no_loras. apply wp_bind, wp_ret.
  pose proof (po_inv _ _ _ _ (fo_pass _ _ _ Hf1)) as L1.
  apply (schedule_waiting_spec cfg cfg_ok block_size_pos).
  - apply first_planned; [done|]. pose proof (running_shrinks s p s1 p1 L1 Hp1). pose proof (sd_len _ Hs). lia.
  - intros Hpre. destruct (pd_quiet _ _ _ _ Hp1 Hpre) as [_ Hq].
    apply (quiet_ready cfg s s1); [apply Hs|done|apply Hp1|apply Hs|]. intros a. apply (passed_objs s p s1 p1); [apply Hs|done..].
Qed.

Lemma check_step_spec s p : planned cfg s p -> wp (check_step cfg p) (fun _ s' => s' = s) s.
Proof.
  intros [L A S R]. pose proof (ac_token _ _ _ A) as [T1 T2]. pose proof (ac_input _ _ _ A) as [T3 _]. unfold check_step.
  apply wp_bind, wp_get. apply wp_bind, wp_assert; [apply Z.leb_le; unfold total_tokens in T2; lia|].
  apply wp_bind, wp_assert; [by apply Z.leb_le|]. apply wp_bind, wp_assert; [by apply Z.leb_le|].
  apply wp_bind, wp_assert; [by apply Z.leb_le|]. apply wp_assert; [|done]. apply Z.leb_le.
  pose proof (NoDup_zlen_le (scheduled p) (running s) (ac_nodup _ _ _ A) S) as Hl. unfold scheduled in Hl. rewrite !zlen_app in Hl. lia.
Qed.

(** ** The output *)

(** Only the services changed. *)
Definition kept (s s' : Sched) : Prop := lifecycle [] s' /\ same_core s s'.

Lemma kept_kv {A} (m : M K A) s :
  (forall k, kv_wf k -> wp m (fun _ k' => kv_wf k' /\ forall q, kv_holds k' q -> kv_holds k q) k) -> preserves (kept s) (on_kv m).
Proof.
  intros Hm s1 [L1 S1]. apply wp_zoom. eapply wp_mono; [apply Hm, L1|]. intros x k' [Hw Hh]. split; [by apply lifecycle_kv|by destruct S1].
Qed.

Lemma kept_enc {A} (m : M E A) s :
  (forall e, en_wf e -> wp m (fun _ e' => en_wf e' /\ forall q, en_holds e' q -> en_holds e q) e) -> preserves (kept s) (on_enc m).
Proof.
  intros Hm s1 [L1 S1]. apply wp_zoom. eapply wp_mono; [apply Hm, L1|]. intros x k' [Hw Hh]. split; [by apply lifecycle_enc|by destruct S1].
Qed.

Lemma kept_sets s f : preserves (kept s) (modify_sets f).
Proof. intros s1 [L1 S1]. apply wp_modify. split; [by apply lifecycle_sets|by destruct S1]. Qed.

Lemma kept_conn s m : (forall c, cn_wf c -> wp m (fun _ => cn_wf) c) -> preserves (kept s) (on_connector tt m).
Proof.
  intros Hm s1 [L1 S1]. apply wp_on_connector; [done|]. intros c Hc. destruct (pw_conn _ _ (lc_parts _ _ _ L1) c Hc) as [Hw _].
  eapply wp_mono; [by apply Hm|]. intros [] c' Hc'. split; [by eapply lifecycle_connector|by destruct S1].
Qed.

Lemma kept_ec s m : (forall x, ec_wf x -> wp m (fun _ => ec_wf) x) -> preserves (kept s) (on_ec tt m).
Proof.
  intros Hm s1 [L1 S1]. apply wp_on_ec; [done|]. intros c Hc. pose proof (pw_ec _ _ (lc_parts _ _ _ L1) c Hc) as Hw.
  eapply wp_mono; [by apply Hm|]. intros [] c' Hc'. split; [by apply lifecycle_ec|by destruct S1].
Qed.

Lemma zero_kept s : preserves (kept s) (get_new_block_ids_to_zero cfg).
Proof.
  intros s1 Hk. unfold get_new_block_ids_to_zero. apply (wp_bind_keep (kept s)); [apply kept_kv, kvl_new_ids|done|]. intros ids s2 Hk2.
  destruct (negb _); [by apply wp_ret|]. apply wp_bind, wp_get, wp_bind. case_bool_decide; [by apply wp_ret, wp_ret|].
  apply (wp_bind_keep (kept s)); [apply kept_sets|done|]. intros [] s3 Hk3. by apply wp_ret, wp_ret.
Qed.

(** *** What is reported of a request *)

(** The ids of the output with the computed tokens it reports for them. *)
Definition reported (out : SchedulerOutput) : list (string * Z) :=
  ((fun d => (nr_req_id d, nr_num_computed_tokens d)) <$> out_new_reqs out) ++
  zip (cr_req_ids (out_cached_reqs out)) (cr_num_computed_tokens (out_cached_reqs out)).

Definition told (s : Sched) (a : Z) : string * Z := (rid_of s a, num_computed_tokens (deref s a)).

Lemma scheduled_entry {V} s p a (d : list (string * V)) :
  accounts s p -> a ∈ scheduled p -> d.*1 ≡ₚ rid_of s <$> scheduled p -> exists v, od_get (rid_of s a) d = Some v.
Proof.
  intros A Ha Hd. destruct (od_get (rid_of s a) d) as [v|] eqn:Ev; [by exists v|]. exfalso. apply od_get_None in Ev. apply Ev.
  rewrite Hd. by apply list_elem_of_fmap_2.
Qed.

Lemma planned_object s p a : planned cfg s p -> a ∈ scheduled p -> exists o, objs s !! a = Some o /\ tracked s a o /\ so_status o = RUNNING.
Proof.
  intros [L A S R] Ha%S. assert (a ∈ queued s) as Hq by (unfold queued; rewrite elem_of_app; by left).
  apply (lc_queued _ _ _ L) in Hq as (_ & o & Ht & _). exists o. pose proof Ht as [Ho _]. split_and!; [done|done|by apply (lc_running _ _ _ L a)].
Qed.

Lemma new_data_spec s p l : forall acc,
  planned cfg s p -> (forall a, a ∈ l -> a ∈ scheduled p) ->
  wp (fold_m (fun acc x => y ← new_request_data cfg p x; mret (acc ++ [y])) acc l)
    (fun ds s' => s' = s /\ ((fun d => (nr_req_id d, nr_num_computed_tokens d)) <$> ds) =
       ((fun d => (nr_req_id d, nr_num_computed_tokens d)) <$> acc) ++ (told s <$> l)) s.
Proof.
  induction l as [|a l IH]; intros acc Hp Hl; cbn [fold_m]; [apply wp_ret; by rewrite app_nil_r|].
  destruct (planned_object s p a Hp) as (o & Ho & _); [apply Hl; by left|].
  destruct (scheduled_entry s p a (req_to_new_blocks p) (pl_accounts _ _ _ Hp)) as [b Hb]; [apply Hl; by left|apply (pl_accounts _ _ _ Hp)|].
  assert (rid_of s a = so_id o) as Hrid by (unfold rid_of, deref; by rewrite Ho). rewrite Hrid in Hb.
  apply wp_bind, wp_bind. unfold new_request_data. apply wp_bind. eapply wp_obj; [done|]. apply wp_bind. eapply wp_of_option; [exact Hb|].
  apply wp_bind, wp_get, wp_ret, wp_ret. eapply wp_mono; [apply IH; [done|intros x Hx; apply Hl; by right]|].
  intros ds s' [-> Hds]. split; [done|]. rewrite Hds, fmap_app, <- app_assoc. cbn. unfold told, deref. by rewrite Ho, Hrid.
Qed.

Lemma cached_spec s p resumed l : forall d,
  planned cfg s p -> (forall a, a ∈ l -> a ∈ scheduled p) -> length (cr_req_ids d) = length (cr_num_computed_tokens d) ->
  wp (fold_m (cache_request cfg p resumed) d l)
    (fun d' s' => s' = s /\ length (cr_req_ids d') = length (cr_num_computed_tokens d') /\
       zip (cr_req_ids d') (cr_num_computed_tokens d') = zip (cr_req_ids d) (cr_num_computed_tokens d) ++ (told s <$> l)) s.
Proof.
  induction l as [|a l IH]; intros d Hp Hl Hd; cbn [fold_m]; [apply wp_ret; by rewrite app_nil_r|].
  destruct (planned_object s p a Hp) as (o & Ho & _); [apply Hl; by left|]. pose proof (pl_accounts _ _ _ Hp) as Hac.
  destruct (scheduled_entry s p a (req_to_new_blocks p) Hac) as [b Hb]; [apply Hl; by left|apply Hac|].
  destruct (scheduled_entry s p a (num_scheduled_tokens p) Hac) as [n Hn]; [apply Hl; by left|apply Hac|].
  assert (rid_of s a = so_id o) as Hrid by (unfold rid_of, deref; by rewrite Ho). rewrite Hrid in Hb, Hn.
  apply wp_bind. unfold cache_request at 1. apply wp_bind. eapply wp_obj; [done|]. cbv zeta. apply wp_bind.
  apply (wp_mono _ (fun _ s' => s' = s)).
  { destruct (_ && _); [|by apply wp_ret]. apply wp_bind. eapply wp_of_option; [exact Hn|]. by apply wp_ret. }
  intros toks s' ->. apply wp_bind, wp_get, wp_bind. eapply wp_of_option; [exact Hb|]. apply wp_ret.
  eapply wp_mono; [apply IH; [done|intros x Hx; apply Hl; by right|]|].
  { cbn. rewrite !length_app, Hd. done. }
  intros d' s' (-> & Hd1 & Hd2). split_and!; [done|done|]. rewrite Hd2. cbn. rewrite zip_with_app by done. rewrite <- app_assoc. cbn.
  unfold told, deref. by rewrite Ho, Hrid.
Qed.

Lemma common_kept s0 s : kept s0 s ->
  wp (match running s with
      | [] => mret (replicate (Z.to_nat (num_groups cfg)) 0)
      | a :: _ => o ← obj a; on_kv (kv_get_num_common_prefix_blocks (so_id o))
      end) (fun _ s' => kept s0 s') s.
Proof.
  intros [L S]. destruct (running s) as [|a l] eqn:Er; [by apply wp_ret|].
  assert (a ∈ queued s) as Hq by (unfold queued; rewrite Er, elem_of_app; left; by left).
  apply (lc_queued _ _ _ L) in Hq as (_ & o & [Ho Hg] & _). apply wp_bind. eapply wp_obj; [done|]. apply wp_zoom.
  eapply wp_mono; [apply kvl_common, L|]. intros n k [Hk Hh]. split; [|by destruct S]. apply lifecycle_kv_grow; [done|done|].
  intros q [Hq| ->]%Hh; [by apply L|by eapply od_get_key].
Qed.

Lemma planned_kept s s' p : planned cfg s p -> kept s s' -> planned cfg s' p.
Proof.
  intros [L A Sc R] [L' [S1 S2 S3 S4 S5 S6]]. split; [done| |by rewrite S3|by rewrite S3].
  apply (accounts_same cfg s); [|done]. split; [done|..]; intros b; unfold rid_of, deref; by rewrite S1.
Qed.

Lemma told_kept s s' (l : list Z) : kept s s' -> told s' <$> l = told s <$> l.
Proof. intros [_ [S1 _ _ _ _ _]]. apply list_fmap_ext. intros i a _. unfold told, rid_of, deref. by rewrite S1. Qed.

Lemma num_spec_total s p : planned cfg s p -> wp (num_spec_tokens_to_schedule cfg p) (fun _ s' => s' = s) s.
Proof.
  intros [L A Sc R]. unfold num_spec_tokens_to_schedule. destruct (dynamic_sd_lookup cfg) as [l|] eqn:El; [|by apply wp_ret].
  destruct (Z.ltb_spec 0 (zlen (num_scheduled_tokens p))) as [Hn|Hn]; [|by apply wp_ret].
  pose proof (lookup_covers l eq_refl) as Hl. pose proof (NoDup_zlen_le _ _ (ac_nodup _ _ _ A) Sc) as Hle.
  assert (zlen (num_scheduled_tokens p) = zlen (scheduled p)) as Heq.
  { unfold zlen. f_equal. rewrite <- (length_fmap fst (num_scheduled_tokens p)), (ac_keys _ _ _ A). apply length_fmap. }
  rewrite py_index_nonneg by lia. destruct (lookup_lt_is_Some_2 l (Z.to_nat (zlen (num_scheduled_tokens p)))) as [v Hv].
  { unfold zlen in *. lia. }
  by eapply wp_of_option.
Qed.

(** The output of a plan. *)
Record output_of (s : Sched) (p : Pass) (out : SchedulerOutput) : Prop := {
  of_tokens : out_num_scheduled_tokens out = num_scheduled_tokens p;
  of_total : out_total out = total_tokens (num_scheduled_tokens p);
  of_inputs : out_encoder_inputs out = scheduled_encoder_inputs p;
  of_reported : reported out ≡ₚ told s <$> scheduled p
}.

Lemma build_spec s p :
  planned cfg s p -> wp (build_output cfg p) (fun out s' => kept s s' /\ output_of s p out) s.
Proof.
  intros Hp. assert (kept s s) as Hk by (split; [apply Hp|apply same_core_refl]). unfold build_output. apply wp_bind, wp_get, wp_bind.
  eapply wp_mono; [by apply (common_kept s s)|]. intros common s1 Hk1. pose proof (planned_kept s s1 p Hp Hk1) as Hp1.
  set (reqs := if use_v2_model_runner cfg then _ else _).
  assert (reqs.1 ++ scheduled_running_reqs p ++ reqs.2 ≡ₚ scheduled p) as Hreqs.
  { unfold reqs, scheduled. destruct (use_v2_model_runner cfg); cbn [fst snd].
    - rewrite app_nil_r. apply Permutation_app_comm.
    - rewrite Permutation_app_swap_app. done. }
  destruct reqs as [news resumed]. cbn [fst snd] in Hreqs.
  assert (forall a, a ∈ news \/ a ∈ scheduled_running_reqs p \/ a ∈ resumed -> a ∈ scheduled p) as Hin.
  { intros a Ha. rewrite <- Hreqs, !elem_of_app. tauto. }
  apply wp_bind. eapply wp_mono; [apply (new_data_spec s1 p news []); [done|by auto]|]. intros ds s2 [-> Hds]. cbn in Hds.
  apply wp_bind. unfold make_cached_request_data. apply wp_bind.
  eapply wp_mono; [apply (cached_spec s1 p false); [done|by auto|done]|]. intros d1 s2 (-> & Hl1 & Hz1). cbn [cr_req_ids cr_num_computed_tokens zip_with app] in Hz1.
  eapply wp_mono; [apply (cached_spec s1 p true); [done|by auto|done]|]. intros d2 s2 (-> & Hl2 & Hz2). rewrite Hz1 in Hz2.
  apply wp_bind. apply (wp_mono _ (fun _ s' => kept s s')); [apply wp_when; intros _; [by apply kept_sets|done]|]. intros [] s2 Hk2.
  apply (wp_bind_keep (kept s)); [apply kept_kv, kvl_offloads|done|]. intros [] s3 Hk3.
  apply (wp_bind_keep (kept s)); [apply kept_kv, kvl_copies|done|]. intros copies s4 Hk4.
  apply wp_bind. eapply wp_mono; [apply (num_spec_total s4 p); by apply (planned_kept s s4)|]. intros num_spec s5 ->.
  apply (wp_bind_keep (kept s)); [apply kept_enc, enl_freed|done|]. intros freed s6 Hk6.
  apply (wp_bind_keep (kept s)); [apply zero_kept|done|]. intros zero s7 Hk7.
  apply wp_bind, wp_get, wp_ret. split; [done|]. split; try done.
  unfold reported. cbn [out_new_reqs out_cached_reqs]. rewrite Hds, Hz2, !(told_kept s s1) by done. by rewrite <- !fmap_app, Hreqs.
Qed.

(** ** After the output *)

(** What [_update_after_schedule] leaves alone in an object. *)
Record same_owner (o o' : SReq) : Prop := {
  sw_id : so_id o' = so_id o;
  sw_status : so_status o' = so_status o;
  sw_ok : object_ok o -> object_ok o'
}.

Lemma owner_refl o : same_owner o o.
Proof. by split. Qed.
Lemma owner_trans o1 o2 o3 : same_owner o1 o2 -> same_owner o2 o3 -> same_owner o1 o3.
Proof. intros [A1 A2 A3] [B1 B2 B3]. split; [congruence|congruence|auto]. Qed.

Lemma advance_owner (k : K) n o : same_owner o (advance_request k n o).
Proof.
  unfold advance_request. destruct (kv_defer_block_free k); (split; [done|done|]); intros [[S1 S2] B2 B3];
    (split; [by split|by apply (enl_knows (sr_request o))|done]).
Qed.

Lemma expect_owner out step rid o : same_owner o (expect_tokens cfg out step rid o).
Proof.
  unfold expect_tokens. destruct (use_v2_model_runner cfg); (split; [done|done|]); intros [[S1 S2] B2 B3];
    (split; [by split|by apply (enl_knows (sr_request o))|done]).
Qed.

(** Objects of tracked requests advance by [d]. *)
Record advanced (d : list (string * Z)) (s s' : Sched) : Prop := {
  av_inv : lifecycle [] s';
  av_requests : requests s' = requests s;
  av_running : running s' = running s;
  av_objs : forall a o, tracked s a o -> exists o', tracked s' a o' /\ same_owner o o' /\
    num_computed_tokens (sr_request o') = num_computed_tokens (sr_request o) + default 0 (od_get (so_id o) d)
}.

Lemma advanced_nil s s' : lifecycle [] s' -> same_core s s' -> advanced [] s s'.
Proof.
  intros L [S1 S2 S3 _ _ _]. split; try done. intros a o [Ho Hg]. exists o. unfold tracked. rewrite S1, S2.
  split_and!; [done|done|apply owner_refl|cbn; lia].
Qed.

Lemma advanced_cons rid n d s s1 s' a o o' :
  lifecycle [] s -> rid ∉ d.*1 -> od_get rid (requests s) = Some a -> objs s !! a = Some o -> so_id o = rid ->
  objs s1 = <[a := o']> (objs s) -> requests s1 = requests s -> running s1 = running s -> same_owner o o' ->
  num_computed_tokens (sr_request o') = num_computed_tokens (sr_request o) + n ->
  advanced d s1 s' -> advanced ((rid, n) :: d) s s'.
Proof.
  intros L Hr Hg Ho Hid E1 E2 E3 Hown Hc [V1 V2 V3 V4]. split; [done|congruence|congruence|].
  intros b ob [Hob Hgb]. destruct (decide (b = a)) as [->|Hne].
  - rewrite Ho in Hob. injection Hob as <-. destruct (V4 a o') as (o2 & T2 & O2 & C2).
    { unfold tracked. rewrite E1, E2, lookup_insert_eq, (sw_id _ _ Hown), Hid. done. }
    exists o2. split_and!; [done|by eapply owner_trans|]. rewrite C2, Hc, (sw_id _ _ Hown), Hid. cbn. rewrite decide_True by done. cbn.
    assert (od_get rid d = None) as -> by by apply od_get_None. cbn. lia.
  - destruct (V4 b ob) as (o2 & T2 & O2 & C2).
    { unfold tracked. by rewrite E1, E2, lookup_insert_ne. }
    exists o2. split_and!; [done|done|]. rewrite C2. cbn. rewrite decide_False; [done|]. intros Heq. apply Hne. rewrite <- Heq in Hg. congruence.
Qed.

(** The ids of [d] are those of tracked requests. *)
Definition known_ids (d : list (string * Z)) (s : Sched) : Prop := forall rid, rid ∈ d.*1 -> is_Some (od_get rid (requests s)).

Lemma known_object rid d s : lifecycle [] s -> known_ids d s -> rid ∈ d.*1 ->
  exists a o, od_get rid (requests s) = Some a /\ objs s !! a = Some o /\ so_id o = rid.
Proof.
  intros L Hk [a Ha]%Hk. destruct (lc_objs _ _ _ L rid a Ha) as (o & Ho & Hid & _). by exists a, o.
Qed.

Lemma touch_owner s a o o' : lifecycle [] s -> objs s !! a = Some o -> same_owner o o' -> lifecycle [] (set_objs (<[a := o']> (objs s)) s).
Proof. intros L Ho [W1 W2 W3]. by apply (lifecycle_touch cfg [] s a o). Qed.

Lemma after_base_spec d : forall flag s,
  lifecycle [] s -> NoDup d.*1 -> known_ids d s ->
  wp (fold_m (fun flag rn =>
      s ← get;
      a ← of_option KeyError (od_get rn.1 (requests s));
      modify_obj a (advance_request (kv_cache_manager s) rn.2) ;;
      o ← obj a;
      when (negb (is_prefill_chunk o))
        (modify_sets (fun x => ss_inflight_prefills (inflight_prefills x ∖ {[a]}) x)) ;;
      mret (flag || (use_structured_output o && negb (is_prefill_chunk o)))) flag d)
    (fun _ s' => advanced d s s') s.
Proof.
  induction d as [|[rid n] d IH]; intros flag s L Hnd Hk; cbn [fold_m].
  { apply wp_ret, advanced_nil; [done|apply same_core_refl]. }
  cbn in Hnd. apply NoDup_cons in Hnd as [Hr Hnd].
  destruct (known_object rid ((rid, n) :: d) s L Hk) as (a & o & Hg & Ho & Hid); [by left|].
  apply wp_bind, wp_bind, wp_get, wp_bind. eapply wp_of_option; [exact Hg|]. apply wp_bind. eapply wp_modify_obj; [done|]. cbn [snd fst].
  set (o' := advance_request _ n o). pose proof (advance_owner (kv_cache_manager s) n o) as Hown. fold o' in Hown.
  set (s1 := set_objs (<[a := o']> (objs s)) s). assert (lifecycle [] s1) as L1 by by apply (touch_owner s a o).
  apply wp_bind. eapply wp_obj; [apply lookup_insert_eq|]. apply wp_bind.
  apply (wp_mono _ (fun _ s2 => lifecycle [] s2 /\ same_core s1 s2)).
  { apply wp_when; intros _; [|split; [done|apply same_core_refl]]. apply wp_modify. split; [by apply lifecycle_sets|done]. }
  intros [] s2 [L2 [S1 S2 S3 S4 S5 S6]]. apply wp_ret.
  eapply wp_mono; [apply IH; [done|done|]|].
  { intros rid' Hr'. rewrite S2. apply Hk. by right. }
  intros b s' Hadv. apply (advanced_cons rid n d s s2 s' a o o'); try done. unfold o', advance_request. by destruct (kv_defer_block_free _).
Qed.

Lemma after_async_spec out d : forall flag s,
  lifecycle [] s -> known_ids d s ->
  wp (fold_m (fun flag rn =>
      s ← get;
      a ← of_option KeyError (od_get rn.1 (requests s));
      o ← obj a;
      if is_prefill_chunk o then mret flag else
      modify_obj a (expect_tokens cfg out (current_step s) rn.1) ;;
      mret (flag || (use_structured_output o && (0 <? num_output_placeholders o)))) flag d)
    (fun _ s' => advanced [] s s') s.
Proof.
  induction d as [|[rid n] d IH]; intros flag s L Hk; cbn [fold_m].
  { apply wp_ret, advanced_nil; [done|apply same_core_refl]. }
  destruct (known_object rid ((rid, n) :: d) s L Hk) as (a & o & Hg & Ho & Hid); [by left|].
  assert (known_ids d s) as Hk' by (intros rid' Hr'; apply Hk; by right).
  apply wp_bind, wp_bind, wp_get, wp_bind. eapply wp_of_option; [exact Hg|]. apply wp_bind. eapply wp_obj; [done|]. cbn [fst].
  destruct (is_prefill_chunk o); [by apply wp_ret, IH|]. apply wp_bind. eapply wp_modify_obj; [done|]. apply wp_ret.
  set (o' := expect_tokens _ _ _ _ o). pose proof (expect_owner out (current_step s) rid o) as Hown. fold o' in Hown.
  set (s1 := set_objs (<[a := o']> (objs s)) s). eapply wp_mono; [apply IH; [by apply (touch_owner s a o)|done]|].
  intros b s' [V1 V2 V3 V4]. split; try done. intros b' ob [Hob Hgb]. destruct (decide (b' = a)) as [->|Hne].
  - rewrite Ho in Hob. injection Hob as <-. destruct (V4 a o') as (o2 & T2 & O2 & C2).
    { unfold tracked. cbn. by rewrite lookup_insert_eq, (sw_id _ _ Hown). }
    exists o2. split_and!; [done|by eapply owner_trans|]. rewrite C2. cbn. unfold o', expect_tokens. by destruct (use_v2_model_runner cfg).
  - apply (V4 b' ob). unfold tracked. cbn. by rewrite lookup_insert_ne.
Qed.

Lemma advanced_trans d s1 s2 s3 : advanced d s1 s2 -> advanced [] s2 s3 -> advanced d s1 s3.
Proof.
  intros [A1 A2 A3 A4] [B1 B2 B3 B4]. split; [done|congruence|congruence|]. intros a o Ht. destruct (A4 a o Ht) as (o2 & T2 & O2 & C2).
  destruct (B4 a o2 T2) as (o3 & T3 & O3 & C3). exists o3. split_and!; [done|by eapply owner_trans|]. rewrite C3, C2. cbn. lia.
Qed.

(** Only the flags of the output change. *)
Definition same_output (out out' : SchedulerOutput) : Prop := exists x y, out' = out_set_flags x y out.

Lemma update_after_spec out s :
  lifecycle [] s -> NoDup (out_num_scheduled_tokens out).*1 -> known_ids (out_num_scheduled_tokens out) s ->
  wp (update_after_schedule cfg out) (fun out' s' => same_output out out' /\ advanced (out_num_scheduled_tokens out) s s') s.
Proof.
  intros L Hnd Hk. unfold update_after_schedule, after_schedule_base. apply wp_bind, wp_bind.
  eapply wp_mono; [by apply after_base_spec|]. intros flag s1 Ha1. apply wp_bind, wp_modify, wp_ret.
  set (s2 := set_sets _ s1). assert (advanced (out_num_scheduled_tokens out) s s2) as Ha2.
  { destruct Ha1 as [V1 V2 V3 V4]. split; try done. by apply lifecycle_sets. }
  destruct (async_scheduler cfg); [|apply wp_ret; split; [by eexists _, _|done]]. unfold after_schedule_async. apply wp_bind.
  eapply wp_mono; [apply after_async_spec; [apply Ha2|]|].
  { intros rid Hr. rewrite (av_requests _ _ _ Ha2). by apply Hk. }
  intros pending s3 Ha3. apply wp_ret. split; [by eexists _, _|by eapply advanced_trans].
Qed.

(** ** The whole method *)

(** What [schedule] returns and leaves. *)
Record step_ok (s' : Sched) (out : SchedulerOutput) : Prop := {
  sp_inv : lifecycle [] s';
  sp_running : zlen (running s') <= max_num_running_reqs cfg;
  sp_total : out_total out = total_tokens (out_num_scheduled_tokens out);
  sp_tokens : out_total out <= max_num_scheduled_tokens (chunk_config cfg);
  sp_inputs : out_total out + draft_slots cfg * zlen (out_num_scheduled_tokens out) <= max_num_batched_tokens cfg;
  sp_positive : Forall (fun kn => 0 < kn.2) (out_num_scheduled_tokens out);
  sp_once : NoDup (out_num_scheduled_tokens out).*1;
  sp_reported : (reported out).*1 ≡ₚ (out_num_scheduled_tokens out).*1;
  sp_advanced : forall rid c, (rid, c) ∈ reported out -> exists n a o, od_get rid (out_num_scheduled_tokens out) = Some n /\
    a ∈ running s' /\ tracked s' a o /\ so_id o = rid /\ so_status o = RUNNING /\ num_computed_tokens (sr_request o) = c + n
}.

Lemma plan_ok s p s1 s2 out out' :
  planned cfg s p -> output_of s p out -> kept s s1 -> same_output out out' -> advanced (out_num_scheduled_tokens out) s1 s2 -> step_ok s2 out'.
Proof.
  intros Hp [F1 F2 F3 F4] Hk (x & y & ->) [V1 V2 V3 V4]. pose proof Hp as [L A Sc R]. pose proof Hk as [L1 [S1 S2 S3 S4 S5 S6]].
  pose proof (ac_token _ _ _ A) as [T1 T2]. pose proof (ac_input _ _ _ A) as [T3 T4]. rewrite F1 in V4.
  split; cbn [out_set_flags out_total out_num_scheduled_tokens]; rewrite ?F1, ?F2; try done; try lia.
  - by rewrite V3, S3.
  - apply A.
  - by apply (keys_nodup cfg s p); [|apply A].
  - change (reported (out_set_flags x y out)) with (reported out). rewrite F4, (ac_keys _ _ _ A), <- list_fmap_compose. done.
  - change (reported (out_set_flags x y out)) with (reported out). intros rid c. rewrite F4. intros (a & Ha & Hs)%list_elem_of_fmap.
    unfold told in Ha. injection Ha as -> ->. destruct (planned_object s p a Hp Hs) as (o & Ho & [_ Hg] & Hst).
    destruct (scheduled_entry s p a (num_scheduled_tokens p) A Hs (ac_keys _ _ _ A)) as [n Hn].
    assert (rid_of s a = so_id o) as Hrid by (unfold rid_of, deref; by rewrite Ho).
    destruct (V4 a o) as (o' & Ht & [W1 W2 W3] & Hc); [by unfold tracked; rewrite S1, S2|].
    exists n, a, o'. rewrite <- Hrid in Hc. rewrite Hn in Hc. cbn in Hc. split_and!; [done|rewrite V3, S3; by apply Sc|done|congruence|congruence|].
    unfold deref. by rewrite Ho.
Qed.

Lemma schedule_base_spec throttle s : schedulable s -> wp (schedule_base cfg throttle) (fun out s' => step_ok s' out) s.
Proof.
  intros Hs. unfold schedule_base. apply wp_bind. eapply wp_mono; [by apply begin_step_spec|]. intros [defer p] s1 [Hs1 Hf1]. cbn [snd] in Hf1.
  pose proof (loops_spec defer s1 p Hs1 Hf1) as Hl. apply wp_bind_inv in Hl. unfold wp, get in Hl. cbn beta in Hl.
  apply wp_bind, wp_get. change (wp (p ← running_loop cfg defer (length (running s1)) p; p ← record_loras cfg p; schedule_waiting cfg defer p)
    (fun p' s' => planned cfg s' p') s1) in Hl.
  apply wp_bind_inv in Hl. apply wp_bind. eapply wp_mono; [exact Hl|]. intros p2 s2 Hl2. apply wp_bind_inv in Hl2. apply wp_bind.
  eapply wp_mono; [exact Hl2|]. intros p3 s3 Hl3. apply wp_bind. eapply wp_mono; [exact Hl3|]. intros p4 s4 Hp4. cbv beta in Hp4.
  apply wp_bind. eapply wp_mono; [by apply check_step_spec|]. intros [] s5 ->. apply wp_bind. eapply wp_mono; [by apply build_spec|].
  intros out s5 [Hk5 Hout]. apply (wp_bind_keep (kept s4)); [apply kept_conn, cnl_meta|done|]. intros [] s6 Hk6.
  apply (wp_bind_keep (kept s4)); [apply kept_ec, ecl_meta|done|]. intros [] s7 Hk7.
  apply (wp_bind_keep (kept s4)); [apply kept_kv, kvl_advance|done|]. intros [] s8 Hk8.
  pose proof (pl_accounts _ _ _ Hp4) as A.
  eapply wp_mono; [apply update_after_spec; [apply Hk8|..]; rewrite (of_tokens _ _ _ Hout)|].
  - by apply (keys_nodup cfg s4 p4); [|apply A].
  - intros rid. rewrite (ac_keys _ _ _ A). intros (a & -> & Ha)%list_elem_of_fmap. destruct Hk8 as [_ [_ S2 _ _ _ _]]. rewrite S2.
    rewrite (ac_tracked _ _ _ A a Ha). by eexists.
  - intros out' s9 [Hsame Hadv]. by apply (plan_ok s4 p4 s8 s9 out out').
Qed.

(** [AsyncScheduler.schedule] only moves the steps at which decodes may run. *)
Lemma schedulable_eligible s a o n :
  schedulable s -> a ∈ running s -> objs s !! a = Some o -> schedulable (set_objs (<[a := so_set_eligible n o]> (objs s)) s).
Proof.
  intros [L R W N] Ha Ho. set (s' := set_objs _ s).
  assert (same_owner o (so_set_eligible n o)) as Hown by (split; [done|done|]; intros [[S1 S2] B2 B3]; by split).
  assert (lifecycle [] s') as L' by by apply (touch_owner s a o).
  split; [done| | |done].
  - intros b ob Hb. unfold s'. cbn. destruct (decide (b = a)) as [->|Hne]; [rewrite lookup_insert_eq|rewrite lookup_insert_ne by done].
    + intros [= <-]. destruct (R a o Ha Ho). by split.
    + intros Hob. destruct (R b ob Hb Hob). by split.
  - apply (quiet_ready cfg s s'); try done.
    + split; try done.
      * intros b Hb. unfold s'. cbn. by rewrite lookup_insert_ne by (by intros ->).
      * intros b. unfold rid_of, deref, s'. cbn. destruct (decide (b = a)) as [->|Hne]; [by rewrite lookup_insert_eq, Ho|by rewrite lookup_insert_ne].
    + intros b Hb. unfold s'. cbn. destruct (decide (b = a)) as [->|Hne]; [rewrite lookup_insert_eq; by eexists|by rewrite lookup_insert_ne].
Qed.

Lemma schedulable_phase s ph : schedulable s -> schedulable (set_decode_phase ph s).
Proof. intros Hs. apply (schedulable_quiet s); try done. by destruct (sd_inv _ Hs) as [? ? ? ? ? ? ? ? ? ? []]. Qed.

Lemma running_object s a : schedulable s -> a ∈ running s -> is_Some (objs s !! a).
Proof.
  intros Hs Ha. assert (a ∈ queued s) as Hq by (unfold queued; rewrite elem_of_app; by left).
  apply (lc_queued _ _ _ (sd_inv _ Hs)) in Hq as (_ & o & [Ho _] & _). by eexists.
Qed.

Lemma eligible_loop f l : forall s, schedulable s -> (forall b, b ∈ l -> b ∈ running s) ->
  wp (for_each l (fun b => modify_obj b (fun o => so_set_eligible (f o) o))) (fun _ s' => schedulable s') s.
Proof.
  induction l as [|b l IH]; intros s Hs Hl; cbn [for_each]; [by apply wp_ret|].
  destruct (running_object s b Hs) as [o Ho]; [apply Hl; by left|]. apply wp_bind. eapply wp_modify_obj; [done|].
  apply IH; [apply schedulable_eligible; [done|apply Hl; by left|done]|]. intros c Hc. apply Hl. by right.
Qed.

Lemma align_spec s : schedulable s -> wp (align_decodes cfg) (fun _ s' => schedulable s') s.
Proof.
  intros Hs. unfold align_decodes. apply wp_bind, wp_get. cbv zeta.
  assert (forall b, b ∈ filter (decoding s) (running s) -> b ∈ running s) as Hin by (intros b [_ Hb]%list_elem_of_filter; done).
  destruct (filter (decoding s) (running s)) as [|a rest] eqn:Ed; [by apply wp_modify, schedulable_phase|].
  destruct (running_object s a Hs) as [o Ho]; [apply Hin; by left|]. apply wp_bind. eapply wp_obj; [done|]. apply wp_bind.
  assert (forall l m, (forall b, b ∈ l -> b ∈ running s) ->
    wp (fold_m (fun m b => o ← obj b; mret (Z.min m (next_decode_eligible_step o))) m l) (fun _ s' => s' = s) s) as Hf.
  { induction l as [|b l IH]; intros m Hl; cbn [fold_m]; [by apply wp_ret|]. destruct (running_object s b Hs) as [ob Hob]; [apply Hl; by left|].
    apply wp_bind, wp_bind. eapply wp_obj; [done|]. apply wp_ret, IH. intros c Hc. apply Hl. by right. }
  eapply wp_mono; [apply Hf; intros b Hb; apply Hin; by right|]. intros least s' ->. apply wp_bind, wp_modify.
  apply eligible_loop; [by apply schedulable_phase|exact Hin].
Qed.

Lemma schedule_spec throttle s : schedulable s -> wp (schedule cfg throttle) (fun out s' => step_ok s' out) s.
Proof.
  intros Hs. unfold schedule. apply wp_bind. apply (wp_mono _ (fun _ s' => schedulable s')); [apply wp_when; intros _; [by apply align_spec|done]|].
  intros [] s1 Hs1. by apply schedule_base_spec.
Qed.

End Spec.
