(* ===== verification/SchedUpdate.v ===== *)
(** * [update_from_output]

    What [Scheduler.update_from_output] (vllm/v1/core/sched/scheduler.py) does
    with the output of a step the workers have run: draining the counters of
    work in flight, rolling back rejected drafts, appending the sampled tokens,
    stopping requests, failing the ones whose KV load or grammar failed, and the
    outputs for the engine's clients; with [_handle_invalid_blocks] and the
    override of [_update_request_with_output] in [AsyncScheduler].

    The structured-output manager is asked about requests; its answers in a step
    are a parameter.  Log probabilities, sampling masks, routed experts, the
    adaptive draft budget, statistics, events and logging are left out. *)
From Stdlib Require Import ZArith Lia.
From stdpp Require Import base tactics gmap strings numbers option list.
From S2P Require Import Prelude Blocks Request Hashing Env SchedUtils RequestQueue KVCacheManager OrderedDict SchedChunk SchedRequest SchedIface Scheduler SchedulePass Schedule.

Local Open Scope Z_scope.

(** ** Data *)

(** [ModelRunnerOutput]: the fields that change the scheduler's state; of the
    tensors only whether there is one. *)
Record ModelRunnerOutput := mkRunnerOutput {
  req_id_to_index : list (string * Z);
  sampled_token_ids : list (list Z);
  pooler_output : list bool;
  prompt_logprobs : gset string;
  mro_kv_connector_output : option KVConnectorOutput;
  mro_ec_connector_output : bool
}.

(** [EngineCoreOutput], [EngineCoreOutputs] *)
Record EngineCoreOutput := mkEngineOutput {
  eo_request_id : string;
  eo_new_token_ids : list Z;
  eo_finish_reason : option FinishReason;
  eo_stop_reason : option StopReason;
  eo_pooled : bool
}.
Record EngineCoreOutputs := mkEngineOutputs {
  eco_outputs : list EngineCoreOutput;
  eco_finished_requests : option (gset string)
}.

(** The answers of the structured-output manager and of the grammars. *)
Record StructuredAnswers := mkAnswers {
  ask_should_advance : SReq -> list Z -> bool;
  ask_trim_reasoning : SReq -> list Z -> list Z;
  ask_accept_tokens : string -> list Z -> bool
}.

(** ** Services *)

Class KVUpdate (K : Type) := {
  kv_get_block_ids : string -> K -> list (list Z);
  kv_evict_blocks : gset Z -> M K unit;
  (** the events go to a publisher *)
  kv_take_events : M K unit
}.
Class ConnectorUpdate (C : Type) := {
  cn_take_events : M C unit;
  cn_get_kv_connector_stats : M C unit
}.
Class ECUpdate (X : Type) := {
  ec_take_unavailable_requests : M X (gset string);
  ec_update_connector_output : M X unit
}.

(** What a scan for invalid blocks has found: the affected ids, the blocks to
    evict, and the blocks some request will recompute. *)
Record InvalidScan := mkInvalidScan {
  iv_affected : gset string;
  iv_evict : gset Z;
  iv_marked : gset Z
}.

(** The local variables of the loop. *)
Record UpdatePass := mkUpdatePass {
  up_outputs : gmap Z (list EngineCoreOutput);
  stopped_running_reqs : list Z;
  stopped_preempted_reqs : list Z
}.

(** [outputs[client_index].append(output)] *)
Definition emit (client : Z) (e : EngineCoreOutput) (m : gmap Z (list EngineCoreOutput)) : gmap Z (list EngineCoreOutput) :=
  <[client := default [] (m !! client) ++ [e]]> m.
Definition up_emit (client : Z) (e : EngineCoreOutput) (p : UpdatePass) : UpdatePass :=
  mkUpdatePass (emit client e (up_outputs p)) (stopped_running_reqs p) (stopped_preempted_reqs p).
(** [stopped_running_reqs.add(request)] or [stopped_preempted_reqs.add(request)] *)
Definition up_stopped (a : Z) (was_running : bool) (p : UpdatePass) : UpdatePass :=
  if was_running then mkUpdatePass (up_outputs p) (stopped_running_reqs p ++ [a]) (stopped_preempted_reqs p)
  else mkUpdatePass (up_outputs p) (stopped_running_reqs p) (stopped_preempted_reqs p ++ [a]).

(** The index of the first of the first [n] elements that is in the set. *)
Fixpoint first_invalid (invalid : gset Z) (n : nat) (idx : Z) (l : list Z) : option Z :=
  match n, l with
  | S n', b :: l' => if bool_decide (b ∈ invalid) then Some idx else first_invalid invalid n' (idx + 1) l'
  | _, _ => None
  end.

(** The blocks of the groups from the first invalid one on. *)
Definition suffixes (groups : list (list Z)) (first : list (option Z)) : gset Z :=
  list_to_set (concat (zip_with (fun g fi => match fi with Some i => py_from g i | None => [] end) groups first)).

(** [min(hit_indices)], [None] when there is none. *)
Definition least_index (first : list (option Z)) : option Z :=
  foldr (fun fi m => match fi, m with Some i, Some j => Some (Z.min i j) | Some i, None => Some i | None, _ => m end) None first.

(** The walk over the blocks of a request with one group: whether it is
    affected, the index it is cut at, and what is marked. *)
Fixpoint scan_blocks (invalid : gset Z) (n : nat) (idx : Z) (l : list Z) (hit : bool) (cut : option Z) (marked : gset Z)
    : bool * option Z * gset Z :=
  match n, l with
  | S n', b :: l' =>
      if bool_decide (b ∈ invalid) then
        if bool_decide (b ∈ marked) then scan_blocks invalid n' (idx + 1) l' true cut marked
        else scan_blocks invalid n' (idx + 1) l' true (match cut with Some _ => cut | None => Some idx end) ({[b]} ∪ marked)
      else scan_blocks invalid n' (idx + 1) l' hit cut marked
  | _, _ => (hit, cut, marked)
  end.

Section Update.
Context `{Env} {K E C X : Type} `{KVService K} `{KVScheduling K} `{KVUpdate K} `{EncoderService E}.
Context `{KVConnector C} `{ConnectorUpdate C} `{ECConnector X} `{ECUpdate X}.
Context (cfg : SchedConfig) (block_hasher : option (M Request (list BlockHash))).
Local Abbreviation Sched := (Scheduler K E C X).

(** ** Encoder inputs *)

(** [_free_encoder_input] *)
Definition sched_free_encoder_input (r : Request) (i : Z) : M Sched unit :=
  on_enc (en_free_input r i) ;; on_ec tt (ec_update_state_after_free r i).

(** [_free_encoder_inputs] *)
Definition free_encoder_inputs (a : Z) : M Sched unit :=
  o ← obj a;
  s ← get;
  let r := sr_request o in
  for_each (int_set_order (en_cached_input_ids r (encoder_cache_manager s))) (fun i =>
    f ← of_option IndexError (py_index (mm_features r) i);
    if (sched_encoder_decoder cfg && (0 <? num_computed_tokens r))
       || (offset (mm_position f) + length_ (mm_position f) + num_prefill_lookahead (chunk_config cfg)
           <=? num_computed_tokens r - num_output_placeholders o)
    then sched_free_encoder_input r i else mret tt).

(** ** The sampled tokens *)

(** [Scheduler._update_request_with_output]: the tokens up to the one that stops
    the request. *)
Fixpoint append_until_stop (a : Z) (kept tokens : list Z) : M Sched (list Z * bool) :=
  match tokens with
  | [] => mret (kept, false)
  | t :: rest =>
      on_obj a (on_request (append_output_token_ids block_hasher [t])) ;;
      stopped ← on_obj a (on_request (check_stop (sc_max_model_len cfg)));
      if (stopped : bool) then mret (kept ++ [t], true) else append_until_stop a (kept ++ [t]) rest
  end.

(** ... with the override of [AsyncScheduler]. *)
Definition update_request_with_output (a : Z) (tokens : list Z) (is_stale : bool) : M Sched (list Z * bool) :=
  if negb (async_scheduler cfg) then append_until_stop a [] tokens else
  o ← obj a;
  let status_before_update := so_status o in
  '(tokens, stopped) ← append_until_stop a [] tokens;
  when (negb is_stale)
    (modify_obj a (fun o => so_set_placeholders (num_output_placeholders o - zlen tokens) o) ;;
     o ← obj a; assert_ (0 <=? num_output_placeholders o)) ;;
  when (bool_decide (status_before_update = RUNNING))
    (o ← obj a; on_kv_request a (kv_cache_blocks (num_computed_tokens (sr_request o) - num_output_placeholders o))) ;;
  mret (tokens, stopped).

(** Rejected drafts leave the computed tokens and the placeholders. *)
Definition roll_back (rejected : Z) (o : SReq) : SReq :=
  let r := sr_request o in
  let o := if 0 <? num_computed_tokens r then so_set_request (set_computed (num_computed_tokens r - rejected) r) o else o in
  if 0 <? num_output_placeholders o then so_set_placeholders (num_output_placeholders o - rejected) o else o.

Definition reject_drafts (a : Z) (drafts generated : list Z) (is_stale : bool) : M Sched unit :=
  if negb (bool_decide (drafts = [])) && (negb (bool_decide (generated = [])) || (num_sampled_tokens_per_step cfg =? 0)) && negb is_stale
  then modify_obj a (roll_back (zlen drafts - Z.max (zlen generated - num_sampled_tokens_per_step cfg) 0))
  else mret tt.

(** The branches that stop a request: the tokens kept and whether it stopped. *)
Definition deliver (a : Z) (generated : list Z) (pooled is_stale : bool) : M Sched (list Z * bool) :=
  match generated with
  | _ :: _ => update_request_with_output a generated is_stale
  | [] =>
      o ← obj a;
      let r := sr_request o in
      if (bool_decide (is_Some (pooling_params r)) && pooled)
         || (is_mm_encoder_only cfg && (num_prompt_tokens r <=? num_computed_tokens r))
      then modify_obj a (so_set_status FINISHED_STOPPED) ;; mret ([], true)
      else mret ([], false)
  end.

(** The grammar of a structured request sees the new tokens. *)
Definition advance_grammar (ans : StructuredAnswers) (a : Z) (new_tokens : list Z) (stopped : bool) : M Sched bool :=
  o ← obj a;
  if negb (bool_decide (new_tokens = [])) && ask_should_advance ans o new_tokens then
    match structured_output_request o with Some GrammarReady => mret tt | _ => raise AssertionError end ;;
    let advance := ask_trim_reasoning ans o new_tokens in
    if negb (bool_decide (advance = [])) && negb (ask_accept_tokens ans (so_id o) advance) then
      modify_obj a (fun o => so_set_resumable false (so_set_status FINISHED_ERROR o)) ;; mret true
    else mret stopped
  else mret stopped.

(** A request that stopped: its finish reason. *)
Definition stop_request (a : Z) (was_running : bool) (p : UpdatePass) : M Sched (option FinishReason * UpdatePass) :=
  o ← obj a;
  finished ← handle_stopped_request block_hasher a;
  when finished (free_request cfg a false) ;;
  mret (get_finished_reason (so_status o), up_stopped a was_running p).

(** ** The loop *)

(** The counters of work in flight; whether the output is stale. *)
Definition drain_in_flight (a n : Z) : M Sched bool :=
  modify_request a (fun r => set_in_flight (num_in_flight_tokens r - n) r) ;;
  o ← obj a;
  if 0 <? num_stale_output_tokens o then
    modify_obj a (so_set_stale (num_stale_output_tokens o - n) (drop_stale_output o)) ;;
    assert_ (0 <=? num_stale_output_tokens o - n) ;; mret true
  else mret false.

(** What the output does to the request: the tokens kept, whether there is a
    pooling result, whether the request was running, whether it stopped. *)
Definition process_output (out : SchedulerOutput) (mro : ModelRunnerOutput) (ans : StructuredAnswers) (rid : string) (a : Z)
    (is_stale : bool) : M Sched (list Z * bool * bool * bool) :=
  req_index ← of_option KeyError (od_get rid (req_id_to_index mro));
  generated ← (match sampled_token_ids mro with [] => mret [] | l => of_option IndexError (py_index l req_index) end);
  reject_drafts a (default [] (od_get rid (out_spec_tokens out))) generated is_stale ;;
  o ← obj a;
  when (has_encoder_inputs o) (free_encoder_inputs a) ;;
  pooled ← (match pooler_output mro with [] => mret false | l => of_option IndexError (py_index l req_index) end);
  let was_running := bool_decide (so_status o = RUNNING) in
  '(new_tokens, stopped) ← deliver a generated pooled is_stale;
  stopped ← advance_grammar ans a new_tokens stopped;
  mret (new_tokens, pooled, was_running, stopped).

(** The part of the body after the output is known to be wanted. *)
Definition take_output (out : SchedulerOutput) (mro : ModelRunnerOutput) (ans : StructuredAnswers) (rid : string) (a : Z)
    (is_stale : bool) (p : UpdatePass) : M Sched UpdatePass :=
  '(new_tokens, pooled, was_running, stopped) ← process_output out mro ans rid a is_stale;
  '(finish_reason, p) ← (if (stopped : bool) then stop_request a was_running p else mret (None, p));
  o ← obj a;
  if negb (bool_decide (new_tokens = [])) || pooled || stopped then
    mret (up_emit (client_index o) (mkEngineOutput rid new_tokens finish_reason (stop_reason (sr_request o)) pooled) p)
  else assert_ (negb (bool_decide (rid ∈ prompt_logprobs mro))) ;; mret p.

(** The body of the loop over the scheduled requests. *)
Definition update_one (failed : gset string) (out : SchedulerOutput) (mro : ModelRunnerOutput) (ans : StructuredAnswers)
    (p : UpdatePass) (rn : string * Z) : M Sched UpdatePass :=
  let '(rid, n) := rn in
  assert_ (0 <? n) ;;
  s ← get;
  match od_get rid (requests s) with
  | None => mret p
  | Some a =>
      is_stale ← drain_in_flight a n;
      o ← obj a;
      if bool_decide (rid ∈ failed) || so_finished o || (is_stale && drop_stale_output o) then mret p
      else take_output out mro ans rid a is_stale p
  end.

(** ** Failed loads *)

(** [_update_requests_with_invalid_blocks]: one request. *)
Definition scan_request (invalid : gset Z) (num_scheduled : list (string * Z)) (evict : bool) (v : InvalidScan) (a : Z)
    : M Sched InvalidScan :=
  o ← obj a;
  s ← get;
  let r := sr_request o in
  let groups := kv_get_block_ids (request_id r) (kv_cache_manager s) in
  let num_computed := num_computed_tokens r - default 0 (od_get (request_id r) num_scheduled) in
  let n := Z.to_nat ((num_computed + sc_block_size cfg - 1) / sc_block_size cfg) in
  let cut_at i := modify_request a (set_computed (i * sc_block_size cfg)) in
  let affected := {[request_id r]} ∪ iv_affected v in
  match groups with
  | [] => raise ValueError
  | [blocks] =>
      let '(hit, cut, marked) := scan_blocks invalid n 0 blocks false None (iv_marked v) in
      match cut with
      | Some i => cut_at i ;;
          mret (mkInvalidScan affected (if evict then list_to_set (py_from blocks i) ∪ iv_evict v else iv_evict v) marked)
      | None =>
          if (hit : bool) then modify_request a (set_computed num_computed) ;; mret (mkInvalidScan affected (iv_evict v) marked)
          else mret v
      end
  | _ =>
      let first := first_invalid invalid n 0 <$> groups in
      match least_index first with
      | None => mret v
      | Some i => cut_at i ;;
          mret (mkInvalidScan affected (if evict then suffixes groups first ∪ iv_evict v else iv_evict v) (iv_marked v))
      end
  end.
Definition update_requests_with_invalid_blocks (reqs : list Z) (invalid : gset Z) (num_scheduled : list (string * Z)) (evict : bool)
    : M Sched InvalidScan :=
  fold_m (scan_request invalid num_scheduled evict) (mkInvalidScan ∅ ∅ ∅) reqs.

(** [_handle_invalid_blocks]: the ids the loop leaves out. *)
Definition handle_invalid_blocks (invalid : gset Z) (num_scheduled : list (string * Z)) : M Sched (gset string) :=
  skipped ← on_skipped wq_iter;
  s ← get;
  let loading := filter (fun a => so_status <$> objs s !! a = Some WAITING_FOR_REMOTE_KVS) skipped in
  v1 ← update_requests_with_invalid_blocks loading invalid num_scheduled false;
  s ← get;
  v2 ← update_requests_with_invalid_blocks (running s) invalid num_scheduled true;
  if bool_decide (iv_affected v1 = ∅) && bool_decide (iv_affected v2 = ∅) then mret ∅ else
  when (negb (bool_decide (iv_evict v2 = ∅)) && negb (recompute_kv_load_failures cfg)) (on_kv (kv_evict_blocks (iv_evict v2))) ;;
  if negb (recompute_kv_load_failures cfg) then mret (iv_affected v1 ∪ iv_affected v2) else
  modify_sets (fun x => ss_failed_recving_kv_req_ids (failed_recving_kv_req_ids x ∪ iv_affected v1) x) ;;
  mret (iv_affected v2).

(** ** The method *)

(** The requests that fail: grammars that did not compile, KV that did not load,
    encoder inputs that cannot be had. *)
Definition fail_requests (failed : gset string) (outputs : gmap Z (list EngineCoreOutput)) : M Sched (gmap Z (list EngineCoreOutput)) :=
  s ← get;
  let errors := grammar_compile_error_reqs (sets s) in
  modify_sets (ss_grammar_compile_error_reqs ∅) ;;
  let errors := if negb (recompute_kv_load_failures cfg) then errors ∪ failed else errors in
  unavailable ← on_ec ∅ ec_take_unavailable_requests;
  let errors := errors ∪ unavailable in
  if bool_decide (errors = ∅) then mret outputs else
  reqs ← finish_requests cfg (FinishSet errors) FINISHED_ERROR;
  fold_m (fun m a => o ← obj a;
    mret (emit (client_index o) (mkEngineOutput (so_id o) [] (get_finished_reason (so_status o)) None false) m)) outputs reqs.

(** The outputs by client, with the ids finished since the last ones. *)
Definition engine_core_outputs (outputs : gmap Z (list EngineCoreOutput)) : M Sched (gmap Z EngineCoreOutputs) :=
  s ← get;
  let ecos := (fun l => mkEngineOutputs l None) <$> outputs in
  match finished_req_ids_dict (sets s) with
  | None => mret ecos
  | Some d =>
      modify_sets (ss_finished_req_ids_dict (Some ∅)) ;;
      mret (map_fold (fun c f m => <[c := mkEngineOutputs (default [] (eco_outputs <$> m !! c)) (Some f)]> m) ecos d)
  end.

Definition update_from_output (out : SchedulerOutput) (mro : ModelRunnerOutput) (ans : StructuredAnswers)
    : M Sched (gmap Z EngineCoreOutputs) :=
  on_kv (kv_process_step (out_total out)) ;;
  failed ← (match mro_kv_connector_output mro with
            | Some k => if bool_decide (invalid_block_ids k = ∅) then mret ∅
                        else handle_invalid_blocks (invalid_block_ids k) (out_num_scheduled_tokens out)
            | None => mret ∅
            end);
  p ← fold_m (update_one failed out mro ans) (mkUpdatePass ∅ [] []) (out_num_scheduled_tokens out);
  modify (fun s => set_running (remove_all (running s) (stopped_running_reqs p)).1 s) ;;
  remove_from_waiting (stopped_preempted_reqs p) ;;
  outputs ← fail_requests failed (up_outputs p);
  match mro_kv_connector_output mro with Some k => update_from_kv_xfer_finished k | None => mret tt end ;;
  when (mro_ec_connector_output mro) (on_ec tt ec_update_connector_output) ;;
  on_connector tt cn_get_kv_connector_stats ;;
  on_kv kv_take_events ;;
  on_connector tt cn_take_events ;;
  engine_core_outputs outputs.

End Update.
