(* ===== verification/SchedBlind.v ===== *)
(** * Statements that do not see the queues

    [update_from_output] leaves a stopped request in its queue until the end of
    its loop, so the invariant of SchedulerInv.v holds of the queues without the
    requests that stopped so far.  Most statements of the loop do not look at
    the queues ([blind]): what they do on a state with other queues is what they
    do on the state itself.  The file has the rules of that property, for the
    statements of SchedIface.v and the methods of Scheduler.v and SchedUpdate.v,
    and the partial-correctness rules for what happens to the KV cache. *)
From Stdlib Require Import ZArith Lia.
From stdpp Require Import base tactics gmap strings numbers option list.
From S2P Require Import Prelude Blocks Request Hashing Env SchedUtils RequestQueue KVCacheManager OrderedDict SchedRequest SchedIface Scheduler SchedulerInv SchedulerOps SchedulePass Schedule SchedUpdate.

Local Open Scope Z_scope.

Definition out_map {S A} (f : S -> S) (x : outcome S A) : outcome S A :=
  match x with Ok a s => Ok a (f s) | Raise e s => Raise e (f s) end.

Section Blind.
Context {K E C X : Type}.
Local Abbreviation Sched := (Scheduler K E C X).
Implicit Types s : Sched.

Definition with_queues (r : list Z) (w k : WaitQueue) s : Sched := set_skipped k (set_waiting w (set_running r s)).

Definition blind {A} (m : M Sched A) : Prop := forall r w k s, m (with_queues r w k s) = out_map (with_queues r w k) (m s).

Record same_queues s s' : Prop := {
  eq_running : running s' = running s;
  eq_waiting : waiting s' = waiting s;
  eq_skipped : skipped_waiting s' = skipped_waiting s
}.

Lemma with_own_queues s : with_queues (running s) (waiting s) (skipped_waiting s) s = s.
Proof. by destruct s. Qed.

(** A result for other queues is a result for the state's own. *)
Lemma blind_wp {A} (m : M Sched A) Q r w k s :
  blind m -> wp m Q (with_queues r w k s) -> wp m (fun a s' => Q a (with_queues r w k s') /\ same_queues s s') s.
Proof.
  intros Hb. unfold wp. rewrite (Hb r w k s).
  pose proof (Hb (running s) (waiting s) (skipped_waiting s) s) as Hown. rewrite with_own_queues in Hown.
  destruct (m s) as [a s'|e s']; [|done]. cbn in *. injection Hown as Es'. intros HQ. split; [done|]. by rewrite Es'.
Qed.

(** ** Rules *)

Lemma blind_ret {A} (a : A) : blind (mret a).
Proof. done. Qed.
Lemma blind_raise {A} e : blind (A := A) (raise e).
Proof. done. Qed.
Lemma blind_bind {A B} (m : M Sched A) (f : A -> M Sched B) : blind m -> (forall a, blind (f a)) -> blind (m ≫= f).
Proof.
  intros Hm Hf r w k s. unfold mbind, M_bind. rewrite (Hm r w k s). destruct (m s) as [a s'|e s']; cbn; [apply Hf|done].
Qed.
(** Reading the state, other parts than the queues. *)
Lemma blind_get {B} (f : Sched -> M Sched B) :
  (forall r w k s, f (with_queues r w k s) = f s) -> (forall s, blind (f s)) -> blind (get ≫= f).
Proof. intros He Hf r w k s. unfold mbind, M_bind, get. rewrite He. apply Hf. Qed.
Lemma blind_gets {A} (f : Sched -> A) : (forall r w k s, f (with_queues r w k s) = f s) -> blind (gets f).
Proof. intros He r w k s. unfold gets. by rewrite He. Qed.
Lemma blind_modify (f : Sched -> Sched) :
  (forall r w k s, f (with_queues r w k s) = with_queues r w k (f s)) -> blind (modify f).
Proof. intros He r w k s. unfold modify. cbn. by rewrite He. Qed.
Lemma blind_assert b : blind (assert_ b).
Proof. by destruct b. Qed.
Lemma blind_when b m : blind m -> blind (when b m).
Proof. by destruct b. Qed.
Lemma blind_option {A} e (x : option A) : blind (of_option e x).
Proof. by destruct x. Qed.
Lemma blind_zoom {T A} (view : Sched -> T) (update : T -> Sched -> Sched) (m : M T A) :
  (forall r w k s, view (with_queues r w k s) = view s) ->
  (forall t r w k s, update t (with_queues r w k s) = with_queues r w k (update t s)) -> blind (zoom view update m).
Proof. intros Hv Hu r w k s. unfold zoom. rewrite Hv. destruct (m (view s)); cbn; by rewrite Hu. Qed.
Lemma blind_for_each {A} (l : list A) (f : A -> M Sched unit) : (forall x, blind (f x)) -> blind (for_each l f).
Proof. intros Hf. induction l as [|x l IH]; [apply blind_ret|]. cbn. by apply blind_bind. Qed.
Lemma blind_fold {A B} (f : B -> A -> M Sched B) l : (forall b x, blind (f b x)) -> forall b, blind (fold_m f b l).
Proof. intros Hf. induction l as [|x l IH]; intros b; [apply blind_ret|]. cbn. by apply blind_bind. Qed.

Lemma blind_obj a : blind (obj a).
Proof. apply blind_get; [done|]. intros s. apply blind_option. Qed.
Lemma blind_modify_obj a f : blind (modify_obj a f).
Proof. apply blind_bind; [apply blind_obj|]. intros o. by apply blind_modify. Qed.
Lemma blind_on_obj {A} a (c : M SReq A) : blind (on_obj a c).
Proof. apply blind_bind; [apply blind_obj|]. intros o. by apply blind_zoom. Qed.
Lemma blind_sets f : blind (modify_sets f).
Proof. by apply blind_modify. Qed.
Lemma blind_on_kv {A} (c : M K A) : blind (on_kv c).
Proof. by apply blind_zoom. Qed.
Lemma blind_on_enc {A} (c : M E A) : blind (on_enc c).
Proof. by apply blind_zoom. Qed.
Lemma blind_on_kv_request {A} a (c : M (K * Request) A) : blind (on_kv_request a c).
Proof. apply blind_bind; [apply blind_obj|]. intros o. by apply blind_zoom. Qed.
Lemma blind_on_connector {A} (d : A) (c : M C A) : blind (on_connector d c).
Proof. intros r w k s. unfold on_connector. cbn. destruct (connector s) as [x|]; [|done]. by destruct (c x). Qed.
Lemma blind_on_ec {A} (d : A) (c : M X A) : blind (on_ec d c).
Proof. intros r w k s. unfold on_ec. cbn. destruct (ec_connector s) as [x|]; [|done]. by destruct (c x). Qed.

End Blind.

(** The rule of the statement at the head. *)
Ltac blind_step :=
  lazymatch goal with
  | |- blind (mbind _ get) => apply blind_get; [reflexivity|intros ?]
  | |- blind (mbind _ _) => apply blind_bind; [|intros ?]
  | |- blind (mret _) => apply blind_ret
  | |- blind (raise _) => apply blind_raise
  | |- blind (assert_ _) => apply blind_assert
  | |- blind (of_option _ _) => apply blind_option
  | |- blind (when _ _) => apply blind_when
  | |- blind (gets _) => apply blind_gets; reflexivity
  | |- blind (modify _) => apply blind_modify; reflexivity
  | |- blind (for_each _ _) => apply blind_for_each; intros ?
  | |- blind (fold_m _ _ _) => apply blind_fold; intros ? ?
  | |- blind (obj _) => apply blind_obj
  | |- blind (modify_obj _ _) => apply blind_modify_obj
  | |- blind (on_obj _ _) => apply blind_on_obj
  | |- blind (modify_sets _) => apply blind_sets
  | |- blind (on_kv _) => apply blind_on_kv
  | |- blind (on_enc _) => apply blind_on_enc
  | |- blind (on_kv_request _ _) => apply blind_on_kv_request
  | |- blind (on_connector _ _) => apply blind_on_connector
  | |- blind (on_ec _ _) => apply blind_on_ec
  | |- blind (if ?b then _ else _) => destruct b
  | |- blind (let '(_, _) := ?x in _) => destruct x
  | |- blind (match ?x with _ => _ end) => destruct x
  end.
Ltac blind_run := repeat blind_step.

Section Methods.
Context `{Env} {K E C X : Type} `{KVService K} `{KVScheduling K} `{KVUpdate K} `{EncoderService E}.
Context `{KVConnector C} `{ConnectorUpdate C} `{ECConnector X} `{ECUpdate X}.
Context (cfg : SchedConfig) (block_hasher : option (M Request (list BlockHash))).
Local Abbreviation Sched := (Scheduler K E C X).

Lemma connector_finished_blind a : blind (connector_finished (K := K) (E := E) (C := C) (X := X) cfg a).
Proof. unfold connector_finished. blind_run. Qed.

Lemma free_request_blind a d : blind (free_request (K := K) (E := E) (C := C) (X := X) cfg a d).
Proof.
  unfold free_request, sched_free_blocks, sched_free_request_blocks, discard_pending_draft_token_ids.
  blind_run; apply connector_finished_blind.
Qed.

Lemma append_until_stop_blind a l : forall kept, blind (append_until_stop (K := K) (E := E) (C := C) (X := X) cfg block_hasher a kept l).
Proof. induction l as [|t l IH]; intros kept; cbn [append_until_stop]; blind_run. apply IH. Qed.

Lemma process_output_blind out mro ans rid a stale :
  blind (process_output (K := K) (E := E) (C := C) (X := X) cfg block_hasher out mro ans rid a stale).
Proof.
  unfold process_output, reject_drafts, free_encoder_inputs, sched_free_encoder_input, deliver, update_request_with_output, advance_grammar.
  blind_run; apply append_until_stop_blind.
Qed.

Lemma drain_blind a n : blind (drain_in_flight (K := K) (E := E) (C := C) (X := X) a n).
Proof. unfold drain_in_flight, modify_request. blind_run. Qed.

End Methods.

(** * Sampled tokens

    [Scheduler._update_request_with_output] appends sampled tokens one by one and
    asks [check_stop] after each.  What it keeps is the shortest prefix after
    which the request stops, or everything if it never does. *)

(** The request has [l] more output tokens; what else changed are its hashes,
    its status and its stop reason. *)
Record appended (l : list Z) (r r' : Request) : Prop := {
  ap_id : request_id r' = request_id r;
  ap_features : mm_features r' = mm_features r;
  ap_lora : lora_request r' = lora_request r;
  ap_salt : cache_salt r' = cache_salt r;
  ap_all : all_token_ids r' = all_token_ids r ++ l;
  ap_output : output_token_ids r' = output_token_ids r ++ l;
  ap_prompt : num_prompt_tokens r' = num_prompt_tokens r;
  ap_computed : num_computed_tokens r' = num_computed_tokens r;
  ap_flight : num_in_flight_tokens r' = num_in_flight_tokens r;
  ap_max : max_tokens r' = max_tokens r;
  ap_pooling : pooling_params r' = pooling_params r;
  ap_sampling : sampling_params r' = sampling_params r
}.

Lemma appended_nil r : appended [] r r.
Proof. split; by rewrite ?app_nil_r. Qed.

Lemma appended_trans l l' r r1 r' : appended l r r1 -> appended l' r1 r' -> appended (l ++ l') r r'.
Proof. intros [] []. split; rewrite ?app_assoc; congruence. Qed.

(** With [l] appended, the request meets a criterion of [check_stop]. *)
Definition stops_after (max_model_len : Z) (r : Request) (l : list Z) : Prop :=
  exists sp tok, sampling_params r = Some sp /\ last l = Some tok /\
    let r' := set_tokens (output_token_ids r ++ l) (all_token_ids r ++ l) r in
    (stops_on_token sp tok \/ length_capped max_model_len r' \/ repeats sp r').

Section Tokens.
Context `{Env} {K E C X : Type} `{KVService K} `{KVScheduling K} `{KVUpdate K} `{EncoderService E}.
Context `{KVConnector C} `{ConnectorUpdate C} `{ECConnector X} `{ECUpdate X}.
Context (cfg : SchedConfig) (block_hasher : option (M Request (list BlockHash))).
Context (hasher_total : forall h, block_hasher = Some h -> forall r, wp h (fun _ r' => same_but_memo r r') r).
Local Abbreviation Sched := (Scheduler K E C X).
Implicit Types s : Sched.

Lemma append_token_spec t r :
  wp (append_output_token_ids block_hasher [t]) (fun _ r' => appended [t] r r' /\ status r' = status r) r.
Proof.
  unfold append_output_token_ids. apply wp_bind, wp_modify. unfold update_block_hashes. destruct block_hasher as [h|] eqn:Eh.
  - apply wp_bind. eapply wp_mono; [by apply (hasher_total h)|]. intros new r' Hr. apply wp_modify. unfold same_but_memo in Hr. rewrite Hr.
    by split.
  - apply wp_ret. by split.
Qed.

(** A request whose tokens can be checked. *)
Definition generates (r : Request) : Prop := pooling_params r = None /\ is_Some (sampling_params r).

Lemma appended_generates l r r' : appended l r r' -> generates r -> generates r'.
Proof. intros [] [G1 G2]. split; congruence. Qed.

Lemma stops_appended pre l r r1 :
  appended pre r r1 -> l <> [] -> stops_after (sc_max_model_len cfg) r1 l <-> stops_after (sc_max_model_len cfg) r (pre ++ l).
Proof.
  intros [A1 A2 A3 A4 A5 A6 A7 A8 A9 A10 A11 A12] Hl. unfold stops_after. rewrite A12. cbv zeta. unfold length_capped, repeats, num_tokens, num_output_tokens.
  cbn. rewrite A5, A6, A10, <- !app_assoc. setoid_rewrite last_app. destruct (last l) as [t|] eqn:El; [done|].
  by apply last_None in El.
Qed.

(** One token: appended and checked. *)
Lemma check_token_spec t r :
  generates r ->
  wp (append_output_token_ids block_hasher [t] ;; check_stop (sc_max_model_len cfg)) (fun b r' => appended [t] r r' /\
    (b = true <-> stops_after (sc_max_model_len cfg) r [t]) /\ (if b then is_finished (status r') = true else status r' = status r)) r.
Proof.
  intros Hg. apply wp_bind. eapply wp_mono; [apply append_token_spec|]. intros [] r1 [A1 Hst].
  destruct (appended_generates _ _ _ A1 Hg) as [G1 [sp G2]].
  destruct (check_stop_spec (sc_max_model_len cfg) r1 sp t) as (b & st & sr & Hrun & Hv & Hb & Hf); [done|done| |].
  { rewrite (ap_output _ _ _ A1). apply last_snoc. }
  assert (sampling_params r = Some sp) as G3 by (by rewrite <- (ap_sampling _ _ _ A1)).
  unfold wp. rewrite Hrun. split; [by destruct A1|]. split.
  - rewrite Hb. unfold stops_after, length_capped, repeats, num_tokens, num_output_tokens. cbn. destruct A1 as [_ _ _ _ -> -> _ _ _ -> _ _]. rewrite G3.
    split; [intros Hx; by exists sp, t|]. by intros (sp' & t' & [= <-] & [= <-] & Hx).
  - destruct b; [by apply Hf|]. cbn. inversion Hv; subst; congruence.
Qed.

(** What [_update_request_with_output] keeps of the tokens [l]. *)
Record kept_tokens (r : Request) (l new : list Z) (stopped : bool) : Prop := {
  kt_prefix : new `prefix_of` l;
  kt_first : forall pre, pre `prefix_of` new -> pre <> new -> ~ stops_after (sc_max_model_len cfg) r pre;
  kt_stop : stopped = true <-> stops_after (sc_max_model_len cfg) r new;
  kt_all : stopped = false -> new = l
}.

Lemma kept_nonempty r l new stopped : kept_tokens r l new stopped -> l <> [] -> new <> [].
Proof.
  intros [_ _ K3 K4] Hl ->. destruct stopped; [|by specialize (K4 eq_refl)].
  destruct (proj1 K3 eq_refl) as (sp & tok & _ & Ht & _). done.
Qed.

Lemma nothing_stops r : ~ stops_after (sc_max_model_len cfg) r [].
Proof. intros (sp & tok & _ & Ht & _). done. Qed.

Lemma append_until_stop_spec a l : forall kept s o,
  objs s !! a = Some o -> generates (sr_request o) ->
  wp (append_until_stop cfg block_hasher a kept l) (fun res s' => exists new r', res.1 = kept ++ new /\
    kept_tokens (sr_request o) l new res.2 /\ appended new (sr_request o) r' /\
    (if res.2 : bool then is_finished (status r') = true else status r' = status (sr_request o)) /\
    s' = set_objs (<[a := so_set_request r' o]> (objs s)) s) s.
Proof.
  induction l as [|t l IH]; intros kept s o Ho Hg; cbn [append_until_stop].
  - apply wp_ret. exists [], (sr_request o). rewrite app_nil_r. split_and!; [done| |apply appended_nil|done|].
    + split; [done| | |done].
      * intros pre ->%prefix_nil_inv. done.
      * split; [done|]. by intros ?%nothing_stops.
    + rewrite insert_id; [by destruct s|]. rewrite Ho. by destruct o.
  - pose proof (check_token_spec t (sr_request o) Hg) as Hc. apply wp_bind_inv in Hc.
    apply wp_bind. eapply wp_on_obj; [done|]. apply wp_zoom. eapply wp_mono; [exact Hc|]. intros [] r0 Hc1. cbn beta.
    apply wp_bind. eapply wp_on_obj; [cbn; apply lookup_insert_eq|]. apply wp_zoom. eapply wp_mono; [exact Hc1|].
    intros b r1 (A1 & Hb & Hst). cbn beta. cbn. rewrite insert_insert_eq.
    assert (so_set_request r1 (so_set_request r0 o) = so_set_request r1 o) as -> by done. destruct b.
    + apply wp_ret. exists [t], r1. split_and!; [done| |done|done|done]. split; [by exists l| |done|done].
      intros pre Hpre Hne. destruct pre as [|x pre]; [apply nothing_stops|]. destruct Hpre as [k Hk]. injection Hk as -> Hk.
      symmetry in Hk. by apply app_nil in Hk as [-> _].
    + eapply wp_mono; [apply (IH (kept ++ [t]) _ (so_set_request r1 o)); [cbn; apply lookup_insert_eq|by eapply appended_generates]|].
      intros res s' (new & r' & E1 & [T1 T2 T3 T4] & A2 & Hst' & ->). cbn in *. exists (t :: new), r'. rewrite <- app_assoc in E1.
      split_and!; [done| |by eapply (appended_trans [t])| |].
      * split; [by apply prefix_cons| | |by intros ->%T4].
        -- intros pre Hpre Hne. destruct pre as [|x pre]; [apply nothing_stops|].
           apply prefix_cons_inv_1 in Hpre as Hx. subst x. apply prefix_cons_inv_2 in Hpre. destruct pre as [|x pre]; [by rewrite <- Hb|].
           change (t :: x :: pre) with ([t] ++ x :: pre). rewrite <- (stops_appended [t] (x :: pre) (sr_request o) r1 A1); [|done]. apply T2; [done|congruence].
        -- destruct new as [|x new].
           ++ rewrite <- Hb, T3. split; [by intros ?%nothing_stops|done].
           ++ change (t :: x :: new) with ([t] ++ x :: new). rewrite T3. by apply stops_appended.
      * destruct (res.2); [done|congruence].
      * cbn. by rewrite insert_insert_eq.
Qed.

End Tokens.
