(* ===== verification/SchedUpdateInv.v ===== *)
(** * What holds while an output is processed

    The laws of the services [update_from_output] uses; what the statements on
    one request change ([changed]); and the scheduler as it will be once the
    requests that stopped have left their queues ([view]), of which the
    invariant of SchedulerInv.v holds throughout the loop. *)
From Stdlib Require Import ZArith Lia.
From stdpp Require Import base tactics gmap strings numbers option list.
From S2P Require Import Prelude Blocks Request Hashing Env SchedUtils RequestQueue KVCacheManager OrderedDict SchedRequest SchedIface Scheduler SchedulerInv SchedulerOps SchedulePass Schedule SchedUpdate SchedBlind.

Local Open Scope Z_scope.

(** ** Laws *)

(** A later state of a request: more tokens, no more of them computed. *)
Record request_grown (r r' : Request) : Prop := {
  gw_id : request_id r' = request_id r;
  gw_features : mm_features r' = mm_features r;
  gw_lora : lora_request r' = lora_request r;
  gw_salt : cache_salt r' = cache_salt r;
  gw_tokens : all_token_ids r `prefix_of` all_token_ids r';
  gw_computed : num_computed_tokens r' <= num_computed_tokens r
}.

(** [kv_covers k r]: the blocks of the computed tokens of [r] are there. *)
Class KVUpdateLaws (K : Type) `{KVLaws K} `{!KVScheduling K} `{!KVUpdate K} := {
  kv_covers : K -> Request -> Prop;
  kvu_cacheable k r r' n : kv_wf k -> kv_covers k r -> request_grown r r' ->
    0 <= n <= num_computed_tokens r' -> n <= num_tokens r' -> kv_cacheable k r' n;
  kvu_cache n k r r' : kv_wf k -> kv_cacheable k r n -> request_id r' <> request_id r -> kv_covers k r' ->
    wp (kv_cache_blocks n) (fun _ t => kv_covers t.1 r') (k, r);
  kvu_free r last r' k : kv_wf k -> request_id r' <> request_id r -> kv_covers k r' ->
    wp (kv_free_request_blocks r last) (fun _ k' => kv_covers k' r') k;
  kvu_trim rid n p r' k : kv_wf k -> 0 <= n -> 0 <= p -> request_id r' <> rid -> kv_covers k r' ->
    wp (kv_remove_skipped_blocks rid n p) (fun _ k' => kv_covers k' r') k;
  kvu_finalize r r' k : kv_wf k -> request_id r' <> request_id r -> kv_covers k r' ->
    wp (kv_finalize_partial_tail_offloads r) (fun _ k' => kv_covers k' r') k;
  kvu_process n k : kv_wf k ->
    wp (kv_process_step n) (fun _ k' => kv_wf k' /\ (forall q, kv_holds k' q -> kv_holds k q) /\
      forall r, kv_covers k r -> kv_covers k' r) k;
  kvu_evict ids k : kv_wf k ->
    wp (kv_evict_blocks ids) (fun _ k' => kv_wf k' /\ (forall q, kv_holds k' q -> kv_holds k q) /\
      forall r, kv_covers k r -> kv_covers k' r) k;
  kvu_events k : kv_wf k -> wp kv_take_events (fun _ k' => kv_wf k' /\ forall q, kv_holds k' q -> kv_holds k q) k;
  kvu_groups rid k : kv_wf k -> kv_get_block_ids rid k <> []
}.

Class EncoderUpdateLaws (E : Type) `{EncoderLaws E} := {
  enu_valid r i e : en_wf e -> en_knows r -> i ∈ en_cached_input_ids r e -> is_Some (py_index (mm_features r) i);
  enu_free r i e : en_wf e -> en_knows r -> is_Some (py_index (mm_features r) i) ->
    wp (en_free_input r i) (fun _ e' => en_wf e' /\ forall q, en_holds e' q -> en_holds e q) e
}.

Class ConnectorUpdateLaws (C : Type) `{KVConnectorLaws C} `{!ConnectorUpdate C} := {
  cnu_events c : cn_wf c -> wp cn_take_events (fun _ => cn_wf) c;
  cnu_stats c : cn_wf c -> wp cn_get_kv_connector_stats (fun _ => cn_wf) c
}.

Class ECUpdateLaws (X : Type) `{ECConnectorLaws X} `{!ECUpdate X} := {
  ecu_free r i x : ec_wf x -> wp (ec_update_state_after_free r i) (fun _ => ec_wf) x;
  ecu_unavailable x : ec_wf x -> wp ec_take_unavailable_requests (fun _ => ec_wf) x;
  ecu_output x : ec_wf x -> wp ec_update_connector_output (fun _ => ec_wf) x
}.

(** ** Statements that return keep a predicate *)

Definition keeps {S A} (I : S -> Prop) (m : M S A) : Prop := forall s a s', I s -> m s = Ok a s' -> I s'.

Lemma wp_keeps {S A} (I : S -> Prop) (m : M S A) Q s :
  keeps I m -> I s -> wp m Q s -> wp m (fun a s' => Q a s' /\ I s') s.
Proof. intros Hk Hs. unfold wp. destruct (m s) as [a s'|] eqn:Em; [|done]. intros HQ. split; [done|]. by eapply Hk. Qed.

Section Keeps.
Context {S : Type} (I : S -> Prop).

Lemma keeps_ret {A} (a : A) : keeps I (mret a).
Proof. by intros s b s' Hs [= _ <-]. Qed.
Lemma keeps_raise {A} e : keeps (A := A) I (raise e).
Proof. by intros s a s' Hs Hr. Qed.
Lemma keeps_bind {A B} (m : M S A) (f : A -> M S B) : keeps I m -> (forall a, keeps I (f a)) -> keeps I (m ≫= f).
Proof.
  intros Hm Hf s b s' Hs. unfold mbind, M_bind. destruct (m s) as [a s1|] eqn:Em; [|done].
  intros Hr. apply (Hf a s1 b s'); [|done]. by eapply Hm.
Qed.
Lemma keeps_get : keeps I get.
Proof. by intros s a s' Hs [= _ <-]. Qed.
Lemma keeps_gets {A} (f : S -> A) : keeps I (gets f).
Proof. by intros s a s' Hs [= _ <-]. Qed.
Lemma keeps_modify f : (forall s, I s -> I (f s)) -> keeps I (modify f).
Proof. intros Hf s a s' Hs [= _ <-]. by apply Hf. Qed.
Lemma keeps_assert b : keeps I (assert_ b).
Proof. destruct b; [apply keeps_ret|apply keeps_raise]. Qed.
Lemma keeps_option {A} e (x : option A) : keeps I (of_option e x).
Proof. destruct x; [apply keeps_ret|apply keeps_raise]. Qed.

Lemma keeps_for_each {A} (l : list A) (f : A -> M S unit) : (forall x, keeps I (f x)) -> keeps I (for_each l f).
Proof. intros Hf. induction l as [|x l IH]; [apply keeps_ret|]. cbn. by apply keeps_bind. Qed.

End Keeps.

Section Update.
Context `{Env} {K E C X : Type} `{KVUpdateLaws K} `{EncoderUpdateLaws E} `{ConnectorUpdateLaws C} `{ECUpdateLaws X}.
Context (cfg : SchedConfig) (block_hasher : option (M Request (list BlockHash))).
Context (hasher_total : forall h, block_hasher = Some h -> forall r, wp h (fun _ r' => same_but_memo r r') r).
Local Abbreviation Sched := (Scheduler K E C X).
Local Abbreviation lifecycle := (lifecycle cfg).
Implicit Types (s : Sched) (D : list Z).

(** ** The blocks of other requests *)

(** The KV cache keeps the blocks of the requests of other ids. *)
Definition covers_kept (rid : string) (k k' : K) : Prop :=
  forall r, request_id r <> rid -> kv_covers k r -> kv_covers k' r.

Lemma covers_kept_trans rid k1 k2 k3 : covers_kept rid k1 k2 -> covers_kept rid k2 k3 -> covers_kept rid k1 k3.
Proof. intros Hc1 Hc2 r Hr Hc. by apply Hc2, Hc1. Qed.

Definition fixed_objs (ob : gmap Z SReq) (rid : string) (k : K) (s : Sched) : Prop :=
  objs s = ob /\ kv_wf (kv_cache_manager s) /\ covers_kept rid k (kv_cache_manager s).

Lemma keeps_on_kv {A} ob rid k (c : M K A) :
  (forall k1, kv_wf k1 -> wp c (fun _ k' => kv_wf k') k1) ->
  (forall k1 r, kv_wf k1 -> request_id r <> rid -> kv_covers k1 r -> wp c (fun _ k' => kv_covers k' r) k1) ->
  keeps (fixed_objs ob rid k) (on_kv c).
Proof.
  intros Hw Hc s a s' (F1 & F2 & F3). unfold on_kv, zoom. destruct (c (kv_cache_manager s)) as [b k'|] eqn:Ec; [|done].
  intros [= _ <-]. pose proof (Hw _ F2) as Hwf. unfold wp in Hwf. rewrite Ec in Hwf. split_and!; [done|done|].
  intros r Hr Hcov. pose proof (Hc _ r F2 Hr (F3 r Hr Hcov)) as Hx. unfold wp in Hx. by rewrite Ec in Hx.
Qed.

Lemma keeps_obj ob rid k a o {B} (f : SReq -> M Sched B) :
  ob !! a = Some o -> keeps (fixed_objs ob rid k) (f o) -> keeps (fixed_objs ob rid k) (obj a ≫= f).
Proof.
  intros Ho Hf s b s' Hs. pose proof Hs as (F1 & _). unfold obj, mbind, M_bind, get. rewrite F1, Ho. cbn. by apply Hf.
Qed.

Lemma keeps_on_enc {A} ob rid k (c : M E A) : keeps (fixed_objs ob rid k) (on_enc c).
Proof. intros s a s' Hs. unfold on_enc, zoom. destruct (c _) as [b e|]; [|done]. by intros [= _ <-]. Qed.
Lemma keeps_on_connector {A} ob rid k (d : A) (c : M C A) : keeps (fixed_objs ob rid k) (on_connector d c).
Proof.
  intros s a s' Hs. unfold on_connector. destruct (connector s) as [x|]; [|by intros [= _ <-]].
  destruct (c x) as [b e|]; [|done]. by intros [= _ <-].
Qed.
Lemma keeps_on_ec {A} ob rid k (d : A) (c : M X A) : keeps (fixed_objs ob rid k) (on_ec d c).
Proof.
  intros s a s' Hs. unfold on_ec. destruct (ec_connector s) as [x|]; [|by intros [= _ <-]].
  destruct (c x) as [b e|]; [|done]. by intros [= _ <-].
Qed.

Ltac keeps_step :=
  lazymatch goal with
  | |- keeps _ (mbind _ (obj _)) => eapply keeps_obj; [eassumption|]
  | |- keeps _ (mbind _ _) => apply keeps_bind; [|intros ?]
  | |- keeps _ (mret _) => apply keeps_ret
  | |- keeps _ (raise _) => apply keeps_raise
  | |- keeps _ (assert_ _) => apply keeps_assert
  | |- keeps _ (of_option _ _) => apply keeps_option
  | |- keeps _ get => apply keeps_get
  | |- keeps _ (gets _) => apply keeps_gets
  | |- keeps _ (modify_sets _) => apply keeps_modify; by intros ?
  | |- keeps _ (modify _) => apply keeps_modify; by intros ?
  | |- keeps _ (on_enc _) => apply keeps_on_enc
  | |- keeps _ (on_connector _ _) => apply keeps_on_connector
  | |- keeps _ (on_ec _ _) => apply keeps_on_ec
  | |- keeps _ (if ?b then _ else _) => destruct b
  | |- keeps _ (match ?x with _ => _ end) => destruct x
  end.

(** [_free_request] touches no block of another request. *)
Lemma free_request_keeps ob a o d k :
  ob !! a = Some o -> 0 <= num_prompt_tokens (sr_request o) -> keeps (fixed_objs ob (so_id o) k) (free_request cfg a d).
Proof.
  intros Ho Hn. unfold free_request, sched_free_blocks, sched_free_request_blocks, discard_pending_draft_token_ids, connector_finished.
  repeat keeps_step; apply keeps_on_kv.
  all: intros k1; first [intros r Hk1 Hr; first [by apply kvu_finalize|apply kvu_trim; [done|lia|done|done]|by apply kvu_free]|intros Hk1;
    eapply wp_mono; [first [by apply kvl_finalize|apply kvl_trim; [done|lia|done]|by apply kvl_free_request]|]; intros ? k2 Hk2; apply Hk2].
Qed.

(** ** Statements on one request *)

(** The object [a] is now [o']; the caches lost nothing of other requests. *)
Record changed (a : Z) (rid : string) (o' : SReq) (s s' : Sched) : Prop := {
  ch_objs : objs s' = <[a := o']> (objs s);
  ch_requests : requests s' = requests s;
  ch_queues : same_queues s s';
  ch_count : num_waiting_for_streaming_input s' = num_waiting_for_streaming_input s;
  ch_conn : connector s' = connector s;
  ch_kv : kv_wf (kv_cache_manager s') /\ (forall q, kv_holds (kv_cache_manager s') q -> kv_holds (kv_cache_manager s) q) /\ covers_kept rid (kv_cache_manager s) (kv_cache_manager s');
  ch_enc : en_wf (encoder_cache_manager s') /\ forall q, en_holds (encoder_cache_manager s') q -> en_holds (encoder_cache_manager s) q;
  ch_ec : forall x, ec_connector s' = Some x -> ec_wf x
}.

Lemma changed_trans a rid o1 o2 s s1 s2 : changed a rid o1 s s1 -> changed a rid o2 s1 s2 -> changed a rid o2 s s2.
Proof.
  intros [A1 A2 [] A4 A5 (A6 & A7 & A8) [A9 A10] A11] [B1 B2 [] B4 B5 (B6 & B7 & B8) [B9 B10] B11].
  split; [rewrite B1, A1; apply insert_insert_eq|congruence|split; congruence|congruence|congruence| | |done].
  - split_and!; [done|auto|by eapply covers_kept_trans].
  - auto.
Qed.

(** An assignment to the object. *)
Lemma changed_obj a rid o' s : parts_wf cfg s -> changed a rid o' s (set_objs (<[a := o']> (objs s)) s).
Proof. intros [P1 P2 P3 P4]. split; cbn; [done|done|by split|done|done| |done|done]. split_and!; [done|done|by intros r]. Qed.

Lemma changed_refl a rid o s : parts_wf cfg s -> objs s !! a = Some o -> changed a rid o s s.
Proof.
  intros Hp Ho. assert (s = set_objs (<[a := o]> (objs s)) s) as Es by (rewrite insert_id by done; by destruct s).
  rewrite Es at 2. by apply changed_obj.
Qed.

Lemma changed_parts a rid o' s s' : parts_wf cfg s -> changed a rid o' s s' -> parts_wf cfg s'.
Proof.
  intros [P1 P2 P3 P4] [A1 A2 A3 A4 A5 (A6 & A7 & A8) [A9 A10] A11]. split; [done|done| |done]. rewrite A5. done.
Qed.

Lemma changed_lookup a rid o' s s' : changed a rid o' s s' -> objs s' !! a = Some o'.
Proof. intros Hc. rewrite (ch_objs _ _ _ _ _ Hc). apply lookup_insert_eq. Qed.

(** Changes to a request in no queue keep the invariant. *)
Lemma changed_lifecycle D a o o' rid s s' :
  lifecycle (a :: D) s -> objs s !! a = Some o -> so_id o' = so_id o -> object_ok o' -> changed a rid o' s s' -> lifecycle (a :: D) s'.
Proof.
  intros L Ho Hid Hok Hc. pose proof (changed_parts _ _ _ _ _ (lc_parts _ _ _ L) Hc) as Hp.
  destruct Hc as [A1 A2 [A3 A4 A5] A6 A7 (A8 & A9 & _) [A10 A11] A12].
  pose proof (lifecycle_update cfg D s a o o' L Ho Hid Hok) as [L1 L2 L3 L4 L5 L6 L7 L8 L9 L10 _].
  unfold tracked, queued in *. cbn in *. split; unfold tracked, queued; rewrite ?A1, ?A2, ?A3, ?A4, ?A5, ?A6; try done.
  - intros rid' Hr. by apply L9, A9.
  - intros rid' Hr. apply L10. by apply A11.
Qed.

(** ** The queues without the requests that stopped *)

Definition fifo (l : list Z) : WaitQueue := WFcfs (mkFCFS l).

Definition view (p : UpdatePass) (s : Sched) : Sched :=
  with_queues (filter (fun a => a ∉ stopped_running_reqs p) (running s))
    (fifo (filter (fun a => a ∉ stopped_preempted_reqs p) (members (waiting s))))
    (fifo (filter (fun a => a ∉ stopped_preempted_reqs p) (members (skipped_waiting s)))) s.

Lemma view_same p s s' r w k :
  same_queues s s' -> r = running (view p s) -> w = waiting (view p s) -> k = skipped_waiting (view p s) -> with_queues r w k s' = view p s'.
Proof. intros [Q1 Q2 Q3] -> -> ->. unfold view. by rewrite Q1, Q2, Q3. Qed.

Lemma filter_without (t l : list Z) a :
  NoDup (filter (fun b => b ∉ t) l) -> a ∈ filter (fun b => b ∉ t) l ->
  filter (fun b => b ∉ t) l ≡ₚ a :: filter (fun b => b ∉ t ++ [a]) l.
Proof.
  intros Hnd Ha. assert (filter (fun b => b ∉ t ++ [a]) l = filter (fun b => b <> a) (filter (fun b => b ∉ t) l)) as ->.
  { rewrite list_filter_filter. apply list_filter_iff. intros b. rewrite not_elem_of_app, list_elem_of_singleton. tauto. }
  apply NoDup_Permutation; [done| |].
  - apply NoDup_cons. split; [by intros [? _]%list_elem_of_filter|by apply NoDup_filter].
  - intros b. rewrite elem_of_cons, (list_elem_of_filter (fun c => c <> a)). destruct (decide (b = a)) as [->|Hb]; [tauto|]. tauto.
Qed.

Lemma filter_unchanged (t l : list Z) a : a ∉ filter (fun b => b ∉ t) l -> filter (fun b => b ∉ t ++ [a]) l = filter (fun b => b ∉ t) l.
Proof.
  intros Ha. apply filter_ext_in. intros b Hb. rewrite not_elem_of_app, list_elem_of_singleton. split; [tauto|].
  intros Hx. split; [done|]. intros ->. apply Ha, list_elem_of_filter. done.
Qed.

(** Where a request that an output is for can be. *)
Definition in_place_of (a : Z) (was_running : bool) (v : Sched) : Prop :=
  if was_running then a ∈ running v else a ∈ members (waiting v) \/ a ∈ members (skipped_waiting v).

(** Its queue, without it. *)
Lemma view_without p s a b :
  NoDup (queued (view p s)) -> in_place_of a b (view p s) -> queued (view p s) ≡ₚ a :: queued (view (up_stopped a b p) s).
Proof.
  unfold queued. cbn. intros (Nr & Nd & Nq)%NoDup_app Ha. apply NoDup_app in Nq as (Nw & Nd2 & Nk). destruct b; cbn in *.
  - by rewrite (filter_without _ _ a Nr Ha).
  - destruct Ha as [Ha|Ha].
    + rewrite (filter_without _ _ a Nw Ha), (filter_unchanged _ (members (skipped_waiting s)) a); [cbn; symmetry; apply Permutation_middle|].
      by apply Nd2.
    + rewrite (filter_without _ _ a Nk Ha), (filter_unchanged _ (members (waiting s)) a); [|intros Hx; by apply (Nd2 a)].
      rewrite !app_assoc. symmetry. apply Permutation_middle.
Qed.

Lemma filter_more (t l : list Z) a b : b ∈ filter (fun c => c ∉ t ++ [a]) l -> b ∈ filter (fun c => c ∉ t) l.
Proof. rewrite !list_elem_of_filter, not_elem_of_app. tauto. Qed.

Lemma view_take p s a b o :
  lifecycle [] (view p s) -> in_place_of a b (view p s) -> objs s !! a = Some o -> so_status o <> WAITING_FOR_STREAMING_REQ ->
  lifecycle [a] (view (up_stopped a b p) s).
Proof.
  intros L Ha Ho Hst. pose proof (view_without p s a b (lc_nodup _ _ _ L) Ha) as Hp.
  apply (lifecycle_take cfg [] (view p s) _ [a]); [done| |by destruct b|].
  - split; [..|done]; intros c; destruct b; cbn; try done; apply filter_more.
  - rewrite num_streaming_one, (streaming_other (objs (view p s)) a o Ho Hst). cbn. destruct b; cbn; lia.
Qed.

(** A request that did not stop is in its queue again. *)
Lemma view_put p s a b o :
  NoDup (queued (view p s)) -> in_place_of a b (view p s) -> lifecycle [a] (view (up_stopped a b p) s) -> tracked s a o ->
  (if b then so_status o = RUNNING else can_wait (so_status o)) -> lifecycle [] (view p s).
Proof.
  intros Hnd Ha L Ht Hst. assert (so_finished o = false /\ so_status o <> WAITING_FOR_STREAMING_REQ) as [Hf Hns].
  { unfold so_finished. by destruct b; [rewrite Hst|destruct Hst as [->| ->]]. }
  apply (lifecycle_put cfg [] (view (up_stopped a b p) s) _ a o); try done.
  - apply not_elem_of_nil.
  - unfold queued in Hnd. cbn in Hnd. apply NoDup_app in Hnd as (Nr & Nd & Nq). apply NoDup_app in Nq as (Nw & Nd2 & Nk).
    destruct b; cbn in *.
    + apply put_running; cbn; [done|by apply filter_without|done|done].
    + destruct Ha as [Ha|Ha].
      * apply put_waiting; cbn; [done|done|by apply filter_without|]. by rewrite (filter_unchanged _ (members (skipped_waiting s)) a) by by apply Nd2.
      * apply put_skipped; cbn; [by left|done| |by apply filter_without].
        rewrite (filter_unchanged _ (members (waiting s)) a); [done|]. intros Hx. by apply (Nd2 a).
  - rewrite (streaming_other _ a o); [|by destruct b, Ht|done]. cbn. destruct b; cbn; lia.
Qed.

(** The invariant reads the members of the queues, in any order. *)
Lemma lifecycle_members D s s' :
  lifecycle D s -> same_but_queues s s' -> num_waiting_for_streaming_input s' = num_waiting_for_streaming_input s ->
  running s' ≡ₚ running s -> members (waiting s') ≡ₚ members (waiting s) -> members (skipped_waiting s') ≡ₚ members (skipped_waiting s) ->
  lifecycle D s'.
Proof.
  intros L Hs Hn Hr Hw Hk. change D with ([] ++ D). apply (lifecycle_take cfg D s s' []); [done| |done|change (num_streaming (objs s) []) with 0; lia].
  split; [intros b; by rewrite Hr|intros b; by rewrite Hw|intros b; by rewrite Hk|]. unfold queued. cbn. by rewrite Hr, Hw, Hk.
Qed.

(** A request with an output is where its status says. *)
Lemma view_place p s a o :
  lifecycle [] (view p s) -> tracked s a o -> so_status o = RUNNING \/ so_status o = PREEMPTED ->
  in_place_of a (bool_decide (so_status o = RUNNING)) (view p s).
Proof.
  intros L Ht Hst. assert (a ∈ queued (view p s)) as Hq.
  { apply (lc_queued _ _ _ L). split; [apply not_elem_of_nil|]. exists o. split; [done|]. unfold so_finished. by destruct Hst as [->| ->]. }
  unfold queued in Hq. rewrite !elem_of_app in Hq. destruct Ht as [Ho _]. case_bool_decide as Er; unfold in_place_of.
  - destruct Hq as [Hq|[Hq|Hq]]; [done|exfalso..].
    + by destruct (lc_waiting _ _ _ L a o Hq Ho) as [Hs|Hs]; rewrite Er in Hs.
    + destruct (lc_skipped _ _ _ L a o Hq Ho) as [[Hs|Hs]|Hs]; rewrite Er in Hs; done.
  - destruct Hq as [Hq|Hq]; [|done]. by apply (lc_running _ _ _ L a o Hq) in Ho.
Qed.

End Update.
