(* ===== verification/SchedDeliver.v ===== *)
(** * What an output does to its request

    [process_output] of SchedUpdate.v: drafts that were rejected are rolled back,
    encoder inputs that have been consumed are released, and the sampled tokens
    are appended up to the one that stops the request.  Where the workers
    answered what was asked ([delivery_ok]), nothing is raised, the request has
    exactly the tokens that are reported, and no other request is touched. *)
From Stdlib Require Import ZArith Lia.
From stdpp Require Import base tactics gmap strings numbers option list.
From S2P Require Import Prelude Blocks Request Hashing Env SchedUtils RequestQueue KVCacheManager OrderedDict SchedChunk SchedRequest SchedIface Scheduler SchedulerInv SchedulerOps SchedulePass Schedule SchedUpdate SchedBlind SchedUpdateInv.

Local Open Scope Z_scope.

(** The tokens sampled for a request and whether it has a pooling result. *)
Definition answer_of (mro : ModelRunnerOutput) (rid : string) : option (list Z * bool) :=
  i ← od_get rid (req_id_to_index mro);
  g ← (match sampled_token_ids mro with [] => Some [] | l => py_index l i end);
  p ← (match pooler_output mro with [] => Some false | l => py_index l i end);
  Some (g, p).

(** A request has [l] more tokens and is otherwise who it was. *)
Record same_deal (l : list Z) (o o' : SReq) : Prop := {
  sd_id : so_id o' = so_id o;
  sd_features : mm_features (sr_request o') = mm_features (sr_request o);
  sd_lora : lora_request (sr_request o') = lora_request (sr_request o);
  sd_salt : cache_salt (sr_request o') = cache_salt (sr_request o);
  sd_all : all_token_ids (sr_request o') = all_token_ids (sr_request o) ++ l;
  sd_prompt : num_prompt_tokens (sr_request o') = num_prompt_tokens (sr_request o);
  sd_flight : same_flight o o';
  sd_sampling : sampling_params (sr_request o') = sampling_params (sr_request o);
  sd_pooling : pooling_params (sr_request o') = pooling_params (sr_request o);
  sd_prompt_ids : prompt_token_ids o' = prompt_token_ids o;
  sd_streaming : streaming_queue o' = streaming_queue o;
  sd_structured : structured_output_request o' = structured_output_request o;
  sd_resumable : resumable o' = true -> resumable o = true
}.

Lemma same_deal_refl o : same_deal [] o o.
Proof. by split; rewrite ?app_nil_r. Qed.

Lemma same_deal_trans l l' o o1 o' : same_deal l o o1 -> same_deal l' o1 o' -> same_deal (l ++ l') o o'.
Proof.
  intros [? ? ? ? ? ? [] ? ? ? ? ? ?] [? ? ? ? ? ? [] ? ? ? ? ? ?]. split; try congruence; [rewrite app_assoc; congruence|split; congruence|auto].
Qed.

(** Requests in the middle of a delivery stay in good standing. *)
Lemma same_deal_ok `{EncoderLaws E} l o o' :
  same_deal l o o' -> object_ok o -> so_status o' <> WAITING_FOR_STREAMING_REQ -> object_ok o'.
Proof.
  intros [? ? ? ? ? ? _ ? ? ? ? ? Hr] [[S1 S2] B2 B3] Hst. split; [split|by apply (enl_knows (sr_request o))|congruence].
  - intros Hx. specialize (S1 (Hr Hx)). destruct S1 as [S1 (q & Hq & Hf)]. split; [congruence|]. exists q. split; [congruence|done].
  - done.
Qed.

Section Deliver.
Context `{Env} {K E C X : Type} `{KVUpdateLaws K} `{EncoderUpdateLaws E} `{ConnectorUpdateLaws C} `{ECUpdateLaws X}.
Context (cfg : SchedConfig) (block_hasher : option (M Request (list BlockHash))).
Context (hasher_total : forall h, block_hasher = Some h -> forall r, wp h (fun _ r' => same_but_memo r r') r).
Local Abbreviation Sched := (Scheduler K E C X).
Implicit Types (s : Sched) (o : SReq).

(** The blocks of an earlier state of the request, whose computed tokens are
    real or expected ones. *)
Definition counts_ok (k : K) (o : SReq) : Prop :=
  exists r0, kv_covers k r0 /\ request_grown r0 (sr_request o) /\
    0 <= num_output_placeholders o <= num_computed_tokens (sr_request o) /\
    num_computed_tokens (sr_request o) - num_output_placeholders o <= num_tokens (sr_request o).

(** What the workers and the structured-output manager owe for a request that
    takes its output. *)
Record delivery_ok (out : SchedulerOutput) (mro : ModelRunnerOutput) (k : K) (o : SReq) (stale : bool) : Prop := {
  dv_answer : exists g pooled, answer_of mro (so_id o) = Some (g, pooled) /\
    (g <> [] -> generates (sr_request o)) /\
    (so_id o ∈ prompt_logprobs mro -> g <> [] \/ pooled = true) /\
    (** what was scheduled was expected *)
    (async_scheduler cfg = true -> g <> [] -> stale = false ->
      zlen g <= zlen (default [] (od_get (so_id o) (out_spec_tokens out))) + num_sampled_tokens_per_step cfg <= num_output_placeholders o);
  dv_status : so_status o = RUNNING \/ (so_status o = PREEMPTED /\ resumable o = false);
  dv_fresh : async_scheduler cfg = true -> stale = false -> so_status o = RUNNING;
  dv_grammar : structured_output_request o = None \/ structured_output_request o = Some GrammarReady;
  dv_counts : async_scheduler cfg = true -> so_status o = RUNNING -> counts_ok k o
}.

(** The manager advances grammars of structured requests only. *)
Definition answers_ok (ans : StructuredAnswers) : Prop :=
  forall o l, ask_should_advance ans o l = true -> is_Some (structured_output_request o).

(** ** The statements *)

Definition after_reject (drafts generated : list Z) (is_stale : bool) (o : SReq) : SReq :=
  if negb (bool_decide (drafts = [])) && (negb (bool_decide (generated = [])) || (num_sampled_tokens_per_step cfg =? 0)) && negb is_stale
  then roll_back (zlen drafts - Z.max (zlen generated - num_sampled_tokens_per_step cfg) 0) o else o.

Lemma reject_spec a d g stale s o :
  objs s !! a = Some o ->
  wp (reject_drafts cfg a d g stale) (fun _ s' => s' = set_objs (<[a := after_reject d g stale o]> (objs s)) s) s.
Proof.
  intros Ho. unfold reject_drafts, after_reject. destruct (_ && _); [by eapply wp_modify_obj|].
  apply wp_ret. rewrite insert_id by done. by destruct s.
Qed.

Lemma roll_back_deal n o : same_deal [] o (roll_back n o) /\ so_status (roll_back n o) = so_status o.
Proof.
  unfold roll_back. destruct (0 <? num_computed_tokens (sr_request o)); cbn;
    (match goal with |- context [0 <? ?n] => destruct (0 <? n) end); (split; [|done]); split; cbn; by rewrite ?app_nil_r.
Qed.

Lemma reject_deal d g stale o : same_deal [] o (after_reject d g stale o) /\ so_status (after_reject d g stale o) = so_status o.
Proof. unfold after_reject. destruct (_ && _); [apply roll_back_deal|]. split; [apply same_deal_refl|done]. Qed.

(** Rolling back moves the count of computed tokens and the placeholders alike. *)
Lemma reject_counts d g stale o :
  let o' := after_reject d g stale o in
  0 <= num_output_placeholders o <= num_computed_tokens (sr_request o) ->
  (stale = false -> 0 < zlen g <= zlen d + num_sampled_tokens_per_step cfg /\
     zlen d + num_sampled_tokens_per_step cfg <= num_output_placeholders o) ->
  num_computed_tokens (sr_request o') - num_output_placeholders o' = num_computed_tokens (sr_request o) - num_output_placeholders o /\
  0 <= num_output_placeholders o' /\ num_computed_tokens (sr_request o') <= num_computed_tokens (sr_request o) /\
  (stale = false -> zlen g <= num_output_placeholders o').
Proof.
  cbv zeta. unfold after_reject. intros Hc Hg. pose proof (zlen_nonneg d). destruct stale; cbn [negb]; rewrite ?andb_false_r, ?andb_true_r.
  { split_and!; [done|lia|lia|done]. }
  destruct (Hg eq_refl) as [Hg1 Hg2]. destruct (bool_decide_reflect (d = [])) as [->|Hd]; cbn [negb andb].
  { change (zlen []) with 0 in *. split_and!; [done|lia|lia|lia]. }
  destruct (negb _ || _); [|split_and!; [done|lia|lia|lia]].
  unfold roll_back. set (n := zlen d - Z.max (zlen g - num_sampled_tokens_per_step cfg) 0).
  assert (zlen d <> 0) as Hd0 by (intros Hz; apply Hd; destruct d; [done|rewrite zlen_cons in Hz; pose proof (zlen_nonneg d); lia]).
  destruct (Z.ltb_spec 0 (num_computed_tokens (sr_request o))); cbn;
    (destruct (Z.ltb_spec 0 (num_output_placeholders o)); cbn; split_and!; unfold n; lia).
Qed.

Lemma enc_step s0 s a o r i :
  changed a (so_id o) o s0 s -> parts_wf cfg s -> en_knows r -> is_Some (py_index (mm_features r) i) ->
  wp (sched_free_encoder_input r i) (fun _ s' => changed a (so_id o) o s0 s') s.
Proof.
  intros Hc Hp Hk Hi. unfold sched_free_encoder_input. apply wp_bind, wp_zoom.
  eapply wp_mono; [apply enu_free; [apply Hp|done|done]|]. intros [] e [He Hh].
  assert (changed a (so_id o) o s0 (set_enc e s)) as Hc1.
  { destruct Hc as [A1 A2 [] A4 A5 A6 [A7 A8] A9]. split; try done. split; [done|auto]. }
  apply wp_on_ec; [done|]. intros x Hx. eapply wp_mono; [apply ecu_free; by apply (ch_ec _ _ _ _ _ Hc1)|]. intros [] x' Hx'.
  destruct Hc1 as [A1 A2 [] A4 A5 A6 A7 A9]. split; try done. by intros y [= <-].
Qed.

Lemma free_inputs_spec s a o :
  objs s !! a = Some o -> object_ok o -> parts_wf cfg s ->
  wp (free_encoder_inputs cfg a) (fun _ s' => changed a (so_id o) o s s') s.
Proof.
  intros Ho Hok Hp. unfold free_encoder_inputs. apply wp_bind. eapply wp_obj; [done|]. apply wp_bind, wp_get. cbv zeta.
  apply (wp_for_each (fun _ s' => changed a (so_id o) o s s')); [by apply (changed_refl cfg)|].
  intros pre i post s1 Hl Hc. pose proof (changed_parts cfg _ _ _ _ _ Hp Hc) as Hp1.
  assert (is_Some (py_index (mm_features (sr_request o)) i)) as Hi.
  { apply (enu_valid _ i (encoder_cache_manager s)); [apply Hp|apply Hok|]. apply elem_of_elements.
    rewrite <- int_set_order_perm, Hl, elem_of_app. right. by left. }
  pose proof Hi as [f Hf]. apply wp_bind. eapply wp_of_option; [exact Hf|]. destruct (_ || _); [|by apply wp_ret]. apply enc_step; [done|done|apply Hok|done].
Qed.

(** ... and the KV cache is not involved. *)
Lemma free_inputs_kv a s :
  keeps (fun s' => kv_cache_manager s' = kv_cache_manager s) (free_encoder_inputs (K := K) (E := E) (C := C) (X := X) cfg a).
Proof.
  unfold free_encoder_inputs. apply keeps_bind; [unfold obj; apply keeps_bind; [apply keeps_get|intros; apply keeps_option]|intros o].
  apply keeps_bind; [apply keeps_get|intros s1]. cbv zeta. apply keeps_for_each. intros i. apply keeps_bind; [apply keeps_option|intros f].
  destruct (_ || _); [|apply keeps_ret]. apply keeps_bind; [|intros []].
  - intros t x t' Ht. unfold on_enc, zoom. destruct (en_free_input _ _ _); [|done]. by intros [= _ <-].
  - intros t x t' Ht. unfold on_ec. destruct (ec_connector t) as [y|]; [|by intros [= _ <-]].
    destruct (ec_update_state_after_free _ _ y); [|done]. by intros [= _ <-].
Qed.

(** Caching the tokens of a request memoises in it. *)
Lemma cache_request_spec s a o n :
  objs s !! a = Some o -> parts_wf cfg s -> kv_cacheable (kv_cache_manager s) (sr_request o) n ->
  wp (on_kv_request a (kv_cache_blocks n)) (fun _ s' => exists r', same_but_memo (sr_request o) r' /\
    changed a (so_id o) (so_set_request r' o) s s') s.
Proof.
  intros Ho Hp Hc. unfold on_kv_request. apply wp_bind. eapply wp_obj; [done|]. apply wp_zoom.
  pose proof (kvl_cache n _ (sr_request o) (pw_kv _ _ Hp) Hc) as Hw.
  assert (forall r', request_id r' <> so_id o -> kv_covers (kv_cache_manager s) r' ->
    wp (kv_cache_blocks n) (fun _ t => kv_covers t.1 r') (kv_cache_manager s, sr_request o)) as Hcov
    by (intros r' Hr Hx; apply kvu_cache; [apply Hp|done|done|done]).
  unfold wp in *. destruct (kv_cache_blocks n (kv_cache_manager s, sr_request o)) as [[] [k' r']|e t]; [|done]. cbn in *.
  destruct Hw as (W1 & W2 & W3). exists r'. split; [done|]. destruct Hp as [P1 P2 P3 P4]. split; cbn; try done.
Qed.

Lemma memo_deal r' o : same_but_memo (sr_request o) r' -> same_deal [] o (so_set_request r' o) /\ so_status (so_set_request r' o) = so_status o.
Proof.
  unfold same_but_memo. generalize (prompt_embeds_per_block_hashes r'). intros m ->. split; [|done]. split; cbn; by rewrite ?app_nil_r.
Qed.

Lemma appended_deal l r' o : appended l (sr_request o) r' -> same_deal l o (so_set_request r' o).
Proof. intros []. split; cbn; done. Qed.

Lemma placeholders_deal n o : same_deal [] o (so_set_placeholders n o).
Proof. split; cbn; by rewrite ?app_nil_r. Qed.

(** The end of the override in [AsyncScheduler]. *)
Lemma cache_delivered s a o (running : bool) :
  objs s !! a = Some o -> parts_wf cfg s -> (running = true -> counts_ok (kv_cache_manager s) o) ->
  wp (when running (o ← obj a; on_kv_request a (kv_cache_blocks (num_computed_tokens (sr_request o) - num_output_placeholders o))))
    (fun _ s' => exists o', changed a (so_id o) o' s s' /\ same_deal [] o o' /\ so_status o' = so_status o) s.
Proof.
  intros Ho Hp Hc. apply wp_when; intros Er.
  - destruct (Hc Er) as (r0 & Hcov & Hg & Hb & Hn). apply wp_bind. eapply wp_obj; [done|].
    eapply wp_mono; [apply (cache_request_spec s a o); [done|done|]|].
    { apply (kvu_cacheable _ r0); [apply Hp|done|done|lia|done]. }
    intros [] s' (r' & Hm & Hch). exists (so_set_request r' o). destruct (memo_deal r' o Hm). done.
  - exists o. split_and!; [by apply (changed_refl cfg)|apply same_deal_refl|done].
Qed.

(** The tokens [g] that were sampled become [new]. *)
Record delivered (g new : list Z) (stopped : bool) (o o' : SReq) : Prop := {
  de_prefix : new `prefix_of` g;
  de_some : g <> [] -> new <> [];
  de_deal : same_deal new o o';
  de_status : if stopped then so_finished o' = true else so_status o' = so_status o
}.

Lemma kept_delivered g new stopped o r' :
  kept_tokens cfg (sr_request o) g new stopped -> appended new (sr_request o) r' ->
  (if stopped then is_finished (status r') = true else status r' = status (sr_request o)) ->
  delivered g new stopped o (so_set_request r' o).
Proof.
  intros Hk Ha Hst. split; [apply Hk|by eapply kept_nonempty|by apply appended_deal|by destruct stopped].
Qed.

(** A later change that keeps the status. *)
Lemma delivered_then g new stopped o o1 o' :
  delivered g new stopped o o1 -> same_deal [] o1 o' -> so_status o' = so_status o1 -> delivered g new stopped o o'.
Proof.
  intros [D1 D2 D3 D4] Hd Hs. split; [done|done| |].
  - rewrite <- (app_nil_r new). by eapply same_deal_trans.
  - unfold so_finished in *. rewrite Hs. done.
Qed.

Lemma grown_appended r0 r r' l : request_grown r0 r -> appended l r r' -> request_grown r0 r'.
Proof.
  intros [G1 G2 G3 G4 G5 G6] []. split; try congruence. etrans; [exact G5|]. exists l. congruence.
Qed.

Lemma counts_appended k o l r' :
  counts_ok k o -> appended l (sr_request o) r' ->
  exists r0, kv_covers k r0 /\ request_grown r0 r' /\ 0 <= num_output_placeholders o <= num_computed_tokens r' /\
    num_computed_tokens r' - num_output_placeholders o + zlen l <= num_tokens r'.
Proof.
  intros (r0 & C1 & C2 & C3 & C4) Ha. exists r0. split_and!; [done|by eapply grown_appended|lia|rewrite (ap_computed _ _ _ Ha); lia|].
  unfold num_tokens in *. rewrite (ap_all _ _ _ Ha), (ap_computed _ _ _ Ha), zlen_app. lia.
Qed.

Lemma update_request_spec s a o g stale :
  objs s !! a = Some o -> parts_wf cfg s -> generates (sr_request o) ->
  (async_scheduler cfg = true -> stale = false -> zlen g <= num_output_placeholders o) ->
  (async_scheduler cfg = true -> so_status o = RUNNING -> counts_ok (kv_cache_manager s) o) ->
  wp (update_request_with_output cfg block_hasher a g stale) (fun res s' => exists o', delivered g res.1 res.2 o o' /\
    changed a (so_id o) o' s s') s.
Proof.
  intros Ho Hp Hg Hpl Hct. pose proof (append_until_stop_spec cfg block_hasher hasher_total a g [] s o Ho Hg) as Happ.
  unfold update_request_with_output. destruct (async_scheduler cfg); cbn [negb].
  2:{ eapply wp_mono; [exact Happ|]. intros res s' (new & r' & -> & Hk & Ha & Hst & ->). exists (so_set_request r' o).
      split; [by apply kept_delivered|by apply (changed_obj cfg)]. }
  apply wp_bind. eapply wp_obj; [done|]. cbv zeta. apply wp_bind. eapply wp_mono; [exact Happ|].
  intros [toks stopped] s1 (new & r' & Etok & Hk & Ha & Hst & ->). cbn in Etok, Hk, Hst. subst toks.
  pose proof (kept_delivered g new stopped o r' Hk Ha Hst) as Hd. set (o1 := so_set_request r' o) in *.
  set (s1 := set_objs (<[a := o1]> (objs s)) s). assert (zlen new <= zlen g) as Hlen
    by (destruct (kt_prefix _ _ _ _ _ Hk) as [t ->]; rewrite zlen_app; pose proof (zlen_nonneg t); lia).
  assert (changed a (so_id o) o1 s s1) as Hc1 by by apply (changed_obj cfg).
  assert (parts_wf cfg s1) as Hp1 by by eapply changed_parts.
  set (o2 := if stale then o1 else so_set_placeholders (num_output_placeholders o1 - zlen new) o1).
  assert (same_deal [] o1 o2 /\ so_status o2 = so_status o1) as [Hd2 Hs2].
  { unfold o2. destruct stale; (split; [|done]); [apply same_deal_refl|apply placeholders_deal]. }
  apply wp_bind. eapply (wp_mono _ (fun _ s' => changed a (so_id o) o2 s s' /\ kv_cache_manager s' = kv_cache_manager s)).
  { unfold o2. apply wp_when; intros Es; [apply negb_true_iff in Es|apply negb_false_iff in Es]; rewrite Es; [|done].
    apply wp_bind. eapply wp_modify_obj; [apply lookup_insert_eq|]. apply wp_bind. eapply wp_obj; [cbn; apply lookup_insert_eq|].
    apply wp_assert; [cbn; specialize (Hpl eq_refl Es); apply Z.leb_le; lia|].
    split; [|done]. eapply changed_trans; [exact Hc1|]. by apply (changed_obj cfg). }
  intros [] s2 [Hc2 Hkv]. apply wp_bind.
  eapply wp_mono; [apply (cache_delivered s2 a o2)|].
  - by eapply changed_lookup.
  - by apply (changed_parts cfg _ _ _ _ _ Hp Hc2).
  - intros Er%bool_decide_eq_true. rewrite Hkv. destruct (counts_appended _ o new r' (Hct eq_refl Er) Ha) as (r0 & C1 & C2 & C3 & C4).
    pose proof (zlen_nonneg new). exists r0. unfold o2. destruct stale; cbn; (split_and!; [done|done|lia..]).
  - intros [] s3 (o3 & Hc3 & Hd3 & Hs3). apply wp_ret. exists o3. cbn. split.
    + eapply delivered_then; [exact Hd|by eapply (same_deal_trans [] [])|congruence].
    + rewrite (sd_id _ _ _ Hd2) in Hc3. rewrite (sd_id _ _ _ (de_deal _ _ _ _ _ Hd)) in Hc3. by eapply changed_trans.
Qed.

Lemma deliver_spec s a o g pooled stale :
  objs s !! a = Some o -> parts_wf cfg s -> (g <> [] -> generates (sr_request o)) ->
  (async_scheduler cfg = true -> g <> [] -> stale = false -> zlen g <= num_output_placeholders o) ->
  (async_scheduler cfg = true -> g <> [] -> so_status o = RUNNING -> counts_ok (kv_cache_manager s) o) ->
  wp (deliver cfg block_hasher a g pooled stale) (fun res s' => exists o', delivered g res.1 res.2 o o' /\
    changed a (so_id o) o' s s') s.
Proof.
  intros Ho Hp Hg Hpl Hct. unfold deliver. destruct g as [|t g]; [|by apply update_request_spec; auto].
  apply wp_bind. eapply wp_obj; [done|]. cbv zeta. destruct (_ || _).
  - apply wp_bind. eapply wp_modify_obj; [done|]. apply wp_ret. exists (so_set_status FINISHED_STOPPED o). split; [|by apply (changed_obj cfg)].
    split; cbn; [done|done| |done]. split; cbn; by rewrite ?app_nil_r.
  - apply wp_ret. exists o. split; [|by apply (changed_refl cfg)]. split; cbn; [done|done|apply same_deal_refl|done].
Qed.

Lemma grammar_spec ans s a o l (stopped : bool) :
  objs s !! a = Some o -> parts_wf cfg s -> answers_ok ans ->
  structured_output_request o = None \/ structured_output_request o = Some GrammarReady ->
  wp (advance_grammar ans a l stopped) (fun b s' => exists o', changed a (so_id o) o' s s' /\ same_deal [] o o' /\
    (b = stopped /\ so_status o' = so_status o \/ b = true /\ so_finished o' = true)) s.
Proof.
  intros Ho Hp Ha Hst. assert (exists o', changed a (so_id o) o' s s /\ same_deal [] o o' /\
    (stopped = stopped /\ so_status o' = so_status o \/ stopped = true /\ so_finished o' = true)) as Hsame.
  { exists o. split_and!; [by apply (changed_refl cfg)|apply same_deal_refl|by left]. }
  unfold advance_grammar. apply wp_bind. eapply wp_obj; [done|]. destruct (_ && _) eqn:Ead; [|by apply wp_ret].
  apply andb_true_iff in Ead as [_ [g Hg]%Ha]. assert (structured_output_request o = Some GrammarReady) as -> by (destruct Hst; congruence).
  apply wp_bind, wp_ret. cbv zeta. destruct (_ && _); [|by apply wp_ret]. apply wp_bind. eapply wp_modify_obj; [done|]. apply wp_ret.
  eexists. split_and!; [by apply (changed_obj cfg)| |right; done]. split; cbn; by rewrite ?app_nil_r.
Qed.

(** Where the request is after the rejected drafts have been taken off. *)
Lemma reject_ready out mro k o stale g pooled :
  delivery_ok out mro k o stale -> answer_of mro (so_id o) = Some (g, pooled) -> g <> [] -> async_scheduler cfg = true ->
  let o1 := after_reject (default [] (od_get (so_id o) (out_spec_tokens out))) g stale o in
  (stale = false -> so_status o = RUNNING -> zlen g <= num_output_placeholders o1) /\ (so_status o = RUNNING -> counts_ok k o1).
Proof.
  intros [Hans _ _ _ Hct] Hag Hg Has. destruct Hans as (g' & pooled' & Ha & _ & _ & Hexp). rewrite Ha in Hag. injection Hag as -> ->.
  cbv zeta. set (d := default [] (od_get (so_id o) (out_spec_tokens out))) in *. assert (0 < zlen g) as Hg0 by (destruct g; [done|rewrite zlen_cons; pose proof (zlen_nonneg g); lia]).
  assert (so_status o = RUNNING -> (stale = false -> zlen g <= num_output_placeholders (after_reject d g stale o)) /\
    counts_ok k (after_reject d g stale o)) as Hall.
  { intros Hr. destruct (Hct Has Hr) as (r0 & C1 & [G1 G2 G3 G4 G5 G6] & C2 & C3). destruct (reject_counts d g stale o C2) as (R1 & R2 & R3 & R4).
    { intros Hs. destruct (Hexp Has Hg Hs). lia. }
    destruct (reject_deal d g stale o) as [Hd _]. split; [done|]. exists r0. destruct Hd as [D1 D2 D3 D4 D5 D6 D7 D8 D9 D10 D11 D12 D13].
    unfold num_tokens, so_id in *. rewrite D5, app_nil_r. split_and!; [done| |lia..]. split; [congruence..|by rewrite D5, app_nil_r|lia]. }
  split; [by intros Hs Hr; apply Hall|apply Hall].
Qed.

Lemma answer_index mro rid g pooled :
  answer_of mro rid = Some (g, pooled) -> exists i, od_get rid (req_id_to_index mro) = Some i /\
    (forall Q (s : Sched), Q g s -> wp (match sampled_token_ids mro with [] => mret [] | l => of_option IndexError (py_index l i) end) Q s) /\
    (forall Q (s : Sched), Q pooled s -> wp (match pooler_output mro with [] => mret false | l => of_option IndexError (py_index l i) end) Q s).
Proof.
  unfold answer_of. destruct (od_get rid (req_id_to_index mro)) as [i|]; [|done]. cbn. intros Ha. exists i. split; [done|].
  apply bind_Some in Ha as (g' & Hg & Ha). apply bind_Some in Ha as (p' & Hp & [= -> ->]). split; intros Q s HQ.
  - destruct (sampled_token_ids mro); [injection Hg as <-; by apply wp_ret|by eapply wp_of_option].
  - destruct (pooler_output mro); [injection Hp as <-; by apply wp_ret|by eapply wp_of_option].
Qed.

Lemma process_spec out mro ans s a o stale :
  objs s !! a = Some o -> object_ok o -> parts_wf cfg s -> answers_ok ans -> delivery_ok out mro (kv_cache_manager s) o stale ->
  wp (process_output cfg block_hasher out mro ans (so_id o) a stale) (fun res s' => let '(toks, pooled, was_running, stopped) := res in
    exists g o', answer_of mro (so_id o) = Some (g, pooled) /\ delivered g toks stopped o o' /\ changed a (so_id o) o' s s' /\
      was_running = bool_decide (so_status o = RUNNING) /\ (so_id o ∈ prompt_logprobs mro -> toks <> [] \/ pooled = true)) s.
Proof.
  intros Ho Hok Hp Hans Hdv. pose proof Hdv as [(g & pooled & Hag & Hgen & Hlp & _) Hst Hfresh Hgr _].
  destruct (answer_index mro (so_id o) g pooled Hag) as (i & Hi & Hsam & Hpool).
  pose proof (fun Hg Has => reject_ready out mro _ o stale g pooled Hdv Hag Hg Has) as Hready. cbv zeta in Hready.
  set (d := default [] (od_get (so_id o) (out_spec_tokens out))) in *. unfold process_output.
  apply wp_bind. eapply wp_of_option; [done|]. apply wp_bind, Hsam. apply wp_bind.
  eapply wp_mono; [by apply (reject_spec a d g stale s o)|]. intros [] s1 ->. destruct (reject_deal d g stale o) as [Hd1 Hs1].
  set (o1 := after_reject d g stale o) in *. set (s1 := set_objs (<[a := o1]> (objs s)) s).
  assert (changed a (so_id o) o1 s s1) as Hc1 by by apply (changed_obj cfg).
  pose proof (changed_parts cfg _ _ _ _ _ Hp Hc1) as Hp1. pose proof (changed_lookup _ _ _ _ _ Hc1) as Ho1.
  assert (so_status o1 <> WAITING_FOR_STREAMING_REQ) as Hns by (rewrite Hs1; by destruct Hst as [->|[-> _]]).
  assert (object_ok o1) as Hok1 by by eapply same_deal_ok.
  apply wp_bind. eapply wp_obj; [done|]. apply wp_bind.
  eapply (wp_mono _ (fun _ s' => changed a (so_id o) o1 s s' /\ kv_cache_manager s' = kv_cache_manager s)).
  { apply wp_when; [|by intros _]. intros _. eapply wp_mono; [apply (wp_keeps (fun s' => kv_cache_manager s' = kv_cache_manager s1)); [apply free_inputs_kv|done|by apply (free_inputs_spec s1 a o1)]|].
    intros [] s2 [Hc2 Hkv]. rewrite (sd_id _ _ _ Hd1) in Hc2. split; [by eapply changed_trans|done]. }
  intros [] s2 [Hc2 Hkv2]. pose proof (changed_parts cfg _ _ _ _ _ Hp Hc2) as Hp2. pose proof (changed_lookup _ _ _ _ _ Hc2) as Ho2.
  apply wp_bind, Hpool. cbv zeta. apply wp_bind. eapply wp_mono; [apply (deliver_spec s2 a o1 g pooled stale Ho2 Hp2)|].
  - intros Hg. destruct (Hgen Hg) as [G1 G2]. split; [by rewrite (sd_pooling _ _ _ Hd1)|by rewrite (sd_sampling _ _ _ Hd1)].
  - intros Has Hg Hs. by apply (proj1 (Hready Hg Has) Hs), Hfresh.
  - intros Has Hg Hr. rewrite Hkv2. apply (Hready Hg Has). congruence.
  - intros [toks stopped] s3 (o3 & Hd3 & Hc3). cbn in Hd3. rewrite (sd_id _ _ _ Hd1) in Hc3.
    pose proof (changed_trans _ _ _ _ _ _ _ Hc2 Hc3) as Hc3'. pose proof (changed_parts cfg _ _ _ _ _ Hp Hc3') as Hp3.
    apply wp_bind. pose proof (de_deal _ _ _ _ _ Hd3) as Hdeal.
    eapply wp_mono; [apply (grammar_spec ans s3 a o3 toks stopped (changed_lookup _ _ _ _ _ Hc3) Hp3 Hans)|].
    { rewrite (sd_structured _ _ _ Hdeal), (sd_structured _ _ _ Hd1). done. }
    intros b s4 (o4 & Hc4 & Hd4 & Hb). rewrite (sd_id _ _ _ Hdeal), (sd_id _ _ _ Hd1) in Hc4. apply wp_ret. exists g, o4.
    split_and!; [done| |by eapply changed_trans|by rewrite Hs1|].
    + destruct Hd3 as [D1 D2 D3 D4]. split; [done|done| |].
      * change toks with ([] ++ toks). eapply same_deal_trans; [exact Hd1|]. rewrite <- (app_nil_r toks). by eapply same_deal_trans.
      * destruct Hb as [[-> Hb]|[-> Hb]]; [|done]. destruct stopped; [unfold so_finished in *; by rewrite Hb|congruence].
    + intros Hx. destruct (Hlp Hx) as [Hg|Hg]; [left; by apply (de_some _ _ _ _ _ Hd3)|by right].
Qed.

End Deliver.
