(* ===== verification/SchedUpdateLoop.v ===== *)
(** * The loop of [update_from_output]

    For each request of the step: its counters of work in flight are drained,
    its output is processed, and a request that stopped is released or, as a
    session, queued again.  The invariant of SchedulerInv.v holds of the queues
    without the requests that stopped ([view]); every other request is as it
    was; and the tokens reported for a request are the tokens it was given. *)
From Stdlib Require Import ZArith Lia.
From stdpp Require Import base tactics gmap strings numbers option list.
From S2P Require Import Prelude Blocks Request Hashing Env SchedUtils RequestQueue KVCacheManager OrderedDict SchedChunk SchedRequest SchedIface Scheduler SchedulerInv SchedulerOps SchedulePass Schedule SchedUpdate SchedBlind SchedUpdateInv SchedDeliver.

Local Open Scope Z_scope.

(** ** Reported tokens *)

(** The tokens the outputs [m] report to a client for a request. *)
Definition tokens_of (rid : string) (l : list EngineCoreOutput) : list Z :=
  concat (eo_new_token_ids <$> filter (fun e => eo_request_id e = rid) l).
Definition emitted (m : gmap Z (list EngineCoreOutput)) (client : Z) (rid : string) : list Z :=
  tokens_of rid (default [] (m !! client)).

Lemma tokens_of_snoc rid l e : tokens_of rid (l ++ [e]) = tokens_of rid l ++ (if decide (eo_request_id e = rid) then eo_new_token_ids e else []).
Proof.
  unfold tokens_of. rewrite filter_app, fmap_app, concat_app. f_equal. rewrite filter_cons. case_decide; cbn; by rewrite ?app_nil_r.
Qed.

Lemma emitted_emit m c e client rid :
  emitted (emit c e m) client rid = emitted m client rid ++ (if decide (c = client /\ eo_request_id e = rid) then eo_new_token_ids e else []).
Proof.
  unfold emitted, emit. destruct (decide (c = client)) as [->|Hne].
  - rewrite lookup_insert_eq. etrans; [apply tokens_of_snoc|]. f_equal. destruct (decide (eo_request_id e = rid)), (decide (client = client /\ eo_request_id e = rid)); naive_solver.
  - rewrite lookup_insert_ne by done. rewrite decide_False by tauto. by rewrite app_nil_r.
Qed.

Section Loop.
Context `{Env} {K E C X : Type} `{KVUpdateLaws K} `{EncoderUpdateLaws E} `{ConnectorUpdateLaws C} `{ECUpdateLaws X}.
Context (cfg : SchedConfig) (block_hasher : option (M Request (list BlockHash))).
Context (hasher_total : forall h, block_hasher = Some h -> forall r, wp h (fun _ r' => same_but_memo r r') r).
Local Abbreviation Sched := (Scheduler K E C X).
Local Abbreviation lifecycle := (lifecycle cfg).
Implicit Types (s : Sched) (p : UpdatePass).

(** ** Draining *)

Definition drained (n : Z) (o : SReq) : SReq :=
  let o := so_set_request (set_in_flight (num_in_flight_tokens (sr_request o) - n) (sr_request o)) o in
  if 0 <? num_stale_output_tokens o then so_set_stale (num_stale_output_tokens o - n) (drop_stale_output o) o else o.

Lemma drain_stale_spec a n s o :
  objs s !! a = Some o -> (0 < num_stale_output_tokens o -> n <= num_stale_output_tokens o) ->
  wp (drain_in_flight a n) (fun b s' => b = (0 <? num_stale_output_tokens o) /\
    s' = set_objs (<[a := drained n o]> (objs s)) s) s.
Proof.
  intros Ho Hn. unfold drain_in_flight, modify_request, drained. apply wp_bind. eapply wp_modify_obj; [done|].
  apply wp_bind. eapply wp_obj; [cbn; apply lookup_insert_eq|]. cbn [num_stale_output_tokens so_set_request].
  destruct (Z.ltb_spec 0 (num_stale_output_tokens o)) as [Hs|Hs].
  - apply wp_bind. eapply wp_modify_obj; [cbn; apply lookup_insert_eq|]. apply wp_bind, wp_assert; [apply Z.leb_le; lia|].
    apply wp_ret. split; [done|]. cbn. by rewrite insert_insert_eq.
  - by apply wp_ret.
Qed.

Lemma drained_fields n o :
  so_id (drained n o) = so_id o /\ so_status (drained n o) = so_status o /\ drop_stale_output (drained n o) = drop_stale_output o /\
  resumable (drained n o) = resumable o /\ client_index (drained n o) = client_index o /\
  all_token_ids (sr_request (drained n o)) = all_token_ids (sr_request o) /\
  num_in_flight_tokens (sr_request (drained n o)) = num_in_flight_tokens (sr_request o) - n.
Proof. unfold drained. cbn. by destruct (0 <? num_stale_output_tokens o). Qed.

Lemma drained_ok n o : object_ok o -> object_ok (drained n o).
Proof.
  intros [[S1 S2] B2 B3]. unfold drained. cbn. destruct (0 <? num_stale_output_tokens o); (split; [by split|by apply (enl_knows (sr_request o))|done]).
Qed.

Lemma delivery_drained n out mro k o stale : delivery_ok cfg out mro k o stale -> delivery_ok cfg out mro k (drained n o) stale.
Proof.
  intros [D1 D2 D3 D4 D5]. unfold drained. cbn.
  assert (counts_ok k o -> forall o', num_output_placeholders o' = num_output_placeholders o ->
    sr_request o' = set_in_flight (num_in_flight_tokens (sr_request o) - n) (sr_request o) -> counts_ok k o') as Hc.
  { intros (r0 & C1 & [] & C3 & C4) o' E1 E2. exists r0. rewrite E1, E2. split_and!; try done; cbn; lia. }
  destruct (0 <? num_stale_output_tokens o); (split; [done..|]); intros Hx1 Hx2; by apply Hc; [apply D5| |].
Qed.

(** ** A request that stopped *)

(** What happened to the request [a] of id [rid]; the others are as they were. *)
Record settled_as (a : Z) (rid : string) (s s' : Sched) (o o' : SReq) : Prop := {
  se_objs : objs s' = <[a := o']> (objs s);
  se_requests : requests s' = requests s \/ requests s' = od_pop rid (requests s);
  se_running : running s' = running s;
  se_kv : covers_kept rid (kv_cache_manager s) (kv_cache_manager s');
  se_id : so_id o' = so_id o;
  se_flight : same_flight o o'
}.

Lemma settled_trans a rid s s1 s2 o o1 o2 :
  settled_as a rid s s1 o o1 -> requests s1 = requests s -> settled_as a rid s1 s2 o1 o2 -> settled_as a rid s s2 o o2.
Proof.
  intros [A1 _ A3 A4 A5 [A6 A7]] Er [B1 B2 B3 B4 B5 [B6 B7]].
  split; [rewrite B1, A1; apply insert_insert_eq|by rewrite <- Er|congruence|by eapply covers_kept_trans|congruence|split; congruence].
Qed.

(** Released. *)
Lemma release_stopped_spec p s a o :
  lifecycle [a] (view p s) -> tracked s a o -> so_finished o = true ->
  wp (free_request cfg a false) (fun _ s' => lifecycle [] (view p s') /\ settled_as a (so_id o) s s' o o) s.
Proof.
  intros L Ht Hf. pose proof Ht as [Ho Hg].
  destruct (lc_objs _ _ _ L _ _ Hg) as (o1 & Ho1 & _ & Hok). assert (o1 = o) as -> by (cbn in Ho1; congruence).
  assert (fixed_objs (objs s) (so_id o) (kv_cache_manager s) s) as Hfix by (split_and!; [done|apply L|by intros r]).
  eapply wp_mono; [apply (wp_keeps (fixed_objs (objs s) (so_id o) (kv_cache_manager s))); [by apply free_request_keeps, Hok|done|]|].
  { apply (blind_wp _ (fun _ s' => lifecycle [] s' /\ forgot (so_id o) (view p s) s')); [apply free_request_blind|].
    apply (free_request_spec cfg [] (view p s) a o false); [done|apply not_elem_of_nil|done|done]. }
  intros [] s' [[[L' [F1 _ _ _ F5]] Hq] (G1 & G2 & G3)]. rewrite (view_same p s s') in L' by done. split; [done|].
  split; [by rewrite G1, insert_id|done|apply Hq|done|done|done].
Qed.

(** Queued again. *)
Lemma session_back_spec p s s' a o :
  lifecycle [a] (view p s) -> a ∉ stopped_preempted_reqs p -> tracked s a o -> session_back a o s s' ->
  lifecycle [] (view p s') /\ exists o', settled_as a (so_id o) s s' o o'.
Proof.
  intros L Htp Ht (Hr & o' & x & s1 & Hok & Hid & Hfl & Hcs & Hnf & -> & Hput & Hsq & Hn & _ & _). pose proof Ht as [Ho Hg].
  set (s1 := set_objs (<[a := o']> (objs s)) (set_sets x s)).
  assert (lifecycle [a] (view p s1)) as L1.
  { apply (lifecycle_update cfg [] (view p (set_sets x s)) a o); [|done|done|done].
    change (view p (set_sets x s)) with (set_sets x (view p s)). by apply lifecycle_sets. }
  pose proof Hsq as [Q1 Q2 Q3 Q4 Q5 Q6]. cbn in Q1, Q2, Q3, Q4, Q5, Q6.
  assert (running s' = running s) as Hrun by (destruct Hput as [P1|? P2|? P2]; cbn in *; [rewrite P1 in Hcs; by destruct Hcs as [[|]|]|done|done]).
  split.
  - apply (lifecycle_put cfg [] (view p s1) (view p s') a o'); [done|apply not_elem_of_nil| |done| |by split|].
    + split; cbn; [apply lookup_insert_eq|by rewrite Hid].
    + destruct Hput as [P1 P2 P3 P4|P1 P2 P3 P4|P1 P2 P3 P4]; cbn in *.
      * rewrite P1 in Hcs. by destruct Hcs as [[|]|].
      * apply put_waiting; cbn; [done|by rewrite P2| |by rewrite P4]. rewrite P3. by rewrite filter_cons_True.
      * apply put_skipped; cbn; [done|by rewrite P2|by rewrite P3|]. rewrite P4. by rewrite filter_cons_True.
    + cbn. rewrite Hn. cbn. f_equal. unfold streaming. by rewrite lookup_insert_eq.
  - exists o'. split; [by rewrite Q1|left; by rewrite Q2|done|rewrite Q3; by intros r|done|done].
Qed.

(** [stop_request] of a request taken out of the view. *)
Lemma stop_spec p s a o b :
  lifecycle [a] (view (up_stopped a b p) s) -> a ∉ stopped_preempted_reqs p -> (b = false -> resumable o = false) ->
  tracked s a o -> so_finished o = true ->
  wp (stop_request cfg block_hasher a b p) (fun res s' => res.2 = up_stopped a b p /\ lifecycle [] (view (up_stopped a b p) s') /\
    exists o', settled_as a (so_id o) s s' o o' /\
      (resumable o = false -> all_token_ids (sr_request o') = all_token_ids (sr_request o))) s.
Proof.
  intros L Htp Hb Ht Hf. pose proof Ht as [Ho Hg].
  destruct (lc_objs _ _ _ L _ _ Hg) as (o1 & Ho1 & _ & Hok). assert (o1 = o) as -> by (cbn in Ho1; congruence).
  unfold stop_request. apply wp_bind. eapply wp_obj; [done|]. apply wp_bind.
  eapply wp_mono; [by apply (handle_stopped_spec block_hasher hasher_total s a o)|]. intros fin s1 Hfin. apply wp_bind. destruct fin; cbn [when].
  - destruct Hfin as (o1 & Hok1 & Hid1 & Hst1 & Hfl1 & Hall1 & _ & ->). set (s1 := set_objs (<[a := o1]> (objs s)) s).
    assert (tracked s1 a o1) as Ht1 by (split; cbn; [apply lookup_insert_eq|by rewrite Hid1]).
    assert (lifecycle [a] (view (up_stopped a b p) s1)) as L1
      by (apply (lifecycle_update cfg [] (view (up_stopped a b p) s) a o); done).
    eapply wp_mono; [apply (release_stopped_spec _ s1 a o1 L1 Ht1); unfold so_finished in *; by rewrite Hst1|]. intros [] s2 [L2 Hse].
    apply wp_ret. split_and!; [done|done|]. exists o1. split; [|done]. rewrite Hid1 in Hse.
    apply (settled_trans a (so_id o) s s1 s2 o o1 o1); [|done|done]. split; cbn; [done|by left|done|by intros r|done|done].
  - assert (b = true) as -> by (destruct b; [done|]; specialize (Hb eq_refl); destruct Hfin as [Hr _]; congruence).
    destruct (session_back_spec (up_stopped a true p) s s1 a o L Htp Ht Hfin) as [L2 (o2 & Hse)].
    apply wp_ret, wp_ret. split_and!; [done|done|]. exists o2. split; [done|]. destruct Hfin as [Hr _]. congruence.
Qed.

(** ** The body of the loop *)

(** The pass reports [toks] for the request and may have it among the stopped. *)
Record pass_grew (a : Z) (client : Z) (rid : string) (toks : list Z) (p p' : UpdatePass) : Prop := {
  pg_stopped : forall b, b ∈ stopped_running_reqs p' ++ stopped_preempted_reqs p' -> b = a \/ b ∈ stopped_running_reqs p ++ stopped_preempted_reqs p;
  pg_emitted : forall c q, emitted (up_outputs p') c q = emitted (up_outputs p) c q ++ (if decide (c = client /\ q = rid) then toks else [])
}.

Lemma up_stopped_elem a b p c :
  c ∈ stopped_running_reqs (up_stopped a b p) ++ stopped_preempted_reqs (up_stopped a b p) ->
  c = a \/ c ∈ stopped_running_reqs p ++ stopped_preempted_reqs p.
Proof. destruct b; cbn; rewrite !elem_of_app, list_elem_of_singleton; tauto. Qed.

Lemma grew_emit a client rid toks p p1 fr sr pooled :
  stopped_running_reqs p1 = stopped_running_reqs p /\ stopped_preempted_reqs p1 = stopped_preempted_reqs p \/ (exists b, p1 = up_stopped a b p) ->
  up_outputs p1 = up_outputs p ->
  pass_grew a client rid toks p (up_emit client (mkEngineOutput rid toks fr sr pooled) p1).
Proof.
  intros Hs Ho. split.
  - intros b. cbn. destruct Hs as [[-> ->]|[c ->]]; [by right|apply up_stopped_elem].
  - intros c q. cbn [up_emit up_outputs]. rewrite emitted_emit, Ho. cbn. f_equal.
    destruct (decide (client = c /\ rid = q)), (decide (c = client /\ q = rid)); naive_solver.
Qed.

Lemma grew_nothing a client rid p : pass_grew a client rid [] p p.
Proof. split; [by right|]. intros c q. case_decide; by rewrite app_nil_r. Qed.

(** The last statements: the output, or the check that there is none. *)
Lemma report_spec mro s a o rid toks fr pooled stopped p p1 :
  objs s !! a = Some o -> (rid ∈ prompt_logprobs mro -> toks <> [] \/ pooled = true) ->
  stopped_running_reqs p1 = stopped_running_reqs p /\ stopped_preempted_reqs p1 = stopped_preempted_reqs p \/ (exists b, p1 = up_stopped a b p) ->
  up_outputs p1 = up_outputs p -> (stopped = false -> p1 = p) ->
  wp (o ← obj a;
      if negb (bool_decide (toks = [])) || pooled || stopped then
        mret (up_emit (client_index o) (mkEngineOutput rid toks fr (stop_reason (sr_request o)) pooled) p1)
      else assert_ (negb (bool_decide (rid ∈ prompt_logprobs mro))) ;; mret p1)
    (fun p' s' => s' = s /\ pass_grew a (client_index o) rid toks p p' /\
      stopped_running_reqs p' = stopped_running_reqs p1 /\ stopped_preempted_reqs p' = stopped_preempted_reqs p1) s.
Proof.
  intros Ho Hlp Hs Hout Hns. apply wp_bind. eapply wp_obj; [done|].
  destruct (negb (bool_decide (toks = [])) || pooled || stopped) eqn:Ee.
  - apply wp_ret. split_and!; [done|by apply grew_emit|done|done].
  - apply orb_false_iff in Ee as [Ee ->]. apply orb_false_iff in Ee as [Et ->]. apply negb_false_iff, bool_decide_eq_true in Et. subst toks.
    apply wp_bind, wp_assert.
    + apply negb_true_iff, bool_decide_eq_false. intros Hx. by destruct (Hlp Hx).
    + apply wp_ret. rewrite (Hns eq_refl). split_and!; [done|apply grew_nothing|done|done].
Qed.

(** The view depends on the stopped requests only. *)
Lemma view_ext p p' s :
  stopped_running_reqs p' = stopped_running_reqs p -> stopped_preempted_reqs p' = stopped_preempted_reqs p -> view p' s = view p s.
Proof. intros E1 E2. unfold view. by rewrite E1, E2. Qed.

Definition took_output (out : SchedulerOutput) (mro : ModelRunnerOutput) (a : Z) (o : SReq) (p p' : UpdatePass) (s s' : Sched) : Prop :=
  lifecycle [] (view p' s') /\ exists o' toks g pooled, settled_as a (so_id o) s s' o o' /\
    answer_of mro (so_id o) = Some (g, pooled) /\ toks `prefix_of` g /\
    (resumable o = false -> all_token_ids (sr_request o') = all_token_ids (sr_request o) ++ toks) /\
    pass_grew a (client_index o) (so_id o) toks p p'.

Lemma take_spec out mro ans stale p s a o :
  lifecycle [] (view p s) -> tracked s a o -> delivery_ok cfg out mro (kv_cache_manager s) o stale -> answers_ok ans ->
  a ∉ stopped_preempted_reqs p ->
  wp (take_output cfg block_hasher out mro ans (so_id o) a stale p) (fun p' s' => took_output out mro a o p p' s s') s.
Proof.
  intros L Ht Hdv Hans Htp. pose proof Ht as [Ho Hg]. pose proof (dv_status _ _ _ _ _ _ Hdv) as Hst.
  destruct (lc_objs _ _ _ L _ _ Hg) as (o1 & Ho1 & _ & Hok). assert (o1 = o) as -> by (cbn in Ho1; congruence).
  set (b := bool_decide (so_status o = RUNNING)) in *.
  assert (in_place_of a b (view p s)) as Hin by (apply (view_place cfg); [done|done|tauto]).
  assert (so_status o <> WAITING_FOR_STREAMING_REQ) as Hns by (by destruct Hst as [->|[-> _]]).
  pose proof (view_take cfg p s a b o L Hin Ho Hns) as La. unfold take_output. apply wp_bind.
  eapply wp_mono; [eapply (blind_wp _ ?[Q] (running (view (up_stopped a b p) s)) (waiting (view (up_stopped a b p) s)) (skipped_waiting (view (up_stopped a b p) s)) s);
    [apply process_output_blind|apply (process_spec cfg block_hasher hasher_total out mro ans (view (up_stopped a b p) s) a o stale); [done|done|apply La|done|done]]|].
  intros [[[toks pooled] wr] stopped] s1 [(g & o1 & Hag & Hd & Hc & -> & Hlp) Hq]. fold b.
  rewrite (view_same (up_stopped a b p) s s1) in Hc by done. pose proof (de_deal _ _ _ _ _ Hd) as Hdeal. pose proof (de_status _ _ _ _ _ Hd) as Hds.
  assert (object_ok o1) as Hok1.
  { eapply same_deal_ok; [done|done|]. destruct stopped; [intros Hx; unfold so_finished in Hds; by rewrite Hx in Hds|congruence]. }
  pose proof (changed_lifecycle cfg [] a o o1 _ _ _ La Ho (sd_id _ _ _ Hdeal) Hok1 Hc) as L1.
  pose proof Hc as [C1 C2 _ _ _ (_ & _ & C3) _ _]. cbn in C1, C2, C3.
  assert (settled_as a (so_id o) s s1 o o1) as Hse by (split; [done|by left|apply Hq|done|apply Hdeal|apply Hdeal]).
  assert (tracked s1 a o1) as Ht1 by (split; [rewrite C1; apply lookup_insert_eq|by rewrite (sd_id _ _ _ Hdeal), C2]).
  destruct stopped.
  - apply wp_bind. eapply wp_mono; [apply (stop_spec p s1 a o1 b L1 Htp); [|done|done]|].
    { intros Hb. destruct (resumable o1) eqn:Er; [|done]. apply (sd_resumable _ _ _ Hdeal) in Er. unfold b in Hb. case_bool_decide; [done|].
      destruct Hst as [|[_ Hr]]; congruence. }
    intros [fr p1] s2 (Ep & L2 & o2 & Hse2 & Hall). cbn in Ep. subst p1. rewrite (sd_id _ _ _ Hdeal) in Hse2.
    assert (client_index o2 = client_index o) as Hcl by (destruct (sd_flight _ _ _ Hdeal), (se_flight _ _ _ _ _ _ Hse2); congruence).
    eapply wp_mono; [apply (report_spec mro s2 a o2 (so_id o) toks fr pooled true p (up_stopped a b p)); [rewrite (se_objs _ _ _ _ _ _ Hse2); apply lookup_insert_eq|done|by right; exists b|by destruct b|done]|].
    intros p' s' (-> & Hgrew & E1 & E2). rewrite Hcl in Hgrew. split; [by rewrite (view_ext (up_stopped a b p) p')|].
    exists o2, toks, g, pooled. split_and!; [by eapply settled_trans|done|apply Hd| |done].
    intros Hr. rewrite Hall; [apply Hdeal|]. destruct (resumable o1) eqn:Er; [|done]. apply (sd_resumable _ _ _ Hdeal) in Er. congruence.
  - apply wp_bind, wp_ret. assert (lifecycle [] (view p s1)) as L2.
    { apply (view_put cfg p s1 a b o1); [| |done|done|].
      - destruct Hq as [Q1 Q2 Q3]. unfold queued, view in *. cbn. rewrite Q1, Q2, Q3. apply L.
      - destruct Hq as [Q1 Q2 Q3]. unfold in_place_of, view in *. cbn in *. by rewrite Q1, Q2, Q3.
      - rewrite Hds. unfold b. case_bool_decide as Er; [done|]. right. by destruct Hst as [|[? _]]. }
    eapply wp_mono; [apply (report_spec mro s1 a o1 (so_id o) toks None pooled false p p); [apply Ht1|done|by left|done|done]|].
    intros p' s' (-> & Hgrew & E1 & E2). assert (client_index o1 = client_index o) as Hcl by apply (sd_flight _ _ _ Hdeal). rewrite Hcl in Hgrew.
    split; [by rewrite (view_ext p p')|]. exists o1, toks, g, pooled. split_and!; [done|done|apply Hd|intros _; apply Hdeal|done].
Qed.

(** What the caller owes for an entry of the step. *)
Record entry_ok (failed : gset string) (out : SchedulerOutput) (mro : ModelRunnerOutput) (s : Sched) (rid : string) (n : Z) : Prop := {
  ey_positive : 0 < n;
  ey_stale : forall a o, od_get rid (requests s) = Some a -> objs s !! a = Some o ->
    0 < num_stale_output_tokens o -> n <= num_stale_output_tokens o;
  ey_delivery : forall a o, od_get rid (requests s) = Some a -> objs s !! a = Some o -> so_finished o = false ->
    rid ∉ failed -> (0 <? num_stale_output_tokens o) && drop_stale_output o = false ->
    delivery_ok cfg out mro (kv_cache_manager s) o (0 <? num_stale_output_tokens o)
}.

(** One entry processed: the request [a] is drained and has the reported tokens. *)
Record one_done (mro : ModelRunnerOutput) (a : Z) (n : Z) (o : SReq) (p p' : UpdatePass) (s s' : Sched) (o' : SReq) (toks : list Z) : Prop := {
  od_inv : lifecycle [] (view p' s');
  od_objs : objs s' = <[a := o']> (objs s);
  od_requests : requests s' = requests s \/ requests s' = od_pop (so_id o) (requests s);
  od_running : running s' = running s;
  od_kv : covers_kept (so_id o) (kv_cache_manager s) (kv_cache_manager s');
  od_id : so_id o' = so_id o;
  od_client : client_index o' = client_index o;
  od_flight : num_in_flight_tokens (sr_request o') = num_in_flight_tokens (sr_request o) - n;
  od_finished : so_finished o = true -> so_status o' = so_status o;
  od_tokens : resumable o = false -> all_token_ids (sr_request o') = all_token_ids (sr_request o) ++ toks;
  od_sampled : toks = [] \/ exists g pooled, answer_of mro (so_id o) = Some (g, pooled) /\ toks `prefix_of` g;
  od_pass : pass_grew a (client_index o) (so_id o) toks p p'
}.

Lemma view_touch p s a o o' :
  lifecycle [] (view p s) -> objs s !! a = Some o -> so_id o' = so_id o -> so_status o' = so_status o -> (object_ok o -> object_ok o') ->
  lifecycle [] (view p (set_objs (<[a := o']> (objs s)) s)).
Proof. intros L Ho Hid Hst Hok. by apply (lifecycle_touch cfg [] (view p s) a o). Qed.

Lemma update_one_spec failed out mro ans p rid n s a :
  lifecycle [] (view p s) -> od_get rid (requests s) = Some a -> entry_ok failed out mro s rid n -> answers_ok ans -> a ∉ stopped_preempted_reqs p ->
  wp (update_one cfg block_hasher failed out mro ans p (rid, n)) (fun p' s' => exists o o' toks, tracked s a o /\ so_id o = rid /\
    one_done mro a n o p p' s s' o' toks) s.
Proof.
  intros L Hg [Hn Hst Hdv] Hans Htp. destruct (tracked_lookup cfg [] (view p s) rid a L Hg) as (o & Ht & Hid & Hok). subst rid.
  pose proof Ht as [Ho _]. cbn in Ho. unfold update_one. apply wp_bind, wp_assert; [by apply Z.ltb_lt|]. apply wp_bind, wp_get. rewrite Hg.
  apply wp_bind. eapply wp_mono; [apply (drain_stale_spec a n s o Ho), (Hst a o Hg Ho)|]. intros stale s1 [-> ->].
  destruct (drained_fields n o) as (F1 & F2 & F3 & F4 & F5 & F6 & F7). set (o1 := drained n o) in *.
  pose proof (view_touch p s a o o1 L Ho F1 F2 (drained_ok n o)) as L1. set (s1 := set_objs (<[a := o1]> (objs s)) s) in *.
  assert (tracked s1 a o1) as Ht1 by (split; cbn; [apply lookup_insert_eq|by rewrite F1]).
  apply wp_bind. eapply wp_obj; [apply Ht1|]. destruct (bool_decide (so_id o ∈ failed) || so_finished o1 || _) eqn:Esk.
  - apply wp_ret. exists o, o1, []. split_and!; [done|done|]. split; try done; [by left|by intros r|by rewrite app_nil_r|by left|apply grew_nothing].
  - apply orb_false_iff in Esk as [Esk Edrop]. apply orb_false_iff in Esk as [Efd%bool_decide_eq_false Ef]. unfold so_finished in Ef. rewrite F2 in Ef. rewrite F3 in Edrop.
    eapply wp_mono; [rewrite <- F1; apply (take_spec out mro ans _ p s1 a o1 L1 Ht1); [|done|done]|].
    { apply delivery_drained, (Hdv a o Hg Ho Ef Efd). by destruct (0 <? num_stale_output_tokens o), (drop_stale_output o). }
    intros p' s' (L' & o' & toks & g & pooled & [S1 S2 S3 S4 S5 [S6 S7]] & Hag & Hpre & Hall & Hgrew). rewrite F1 in *. exists o, o', toks.
    split_and!; [done|done|]. split; [done|rewrite S1; cbn; apply insert_insert_eq|done|done|done|congruence|congruence|lia| | |right; by exists g, pooled|by rewrite F5 in Hgrew].
    + unfold so_finished. by rewrite Ef.
    + intros Hr. rewrite <- F6. apply Hall. by rewrite F4.
Qed.

(** ** The loop *)

(** A request after the entries [pre] were processed. *)
Record request_updated (mro : ModelRunnerOutput) (pre : list (string * Z)) (p : UpdatePass) (rid : string) (o o' : SReq) : Prop := {
  ru_id : so_id o' = so_id o;
  ru_client : client_index o' = client_index o;
  ru_flight : num_in_flight_tokens (sr_request o') = num_in_flight_tokens (sr_request o) - default 0 (od_get rid pre);
  ru_finished : so_finished o = true -> so_status o' = so_status o;
  ru_tokens : resumable o = false ->
    all_token_ids (sr_request o') = all_token_ids (sr_request o) ++ emitted (up_outputs p) (client_index o) rid;
  ru_sampled : emitted (up_outputs p) (client_index o) rid = [] \/
    exists g pooled, answer_of mro rid = Some (g, pooled) /\ emitted (up_outputs p) (client_index o) rid `prefix_of` g;
  ru_rest : rid ∉ pre.*1 -> o' = o /\ forall c, emitted (up_outputs p) c rid = []
}.

Record loop_ok (mro : ModelRunnerOutput) (s0 : Sched) (pre : list (string * Z)) (p : UpdatePass) (s : Sched) : Prop := {
  lo_inv : lifecycle [] (view p s);
  lo_running : running s = running s0;
  lo_stopped : forall b, b ∈ stopped_running_reqs p ++ stopped_preempted_reqs p ->
    exists rid, rid ∈ pre.*1 /\ od_get rid (requests s0) = Some b;
  lo_dict : forall rid a, od_get rid (requests s) = Some a -> od_get rid (requests s0) = Some a;
  lo_rest : forall rid, rid ∉ pre.*1 -> od_get rid (requests s) = od_get rid (requests s0);
  lo_kv : forall r, request_id r ∉ pre.*1 -> kv_covers (kv_cache_manager s0) r -> kv_covers (kv_cache_manager s) r;
  lo_objs : forall rid a o, od_get rid (requests s0) = Some a -> objs s0 !! a = Some o ->
    exists o', objs s !! a = Some o' /\ request_updated mro pre p rid o o'
}.

Lemma od_get_snoc_ne {V} (pre : list (string * V)) rid n q : q <> rid -> od_get q (pre ++ [(rid, n)]) = od_get q pre.
Proof. intros Hq. rewrite od_get_app. destruct (od_get q pre); [done|]. cbn. by rewrite decide_False. Qed.

Lemma not_in_snoc {V} (pre : list (string * V)) rid n q : q ∉ (pre ++ [(rid, n)]).*1 <-> q ∉ pre.*1 /\ q <> rid.
Proof. rewrite fmap_app, not_elem_of_app. cbn. by rewrite list_elem_of_singleton. Qed.

(** Entries that concern another request. *)
Lemma updated_other mro pre rid n p p' a client toks q o o' :
  q <> rid -> pass_grew a client rid toks p p' -> request_updated mro pre p q o o' -> request_updated mro (pre ++ [(rid, n)]) p' q o o'.
Proof.
  intros Hq [_ Hem] [U1 U2 U3 U4 U5 U6 U7].
  assert (forall c, emitted (up_outputs p') c q = emitted (up_outputs p) c q) as He.
  { intros c. rewrite Hem, decide_False by tauto. by rewrite app_nil_r. }
  split; [done|done|by rewrite od_get_snoc_ne|done|by rewrite He|by rewrite He|].
  intros [Hx _]%not_in_snoc. destruct (U7 Hx) as [-> Hc]. split; [done|]. intros c. by rewrite He.
Qed.

(** The entry of the request itself. *)
Lemma updated_own mro pre n p p' s s' a o o1 o' toks :
  so_id o1 ∉ pre.*1 -> request_updated mro pre p (so_id o1) o o1 -> one_done mro a n o1 p p' s s' o' toks ->
  request_updated mro (pre ++ [(so_id o1, n)]) p' (so_id o1) o o'.
Proof.
  intros Hpre [U1 U2 U3 U4 U5 U6 U7] [_ _ _ _ _ D1 D2 D3 D4 D5 D6 [_ Hem]]. destruct (U7 Hpre) as [-> Hno].
  assert (emitted (up_outputs p') (client_index o) (so_id o) = toks) as He by (rewrite Hem, Hno, decide_True by done; done).
  split; rewrite ?He; try done.
  - rewrite od_get_app. rewrite (proj2 (od_get_None (so_id o) pre) Hpre). cbn. rewrite decide_True by done. cbn. lia.
  - intros [_ []]%not_in_snoc. done.
Qed.

Lemma entry_kept failed out mro s0 pre p s rid n :
  loop_ok mro s0 pre p s -> rid ∉ pre.*1 -> lifecycle [] s0 -> entry_ok failed out mro s0 rid n -> entry_ok failed out mro s rid n.
Proof.
  intros [_ _ _ L4 L5 L6 L7] Hpre L0 [E1 E2 E3]. assert (forall a o, od_get rid (requests s) = Some a -> objs s !! a = Some o ->
    od_get rid (requests s0) = Some a /\ objs s0 !! a = Some o) as Hsame.
  { intros a o Hg Ho. rewrite (L5 rid Hpre) in Hg. split; [done|]. destruct (lc_objs _ _ _ L0 rid a Hg) as (o0 & Ho0 & _).
    destruct (L7 rid a o0 Hg Ho0) as (o' & Ho' & Hu). destruct (ru_rest _ _ _ _ _ _ Hu Hpre) as [-> _]. congruence. }
  split; [done| |].
  - intros a o Hg Ho. destruct (Hsame a o Hg Ho) as [Hg0 Ho0]. by apply (E2 a).
  - intros a o Hg Ho Hf Hx Hd. destruct (Hsame a o Hg Ho) as [Hg0 Ho0]. destruct (E3 a o Hg0 Ho0 Hf Hx Hd) as [D1 D2 D3 D4 D5].
    split; [done..|]. intros Has Hr. destruct (D5 Has Hr) as (r0 & C1 & C2 & C3). exists r0. split; [|done]. apply L6; [|done].
    rewrite <- (gw_id _ _ C2). destruct (lc_objs _ _ _ L0 rid a Hg0) as (o0 & Hy & <- & _). rewrite Ho0 in Hy. injection Hy as <-. done.
Qed.

Lemma loop_step failed out mro ans s0 pre p s rid n :
  lifecycle [] s0 -> answers_ok ans -> entry_ok failed out mro s0 rid n -> rid ∉ pre.*1 -> loop_ok mro s0 pre p s ->
  wp (update_one cfg block_hasher failed out mro ans p (rid, n)) (fun p' s' => loop_ok mro s0 (pre ++ [(rid, n)]) p' s') s.
Proof.
  intros L0 Hans He Hpre Hlo. pose proof (entry_kept failed out mro s0 pre p s rid n Hlo Hpre L0 He) as Hes. pose proof Hlo as [L1 L2 L3 L4 L5 L6 L7].
  destruct (od_get rid (requests s)) as [a|] eqn:Hg.
  - assert (od_get rid (requests s0) = Some a) as Hg0 by by apply L4. destruct (lc_objs _ _ _ L0 rid a Hg0) as (o0 & Ho0 & Hid0 & _).
    eapply wp_mono; [apply (update_one_spec failed out mro ans p rid n s a L1 Hg Hes Hans)|].
    { intros Hx. destruct (L3 a) as (q & Hq & Hgq); [apply elem_of_app; by right|]. destruct (lc_objs _ _ _ L0 q a Hgq) as (o1 & Ho1 & Hid1 & _).
      rewrite Ho0 in Ho1. injection Ho1 as <-. congruence. }
    intros p' s' (o & o' & toks & [Ho _] & <- & Hd). pose proof Hd as [D1 D2 D3 D4 D5 D6 D7 D8 D9 D10 D11 D12]. split; [done|congruence|..].
    + intros b [->|Hb]%(pg_stopped _ _ _ _ _ _ D12); [exists (so_id o)|destruct (L3 b Hb) as (q & Hq & Hgq); exists q];
        (split; [|done]); rewrite fmap_app, elem_of_app; [right; by left|by left].
    + intros q b Hq. apply L4. destruct D3 as [<-|D3]; [done|]. rewrite D3, od_get_pop in Hq by apply L1. by case_decide.
    + intros q [Hq1 Hq2]%not_in_snoc. rewrite <- (L5 q Hq1). destruct D3 as [->|D3]; [done|]. rewrite D3, od_get_pop by apply L1. by rewrite decide_False.
    + intros r [Hr1 Hr2]%not_in_snoc Hc. apply D5; [done|]. by apply L6.
    + intros q b ob Hq Hob. destruct (L7 q b ob Hq Hob) as (o2 & Ho2 & Hu). destruct (decide (q = so_id o)) as [->|Hne].
      * assert (b = a) as -> by congruence. exists o'. rewrite D2, lookup_insert_eq. split; [done|]. assert (o2 = o) as -> by congruence.
        by eapply updated_own.
      * exists o2. rewrite D2, lookup_insert_ne; [split; [done|by eapply updated_other]|].
        intros <-. destruct (lc_objs _ _ _ L0 q a Hq) as (o3 & Ho3 & Hid3 & _). congruence.
  - unfold update_one. apply wp_bind, wp_assert; [apply Z.ltb_lt, Hes|]. apply wp_bind, wp_get. rewrite Hg. apply wp_ret.
    split; [done|done|..|].
    + intros b Hb. destruct (L3 b Hb) as (q & Hq & Hgq). exists q. split; [|done]. rewrite fmap_app, elem_of_app. by left.
    + done.
    + intros q [Hq1 _]%not_in_snoc. by apply L5.
    + intros r [Hr1 _]%not_in_snoc. by apply L6.
    + intros q b ob Hq Hob. destruct (L7 q b ob Hq Hob) as (o2 & Ho2 & Hu). exists o2. split; [done|].
      apply (updated_other mro pre rid n p p b 0 []); [|by apply grew_nothing|done]. intros ->. rewrite (L5 rid Hpre) in Hg. congruence.
Qed.

Lemma loop_spec failed out mro ans s :
  lifecycle [] s -> answers_ok ans -> NoDup (out_num_scheduled_tokens out).*1 ->
  (forall rid n, (rid, n) ∈ out_num_scheduled_tokens out -> entry_ok failed out mro s rid n) ->
  wp (fold_m (update_one cfg block_hasher failed out mro ans) (mkUpdatePass ∅ [] []) (out_num_scheduled_tokens out))
    (fun p s' => loop_ok mro s (out_num_scheduled_tokens out) p s') s.
Proof.
  intros L Hans Hnd Hes. apply (wp_fold_m (fun pre p s' => loop_ok mro s pre p s')).
  - split; try done.
    + unfold view. cbn. assert (forall l : list Z, filter (fun b => b ∉ []) l = l) as Hf by apply filter_nothing. rewrite !Hf.
      apply (lifecycle_members cfg [] s); done.
    + by intros b Hb%elem_of_nil.
    + intros rid a o Hg Ho. exists o. split; [done|]. split; [done|done|cbn; lia|done|intros _; by rewrite app_nil_r|by left|done].
  - intros pre [rid n] post p s1 Hl Hlo. rewrite Hl, fmap_app in Hnd. apply NoDup_app in Hnd as (_ & Hd & _).
    apply (loop_step failed out); [done|done| | |done].
    + apply Hes. rewrite Hl, elem_of_app. right. by left.
    + intros Hx. apply (Hd rid Hx). by left.
Qed.

End Loop.
