(* ===== verification/SchedUpdateSpec.v ===== *)
(** * [update_from_output] as a whole

    The invariant of SchedulerInv.v is kept, nothing is raised, the counters of
    work in flight fall by what the step had, and a client is told exactly the
    tokens its request was given. *)
From Stdlib Require Import ZArith Lia.
From stdpp Require Import base tactics gmap strings numbers option list.
From S2P Require Import Prelude Blocks Request Hashing Env SchedUtils RequestQueue KVCacheManager OrderedDict SchedChunk SchedRequest SchedIface Scheduler SchedulerInv SchedulerOps SchedulerPreempt SchedulePass Schedule ScheduleSpec SchedUpdate SchedBlind SchedUpdateInv SchedDeliver SchedUpdateLoop.

Local Open Scope Z_scope.

Section Spec.
Context `{Env} {K E C X : Type} `{KVUpdateLaws K} `{EncoderUpdateLaws E} `{ConnectorUpdateLaws C} `{ECUpdateLaws X}.
Context (cfg : SchedConfig) (block_hasher : option (M Request (list BlockHash))).
Context (hasher_total : forall h, block_hasher = Some h -> forall r, wp h (fun _ r' => same_but_memo r r') r).
Local Abbreviation Sched := (Scheduler K E C X).
Local Abbreviation lifecycle := (lifecycle cfg).
Implicit Types (s : Sched) (p : UpdatePass).

(** ** Failed loads *)

(** A request whose computed tokens were cut. *)
Definition recut (n : Z) (o : SReq) : SReq := so_set_request (set_computed n (sr_request o)) o.

(** Only requests of [P] with an id of [ids] were cut. *)
Record cut_only (P : Z -> Prop) (ids : gset string) (s s' : Sched) : Prop := {
  co_inv : lifecycle [] s';
  co_state : s' = set_objs (objs s') s;
  co_objs : forall a o, objs s !! a = Some o -> exists o', objs s' !! a = Some o' /\
    (o' = o \/ (P a /\ so_id o ∈ ids /\ exists n, o' = recut n o))
}.

Lemma cut_mono (P : Z -> Prop) ids ids' s s' : ids ⊆ ids' -> cut_only P ids s s' -> cut_only P ids' s s'.
Proof.
  intros Hi [C1 C2 C3]. split; [done|done|]. intros a o Ho. destruct (C3 a o Ho) as (o' & Ho' & [->|(Pa & Hin & Hn)]); eauto 10.
Qed.

Lemma cut_request (P : Z -> Prop) ids s0 s a o n :
  cut_only P ids s0 s -> objs s !! a = Some o -> P a -> so_id o ∈ ids ->
  wp (modify_request a (set_computed n)) (fun _ s' => cut_only P ids s0 s') s.
Proof.
  intros [C1 C2 C3] Ho Pa Hin. unfold modify_request. eapply wp_modify_obj; [done|]. fold (recut n o). split.
  - apply (lifecycle_touch cfg [] s a o); try done. intros [B1 B2 B3]. split; [done|by apply (enl_knows (sr_request o))|done].
  - cbn. rewrite C2 at 2. by destruct s0.
  - intros b ob Hob. destruct (C3 b ob Hob) as (o1 & Ho1 & Hc). cbn. destruct (decide (b = a)) as [->|Hne].
    + rewrite lookup_insert_eq. exists (recut n o). split; [done|]. right. rewrite Ho in Ho1. injection Ho1 as <-.
      destruct Hc as [->|(_ & Hi & m & ->)]; (split_and!; [done|done|by exists n]).
    + rewrite lookup_insert_ne by done. by exists o1.
Qed.

Lemma scan_request_spec invalid nums evict (P : Z -> Prop) v s0 s a o :
  cut_only P (iv_affected v) s0 s -> objs s !! a = Some o -> P a ->
  wp (scan_request cfg invalid nums evict v a) (fun v' s' => cut_only P (iv_affected v') s0 s') s.
Proof.
  intros Hc Ho Pa. unfold scan_request. apply wp_bind. eapply wp_obj; [done|]. apply wp_bind, wp_get. cbv zeta.
  set (ids := {[request_id (sr_request o)]} ∪ iv_affected v).
  assert (cut_only P ids s0 s) as Hc' by (eapply cut_mono; [|done]; unfold ids; set_solver).
  assert (so_id o ∈ ids) as Hid by (unfold ids, so_id; set_solver).
  pose proof (kvu_groups (request_id (sr_request o)) (kv_cache_manager s) (pw_kv _ _ (lc_parts _ _ _ (co_inv _ _ _ _ Hc)))) as Hgr.
  destruct (kv_get_block_ids (request_id (sr_request o)) (kv_cache_manager s)) as [|blocks [|b2 rest]]; [done| |].
  - destruct (scan_blocks _ _ _ _ _ _ _) as [[hit cut] marked]. destruct cut as [i|].
    + apply wp_bind. eapply wp_mono; [by apply (cut_request P ids s0 s a o)|]. intros [] s' Hs'. by apply wp_ret.
    + destruct hit; [|by apply wp_ret]. apply wp_bind. eapply wp_mono; [by apply (cut_request P ids s0 s a o)|]. intros [] s' Hs'. by apply wp_ret.
  - destruct (least_index _) as [i|]; [|by apply wp_ret].
    apply wp_bind. eapply wp_mono; [by apply (cut_request P ids s0 s a o)|]. intros [] s' Hs'. by apply wp_ret.
Qed.

Lemma scan_all_spec invalid nums evict reqs s :
  lifecycle [] s -> (forall a, a ∈ reqs -> is_Some (objs s !! a)) ->
  wp (update_requests_with_invalid_blocks cfg reqs invalid nums evict) (fun v s' => cut_only (fun a => a ∈ reqs) (iv_affected v) s s') s.
Proof.
  intros L Hex. apply (wp_fold_m (fun _ v s' => cut_only (fun a => a ∈ reqs) (iv_affected v) s s')).
  - split; [done|by destruct s|]. intros a o Ho. exists o. by split; [|left].
  - intros pre a post v s1 Hl Hc. assert (a ∈ reqs) as Ha by (rewrite Hl, elem_of_app; right; by left).
    destruct (Hex a Ha) as [o Ho]. destruct (co_objs _ _ _ _ Hc a o Ho) as (o' & Ho' & _).
    by apply (scan_request_spec invalid nums evict (fun a => a ∈ reqs) v s s1 a o').
Qed.

(** What [_handle_invalid_blocks] leaves: requests that were cut are left out of
    the loop or wait for their load. *)
Record loads_handled (failed : gset string) (s s' : Sched) : Prop := {
  lh_inv : lifecycle [] s';
  lh_requests : requests s' = requests s;
  lh_covers : forall r, kv_covers (kv_cache_manager s) r -> kv_covers (kv_cache_manager s') r;
  lh_objs : forall a o, objs s !! a = Some o -> exists o', objs s' !! a = Some o' /\
    (o' = o \/ (exists n, o' = recut n o) /\ (so_id o ∈ failed \/ so_status o = WAITING_FOR_REMOTE_KVS))
}.

Lemma queued_object s a : lifecycle [] s -> a ∈ queued s -> is_Some (objs s !! a).
Proof. intros L Ha. apply (lc_queued _ _ _ L) in Ha as (_ & o & [Ho _] & _). by exists o. Qed.

Lemma recut_fields n o : so_id (recut n o) = so_id o /\ so_status (recut n o) = so_status o.
Proof. done. Qed.

(** The two scans. *)
Lemma both_cut (loading : list Z) (ids1 ids2 failed : gset string) s s1 s2 :
  (forall a o, a ∈ loading -> objs s !! a = Some o -> so_status o = WAITING_FOR_REMOTE_KVS) ->
  cut_only (fun a => a ∈ loading) ids1 s s1 -> cut_only (fun a => a ∈ running s1) ids2 s1 s2 -> ids2 ⊆ failed ->
  loads_handled failed s s2.
Proof.
  intros Hload [A1 A2 A3] [B1 B2 B3] Hsub. split; [done| | |].
  - rewrite B2. cbn. by rewrite A2.
  - intros r. rewrite B2. cbn. by rewrite A2.
  - intros a o Ho. destruct (A3 a o Ho) as (o1 & Ho1 & H1'). destruct (B3 a o1 Ho1) as (o2 & Ho2 & H2'). exists o2. split; [done|].
    destruct H1' as [->|(Pa & _ & n & ->)].
    + destruct H2' as [->|(_ & Hin & m & ->)]; [by left|]. right. split; [by exists m|]. left. set_solver.
    + right. specialize (Hload a o Pa Ho). destruct H2' as [->|(_ & _ & m & ->)]; (split; [|by right]); [by exists n|by exists m].
Qed.

Lemma handled_kv failed s s1 s2 : loads_handled failed s s1 -> lifecycle [] s2 -> same_core s1 s2 ->
  (forall r, kv_covers (kv_cache_manager s1) r -> kv_covers (kv_cache_manager s2) r) -> loads_handled failed s s2.
Proof.
  intros [A1 A2 A3 A4] L [S1 S2 _ _ _ _] Hc. split; [done|congruence|auto|]. rewrite S1. done.
Qed.

Lemma invalid_blocks_spec invalid nums s :
  lifecycle [] s -> wp (handle_invalid_blocks cfg invalid nums) (fun failed s' => loads_handled failed s s' /\ running s' = running s) s.
Proof.
  intros L. unfold handle_invalid_blocks. apply wp_bind, wp_on_skipped. eapply wp_mono; [apply wq_iter_spec|]. intros l q [-> Hl].
  assert (set_skipped (skipped_waiting s) s = s) as -> by by destruct s. apply wp_bind, wp_get. cbv zeta.
  set (loading := filter _ l).
  assert (forall a o, a ∈ loading -> objs s !! a = Some o -> so_status o = WAITING_FOR_REMOTE_KVS) as Hload.
  { intros a o [Ha _]%list_elem_of_filter Ho. rewrite Ho in Ha. by injection Ha. }
  apply wp_bind. eapply wp_mono; [apply (scan_all_spec invalid nums false loading s L)|].
  { intros a [_ Ha]%list_elem_of_filter. apply queued_object; [done|]. unfold queued. rewrite !elem_of_app. right. right. by rewrite <- Hl. }
  intros v1 s1 Hc1. pose proof (co_inv _ _ _ _ Hc1) as L1. apply wp_bind, wp_get, wp_bind.
  eapply wp_mono; [apply (scan_all_spec invalid nums true (running s1) s1 L1)|].
  { intros a Ha. apply queued_object; [done|]. unfold queued. rewrite !elem_of_app. by left. }
  intros v2 s2 Hc2. pose proof (co_inv _ _ _ _ Hc2) as L2.
  assert (running s2 = running s) as Hrun by (rewrite (co_state _ _ _ _ Hc2); cbn; by rewrite (co_state _ _ _ _ Hc1)).
  assert (forall failed, iv_affected v2 ⊆ failed -> loads_handled failed s s2) as Hdone by (intros failed Hs; by apply (both_cut loading (iv_affected v1) (iv_affected v2) failed s s1 s2)).
  destruct (_ && _) eqn:Eno.
  { apply andb_true_iff in Eno as [_ Eno%bool_decide_eq_true]. apply wp_ret. split; [|done]. apply Hdone. by rewrite Eno. }
  assert (forall s3, loads_handled (iv_affected v2) s s3 -> running s3 = running s ->
    wp (if negb (recompute_kv_load_failures cfg) then mret (iv_affected v1 ∪ iv_affected v2) else
        modify_sets (fun x => ss_failed_recving_kv_req_ids (failed_recving_kv_req_ids x ∪ iv_affected v1) x) ;; mret (iv_affected v2))
      (fun failed s' => loads_handled failed s s' /\ running s' = running s) s3) as Hend.
  { intros s3 Hs3 R3. destruct (negb (recompute_kv_load_failures cfg)).
    - apply wp_ret. split; [|done]. destruct Hs3 as [A1 A2 A3 A4]. split; [done..|]. intros a o Ho. destruct (A4 a o Ho) as (o' & Ho' & Hx).
      exists o'. split; [done|]. set_solver.
    - apply wp_bind, wp_modify, wp_ret. split; [|done]. destruct Hs3 as [A1 A2 A3 A4]. split; [by apply lifecycle_sets|done..]. }
  apply wp_bind. apply wp_when; intros _; [|by apply Hend; [apply Hdone|]].
  apply wp_zoom. eapply wp_mono; [apply kvu_evict, L2|]. intros [] k (K1 & K2 & K3). apply Hend; [|done].
  apply (handled_kv _ s s2); [by apply Hdone|by apply lifecycle_kv|by split|done].
Qed.

(** ** After the loop *)

(** The stopped requests leave their queues. *)
Lemma remove_stopped_spec p s :
  lifecycle [] (view p s) -> NoDup (running s) ->
  wp (modify (fun s => set_running (remove_all (running s) (stopped_running_reqs p)).1 s) ;; remove_from_waiting (stopped_preempted_reqs p))
    (fun _ s' => lifecycle [] s' /\ objs s' = objs s /\ requests s' = requests s) s.
Proof.
  intros L Hnd. apply wp_bind, wp_modify. eapply wp_mono; [apply remove_waiting_spec|]. intros [] s' (Hsq & Hr & _ & Hn & Hw & Hk).
  cbn in Hr, Hn, Hw, Hk. rewrite remove_all_correct in Hr by done. pose proof Hsq as [Q1 Q2 Q3 Q4 Q5 Q6].
  split_and!; [|done|done]. apply (lifecycle_members cfg [] (view p s)); [done|by split|done|by rewrite Hr|done|done].
Qed.

(** A request that failed is finished, the others are as they were. *)
Definition may_fail (o o' : SReq) : Prop := o' = o \/ (so_finished o = false /\ o' = so_set_status FINISHED_ERROR o).

Record failures_reported (s s' : Sched) (m m' : gmap Z (list EngineCoreOutput)) : Prop := {
  fr_inv : lifecycle [] s';
  fr_requests : forall rid a, od_get rid (requests s') = Some a -> od_get rid (requests s) = Some a;
  fr_objs : forall a o, objs s !! a = Some o -> exists o', objs s' !! a = Some o' /\ may_fail o o';
  fr_emitted : forall c rid, emitted m' c rid = emitted m c rid
}.

Lemma error_outputs_spec l : forall m s, (forall a, a ∈ l -> is_Some (objs s !! a)) ->
  wp (fold_m (fun m a => o ← obj a;
        mret (emit (client_index o) (mkEngineOutput (so_id o) [] (get_finished_reason (so_status o)) None false) m)) m l)
    (fun m' s' => s' = s /\ forall c rid, emitted m' c rid = emitted m c rid) s.
Proof.
  induction l as [|a l IH]; intros m s Hex; cbn [fold_m]; [by apply wp_ret|]. destruct (Hex a) as [o Ho]; [by left|].
  apply wp_bind, wp_bind. eapply wp_obj; [done|]. apply wp_ret. eapply wp_mono; [apply IH|].
  - intros b Hb. apply Hex. by right.
  - intros m' s' [-> Hm]. split; [done|]. intros c rid. rewrite Hm, emitted_emit. case_decide; by rewrite app_nil_r.
Qed.

Lemma fail_requests_spec failed m s :
  lifecycle [] s -> wp (fail_requests cfg failed m) (fun m' s' => failures_reported s s' m m') s.
Proof.
  intros L. unfold fail_requests. apply wp_bind, wp_get. cbv zeta. apply wp_bind, wp_modify. apply wp_bind.
  eapply (wp_mono _ (fun _ s' => lifecycle [] s' /\ objs s' = objs s /\ requests s' = requests s)).
  { apply wp_on_ec; [intros _; split; [by apply lifecycle_sets|done]|]. intros x Hx.
    eapply wp_mono; [apply ecu_unavailable; by apply (pw_ec _ _ (lc_parts _ _ _ L))|]. intros u x' Hx'.
    split; [apply lifecycle_ec; [by apply lifecycle_sets|done]|done]. }
  intros u s1 (L1 & O1 & R1). set (errors := _ ∪ u). case_bool_decide as Ee.
  { apply wp_ret. split; [done|by rewrite R1| |done]. intros a o Ho. exists o. rewrite O1. split; [done|by left]. }
  apply wp_bind. eapply wp_mono; [by apply (finish_requests_spec cfg (FinishSet errors) FINISHED_ERROR s1)|].
  intros l s2 (L2 & [_ _ _ A4 A5] & _ & Hl). eapply wp_mono; [apply error_outputs_spec|].
  { intros a (o & [Ho _] & _)%Hl. rewrite (A4 a o Ho). by eexists. }
  intros m' s' [-> Hm]. split; [done|intros rid a Hg; rewrite <- R1; by apply A5| |done].
  intros a o Ho. rewrite <- O1 in Ho. eexists. split; [by apply A4|]. case_decide as Ha; [|by left]. right. split; [|done].
  apply Hl in Ha as (o1 & [Ho1 _] & _ & Hf). congruence.
Qed.

(** ** The outputs *)

(** The tokens a client is told for a request. *)
Definition told_tokens (ecos : gmap Z EngineCoreOutputs) (client : Z) (rid : string) : list Z :=
  tokens_of rid (default [] (eco_outputs <$> ecos !! client)).

Lemma finished_sets_tokens (d : gmap Z (gset string)) (ecos : gmap Z EngineCoreOutputs) c rid :
  told_tokens (map_fold (fun c f m => <[c := mkEngineOutputs (default [] (eco_outputs <$> m !! c)) (Some f)]> m) ecos d) c rid =
  told_tokens ecos c rid.
Proof.
  apply (map_fold_weak_ind (fun m (_ : gmap Z (gset string)) => told_tokens m c rid = told_tokens ecos c rid)); [done|].
  intros i f _ m _ IH. rewrite <- IH. unfold told_tokens. destruct (decide (i = c)) as [->|Hne]; [by rewrite lookup_insert_eq|by rewrite lookup_insert_ne].
Qed.

Lemma outputs_spec m s :
  wp (engine_core_outputs m) (fun ecos s' => (exists x, s' = set_sets x s) /\ forall c rid, told_tokens ecos c rid = emitted m c rid) s.
Proof.
  assert (forall c rid, told_tokens ((fun l => mkEngineOutputs l None) <$> m) c rid = emitted m c rid) as Hm.
  { intros c rid. unfold told_tokens, emitted. rewrite lookup_fmap. by destruct (m !! c). }
  unfold engine_core_outputs. apply wp_bind, wp_get. cbv zeta. destruct (finished_req_ids_dict (sets s)) as [d|].
  - apply wp_bind, wp_modify, wp_ret. split; [by eexists|]. intros c rid. by rewrite finished_sets_tokens.
  - apply wp_ret. split; [|done]. exists (sets s). by destruct s.
Qed.

(** ** The method *)

(** What the caller owes: the answers of the workers fit the step, and what a
    connector reports as sent is finished. *)
Record update_ok (out : SchedulerOutput) (mro : ModelRunnerOutput) (ans : StructuredAnswers) (s : Sched) : Prop := {
  uo_nodup : NoDup (out_num_scheduled_tokens out).*1;
  uo_entries : forall rid n, (rid, n) ∈ out_num_scheduled_tokens out -> entry_ok cfg ∅ out mro s rid n;
  uo_answers : answers_ok ans;
  uo_sent : forall k, mro_kv_connector_output mro = Some k -> sent_finished s (finished_sending k)
}.

(** What happened to a tracked request. *)
Record request_told (out : SchedulerOutput) (mro : ModelRunnerOutput) (ecos : gmap Z EngineCoreOutputs) (rid : string) (o o' : SReq) : Prop := {
  rt_id : so_id o' = so_id o;
  rt_client : client_index o' = client_index o;
  rt_flight : num_in_flight_tokens (sr_request o') =
    num_in_flight_tokens (sr_request o) - default 0 (od_get rid (out_num_scheduled_tokens out));
  rt_finished : so_finished o = true -> so_status o' = so_status o;
  rt_tokens : resumable o = false ->
    all_token_ids (sr_request o') = all_token_ids (sr_request o) ++ told_tokens ecos (client_index o) rid;
  rt_sampled : told_tokens ecos (client_index o) rid = [] \/
    exists g pooled, answer_of mro rid = Some (g, pooled) /\ told_tokens ecos (client_index o) rid `prefix_of` g;
  rt_unscheduled : od_get rid (out_num_scheduled_tokens out) = None -> forall c, told_tokens ecos c rid = []
}.

Record update_done (out : SchedulerOutput) (mro : ModelRunnerOutput) (s : Sched) (ecos : gmap Z EngineCoreOutputs) (s' : Sched) : Prop := {
  ud_inv : lifecycle [] s';
  ud_requests : forall rid a, od_get rid (requests s') = Some a -> od_get rid (requests s) = Some a;
  ud_objs : forall rid a o, od_get rid (requests s) = Some a -> objs s !! a = Some o ->
    exists o', objs s' !! a = Some o' /\ request_told out mro ecos rid o o'
}.

Lemma entry_handled failed out mro s s1 rid n :
  lifecycle [] s -> loads_handled failed s s1 -> entry_ok cfg ∅ out mro s rid n -> entry_ok cfg failed out mro s1 rid n.
Proof.
  intros L [A1 A2 A3 A4] [E1 E2 E3]. assert (forall a o, od_get rid (requests s1) = Some a -> objs s1 !! a = Some o ->
    exists o0, od_get rid (requests s) = Some a /\ objs s !! a = Some o0 /\ so_id o0 = rid /\
      (o = o0 \/ (exists n, o = recut n o0) /\ (so_id o0 ∈ failed \/ so_status o0 = WAITING_FOR_REMOTE_KVS))) as Hback.
  { intros a o Hg Ho. rewrite A2 in Hg. destruct (lc_objs _ _ _ L rid a Hg) as (o0 & Ho0 & Hid & _). exists o0. split_and!; [done..|].
    destruct (A4 a o0 Ho0) as (o1 & Ho1 & Hx). rewrite Ho in Ho1. injection Ho1 as <-. done. }
  split; [done| |].
  - intros a o Hg Ho. destruct (Hback a o Hg Ho) as (o0 & Hg0 & Ho0 & _ & [->|[[m ->] _]]); exact (E2 a o0 Hg0 Ho0).
  - intros a o Hg Ho Hf Hnf Hd. destruct (Hback a o Hg Ho) as (o0 & Hg0 & Ho0 & Hid & [->|[[m ->] Hx]]).
    + destruct (E3 a o0 Hg0 Ho0 Hf) as [D1 D2 D3 D4 D5]; [set_solver|done|]. split; [done..|]. intros Has Hr.
      destruct (D5 Has Hr) as (r0 & C1 & C2). exists r0. split; [by apply A3|done].
    + exfalso. destruct Hx as [Hx|Hx]; [congruence|]. destruct (E3 a o0 Hg0 Ho0 Hf) as [_ D2 _ _ _]; [set_solver|done|].
      destruct D2 as [D2|[D2 _]]; congruence.
Qed.

(** The parts of a request no failure changes. *)
Definition same_record (o o' : SReq) : Prop :=
  so_id o' = so_id o /\ same_flight o o' /\ all_token_ids (sr_request o') = all_token_ids (sr_request o) /\ resumable o' = resumable o.

Lemma recut_record n o : same_record o (recut n o).
Proof. done. Qed.
Lemma fail_record o o' : may_fail o o' -> same_record o o' /\ (so_finished o = true -> so_status o' = so_status o).
Proof. intros [->|[Hf ->]]; [done|]. split; [done|]. congruence. Qed.

(** From the request at the call to the request at the end. *)
Lemma told_request out mro ecos p rid o o1 o2 o' :
  same_record o o1 -> so_status o1 = so_status o -> request_updated mro (out_num_scheduled_tokens out) p rid o1 o2 -> may_fail o2 o' ->
  (forall c q, told_tokens ecos c q = emitted (up_outputs p) c q) -> request_told out mro ecos rid o o'.
Proof.
  intros (A1 & [A2 A3] & A4 & A5) Ast [U1 U2 U3 U4 U5 U6 U7] [(B1 & [B2 B3] & B4 & B5) Bst]%fail_record Htold.
  split; rewrite ?Htold; try congruence.
  - intros Hf. assert (so_finished o1 = true) as Hf1 by (unfold so_finished in *; by rewrite Ast). specialize (U4 Hf1).
    rewrite Bst; [congruence|]. unfold so_finished in *. congruence.
  - intros Hr. rewrite B4, U5, A4, A3; congruence.
  - rewrite <- A3. done.
  - intros Hn c. rewrite Htold. apply U7. by apply od_get_None.
Qed.

Lemma when_kept (b : bool) s (m : M Sched unit) : preserves (kept cfg s) m -> preserves (kept cfg s) (when b m).
Proof. intros Hm. destruct b; [done|apply preserves_ret]. Qed.

(** The notifications at the end. *)
Lemma notify_spec (b : bool) m s :
  lifecycle [] s ->
  wp (when b (on_ec tt ec_update_connector_output) ;; on_connector tt cn_get_kv_connector_stats ;; on_kv kv_take_events ;;
      on_connector tt cn_take_events ;; engine_core_outputs m)
    (fun ecos s' => kept cfg s s' /\ forall c rid, told_tokens ecos c rid = emitted m c rid) s.
Proof.
  intros L. assert (kept cfg s s) as Hk by (split; [done|apply same_core_refl]).
  eapply (wp_bind_keep (kept cfg s)); [apply when_kept, kept_ec, ecu_output|done|intros [] s1 K1].
  eapply (wp_bind_keep (kept cfg s)); [apply kept_conn, cnu_stats|done|intros [] s2 K2].
  eapply (wp_bind_keep (kept cfg s)); [apply kept_kv, kvu_events|done|intros [] s3 K3].
  eapply (wp_bind_keep (kept cfg s)); [apply kept_conn, cnu_events|done|intros [] s4 K4].
  eapply wp_mono; [apply outputs_spec|]. intros ecos s5 [[x ->] Ht]. split; [|done]. destruct K4 as [L4 [? ? ? ? ? ?]].
  split; [by apply lifecycle_sets|by split].
Qed.

(** The step is over for the KV cache; failed loads are handled. *)
Lemma update_start_spec out mro s :
  lifecycle [] s ->
  wp (on_kv (kv_process_step (out_total out)) ;;
      match mro_kv_connector_output mro with
      | Some k => if bool_decide (invalid_block_ids k = ∅) then mret ∅
                  else handle_invalid_blocks cfg (invalid_block_ids k) (out_num_scheduled_tokens out)
      | None => mret ∅
      end) (fun failed s' => loads_handled failed s s' /\ running s' = running s) s.
Proof.
  intros L. apply wp_bind, wp_zoom. eapply wp_mono; [apply kvu_process, L|]. intros [] k (K1 & K2 & K3).
  assert (lifecycle [] (set_kv k s)) as L1 by by apply lifecycle_kv.
  assert (loads_handled ∅ s (set_kv k s)) as Hs by (split; [done|done|done|intros a o Ho; exists o; by split; [|left]]).
  destruct (mro_kv_connector_output mro) as [c|]; [|by apply wp_ret]. case_bool_decide; [by apply wp_ret|].
  eapply wp_mono; [by apply (invalid_blocks_spec (invalid_block_ids c) (out_num_scheduled_tokens out))|]. intros failed s' [[A1 A2 A3 A4] Hr].
  split; [|done]. split; [done|done|auto|done].
Qed.

(** What is sent at the call is still sent after the failures. *)
Lemma still_finished failed out mro p s s1 s2 s3 ids m m' :
  lifecycle [] s -> loads_handled failed s s1 -> loop_ok cfg mro s1 (out_num_scheduled_tokens out) p s2 ->
  failures_reported s2 s3 m m' -> sent_finished s ids -> sent_finished s3 ids.
Proof.
  intros L [_ A2 _ A4] Hlo [_ F2 F3 _] Hs rid a o3 Hin Hg3 Ho3. assert (od_get rid (requests s) = Some a) as Hg
    by (rewrite <- A2; by apply (lo_dict _ _ _ _ _ _ Hlo), F2).
  destruct (lc_objs _ _ _ L rid a Hg) as (o & Ho & _). pose proof (Hs rid a o Hin Hg Ho) as Hf.
  destruct (A4 a o Ho) as (o1 & Ho1 & Hc). assert (so_status o1 = so_status o) as Hs1 by (by destruct Hc as [->|[[n ->] _]]).
  destruct (lo_objs _ _ _ _ _ _ Hlo rid a o1) as (o2 & Ho2 & Hu); [by rewrite A2|done|].
  destruct (F3 a o2 Ho2) as (o3' & Ho3' & Hx). rewrite Ho3 in Ho3'. injection Ho3' as <-.
  unfold so_finished in *. assert (so_status o2 = so_status o1) as Hs2 by (apply (ru_finished _ _ _ _ _ _ Hu); unfold so_finished; congruence).
  destruct (fail_record o2 o3 Hx) as [_ Hs3]. rewrite Hs3; unfold so_finished; congruence.
Qed.

Lemma update_spec out mro ans s :
  lifecycle [] s -> update_ok out mro ans s ->
  wp (update_from_output cfg block_hasher out mro ans) (fun ecos s' => update_done out mro s ecos s') s.
Proof.
  intros L [U1 U2 U3 U4]. unfold update_from_output. pose proof (update_start_spec out mro s L) as Hstart. apply wp_bind_inv in Hstart.
  apply wp_bind. eapply wp_mono; [exact Hstart|]. clear Hstart. intros [] s0 Hstart. cbn beta in Hstart. apply wp_bind.
  eapply wp_mono; [exact Hstart|]. clear Hstart s0. intros failed s1 [Hh Hrun]. pose proof (lh_inv _ _ _ Hh) as L1. apply wp_bind.
  eapply wp_mono; [apply (loop_spec cfg block_hasher hasher_total failed out mro ans s1 L1 U3 U1)|].
  { intros rid n Hin. apply (entry_handled failed out mro s s1); auto. }
  intros p s2 Hlo. pose proof (remove_stopped_spec p s2 (lo_inv _ _ _ _ _ _ Hlo)) as Hrem.
  assert (NoDup (running s2)) as Hnd.
  { rewrite (lo_running _ _ _ _ _ _ Hlo). pose proof (lc_nodup _ _ _ L1) as Hq. unfold queued in Hq. by apply NoDup_app in Hq as [? _]. }
  specialize (Hrem Hnd). apply wp_bind_inv in Hrem. apply wp_bind. eapply wp_mono; [exact Hrem|]. clear Hrem. intros [] s0 Hrem. cbn beta in Hrem.
  apply wp_bind. eapply wp_mono; [exact Hrem|]. clear Hrem s0. intros [] s3 (L3 & O3 & R3).
  apply wp_bind. eapply wp_mono; [by apply (fail_requests_spec failed (up_outputs p) s3)|]. intros m s4 Hfail. pose proof Hfail as [L4 F2 F3 F4].
  assert (failures_reported s2 s4 (up_outputs p) m) as Hfail2 by (split; [done|by rewrite <- R3|by rewrite <- O3|done]).
  apply wp_bind. eapply (wp_mono _ (fun _ s5 => lifecycle [] s5 /\ objs s5 = objs s4 /\
    forall rid a, od_get rid (requests s5) = Some a -> od_get rid (requests s4) = Some a)).
  { destruct (mro_kv_connector_output mro) as [k|]; [|by apply wp_ret]. specialize (U4 k eq_refl).
    eapply wp_mono; [apply (xfer_finished_spec cfg s4 k L4)|by intros [] s5 [? ? ? ?]]. by apply (still_finished failed out mro p s s1 s2 s4 _ (up_outputs p) m). }
  intros [] s5 (L5 & O5 & R5). eapply wp_mono; [by apply (notify_spec (mro_ec_connector_output mro) m s5)|].
  intros ecos s6 [[L6 [O6 R6 _ _ _ _]] Htold]. split; [done| |].
  - intros rid a Hg. rewrite R6 in Hg. apply R5, (fr_requests _ _ _ _ Hfail2), (lo_dict _ _ _ _ _ _ Hlo) in Hg. by rewrite <- (lh_requests _ _ _ Hh).
  - intros rid a o Hg Ho. destruct (lh_objs _ _ _ Hh a o Ho) as (o1 & Ho1 & Hc).
    destruct (lo_objs _ _ _ _ _ _ Hlo rid a o1) as (o2 & Ho2 & Hu); [by rewrite (lh_requests _ _ _ Hh)|done|].
    destruct (fr_objs _ _ _ _ Hfail2 a o2 Ho2) as (o3 & Ho3 & Hx). exists o3. rewrite O6, O5. split; [done|].
    apply (told_request out mro ecos p rid o o1 o2 o3); [| |done|done|intros c q; by rewrite Htold, F4]; by destruct Hc as [->|[[n ->] _]].
Qed.

End Spec.

(** * Failed loads

    What [_update_requests_with_invalid_blocks] cuts: a request keeps no block
    that failed to load, except, with one cache group, blocks an earlier request
    of the same scan is going to recompute. *)

(** The invalid blocks of the first [n] all satisfy [P]. *)
Definition invalid_within (invalid : gset Z) (P : Z -> Prop) (n : nat) (l : list Z) : Prop :=
  forall j b, (j < n)%nat -> l !! j = Some b -> b ∈ invalid -> P b.

Lemma within_cons invalid P n b l :
  (b ∈ invalid -> P b) -> invalid_within invalid P n l -> invalid_within invalid P (S n) (b :: l).
Proof. intros Hb Hl [|j] c Hj Hc Hi; cbn in Hc; [injection Hc as <-; by apply Hb|]. apply (Hl j c); [lia|done|done]. Qed.

(** ** The searches *)

Lemma first_invalid_spec invalid n l : forall idx,
  match first_invalid invalid n idx l with
  | Some i => exists j, i = idx + Z.of_nat j /\ (j < n)%nat /\ invalid_within invalid (fun _ => False) j l
  | None => invalid_within invalid (fun _ => False) n l
  end.
Proof.
  revert l. induction n as [|n IH]; intros l idx; [by intros j b Hj; lia|]. cbn. destruct l as [|b l]; [by intros j b _ Hb|].
  case_bool_decide as Hb.
  - exists 0%nat. split_and!; [lia|lia|]. intros j c Hj. lia.
  - specialize (IH l (idx + 1)). destruct (first_invalid invalid n (idx + 1) l) as [i|].
    + destruct IH as (j & -> & Hj & Hw). exists (S j). split_and!; [lia|lia|by apply within_cons].
    + by apply within_cons.
Qed.

Lemma least_index_spec first :
  match least_index first with
  | Some i => Some i ∈ first /\ forall k, Some k ∈ first -> i <= k
  | None => forall x, x ∈ first -> x = None
  end.
Proof.
  induction first as [|[k|] first IH]; cbn; [by intros x ?%elem_of_nil| |].
  - fold (least_index first). destruct (least_index first) as [i|].
    + destruct IH as [Hi Hm]. split.
      * destruct (Z.min_spec k i) as [[_ ->]|[_ ->]]; [by left|by right].
      * intros m [[= ->]|Hk]%elem_of_cons; [lia|]. specialize (Hm m Hk). lia.
    + split; [by left|]. intros m [[= ->]|Hk%IH]%elem_of_cons; [lia|done].
  - fold (least_index first). destruct (least_index first) as [i|].
    + destruct IH as [Hi Hm]. split; [by right|]. intros m [|Hk]%elem_of_cons; [done|by apply Hm].
    + intros x [->|Hx]%elem_of_cons; [done|by apply IH].
Qed.

(** Once cut, a request is cut. *)
Lemma scan_blocks_cut invalid n l : forall idx hit i marked,
  exists hit' marked', scan_blocks invalid n idx l hit (Some i) marked = (hit', Some i, marked') /\ (hit = true -> hit' = true).
Proof.
  revert l. induction n as [|n IH]; intros l idx hit i marked; [by exists hit, marked|]. cbn. destruct l as [|b l]; [by exists hit, marked|].
  repeat case_bool_decide.
  - destruct (IH l (idx + 1) true i marked) as (h & m & -> & Hh). exists h, m. auto.
  - destruct (IH l (idx + 1) true i ({[b]} ∪ marked)) as (h & m & -> & Hh). exists h, m. auto.
  - apply IH.
Qed.

Lemma scan_hit invalid n l : forall idx cut marked cut' marked',
  scan_blocks invalid n idx l true cut marked <> (false, cut', marked').
Proof.
  revert l. induction n as [|n IH]; intros l idx cut marked cut' marked'; [done|]. cbn. destruct l as [|b l]; [done|]. repeat case_bool_decide; apply IH.
Qed.

Lemma scan_blocks_spec invalid n l : forall idx hit marked,
  let '(hit', cut, marked') := scan_blocks invalid n idx l hit None marked in
  match cut with
  | Some i => exists j, i = idx + Z.of_nat j /\ (j < n)%nat /\ invalid_within invalid (fun b => b ∈ marked) j l
  | None => invalid_within invalid (fun b => b ∈ marked) n l /\ (hit' = false -> invalid_within invalid (fun _ => False) n l)
  end.
Proof.
  revert l. induction n as [|n IH]; intros l idx hit marked; [by split; [intros j b Hj; lia|intros _ j b Hj; lia]|].
  cbn [scan_blocks]. destruct l as [|b l]; [by split; [intros j c _ Hc|intros _ j c _ Hc]|]. repeat case_bool_decide.
  - specialize (IH l (idx + 1) true marked). destruct (scan_blocks invalid n (idx + 1) l true None marked) as [[hit' cut] marked'] eqn:Es. destruct cut as [i|].
    + destruct IH as (j & -> & Hj & Hw). exists (S j). split_and!; [lia|lia|by apply within_cons].
    + destruct IH as [Hw Hf]. split; [by apply within_cons|]. intros ->. exfalso. by apply (scan_hit invalid n l) in Es.
  - destruct (scan_blocks_cut invalid n l (idx + 1) true idx ({[b]} ∪ marked)) as (h & m & -> & _).
    exists 0%nat. split_and!; [lia|lia|]. intros j c Hj. lia.
  - specialize (IH l (idx + 1) hit marked). destruct (scan_blocks invalid n (idx + 1) l hit None marked) as [[hit' cut] marked']. destruct cut as [i|].
    + destruct IH as (j & -> & Hj & Hw). exists (S j). split_and!; [lia|lia|by apply within_cons].
    + destruct IH as [Hw Hf]. split; [by apply within_cons|]. intros Hh. by apply within_cons; [|apply Hf].
Qed.

Lemma elem_of_py_from (l : list Z) i (j : nat) b : 0 <= i <= Z.of_nat j -> l !! j = Some b -> b ∈ py_from l i.
Proof.
  intros Hi Hj. rewrite py_from_drop by lia. apply list_elem_of_lookup. exists (j - Z.to_nat i)%nat. rewrite lookup_drop, <- Hj. f_equal. lia.
Qed.

Lemma elem_of_suffixes (h : list Z -> option Z) groups g i b :
  g ∈ groups -> h g = Some i -> b ∈ py_from g i -> b ∈ suffixes groups (h <$> groups).
Proof.
  intros Hg Hi Hb. unfold suffixes. rewrite zip_with_fmap_r, zip_with_diag, elem_of_list_to_set. apply list_elem_of_In, in_concat.
  exists (py_from g i). rewrite <- !list_elem_of_In. split; [|done]. apply list_elem_of_fmap. exists g. by rewrite Hi.
Qed.

(** An invalid block before the [n]-th is not before the first invalid one. *)
Lemma first_invalid_before invalid n g (j : nat) b :
  (j < n)%nat -> g !! j = Some b -> b ∈ invalid -> exists i, first_invalid invalid n 0 g = Some i /\ 0 <= i <= Z.of_nat j.
Proof.
  intros Hj Hb Hi. pose proof (first_invalid_spec invalid n g 0) as Hf. destruct (first_invalid invalid n 0 g) as [i|].
  - destruct Hf as (k & -> & Hk & Hw). exists (0 + Z.of_nat k). split; [done|]. destruct (decide (j < k)%nat) as [Hjk|]; [|lia]. by destruct (Hw j b Hjk Hb).
  - by destruct (Hf j b Hj Hb).
Qed.

Section Scan.
Context {K E C X : Type} `{KVUpdate K} (cfg : SchedConfig).
Local Abbreviation Sched := (Scheduler K E C X).
Implicit Types s : Sched.

(** The blocks that may hold tokens computed before the step. *)
Definition computed_blocks (nums : list (string * Z)) (o : SReq) : nat :=
  Z.to_nat ((num_computed_tokens (sr_request o) - default 0 (od_get (so_id o) nums) + sc_block_size cfg - 1) / sc_block_size cfg).

(** [n]: the computed tokens a request is left with. *)
Record cut_safely (invalid : gset Z) (evict : bool) (nums : list (string * Z)) (groups : list (list Z)) (o : SReq) (n : Z) (v v' : InvalidScan) : Prop := {
  cs_kept : forall g j b, g ∈ groups -> (j < computed_blocks nums o)%nat -> Z.of_nat j * sc_block_size cfg < n ->
    g !! j = Some b -> b ∈ invalid -> groups = [g] /\ b ∈ iv_marked v;
  cs_evicted : evict = true -> forall g j b, g ∈ groups -> (j < computed_blocks nums o)%nat ->
    g !! j = Some b -> b ∈ invalid -> (groups = [g] /\ b ∈ iv_marked v) \/ b ∈ iv_evict v';
  cs_affected : so_id o ∉ iv_affected v' -> n = num_computed_tokens (sr_request o) /\ v' = v;
  cs_others : iv_affected v' ⊆ {[so_id o]} ∪ iv_affected v
}.

Lemma cut_nothing invalid evict nums groups o v :
  (forall g, g ∈ groups -> invalid_within invalid (fun _ => False) (computed_blocks nums o) g) ->
  cut_safely invalid evict nums groups o (num_computed_tokens (sr_request o)) v v.
Proof.
  intros Hno. split; [intros g j b Hg Hj _ Hb Hi|intros _ g j b Hg Hj Hb Hi|done|set_solver]; by destruct (Hno g Hg j b Hj Hb Hi).
Qed.

Lemma scan_one_group invalid evict nums blocks o v hit cut marked :
  0 < sc_block_size cfg -> scan_blocks invalid (computed_blocks nums o) 0 blocks false None (iv_marked v) = (hit, cut, marked) ->
  match cut with
  | Some i => cut_safely invalid evict nums [blocks] o (i * sc_block_size cfg) v
      (mkInvalidScan ({[so_id o]} ∪ iv_affected v) (if evict then list_to_set (py_from blocks i) ∪ iv_evict v else iv_evict v) marked)
  | None => if hit then cut_safely invalid evict nums [blocks] o (num_computed_tokens (sr_request o) - default 0 (od_get (so_id o) nums)) v
      (mkInvalidScan ({[so_id o]} ∪ iv_affected v) (iv_evict v) marked)
    else cut_safely invalid evict nums [blocks] o (num_computed_tokens (sr_request o)) v v
  end.
Proof.
  intros Hbs Hs. pose proof (scan_blocks_spec invalid (computed_blocks nums o) blocks 0 false (iv_marked v)) as Hsp. rewrite Hs in Hsp. destruct cut as [i|].
  - destruct Hsp as (k & -> & Hk & Hw). split; cbn.
    + intros g j b ->%list_elem_of_singleton Hj Hn Hb Hi. split; [done|]. apply (Hw j b); [nia|done|done].
    + intros -> g j b ->%list_elem_of_singleton Hj Hb Hi. destruct (decide (j < k)%nat) as [Hjk|Hjk]; [left; split; [done|by apply (Hw j b)]|].
      right. apply elem_of_union_l, elem_of_list_to_set, (elem_of_py_from _ _ j); [lia|done].
    + set_solver.
    + done.
  - destruct Hsp as [Hw Hf]. destruct hit; [|apply cut_nothing; intros g ->%list_elem_of_singleton; by apply Hf]. split; cbn.
    + intros g j b ->%list_elem_of_singleton Hj _ Hb Hi. split; [done|by apply (Hw j b)].
    + intros _ g j b ->%list_elem_of_singleton Hj Hb Hi. left. split; [done|by apply (Hw j b)].
    + set_solver.
    + done.
Qed.

Lemma scan_groups invalid evict nums groups o v :
  0 < sc_block_size cfg ->
  let first := first_invalid invalid (computed_blocks nums o) 0 <$> groups in
  match least_index first with
  | None => cut_safely invalid evict nums groups o (num_computed_tokens (sr_request o)) v v
  | Some i => cut_safely invalid evict nums groups o (i * sc_block_size cfg) v
      (mkInvalidScan ({[so_id o]} ∪ iv_affected v) (if evict then suffixes groups first ∪ iv_evict v else iv_evict v) (iv_marked v))
  end.
Proof.
  intros Hbs first. pose proof (least_index_spec first) as Hl.
  assert (forall g j b, g ∈ groups -> (j < computed_blocks nums o)%nat -> g !! j = Some b -> b ∈ invalid ->
    exists i, first_invalid invalid (computed_blocks nums o) 0 g = Some i /\ 0 <= i <= Z.of_nat j /\ Some i ∈ first) as Hfirst.
  { intros g j b Hg Hj Hb Hi. destruct (first_invalid_before invalid _ g j b Hj Hb Hi) as (i & Hf & Hij). exists i. split_and!; [done|lia|lia|].
    apply list_elem_of_fmap. by exists g. }
  destruct (least_index first) as [i|].
  - destruct Hl as [_ Hmin]. split; cbn.
    + intros g j b Hg Hj Hn Hb Hi. destruct (Hfirst g j b Hg Hj Hb Hi) as (k & _ & Hk & Hin). specialize (Hmin k Hin). nia.
    + intros -> g j b Hg Hj Hb Hi. destruct (Hfirst g j b Hg Hj Hb Hi) as (k & Hf & Hk & _). right.
      apply elem_of_union_l, (elem_of_suffixes _ groups g k); [done|done|by apply (elem_of_py_from _ _ j)].
    + set_solver.
    + done.
  - apply cut_nothing. intros g Hg j b Hj Hb Hi. destruct (Hfirst g j b Hg Hj Hb Hi) as (k & _ & _ & Hin). by apply Hl in Hin.
Qed.

Lemma scan_request_cuts invalid nums evict v s a o :
  0 < sc_block_size cfg -> objs s !! a = Some o -> kv_get_block_ids (so_id o) (kv_cache_manager s) <> [] ->
  exists v' n, scan_request cfg invalid nums evict v a s =
      Ok v' (set_objs (<[a := so_set_request (set_computed n (sr_request o)) o]> (objs s)) s) /\
    cut_safely invalid evict nums (kv_get_block_ids (so_id o) (kv_cache_manager s)) o n v v'.
Proof.
  intros Hbs Ho Hgr. assert (set_objs (<[a := so_set_request (set_computed (num_computed_tokens (sr_request o)) (sr_request o)) o]> (objs s)) s = s) as Hsame.
  { rewrite insert_id; [by destruct s|]. rewrite Ho. by destruct o as [[] ? ? ? ? ? ? ? ? ? ? ? ? ?]. }
  unfold scan_request, modify_request, modify_obj, obj, mbind, M_bind, get. rewrite Ho. cbn [of_option mret M_ret]. fold (so_id o) (computed_blocks nums o).
  destruct (kv_get_block_ids (so_id o) (kv_cache_manager s)) as [|blocks [|g2 rest]]; [done| |].
  - destruct (scan_blocks _ _ _ _ _ _ _) as [[hit cut] marked] eqn:Es.
    pose proof (scan_one_group invalid evict nums blocks o v hit cut marked Hbs Es) as Hc. destruct cut as [i|].
    + rewrite Ho. cbn. by eexists _, _.
    + destruct hit; [rewrite Ho; cbn; by eexists _, _|]. eexists _, _. rewrite Hsame. split; [reflexivity|exact Hc].
  - pose proof (scan_groups invalid evict nums (blocks :: g2 :: rest) o v Hbs) as Hc. cbv zeta in Hc. destruct (least_index _) as [i|].
    + rewrite Ho. cbn. by eexists _, _.
    + eexists _, _. rewrite Hsame. split; [reflexivity|exact Hc].
Qed.

End Scan.
