(* ===== verification/SchedDrafts.v ===== *)
(** * Draft tokens of speculative decoding

    What [Scheduler] (vllm/v1/core/sched/scheduler.py) does with the drafts the
    workers propose: [update_draft_token_ids], which gives them to the requests
    for the next step or keeps them in the bounded cache of drafts that came late,
    and [update_draft_token_ids_in_output], which fills the placeholders of a step
    that was scheduled before its drafts were known.

    Whether a grammar looks at the drafts of a request and which of them it
    accepts are answers of the structured-output manager and of the grammar
    backends, parameters here.  Logging is left out. *)
From Stdlib Require Import ZArith Lia.
From stdpp Require Import base tactics gmap strings numbers option list.
From S2P Require Import Prelude Blocks Request Hashing RequestQueue OrderedDict SchedRequest SchedIface Scheduler SchedulePass Schedule SchedUpdate.

Local Open Scope Z_scope.

(** [DraftTokenIds] *)
Record DraftTokenIds := mkDraftTokenIds {
  dt_req_ids : list string;
  dt_draft_token_ids : list (list Z);
  producer_step_id : option Z
}.

(** [zip(draft_token_ids.req_ids, draft_token_ids.draft_token_ids)] *)
Definition draft_rows (d : DraftTokenIds) : list (string * list Z) := zip (dt_req_ids d) (dt_draft_token_ids d).

(** [strip_speculative_padding] of vllm/v1/structured_output/utils.py *)
Fixpoint strip_speculative_padding (token_ids : list Z) : list Z :=
  match token_ids with
  | [] => []
  | t :: l => if t <? 0 then [] else t :: strip_speculative_padding l
  end.

(** The output with other drafts. *)
Definition out_set_drafts (spec : list (string * list Z)) (steps : option (list (string * Z)))
    (invalid : option (list (string * Z))) (o : SchedulerOutput) : SchedulerOutput :=
  mkSchedulerOutput (out_new_reqs o) (out_cached_reqs o) (out_num_scheduled_tokens o) (out_total o)
    spec steps (out_step_id o) (out_encoder_inputs o)
    (out_num_common_prefix_blocks o) (out_preempted_req_ids o) (out_finished_req_ids o)
    (out_freed_mm_hashes o) (out_block_ids_to_zero o) (out_has_sync_kv_loads o) (out_block_copies o)
    (out_num_spec_tokens o) (out_has_structured o) (out_pending_structured o) invalid.

Section Drafts.
Context {K E C X : Type} (cfg : SchedConfig).
(** [should_advance] and [grammar.validate_tokens] *)
Context (ans : StructuredAnswers) (validate_tokens : SReq -> list Z -> list Z).
Local Abbreviation Sched := (Scheduler K E C X).

(** [_validate_draft_token_ids] *)
Definition validate_draft_token_ids (o : SReq) (token_ids : list Z) : M Sched (list Z) :=
  let token_ids := strip_speculative_padding token_ids in
  if ask_should_advance ans o [] then
    match structured_output_request o with
    | Some GrammarReady => mret (validate_tokens o token_ids)
    | _ => raise AssertionError
    end
  else mret token_ids.

(** [self._pending_draft_token_ids.pop(key, None)] *)
Definition pop_pending (key : string * Z) : M Sched unit :=
  modify_sets (fun x => ss_pending_draft_token_ids (od_pop key (pending_draft_token_ids x)) x).

(** [_cache_pending_draft_token_ids] *)
Definition cache_pending_draft_token_ids (rid : string) (step : Z) (token_ids : list Z) : M Sched unit :=
  let key := (rid, step) in
  s ← get;
  let pending := pending_draft_token_ids (sets s) in
  when (negb (od_mem key pending) && (max_pending_draft_token_ids cfg <=? zlen pending))
    (stale ← of_option StopIteration (head pending); pop_pending stale.1) ;;
  modify_sets (fun x => ss_pending_draft_token_ids (od_set key token_ids (pending_draft_token_ids x)) x).

(** The body of the loop of [update_draft_token_ids]. *)
Definition update_draft_row (producer : option Z) (row : string * list Z) : M Sched unit :=
  let '(rid, token_ids) := row in
  s ← get;
  match od_get rid (requests s) with
  | None => mret tt
  | Some a =>
      o ← obj a;
      if so_finished o then mret tt else
      if is_prefill_chunk o then
        when (bool_decide (producer = None) || bool_decide (spec_token_ids_step_id o = producer))
          (modify_obj a (so_set_spec [] None))
      else
      match producer with
      | None => l ← validate_draft_token_ids o token_ids; modify_obj a (so_set_spec l None)
      | Some step =>
          if negb (bool_decide (so_status o = RUNNING)) || negb (use_structured_output o) then mret tt else
          if bool_decide (spec_token_ids_step_id o = Some step) then
            l ← validate_draft_token_ids o token_ids; modify_obj a (so_set_spec l (spec_token_ids_step_id o))
          else cache_pending_draft_token_ids rid step token_ids
      end
  end.

Definition update_draft_token_ids (d : DraftTokenIds) : M Sched unit :=
  for_each (draft_rows d) (update_draft_row (producer_step_id d)).

(** [_prepare_draft_token_ids_for_output] *)
Definition prepare_draft_token_ids_for_output (o : SReq) (token_ids : list Z) (num_spec : Z) : M Sched (list Z * Z) :=
  l ← validate_draft_token_ids o (py_upto token_ids num_spec);
  let l := py_upto l num_spec in
  let num_invalid := num_spec - zlen l in
  mret (if num_invalid =? 0 then l else l ++ replicate (Z.to_nat num_invalid) (-1), num_invalid).

(** The rows of drafts of the output and the counts of invalid ones. *)
Local Abbreviation Rows := (list (string * list Z) * list (string * Z))%type.

(** The assignments at the end of both loops' bodies. *)
Definition put_prepared (acc : Rows) (rid : string) (o : SReq) (token_ids placeholders : list Z) : M Sched Rows :=
  p ← prepare_draft_token_ids_for_output o token_ids (zlen placeholders);
  mret (od_set rid p.1 acc.1, if p.2 =? 0 then acc.2 else od_set rid p.2 acc.2).

(** The body of the loop for drafts of a synchronous step. *)
Definition fill_row (acc : Rows) (row : string * list Z) : M Sched Rows :=
  let '(rid, token_ids) := row in
  s ← get;
  match od_get rid (requests s), default [] (od_get rid acc.1) with
  | Some a, (_ :: _) as placeholders =>
      o ← obj a;
      if so_finished o then mret acc else put_prepared acc rid o token_ids placeholders
  | _, _ => mret acc
  end.

(** The dictionary of the drafts that came with the call. *)
Definition provided_drafts (step : Z) (rows : list (string * list Z)) : list (string * Z * list Z) :=
  foldl (fun d row => od_set (row.1, step) row.2 d) [] rows.

(** The body of the loop for drafts bound to the step that produced them. *)
Definition bind_row (provided : list (string * Z * list Z)) (acc : Rows) (key : string * Z) : M Sched Rows :=
  let rid := key.1 in
  match default [] (od_get rid acc.1) with
  | [] => pop_pending key ;; mret acc
  | placeholders =>
      s ← get;
      match od_get rid (requests s) with
      | None => pop_pending key ;; mret acc
      | Some a =>
          o ← obj a;
          if so_finished o then pop_pending key ;; mret acc else
          s ← get;
          let matched := match od_get key provided with
                         | Some l => Some l
                         | None => od_get key (pending_draft_token_ids (sets s))
                         end in
          pop_pending key ;;
          match matched, bool_decide (so_status o = RUNNING) with
          | Some l, true => put_prepared acc rid o l placeholders
          | _, _ => mret (od_set rid (replicate (length placeholders) (-1)) acc.1, od_set rid (zlen placeholders) acc.2)
          end
      end
  end.

Definition update_draft_token_ids_in_output (d : option DraftTokenIds) (out : SchedulerOutput) : M Sched SchedulerOutput :=
  let acc := (out_spec_tokens out, default [] (out_num_invalid_spec_tokens out)) in
  match d with
  | Some (mkDraftTokenIds _ _ None as d) =>
      acc ← fold_m fill_row acc (draft_rows d);
      mret (out_set_drafts acc.1 (out_spec_step_ids out) (Some acc.2) out)
  | _ =>
      let provided := match d with
                      | Some (mkDraftTokenIds _ _ (Some step) as d) => provided_drafts step (draft_rows d)
                      | _ => []
                      end in
      acc ← fold_m (bind_row provided) acc (default [] (out_spec_step_ids out));
      mret (out_set_drafts acc.1 None (Some acc.2) out)
  end.

End Drafts.
