(* ===== verification/SchedDraftsSpec.v ===== *)
(** * The draft tokens, specified

    What [update_draft_token_ids] and [update_draft_token_ids_in_output]
    (SchedDrafts.v) do to the scheduler and to the output of a step, as functions
    of the state before the call. *)
From Stdlib Require Import ZArith Lia.
From stdpp Require Import base tactics gmap strings numbers option list.
From S2P Require Import Prelude Blocks Request Hashing Env RequestQueue OrderedDict SchedChunk SchedRequest SchedIface Scheduler SchedulerInv SchedulerOps SchedulePass ScheduleInv Schedule ScheduleSpec SchedUpdate SchedUpdateInv SchedDeliver SchedDrafts.

Local Open Scope Z_scope.

(** ** Rows *)

Lemma strip_prefix l : strip_speculative_padding l `prefix_of` l.
Proof. induction l as [|t l IH]; cbn; [done|]. destruct (t <? 0); [apply prefix_nil|by apply prefix_cons]. Qed.

Lemma strip_real l : Forall (fun t => 0 <= t) (strip_speculative_padding l).
Proof. induction l as [|t l IH]; cbn; [done|]. destruct (Z.ltb_spec t 0); [done|]. by constructor. Qed.

(** A dictionary after a series of [d.pop(k, None)]. *)
Lemma od_get_popped {A V} `{EqDecision A} (ks : list A) k : forall d : list (A * V),
  NoDup d.*1 -> od_get k (foldl (fun d k => od_pop k d) d ks) = if decide (k ∈ ks) then None else od_get k d.
Proof.
  induction ks as [|k' ks IH]; intros d Hd; [done|]. cbn [foldl]. rewrite IH by by apply od_pop_NoDup.
  rewrite od_get_pop by done. destruct (decide (k ∈ ks)), (decide (k = k')), (decide (k ∈ k' :: ks)); set_solver.
Qed.

(** Rows of the same requests and the same lengths. *)
Definition same_rows (d d' : list (string * list Z)) : Prop :=
  Forall2 (fun e e' => e.1 = e'.1 /\ length e.2 = length e'.2) d d'.

Lemma same_rows_refl d : same_rows d d.
Proof. induction d; by constructor. Qed.

Lemma same_rows_trans d1 d2 d3 : same_rows d1 d2 -> same_rows d2 d3 -> same_rows d1 d3.
Proof.
  intros H12. revert d3. induction H12 as [|e1 e2 l1 l2 [K1 L1] _ IH]; intros d3 H23; inversion H23 as [|? e3 ? l3 [K2 L2] ?]; subst; constructor.
  - split; congruence.
  - by apply IH.
Qed.

Lemma same_rows_set k p l d : od_get k d = Some p -> length l = length p -> same_rows d (od_set k l d).
Proof.
  intros Hg Hl. induction d as [|[k' v] d IH]; [done|]. cbn in Hg |- *. case_decide as Hk.
  - injection Hg as ->. constructor; [done|apply same_rows_refl].
  - constructor; [done|by apply IH].
Qed.

Section Rows.
Context (ans : StructuredAnswers) (validate_tokens : SReq -> list Z -> list Z).

(** What [_validate_draft_token_ids] leaves of drafts. *)
Definition checked_drafts (o : SReq) (l : list Z) : list Z :=
  if ask_should_advance ans o [] then validate_tokens o (strip_speculative_padding l) else strip_speculative_padding l.

(** The drafts that fill [n] placeholders. *)
Definition usable_drafts (o : SReq) (d : list Z) (n : nat) : list Z := take n (checked_drafts o (take n d)).

(** What a call asks for a request: nothing, its verification without drafts, or
    with the given drafts. *)
Definition asked : Type := option (SReq * option (list Z)).

(** The row [p] and the count [k0] of a request become [l] and [k]. *)
Definition row_filled (q : asked) (p l : list Z) (k0 k : option Z) : Prop :=
  match q with
  | None => l = p /\ k = k0
  | Some (o, None) => l = replicate (length p) (-1) /\ k = Some (zlen p)
  | Some (o, Some d) =>
      let v := usable_drafts o d (length p) in
      v `prefix_of` d /\ Forall (fun t => 0 <= t) v /\ l = v ++ replicate (length p - length v) (-1) /\
      k = if decide (length v = length p) then k0 else Some (zlen p - zlen v)
  end.

(** The same as a function on the dictionaries. *)
Definition write_row (acc : list (string * list Z) * list (string * Z)) (e : string * asked)
    : list (string * list Z) * list (string * Z) :=
  match default [] (od_get e.1 acc.1), e.2 with
  | (_ :: _) as p, Some (o, Some d) =>
      let v := usable_drafts o d (length p) in
      (od_set e.1 (v ++ replicate (length p - length v) (-1)) acc.1,
       if decide (length v = length p) then acc.2 else od_set e.1 (zlen p - zlen v) acc.2)
  | (_ :: _) as p, Some (o, None) => (od_set e.1 (replicate (length p) (-1)) acc.1, od_set e.1 (zlen p) acc.2)
  | _, _ => acc
  end.

(** Documented of [StructuredOutputGrammar.validate_tokens]: the result is a
    prefix of the tokens. *)
Context (validate_prefix : forall o l, validate_tokens o l `prefix_of` l).

Lemma checked_prefix o l : checked_drafts o l `prefix_of` strip_speculative_padding l.
Proof. unfold checked_drafts. by destruct (ask_should_advance ans o []). Qed.

Lemma prefix_take {A} n (l : list A) : take n l `prefix_of` l.
Proof. exists (drop n l). by rewrite take_drop. Qed.

Lemma usable_prefix o d n : usable_drafts o d n `prefix_of` strip_speculative_padding (take n d).
Proof. unfold usable_drafts. etrans; [apply prefix_take|apply checked_prefix]. Qed.

Lemma usable_length o d n : (length (usable_drafts o d n) <= n)%nat.
Proof. unfold usable_drafts. rewrite length_take. lia. Qed.

Lemma usable_ok o d n : usable_drafts o d n `prefix_of` d /\ Forall (fun t => 0 <= t) (usable_drafts o d n).
Proof.
  pose proof (usable_prefix o d n) as Hp. split.
  - etrans; [exact Hp|]. etrans; [apply strip_prefix|apply prefix_take].
  - destruct Hp as [r Hr]. pose proof (strip_real (take n d)) as Hf. rewrite Hr in Hf. by apply Forall_app in Hf as [Hf _].
Qed.

Lemma write_row_other acc e k : k <> e.1 ->
  od_get k (write_row acc e).1 = od_get k acc.1 /\ od_get k (write_row acc e).2 = od_get k acc.2.
Proof.
  intros Hk. unfold write_row. destruct (default [] (od_get e.1 acc.1)), e.2 as [[o [d|]]|]; cbn [fst snd]; try done.
  - rewrite od_get_set, decide_False by done. case_decide; [done|]. by rewrite od_get_set, decide_False.
  - rewrite !od_get_set. by rewrite !decide_False by done.
Qed.

Lemma write_row_own acc rid q t p : od_get rid acc.1 = Some (t :: p) ->
  exists l, od_get rid (write_row acc (rid, q)).1 = Some l /\ row_filled q (t :: p) l (od_get rid acc.2) (od_get rid (write_row acc (rid, q)).2).
Proof.
  intros Hg. unfold write_row. cbn [fst snd]. rewrite Hg. cbn [default from_option id fst snd]. destruct q as [[o [d|]]|]; cbn [fst snd].
  - eexists. split; [by rewrite od_get_set, decide_True by done|]. cbn. destruct (usable_ok o d (S (length p))) as [U1 U2].
    split; [done|]. split; [done|]. split; [done|]. case_decide; [done|]. by rewrite od_get_set, decide_True.
  - eexists. split; [by rewrite od_get_set, decide_True by done|]. by rewrite od_get_set, decide_True by done.
  - by exists (t :: p).
Qed.

Lemma write_row_shape acc e : same_rows acc.1 (write_row acc e).1.
Proof.
  unfold write_row. destruct (od_get e.1 acc.1) as [[|t p]|] eqn:Hg; cbn [default from_option id fst snd]; try apply same_rows_refl.
  destruct e.2 as [[o [d|]]|]; cbn [fst snd]; try apply same_rows_refl; eapply same_rows_set; try done.
  - rewrite length_app, length_replicate. pose proof (usable_length o d (length (t :: p))). lia.
  - by rewrite length_replicate.
Qed.

Lemma write_rows_shape l : forall acc, same_rows acc.1 (foldl write_row acc l).1.
Proof.
  induction l as [|e l IH]; intros acc; [apply same_rows_refl|]. eapply same_rows_trans; [apply write_row_shape|apply IH].
Qed.

Lemma write_rows_other l k : forall acc, k ∉ l.*1 ->
  od_get k (foldl write_row acc l).1 = od_get k acc.1 /\ od_get k (foldl write_row acc l).2 = od_get k acc.2.
Proof.
  induction l as [|e l IH]; intros acc Hk; [done|]. cbn in Hk. apply not_elem_of_cons in Hk as [Hk Hl]. cbn [foldl].
  destruct (IH (write_row acc e) Hl) as [-> ->]. by apply write_row_other.
Qed.

Lemma write_rows_own l rid q t p : forall acc, NoDup l.*1 -> (rid, q) ∈ l -> od_get rid acc.1 = Some (t :: p) ->
  exists r, od_get rid (foldl write_row acc l).1 = Some r /\
    row_filled q (t :: p) r (od_get rid acc.2) (od_get rid (foldl write_row acc l).2).
Proof.
  induction l as [|e l IH]; intros acc Hnd Hin Hg; [by apply elem_of_nil in Hin|]. cbn in Hnd. apply NoDup_cons in Hnd as [He Hnd].
  apply elem_of_cons in Hin as [<-|Hin]; cbn [foldl].
  - cbn in He. destruct (write_rows_other l rid (write_row acc (rid, q)) He) as [-> ->]. by apply write_row_own.
  - assert (rid <> e.1) as Hne. { intros ->. apply He. change e.1 with ((e.1, q)).1. by apply list_elem_of_fmap_2. }
    destruct (write_row_other acc e rid Hne) as [G1 G2]. rewrite <- G2. apply IH; [done|done|by rewrite G1].
Qed.

End Rows.

(** ** The calls *)

Section Calls.
Context `{Env} {K E C X : Type} `{KVLaws K} `{EncoderLaws E} `{KVConnectorLaws C} `{ECConnectorLaws X}.
Context (cfg : SchedConfig) (ans : StructuredAnswers) (validate_tokens : SReq -> list Z -> list Z).
Context (answers : answers_ok ans) (validate_prefix : forall o l, validate_tokens o l `prefix_of` l).
Local Abbreviation Sched := (Scheduler K E C X).
Local Abbreviation lifecycle := (lifecycle cfg).
Local Abbreviation usable := (usable_drafts ans validate_tokens).
Local Abbreviation write := (write_row ans validate_tokens).
Implicit Types s : Sched.

(** The tracked unfinished request of an id. *)
Definition live (s : Sched) (rid : string) : option SReq :=
  a ← od_get rid (requests s); o ← objs s !! a; if so_finished o then None else Some o.

(** The structured ones of the requests have their grammars. *)
Definition grammar_ready (o : SReq) : Prop := structured_output_request o = None \/ structured_output_request o = Some GrammarReady.
Definition grammars_ready (ids : list string) (s : Sched) : Prop := forall rid o, rid ∈ ids -> live s rid = Some o -> grammar_ready o.

Definition pending (s : Sched) : list (string * Z * list Z) := pending_draft_token_ids (sets s).
Definition with_pending (q : list (string * Z * list Z)) (s : Sched) : Sched := set_sets (ss_pending_draft_token_ids q (sets s)) s.

Lemma validate_spec s o l :
  grammar_ready o -> wp (validate_draft_token_ids ans validate_tokens o l) (fun r s' => r = checked_drafts ans validate_tokens o l /\ s' = s) s.
Proof.
  intros Hr. unfold validate_draft_token_ids, checked_drafts. destruct (ask_should_advance ans o []) eqn:Ea; [|by apply wp_ret].
  destruct (answers o [] Ea) as [g Hg]. destruct Hr as [Hr|Hr]; [congruence|]. rewrite Hr. by apply wp_ret.
Qed.

Lemma put_spec s acc rid o d t p : grammar_ready o -> od_get rid acc.1 = Some (t :: p) ->
  wp (put_prepared ans validate_tokens acc rid o d (t :: p)) (fun acc' s' => acc' = write acc (rid, Some (o, Some d)) /\ s' = s) s.
Proof.
  intros Hr Hg. unfold put_prepared, prepare_draft_token_ids_for_output. apply wp_bind, wp_bind.
  eapply wp_mono; [by apply validate_spec|]. intros r s' [-> ->]. apply wp_ret. cbv beta. apply wp_ret. split; [|done].
  unfold write_row. cbn [fst snd]. rewrite Hg. cbn [default from_option id]. rewrite !py_upto_take by apply zlen_nonneg.
  unfold zlen. rewrite !Nat2Z.id. fold (usable o d (length (t :: p))). pose proof (usable_length ans validate_tokens o d (length (t :: p))) as Hl.
  set (v := usable o d (length (t :: p))) in *. unfold zlen in *. destruct (Z.eqb_spec (Z.of_nat (length (t :: p)) - Z.of_nat (length v)) 0) as [Ez|Ez].
  - rewrite decide_True by lia. replace (length (t :: p) - length v)%nat with 0%nat by lia. by rewrite app_nil_r.
  - rewrite decide_False by lia. do 5 f_equal. lia.
Qed.

(** Drafts of a synchronous step. *)
Definition fill_asked (s : Sched) (row : string * list Z) : string * asked := (row.1, o ← live s row.1; Some (o, Some row.2)).

Lemma fill_spec s acc row : lifecycle [] s -> (forall o, live s row.1 = Some o -> grammar_ready o) ->
  wp (fill_row ans validate_tokens acc row) (fun acc' s' => acc' = write acc (fill_asked s row) /\ s' = s) s.
Proof.
  intros L Hr. destruct row as [rid d]. unfold fill_row, fill_asked, live in *. cbn [fst snd] in *. apply wp_bind, wp_get.
  destruct (od_get rid (requests s)) as [a|] eqn:Ea; cbn [mbind option_bind] in *; [|by apply wp_ret; unfold write_row; destruct (default _ _)].
  destruct (lc_objs _ _ _ L rid a Ea) as (o & Ho & _). rewrite Ho in *. cbn [mbind option_bind] in *.
  destruct (od_get rid acc.1) as [[|t p]|] eqn:Eg; cbn [default from_option id]; try (apply wp_ret; split; [|done]; unfold write_row; cbn [fst]; by rewrite Eg).
  apply wp_bind. eapply wp_obj; [done|]. destruct (so_finished o); cbn [mbind option_bind].
  - apply wp_ret. split; [|done]. unfold write_row. cbn [fst snd]. by rewrite Eg.
  - apply put_spec; [by apply Hr|done].
Qed.

(** Drafts bound to the step that produced them. *)
Definition bind_asked (provided : list (string * Z * list Z)) (s : Sched) (key : string * Z) : string * asked :=
  (key.1, o ← live s key.1;
          Some (o, if bool_decide (so_status o = RUNNING)
                   then match od_get key provided with Some l => Some l | None => od_get key (pending s) end else None)).

Lemma wp_pop_pending key (Q : unit -> Sched -> Prop) s : Q tt (with_pending (od_pop key (pending s)) s) -> wp (pop_pending key) Q s.
Proof. intros HQ. by apply wp_modify. Qed.

Lemma bind_spec provided s acc key : lifecycle [] s -> (forall o, live s key.1 = Some o -> grammar_ready o) ->
  wp (bind_row ans validate_tokens provided acc key)
    (fun acc' s' => acc' = write acc (bind_asked provided s key) /\ s' = with_pending (od_pop key (pending s)) s) s.
Proof.
  intros L Hr. unfold bind_row, bind_asked, live in *.
  destruct (od_get key.1 acc.1) as [[|t p]|] eqn:Eg; cbn [default from_option id];
    try (apply wp_bind, wp_pop_pending, wp_ret; split; [|done]; unfold write_row; cbn [fst]; by rewrite Eg).
  apply wp_bind, wp_get. destruct (od_get key.1 (requests s)) as [a|] eqn:Ea; cbn [mbind option_bind] in *.
  2:{ apply wp_bind, wp_pop_pending, wp_ret. split; [|done]. unfold write_row. cbn [fst snd]. by rewrite Eg. }
  destruct (lc_objs _ _ _ L _ a Ea) as (o & Ho & _). rewrite Ho in *. cbn [mbind option_bind] in *. apply wp_bind. eapply wp_obj; [done|].
  destruct (so_finished o); cbn [mbind option_bind] in *.
  { apply wp_bind, wp_pop_pending, wp_ret. split; [|done]. unfold write_row. cbn [fst snd]. by rewrite Eg. }
  apply wp_bind, wp_get, wp_bind, wp_pop_pending. fold (pending s).
  set (m := match od_get key provided with Some l => Some l | None => _ end).
  destruct m as [d|]; destruct (bool_decide (so_status o = RUNNING));
    try (apply wp_ret; split; [|done]; unfold write_row; cbn [fst snd]; by rewrite Eg).
  by apply put_spec; [apply Hr|].
Qed.

(** The drafts that came with the call, and the steps it settles. *)
Definition drafts_given (d : option DraftTokenIds) : list (string * Z * list Z) :=
  match d with Some (mkDraftTokenIds _ _ (Some step) as d) => provided_drafts step (draft_rows d) | _ => [] end.
Definition steps_settled (d : option DraftTokenIds) (out : SchedulerOutput) : list (string * Z) :=
  match d with Some (mkDraftTokenIds _ _ None) => [] | _ => default [] (out_spec_step_ids out) end.

(** What the call asks of the output's rows. *)
Definition rows_asked (d : option DraftTokenIds) (out : SchedulerOutput) (s : Sched) : list (string * asked) :=
  match d with
  | Some (mkDraftTokenIds _ _ None as d) => fill_asked s <$> draft_rows d
  | _ => bind_asked (drafts_given d) s <$> default [] (out_spec_step_ids out)
  end.

(** The requests it names. *)
Definition rows_named (d : option DraftTokenIds) (out : SchedulerOutput) : list string :=
  match d with Some (mkDraftTokenIds _ _ None as d) => (draft_rows d).*1 | _ => (default [] (out_spec_step_ids out)).*1 end.

Lemma rows_asked_named d out s : (rows_asked d out s).*1 = rows_named d out.
Proof. destruct d as [[ids toks [step|]]|]; cbn; by rewrite <- list_fmap_compose. Qed.

(** What the caller owes: no request is named twice, and the grammars of the
    structured ones are compiled. *)
Record output_drafts_ok (d : option DraftTokenIds) (out : SchedulerOutput) (s : Sched) : Prop := {
  oo_once : NoDup (rows_named d out);
  oo_pending : NoDup (pending s).*1;
  oo_grammars : grammars_ready (rows_named d out) s
}.

(** What the call does. *)
Record output_filled (d : option DraftTokenIds) (out : SchedulerOutput) (s : Sched) (out' : SchedulerOutput) (s' : Sched) : Prop := {
  of_only : exists spec steps invalid, out' = out_set_drafts spec steps invalid out;
  of_shape : same_rows (out_spec_tokens out) (out_spec_tokens out');
  of_asked : forall rid q p, (rid, q) ∈ rows_asked d out s -> od_get rid (out_spec_tokens out) = Some p -> p <> [] ->
    exists l, od_get rid (out_spec_tokens out') = Some l /\
      row_filled ans validate_tokens q p l (od_get rid (default [] (out_num_invalid_spec_tokens out)))
        (od_get rid (default [] (out_num_invalid_spec_tokens out')));
  of_others : forall rid, rid ∉ rows_named d out ->
    od_get rid (out_spec_tokens out') = od_get rid (out_spec_tokens out) /\
    od_get rid (default [] (out_num_invalid_spec_tokens out')) = od_get rid (default [] (out_num_invalid_spec_tokens out));
  of_state : s' = with_pending (pending s') s;
  of_pending : forall key, od_get key (pending s') = if decide (key ∈ steps_settled d out) then None else od_get key (pending s)
}.

(** The result, from the rows that were written. *)
Lemma filled_intro d out s steps q :
  output_drafts_ok d out s -> q = foldl (fun d k => od_pop k d) (pending s) (steps_settled d out) ->
  let acc := foldl write (out_spec_tokens out, default [] (out_num_invalid_spec_tokens out)) (rows_asked d out s) in
  output_filled d out s (out_set_drafts acc.1 steps (Some acc.2) out) (with_pending q s).
Proof.
  intros [O1 O2 O3] -> acc. rewrite <- (rows_asked_named d out s) in O1. split; cbn [out_set_drafts out_spec_tokens out_num_invalid_spec_tokens default from_option id]; try done.
  - by eexists _, _, _.
  - apply (write_rows_shape ans validate_tokens _ (_, _)).
  - intros rid q [|t p] Hin Hg Hp; [done|]. by apply (write_rows_own ans validate_tokens validate_prefix _ _ _ t p (_, _)).
  - intros rid Hr. rewrite <- (rows_asked_named d out s) in Hr. by apply (write_rows_other ans validate_tokens _ _ (_, _)).
  - intros key. by apply od_get_popped.
Qed.

Lemma fill_rows_spec s acc l : lifecycle [] s -> grammars_ready l.*1 s ->
  wp (fold_m (fill_row ans validate_tokens) acc l) (fun acc' s' => acc' = foldl write acc (fill_asked s <$> l) /\ s' = s) s.
Proof.
  intros L Hr. apply (wp_fold_m (fun pre acc' s' => acc' = foldl write acc (fill_asked s <$> pre) /\ s' = s)); [done|].
  intros pre x post acc' s' -> [-> ->]. eapply wp_mono; [apply fill_spec; [done|]|].
  - intros o. apply Hr. rewrite !fmap_app, elem_of_app. right. apply elem_of_cons. by left.
  - intros acc' s' [-> ->]. split; [|done]. by rewrite fmap_app, foldl_app.
Qed.

Lemma bind_rows_spec provided s acc l :
  lifecycle [] s -> NoDup (pending s).*1 -> NoDup l.*1 -> grammars_ready l.*1 s ->
  wp (fold_m (bind_row ans validate_tokens provided) acc l)
    (fun acc' s' => acc' = foldl write acc (bind_asked provided s <$> l) /\
       s' = with_pending (foldl (fun d k => od_pop k d) (pending s) l) s) s.
Proof.
  intros L Hp Hnd Hr.
  apply (wp_fold_m (fun pre acc' s' => acc' = foldl write acc (bind_asked provided s <$> pre) /\
    s' = with_pending (foldl (fun d k => od_pop k d) (pending s) pre) s)).
  { split; [done|]. by destruct s as [? ? ? ? ? ? []]. }
  intros pre x post acc' s' -> [-> ->]. set (s1 := with_pending (foldl (fun d k => od_pop k d) (pending s) pre) s).
  assert (bind_asked provided s1 x = bind_asked provided s x) as Hb.
  { unfold bind_asked. change (live s1) with (live s). change (pending s1) with (foldl (fun d k => od_pop k d) (pending s) pre).
    rewrite od_get_popped by done. rewrite decide_False; [done|]. intros Hx. rewrite fmap_app in Hnd. apply NoDup_app in Hnd as (_ & Hd & _).
    apply (Hd x.1); [by apply list_elem_of_fmap_2|]. apply elem_of_cons. by left. }
  eapply wp_mono; [apply (bind_spec provided s1); [by apply lifecycle_sets|]|].
  - intros o. apply Hr. rewrite !fmap_app, elem_of_app. right. apply elem_of_cons. by left.
  - intros acc' s' [-> ->]. rewrite Hb, fmap_app, !foldl_app. done.
Qed.

Lemma output_drafts_spec d out s :
  lifecycle [] s -> output_drafts_ok d out s ->
  wp (update_draft_token_ids_in_output ans validate_tokens d out) (fun out' s' => output_filled d out s out' s' /\ lifecycle [] s') s.
Proof.
  intros L Hok. pose proof Hok as [O1 O2 O3].
  assert (forall q, lifecycle [] (with_pending q s)) as Lq by (intros; by apply lifecycle_sets).
  unfold update_draft_token_ids_in_output. destruct d as [[ids toks [step|]]|]; apply wp_bind; cbn [rows_named] in *.
  2:{ eapply wp_mono; [by apply fill_rows_spec|]. intros acc s' [-> ->]. apply wp_ret. split; [|done].
      replace s with (with_pending (pending s) s) at 4 by by destruct s as [? ? ? ? ? ? []]. by apply filled_intro. }
  all: eapply wp_mono; [by apply bind_rows_spec|]; intros acc s' [-> ->]; apply wp_ret; split; [by apply filled_intro|done].
Qed.

(** *** [update_draft_token_ids] *)

(** The request after its row. *)
Definition draft_object (producer : option Z) (l : list Z) (o : SReq) : SReq :=
  if is_prefill_chunk o then
    if bool_decide (producer = None) || bool_decide (spec_token_ids_step_id o = producer) then so_set_spec [] None o else o
  else match producer with
  | None => so_set_spec (checked_drafts ans validate_tokens o l) None o
  | Some step =>
      if bool_decide (so_status o = RUNNING) && use_structured_output o && bool_decide (spec_token_ids_step_id o = Some step)
      then so_set_spec (checked_drafts ans validate_tokens o l) (Some step) o else o
  end.

(** The drafts of the step came late: the request has been scheduled since. *)
Definition is_late (step : Z) (o : SReq) : bool :=
  negb (is_prefill_chunk o) && bool_decide (so_status o = RUNNING) && use_structured_output o &&
  negb (bool_decide (spec_token_ids_step_id o = Some step)).

(** The cache after a row. *)
Definition cache_row (key : string * Z) (l : list Z) (q : list (string * Z * list Z)) : list (string * Z * list Z) :=
  od_set key l (if negb (od_mem key q) && (max_pending_draft_token_ids cfg <=? zlen q) then tail q else q).

Lemma cache_pending_spec rid step l s : 0 < max_pending_draft_token_ids cfg ->
  wp (cache_pending_draft_token_ids cfg rid step l) (fun _ s' => s' = with_pending (cache_row (rid, step) l (pending s)) s) s.
Proof.
  intros Hm. unfold cache_pending_draft_token_ids, cache_row. apply wp_bind, wp_get, wp_bind. fold (pending s).
  apply wp_when; intros Hb; rewrite Hb; [|by apply wp_modify].
  apply andb_true_iff in Hb as [_ Hb]. apply Z.leb_le in Hb. destruct (pending s) as [|[k v] q] eqn:Eq; [exfalso; revert Hb; unfold zlen; cbn; lia|].
  apply wp_bind. eapply wp_of_option; [done|]. apply wp_pop_pending. apply wp_modify. rewrite Eq. cbn [fst od_pop tail]. by rewrite decide_True.
Qed.

(** The state after a row. *)
Definition draft_effect (producer : option Z) (row : string * list Z) (s : Sched) : Sched :=
  match od_get row.1 (requests s) ≫= fun a => pair a <$> objs s !! a with
  | Some (a, o) =>
      if so_finished o then s else
      let s' := match producer with
                | Some step => if is_late step o then with_pending (cache_row (row.1, step) row.2 (pending s)) s else s
                | None => s
                end in
      set_objs (<[a := draft_object producer row.2 o]> (objs s)) s'
  | None => s
  end.

Lemma draft_row_spec producer row s :
  lifecycle [] s -> 0 < max_pending_draft_token_ids cfg -> (forall o, live s row.1 = Some o -> grammar_ready o) ->
  wp (update_draft_row cfg ans validate_tokens producer row) (fun _ s' => s' = draft_effect producer row s) s.
Proof.
  intros L Hm Hr. destruct row as [rid l]. unfold update_draft_row, draft_effect, live in *. cbn [fst snd] in *. apply wp_bind, wp_get.
  destruct (od_get rid (requests s)) as [a|] eqn:Ea; cbn [mbind option_bind] in *; [|by apply wp_ret].
  destruct (lc_objs _ _ _ L rid a Ea) as (o & Ho & _). rewrite Ho in *. cbn [fmap option_fmap option_map mbind option_bind] in *.
  apply wp_bind. eapply wp_obj; [done|]. destruct (so_finished o); [by apply wp_ret|]. specialize (Hr o eq_refl).
  assert (set_objs (<[a := o]> (objs s)) s = s) as Hid by (rewrite insert_id by done; by destruct s).
  unfold draft_object, is_late. destruct (is_prefill_chunk o); cbn [negb andb].
  { replace (match producer with Some _ => s | None => s end) with s by by destruct producer.
    apply wp_when; intros Hb; rewrite Hb; [by eapply wp_modify_obj|done]. }
  destruct producer as [step|].
  - destruct (bool_decide (so_status o = RUNNING)), (use_structured_output o); cbn [negb orb andb]; try by apply wp_ret.
    destruct (bool_decide_reflect (spec_token_ids_step_id o = Some step)) as [Hs|Hs]; cbn [negb].
    + apply wp_bind. eapply wp_mono; [by apply validate_spec|]. intros r s' [-> ->]. rewrite Hs. by eapply wp_modify_obj.
    + eapply wp_mono; [by apply cache_pending_spec|]. intros [] s' ->. rewrite insert_id by done. by destruct s.
  - apply wp_bind. eapply wp_mono; [by apply validate_spec|]. intros r s' [-> ->]. by eapply wp_modify_obj.
Qed.

Lemma draft_object_same producer l o : exists spec step, draft_object producer l o = so_set_spec spec step o.
Proof.
  assert (exists spec step, o = so_set_spec spec step o) as Ho by (eexists (spec_token_ids o), (spec_token_ids_step_id o); by destruct o).
  unfold draft_object. destruct (is_prefill_chunk o); [destruct (_ || _); [by eexists _, _|done]|].
  destruct producer; [destruct (_ && _ && _); [by eexists _, _|done]|by eexists _, _].
Qed.

Lemma draft_lifecycle producer row s : lifecycle [] s -> lifecycle [] (draft_effect producer row s).
Proof.
  intros L. unfold draft_effect. destruct (od_get row.1 (requests s)) as [a|]; [|done]. cbn. destruct (objs s !! a) as [o|] eqn:Ho; [|done]. cbn.
  destruct (so_finished o); [done|]. destruct (draft_object_same producer row.2 o) as (spec & step & ->).
  assert (lifecycle [] (set_objs (<[a := so_set_spec spec step o]> (objs s)) s)) as L'.
  { apply (lifecycle_touch cfg [] s a o); try done. by intros []. }
  destruct producer as [st|]; [|done]. destruct (is_late st o); [|done]. exact (lifecycle_sets _ _ _ _ L').
Qed.

(** The drafts of a call that come late. *)
Definition late_rows (producer : option Z) (s : Sched) (rows : list (string * list Z)) : list (string * Z * list Z) :=
  match producer with
  | None => []
  | Some step => omap (fun row => o ← live s row.1; if is_late step o then Some ((row.1, step), row.2) else None) rows
  end.

(** The oldest entries go first. *)
Definition cached_after (late : list (string * Z * list Z)) (q : list (string * Z * list Z)) : list (string * Z * list Z) :=
  drop (length q + length late - Z.to_nat (max_pending_draft_token_ids cfg)) q ++ late.

(** What the caller owes: no request is named twice, the cache has room for a
    batch, no earlier call delivered drafts of this step, and grammars are ready. *)
Record drafts_ok (d : DraftTokenIds) (s : Sched) : Prop := {
  do_once : NoDup (draft_rows d).*1;
  do_room : zlen (draft_rows d) <= max_pending_draft_token_ids cfg /\ zlen (pending s) <= max_pending_draft_token_ids cfg;
  do_new : forall step, producer_step_id d = Some step -> forall key, key ∈ (pending s).*1 -> key.2 <> step;
  do_grammars : grammars_ready (draft_rows d).*1 s
}.

(** What the call does. *)
Record drafts_taken (producer : option Z) (rows : list (string * list Z)) (s s' : Sched) : Prop := {
  dt_state : s' = set_objs (objs s') (with_pending (pending s') s);
  dt_objects : forall rid l a o, (rid, l) ∈ rows -> od_get rid (requests s) = Some a -> objs s !! a = Some o ->
    objs s' !! a = Some (if so_finished o then o else draft_object producer l o);
  dt_others : forall a, (forall rid, rid ∈ rows.*1 -> od_get rid (requests s) <> Some a) -> objs s' !! a = objs s !! a;
  dt_pending : pending s' = cached_after (late_rows producer s rows) (pending s)
}.

Lemma cached_step key l late q :
  zlen q <= max_pending_draft_token_ids cfg -> zlen late < max_pending_draft_token_ids cfg -> key ∉ q.*1 -> key ∉ late.*1 ->
  cache_row key l (cached_after late q) = cached_after (late ++ [(key, l)]) q.
Proof.
  intros Hq Hl Kq Kl. unfold cache_row, cached_after, zlen in *. rewrite !length_app. change (length [(key, l)]) with 1%nat.
  set (m := max_pending_draft_token_ids cfg) in *. set (k := (length q + length late - Z.to_nat m)%nat).
  assert (key ∉ (drop k q ++ late).*1) as Hk.
  { rewrite fmap_app, fmap_drop, elem_of_app. intros [Hin|Hin]; [|done]. apply Kq. rewrite <- (take_drop k q.*1). apply elem_of_app. by right. }
  assert (od_mem key (drop k q ++ late) = false) as -> by (unfold od_mem; by apply bool_decide_eq_false_2). cbn [negb andb].
  rewrite length_drop. destruct (Z.leb_spec m (Z.of_nat (length q - k + length late))) as [Hm|Hm].
  - replace (length q + (length late + 1) - Z.to_nat m)%nat with (S k) by lia.
    assert (k < length q)%nat as Hlt by lia. destruct (lookup_lt_is_Some_2 q k Hlt) as [x Hx]. rewrite (drop_S _ _ _ Hx) in *. cbn [tail app].
    rewrite od_set_absent; [by rewrite app_assoc|]. cbn in Hk. rewrite not_elem_of_cons in Hk. apply Hk.
  - replace (length q + (length late + 1) - Z.to_nat m)%nat with 0%nat by lia. assert (k = 0%nat) as -> by lia. rewrite drop_0 in *.
    rewrite od_set_absent by done. by rewrite app_assoc.
Qed.

Lemma cached_bound late q :
  zlen late <= max_pending_draft_token_ids cfg -> zlen (cached_after late q) <= max_pending_draft_token_ids cfg.
Proof. unfold cached_after, zlen. rewrite length_app, length_drop. lia. Qed.

(** The drafts a request has after its row: real tokens of the row, or its own. *)
Lemma draft_object_tokens producer l o :
  spec_token_ids (draft_object producer l o) = spec_token_ids o \/
  spec_token_ids (draft_object producer l o) `prefix_of` l /\ Forall (fun t => 0 <= t) (spec_token_ids (draft_object producer l o)).
Proof.
  assert (checked_drafts ans validate_tokens o l `prefix_of` l /\ Forall (fun t => 0 <= t) (checked_drafts ans validate_tokens o l)) as Hc.
  { pose proof (checked_prefix ans validate_tokens validate_prefix o l) as [r Hr]. split; [etrans; [by exists r|apply strip_prefix]|].
    pose proof (strip_real l) as Hf. rewrite Hr in Hf. by apply Forall_app in Hf as [Hf _]. }
  unfold draft_object. destruct (is_prefill_chunk o); [destruct (_ || _); [right; split; [apply prefix_nil|constructor]|by left]|].
  destruct producer; [destruct (_ && _ && _); [by right|by left]|by right].
Qed.

Lemma late_rows_app producer s l1 l2 : late_rows producer s (l1 ++ l2) = late_rows producer s l1 ++ late_rows producer s l2.
Proof. destruct producer; [apply omap_app|done]. Qed.

Lemma late_rows_one producer s x a o : od_get x.1 (requests s) = Some a -> objs s !! a = Some o ->
  late_rows producer s [x] =
  match producer with Some step => if negb (so_finished o) && is_late step o then [((x.1, step), x.2)] else [] | None => [] end.
Proof.
  intros Ha Ho. destruct producer as [step|]; [|done]. unfold late_rows, live. cbn. rewrite Ha. cbn. rewrite Ho. cbn.
  destruct (so_finished o); [done|]. cbn. by destruct (is_late step o).
Qed.

Lemma late_rows_length producer s l : (length (late_rows producer s l) <= length l)%nat.
Proof. destruct producer; [|cbn; lia]. unfold late_rows. induction l as [|x l IH]; cbn in *; [done|]. case_match; cbn; lia. Qed.

Lemma late_rows_keys producer s l key : key ∈ (late_rows producer s l).*1 -> key.1 ∈ l.*1 /\ producer = Some key.2.
Proof.
  intros [[k v] [-> Hin]]%list_elem_of_fmap. destruct producer as [step|]; [|by apply elem_of_nil in Hin]. cbn in Hin.
  apply list_elem_of_omap in Hin as (row & Hrow & Hv). destruct (live s row.1) as [o|]; [|done]. cbn in Hv. destruct (is_late step o); [|done].
  injection Hv as <- <-. split; [|done]. cbn. by apply list_elem_of_fmap_2.
Qed.

(** A row of a request no earlier row named. *)
Lemma taken_object producer pre s s1 rid a :
  lifecycle [] s -> drafts_taken producer pre s s1 -> rid ∉ pre.*1 -> od_get rid (requests s) = Some a ->
  exists o, objs s !! a = Some o /\ objs s1 !! a = Some o.
Proof.
  intros L [T1 T2 T3 T4] Hr Ha. destruct (lc_objs _ _ _ L rid a Ha) as (o & Ho & Hid & _). exists o. split; [done|]. rewrite T3; [done|].
  intros rid' Hin Ha'. destruct (lc_objs _ _ _ L rid' a Ha') as (o' & Ho' & Hid' & _). congruence.
Qed.

Lemma taken_step d pre x post s s1 :
  lifecycle [] s -> drafts_ok d s -> draft_rows d = pre ++ x :: post -> drafts_taken (producer_step_id d) pre s s1 ->
  drafts_taken (producer_step_id d) (pre ++ [x]) s (draft_effect (producer_step_id d) x s1).
Proof.
  intros L [O1 [O2 O2'] O3 O4] Hrows T. set (producer := producer_step_id d) in *.
  assert (x.1 ∉ pre.*1) as Hx.
  { rewrite Hrows, fmap_app in O1. apply NoDup_app in O1 as (_ & Hd & _). intros Hin. apply (Hd _ Hin). apply elem_of_cons. by left. }
  pose proof T as [T1 T2 T3 T4]. assert (requests s1 = requests s) as Hreq by by rewrite T1.
  unfold draft_effect. rewrite Hreq. destruct (od_get x.1 (requests s)) as [a|] eqn:Ea; cbn [mbind option_bind].
  2:{ split; [done| | |].
      - intros rid l a o [Hin|Hin%list_elem_of_singleton]%elem_of_app Ha; [by apply (T2 rid l)|subst x; cbn in Ea; congruence].
      - intros a Ha. apply T3. intros rid Hin. apply Ha. rewrite fmap_app, elem_of_app. by left.
      - rewrite late_rows_app. assert (late_rows producer s [x] = []) as ->; [|by rewrite app_nil_r].
        unfold late_rows, live. destruct producer; [|done]. cbn. by rewrite Ea. }
  destruct (taken_object producer pre s s1 x.1 a L T Hx Ea) as (o & Ho & Ho1). rewrite Ho1. cbn [fmap option_fmap option_map].
  set (q := match producer with Some step => if negb (so_finished o) && is_late step o then cache_row (x.1, step) x.2 (pending s1) else pending s1 | None => pending s1 end).
  set (o' := if so_finished o then o else draft_object producer x.2 o).
  assert (q = cached_after (late_rows producer s (pre ++ [x])) (pending s)) as Hq.
  { rewrite late_rows_app, (late_rows_one producer s x a o Ea Ho). unfold q. rewrite T4. destruct producer as [step|] eqn:Ep; [|by rewrite app_nil_r].
    destruct (negb (so_finished o) && is_late step o); [|by rewrite app_nil_r].
    pose proof (late_rows_length (Some step) s pre) as Hl. apply cached_step; [done| | |].
    - rewrite Hrows in O2. unfold zlen in *. rewrite length_app in O2. cbn in O2, Hl |- *. lia.
    - intros Hin. by apply (O3 step eq_refl _ Hin).
    - intros [Hin _]%late_rows_keys. done. }
  match goal with |- drafts_taken _ _ _ ?t => assert (t = set_objs (<[a := o']> (objs s1)) (with_pending q s)) as -> end.
  { unfold q, o'. destruct (so_finished o); cbn [negb andb].
    - rewrite insert_id by done. rewrite T1 at 1. f_equal. by destruct producer.
    - destruct producer as [step|]; [destruct (is_late step o)|]; rewrite T1 at 2; rewrite T1; done. }
  split; cbn [objs set_objs]; [done| | |exact Hq].
  - intros rid l b p [Hin|Hin%list_elem_of_singleton]%elem_of_app Hb Hp.
    + rewrite lookup_insert_ne; [by eapply T2|]. intros <-. destruct (lc_objs _ _ _ L rid a Hb) as (p1 & Hp1 & Hid1 & _).
      destruct (lc_objs _ _ _ L x.1 a Ea) as (p2 & Hp2 & Hid2 & _). apply Hx. replace x.1 with rid by congruence.
      change rid with (rid, l).1. by apply list_elem_of_fmap_2.
    + subst x. cbn [fst snd] in *. rewrite Ea in Hb. injection Hb as <-. rewrite Ho in Hp. injection Hp as <-. by rewrite lookup_insert_eq.
  - intros b Hb. rewrite lookup_insert_ne.
    + apply T3. intros rid Hin. apply Hb. rewrite fmap_app, elem_of_app. by left.
    + intros <-. apply (Hb x.1); [|done]. rewrite fmap_app, elem_of_app. right. apply elem_of_cons. by left.
Qed.

Lemma effect_live producer row s rid o' : live (draft_effect producer row s) rid = Some o' ->
  exists o spec step, live s rid = Some o /\ o' = so_set_spec spec step o.
Proof.
  assert (forall o : SReq, exists spec step, o = so_set_spec spec step o) as Hrefl
    by (intros o; eexists (spec_token_ids o), (spec_token_ids_step_id o); by destruct o).
  intros Hl. unfold draft_effect in Hl. destruct (od_get row.1 (requests s)) as [a|] eqn:Ea; cbn in Hl.
  2:{ destruct (Hrefl o') as (spec & step & Ho'). by exists o', spec, step. }
  destruct (objs s !! a) as [o|] eqn:Ho; cbn in Hl; [|destruct (Hrefl o') as (spec & step & Ho'); by exists o', spec, step].
  destruct (so_finished o) eqn:Ef; [destruct (Hrefl o') as (spec & step & Ho'); by exists o', spec, step|].
  destruct (draft_object_same producer row.2 o) as (spec & step & Hd). rewrite Hd in Hl.
  match type of Hl with live (set_objs _ ?t) _ = _ => assert (requests t = requests s) as Hreq by (by destruct producer as [st|]; [destruct (is_late st o)|]) end.
  unfold live in *. cbn [requests set_objs objs] in Hl. rewrite Hreq in Hl. destruct (od_get rid (requests s)) as [b|]; [|done]. cbn in Hl |- *.
  destruct (decide (b = a)) as [->|Hne].
  - rewrite lookup_insert_eq in Hl. cbn in Hl. rewrite Ho. cbn. change (so_finished (so_set_spec spec step o)) with (so_finished o) in Hl.
    rewrite Ef in *. injection Hl as <-. by exists o, spec, step.
  - rewrite lookup_insert_ne in Hl by done. destruct (Hrefl o') as (sp & st & Ho'). by exists o', sp, st.
Qed.

Lemma effect_ready ids producer row s : grammars_ready ids s -> grammars_ready ids (draft_effect producer row s).
Proof. intros Hr rid o' Hin (o & spec & step & Hl & ->)%effect_live. by apply (Hr rid o). Qed.

(** The call returns and keeps the invariant, whatever is cached. *)
Lemma drafts_lifecycle d s :
  lifecycle [] s -> 0 < max_pending_draft_token_ids cfg -> grammars_ready (draft_rows d).*1 s ->
  wp (update_draft_token_ids cfg ans validate_tokens d) (fun _ s' => lifecycle [] s') s.
Proof.
  intros L Hm Hr. unfold update_draft_token_ids.
  apply (wp_mono _ (fun _ s' => lifecycle [] s' /\ grammars_ready (draft_rows d).*1 s')); [|by intros [] s' [Hs _]].
  apply (wp_for_each (fun _ s' => lifecycle [] s' /\ grammars_ready (draft_rows d).*1 s')); [done|].
  intros pre x post s1 Hrows [L1 R1]. eapply wp_mono; [apply draft_row_spec; [done|done|]|].
  - intros o. apply R1. rewrite Hrows, fmap_app, elem_of_app. right. apply elem_of_cons. by left.
  - intros [] s2 ->. split; [by apply draft_lifecycle|by apply effect_ready].
Qed.

Lemma drafts_spec d s :
  lifecycle [] s -> drafts_ok d s ->
  wp (update_draft_token_ids cfg ans validate_tokens d) (fun _ s' => drafts_taken (producer_step_id d) (draft_rows d) s s' /\ lifecycle [] s') s.
Proof.
  intros L Hok. unfold update_draft_token_ids.
  apply (wp_for_each (fun pre s' => drafts_taken (producer_step_id d) pre s s' /\ lifecycle [] s')).
  - split; [|done]. split; try done; [by destruct s as [? ? ? ? ? ? []]|by intros ???? ?%elem_of_nil|]. destruct Hok as [_ [_ Hq] _ _].
    unfold cached_after, zlen in *. destruct (producer_step_id d); cbn; rewrite app_nil_r; by replace (_ - _)%nat with 0%nat by lia.
  - intros pre x post s1 Hrows [T L1]. pose proof Hok as [O1 [O2 _] _ O4]. eapply wp_mono; [apply draft_row_spec; [done| |]|].
    + rewrite Hrows in O2. unfold zlen in O2. rewrite length_app in O2. cbn in O2. lia.
    + intros o Hl. assert (x.1 ∈ (draft_rows d).*1) as Hx by (rewrite Hrows, fmap_app, elem_of_app; right; apply elem_of_cons; by left).
      assert (x.1 ∉ pre.*1) as Hn.
      { rewrite Hrows, fmap_app in O1. apply NoDup_app in O1 as (_ & Hd & _). intros Hin. apply (Hd _ Hin), elem_of_cons. by left. }
      apply (O4 x.1 o Hx). unfold live in *. rewrite (dt_state _ _ _ _ T) in Hl. cbn [requests set_objs objs set_sets with_pending] in Hl.
      destruct (od_get x.1 (requests s)) as [a|] eqn:Ea; [|done]. cbn in *.
      destruct (taken_object _ pre s s1 x.1 a L T Hn Ea) as (p & Hp & Hp1). rewrite Hp1 in Hl. by rewrite Hp.
    + intros [] s2 ->. split; [by apply (taken_step d pre x post)|by apply draft_lifecycle].
Qed.

(** Drafts of a step and the output's placeholders: only the cache changes. *)
Lemma output_drafts_lifecycle d out s :
  lifecycle [] s -> grammars_ready (rows_named d out) s ->
  wp (update_draft_token_ids_in_output ans validate_tokens d out) (fun _ s' => lifecycle [] s') s.
Proof.
  intros L Hr. assert (forall provided acc l, grammars_ready l.*1 s ->
    wp (fold_m (bind_row ans validate_tokens provided) acc l) (fun _ s' => lifecycle [] s') s) as Hb.
  { intros provided acc l Hl. apply (wp_mono _ (fun _ s' => exists x, s' = set_sets x s)); [|by intros b s' [q ->]; apply lifecycle_sets].
    apply (wp_fold_m (fun _ _ s' => exists x, s' = set_sets x s)); [by exists (sets s); destruct s|].
    intros pre x post acc' s1 -> [y ->]. eapply wp_mono; [apply bind_spec; [by apply lifecycle_sets|]|intros acc'' s2 [_ ->]; by eexists].
    intros o. apply (Hl x.1). rewrite fmap_app, elem_of_app. right. apply elem_of_cons. by left. }
  unfold update_draft_token_ids_in_output. destruct d as [[ids toks [step|]]|]; apply wp_bind.
  2:{ eapply wp_mono; [by apply fill_rows_spec|]. intros acc s' [_ ->]. by apply wp_ret. }
  all: eapply wp_mono; [by apply Hb|]; intros acc s' L'; by apply wp_ret.
Qed.

End Calls.
