(* ===== verification/SchedulerSteps.v ===== *)
(** * Every reachable state of the scheduler

    The scheduler as a transition system: its initial state, the calls the
    engine core makes, what a caller owes ([allowed]), and the states reached by
    them.  The invariant of the request lifecycle holds of all of them, and no
    allowed call raises but a forced reset that finds blocks in use.  With it
    come the meaning of the counts the engine core polls and the shape of the
    lists in a step's output. *)
From Stdlib Require Import ZArith Lia.
From stdpp Require Import base tactics gmap strings numbers option list.
From S2P Require Import Prelude Blocks Request Hashing Env SchedUtils RequestQueue KVCacheManager OrderedDict SchedEncoder SchedChunk SchedRequest SchedIface Scheduler SchedulerInv SchedulerOps SchedulerPreempt SchedulePass ScheduleInv ScheduleRun ScheduleWait ScheduleAdmit ScheduleLoop Schedule ScheduleSpec SchedUpdate SchedUpdateInv SchedDeliver SchedUpdateLoop SchedUpdateSpec SchedDrafts SchedDraftsSpec.

Local Open Scope Z_scope.

(** ** The initial state *)

Definition sched_sets_init (include_finished_set : bool) : SchedSets :=
  mkSets ∅ ∅ (if include_finished_set then Some ∅ else None) ∅ ∅ ∅ ∅ ∅ ∅ [] ∅.

(** [Scheduler.__init__], given the components it creates. *)
Definition sched_init {K E C X} (cfg : SchedConfig) (include_finished_set : bool) (k : K) (e : E) (c : option C) (x : option X)
    : Scheduler K E C X :=
  mkScheduler ∅ [] [] (create_request_queue (sc_policy cfg)) (create_request_queue (sc_policy cfg)) 0
    (sched_sets_init include_finished_set) k e c x UNPAUSED 0 false None.

Section Steps.
Context `{Env} {K E C X : Type} (cfg : SchedConfig) (cfg_ok : config_ok cfg).
Context `{KVAdmitLaws (sc_block_size cfg) K} `{!KVStep K} `{!KVStepLaws K}.
Context `{EncoderScheduleLaws E} `{!EncoderStep E} `{!EncoderStepLaws E}.
Context `{ConnectorScheduleLaws C} `{!ConnectorStep C} `{!ConnectorStepLaws C} `{ECScheduleLaws X} `{!ECStep X} `{!ECStepLaws X}.
Context `{!KVUpdate K} `{!KVUpdateLaws K} `{!EncoderUpdateLaws E} `{!ConnectorUpdate C} `{!ConnectorUpdateLaws C} `{!ECUpdate X} `{!ECUpdateLaws X}.
Context (block_size_pos : 0 < sc_block_size cfg) (no_loras : max_loras cfg = None).
Context (lookup_covers : forall l, dynamic_sd_lookup cfg = Some l -> max_num_running_reqs cfg < zlen l).
Context (block_hasher : option (M Request (list BlockHash))).
Context (hasher_total : forall h, block_hasher = Some h -> forall r, wp h (fun _ r' => same_but_memo r r') r).
Local Abbreviation Sched := (Scheduler K E C X).
Local Abbreviation lifecycle := (lifecycle cfg).
Implicit Types s : Sched.

(** A fresh system: nothing is held for any request. *)
Record fresh_parts (k : K) (e : E) (c : option C) (x : option X) : Prop := {
  fp_kv : kv_wf k /\ forall rid, ~ kv_holds k rid;
  fp_enc : en_wf e /\ forall rid, ~ en_holds e rid;
  fp_conn : forall c0, c = Some c0 -> cn_wf c0 /\ (cn_supports_hma (C := C) = true \/ num_groups cfg = 1);
  fp_ec : forall x0, x = Some x0 -> ec_wf x0
}.

Lemma members_create p : members (create_request_queue p) = [].
Proof. by destruct p. Qed.

Lemma init_lifecycle inc k e c x : fresh_parts k e c x -> lifecycle [] (sched_init cfg inc k e c x).
Proof.
  intros [[K1 K2] [E1 E2] F3 F4]. assert (queued (sched_init cfg inc k e c x) = []) as Hq.
  { unfold queued. cbn -[create_request_queue members]. by rewrite members_create. }
  split; rewrite ?Hq; cbn -[create_request_queue members]; rewrite ?members_create; try done; try (by intros a o ?%elem_of_nil).
  - constructor.
  - constructor.
  - intros a. rewrite elem_of_nil. unfold tracked. cbn. naive_solver.
  - intros rid Hr. by apply K2 in Hr.
  - intros rid Hr. by apply E2 in Hr.
Qed.

(** ** The calls of the engine core *)

Inductive event :=
| EvRequest (a : Z) (o : SReq)            (** a [Request] is built *)
| EvAdd (a : Z)                           (** [add_request] *)
| EvFinish (t : FinishTarget) (st : RequestStatus) (** [finish_requests] *)
| EvPause (p : PauseState)                (** [set_pause_state] *)
| EvReset (rr rc : bool)                  (** [reset_prefix_cache] *)
| EvXfer (out : KVConnectorOutput)        (** [_update_from_kv_xfer_finished] *)
| EvSchedule (throttle : bool)            (** [schedule] *)
| EvUpdate (out : SchedulerOutput) (mro : ModelRunnerOutput) (ans : StructuredAnswers) (** [update_from_output] *)
| EvDrafts (ans : StructuredAnswers) (validate : SReq -> list Z -> list Z) (d : DraftTokenIds) (** [update_draft_token_ids] *)
| EvOutputDrafts (ans : StructuredAnswers) (validate : SReq -> list Z -> list Z) (d : option DraftTokenIds)
    (out : SchedulerOutput).              (** [update_draft_token_ids_in_output] *)

Definition run_event (ev : event) : M Sched unit :=
  match ev with
  | EvRequest a o => modify (fun s => set_objs (<[a := o]> (objs s)) s)
  | EvAdd a => sched_add_request cfg block_hasher a
  | EvFinish t st => finish_requests cfg t st ;; mret tt
  | EvPause p => set_pause_state p
  | EvReset rr rc => sched_reset_prefix_cache rr rc ;; mret tt
  | EvXfer out => update_from_kv_xfer_finished out
  | EvSchedule throttle => schedule cfg throttle ;; mret tt
  | EvUpdate out mro ans => update_from_output cfg block_hasher out mro ans ;; mret tt
  | EvDrafts ans validate d => update_draft_token_ids cfg ans validate d
  | EvOutputDrafts ans validate d out => update_draft_token_ids_in_output ans validate d out ;; mret tt
  end.

(** What a step needs beside the invariant. *)
Record step_ready (s : Sched) : Prop := {
  sy_running : forall a o, a ∈ running s -> objs s !! a = Some o -> runnable cfg s o;
  sy_waiting : waiting_ready s;
  sy_len : zlen (running s) <= max_num_running_reqs cfg
}.

Lemma ready_schedulable s : lifecycle [] s -> step_ready s -> schedulable cfg s.
Proof. intros L [R W N]. by split. Qed.

(** What the caller owes. *)
Definition allowed (ev : event) (s : Sched) : Prop :=
  match ev with
  | EvRequest a _ => objs s !! a = None
  | EvAdd a => exists o, objs s !! a = Some o /\ arrival_ok s a o
  | EvFinish _ st => is_finished st = true
  | EvPause _ | EvReset _ _ => True
  | EvXfer out => sent_finished s (finished_sending out)
  | EvSchedule _ => step_ready s
  | EvUpdate out mro ans => update_ok cfg out mro ans s
  | EvDrafts ans _ d => answers_ok ans /\ 0 < max_pending_draft_token_ids cfg /\ grammars_ready (draft_rows d).*1 s
  | EvOutputDrafts ans _ d out => answers_ok ans /\ grammars_ready (rows_named d out) s
  end.

(** The state after a call, whether it returned or raised. *)
Definition event_result (ev : event) (s s' : Sched) : Prop :=
  run_event ev s = Ok tt s' \/ exists e, run_event ev s = Raise e s'.

Inductive reachable : Sched -> Prop :=
| reach_init inc k e c x : fresh_parts k e c x -> reachable (sched_init cfg inc k e c x)
| reach_step s ev s' : reachable s -> allowed ev s -> event_result ev s s' -> reachable s'.

(** A new object is not tracked. *)
Lemma lifecycle_new_object s a o : lifecycle [] s -> objs s !! a = None -> lifecycle [] (set_objs (<[a := o]> (objs s)) s).
Proof.
  intros L Hn. pose proof L as [L1 L2 L3 L4 L5 L6 L7 L8 L9 L10 L11].
  assert (forall b p, b ∈ queued s -> objs (set_objs (<[a := o]> (objs s)) s) !! b = Some p -> objs s !! b = Some p) as Hq.
  { intros b p (_ & p' & [Hp _] & _)%L4. cbn. by rewrite lookup_insert_ne by congruence. }
  assert (forall b p, tracked (set_objs (<[a := o]> (objs s)) s) b p <-> tracked s b p) as Ht.
  { intros b p. unfold tracked. cbn. destruct (decide (b = a)) as [->|Hb]; [|by rewrite lookup_insert_ne].
    rewrite lookup_insert_eq. split; [|by intros [? _]; congruence].
    intros [_ Hg]. destruct (L2 _ _ Hg) as (q & Hq' & _). congruence. }
  split; try done.
  - intros rid b Hg. destruct (L2 rid b Hg) as (p & Hp & Hx). exists p. cbn. by rewrite lookup_insert_ne by congruence.
  - intros b. change (queued (set_objs _ s)) with (queued s). rewrite L4. by setoid_rewrite Ht.
  - intros b p Hb Hp. apply (L5 b p Hb), Hq; [|done]. unfold queued. rewrite !elem_of_app. tauto.
  - intros b p Hb Hp. apply (L6 b p Hb), Hq; [|done]. unfold queued. rewrite !elem_of_app. tauto.
  - intros b p Hb Hp. apply (L7 b p Hb), Hq; [|done]. unfold queued. rewrite !elem_of_app. tauto.
  - change (queued (set_objs _ s)) with (queued s). rewrite (num_streaming_ext (objs s)); [done|].
    intros b (_ & p & [Hp _] & _)%L4. cbn. by rewrite lookup_insert_ne by congruence.
  - intros rid Hr. destruct (L10 rid Hr) as (b & p & Hb & Hx). exists b, p. by rewrite Ht.
  - by destruct L11.
Qed.

(** The one way an allowed call may raise. *)
Definition may_raise (ev : event) (e : exn) : Prop :=
  match ev with EvReset true _ => e = RuntimeError | _ => False end.

Lemma event_spec ev s :
  lifecycle [] s -> allowed ev s ->
  wpe (run_event ev) (fun _ s' => lifecycle [] s') (fun e s' => may_raise ev e /\ lifecycle [] s') s.
Proof.
  intros L Ha. destruct ev as [a o|a|t st|p|rr rc|out|throttle|out mro ans|ans validate d|ans validate d out]; cbn [run_event allowed] in *.
  - by apply wpe_wp, wp_modify, lifecycle_new_object.
  - destruct Ha as (o & Ho & Har). apply wpe_wp. by eapply add_request_spec.
  - apply wpe_wp, wp_bind. eapply wp_mono; [by apply finish_requests_spec|]. intros l s' (L' & _). by apply wp_ret.
  - by apply wpe_wp, wp_modify, lifecycle_pause.
  - pose proof (sched_reset_spec cfg rr rc s L) as Hw. unfold wpe in *. unfold mbind, M_bind.
    destruct (sched_reset_prefix_cache rr rc s) as [b s'|e s']; cbn; [apply Hw|]. destruct Hw as (-> & -> & [L' _]). by split.
  - apply wpe_wp. eapply wp_mono; [by apply (xfer_finished_spec cfg)|]. intros [] s' Hs. apply Hs.
  - apply wpe_wp, wp_bind. eapply wp_mono; [by apply (schedule_spec cfg cfg_ok block_size_pos no_loras lookup_covers throttle s), ready_schedulable|].
    intros out s' Hs. apply wp_ret, Hs.
  - apply wpe_wp, wp_bind. eapply wp_mono; [by apply (update_spec cfg block_hasher hasher_total out mro ans s)|].
    intros ecos s' Hs. apply wp_ret, Hs.
  - destruct Ha as (Ha & Hm & Hr). by apply wpe_wp, drafts_lifecycle.
  - destruct Ha as [Ha Hr]. apply wpe_wp, wp_bind. eapply wp_mono; [by apply (output_drafts_lifecycle cfg)|]. intros out' s' L'. by apply wp_ret.
Qed.

Lemma reachable_inv s : reachable s -> lifecycle [] s.
Proof.
  induction 1 as [inc k e c x Hf|s ev s' _ L Ha Hs]; [by apply init_lifecycle|].
  pose proof (event_spec ev s L Ha) as Hw. unfold wpe in Hw. destruct Hs as [Hs|[e Hs]]; rewrite Hs in Hw; [done|apply Hw].
Qed.

(** ** What the counts mean *)

Definition is_obj (P : SReq -> bool) (s : Sched) (a : Z) : bool :=
  match objs s !! a with Some o => P o | None => false end.
(** The tracked requests that satisfy [P]. *)
Definition tracked_with (P : SReq -> bool) (s : Sched) : list (string * Z) :=
  filter (fun kv => is_obj P s kv.2) (requests s).

(** A request that is neither finished nor a session without input. *)
Definition awaits_work (o : SReq) : bool :=
  negb (so_finished o) && negb (bool_decide (so_status o = WAITING_FOR_STREAMING_REQ)).
Definition is_running (o : SReq) : bool := bool_decide (so_status o = RUNNING).

Lemma od_pair_get {V} (d : list (string * V)) k v : NoDup d.*1 -> (k, v) ∈ d <-> od_get k d = Some v.
Proof. split; [by apply od_elem_get|apply od_get_elem]. Qed.

Lemma tracked_perm s P :
  lifecycle [] s -> (forall o, P o = true -> so_finished o = false) ->
  (tracked_with P s).*2 ≡ₚ filter (is_obj P s) (queued s).
Proof.
  intros L HP. pose proof L as [L1 L2 L3 L4 L5 L6 L7 L8 L9 L10 L11]. apply NoDup_Permutation.
  - unfold tracked_with. apply NoDup_fmap_2_strong; [|apply NoDup_filter; by apply NoDup_fmap_1 in L1].
    intros [r1 a1] [r2 a2] [_ A1]%list_elem_of_filter [_ A2]%list_elem_of_filter Heq. cbn in Heq. subst a2.
    apply (od_pair_get _ _ _ L1) in A1. apply (od_pair_get _ _ _ L1) in A2. destruct (L2 _ _ A1) as (o1 & O1 & I1 & _), (L2 _ _ A2) as (o2 & O2 & I2 & _). congruence.
  - by apply NoDup_filter.
  - intros a. unfold tracked_with. rewrite list_elem_of_filter, L4. split.
    + intros ([rid b] & Hb & [Hp Hin]%list_elem_of_filter)%list_elem_of_fmap. cbn in Hb, Hp. subst b.
      apply (od_pair_get _ _ _ L1) in Hin. destruct (L2 _ _ Hin) as (o & Ho & <- & _). split; [done|]. split; [apply not_elem_of_nil|].
      exists o. split; [done|]. apply HP. unfold is_obj in Hp. rewrite Ho in Hp. by destruct (P o).
    + intros [Hp (_ & o & [Ho Hg] & _)]. apply list_elem_of_fmap. exists (so_id o, a). split; [done|]. apply list_elem_of_filter. split; [done|].
      by apply od_pair_get.
Qed.

Lemma tracked_count s P :
  lifecycle [] s -> (forall o, P o = true -> so_finished o = false) ->
  zlen (tracked_with P s) = zlen (filter (is_obj P s) (queued s)).
Proof. intros L HP. pose proof (tracked_perm s P L HP) as Hp. unfold zlen. by rewrite <- Hp, length_fmap. Qed.

Lemma filter_count (f g : Z -> bool) (l : list Z) :
  (forall a, a ∈ l -> f a = negb (g a)) -> zlen (filter f l) = zlen l - zlen (filter g l).
Proof.
  induction l as [|a l IH]; intros Hfg; [done|]. assert (forall b, b ∈ l -> f b = negb (g b)) as Hl by (intros b Hb; apply Hfg; by right).
  specialize (IH Hl). pose proof (Hfg a ltac:(by left)) as Ha. rewrite zlen_cons. destruct (g a) eqn:Eg; cbn in Ha.
  - rewrite filter_cons_False, (filter_cons_True g) by (rewrite ?Ha, ?Eg; first [exact I|exact (fun x => x)]). rewrite zlen_cons. lia.
  - rewrite filter_cons_True, (filter_cons_False g) by (rewrite ?Ha, ?Eg; first [exact I|exact (fun x => x)]). rewrite zlen_cons. lia.
Qed.

(** The running list holds the requests with status [RUNNING]. *)
Lemma running_filter s : lifecycle [] s -> zlen (filter (is_obj is_running s) (queued s)) = zlen (running s).
Proof.
  intros [L1 L2 L3 L4 L5 L6 L7 L8 L9 L10 L11].
  rewrite (filter_count _ (fun a => bool_decide (a ∉ running s))).
  - unfold queued. rewrite filter_app. apply NoDup_app in L3 as (_ & Hd & _).
    assert (forall l : list Z, (forall a, a ∈ l -> a ∈ running s) -> filter (fun a : Z => bool_decide (a ∉ running s)) l = []) as Hnone.
    { induction l as [|a l IH]; intros Hl; [done|]. rewrite filter_cons_False; [apply IH; intros b Hb; apply Hl; by right|].
      rewrite bool_decide_spec. intros Hx. apply Hx, Hl. by left. }
    assert (forall l : list Z, (forall a, a ∈ l -> a ∉ running s) -> filter (fun a : Z => bool_decide (a ∉ running s)) l = l) as Hall.
    { induction l as [|a l IH]; intros Hl; [done|]. rewrite filter_cons_True; [f_equal; apply IH; intros b Hb; apply Hl; by right|].
      rewrite bool_decide_spec. apply Hl. by left. }
    rewrite Hnone, Hall by (done || (intros a Ha Hr; by apply (Hd a))). cbn. rewrite zlen_app. lia.
  - intros a Ha. pose proof Ha as (_ & o & [Ho _] & _)%L4. unfold is_obj, is_running. rewrite Ho.
    destruct (decide (a ∈ running s)) as [Hr|Hr].
    + rewrite bool_decide_eq_true_2 by by apply (L5 a). by rewrite bool_decide_eq_false_2 by tauto.
    + rewrite (bool_decide_eq_true_2 (a ∉ running s)) by done. apply bool_decide_eq_false. intros Hst. unfold queued in Ha. rewrite !elem_of_app in Ha.
      destruct Ha as [Ha|[Ha|Ha]]; [done| |].
      * by destruct (L6 a o Ha Ho) as [Hw|Hw]; rewrite Hst in Hw.
      * destruct (L7 a o Ha Ho) as [[Hw|Hw]|Hw]; rewrite Hst in Hw; done.
Qed.

Lemma unfinished_spec s :
  lifecycle [] s ->
  get_num_unfinished_requests s =
    match pause_state s with
    | UNPAUSED => zlen (tracked_with awaits_work s)
    | PAUSED_NEW => zlen (tracked_with is_running s)
    | PAUSED_ALL => 0
    end.
Proof.
  intros L. pose proof L as [L1 L2 L3 L4 L5 L6 L7 L8 L9 L10 L11]. unfold get_num_unfinished_requests. destruct (pause_state s); [| |done].
  - rewrite tracked_count; [|done|]. 2:{ intros o. unfold awaits_work. by destruct (so_finished o). }
    rewrite (filter_count (is_obj awaits_work s) (streaming (objs s)) (queued s)).
    + rewrite L8. unfold num_streaming, queued, wq_len. rewrite !zlen_app. lia.
    + intros a (_ & o & [Ho _] & Hf)%L4. unfold is_obj, streaming, awaits_work. rewrite Ho, Hf. done.
  - rewrite tracked_count, running_filter; [done|done|done|]. intros o. unfold is_running, so_finished. by destruct (so_status o).
Qed.

(** ** The shape of the output *)

(** What holds of every result. *)
Definition returns {S A} (m : M S A) (P : A -> Prop) : Prop := forall (t : S) a (t' : S), m t = Ok a t' -> P a.

Lemma returns_bind {S A B} (m : M S A) (f : A -> M S B) P : (forall a, returns (f a) P) -> returns (m ≫= f) P.
Proof. intros Hf t b t' Hr. unfold mbind, M_bind in Hr. destruct (m t) as [a t1|] eqn:Em; [|done]. by eapply Hf. Qed.
Lemma returns_bind_with {S A B} (m : M S A) (f : A -> M S B) (R : A -> Prop) P :
  returns m R -> (forall a, R a -> returns (f a) P) -> returns (m ≫= f) P.
Proof. intros Hm Hf t b t' Hr. unfold mbind, M_bind in Hr. destruct (m t) as [a t1|] eqn:Em; [|done]. eapply (Hf a); [by eapply Hm|done]. Qed.
Lemma returns_ret {S A} (a : A) (P : A -> Prop) : P a -> returns (S := S) (mret a) P.
Proof. by intros Ha t b t' [= <- _]. Qed.
Lemma returns_fold {S A B} (f : B -> A -> M S B) (P : B -> Prop) l : forall b,
  P b -> (forall b x, P b -> returns (f b x) P) -> returns (fold_m f b l) P.
Proof.
  induction l as [|x l IH]; intros b Hb Hf; cbn [fold_m]; [by apply returns_ret|].
  apply (returns_bind_with _ _ P); [by apply Hf|]. intros b' Hb'. by apply IH.
Qed.
(** The parallel lists of [CachedRequestData] have one entry for each request;
    token ids are sent only to later pipeline stages. *)
Record cached_aligned (d : CachedRequestData) : Prop := {
  ca_blocks : length (cr_new_block_ids d) = length (cr_req_ids d);
  ca_computed : length (cr_num_computed_tokens d) = length (cr_req_ids d);
  ca_output : length (cr_num_output_tokens d) = length (cr_req_ids d);
  ca_tokens : length (cr_new_token_ids d) = if (1 <? pp_size cfg) && negb (async_scheduler cfg) then length (cr_req_ids d) else 0%nat;
  ca_resumed : forall rid, rid ∈ cr_resumed_req_ids d -> rid ∈ cr_req_ids d;
  ca_all : forall rid, rid ∈ (cr_all_token_ids d).*1 -> rid ∈ cr_req_ids d
}.

Lemma cache_request_aligned p resumed d a : cached_aligned d -> returns (cache_request (K := K) (E := E) (C := C) (X := X) cfg p resumed d a) cached_aligned.
Proof.
  intros [D1 D2 D3 D4 D5 D6]. unfold cache_request. apply returns_bind. intros o. cbv zeta.
  apply (returns_bind_with _ _ (fun l : list (list Z) => length l = if (1 <? pp_size cfg) && negb (async_scheduler cfg) then 1%nat else 0%nat)).
  { destruct (_ && _); [apply returns_bind; intros n|]; by apply returns_ret. }
  intros tokens Ht. apply returns_bind. intros s. apply returns_bind. intros b. apply returns_ret.
  split; cbn; rewrite ?length_app; cbn; try congruence.
  - rewrite D4, Ht. destruct (_ && _); lia.
  - intros rid. rewrite elem_of_app. destruct resumed; [|intros Hr; left; by apply D5].
    rewrite elem_of_union, elem_of_singleton. intros [->|Hr]; [right; by left|left; by apply D5].
  - intros rid. rewrite elem_of_app. destruct (negb (use_v2_model_runner cfg) && _); [|intros Hr; left; by apply D6].
    intros Hr. destruct (decide (rid = so_id o)) as [->|Hne]; [right; by left|]. left. apply D6.
    destruct (od_get rid (cr_all_token_ids d)) as [v|] eqn:Eg; [by apply (od_get_key rid v)|].
    exfalso. revert Hr. apply od_get_None. by rewrite od_get_set, decide_False.
Qed.

(** Every request of the output has one place. *)
Definition output_aligned (out : SchedulerOutput) : Prop :=
  cached_aligned (out_cached_reqs out) /\ out_total out = total_tokens (out_num_scheduled_tokens out) /\
  (use_v2_model_runner cfg = true -> cr_resumed_req_ids (out_cached_reqs out) = ∅).

Lemma make_cached_aligned p run res : returns (make_cached_request_data (K := K) (E := E) (C := C) (X := X) cfg p run res)
  (fun d => cached_aligned d /\ (res = [] -> cr_resumed_req_ids d = ∅)).
Proof.
  unfold make_cached_request_data.
  apply (returns_bind_with _ _ (fun d => cached_aligned d /\ cr_resumed_req_ids d = ∅)).
  - apply returns_fold; [|].
    + split; [|done]. split; cbn; try done. by destruct (_ && _).
    + intros d a [D1 D2] s d' s' Hr. split; [by eapply cache_request_aligned|]. revert s d' s' Hr. change (returns (cache_request (K := K) (E := E) (C := C) (X := X) cfg p false d a) (fun d => cr_resumed_req_ids d = ∅)).
      unfold cache_request. apply returns_bind. intros o. apply returns_bind. intros t. apply returns_bind. intros s. apply returns_bind. intros b. by apply returns_ret.
  - intros d [D1 D2]. destruct res as [|a res]; [by apply returns_ret|]. intros s d' s' Hr. split; [|done].
    revert s d' s' Hr. change (returns (fold_m (cache_request (K := K) (E := E) (C := C) (X := X) cfg p true) d (a :: res)) cached_aligned).
    apply returns_fold; [done|]. intros d0 x Hd. by apply cache_request_aligned.
Qed.

Lemma build_aligned p : returns (build_output (K := K) (E := E) (C := C) (X := X) cfg p) output_aligned.
Proof.
  unfold build_output. apply returns_bind. intros s0. apply returns_bind. intros common.
  destruct (if use_v2_model_runner cfg then _ else _) as [new_reqs resumed_reqs] eqn:Ev.
  apply returns_bind. intros nd. eapply returns_bind_with; [apply make_cached_aligned|]. intros d [Hd Hres].
  do 7 (apply returns_bind; intros ?). apply returns_ret. split_and!; [done| |].
  - cbn. unfold total_tokens. done.
  - intros Hv. rewrite Hv in Ev. injection Ev as <- <-. by apply Hres.
Qed.

Lemma schedule_aligned throttle : returns (schedule (K := K) (E := E) (C := C) (X := X) cfg throttle) output_aligned.
Proof.
  unfold schedule. apply returns_bind. intros _. unfold schedule_base. apply returns_bind. intros [defer p]. do 4 (apply returns_bind; intros ?).
  apply returns_bind. intros _. eapply returns_bind_with; [apply build_aligned|]. intros out Hout. do 3 (apply returns_bind; intros _).
  unfold update_after_schedule, after_schedule_base. eapply (returns_bind_with _ _ output_aligned).
  - apply returns_bind. intros f. apply returns_bind. intros _. by apply returns_ret.
  - intros out' Ho. destruct (async_scheduler cfg); [|by apply returns_ret]. apply returns_bind. intros f. by apply returns_ret.
Qed.

End Steps.
