(* ===== verification/SchedServices.v ===== *)
(** * The scheduler's services

    The components of this development behind the interfaces the scheduler is
    written against: the KV cache manager with the fence of deferred releases,
    and the two encoder caches.  Without Mamba groups
    [get_computed_blocks_for_connector] is [get_computed_blocks], no boundary
    states are offered and [new_step_starts] does nothing; requests have the
    default [kv_cache_report_mode]. *)
From Stdlib Require Import ZArith Lia.
From stdpp Require Import base tactics gmap strings numbers option list.
From S2P Require Import Prelude Blocks Request Hashing BlockMap Env BlockPool Managers Coordinator KVCacheManager EncoderCache DeferredFree OrderedDict RequestQueue SchedChunk SchedEncoder SchedRequest SchedIface SchedulePass Schedule SchedUpdate.

Local Open Scope Z_scope.

Section Services.
Context `{Env}.

(** A call of the manager beside a request. *)
Definition on_fence_request {A} (c : M KRState A) : M (FenceState * Request) A :=
  zoom (fun t => (fn_kv_cache_manager t.1, t.2)) (fun kr t => (fn_set_km kr.1 t.1, kr.2)) c.

(** A query of the manager that may raise. *)
Definition ask_fence {A} (q : KVCacheManager -> exn + A) : M FenceState A := fun s =>
  match q (fn_kv_cache_manager s) with inl e => Raise e s | inr a => Ok a s end.

#[export] Instance fence_kv_service : KVService FenceState := {
  kv_free_request_blocks := free_request_blocks;
  kv_free r := on_fkm (km_free r);
  kv_cache_blocks n := on_fence_request (km_cache_blocks n);
  kv_record_blocks_for_zeroing rid n := on_fkm (record_blocks_for_zeroing rid n);
  kv_reset_prefix_cache := on_fkm km_reset_prefix_cache;
  kv_remove_skipped_blocks rid processed prompt := on_fkm (km_remove_skipped_blocks rid processed (Some prompt));
  kv_finalize_partial_tail_offloads r := mret [];
  kv_block_ids_for_computed_tokens rid n s := get_block_ids_for_computed_tokens rid n (fn_kv_cache_manager s);
  kv_defer_block_free := defer_block_free;
  kv_sched_step_seq := sched_step_seq
}.

(** [_request_remaining_blocks], after its first line. *)
Definition remaining_blocks (rid : string) (full_num_tokens num_computed : Z) : M KVCacheManager Z :=
  k ← get;
  on_coord (co_get_num_blocks_to_allocate rid full_num_tokens (kb_blocks (empty_kv_cache_blocks (km_cfg k))) 0
              num_computed num_computed true).

#[export] Instance fence_kv_scheduling : KVScheduling FenceState := {
  kv_new_step_starts := mret tt;
  kv_recycle_sliding_windows r := on_fkm (recycle_sliding_windows r);
  kv_allocate_slots n local b la ext delay enc full reserved has :=
    on_fence_request (allocate_slots n local b la ext delay enc full reserved has);
  kv_get_computed_blocks := on_fence_request (get_computed_blocks false);
  kv_get_computed_blocks_for_connector :=
    '(b, n, boundary) ← on_fence_request (get_computed_blocks false); mret (b, n, boundary, false);
  kv_truncate_computed_blocks b n := ask_fence (truncate_computed_blocks b n);
  kv_empty_kv_cache_blocks s := empty_kv_cache_blocks (km_cfg (fn_kv_cache_manager s));
  kv_get_blocks rid s := km_get_blocks rid (fn_kv_cache_manager s);
  kv_record_prefix_cache_stats r n := on_fkm (record_prefix_cache_stats r n);
  kv_get_zeroing_block_ids_in_range rid a b := on_fkm (get_zeroing_block_ids_in_range rid a b);
  kv_remaining_blocks rid n c := on_fkm (remaining_blocks rid n c);
  kv_take_new_block_ids := on_fkm km_take_new_block_ids;
  kv_hand_over_copies := hand_over_copies;
  kv_advance_sched_seq := advance_sched_seq;
  kv_process_step := process_step
}.

#[export] Instance fence_kv_step : KVStep FenceState := {
  kv_get_num_common_prefix_blocks rid := on_fkm (km_get_num_common_prefix_blocks rid);
  kv_block_ids b allow_none s := kb_get_block_ids (block_pool (fn_kv_cache_manager s)) b allow_none;
  kv_take_boundary_state_offloads := mret tt
}.

#[export] Instance fence_kv_update : KVUpdate FenceState := {
  kv_get_block_ids rid s := km_get_block_ids rid (fn_kv_cache_manager s);
  kv_evict_blocks ids := on_fkm (km_evict_blocks ids);
  kv_take_events := on_fkm km_take_events ;; mret tt
}.

#[export] Instance encoder_service : EncoderService EncoderCacheManager := {
  en_free := encoder_free;
  en_cached_input_ids := get_cached_input_ids;
  en_free_input := free_encoder_input
}.
#[export] Instance encoder_step : EncoderStep EncoderCacheManager := get_freed_mm_hashes.

#[export] Instance encdec_service : EncoderService EncoderDecoderCacheManager := {
  en_free := ed_free;
  en_cached_input_ids r _ := ed_get_cached_input_ids r;
  en_free_input := ed_free_encoder_input
}.
#[export] Instance encdec_step : EncoderStep EncoderDecoderCacheManager := ed_get_freed_mm_hashes.

End Services.
