(* ===== verification/EncoderLaws.v ===== *)
(** * The encoder cache serves the scheduler

    The laws of the encoder cache that the scheduler's theorems assume hold of
    [EncoderCacheManager], for requests whose features are the ones the cache
    accounts for their id. *)
From Stdlib Require Import ZArith Lia.
From stdpp Require Import base tactics gmap strings numbers option list.
From S2P Require Import Prelude Blocks Request Hashing Env OrderedDict EncoderCache EncoderCacheSpec RequestQueue SchedUtils SchedChunk SchedEncoder SchedRequest SchedIface Scheduler SchedulerInv SchedulePass ScheduleInv Schedule ScheduleSpec SchedUpdate SchedUpdateInv SchedServices.

Local Open Scope Z_scope.

Section Laws.
Context `{Env} (size_of : string -> Z) (size_nonneg : forall h, 0 <= size_of h).
Context (features : string -> list MultiModalFeatureSpec).
Context (features_size : forall rid f, f ∈ features rid -> get_num_embeds (mm_position f) = size_of (identifier f)).
Local Abbreviation wf := (encoder_wf size_of features).

(** ** Calls for one request *)

(** A call that returns changes the inputs cached for no other id. *)
Definition local_to {A} (rid : string) (c : M EncoderCacheManager A) : Prop :=
  forall m a m', c m = Ok a m' -> forall q, q <> rid -> ids_of m' q = ids_of m q.

Lemma local_ret {A} rid (a : A) : local_to rid (mret a).
Proof. intros m b m' [= _ <-]. done. Qed.
Lemma local_raise {A} rid e : local_to (A := A) rid (raise e).
Proof. by intros m a m' Hr. Qed.
Lemma local_get rid : local_to rid get.
Proof. by intros m a m' [= _ <-]. Qed.
Lemma local_gets {A} rid (f : EncoderCacheManager -> A) : local_to rid (gets f).
Proof. by intros m a m' [= _ <-]. Qed.
Lemma local_bind {A B} rid (c : M EncoderCacheManager A) (f : A -> M EncoderCacheManager B) :
  local_to rid c -> (forall a, local_to rid (f a)) -> local_to rid (c ≫= f).
Proof.
  intros Hc Hf m b m' Hr q Hq. unfold mbind, M_bind in Hr. destruct (c m) as [a m1|] eqn:Ec; [|done].
  by rewrite (Hf a m1 b m' Hr q Hq), (Hc m a m1 Ec q Hq).
Qed.
Lemma local_option {A} rid e (o : option A) : local_to rid (of_option e o).
Proof. destruct o; [apply local_ret|apply local_raise]. Qed.
Lemma local_assert rid b : local_to rid (assert_ b).
Proof. destruct b; [apply local_ret|apply local_raise]. Qed.
Lemma local_modify rid f : (forall m q, q <> rid -> ids_of (f m) q = ids_of m q) -> local_to rid (modify f).
Proof. intros Hf m [] m' [= <-] q Hq. by apply Hf. Qed.

Ltac local_step :=
  match goal with
  | |- local_to _ (mbind _ _) => apply local_bind; [|intros ?]
  | |- local_to _ (mret _) => apply local_ret
  | |- local_to _ (raise _) => apply local_raise
  | |- local_to _ get => apply local_get
  | |- local_to _ (gets _) => apply local_gets
  | |- local_to _ (of_option _ _) => apply local_option
  | |- local_to _ (assert_ _) => apply local_assert
  | |- local_to _ (if ?b then _ else _) => destruct b
  | |- local_to _ (match ?x with _ => _ end) => destruct x
  | |- local_to _ (modify _) => apply local_modify; intros ? ? ?; try reflexivity
  end.
Ltac local_run := repeat local_step.

Lemma ids_add_other rid i m q : q <> rid -> ids_of (add_request_id rid i m) q = ids_of m q.
Proof. intros Hq. by rewrite ids_of_add, decide_False. Qed.

Lemma check_local r i : local_to (request_id r) (check_and_update_cache r i).
Proof. unfold check_and_update_cache. local_run. cbn. by apply ids_add_other. Qed.

Lemma evict_local rid fuel : forall n, local_to rid (evict_loop fuel n).
Proof. induction fuel as [|fuel IH]; intros n; cbn; local_run; apply IH. Qed.

Lemma can_local r i b t : local_to (request_id r) (can_allocate r i b t).
Proof. unfold can_allocate. local_run. apply evict_local. Qed.

Lemma allocate_local r i : local_to (request_id r) (allocate r i).
Proof. unfold allocate. local_run; cbn; [by case_match|by apply ids_add_other]. Qed.

Lemma freed_local r : forall m, wf m -> known features r ->
  wp (encoder_free r) (fun _ m' => forall q, q <> request_id r -> ids_of m' q = ids_of m q) m.
Proof.
  intros m Hwf Hk. unfold encoder_free. apply wp_bind, wp_gets.
  assert (forall l m1, wf m1 -> Forall (fun i => is_Some (hash_of features (request_id r) i)) l ->
    wp (for_each l (free_encoder_input r)) (fun _ m' => forall q, q <> request_id r -> ids_of m' q = ids_of m1 q) m1) as Hl.
  { induction l as [|i l IH]; intros m1 H1 Hf; cbn [for_each]; [by apply wp_ret|]. apply Forall_cons in Hf as [[h Hh] Hf].
    apply wp_bind. eapply wp_mono; [by apply (free_encoder_input_spec size_of size_nonneg features features_size m1 r i h)|].
    intros [] m2 [G1 G2 G3 G4 G5]. eapply wp_mono; [by apply IH|]. intros [] m3 Hm3 q Hq. by rewrite Hm3, G2, decide_False. }
  apply Hl; [done|]. apply Forall_forall. intros i. rewrite (int_set_order_perm _), elem_of_elements.
  change (get_cached_input_ids r m) with (ids_of m (request_id r)). intros Hi.
  destruct (ew_ids _ _ _ Hwf _ _ Hi) as (h & ids & Hh & _). by eexists.
Qed.

(** ** The loop over the features *)

(** What the loop returns, whatever the cache says. *)
Record loop_facts (r : Request) (c shift : Z) (todo : list Z) (st st' : EncoderLoop) : Prop := {
  lf_inputs : forall i, i ∈ encoder_inputs_to_schedule st' -> i ∈ encoder_inputs_to_schedule st \/ i ∈ todo;
  lf_new : el_num_new_tokens st' = el_num_new_tokens st \/
    exists f, f ∈ mm_features r /\ el_num_new_tokens st' = Z.max 0 (offset (mm_position f) - (c + shift))
}.

Lemma loop_facts_skip r c shift i todo st st' : loop_facts r c shift todo st st' -> loop_facts r c shift (i :: todo) st st'.
Proof. intros [F1 F2]. split; [|done]. intros j Hj. destruct (F1 j Hj); [by left|right; by right]. Qed.

Lemma loop_facts_add r c shift i todo st st1 st' :
  (forall j, j ∈ encoder_inputs_to_schedule st1 -> j ∈ encoder_inputs_to_schedule st \/ j = i) ->
  el_num_new_tokens st1 = el_num_new_tokens st -> loop_facts r c shift todo st1 st' -> loop_facts r c shift (i :: todo) st st'.
Proof.
  intros Hi Hn [F1 F2]. rewrite Hn in F2. split; [|done]. intros j Hj. destruct (F1 j Hj) as [Hx|Hx]; [|right; by right].
  destruct (Hi j Hx) as [| ->]; [by left|right; by left].
Qed.

Lemma encoder_loop_facts cfg r c shift wend todo : forall st m st' m',
  0 <= c + shift -> encoder_loop cfg r c shift wend todo st m = Ok st' m' ->
  loop_facts r c shift todo st st' /\ forall q, q <> request_id r -> ids_of m' q = ids_of m q.
Proof.
  induction todo as [|i todo IH]; intros st m st' m' Hcs Hr; cbn [encoder_loop] in Hr.
  { injection Hr as <- <-. split; [split; [by left|by left]|done]. }
  assert (forall st1 m1, (forall j, j ∈ encoder_inputs_to_schedule st1 -> j ∈ encoder_inputs_to_schedule st \/ j = i) ->
    el_num_new_tokens st1 = el_num_new_tokens st -> (forall q, q <> request_id r -> ids_of m1 q = ids_of m q) ->
    encoder_loop cfg r c shift wend todo st1 m1 = Ok st' m' ->
    loop_facts r c shift (i :: todo) st st' /\ forall q, q <> request_id r -> ids_of m' q = ids_of m q) as Hnext.
  { intros st1 m1 Hi Hn Hids Hrun. destruct (IH st1 m1 st' m' Hcs Hrun) as [F G]. split; [by eapply loop_facts_add|].
    intros q Hq. by rewrite G, Hids. }
  assert (forall j, j ∈ encoder_inputs_to_schedule st -> j ∈ encoder_inputs_to_schedule st \/ j = i) as Hsame by (intros j Hj; by left).
  unfold mbind, M_bind in Hr. destruct (py_index (mm_features r) i) as [f|] eqn:Ef; [|done]. cbn in Hr.
  pose proof (py_index_Some _ _ _ Ef) as [Hel _].
  assert (forall k, k = Z.max 0 (offset (mm_position f) - (c + shift)) -> loop_facts r c shift (i :: todo) st (el_set_new k st)) as Hstop.
  { intros k ->. split; [by left|]. right. by exists f. }
  destruct (is_encoder_decoder cfg && (0 <? c)).
  { unfold assert_ in Hr. destruct (_ =? 0); [|done]. by apply (Hnext st m). }
  destruct (if is_encoder_decoder cfg then _ else _) as [skip m1|] eqn:Eskip in Hr; [|done].
  assert (forall q, q <> request_id r -> ids_of m1 q = ids_of m q) as Hids1.
  { destruct (is_encoder_decoder cfg); [by injection Eskip as _ <-|]. destruct (bool_decide _); [by injection Eskip as _ <-|].
    by apply (check_local r i m skip m1). }
  destruct skip; [by apply (Hnext st m1)|].
  destruct (_ && _ && _) in Hr; [injection Hr as <- <-; by split; [apply Hstop|]|].
  destruct (can_allocate r i (el_budget st) (num_embeds_to_schedule st) m1) as [ok m2|] eqn:Ecan; [|done].
  assert (forall q, q <> request_id r -> ids_of m2 q = ids_of m q) as Hids2.
  { intros q Hq. rewrite <- Hids1 by done. by apply (can_local r i _ _ m1 ok m2 Ecan). }
  destruct ok; cbn [negb] in Hr.
  2:{ injection Hr as <- <-. split; [apply Hstop|done]. destruct (Z.ltb_spec (c + shift) (offset (mm_position f))); lia. }
  destruct (get_embeds_indices_in_range _ _ _) as [[x y]|]; [|done]. cbn in Hr.
  destruct (y - x =? 0); [by apply (Hnext st m2)|].
  apply (Hnext _ m2) in Hr; [done| | |done]; destruct (match ec_has_cache_item cfg with Some _ => _ | None => _ end); try done.
  intros j. cbn. rewrite elem_of_app, list_elem_of_singleton. done.
Qed.

(** ** The laws *)

#[local] Instance encoder_laws : EncoderLaws EncoderCacheManager.
Proof.
  refine {| en_wf := wf; en_holds m rid := ids_of m rid <> ∅; en_knows r := known features r /\ features_ok (mm_features r) |}.
  - intros r r' Hid Hf [Hk Hok]. unfold known in *. rewrite Hid, Hf. by split.
  - intros r e Hwf [Hk _]. change (en_free r) with (encoder_free r). eapply wp_mono; [apply wp_conj; [by apply (encoder_free_spec size_of size_nonneg features features_size)|by apply freed_local]|].
    intros [] e' [(W1 & W2 & _) Hl]. split; [done|]. intros q Hq. destruct (decide (q = request_id r)) as [->|Hne]; [done|]. by rewrite <- Hl.
Defined.

Lemma known_embeds r f : known features r -> f ∈ mm_features r -> get_num_embeds (mm_position f) = size_of (identifier f).
Proof. intros Hk Hf. apply (features_size (request_id r)). by rewrite <- Hk. Qed.

Lemma grows_holds {A} rid (c : M EncoderCacheManager A) e a e' q : local_to rid c -> c e = Ok a e' -> ids_of e' q <> ∅ -> ids_of e q <> ∅ \/ q = rid.
Proof. intros Hl Hc Hq. destruct (decide (q = rid)) as [->|Hne]; [by right|left]. by rewrite <- (Hl e a e' Hc q Hne). Qed.

Lemma try_schedule_law c r computed n budget shift e :
  is_encoder_decoder c = false -> wf e -> known features r /\ features_ok (mm_features r) -> 0 <= computed -> 0 <= n -> 0 <= budget -> 0 <= shift ->
  wp (try_schedule_encoder_inputs c r computed n budget shift) (fun res e' => let '(inputs, n', budget', ext) := res in
    wf e' /\ 0 <= n' <= n /\ 0 <= budget' /\ valid_inputs r inputs /\ (0 < n' -> pending_inputs size_of r e' (inputs ++ ext)) /\
    (Forall (fun f => offset (mm_position f) <= computed) (mm_features r) -> n' = n \/ n' = 0) /\
    forall q, ids_of e' q <> ∅ -> ids_of e q <> ∅ \/ q = request_id r) e.
Proof.
  intros Hed Hwf [Hk Hok] Hc Hn Hb Hs. destruct (decide (n = 0 \/ zlen (mm_features r) <= 0)) as [Hno|Hyes].
  { unfold try_schedule_encoder_inputs. assert ((n =? 0) || (zlen (mm_features r) <=? 0) = true) as ->.
    { apply orb_true_iff. destruct Hno; [left; by apply Z.eqb_eq|right; by apply Z.leb_le]. }
    apply wp_ret. split_and!; [done|lia|lia|lia|apply Forall_nil_2| |by left|by left].
    intros _. split; cbn; [by apply Forall_nil_2|constructor|by intros h ?%elem_of_nil|apply Hwf]. }
  pose proof (try_schedule_ok size_of size_nonneg features features_size c Hed r Hk Hok computed n budget shift ltac:(lia) Hs e Hwf Hb ltac:(lia)) as Hw.
  apply wp_ok in Hw as ([[[inputs n'] budget'] ext] & e' & Er & Hn' & Hb' & _ & Hwf' & Hp & _). apply (wp_intro _ _ _ _ e' Er).
  unfold try_schedule_encoder_inputs in Er. rewrite (proj2 (Z.eqb_neq n 0)), (proj2 (Z.leb_gt (zlen (mm_features r)) 0)) in Er by lia.
  cbn [orb] in Er. unfold mbind, M_bind, assert_ in Er. rewrite (proj2 (Z.ltb_lt 0 (zlen (mm_features r)))) in Er by lia. cbn in Er.
  destruct (window_ok (mm_features r) computed (computed + n + shift) Hok) as (lo & hi & Ewin & Blo & Bhi & _). rewrite Ewin, Hed in Er. cbn in Er.
  destruct (encoder_loop _ _ _ _ _ _ _ e) as [st m1|] eqn:El in Er; [|done]. injection Er as <- <- <- <- <-.
  destruct (encoder_loop_facts c r computed shift _ _ _ _ _ _ ltac:(lia) El) as [[F1 F2] F3]. cbn in F1, F2.
  split_and!; [done|lia|lia|lia| |done| |].
  - apply Forall_forall. intros i [Hi%elem_of_nil|Hi]%F1; [done|]. apply py_range_elem in Hi. lia.
  - intros Hall. destruct F2 as [F2|(f & Hf & F2)]; [by left|right]. rewrite F2. rewrite Forall_forall in Hall. specialize (Hall f Hf). cbv beta in Hall. lia.
  - intros q Hq. destruct (decide (q = request_id r)) as [->|Hne]; [by right|left]. by rewrite <- F3.
Qed.

#[local] Instance encoder_schedule_laws : EncoderScheduleLaws EncoderCacheManager.
Proof.
  refine {| en_pending e r l := pending_inputs size_of r e l |}.
  - intros r f [Hk _] Hf. rewrite (known_embeds r f Hk Hf). apply size_nonneg.
  - intros c r computed n budget shift e. apply try_schedule_law.
  - intros r r' l e Hwf [Hk _] _ [P1 P2 P3 P4]. change (en_free r) with (encoder_free r). eapply wp_mono; [by apply (encoder_free_spec size_of size_nonneg features features_size)|].
    intros [] e' (_ & _ & S1 & _ & _ & S2). split; [done|done| |by rewrite S1].
    intros h Hh. apply P3 in Hh. destruct (cached e' !! h) eqn:Eh; [|done]. exfalso. assert (is_Some (cached e !! h)) as [x Hx] by (apply S2; by eexists). congruence.
  - intros r r' l e Hid Hf [P1 P2 P3 P4]. unfold total_size, input_size, input_ids in *. split; unfold total_size, input_size, input_ids; rewrite ?Hf; done.
  - intros r i l e Hwf [Hk Hok] Hp. pose proof (allocate_one_ok size_of size_nonneg features features_size r Hk e i l Hwf Hp) as Hw.
    apply wp_ok in Hw as ([] & e' & Ea & W1 & W2 & _). apply (wp_intro _ _ _ tt e' Ea). split_and!; [done|done|].
    intros q Hq. by eapply grows_holds; [apply allocate_local|exact Ea|].
Defined.

#[local] Instance encoder_update_laws : EncoderUpdateLaws EncoderCacheManager.
Proof.
  split.
  - intros r i e Hwf [Hk _] Hi. destruct (ew_ids _ _ _ Hwf (request_id r) i Hi) as (h & ids & Hh & _). unfold hash_of in Hh. rewrite <- Hk in Hh.
    apply fmap_Some in Hh as (f & Hf & _). by exists f.
  - intros r i e Hwf [Hk _] [f Hf]. change (en_free_input r i) with (free_encoder_input r i).
    eapply wp_mono; [apply (free_encoder_input_spec size_of size_nonneg features features_size e r i (identifier f)); [done|done|]|].
    { unfold hash_of. rewrite <- Hk, Hf. done. }
    intros [] e' [W1 W2 _ _ _]. split; [done|]. intros q Hq. cbn in *. rewrite W2 in Hq. case_decide as Er; [|done]. rewrite Er. set_solver.
Qed.

#[local] Instance encoder_step_laws : EncoderStepLaws EncoderCacheManager.
Proof.
  intros e [W1 W2 W3 W4 W5 W6 W7]. unfold en_get_freed_mm_hashes, encoder_step, get_freed_mm_hashes. apply wp_bind, wp_gets, wp_bind, wp_modify, wp_ret.
  split; [by split|done].
Qed.

End Laws.
