(* ===== verification/SchedSystem.v ===== *)
(** * A small system around the scheduler

    The scheduler with services that are as small as the interfaces allow: a KV
    cache that only counts tokens ([TokenKV]), connectors without state, and the
    encoder cache of EncoderCache.v.  The laws of the services hold of them, so
    the hypotheses of the scheduler's theorems can be met; the theorems are
    evaluated on this system. *)
From Stdlib Require Import ZArith Lia.
From stdpp Require Import base tactics gmap strings numbers option list.
From S2P Require Import Prelude Blocks Request Hashing Env OrderedDict KVCacheManager EncoderCache EncoderCacheSpec RequestQueue SchedUtils SchedChunk SchedEncoder SchedRequest SchedIface Scheduler SchedulerInv SchedulerOps SchedulerPreempt SchedulePass ScheduleInv ScheduleWait ScheduleAdmit ScheduleLoop Schedule ScheduleSpec SchedUpdate SchedBlind SchedUpdateInv SchedDeliver SchedUpdateLoop SchedUpdateSpec SchedulerSteps SchedServices EncoderLaws.

Local Open Scope Z_scope.

(** ** A KV cache that counts tokens *)

Record TokenKV := mkTokenKV { tk_capacity : Z; tk_used : gmap string Z; tk_seq : Z }.

Definition tk_set_used (u : gmap string Z) (k : TokenKV) : TokenKV := mkTokenKV (tk_capacity k) u (tk_seq k).
Definition tk_total (k : TokenKV) : Z := map_fold (fun _ n t => n + t) 0 (tk_used k).
Definition tk_blocks : KVCacheBlocks := mkKVBlocks [[]] false.

Definition tk_free (r : Request) : M TokenKV unit := modify (fun k => tk_set_used (delete (request_id r) (tk_used k)) k).

Definition tk_allocate (n : Z) : M (TokenKV * Request) (option KVCacheBlocks) := fun t =>
  let '(k, r) := t in
  if tk_total k + n <=? tk_capacity k
  then Ok (Some tk_blocks) (tk_set_used (<[request_id r := n + default 0 (tk_used k !! request_id r)]> (tk_used k)) k, r)
  else Ok None t.

#[export] Instance token_kv_service : KVService TokenKV := {
  kv_free_request_blocks r _ := tk_free r;
  kv_free := tk_free;
  kv_cache_blocks _ := mret tt;
  kv_record_blocks_for_zeroing _ _ := mret tt;
  kv_reset_prefix_cache := gets (fun k => bool_decide (tk_used k = ∅));
  kv_remove_skipped_blocks _ _ _ := mret tt;
  kv_finalize_partial_tail_offloads _ := mret [];
  kv_block_ids_for_computed_tokens _ _ _ := [[]];
  kv_defer_block_free _ := false;
  kv_sched_step_seq := tk_seq
}.

#[export] Instance token_kv_scheduling : KVScheduling TokenKV := {
  kv_new_step_starts := mret tt;
  kv_recycle_sliding_windows _ := mret tt;
  kv_allocate_slots n _ _ _ _ _ _ _ _ _ := tk_allocate n;
  kv_get_computed_blocks := mret (tk_blocks, 0, 0);
  kv_get_computed_blocks_for_connector := mret (tk_blocks, 0, 0, false);
  kv_truncate_computed_blocks b _ := mret b;
  kv_empty_kv_cache_blocks _ := tk_blocks;
  kv_get_blocks _ _ := tk_blocks;
  kv_record_prefix_cache_stats _ _ := mret tt;
  kv_get_zeroing_block_ids_in_range _ _ _ := mret [[]];
  kv_remaining_blocks _ _ _ := mret 0;
  kv_take_new_block_ids := mret [[]];
  kv_hand_over_copies := mret [];
  kv_advance_sched_seq _ := modify (fun k => mkTokenKV (tk_capacity k) (tk_used k) (tk_seq k + 1));
  kv_process_step _ := mret tt
}.

#[export] Instance token_kv_step : KVStep TokenKV := {
  kv_get_num_common_prefix_blocks _ := mret [0];
  kv_block_ids _ _ _ := Some [[]];
  kv_take_boundary_state_offloads := mret tt
}.

#[export] Instance token_kv_update : KVUpdate TokenKV := {
  kv_get_block_ids _ _ := [[]];
  kv_evict_blocks _ := mret tt;
  kv_take_events := mret tt
}.

Definition tk_holds (k : TokenKV) (rid : string) : Prop := is_Some (tk_used k !! rid).

Lemma tk_free_spec r k :
  wp (tk_free r) (fun _ k' => True /\ forall q, tk_holds k' q -> tk_holds k q /\ q <> request_id r) k.
Proof.
  apply wp_modify. split; [done|]. intros q. unfold tk_holds. cbn. destruct (decide (q = request_id r)) as [->|Hne].
  - rewrite lookup_delete_eq. by intros [? ?].
  - by rewrite lookup_delete_ne.
Qed.

Lemma tk_allocate_spec n k r :
  wp (tk_allocate n) (fun _ t => t.2 = r /\ forall q, tk_holds t.1 q -> tk_holds k q \/ q = request_id r) (k, r).
Proof.
  unfold wp, tk_allocate. destruct (_ <=? _); cbn; split; try done; [|by left].
  intros q. unfold tk_holds. cbn. destruct (decide (q = request_id r)) as [->|Hne]; [by right|rewrite lookup_insert_ne by done; by left].
Qed.

#[export] Instance token_kv_laws : KVLaws TokenKV.
Proof.
  refine {| kv_wf _ := True; kv_holds := tk_holds; kv_cacheable _ _ _ := True |}.
  - intros r last k _. apply tk_free_spec.
  - intros r k _. apply tk_free_spec.
  - intros k _. by apply wp_gets.
  - intros rid n p k _ _ _. by apply wp_ret.
  - intros r k _. by apply wp_ret.
  - done.
  - intros n k r _ _. apply wp_ret. split_and!; [done|apply memo_refl|done].
  - intros rid n k _. by apply wp_ret.
Defined.

Lemma kept_all (ok : Request -> Prop) (k k' : TokenKV) :
  kept_for (fun _ _ => True) (fun _ r => 0 < num_tokens r) (fun _ r => 0 < num_tokens r) ok k k'.
Proof. by intros r _. Qed.

#[export] Instance token_kv_schedule_laws : KVScheduleLaws TokenKV.
Proof.
  refine {| kv_ready _ _ := True; kv_idle _ r := 0 < num_tokens r; kv_loaded _ r := 0 < num_tokens r |}.
  - intros r last r' k _ _ _. by eapply wp_mono; [apply tk_free_spec|].
  - intros n la k r _ _ _ _. eapply wp_mono; [apply tk_allocate_spec|]. intros b [k' r'] [Hr Hh]. cbn in Hr. subst r'.
    split_and!; [done|apply memo_refl|done|done|apply kept_all].
  - intros k _. apply wp_ret. split_and!; [done|done|apply kept_all].
  - intros r k _. apply wp_ret. split_and!; [done|done|apply kept_all].
Defined.

#[export] Instance token_kv_admit_laws bs : KVAdmitLaws bs TokenKV.
Proof.
  refine {| kv_hit _ _ _ n := n = 0 |}.
  - intros k r _ Hi. apply wp_ret. cbn. split_and!; [done|apply memo_refl|done|apply kept_all|done|lia|done|done].
  - intros k r _ Hi. apply wp_ret. cbn. split_and!; [done|apply memo_refl|done|apply kept_all|done|lia|done|done].
  - done.
  - done.
  - done.
  - intros k r b n _ ->. by apply wp_ret.
  - intros n local b la ext async enc full reserved has k r _ Hi _ _ _ _ _ _ _ _.
    eapply wp_mono; [apply tk_allocate_spec|]. intros res [k' r'] [Hr Hh]. cbn in Hr. subst r'.
    split_and!; [done|apply memo_refl|done|done|apply kept_all].
  - intros n la async enc full reserved has k r _ _ _ _ _ _. eapply wp_mono; [apply tk_allocate_spec|].
    intros res [k' r'] [Hr Hh]. cbn in Hr. subst r'. split_and!; [done|apply memo_refl|done|done|apply kept_all].
  - intros rid n c k _. by apply wp_ret.
  - intros r n k _. apply wp_ret. split_and!; [done|done|apply kept_all].
  - intros rid m n k _. apply wp_ret. split_and!; [done|done|apply kept_all].
  - done.
  - intros k r _ _ _. apply wp_ret. split_and!; [apply kept_all|done|done].
  - intros rid n k _. apply wp_ret, kept_all.
  - intros k r _ Hl. eapply wp_mono; [apply tk_free_spec|]. intros [] k' _. split; [done|apply kept_all].
Defined.

#[export] Instance token_kv_step_laws : KVStepLaws TokenKV.
Proof.
  split.
  - intros rid k _. apply wp_ret. split; [done|by left].
  - intros k _. by apply wp_ret.
  - intros k _. by apply wp_ret.
  - intros k _. by apply wp_ret.
  - intros n k _. by apply wp_modify.
Qed.

(** Any prefix of a request's tokens can be cached. *)
#[export] Instance token_kv_update_laws : KVUpdateLaws TokenKV.
Proof.
  refine {| kv_covers _ _ := True |}; try done.
Defined.

(** ** Connectors without state *)

(** A KV connector that never has anything to load, and no EC connector. *)
#[export] Instance unit_connector : KVConnector unit := {
  cn_on_new_request _ := mret tt;
  cn_supports_hma := true;
  cn_request_finished _ _ := mret false;
  cn_request_finished_all_groups _ _ := mret false;
  cn_register_finished_partial_tail _ _ _ := mret false;
  cn_update_connector_output _ := mret tt;
  cn_reset_cache := mret true;
  cn_has_pending_push_work _ := false
}.
#[export] Instance unit_connector_scheduling : ConnectorScheduling unit := {
  cn_supports_divergent_local_hybrid_hits := false;
  cn_get_num_new_matched_tokens _ _ := mret (Some 0, false);
  cn_update_state_after_alloc _ _ _ := mret tt
}.
#[export] Instance unit_connector_step : ConnectorStep unit := fun _ => mret tt.
#[export] Instance unit_ec : ECConnector unit := {
  ec_request_finished _ := mret false;
  ec_update_state_after_free _ _ := mret tt;
  ec_has_pending_push_work _ := false
}.
#[export] Instance unit_ec_scheduling : ECScheduling unit := {
  ec_ensure_cache_available _ _ := mret true;
  ec_has_cache_item_ _ _ := false;
  ec_update_state_after_alloc _ _ := mret tt
}.
#[export] Instance unit_ec_step : ECStep unit := fun _ => mret tt.
#[export] Instance unit_connector_update : ConnectorUpdate unit := { cn_take_events := mret tt; cn_get_kv_connector_stats := mret tt }.
#[export] Instance unit_ec_update : ECUpdate unit := { ec_take_unavailable_requests := mret ∅; ec_update_connector_output := mret tt }.

#[export] Instance unit_connector_laws : KVConnectorLaws unit.
Proof. refine {| cn_wf _ := True |}; intros; by apply wp_ret. Defined.
#[export] Instance unit_connector_schedule_laws : ConnectorScheduleLaws unit.
Proof.
  split; intros; [|by apply wp_ret]. apply wp_ret. split; [done|]. intros e [= <-]. cbn. split_and!; [done|lia|done|intros _; lia].
Qed.
#[export] Instance unit_connector_step_laws : ConnectorStepLaws unit.
Proof. intros out c _. by apply wp_ret. Qed.
#[export] Instance unit_ec_laws : ECConnectorLaws unit.
Proof. refine {| ec_wf _ := True |}; intros; by apply wp_ret. Defined.
#[export] Instance unit_ec_schedule_laws : ECScheduleLaws unit.
Proof. split; intros; by apply wp_ret. Qed.
#[export] Instance unit_ec_step_laws : ECStepLaws unit.
Proof. intros out c _. by apply wp_ret. Qed.
#[export] Instance unit_connector_update_laws : ConnectorUpdateLaws unit.
Proof. split; intros; by apply wp_ret. Qed.
#[export] Instance unit_ec_update_laws : ECUpdateLaws unit.
Proof. split; intros; by apply wp_ret. Qed.

(** ** A configuration and its requests *)

(** The image of request "b": three embeddings from position 1. *)
Definition sys_image : MultiModalFeatureSpec := mkMMFeature "img" (mkPlaceholder 1 3 None).
Definition sys_features (rid : string) : list MultiModalFeatureSpec := if bool_decide (rid = "b"%string) then [sys_image] else [].
Definition sys_size (h : string) : Z := 3.

Lemma sys_size_nonneg h : 0 <= sys_size h.
Proof. done. Qed.
Lemma sys_features_size rid f : f ∈ sys_features rid -> get_num_embeds (mm_position f) = sys_size (identifier f).
Proof.
  unfold sys_features. case_bool_decide; [|by intros ?%elem_of_nil]. by intros ->%list_elem_of_singleton.
Qed.

#[export] Instance demo_encoder_laws : EncoderLaws EncoderCacheManager :=
  encoder_laws sys_size sys_size_nonneg sys_features sys_features_size.
#[export] Instance demo_encoder_schedule_laws : EncoderScheduleLaws EncoderCacheManager :=
  encoder_schedule_laws sys_size sys_size_nonneg sys_features sys_features_size.
#[export] Instance demo_encoder_update_laws : EncoderUpdateLaws EncoderCacheManager :=
  encoder_update_laws sys_size sys_size_nonneg sys_features sys_features_size.
#[export] Instance demo_encoder_step_laws : EncoderStepLaws EncoderCacheManager :=
  encoder_step_laws sys_size sys_size_nonneg sys_features sys_features_size.

Definition sys_chunks : ChunkConfig := mkChunkConfig 4 4 false false None 8 false 0 false false 0.
(** FCFS, 8 tokens and 4 requests a step, two drafts at most. *)
Definition sys_cfg : SchedConfig :=
  mkSchedConfig FCFS 64 4 1 false false true false 16 1 false sys_chunks false 8 4 8 0 0 2 None true false None false
    true false false false 1 false.

Lemma sys_cfg_ok : config_ok sys_cfg.
Proof. by split. Qed.

(** Token 9 ends a generation. *)
Definition sys_sampling : SamplingParams := mkSampling (Some 16) 0 (Some 9) None None None.
Definition sys_request (rid : string) (n : nat) (prio arrival : Z) : Request :=
  mkRequest rid prio arrival (Some sys_sampling) None None None None (sys_features rid) None ∅ (Z.of_nat n) []
    (Z.of_nat <$> seq 0 n) [] WAITING None 16 0 0 0 0 false.
Definition sys_object (rid : string) (n : nat) (prio arrival : Z) (resume : bool) : SReq :=
  new_sreq (sys_request rid n prio arrival) (Some (Z.of_nat <$> seq 0 n)) None resume 0.

Definition sys_a : SReq := sys_object "a" 3 0 0 false.
Definition sys_b : SReq := sys_object "b" 7 0 1 false.
Definition sys_c : SReq := sys_object "c" 2 0 2 true.

Local Abbreviation DemoSched := (Scheduler TokenKV EncoderCacheManager unit unit).

Definition sys_init : DemoSched := sched_init sys_cfg false (mkTokenKV 10 ∅ 0) (new_encoder_cache 6) (Some tt) None.
Definition run_ok (ev : event) (s : DemoSched) : DemoSched :=
  match run_event sys_cfg None ev s with Ok _ s' => s' | Raise _ s' => s' end.
Definition run_all (evs : list event) (s : DemoSched) : DemoSched := foldl (fun s ev => run_ok ev s) s evs.

(** The three requests arrive. *)
Definition sys_arrivals : list event :=
  [EvRequest 1 sys_a; EvAdd 1; EvRequest 2 sys_b; EvAdd 2; EvRequest 3 sys_c; EvAdd 3].
Definition sys_waiting : DemoSched := run_all sys_arrivals sys_init.
(** One step has run. *)
Definition sys_running : DemoSched := run_ok (EvSchedule false) sys_waiting.

(** ** The states are reachable *)

Lemma sys_fresh : fresh_parts sys_cfg (mkTokenKV 10 ∅ 0) (new_encoder_cache 6) (Some tt) (None : option unit).
Proof.
  split.
  - split; [done|]. intros rid [n Hn]. cbn in Hn. by rewrite lookup_empty in Hn.
  - split; [by apply (new_encoder_cache_wf sys_size sys_features)|]. intros rid. cbn. unfold ids_of. cbn. rewrite lookup_empty. intros Hx. by apply Hx.
  - intros c _. split; [done|by left].
  - done.
Qed.

Lemma sys_arrival (s : DemoSched) a o :
  od_get (so_id o) (requests s) = None -> so_status o = WAITING -> mm_features (sr_request o) = sys_features (so_id o) ->
  0 <= num_prompt_tokens (sr_request o) -> is_Some (prompt_token_ids o) -> arrival_ok s a o.
Proof.
  intros Hn Hst Hf Hp Ht. split.
  - intros _. rewrite Hst. split_and!; [by left; left|done| |done|done]. split; [done|]. rewrite Hf. unfold sys_features. case_bool_decide; split.
    + intros i j f g Hij Hi Hj. destruct i, j; cbn in *; try done; lia.
    + by intros f ->%list_elem_of_singleton.
    + by intros f l ->%list_elem_of_singleton.
    + by intros i j f g _ ?.
    + by intros f ?%elem_of_nil.
    + by intros f l ?%elem_of_nil.
  - intros e p [_ Hg] Hid. congruence.
Qed.

Lemma run_reach s ev : reachable sys_cfg None s -> allowed sys_cfg ev s -> reachable sys_cfg None (run_ok ev s).
Proof.
  intros Hr Ha. apply (reach_step sys_cfg None s ev); [done|done|]. unfold event_result, run_ok.
  destruct (run_event sys_cfg None ev s) as [[] s'|e s']; [by left|right; by exists e].
Qed.

Lemma arrive s a o :
  reachable sys_cfg None s -> objs s !! a = None -> od_get (so_id o) (requests s) = None -> so_status o = WAITING ->
  mm_features (sr_request o) = sys_features (so_id o) -> 0 <= num_prompt_tokens (sr_request o) -> is_Some (prompt_token_ids o) ->
  reachable sys_cfg None (run_ok (EvAdd a) (run_ok (EvRequest a o) s)).
Proof.
  intros Hr Ha Hn Hst Hf Hp Ht. apply run_reach; [by apply run_reach|]. exists o. split; [apply lookup_insert_eq|]. by apply sys_arrival.
Qed.

Lemma sys_waiting_reachable : reachable sys_cfg None sys_waiting.
Proof.
  apply (arrive _ 3 sys_c); [|by vm_compute..|by eexists]. apply (arrive _ 2 sys_b); [|by vm_compute..|by eexists].
  apply (arrive _ 1 sys_a); [|by vm_compute..|by eexists]. apply reach_init, sys_fresh.
Qed.

(** The requests of the queues, evaluated. *)
Lemma sys_waiting_ready : step_ready sys_cfg sys_waiting.
Proof.
  split; [by intros a o ?%elem_of_nil| |by vm_compute]. split; [|by intros a ?%elem_of_empty]. intros a o Ha Ho.
  assert (a ∈ [1; 2; 3]) as Hin by (destruct Ha as [Ha|Ha%elem_of_nil]; [exact Ha|done]).
  rewrite !elem_of_cons, elem_of_nil in Hin. destruct Hin as [->|[->|[->|[]]]]; vm_compute in Ho; injection Ho as <-.
  all: split; [by vm_compute| |by vm_compute]; repeat constructor.
Qed.

Lemma sys_running_reachable : reachable sys_cfg None sys_running.
Proof. apply run_reach; [apply sys_waiting_reachable|apply sys_waiting_ready]. Qed.

Lemma sys_lookup_covers l : dynamic_sd_lookup sys_cfg = Some l -> max_num_running_reqs sys_cfg < zlen l.
Proof. done. Qed.
Lemma no_hasher h : (None : option (M Request (list BlockHash))) = Some h -> forall r, wp h (fun _ r' => same_but_memo r r') r.
Proof. done. Qed.

Lemma sys_lifecycle s : reachable sys_cfg None s -> lifecycle sys_cfg [] s.
Proof. apply (reachable_inv sys_cfg sys_cfg_ok eq_refl eq_refl sys_lookup_covers None no_hasher). Qed.

(** ** Outputs of the workers *)

(** No structured outputs. *)
Definition no_grammars : StructuredAnswers := mkAnswers (fun _ _ => false) (fun _ l => l) (fun _ _ => true).
(** The workers sampled these tokens for these requests. *)
Definition sampled (l : list (string * list Z)) : ModelRunnerOutput :=
  mkRunnerOutput (zip l.*1 (seqZ 0 (zlen l))) l.*2 [] ∅ None false.

(** The step of [sys_running] is answered: the first request samples its end, the
    second is still in its prompt. *)
Definition sys_answer : ModelRunnerOutput := sampled [("a"%string, [9]); ("b"%string, [])].

(** A running request of a synchronous scheduler takes its answer. *)
Lemma sys_entry out mro (s : DemoSched) rid n a o g :
  0 < n -> od_get rid (requests s) = Some a -> objs s !! a = Some o -> so_id o = rid -> num_stale_output_tokens o = 0 ->
  so_status o = RUNNING -> structured_output_request o = None -> answer_of mro rid = Some (g, false) -> generates (sr_request o) ->
  prompt_logprobs mro = ∅ -> entry_ok sys_cfg ∅ out mro s rid n.
Proof.
  intros Hn Hg Ho Hid Hs Hst Hgr Hans Hgen Hlp. split; [done| |].
  - intros a' o' Hg' Ho'. rewrite Hg in Hg'. injection Hg' as <-. rewrite Ho in Ho'. injection Ho' as <-. lia.
  - intros a' o' Hg' Ho' _ _ _. rewrite Hg in Hg'. injection Hg' as <-. rewrite Ho in Ho'. injection Ho' as <-.
    split; [|by left|done|by left|done]. exists g, false. rewrite Hid, Hlp. split_and!; [done|done|set_solver|done].
Qed.

Lemma sys_update_ok out (s1 : DemoSched) : schedule sys_cfg false sys_waiting = Ok out s1 -> update_ok sys_cfg out sys_answer no_grammars s1.
Proof.
  intros Hr. vm_compute in Hr. injection Hr as <- <-. split; [decide_goal| |done|done]. intros rid n Hin. cbn in Hin.
  rewrite !elem_of_cons, elem_of_nil in Hin. destruct Hin as [[= -> ->]|[[= -> ->]|[]]].
  - eapply (sys_entry _ _ _ _ _ 1 _ [9]); try (vm_compute; reflexivity). by split; [|eexists].
  - eapply (sys_entry _ _ _ _ _ 2 _ []); try (vm_compute; reflexivity). by split; [|eexists].
Qed.
