(* ===== verification/SchedFindings.v ===== *)
(** * Where the scheduler does not do what it means to

    Concrete runs, evaluated: a step that trips its own assertion under a legal
    configuration, a session that keeps the hash of a block it no longer has,
    sessions that end up in no queue, and a queue of sessions that loses its
    order. *)
From Stdlib Require Import ZArith Lia.
From stdpp Require Import base tactics gmap strings numbers option list.
From S2P Require Import Prelude Blocks Request Hashing Env OrderedDict KVCacheManager EncoderCache Heapq RequestQueue SchedUtils SchedChunk SchedEncoder SchedRequest SchedIface Scheduler SchedulerInv SchedulePass ScheduleWait Schedule SchedUpdate SchedulerSteps SchedServices SchedSystem.

Local Open Scope Z_scope.

Local Abbreviation DemoSched := (Scheduler TokenKV EncoderCacheManager unit unit).

Definition finding_init (cfg : SchedConfig) : DemoSched :=
  sched_init cfg false (mkTokenKV 100 ∅ 0) (new_encoder_cache 6) (None : option unit) (None : option unit).

(** The error of the last of a sequence of calls. *)
Fixpoint last_error (cfg : SchedConfig) (evs : list event) (s : DemoSched) : option exn :=
  match evs with
  | [] => None
  | [ev] => match run_event cfg None ev s with Ok _ _ => None | Raise e _ => Some e end
  | ev :: evs' => match run_event cfg None ev s with Ok _ s' => last_error cfg evs' s' | Raise _ _ => None end
  end.

(** ** A padded decode that the prefill threshold cuts *)

(** Asynchronous scheduling, two drafts, [long_prefill_token_threshold = 2]. *)
Definition threshold_cfg : SchedConfig :=
  mkSchedConfig FCFS 64 4 1 false false true false 16 1 false
    (mkChunkConfig 4 4 false false None 8 false 2 false false 0) false 8 4 8 0 2 2 None true false None false
    true false true false 1 false.

(** A request decodes; one with a prompt of one token arrives and is padded to
    the size of the drafts, then cut to the threshold. *)
Lemma threshold_trips_assertion :
  last_error threshold_cfg [EvRequest 1 (sys_object "a" 2 0 0 false); EvAdd 1; EvSchedule false;
                            EvRequest 2 (sys_object "d" 1 0 1 false); EvAdd 2; EvSchedule false]
    (finding_init threshold_cfg) = Some AssertionError.
Proof. vm_compute. reflexivity. Qed.

(** ** Running LoRAs that no step counts *)

Definition with_lora (i : Z) (o : SReq) : SReq :=
  let r := sr_request o in
  so_set_request (mkRequest (request_id r) (priority r) (arrival_time r) (sampling_params r) (pooling_params r)
    (Some (mkLoRA "adapter" i)) (cache_salt r) (session_id r) (mm_features r) (prompt_embeds r)
    (prompt_embeds_per_block_hashes r) (num_prompt_tokens r) (output_token_ids r) (all_token_ids r)
    (block_hashes r) (status r) (stop_reason r) (max_tokens r) (num_computed_tokens r) (num_in_flight_tokens r)
    (shared_prefix_boundary r) (num_preemptions r) (skip_reading_prefix_cache r)) o.

(** One LoRA at a time, asynchronous scheduling over two pipeline stages. *)
Definition lora_cfg : SchedConfig :=
  mkSchedConfig FCFS 64 4 1 false false true false 16 1 false sys_chunks false 8 4 8 0 0 0 None true false (Some 1) false
    true true true false 2 false.

(** A request of another LoRA is admitted in a step in which the first does not
    run; the next step runs both. *)
Lemma loras_trip_assertion :
  last_error lora_cfg [EvRequest 1 (with_lora 1 (sys_object "a" 2 0 0 false)); EvAdd 1; EvSchedule false;
                       EvRequest 2 (with_lora 2 (sys_object "d" 12 0 1 false)); EvAdd 2; EvSchedule false; EvSchedule false]
    (finding_init lora_cfg) = Some AssertionError.
Proof. vm_compute. reflexivity. Qed.

(** ** A session that keeps the hash of a block it no longer has *)

Definition session_hasher : M Request (list BlockHash) := request_block_hasher demo_sha ideal_hash "seed" 2.

(** Prompt [1; 2; 3], sampled 4; the last token is not computed. *)
Definition hashed_session : SReq :=
  new_sreq (mkRequest "s" 0 0 None None None None None [] None ∅ 3 [4] [1; 2; 3; 4]
              (hash_chain demo_sha ideal_hash "seed" 2
                 (mkRequest "s" 0 0 None None None None None [] None ∅ 3 [4] [1; 2; 3; 4] [] WAITING None 16 3 0 0 0 false) 2 None 0)
              WAITING_FOR_STREAMING_REQ None 16 3 0 0 0 false) (Some [1; 2; 3]) None true 0.

(** The next input replaces the sampled token by 9 and leaves the hashes. *)
Lemma session_keeps_stale_hash :
  exists o, update_session (Some session_hasher) (mkStreamingUpdate None (Some [9]) 16 1 None) hashed_session = Ok tt o /\
    all_token_ids (sr_request o) = [1; 2; 3; 9] /\ block_hashes (sr_request o) = block_hashes (sr_request hashed_session) /\
    fully_hashed demo_sha ideal_hash "seed" 2 (sr_request hashed_session) /\
    ~ fully_hashed demo_sha ideal_hash "seed" 2 (sr_request o).
Proof.
  eexists. split; [vm_compute; reflexivity|]. split_and!; [by vm_compute|by vm_compute|by vm_compute|].
  intros Hf. vm_compute in Hf. discriminate Hf.
Qed.

(** The limit of the new input, 99, is not taken over. *)
Lemma session_ignores_max_tokens :
  exists o, update_session (Some session_hasher) (mkStreamingUpdate None (Some [9]) 99 1 None) hashed_session = Ok tt o /\
    max_tokens (sr_request o) = 16.
Proof. eexists. split; [vm_compute; reflexivity|by vm_compute]. Qed.

(** ** Sessions in no queue *)

(** A step and its output. *)
Definition step_of (cfg : SchedConfig) (s : DemoSched) : option (SchedulerOutput * DemoSched) :=
  match schedule cfg false s with Ok out s' => Some (out, s') | Raise _ _ => None end.
(** The state after calls that all return. *)
Definition after (cfg : SchedConfig) (evs : list event) (s : DemoSched) : option DemoSched :=
  foldl (fun s ev => s ← s; match run_event cfg None ev s with Ok _ s' => Some s' | Raise _ _ => None end) (Some s) evs.

(** The request is tracked, unfinished and in no queue. *)
Definition lost (a : Z) (s : DemoSched) : bool :=
  match objs s !! a with
  | Some o => bool_decide (od_get (so_id o) (requests s) = Some a) && negb (so_finished o) && negb (bool_decide (a ∈ queued s))
  | None => false
  end.

(** Asynchronous scheduling without drafts. *)
Definition session_cfg : SchedConfig :=
  mkSchedConfig FCFS 64 4 1 false false true false 16 1 false sys_chunks false 8 4 8 0 0 0 None true false None false
    true false true false 1 false.

(** One session; its second step is under way when the output of the first
    stops it.  The output of the second is delivered to the paused session, stops
    it again, and takes it out of the queue it was put into. *)
Definition overrun : option DemoSched :=
  s ← after session_cfg [EvRequest 1 (sys_object "s" 2 0 0 true); EvAdd 1] (finding_init session_cfg);
  '(out1, s) ← step_of session_cfg s;
  '(out2, s) ← step_of session_cfg s;
  after session_cfg [EvUpdate out1 (sampled [("s"%string, [9])]) no_grammars; EvUpdate out2 (sampled [("s"%string, [9])]) no_grammars] s.

Lemma overrun_loses_session :
  exists s, overrun = Some s /\ lost 1 s = true /\ num_waiting_for_streaming_input s = 2.
Proof. eexists. split; [vm_compute; reflexivity|]. by vm_compute. Qed.

(** Room for four tokens: the next token of the first request preempts the
    session while its output, which stops it, is under way. *)
Definition preempted_session : option DemoSched :=
  s ← after session_cfg [EvRequest 1 (sys_object "a" 2 0 0 false); EvAdd 1; EvRequest 2 (sys_object "s" 2 0 1 true); EvAdd 2]
             (sched_init session_cfg false (mkTokenKV 4 ∅ 0) (new_encoder_cache 6) (None : option unit) (None : option unit));
  '(out1, s) ← step_of session_cfg s;
  '(_, s) ← step_of session_cfg s;
  after session_cfg [EvUpdate out1 (sampled [("a"%string, [5]); ("s"%string, [9])]) no_grammars] s.

Lemma preemption_loses_session : exists s, preempted_session = Some s /\ lost 2 s = true.
Proof. eexists. split; [vm_compute; reflexivity|]. by vm_compute. Qed.

(** ** A queue that loses its order *)

(** Priority scheduling, one step at a time. *)
Definition priority_cfg : SchedConfig :=
  mkSchedConfig PRIORITY 64 4 1 false false true false 16 1 false sys_chunks false 8 4 8 0 0 0 None true false None false
    true false false false 1 false.

(** Two sessions pause; their next inputs come at 5 and at 3.  Setting the
    arrival time of a queued request does not restore the heap. *)
Definition resumed_sessions : option DemoSched :=
  s ← after priority_cfg [EvRequest 1 (sys_object "s" 2 0 0 true); EvAdd 1; EvRequest 2 (sys_object "t" 2 0 1 true); EvAdd 2] (finding_init priority_cfg);
  '(out, s) ← step_of priority_cfg s;
  after priority_cfg [EvUpdate out (sampled [("s"%string, [9]); ("t"%string, [9])]) no_grammars;
    EvRequest 3 (sys_object "s" 1 0 5 true); EvAdd 3; EvRequest 4 (sys_object "t" 1 0 3 true); EvAdd 4] s.

(** The session that should come second comes first. *)
Lemma resumed_sessions_out_of_order :
  exists s, resumed_sessions = Some s /\ members (skipped_waiting s) = [1; 2] /\ ref_lt (deref s) 2 1 = true.
Proof. eexists. split; [vm_compute; reflexivity|]. by vm_compute. Qed.
