(* ===== verification/SchedTheorems.v ===== *)
(** * What the scheduler guarantees

    The theorems on the scheduler's state, calls and steps, each evaluated on
    the small system of SchedSystem.v. *)
From Stdlib Require Import ZArith Lia.
From stdpp Require Import base tactics gmap strings numbers option list.
From S2P Require Import Prelude Blocks Request Hashing Env OrderedDict KVCacheManager EncoderCache EncoderCacheSpec RequestQueue SchedUtils SchedChunk SchedEncoder SchedRequest SchedIface Scheduler SchedulerInv SchedulerOps SchedulerPreempt SchedulePass ScheduleInv ScheduleRun ScheduleWait ScheduleAdmit ScheduleLoop Schedule ScheduleSpec SchedUpdate SchedBlind SchedUpdateInv SchedDeliver SchedUpdateLoop SchedUpdateSpec SchedDrafts SchedDraftsSpec SchedulerSteps SchedServices EncoderLaws SchedSystem.

Local Open Scope Z_scope.

Section Theorems.
Context `{Env} {K E C X : Type} (cfg : SchedConfig) (cfg_ok : config_ok cfg).
Context `{KVAdmitLaws (sc_block_size cfg) K} `{!KVStep K} `{!KVStepLaws K}.
Context `{EncoderScheduleLaws E} `{!EncoderStep E} `{!EncoderStepLaws E}.
Context `{ConnectorScheduleLaws C} `{!ConnectorStep C} `{!ConnectorStepLaws C} `{ECScheduleLaws X} `{!ECStep X} `{!ECStepLaws X}.
Context `{!KVUpdate K} `{!KVUpdateLaws K} `{!EncoderUpdateLaws E} `{!ConnectorUpdate C} `{!ConnectorUpdateLaws C} `{!ECUpdate X} `{!ECUpdateLaws X}.
Context (block_size_pos : 0 < sc_block_size cfg) (no_loras : max_loras cfg = None).
Context (lookup_covers : forall l, dynamic_sd_lookup cfg = Some l -> max_num_running_reqs cfg < zlen l).
Context (block_hasher : option (M Request (list BlockHash))).
Context (hasher_total : forall h, block_hasher = Some h -> forall r, wp h (fun _ r' => same_but_memo r r') r).
Local Abbreviation Sched := (Scheduler K E C X).
Local Abbreviation lifecycle := (lifecycle cfg).
Implicit Types s : Sched.




(** [add_request] of a new id returns; the dictionary then has the request
    under its id, and it is one more member of the queue of its status, skipped
    when blocked and waiting otherwise, while every other queue is unchanged. *)
Theorem add_request_new s a o :
  lifecycle [] s -> objs s !! a = Some o -> arrival_ok s a o -> od_get (so_id o) (requests s) = None ->
  exists s', sched_add_request cfg block_hasher a s = Ok tt s' /\ lifecycle [] s' /\
    od_get (so_id o) (requests s') = Some a /\ enqueued a (is_blocked_waiting_status (so_status o)) s s'.
Proof.
  intros L Ho Ha Hg. pose proof (add_new_spec cfg block_hasher s a o L Ho Ha Hg) as Hw.
  apply wp_ok in Hw as ([] & s' & Hs). by exists s'.
Qed.

(** C5.  [finish_requests] finishes exactly the tracked unfinished requests of the
    given ids, each once: they have the final status, they are in no queue, and
    the requests of other ids keep their objects and their places. *)
Theorem finish_requests_exact t st s :
  lifecycle [] s -> is_finished st = true ->
  exists l s', finish_requests cfg t st s = Ok l s' /\ lifecycle [] s' /\ all_finished st l s s' /\ NoDup l /\
    forall a, a ∈ l <-> exists o, tracked s a o /\ so_id o ∈ target_ids t s /\ so_finished o = false.
Proof. intros L Hst. apply wp_ok. by apply finish_requests_spec. Qed.

(** A preempted request starts over; its output in flight is stale. *)
Definition starts_over (o o' : SReq) : Prop :=
  so_status o' = PREEMPTED /\ num_computed_tokens (sr_request o') = 0 /\ num_output_placeholders o' = 0 /\
  spec_token_ids o' = [] /\ num_stale_output_tokens o' = num_in_flight_tokens (sr_request o) /\ drop_stale_output o' = true /\
  num_preemptions (sr_request o') = num_preemptions (sr_request o) + 1 /\ all_token_ids (sr_request o') = all_token_ids (sr_request o).

Lemma reset_starts_over rr s s' : after_reset cfg rr s s' -> rr = true ->
  forall a o, a ∈ running s -> objs s !! a = Some o -> exists o', objs s' !! a = Some o' /\ starts_over o o'.
Proof.
  intros [_ R] -> a o Ha Ho. exists (preempted true o). split; [|by repeat split]. by rewrite (ap_objs _ _ _ R a o Ho), decide_True.
Qed.

(** C19.  [reset_prefix_cache] either returns, or, only when asked to reset the
    running requests, raises [RuntimeError]; both ways the invariant holds and,
    if asked, all running requests are preempted: none runs, they are in the
    waiting queue, in front of it and in their order under FCFS, they start over
    with no computed tokens and their output in flight marked stale, and the KV
    cache holds nothing for them. *)
Theorem reset_prefix_cache_outcome rr rc s :
  lifecycle [] s ->
  exists s', ((exists b, sched_reset_prefix_cache rr rc s = Ok b s') \/ (sched_reset_prefix_cache rr rc s = Raise RuntimeError s' /\ rr = true)) /\
    after_reset cfg rr s s' /\
    (rr = true -> forall a o, a ∈ running s -> objs s !! a = Some o -> exists o', objs s' !! a = Some o' /\ starts_over o o').
Proof.
  intros L. pose proof (sched_reset_spec cfg rr rc s L) as Hw. unfold wpe in Hw.
  destruct (sched_reset_prefix_cache rr rc s) as [b s'|e s']; exists s'.
  - split_and!; [left; by exists b|done|by apply reset_starts_over].
  - destruct Hw as (-> & Hrr & Ha). split_and!; [by right|done|by apply reset_starts_over].
Qed.

(** [get_num_unfinished_requests], computed from the lengths of the queues
    and the count of paused sessions, is the number of tracked requests that are
    neither finished nor sessions without input, of those that run when new
    requests are paused, and 0 when all are. *)
Theorem unfinished_count s :
  lifecycle [] s ->
  get_num_unfinished_requests s =
    match pause_state s with
    | UNPAUSED => zlen (tracked_with awaits_work s)
    | PAUSED_NEW => zlen (tracked_with is_running s)
    | PAUSED_ALL => 0
    end.
Proof. by apply unfinished_spec. Qed.

(** C20.  Whatever the state, the output of [schedule] is well formed: the parallel
    lists of [CachedRequestData] have one entry for each of its requests, with
    token ids exactly when a later pipeline stage needs them, resumed ids and ids
    with all tokens are among its requests, the total is the sum of the scheduled
    tokens, and under the second model runner no request is reported as
    resumed. *)
Theorem schedule_output_type throttle s out s' :
  schedule cfg throttle s = Ok out s' -> output_aligned cfg out.
Proof. apply (schedule_aligned cfg throttle). Qed.


(** C15.  [_update_request_with_output] appends the sampled tokens up to the first
    one after which a stop criterion holds (an end token, a stop token, a length
    limit or a repetition), and all of them if none does; it reports a stop exactly
    in the first case, and the request is then finished. *)
Theorem sampled_tokens_kept a l s o :
  objs s !! a = Some o -> generates (sr_request o) ->
  exists new stopped r' s', append_until_stop cfg block_hasher a [] l s = Ok (new, stopped) s' /\
    kept_tokens cfg (sr_request o) l new stopped /\ appended new (sr_request o) r' /\
    (if stopped : bool then is_finished (status r') = true else status r' = status (sr_request o)) /\
    s' = set_objs (<[a := so_set_request r' o]> (objs s)) s.
Proof.
  intros Ho Hg. destruct (wp_ok _ _ _ (append_until_stop_spec cfg block_hasher hasher_total a l [] s o Ho Hg))
    as ([new stopped] & s' & Hr & new' & r' & Hn & Hk & Ha & Hst & ->). cbn in Hn, Hk, Hst. subst new'. by exists new, stopped, r', (set_objs (<[a := so_set_request r' o]> (objs s)) s).
Qed.

(** C16.  [_update_requests_with_invalid_blocks] on a request: of the blocks that
    may hold tokens computed before the step, none that failed to load is within
    the computed tokens the request is left with, except, with a single cache
    group, blocks an earlier request of the scan is going to recompute; when
    blocks are to be evicted, every failed one is among them or is recomputed by
    an earlier request; a request that is not reported as affected is unchanged. *)
Theorem failed_loads_cut invalid nums evict v s a o :
  0 < sc_block_size cfg -> objs s !! a = Some o -> kv_get_block_ids (so_id o) (kv_cache_manager s) <> [] ->
  exists v' n, scan_request cfg invalid nums evict v a s =
      Ok v' (set_objs (<[a := so_set_request (set_computed n (sr_request o)) o]> (objs s)) s) /\
    cut_safely cfg invalid evict nums (kv_get_block_ids (so_id o) (kv_cache_manager s)) o n v v'.
Proof. apply scan_request_cuts. Qed.

(** C18.  [update_draft_token_ids] returns and keeps the invariant of the request
    lifecycle; beside the cache of late drafts only the named unfinished requests
    change, and only in their drafts, which become tokens of their row up to the
    first padding or the first token the grammar refuses.  The drafts of
    structured requests scheduled since their step are cached, all of this call,
    behind the newest earlier entries that fit the cache's bound. *)
Theorem draft_tokens_taken ans validate d s :
  answers_ok ans -> (forall o l, validate o l `prefix_of` l) -> lifecycle [] s -> drafts_ok cfg d s ->
  exists s', update_draft_token_ids cfg ans validate d s = Ok tt s' /\ lifecycle [] s' /\
    drafts_taken cfg ans validate (producer_step_id d) (draft_rows d) s s' /\
    (forall rid l a o o', (rid, l) ∈ draft_rows d -> od_get rid (requests s) = Some a -> objs s !! a = Some o -> objs s' !! a = Some o' ->
      spec_token_ids o' = spec_token_ids o \/ spec_token_ids o' `prefix_of` l /\ Forall (fun t => 0 <= t) (spec_token_ids o')) /\
    zlen (pending s') <= max_pending_draft_token_ids cfg.
Proof.
  intros Ha Hv L Hok. destruct (wp_ok _ _ _ (drafts_spec cfg ans validate Ha d s L Hok)) as ([] & s' & Hr & T & L').
  exists s'. split; [done|]. split; [done|]. split; [done|]. split.
  - intros rid l a o o' Hin Hg Ho Ho'. rewrite (dt_objects _ _ _ _ _ _ _ T rid l a o Hin Hg Ho) in Ho'. injection Ho' as <-.
    destruct (so_finished o); [by left|by apply draft_object_tokens].
  - rewrite (dt_pending _ _ _ _ _ _ _ T). apply cached_bound. destruct Hok as [_ [O2 _] _ _].
    pose proof (late_rows_length (producer_step_id d) s (draft_rows d)). unfold zlen in *. lia.
Qed.

(** C17.  [update_draft_token_ids_in_output] returns and keeps the invariant of the
    request lifecycle; in the output only the drafts, their steps and the counts
    of invalid drafts change, and every row keeps its request and its length, so
    the numbers of scheduled tokens stay right.  The placeholders of a live
    request are filled with drafts of the step that was asked for, from this call
    or the cache: tokens that are neither padding nor refused by the grammar, then
    padding, which is counted; without such drafts with padding alone.  Other
    rows stay, and no entry for a settled step is left in the cache. *)
Theorem placeholders_filled ans validate d out s :
  answers_ok ans -> (forall o l, validate o l `prefix_of` l) -> lifecycle [] s -> output_drafts_ok d out s ->
  exists out' s', update_draft_token_ids_in_output ans validate d out s = Ok out' s' /\
    lifecycle [] s' /\ output_filled ans validate d out s out' s'.
Proof.
  intros Ha Hv L Hok. destruct (wp_ok _ _ _ (output_drafts_spec cfg ans validate Ha Hv d out s L Hok)) as (out' & s' & Hr & F & L').
  by exists out', s'.
Qed.

End Theorems.

(** ** The theorems on the small system *)




(** A fourth request arrives while two run. *)
Definition sys_d : SReq := sys_object "d" 2 0 3 false.
Definition sys_arriving : Scheduler TokenKV EncoderCacheManager unit unit := run_ok (EvRequest 4 sys_d) sys_running.

Lemma sys_arriving_lifecycle : lifecycle sys_cfg [] sys_arriving.
Proof. apply sys_lifecycle, run_reach; [apply sys_running_reachable|by vm_compute]. Qed.

Lemma add_request_new_witness :
  exists s', sched_add_request sys_cfg None 4 sys_arriving = Ok tt s' /\ lifecycle sys_cfg [] s' /\
    od_get "d" (requests s') = Some 4 /\ enqueued 4 (is_blocked_waiting_status WAITING) sys_arriving s'.
Proof.
  apply (add_request_new sys_cfg None sys_arriving 4 sys_d).
  - apply sys_arriving_lifecycle.
  - vm_compute. reflexivity.
  - apply sys_arrival; try (vm_compute; reflexivity); [vm_compute; discriminate|by eexists].
  - vm_compute. reflexivity.
Defined.

Lemma finish_requests_exact_witness :
  exists l s', finish_requests sys_cfg (FinishOne "b") FINISHED_ABORTED sys_running = Ok l s' /\ lifecycle sys_cfg [] s' /\
    all_finished FINISHED_ABORTED l sys_running s' /\ NoDup l /\
    forall a, a ∈ l <-> exists o, tracked sys_running a o /\ so_id o ∈ target_ids (FinishOne "b") sys_running /\ so_finished o = false.
Proof.
  apply (finish_requests_exact sys_cfg).
  - apply sys_lifecycle, sys_running_reachable.
  - reflexivity.
Defined.

Lemma reset_prefix_cache_outcome_witness :
  exists s', ((exists b, sched_reset_prefix_cache true false sys_running = Ok b s') \/
      (sched_reset_prefix_cache true false sys_running = Raise RuntimeError s' /\ true = true)) /\
    after_reset sys_cfg true sys_running s' /\
    (true = true -> forall a o, a ∈ running sys_running -> objs sys_running !! a = Some o ->
      exists o', objs s' !! a = Some o' /\ starts_over o o').
Proof. apply (reset_prefix_cache_outcome sys_cfg). apply sys_lifecycle, sys_running_reachable. Defined.

Lemma unfinished_count_witness :
  get_num_unfinished_requests sys_running = zlen (tracked_with awaits_work sys_running) /\ zlen (tracked_with awaits_work sys_running) = 3.
Proof.
  split; [|vm_compute; reflexivity]. apply (unfinished_count sys_cfg sys_running). apply sys_lifecycle, sys_running_reachable.
Defined.

Lemma schedule_output_type_witness : exists out s', schedule sys_cfg false sys_waiting = Ok out s' /\ output_aligned sys_cfg out.
Proof.
  destruct (schedule sys_cfg false sys_waiting) as [out s'|e s'] eqn:Er; [|vm_compute in Er; discriminate Er].
  exists out, s'. split; [reflexivity|]. exact (schedule_output_type sys_cfg false sys_waiting out s' Er).
Defined.


(** Token 9 ends the generation; 7 is dropped. *)
Lemma sampled_tokens_kept_witness : exists o, objs sys_running !! 1 = Some o /\
  exists new stopped r' s', append_until_stop sys_cfg None 1 [] [5; 9; 7] sys_running = Ok (new, stopped) s' /\
    kept_tokens sys_cfg (sr_request o) [5; 9; 7] new stopped /\ appended new (sr_request o) r' /\
    (if stopped : bool then is_finished (status r') = true else status r' = status (sr_request o)) /\
    s' = set_objs (<[1 := so_set_request r' o]> (objs sys_running)) sys_running.
Proof.
  destruct (objs sys_running !! 1) as [o|] eqn:Eo; [|vm_compute in Eo; discriminate Eo]. exists o. split; [reflexivity|].
  apply (sampled_tokens_kept sys_cfg None no_hasher 1 [5; 9; 7] sys_running o Eo).
  vm_compute in Eo. injection Eo as <-. split; [reflexivity|by eexists].
Defined.

(** A KV cache that is its table of blocks: the second of the three computed
    blocks of request "a" failed to load. *)
#[local] Instance table_kv_update : KVUpdate (gmap string (list (list Z))) := {
  kv_get_block_ids rid t := default [[]] (t !! rid);
  kv_evict_blocks _ := mret tt;
  kv_take_events := mret tt
}.
Definition loaded_request : SReq := so_set_request (set_computed 12 (sys_request "a" 14 0 0)) (sys_object "a" 14 0 0 false).
Definition loaded_sched : Scheduler (gmap string (list (list Z))) unit unit unit :=
  set_objs {[1 := loaded_request]} (sched_init sys_cfg false {["a"%string := [[10; 11; 12]]]} tt None None).

Lemma failed_loads_cut_witness :
  exists v' n, scan_request sys_cfg {[11]} [] true (mkInvalidScan ∅ ∅ ∅) 1 loaded_sched =
      Ok v' (set_objs (<[1 := so_set_request (set_computed n (sr_request loaded_request)) loaded_request]> (objs loaded_sched)) loaded_sched) /\
    cut_safely sys_cfg {[11]} true [] (kv_get_block_ids (so_id loaded_request) (kv_cache_manager loaded_sched)) loaded_request n (mkInvalidScan ∅ ∅ ∅) v'.
Proof.
  apply (failed_loads_cut sys_cfg {[11]} [] true (mkInvalidScan ∅ ∅ ∅) loaded_sched 1 loaded_request).
  - reflexivity.
  - vm_compute. reflexivity.
  - vm_compute. discriminate.
Defined.

(** Drafts of a synchronous step for the request that decodes and for the one in
    its prompt: the padding and what follows is dropped. *)
Definition sys_drafts : DraftTokenIds := mkDraftTokenIds ["a"%string; "b"%string] [[5; -1; 7]; [6]] None.

Lemma sys_running_ready ids : grammars_ready ids sys_running.
Proof.
  intros rid o _ Hl. left. revert Hl. unfold live. destruct (od_get rid (requests sys_running)) as [a|] eqn:Ea; [|done].
  assert (requests sys_running = [("a"%string, 1); ("b"%string, 2); ("c"%string, 3)]) as Er by by vm_compute.
  rewrite Er in Ea. apply od_get_elem in Ea. rewrite !elem_of_cons, elem_of_nil in Ea.
  destruct Ea as [[= -> ->]|[[= -> ->]|[[= -> ->]|[]]]]; vm_compute; by intros [= <-].
Qed.

Lemma draft_tokens_taken_witness :
  exists s', update_draft_token_ids sys_cfg no_grammars (fun _ l => l) sys_drafts sys_running = Ok tt s' /\ lifecycle sys_cfg [] s' /\
    drafts_taken sys_cfg no_grammars (fun _ l => l) None (draft_rows sys_drafts) sys_running s' /\
    (spec_token_ids <$> objs s' !! 1) = Some [5] /\ (spec_token_ids <$> objs s' !! 2) = Some [].
Proof.
  destruct (draft_tokens_taken sys_cfg no_grammars (fun _ l => l) sys_drafts sys_running) as (s' & Hr & L & T & _).
  - done.
  - done.
  - apply sys_lifecycle, sys_running_reachable.
  - split; [decide_goal|by vm_compute|done|apply sys_running_ready].
  - exists s'. split; [exact Hr|]. split; [exact L|]. split; [exact T|]. vm_compute in Hr. injection Hr as <-. split; vm_compute; reflexivity.
Defined.

(** A step with two placeholders for each request: the drafts of step 3 came for
    the first one only. *)
Definition sys_bound_output (out : SchedulerOutput) : SchedulerOutput :=
  out_set_drafts [("a"%string, [-1; -1]); ("b"%string, [-1; -1])] (Some [("a"%string, 3); ("b"%string, 3)]) None out.
Definition sys_bound_drafts : option DraftTokenIds := Some (mkDraftTokenIds ["a"%string] [[5; -1]] (Some 3)).

Lemma placeholders_filled_witness : exists out s1, schedule sys_cfg false sys_waiting = Ok out s1 /\
  exists out' s', update_draft_token_ids_in_output no_grammars (fun _ l => l) sys_bound_drafts (sys_bound_output out) sys_running = Ok out' s' /\
    output_filled no_grammars (fun _ l => l) sys_bound_drafts (sys_bound_output out) sys_running out' s' /\
    out_spec_tokens out' = [("a"%string, [5; -1]); ("b"%string, [-1; -1])] /\
    out_num_invalid_spec_tokens out' = Some [("a"%string, 1); ("b"%string, 2)].
Proof.
  destruct (schedule sys_cfg false sys_waiting) as [out s1|e s1] eqn:Er; [|vm_compute in Er; discriminate Er].
  exists out, s1. split; [reflexivity|].
  destruct (placeholders_filled sys_cfg no_grammars (fun _ l => l) sys_bound_drafts (sys_bound_output out) sys_running) as (out' & s' & Hr & _ & F).
  - done.
  - done.
  - apply sys_lifecycle, sys_running_reachable.
  - split; [cbn; decide_goal|decide_goal|apply sys_running_ready].
  - exists out', s'. split; [exact Hr|]. split; [exact F|]. clear F. vm_compute in Er. injection Er as <- <-. vm_compute in Hr. injection Hr as <- <-.
    split; vm_compute; reflexivity.
Defined.
